(* ===== verification/_CoqProject ===== *)
-Q . S2P
Prelude.v
Utf8.v
Errors.v
External.v
Json.v
JsonSamples.v
DevinWire.v
Inbox.v
Transport.v
Routes.v
Message.v
Configuration.v
Tokens.v
Usage.v
CheckpointMessages.v
Cas.v
CheckpointState.v
Blobs.v
Replay.v
Float.v
Budget.v
Trim.v
Compaction.v
Summary.v
ModelCycle.v
Provider.v
Upstream.v
OpenAiChat.v
Requests.v
Anthropic.v
AnthropicRequest.v
OpenAiResponses.v
ResponsesRequest.v
Store.v
Spill.v
StoreInvariants.v
StoreMachine.v
StoreReferences.v
Retention.v
Checkpoint.v
CheckpointFacts.v
ToolRound.v
Engine.v
EngineEffects.v
EngineBounds.v
EngineFinal.v
EngineFacts.v
JsonStream.v
Interaction.v
ToolStream.v
Edit.v
Schedule.v
ToolRuntime.v
StopFilter.v
ClaudeApi.v
ClaudeStream.v
ClaudeStreamFacts.v
ClaudeDocument.v
ClaudeRequest.v
ClaudeHistory.v
ClaudeGateway.v
DevinSettings.v
DevinFields.v
DevinRequest.v
DevinResponse.v
DevinRelay.v
DevinAssignment.v
DevinGateway.v
