(* ===== verification/Prelude.v ===== *)
(** * haxsd-byok: a verification development

    haxsd-byok (server/ of this repository) is a local server between coding clients and the providers of language
    models.  Cursor speaks a Connect protocol to it, Claude Code the Messages API, Devin protobuf over HTTP; the server
    keeps the conversation in SQLite, calls a provider over HTTP, and lets the client execute the tools the model calls.
    This library models its core in Rocq, one file per component, and states what makes each component correct.

    ** Conventions

    - A definition carries the file, the lines and the name of the code it models.  Integers of the machine are [Z] with
      their wrap-around or saturation written out; a text is a list of code points ([str]), bytes are a [list Z]; a map of
      the program is a [gmap] or, where its order matters, an association list.
    - A [Result] is [result E A], whose bind is [?] ([res] has the errors of error.rs, [api] those of the Messages API).
      Stateful code is a function of its state; where it threads a state, an output and failures, a monad of its own:
      [Eng] (Engine), [Build] (Checkpoint), [Yield] (Provider), [Emit] (ClaudeStream), [Gw] (ClaudeGateway).
    - Concurrency is cut at the awaits of the code: what an operation does between two awaits is one function, and what
      the rest of the program and the world do in between is an input or a step of a relation.
    - Code of other crates is a class (External.v and the heads of the files): serde_json, base64, flate2, SHA-256, URLs,
      clocks.  What is assumed of it is a second class of laws ([SerdeJsonFits], [SerdeNumberLaws], [GzipLaws],
      [SerdeStringLaws]; [BackendLaws] of the payloads of the store, which carry the ids of their messages), and the theorems that need laws have witnesses with concrete instances (JsonSamples.v is a JSON
      printer and parser that agree).

    ** The components

    Foundations: Prelude.v (results, machine integers, UTF-8, texts, decimal numbers, loops, the tactics and the hints
    all files share), Errors.v (error.rs, run/event.rs), External.v, Utf8.v (texts read from bytes), Json.v (serde_json's values), Float.v (the doubles
    of the token estimates).

    The conversation.  Message.v is the data model (model/message.rs, tool.rs, run.rs, inference.rs) and its projection
    to what a provider sees (model/projection.rs): every call paired with one result.  Store.v is the SQLite store of
    conversations, messages, checkpoints, runs and tool rounds (store/*.rs), one function per transaction;
    StoreInvariants.v has the invariant every transaction keeps, StoreMachine.v the store as a state machine - who owns a
    conversation, what its history is, that a message is appended once -, StoreReferences.v what its rows refer to.
    Retention.v (store/retention.rs, the anchors of store/input_anchors.rs) recycles conversations and collects blobs, Cas.v (store/cas.rs,
    cursor/services/blob_sync.rs) is the content-addressed blobs and their synchronization with the client, Spill.v
    (model/tool_result_spill.rs) the files of large results.

    A run.  Engine.v (run/engine.rs) is a run from its claim to its end: prepare a call, consume it, execute its tools,
    retry, compact, wait for children, store the outcome; its environment is the list of what each suspension yields.
    It calls ModelCycle.v (run/model_cycle.rs, model_retry.rs: the events of one streaming call), ToolRound.v
    (run/tool_round.rs, messages.rs, command.rs: one round of tool calls), Budget.v (context budgets, overflow, limits),
    Trim.v, Compaction.v and Summary.v (run/compaction.rs, history.rs), Tokens.v (model/token_count.rs) and Replay.v
    (model/tool_result_replay.rs).  EngineEffects.v, EngineBounds.v and EngineFinal.v carry the proofs of EngineFacts.v:
    what a completed run left in the store, that a run ends once and touches only its conversation, how many calls a turn
    makes.

    Providers.  Configuration.v (model/configuration.rs) normalizes what a user configured; Requests.v,
    AnthropicRequest.v and ResponsesRequest.v are the requests of the three adapters (provider/*.rs) and OpenAiChat.v,
    Anthropic.v and OpenAiResponses.v the events they make of a response.  The class [Adapter] of Provider.v is what an
    adapter promises the model cycle - a grammar of events - and each adapter discharges it, so that ModelCycle.v is
    reasoned about once.  Upstream.v (upstream.rs) sends requests, with retries.

    Cursor.  Inbox.v, Transport.v and Routes.v (cursor/transport/) order appended messages, admit requests, replay output
    and route; CheckpointMessages.v, CheckpointState.v and Checkpoint.v (cursor/checkpoint/) build, recover, compact and
    publish the state of a conversation that Cursor keeps, over the class [Blobs] of Blobs.v, of which the synchronized
    store of Cas.v is the instance; CheckpointFacts.v has their theorems.  Interaction.v, JsonStream.v, ToolStream.v,
    Edit.v, Schedule.v, ToolRuntime.v and Usage.v (cursor/protocol/, cursor/tools/, cursor/services/usage.rs) are the
    cards of tool calls, the edits of files, their queue, the executions of a client, the usage of a context.

    Claude Code.  ClaudeApi.v (anthropic/mod.rs, models.rs), ClaudeRequest.v and ClaudeStream.v with StopFilter.v
    (anthropic/messages.rs) turn a request into a model call and the events of a provider into a stream or a document of
    the Messages API; ClaudeGateway.v (anthropic/gateway.rs, store/claude.rs) is the listener, the settings, the token and
    the handlers.  ClaudeStreamFacts.v, ClaudeDocument.v and ClaudeHistory.v have the theorems; the responses are proved
    valid against the grammar that Anthropic.v, the client side of the same protocol, reads.

    Devin.  DevinWire.v (devin/wire.rs) is the protobuf and Connect framing of its gateway, DevinFields.v what is shared
    over it.  DevinSettings.v (devin/mod.rs, the cache in store/settings.rs) says which model serves a request,
    DevinRequest.v (devin/request.rs) makes a model call of it and DevinResponse.v (devin/response.rs, the stream of
    gateway.rs) frames of the events of its provider; DevinRelay.v has the theorem that joins them to the model cycle.
    DevinAssignment.v (devin/assignment.rs) finds the model a request is for and DevinGateway.v (devin/gateway.rs,
    catalog.rs) is one request from its headers to its answer, what it forwards included.

    ** What the theorems show

    - Refinement: each adapter conforms to the grammar of events for every response, its requests are valid
      conversations; the result of a model cycle is that of its events; a projection pairs calls and results; a tool round
      settles every call; the worker of checkpoints publishes the state of each job, in order, up to the first that fails.
    - Invariants: a conversation is owned by one run at a time and its history only grows, by what its messages read back
      as (the parts of a result that are not serialized are lost); the stream a Claude client reads follows the grammar of
      the Messages API whatever the provider does, and is complete when the provider is; recycling removes whole
      conversations and leaves the others alone.
    - Safety: an ended run writes nothing; a published checkpoint survives the maintenance; a blob is what its digest says;
      edits of one file do not overlap between two interruptions; a rotated token is dead, and a provider is called only for an admitted request;
      the settings a Devin request is served with are never older than a finished save.
    - Round trips: a checkpoint is resumed as the conversation it was built from, where serde_json reads its
      messages as it wrote them and the digest tells them apart; a response relayed to a Claude or a Devin client and read back there is the response; what a Devin
      client writes, in any order of fields and with defaults left out, is what its gateway reads; protobuf fields.
    - Errors: a document is that of the stream's events, answered whole or not at all; settings that cannot be served are taken back.
    - Bounds, termination, liveness: the calls of a turn and the loops of a run, the summarizer's budget, the maintenance.

    Lemmas named after a defect ([late_result_fails_next_round], [call_cut_by_stop], [stale_reload] and others) show on a
    concrete state where the code does not do what its comments say; the theorem beside each says what does hold.

    ** Fuel and bounds

    A loop of the source that a measure bounds is defined by [run] of Prelude.v and needs no fuel.  The loops of the engine
    suspend at every turn and consume an input there, so [loop_inputs] gives them one turn more than there are inputs;
    [loops_have_fuel] shows that more makes no difference.  [truncate_middle] does not end for every input
    ([prune_middle_diverges]), so its fuel is a parameter of what uses it, and the theorems hold for every fuel.
    [decimal] has as many turns as the number has bits, [closure] of Retention.v as many as there are edges.  Other
    recursion is structural.

    ** Not modelled

    - HTTP, TLS, tokio tasks and channels as such, SQL text, logging, metrics, the rows that are only displayed (call
      traces, statistics): input and output of the modelled functions.
    - Generated protobuf messages beyond the fields the modelled code reads; prompt files; the per-tool conversions of
      cursor/tools, which are one branch per generated message.
    - The Codex gateway, the ports of the Devin gateway, the plugins, the desktop application and the control service:
      HTTP, process and file plumbing around the modelled core.
    - crates/semble-core: embedding models, tree-sitter and floating-point ranking. *)

From stdpp Require Import prelude gmap strings list sorting pretty.
From Stdlib Require Import Ascii Wf_nat.
Local Open Scope Z_scope.

(** ** Results

    Rust's [Result<A, E>], as a value: [E] comes first so that [result E] is a
    monad and stdpp's [x ← m; k] is the [?] operator. *)
Inductive result (E A : Type) : Type :=
  | Ok (a : A)
  | Err (e : E).
Arguments Ok {E A} a.
Arguments Err {E A} e.

Global Instance result_ret {E} : MRet (result E) := λ A a, Ok a.
Global Instance result_bind {E} : MBind (result E) := λ A B k m,
  match m with Ok a => k a | Err e => Err e end.
Global Instance result_fmap {E} : FMap (result E) := λ A B f m,
  match m with Ok a => Ok (f a) | Err e => Err e end.

Global Instance result_eq_dec {E A} `{EqDecision E, EqDecision A} : EqDecision (result E A).
Proof. solve_decision. Defined.

(** [Result::map_err]. *)
Definition map_err {E F A} (f : E → F) (m : result E A) : result F A :=
  match m with Ok a => Ok a | Err e => Err (f e) end.

(** [Option::ok_or]. *)
Definition ok_or {E A} (o : option A) (e : E) : result E A :=
  match o with Some a => Ok a | None => Err e end.

Definition is_ok {E A} (m : result E A) : bool :=
  match m with Ok _ => true | Err _ => false end.

Lemma bind_ok {E A B} (m : result E A) (k : A → result E B) b :
  (m ≫= k) = Ok b ↔ ∃ a, m = Ok a ∧ k a = Ok b.
Proof. destruct m; cbn; naive_solver. Qed.

Lemma bind_err {E A B} (m : result E A) (k : A → result E B) e :
  (m ≫= k) = Err e ↔ m = Err e ∨ ∃ a, m = Ok a ∧ k a = Err e.
Proof. destruct m; cbn; naive_solver. Qed.

Lemma ok_or_ok {E A} (o : option A) (e : E) a : ok_or o e = Ok a ↔ o = Some a.
Proof. destruct o; cbn; naive_solver. Qed.

Lemma map_err_ok {E F A} (f : E → F) (m : result E A) a : map_err f m = Ok a ↔ m = Ok a.
Proof. destruct m; cbn; naive_solver. Qed.
Lemma ok_equal {E A} (a b : A) : @Ok E A a = Ok b ↔ a = b.
Proof. naive_solver. Qed.

(** The equations a computation that returned leaves behind: [invert_ok H as x] names the value of the first step of
    [H : (m ≫= k) = Ok b], and the database [results] turns what is known of it into equations without [Ok]. *)
Create Rewrite HintDb results.
#[export] Hint Rewrite @ok_or_ok @map_err_ok @ok_equal : results.
Tactic Notation "invert_ok" hyp(H) "as" ident(x) ident(Hx) :=
  apply bind_ok in H; destruct H as (x & Hx & H); autorewrite with results in Hx.

(** ** Machine integers and bytes

    A [w]-bit unsigned integer is a [Z]; [wrap w] is what the machine keeps.
    Lengths and offsets that the program compares with large constants are [Z]
    through [zlen]; positions in a buffer are [nat]. *)
Definition wrap (w : Z) (z : Z) : Z := z `mod` 2 ^ w.
Abbreviation u8 := (wrap 8).
Abbreviation u32 := (wrap 32).
Abbreviation u64 := (wrap 64).
Definition U64_MAX : Z := 2 ^ 64 - 1.
Definition USIZE_MAX : Z := U64_MAX.
Definition I64_MAX : Z := 2 ^ 63 - 1.
Definition I64_MIN : Z := - 2 ^ 63.

(** [saturating_sub] and [saturating_add] on [u64]/[usize], and on [i64]. *)
Definition sat_sub (a b : Z) : Z := Z.max 0 (a - b).
Definition sat_add (a b : Z) : Z := Z.min U64_MAX (a + b).
Definition sat_mul (a b : Z) : Z := Z.min U64_MAX (a * b).
Definition clamp_i64 (z : Z) : Z := Z.max I64_MIN (Z.min I64_MAX z).
Definition sat_sub_i64 (a b : Z) : Z := clamp_i64 (a - b).
Definition sat_add_i64 (a b : Z) : Z := clamp_i64 (a + b).

Lemma sat_add_assoc a b c : 0 ≤ a → 0 ≤ c → sat_add a (sat_add b c) = sat_add (sat_add a b) c.
Proof. unfold sat_add. lia. Qed.
Lemma sat_add_bound a b : 0 ≤ a → 0 ≤ b → 0 ≤ sat_add a b ≤ U64_MAX.
Proof. unfold sat_add, U64_MAX. lia. Qed.
Lemma sat_add_0_l a : a ≤ U64_MAX → sat_add 0 a = a.
Proof. unfold sat_add. lia. Qed.

Definition zlen {A} (l : list A) : Z := Z.of_nat (length l).
Definition is_byte (b : Z) : Prop := 0 ≤ b < 256.
Definition bytes_ok (l : list Z) : Prop := Forall is_byte l.

Lemma zlen_nil {A} : zlen (@nil A) = 0.
Proof. done. Qed.
Lemma zlen_cons {A} (x : A) l : zlen (x :: l) = 1 + zlen l.
Proof. unfold zlen; cbn; lia. Qed.
Lemma zlen_app {A} (l k : list A) : zlen (l ++ k) = zlen l + zlen k.
Proof. unfold zlen; rewrite length_app; lia. Qed.
Lemma zlen_nonneg {A} (l : list A) : 0 ≤ zlen l.
Proof. unfold zlen; lia. Qed.
Lemma wrap_small w z : 0 ≤ z < 2 ^ w → wrap w z = z.
Proof. apply Z.mod_small. Qed.
Lemma wrap_bound w z : 0 ≤ w → 0 ≤ wrap w z < 2 ^ w.
Proof. intros; apply Z.mod_pos_bound; lia. Qed.

Lemma bytes_ok_app l k : bytes_ok (l ++ k) ↔ bytes_ok l ∧ bytes_ok k.
Proof. apply Forall_app. Qed.

(** Decides the comparisons of the goal that linear arithmetic settles. *)
Ltac decide_bools := repeat match goal with
  | |- context [?a <? ?b] => first [rewrite (proj2 (Z.ltb_lt a b)) by lia | rewrite (proj2 (Z.ltb_ge a b)) by lia]
  | |- context [?a <=? ?b] => first [rewrite (proj2 (Z.leb_le a b)) by lia | rewrite (proj2 (Z.leb_gt a b)) by lia]
  | |- context [?a =? ?b] => first [rewrite (proj2 (Z.eqb_eq a b)) by lia | rewrite (proj2 (Z.eqb_neq a b)) by lia]
  end; cbn [andb orb negb].

(** ** Text

    A Rust [String] is the list of its characters, each one a Unicode scalar
    value; [lit] reads an ASCII literal of the source. *)
Abbreviation str := (list Z) (only parsing).
Definition lit (s : string) : str :=
  (λ a, Z.of_N (N_of_ascii a)) <$> String.list_ascii_of_string s.

Lemma lit_inj s t : lit s = lit t → s = t.
Proof.
  unfold lit. intros H. rewrite <- (String.string_of_list_ascii_of_string s), <- (String.string_of_list_ascii_of_string t).
  f_equal. revert H. generalize (String.list_ascii_of_string s) as l, (String.list_ascii_of_string t) as k.
  induction l as [|a l IH]; intros [|b k]; try done. intros [= E1 E2]. f_equal; [|by apply IH].
  rewrite <- (ascii_N_embedding a), <- (ascii_N_embedding b). f_equal. lia.
Qed.

(** A literal with the double quotes of the source written as single ones. *)
Definition qlit (s : string) : str := (λ c, if c =? 39 then 34 else c) <$> lit s.

(** [char::is_whitespace]: the code points with the White_Space property. *)
Definition is_whitespace (c : Z) : bool :=
  (9 <=? c) && (c <=? 13) || (c =? 32) || (c =? 133) || (c =? 160) || (c =? 5760)
  || (8192 <=? c) && (c <=? 8202) || (c =? 8232) || (c =? 8233) || (c =? 8239)
  || (c =? 8287) || (c =? 12288).
Definition is_ascii_digit (c : Z) : bool := (48 <=? c) && (c <=? 57).
Definition is_ascii_upper (c : Z) : bool := (65 <=? c) && (c <=? 90).
Definition is_ascii_lower (c : Z) : bool := (97 <=? c) && (c <=? 122).
Definition is_ascii_alnum (c : Z) : bool :=
  is_ascii_digit c || is_ascii_upper c || is_ascii_lower c.
Definition is_ascii_hexdigit (c : Z) : bool :=
  is_ascii_digit c || (65 <=? c) && (c <=? 70) || (97 <=? c) && (c <=? 102).
Definition to_ascii_lower (c : Z) : Z := if is_ascii_upper c then c + 32 else c.

Fixpoint trim_start (s : str) : str :=
  match s with
  | [] => []
  | c :: s' => if is_whitespace c then trim_start s' else s
  end.
(** [str::trim]. *)
Definition trim (s : str) : str := reverse (trim_start (reverse (trim_start s))).

(** [char::len_utf8] and [str::len] (the length in bytes). *)
Definition len_utf8 (c : Z) : Z :=
  if c <? 128 then 1 else if c <? 2048 then 2 else if c <? 65536 then 3 else 4.
Definition str_len (s : str) : Z := foldr (λ c n, len_utf8 c + n) 0 s.

Lemma len_utf8_bound c : 1 ≤ len_utf8 c ≤ 4.
Proof. unfold len_utf8; repeat case_match; lia. Qed.
Lemma str_len_cons c s : str_len (c :: s) = len_utf8 c + str_len s.
Proof. done. Qed.
Lemma str_len_app s t : str_len (s ++ t) = str_len s + str_len t.
Proof. induction s as [|c s IH]; [done|]. rewrite <- app_comm_cons, !str_len_cons; lia. Qed.
Lemma str_len_bound s : zlen s ≤ str_len s ≤ 4 * zlen s.
Proof.
  induction s as [|c s IH]; [done|]. rewrite str_len_cons, zlen_cons.
  pose proof (len_utf8_bound c); lia.
Qed.

(** [str::as_bytes]: the UTF-8 encoding. *)
Definition utf8 (c : Z) : list Z :=
  if c <? 128 then [c]
  else if c <? 2048 then [192 + c / 64; 128 + c `mod` 64]
  else if c <? 65536 then [224 + c / 4096; 128 + (c / 64) `mod` 64; 128 + c `mod` 64]
  else [240 + c / 262144; 128 + (c / 4096) `mod` 64; 128 + (c / 64) `mod` 64; 128 + c `mod` 64].
Definition as_bytes (s : str) : list Z := s ≫= utf8.

Lemma utf8_len c : zlen (utf8 c) = len_utf8 c.
Proof. unfold utf8, len_utf8; by repeat case_match. Qed.
Lemma as_bytes_len s : zlen (as_bytes s) = str_len s.
Proof.
  induction s as [|c s IH]; [done|].
  unfold as_bytes in *. cbn. by rewrite zlen_app, IH, utf8_len.
Qed.
Lemma as_bytes_app s t : as_bytes (s ++ t) = as_bytes s ++ as_bytes t.
Proof. apply bind_app. Qed.
Lemma as_bytes_ascii s : Forall (λ c, c < 128) s → as_bytes s = s.
Proof.
  induction 1 as [|c s Hc _ IH]; [done|]. unfold as_bytes in *. cbn.
  unfold utf8 at 1. by rewrite (proj2 (Z.ltb_lt c 128)), IH by done.
Qed.

(** [str::split(sep)] for one separator character. *)
Fixpoint split_on (sep : Z) (s : str) : list str :=
  match s with
  | [] => [[]]
  | c :: s' =>
      if c =? sep then [] :: split_on sep s'
      else match split_on sep s' with
           | w :: ws => (c :: w) :: ws
           | [] => [[c]]
           end
  end.

(** [str::split_whitespace]: the non-empty pieces. *)
Fixpoint split_ws_aux (acc : str) (s : str) : list str :=
  match s with
  | [] => match acc with [] => [] | _ => [reverse acc] end
  | c :: s' =>
      if is_whitespace c then
        match acc with [] => split_ws_aux [] s' | _ => reverse acc :: split_ws_aux [] s' end
      else split_ws_aux (c :: acc) s'
  end.
Definition split_whitespace (s : str) : list str := split_ws_aux [] s.

(** Is [p] a prefix; [str::contains] and [str::split_once] for a string pattern. *)
Fixpoint starts_with (p s : str) : bool :=
  match p, s with
  | [], _ => true
  | _, [] => false
  | c :: p', d :: s' => (c =? d) && starts_with p' s'
  end.
Fixpoint split_once (p s : str) : option (str * str) :=
  if starts_with p s then Some ([], drop (length p) s)
  else match s with
       | [] => None
       | c :: s' => match split_once p s' with
                    | Some (a, b) => Some (c :: a, b)
                    | None => None
                    end
       end.
Definition str_contains (p s : str) : bool :=
  match split_once p s with Some _ => true | None => false end.

(** *** Prefixes and substrings *)

Lemma starts_with_spec p s : starts_with p s = true ↔ ∃ r, s = p ++ r.
Proof.
  revert s. induction p as [|c p IH]; intros s; cbn; [split; [by exists s|done]|].
  destruct s as [|d s]; [split; [done|by intros (r & ?)]|].
  rewrite andb_true_iff, IH, Z.eqb_eq. split.
  - intros (-> & r & ->). by exists r.
  - intros (r & E). injection E as -> ->. split; [done|by exists r].
Qed.

Lemma starts_with_app p s : starts_with p (p ++ s) = true.
Proof. induction p as [|c p IH]; [done|]. cbn. by rewrite Z.eqb_refl. Qed.

(** The first match, and nothing before it. *)
Lemma split_once_spec p s :
  match split_once p s with
  | Some (a, b) => s = a ++ p ++ b ∧ ∀ a' b', s = a' ++ p ++ b' → (length a ≤ length a')%nat
  | None => ∀ a b, s ≠ a ++ p ++ b
  end.
Proof.
  induction s as [|c s IH]; cbn [split_once].
  - destruct (starts_with p []) eqn:E.
    + apply starts_with_spec in E as (r & E). symmetry in E. apply app_nil in E as [-> ->]. cbn. split; [done|]. intros. lia.
    + intros a b H. assert (starts_with p [] = true); [|congruence]. symmetry in H.
      apply app_nil in H as [_ H]. apply starts_with_spec. by exists b.
  - destruct (starts_with p (c :: s)) eqn:E.
    + apply starts_with_spec in E as (r & ->). rewrite drop_app_length. split; [done|]. cbn. intros. lia.
    + assert (∀ b, c :: s ≠ p ++ b) as Hno.
      { intros b H. assert (starts_with p (c :: s) = true); [|congruence]. apply starts_with_spec. by exists b. }
      destruct (split_once p s) as [[a b]|].
      * destruct IH as [-> IH]. split; [done|]. intros [|d a'] b' H; [by eapply Hno in H|].
        injection H as -> H. cbn. apply IH in H. lia.
      * intros [|d a'] b' H; [by eapply Hno in H|]. injection H as -> H. by eapply IH in H.
Qed.
Lemma split_once_app p s a b : split_once p s = Some (a, b) → s = a ++ p ++ b.
Proof. intros H. pose proof (split_once_spec p s) as Hs. rewrite H in Hs. tauto. Qed.

Lemma str_contains_app p a b : str_contains p (a ++ p ++ b) = true.
Proof.
  unfold str_contains. induction a as [|c a IH].
  - cbn [app]. destruct (p ++ b) as [|d s] eqn:E; cbn [split_once]; rewrite <- ?E;
      by rewrite starts_with_app.
  - cbn [app split_once]. destruct (starts_with p (c :: a ++ p ++ b)); [done|].
    destruct (split_once p (a ++ p ++ b)) as [[x y]|]; done.
Qed.

Lemma starts_with_mono p s t : starts_with p s = true → starts_with p (s ++ t) = true.
Proof.
  revert s. induction p as [|c p IH]; intros s; [done|]. destruct s as [|d s]; [done|]. cbn.
  intros [-> H]%andb_true_iff. by apply IH.
Qed.

Lemma str_contains_mono p s t : str_contains p s = true → str_contains p (s ++ t) = true.
Proof.
  unfold str_contains. induction s as [|c s IH].
  - cbn [split_once]. destruct (starts_with p []) eqn:E; [|done]. intros _.
    destruct p; [|done]. by destruct t.
  - cbn [app split_once]. destruct (starts_with p (c :: s)) eqn:E.
    + apply (starts_with_mono _ _ t) in E. cbn [app] in E. by rewrite E.
    + destruct (split_once p s) as [[x y]|]; [|done]. specialize (IH eq_refl).
      destruct (starts_with p (c :: s ++ t)); [done|].
      by destruct (split_once p (s ++ t)) as [[]|].
Qed.

(** *** Decimal numbers *)

Fixpoint digits_aux (fuel : nat) (z : Z) (acc : str) : str :=
  match fuel with
  | O => acc
  | S fuel =>
      let acc := (48 + z `mod` 10) :: acc in
      if z <? 10 then acc else digits_aux fuel (z / 10) acc
  end.
(** [Display] of an integer. *)
Definition decimal (z : Z) : str :=
  if z <? 0 then 45 :: digits_aux (S (Z.to_nat (Z.log2 (- z)))) (- z) []
  else digits_aux (S (Z.to_nat (Z.log2 z))) z [].

Definition digits_value (s : str) (n : Z) : Z := foldl (λ n c, 10 * n + (c - 48)) n s.

(** [str::parse::<u64>()]: an optional sign, then digits, without overflow. *)
Definition parse_u64 (s : str) : option Z :=
  let s := match s with 43 :: s => s | _ => s end in
  if bool_decide (s = []) || negb (forallb is_ascii_digit s) then None
  else if U64_MAX <? digits_value s 0 then None else Some (digits_value s 0).

Lemma digits_value_app s t n : digits_value (s ++ t) n = digits_value t (digits_value s n).
Proof. apply foldl_app. Qed.

Lemma digits_aux_spec fuel z acc : 0 ≤ z → z < 2 ^ Z.of_nat fuel →
  ∃ ds, digits_aux fuel z acc = ds ++ acc ∧ digits_value ds 0 = z ∧
    forallb is_ascii_digit ds = true ∧
    (0 < z → 10 ^ (zlen ds - 1) ≤ z) ∧ z < 10 ^ zlen ds ∧ (fuel ≠ 0%nat → ds ≠ []).
Proof.
  revert z acc. induction fuel as [|fuel IH]; intros z acc Hz Hlt.
  { exists []. cbn in *. repeat split; try done; try lia. }
  cbn [digits_aux]. assert (is_ascii_digit (48 + z `mod` 10) = true) as Hd.
  { pose proof (Z.mod_pos_bound z 10 ltac:(lia)). unfold is_ascii_digit.
    apply andb_true_iff. split; apply Z.leb_le; lia. }
  destruct (Z.ltb_spec z 10) as [Hs|Hs].
  - exists [48 + z `mod` 10]. split; [done|].
    split; [unfold digits_value; cbn [foldl]; rewrite Z.mod_small; lia|].
    split; [apply andb_true_iff; by split|]. change (zlen [_]) with 1.
    split; [intros Hpos; replace (1 - 1) with 0 by lia; rewrite Z.pow_0_r; lia|].
    split; [rewrite Z.pow_1_r; lia|done].
  - assert (z / 10 < 2 ^ Z.of_nat fuel) as Hlt'.
    { rewrite Nat2Z.inj_succ, Z.pow_succ_r in Hlt by lia. apply Z.div_lt_upper_bound; lia. }
    pose proof (Z.div_pos z 10 Hz ltac:(lia)) as Hq.
    assert (0 < z / 10) as Hq' by (apply Z.div_str_pos; lia).
    destruct (IH (z / 10) ((48 + z `mod` 10) :: acc) Hq Hlt') as (ds & -> & Hv & Hds & Hlo & Hhi & _).
    pose proof (Z.div_mod z 10 ltac:(lia)) as Hdm. pose proof (Z.mod_pos_bound z 10 ltac:(lia)) as Hm.
    assert (0 < zlen ds) as Hl.
    { destruct ds; [unfold zlen in Hhi; cbn in Hhi; change (10 ^ 0) with 1 in Hhi; lia|]. rewrite zlen_cons. pose proof (zlen_nonneg ds). lia. }
    exists (ds ++ [48 + z `mod` 10]). rewrite <- app_assoc. split; [done|].
    rewrite digits_value_app, Hv, forallb_app, Hds, zlen_app. change (zlen [_]) with 1.
    split; [unfold digits_value; cbn [foldl]; lia|].
    split; [apply andb_true_iff; split; [done|]; by apply andb_true_iff|].
    replace (zlen ds + 1 - 1) with (Z.succ (zlen ds - 1)) by lia.
    rewrite Z.pow_succ_r by lia. replace (zlen ds + 1) with (Z.succ (zlen ds)) by lia.
    rewrite Z.pow_succ_r by lia. specialize (Hlo Hq').
    split; [lia|]. split; [lia|]. intros _ H. by apply app_nil in H as [_ ?].
Qed.

Lemma log2_fuel z : 0 ≤ z → z < 2 ^ Z.of_nat (S (Z.to_nat (Z.log2 z))).
Proof.
  intros Hz. pose proof (Z.log2_nonneg z). rewrite Nat2Z.inj_succ, Z2Nat.id by done.
  destruct (decide (z = 0)) as [->|]; [done|]. apply Z.log2_spec. lia.
Qed.

Lemma decimal_spec z : 0 ≤ z →
  digits_value (decimal z) 0 = z ∧ forallb is_ascii_digit (decimal z) = true ∧
  decimal z ≠ [] ∧ z < 10 ^ zlen (decimal z) ∧ (0 < z → 10 ^ (zlen (decimal z) - 1) ≤ z).
Proof.
  intros Hz. unfold decimal. rewrite (proj2 (Z.ltb_ge z 0)) by done.
  destruct (digits_aux_spec _ z [] Hz (log2_fuel z Hz)) as (ds & -> & H1 & H2 & H3 & H4 & H5).
  rewrite app_nil_r. repeat split; auto.
Qed.

(** Reading back a number that was printed. *)
Lemma parse_decimal z : 0 ≤ z ≤ U64_MAX → parse_u64 (decimal z) = Some z.
Proof.
  intros Hz. destruct (decimal_spec z) as (Hv & Hd & Hn & _); [lia|].
  unfold parse_u64. destruct (decimal z) as [|c s]; [done|].
  assert (match c :: s with 43 :: s => s | _ => c :: s end = c :: s) as ->.
  { destruct (decide (c = 43)) as [->|]; [done|]. repeat case_match; naive_solver. }
  rewrite Hd, bool_decide_eq_false_2 by done. cbn [negb orb]. rewrite Hv.
  by rewrite (proj2 (Z.ltb_ge _ _)) by lia.
Qed.

(** Numbers with as many digits print as long. *)
Lemma decimal_length z k : 0 < k → 10 ^ (k - 1) ≤ z < 10 ^ k → zlen (decimal z) = k.
Proof.
  intros Hk Hz. pose proof (Z.pow_pos_nonneg 10 (k - 1)).
  destruct (decimal_spec z) as (_ & _ & Hn & Hhi & Hlo); [lia|].
  specialize (Hlo ltac:(lia)). pose proof (zlen_nonneg (decimal z)).
  assert (zlen (decimal z) - 1 < k) by (apply (Z.pow_lt_mono_r_iff 10); lia).
  assert (k - 1 < zlen (decimal z)) by (apply (Z.pow_lt_mono_r_iff 10); lia). lia.
Qed.

Lemma decimal_mono a b : 0 ≤ a ≤ b → zlen (decimal a) ≤ zlen (decimal b).
Proof.
  intros Hab. destruct (decimal_spec a) as (_ & _ & Ha & _ & Hlo); [lia|].
  destruct (decimal_spec b) as (_ & _ & Hb & Hhi & _); [lia|].
  pose proof (zlen_nonneg (decimal b)).
  destruct (decide (a = 0)) as [->|Hne].
  - destruct (decimal b) as [|c s]; [done|]. rewrite zlen_cons. pose proof (zlen_nonneg s).
    change (zlen (decimal 0)) with 1. lia.
  - assert (zlen (decimal a) - 1 < zlen (decimal b)); [|lia].
    apply (Z.pow_lt_mono_r_iff 10); lia.
Qed.

Lemma digits_str_len s : forallb is_ascii_digit s = true → str_len s = zlen s.
Proof.
  induction s as [|c s IH]; [done|]. intros [Hc Hs]%andb_true_iff.
  rewrite str_len_cons, zlen_cons, IH by done. f_equal. unfold len_utf8, is_ascii_digit in *.
  apply andb_true_iff in Hc as [? ?]. by rewrite (proj2 (Z.ltb_lt c 128)) by lia.
Qed.

Lemma decimal_str_len z : 0 ≤ z → str_len (decimal z) = zlen (decimal z).
Proof. intros Hz. by apply digits_str_len, decimal_spec. Qed.

Lemma decimal_inj a b : 0 ≤ a → 0 ≤ b → decimal a = decimal b → a = b.
Proof. intros Ha Hb H. destruct (decimal_spec a Ha) as [<- _], (decimal_spec b Hb) as [<- _]. by rewrite H. Qed.
Lemma decimal_digits z c : 0 ≤ z → c ∈ decimal z → 48 ≤ c ≤ 57.
Proof.
  intros Hz Hc. destruct (decimal_spec z Hz) as (_ & Hd & _). rewrite forallb_forall in Hd.
  apply list_elem_of_In in Hc. specialize (Hd _ Hc). unfold is_ascii_digit in Hd. apply andb_true_iff in Hd as [? ?]. lia.
Qed.

(** A text is cut in one way at a separator that does not occur before, or behind, it. *)
Lemma before_first {A} (c : A) s t x y : c ∉ s → c ∉ t → s ++ c :: x = t ++ c :: y → s = t ∧ x = y.
Proof.
  revert t. induction s as [|a s IH]; intros [|b t] Hs Ht H; cbn in H.
  - by injection H.
  - injection H as -> _. destruct Ht. by left.
  - injection H as <- _. destruct Hs. by left.
  - injection H as <- H. apply not_elem_of_cons in Hs as [_ Hs], Ht as [_ Ht]. by destruct (IH t Hs Ht H) as [-> ->].
Qed.
Lemma after_last {A} (c : A) x y s t : c ∉ s → c ∉ t → x ++ c :: s = y ++ c :: t → s = t.
Proof.
  revert y. induction x as [|a x IH]; intros [|b y] Hs Ht H; cbn in H.
  - by injection H.
  - injection H as -> ->. destruct Hs. apply elem_of_app. right. by left.
  - injection H as <- <-. destruct Ht. apply elem_of_app. right. by left.
  - injection H as -> H. by eapply IH.
Qed.

(** ** Ordered maps

    A [BTreeMap] whose order the program uses is its list of entries by increasing key. *)

(** [get], and [insert], which replaces the entry of the key. *)
Fixpoint tree_get {A} (k : Z) (m : list (Z * A)) : option A :=
  match m with
  | [] => None
  | (k', x) :: m => if k' =? k then Some x else tree_get k m
  end.
Fixpoint tree_insert {A} (k : Z) (x : A) (m : list (Z * A)) : list (Z * A) :=
  match m with
  | [] => [(k, x)]
  | (k', x') :: rest => if k <? k' then (k, x) :: m else if k' =? k then (k, x) :: rest else (k', x') :: tree_insert k x rest
  end.

Lemma tree_get_insert {A} k (x : A) m j : tree_get j (tree_insert k x m) = if decide (k = j) then Some x else tree_get j m.
Proof.
  induction m as [|[k' x'] m IH]; cbn [tree_insert tree_get].
  - destruct (Z.eqb_spec k j); [by rewrite decide_True|by rewrite decide_False].
  - destruct (k <? k').
    + cbn [tree_get]. destruct (Z.eqb_spec k j); [by rewrite decide_True|by rewrite decide_False].
    + destruct (Z.eqb_spec k' k) as [->|Hk]; cbn [tree_get].
      * destruct (Z.eqb_spec k j); [by rewrite decide_True|by rewrite decide_False].
      * destruct (Z.eqb_spec k' j) as [->|Hj]; [by rewrite decide_False|exact IH].
Qed.

(** The keys. *)
Lemma tree_insert_found {A} k (x : A) m : StronglySorted Z.lt m.*1 → is_Some (tree_get k m) → (tree_insert k x m).*1 = m.*1.
Proof.
  induction m as [|[k' y] m IH]; cbn [fmap list_fmap fst tree_get tree_insert]; intros Hs [z Hz]; [done|].
  apply StronglySorted_inv in Hs as [Hs Hk]. destruct (Z.eqb_spec k' k) as [->|Hne].
  - by rewrite Z.ltb_irrefl.
  - assert (k' < k) as Hlt.
    { clear -Hz Hk. induction m as [|[j y'] m IH]; [done|]. cbn in *. inversion_clear Hk. destruct (Z.eqb_spec j k) as [<-|]; [done|by apply IH]. }
    destruct (Z.ltb_spec k k'); [lia|]. cbn [fmap list_fmap fst]. f_equal. by apply IH.
Qed.
Lemma tree_insert_fresh {A} k (x : A) m : tree_get k m = None → (tree_insert k x m).*1 ≡ₚ k :: m.*1.
Proof.
  induction m as [|[k' y] m IH]; cbn [fmap list_fmap fst tree_get tree_insert]; [done|]. destruct (Z.eqb_spec k' k) as [->|Hne]; [done|]. intros H.
  destruct (k <? k'); [done|]. cbn [fmap list_fmap fst]. rewrite IH by done. apply Permutation_swap.
Qed.
Lemma tree_insert_sorted {A} k (x : A) m : StronglySorted Z.lt m.*1 → StronglySorted Z.lt (tree_insert k x m).*1.
Proof.
  induction m as [|[k' y] m IH]; cbn [fmap list_fmap fst tree_insert]; intros Hs; [by repeat constructor|].
  pose proof (proj1 (StronglySorted_cons _ _ _) Hs) as [Hk Hs']. destruct (Z.ltb_spec k k').
  - cbn [fmap list_fmap fst]. constructor; [done|]. constructor; [done|]. eapply Forall_impl; [exact Hk|]. cbn. lia.
  - destruct (Z.eqb_spec k' k) as [->|Hne]; [done|]. cbn [fmap list_fmap fst]. constructor; [by apply IH|].
    assert (∀ j, j ∈ (tree_insert k x m).*1 → j = k ∨ j ∈ m.*1) as Hin.
    { clear. induction m as [|[j y] m IH]; intros i; cbn [tree_insert fmap list_fmap fst].
      - intros ->%list_elem_of_singleton. by left.
      - destruct (k <? j); [|destruct (Z.eqb_spec j k) as [->|]]; cbn [fmap list_fmap fst].
        + by intros [->|?]%elem_of_cons; [left|right].
        + by right.
        + intros [->|[->|?]%IH]%elem_of_cons; [right; by left|by left|right; by right]. }
    apply Forall_forall. rewrite Forall_forall in Hk. intros j [->|Hj]%Hin; [lia|by apply Hk].
Qed.
Lemma tree_get_key {A} k (m : list (Z * A)) : is_Some (tree_get k m) ↔ k ∈ m.*1.
Proof.
  induction m as [|[j y] m IH]; cbn [tree_get fmap list_fmap fst]; [split; [by intros []|by intros ?%elem_of_nil]|]. rewrite elem_of_cons, <- IH.
  destruct (Z.eqb_spec j k) as [->|Hne]; [split; [by left|by eexists]|]. split; [by right|]. by intros [->|?].
Qed.

(** ** Loops

    A [while]/[loop] of the source is a step function: [Next] is one more turn,
    [Done] leaves the loop.  [loop] runs it with fuel; [run] is the loop itself,
    defined when a measure decreases at every turn, so it always returns. *)
Inductive flow (S R : Type) : Type :=
  | Next (s : S)
  | Done (r : R).
Arguments Next {S R} s.
Arguments Done {S R} r.

(** The value of an option that is not [None]. *)
Definition unwrap {R} (o : option R) : o ≠ None → R :=
  match o with
  | Some r => λ _, r
  | None => λ H, False_rect R (H eq_refl)
  end.
Lemma unwrap_spec {R} (o : option R) (H : o ≠ None) : o = Some (unwrap o H).
Proof. by destruct o. Qed.

Section Loops.
Context {S R : Type} (body : S → flow S R).

Fixpoint loop (fuel : nat) (s : S) : option R :=
  match fuel with
  | O => None
  | Datatypes.S n => match body s with Done r => Some r | Next s' => loop n s' end
  end.

Definition decreases (m : S → nat) : Prop :=
  ∀ s s', body s = Next s' → (m s' < m s)%nat.

Lemma loop_total m : decreases m →
  ∀ fuel s, (m s < fuel)%nat → loop fuel s ≠ None.
Proof.
  intros D fuel; induction fuel as [|n IH]; intros s H; [lia|]; cbn.
  destruct (body s) as [s'|r] eqn:E; [|done].
  apply IH. apply D in E. lia.
Qed.

Lemma loop_mono n k s r : loop n s = Some r → (n ≤ k)%nat → loop k s = Some r.
Proof.
  revert k s; induction n as [|n IH]; intros k s H Hk; [done|].
  destruct k as [|k]; [lia|]; cbn in *.
  destruct (body s); [apply IH; [done|lia]|done].
Qed.

Context (m : S → nat) (D : decreases m).

Definition run (s : S) : R :=
  unwrap (loop (Datatypes.S (m s)) s) (loop_total m D _ s (Nat.lt_succ_diag_r _)).

Lemma run_loop s : loop (Datatypes.S (m s)) s = Some (run s).
Proof. apply unwrap_spec. Qed.

(** One turn of the loop. *)
Lemma run_eq s : run s = match body s with Next s' => run s' | Done r => r end.
Proof.
  enough (Some (run s) = Some (match body s with Next s' => run s' | Done r => r end))
    by congruence.
  rewrite <- run_loop. cbn. destruct (body s) as [s'|r] eqn:E; [|done].
  eapply loop_mono; [apply run_loop|]. apply D in E. lia.
Qed.

(** Invariant rule: [I] holds at the head of every turn, so [Q] holds at the exit. *)
Lemma run_invariant (I : S → Prop) (Q : S → R → Prop) :
  (∀ s r, I s → body s = Done r → Q s r) →
  (∀ s s', I s → body s = Next s' → I s' ∧ ∀ r, Q s' r → Q s r) →
  ∀ s, I s → Q s (run s).
Proof.
  intros HQ HI s. remember (m s) as n eqn:En. revert s En.
  induction n as [n IH] using lt_wf_ind. intros s -> Is. rewrite run_eq. destruct (body s) as [s'|r] eqn:E; [|by apply HQ].
  destruct (HI s s' Is E) as [Is' Hr]. apply Hr, (IH (m s')); [|done..]. by apply D in E.
Qed.
End Loops.
Arguments run {S R} body {m} D s.

(** ** Stable sorting

    [sort_by_key]: elements that compare equal keep their order. *)
Section SortBy.
Context {A : Type} (le : A → A → bool).

Fixpoint insert_by (x : A) (l : list A) : list A :=
  match l with
  | [] => [x]
  | y :: l' => if le x y then x :: l else y :: insert_by x l'
  end.
Definition sort_by (l : list A) : list A := foldr insert_by [] l.

Lemma insert_by_perm x l : insert_by x l ≡ₚ x :: l.
Proof. induction l as [|y l IH]; [done|]. cbn. destruct (le x y); [done|]. rewrite IH. apply Permutation_swap. Qed.
Lemma sort_by_perm l : sort_by l ≡ₚ l.
Proof. induction l as [|x l IH]; [done|]. cbn. by rewrite insert_by_perm, IH. Qed.
Lemma sort_by_elem x l : x ∈ sort_by l ↔ x ∈ l.
Proof. by rewrite sort_by_perm. Qed.

Context (total : ∀ x y, le x y = false → le y x = true) (trans : ∀ x y z, le x y = true → le y z = true → le x z = true).
Lemma sort_by_sorted l : StronglySorted (λ x y, le x y = true) (sort_by l).
Proof using total trans.
  induction l as [|x l IH]; [constructor|]. change (sort_by (x :: l)) with (insert_by x (sort_by l)). revert IH. generalize (sort_by l) as k.
  induction k as [|y k IHk]; intros Hs; cbn; [by repeat constructor|]. apply StronglySorted_inv in Hs as [Hs Hy].
  destruct (le x y) eqn:E.
  - constructor; [by constructor|]. constructor; [done|]. eapply Forall_impl; [exact Hy|]. intros z. by apply trans.
  - constructor; [by apply IHk|]. rewrite insert_by_perm. by constructor; [apply total|].
Qed.
End SortBy.

(** ** Finite maps *)
Lemma map_size_delete_lt `{Countable K} {V} (m : gmap K V) k v :
  m !! k = Some v → (size (delete k m) < size m)%nat.
Proof.
  intros E. rewrite map_size_delete, E. cbn.
  assert (size m ≠ 0%nat) by (apply map_size_non_empty_iff; intros ->; done). lia.
Qed.

(** ** Bits *)
Lemma land_low a n : 0 ≤ n → Z.land a (2 ^ n - 1) = a `mod` 2 ^ n.
Proof. intros. rewrite Z.sub_1_r, <- Z.ones_equiv. by apply Z.land_ones. Qed.

Lemma testbit_above a n i : 0 ≤ a < 2 ^ n → n ≤ i → Z.testbit a i = false.
Proof.
  intros Ha Hi. destruct (decide (a = 0)) as [->|]; [apply Z.bits_0|].
  apply Z.bits_above_log2; [lia|]. apply Z.lt_le_trans with n; [|done].
  apply Z.log2_lt_pow2; lia.
Qed.

(** Filling the bits above [n] of a number that fits in [n] bits is an addition. *)
Lemma lor_shiftl_add a b n : 0 ≤ n → 0 ≤ a < 2 ^ n →
  Z.lor a (Z.shiftl b n) = a + b * 2 ^ n.
Proof.
  intros Hn Ha. rewrite <- Z.shiftl_mul_pow2 by done.
  assert (Z.land a (Z.shiftl b n) = 0) as H0.
  { apply Z.bits_inj'; intros i Hi. rewrite Z.land_spec, Z.bits_0.
    destruct (decide (i < n)); [by rewrite Z.shiftl_spec_low, andb_false_r|].
    by rewrite (testbit_above a n) by lia. }
  by rewrite <- Z.lxor_lor, Z.add_nocarry_lxor.
Qed.

Lemma lor_bound a b n : 0 ≤ n → 0 ≤ a < 2 ^ n → 0 ≤ b < 2 ^ n → 0 ≤ Z.lor a b < 2 ^ n.
Proof.
  intros Hn Ha Hb. assert (0 ≤ Z.lor a b) as H0 by (apply Z.lor_nonneg; lia).
  split; [done|]. destruct (decide (Z.lor a b < 2 ^ n)) as [|Hge]; [done|].
  assert (Z.lor a b ≠ 0) by lia.
  assert (n ≤ Z.log2 (Z.lor a b)) as Hl.
  { rewrite <- (Z.log2_pow2 n) by done. apply Z.log2_le_mono. lia. }
  pose proof (Z.bit_log2 (Z.lor a b)) as Hbit. rewrite Z.lor_spec in Hbit.
  rewrite (testbit_above a n), (testbit_above b n) in Hbit by lia. cbn in Hbit. lia.
Qed.

(** [u32::to_be_bytes] and [u32::from_be_bytes]. *)
Definition to_be_bytes (v : Z) : list Z :=
  [u8 (Z.shiftr v 24); u8 (Z.shiftr v 16); u8 (Z.shiftr v 8); u8 v].
Definition from_be_bytes (b0 b1 b2 b3 : Z) : Z :=
  Z.lor (Z.shiftl b0 24) (Z.lor (Z.shiftl b1 16) (Z.lor (Z.shiftl b2 8) b3)).

Lemma be_bytes_round v : 0 ≤ v < 2 ^ 32 →
  match to_be_bytes v with
  | [b0; b1; b2; b3] => from_be_bytes b0 b1 b2 b3 = v
  | _ => False
  end.
Proof.
  intros Hv. unfold to_be_bytes, from_be_bytes, wrap.
  rewrite !(Z.lor_comm (Z.shiftl _ _)).
  set (b0 := Z.shiftr v 24 `mod` 2 ^ 8). set (b1 := Z.shiftr v 16 `mod` 2 ^ 8).
  set (b2 := Z.shiftr v 8 `mod` 2 ^ 8). set (b3 := v `mod` 2 ^ 8).
  assert (0 ≤ b3 < 2 ^ 8 ∧ 0 ≤ b2 < 2 ^ 8 ∧ 0 ≤ b1 < 2 ^ 8) as (? & ? & ?)
    by (repeat split; apply Z.mod_pos_bound; lia).
  rewrite (lor_shiftl_add b3) by lia. rewrite (lor_shiftl_add (b3 + _)) by lia.
  rewrite lor_shiftl_add by lia. subst b0 b1 b2 b3.
  rewrite !Z.shiftr_div_pow2 by lia. cbn. Z.to_euclidean_division_equations. lia.
Qed.
Global Opaque run.
