(* ===== verification/Utf8.v ===== *)
(** * Utf8: reading texts from bytes

    [String::from_utf8] and [String::from_utf8_lossy] of the standard library, and that they read back what
    [str::as_bytes] wrote. *)

From stdpp Require Import prelude strings list.
From S2P Require Import Prelude.
Local Open Scope Z_scope.

(** [String::from_utf8] of the standard library: shortest forms of scalar values only. *)
Definition is_scalar (c : Z) : bool := (0 <=? c) && (c <? 0xD800) || (0xE000 <=? c) && (c <=? 0x10FFFF).
Definition continuation (b : Z) : bool := (128 <=? b) && (b <? 192).
Fixpoint from_utf8 (bytes : list Z) : option str :=
  match bytes with
  | [] => Some []
  | a :: bytes =>
      if a <? 128 then cons a <$> from_utf8 bytes
      else match bytes with
           | [] => None
           | b :: bytes =>
               if negb (continuation b) then None
               else if (194 <=? a) && (a <? 224) then cons ((a - 192) * 64 + (b - 128)) <$> from_utf8 bytes
               else match bytes with
                    | [] => None
                    | c :: bytes =>
                        if negb (continuation c) then None
                        else if (224 <=? a) && (a <? 240) then
                          let v := (a - 224) * 4096 + (b - 128) * 64 + (c - 128) in
                          if (2048 <=? v) && is_scalar v then cons v <$> from_utf8 bytes else None
                        else match bytes with
                             | [] => None
                             | d :: bytes =>
                                 let v := (a - 240) * 262144 + (b - 128) * 4096 + (c - 128) * 64 + (d - 128) in
                                 if continuation d && (240 <=? a) && (a <? 245) && (65536 <=? v) && is_scalar v
                                 then cons v <$> from_utf8 bytes else None
                             end
                    end
           end
  end.

(** [String::from_utf8_lossy]: every longest part that begins a scalar value and does not become one is replaced by
    U+FFFD.  [second_ok] is what may follow the first byte of three or four. *)
Definition REPLACEMENT : Z := 0xFFFD.
Definition second_ok (a b : Z) : bool :=
  if a =? 0xE0 then (0xA0 <=? b) && (b <? 0xC0)
  else if a =? 0xED then (0x80 <=? b) && (b <? 0xA0)
  else if (0xE1 <=? a) && (a <? 0xF0) then continuation b
  else if a =? 0xF0 then (0x90 <=? b) && (b <? 0xC0)
  else if (0xF1 <=? a) && (a <? 0xF4) then continuation b
  else if a =? 0xF4 then (0x80 <=? b) && (b <? 0x90)
  else false.
Fixpoint from_utf8_lossy (bytes : list Z) : str :=
  match bytes with
  | [] => []
  | a :: r1 =>
      if a <? 128 then a :: from_utf8_lossy r1
      else match r1 with
           | [] => [REPLACEMENT]
           | b :: r2 =>
               if (194 <=? a) && (a <? 224) then
                 if continuation b then (a - 192) * 64 + (b - 128) :: from_utf8_lossy r2 else REPLACEMENT :: from_utf8_lossy r1
               else if negb (second_ok a b) then REPLACEMENT :: from_utf8_lossy r1
               else match r2 with
                    | [] => [REPLACEMENT]
                    | c :: r3 =>
                        if negb (continuation c) then REPLACEMENT :: from_utf8_lossy r2
                        else if a <? 240 then (a - 224) * 4096 + (b - 128) * 64 + (c - 128) :: from_utf8_lossy r3
                        else match r3 with
                             | [] => [REPLACEMENT]
                             | d :: r4 =>
                                 if continuation d then
                                   (a - 240) * 262144 + (b - 128) * 4096 + (c - 128) * 64 + (d - 128) :: from_utf8_lossy r4
                                 else REPLACEMENT :: from_utf8_lossy r3
                             end
                    end
           end
  end.

Definition text_ok (s : str) : Prop := Forall (λ c, is_scalar c = true) s.

Lemma from_utf8_char c rest : is_scalar c = true → from_utf8 (utf8 c ++ rest) = cons c <$> from_utf8 rest.
Proof.
  unfold is_scalar. rewrite orb_true_iff, !andb_true_iff, !Z.leb_le, !Z.ltb_lt. intros Hc. unfold utf8.
  destruct (Z.ltb_spec c 128); [cbn; by decide_bools|].
  pose proof (Z.div_mod c 64 ltac:(lia)) as E0. pose proof (Z.mod_pos_bound c 64 ltac:(lia)) as B0.
  destruct (Z.ltb_spec c 2048).
  { cbn [app from_utf8]. unfold continuation. decide_bools. f_equal. f_equal. lia. }
  assert (c / 4096 = c / 64 / 64) as -> by (rewrite Z.div_div by lia; done).
  pose proof (Z.div_mod (c / 64) 64 ltac:(lia)) as E1. pose proof (Z.mod_pos_bound (c / 64) 64 ltac:(lia)) as B1.
  destruct (Z.ltb_spec c 65536).
  { cbn [app from_utf8]. unfold continuation, is_scalar. decide_bools.
    replace (_ + _ + _) with c by lia. destruct Hc; decide_bools; rewrite ?orb_true_r; done. }
  assert (c / 262144 = c / 64 / 64 / 64) as -> by (rewrite !Z.div_div by lia; done).
  pose proof (Z.div_mod (c / 64 / 64) 64 ltac:(lia)) as E2. pose proof (Z.mod_pos_bound (c / 64 / 64) 64 ltac:(lia)) as B2.
  cbn [app from_utf8]. unfold continuation, is_scalar. decide_bools. replace (_ + _ + _ + _) with c by lia.
  by decide_bools.
Qed.
Lemma from_utf8_as_bytes s : text_ok s → from_utf8 (as_bytes s) = Some s.
Proof.
  induction 1 as [|c s Hc _ IH]; [done|]. unfold as_bytes in *. cbn [mbind list_bind]. by rewrite from_utf8_char, IH.
Qed.

Lemma lossy_char c rest : is_scalar c = true → from_utf8_lossy (utf8 c ++ rest) = c :: from_utf8_lossy rest.
Proof.
  unfold is_scalar. rewrite orb_true_iff, !andb_true_iff, !Z.leb_le, !Z.ltb_lt. intros Hc. unfold utf8.
  destruct (Z.ltb_spec c 128); [cbn; by decide_bools|].
  pose proof (Z.div_mod c 64 ltac:(lia)) as E0. pose proof (Z.mod_pos_bound c 64 ltac:(lia)) as B0.
  destruct (Z.ltb_spec c 2048).
  { cbn [app from_utf8_lossy]. unfold continuation. decide_bools. cbn [andb]. f_equal. lia. }
  assert (c / 4096 = c / 64 / 64) as -> by (rewrite Z.div_div by lia; done).
  pose proof (Z.div_mod (c / 64) 64 ltac:(lia)) as E1. pose proof (Z.mod_pos_bound (c / 64) 64 ltac:(lia)) as B1.
  destruct (Z.ltb_spec c 65536).
  { assert (second_ok (224 + c / 64 / 64) (128 + (c / 64) `mod` 64) = true) as Hs.
    { unfold second_ok, continuation. destruct (Z.eqb_spec (224 + c / 64 / 64) 0xE0); [decide_bools; done|].
      destruct (Z.eqb_spec (224 + c / 64 / 64) 0xED); [destruct Hc; decide_bools; done|]. by decide_bools. }
    cbn [app from_utf8_lossy]. rewrite Hs. unfold continuation. decide_bools. cbn [negb andb]. f_equal. lia. }
  assert (c / 262144 = c / 64 / 64 / 64) as -> by (rewrite !Z.div_div by lia; done).
  pose proof (Z.div_mod (c / 64 / 64) 64 ltac:(lia)) as E2. pose proof (Z.mod_pos_bound (c / 64 / 64) 64 ltac:(lia)) as B2.
  assert (second_ok (240 + c / 64 / 64 / 64) (128 + (c / 64 / 64) `mod` 64) = true) as Hs.
  { unfold second_ok, continuation. decide_bools. cbn [andb]. destruct (Z.eqb_spec (240 + c / 64 / 64 / 64) 0xF0); [decide_bools; done|].
    destruct (Z.ltb_spec (240 + c / 64 / 64 / 64) 0xF4); by decide_bools. }
  cbn [app from_utf8_lossy]. rewrite Hs. unfold continuation. decide_bools. cbn [negb andb]. f_equal. lia.
Qed.
Lemma lossy_as_bytes s : text_ok s → from_utf8_lossy (as_bytes s) = s.
Proof. induction 1 as [|c s Hc _ IH]; [done|]. unfold as_bytes in *. cbn [mbind list_bind]. by rewrite lossy_char, IH. Qed.
(** On a text that is known. *)
Lemma text_ok_forallb s : forallb is_scalar s = true → text_ok s.
Proof. intros H. apply Forall_forall. intros c Hc. rewrite forallb_forall in H. by apply H, list_elem_of_In. Qed.
