(* ===== verification/Errors.v ===== *)
(** * Errors: the server-wide error type and the failure of a run

    server/src/error.rs, the failure part of server/src/run/event.rs and
    [error_chain] of server/src/diagnostics.rs.  An error of a third-party crate
    is the non-empty chain of messages it carries ([Display], then each
    [source()]): that is all the code reads of it. *)

From stdpp Require Import prelude gmap strings list.
From S2P Require Import Prelude.
Local Open Scope Z_scope.

(** A [&dyn std::error::Error]: its message and the messages of its causes. *)
Record foreign_error : Type := ForeignError { fe_display : str; fe_sources : list str }.

Global Instance foreign_error_eq_dec : EqDecision foreign_error.
Proof. solve_decision. Defined.

(** server/src/diagnostics.rs:55-64, [error_chain]. *)
Definition error_chain (error : foreign_error) : str :=
  foldl (λ details cause, details ++ lit ": " ++ cause)
    (fe_display error) (fe_sources error).

(** server/src/error.rs:11-42, [Error]. *)
Inductive Error : Type :=
  | Config (message : str)
  | Protocol (message : str)
  | Provider (message : str)
  | Store (message : str)
  | Cancelled
  | RunNotFound (run_id : str)
  | Database (e : foreign_error)
  | Migration (e : foreign_error)
  | MigrationTimeout (stage : str) (timeout_seconds : Z)
  | Http (e : foreign_error)
  | Decode (e : foreign_error)
  | Encode (e : foreign_error)
  | Json (e : foreign_error)
  | Io (e : foreign_error).

Global Instance Error_eq_dec : EqDecision Error.
Proof. solve_decision. Defined.

Abbreviation res := (result Error).

(** A protocol error with a literal message. *)
Definition protocol (message : string) : Error := Protocol (lit message).

(** server/src/error.rs:11-41, [Error]: the [Display] that [thiserror] derives from the
    [error] attributes; a foreign error prints its own message. *)
Definition error_display (error : Error) : str :=
  match error with
  | Config m => lit "configuration error: " ++ m
  | Protocol m => lit "protocol error: " ++ m
  | Provider m => lit "provider error: " ++ m
  | Store m => lit "store error: " ++ m
  | Cancelled => lit "run was cancelled"
  | RunNotFound id => lit "run not found: " ++ id
  | Database e => lit "database error: " ++ fe_display e
  | Migration e => lit "database migration error: " ++ fe_display e
  | MigrationTimeout stage timeout_seconds =>
      lit "database migration stage '" ++ stage ++ lit "' timed out after " ++ decimal timeout_seconds
      ++ lit " seconds; close other haxsd byok processes and try again"
  | Http e => lit "http error: " ++ fe_display e
  | Decode e => lit "protobuf decode error: " ++ fe_display e
  | Encode e => lit "protobuf encode error: " ++ fe_display e
  | Json e => lit "json error: " ++ fe_display e
  | Io e => lit "io error: " ++ fe_display e
  end.

Inductive StatusCode : Type :=
  BAD_REQUEST | NOT_FOUND | BAD_GATEWAY | CONFLICT | INTERNAL_SERVER_ERROR.

(** server/src/error.rs:46-59, [IntoResponse::into_response]. *)
Definition error_status (error : Error) : StatusCode :=
  match error with
  | Config _ | Protocol _ | Decode _ | Json _ => BAD_REQUEST
  | RunNotFound _ => NOT_FOUND
  | Provider _ | Http _ => BAD_GATEWAY
  | Cancelled => CONFLICT
  | Store _ | Database _ | Migration _ | MigrationTimeout _ _ | Encode _ | Io _ =>
      INTERNAL_SERVER_ERROR
  end.

(** server/src/error.rs:68-74, [IntoResponse::into_response]. *)
Definition error_code (status : StatusCode) : str :=
  match status with
  | BAD_REQUEST => lit "invalid_argument"
  | NOT_FOUND => lit "not_found"
  | CONFLICT => lit "aborted"
  | BAD_GATEWAY => lit "unavailable"
  | _ => lit "internal"
  end.

(** ** The failure of a run *)

(** server/src/run/event.rs:10-23, [RunFailure]. *)
Inductive RunFailure : Type :=
  | FProtocol (message : str)
  | FProvider (message : str)
  | FTruncated (message : str)
  | FStore (message : str)
  | FClient (message : str).

Global Instance RunFailure_eq_dec : EqDecision RunFailure.
Proof. solve_decision. Defined.

(** server/src/run/event.rs:26-33, [RunFailure::category]. *)
Definition category (f : RunFailure) : str :=
  match f with
  | FProtocol _ => lit "protocol"
  | FProvider _ | FTruncated _ => lit "provider"
  | FStore _ => lit "store"
  | FClient _ => lit "client"
  end.

(** server/src/run/event.rs:36-62, [From<Error> for RunFailure]. *)
Definition run_failure_of_error (error : Error) : RunFailure :=
  match error with
  | Protocol message | Config message => FProtocol message
  | Provider message => FProvider message
  | Store message => FStore message
  | Cancelled => FClient (lit "run was cancelled")
  | Http e => FProvider (error_chain e)
  | Database e | Migration e => FStore (error_chain e)
  | MigrationTimeout stage timeout_seconds =>
      FStore (lit "database migration stage '" ++ stage ++ lit "' timed out after "
              ++ decimal timeout_seconds ++ lit " seconds")
  | Io e => FStore (error_chain e)
  | Decode e | Encode e | Json e => FProtocol (error_chain e)
  | RunNotFound run_id => FStore (lit "run not found: " ++ run_id)
  end.

(** server/src/run/event.rs:65-69, [RunOutcome]. *)
Inductive RunOutcome : Type :=
  | Completed
  | RunCancelled
  | Failed (failure : RunFailure).

Global Instance RunOutcome_eq_dec : EqDecision RunOutcome.
Proof. solve_decision. Defined.
