(* ===== verification/External.v ===== *)
(** * External: what the program takes from other crates

    The crates that are not in this repository appear as type classes: a class
    of operations the definitions are parametrised by, and a class of laws with
    the documented behaviour the theorems rely on.  Every theorem that uses laws
    is witnessed with the concrete instances of module [Samples]. *)

From stdpp Require Import prelude gmap strings list.
From S2P Require Import Prelude Errors.
Local Open Scope Z_scope.

(** [serde_json::Value].  An object keeps its members in order; a number is the
    text it is written with. *)
Inductive json : Type :=
  | JNull
  | JBool (b : bool)
  | JNumber (text : str)
  | JString (s : str)
  | JArray (items : list json)
  | JObject (members : list (str * json)).

Global Instance json_eq_dec : EqDecision json.
Proof.
  refine (fix go (a b : json) : Decision (a = b) :=
    match a, b with
    | JNull, JNull => left eq_refl
    | JBool x, JBool y => cast_if (decide (x = y))
    | JNumber x, JNumber y => cast_if (decide (x = y))
    | JString x, JString y => cast_if (decide (x = y))
    | JArray l, JArray k => cast_if (@list_eq_dec _ go l k)
    | JObject l, JObject k => cast_if (@list_eq_dec _ (@prod_eq_dec _ _ _ go) l k)
    | _, _ => right _
    end); clear go; abstract (try discriminate; try congruence).
Defined.

Definition is_object (v : json) : bool :=
  match v with JObject _ => true | _ => false end.

(** [Value::get] on an object, [as_str] and [as_object]. *)
Definition get_member (key : string) (v : json) : option json :=
  match v with
  | JObject members => snd <$> (snd <$> list_find (λ m, fst m = lit key) members)
  | _ => None
  end.
Definition as_str (v : json) : option str :=
  match v with JString s => Some s | _ => None end.

(** flate2: [GzEncoder] to the end, and [GzDecoder] read up to a number of bytes. *)
Class Gzip : Type := {
  gz_encode : list Z → result foreign_error (list Z);
  gz_read : list Z → Z → result str (list Z)
}.

(** Writing to a [Vec] does not fail and gives bytes; reading back at least the
    length that was written gives what was written; [take] bounds what is read. *)
Class GzipLaws `{Gzip} : Prop := {
  gz_encode_ok payload :
    bytes_ok payload → ∃ z, gz_encode payload = Ok z ∧ bytes_ok z;
  gz_read_encode payload z limit :
    gz_encode payload = Ok z → zlen payload ≤ limit → gz_read z limit = Ok payload;
  gz_read_bound z limit out : 0 ≤ limit → gz_read z limit = Ok out → zlen out ≤ limit
}.

(** serde_json: [to_vec] and [to_string] of a value, its [Display], and [from_str]. *)
Class SerdeJson : Type := {
  to_vec : json → list Z;
  display_json : json → str;
  to_string : json → result foreign_error str;
  from_str : str → result foreign_error json
}.

(** serde_json: the integer views of a number, from the text it is written with. *)
Class SerdeNumber : Type := {
  number_as_u64 : str → option Z;
  number_as_i64 : str → option Z
}.

(** An integer of [u64] is read back from what [Display] wrote. *)
Class SerdeNumberLaws `{SerdeNumber} : Prop := {
  number_decimal n : 0 ≤ n ≤ U64_MAX → number_as_u64 (decimal n) = Some n
}.

(** [Value::as_u64], [as_i64], [as_bool] and [as_array]. *)
Definition as_u64 `{SerdeNumber} (v : json) : option Z :=
  match v with JNumber t => number_as_u64 t | _ => None end.
Definition as_i64 `{SerdeNumber} (v : json) : option Z :=
  match v with JNumber t => number_as_i64 t | _ => None end.
Definition as_bool (v : json) : option bool :=
  match v with JBool b => Some b | _ => None end.
Definition as_array (v : json) : option (list json) :=
  match v with JArray items => Some items | _ => None end.
Definition as_object (v : json) : option (list (str * json)) :=
  match v with JObject members => Some members | _ => None end.

(** The crate base64: [STANDARD.encode]. *)
Class Base64 : Type := { encode64 : list Z → str }.

(** serde_json: [from_str::<String>], a JSON string between its quotes. *)
Class SerdeString : Type := { string_from_str : str → result foreign_error str }.

(** A Rust allocation holds at most [isize::MAX] bytes, so does every string that is
    parsed or printed. *)
Class SerdeJsonFits `{SerdeJson} : Prop := {
  to_string_fits v s : to_string v = Ok s → str_len s ≤ I64_MAX;
  display_json_fits v : str_len (display_json v) ≤ I64_MAX;
  from_str_fits s v o k k' t : from_str s = Ok v → get_member k v = Some o →
    get_member k' o = Some (JString t) → str_len t ≤ I64_MAX
}.

(** Concrete instances, for the witnesses. *)
Module Samples.
(** A stored stream: the two magic bytes, then the payload. *)
Definition stored_read (z : list Z) (limit : Z) : result str (list Z) :=
  match z with
  | 31 :: 139 :: payload => Ok (take (Z.to_nat limit) payload)
  | _ => Err (lit "invalid gzip header")
  end.

Definition stored : Gzip :=
  {| gz_encode payload := Ok (31 :: 139 :: payload); gz_read := stored_read |}.

Lemma stored_laws : @GzipLaws stored.
Proof.
  split; cbn.
  - intros payload Hp. eexists; split; [done|]. repeat constructor; try done; unfold is_byte; lia.
  - intros payload z limit [= <-] Hl. cbn. rewrite take_ge; [done|unfold zlen in Hl; lia].
  - intros z limit out Hl. unfold stored_read. repeat case_match; try done.
    intros [= <-]. unfold zlen. rewrite length_take. lia.
Qed.

(** A serializer that only tells values apart by kind, and a parser that reads
    the empty object. *)
Definition tiny_json : SerdeJson :=
  {| to_vec v := match v with JObject [] => lit "{}" | JObject _ => lit "{..}" | _ => lit "null" end;
     display_json v := match v with JObject [] => lit "{}" | JObject _ => lit "{..}" | _ => lit "null" end;
     to_string v := Ok (match v with JObject [] => lit "{}" | JObject _ => lit "{..}" | _ => lit "null" end);
     from_str s := if decide (s = lit "{}") then Ok (JObject [])
                   else if decide (s = lit "[]") then Ok (JArray [])
                   else Err (ForeignError (lit "expected value") []) |}.

Lemma tiny_json_fits : @SerdeJsonFits tiny_json.
Proof.
  split; cbn.
  - intros v s [= <-]. repeat case_match; vm_compute; discriminate.
  - intros v. repeat case_match; vm_compute; discriminate.
  - intros s v o k k' t. repeat case_match; try done; by intros [= <-].
Qed.
End Samples.
