(* ===== verification/Json.v ===== *)
(** * Json: the values of serde_json as the program builds and reads them

    The map of an object is ordered by name ([serde_json::Map] without [preserve_order]):
    [map_insert] replaces a member or adds it in order, [object] is the [json!] literal, and
    [pointer] reads a path of names. *)

From stdpp Require Import prelude gmap strings list.
From S2P Require Import Prelude Errors External.
Local Open Scope Z_scope.

(** An induction principle that reaches the elements and the members. *)
Fixpoint json_nested_ind (P : json → Prop) (Hs : ∀ v, (∀ items, v ≠ JArray items) → (∀ members, v ≠ JObject members) → P v)
    (Ha : ∀ items, Forall P items → P (JArray items)) (Ho : ∀ members, Forall (λ p, P p.2) members → P (JObject members)) v : P v.
Proof.
  destruct v as [|b|t|s|items|members]; [by apply Hs..| |].
  - apply Ha. induction items as [|v items IH]; constructor; [apply (json_nested_ind P Hs Ha Ho)|exact IH].
  - apply Ho. induction members as [|v members IH]; constructor; [apply (json_nested_ind P Hs Ha Ho)|exact IH].
Defined.

(** The map of a JSON object is ordered by name: [insert] replaces, or adds in order. *)
Fixpoint str_lt (s t : str) : bool :=
  match s, t with
  | [], [] => false
  | [], _ => true
  | _, [] => false
  | c :: s, d :: t => (c <? d) || (c =? d) && str_lt s t
  end.
Fixpoint insert_sorted (k : str) (v : json) (members : list (str * json)) : list (str * json) :=
  match members with
  | [] => [(k, v)]
  | (k', v') :: members' =>
      if str_lt k k' then (k, v) :: members else (k', v') :: insert_sorted k v members'
  end.
Fixpoint replace_member (k : str) (v : json) (members : list (str * json)) : list (str * json) :=
  match members with
  | [] => []
  | (k', v') :: members' =>
      if bool_decide (k' = k) then (k, v) :: members' else (k', v') :: replace_member k v members'
  end.
Definition map_insert (k : str) (v : json) (members : list (str * json)) : list (str * json) :=
  if bool_decide (k ∈ fst <$> members) then replace_member k v members else insert_sorted k v members.

(** [Value::get_mut(field)] on an object: the member replaced, or added. *)
Definition set_member (field : string) (v : json) (object : json) : json :=
  match object with
  | JObject members => JObject (map_insert (lit field) v members)
  | _ => object
  end.

(** [s == name], of a literal. *)
Definition named (s : str) (name : string) : bool := bool_decide (s = lit name).
Lemma named_true s name : named s name = true ↔ s = lit name.
Proof. apply bool_decide_eq_true. Qed.
Lemma named_lit a b : named (lit a) b = (a =? b)%string.
Proof.
  unfold named. destruct (String.eqb_spec a b) as [->|H]; [by rewrite bool_decide_eq_true_2|].
  rewrite bool_decide_eq_false_2; [done|]. intros E. by apply lit_inj in E.
Qed.

Lemma named_ne k a b : named k a = true → a ≠ b → k ≠ lit b.
Proof. intros ->%named_true Hne E. by apply lit_inj in E. Qed.
Lemma named_false k a b : named k a = true → a ≠ b → named k b = false.
Proof. intros Ha Hne. apply not_true_is_false. intros Hb%named_true. by eapply named_ne in Ha. Qed.

(** [json!({..})]. *)
Definition object (members : list (string * json)) : json :=
  JObject (foldl (λ m p, map_insert (lit p.1) p.2 m) [] members).
Definition text (s : string) : json := JString (lit s).
(** [json!(n)], of an integer. *)
Definition number (n : Z) : json := JNumber (decimal n).

(** [Value::pointer], of names. *)
Fixpoint pointer (path : list string) (v : json) : option json :=
  match path with
  | [] => Some v
  | name :: path => v ← get_member name v; pointer path v
  end.
(** [value.get(name).and_then(Value::as_str)]. *)
Definition get_str (name : string) (v : json) : option str := get_member name v ≫= as_str.

(** [injection] that leaves the values as they are written. *)
Lemma ok_inj {E A} (a b : A) : @Ok E A a = Ok b → a = b.
Proof. congruence. Qed.

Lemma elem_of_concat {A} (x : A) (ls : list (list A)) : x ∈ concat ls ↔ ∃ l, x ∈ l ∧ l ∈ ls.
Proof.
  rewrite list_elem_of_In, in_concat. setoid_rewrite list_elem_of_In. naive_solver.
Qed.

(** ** What is read is what was written *)

(** [Value::get] with a key that is not a literal. *)
Definition member_at (key : str) (v : json) : option json :=
  match v with
  | JObject members => snd <$> (snd <$> list_find (λ m, fst m = key) members)
  | _ => None
  end.
Lemma member_at_cons field k v members : member_at field (JObject ((k, v) :: members)) =
  if decide (k = field) then Some v else member_at field (JObject members).
Proof.
  unfold member_at. cbn. destruct (decide (k = field)); [done|].
  by destruct (list_find _ members) as [[i m]|].
Qed.
Lemma member_at_replace k v members field :
  member_at field (JObject (replace_member k v members)) =
  if decide (k = field ∧ k ∈ fst <$> members) then Some v else member_at field (JObject members).
Proof.
  induction members as [|[k' v'] members IH].
  - rewrite decide_False; [done|]. intros [_ H]. by apply not_elem_of_nil in H.
  - cbn [replace_member fmap list_fmap fst]. destruct (decide (k' = k)) as [->|Hk].
    + rewrite bool_decide_eq_true_2 by done. rewrite !member_at_cons.
      destruct (decide (k = field)) as [->|Hf].
      * rewrite decide_True; [done|]. split; [done|by left].
      * rewrite decide_False; [done|]. naive_solver.
    + rewrite bool_decide_eq_false_2 by done. rewrite !member_at_cons, IH.
      destruct (decide (k' = field)) as [->|Hf].
      * rewrite decide_False; [done|]. intros [-> _]. done.
      * destruct (decide (k = field ∧ k ∈ fst <$> members)) as [[-> H]|H].
        -- rewrite decide_True; [done|]. split; [done|by right].
        -- rewrite decide_False; [done|]. intros [-> [?|?]%elem_of_cons]; [done|]. by apply H.
Qed.
Lemma member_at_sorted k v members field : k ∉ fst <$> members →
  member_at field (JObject (insert_sorted k v members)) =
  if decide (k = field) then Some v else member_at field (JObject members).
Proof.
  induction members as [|[k' v'] members IH]; cbn [insert_sorted fmap list_fmap fst]; intros Hn.
  - apply member_at_cons.
  - apply not_elem_of_cons in Hn as [Hk Hn]. destruct (str_lt k k'); [apply member_at_cons|].
    rewrite !member_at_cons, IH by done. destruct (decide (k' = field)) as [->|]; [|done].
    by rewrite decide_False.
Qed.
Lemma member_at_insert k v members field :
  member_at field (JObject (map_insert k v members)) =
  if decide (k = field) then Some v else member_at field (JObject members).
Proof.
  unfold map_insert. case_bool_decide as H; [|by apply member_at_sorted].
  rewrite member_at_replace. destruct (decide (k = field)) as [->|Hf]; [by rewrite decide_True|].
  rewrite decide_False; [done|]. naive_solver.
Qed.
Lemma get_insert k v members field :
  get_member field (JObject (map_insert k v members)) =
  if decide (k = lit field) then Some v else get_member field (JObject members).
Proof. apply member_at_insert. Qed.
Lemma get_set_same field v members : get_member field (set_member field v (JObject members)) = Some v.
Proof. cbn [set_member]. rewrite get_insert. by rewrite decide_True. Qed.
Lemma get_set_other field other v members : field ≠ other →
  get_member other (set_member field v (JObject members)) = get_member other (JObject members).
Proof. intros H. cbn [set_member]. rewrite get_insert, decide_False; [done|]. intros E. by apply lit_inj in E. Qed.

(** A member of a literal object: the last of its name. *)
Lemma get_object_from field ms : ∀ m,
  get_member field (JObject (foldl (λ m p, map_insert (lit p.1) p.2 m) m ms)) =
  foldl (λ acc (p : string * json), if (p.1 =? field)%string then Some p.2 else acc) (get_member field (JObject m)) ms.
Proof.
  induction ms as [|[k v] ms IH]; intros m; [done|]. cbn [foldl fst snd]. rewrite IH, get_insert. f_equal.
  destruct (String.eqb_spec k field) as [->|H]; [by rewrite decide_True|].
  rewrite decide_False; [done|]. intros E. by apply lit_inj in E.
Qed.
Lemma get_object field ms : get_member field (object ms) =
  foldl (λ acc (p : string * json), if (p.1 =? field)%string then Some p.2 else acc) None ms.
Proof. apply get_object_from. Qed.

Lemma get_set_object field v ms name : get_member name (set_member field v (object ms)) =
  if (field =? name)%string then Some v else get_member name (object ms).
Proof.
  unfold object. cbn [set_member]. rewrite get_insert. destruct (String.eqb_spec field name) as [->|H]; [by rewrite decide_True|].
  rewrite decide_False; [done|]. intros E. by apply lit_inj in E.
Qed.

(** Reads the members of literal objects. *)
Ltac get_obj :=
  unfold get_str; rewrite ?get_object;
  cbn [foldl fst snd app String.eqb Ascii.eqb Bool.eqb mbind option_bind as_str as_array].
