(* ===== verification/JsonSamples.v ===== *)
(** * JsonSamples: a JSON printer and parser that agree

    serde_json is a parameter of the development; the witnesses of the round trips need one
    that reads back what it writes.  This one writes the number of a value in binary, which
    stdpp's [Countable] gives. *)

From stdpp Require Import prelude countable strings list.
From S2P Require Import Prelude Errors External Json.
Local Open Scope Z_scope.

Fixpoint json_tree (v : json) : gen_tree (list Z) :=
  match v with
  | JNull => GenNode 0 []
  | JBool b => GenNode (if b then 1 else 2) []
  | JNumber t => GenNode 3 [GenLeaf t]
  | JString s => GenNode 4 [GenLeaf s]
  | JArray items => GenNode 5 (List.map json_tree items)
  | JObject members => GenNode 6 (List.map (λ p, GenNode 0 [GenLeaf p.1; json_tree p.2]) members)
  end.
Fixpoint tree_json (t : gen_tree (list Z)) : json :=
  match t with
  | GenNode 1 _ => JBool true
  | GenNode 2 _ => JBool false
  | GenNode 3 [GenLeaf t] => JNumber t
  | GenNode 4 [GenLeaf s] => JString s
  | GenNode 5 items => JArray (List.map tree_json items)
  | GenNode 6 members =>
      JObject (List.map (λ m, match m with GenNode _ [GenLeaf k; t] => (k, tree_json t) | _ => ([], JNull) end) members)
  | _ => JNull
  end.
Lemma tree_json_tree v : tree_json (json_tree v) = v.
Proof.
  induction v as [v Ha Ho|items IH|members IH] using json_nested_ind.
  - destruct v as [|[]| | | |]; try done; exfalso; [by eapply Ha|by eapply Ho].
  - cbn. f_equal. rewrite List.map_map. induction IH; cbn; [done|]. by f_equal.
  - cbn. f_equal. rewrite List.map_map. induction IH as [|[k v] members Hv _ IH]; cbn in *; [done|]. by rewrite Hv, IH.
Qed.
Global Instance json_countable : Countable json := inj_countable' json_tree tree_json tree_json_tree.

(** A positive in binary, least digit first, and back. *)
Fixpoint bits (p : positive) : list Z :=
  match p with xH => [49] | xO p => 48 :: bits p | xI p => 49 :: bits p end.
Fixpoint of_bits (l : list Z) : option positive :=
  match l with
  | [] => None
  | [49] => Some xH
  | b :: l => p ← of_bits l; Some (if b =? 48 then xO p else xI p)
  end.
Lemma of_bits_bits p : of_bits (bits p) = Some p.
Proof.
  induction p as [p IH|p IH|]; [..|done]; cbn [bits of_bits]; rewrite IH; [|done].
  by destruct (bits p) as [|b l] eqn:E; [destruct p|].
Qed.
Lemma bits_ascii p : Forall (λ c, c < 128) (bits p).
Proof. induction p; repeat constructor; done. Qed.

Definition print (v : json) : list Z := bits (encode v).
Definition parse (s : list Z) : result foreign_error json :=
  ok_or (of_bits s ≫= decode) (ForeignError (lit "expected value") []).
Lemma parse_print v : parse (print v) = Ok v.
Proof. unfold parse, print. by rewrite of_bits_bits; cbn; rewrite decode_encode. Qed.

Definition full_json : SerdeJson :=
  {| to_vec := print; display_json := print; to_string v := Ok (print v); from_str := parse |}.
Lemma print_bytes v : as_bytes (print v) = print v.
Proof. apply as_bytes_ascii, bits_ascii. Qed.
