(* ===== verification/DevinWire.v ===== *)
(** * DevinWire: protobuf fields and Connect envelopes of the Devin gateway

    server/src/devin/wire.rs: varints, the field reader and writer, and the
    Connect framing of requests and responses with optional gzip. *)

From stdpp Require Import prelude gmap strings list.
From Stdlib Require Import Wf_nat.
From S2P Require Import Prelude Errors External.
Local Open Scope Z_scope.

(** server/src/devin/wire.rs:7-7, [MAX_BODY_SIZE]. *)
Definition MAX_BODY_SIZE : Z := 24 * 1024 * 1024.

(** server/src/devin/wire.rs:10-15, [FieldValue]. *)
Inductive FieldValue : Type :=
  | Varint (value : Z)
  | Fixed64 (value : list Z)
  | Bytes (value : list Z)
  | Fixed32 (value : list Z).

(** server/src/devin/wire.rs:18-21, [Field]. *)
Record Field : Type := MkField { number : Z; value : FieldValue }.

Global Instance FieldValue_eq_dec : EqDecision FieldValue.
Proof. solve_decision. Defined.
Global Instance Field_eq_dec : EqDecision Field.
Proof. solve_decision. Defined.

(** ** Varints *)

(** server/src/devin/wire.rs:250-256, [encode_varint]. *)
Definition encode_varint_turn (s : Z * list Z) : flow (Z * list Z) (list Z) :=
  let '(value, output) := s in
  if 0x80 <=? value then
    Next (Z.shiftr value 7, output ++ [Z.lor (Z.land (u8 value) 0x7f) 0x80])
  else Done (output ++ [u8 value]).

Lemma encode_varint_decreases :
  decreases encode_varint_turn (λ s, Z.to_nat (Z.log2 (fst s))).
Proof.
  intros [v out] s'; cbn [encode_varint_turn fst]. case_match eqn:Hv; intros [= <-]; cbn [fst].
  apply Z.leb_le in Hv. assert (7 ≤ Z.log2 v).
  { change 7 with (Z.log2 128). by apply Z.log2_le_mono. }
  rewrite Z.log2_shiftr by lia. lia.
Qed.

(** server/src/devin/wire.rs:250-256, [encode_varint]. *)
Definition encode_varint (value : Z) (output : list Z) : list Z :=
  run encode_varint_turn encode_varint_decreases (value, output).

(** server/src/devin/wire.rs:260-272, [decode_varint]: [n] turns are left of the
    ten of the [for] loop. *)
Fixpoint decode_varint_loop (n : nat) (index : Z) (payload : list Z) (offset : nat)
    (value : Z) : res (Z * nat) :=
  match n with
  | O => Err (protocol "unterminated Devin protobuf varint")
  | S n' =>
      byte ← ok_or (payload !! offset) (protocol "truncated Devin protobuf varint");
      let offset := S offset in
      if (index =? 9) && (1 <? byte) then Err (protocol "Devin protobuf varint overflow")
      else
        let value := Z.lor value (u64 (Z.shiftl (Z.land byte 0x7f) (index * 7))) in
        if Z.land byte 0x80 =? 0 then Ok (value, offset)
        else decode_varint_loop n' (index + 1) payload offset value
  end.

(** server/src/devin/wire.rs:258-274, [decode_varint]. *)
Definition decode_varint (payload : list Z) (offset : nat) : res (Z * nat) :=
  decode_varint_loop 10 0 payload offset 0.

(** ** Fields *)

(** server/src/devin/wire.rs:276-287, [read_array].  [get] of the range is the
    slice when it lies inside the payload. *)
Definition read_array (n : nat) (payload : list Z) (offset : nat) : res (list Z * nat) :=
  if USIZE_MAX <? Z.of_nat offset + Z.of_nat n then
    Err (protocol "Devin protobuf offset overflow")
  else
    let end_ := (offset + n)%nat in
    if (end_ <=? length payload)%nat then Ok (take n (drop offset payload), end_)
    else Err (protocol "truncated Devin protobuf fixed field").

(** server/src/devin/wire.rs:66-88, [parse_fields], the [match] on the wire type. *)
Definition parse_value (wire_type : Z) (payload : list Z) (offset : nat)
    : res (FieldValue * nat) :=
  if wire_type =? 0 then
    '(v, offset) ← decode_varint payload offset; Ok (Varint v, offset)
  else if wire_type =? 1 then
    '(a, offset) ← read_array 8 payload offset; Ok (Fixed64 a, offset)
  else if wire_type =? 2 then
    '(len, offset) ← decode_varint payload offset;
    if USIZE_MAX <? len then Err (protocol "Devin protobuf length overflow")
    else if USIZE_MAX <? Z.of_nat offset + len then
      Err (protocol "Devin protobuf length arithmetic overflow")
    else if zlen payload <? Z.of_nat offset + len then
      Err (protocol "truncated Devin protobuf bytes field")
    else let n := Z.to_nat len in
         Ok (Bytes (take n (drop offset payload)), (offset + n)%nat)
  else if wire_type =? 5 then
    '(a, offset) ← read_array 4 payload offset; Ok (Fixed32 a, offset)
  else Err (Protocol (lit "unsupported Devin protobuf wire type " ++ decimal wire_type)).

(** server/src/devin/wire.rs:57-89, [parse_fields], one turn of the [while]. *)
Definition parse_field (payload : list Z) (offset : nat) : res (Field * nat) :=
  '(head, offset) ← decode_varint payload offset;
  let number := Z.shiftr head 3 in
  if 2 ^ 32 <=? number then Err (protocol "Devin protobuf field number overflow")
  else if number =? 0 then Err (protocol "Devin protobuf field number is zero")
  else
    '(v, offset) ← parse_value (Z.land head 7) payload offset;
    Ok (MkField number v, offset).

(** server/src/devin/wire.rs:56-90, [parse_fields], the [while]. *)
Definition parse_turn (payload : list Z) (s : nat * list Field)
    : flow (nat * list Field) (res (list Field)) :=
  let '(offset, fields) := s in
  if (offset <? length payload)%nat then
    match parse_field payload offset with
    | Ok (f, offset') => Next (offset', fields ++ [f])
    | Err e => Done (Err e)
    end
  else Done (Ok fields).

Lemma decode_varint_loop_advances n index payload offset v r o :
  decode_varint_loop n index payload offset v = Ok (r, o) →
  (offset < o ≤ length payload)%nat.
Proof.
  revert index offset v; induction n as [|n IH]; intros index offset v; [done|].
  cbn [decode_varint_loop]. intros (b & Hb & H)%bind_ok. apply ok_or_ok in Hb.
  apply lookup_lt_Some in Hb. repeat case_match; simplify_eq; [lia|].
  apply IH in H. lia.
Qed.

Lemma decode_varint_advances payload offset r o :
  decode_varint payload offset = Ok (r, o) → (offset < o ≤ length payload)%nat.
Proof. apply decode_varint_loop_advances. Qed.

Lemma read_array_advances n payload offset r o :
  read_array n payload offset = Ok (r, o) → o = (offset + n)%nat ∧ (o ≤ length payload)%nat.
Proof.
  unfold read_array. repeat case_match; try done. intros [= _ <-].
  by apply Nat.leb_le in H0.
Qed.

Lemma parse_value_advances w payload offset v o : (offset ≤ length payload)%nat →
  parse_value w payload offset = Ok (v, o) → (offset ≤ o ≤ length payload)%nat.
Proof.
  intros Ho. unfold parse_value. repeat case_match; try done.
  all: intros ([x o'] & Hx & Hr)%bind_ok; repeat case_match; simplify_eq.
  - apply decode_varint_advances in Hx. lia.
  - apply read_array_advances in Hx. lia.
  - apply decode_varint_advances in Hx. unfold zlen in *. lia.
  - apply read_array_advances in Hx. lia.
Qed.

Lemma parse_field_advances payload offset f o :
  parse_field payload offset = Ok (f, o) → (offset < o ≤ length payload)%nat.
Proof.
  unfold parse_field. intros ([h o1] & Hh%decode_varint_advances & Hr)%bind_ok.
  repeat case_match; try done.
  apply bind_ok in Hr as ([v o2] & Hv & [= <- <-]). apply parse_value_advances in Hv; lia.
Qed.

Lemma parse_turn_decreases payload :
  decreases (parse_turn payload) (λ s, length payload - fst s)%nat.
Proof.
  intros [offset fields] s'. cbn [parse_turn fst].
  destruct (offset <? length payload)%nat; [|done].
  destruct (parse_field payload offset) as [[f o]|e] eqn:E; [|done].
  intros [= <-]. apply parse_field_advances in E. cbn. lia.
Qed.

(** server/src/devin/wire.rs:53-91, [parse_fields]. *)
Definition parse_fields (payload : list Z) : res (list Field) :=
  run (parse_turn payload) (parse_turn_decreases payload) (0%nat, []).

(** server/src/devin/wire.rs:101-106, [serialize_fields]. *)
Definition wire_type (v : FieldValue) : Z :=
  match v with Varint _ => 0 | Fixed64 _ => 1 | Bytes _ => 2 | Fixed32 _ => 5 end.

(** server/src/devin/wire.rs:101-116, [serialize_fields], the body of the [for]. *)
Definition serialize_field (f : Field) (output : list Z) : list Z :=
  let output := encode_varint (Z.lor (u64 (Z.shiftl (number f) 3)) (wire_type (value f))) output in
  match value f with
  | Varint v => encode_varint v output
  | Fixed64 a => output ++ a
  | Bytes b => encode_varint (u64 (zlen b)) output ++ b
  | Fixed32 a => output ++ a
  end.

(** server/src/devin/wire.rs:95-118, [serialize_fields], the [for]. *)
Fixpoint serialize_loop (fields : list Field) (output : list Z) : res (list Z) :=
  match fields with
  | [] => Ok output
  | f :: fields' =>
      if number f =? 0 then Err (protocol "Devin protobuf field number is zero")
      else serialize_loop fields' (serialize_field f output)
  end.

(** server/src/devin/wire.rs:93-119, [serialize_fields]. *)
Definition serialize_fields (fields : list Field) : res (list Z) := serialize_loop fields [].

(** server/src/devin/wire.rs:121-123, [first_field]. *)
Definition first_field (fields : list Field) (n : Z) : option Field :=
  snd <$> list_find (λ f, number f = n) fields.

(** server/src/devin/wire.rs:125-127, [all_fields]. *)
Definition all_fields (fields : list Field) (n : Z) : list Field :=
  filter (λ f, number f = n) fields.

(** ** Varints: lemmas *)

(** The bytes of a varint, as a recursion on groups of seven bits. *)
Definition varint_bytes (v : Z) : list Z := encode_varint v [].

Lemma encode_varint_eq v out :
  encode_varint v out =
  if 0x80 <=? v then encode_varint (Z.shiftr v 7) (out ++ [Z.lor (Z.land (u8 v) 0x7f) 0x80])
  else out ++ [u8 v].
Proof. unfold encode_varint. rewrite run_eq. cbn [encode_varint_turn]. by destruct (0x80 <=? v). Qed.

(** Induction on a [u64] by groups of seven bits. *)
Lemma varint_ind (P : Z → Prop) :
  (∀ v, (128 ≤ v → P (v / 128)) → P v) → ∀ v, P v.
Proof.
  intros IH v. remember (Z.to_nat v) as n eqn:En. revert v En.
  induction n as [n IHn] using lt_wf_ind. intros v ->. apply IH. intros Hv.
  apply (IHn (Z.to_nat (v / 128))); [|done].
  apply Z2Nat.inj_lt; [apply Z.div_pos; lia|lia|]. apply Z.div_lt; lia.
Qed.

Lemma shiftr_7 v : Z.shiftr v 7 = v / 128.
Proof. by rewrite Z.shiftr_div_pow2. Qed.

Lemma encode_varint_app v : ∀ out, encode_varint v out = out ++ varint_bytes v.
Proof.
  unfold varint_bytes. induction v as [v IH] using varint_ind. intros out.
  rewrite (encode_varint_eq v out), (encode_varint_eq v []).
  destruct (0x80 <=? v) eqn:Hv; [|done]. rewrite shiftr_7.
  rewrite (IH ltac:(lia) (out ++ _)), (IH ltac:(lia) ([] ++ _)). by rewrite <- app_assoc.
Qed.

Lemma varint_bytes_small v : 0 ≤ v < 128 → varint_bytes v = [v].
Proof.
  intros Hv. unfold varint_bytes. rewrite encode_varint_eq.
  destruct (0x80 <=? v) eqn:E; [lia|]. cbn. by rewrite wrap_small by lia.
Qed.

Lemma varint_bytes_large v : 128 ≤ v →
  varint_bytes v = (v `mod` 128 + 128) :: varint_bytes (v / 128).
Proof.
  intros Hv. unfold varint_bytes at 1. rewrite encode_varint_eq.
  destruct (0x80 <=? v) eqn:E; [|lia].
  rewrite encode_varint_app, shiftr_7. cbn [app]. f_equal.
  change 0x7f with (2 ^ 7 - 1). rewrite land_low by lia.
  change 0x80 with (Z.shiftl 1 7) at 1. rewrite lor_shiftl_add by
    (try apply Z.mod_pos_bound; lia).
  unfold wrap. Z.to_euclidean_division_equations. lia.
Qed.

Lemma varint_bytes_ok v : 0 ≤ v → bytes_ok (varint_bytes v).
Proof.
  induction v as [v IH] using varint_ind. intros Hv. destruct (decide (v < 128)).
  - rewrite varint_bytes_small by lia. repeat constructor; lia.
  - rewrite varint_bytes_large by lia. constructor.
    + pose proof (Z.mod_pos_bound v 128). unfold is_byte. lia.
    + apply IH; [lia|]. apply Z.div_pos; lia.
Qed.

(** [7 k] bits fit in [k] bytes. *)
Lemma varint_bytes_length k : ∀ v, 0 ≤ v < 2 ^ (7 * Z.of_nat k) → (0 < k)%nat →
  (0 < length (varint_bytes v) ≤ k)%nat.
Proof.
  induction k as [|k IH]; intros v Hv Hk; [lia|]. destruct (decide (v < 128)).
  - rewrite varint_bytes_small by lia. cbn; lia.
  - rewrite varint_bytes_large by lia. cbn [length].
    destruct k as [|k]; [cbn in Hv; lia|].
    enough (0 < length (varint_bytes (v / 128)) ≤ S k)%nat by lia.
    apply IH; [|lia]. split; [apply Z.div_pos; lia|].
    apply Z.div_lt_upper_bound; [lia|].
    replace (128 * 2 ^ (7 * Z.of_nat (S k))) with (2 ^ (7 * Z.of_nat (S (S k)))); [lia|].
    change 128 with (2 ^ 7). rewrite <- Z.pow_add_r by lia. f_equal. lia.
Qed.

Lemma decode_loop_app n index pre l off v :
  decode_varint_loop n index (pre ++ l) (length pre + off) v =
  (λ '(r, o), (r, (length pre + o)%nat)) <$> decode_varint_loop n index l off v.
Proof.
  revert index off v; induction n as [|n IH]; intros index off v; [done|].
  cbn [decode_varint_loop]. rewrite lookup_app_r by lia.
  replace (length pre + off - length pre)%nat with off by lia.
  destruct (l !! off) as [b|]; [|done]. cbn. repeat case_match; try done.
  - by rewrite <- Nat.add_succ_r.
  - by rewrite <- Nat.add_succ_r, IH.
Qed.

(** Groups of seven bits: what one turn of the decoder adds to the value. *)
Lemma decode_group acc index b : 0 ≤ index ≤ 9 → 0 ≤ acc < 2 ^ (7 * index) →
  0 ≤ b < 256 → (index = 9 → b ≤ 1) →
  Z.lor acc (u64 (Z.shiftl (Z.land b 0x7f) (index * 7))) = acc + b `mod` 128 * 2 ^ (7 * index).
Proof.
  intros Hi Ha Hb H9. change 0x7f with (2 ^ 7 - 1). rewrite land_low by lia.
  rewrite (Z.mul_comm index 7). rewrite wrap_small.
  - by rewrite lor_shiftl_add by lia.
  - rewrite Z.shiftl_mul_pow2 by lia. pose proof (Z.mod_pos_bound b (2 ^ 7)).
    split; [apply Z.mul_nonneg_nonneg; lia|].
    destruct (decide (index = 9)) as [->|].
    + rewrite Z.mod_small by lia. nia.
    + apply Z.lt_le_trans with (2 ^ 7 * 2 ^ (7 * index)).
      * apply Z.mul_lt_mono_pos_r; lia.
      * rewrite <- Z.pow_add_r by lia. apply Z.pow_le_mono_r; lia.
Qed.

Lemma high_bit b : 0 ≤ b < 256 → (Z.land b 0x80 =? 0) = (b <? 128).
Proof.
  intros Hb. apply Bool.eq_true_iff_eq. rewrite Z.eqb_eq, Z.ltb_lt.
  assert (Z.testbit b 7 = true ↔ 128 ≤ b) as Ht.
  { rewrite Z.testbit_true by lia. Z.to_euclidean_division_equations. lia. }
  split; intros H.
  - assert (Z.testbit (Z.land b 0x80) 7 = false) as H7 by (rewrite H; apply Z.bits_0).
    rewrite Z.land_spec in H7. change (Z.testbit 0x80 7) with true in H7.
    rewrite andb_true_r in H7. rewrite H7 in Ht. destruct (decide (b < 128)); [done|].
    assert (false = true) by (apply Ht; lia). done.
  - change 0x80 with (2 ^ 7). apply Z.bits_inj'; intros i Hi.
    rewrite Z.land_spec, Z.bits_0, Z.pow2_bits_eqb by lia.
    destruct (Z.eqb_spec 7 i) as [<-|]; [|apply andb_false_r].
    destruct (Z.testbit b 7); [|done]. assert (128 ≤ b) by (by apply Ht). lia.
Qed.

Lemma decode_loop_varint n : ∀ index acc v l,
  0 ≤ index → index + Z.of_nat n = 10 → (0 < n)%nat →
  0 ≤ acc < 2 ^ (7 * index) → 0 ≤ v < 2 ^ (64 - 7 * index) →
  decode_varint_loop n index (varint_bytes v ++ l) 0 acc =
  Ok (acc + v * 2 ^ (7 * index), length (varint_bytes v)).
Proof.
  induction n as [|n IH]; intros index acc v l Hi Hn Hpos Ha Hv; [lia|].
  assert (index = 9 → v < 2) as H9 by (intros ->; cbn in Hv; lia).
  cbn [decode_varint_loop]. destruct (decide (v < 128)) as [Hs|Hs].
  - rewrite varint_bytes_small by lia. cbn [app lookup list_lookup ok_or mbind result_bind].
    destruct (index =? 9) eqn:E9, (1 <? v) eqn:E1; cbn [andb]; try lia.
    all: rewrite high_bit by lia; rewrite decode_group by lia; rewrite Z.mod_small by lia.
    all: destruct (v <? 128) eqn:E; [done|lia].
  - rewrite varint_bytes_large by lia. cbn [app lookup list_lookup ok_or mbind result_bind length].
    pose proof (Z.mod_pos_bound v 128 ltac:(lia)) as Hm.
    assert (index ≠ 9) by (intros ->; lia).
    destruct (index =? 9) eqn:E9; [lia|]. cbn [andb].
    rewrite high_bit, decode_group by lia.
    destruct (_ <? 128) eqn:E; [lia|].
    replace ((v `mod` 128 + 128) `mod` 128) with (v `mod` 128)
      by (rewrite <- Z.add_mod_idemp_r by lia; rewrite Z.mod_same, Z.add_0_r, Z.mod_mod; lia).
    assert (2 ^ (7 * (index + 1)) = 2 ^ (7 * index) * 128) as Hp.
    { replace (7 * (index + 1)) with (7 * index + 7) by lia. by rewrite Z.pow_add_r by lia. }
    assert (0 ≤ v / 128 < 2 ^ (64 - 7 * (index + 1))) as Hv'.
    { split; [apply Z.div_pos; lia|]. apply Z.div_lt_upper_bound; [lia|].
      change 128 with (2 ^ 7). rewrite <- Z.pow_add_r by lia.
      replace (7 + (64 - 7 * (index + 1))) with (64 - 7 * index) by lia. lia. }
    etransitivity;
      [apply (decode_loop_app n (index + 1) [v `mod` 128 + 128] (varint_bytes (v / 128) ++ l) 0)|].
    rewrite IH by (try done; nia). cbn [fmap result_fmap]. rewrite Hp.
    pose proof (Z.div_mod v 128). do 2 f_equal. nia.
Qed.

Lemma decode_varint_bytes pre v l : 0 ≤ v < 2 ^ 64 →
  decode_varint (pre ++ varint_bytes v ++ l) (length pre) =
  Ok (v, (length pre + length (varint_bytes v))%nat).
Proof.
  intros Hv. unfold decode_varint.
  pose proof (decode_loop_app 10 0 pre (varint_bytes v ++ l) 0 0) as Happ.
  rewrite Nat.add_0_r in Happ. rewrite Happ, decode_loop_varint by (cbn in *; lia).
  cbn [fmap result_fmap]. do 2 f_equal. cbn. lia.
Qed.

(** A decoded varint is a [u64], and its minimal encoding is no longer than what
    was read. *)
Lemma decode_loop_bound n : ∀ index payload offset acc v o,
  0 ≤ index → index + Z.of_nat n = 10 → bytes_ok payload → 0 ≤ acc < 2 ^ (7 * index) →
  decode_varint_loop n index payload offset acc = Ok (v, o) →
  0 ≤ v < 2 ^ 64 ∧ v < 2 ^ (7 * (index + Z.of_nat (o - offset))).
Proof.
  induction n as [|n IH]; intros index payload offset acc v o Hi Hn Hb Ha; [done|].
  cbn [decode_varint_loop]. intros (b & Hlook & Hr)%bind_ok. apply ok_or_ok in Hlook.
  assert (0 ≤ b < 256) as Hbb.
  { apply list_elem_of_lookup_2 in Hlook. by eapply Forall_forall in Hb. }
  destruct ((index =? 9) && (1 <? b)) eqn:Hover; [done|].
  assert (index = 9 → b ≤ 1) by (intros ->; cbn in Hover; lia).
  rewrite decode_group in Hr by lia. rewrite high_bit in Hr by done.
  pose proof (Z.mod_pos_bound b 128 ltac:(lia)).
  assert (2 ^ (7 * (index + 1)) = 2 ^ (7 * index) * 128) as Hp.
  { replace (7 * (index + 1)) with (7 * index + 7) by lia. by rewrite Z.pow_add_r by lia. }
  destruct (b <? 128) eqn:Hhigh.
  - injection Hr as <- <-. replace (Z.of_nat (S offset - offset)) with 1 by lia.
    split; [|rewrite Hp; nia]. split; [nia|]. destruct (decide (index = 9)) as [->|].
    + rewrite Z.mod_small in * by lia. cbn in Ha |- *. lia.
    + apply Z.lt_le_trans with (2 ^ (7 * (index + 1))); [rewrite Hp; nia|].
      apply Z.pow_le_mono_r; lia.
  - assert (n ≠ 0)%nat by (intros ->; assert (index = 9) by lia; lia).
    pose proof (decode_varint_loop_advances _ _ _ _ _ _ _ Hr).
    apply IH in Hr; [|lia..|done|rewrite Hp; nia].
    replace (index + Z.of_nat (o - offset)) with (index + 1 + Z.of_nat (o - S offset)) by lia.
    done.
Qed.

Lemma decode_varint_bound payload offset v o : bytes_ok payload →
  decode_varint payload offset = Ok (v, o) →
  0 ≤ v < 2 ^ 64 ∧ (length (varint_bytes v) ≤ o - offset)%nat.
Proof.
  intros Hb Hd. pose proof (decode_varint_advances _ _ _ _ Hd).
  apply decode_loop_bound in Hd as [Hv Hl]; [|lia|lia|done|cbn; lia].
  split; [done|]. apply varint_bytes_length; [|lia]. rewrite Z.add_0_l in Hl. lia.
Qed.

(** ** Fields: the round trip *)

(** What a [Field] of the program can hold: a positive [u32] number, a [u64], the
    array lengths, and a [Vec] whose length is a [usize]. *)
Definition value_ok (v : FieldValue) : Prop :=
  match v with
  | Varint x => 0 ≤ x < 2 ^ 64
  | Fixed64 a => length a = 8%nat
  | Bytes b => zlen b < 2 ^ 64
  | Fixed32 a => length a = 4%nat
  end.
Definition field_ok (f : Field) : Prop := 0 < number f < 2 ^ 32 ∧ value_ok (value f).

Global Instance value_ok_dec v : Decision (value_ok v).
Proof. destruct v; cbn; apply _. Defined.
Global Instance field_ok_dec f : Decision (field_ok f).
Proof. unfold field_ok; apply _. Defined.

Definition head_of (f : Field) : Z := number f * 8 + wire_type (value f).
Definition value_bytes (v : FieldValue) : list Z :=
  match v with
  | Varint x => varint_bytes x
  | Fixed64 a | Fixed32 a => a
  | Bytes b => varint_bytes (zlen b) ++ b
  end.
Definition field_bytes (f : Field) : list Z := varint_bytes (head_of f) ++ value_bytes (value f).

Lemma wire_type_bound v : 0 ≤ wire_type v < 8.
Proof. destruct v; cbn; lia. Qed.

Lemma head_ok f : 0 ≤ number f < 2 ^ 32 →
  Z.lor (u64 (Z.shiftl (number f) 3)) (wire_type (value f)) = head_of f.
Proof.
  intros Hn. pose proof (wire_type_bound (value f)). unfold head_of.
  rewrite wrap_small by (rewrite Z.shiftl_mul_pow2 by lia; lia).
  rewrite Z.lor_comm, lor_shiftl_add by lia. lia.
Qed.

Lemma serialize_field_eq f out : field_ok f → serialize_field f out = out ++ field_bytes f.
Proof.
  intros [Hn Hv]. unfold serialize_field. rewrite head_ok by lia. unfold field_bytes.
  destruct (value f) as [x|a|b|a]; cbn [value_bytes].
  all: rewrite ?encode_varint_app, <- ?app_assoc; try done.
  cbn in Hv. rewrite wrap_small; [done|]. pose proof (zlen_nonneg b). lia.
Qed.

Lemma serialize_loop_ok fields : ∀ out, Forall field_ok fields →
  serialize_loop fields out = Ok (out ++ concat (field_bytes <$> fields)).
Proof.
  induction fields as [|f fields IH]; intros out Hok; cbn [serialize_loop fmap list_fmap concat].
  - by rewrite app_nil_r.
  - inversion_clear Hok as [|?? Hf Hfs]. pose proof Hf as [Hn _].
    destruct (number f =? 0) eqn:E; [lia|].
    rewrite serialize_field_eq, IH by done. by rewrite <- app_assoc.
Qed.

Lemma take_drop_middle_app {A} (pre mid suf : list A) :
  take (length mid) (drop (length pre) (pre ++ mid ++ suf)) = mid.
Proof. by rewrite drop_app_length, take_app_length. Qed.

Lemma parse_value_bytes pre v suf : value_ok v →
  zlen (pre ++ value_bytes v ++ suf) ≤ USIZE_MAX →
  parse_value (wire_type v) (pre ++ value_bytes v ++ suf) (length pre) =
  Ok (v, (length pre + length (value_bytes v))%nat).
Proof.
  intros Hv Hl. unfold parse_value. rewrite !zlen_app in Hl.
  pose proof (zlen_nonneg suf).
  destruct v as [x|a|b|a]; cbn [wire_type value_bytes Z.eqb Pos.eqb value_ok] in *.
  - by rewrite decode_varint_bytes.
  - unfold read_array. unfold zlen in Hl. rewrite !length_app, <- Hv.
    rewrite (proj2 (Z.ltb_ge _ _)) by lia. rewrite (proj2 (Nat.leb_le _ _)) by lia.
    cbn [mbind result_bind]. by rewrite take_drop_middle_app.
  - rewrite zlen_app in Hl. pose proof (zlen_nonneg b). pose proof (zlen_nonneg pre).
    pose proof (zlen_nonneg (varint_bytes (zlen b))).
    rewrite <- app_assoc, decode_varint_bytes by lia. cbn [mbind result_bind].
    assert (zlen (pre ++ varint_bytes (zlen b) ++ b ++ suf) =
            zlen pre + zlen (varint_bytes (zlen b)) + zlen b + zlen suf) as Hlen
      by (rewrite !zlen_app; lia).
    rewrite Hlen, Nat2Z.inj_add. fold (zlen pre). fold (zlen (varint_bytes (zlen b))).
    rewrite !(proj2 (Z.ltb_ge _ _)) by lia.
    replace (Z.to_nat (zlen b)) with (length b) by (unfold zlen; lia).
    rewrite app_assoc, <- length_app, take_drop_middle_app. rewrite !length_app.
    do 2 f_equal. lia.
  - unfold read_array. unfold zlen in Hl. rewrite !length_app, <- Hv.
    rewrite (proj2 (Z.ltb_ge _ _)) by lia. rewrite (proj2 (Nat.leb_le _ _)) by lia.
    cbn [mbind result_bind]. by rewrite take_drop_middle_app.
Qed.

Lemma parse_field_bytes pre f suf : field_ok f →
  zlen (pre ++ field_bytes f ++ suf) ≤ USIZE_MAX →
  parse_field (pre ++ field_bytes f ++ suf) (length pre) =
  Ok (f, (length pre + length (field_bytes f))%nat).
Proof.
  intros [Hn Hv] Hl. unfold field_bytes in *. pose proof (wire_type_bound (value f)) as Hw.
  rewrite <- app_assoc in *. unfold parse_field.
  rewrite decode_varint_bytes by (unfold head_of; lia). cbn [mbind result_bind].
  assert (Z.shiftr (head_of f) 3 = number f) as ->.
  { rewrite Z.shiftr_div_pow2 by lia. unfold head_of.
    Z.to_euclidean_division_equations. lia. }
  assert (Z.land (head_of f) 7 = wire_type (value f)) as ->.
  { change 7 with (2 ^ 3 - 1). rewrite land_low by lia. unfold head_of.
    Z.to_euclidean_division_equations. lia. }
  rewrite (proj2 (Z.leb_gt _ _)), (proj2 (Z.eqb_neq _ _)) by lia.
  rewrite app_assoc in Hl |- *. rewrite <- length_app, parse_value_bytes by done.
  cbn [mbind result_bind]. rewrite !length_app. destruct f; cbn. do 2 f_equal. lia.
Qed.

Lemma parse_loop_bytes payload fields : ∀ pre acc,
  payload = pre ++ concat (field_bytes <$> fields) → zlen payload ≤ USIZE_MAX →
  Forall field_ok fields →
  run (parse_turn payload) (parse_turn_decreases payload) (length pre, acc) =
  Ok (acc ++ fields).
Proof.
  induction fields as [|f fields IH]; intros pre acc Hp Hl Hok; rewrite run_eq; cbn [parse_turn].
  - cbn in Hp. rewrite app_nil_r in Hp. subst. rewrite Nat.ltb_irrefl. by rewrite app_nil_r.
  - inversion_clear Hok as [|?? Hf Hfs]. cbn [fmap list_fmap concat] in Hp.
    assert (0 < length (field_bytes f))%nat.
    { unfold field_bytes. rewrite length_app.
      pose proof (varint_bytes_length 10 (head_of f)) as Hb.
      pose proof (wire_type_bound (value f)). destruct Hf as [Hn _]. unfold head_of in *.
      cbn [Z.of_nat Pos.of_succ_nat Pos.succ] in Hb. lia. }
    rewrite (proj2 (Nat.ltb_lt _ _)) by (subst; rewrite !length_app; lia).
    rewrite Hp at 1. rewrite parse_field_bytes by (by rewrite <- ?Hp).
    rewrite <- length_app, IH; [by rewrite <- app_assoc|by rewrite <- app_assoc|done..].
Qed.

Lemma parse_value_ok w payload offset v o : bytes_ok payload → zlen payload ≤ USIZE_MAX →
  (offset ≤ length payload)%nat → parse_value w payload offset = Ok (v, o) →
  value_ok v ∧ wire_type v = w ∧ (length (value_bytes v) ≤ o - offset)%nat.
Proof.
  intros Hb Hl Ho. unfold parse_value. destruct (w =? 0) eqn:E0; [|destruct (w =? 1) eqn:E1;
    [|destruct (w =? 2) eqn:E2; [|destruct (w =? 5) eqn:E5; [|done]]]].
  all: intros ([x o'] & Hx & Hr)%bind_ok.
  - injection Hr as <- <-. apply decode_varint_bound in Hx as [Hv Hlen]; [|done].
    cbn [value_ok wire_type value_bytes]. lia.
  - injection Hr as <- <-. unfold read_array in Hx. repeat case_match; try done.
    injection Hx as <- <-. cbn [value_ok wire_type value_bytes].
    rewrite Nat.leb_le in *. rewrite length_take, length_drop. lia.
  - pose proof (decode_varint_advances _ _ _ _ Hx).
    apply decode_varint_bound in Hx as [Hv Hlen]; [|done].
    repeat case_match; try done. injection Hr as <- <-. cbn [value_ok wire_type value_bytes].
    assert (length (take (Z.to_nat x) (drop o' payload)) = Z.to_nat x) as Hlt
      by (rewrite length_take, length_drop; unfold zlen in *; lia).
    assert (zlen (take (Z.to_nat x) (drop o' payload)) = x) as Hzl by (unfold zlen; lia).
    rewrite Hzl, length_app. lia.
  - injection Hr as <- <-. unfold read_array in Hx. repeat case_match; try done.
    injection Hx as <- <-. cbn [value_ok wire_type value_bytes].
    rewrite Nat.leb_le in *. rewrite length_take, length_drop. lia.
Qed.

Lemma parse_field_ok payload offset f o : bytes_ok payload → zlen payload ≤ USIZE_MAX →
  parse_field payload offset = Ok (f, o) →
  field_ok f ∧ (length (field_bytes f) ≤ o - offset)%nat.
Proof.
  intros Hb Hl. unfold parse_field. intros ([h o1] & Hh & Hr)%bind_ok.
  pose proof (decode_varint_advances _ _ _ _ Hh).
  apply decode_varint_bound in Hh as [Hhv Hhl]; [|done].
  destruct (2 ^ 32 <=? Z.shiftr h 3) eqn:E32; [done|].
  destruct (Z.shiftr h 3 =? 0) eqn:E0; [done|].
  apply bind_ok in Hr as ([v o2] & Hv & [= <- <-]).
  pose proof (parse_value_advances _ payload o1 _ _ ltac:(lia) Hv).
  apply parse_value_ok in Hv as (Hvo & Hw & Hvl); [|done..|lia].
  assert (0 ≤ Z.shiftr h 3) by (apply Z.shiftr_nonneg; lia).
  assert (head_of (MkField (Z.shiftr h 3) v) = h) as Hhead.
  { unfold head_of. cbn [number value]. rewrite Hw. change 7 with (2 ^ 3 - 1).
    rewrite land_low, Z.shiftr_div_pow2 by lia. Z.to_euclidean_division_equations. lia. }
  split; [split; [cbn; lia|done]|].
  unfold field_bytes. rewrite Hhead, length_app. cbn [value]. lia.
Qed.

(** What the reader returns: well-formed fields, no longer than the payload when
    written again. *)
Lemma parse_fields_ok payload fields : bytes_ok payload → zlen payload ≤ USIZE_MAX →
  parse_fields payload = Ok fields →
  Forall field_ok fields ∧ (length (concat (field_bytes <$> fields)) ≤ length payload)%nat.
Proof.
  intros Hb Hl. unfold parse_fields.
  pose (I := λ s : nat * list Field, (fst s ≤ length payload)%nat ∧ Forall field_ok (snd s) ∧
    (length (concat (field_bytes <$> snd s)) ≤ fst s)%nat).
  apply (run_invariant _ _ (parse_turn_decreases payload) I
    (λ _ r, r = Ok fields → Forall field_ok fields ∧
      (length (concat (field_bytes <$> fields)) ≤ length payload)%nat)).
  - intros [o acc] r (Ho & Hf & Hlen); cbn [fst snd] in *; cbn [parse_turn].
    destruct (o <? length payload)%nat.
    + destruct (parse_field payload o) as [[f o']|e]; [done|]. by intros [= <-].
    + intros [= <-] [= <-]. split; [done|lia].
  - intros [o acc] s' (Ho & Hf & Hlen); cbn [fst snd] in *; cbn [parse_turn].
    destruct (o <? length payload)%nat; [|done].
    destruct (parse_field payload o) as [[f o']|e] eqn:E; [|done].
    intros [= <-]. split; [|done]. pose proof (parse_field_advances _ _ _ _ E).
    apply parse_field_ok in E as [Hfo Hfl]; [|done..]. unfold I; cbn [fst snd].
    split; [lia|]. split; [apply Forall_app; auto|].
    rewrite fmap_app, concat_app, length_app. cbn [fmap list_fmap concat].
    rewrite app_nil_r. lia.
  - unfold I; cbn. repeat split; [lia|constructor|lia].
Qed.

(** ** Connect envelopes *)

(** server/src/devin/wire.rs:130-133, [ConnectError]. *)
Record ConnectError : Type := MkConnectError { code : str; message : str }.

(** server/src/devin/wire.rs:138-141, [UnwrappedRequest]. *)
Record UnwrappedRequest : Type := MkUnwrapped { payload : list Z; enveloped : bool }.

Global Instance UnwrappedRequest_eq_dec : EqDecision UnwrappedRequest.
Proof. solve_decision. Defined.

(** server/src/devin/wire.rs:199-204, [encoding_has_gzip]. *)
Definition encoding_has_gzip (v : option str) : bool :=
  existsb (λ encoding, bool_decide (to_ascii_lower <$> trim encoding = lit "gzip"))
    (split_on 44 (default [] v)).

(** server/src/devin/wire.rs:206-213, [is_connect_envelope]. *)
Definition is_connect_envelope (body : list Z) : bool :=
  match body with
  | flags :: b1 :: b2 :: b3 :: b4 :: rest =>
      (from_be_bytes b1 b2 b3 b4 =? zlen rest) && (flags <=? 1)
  | _ => false
  end.

(** server/src/devin/wire.rs:240-248, [framed]. *)
Definition framed (flags : Z) (p : list Z) : res (list Z) :=
  if 2 ^ 32 <=? zlen p then Err (protocol "Devin frame payload exceeds u32 length")
  else Ok (u8 flags :: to_be_bytes (zlen p) ++ p).

Section Connect.
Context `{Gzip, SerdeJson}.

(** server/src/devin/wire.rs:289-293, [gzip]. *)
Definition gzip (p : list Z) : res (list Z) := map_err Io (gz_encode p).

(** server/src/devin/wire.rs:295-307, [gunzip]. *)
Definition gunzip (p : list Z) : res (list Z) :=
  output ← map_err (λ e, Protocol (lit "invalid Devin gzip payload: " ++ e))
             (gz_read p (MAX_BODY_SIZE + 1));
  if MAX_BODY_SIZE <? zlen output then Err (protocol "Devin gzip payload exceeds 24 MiB")
  else Ok output.

(** server/src/devin/wire.rs:215-225, [frame]. *)
Definition frame (p : list Z) (compress : bool) : res (list Z) :=
  if MAX_BODY_SIZE <? zlen p then Err (protocol "Devin response body exceeds 24 MiB")
  else
    p ← (if compress then gzip p else Ok p);
    framed (if compress then 1 else 0) p.

(** server/src/devin/wire.rs:227-238, [end_frame].  The [expect] of the code is
    on the length of the JSON text: the result keeps the error it would raise. *)
Definition end_frame (error : option ConnectError) : res (list Z) :=
  let p := match error with
           | Some e => to_vec (JObject [(lit "error",
               JObject [(lit "code", JString (code e)); (lit "message", JString (message e))])])
           | None => to_vec (JObject [])
           end in
  framed 2 p.

Definition too_large : Error := protocol "Devin request body exceeds 24 MiB".

(** server/src/devin/wire.rs:167-188, [unwrap_request], the [if] on the envelope:
    [None] falls through to the raw body. *)
Definition unwrap_envelope (buffer : list Z) : option (res UnwrappedRequest) :=
  match buffer with
  | flags :: b1 :: b2 :: b3 :: b4 :: rest =>
      let declared := from_be_bytes b1 b2 b3 b4 in
      if (declared =? zlen rest) && (flags <=? 1) then
        Some (p ← (if flags =? 1 then gunzip rest else Ok rest);
              if MAX_BODY_SIZE <? zlen p then Err too_large
              else Ok (MkUnwrapped p true))
      else if (declared =? zlen rest) && (flags =? 2) then
        Some (Err (protocol "Devin end frame is not valid as a request"))
      else None
  | _ => None
  end.

(** server/src/devin/wire.rs:143-197, [unwrap_request]. *)
Definition unwrap_request (body : list Z) (http_content_encoding : option str)
    (connect_content_encoding : option str) : res UnwrappedRequest :=
  if MAX_BODY_SIZE + 5 <? zlen body then Err too_large
  else
    buffer ← (if encoding_has_gzip http_content_encoding then gunzip body else Ok body);
    if MAX_BODY_SIZE + 5 <? zlen buffer then Err too_large
    else
      match unwrap_envelope buffer with
      | Some r => r
      | None =>
          buffer ← (if encoding_has_gzip connect_content_encoding then gunzip buffer
                    else Ok buffer);
          if MAX_BODY_SIZE <? zlen buffer then Err too_large
          else Ok (MkUnwrapped buffer false)
      end.

Lemma framed_ok flags p f : framed flags p = Ok f →
  zlen p < 2 ^ 32 ∧ f = u8 flags :: to_be_bytes (zlen p) ++ p.
Proof. unfold framed. case_match eqn:E; [done|]. intros [= <-]. split; [lia|done]. Qed.

Lemma framed_declared (p : list Z) : zlen p < 2 ^ 32 →
  match to_be_bytes (zlen p) with
  | [b1; b2; b3; b4] => from_be_bytes b1 b2 b3 b4 =? zlen p
  | _ => false
  end = true.
Proof.
  intros Hl. pose proof (zlen_nonneg p). pose proof (be_bytes_round (zlen p) ltac:(lia)) as Hb.
  cbn in *. by apply Z.eqb_eq.
Qed.

Lemma gunzip_bound p q : gunzip p = Ok q → zlen q ≤ MAX_BODY_SIZE.
Proof.
  unfold gunzip. intros (o & _ & Hr)%bind_ok. case_match eqn:E; [done|].
  injection Hr as <-. lia.
Qed.

Lemma gunzip_gzip `{!GzipLaws} p z : gzip p = Ok z → zlen p ≤ MAX_BODY_SIZE → gunzip z = Ok p.
Proof.
  unfold gzip, gunzip. destruct (gz_encode p) as [z'|e] eqn:E; cbn [map_err]; [|done].
  intros [= <-] Hl. rewrite (gz_read_encode p) by (done || lia). cbn [map_err mbind result_bind].
  by rewrite (proj2 (Z.ltb_ge _ _)) by lia.
Qed.

(** An envelope read back, whatever the Connect header says. *)
Lemma unwrap_envelope_frame `{!GzipLaws} p compress f : frame p compress = Ok f →
  unwrap_envelope f = Some (Ok (MkUnwrapped p true)).
Proof.
  unfold frame. destruct (MAX_BODY_SIZE <? zlen p) eqn:Hp; [done|].
  intros (q & Hq & Hf)%bind_ok. apply framed_ok in Hf as [Hl ->].
  pose proof (framed_declared q Hl) as Hd.
  unfold unwrap_envelope, to_be_bytes in *. cbn [app] in *. rewrite Hd. destruct compress.
  - change (u8 1) with 1. cbn [andb Z.leb Z.eqb Z.compare Pos.compare Pos.compare_cont Pos.eqb].
    rewrite (gunzip_gzip p) by (done || lia). cbn [mbind result_bind]. by rewrite Hp.
  - change (u8 0) with 0. injection Hq as ->. cbn [andb Z.leb Z.eqb Z.compare mbind result_bind].
    by rewrite Hp.
Qed.

(** a framed response, gzipped or not, and possibly wrapped again by an HTTP
    gzip layer, unwraps to its payload and is recognised as an envelope; the
    Connect encoding header is not applied a second time to the payload. *)
Theorem unwrap_frame `{!GzipLaws} p compress f body http connect :
  frame p compress = Ok f → zlen f ≤ MAX_BODY_SIZE → zlen body ≤ MAX_BODY_SIZE + 5 →
  (if encoding_has_gzip http then gz_encode f = Ok body else body = f) →
  unwrap_request body http connect = Ok (MkUnwrapped p true).
Proof.
  intros Hf Hl Hb Hhttp. unfold unwrap_request. rewrite (proj2 (Z.ltb_ge _ _)) by lia.
  assert ((if encoding_has_gzip http then gunzip body else Ok body) = Ok f) as ->.
  { destruct (encoding_has_gzip http); [|by subst].
    apply gunzip_gzip; [|done]. unfold gzip. by rewrite Hhttp. }
  cbn [mbind result_bind]. rewrite (proj2 (Z.ltb_ge _ _)) by lia.
  by erewrite unwrap_envelope_frame.
Qed.

(** whatever the body and the two encoding headers are, an accepted request
    has at most 24 MiB of payload, and it is marked as enveloped exactly when the
    body, after the HTTP layer, is an envelope. *)
Theorem unwrap_request_sound body http connect r :
  unwrap_request body http connect = Ok r →
  zlen (payload r) ≤ MAX_BODY_SIZE ∧
  ∃ buffer, (if encoding_has_gzip http then gunzip body else Ok body) = Ok buffer ∧
    enveloped r = is_connect_envelope buffer.
Proof.
  unfold unwrap_request. destruct (_ <? zlen body); [done|].
  intros (buffer & Hbuf & Hr)%bind_ok. destruct (_ <? zlen buffer) eqn:Hl; [done|].
  rewrite Hbuf. enough (zlen (payload r) ≤ MAX_BODY_SIZE ∧ enveloped r = is_connect_envelope buffer)
    as [? ?] by eauto. clear Hbuf. revert Hr.
  assert (∀ q, (buffer' ← (if encoding_has_gzip connect then gunzip buffer else Ok buffer);
    if MAX_BODY_SIZE <? zlen buffer' then Err too_large else Ok (MkUnwrapped buffer' false)) = Ok q →
    zlen (payload q) ≤ MAX_BODY_SIZE ∧ enveloped q = false) as Hraw.
  { intros q (b' & _ & Hq)%bind_ok. case_match eqn:E; [done|]. injection Hq as <-. cbn. lia. }
  unfold unwrap_envelope, is_connect_envelope.
  destruct buffer as [|fl [|b1 [|b2 [|b3 [|b4 rest]]]]]; try apply Hraw.
  destruct (from_be_bytes b1 b2 b3 b4 =? zlen rest); cbn [andb]; [|apply Hraw].
  destruct (fl <=? 1).
  - intros (q & _ & Hq)%bind_ok. case_match eqn:E; [done|]. injection Hq as <-. cbn. lia.
  - destruct (fl =? 2); [done|apply Hraw].
Qed.

(** the end frame of a response is never taken for a request, neither by the
    envelope test nor by [unwrap_request]. *)
Theorem end_frame_rejected error f http connect :
  end_frame error = Ok f → encoding_has_gzip http = false →
  is_connect_envelope f = false ∧ ∃ e, unwrap_request f http connect = Err e.
Proof.
  unfold end_frame. generalize (match error with
    | Some e => to_vec (JObject [(lit "error",
        JObject [(lit "code", JString (code e)); (lit "message", JString (message e))])])
    | None => to_vec (JObject [])
    end) as q. intros q [Hl ->]%framed_ok Hh. pose proof (framed_declared _ Hl) as Hd. unfold to_be_bytes in *. cbn [app].
  change (u8 2) with 2. split; [cbn; by rewrite andb_false_r|].
  unfold unwrap_request. case_match; [eauto|]. rewrite Hh. cbn [mbind result_bind].
  case_match; [eauto|]. cbn [unwrap_envelope]. rewrite Hd.
  change (2 <=? 1) with false. change (2 =? 2) with true. cbn [andb]. eauto.
Qed.
End Connect.

(** ** Properties of the field reader and writer *)

(** writing fields never fails unless a field number is zero, and reading the
    written bytes gives the fields back. *)
Theorem fields_roundtrip fields : Forall field_ok fields →
  ∃ out, serialize_fields fields = Ok out ∧
    (zlen out ≤ USIZE_MAX → parse_fields out = Ok fields).
Proof.
  intros Hok. exists (concat (field_bytes <$> fields)).
  split; [by apply (serialize_loop_ok _ [])|]. intros Hl.
  by apply (parse_loop_bytes _ fields [] []).
Qed.

(** reading any byte string that is accepted gives fields that can be written
    again, in no more bytes than were read, and that read back the same: relaying
    a message through the gateway neither loses nor invents a field. *)
Theorem fields_reserialize input fields :
  bytes_ok input → zlen input ≤ USIZE_MAX → parse_fields input = Ok fields →
  ∃ out, serialize_fields fields = Ok out ∧ (length out ≤ length input)%nat ∧
    parse_fields out = Ok fields.
Proof.
  intros Hb Hl Hp. apply parse_fields_ok in Hp as [Hok Hlen]; [|done..].
  exists (concat (field_bytes <$> fields)). split; [by apply (serialize_loop_ok _ [])|].
  split; [done|]. apply (parse_loop_bytes _ fields [] []); [done| |done].
  unfold zlen in *. lia.
Qed.

(** ** Witnesses *)

Definition sample_fields : list Field :=
  [MkField 1 (Varint 300); MkField 2 (Bytes (lit "hello"));
   MkField 3 (Fixed64 [1; 2; 3; 4; 5; 6; 7; 8]); MkField 4 (Fixed32 [9; 10; 11; 12])].

Lemma fields_roundtrip_witness : Forall field_ok sample_fields ∧
  ∃ out, serialize_fields sample_fields = Ok out ∧
    (zlen out ≤ USIZE_MAX → parse_fields out = Ok sample_fields).
Proof.
  split; [|apply fields_roundtrip]; apply (bool_decide_unpack _); vm_compute; exact I.
Defined.

(** A non-minimal varint: [0x96 0x81 0x00] is 150 in three bytes. *)
Definition sample_payload : list Z := [0x08; 0x96; 0x81; 0x00; 0x12; 2; 104; 105].

Lemma fields_reserialize_witness :
  parse_fields sample_payload = Ok [MkField 1 (Varint 150); MkField 2 (Bytes [104; 105])] ∧
  ∃ out, serialize_fields [MkField 1 (Varint 150); MkField 2 (Bytes [104; 105])] = Ok out ∧
    (length out ≤ length sample_payload)%nat ∧
    parse_fields out = Ok [MkField 1 (Varint 150); MkField 2 (Bytes [104; 105])].
Proof.
  assert (parse_fields sample_payload =
    Ok [MkField 1 (Varint 150); MkField 2 (Bytes [104; 105])]) as H by (vm_compute; reflexivity).
  split; [exact H|]. apply (fields_reserialize sample_payload); [|vm_compute; discriminate|exact H].
  repeat constructor; vm_compute; (discriminate || reflexivity).
Defined.

Lemma unwrap_frame_witness :
  ∃ f body, @frame Samples.stored (lit "hello Devin") true = Ok f ∧
    @gz_encode Samples.stored f = Ok body ∧
    @unwrap_request Samples.stored body (Some (lit "br, GZIP")) (Some (lit "gzip")) =
      Ok (MkUnwrapped (lit "hello Devin") true).
Proof.
  eexists _, _. split; [vm_compute; reflexivity|]. split; [reflexivity|].
  eapply (@unwrap_frame Samples.stored Samples.stored_laws (lit "hello Devin") true);
    [vm_compute; reflexivity|vm_compute; discriminate..|vm_compute; reflexivity].
Defined.

Lemma unwrap_request_sound_witness :
  @unwrap_request Samples.stored (lit "raw protobuf") None None =
    Ok (MkUnwrapped (lit "raw protobuf") false) ∧
  zlen (lit "raw protobuf") ≤ MAX_BODY_SIZE.
Proof.
  assert (@unwrap_request Samples.stored (lit "raw protobuf") None None =
    Ok (MkUnwrapped (lit "raw protobuf") false)) as H by (vm_compute; reflexivity).
  split; [exact H|]. exact (proj1 (unwrap_request_sound _ _ _ _ H)).
Defined.

Lemma end_frame_rejected_witness :
  ∃ f, @end_frame Samples.tiny_json None = Ok f ∧
    is_connect_envelope f = false ∧
    ∃ e, @unwrap_request Samples.stored f None (Some (lit "gzip")) = Err e.
Proof.
  eexists. split; [vm_compute; reflexivity|].
  apply (@end_frame_rejected Samples.stored Samples.tiny_json None); vm_compute; reflexivity.
Defined.
