(* ===== verification/Inbox.v ===== *)
(** * Inbox: ordering of appended messages by sequence number

    server/src/cursor/transport/inbox.rs.  Messages of one request arrive with a
    sequence number, possibly out of order; the inbox hands them out in order and
    gives up a gap after a time or beyond a backlog. *)

From stdpp Require Import prelude gmap list sorting.
From S2P Require Import Prelude.
Local Open Scope Z_scope.

(** server/src/cursor/transport/inbox.rs:12-12, [GAP_TIMEOUT]. *)
Definition GAP_TIMEOUT : Z := 10 * 1000.

(** server/src/cursor/transport/inbox.rs:16-16, [PENDING_LIMIT]. *)
Definition PENDING_LIMIT : Z := 1024.

Section OrderedInbox.
Context {T : Type}.
Implicit Types (pending : gmap Z T) (out ready : list (Z * T)).

(** server/src/cursor/transport/inbox.rs:18-23, [OrderedInbox]. *)
Record OrderedInbox : Type := MkInbox {
  next : Z;
  pending : gmap Z T;
  gap_since : option Z
}.

(** server/src/cursor/transport/inbox.rs:26-32, [OrderedInbox::starting_at]. *)
Definition starting_at (n : Z) : OrderedInbox := MkInbox n ∅ None.

(** [keys().next()] of a [BTreeMap]: the smallest key. *)
Definition first_key pending : option Z :=
  foldr (λ k acc, match acc with Some a => Some (Z.min k a) | None => Some k end)
    None (elements (dom pending)).

(** server/src/cursor/transport/inbox.rs:82-85, [OrderedInbox::drain_contiguous]. *)
Definition drain_turn (s : Z * gmap Z T * list (Z * T))
    : flow (Z * gmap Z T * list (Z * T)) (Z * gmap Z T * list (Z * T)) :=
  let '(next, pending, ready) := s in
  match pending !! next with
  | Some value => Next (sat_add_i64 next 1, delete next pending, ready ++ [(next, value)])
  | None => Done s
  end.

Lemma drain_decreases : decreases drain_turn (λ s, size (snd (fst s))).
Proof.
  intros [[n p] r] s'. cbn [drain_turn fst snd]. destruct (p !! n) eqn:E; [|done].
  intros [= <-]. by eapply map_size_delete_lt.
Qed.

(** server/src/cursor/transport/inbox.rs:80-90, [OrderedInbox::drain_contiguous]. *)
Definition drain_contiguous (i : OrderedInbox) : OrderedInbox * list (Z * T) :=
  let '(n, p, ready) := run drain_turn drain_decreases (next i, pending i, []) in
  (MkInbox n p (if decide (p = ∅) then None else gap_since i), ready).

(** server/src/cursor/transport/inbox.rs:93-101, [OrderedInbox::skip_gap]. *)
Definition skip_gap (i : OrderedInbox) : OrderedInbox * list (Z * T) :=
  match first_key (pending i) with
  | None => (MkInbox (next i) (pending i) None, [])
  | Some oldest => drain_contiguous (MkInbox oldest (pending i) None)
  end.

(** server/src/cursor/transport/inbox.rs:45-77, [OrderedInbox::push_at]. *)
Definition push_at (now seqno : Z) (value : T) (i : OrderedInbox)
    : OrderedInbox * list (Z * T) :=
  if (seqno <? next i) || bool_decide (is_Some (pending i !! seqno)) then (i, [])
  else
    let start := if (next i =? 0) && bool_decide (pending i = ∅) && (0 <? seqno)
                 then seqno else next i in
    let '(i, ready) :=
      drain_contiguous (MkInbox start (<[seqno := value]> (pending i)) (gap_since i)) in
    match ready with
    | _ :: _ => (i, ready)
    | [] =>
        let since := default now (gap_since i) in
        let i := MkInbox (next i) (pending i) (Some since) in
        if PENDING_LIMIT <? Z.of_nat (size (pending i)) then skip_gap i
        else if sat_sub now since <? GAP_TIMEOUT then (i, [])
        else skip_gap i
    end.

(** A whole history of appends: [(now, seqno, value)] in order of arrival. *)
Fixpoint push_all (events : list (Z * Z * T)) (i : OrderedInbox)
    : OrderedInbox * list (Z * T) :=
  match events with
  | [] => (i, [])
  | (now, seqno, value) :: events =>
      let '(i, out) := push_at now seqno value i in
      let '(i, rest) := push_all events i in
      (i, out ++ rest)
  end.

(** ** Lemmas *)

Definition keys_of (l : list (Z * T)) : list Z := fst <$> l.

(** What draining gives: the contiguous run from [n], and the map without it. *)
Record drained (n : Z) (p : gmap Z T) (n' : Z) (p' : gmap Z T) (out : list (Z * T)) : Prop := {
  dr_keys : keys_of out = seqZ n (zlen out);
  dr_next : n' = n + zlen out;
  dr_stop : p' !! n' = None;
  dr_out : ∀ k v, (k, v) ∈ out → p !! k = Some v;
  dr_rest : ∀ k, p' !! k = if decide (n ≤ k < n') then None else p !! k
}.

Lemma drain_spec n p ready :
  (∀ k, is_Some (p !! k) → k < I64_MAX) → I64_MIN ≤ n →
  ∃ out n' p', run drain_turn drain_decreases (n, p, ready) = (n', p', ready ++ out) ∧
    drained n p n' p' out.
Proof.
  remember (size p) as m eqn:Em. revert n p ready Em.
  induction m as [m IH] using (well_founded_induction lt_wf). intros n p ready -> Hk Hn.
  rewrite run_eq. cbn [drain_turn]. destruct (p !! n) as [v|] eqn:E.
  - assert (n < I64_MAX) by (apply Hk; eauto).
    assert (sat_add_i64 n 1 = n + 1) as -> by (unfold sat_add_i64, clamp_i64; lia).
    destruct (IH (size (delete n p))) with (n := n + 1) (p := delete n p) (ready := ready ++ [(n, v)])
      as (out & n' & p' & Hrun & [D1 D2 D3 D4 D5]).
    + by eapply map_size_delete_lt.
    + done.
    + intros k [w Hw]. apply lookup_delete_Some in Hw as [_ Hw]. eauto.
    + lia.
    + exists ((n, v) :: out), n', p'. split; [by rewrite Hrun, <- app_assoc|].
      assert (zlen ((n, v) :: out) = zlen out + 1) as Hz by (rewrite zlen_cons; lia).
      pose proof (zlen_nonneg out).
      split; rewrite ?Hz.
      * cbn [keys_of fmap list_fmap fst]. rewrite seqZ_cons by lia. f_equal.
        replace (Z.pred (zlen out + 1)) with (zlen out) by lia.
        rewrite <- Z.add_1_r. exact D1.
      * lia.
      * done.
      * intros k w [[= -> ->]|Hin]%elem_of_cons; [done|].
        by apply D4, lookup_delete_Some in Hin as [_ ?].
      * intros k. rewrite D5. destruct (decide (k = n)) as [->|Hne].
        -- rewrite lookup_delete_eq. repeat case_decide; try done; lia.
        -- rewrite lookup_delete_ne by done. repeat case_decide; try done; lia.
  - exists [], n, p. rewrite app_nil_r. split; [done|].
    split; rewrite ?zlen_nil.
    + by rewrite seqZ_nil.
    + lia.
    + done.
    + intros k v []%elem_of_nil.
    + intros k. case_decide; [lia|done].
Qed.

Lemma first_key_spec p :
  match first_key p with
  | None => p = ∅
  | Some k => is_Some (p !! k) ∧ ∀ j, is_Some (p !! j) → k ≤ j
  end.
Proof.
  unfold first_key.
  assert (∀ j, is_Some (p !! j) ↔ j ∈ elements (dom p)) as Hd
    by (intros j; by rewrite elem_of_elements, elem_of_dom).
  enough (match foldr (λ k acc, match acc with Some a => Some (Z.min k a) | None => Some k end)
      None (elements (dom p)) with
    | None => elements (dom p) = []
    | Some k => k ∈ elements (dom p) ∧ ∀ j, j ∈ elements (dom p) → k ≤ j end) as He.
  { case_match.
    - setoid_rewrite Hd. done.
    - apply map_empty; intros k. destruct (p !! k) eqn:E; [|done].
      assert (k ∈ elements (dom p)) as Hin by (apply Hd; eauto). rewrite He in Hin. by apply elem_of_nil in Hin. }
  clear Hd. induction (elements (dom p)) as [|k l IH]; [done|]. cbn [foldr].
  destruct (foldr _ None l) as [a|].
  - destruct IH as [Ha Hmin]. split.
    + destruct (Z.min_spec k a) as [[_ ->]|[_ ->]]; set_solver.
    + intros j [->|Hj]%elem_of_cons; [lia|]. apply Hmin in Hj. lia.
  - subst l. split; [set_solver|]. intros j [->|[]%elem_of_nil]%elem_of_cons. lia.
Qed.

(** The representation invariant: nothing that waits is due. *)
Definition inbox_ok (i : OrderedInbox) : Prop :=
  I64_MIN ≤ next i ∧ (∀ k, is_Some (pending i !! k) → next i < k < I64_MAX) ∧
  Z.of_nat (size (pending i)) ≤ PENDING_LIMIT.

(** What one append does, from [start]: the appended message is [(s, v)]. *)
Record pushed (i : OrderedInbox) (s : Z) (v : T) (start : Z) (i' : OrderedInbox)
    (out : list (Z * T)) : Prop := {
  pu_ok : inbox_ok i';
  pu_start : next i ≤ start;
  pu_keys : keys_of out = seqZ start (zlen out);
  pu_next : next i' = start + zlen out;
  pu_out : ∀ k w, (k, w) ∈ out → pending i !! k = Some w ∨ (k = s ∧ w = v);
  pu_pending : ∀ k w, pending i' !! k = Some w → pending i !! k = Some w ∨ (k = s ∧ w = v);
  pu_kept : ∀ k, is_Some (pending i !! k) ∨ k = s →
    k ∈ keys_of out ∨ is_Some (pending i' !! k) ∨ k < next i'
}.

Lemma drain_contiguous_spec i :
  (∀ k, is_Some (pending i !! k) → k < I64_MAX) → I64_MIN ≤ next i →
  ∃ out p', drain_contiguous i =
    (MkInbox (next i + zlen out) p' (if decide (p' = ∅) then None else gap_since i), out) ∧
    drained (next i) (pending i) (next i + zlen out) p' out.
Proof.
  intros Hk Hn. unfold drain_contiguous.
  destruct (drain_spec (next i) (pending i) [] Hk Hn) as (out & n' & p' & -> & D).
  pose proof (dr_next _ _ _ _ _ D) as ->. by exists out, p'.
Qed.

Lemma keys_of_elem k (l : list (Z * T)) : k ∈ keys_of l ↔ ∃ w, (k, w) ∈ l.
Proof.
  unfold keys_of. rewrite list_elem_of_fmap. split.
  - intros ([k' w] & -> & H). eauto.
  - intros [w H]. by exists (k, w).
Qed.

(** Draining the backlog with the new message from a point no later than any key. *)
Lemma drained_pushed i s v n p' out g :
  inbox_ok i → I64_MIN ≤ n → next i ≤ n → s < I64_MAX → pending i !! s = None →
  (∀ k, is_Some (<[s := v]> (pending i) !! k) → n ≤ k) →
  (out ≠ [] ∨ Z.of_nat (size (<[s := v]> (pending i))) ≤ PENDING_LIMIT) →
  drained n (<[s := v]> (pending i)) (n + zlen out) p' out →
  pushed i s v n (MkInbox (n + zlen out) p' g) out.
Proof.
  intros (Hi & Hp & Hsz) Hn Hstart Hs Hfresh Hmin Hbig [D1 D2 D3 D4 D5].
  assert (∀ k w, p' !! k = Some w → <[s := v]> (pending i) !! k = Some w) as Hsub.
  { intros k w Hk. rewrite D5 in Hk. by case_decide. }
  assert (∀ k w, <[s := v]> (pending i) !! k = Some w →
    pending i !! k = Some w ∨ (k = s ∧ w = v)) as Hins.
  { intros k w. destruct (decide (s = k)) as [->|].
    - rewrite lookup_insert_eq. intros [= ->]. auto.
    - rewrite lookup_insert_ne by done. auto. }
  split; cbn [next pending]; try done; try (by eauto).
  - split; [cbn; pose proof (zlen_nonneg out); lia|]. cbn [next pending]. split.
    + intros k [w Hw]. pose proof Hw as Hw'. rewrite D5 in Hw'. case_decide; [done|].
      assert (k ≠ n + zlen out) by (intros ->; congruence).
      assert (n ≤ k) by (apply Hmin; eauto).
      apply Hsub, Hins in Hw as [Hw|[-> _]]; [|lia]. assert (k < I64_MAX); [|lia].
      apply Hp. eauto.
    + destruct Hbig as [Hne|Hle].
      * assert (size p' < size (<[s := v]> (pending i)))%nat; [|rewrite map_size_insert_None in * by done; lia].
        destruct out as [|[k w] out]; [done|].
        assert (<[s := v]> (pending i) !! k = Some w) as Hkw by (apply D4; set_solver).
        apply Nat.le_lt_trans with (size (delete k (<[s := v]> (pending i)))); [|by eapply map_size_delete_lt].
        apply map_subseteq_size. apply map_subseteq_spec. intros j x Hj.
        rewrite lookup_delete_ne; [by apply Hsub|]. intros ->.
        rewrite D5 in Hj. case_decide as Hd; [done|]. apply Hd.
        assert (j ∈ keys_of ((j, w) :: out)) as Hin by (apply keys_of_elem; set_solver).
        rewrite D1 in Hin. apply elem_of_seqZ in Hin. lia.
      * enough (size p' ≤ size (<[s := v]> (pending i)))%nat by lia.
        apply map_subseteq_size, map_subseteq_spec, Hsub.
  - intros k Hk. assert (is_Some (<[s := v]> (pending i) !! k)) as [w Hw].
    { destruct Hk as [[w Hw]| ->]; [|rewrite lookup_insert_eq; eauto].
      destruct (decide (s = k)) as [->|]; [rewrite lookup_insert_eq; eauto|].
      rewrite lookup_insert_ne by done. eauto. }
    destruct (decide (n ≤ k < n + zlen out)); [left; rewrite D1; apply elem_of_seqZ; lia|].
    right; left. rewrite D5. rewrite decide_False by done. eauto.
Qed.

Lemma drained_nil n p p' : drained n p (n + zlen (@nil (Z * T))) p' [] → p' = p ∧ p !! n = None.
Proof.
  intros [_ _ D3 _ D5]. rewrite zlen_nil, Z.add_0_r in *.
  assert (p' = p) as ->; [|done]. apply map_eq; intros k. rewrite D5. case_decide; [lia|done].
Qed.

Lemma inbox_insert_keys i s v : inbox_ok i → s < I64_MAX →
  ∀ k, is_Some (<[s := v]> (pending i) !! k) → k < I64_MAX.
Proof.
  intros (_ & Hp & _) Hs k [w [[-> _]|[_ Hk]]%lookup_insert_Some]; [done|]. apply Hp. eauto.
Qed.

(** Giving up the gap: what is delivered starts at the oldest waiting message. *)
Lemma skip_gap_spec i s v g n : inbox_ok i → n = next i → next i ≤ s < I64_MAX →
  pending i !! s = None →
  ∃ start i' out, skip_gap (MkInbox n (<[s := v]> (pending i)) g) = (i', out) ∧
    pushed i s v start i' out ∧ gap_since i' = None ∧ out ≠ [].
Proof.
  intros Hok -> Hs Hfresh. unfold skip_gap. cbn [next pending gap_since].
  pose proof (first_key_spec (<[s := v]> (pending i))) as Hfirst.
  destruct (first_key _) as [k|]; [|by apply insert_non_empty in Hfirst].
  destruct Hfirst as [Hk Hmin]. pose proof Hok as (Hi & Hp & _).
  assert (next i ≤ k) as Hnk.
  { destruct Hk as [w [[-> _]|[_ Hk]]%lookup_insert_Some]; [lia|].
    destruct (Hp k) as [? _]; [eauto|lia]. }
  destruct (drain_contiguous_spec (MkInbox k (<[s := v]> (pending i)) None)) as (out & p' & -> & D).
  { apply inbox_insert_keys; [done|lia]. }
  { cbn. lia. }
  cbn [next pending gap_since] in *. eexists k, _, out. split; [done|].
  assert (out ≠ []) as Hout.
  { intros ->. apply drained_nil in D as [_ D]. destruct Hk. congruence. }
  split; [|split; [cbn; by case_decide|done]]. apply drained_pushed; auto; lia.
Qed.

Lemma push_at_spec now s v i : inbox_ok i → s < I64_MAX →
  ∃ start i' out, push_at now s v i = (i', out) ∧ pushed i s v start i' out ∧
    (gap_since i' = None ∨ gap_since i' = gap_since i ∨ gap_since i' = Some now) ∧
    (0 < next i → Z.of_nat (size (pending i)) < PENDING_LIMIT →
     sat_sub now (default now (gap_since i)) < GAP_TIMEOUT → start = next i) ∧
    (next i ≤ s → pending i !! s = None →
     GAP_TIMEOUT ≤ sat_sub now (default now (gap_since i)) ∨
     PENDING_LIMIT ≤ Z.of_nat (size (pending i)) → out ≠ []).
Proof.
  intros Hok Hs. pose proof Hok as (Hi & Hp & Hsz). unfold push_at.
  destruct ((s <? next i) || bool_decide (is_Some (pending i !! s))) eqn:Hstale.
  { eexists (next i), i, []. split; [done|]. split; [|split; [auto|split; [auto|]]]; cycle 1.
    { intros Hge Hfresh. apply orb_true_iff in Hstale as [?%Z.ltb_lt|Hs'%bool_decide_eq_true]; [lia|].
      rewrite Hfresh in Hs'. by destruct Hs'. }
    split; rewrite ?zlen_nil; try done; try lia.
    - intros k w []%elem_of_nil.
    - auto.
    - apply orb_true_iff in Hstale as [?%Z.ltb_lt|?%bool_decide_eq_true].
      all: intros k [Hk| ->]; auto. }
  apply orb_false_iff in Hstale as [Hge%Z.ltb_ge Hfresh%bool_decide_eq_false].
  apply eq_None_not_Some in Hfresh.
  destruct ((next i =? 0) && bool_decide (pending i = ∅) && (0 <? s)) eqn:Hfirst.
  - apply andb_true_iff in Hfirst as [[H0%Z.eqb_eq He%bool_decide_eq_true]%andb_true_iff Hpos%Z.ltb_lt].
    destruct (drain_contiguous_spec (MkInbox s (<[s := v]> (pending i)) (gap_since i)))
      as (out & p' & -> & D); [by apply inbox_insert_keys|cbn; lia|].
    cbn [next pending gap_since] in *.
    assert (out ≠ []) as Hout.
    { intros ->. apply drained_nil in D as [_ D]. by rewrite lookup_insert_eq in D. }
    eexists s, _, out. split; [by destruct out|]. split; [|split; [case_decide; auto|split; [lia|done]]].
    apply drained_pushed; auto; [lia..|].
    intros k [w [[-> _]|[_ Hk]]%lookup_insert_Some]; [lia|]. by rewrite He in Hk.
  - destruct (drain_contiguous_spec (MkInbox (next i) (<[s := v]> (pending i)) (gap_since i)))
      as (out & p' & -> & D); [by apply inbox_insert_keys|done|].
    cbn [next pending gap_since] in *.
    assert (∀ k, is_Some (<[s := v]> (pending i) !! k) → next i ≤ k) as Hmin.
    { intros k [w [[-> _]|[_ Hk]]%lookup_insert_Some]; [lia|].
      enough (next i < k < I64_MAX) by lia. apply Hp. eauto. }
    destruct out as [|x out].
    + pose proof (drained_nil _ _ _ D) as [-> _].
      assert (next i + zlen (@nil (Z * T)) = next i) as Hz by (rewrite zlen_nil; lia).
      rewrite decide_False by apply insert_non_empty.
      set (since := default now (gap_since i)).
      destruct (PENDING_LIMIT <? Z.of_nat (size _)) eqn:Hlim; cbn [next pending].
      * destruct (skip_gap_spec i s v (Some since) (next i + zlen (@nil (Z * T)))) as (start & i' & out & -> & Hpu & Hg & Ho);
          [done..|].
        exists start, i', out. split; [done|]. split; [done|]. split; [auto|]. split; [|done].
        intros _ Hlt _. apply Z.ltb_lt in Hlim. rewrite map_size_insert_None in Hlim by done.
        lia.
      * assert (since = now ∨ gap_since i = Some since) as Hsince
          by (subst since; destruct (gap_since i); auto).
        destruct (sat_sub now since <? GAP_TIMEOUT) eqn:Ht.
        -- eexists (next i), _, []. split; [done|].
           split; [|split; [destruct Hsince as [->|Hg]; cbn; rewrite ?Hg; auto|split; [auto|]]];
             cycle 1.
           { apply Z.ltb_lt in Ht. apply Z.ltb_ge in Hlim.
             rewrite map_size_insert_None in Hlim by done. fold since. lia. }
           apply drained_pushed; auto; [lia|]. right. apply Z.ltb_ge in Hlim. done.
        -- destruct (skip_gap_spec i s v (Some since) (next i + zlen (@nil (Z * T)))) as (start & i' & out & -> & Hpu & Hg & Ho);
             [done..|].
           exists start, i', out. split; [done|]. split; [done|]. split; [auto|]. split; [|done].
           intros _ _ Hlt. subst since. cbn in *. lia.
    + eexists (next i), _, (x :: out). split; [done|]. split; [|split; [case_decide; auto|split; [auto|done]]].
      by apply drained_pushed; auto.
Qed.

(** ** Histories *)

Definition seqno_of (e : Z * Z * T) : Z := snd (fst e).
Definition appended (events : list (Z * Z * T)) (k : Z) (w : T) : Prop :=
  ∃ now, (now, k, w) ∈ events.

(** Delivery over a history, from any well-formed inbox. *)
Record delivered (i : OrderedInbox) (events : list (Z * Z * T)) (i' : OrderedInbox)
    (out : list (Z * T)) : Prop := {
  de_ok : inbox_ok i';
  de_next : next i ≤ next i';
  de_range : Forall (λ k, next i ≤ k < next i') (keys_of out);
  de_sorted : StronglySorted Z.lt (keys_of out);
  de_out : ∀ k w, (k, w) ∈ out → pending i !! k = Some w ∨ appended events k w;
  de_kept : ∀ k, is_Some (pending i !! k) ∨ (∃ w, appended events k w) →
    k ∈ keys_of out ∨ is_Some (pending i' !! k) ∨ k < next i'
}.

Lemma keys_of_app (l k : list (Z * T)) : keys_of (l ++ k) = keys_of l ++ keys_of k.
Proof. apply fmap_app. Qed.

Lemma StronglySorted_seqZ a n : StronglySorted Z.lt (seqZ a n).
Proof.
  remember (Z.to_nat n) as m eqn:Em. revert a n Em. induction m as [|m IH]; intros a n Em.
  - rewrite seqZ_nil by lia. constructor.
  - rewrite seqZ_cons by lia. constructor; [apply IH; lia|].
    apply Forall_forall. intros k Hk%elem_of_seqZ. lia.
Qed.

Lemma StronglySorted_app_lt l k m : StronglySorted Z.lt l → StronglySorted Z.lt k →
  Forall (λ x, x < m) l → Forall (λ x, m ≤ x) k → StronglySorted Z.lt (l ++ k).
Proof.
  induction 1 as [|x l Hl IH Hx]; intros Hk Hlt Hge; [done|].
  inversion_clear Hlt as [|?? Hxm Hlm]. cbn [app]. constructor; [by apply IH|].
  apply Forall_app; split; [done|]. eapply Forall_impl; [done|]. cbn; lia.
Qed.

Lemma push_all_spec events : ∀ i, inbox_ok i → Forall (λ e, seqno_of e < I64_MAX) events →
  ∃ i' out, push_all events i = (i', out) ∧ delivered i events i' out.
Proof.
  induction events as [|[[now s] v] events IH]; intros i Hok Hev; cbn [push_all].
  - exists i, []. split; [done|]. split; [done|lia|constructor|constructor| |].
    + intros k w []%elem_of_nil.
    + intros k [Hk|(w & now & []%elem_of_nil)]. auto.
  - inversion_clear Hev as [|?? Hs Hevs]. cbn in Hs.
    destruct (push_at_spec now s v i Hok Hs) as (start & i1 & out & -> & Hpu & _).
    destruct Hpu as [P1 P2 P3 P4 P5 P6 P7].
    destruct (IH i1 P1 Hevs) as (i2 & rest & -> & [D1 D2 D3 D4 D5 D6]).
    pose proof (zlen_nonneg out).
    assert (Forall (λ k, start ≤ k < next i1) (keys_of out)) as Hout.
    { rewrite P3. apply Forall_forall. intros k Hk%elem_of_seqZ. lia. }
    exists i2, (out ++ rest). split; [done|]. split; rewrite ?keys_of_app.
    + done.
    + lia.
    + apply Forall_app; split; (eapply Forall_impl; [done|]); cbn; lia.
    + apply StronglySorted_app_lt with (next i1); [|done|..].
      * rewrite P3. apply StronglySorted_seqZ.
      * eapply Forall_impl; [done|]. cbn; lia.
      * eapply Forall_impl; [done|]. cbn; lia.
    + intros k w [Hk|Hk]%elem_of_app.
      * apply P5 in Hk as [Hk|[-> ->]]; [auto|]. right. exists now. set_solver.
      * apply D5 in Hk as [Hk|[t Hk]]; [|right; exists t; set_solver].
        apply P6 in Hk as [Hk|[-> ->]]; [auto|]. right. exists now. set_solver.
    + intros k Hk. setoid_rewrite elem_of_app.
      assert (k ∈ fst <$> out ∨ is_Some (pending i1 !! k) ∨ k < next i1 ∨ ∃ w, appended events k w)
        as [?|[?|[?|?]]].
      { destruct Hk as [Hk|(w & t & [[= -> -> ->]|Hk]%elem_of_cons)].
        - destruct (P7 k) as [?|[?|?]]; auto.
        - destruct (P7 s) as [?|[?|?]]; auto.
        - do 3 right. exists w, t. done. }
      * auto.
      * destruct (D6 k) as [?|[?|?]]; auto.
      * right. right. lia.
      * destruct (D6 k) as [?|[?|?]]; auto.
Qed.

Lemma starting_at_ok n : 0 ≤ n → inbox_ok (starting_at n).
Proof.
  intros Hn. split; [unfold I64_MIN; cbn; lia|]. cbn. split; [|done].
  intros k [w Hw]. by rewrite lookup_empty in Hw.
Qed.

(** C37: whatever the order and the times of arrival, what is delivered is a
    strictly increasing subsequence of what was appended, with its own values;
    the backlog stays within its limit; and a message is delivered, still waiting,
    or behind the point already reached. *)
Theorem inbox_delivers_in_order n events : 0 ≤ n →
  Forall (λ e, seqno_of e < I64_MAX) events →
  ∃ i out, push_all events (starting_at n) = (i, out) ∧
    StronglySorted Z.lt (keys_of out) ∧
    (∀ k w, (k, w) ∈ out → appended events k w) ∧
    Z.of_nat (size (pending i)) ≤ PENDING_LIMIT ∧
    (∀ k w, appended events k w → k ∈ keys_of out ∨ is_Some (pending i !! k) ∨ k < next i).
Proof.
  intros Hn Hev. destruct (push_all_spec events (starting_at n) (starting_at_ok n Hn) Hev)
    as (i & out & Hp & [(_ & _ & Hsz) D2 D3 D4 D5 D6]).
  exists i, out. split; [done|]. split; [done|]. split; [|split; [done|eauto]].
  intros k w Hk. apply D5 in Hk as [Hk|Hk]; [|done]. cbn in Hk. by rewrite lookup_empty in Hk.
Qed.

(** Without a timeout or an overflow nothing is skipped. *)
Lemma push_all_contiguous t0 events : ∀ i, inbox_ok i → 0 < next i →
  Forall (λ e, seqno_of e < I64_MAX ∧ t0 ≤ fst (fst e) < t0 + GAP_TIMEOUT) events →
  (∀ t, gap_since i = Some t → t0 ≤ t < t0 + GAP_TIMEOUT) →
  Z.of_nat (size (pending i)) + zlen events ≤ PENDING_LIMIT →
  ∃ i' out, push_all events i = (i', out) ∧ keys_of out = seqZ (next i) (zlen out) ∧
    next i' = next i + zlen out.
Proof.
  induction events as [|[[now s] v] events IH]; intros i Hok Hpos Hev Hgap Hsz; cbn [push_all].
  { exists i, []. rewrite zlen_nil, seqZ_nil by lia. split; [done|]. split; [done|lia]. }
  inversion_clear Hev as [|?? [Hs Hnow] Hevs]. cbn in Hs, Hnow. rewrite zlen_cons in Hsz.
  pose proof (zlen_nonneg events).
  destruct (push_at_spec now s v i Hok Hs) as (start & i1 & out & -> & Hpu & Hg & Hstart & _).
  destruct Hpu as [P1 P2 P3 P4 P5 P6 P7]. pose proof (zlen_nonneg out).
  assert (start = next i) as ->.
  { apply Hstart; [done|lia|]. unfold sat_sub. destruct (gap_since i) as [t|] eqn:E; cbn.
    - pose proof (Hgap t eq_refl). lia.
    - unfold GAP_TIMEOUT. lia. }
  assert (size (pending i1) ≤ S (size (pending i)))%nat.
  { rewrite <- !(size_dom (D := gset Z)).
    assert (dom (pending i1) ⊆ {[s]} ∪ dom (pending i)) as Hsub%subseteq_size.
    { intros k [w Hk]%elem_of_dom. apply P6 in Hk as [Hk|[-> _]]; [|set_solver].
      apply elem_of_union_r, elem_of_dom. eauto. }
    pose proof (size_union_alt {[s]} (dom (pending i))) as Hu. rewrite size_singleton in Hu.
    assert (size (dom (pending i) ∖ {[s]}) ≤ size (dom (pending i)))%nat
      by (apply subseteq_size; set_solver). lia. }
  destruct (IH i1) as (i2 & rest & -> & Hk & Hn); [done|lia|done| |lia|].
  - intros t Ht. destruct Hg as [Hg|[Hg|Hg]]; rewrite Hg in Ht; [done|auto|injection Ht as <-; lia].
  - exists i2, (out ++ rest). split; [done|]. 
    rewrite keys_of_app, P3, Hk, zlen_app, P4. split; [|lia].
    by rewrite <- seqZ_app by apply zlen_nonneg.
Qed.

(** The very first append decides the starting point. *)
Lemma push_at_first now s v : 0 ≤ s < I64_MAX →
  push_at now s v (starting_at 0) = (MkInbox (s + 1) ∅ None, [(s, v)]).
Proof.
  intros Hs. unfold push_at, starting_at. cbn [next pending gap_since].
  rewrite (proj2 (Z.ltb_ge _ _)) by lia. cbn [orb Z.eqb].
  rewrite bool_decide_eq_false_2 by (rewrite lookup_empty; by intros []).
  rewrite bool_decide_eq_true_2 by done.
  assert ((if true && true && (0 <? s) then s else 0) = s) as ->.
  { destruct (0 <? s) eqn:E; cbn; lia. }
  unfold drain_contiguous. cbn [next pending].
  rewrite run_eq. cbn [drain_turn]. rewrite lookup_insert_eq, run_eq. cbn [drain_turn].
  assert (sat_add_i64 s 1 = s + 1) as -> by (unfold sat_add_i64, clamp_i64, I64_MIN in *; lia).
  rewrite delete_insert_eq, delete_empty, lookup_empty. by rewrite decide_True.
Qed.

(** Where delivery starts: at [n], or at the first sequence number when the inbox
    starts at zero. *)
Definition start_of (n : Z) (events : list (Z * Z * T)) : Z :=
  match events with
  | (_, s, _) :: _ => if n =? 0 then s else n
  | [] => n
  end.

(** when the whole history falls inside one gap timeout and within the backlog
    limit, nothing is lost to reordering: delivery is gap-free from the starting
    point, and every message all of whose predecessors arrived is delivered. *)
Theorem inbox_lossless n t0 events : 0 ≤ n →
  Forall (λ e, 0 ≤ seqno_of e < I64_MAX ∧ t0 ≤ fst (fst e) < t0 + GAP_TIMEOUT) events →
  zlen events ≤ PENDING_LIMIT →
  ∃ i out, push_all events (starting_at n) = (i, out) ∧
    keys_of out = seqZ (start_of n events) (zlen out) ∧
    ∀ k, start_of n events ≤ k →
      (∀ j, start_of n events ≤ j ≤ k → ∃ w, appended events j w) → k ∈ keys_of out.
Proof.
  intros Hn Hev Hlen.
  assert (∃ i out, push_all events (starting_at n) = (i, out) ∧
    keys_of out = seqZ (start_of n events) (zlen out) ∧
    next i = start_of n events + zlen out) as (i & out & Hp & Hk & Hnext).
  { assert (Forall (λ e, seqno_of e < I64_MAX ∧ t0 ≤ fst (fst e) < t0 + GAP_TIMEOUT) events) as Hev'
      by (eapply Forall_impl; [done|]; cbn; lia).
    destruct (decide (n = 0)) as [->|]; [destruct events as [|[[now s] v] events]|].
    - exists (starting_at 0), []. by rewrite seqZ_nil.
    - inversion_clear Hev as [|?? [Hs Hnow] _]. inversion_clear Hev' as [|?? _ Hevs].
      cbn in Hs, Hnow. rewrite zlen_cons in Hlen. cbn [push_all start_of Z.eqb].
      rewrite push_at_first by done.
      destruct (push_all_contiguous t0 events (MkInbox (s + 1) ∅ None)) as (i & out & -> & Hk & Hx).
      + split; [cbn; unfold I64_MIN; lia|]. cbn. split; [|done].
        intros k [w Hw]. by rewrite lookup_empty in Hw.
      + cbn; lia.
      + done.
      + done.
      + cbn [pending]. rewrite map_size_empty. pose proof (zlen_nonneg events). lia.
      + exists i, ((s, v) :: out). pose proof (zlen_nonneg out). rewrite zlen_cons. cbn in Hx.
        split; [done|]. split; [|lia].
        rewrite seqZ_cons by lia. cbn. f_equal. unfold keys_of in Hk. rewrite Hk. f_equal; lia.
    - assert (start_of n events = n) as ->.
      { destruct events as [|[[? ?] ?] ?]; cbn; [done|]. destruct (n =? 0) eqn:E; [lia|done]. }
      apply (push_all_contiguous t0 events (starting_at n));
        [by apply starting_at_ok|cbn; lia|done|done|].
      cbn [pending starting_at]. rewrite map_size_empty. lia. }
  exists i, out. split; [done|]. split; [done|]. intros k Hge Hall.
  destruct (push_all_spec events (starting_at n) (starting_at_ok n Hn)) as (i' & out' & Hp' & D).
  { eapply Forall_impl; [done|]. cbn; lia. }
  rewrite Hp in Hp'. injection Hp' as <- <-. destruct D as [(_ & Hpend & _) _ _ _ _ D6].
  pose proof (zlen_nonneg out).
  destruct (decide (k < next i)) as [|Hlt]; [rewrite Hk; apply elem_of_seqZ; lia|].
  destruct (Hall (next i)) as [w Hw]; [lia|].
  destruct (D6 (next i)) as [Hin|[Hin|Hin]]; [eauto| |apply Hpend in Hin; lia|lia].
  rewrite Hk in Hin. apply elem_of_seqZ in Hin. lia.
Qed.

(** the inbox cannot wait forever: a new message that arrives once the gap is
    ten seconds old, or when the backlog is full, makes it deliver. *)
Theorem inbox_gap_released now s v i : inbox_ok i → next i ≤ s < I64_MAX →
  pending i !! s = None →
  (∃ t, gap_since i = Some t ∧ t + GAP_TIMEOUT ≤ now) ∨
    Z.of_nat (size (pending i)) = PENDING_LIMIT →
  snd (push_at now s v i) ≠ [] ∧ inbox_ok (fst (push_at now s v i)).
Proof.
  intros Hok Hs Hfresh Hwait.
  destruct (push_at_spec now s v i Hok) as (start & i' & out & -> & Hpu & _ & _ & Hout); [lia|].
  split; [apply Hout; [lia|done|]|apply Hpu].
  destruct Hwait as [(t & -> & Ht)|]; [left; unfold sat_sub; cbn; lia|right; lia].
Qed.
End OrderedInbox.
Arguments OrderedInbox : clear implicits.

(** ** Witnesses *)

Lemma inbox_delivers_in_order_witness :
  ∃ i out, push_all [(0, 0, 10); (1, 2, 30); (10001, 3, 40); (10002, 1, 20)] (starting_at 0) = (i, out) ∧
    StronglySorted Z.lt (keys_of out) ∧ out = [(0, 10); (2, 30); (3, 40)].
Proof.
  destruct (inbox_delivers_in_order 0 [(0, 0, 10); (1, 2, 30); (10001, 3, 40); (10002, 1, 20)])
    as (i & out & Hp & Hs & _); [done|by repeat constructor|].
  exists i, out. split; [exact Hp|]. split; [exact Hs|].
  assert (snd (push_all [(0, 0, 10); (1, 2, 30); (10001, 3, 40); (10002, 1, 20)] (starting_at 0)) =
    [(0, 10); (2, 30); (3, 40)]) as H by (vm_compute; reflexivity).
  rewrite Hp in H. exact H.
Defined.

Lemma inbox_lossless_witness :
  ∃ i out, push_all [(0, 0, 10); (1, 2, 30); (2, 1, 20)] (starting_at 0) = (i, out) ∧
    keys_of out = seqZ 0 (zlen out) ∧ 2 ∈ keys_of out.
Proof.
  destruct (inbox_lossless 0 0 [(0, 0, 10); (1, 2, 30); (2, 1, 20)]) as (i & out & Hp & Hk & Hall);
    [done|by repeat constructor|done|].
  exists i, out. split; [exact Hp|]. split; [exact Hk|]. apply Hall; [done|].
  intros j Hj. cbn in Hj. assert (j = 0 ∨ j = 1 ∨ j = 2) as [-> |[-> | ->]] by lia.
  - exists 10, 0. set_solver.
  - exists 20, 2. set_solver.
  - exists 30, 1. set_solver.
Defined.

Lemma inbox_gap_released_witness :
  let i := fst (push_all [(0, 0, 10); (1, 2, 30)] (starting_at 0)) in
  snd (push_at 10001 3 40 i) = [(2, 30); (3, 40)] ∧ snd (push_at 10001 3 40 i) ≠ [].
Proof.
  cbv zeta. split; [vm_compute; reflexivity|].
  apply inbox_gap_released; [|vm_compute; by split|vm_compute; reflexivity|].
  - destruct (push_all_spec [(0, 0, 10); (1, 2, 30)] (starting_at 0)) as (i & out & -> & D);
      [by apply starting_at_ok|by repeat constructor|]. exact (de_ok _ _ _ _ D).
  - left. exists 1. vm_compute. split; [reflexivity|discriminate].
Defined.
