(* ===== verification/Transport.v ===== *)
(** * Transport: admission, shutdown and output of one request

    [Section Lifecycle] is server/src/cursor/transport/lifecycle.rs: appends are
    admitted while the transport is open and shutdown waits for the admitted ones.
    [Section Output] is server/src/cursor/transport/output.rs: frames are kept,
    replayed to late subscribers and broadcast to the live ones.  Both are objects
    behind a mutex: an operation is one atomic step, and a history is any
    interleaving of steps. *)

From stdpp Require Import prelude gmap list relations.
From S2P Require Import Prelude.
Local Open Scope Z_scope.

Section Lifecycle.

(** server/src/cursor/transport/lifecycle.rs:8-13, [TransportState]. *)
Inductive TransportState : Type := Open | Closing | Draining | Closed.

Global Instance TransportState_eq_dec : EqDecision TransportState.
Proof. solve_decision. Defined.

(** A [Notify] is the tasks that hold a [notified()] future of it: [armed] ones have
    not looked at the state yet, [asleep] ones have and are waiting. *)
Record Notify : Type := MkNotify { armed : gset nat; asleep : gset nat }.
(** server/src/cursor/transport/lifecycle.rs:20-24, [LifecycleInner]. *)
Record Lifecycle : Type := MkLifecycle {
  state : TransportState;
  admissions : Z;
  admissions_drained_n : Notify;
  closed_n : Notify
}.

(** [Notify::notify_waiters]: every future created before is completed. *)
Definition notify_waiters (n : Notify) : Notify := MkNotify ∅ ∅.

(** server/src/cursor/transport/lifecycle.rs:36-47, [TransportLifecycle::new]. *)
Definition new_lifecycle : Lifecycle := MkLifecycle Open 0 (MkNotify ∅ ∅) (MkNotify ∅ ∅).

(** server/src/cursor/transport/lifecycle.rs:49-51, [TransportLifecycle::is_open]. *)
Definition is_open (l : Lifecycle) : bool := bool_decide (state l = Open).

(** server/src/cursor/transport/lifecycle.rs:53-62, [TransportLifecycle::admit]. *)
Definition admit_append (l : Lifecycle) : option Lifecycle :=
  if decide (state l = Open) then
    Some (MkLifecycle (state l) (admissions l + 1) (admissions_drained_n l) (closed_n l))
  else None.

(** server/src/cursor/transport/lifecycle.rs:64-75, [TransportLifecycle::begin_close]. *)
Definition begin_close (l : Lifecycle) : Lifecycle :=
  if decide (state l = Open) then
    let drained := admissions l =? 0 in
    MkLifecycle Closing (admissions l)
      (if drained then notify_waiters (admissions_drained_n l) else admissions_drained_n l)
      (closed_n l)
  else l.

(** server/src/cursor/transport/lifecycle.rs:77-79, [TransportLifecycle::admissions_drained]. *)
Definition admissions_drained (l : Lifecycle) : bool := admissions l =? 0.

(** server/src/cursor/transport/lifecycle.rs:91-96, [TransportLifecycle::mark_draining]. *)
Definition mark_draining (l : Lifecycle) : Lifecycle :=
  if decide (state l = Closing) then
    if admissions l =? 0 then
      MkLifecycle Draining (admissions l) (admissions_drained_n l) (closed_n l)
    else l
  else l.

(** server/src/cursor/transport/lifecycle.rs:98-106, [TransportLifecycle::reopen]. *)
Definition reopen (l : Lifecycle) : Lifecycle :=
  match state l with
  | Closing | Draining =>
      MkLifecycle Open (admissions l) (admissions_drained_n l) (closed_n l)
  | _ => l
  end.

(** server/src/cursor/transport/lifecycle.rs:108-116, [TransportLifecycle::close]. *)
Definition close_lifecycle (l : Lifecycle) : Lifecycle :=
  if decide (state l = Closed) then l
  else MkLifecycle Closed (admissions l) (admissions_drained_n l) (notify_waiters (closed_n l)).

(** server/src/cursor/transport/lifecycle.rs:129-139, [Drop for TransportAdmission]. *)
Definition drop_admission (l : Lifecycle) : Lifecycle :=
  let left := sat_sub (admissions l) 1 in
  let drained := bool_decide (state l = Closing) && (left =? 0) in
  MkLifecycle (state l) left
    (if drained then notify_waiters (admissions_drained_n l) else admissions_drained_n l)
    (closed_n l).

(** [let notified = ...notified()]: the first half of a turn of a waiting loop. *)
Definition arm (w : nat) (n : Notify) : Notify := MkNotify ({[w]} ∪ armed n) (asleep n).
(** The test of the loop: a task whose condition fails awaits its future, and keeps
    running when the future is already complete. *)
Definition check (w : nat) (condition : bool) (n : Notify) : Notify :=
  if condition then MkNotify (armed n ∖ {[w]}) (asleep n)
  else if decide (w ∈ armed n) then MkNotify (armed n ∖ {[w]}) ({[w]} ∪ asleep n) else n.

(** server/src/cursor/transport/lifecycle.rs:81-89, [TransportLifecycle::wait_admissions_drained]. *)
Definition wait_admissions_drained_arm (w : nat) (l : Lifecycle) : Lifecycle :=
  MkLifecycle (state l) (admissions l) (arm w (admissions_drained_n l)) (closed_n l).

(** server/src/cursor/transport/lifecycle.rs:81-89, [TransportLifecycle::wait_admissions_drained]. *)
Definition wait_admissions_drained_check (w : nat) (l : Lifecycle) : Lifecycle :=
  MkLifecycle (state l) (admissions l)
    (check w (admissions l =? 0) (admissions_drained_n l)) (closed_n l).

(** server/src/cursor/transport/lifecycle.rs:118-126, [TransportLifecycle::wait_closed]. *)
Definition wait_closed_arm (w : nat) (l : Lifecycle) : Lifecycle :=
  MkLifecycle (state l) (admissions l) (admissions_drained_n l) (arm w (closed_n l)).

(** server/src/cursor/transport/lifecycle.rs:118-126, [TransportLifecycle::wait_closed]. *)
Definition wait_closed_check (w : nat) (l : Lifecycle) : Lifecycle :=
  MkLifecycle (state l) (admissions l) (admissions_drained_n l)
    (check w (bool_decide (state l = Closed)) (closed_n l)).

(** One step of any task; the second component counts the admissions that are held. *)
Inductive lifecycle_step : Lifecycle * Z → Lifecycle * Z → Prop :=
  | step_admit l l' held : admit_append l = Some l' → lifecycle_step (l, held) (l', held + 1)
  | step_drop l held : 0 < held → lifecycle_step (l, held) (drop_admission l, held - 1)
  | step_begin_close l held : lifecycle_step (l, held) (begin_close l, held)
  | step_mark_draining l held : lifecycle_step (l, held) (mark_draining l, held)
  | step_reopen l held : lifecycle_step (l, held) (reopen l, held)
  | step_close l held : lifecycle_step (l, held) (close_lifecycle l, held)
  | step_arm_drained w l held : lifecycle_step (l, held) (wait_admissions_drained_arm w l, held)
  | step_check_drained w l held : lifecycle_step (l, held) (wait_admissions_drained_check w l, held)
  | step_arm_closed w l held : lifecycle_step (l, held) (wait_closed_arm w l, held)
  | step_check_closed w l held : lifecycle_step (l, held) (wait_closed_check w l, held).

Definition lifecycle_inv (s : Lifecycle * Z) : Prop :=
  let '(l, held) := s in
  admissions l = held ∧ 0 ≤ held ∧
  (state l = Draining → held = 0) ∧
  (state l = Closing ∨ state l = Draining → held = 0 → asleep (admissions_drained_n l) = ∅) ∧
  (state l = Closed → asleep (closed_n l) = ∅).

Lemma check_asleep w c n : asleep n = ∅ → c = true → asleep (check w c n) = ∅.
Proof. by intros H ->. Qed.

Lemma lifecycle_step_inv s s' : lifecycle_inv s → lifecycle_step s s' → lifecycle_inv s'.
Proof.
  intros Hinv Hstep. destruct Hstep as [l l' held Hl|l held Hh| | | | | | | |].
  1: unfold admit_append in Hl; case_decide; simplify_eq.
  all: destruct l as [st n d c]; destruct Hinv as (Hn & Hpos & Hd & Hs & Hc);
    cbn [state admissions admissions_drained_n closed_n] in *; subst n.
  all: unfold drop_admission, begin_close, mark_draining, reopen, close_lifecycle,
    wait_admissions_drained_arm, wait_admissions_drained_check, wait_closed_arm,
    wait_closed_check, lifecycle_inv, sat_sub.
  all: destruct st; cbn [state admissions admissions_drained_n closed_n] in *.
  all: repeat first [case_decide | rewrite bool_decide_eq_true_2 by done
                    | rewrite bool_decide_eq_false_2 by done]; try discriminate.
  all: cbn [andb state admissions admissions_drained_n closed_n].
  all: repeat match goal with |- context [?x =? 0] => destruct (Z.eqb_spec x 0) end.
  all: cbn [state admissions admissions_drained_n closed_n asleep armed notify_waiters arm].
  all: try specialize (Hd eq_refl); try specialize (Hc eq_refl);
    try specialize (Hs (or_introl eq_refl)); try specialize (Hs (or_intror eq_refl)).
  all: split; [lia|]; split; [lia|]; split; [intros; (discriminate || lia)|]; split;
    [intros [|] ?; (discriminate || idtac)|intros ?; (discriminate || idtac)].
  all: try apply check_asleep; auto; try lia.
  all: try (apply Hs; lia).
Qed.

(** The states any interleaving of tasks can reach. *)
Definition lifecycle_reachable (s : Lifecycle * Z) : Prop :=
  rtc lifecycle_step (new_lifecycle, 0) s.

Lemma lifecycle_reachable_inv s : lifecycle_reachable s → lifecycle_inv s.
Proof.
  intros Hr. assert (lifecycle_inv (new_lifecycle, 0)) as Hi by (repeat split; try done; lia).
  revert Hi. induction Hr as [|s1 s2 s3 Hstep _ IH]; [done|]. eauto using lifecycle_step_inv.
Qed.

(** in every reachable state the counter is the number of admissions that are
    held, a draining transport holds none, and no wakeup is lost: a task never
    sleeps on "admissions drained" while the transport is closing or draining with
    none left, nor on "closed" once the transport is closed. *)
Theorem lifecycle_no_lost_wakeup l held : lifecycle_reachable (l, held) →
  admissions l = held ∧ 0 ≤ held ∧ (state l = Draining → held = 0) ∧
  (state l = Closing ∨ state l = Draining → held = 0 → asleep (admissions_drained_n l) = ∅) ∧
  (state l = Closed → asleep (closed_n l) = ∅).
Proof. apply lifecycle_reachable_inv. Qed.

Lemma lifecycle_no_lost_wakeup_witness :
  admissions (begin_close new_lifecycle) = 0 ∧ state (begin_close new_lifecycle) = Closing ∧
  asleep (admissions_drained_n (begin_close new_lifecycle)) = ∅.
Proof.
  destruct (lifecycle_no_lost_wakeup (begin_close new_lifecycle) 0) as (H1 & _ & _ & H4 & _).
  - eapply rtc_l; [apply step_begin_close|apply rtc_refl].
  - split; [exact H1|]. split; [reflexivity|]. apply H4; [left; reflexivity|reflexivity].
Defined.

(** A closed transport is closed for good: whatever the tasks do, it admits no
    append again and the admissions still held only go down. *)
Lemma lifecycle_closed_final s s' :
  rtc lifecycle_step s s' → state (fst s) = Closed →
  state (fst s') = Closed ∧ admit_append (fst s') = None ∧ snd s' ≤ snd s.
Proof.
  intros Hr.
  induction Hr as [[l1 h1]|[l1 h1] [l2 h2] [l3 h3] Hstep _ IH]; intros Hc; cbn [fst snd] in *.
  - unfold admit_append. rewrite decide_False by congruence. split; [done|]. split; [done|lia].
  - assert (state l2 = Closed ∧ h2 ≤ h1) as [Hc2 Hh].
    { destruct l1 as [st n d c]; cbn in Hc; subst st.
      inversion Hstep; subst; try (cbn; split; [done|lia]).
      by unfold admit_append in *; case_decide. }
    destruct (IH Hc2) as (? & ? & ?). split; [done|]. split; [done|lia].
Qed.
End Lifecycle.

Section Output.
Context {Frame : Type}.

(** server/src/cursor/transport/output.rs:12-12, [SUBSCRIBER_QUEUE_FRAMES]. *)
Definition SUBSCRIBER_QUEUE_FRAMES : Z := 1024.

(** A bounded tokio channel, seen from both ends: [got] is what its receiver has
    taken out, in order. *)
Record Chan : Type := MkChan {
  capacity : Z;
  queue : list Frame;
  rx_open : bool;
  got : list Frame
}.

(** server/src/cursor/transport/output.rs:20-24, [OutputState]: subscribers are the
    names of their channels. *)
Record OutputHub : Type := MkHub {
  history : list Frame;
  subscribers : list nat;
  closed : bool;
  chans : gmap nat Chan
}.

Definition new_hub : OutputHub := MkHub [] [] false ∅.

(** [Sender::try_send]: [None] is [Full] or [Closed]. *)
Definition try_send (c : Chan) (frame : Frame) : option Chan :=
  if negb (rx_open c) then None
  else if capacity c <=? zlen (queue c) then None
  else Some (MkChan (capacity c) (queue c ++ [frame]) (rx_open c) (got c)).

(** server/src/cursor/transport/output.rs:34-44, [OutputHub::emit], the [retain]. *)
Fixpoint retain_send (frame : Frame) (subs : list nat) (cs : gmap nat Chan)
    : list nat * gmap nat Chan :=
  match subs with
  | [] => ([], cs)
  | s :: subs =>
      match cs !! s ≫= λ c, try_send c frame with
      | Some c => let '(kept, cs) := retain_send frame subs (<[s := c]> cs) in (s :: kept, cs)
      | None => retain_send frame subs cs
      end
  end.

(** server/src/cursor/transport/output.rs:27-55, [OutputHub::emit]. *)
Definition emit (frame : Frame) (h : OutputHub) : OutputHub * bool :=
  if closed h then (h, false)
  else
    let '(subs, cs) := retain_send frame (subscribers h) (chans h) in
    (MkHub (history h ++ [frame]) subs (closed h) cs, true).

(** server/src/cursor/transport/output.rs:57-70, [OutputHub::subscribe]: [id] names
    the new channel. *)
Definition subscribe (id : nat) (h : OutputHub) : OutputHub :=
  let c := MkChan (Z.max SUBSCRIBER_QUEUE_FRAMES (zlen (history h))) [] true [] in
  let c := foldl (λ c frame, default c (try_send c frame)) c (history h) in
  MkHub (history h) (if closed h then subscribers h else subscribers h ++ [id])
    (closed h) (<[id := c]> (chans h)).

(** server/src/cursor/transport/output.rs:72-86, [OutputHub::close]. *)
Definition close_hub (h : OutputHub) : OutputHub * bool :=
  if closed h then (h, false) else (MkHub (history h) [] true (chans h), true).

(** The other end: a receiver takes a frame, or goes away. *)
Definition receive (c : Chan) : Chan :=
  match queue c with
  | f :: q => MkChan (capacity c) q (rx_open c) (got c ++ [f])
  | [] => c
  end.
Definition hang_up (c : Chan) : Chan := MkChan (capacity c) [] false (got c).

Inductive hub_step : OutputHub → OutputHub → Prop :=
  | hub_emit frame h : hub_step h (fst (emit frame h))
  | hub_subscribe id h : chans h !! id = None → hub_step h (subscribe id h)
  | hub_close h : hub_step h (fst (close_hub h))
  | hub_receive id c h : chans h !! id = Some c →
      hub_step h (MkHub (history h) (subscribers h) (closed h) (<[id := receive c]> (chans h)))
  | hub_hang_up id c h : chans h !! id = Some c →
      hub_step h (MkHub (history h) (subscribers h) (closed h) (<[id := hang_up c]> (chans h))).

(** A channel against the history: what its reader has and will get. *)
Definition chan_prefix (hist : list Frame) (c : Chan) : Prop := got c ++ queue c `prefix_of` hist.
Definition chan_full (hist : list Frame) (c : Chan) : Prop :=
  rx_open c = true → got c ++ queue c = hist.

Record hub_inv (h : OutputHub) : Prop := {
  hi_prefix : ∀ id c, chans h !! id = Some c → chan_prefix (history h) c;
  hi_live : ∀ id, id ∈ subscribers h → ∃ c, chans h !! id = Some c ∧ chan_full (history h) c;
  hi_cap : ∀ id c, chans h !! id = Some c → zlen (queue c) ≤ capacity c;
  hi_nodup : NoDup (subscribers h);
  hi_closed : closed h = true → subscribers h = []
}.

Lemma replay_spec hist c : rx_open c = true → zlen (queue c) + zlen hist ≤ capacity c →
  foldl (λ c frame, default c (try_send c frame)) c hist =
  MkChan (capacity c) (queue c ++ hist) true (got c).
Proof.
  revert c. induction hist as [|f hist IH]; intros c Hrx Hl; cbn [foldl].
  - destruct c; cbn in *. by rewrite Hrx, app_nil_r.
  - rewrite zlen_cons in Hl. pose proof (zlen_nonneg hist).
    assert (try_send c f = Some (MkChan (capacity c) (queue c ++ [f]) (rx_open c) (got c))) as ->.
    { unfold try_send. rewrite Hrx. cbn [negb]. by rewrite (proj2 (Z.leb_gt _ _)) by lia. }
    cbn [default from_option id]. rewrite IH; cbn [queue capacity rx_open got]; [|done|].
    + by rewrite <- app_assoc.
    + rewrite zlen_app, zlen_cons, zlen_nil. lia.
Qed.

Lemma subscribe_chan id h : chans (subscribe id h) !! id =
  Some (MkChan (Z.max SUBSCRIBER_QUEUE_FRAMES (zlen (history h))) (history h) true []).
Proof.
  unfold subscribe. cbn [chans]. rewrite lookup_insert_eq, replay_spec; [done|done|].
  cbn [queue capacity]. rewrite zlen_nil. lia.
Qed.

Lemma retain_send_spec frame subs : ∀ cs, NoDup subs →
  let '(kept, cs') := retain_send frame subs cs in
  kept ⊆ subs ∧ NoDup kept ∧
  (∀ id, id ∉ kept → cs' !! id = cs !! id) ∧
  (∀ id, id ∈ kept → ∃ c c', cs !! id = Some c ∧ try_send c frame = Some c' ∧ cs' !! id = Some c').
Proof.
  induction subs as [|s subs IH]; intros cs Hnd; cbn [retain_send].
  { split; [done|]. split; [done|]. split; [done|]. by intros id ?%elem_of_nil. }
  apply NoDup_cons in Hnd as [Hs Hnd].
  destruct (cs !! s ≫= λ c, try_send c frame) as [c'|] eqn:E.
  - apply bind_Some in E as (c & Hc & Hsend).
    specialize (IH (<[s := c']> cs) Hnd).
    destruct (retain_send frame subs (<[s := c']> cs)) as [kept cs'].
    destruct IH as (Hsub & Hnk & Hout & Hin).
    assert (s ∉ kept) as Hsk by set_solver.
    split; [set_solver|]. split; [by constructor|]. split.
    + intros id Hid. rewrite Hout by set_solver. rewrite lookup_insert_ne by set_solver. done.
    + intros id [->|Hid]%elem_of_cons.
      * exists c, c'. rewrite Hout, lookup_insert_eq by done. done.
      * destruct (Hin id Hid) as (c1 & c1' & H1 & H2 & H3). exists c1, c1'.
        rewrite lookup_insert_ne in H1; [done|]. by intros ->.
  - specialize (IH cs Hnd). destruct (retain_send frame subs cs) as [kept cs'].
    destruct IH as (Hsub & Hnk & Hout & Hin). split; [set_solver|]. auto.
Qed.

Lemma try_send_spec c frame c' : try_send c frame = Some c' →
  rx_open c = true ∧ c' = MkChan (capacity c) (queue c ++ [frame]) true (got c) ∧
  zlen (queue c') ≤ capacity c'.
Proof.
  unfold try_send. destruct (rx_open c); cbn [negb]; [|done].
  destruct (_ <=? _) eqn:E; [done|]. intros [= <-]. split; [done|]. split; [done|].
  cbn. rewrite zlen_app, zlen_cons, zlen_nil. lia.
Qed.

Lemma prefix_app_history (c : Chan) hist frame : chan_prefix hist c → chan_prefix (hist ++ [frame]) c.
Proof. apply prefix_app_r. Qed.

Lemma hub_inv_emit frame h : hub_inv h → hub_inv (fst (emit frame h)).
Proof.
  intros Hinv. unfold emit. destruct (closed h) eqn:Hc; [done|].
  destruct Hinv as [I1 I2 I3 I4 I5].
  pose proof (retain_send_spec frame (subscribers h) (chans h) I4) as Hr.
  destruct (retain_send _ _ _) as [kept cs]. destruct Hr as (Hsub & Hnd & Hout & Hin).
  split; cbn [fst history subscribers closed chans]; [| | |done|done].
  - intros id c Hid. destruct (decide (id ∈ kept)) as [Hk|Hk].
    + destruct (Hin id Hk) as (c1 & c1' & H1 & (Hrx & -> & _)%try_send_spec & H3).
      rewrite Hid in H3. injection H3 as ->. unfold chan_prefix. cbn [got queue].
      destruct (I2 id (Hsub _ Hk)) as (c2 & H2 & Hfull). rewrite H1 in H2. injection H2 as ->.
      rewrite app_assoc, (Hfull Hrx). reflexivity.
    + rewrite Hout in Hid by done. eapply prefix_app_history, I1, Hid.
  - intros id Hk. destruct (Hin id Hk) as (c1 & c1' & H1 & (Hrx & -> & _)%try_send_spec & H3).
    eexists. split; [done|]. intros _. cbn [got queue].
    destruct (I2 id (Hsub _ Hk)) as (c2 & H2 & Hfull). rewrite H1 in H2. injection H2 as ->.
    by rewrite app_assoc, (Hfull Hrx).
  - intros id c Hid. destruct (decide (id ∈ kept)) as [Hk|Hk].
    + destruct (Hin id Hk) as (c1 & c1' & H1 & (Hrx & -> & Hl)%try_send_spec & H3).
      rewrite Hid in H3. by injection H3 as ->.
    + rewrite Hout in Hid by done. eauto.
Qed.

Lemma hub_inv_update h id c c' : hub_inv h → chans h !! id = Some c →
  (chan_prefix (history h) c → chan_prefix (history h) c') →
  (chan_full (history h) c → chan_full (history h) c') →
  zlen (queue c') ≤ zlen (queue c) → capacity c' = capacity c →
  hub_inv (MkHub (history h) (subscribers h) (closed h) (<[id := c']> (chans h))).
Proof.
  intros [I1 I2 I3 I4 I5] Hid Hp Hf Hl Hcap. split; cbn [history subscribers closed chans]; try done.
  - intros j d [[<- <-]|[Hne Hj]]%lookup_insert_Some; eauto.
  - intros j Hj. destruct (I2 j Hj) as (d & Hd & Hfull). destruct (decide (id = j)) as [->|].
    + exists c'. rewrite lookup_insert_eq. simplify_eq. auto.
    + exists d. by rewrite lookup_insert_ne.
  - intros j d [[<- <-]|[Hne Hj]]%lookup_insert_Some; [|eauto]. apply I3 in Hid. lia.
Qed.

Lemma hub_step_inv h h' : hub_inv h → hub_step h h' → hub_inv h'.
Proof.
  intros Hinv Hstep. destruct Hstep as [frame h|id h Hnew|h|id c h Hid|id c h Hid].
  - by apply hub_inv_emit.
  - pose proof (subscribe_chan id h) as Hc. destruct Hinv as [I1 I2 I3 I4 I5].
    assert (∀ j, j ≠ id → chans (subscribe id h) !! j = chans h !! j) as Hj
      by (intros j ?; unfold subscribe; cbn; by rewrite lookup_insert_ne).
    assert (id ∉ subscribers h) as Hfresh by (intros (c & ? & _)%I2; congruence).
    split.
    + intros j d Hd. destruct (decide (j = id)) as [->|].
      * rewrite Hc in Hd. injection Hd as <-. unfold chan_prefix; cbn. reflexivity.
      * rewrite Hj in Hd by done. by apply I1 in Hd.
    + intros j Hin. destruct (decide (j = id)) as [->|].
      * eexists. split; [done|]. done.
      * rewrite Hj by done. apply I2. unfold subscribe in Hin; cbn in Hin.
        destruct (closed h); [done|]. apply elem_of_app in Hin as [|Hin]; [done|].
        by apply list_elem_of_singleton in Hin.
    + intros j d Hd. destruct (decide (j = id)) as [->|].
      * rewrite Hc in Hd. injection Hd as <-. cbn. lia.
      * rewrite Hj in Hd by done. eauto.
    + unfold subscribe; cbn. destruct (closed h); [done|]. apply NoDup_app. split; [done|].
      split; [|apply NoDup_singleton]. intros j Hj' ->%list_elem_of_singleton. done.
    + unfold subscribe; cbn. intros Hcl. rewrite Hcl. auto.
  - unfold close_hub. destruct (closed h) eqn:Hcl; [done|]. destruct Hinv as [I1 I2 I3 I4 I5].
    split; cbn [fst history subscribers closed chans]; [exact I1|by intros id ?%elem_of_nil|exact I3|constructor|done].
  - apply (hub_inv_update h id c); [done|done|..]; unfold receive, chan_prefix, chan_full;
      destruct (queue c) as [|f q] eqn:Hq; cbn; rewrite ?Hq; try done.
    + by rewrite <- app_assoc.
    + by rewrite <- app_assoc.
    + rewrite zlen_cons. lia.
  - apply (hub_inv_update h id c); [done|done|..]; unfold hang_up, chan_prefix, chan_full; cbn; try done.
    + intros [k ->]. rewrite app_nil_r. exists (queue c ++ k). by rewrite app_assoc.
    + apply zlen_nonneg.
Qed.

Definition hub_reachable (h : OutputHub) : Prop := rtc hub_step new_hub h.

Lemma hub_reachable_inv h : hub_reachable h → hub_inv h.
Proof.
  intros Hr. assert (hub_inv new_hub) as Hi.
  { split; cbn [new_hub history subscribers closed chans]; [|by intros id ?%elem_of_nil| |constructor|done];
      intros id c Hid; by rewrite lookup_empty in Hid. }
  revert Hi. induction Hr as [|h1 h2 h3 Hstep _ IH]; [done|]. eauto using hub_step_inv.
Qed.

(** whatever the interleaving of emits, subscriptions, reads and disconnects,
    a subscriber sees a prefix of the one history: nothing lost in the middle,
    nothing twice, nothing reordered.  One that is still subscribed and reading has
    the whole history between what it read and what is queued for it, and no queue
    grows beyond the capacity of its channel. *)
Theorem output_replay_lossless h : hub_reachable h →
  (∀ id c, chans h !! id = Some c →
    got c ++ queue c `prefix_of` history h ∧ zlen (queue c) ≤ capacity c) ∧
  (∀ id, id ∈ subscribers h → ∃ c, chans h !! id = Some c ∧
    (rx_open c = true → got c ++ queue c = history h)).
Proof.
  intros [I1 I2 I3 _ _]%hub_reachable_inv. split; [|done].
  intros id c Hc. split; [by apply (I1 id)|by apply (I3 id)].
Qed.

(** What a step does to a hub that is closed, and to one channel of it. *)
Lemma hub_step_closed h h' : hub_step h h' → closed h = true →
  closed h' = true ∧ history h' = history h.
Proof.
  intros [frame h1|id h1 _|h1|id c h1 _|id c h1 _] Hc; cbn; try done.
  - unfold emit. by rewrite Hc.
  - unfold close_hub. by rewrite Hc.
Qed.

Lemma hub_step_chan h h' id c : hub_step h h' → closed h = true → chans h !! id = Some c →
  ∃ c', chans h' !! id = Some c' ∧ (rx_open c' = true →
    rx_open c = true ∧ got c' ++ queue c' = got c ++ queue c).
Proof.
  intros [frame h1|j h1 Hj|h1|j d h1 Hj|j d h1 Hj] Hc Hid; cbn.
  - unfold emit. rewrite Hc. eauto.
  - exists c. rewrite lookup_insert_ne by congruence. eauto.
  - unfold close_hub. rewrite Hc. eauto.
  - destruct (decide (j = id)) as [->|]; [|rewrite lookup_insert_ne by done; eauto].
    rewrite lookup_insert_eq. assert (d = c) as -> by congruence. eexists; split; [done|].
    unfold receive. destruct (queue c) eqn:Hq; [by rewrite Hq|].
    cbn. by rewrite <- app_assoc.
  - destruct (decide (j = id)) as [->|]; [|rewrite lookup_insert_ne by done; eauto].
    rewrite lookup_insert_eq. by exists (hang_up d).
Qed.

Lemma hub_closed_chan h h' id c : rtc hub_step h h' → closed h = true →
  chans h !! id = Some c → ∃ c', chans h' !! id = Some c' ∧
    (rx_open c' = true → rx_open c = true ∧ got c' ++ queue c' = got c ++ queue c).
Proof.
  intros Hr. revert c. induction Hr as [h|h h1 h' Hstep Hr IH]; intros c Hc Hid; [eauto|].
  destruct (hub_step_chan h h1 id c Hstep Hc Hid) as (c1 & Hid1 & H1).
  destruct (IH c1 (proj1 (hub_step_closed h h1 Hstep Hc)) Hid1) as (c' & Hid' & H').
  exists c'. split; [done|]. intros Hrx. destruct (H' Hrx) as [Hrx1 ->]. auto.
Qed.

Lemma hub_closed_history h h' : rtc hub_step h h' → closed h = true →
  closed h' = true ∧ history h' = history h.
Proof.
  induction 1 as [h|h h1 h' Hstep Hr IH]; intros Hc; [done|].
  destruct (hub_step_closed h h1 Hstep Hc) as [Hc1 Hh1]. destruct (IH Hc1). split; [done|congruence].
Qed.

(** closing ends the stream and loses nothing: a hub that closed keeps its
    history for good, and every channel that was subscribed when it closed, as well
    as one that subscribes afterwards, delivers all of it to a reader that stays. *)
Theorem output_close_complete h h1 h2 id :
  hub_reachable h → rtc hub_step (fst (close_hub h)) h1 →
  chans h1 !! id = None → rtc hub_step (subscribe id h1) h2 →
  history h2 = history h ∧ closed h2 = true ∧ subscribers h2 = [] ∧
  ∀ s, s = id ∨ s ∈ subscribers h → ∃ c, chans h2 !! s = Some c ∧
    (rx_open c = true → got c ++ queue c = history h).
Proof.
  intros Hh Hr1 Hid Hr2. set (h0 := fst (close_hub h)) in *.
  assert (closed h0 = true ∧ history h0 = history h ∧ chans h0 = chans h) as (Hc0 & Hh0 & Hs0)
    by (subst h0; unfold close_hub; destruct (closed h) eqn:?; done).
  destruct (hub_closed_history h0 h1 Hr1 Hc0) as [Hc1 Hh1].
  assert (rtc hub_step h0 h2) as Hr by (etrans; [exact Hr1|eapply rtc_l; [by apply hub_subscribe|done]]).
  destruct (hub_closed_history h0 h2 Hr Hc0) as [Hc2 Hh2].
  assert (hub_reachable h2) as Hreach
    by (unfold hub_reachable in *; etrans; [exact Hh|]; eapply rtc_l; [apply hub_close|exact Hr]).
  split; [congruence|]. split; [done|]. split; [by apply hub_reachable_inv in Hreach as []; auto|].
  intros s [->|Hs].
  - destruct (hub_closed_chan _ h2 id _ Hr2 Hc1 (subscribe_chan id h1)) as (c & Hc & Hq).
    exists c. split; [done|]. intros Hrx. destruct (Hq Hrx) as [_ ->]. cbn. congruence.
  - apply hub_reachable_inv in Hh. destruct (hi_live _ Hh s Hs) as (c & Hc & Hfull).
    rewrite <- Hs0 in Hc. destruct (hub_closed_chan h0 h2 s c Hr Hc0 Hc) as (c' & Hc' & Hq).
    exists c'. split; [done|]. intros Hrx. destruct (Hq Hrx) as [Hrx1 ->]. by apply Hfull.
Qed.
End Output.

Definition sample_hub : OutputHub := fst (emit 7 (subscribe 0%nat (fst (emit 5 new_hub)))).

Lemma sample_hub_reachable : hub_reachable sample_hub.
Proof.
  eapply rtc_l; [apply (hub_emit 5)|]. eapply rtc_l; [by apply (hub_subscribe 0%nat)|].
  apply rtc_once, (hub_emit 7).
Qed.

Lemma output_replay_lossless_witness :
  ∃ c, chans sample_hub !! 0%nat = Some c ∧ got c ++ queue c = [5; 7].
Proof.
  destruct (output_replay_lossless sample_hub sample_hub_reachable) as [_ H].
  destruct (H 0%nat) as (c & Hc & Hq); [apply list_elem_of_here|].
  exists c. split; [exact Hc|]. rewrite Hq; [reflexivity|].
  vm_compute in Hc. injection Hc as <-. reflexivity.
Defined.

Lemma output_close_complete_witness :
  history (subscribe 1%nat (fst (close_hub sample_hub))) = [5; 7].
Proof.
  destruct (output_close_complete sample_hub (fst (close_hub sample_hub))
    (subscribe 1%nat (fst (close_hub sample_hub))) 1%nat sample_hub_reachable) as [H _].
  - apply rtc_refl.
  - reflexivity.
  - apply rtc_refl.
  - exact H.
Defined.
