(* ===== verification/Routes.v ===== *)
(** * Routes: which transport serves a request id

    server/src/cursor/transport/registry.rs (the local transports, the ids pinned
    to the upstream, their generations and expiry) and the one-shot bindings of
    server/src/cursor/transport/handle.rs.  The registry's maps are each behind a
    mutex, so an operation is one atomic step; a transport's handle is named by the
    generation it was created with and its [Lifecycle] is the one of Transport.v.
    Times are milliseconds of the monotonic clock. *)

From stdpp Require Import prelude gmap list relations strings.
From S2P Require Import Prelude Errors Transport.
Local Open Scope Z_scope.

(** ** One-shot bindings *)

Section Binding.
Context {T : Type} `{EqDecision T}.

(** server/src/cursor/transport/handle.rs:46-51, [bind_once]: the slot afterwards
    and whether the value is the one bound. *)
Definition bind_once (slot : option T) (value : T) : option T * result () () :=
  match slot with
  | None => (Some value, Ok ())
  | Some v => (slot, if decide (v = value) then Ok () else Err ())
  end.

(** What concurrent binders do: each [bind_once] is one atomic step. *)
Definition bind_all (slot : option T) (values : list T) : option T * list (result () ()) :=
  foldl (λ '(slot, rs) v, let '(slot, r) := bind_once slot v in (slot, rs ++ [r])) (slot, []) values.

Lemma bind_all_bound v values rs :
  foldl (λ '(slot, rs) v, let '(slot, r) := bind_once slot v in (slot, rs ++ [r])) (Some v, rs) values =
  (Some v, rs ++ ((λ w, if decide (v = w) then Ok () else Err ()) <$> values)).
Proof.
  revert rs. induction values as [|w values IH]; intros rs; cbn; [by rewrite app_nil_r|].
  rewrite IH. by rewrite <- app_assoc.
Qed.
End Binding.

(** server/src/cursor/transport/handle.rs:21-25, [TransportParent]. *)
Record TransportParent : Type := MkParent {
  p_request_id : option (list Z);
  p_tool_call_id : option (list Z)
}.

Global Instance TransportParent_eq_dec : EqDecision TransportParent.
Proof. solve_decision. Defined.

(** server/src/cursor/transport/handle.rs:76-86, [TransportHandle::set_conversation_id]. *)
Definition set_conversation_id (request_id : str) (slot : option str) (conversation_id : str)
    : option str * res () :=
  match conversation_id with
  | [] => (slot, Err (protocol "Cursor conversation id is required"))
  | _ =>
      let '(slot, r) := bind_once slot conversation_id in
      (slot, map_err (λ _, Protocol (lit "conflicting conversation ids for request " ++ request_id)) r)
  end.

(** server/src/cursor/transport/handle.rs:92-108, [TransportHandle::set_parent]. *)
Definition set_parent (request_id : str) (slot : option TransportParent) (parent : TransportParent)
    : option TransportParent * res () :=
  if bool_decide ((p_request_id parent = None ∧ p_tool_call_id parent = None)
                  ∨ p_request_id parent = Some [] ∨ p_tool_call_id parent = Some [])
  then (slot, Err (protocol "Cursor parent ids must not be empty"))
  else
    let '(slot, r) := bind_once slot parent in
    (slot, map_err (λ _, Protocol (lit "conflicting parent ids for request " ++ request_id)) r).

(** ** The registry *)

Section Registry.

(** server/src/cursor/transport/registry.rs:31-31, [ROUTE_WAIT_TIMEOUT]. *)
Definition ROUTE_WAIT_TIMEOUT : Z := 30 * 1000.
(** server/src/cursor/transport/registry.rs:40-40, [UPSTREAM_MARK_TTL]. *)
Definition UPSTREAM_MARK_TTL : Z := 30 * 60 * 1000.

(** server/src/cursor/transport/registry.rs:60-65, [UpstreamMark]. *)
Record UpstreamMark : Type := MkMark { um_generation : Z; last_used : Z }.

(** server/src/cursor/transport/registry.rs:47-57, [RegistryInner]: [local] maps an
    id to the generation of its transport, [handles] holds the lifecycle of every
    transport ever created. *)
Record Registry : Type := MkRegistry {
  local : gmap (list Z) Z;
  next_local_generation : Z;
  upstream : gmap (list Z) UpstreamMark;
  handles : gmap Z Lifecycle
}.

(** server/src/cursor/transport/registry.rs:74-77, [TransportRoute]. *)
Inductive TransportRoute : Type := Local | Upstream (generation : Z).

(** server/src/cursor/transport/registry.rs:159-188, [TransportRegistry::build]. *)
Definition new_registry : Registry := MkRegistry ∅ 1 ∅ ∅.

(** [handle.accepting_appends()] *)
Definition accepting (r : Registry) (generation : Z) : bool :=
  match handles r !! generation with Some l => is_open l | None => false end.

(** server/src/cursor/transport/registry.rs:240-290, [TransportRegistry::get_or_create_for_append]:
    the registry afterwards and the handle returned. *)
Definition get_or_create_for_append (request_id : str) (replace_closing : bool) (r : Registry)
    : Registry * Z :=
  let create :=
    let generation := next_local_generation r in
    (MkRegistry (<[request_id := generation]> (delete request_id (local r)))
       (u64 (generation + 1)) (upstream r) (<[generation := new_lifecycle]> (handles r)),
     generation) in
  match local r !! request_id with
  | Some generation =>
      if accepting r generation || negb replace_closing then (r, generation) else create
  | None => create
  end.

(** server/src/cursor/transport/registry.rs:275-288, [TransportRegistry::get_or_create_for_append]:
    the task that waits for the transport's end and drops its entry. *)
Definition reap (request_id : str) (generation : Z) (r : Registry) : Registry :=
  match local r !! request_id with
  | Some g =>
      if g =? generation then
        MkRegistry (delete request_id (local r)) (next_local_generation r) (upstream r) (handles r)
      else r
  | None => r
  end.

(** server/src/cursor/transport/registry.rs:310-341, [TransportRegistry::mark_upstream]. *)
Definition mark_upstream (request_id : str) (now : Z) (r : Registry) : Registry * Z :=
  let generation := match upstream r !! request_id with
                    | Some mark => um_generation mark + 1 | None => 1 end in
  let dropped := local r !! request_id in
  (MkRegistry (delete request_id (local r)) (next_local_generation r)
     (<[request_id := MkMark generation now]> (upstream r))
     (match dropped with
      | Some g => alter close_lifecycle g (handles r)
      | None => handles r
      end),
   generation).

(** server/src/cursor/transport/registry.rs:345-354, [TransportRegistry::upstream]. *)
Definition upstream_touch (request_id : str) (now : Z) (r : Registry) : Registry * bool :=
  match upstream r !! request_id with
  | Some mark =>
      (MkRegistry (local r) (next_local_generation r)
         (<[request_id := MkMark (um_generation mark) now]> (upstream r)) (handles r), true)
  | None => (r, false)
  end.

(** server/src/cursor/transport/registry.rs:365-381, [TransportRegistry::expire_stale_upstream_at]. *)
Definition is_stale (now : Z) (mark : UpstreamMark) : bool :=
  UPSTREAM_MARK_TTL <=? sat_sub now (last_used mark).
(** server/src/cursor/transport/registry.rs:365-381, [TransportRegistry::expire_stale_upstream_at]. *)
Definition expire_stale_upstream_at (now : Z) (r : Registry) : Registry * nat :=
  let stale := filter (λ kv, is_stale now (snd kv) = true) (map_to_list (upstream r)) in
  (MkRegistry (local r) (next_local_generation r)
     (foldr (λ request_id m, delete request_id m) (upstream r) stale.*1) (handles r),
   length stale).

(** server/src/cursor/transport/registry.rs:386-406, [TransportRegistry::wait_route]:
    one turn of its loop, [None] when it goes on waiting. *)
Definition wait_route_poll (request_id : str) (now : Z) (r : Registry)
    : Registry * option TransportRoute :=
  match local r !! request_id with
  | Some _ => (r, Some Local)
  | None =>
      match upstream r !! request_id with
      | Some mark =>
          (fst (upstream_touch request_id now r), Some (Upstream (um_generation mark)))
      | None => (r, None)
      end
  end.

(** server/src/cursor/transport/registry.rs:415-426, [TransportRegistry::finish_upstream]. *)
Definition finish_upstream (request_id : str) (generation : Z) (r : Registry) : Registry :=
  match upstream r !! request_id with
  | Some mark =>
      if um_generation mark =? generation then
        MkRegistry (local r) (next_local_generation r) (delete request_id (upstream r)) (handles r)
      else r
  | None => r
  end.

(** server/src/cursor/transport/registry.rs:428-440, [TransportRegistry::shutdown]: the
    maps afterwards, the local transports are then disconnected one by one. *)
Definition shutdown (r : Registry) : Registry :=
  MkRegistry ∅ (next_local_generation r) ∅ (handles r).

(** server/src/cursor/transport/registry.rs:194-215, [TransportRegistry::maintain_storage_if_idle]:
    does the storage get pruned; [has_active_runs] is the conversations' answer. *)
Definition maintain_storage_if_idle (now : Z) (has_active_runs : bool) (r : Registry)
    : Registry * bool :=
  let r := fst (expire_stale_upstream_at now r) in
  let no_transports := bool_decide (local r = ∅) && bool_decide (size (upstream r) = 0%nat) in
  (r, no_transports && negb has_active_runs).

(** ** Interleavings *)

Inductive registry_op : Type :=
  | OpCreate (id : list Z) (replace_closing : bool)
  | OpReap (id : list Z) (generation : Z)
  | OpLifecycle (generation : Z) (l : Lifecycle)
  | OpMark (id : list Z) (now : Z)
  | OpTouch (id : list Z) (now : Z)
  | OpWait (id : list Z) (now : Z)
  | OpFinish (id : list Z) (generation : Z)
  | OpExpire (now : Z)
  | OpShutdown.

Definition registry_do (op : registry_op) (r : Registry) : Registry :=
  match op with
  | OpCreate id replace_closing => fst (get_or_create_for_append id replace_closing r)
  | OpReap id g => reap id g r
  | OpLifecycle g l =>
      MkRegistry (local r) (next_local_generation r) (upstream r) (<[g := l]> (handles r))
  | OpMark id now => fst (mark_upstream id now r)
  | OpTouch id now => fst (upstream_touch id now r)
  | OpWait id now => fst (wait_route_poll id now r)
  | OpFinish id g => finish_upstream id g r
  | OpExpire now => fst (expire_stale_upstream_at now r)
  | OpShutdown => shutdown r
  end.

(** When a task can take the step: the counter does not wrap, a reaper has waited
    for its transport to be closed, a transport changes by its own operations. *)
Definition enabled (op : registry_op) (r : Registry) : Prop :=
  match op with
  | OpCreate _ _ => next_local_generation r < U64_MAX
  | OpReap _ g => ∃ l, handles r !! g = Some l ∧ state l = Closed
  | OpLifecycle g l' => ∃ l h h', handles r !! g = Some l ∧ lifecycle_step (l, h) (l', h')
  | _ => True
  end.

Inductive registry_step : Registry → Registry → Prop :=
  | registry_step_intro op r : enabled op r → registry_step r (registry_do op r).

Definition registry_reachable (r : Registry) : Prop := rtc registry_step new_registry r.

(** Generations name transports: fresh ones are new, and no two ids share one. *)
Record registry_inv (r : Registry) : Prop := {
  ri_next : 1 ≤ next_local_generation r;
  ri_fresh : ∀ g, is_Some (handles r !! g) → g < next_local_generation r;
  ri_local : ∀ id g, local r !! id = Some g → is_Some (handles r !! g);
  ri_inj : ∀ id id' g, local r !! id = Some g → local r !! id' = Some g → id = id'
}.

Lemma create_spec id replace r r' g : get_or_create_for_append id replace r = (r', g) →
  (r' = r ∧ local r !! id = Some g) ∨
  (g = next_local_generation r ∧
   r' = MkRegistry (<[id := g]> (local r)) (u64 (g + 1)) (upstream r)
          (<[g := new_lifecycle]> (handles r))).
Proof.
  unfold get_or_create_for_append.
  destruct (local r !! id) as [g0|] eqn:E; [destruct (_ || _)|]; intros [= <- <-]; auto;
    right; by rewrite insert_delete_eq.
Qed.

(** Steps that leave the local transports as they are, or only drop some. *)
Lemma registry_inv_shrink r r' : registry_inv r →
  next_local_generation r' = next_local_generation r → local r' ⊆ local r →
  dom (handles r') = dom (handles r) → registry_inv r'.
Proof.
  intros [I1 I2 I3 I4] Hn Hl Hh.
  assert (∀ g, is_Some (handles r' !! g) ↔ is_Some (handles r !! g)) as Hd
    by (intros g; rewrite <- !elem_of_dom, Hh; done).
  split; rewrite ?Hn; [done|..].
  - intros g Hg%Hd. auto.
  - intros id g Hg. apply Hd. eapply I3, lookup_weaken; done.
  - intros id id' g H1 H2. eapply I4; eapply lookup_weaken; done.
Qed.

Lemma registry_step_inv r r' : registry_inv r → registry_step r r' → registry_inv r'.
Proof.
  intros Hi Hs. destruct Hs as [op r Hen].
  destruct op as [id rep|id g|g l'|id now|id now|id now|id g|now|]; cbn [registry_do enabled] in *.
  - destruct (get_or_create_for_append id rep r) as [r' g] eqn:E; cbn.
    apply create_spec in E as [[-> _]|[-> ->]]; [done|].
    destruct Hi as [I1 I2 I3 I4]. set (n := next_local_generation r) in *.
    assert (u64 (n + 1) = n + 1) as Hu by (apply wrap_small; unfold U64_MAX in Hen; lia).
    split; cbn; rewrite ?Hu; [lia|..].
    + intros g [<-|Hg]%lookup_insert_is_Some'; [lia|]. apply I2 in Hg. lia.
    + intros id' g [[<- <-]|[_ Hg]]%lookup_insert_Some; [by rewrite lookup_insert_eq|].
      apply lookup_insert_is_Some'. right. eauto.
    + intros i j g [[<- <-]|[_ Hi']]%lookup_insert_Some [[<- ?]|[_ Hj]]%lookup_insert_Some; try done.
      * apply I3, I2 in Hj. lia.
      * subst. apply I3, I2 in Hi'. lia.
      * eauto.
  - apply (registry_inv_shrink r); try done; unfold reap; destruct (local r !! id); try done;
      destruct (_ =? _); try done. cbn. apply delete_subseteq.
  - destruct Hen as (l & h & h' & Hg & _).
    apply (registry_inv_shrink r); try done. cbn. rewrite dom_insert_L.
    apply elem_of_dom_2 in Hg. set_solver.
  - apply (registry_inv_shrink r); try done; cbn; [apply delete_subseteq|].
    destruct (local r !! id); [by rewrite dom_alter_L|done].
  - apply (registry_inv_shrink r); try done; unfold upstream_touch; by destruct (upstream r !! id).
  - apply (registry_inv_shrink r); try done; unfold wait_route_poll, upstream_touch;
      destruct (local r !! id); try done; by destruct (upstream r !! id).
  - apply (registry_inv_shrink r); try done; unfold finish_upstream;
      destruct (upstream r !! id); try done; by destruct (_ =? _).
  - by apply (registry_inv_shrink r).
  - apply (registry_inv_shrink r); try done. cbn. apply map_empty_subseteq.
Qed.

Lemma registry_reachable_inv r : registry_reachable r → registry_inv r.
Proof.
  intros Hr. assert (registry_inv new_registry) as Hi.
  { split; cbn; [lia| | |]; [intros g Hg|intros id g Hg|intros id id' g Hg];
      rewrite lookup_empty in Hg; [by apply is_Some_None in Hg|done..]. }
  revert Hi. induction Hr as [|r1 r2 r3 Hs _ IH]; [done|]. eauto using registry_step_inv.
Qed.

(** *** A transport in use keeps its route *)

Lemma reap_lookup id g r id' : local (reap id g r) !! id' = local r !! id' ∨
  (id' = id ∧ local r !! id = Some g).
Proof.
  unfold reap. destruct (local r !! id) as [g0|] eqn:E; [|by left].
  destruct (Z.eqb_spec g0 g) as [->|]; [|by left]. cbn.
  destruct (decide (id' = id)) as [->|]; [by right|]. left. by rewrite lookup_delete_ne.
Qed.

Lemma accepting_fresh r g l m :
  accepting (MkRegistry m l (upstream r) (<[g := new_lifecycle]> (handles r))) g = true.
Proof. unfold accepting. cbn. by rewrite lookup_insert_eq. Qed.

(** a transport that admits appends is never taken off its request id behind
    its back: along any step other than the shutdown an id keeps its transport, or
    the transport no longer admits appends; in particular the task that reaps an
    old transport never removes the one that replaced it under the same id. *)
Theorem route_kept r op id g : registry_reachable r → enabled op r →
  local r !! id = Some g →
  local (registry_do op r) !! id = Some g ∨ accepting (registry_do op r) g = false
  ∨ op = OpShutdown.
Proof.
  intros Hi%registry_reachable_inv Hen Hl.
  destruct op as [id' rep|id' g'|g' l'|id' now|id' now|id' now|id' g'|now|]; cbn [registry_do enabled] in *;
    [..|by auto].
  - unfold get_or_create_for_append. destruct (decide (id' = id)) as [->|Hne].
    + rewrite Hl. destruct (accepting r g || negb rep) eqn:Ha; [by left|]. right; left.
      apply orb_false_iff in Ha as [Ha _]. unfold accepting in *. cbn.
      rewrite lookup_insert_ne; [done|].
      apply (ri_local _ Hi), (ri_fresh _ Hi) in Hl. lia.
    + left. destruct (local r !! id') as [g0|]; [destruct (accepting r g0 || negb rep)|]; cbn;
        rewrite ?lookup_insert_ne, ?lookup_delete_ne by done; done.
  - destruct (reap_lookup id' g' r id) as [->|[-> Hg]]; [by left|right; left].
    rewrite Hl in Hg. injection Hg as ->. destruct Hen as (l & Hh & Hc).
    assert (handles (reap id' g' r) = handles r) as Hh'
      by (unfold reap; rewrite Hl, Z.eqb_refl; done).
    unfold accepting. rewrite Hh', Hh. unfold is_open. by rewrite bool_decide_eq_false_2 by congruence.
  - by left.
  - cbn. destruct (decide (id' = id)) as [->|Hne]; [|left; by rewrite lookup_delete_ne].
    right; left. unfold accepting. rewrite Hl. cbn. rewrite lookup_alter_eq.
    destruct (handles r !! g) as [l|]; [|done]. cbn. unfold is_open, close_lifecycle.
    case_decide as Hc; cbn; by rewrite bool_decide_eq_false_2 by congruence.
  - left. unfold upstream_touch. by destruct (upstream r !! id').
  - left. unfold wait_route_poll, upstream_touch.
    destruct (local r !! id'); [done|]. by destruct (upstream r !! id').
  - left. unfold finish_upstream. destruct (upstream r !! id'); [|done]. by destruct (_ =? _).
  - by left.
Qed.

(** *** The upstream pin *)

Lemma foldr_delete_lookup `{Countable K} {V} (ks : list K) (m : gmap K V) k :
  foldr (λ k m, delete k m) m ks !! k = if decide (k ∈ ks) then None else m !! k.
Proof.
  induction ks as [|k0 ks IH]; cbn [foldr]; [by rewrite decide_False by apply not_elem_of_nil|].
  destruct (decide (k = k0)) as [->|Hne].
  - rewrite lookup_delete_eq, decide_True by apply list_elem_of_here. done.
  - rewrite lookup_delete_ne by done. rewrite IH.
    apply decide_ext. rewrite elem_of_cons. naive_solver.
Qed.

Lemma stale_ids (now : Z) (m : gmap (list Z) UpstreamMark) (id : list Z) :
  id ∈ (filter (λ kv, is_stale now (snd kv) = true) (map_to_list m)).*1 ↔
  ∃ mark, m !! id = Some mark ∧ is_stale now mark = true.
Proof.
  rewrite list_elem_of_fmap. split.
  - intros ([k mark] & -> & [Hs Hin]%list_elem_of_filter). exists mark.
    by apply elem_of_map_to_list in Hin.
  - intros (mark & Hm & Hs). exists (id, mark). split; [done|].
    apply list_elem_of_filter. by rewrite elem_of_map_to_list.
Qed.

Lemma map_to_list_filter `{Countable K} {V} (P : K * V → Prop) `{∀ kv, Decision (P kv)} (m : gmap K V) :
  filter P (map_to_list m) ≡ₚ map_to_list (filter P m).
Proof.
  apply NoDup_Permutation; [apply NoDup_filter, NoDup_map_to_list|apply NoDup_map_to_list|].
  intros [k v]. by rewrite list_elem_of_filter, !elem_of_map_to_list, map_lookup_filter_Some, (comm (∧)).
Qed.

Lemma expire_exact_marks now r id : upstream (fst (expire_stale_upstream_at now r)) !! id =
  match upstream r !! id with
  | Some mark => if UPSTREAM_MARK_TTL <=? sat_sub now (last_used mark) then None else Some mark
  | None => None
  end.
Proof.
  cbn. rewrite foldr_delete_lookup. case_decide as Hin.
  - apply stale_ids in Hin as (mark & -> & Hs). unfold is_stale in Hs. by rewrite Hs.
  - destruct (upstream r !! id) as [mark|] eqn:E; [|done].
    destruct (_ <=? _) eqn:Hs; [|done]. exfalso. apply Hin, stale_ids. eauto.
Qed.

(** expiry drops exactly the marks nobody used for the TTL and reports how many
    it dropped; every other mark, and every local transport, stays as it is. *)
Theorem expire_exact now r :
  let '(r', n) := expire_stale_upstream_at now r in
  local r' = local r ∧ handles r' = handles r ∧
  (∀ id, upstream r' !! id =
    match upstream r !! id with
    | Some mark => if UPSTREAM_MARK_TTL <=? sat_sub now (last_used mark) then None else Some mark
    | None => None
    end) ∧
  n = size (filter (λ kv, is_stale now (snd kv) = true) (upstream r)).
Proof.
  split; [done|]. split; [done|]. split; [intros id; apply expire_exact_marks|].
  by rewrite <- length_map_to_list, map_to_list_filter.
Qed.

(** What leaves an id pinned to generation [g]: nobody creates a transport for it
    or pins it anew, the expiry runs within the TTL of [since], guards that finish
    belong to other generations. *)
Definition leaves_pin (id : list Z) (g since : Z) (op : registry_op) : bool :=
  match op with
  | OpCreate id' _ => bool_decide (id' ≠ id)
  | OpMark id' _ => bool_decide (id' ≠ id)
  | OpTouch id' now | OpWait id' now => bool_decide (id' ≠ id) || (since <=? now)
  | OpFinish id' g' => bool_decide (id' ≠ id) || negb (g =? g')
  | OpExpire now => now - since <? UPSTREAM_MARK_TTL
  | OpReap _ _ | OpLifecycle _ _ => true
  | OpShutdown => false
  end.

(** Both maps as one id sees them. *)
Definition pinned (id : list Z) (g since : Z) (r : Registry) : Prop :=
  local r !! id = None ∧ ∃ mark, upstream r !! id = Some mark ∧ um_generation mark = g ∧
  since ≤ last_used mark.

Lemma touch_pinned id g since id' now r : pinned id g since r →
  bool_decide (id' ≠ id) || (since <=? now) = true →
  pinned id g since (fst (upstream_touch id' now r)).
Proof.
  intros (Hl & mark & Hm & Hg & Hs) Hop. unfold upstream_touch.
  destruct (upstream r !! id') as [mk|] eqn:E; [|by split; eauto].
  split; [done|]. cbn. destruct (decide (id' = id)) as [->|Hne].
  - rewrite bool_decide_eq_false_2 in Hop by congruence. apply Z.leb_le in Hop.
    rewrite lookup_insert_eq. simplify_eq. eauto.
  - rewrite lookup_insert_ne by done. eauto.
Qed.

Lemma leaves_pin_pinned id g since op r : leaves_pin id g since op = true →
  pinned id g since r → pinned id g since (registry_do op r).
Proof.
  intros Hop Hp. pose proof Hp as (Hl & mark & Hm & Hg & Hs).
  destruct op as [id' rep|id' g'|g' l'|id' now|id' now|id' now|id' g'|now|];
    cbn [registry_do leaves_pin] in *; [..|done].
  - apply bool_decide_eq_true in Hop. unfold get_or_create_for_append.
    destruct (local r !! id') as [g0|]; [destruct (accepting r g0 || negb rep); [done|]|];
      (split; cbn; [by rewrite lookup_insert_ne, lookup_delete_ne|eauto]).
  - destruct (reap_lookup id' g' r id) as [He|[-> He]]; [|congruence].
    split; [by rewrite He|]. exists mark. split; [|done].
    unfold reap. by destruct (local r !! id'); [destruct (_ =? _)|].
  - split; eauto.
  - apply bool_decide_eq_true in Hop. split; cbn; [by rewrite lookup_delete_ne|].
    rewrite lookup_insert_ne by done. eauto.
  - by apply touch_pinned.
  - unfold wait_route_poll. destruct (local r !! id') eqn:El; [done|].
    destruct (upstream r !! id') eqn:Eu; cbn [fst]; [by apply touch_pinned|done].
  - unfold finish_upstream. destruct (upstream r !! id') as [mk|] eqn:E; [|done].
    destruct (Z.eqb_spec (um_generation mk) g') as [<-|]; [|done]. split; [done|]. cbn.
    rewrite lookup_delete_ne; [eauto|]. intros ->. simplify_eq.
    rewrite bool_decide_eq_false_2, Z.eqb_refl in Hop by congruence. done.
  - split; [done|]. exists mark. split; [|done]. pose proof (expire_exact_marks now r) as Hx.
    rewrite Hx, Hm. apply Z.ltb_lt in Hop. unfold sat_sub, UPSTREAM_MARK_TTL in *.
    by rewrite (proj2 (Z.leb_gt _ _)) by lia.
Qed.

(** pinning an id to the upstream closes its local transport and takes effect at
    once: until the id gets a transport or a pin of its own again, every later
    attach goes upstream with this pin's generation, whatever older reapers and
    guards of other generations still do, and whenever the expiry runs, as long as
    the pin was used within the TTL before it. *)
Theorem mark_upstream_routes id now r ops at_ :
  Forall (λ op, leaves_pin id (snd (mark_upstream id now r)) now op = true) ops →
  let '(r1, g) := mark_upstream id now r in
  (∀ l0, local r !! id = Some l0 → accepting r1 l0 = false) ∧
  snd (wait_route_poll id at_ (foldl (λ r op, registry_do op r) r1 ops)) = Some (Upstream g).
Proof.
  destruct (mark_upstream id now r) as [r1 g] eqn:E. cbn [snd]. intros Hops. split.
  - intros l0 Hl. unfold mark_upstream in E. injection E as <- _. unfold accepting. cbn.
    rewrite Hl, lookup_alter_eq. destruct (handles r !! l0) as [l|]; [|done]. cbn.
    unfold is_open, close_lifecycle. case_decide; cbn; by rewrite bool_decide_eq_false_2 by congruence.
  - assert (pinned id g now r1) as Hp.
    { injection E as <- <-. split; cbn; [by rewrite lookup_delete_eq|].
      rewrite lookup_insert_eq. eexists; split; [done|]. cbn. split; [done|lia]. }
    clear E. revert r1 Hp. induction Hops as [|op ops Hop _ IH]; intros r1 Hp; cbn [foldl].
    + destruct Hp as (Hl & mark & Hm & <- & _). unfold wait_route_poll. by rewrite Hl, Hm.
    + apply IH, leaves_pin_pinned; done.
Qed.

(** A generation starts again at 1 once its mark is gone, so it does not tell an old
    guard from a new one: when a first guard has finished the mark and the id is
    pinned again, a second guard of the first pin clears the second pin. *)
Lemma finish_upstream_reused_generation id t1 t2 r : upstream r !! id = None →
  let '(r1, g1) := mark_upstream id t1 r in
  let '(r3, g2) := mark_upstream id t2 (finish_upstream id g1 r1) in
  g1 = 1 ∧ g2 = 1 ∧ upstream (finish_upstream id g1 r3) !! id = None.
Proof.
  intros Hn. unfold mark_upstream, finish_upstream. rewrite Hn. cbn.
  rewrite lookup_insert_eq. cbn. rewrite lookup_delete_eq, lookup_insert_eq. cbn.
  by rewrite lookup_delete_eq.
Qed.

(** an idle check prunes the storage exactly when no run is active, no local
    transport is left and every upstream mark went unused for the TTL: a mark that
    nobody touches cannot hold the pruning off for ever. *)
Theorem maintenance_gate now active r :
  snd (maintain_storage_if_idle now active r) = true ↔
  active = false ∧ local r = ∅ ∧
  (∀ id mark, upstream r !! id = Some mark → UPSTREAM_MARK_TTL ≤ sat_sub now (last_used mark)).
Proof.
  unfold maintain_storage_if_idle. cbn [snd].
  set (r' := fst (expire_stale_upstream_at now r)).
  assert (local r' = local r) as -> by done.
  rewrite !andb_true_iff, negb_true_iff, !bool_decide_eq_true, map_size_empty_iff.
  enough (upstream r' = ∅ ↔ ∀ id mark, upstream r !! id = Some mark →
    UPSTREAM_MARK_TTL ≤ sat_sub now (last_used mark)) by tauto.
  subst r'. split.
  - intros He id mark Hm. pose proof (expire_exact_marks now r id) as Hx.
    rewrite He, lookup_empty, Hm in Hx. destruct (_ <=? _) eqn:Hle; [lia|done].
  - intros Hall. apply map_eq. intros id. rewrite lookup_empty, expire_exact_marks.
    destruct (upstream r !! id) as [mark|] eqn:E; [|done]. apply Hall, Z.leb_le in E. by rewrite E.
Qed.
End Registry.

Definition sample_id : list Z := lit "request-1".
Definition sample_registry : Registry :=
  fst (get_or_create_for_append sample_id false new_registry).

Lemma route_kept_witness :
  local (registry_do (OpReap sample_id 7) sample_registry) !! sample_id = Some 1 ∨
  accepting (registry_do (OpMark sample_id 0) sample_registry) 1 = false.
Proof.
  assert (registry_reachable sample_registry) as Hr
    by (apply rtc_once; apply (registry_step_intro (OpCreate sample_id false)); reflexivity).
  destruct (route_kept sample_registry (OpMark sample_id 0) sample_id 1 Hr I) as [H|[H|H]].
  - reflexivity.
  - discriminate H.
  - right. exact H.
  - discriminate H.
Defined.

Lemma mark_upstream_routes_witness :
  snd (wait_route_poll sample_id 9 (registry_do (OpFinish sample_id 4)
    (registry_do (OpExpire 100) (fst (mark_upstream sample_id 5 sample_registry))))) = Some (Upstream 1).
Proof.
  apply (mark_upstream_routes sample_id 5 sample_registry [OpExpire 100; OpFinish sample_id 4] 9).
  repeat constructor.
Defined.
