(* ===== verification/Message.v ===== *)
(** * Message: the canonical conversation and what a provider sees of it

    The data of server/src/model/ (message.rs, tool.rs, run.rs, inference.rs, the
    specification part of configuration.rs) and the projection of projection.rs,
    which merges the halves of a tool round into one assistant message followed by
    its results.  Identifiers are their strings. *)

From stdpp Require Import prelude gmap sets strings list sorting.
From S2P Require Import Prelude Errors External.
Local Open Scope Z_scope.

Section Data.

(** server/src/model/message.rs:9-14, [Role]. *)
Inductive Role : Type := RSystem | RUser | RAssistant | RTool.
(** server/src/model/message.rs:18-24, [Origin]. *)
Inductive Origin : Type := OPrompt | OUser | ORuntime | OAssistant | OTool.

Global Instance Role_eq_dec : EqDecision Role.
Proof. solve_decision. Defined.
Global Instance Origin_eq_dec : EqDecision Origin.
Proof. solve_decision. Defined.

(** server/src/model/tool.rs:52-56, [ToolImageReference]. *)
Record ToolImageReference : Type := MkImageReference {
  blob_id : list Z;
  image_mime_type : list Z;
  image_path : list Z
}.

(** server/src/model/message.rs:27-32, [ToolCallContent]. *)
Record ToolCallContent : Type := MkCall {
  c_index : Z;
  c_call_id : list Z;
  c_name : list Z;
  c_arguments : json
}.

(** server/src/model/message.rs:54-63, [ContentPart]. *)
Inductive ContentPart : Type :=
  | PText (text : list Z)
  | PImage (mime_type : list Z) (data : list Z).

(** server/src/model/message.rs:35-44, [ToolResultContent]. *)
Record ToolResultContent : Type := MkResult {
  r_call_id : list Z;
  r_name : list Z;
  r_content : list Z;
  r_is_error : bool;
  r_image : option ToolImageReference;
  r_provider_parts : list ContentPart
}.

(** server/src/model/message.rs:47-50, [ProviderReplayState]. *)
Record ProviderReplayState : Type := MkReplay { provider_kind : list Z; replay_value : json }.

(** server/src/model/message.rs:67-81, [MessageContent]. *)
Inductive MessageContent : Type :=
  | CParts (parts : list ContentPart)
  | CAssistant (text thinking : list Z) (tool_round_id : option (list Z))
      (replay_state : option ProviderReplayState) (tool_calls : list ToolCallContent)
  | CToolResult (result : ToolResultContent).

(** server/src/model/message.rs:84-91, [CanonicalMessage]. *)
Record CanonicalMessage : Type := MkMessage {
  message_id : list Z;
  role : Role;
  origin : Origin;
  content : MessageContent;
  runtime_event_id : option (list Z)
}.

Global Instance ToolImageReference_eq_dec : EqDecision ToolImageReference.
Proof. solve_decision. Defined.
Global Instance ToolCallContent_eq_dec : EqDecision ToolCallContent.
Proof. solve_decision. Defined.
Global Instance ContentPart_eq_dec : EqDecision ContentPart.
Proof. solve_decision. Defined.
Global Instance ToolResultContent_eq_dec : EqDecision ToolResultContent.
Proof. solve_decision. Defined.
Global Instance ProviderReplayState_eq_dec : EqDecision ProviderReplayState.
Proof. solve_decision. Defined.
Global Instance MessageContent_eq_dec : EqDecision MessageContent.
Proof. solve_decision. Defined.
Global Instance CanonicalMessage_eq_dec : EqDecision CanonicalMessage.
Proof. solve_decision. Defined.

(** server/src/model/message.rs:94-109, [CanonicalMessage::text]. *)
Definition text_message (id : str) (r : Role) (o : Origin) (text : str) : CanonicalMessage :=
  MkMessage id r o (CParts [PText text]) None.

(** server/src/model/message.rs:111-124, [CanonicalMessage::parts]. *)
Definition parts_message (id : str) (r : Role) (o : Origin) (parts : list ContentPart)
    : CanonicalMessage :=
  MkMessage id r o (CParts parts) None.

(** server/src/model/message.rs:148-151, [RuntimeEvent]. *)
Record RuntimeEvent : Type := MkRuntimeEvent { event_id : list Z; event_text : list Z }.

(** server/src/model/message.rs:154-164, [RuntimeEvent::into_message]. *)
Definition into_message (e : RuntimeEvent) : CanonicalMessage :=
  MkMessage (lit "runtime:" ++ event_id e) RUser ORuntime (CParts [PText (event_text e)])
    (Some (event_id e)).

(** server/src/model/tool.rs:7-23, [normalize_tool_name]. *)
Definition normalize_tool_name (name : str) : str :=
  let normalized := (λ c, if is_ascii_alnum c || (c =? 95) || (c =? 45) then c else 95) <$> name in
  match normalized with [] => lit "_" | _ => normalized end.

(** server/src/model/tool.rs:26-30, [ToolDefinition]. *)
Record ToolDefinition : Type := MkTool {
  t_name : list Z;
  t_description : list Z;
  t_parameters : json
}.

(** server/src/model/tool.rs:33-41, [ToolCall]. *)
Record ToolCall : Type := MkToolCall {
  index : Z;
  call_id : list Z;
  model_call_id : list Z;
  name : list Z;
  arguments_text : list Z;
  arguments : json;
  argument_error : option (list Z)
}.

(** server/src/model/tool.rs:44-49, [ToolResult]. *)
Record ToolResult : Type := MkToolResult {
  tr_call_id : list Z;
  tr_content : list Z;
  tr_is_error : bool;
  tr_image : option ToolImageReference
}.

(** server/src/model/tool.rs:59-64, [ToolRoundAssistant]. *)
Record ToolRoundAssistant : Type := MkRoundAssistant {
  a_text : list Z;
  a_thinking : list Z;
  a_model_call_id : list Z;
  a_replay_state : option ProviderReplayState
}.

(** server/src/model/inference.rs:9-12, [PromptSpec]. *)
Record PromptSpec : Type := MkPrompt { instructions : list Z; tools : list ToolDefinition }.

(** server/src/model/configuration.rs:576-582, [ReasoningSpec]. *)
Record ReasoningSpec : Type := MkReasoning {
  rs_enabled : option bool;
  rs_effort : option (list Z);
  rs_thinking_budget_tokens : option Z
}.

(** server/src/model/configuration.rs:594-598, [ModelLatency]. *)
Inductive ModelLatency : Type := LStandard | LFast.

(** server/src/model/configuration.rs:601-619, [ModelSpec]. *)
Record ModelSpec : Type := MkModel {
  model_id : list Z;
  display_name : option (list Z);
  reasoning : ReasoningSpec;
  latency : ModelLatency;
  max_output_tokens : option Z;
  context_window_tokens : option Z;
  supports_image_generation : bool;
  extra_params : json;
  stop_sequences : list (list Z)
}.

(** server/src/model/run.rs:53-57, [RecoveredToolRound]. *)
Record RecoveredToolRound : Type := MkRecovered {
  rr_assistant : ToolRoundAssistant;
  rr_calls : list ToolCall;
  rr_started_at_ms : Z
}.

(** server/src/model/run.rs:39-50, [RunAction]. *)
Inductive RunAction : Type :=
  | Start
  | Compact
  | Resume (pending_tool_round : option RecoveredToolRound)
  | BackgroundCompletion.

(** server/src/model/run.rs:10-13, [SubagentKind]. *)
Inductive SubagentKind : Type := GeneralPurpose | Named (kind_name : list Z).
(** server/src/model/run.rs:16-29, [RunKind]. *)
Inductive RunKind : Type :=
  | Root
  | Subagent (parent_run_id parent_tool_call_id : option (list Z)) (kind : SubagentKind).

(** server/src/model/run.rs:60-70, [PreparedRun]. *)
Record PreparedRun : Type := MkPrepared {
  run_id : list Z;
  cursor_request_id : option (list Z);
  conversation_id : list Z;
  run_kind : RunKind;
  model : ModelSpec;
  prompt : PromptSpec;
  initial_messages : list CanonicalMessage;
  action : RunAction;
  base_checkpoint_id : Z
}.
End Data.

(** ** Projection *)

Section Projection.

(** server/src/model/projection.rs:14-23, [ProjectedContent]. *)
Inductive ProjectedContent : Type :=
  | PCParts (parts : list ContentPart)
  | PCAssistant (text thinking : list Z) (replay_state : option ProviderReplayState)
      (calls : list ToolCallContent)
  | PCToolResult (result : ToolResultContent).

(** server/src/model/projection.rs:26-30, [ProjectedMessage]. *)
Record ProjectedMessage : Type := MkProjected {
  p_message_id : list Z;
  p_role : Role;
  p_content : ProjectedContent
}.

(** server/src/model/projection.rs:174-178, [normalized_tool_call]. *)
Definition normalized_tool_call (call : ToolCallContent) : ToolCallContent :=
  MkCall (c_index call) (c_call_id call) (normalize_tool_name (c_name call)) (c_arguments call).

(** server/src/model/projection.rs:180-184, [normalized_tool_result]. *)
Definition normalized_tool_result (result : ToolResultContent) : ToolResultContent :=
  MkResult (r_call_id result) (normalize_tool_name (r_name result)) (r_content result)
    (r_is_error result) (r_image result) (r_provider_parts result).

(** server/src/model/projection.rs:148-172, [project_message]. *)
Definition project_message (message : CanonicalMessage) : ProjectedMessage :=
  MkProjected (message_id message) (role message)
    match content message with
    | CParts parts => PCParts parts
    | CAssistant text thinking _ replay_state tool_calls =>
        PCAssistant text thinking replay_state (normalized_tool_call <$> tool_calls)
    | CToolResult result => PCToolResult (normalized_tool_result result)
    end.

(** [slice::sort_by_key] on the call index: a stable sort. *)
Fixpoint insert_call (call : ToolCallContent) (calls : list ToolCallContent) : list ToolCallContent :=
  match calls with
  | [] => [call]
  | c :: rest => if c_index call <=? c_index c then call :: calls else c :: insert_call call rest
  end.
Definition sort_calls (calls : list ToolCallContent) : list ToolCallContent :=
  foldr insert_call [] calls.

(** The variables of [project_tool_round]'s loop; [rest] is what [cursor] has not
    reached. *)
Record Round : Type := MkRound {
  rd_text : list Z;
  rd_thinking : list Z;
  rd_replay : option ProviderReplayState;
  rd_calls : list ToolCallContent;
  rd_results : list (list Z * ToolResultContent);
  rd_rest : list CanonicalMessage
}.

(** [HashSet::insert] fails on a result that is already there; the set is the call
    ids of [results]. *)
Definition has_result (id : str) (results : list (list Z * ToolResultContent)) : bool :=
  bool_decide (id ∈ (λ r, r_call_id (snd r)) <$> results).

(** server/src/model/projection.rs:97-112, [project_tool_round]: the inner loop. *)
Fixpoint round_results (calls : list ToolCallContent)
    (results : list (list Z * ToolResultContent)) (rest : list CanonicalMessage)
    : res (list (list Z * ToolResultContent) * list CanonicalMessage) :=
  match rest with
  | m :: rest' =>
      match content m with
      | CToolResult result =>
          if negb (bool_decide (r_call_id result ∈ c_call_id <$> calls)) then Ok (results, rest)
          else if has_result (r_call_id result) results then
            Err (Protocol (lit "duplicate tool result call_id: " ++ r_call_id result))
          else round_results calls (results ++ [(message_id m, result)]) rest'
      | _ => Ok (results, rest)
      end
  | [] => Ok (results, [])
  end.

(** server/src/model/projection.rs:71-113, [project_tool_round]: the loop over the
    assistant halves of the round. *)
Definition round_body (group_id : str) (s : Round) : flow Round (res Round) :=
  match rd_rest s with
  | m :: rest =>
      match content m with
      | CAssistant part_text part_thinking (Some candidate_group) part_replay part_calls =>
          if negb (bool_decide (candidate_group = group_id)) || bool_decide (part_calls = []) then
            Done (Ok s)
          else
            match rd_replay s, part_replay with
            | Some _, Some _ =>
                Done (Err (protocol "tool round repeats provider replay state"))
            | replay, _ =>
                let calls := rd_calls s ++ (normalized_tool_call <$> part_calls) in
                match round_results calls (rd_results s) rest with
                | Ok (results, rest) =>
                    Next (MkRound (rd_text s ++ part_text) (rd_thinking s ++ part_thinking)
                            (match replay with None => part_replay | _ => replay end)
                            calls results rest)
                | Err e => Done (Err e)
                end
            end
      | _ => Done (Ok s)
      end
  | [] => Done (Ok s)
  end.

Lemma round_results_spec calls results rest results' rest' :
  round_results calls results rest = Ok (results', rest') →
  ∃ taken new, rest = taken ++ rest' ∧ results' = results ++ new ∧
    Forall2 (λ m r, message_id m = fst r ∧ content m = CToolResult (snd r)) taken new ∧
    (NoDup ((λ r, r_call_id (snd r)) <$> results) → NoDup ((λ r, r_call_id (snd r)) <$> results')) ∧
    Forall (λ r, r_call_id (snd r) ∈ c_call_id <$> calls) new.
Proof.
  revert results. induction rest as [|m rest IH]; intros results; cbn [round_results].
  { intros [= <- <-]. exists [], []. rewrite !app_nil_r. repeat split; (done || constructor). }
  destruct (content m) as [| |result] eqn:E.
  1,2: intros [= <- <-]; exists [], []; rewrite !app_nil_r; repeat split; (done || constructor).
  case_bool_decide as Hin; cbn [negb].
  - unfold has_result. case_bool_decide as Hdup; [done|]. intros H.
    apply IH in H as (taken & new & -> & -> & Hf & Hnd & Hall).
    exists (m :: taken), ((message_id m, result) :: new). split; [done|].
    split; [by rewrite <- app_assoc|]. split; [by constructor|]. split; [|by constructor].
    intros Hr. apply Hnd. rewrite fmap_app. apply NoDup_app. split; [done|]. split.
    + intros x Hx ->%list_elem_of_singleton. by apply Hdup.
    + apply NoDup_singleton.
  - intros [= <- <-]. exists [], []. rewrite !app_nil_r. repeat split; (done || constructor).
Qed.

(** A result of one of the calls. *)
Definition answers (calls : list ToolCallContent) (m : CanonicalMessage) : Prop :=
  ∃ r, content m = CToolResult r ∧ r_call_id r ∈ c_call_id <$> calls.
(** What is left after the results begins with none. *)
Lemma round_results_end calls results rest results' rest' m :
  round_results calls results rest = Ok (results', rest') → head rest' = Some m → ¬ answers calls m.
Proof.
  revert results. induction rest as [|x rest IH]; intros results; cbn [round_results]; [by intros [= <- <-]|].
  destruct (content x) as [| |result] eqn:E; [intros [= <- <-] [= <-] (r & Hr & _); congruence..|].
  case_bool_decide as Hin; cbn [negb].
  - destruct (has_result _ _); [done|]. apply IH.
  - intros [= <- <-] [= <-] (r & Hr & Hc). congruence.
Qed.

Lemma round_body_decreases group_id :
  decreases (round_body group_id) (λ s, length (rd_rest s)).
Proof.
  intros s s'. unfold round_body. destruct (rd_rest s) as [|m rest]; [done|].
  destruct (content m) as [|text thinking [group|] replay calls|]; try done.
  destruct (_ || _); [done|].
  destruct (rd_replay s), replay; try done;
    destruct (round_results _ _ rest) as [[results rest']|] eqn:E; try done;
    intros [= <-]; apply round_results_spec in E as (taken & _ & -> & _);
    cbn; rewrite length_app; lia.
Qed.

(** server/src/model/projection.rs:47-146, [project_tool_round]: the projected group
    and the messages after it. *)
Definition project_tool_round (messages : list CanonicalMessage)
    : res (option (list ProjectedMessage * list CanonicalMessage)) :=
  match messages with
  | [] => Ok None
  | m :: _ =>
      match content m with
      | CAssistant _ _ (Some group_id) _ tool_calls =>
          if bool_decide (tool_calls = []) then Ok None
          else
            s ← run (round_body group_id) (round_body_decreases group_id) (MkRound [] [] None [] [] messages);
            let calls := sort_calls (rd_calls s) in
            match list_find (λ call, has_result (c_call_id call) (rd_results s) = false) calls with
            | Some (_, call) =>
                Err (Protocol (lit "assistant tool call has no result call_id: " ++ c_call_id call))
            | None =>
                Ok (Some
                  (MkProjected (message_id m) RAssistant
                     (PCAssistant (rd_text s) (rd_thinking s) (rd_replay s) calls)
                   :: ((λ r, MkProjected (fst r) RTool
                               (PCToolResult (normalized_tool_result (snd r)))) <$> rd_results s),
                   rd_rest s))
            end
      | _ => Ok None
      end
  end.

(** server/src/model/projection.rs:32-45, [project_messages]: one turn. *)
Definition project_body (s : list ProjectedMessage * list CanonicalMessage)
    : flow (list ProjectedMessage * list CanonicalMessage) (res (list ProjectedMessage)) :=
  let '(projected, messages) := s in
  match messages with
  | [] => Done (Ok projected)
  | m :: rest =>
      match project_tool_round messages with
      | Err e => Done (Err e)
      | Ok (Some (group, next)) => Next (projected ++ group, next)
      | Ok None => Next (projected ++ [project_message m], rest)
      end
  end.

(** What a message carries, before and after the projection. *)
Definition text_of (m : CanonicalMessage) : str :=
  match content m with CAssistant text _ _ _ _ => text | _ => [] end.
Definition thinking_of (m : CanonicalMessage) : str :=
  match content m with CAssistant _ thinking _ _ _ => thinking | _ => [] end.
Definition calls_of (m : CanonicalMessage) : list ToolCallContent :=
  match content m with CAssistant _ _ _ _ calls => calls | _ => [] end.
Definition replay_of (m : CanonicalMessage) : option ProviderReplayState :=
  match content m with CAssistant _ _ _ replay _ => replay | _ => None end.
Definition results_of (m : CanonicalMessage) : list (str * ToolResultContent) :=
  match content m with CToolResult r => [(message_id m, r)] | _ => [] end.
Definition parts_of (m : CanonicalMessage) : list (str * list ContentPart) :=
  match content m with CParts parts => [(message_id m, parts)] | _ => [] end.

Definition p_text_of (m : ProjectedMessage) : str :=
  match p_content m with PCAssistant text _ _ _ => text | _ => [] end.
Definition p_thinking_of (m : ProjectedMessage) : str :=
  match p_content m with PCAssistant _ thinking _ _ => thinking | _ => [] end.
Definition p_calls_of (m : ProjectedMessage) : list ToolCallContent :=
  match p_content m with PCAssistant _ _ _ calls => calls | _ => [] end.
Definition p_replay_of (m : ProjectedMessage) : option ProviderReplayState :=
  match p_content m with PCAssistant _ _ replay _ => replay | _ => None end.
Definition p_results_of (m : ProjectedMessage) : list (str * ToolResultContent) :=
  match p_content m with PCToolResult r => [(p_message_id m, r)] | _ => [] end.
Definition p_parts_of (m : ProjectedMessage) : list (str * list ContentPart) :=
  match p_content m with PCParts parts => [(p_message_id m, parts)] | _ => [] end.

(** A message that belongs to the round [group_id]: one of its assistant halves or
    one of its results. *)
Definition in_round (group_id : str) (m : CanonicalMessage) : Prop :=
  match content m with
  | CAssistant _ _ id _ _ => id = Some group_id
  | CToolResult _ => True
  | CParts _ => False
  end.

(** A half of the round: an assistant message of it with calls. *)
Definition half_of (group_id : str) (m : CanonicalMessage) : bool :=
  match content m with
  | CAssistant _ _ (Some id) _ (_ :: _) => bool_decide (id = group_id)
  | _ => false
  end.

(** The loop has read the messages [taken], and has collected what they carry. *)
Record round_inv (group_id : str) (taken : list CanonicalMessage) (s : Round) : Prop := {
  rdi_text : rd_text s = concat (text_of <$> taken);
  rdi_thinking : rd_thinking s = concat (thinking_of <$> taken);
  rdi_calls : rd_calls s = normalized_tool_call <$> concat (calls_of <$> taken);
  rdi_results : rd_results s = concat (results_of <$> taken);
  rdi_nodup : NoDup ((λ r, r_call_id (snd r)) <$> rd_results s);
  rdi_answer : Forall (λ r, r_call_id (snd r) ∈ c_call_id <$> rd_calls s) (rd_results s);
  rdi_round : Forall (in_round group_id) taken;
  rdi_replay : rd_replay s = head (omap replay_of taken);
  rdi_end m : taken ≠ [] → head (rd_rest s) = Some m → ¬ answers (rd_calls s) m
}.

Lemma round_inv_nil group_id rest : round_inv group_id [] (MkRound [] [] None [] [] rest).
Proof. by split; cbn; try constructor. Qed.

(** The results a half of the round is followed by. *)
Lemma taken_results group_id taken new :
  Forall2 (λ m r, message_id m = fst r ∧ content m = CToolResult (snd r)) taken new →
  concat (text_of <$> taken) = [] ∧ concat (thinking_of <$> taken) = [] ∧
  concat (calls_of <$> taken) = [] ∧ concat (results_of <$> taken) = new ∧
  Forall (in_round group_id) taken ∧ omap replay_of taken = [].
Proof.
  induction 1 as [|m [id r] taken new [Hid Hc] _ (H1 & H2 & H3 & H4 & H5 & H6)]; [done|].
  cbn in Hid, Hc. subst id. rewrite !fmap_cons. cbn [concat].
  assert (text_of m = [] ∧ thinking_of m = [] ∧ calls_of m = [] ∧ results_of m = [(message_id m, r)])
    as (-> & -> & -> & ->) by (unfold text_of, thinking_of, calls_of, results_of; by rewrite Hc).
  cbn [app].
  repeat split; [done..|by rewrite H4| |].
  - constructor; [|done]. unfold in_round. by rewrite Hc.
  - cbn. unfold replay_of at 1. by rewrite Hc.
Qed.

Lemma round_body_inv group_id taken s s' :
  round_inv group_id taken s → round_body group_id s = Next s' →
  ∃ more, rd_rest s = more ++ rd_rest s' ∧ round_inv group_id (taken ++ more) s'.
Proof.
  intros [I1 I2 I3 I4 I5 I6 I7 I8 _]. unfold round_body. destruct (rd_rest s) as [|m rest]; [done|].
  destruct (content m) as [|text thinking [group|] part_replay part_calls|] eqn:Em; try done.
  destruct (negb _ || _) eqn:Eg; [done|].
  apply orb_false_iff in Eg as [Eg _]. apply negb_false_iff, bool_decide_eq_true in Eg as ->.
  intros H.
  set (calls := rd_calls s ++ (normalized_tool_call <$> part_calls)) in H.
  assert (∃ replay results rest', round_results calls (rd_results s) rest = Ok (results, rest') ∧
    s' = MkRound (rd_text s ++ text) (rd_thinking s ++ thinking) replay calls results rest' ∧
    replay = head (option_list (rd_replay s) ++ option_list part_replay))
    as (replay & results & rest' & E & -> & Erep).
  { destruct (rd_replay s), part_replay; try done;
      destruct (round_results calls (rd_results s) rest) as [[results rest']|]; try done;
      injection H as <-; by eauto 10. }
  clear H. assert (∀ x, head rest' = Some x → ¬ answers calls x) as Hend by (intros x; by eapply round_results_end). apply round_results_spec in E as (new_m & new & -> & -> & Hf & Hnd & Hall).
  exists (m :: new_m). cbn [rd_rest]. split; [done|].
  destruct (taken_results group_id _ _ Hf) as (T1 & T2 & T3 & T4 & T5 & T6).
  split; cbn [rd_text rd_thinking rd_calls rd_results rd_replay rd_rest];
    rewrite ?fmap_app, ?concat_app, ?fmap_cons; cbn [concat].
  - rewrite T1, app_nil_r, I1. f_equal. unfold text_of. by rewrite Em.
  - rewrite T2, app_nil_r, I2. f_equal. unfold thinking_of. by rewrite Em.
  - subst calls. rewrite T3, app_nil_r, I3, fmap_app. do 2 f_equal. unfold calls_of. by rewrite Em.
  - rewrite T4, I4. f_equal. unfold results_of. by rewrite Em.
  - rewrite <- fmap_app. auto.
  - apply Forall_app; split; [|done]. eapply Forall_impl; [exact I6|]. cbn.
    intros r Hr. subst calls. rewrite fmap_app. set_solver.
  - apply Forall_app; split; [done|]. constructor; [|done]. unfold in_round. by rewrite Em.
  - rewrite Erep, I8, omap_app. cbn [omap list_omap]. fold (omap replay_of new_m). rewrite T6.
    unfold replay_of at 3. rewrite Em. by destruct (omap replay_of taken), part_replay.
  - intros x _. apply Hend.
Qed.

(** The loop stops at a message that is no half of the round. *)
Lemma round_run_inv group_id taken s s' : round_inv group_id taken s →
  run (round_body group_id) (round_body_decreases group_id) s = Ok s' →
  ∃ more, rd_rest s = more ++ rd_rest s' ∧ round_inv group_id (taken ++ more) s' ∧
    ∀ m, head (rd_rest s') = Some m → half_of group_id m = false.
Proof.
  intros Hs. revert s'.
  enough (∀ r, run (round_body group_id) (round_body_decreases group_id) s = r → match r with Ok s' =>
    ∃ more, rd_rest s = more ++ rd_rest s' ∧ round_inv group_id (taken ++ more) s' ∧
      ∀ m, head (rd_rest s') = Some m → half_of group_id m = false | Err _ => True end) as H
    by (intros s' Hr; apply (H _ Hr)).
  intros r <-.
  apply (run_invariant (round_body group_id) _ (round_body_decreases group_id)
    (λ s1, ∃ more, rd_rest s = more ++ rd_rest s1 ∧ round_inv group_id (taken ++ more) s1)
    (λ _ r, match r with Ok s' =>
       ∃ more, rd_rest s = more ++ rd_rest s' ∧ round_inv group_id (taken ++ more) s' ∧
         ∀ m, head (rd_rest s') = Some m → half_of group_id m = false | Err _ => True end)).
  - intros s1 r (more & Hm & Hi). unfold round_body. intros Hb.
    assert ((r = Ok s1 ∧ ∀ m, head (rd_rest s1) = Some m → half_of group_id m = false) ∨ ∃ e, r = Err e)
      as [[-> Hend]|[e ->]]; [|by exists more|done].
    revert Hb. destruct (rd_rest s1) as [|m rest]; [intros [= <-]; by left|]. cbn [head].
    destruct (content m) as [|t th [g|] rp cs|] eqn:Em.
    2: destruct (negb _ || _) eqn:Eg; [|repeat case_match; try done; intros [= <-]; right; by eexists].
    all: intros [= <-]; left; (split; [done|]); intros ? [= <-]; unfold half_of; rewrite Em; try done.
    destruct cs; [done|]. apply bool_decide_eq_false. intros ->. by rewrite bool_decide_eq_true_2 in Eg.
  - intros s1 s2 (more & Hm & Hi) Hb. split; [|auto].
    destruct (round_body_inv group_id _ _ _ Hi Hb) as (more2 & Hm2 & Hi2).
    exists (more ++ more2). rewrite Hm, Hm2, <- app_assoc. split; [done|]. by rewrite app_assoc.
  - exists []. by rewrite app_nil_r.
Qed.

Lemma sort_calls_permutation calls : sort_calls calls ≡ₚ calls.
Proof.
  induction calls as [|c calls IH]; cbn [sort_calls foldr]; [done|].
  fold (sort_calls calls). rewrite <- IH at 2. generalize (sort_calls calls) as l. clear.
  induction l as [|d l IH]; cbn [insert_call]; [done|].
  case_match; [done|]. rewrite IH. apply Permutation_swap.
Qed.

Lemma sort_calls_sorted calls :
  StronglySorted (λ c d, c_index c ≤ c_index d) (sort_calls calls).
Proof.
  induction calls as [|c calls IH]; cbn [sort_calls foldr]; [constructor|].
  fold (sort_calls calls). revert IH. generalize (sort_calls calls) as l.
  induction l as [|d l IHl]; intros Hs; cbn [insert_call]; [repeat constructor|].
  inversion_clear Hs as [|? ? Hs' Hd].
  destruct (Z.leb_spec (c_index c) (c_index d)) as [Hle|Hlt].
  - constructor; [by constructor|]. constructor; [done|]. eapply Forall_impl; [exact Hd|]. cbn. lia.
  - constructor; [auto|]. apply Forall_forall. intros x Hx.
    assert (x ∈ c :: l) as Hx'.
    { revert Hx. clear. induction l as [|y l IH]; cbn [insert_call]; [done|]. case_match; set_solver. }
    apply elem_of_cons in Hx' as [->|Hx']; [lia|]. rewrite Forall_forall in Hd. auto.
Qed.

(** A whole round, as the projection reads it. *)
Lemma project_tool_round_spec messages group rest :
  project_tool_round messages = Ok (Some (group, rest)) →
  ∃ m messages' group_id text thinking replay calls taken s,
    messages = m :: messages' ∧ content m = CAssistant text thinking (Some group_id) replay calls ∧
    calls ≠ [] ∧ messages = taken ++ rest ∧ taken ≠ [] ∧ (round_inv group_id taken s ∧ rest = rd_rest s ∧
      ∀ x, head rest = Some x → half_of group_id x = false) ∧
    Forall (λ c, has_result (c_call_id c) (rd_results s) = true) (rd_calls s) ∧
    group = MkProjected (message_id m) RAssistant
              (PCAssistant (rd_text s) (rd_thinking s) (rd_replay s) (sort_calls (rd_calls s)))
            :: ((λ r, MkProjected (fst r) RTool (PCToolResult (normalized_tool_result (snd r))))
                <$> rd_results s).
Proof.
  unfold project_tool_round. destruct messages as [|m messages]; [done|].
  destruct (content m) as [|text thinking [group_id|] replay calls|] eqn:Em; try done.
  case_bool_decide as Hc; [done|].
  destruct (run _ _ _) as [s|] eqn:Hrun; [|done]. cbn.
  destruct (list_find _ _) as [[i c]|] eqn:Hf; [done|]. intros [= <- <-].
  exists m, messages, group_id, text, thinking, replay, calls.
  rewrite run_eq in Hrun. destruct (round_body group_id _) as [s1|r] eqn:Hb.
  - destruct (round_body_inv group_id [] _ _ (round_inv_nil _ _) Hb) as (more1 & Hm1 & Hi1).
    apply round_body_decreases in Hb. cbn [rd_rest] in *.
    destruct (round_run_inv group_id _ _ _ Hi1 Hrun) as (more2 & Hm2 & Hi2 & Hend).
    exists (more1 ++ more2), s. split; [done|]. split; [done|]. split; [done|].
    split; [by rewrite Hm1, Hm2, app_assoc|]. split; [|split; [done|split; [|done]]].
    + intros H. apply app_nil in H as [-> _]. cbn in Hm1. rewrite Hm1 in Hb. lia.
    + apply list_find_None in Hf. apply Forall_forall. intros c Hin.
      rewrite Forall_forall in Hf. destruct (has_result _ _) eqn:E; [done|].
      exfalso. apply (Hf c); [|done]. by rewrite sort_calls_permutation.
  - exfalso. revert Hb Hrun. unfold round_body. cbn [rd_rest]. rewrite Em.
    rewrite bool_decide_eq_true_2, bool_decide_eq_false_2 by done. cbn [negb orb rd_replay].
    destruct (round_results _ _ _) as [[]|]; intros [= <-]; done.
Qed.

Lemma project_body_decreases : decreases project_body (λ s, length (snd s)).
Proof.
  intros [projected messages] s'. unfold project_body. destruct messages as [|m messages]; [done|].
  destruct (project_tool_round _) as [[[group next]|]|] eqn:E; try done; intros [= <-]; cbn [snd].
  - apply project_tool_round_spec in E as (m' & ms & g & t & th & rp & cs & taken & s & _ & _ & _ & Ht & Hne & _).
    rewrite Ht, length_app. destruct taken; [done|]. cbn. lia.
  - cbn. lia.
Qed.

(** server/src/model/projection.rs:32-45, [project_messages]. *)
Definition project_messages (messages : list CanonicalMessage) : res (list ProjectedMessage) :=
  run project_body project_body_decreases ([], messages).

(** [m] is not the beginning of a tool round. *)
Definition starts_round (m : CanonicalMessage) : bool :=
  match content m with
  | CAssistant _ _ (Some _) _ (_ :: _) => true
  | _ => false
  end.

Lemma project_tool_round_none m messages :
  project_tool_round (m :: messages) = Ok None → starts_round m = false.
Proof.
  unfold project_tool_round, starts_round.
  destruct (content m) as [|text thinking [group_id|] replay [|c calls]|]; try done.
  rewrite bool_decide_eq_false_2 by done. destruct (run _ _ _); [|done]. cbn.
  by destruct (list_find _ _) as [[]|].
Qed.

(** What a provider accepts of a round: an assistant message with its calls in
    order of their indices, then the results, each of a call of that message, one
    for every call and none twice. *)
Definition round_ok (group : list ProjectedMessage) : Prop :=
  ∃ id text thinking replay calls results,
    group = MkProjected id RAssistant (PCAssistant text thinking replay calls)
            :: ((λ r, MkProjected (fst r) RTool (PCToolResult (snd r))) <$> results) ∧
    StronglySorted (λ c d, c_index c ≤ c_index d) calls ∧
    NoDup ((λ r, r_call_id (snd r)) <$> results) ∧
    (∀ cid, cid ∈ c_call_id <$> calls ↔ cid ∈ (λ r, r_call_id (snd r)) <$> results).

(** A message outside the rounds: no call waits for a result, and no result for a call. *)
Definition lone (m : ProjectedMessage) : Prop :=
  match p_content m with
  | PCParts _ => True
  | PCAssistant _ _ _ calls => calls = []
  | PCToolResult _ => False
  end.
Inductive paired : list ProjectedMessage → Prop :=
  | paired_nil : paired []
  | paired_lone m history : lone m → paired history → paired (m :: history)
  | paired_round group history : round_ok group → paired history → paired (group ++ history).

(** The round [group_id] of a history: its halves and their results, as far as they go on, and what
    is sent for them. *)
Record merged (group_id : str) (taken rest : list CanonicalMessage) (group : list ProjectedMessage) : Prop := {
  mg_first : half_of group_id <$> head taken = Some true;
  mg_taken : Forall (in_round group_id) taken;
  mg_end m : head rest = Some m → half_of group_id m = false ∧ ¬ answers (concat (calls_of <$> taken)) m;
  mg_round : round_ok group;
  mg_id : p_message_id <$> head group = message_id <$> head taken;
  mg_text : concat (p_text_of <$> group) = concat (text_of <$> taken);
  mg_thinking : concat (p_thinking_of <$> group) = concat (thinking_of <$> taken);
  mg_replay : p_replay_of <$> head group = Some (head (omap replay_of taken));
  mg_calls : concat (p_calls_of <$> group) ≡ₚ normalized_tool_call <$> concat (calls_of <$> taken);
  mg_results : concat (p_results_of <$> group) =
    (λ r, (fst r, normalized_tool_result (snd r))) <$> concat (results_of <$> taken)
}.
(** The projection as a relation: messages that start no round are projected one by
    one, and a round is projected as a whole. *)
Inductive projects : list CanonicalMessage → list ProjectedMessage → Prop :=
  | projects_nil : projects [] []
  | projects_one m messages projected : starts_round m = false → projects messages projected →
      projects (m :: messages) (project_message m :: projected)
  | projects_round taken messages group group_id projected : merged group_id taken messages group →
      projects messages projected → projects (taken ++ messages) (group ++ projected).

Lemma group_texts (results : list (str * ToolResultContent)) :
  let tail := (λ r, MkProjected (fst r) RTool (PCToolResult (normalized_tool_result (snd r)))) <$> results in
  concat (p_text_of <$> tail) = [] ∧ concat (p_thinking_of <$> tail) = [] ∧
  concat (p_calls_of <$> tail) = [] ∧
  concat (p_results_of <$> tail) = (λ r, (fst r, normalized_tool_result (snd r))) <$> results.
Proof.
  induction results as [|r results (H1 & H2 & H3 & H4)]; [done|]. cbn in *.
  by rewrite H1, H2, H3, H4.
Qed.

Lemma group_all id t th rp cs (results : list (str * ToolResultContent)) :
  let group := MkProjected id RAssistant (PCAssistant t th rp cs)
    :: ((λ r, MkProjected (fst r) RTool (PCToolResult (normalized_tool_result (snd r)))) <$> results) in
  concat (p_text_of <$> group) = t ∧ concat (p_thinking_of <$> group) = th ∧
  concat (p_calls_of <$> group) = cs ∧
  concat (p_results_of <$> group) = (λ r, (fst r, normalized_tool_result (snd r))) <$> results.
Proof.
  destruct (group_texts results) as (H1 & H2 & H3 & H4). cbn in *.
  by rewrite H1, H2, H3, H4, !app_nil_r.
Qed.

Lemma round_projects messages group rest projected :
  project_tool_round messages = Ok (Some (group, rest)) →
  projects rest projected → projects messages (group ++ projected).
Proof.
  intros (m & ms & gid & t & th & rp & cs & taken & s & Hms & Em & Hcs & -> & Hne & (Hi & -> & Hend) & Hans & ->)
    %project_tool_round_spec Hp.
  destruct Hi as [I1 I2 I3 I4 I5 I6 I7 I8 I9].
  destruct (group_all (message_id m) (rd_text s) (rd_thinking s) (rd_replay s)
    (sort_calls (rd_calls s)) (rd_results s)) as (G1 & G2 & G3 & G4).
  assert (head taken = Some m) as Hhead by (destruct taken; [done|]; by injection Hms as -> _).
  apply (projects_round _ _ _ gid); [split|done]; rewrite ?G1, ?G2, ?G3, ?G4, ?Hhead.
  - cbn. unfold half_of. rewrite Em. destruct cs; [done|]. by rewrite bool_decide_eq_true_2.
  - done.
  - intros x Hx. split; [by apply Hend|]. intros (r & Hr & Hin). apply (I9 x Hne Hx). exists r. split; [done|].
    rewrite I3, <- list_fmap_compose. exact Hin.
  - exists (message_id m), (rd_text s), (rd_thinking s), (rd_replay s), (sort_calls (rd_calls s)),
      ((λ r, (fst r, normalized_tool_result (snd r))) <$> rd_results s).
    split; [by rewrite <- list_fmap_compose|]. split; [apply sort_calls_sorted|].
    rewrite <- list_fmap_compose. split; [exact I5|]. intros cid. rewrite sort_calls_permutation.
    split.
    + intros (c & -> & Hc)%list_elem_of_fmap. rewrite Forall_forall in Hans.
      apply Hans in Hc. unfold has_result in Hc. by apply bool_decide_eq_true in Hc.
    + intros (r & -> & Hr)%list_elem_of_fmap. rewrite Forall_forall in I6. apply (I6 r Hr).
  - done.
  - done.
  - done.
  - cbn. by rewrite I8.
  - by rewrite sort_calls_permutation, I3.
  - by rewrite I4.
Qed.

Lemma projects_of messages projected :
  project_messages messages = Ok projected → projects messages projected.
Proof.
  unfold project_messages.
  pose proof (run_invariant project_body _ project_body_decreases
    (λ s, ∀ tail, projects (snd s) tail → projects messages (fst s ++ tail))
    (λ _ r, match r with Ok ps => projects messages ps | Err _ => True end)) as H.
  intros Hr. specialize (λ H1 H2, H H1 H2 ([], messages)). rewrite Hr in H.
  apply H; [| |done]; clear H Hr.
  - intros [ps rest] r Hi. cbn [project_body]. destruct rest as [|m rest].
    + intros [= <-]. specialize (Hi [] projects_nil). by rewrite app_nil_r in Hi.
    + destruct (project_tool_round _) as [[[g n]|]|]; try done. by intros [= <-].
  - intros [ps rest] s' Hi. cbn [project_body]. destruct rest as [|m rest]; [done|].
    destruct (project_tool_round _) as [[[g n]|]|] eqn:E; try done; intros [= <-];
      (split; [|done]); intros tail Ht; cbn [fst snd] in *; rewrite <- app_assoc; apply Hi.
    + eapply round_projects; done.
    + constructor; [|done]. by eapply project_tool_round_none.
Qed.


(** the projection drops and invents nothing: the text, the thinking, the user
    content and the tool results come out in the order they were written, and the
    calls up to their order inside a round; only names are normalised. *)
Theorem project_messages_lossless messages projected :
  project_messages messages = Ok projected →
  concat (p_text_of <$> projected) = concat (text_of <$> messages) ∧
  concat (p_thinking_of <$> projected) = concat (thinking_of <$> messages) ∧
  concat (p_parts_of <$> projected) = concat (parts_of <$> messages) ∧
  concat (p_calls_of <$> projected) ≡ₚ normalized_tool_call <$> concat (calls_of <$> messages) ∧
  concat (p_results_of <$> projected) =
    (λ r, (fst r, normalized_tool_result (snd r))) <$> concat (results_of <$> messages).
Proof.
  intros Hp%projects_of. induction Hp as [|m ms ps _ _ (H1 & H2 & H3 & H4 & H5)
    |taken ms group gid ps [_ Hin _ Hok _ T1 T2 _ T3 T4] _ (H1 & H2 & H3 & H4 & H5)]; [done|..].
  - rewrite !fmap_cons. cbn [concat]. rewrite H1, H2, H3, H4, H5, !fmap_app.
    unfold project_message, p_text_of, text_of, p_thinking_of, thinking_of, p_parts_of, parts_of,
      p_calls_of, calls_of, p_results_of, results_of. cbn [p_content p_message_id].
    by destruct (content m).
  - rewrite !fmap_app, !concat_app, !fmap_app. rewrite T1, T2, T3, T4, H1, H2, H3, H4, H5.
    split; [done|]. split; [done|]. split; [|done]. f_equal.
    trans (@nil (str * list ContentPart)); [|symmetry].
    + destruct Hok as (id & t & th & rp & cs & rs & -> & _). cbn.
      clear. induction rs; [done|]. by cbn.
    + clear -Hin. induction Hin as [|m taken Hm _ IH]; [done|]. rewrite fmap_cons. cbn [concat].
      rewrite IH, app_nil_r. unfold in_round, parts_of in *. by destruct (content m).
Qed.
End Projection.

(** A round stored in two halves, between two user messages. *)
Definition sample_history : list CanonicalMessage :=
  let half i id := CAssistant (lit "t") [] (Some (lit "r")) None
                     [MkCall i (lit id) (lit "Read file") JNull] in
  let result id := CToolResult (MkResult (lit id) (lit "Read file") (lit "ok") false None []) in
  [text_message (lit "u1") RUser OUser (lit "hi");
   MkMessage (lit "a1") RAssistant OAssistant (half 1 "c1") None;
   MkMessage (lit "t1") RTool OTool (result "c1") None;
   MkMessage (lit "a2") RAssistant OAssistant (half 0 "c0") None;
   MkMessage (lit "t2") RTool OTool (result "c0") None;
   text_message (lit "u2") RUser OUser (lit "go")].

Definition sample_projection : list ProjectedMessage :=
  match project_messages sample_history with Ok ps => ps | Err _ => [] end.

Example sample_projection_shape :
  (λ m, (p_role m, c_call_id <$> p_calls_of m, p_message_id m)) <$> sample_projection =
  [(RUser, [], lit "u1"); (RAssistant, [lit "c0"; lit "c1"], lit "a1"); (RTool, [], lit "t1");
   (RTool, [], lit "t2"); (RUser, [], lit "u2")].
Proof. vm_compute. reflexivity. Qed.


Lemma project_messages_lossless_witness :
  concat (p_text_of <$> sample_projection) = concat (text_of <$> sample_history).
Proof.
  apply (project_messages_lossless sample_history sample_projection). vm_compute. reflexivity.
Defined.
