(* ===== verification/Configuration.v ===== *)
(** * Configuration: the models a user configured

    server/src/model/configuration.rs.  [normalize_model_input] is what the form of a model
    has to satisfy, [model_fingerprint] tells equal configurations apart, and [configure]
    fills what a request left open from the configuration of its model.

    The parser of URLs (the [url] crate) and the digest are parameters.

    Theorems: [normalize_idempotent] (a normalized form is a fixed point, so the
    fingerprint does not depend on how the form was typed) and [configure_keeps_request]. *)

From stdpp Require Import prelude strings list.
From S2P Require Import Prelude Errors External Message.
Local Open Scope Z_scope.

(** A parsed URL: what the source reads of it. *)
Record Url : Type := MkUrl {
  u_scheme : str;
  u_host : option str;
  u_path : str;
  u_fragment : option str
}.
(** The [url] crate: parsing, and printing a URL whose path was replaced. *)
Class UrlParser : Type := {
  parse_url : str → result str Url;
  with_path : str → str → str
}.
(** SHA-256 in lower-case hexadecimal, of the first bytes. *)
Class Digest : Type := { short_digest : str → str }.

(** server/src/model/configuration.rs:10-11, [OPENAI_RESPONSES_ENDPOINT], [OPENAI_CHAT_ENDPOINT]. *)
Definition OPENAI_RESPONSES_ENDPOINT : str := lit "/v1/responses".
Definition OPENAI_CHAT_ENDPOINT : str := lit "/v1/chat/completions".

(** server/src/model/configuration.rs:14-24, [ProviderType]. *)
Inductive ProviderType : Type := OpenAiChat | OpenAiResponses | ProviderAnthropic | Plugin.
Global Instance ProviderType_eq_dec : EqDecision ProviderType.
Proof. solve_decision. Defined.

(** server/src/model/configuration.rs:27-34, [ProviderType::as_str]. *)
Definition provider_name (p : ProviderType) : str :=
  match p with
  | OpenAiChat => lit "openai-chat"
  | OpenAiResponses => lit "openai-responses"
  | ProviderAnthropic => lit "anthropic"
  | Plugin => lit "plugin"
  end.
(** server/src/model/configuration.rs:46-54, [ProviderType::from_str]. *)
Definition provider_of_name (value : str) : res ProviderType :=
  if decide (value = lit "openai-chat") then Ok OpenAiChat
  else if decide (value = lit "openai-responses") then Ok OpenAiResponses
  else if decide (value = lit "anthropic") then Ok ProviderAnthropic
  else if decide (value = lit "plugin") then Ok Plugin
  else Err (Config (lit "unsupported provider type: " ++ value)).

(** server/src/model/configuration.rs:59-62, [ModelType]. *)
Inductive ModelType : Type := OpenAi | Anthropic.
Global Instance ModelType_eq_dec : EqDecision ModelType.
Proof. solve_decision. Defined.

(** server/src/model/configuration.rs:86-123, [ModelConfigInput]. *)
Record ModelConfigInput : Type := MkInput {
  in_sort_order : Z;
  in_display_name : str;
  in_group_name : option str;
  in_model_type : ModelType;
  in_base_url : str;
  in_use_full_url : bool;
  in_api_key : str;
  in_tooltip_data : str;
  in_model_id : str;
  in_reasoning_effort : option str;
  in_openai_endpoint : str;
  in_openai_extra_params_enabled : bool;
  in_openai_extra_params : json;
  in_custom_headers_enabled : bool;
  in_custom_headers : json;
  in_anthropic_extra_params_enabled : bool;
  in_anthropic_extra_params : json;
  in_context_window_tokens : option Z;
  in_max_completion_tokens : option Z;
  in_anthropic_max_tokens : option Z;
  in_anthropic_thinking_effort : option str;
  in_thinking_budget_tokens : option Z
}.

(** server/src/model/configuration.rs:155-186, [ModelConfig]: a stored configuration is its
    identity and its input. *)
Record ModelConfig : Type := MkConfig {
  model_hash : str;
  config : ModelConfigInput;
  created_at_ms : Z;
  updated_at_ms : Z
}.

(** server/src/model/configuration.rs:320-326, [known_anthropic_max_output_tokens]: the limits. *)
Definition ANTHROPIC_LIMITS : list (str * Z) :=
  [(lit "claude-sonnet-4", 64000); (lit "claude-opus-4", 32000); (lit "claude-3-7-sonnet", 64000);
   (lit "claude-3-5-sonnet", 8192); (lit "claude-3-5-haiku", 8192)].
(** server/src/model/configuration.rs:319-332, [known_anthropic_max_output_tokens]. *)
Definition known_anthropic_max_output_tokens (model_id : str) : option Z :=
  let id := to_ascii_lower <$> trim model_id in
  snd <$> head (filter (λ p, starts_with p.1 id = true) ANTHROPIC_LIMITS).

(** server/src/model/configuration.rs:236-244, [ModelConfig::provider_type]. *)
Definition provider_type (c : ModelConfig) : ProviderType :=
  match in_model_type (config c) with
  | Anthropic => ProviderAnthropic
  | OpenAi => if decide (in_openai_endpoint (config c) = OPENAI_RESPONSES_ENDPOINT) then OpenAiResponses
              else OpenAiChat
  end.

(** server/src/model/configuration.rs:255-266, [ModelConfig::max_output_tokens]. *)
Definition config_max_output_tokens (c : ModelConfig) : option Z :=
  match in_model_type (config c) with
  | OpenAi => in_max_completion_tokens (config c)
  | Anthropic =>
      match in_anthropic_max_tokens (config c), in_max_completion_tokens (config c) with
      | Some n, _ | None, Some n => Some n
      | None, None => known_anthropic_max_output_tokens (in_model_id (config c))
      end
  end.

(** server/src/model/configuration.rs:268-276, [ModelConfig::extra_params]. *)
Definition config_extra_params (c : ModelConfig) : json :=
  match in_model_type (config c) with
  | OpenAi => if in_openai_extra_params_enabled (config c) then in_openai_extra_params (config c)
              else JObject []
  | Anthropic => if in_anthropic_extra_params_enabled (config c) then in_anthropic_extra_params (config c)
                 else JObject []
  end.

(** [x.is_none() then x = y]. *)
Definition or_else {A} (x y : option A) : option A := match x with Some _ => x | None => y end.

(** server/src/model/configuration.rs:278-306, [ModelConfig::configure]. *)
Definition configure (c : ModelConfig) (m : ModelSpec) : ModelSpec :=
  let r := reasoning m in
  let effort :=
    match rs_enabled r, rs_effort r with
    | Some false, e => e
    | _, Some e => Some e
    | _, None =>
        match in_model_type (config c) with
        | OpenAi => in_reasoning_effort (config c)
        | Anthropic => in_anthropic_thinking_effort (config c)
        end
    end in
  MkModel (model_id m) (Some (in_display_name (config c)))
    (MkReasoning (or_else (rs_enabled r) (Some (bool_decide (effort ≠ None)))) effort
       (or_else (rs_thinking_budget_tokens r) (in_thinking_budget_tokens (config c))))
    (latency m)
    (or_else (max_output_tokens m) (config_max_output_tokens c))
    (or_else (context_window_tokens m) (in_context_window_tokens (config c)))
    (supports_image_generation m) (extra_params m) (stop_sequences m).

(** server/src/model/configuration.rs:622-634, [ModelSpec::new]. *)
Definition new_model (id : str) : ModelSpec :=
  MkModel id None (MkReasoning None None None) LStandard None None false (JObject []) [].

(** server/src/model/configuration.rs:587-589, [ReasoningSpec::is_enabled]. *)
Definition reasoning_enabled (r : ReasoningSpec) : bool := bool_decide (rs_enabled r = Some true).

(** server/src/model/configuration.rs:493-498, [is_sensitive_header]. *)
Definition is_sensitive_header (name : str) : bool :=
  bool_decide ((to_ascii_lower <$> name) ∈
    [lit "authorization"; lit "proxy-authorization"; lit "x-api-key"; lit "api-key"; lit "cookie"; lit "set-cookie"]).

(** server/src/model/configuration.rs:500-508, [normalize_openai_endpoint]. *)
Definition normalize_openai_endpoint (value : str) : res str :=
  let value := trim value in
  if decide (value = [] ∨ value = OPENAI_RESPONSES_ENDPOINT) then Ok OPENAI_RESPONSES_ENDPOINT
  else if decide (value = OPENAI_CHAT_ENDPOINT) then Ok OPENAI_CHAT_ENDPOINT
  else Err (Config (lit "unsupported OpenAI endpoint: " ++ value)).

(** server/src/model/configuration.rs:510-522, [normalize_effort]. *)
Definition normalize_effort (value : option str) (allow_empty : bool) : res (option str) :=
  let value := to_ascii_lower <$> trim (default [] value) in
  if bool_decide (value = []) && allow_empty then Ok None
  else if decide (value ∈ [lit "low"; lit "medium"; lit "high"; lit "xhigh"; lit "max"]) then Ok (Some value)
  else Err (Config (lit "unsupported reasoning effort: " ++ value)).

(** server/src/model/configuration.rs:524-529, [positive]. *)
Definition positive (value : option Z) (label : string) : res (option Z) :=
  if decide (value = Some 0) then Err (Config (lit label ++ lit " must be greater than zero")) else Ok value.

(** server/src/model/configuration.rs:531-538, [required]. *)
Definition required (value : str) (label : string) : res str :=
  let value := trim value in
  if decide (value = []) then Err (Config (lit label ++ lit " cannot be empty")) else Ok value.

(** server/src/model/configuration.rs:540-546, [validate_object]. *)
Definition validate_object (value : json) (label : string) : res () :=
  if is_object value then Ok () else Err (Config (lit label ++ lit " must be a JSON object")).

(** server/src/model/configuration.rs:548-558, [validate_headers]. *)
Definition validate_headers (value : json) : res () :=
  _ ← validate_object value "custom headers";
  if existsb (λ p, bool_decide (trim p.1 = []) || bool_decide (as_str p.2 = None)) (default [] (as_object value)) then
    Err (Config (lit "custom headers must have non-empty names and string values"))
  else Ok ().

Section Urls.
Context {U : UrlParser} {D : Digest}.

(** server/src/model/configuration.rs:437-452, [normalize_request_url]. *)
Definition normalize_request_url (value : str) : res str :=
  let value := trim value in
  match parse_url value with
  | Err error => Err (Config (lit "invalid model request URL: " ++ error))
  | Ok url =>
      if negb (bool_decide (u_scheme url ∈ [lit "http"; lit "https"])) || bool_decide (u_host url = None) then
        Err (Config (lit "model request URL must be an HTTP(S) URL with a host"))
      else if bool_decide (u_fragment url ≠ None) then
        Err (Config (lit "model request URL cannot contain a fragment"))
      else Ok value
  end.

(** [rsplit('/').next()]: what follows the last slash. *)
Definition last_segment (path : str) : str := default [] (last (split_on 47 path)).
(** server/src/model/configuration.rs:484-491, [has_trailing_version]. *)
Definition has_trailing_version (path : str) : bool :=
  match last_segment path with
  | 118 :: digits => bool_decide (digits ≠ []) && forallb is_ascii_digit digits
  | _ => false
  end.
(** [trim_end_matches('/')]. *)
Definition trim_end_slashes (path : str) : str :=
  reverse ((fix go (s : str) := match s with 47 :: s => go s | _ => s end) (reverse path)).

(** server/src/model/configuration.rs:471-482, [append_standard_endpoint]. *)
Definition append_standard_endpoint (base_url endpoint : str) : res str :=
  match parse_url base_url with
  | Err error => Err (Config (lit "invalid model server URL: " ++ error))
  | Ok url =>
      let base_path := trim_end_slashes (u_path url) in
      let endpoint := if has_trailing_version base_path && starts_with (lit "/v1") endpoint then drop 3 endpoint
                      else endpoint in
      normalize_request_url (with_path base_url (base_path ++ endpoint))
  end.

(** server/src/model/configuration.rs:454-469, [resolve_request_url]. *)
Definition resolve_request_url (model_type : ModelType) (base_url openai_endpoint : str) (use_full_url : bool)
    : res str :=
  base_url ← normalize_request_url base_url;
  endpoint ← match model_type with
             | OpenAi => normalize_openai_endpoint openai_endpoint
             | Anthropic => Ok (lit "/v1/messages")
             end;
  if use_full_url then Ok base_url else append_standard_endpoint base_url endpoint.

(** server/src/model/configuration.rs:246-253, [ModelConfig::request_url]. *)
Definition request_url (c : ModelConfig) : res str :=
  resolve_request_url (in_model_type (config c)) (in_base_url (config c)) (in_openai_endpoint (config c))
    (in_use_full_url (config c)).

(** server/src/model/configuration.rs:336-341, the name of a group. *)
Definition normalize_group (name : option str) : option str :=
  n ← trim <$> name; if decide (n = []) then None else Some n.

Definition for_type {A} (wanted : ModelType) (t : ModelType) (x other : A) : A :=
  if decide (t = wanted) then x else other.

(** server/src/model/configuration.rs:334-408, [normalize_model_input]. *)
Definition normalize_model_input (i : ModelConfigInput) : res ModelConfigInput :=
  let t := in_model_type i in
  display_name ← required (in_display_name i) "model display name";
  let group_name := normalize_group (in_group_name i) in
  base_url ← normalize_request_url (in_base_url i);
  api_key ← required (in_api_key i) "model API key";
  tooltip_data ← required (in_tooltip_data i) "model tooltip";
  id ← required (in_model_id i) "model id";
  reasoning_effort ← normalize_effort (in_reasoning_effort i) true;
  anthropic_thinking_effort ←
    match t with
    | Anthropic => normalize_effort (or_else (in_anthropic_thinking_effort i) (Some (lit "xhigh"))) false
    | OpenAi => Ok None
    end;
  openai_endpoint ← match t with
                    | OpenAi => normalize_openai_endpoint (in_openai_endpoint i)
                    | Anthropic => Ok []
                    end;
  _ ← validate_object (in_openai_extra_params i) "OpenAI extra params";
  _ ← validate_object (in_anthropic_extra_params i) "Anthropic extra params";
  _ ← validate_headers (in_custom_headers i);
  context_window ← positive (in_context_window_tokens i) "context window";
  max_completion ← positive (in_max_completion_tokens i) "max completion tokens";
  anthropic_max ← positive (in_anthropic_max_tokens i) "Anthropic max tokens";
  thinking_budget ← positive (in_thinking_budget_tokens i) "thinking budget";
  let n := MkInput (Z.max 0 (in_sort_order i)) display_name group_name t base_url (in_use_full_url i) api_key
    tooltip_data id (for_type OpenAi t reasoning_effort None) openai_endpoint
    (for_type OpenAi t (in_openai_extra_params_enabled i) false)
    (for_type OpenAi t (in_openai_extra_params i) (JObject []))
    (in_custom_headers_enabled i) (in_custom_headers i)
    (for_type Anthropic t (in_anthropic_extra_params_enabled i) false)
    (for_type Anthropic t (in_anthropic_extra_params i) (JObject []))
    context_window max_completion anthropic_max anthropic_thinking_effort thinking_budget in
  _ ← resolve_request_url t base_url openai_endpoint (in_use_full_url i);
  Ok n.

(** server/src/model/configuration.rs:424-432, [model_fingerprint]: the parts. *)
Definition fingerprint_parts (n : ModelConfigInput) (url : str) : list str :=
  [url; in_model_id n; in_api_key n; in_display_name n]
  ++ match in_model_type n with OpenAi => [in_openai_endpoint n] | Anthropic => [] end.
Definition join_lines (l : list str) : str :=
  match l with [] => [] | s :: l => s ++ ((λ t, 10 :: t) <$> l) ≫= id end.
(** server/src/model/configuration.rs:416-435, [model_fingerprint]. *)
Definition model_fingerprint (i : ModelConfigInput) : res str :=
  n ← normalize_model_input i;
  url ← resolve_request_url (in_model_type n) (in_base_url n) (in_openai_endpoint n) (in_use_full_url n);
  Ok (short_digest (join_lines (fingerprint_parts n url))).
End Urls.

(** ** Normal forms *)

Lemma trim_start_idemp s : trim_start (trim_start s) = trim_start s.
Proof.
  induction s as [|c s IH]; [done|]. cbn. destruct (is_whitespace c) eqn:E; [done|]. cbn. by rewrite E.
Qed.
Lemma trim_start_suffix s : ∃ w, s = w ++ trim_start s ∧ Forall (λ c, is_whitespace c = true) w.
Proof.
  induction s as [|c s (w & E & Hw)]; [by exists []|]. cbn. destruct (is_whitespace c) eqn:Ec.
  - exists (c :: w). split; [cbn; by rewrite <- E|by constructor].
  - by exists [].
Qed.
Lemma trim_start_prefix s t : trim_start (s ++ t) = s ++ t → s ≠ [] → trim_start s = s.
Proof.
  destruct s as [|c s]; [done|]. cbn. destruct (is_whitespace c); [|done]. intros E _.
  pose proof (trim_start_suffix (s ++ t)) as (w & E' & _). rewrite E in E'.
  apply (f_equal length) in E'. rewrite !length_app in E'. cbn in E'. rewrite length_app in E'. lia.
Qed.
Lemma trim_idemp s : trim (trim s) = trim s.
Proof.
  unfold trim. set (a := trim_start s). destruct (trim_start_suffix (reverse a)) as (w & E & _).
  set (b := trim_start (reverse a)) in *.
  assert (trim_start (reverse b) = reverse b) as ->.
  { destruct (decide (reverse b = [])) as [->|Hne]; [done|].
    apply (trim_start_prefix _ (reverse w)); [|done]. rewrite <- reverse_app, <- E, reverse_involutive.
    apply trim_start_idemp. }
  rewrite reverse_involutive. unfold b. by rewrite trim_start_idemp.
Qed.

Lemma required_ok v l n : required v l = Ok n → required n l = Ok n.
Proof.
  unfold required. case_decide as E; [done|]. intros [= <-]. rewrite trim_idemp. by rewrite decide_False.
Qed.
Lemma normalize_group_idemp g : normalize_group (normalize_group g) = normalize_group g.
Proof.
  destruct g as [g|]; [|done]. unfold normalize_group. cbn. case_decide as E; [done|]. cbn.
  rewrite trim_idemp. by rewrite decide_False.
Qed.
Lemma normalize_effort_ok v e b : normalize_effort v b = Ok (Some e) → ∀ b', normalize_effort (Some e) b' = Ok (Some e).
Proof.
  unfold normalize_effort. destruct (_ && b); [done|]. case_decide as Hin; [|done]. intros [= E] b'.
  rewrite E in Hin. clear E. repeat (apply elem_of_cons in Hin as [->|Hin]; [by destruct b'|]).
  by apply elem_of_nil in Hin.
Qed.
Lemma normalize_effort_none v b : normalize_effort v b = Ok None → b = true.
Proof. unfold normalize_effort. destruct b; [done|]. rewrite andb_false_r. case_decide; by intros. Qed.
Lemma normalize_endpoint_ok v e : normalize_openai_endpoint v = Ok e → normalize_openai_endpoint e = Ok e.
Proof.
  unfold normalize_openai_endpoint at 1. destruct (decide _); [by intros [= <-]|].
  destruct (decide _); by intros [= <-].
Qed.
Lemma positive_ok v l n : positive v l = Ok n → positive n l = Ok n.
Proof. unfold positive. case_decide; [done|]. intros [= <-]. by rewrite decide_False. Qed.
Lemma for_type_same {A} t (x y : A) : for_type t t x y = x.
Proof. unfold for_type. by rewrite decide_True. Qed.
Lemma for_type_other {A} t t' (x y : A) : t' ≠ t → for_type t t' x y = y.
Proof. intros. unfold for_type. by rewrite decide_False. Qed.
Lemma validate_empty l : validate_object (JObject []) l = Ok ().
Proof. done. Qed.

Section Normal.
Context {U : UrlParser} {D : Digest}.

Lemma normalize_url_ok v b : normalize_request_url v = Ok b → normalize_request_url b = Ok b.
Proof.
  unfold normalize_request_url at 1. intros H.
  assert (b = trim v) as ->.
  { destruct (parse_url (trim v)); [|done]. destruct (_ || _); [done|].
    destruct (bool_decide (u_fragment _ ≠ None)); [done|]. by injection H as <-. }
  unfold normalize_request_url. by rewrite trim_idemp.
Qed.

Lemma normalize_fixed i n : normalize_model_input i = Ok n → normalize_model_input n = Ok n.
Proof.
  unfold normalize_model_input.
  intros H.
  apply bind_ok in H as (dn & H1 & H). apply bind_ok in H as (url & H2 & H).
  apply bind_ok in H as (key & H3 & H). apply bind_ok in H as (tt & H4 & H).
  apply bind_ok in H as (id & H5 & H). apply bind_ok in H as (re & H6 & H).
  apply bind_ok in H as (te & H7 & H). apply bind_ok in H as (ep & H8 & H).
  apply bind_ok in H as ([] & H9 & H). apply bind_ok in H as ([] & H10 & H).
  apply bind_ok in H as ([] & H11 & H). apply bind_ok in H as (cw & H12 & H).
  apply bind_ok in H as (mc & H13 & H). apply bind_ok in H as (am & H14 & H).
  apply bind_ok in H as (tb & H15 & H). apply bind_ok in H as (resolved & H16 & H).
  injection H as <-. cbn [in_model_type in_display_name in_group_name in_base_url in_api_key in_tooltip_data
    in_model_id in_reasoning_effort in_anthropic_thinking_effort in_openai_endpoint in_openai_extra_params
    in_anthropic_extra_params in_custom_headers in_context_window_tokens in_max_completion_tokens
    in_anthropic_max_tokens in_thinking_budget_tokens in_sort_order in_use_full_url
    in_openai_extra_params_enabled in_custom_headers_enabled in_anthropic_extra_params_enabled].
  rewrite (required_ok _ _ _ H1), (normalize_url_ok _ _ H2), (required_ok _ _ _ H3), (required_ok _ _ _ H4),
    (required_ok _ _ _ H5), (positive_ok _ _ _ H12), (positive_ok _ _ _ H13), (positive_ok _ _ _ H14),
    (positive_ok _ _ _ H15), normalize_group_idemp, H11.
  replace (Z.max 0 (Z.max 0 (in_sort_order i))) with (Z.max 0 (in_sort_order i)) by lia.
  destruct (in_model_type i); rewrite ?for_type_same, ?for_type_other by done.
  - rewrite (normalize_endpoint_ok _ _ H8), H9, validate_empty. injection H7 as <-.
    destruct re as [re|]; [rewrite (normalize_effort_ok _ _ _ H6)|]; cbn; by rewrite H16.
  - rewrite H10, validate_empty. injection H8 as <-.
    destruct te as [te|]; [|by apply normalize_effort_none in H7].
    change (or_else (Some te) (Some (lit "xhigh"))) with (Some te). rewrite (normalize_effort_ok _ _ _ H7).
    cbn. by rewrite H16.
Qed.

(** Normalizing the form of a model is idempotent: what it accepts is a fixed point, with
    an address that resolves, and the fingerprint of a form is the fingerprint of its
    normal form, so spaces, case and defaults do not make two models of one. *)
Theorem normalize_idempotent i n : normalize_model_input i = Ok n →
  normalize_model_input n = Ok n ∧ model_fingerprint n = model_fingerprint i ∧
  ∃ url, resolve_request_url (in_model_type n) (in_base_url n) (in_openai_endpoint n) (in_use_full_url n) = Ok url ∧
    model_fingerprint i = Ok (short_digest (join_lines (fingerprint_parts n url))).
Proof.
  intros H. pose proof (normalize_fixed i n H) as Hn. unfold model_fingerprint. rewrite H, Hn.
  split; [done|]. split; [done|]. cbn. unfold normalize_model_input in H.
  repeat (apply bind_ok in H as (? & ? & H)). injection H as <-. cbn.
  match goal with Hr : resolve_request_url _ _ _ _ = Ok ?u |- _ => exists u; by rewrite Hr end.
Qed.
End Normal.

(** The configuration of a model fills what a request left open and nothing else: every
    limit, effort and switch the request chose is the one that is sent, a request that
    turned reasoning off keeps it off without an effort being added, one that said nothing
    reasons exactly when an effort is known, and configuring twice is configuring once. *)
Theorem configure_keeps_request c m :
  let m' := configure c m in
  model_id m' = model_id m ∧
  (∀ n, max_output_tokens m = Some n → max_output_tokens m' = Some n) ∧
  (∀ n, context_window_tokens m = Some n → context_window_tokens m' = Some n) ∧
  (∀ n, rs_thinking_budget_tokens (reasoning m) = Some n → rs_thinking_budget_tokens (reasoning m') = Some n) ∧
  (∀ e, rs_effort (reasoning m) = Some e → rs_effort (reasoning m') = Some e) ∧
  (∀ b, rs_enabled (reasoning m) = Some b → rs_enabled (reasoning m') = Some b) ∧
  (rs_enabled (reasoning m) = Some false →
     rs_effort (reasoning m') = rs_effort (reasoning m) ∧ reasoning_enabled (reasoning m') = false) ∧
  (rs_enabled (reasoning m) = None →
     (reasoning_enabled (reasoning m') = true ↔ rs_effort (reasoning m') ≠ None)) ∧
  configure c m' = m'.
Proof.
  destruct m as [id dn [en ef tb] lt mo cw im ex st]. unfold configure, reasoning_enabled. cbn.
  split_and!; try done; try by intros ? ->.
  - intros e ->. by destruct en as [[]|].
  - intros ->. done.
  - intros ->. cbn. rewrite bool_decide_eq_true. case_bool_decide; naive_solver.
  - set (limit := config_max_output_tokens c). set (r := in_reasoning_effort _).
    set (a := in_anthropic_thinking_effort _).
    destruct mo, cw, tb, limit, (in_context_window_tokens (config c)), (in_thinking_budget_tokens (config c)),
      en as [[]|], ef, (in_model_type (config c)), r, a; reflexivity.
Qed.

(** ** Samples *)
Module ConfigurationSamples.
(** Addresses without a path, a query or a fragment. *)
Definition urls : UrlParser := {|
  parse_url s := if starts_with (lit "https://") s then Ok (MkUrl (lit "https") (Some (drop 8 s)) [] None)
                 else Err (lit "relative URL without a base");
  with_path s path := s ++ path
|}.
Definition digest : Digest := {| short_digest s := take 8 s |}.
Definition form : ModelConfigInput :=
  MkInput (-1) (lit " Sonnet ") (Some (lit "  ")) Anthropic (lit " https://api.anthropic.com ") false (lit "key ")
    (lit "tip") (lit " claude-sonnet-4-20250514") (Some (lit " HIGH")) (lit "ignored") true (JObject []) false
    (JObject []) false (JObject []) None None None None None.
Definition normal : ModelConfigInput :=
  MkInput 0 (lit "Sonnet") None Anthropic (lit "https://api.anthropic.com") false (lit "key")
    (lit "tip") (lit "claude-sonnet-4-20250514") None [] false (JObject []) false
    (JObject []) false (JObject []) None None None (Some (lit "xhigh")) None.
Example form_normal : @normalize_model_input urls form = Ok normal.
Proof. vm_compute. reflexivity. Qed.
Example normal_limit : config_max_output_tokens (MkConfig [] normal 0 0) = Some 64000.
Proof. vm_compute. reflexivity. Qed.
Example versioned : has_trailing_version (lit "/api/v1") = true ∧ has_trailing_version (lit "/api/version") = false.
Proof. vm_compute. done. Qed.
End ConfigurationSamples.

Lemma normalize_idempotent_witness :
  @normalize_model_input ConfigurationSamples.urls ConfigurationSamples.normal = Ok ConfigurationSamples.normal ∧
  @model_fingerprint ConfigurationSamples.urls ConfigurationSamples.digest ConfigurationSamples.normal =
  @model_fingerprint ConfigurationSamples.urls ConfigurationSamples.digest ConfigurationSamples.form.
Proof.
  destruct (@normalize_idempotent ConfigurationSamples.urls ConfigurationSamples.digest
    ConfigurationSamples.form ConfigurationSamples.normal) as (H1 & H2 & _); [vm_compute; reflexivity|].
  exact (conj H1 H2).
Defined.
