(* ===== verification/Tokens.v ===== *)
(** * Tokens: what a context is estimated to cost

    server/src/model/token_count.rs: the estimator of provider-visible context, the
    image headers it reads, and the token counts of the configuration.  An index
    past the end of a slice is a panic of the source, a value here. *)

From stdpp Require Import prelude gmap strings list.
From S2P Require Import Prelude Errors External Message.
Local Open Scope Z_scope.

(** server/src/model/token_count.rs:5-5, [TOKENS_PER_MESSAGE_OVERHEAD]. *)
Definition TOKENS_PER_MESSAGE_OVERHEAD : Z := 8.
(** server/src/model/token_count.rs:6-6, [TOKENS_PER_TOOL_CALL_OVERHEAD]. *)
Definition TOKENS_PER_TOOL_CALL_OVERHEAD : Z := 6.
(** server/src/model/token_count.rs:7-7, [TOKENS_PER_IMAGE]. *)
Definition TOKENS_PER_IMAGE : Z := 1024.
(** server/src/model/token_count.rs:11-11, [ASCII_CHARS_PER_TOKEN]. *)
Definition ASCII_CHARS_PER_TOKEN : Z := 4.
(** server/src/model/token_count.rs:18-18, [CJK_CHARS_PER_TOKEN]. *)
Definition CJK_CHARS_PER_TOKEN : Z := 2.
(** server/src/model/token_count.rs:22-22, [OTHER_CHARS_PER_TOKEN]. *)
Definition OTHER_CHARS_PER_TOKEN : Z := 2.

(** [u64::div_ceil]. *)
Definition div_ceil (a b : Z) : Z := (a + b - 1) / b.

(** ** Image headers *)

Section Image.

(** An out-of-bounds index or slice. *)
Inductive panic : Type := Panic.
Abbreviation checked := (result panic).

Definition at_ (data : list Z) (i : nat) : checked Z :=
  match data !! i with Some b => Ok b | None => Err Panic end.
Definition slice (data : list Z) (a b : nat) : checked (list Z) :=
  if (a <=? b)%nat && (b <=? length data)%nat then Ok (take (b - a) (drop a data)) else Err Panic.

Definition be16 (data : list Z) (i : nat) : checked Z :=
  bytes ← slice data i (i + 2); Ok (foldl (λ n b, n * 256 + b) 0 bytes).
Definition le16 (data : list Z) (i : nat) : checked Z :=
  bytes ← slice data i (i + 2); Ok (foldr (λ b n, n * 256 + b) 0 bytes).
Definition be32 (data : list Z) (i : nat) : checked Z :=
  bytes ← slice data i (i + 4); Ok (foldl (λ n b, n * 256 + b) 0 bytes).

(** [(width > 0 && height > 0).then_some((width, height))] *)
Definition positive (width height : Z) : option (Z * Z) :=
  if (0 <? width) && (0 <? height) then Some (width, height) else None.

(** server/src/model/token_count.rs:128-136, [png_dimensions]. *)
Definition png_dimensions (data : list Z) : checked (option (Z * Z)) :=
  if (length data <? 24)%nat then Ok None
  else
    tag ← slice data 12 16;
    if negb (bool_decide (tag = lit "IHDR")) then Ok None
    else
      width ← be32 data 16;
      height ← be32 data 20;
      Ok (positive width height).

(** server/src/model/token_count.rs:138-145, [gif_dimensions]. *)
Definition gif_dimensions (data : list Z) : checked (option (Z * Z)) :=
  if (length data <? 10)%nat then Ok None
  else
    width ← le16 data 6;
    height ← le16 data 8;
    Ok (positive width height).

(** server/src/model/token_count.rs:156-170, [jpeg_dimensions]: the start-of-frame
    markers. *)
Definition is_sof (marker : Z) : bool :=
  bool_decide (marker ∈ [0xC0; 0xC1; 0xC2; 0xC3; 0xC5; 0xC6; 0xC7; 0xC9; 0xCA; 0xCB; 0xCD; 0xCE; 0xCF]).
(** server/src/model/token_count.rs:180-183, [jpeg_dimensions]: the markers without
    a payload. *)
Definition is_standalone (marker : Z) : bool :=
  bool_decide (marker = 0xD8) || bool_decide (marker = 0xD9) || bool_decide (marker = 0x01)
  || (0xD0 <=? marker) && (marker <=? 0xD7).

(** server/src/model/token_count.rs:147-193, [jpeg_dimensions]: one turn of its loop. *)
Definition jpeg_body (data : list Z) (index : nat) : flow nat (checked (option (Z * Z))) :=
  if negb (index + 9 <=? length data)%nat then Done (Ok None)
  else
    match at_ data index, at_ data (index + 1) with
    | Err e, _ | _, Err e => Done (Err e)
    | Ok b, Ok marker =>
        if negb (b =? 0xFF) then Next (index + 1)%nat
        else if is_sof marker then
          Done (height ← be16 data (index + 5);
                width ← be16 data (index + 7);
                Ok (positive width height))
        else if is_standalone marker then Next (index + 2)%nat
        else
          match be16 data (index + 2) with
          | Err e => Done (Err e)
          | Ok len => if len <? 2 then Done (Ok None) else Next (index + (2 + Z.to_nat len))%nat
          end
    end.

Lemma jpeg_body_decreases data : decreases (jpeg_body data) (λ index, (length data - index)%nat).
Proof.
  intros i i'. unfold jpeg_body. destruct (Nat.leb_spec (i + 9) (length data)); [|done]. cbn [negb].
  repeat case_match; try done; intros [= <-]; lia.
Qed.

(** server/src/model/token_count.rs:147-193, [jpeg_dimensions]. *)
Definition jpeg_dimensions (data : list Z) : checked (option (Z * Z)) :=
  run (jpeg_body data) (jpeg_body_decreases data) 2%nat.

(** server/src/model/token_count.rs:114-126, [image_dimensions]. *)
Definition image_dimensions (mime_type : str) (data : list Z) : checked (option (Z * Z)) :=
  let mime := to_ascii_lower <$> mime_type in
  if str_contains (lit "png") mime || starts_with [0x89; 80; 78; 71] data then png_dimensions data
  else if str_contains (lit "gif") mime || starts_with (lit "GIF") data then gif_dimensions data
  else if str_contains (lit "jpeg") mime || str_contains (lit "jpg") mime
          || starts_with [0xFF; 0xD8] data then jpeg_dimensions data
  else Ok None.

(** server/src/model/token_count.rs:101-112, [estimate_image_tokens]: the price of
    the size [image_dimensions] found. *)
Definition estimate_image_tokens (dimensions : option (Z * Z)) : Z :=
  match dimensions with
  | None => TOKENS_PER_IMAGE
  | Some (width, height) =>
      let pixels := sat_mul width height in
      let anthropic := Z.max (div_ceil pixels 750) 200 in
      let tiles := sat_mul (div_ceil width 512) (div_ceil height 512) in
      let openai := sat_add 85 (sat_mul 170 tiles) in
      Z.min (Z.max anthropic openai) 20000
  end.

Lemma slice_ok data a b : (a ≤ b)%nat → (b ≤ length data)%nat →
  ∃ bytes, slice data a b = Ok bytes ∧ length bytes = (b - a)%nat ∧
    (bytes_ok data → bytes_ok bytes).
Proof.
  intros Ha Hb. unfold slice. rewrite (proj2 (Nat.leb_le a b) Ha), (proj2 (Nat.leb_le _ _) Hb).
  cbn. eexists. split; [done|]. split; [rewrite length_take, length_drop; lia|].
  intros H. by apply Forall_take, Forall_drop.
Qed.

Lemma slice2 data i : (i + 2 ≤ length data)%nat →
  ∃ a b, slice data i (i + 2) = Ok [a; b] ∧ (bytes_ok data → is_byte a ∧ is_byte b).
Proof.
  intros H. destruct (slice_ok data i (i + 2)) as (bs & -> & Hl & Hb); [lia|lia|].
  destruct bs as [|a [|b [|]]]; try (cbn in Hl; lia). exists a, b. split; [done|].
  intros Hd. specialize (Hb Hd). by inversion_clear Hb as [|? ? ? Hb']; inversion_clear Hb'.
Qed.

Lemma be16_ok data i : (i + 2 ≤ length data)%nat →
  ∃ n, be16 data i = Ok n ∧ (bytes_ok data → 0 ≤ n < 2 ^ 32).
Proof.
  intros H. unfold be16. destruct (slice2 data i H) as (a & b & -> & Hb). cbn.
  eexists. split; [done|]. intros [? ?]%Hb. unfold is_byte in *. lia.
Qed.

Lemma le16_ok data i : (i + 2 ≤ length data)%nat →
  ∃ n, le16 data i = Ok n ∧ (bytes_ok data → 0 ≤ n < 2 ^ 32).
Proof.
  intros H. unfold le16. destruct (slice2 data i H) as (a & b & -> & Hb). cbn.
  eexists. split; [done|]. intros [? ?]%Hb. unfold is_byte in *. lia.
Qed.

Lemma be32_ok data i : (i + 4 ≤ length data)%nat →
  ∃ n, be32 data i = Ok n ∧ (bytes_ok data → 0 ≤ n < 2 ^ 32).
Proof.
  intros H. unfold be32. destruct (slice_ok data i (i + 4)) as (bs & -> & Hl & Hb); [lia|lia|].
  destruct bs as [|a [|b [|c [|d [|]]]]]; try (cbn in Hl; lia). cbn.
  eexists. split; [done|]. intros Hd. specialize (Hb Hd). unfold bytes_ok, is_byte in Hb.
  rewrite !Forall_cons in Hb. lia.
Qed.

Lemma positive_bound w h d : positive w h = Some d → 0 < fst d ∧ 0 < snd d ∧ d = (w, h).
Proof.
  unfold positive. destruct (_ && _) eqn:E; [|done]. intros [= <-].
  apply andb_true_iff in E as [? ?]. cbn. split; [lia|]. split; [lia|done].
Qed.

(** No header makes the reader index out of bounds, and a size is positive. *)
Definition dimensions_ok (data : list Z) (r : checked (option (Z * Z))) : Prop :=
  ∃ o, r = Ok o ∧ ∀ w h, o = Some (w, h) → bytes_ok data → 0 < w < 2 ^ 32 ∧ 0 < h < 2 ^ 32.

Lemma dimensions_none data : dimensions_ok data (Ok None).
Proof. by exists None. Qed.

Lemma dimensions_positive data w h :
  (bytes_ok data → 0 ≤ w < 2 ^ 32 ∧ 0 ≤ h < 2 ^ 32) → dimensions_ok data (Ok (positive w h)).
Proof.
  intros Hb. eexists. split; [done|]. intros w' h' Hp Hd. destruct (positive_bound _ _ _ Hp) as (? & ? & E).
  injection E as -> ->. cbn in *. destruct (Hb Hd). lia.
Qed.

Lemma png_dimensions_ok data : dimensions_ok data (png_dimensions data).
Proof.
  unfold png_dimensions. destruct (Nat.ltb_spec (length data) 24); [apply dimensions_none|].
  destruct (slice_ok data 12 16) as (tag & -> & _); [lia|lia|]. cbn.
  destruct (negb _); [apply dimensions_none|].
  destruct (be32_ok data 16) as (w & -> & Hw); [lia|].
  destruct (be32_ok data 20) as (h & -> & Hh); [lia|]. apply dimensions_positive. auto.
Qed.

Lemma gif_dimensions_ok data : dimensions_ok data (gif_dimensions data).
Proof.
  unfold gif_dimensions. destruct (Nat.ltb_spec (length data) 10); [apply dimensions_none|].
  destruct (le16_ok data 6) as (w & -> & Hw); [lia|].
  destruct (le16_ok data 8) as (h & -> & Hh); [lia|]. apply dimensions_positive. auto.
Qed.

Lemma at_ok data i : (i < length data)%nat → ∃ b, at_ data i = Ok b.
Proof. intros H. unfold at_. apply lookup_lt_is_Some in H as [b ->]. eauto. Qed.

Lemma jpeg_dimensions_ok data : dimensions_ok data (jpeg_dimensions data).
Proof.
  unfold jpeg_dimensions.
  apply (run_invariant _ _ _ (λ _, True) (λ _ r, dimensions_ok data r)); [|done|done].
  intros i r _. unfold jpeg_body. destruct (Nat.leb_spec (i + 9) (length data)); cbn [negb];
    [|intros [= <-]; apply dimensions_none].
  destruct (at_ok data i) as (b & ->); [lia|]. destruct (at_ok data (i + 1)) as (mk & ->); [lia|].
  destruct (negb _); [done|]. destruct (is_sof mk).
  - intros [= <-]. destruct (be16_ok data (i + 5)) as (h & -> & Hh); [lia|].
    destruct (be16_ok data (i + 7)) as (w & -> & Hw); [lia|]. apply dimensions_positive. auto.
  - destruct (is_standalone mk); [done|]. destruct (be16_ok data (i + 2)) as (n & -> & _); [lia|].
    destruct (n <? 2); [|done]. intros [= <-]. apply dimensions_none.
Qed.

(** whatever the bytes and the declared type, reading an image header ends, no
    index is out of bounds, and a size that is found is that of two positive 32-bit
    numbers. *)
Theorem image_dimensions_total mime data :
  ∃ o, image_dimensions mime data = Ok o ∧
    ∀ w h, o = Some (w, h) → bytes_ok data → 0 < w < 2 ^ 32 ∧ 0 < h < 2 ^ 32.
Proof.
  unfold image_dimensions. destruct (_ || _); [apply png_dimensions_ok|].
  destruct (_ || _); [apply gif_dimensions_ok|].
  destruct (_ || _); [apply jpeg_dimensions_ok|apply dimensions_none].
Qed.
End Image.

(** ** Text *)

Section Text.

(** server/src/model/token_count.rs:238-255, [is_cjk]. *)
Definition is_cjk (c : Z) : bool :=
  let within lo hi := (lo <=? c) && (c <=? hi) in
  within 0x2E80 0x2FFF || within 0x3000 0x303F || within 0x3040 0x30FF || within 0x3100 0x312F
  || within 0x3400 0x4DBF || within 0x4E00 0x9FFF || within 0xA960 0xA97F || within 0xAC00 0xD7AF
  || within 0xF900 0xFAFF || within 0xFE10 0xFE1F || within 0xFE30 0xFE4F || within 0xFF00 0xFFEF
  || within 0x20000 0x2FA1F.

(** The counters of [estimate_text_tokens]. *)
Record Counts : Type := MkCounts { n_ascii : Z; n_cjk : Z; n_other : Z; n_newlines : Z }.

Definition count_char (n : Counts) (c : Z) : Counts :=
  let newlines := if c =? 10 then n_newlines n + 1 else n_newlines n in
  if c <? 128 then MkCounts (n_ascii n + 1) (n_cjk n) (n_other n) newlines
  else if is_cjk c then MkCounts (n_ascii n) (n_cjk n + 1) (n_other n) newlines
  else MkCounts (n_ascii n) (n_cjk n) (n_other n + 1) newlines.

(** server/src/model/token_count.rs:208-235, [estimate_text_tokens]. *)
Definition estimate_text_tokens (text : str) : Z :=
  match trim text with
  | [] => 0
  | text =>
      let n := foldl count_char (MkCounts 0 0 0 0) text in
      Z.max (sat_add (sat_add (sat_add (div_ceil (n_ascii n) ASCII_CHARS_PER_TOKEN)
                                  (div_ceil (n_cjk n) CJK_CHARS_PER_TOKEN))
                         (div_ceil (n_other n) OTHER_CHARS_PER_TOKEN))
                (n_newlines n)) 1
  end.

(** server/src/model/token_count.rs:257-265, [parse_token_count]. *)
Definition parse_token_count (value : str) : option Z :=
  let value := to_ascii_lower <$> trim value in
  last_char ← last value;
  let '(number, multiplier) :=
    if last_char =? 107 then (take (length value - 1) value, 1000)
    else if last_char =? 109 then (take (length value - 1) value, 1000000)
    else (value, 1) in
  n ← parse_u64 number;
  if U64_MAX <? n * multiplier then None else Some (n * multiplier).

(** server/src/model/token_count.rs:267-275, [format_token_count]. *)
Definition format_token_count (tokens : Z) : str :=
  if (1000000 <=? tokens) && (tokens `mod` 1000000 =? 0) then decimal (tokens / 1000000) ++ lit "M"
  else if (1000 <=? tokens) && (tokens `mod` 1000 =? 0) then decimal (tokens / 1000) ++ lit "K"
  else decimal tokens.

Lemma digit_not_space c : is_ascii_digit c = true → is_whitespace c = false.
Proof. unfold is_ascii_digit, is_whitespace. lia. Qed.
Lemma digit_lower c : is_ascii_digit c = true → to_ascii_lower c = c.
Proof. unfold is_ascii_digit, to_ascii_lower, is_ascii_upper. intros H. case_match; lia. Qed.

Lemma trim_start_id s c : head s = Some c → is_whitespace c = false → trim_start s = s.
Proof. destruct s as [|d s]; [done|]. cbn. intros [= ->] ->. done. Qed.

Lemma trim_id s c d : head s = Some c → last s = Some d → is_whitespace c = false →
  is_whitespace d = false → trim s = s.
Proof.
  intros Hc Hd Hsc Hsd. unfold trim. rewrite (trim_start_id s c) by done.
  rewrite (trim_start_id (reverse s) d); [by rewrite reverse_involutive|by rewrite head_reverse|done].
Qed.

Lemma decimal_ends z : 0 ≤ z → ∃ c d, head (decimal z) = Some c ∧ last (decimal z) = Some d ∧
  is_ascii_digit c = true ∧ is_ascii_digit d = true.
Proof.
  intros Hz. destruct (decimal_spec z Hz) as (_ & Hd & Hn & _).
  destruct (decimal z) as [|c s] eqn:E; [done|]. rewrite <- E in *.
  destruct (last (decimal z)) as [d|] eqn:El; [|by rewrite last_None in El; congruence].
  exists c, d. split; [by rewrite E|]. split; [done|].
  rewrite forallb_forall in Hd. split; apply Hd, list_elem_of_In.
  - rewrite E. apply list_elem_of_here.
  - by apply last_Some_elem_of.
Qed.

Lemma lower_digits s : forallb is_ascii_digit s = true → to_ascii_lower <$> s = s.
Proof.
  induction s as [|c s IH]; [done|]. intros [Hc Hs]%andb_true_iff. rewrite fmap_cons, IH by done.
  by rewrite digit_lower.
Qed.

Lemma parse_count_suffix z u lower k : 0 ≤ z ≤ U64_MAX → 0 ≤ z * k ≤ U64_MAX →
  is_whitespace u = false → to_ascii_lower u = lower →
  (lower = 107 ∧ k = 1000 ∨ lower = 109 ∧ k = 1000000) →
  parse_token_count (decimal z ++ [u]) = Some (z * k).
Proof.
  intros Hz Hk Hu Hl Hlow. destruct (decimal_ends z) as (c & d & Hc & _ & Hdc & _); [lia|].
  destruct (decimal_spec z) as (_ & Hd & _); [lia|].
  unfold parse_token_count. rewrite (trim_id _ c u); [|by destruct (decimal z)|by rewrite last_snoc
    |by apply digit_not_space|done].
  rewrite fmap_app, lower_digits, list_fmap_singleton, Hl, last_snoc by done. cbn.
  rewrite length_app, take_app_le by (cbn; lia). cbn [length].
  rewrite (take_ge (decimal z)) by lia.
  destruct Hlow as [[-> ->]|[-> ->]]; cbn; rewrite parse_decimal by done; cbn;
    by rewrite (proj2 (Z.ltb_ge _ _)) by lia.
Qed.

(** a token count that is formatted, in units of a million or a thousand when
    it is a multiple, is read back as the same count. *)
Theorem token_count_roundtrip n : 0 ≤ n ≤ U64_MAX →
  parse_token_count (format_token_count n) = Some n.
Proof.
  intros Hn. unfold format_token_count.
  destruct ((1000000 <=? n) && _) eqn:E6; [|destruct ((1000 <=? n) && _) eqn:E3].
  - apply andb_true_iff in E6 as [_ Em%Z.eqb_eq]. pose proof (Z.div_mod n 1000000 ltac:(lia)) as Hd.
    rewrite Em, Z.add_0_r in Hd. pose proof (Z.div_pos n 1000000 ltac:(lia) ltac:(lia)) as Hq.
    change (lit "M") with [77]. rewrite (parse_count_suffix _ _ 109 1000000); [f_equal; lia|lia..|done|done|by right].
  - apply andb_true_iff in E3 as [_ Em%Z.eqb_eq]. pose proof (Z.div_mod n 1000 ltac:(lia)) as Hd.
    rewrite Em, Z.add_0_r in Hd. pose proof (Z.div_pos n 1000 ltac:(lia) ltac:(lia)) as Hq.
    change (lit "K") with [75]. rewrite (parse_count_suffix _ _ 107 1000); [f_equal; lia|lia..|done|done|by left].
  - destruct (decimal_ends n) as (c & d & Hc & Hl & Hdc & Hdd); [lia|].
    destruct (decimal_spec n) as (_ & Hd & _); [lia|].
    unfold parse_token_count. rewrite (trim_id _ c d) by (done || by apply digit_not_space).
    rewrite lower_digits, Hl by done. cbn.
    assert (d ≠ 107 ∧ d ≠ 109) as [? ?] by (unfold is_ascii_digit in Hdd; lia).
    rewrite !(proj2 (Z.eqb_neq _ _)) by done. rewrite parse_decimal by done. cbn.
    rewrite Z.mul_1_r. by rewrite (proj2 (Z.ltb_ge _ _)) by lia.
Qed.

Lemma token_count_roundtrip_witness :
  parse_token_count (format_token_count 200000) = Some 200000.
Proof. apply (token_count_roundtrip 200000). vm_compute. split; discriminate. Defined.

Definition counts_ok (n : Counts) (len : Z) : Prop :=
  0 ≤ n_ascii n ∧ 0 ≤ n_cjk n ∧ 0 ≤ n_other n ∧ 0 ≤ n_newlines n ≤ n_ascii n ∧
  n_ascii n + n_cjk n + n_other n = len.

Lemma count_chars_ok s : ∀ n len, counts_ok n len →
  counts_ok (foldl count_char n s) (len + zlen s) ∧
  n_cjk (foldl count_char n s) = n_cjk n + zlen (filter (λ c, is_cjk c = true ∧ 128 ≤ c) s).
Proof.
  induction s as [|c s IH]; intros n len Hn; cbn [foldl].
  { rewrite filter_nil, !zlen_nil, !Z.add_0_r. done. }
  destruct (IH (count_char n c) (len + 1)) as [H1 H2].
  - unfold counts_ok, count_char in *.
    destruct (Z.eqb_spec c 10), (Z.ltb_spec c 128); try lia; [| |destruct (is_cjk c)]; cbn; lia.
  - rewrite zlen_cons, Z.add_assoc. split; [done|]. rewrite H2, filter_cons.
    unfold count_char. destruct (Z.ltb_spec c 128); [rewrite decide_False by lia; done|].
    destruct (is_cjk c); cbn [n_cjk]; [rewrite decide_True by done|rewrite decide_False by naive_solver];
      rewrite ?zlen_cons; lia.
Qed.

Lemma div_ceil_bound a b : 0 ≤ a → 0 < b → a ≤ b * div_ceil a b ∧ 0 ≤ div_ceil a b ≤ a.
Proof.
  intros Ha Hb. unfold div_ceil. pose proof (Z.div_mod (a + b - 1) b ltac:(lia)).
  pose proof (Z.mod_pos_bound (a + b - 1) b Hb). assert (0 ≤ (a + b - 1) / b) by (apply Z.div_pos; lia).
  split; [lia|]. split; [done|]. destruct (decide (a = 0)) as [->|]; [rewrite Z.div_small; lia|].
  apply Z.lt_succ_r, Z.div_lt_upper_bound; [done|]. nia.
Qed.

(** a text is never priced below a token for four characters nor below a token
    for two CJK characters of what is left after trimming, nor above two tokens a
    character; only a blank text is free. *)
Theorem text_price_bounds text : 2 * zlen (trim text) ≤ U64_MAX →
  let n := zlen (trim text) in
  let cjk := zlen (filter (λ c, is_cjk c = true ∧ 128 ≤ c) (trim text)) in
  n ≤ 4 * estimate_text_tokens text ∧ cjk ≤ 2 * estimate_text_tokens text ∧
  estimate_text_tokens text ≤ 2 * n ∧ (estimate_text_tokens text = 0 ↔ trim text = []).
Proof.
  intros Hmax. unfold estimate_text_tokens. destruct (trim text) as [|c s] eqn:Et; [by vm_compute|].
  destruct (count_chars_ok (c :: s) (MkCounts 0 0 0 0) 0) as [Hc Hj]; [unfold counts_ok; cbn; lia|].
  cbn [n_cjk] in Hj. set (n := foldl _ _ _) in *. destruct Hc as (Ha & Hk & Ho & Hl & Hs).
  destruct (div_ceil_bound (n_ascii n) 4), (div_ceil_bound (n_cjk n) 2), (div_ceil_bound (n_other n) 2);
    try lia. cbn zeta.
  assert (1 ≤ zlen (c :: s)) by (rewrite zlen_cons; pose proof (zlen_nonneg s); lia).
  unfold sat_add, ASCII_CHARS_PER_TOKEN, CJK_CHARS_PER_TOKEN, OTHER_CHARS_PER_TOKEN.
  unfold U64_MAX in *. split; [lia|]. split; [lia|]. split; [lia|]. split; [intros; lia|done].
Qed.

Lemma text_price_bounds_witness : 9 ≤ 4 * estimate_text_tokens (lit "a b c d e").
Proof.
  refine (proj1 (text_price_bounds (lit "a b c d e") _)). vm_compute. discriminate.
Defined.
End Text.

(** ** Messages *)

Section Messages.
Context {SJ : SerdeJson}.

(** server/src/model/token_count.rs:195-199, [estimate_json_tokens]. *)
Definition estimate_json_tokens (value : json) : Z :=
  match to_string value with Ok text => estimate_text_tokens text | Err _ => 0 end.

(** The serialized form of a tool definition: its fields in order. *)
Definition tool_to_json (t : ToolDefinition) : json :=
  JObject [(lit "name", JString (t_name t)); (lit "description", JString (t_description t));
           (lit "parameters", t_parameters t)].

(** What [image_dimensions] finds ([image_dimensions_total]: it always returns). *)
Definition dimensions_of (mime_type : str) (data : list Z) : option (Z * Z) :=
  match image_dimensions mime_type data with Ok o => o | Err Panic => None end.

(** server/src/model/token_count.rs:82-91, [estimate_parts_tokens]. *)
Definition estimate_parts_tokens (parts : list ContentPart) : Z :=
  foldl (λ total part, sat_add total
    match part with
    | PText text => estimate_text_tokens text
    | PImage mime_type data =>
        sat_add (estimate_image_tokens (dimensions_of mime_type data)) (estimate_text_tokens mime_type)
    end) 0 parts.

(** server/src/model/token_count.rs:40-80, [estimate_message_tokens]. *)
Definition estimate_message_tokens (message : ProjectedMessage) : Z :=
  sat_add TOKENS_PER_MESSAGE_OVERHEAD
    match p_content message with
    | PCParts parts => estimate_parts_tokens parts
    | PCAssistant text thinking _ calls =>
        let calls := foldl (λ total call,
          sat_add (sat_add (sat_add (sat_add total TOKENS_PER_TOOL_CALL_OVERHEAD)
            (estimate_text_tokens (c_call_id call))) (estimate_text_tokens (c_name call)))
            (estimate_json_tokens (c_arguments call))) 0 calls in
        sat_add (sat_add (estimate_text_tokens text) (estimate_text_tokens thinking)) calls
    | PCToolResult result =>
        let content :=
          if bool_decide (r_provider_parts result = []) then
            sat_add (estimate_text_tokens (r_content result))
              match r_image result with
              | Some image =>
                  sat_add TOKENS_PER_IMAGE (estimate_text_tokens (image_mime_type image))
              | None => 0
              end
          else estimate_parts_tokens (r_provider_parts result) in
        sat_add (sat_add (estimate_text_tokens (r_call_id result)) (estimate_text_tokens (r_name result)))
          content
    end.

(** server/src/model/token_count.rs:34-38, [estimate_projected_messages_tokens]. *)
Definition estimate_projected_messages_tokens (messages : list ProjectedMessage) : Z :=
  foldl (λ total message, sat_add total (estimate_message_tokens message)) 0 messages.

(** server/src/model/token_count.rs:24-32, [estimate_context_tokens]. *)
Definition estimate_context_tokens (p : PromptSpec) (messages : list ProjectedMessage) : Z :=
  let instructions := estimate_text_tokens (instructions p) in
  let tools := foldl (λ total tool, sat_add total (estimate_json_tokens (tool_to_json tool))) 0 (tools p) in
  sat_add (sat_add instructions tools) (estimate_projected_messages_tokens messages).

Lemma estimate_text_nonneg s : 0 ≤ estimate_text_tokens s.
Proof. unfold estimate_text_tokens. destruct (trim s); lia. Qed.
Lemma estimate_image_bound dims : 0 ≤ estimate_image_tokens dims ≤ 20000.
Proof. unfold estimate_image_tokens, TOKENS_PER_IMAGE. repeat case_match; lia. Qed.

(** Saturating sums. *)
Lemma sat_foldl_split {A} (f : A → Z) (l : list A) n : (∀ a, 0 ≤ f a) → 0 ≤ n ≤ U64_MAX →
  let total := foldl (λ t a, sat_add t (f a)) 0 l in
  0 ≤ total ≤ U64_MAX ∧ foldl (λ t a, sat_add t (f a)) n l = sat_add n total.
Proof.
  intros Hf. cbn zeta. revert n. induction l as [|a l IH] using rev_ind; intros n Hn; cbn [foldl].
  { split; [unfold U64_MAX; lia|]. unfold sat_add. lia. }
  rewrite !foldl_app. cbn [foldl]. destruct (IH n Hn) as [H1 H2]. specialize (Hf a).
  split; [apply sat_add_bound; lia|]. rewrite H2. symmetry. apply sat_add_assoc; lia.
Qed.

Lemma estimate_parts_nonneg parts : 0 ≤ estimate_parts_tokens parts.
Proof.
  unfold estimate_parts_tokens. apply (sat_foldl_split _ parts 0); [|unfold U64_MAX; lia].
  intros [text|mime data]; [apply estimate_text_nonneg|].
  pose proof (estimate_image_bound (dimensions_of mime data)). pose proof (estimate_text_nonneg mime).
  apply sat_add_bound; lia.
Qed.

Lemma estimate_message_bound m : 0 ≤ estimate_message_tokens m ≤ U64_MAX.
Proof.
  unfold estimate_message_tokens. apply sat_add_bound; [done|].
  destruct (p_content m) as [parts|text thinking replay calls|result].
  - apply estimate_parts_nonneg.
  - apply sat_add_bound; [apply sat_add_bound; apply estimate_text_nonneg|].
    assert (∀ n, 0 ≤ n → 0 ≤ foldl (λ total call,
      sat_add (sat_add (sat_add (sat_add total TOKENS_PER_TOOL_CALL_OVERHEAD)
        (estimate_text_tokens (c_call_id call))) (estimate_text_tokens (c_name call)))
        (estimate_json_tokens (c_arguments call))) n calls) as Hn; [|by apply Hn].
    induction calls as [|c calls IH]; intros n Hn; cbn [foldl]; [done|]. apply IH.
    unfold estimate_json_tokens. destruct (to_string (c_arguments c));
      repeat (apply sat_add_bound || apply estimate_text_nonneg || done).
  - apply sat_add_bound; [apply sat_add_bound; apply estimate_text_nonneg|].
    case_bool_decide; [|apply estimate_parts_nonneg]. apply sat_add_bound; [apply estimate_text_nonneg|].
    destruct (r_image result); [|done]. apply sat_add_bound; [done|apply estimate_text_nonneg].
Qed.

Lemma estimate_messages_bound ms : 0 ≤ estimate_projected_messages_tokens ms ≤ U64_MAX.
Proof.
  apply (sat_foldl_split estimate_message_tokens ms 0); [|unfold U64_MAX; lia].
  intros m. apply estimate_message_bound.
Qed.

Lemma estimate_app ms ns : estimate_projected_messages_tokens (ms ++ ns) =
  sat_add (estimate_projected_messages_tokens ms) (estimate_projected_messages_tokens ns).
Proof.
  unfold estimate_projected_messages_tokens at 1. rewrite foldl_app.
  apply (sat_foldl_split estimate_message_tokens ns); [intros m; apply estimate_message_bound|].
  apply estimate_messages_bound.
Qed.

(** the estimate of a history is additive, so a part of a history is never
    estimated above the whole: what the retention keeps of a history that fits,
    fits. *)
Theorem estimate_additive ms ns :
  estimate_projected_messages_tokens (ms ++ ns) =
    sat_add (estimate_projected_messages_tokens ms) (estimate_projected_messages_tokens ns) ∧
  estimate_projected_messages_tokens ns ≤ estimate_projected_messages_tokens (ms ++ ns) ∧
  estimate_projected_messages_tokens ms ≤ estimate_projected_messages_tokens (ms ++ ns).
Proof.
  rewrite estimate_app.
  pose proof (estimate_messages_bound ms). pose proof (estimate_messages_bound ns).
  unfold sat_add. lia.
Qed.
End Messages.
