(* ===== verification/Usage.v ===== *)
(** * Usage: where the tokens of a context went

    server/src/cursor/services/usage.rs: the context of a conversation is measured by category (system prompt, tools, rules,
    skills, MCP, subagents, summary, conversation) and the tokens the provider counted are shared out among them.

    [breakdown_partition]: the shares add up to the tokens used, and what is cached of a message does not change them.
    [measure_runtime_total]: every character of a runtime message is counted, in one category. *)

From stdpp Require Import prelude gmap strings list sorting.
From S2P Require Import Prelude Errors External Json Message Tokens.
Local Open Scope Z_scope.

(** server/src/cursor/services/usage.rs:10-19, [CATEGORIES]. *)
Definition CATEGORIES : list (string * string) :=
  [("system_prompt", "System prompt"); ("tools", "Tool definitions"); ("rules", "Rules"); ("skills", "Skills");
   ("mcp", "MCP & dynamic tools"); ("subagents", "Subagent definitions"); ("summarized_conversation", "Summarized conversation");
   ("conversation", "Conversation")].
Definition SYSTEM : nat := 0.
Definition TOOLS : nat := 1.
Definition RULES : nat := 2.
Definition SKILLS : nat := 3.
Definition MCP : nat := 4.
Definition SUBAGENTS : nat := 5.
Definition SUMMARY : nat := 6.
(** server/src/cursor/services/usage.rs:27-27, [CONVERSATION]. *)
Definition CONVERSATION : nat := 7.

(** server/src/cursor/services/usage.rs:30-33, [Measure]. *)
Record Measure : Type := MkMeasure { characters : Z; token_units : Z }.
Definition no_measure : Measure := MkMeasure 0 0.
Definition no_measures : list Measure := replicate 8 no_measure.

(** [char::len_utf16]. *)
Definition len_utf16 (c : Z) : Z := if c <? 65536 then 1 else 2.
(** server/src/cursor/services/usage.rs:40-45, [Measure::add]: one character. *)
Definition units_of (c : Z) : Z := if c <? 128 then len_utf16 c * 273 else len_utf16 c * 550.
(** server/src/cursor/services/usage.rs:36-48, [Measure::add]. *)
Definition add_text (t : str) (m : Measure) : Measure :=
  MkMeasure (characters m + foldr (λ c n, len_utf16 c + n) 0 t) (token_units m + foldr (λ c n, units_of c + n) 0 t).
(** server/src/cursor/services/usage.rs:50-52, [estimated_tokens]. *)
Definition estimated_tokens (m : Measure) : Z := div_ceil (token_units m) 1000.

Definition add_to (category : nat) (t : str) (ms : list Measure) : list Measure := alter (add_text t) category ms.

(** server/src/cursor/services/usage.rs:223-239, [collect_ranges]: positions are counted in characters; [rest] is the text from the
    cursor on. *)
Definition ranges_body (opening closing : str) (category : nat) (s : nat * str * list (nat * nat * nat))
    : flow (nat * str * list (nat * nat * nat)) (list (nat * nat * nat)) :=
  let '(cursor, rest, output) := s in
  match split_once opening rest with
  | None => Done output
  | Some (before, after) =>
      match split_once [62] (opening ++ after) with
      | None => Done output
      | Some (tag, body) =>
          match split_once closing body with
          | None => Done output
          | Some (inner, rest) =>
              let start := (cursor + length before)%nat in
              let stop := (start + S (length tag) + length inner + length closing)%nat in
              Next (stop, rest, output ++ [(start, stop, category)])
          end
      end
  end.

Lemma ranges_decreases opening closing category : opening ≠ [] →
  decreases (ranges_body opening closing category) (λ s, length (s.1.2)).
Proof.
  intros Ho [[cursor rest] output] s'. unfold ranges_body. destruct (split_once opening rest) as [[before after]|] eqn:E1; [|done].
  destruct (split_once [62] _) as [[tag body]|] eqn:E2; [|done]. destruct (split_once closing body) as [[inner rest']|] eqn:E3; [|done].
  intros [= <-]. cbn. apply split_once_app in E1, E2, E3. subst. rewrite !length_app. apply (f_equal length) in E2.
  rewrite !length_app in E2. cbn in E2. lia.
Qed.
Lemma opening_tag (tag : string) : lit "<" ++ lit tag ≠ [].
Proof. done. Qed.
(** server/src/cursor/services/usage.rs:223-239, [collect_ranges]. *)
Definition collect_ranges (text : str) (tag : string) (category : nat) : list (nat * nat * nat) :=
  run (ranges_body (lit "<" ++ lit tag) (lit "</" ++ lit tag ++ lit ">") category) (ranges_decreases _ _ _ (opening_tag tag))
    (0%nat, text, []).

(** [sort_by_key], stable. *)
Fixpoint insert_range (r : nat * nat * nat) (rs : list (nat * nat * nat)) : list (nat * nat * nat) :=
  match rs with
  | [] => [r]
  | x :: rest => if (r.1.1 <=? x.1.1)%nat then r :: rs else x :: insert_range r rest
  end.
Definition sort_ranges (rs : list (nat * nat * nat)) : list (nat * nat * nat) := foldr insert_range [] rs.

(** The slice [text[from..to]]. *)
Definition slice (text : str) (from to : nat) : str := take (to - from) (drop from text).
(** server/src/cursor/services/usage.rs:211-220, [measure_runtime]: the ranges. *)
Fixpoint measure_ranges (text : str) (cursor : nat) (ranges : list (nat * nat * nat)) (ms : list Measure) : list Measure :=
  match ranges with
  | [] => add_to CONVERSATION (drop cursor text) ms
  | (start, stop, category) :: ranges =>
      if (start <? cursor)%nat then measure_ranges text cursor ranges ms
      else measure_ranges text stop ranges (add_to category (slice text start stop) (add_to CONVERSATION (slice text cursor start) ms))
  end.
(** server/src/cursor/services/usage.rs:202-208, [measure_runtime]: the tags. *)
Definition RANGE_TAGS : list (string * nat) :=
  [("rules", RULES); ("rule", RULES); ("agent_skills", SKILLS); ("skill", SKILLS); ("subagents", SUBAGENTS);
   ("mcp_meta_tools", MCP); ("conversation_summary", SUMMARY)]%string.
(** server/src/cursor/services/usage.rs:200-221, [measure_runtime]. *)
Definition measure_runtime (text : str) (ms : list Measure) : list Measure :=
  measure_ranges text 0 (sort_ranges (concat ((λ p, collect_ranges text p.1 p.2) <$> RANGE_TAGS))) ms.

Section Usage.
Context {SJ : SerdeJson}.

(** The [Serialize] that is derived for a call and for a result. *)
Definition call_to_json (c : ToolCallContent) : json :=
  JObject [(lit "index", number (c_index c)); (lit "call_id", JString (c_call_id c)); (lit "name", JString (c_name c));
           (lit "arguments", c_arguments c)].
Definition image_to_json (i : ToolImageReference) : json :=
  JObject [(lit "blob_id", JString (blob_id i)); (lit "mime_type", JString (image_mime_type i)); (lit "path", JString (image_path i))].
Definition result_to_json (r : ToolResultContent) : json :=
  JObject ([(lit "call_id", JString (r_call_id r)); (lit "name", JString (r_name r)); (lit "content", JString (r_content r));
            (lit "is_error", JBool (r_is_error r))]
           ++ match r_image r with Some i => [(lit "image", image_to_json i)] | None => [] end).

Definition print_json (v : json) : res str := map_err Json (to_string v).

(** server/src/cursor/services/usage.rs:67-83, [StaticMeasures::new]: the loop over the tools. *)
Fixpoint measure_tools (tools : list ToolDefinition) (dynamic_tools : list str) (ms : list Measure) : res (list Measure) :=
  match tools with
  | [] => Ok ms
  | t :: tools =>
      encoded ← print_json (tool_to_json t);
      measure_tools tools dynamic_tools (add_to (if bool_decide (t_name t ∈ dynamic_tools) then MCP else TOOLS) encoded ms)
  end.
(** server/src/cursor/services/usage.rs:67-83, [StaticMeasures::new]. *)
Definition static_measures (instructions : str) (tools : list ToolDefinition) (dynamic_tools : list str) : res (list Measure) :=
  measure_tools tools dynamic_tools (add_to SYSTEM instructions no_measures).

(** server/src/cursor/services/usage.rs:174-180, [measure_message]: one part. *)
Definition measure_part (origin : Origin) (ms : list Measure) (part : ContentPart) : list Measure :=
  match part with
  | PText t => if bool_decide (origin = ORuntime) then measure_runtime t ms else add_to CONVERSATION t ms
  | PImage _ _ => ms
  end.
(** server/src/cursor/services/usage.rs:170-198, [measure_message]. *)
Definition measure_message (m : CanonicalMessage) (ms : list Measure) : res (list Measure) :=
  match content m with
  | CParts parts => Ok (foldl (measure_part (origin m)) ms parts)
  | CAssistant t thinking _ _ tool_calls =>
      calls ← print_json (JArray (call_to_json <$> tool_calls));
      Ok (add_to CONVERSATION calls (add_to CONVERSATION thinking (add_to CONVERSATION t ms)))
  | CToolResult result =>
      encoded ← print_json (result_to_json result);
      Ok (add_to CONVERSATION encoded ms)
  end.

(** server/src/cursor/services/usage.rs:93-95, [MessageMeasureCache]. *)
Definition MeasureCache : Type := gmap (list Z) (list Measure).
(** server/src/cursor/services/usage.rs:98-107, [MessageMeasureCache::measures]. *)
Definition cached_measures (m : CanonicalMessage) (cache : MeasureCache) : res (list Measure * MeasureCache) :=
  match cache !! message_id m with
  | Some ms => Ok (ms, cache)
  | None => ms ← measure_message m no_measures; Ok (ms, <[message_id m := ms]> cache)
  end.
Definition add_measures (a b : list Measure) : list Measure :=
  zip_with (λ x y, MkMeasure (characters x + characters y) (token_units x + token_units y)) a b.
(** server/src/cursor/services/usage.rs:123-130, [breakdown]: the messages. *)
Fixpoint measure_all (messages : list CanonicalMessage) (ms : list Measure) (cache : MeasureCache) : res (list Measure * MeasureCache) :=
  match messages with
  | [] => Ok (ms, cache)
  | m :: messages =>
      '(contribution, cache) ← cached_measures m cache;
      measure_all messages (add_measures ms contribution) cache
  end.

Definition total (l : list Z) : Z := foldr Z.add 0 l.
(** [sort_by_key(Reverse(key))], stable, of indices. *)
Fixpoint insert_desc (key : nat → Z) (i : nat) (l : list nat) : list nat :=
  match l with
  | [] => [i]
  | j :: rest => if key j <=? key i then i :: l else j :: insert_desc key i rest
  end.
(** server/src/cursor/services/usage.rs:253-256, [fit_special_estimates]: the order. *)
Definition sort_desc (key : nat → Z) (l : list nat) : list nat := foldr (insert_desc key) [] l.
(** server/src/cursor/services/usage.rs:257-263, [fit_special_estimates]: the remainder. *)
Fixpoint give_remainder (order : list nat) (remainder : Z) (estimates : list Z) : list Z :=
  match order with
  | [] => estimates
  | i :: order => if remainder =? 0 then estimates else give_remainder order (remainder - 1) (alter (Z.add 1) i estimates)
  end.
(** server/src/cursor/services/usage.rs:241-264, [fit_special_estimates]: of the estimates before [CONVERSATION]. *)
Definition fit_special_estimates (original : list Z) (total_tokens : Z) : list Z :=
  let special_total := total original in
  if (special_total <=? total_tokens) || (special_total =? 0) then original
  else
    let assigned := (λ o, sat_mul o total_tokens / special_total) <$> original in
    let key i := sat_mul (default 0 (original !! i)) total_tokens mod special_total in
    give_remainder (sort_desc key (seq 0 CONVERSATION)) (total_tokens - total assigned) assigned.

(** The generated messages [PromptTokenBreakdownCategory] and [PromptTokenBreakdownSnapshot]. *)
Record BreakdownCategory : Type := MkCategory {
  cat_id : list Z;
  cat_label : list Z;
  cat_estimated_tokens : Z;
  cat_character_count : option Z
}.
Record BreakdownSnapshot : Type := MkSnapshot {
  total_used_tokens : Z;
  snapshot_max_tokens : Z;
  categories : list BreakdownCategory
}.
Definition U32_MAX : Z := 2 ^ 32 - 1.

(** The summary: measured in the messages, or else taken from the last snapshot. *)
(** server/src/cursor/services/usage.rs:136-146, [breakdown]: the summary. *)
Definition summary_of (measured : Measure) (baseline : option BreakdownSnapshot) : Measure * Z :=
  let last := if characters measured =? 0
              then b ← baseline; snd <$> list_find (λ c, cat_id c = lit "summarized_conversation") (categories b)
              else None in
  match last with
  | Some c => (MkMeasure (default 0 (cat_character_count c)) (token_units measured), cat_estimated_tokens c)
  | None => (measured, estimated_tokens measured)
  end.
(** server/src/cursor/services/usage.rs:155-161, [breakdown]: one category. *)
Definition category_of (name : string * string) (m : Measure) (estimate : Z) : BreakdownCategory :=
  MkCategory (lit name.1) (lit name.2) (Z.min estimate U32_MAX)
    (if characters m =? 0 then None else Some (Z.min (characters m) U32_MAX)).
(** server/src/cursor/services/usage.rs:115-168, [breakdown]. *)
Definition breakdown (used_tokens max_tokens : Z) (baseline : option BreakdownSnapshot) (statics : list Measure)
    (messages : list CanonicalMessage) (cache : MeasureCache) : res (BreakdownSnapshot * MeasureCache) :=
  '(measures, cache) ← measure_all messages statics cache;
  let measured := default no_measure (measures !! SUMMARY) in
  let estimates := estimated_tokens <$> take CONVERSATION measures in
  let '(summary, estimate) := summary_of measured baseline in
  let measures := <[SUMMARY := summary]> measures in
  let fitted := fit_special_estimates (<[SUMMARY := estimate]> estimates) used_tokens in
  let estimates := fitted ++ [sat_sub used_tokens (total fitted)] in
  Ok (MkSnapshot used_tokens max_tokens (zip_with (λ p e, category_of p.1 p.2 e) (zip CATEGORIES measures) estimates), cache).
End Usage.

(** ** Every character is counted once *)

Definition text_measure (t : str) : Measure := add_text t no_measure.
Definition plus (a b : Measure) : Measure := MkMeasure (characters a + characters b) (token_units a + token_units b).
Definition sum_measures (ms : list Measure) : Measure := foldr plus no_measure ms.
Definition measure_ok (m : Measure) : Prop := 0 ≤ characters m ∧ 0 ≤ token_units m.
Definition measures_ok (ms : list Measure) : Prop := length ms = 8%nat ∧ Forall measure_ok ms.

Lemma plus_comm a b : plus a b = plus b a.
Proof. unfold plus. f_equal; lia. Qed.
Lemma plus_assoc a b c : plus a (plus b c) = plus (plus a b) c.
Proof. unfold plus. cbn. f_equal; lia. Qed.
Lemma plus_none a : plus a no_measure = a.
Proof. destruct a. unfold plus. cbn. f_equal; lia. Qed.
Lemma add_text_plus t m : add_text t m = plus m (text_measure t).
Proof. unfold text_measure, add_text, plus. cbn. f_equal; lia. Qed.
Lemma text_measure_app s t : text_measure (s ++ t) = plus (text_measure s) (text_measure t).
Proof.
  unfold text_measure, add_text, plus. cbn. f_equal; (induction s as [|c s IH]; cbn; [done|lia]).
Qed.
Lemma text_measure_ok t : measure_ok (text_measure t).
Proof.
  split; cbn; (induction t as [|c t IH]; cbn; [lia|]); unfold units_of, len_utf16 in *; repeat case_match; lia.
Qed.

Lemma add_to_sum category t ms : (category < length ms)%nat → sum_measures (add_to category t ms) = plus (sum_measures ms) (text_measure t).
Proof.
  unfold add_to. revert category. induction ms as [|m ms IH]; intros [|category] H; cbn in *; try lia.
  - rewrite add_text_plus, <- !plus_assoc. f_equal. apply plus_comm.
  - rewrite IH by lia. by rewrite plus_assoc.
Qed.
Lemma add_to_length category t ms : length (add_to category t ms) = length ms.
Proof. apply length_alter. Qed.
Lemma add_to_ok category t ms : measures_ok ms → measures_ok (add_to category t ms).
Proof.
  intros [Hl Hf]. split; [by rewrite add_to_length|]. apply Forall_alter; [done|]. intros m _ [H1 H2].
  rewrite add_text_plus. destruct (text_measure_ok t). split; cbn; unfold measure_ok, text_measure, add_text in *; cbn in *; lia.
Qed.

Lemma slice_split text a b c : (a ≤ b)%nat → (b ≤ c)%nat → slice text a c = slice text a b ++ slice text b c.
Proof.
  intros Hab Hbc. unfold slice. replace (c - a)%nat with ((b - a) + (c - b))%nat by lia. rewrite <- take_take_drop. f_equal.
  rewrite drop_drop. by replace (a + (b - a))%nat with b by lia.
Qed.
Lemma slice_rest text a b : (a ≤ b)%nat → drop a text = slice text a b ++ drop b text.
Proof.
  intros H. unfold slice. rewrite <- (take_drop (b - a) (drop a text)) at 1. f_equal. rewrite drop_drop. f_equal. lia.
Qed.

Definition range_ok (r : nat * nat * nat) : Prop := (r.1.1 ≤ r.1.2)%nat ∧ (r.2 < 8)%nat.
Lemma collect_ranges_ok text tag category : (category < 8)%nat → Forall range_ok (collect_ranges text tag category).
Proof.
  intros Hc. unfold collect_ranges.
  apply (run_invariant _ _ (ranges_decreases _ _ category (opening_tag tag)) (λ s, Forall range_ok s.2) (λ _ r, Forall range_ok r)).
  - intros [[cursor rest] output] r Hi. unfold ranges_body.
    destruct (split_once _ rest) as [[before after]|]; [|by intros [= <-]].
    destruct (split_once [62] _) as [[tag' body]|]; [|by intros [= <-]].
    destruct (split_once _ body) as [[inner rest']|]; [done|by intros [= <-]].
  - intros [[cursor rest] output] s' Hi. unfold ranges_body.
    destruct (split_once _ rest) as [[before after]|]; [|done].
    destruct (split_once [62] _) as [[tag' body]|]; [|done].
    destruct (split_once _ body) as [[inner rest']|]; [|done]. intros [= <-]. cbn [snd] in *. split; [|auto].
    apply Forall_app. split; [done|]. constructor; [|done]. split; cbn; lia.
  - constructor.
Qed.
Lemma sort_ranges_ok rs : Forall range_ok rs → Forall range_ok (sort_ranges rs).
Proof.
  induction 1 as [|r rs Hr _ IH]; [constructor|]. cbn [sort_ranges foldr]. fold (sort_ranges rs).
  revert IH. generalize (sort_ranges rs) as l. induction l as [|x l IHl]; intros Hl; cbn [insert_range]; [by constructor|].
  destruct (_ <=? _)%nat; [by constructor|]. apply Forall_cons in Hl as [Hx Hl]. constructor; [done|]. by apply IHl.
Qed.

Lemma measure_ranges_sum text ranges : Forall range_ok ranges → ∀ cursor ms, length ms = 8%nat →
  sum_measures (measure_ranges text cursor ranges ms) = plus (sum_measures ms) (text_measure (drop cursor text)).
Proof.
  induction 1 as [|[[start stop] category] ranges [H1 H2] _ IH]; intros cursor ms Hl; cbn [measure_ranges].
  - apply add_to_sum. rewrite Hl. unfold CONVERSATION. lia.
  - cbn in H1, H2. destruct (Nat.ltb_spec start cursor); [by apply IH|].
    rewrite IH by (by rewrite !add_to_length). rewrite !add_to_sum by (rewrite ?add_to_length, Hl; unfold CONVERSATION; lia).
    rewrite (slice_rest text cursor start), (slice_rest text start stop), !text_measure_app by lia. by rewrite <- !plus_assoc.
Qed.
Lemma measure_ranges_ok text ranges : ∀ cursor ms, measures_ok ms → measures_ok (measure_ranges text cursor ranges ms).
Proof.
  induction ranges as [|[[start stop] category] ranges IH]; intros cursor ms Hm; cbn [measure_ranges]; [by apply add_to_ok|].
  destruct (_ <? _)%nat; [by apply IH|]. by apply IH, add_to_ok, add_to_ok.
Qed.

Lemma all_ranges_ok text : Forall range_ok (sort_ranges (concat ((λ p, collect_ranges text p.1 p.2) <$> RANGE_TAGS))).
Proof.
  apply sort_ranges_ok. apply Forall_concat, Forall_fmap, Forall_forall. intros [tag category] Hin. cbn.
  apply collect_ranges_ok. unfold RANGE_TAGS in Hin. set_unfold in Hin. unfold RULES, SKILLS, SUBAGENTS, MCP, SUMMARY in Hin.
  destruct_or?; simplify_eq; lia.
Qed.

(** Every character of a runtime message is measured, in exactly one category, however the tags of its sections nest or
    overlap: the measures grow by that of the whole text. *)
Theorem measure_runtime_total text ms : length ms = 8%nat →
  sum_measures (measure_runtime text ms) = plus (sum_measures ms) (text_measure text).
Proof. intros Hl. unfold measure_runtime. rewrite measure_ranges_sum; [done|apply all_ranges_ok|done]. Qed.

(** ** The shares add up *)

Section Shares.
Context {SJ : SerdeJson}.

Lemma no_measures_ok : measures_ok no_measures.
Proof. split; [done|]. repeat constructor; cbn; lia. Qed.
Lemma measure_part_ok o ms part : measures_ok ms → measures_ok (measure_part o ms part).
Proof.
  intros H. unfold measure_part. destruct part; [|done]. destruct (bool_decide _); [by apply measure_ranges_ok|by apply add_to_ok].
Qed.
Lemma measure_message_ok m ms ms' : measures_ok ms → measure_message m ms = Ok ms' → measures_ok ms'.
Proof.
  unfold measure_message. intros H. destruct (content m) as [parts|t th id rp calls|r].
  - intros [= <-]. revert ms H. induction parts as [|p parts IH]; intros ms H; [done|]. cbn. by apply IH, measure_part_ok.
  - destruct (print_json _); [|done]. intros [= <-]. by apply add_to_ok, add_to_ok, add_to_ok.
  - destruct (print_json _); [|done]. intros [= <-]. by apply add_to_ok.
Qed.
Lemma measure_tools_ok tools dyn ms ms' : measures_ok ms → measure_tools tools dyn ms = Ok ms' → measures_ok ms'.
Proof.
  revert ms. induction tools as [|t tools IH]; intros ms H; cbn; [by intros [= <-]|].
  destruct (print_json _); [|done]. cbn. by apply IH, add_to_ok.
Qed.
Lemma static_measures_ok instructions tools dyn ms : static_measures instructions tools dyn = Ok ms → measures_ok ms.
Proof. apply measure_tools_ok, add_to_ok, no_measures_ok. Qed.
Lemma add_measures_ok a b : measures_ok a → measures_ok b → measures_ok (add_measures a b).
Proof.
  intros [H1 H2] [H3 H4]. split; [unfold add_measures; rewrite length_zip_with; lia|]. unfold add_measures.
  apply Forall_zip_with_fst with (P := measure_ok); [done|]. eapply Forall_impl; [exact H4|].
  intros y [Y1 Y2] x [X1 X2]. split; cbn; lia.
Qed.

(** The measures without a cache. *)
Fixpoint measure_fresh (messages : list CanonicalMessage) (ms : list Measure) : res (list Measure) :=
  match messages with
  | [] => Ok ms
  | m :: messages => contribution ← measure_message m no_measures; measure_fresh messages (add_measures ms contribution)
  end.
(** A message is known by its id, as the store guarantees, and the cache holds measures of messages of the conversation. *)
Definition known_by_id (history : list CanonicalMessage) : Prop :=
  ∀ a b, a ∈ history → b ∈ history → message_id a = message_id b → a = b.
Definition cache_ok (history : list CanonicalMessage) (cache : MeasureCache) : Prop :=
  ∀ m ms, m ∈ history → cache !! message_id m = Some ms → measure_message m no_measures = Ok ms.

Lemma measure_all_fresh history messages : known_by_id history → messages ⊆ history → ∀ ms cache, cache_ok history cache →
  match measure_all messages ms cache with
  | Ok (ms', cache') => measure_fresh messages ms = Ok ms' ∧ cache_ok history cache'
  | Err e => measure_fresh messages ms = Err e
  end.
Proof.
  intros Hk. induction messages as [|m messages IH]; intros Hs ms cache Hc; [done|].
  assert (m ∈ history) as Hm by (apply Hs; by left). assert (messages ⊆ history) as Hs' by (intros x Hx; apply Hs; by right).
  cbn [measure_all measure_fresh]. unfold cached_measures. destruct (cache !! message_id m) as [c|] eqn:E.
  - rewrite (Hc m c Hm E). cbn. by apply IH.
  - destruct (measure_message m no_measures) as [c|e] eqn:Em; [|done]. cbn. apply IH; [done|].
    intros a c' Ha. destruct (decide (message_id a = message_id m)) as [Hid|Hid].
    + rewrite Hid. unfold MeasureCache in *. rewrite lookup_insert_eq. intros [= <-]. by rewrite (Hk a m Ha Hm Hid).
    + unfold MeasureCache in *. rewrite lookup_insert_ne by done. by apply Hc.
Qed.
Lemma measure_fresh_ok messages : ∀ ms ms', measures_ok ms → measure_fresh messages ms = Ok ms' → measures_ok ms'.
Proof.
  induction messages as [|m messages IH]; intros ms ms' H; cbn [measure_fresh]; [by intros [= <-]|].
  destruct (measure_message m no_measures) as [c|] eqn:E; [|done]. cbn [mbind result_bind]. apply IH, add_measures_ok; [done|].
  eapply measure_message_ok; [apply no_measures_ok|done].
Qed.

Lemma total_nonneg l : Forall (λ x, 0 ≤ x) l → 0 ≤ total l.
Proof. induction 1; cbn; [done|]. unfold total in *. lia. Qed.
Lemma total_member l x : Forall (λ x, 0 ≤ x) l → x ∈ l → x ≤ total l.
Proof.
  induction 1 as [|y l Hy Hl IH]; intros Hx; [by apply not_elem_of_nil in Hx|]. apply total_nonneg in Hl. unfold total in *. cbn.
  apply elem_of_cons in Hx as [->|Hx]; [lia|]. specialize (IH Hx). lia.
Qed.
Lemma total_alter i l : (i < length l)%nat → total (alter (Z.add 1) i l) = total l + 1.
Proof.
  revert i. induction l as [|x l IH]; intros [|i] H; cbn in *; try lia. specialize (IH i ltac:(lia)). unfold total in *. cbn. lia.
Qed.
Lemma sort_desc_permutation key l : sort_desc key l ≡ₚ l.
Proof.
  induction l as [|i l IH]; [done|]. cbn [sort_desc foldr]. fold (sort_desc key l). rewrite <- IH at 2. generalize (sort_desc key l) as k.
  induction k as [|j k IHk]; cbn [insert_desc]; [done|]. destruct (_ <=? _); [done|]. rewrite IHk. apply Permutation_swap.
Qed.

Lemma give_remainder_total order : ∀ remainder l, 0 ≤ remainder → Forall (λ i, (i < length l)%nat) order → Forall (λ x, 0 ≤ x) l →
  let l' := give_remainder order remainder l in
  total l' = total l + Z.min remainder (zlen order) ∧ length l' = length l ∧ Forall (λ x, 0 ≤ x) l'.
Proof.
  induction order as [|i order IH]; intros remainder l Hr Ho Hl; cbn [give_remainder].
  - split_and!; [|done|done]. rewrite zlen_nil. lia.
  - apply Forall_cons in Ho as [Hi Ho]. rewrite zlen_cons. pose proof (zlen_nonneg order). destruct (Z.eqb_spec remainder 0).
    + split_and!; [lia|done|done].
    + destruct (IH (remainder - 1) (alter (Z.add 1) i l)) as (H1 & H2 & H3); [lia|by rewrite length_alter| |].
      { apply Forall_alter; [done|]. intros; lia. }
      rewrite total_alter in H1 by done. rewrite length_alter in H2. split_and!; [lia|done|done].
Qed.

Lemma assigned_total l t s : 0 < s → 0 ≤ t → Forall (λ x, 0 ≤ x) l → total ((λ o, sat_mul o t / s) <$> l) * s ≤ total l * t.
Proof.
  intros Hs Ht. induction 1 as [|o l Ho _ IH]; [done|]. cbn [fmap list_fmap]. unfold total in *. cbn [foldr].
  assert (sat_mul o t / s * s ≤ o * t); [|nia]. pose proof (Z.mul_div_le (sat_mul o t) s Hs). unfold sat_mul in *. lia.
Qed.

Lemma fit_total original t : length original = 7%nat → Forall (λ x, 0 ≤ x) original → 0 ≤ t →
  let fitted := fit_special_estimates original t in
  0 ≤ total fitted ≤ t ∧ length fitted = 7%nat ∧ Forall (λ x, 0 ≤ x) fitted.
Proof.
  intros Hl Hf Ht. unfold fit_special_estimates. pose proof (total_nonneg _ Hf).
  destruct (Z.leb_spec (total original) t); cbn [orb]; [split_and!; try done; lia|].
  destruct (Z.eqb_spec (total original) 0); [lia|].
  set (s := total original) in *. set (assigned := (λ o, sat_mul o t / s) <$> original).
  assert (Forall (λ x, 0 ≤ x) assigned) as Ha.
  { apply Forall_fmap. eapply Forall_impl; [exact Hf|]. intros o Ho. cbn. apply Z.div_pos; [|lia]. unfold sat_mul, U64_MAX. pose proof (Z.mul_nonneg_nonneg o t Ho Ht). lia. }
  assert (total assigned ≤ t) as Hle.
  { pose proof (assigned_total original t s ltac:(lia) Ht Hf) as Hat. fold assigned in Hat. fold s in Hat.
    apply (Z.mul_le_mono_pos_r _ _ s); lia. }
  pose proof (total_nonneg _ Ha).
  destruct (give_remainder_total (sort_desc (λ i, sat_mul (default 0 (original !! i)) t mod s) (seq 0 CONVERSATION)) (t - total assigned) assigned)
    as (G1 & G2 & G3); [lia| |done|].
  - rewrite sort_desc_permutation. apply Forall_forall. intros i Hi%elem_of_seq. unfold assigned. rewrite length_fmap, Hl.
    unfold CONVERSATION in Hi. lia.
  - split_and!; [pose proof (total_nonneg _ G3); lia|lia| |done]. rewrite G2. unfold assigned. by rewrite length_fmap.
Qed.

Lemma categories_of (ps : list (string * string * Measure)) es : length ps = length es →
  cat_estimated_tokens <$> zip_with (λ p e, category_of p.1 p.2 e) ps es = (λ e, Z.min e U32_MAX) <$> es ∧
  cat_id <$> zip_with (λ p e, category_of p.1 p.2 e) ps es = (λ p, lit p.1.1) <$> ps.
Proof. revert es. induction ps as [|p ps IH]; intros [|e es]; try done. intros [= H]. destruct (IH es H) as [H1 H2]. cbn. by rewrite H1, H2. Qed.

Lemma estimates_ok ms : Forall measure_ok ms → Forall (λ x, 0 ≤ x) (estimated_tokens <$> ms).
Proof.
  intros H. apply Forall_fmap. eapply Forall_impl; [exact H|]. intros m [_ Hm]. unfold estimated_tokens, div_ceil. cbn.
  apply Z.div_pos; lia.
Qed.
Lemma total_app l k : total (l ++ k) = total l + total k.
Proof. unfold total. induction l as [|x l IH]; cbn; lia. Qed.

Lemma summary_nonneg measured baseline : measure_ok measured →
  (∀ b, baseline = Some b → Forall (λ c, 0 ≤ cat_estimated_tokens c) (categories b)) → 0 ≤ (summary_of measured baseline).2.
Proof.
  intros [_ Hm] Hb. unfold summary_of. set (last := if _ =? 0 then _ else None). destruct last as [c|] eqn:El; unfold last in El; cbn [snd].
  - destruct (characters measured =? 0); [|done]. destruct baseline as [b|]; [|done]. cbn in El.
    destruct (list_find _ (categories b)) as [[i x]|] eqn:Ef; [|done]. injection El as <-.
    apply list_find_Some in Ef as (Hx & _). apply list_elem_of_lookup_2 in Hx. specialize (Hb b eq_refl). rewrite Forall_forall in Hb. by apply Hb.
  - unfold estimated_tokens, div_ceil. apply Z.div_pos; lia.
Qed.

(** The tokens the provider counted are shared out exactly: of a context within the counter's width, the eight categories are given in
    their order, with shares that add up to the tokens used, whatever was estimated; and the measures that were cached
    of earlier messages give the same shares as measuring everything again. *)
Theorem breakdown_partition used max baseline statics messages cache history snapshot cache' :
  0 ≤ used ≤ U32_MAX → measures_ok statics → known_by_id history → messages ⊆ history → cache_ok history cache →
  (∀ b, baseline = Some b → Forall (λ c, 0 ≤ cat_estimated_tokens c) (categories b)) →
  breakdown used max baseline statics messages cache = Ok (snapshot, cache') →
  total (cat_estimated_tokens <$> categories snapshot) = used ∧
  cat_id <$> categories snapshot = (λ p, lit p.1) <$> CATEGORIES ∧
  cache_ok history cache' ∧
  (∃ fresh, breakdown used max baseline statics messages ∅ = Ok (snapshot, fresh)).
Proof.
  intros Hu Hst Hk Hs Hc Hb. unfold breakdown.
  pose proof (measure_all_fresh history messages Hk Hs statics cache Hc) as Ha.
  assert (cache_ok history ∅) as Hempty by (intros m ms _; unfold MeasureCache; by rewrite lookup_empty).
  pose proof (measure_all_fresh history messages Hk Hs statics ∅ Hempty) as Hf.
  destruct (measure_all messages statics cache) as [[ms c1]|] eqn:E; [|done]. destruct Ha as [Ha Hc1].
  destruct (measure_all messages statics ∅) as [[ms2 c2]|]; [destruct Hf as [Hf _]|]; [|by rewrite Ha in Hf].
  rewrite Ha in Hf. apply ok_inj in Hf as <-. pose proof (measure_fresh_ok _ _ _ Hst Ha) as [Hlen Hms]. cbn [mbind result_bind].
  set (measured := default no_measure (ms !! SUMMARY)).
  assert (0 ≤ (summary_of measured baseline).2) as Hsum.
  { apply summary_nonneg; [|done]. unfold measured. destruct (ms !! SUMMARY) as [m|] eqn:Em; [|split; cbn; lia].
    cbn. by eapply Forall_lookup_1. }
  destruct (summary_of measured baseline) as [summary estimate] eqn:Esum. cbn [snd] in Hsum.
  set (estimates := <[SUMMARY:=estimate]> (estimated_tokens <$> take CONVERSATION ms)).
  destruct (fit_total estimates used) as (F1 & F2 & F3).
  { unfold estimates. rewrite length_insert, length_fmap, length_take, Hlen. done. }
  { unfold estimates. apply Forall_insert; [|done]. apply estimates_ok. by apply Forall_take. }
  { lia. }
  set (fitted := fit_special_estimates estimates used) in *.
  intros H%ok_inj. pose proof (f_equal fst H) as Es. pose proof (f_equal snd H) as Ecache. cbn [fst snd] in Es, Ecache. subst snapshot cache'.
  cbn [categories]. destruct (categories_of (zip CATEGORIES (<[SUMMARY:=summary]> ms)) (fitted ++ [sat_sub used (total fitted)])) as [C1 C2].
  { rewrite length_zip_with, length_insert, Hlen, length_app, F2. done. }
  rewrite C1, C2. split_and!; [| |done|by exists c2].
  - rewrite fmap_app, total_app. assert ((λ e, Z.min e U32_MAX) <$> fitted = fitted) as ->.
    { rewrite <- (list_fmap_id fitted) at 2. apply list_fmap_ext. intros i x Hx. apply list_elem_of_lookup_2 in Hx.
      pose proof (total_member _ _ F3 Hx). cbn. lia. }
    cbn. unfold sat_sub. lia.
  - assert (length CATEGORIES ≤ length (<[SUMMARY:=summary]> ms))%nat as Hl8 by (rewrite length_insert, Hlen; done).
    revert Hl8. generalize (<[SUMMARY:=summary]> ms) as k. generalize CATEGORIES as l. clear.
    induction l as [|p l IH]; intros [|m k] H; cbn in *; try done; try lia. f_equal. apply IH. lia.
Qed.
End Shares.

Module UsageSamples.
Definition runtime : CanonicalMessage := into_message (MkRuntimeEvent (lit "e1") (lit "see <rules>be brief</rules> and <skill>x</skill>")).
Definition answer : CanonicalMessage := MkMessage (lit "a1") RAssistant OAssistant (CAssistant (lit "fine") [] None None []) None.
Definition history : list CanonicalMessage := [runtime; answer].
Definition baseline : BreakdownSnapshot := MkSnapshot 9 100 [MkCategory (lit "summarized_conversation") [] 4 (Some 12)].
Definition statics : list Measure := add_to SYSTEM (lit "you are an agent") no_measures.
Definition cache : MeasureCache := <[lit "a1" := add_to CONVERSATION (lit "null") (add_to CONVERSATION (lit "fine") no_measures)]> ∅.
Lemma by_id : known_by_id history.
Proof. intros a b Ha Hb. unfold history in *. set_unfold in Ha. set_unfold in Hb. destruct_or?; subst; done. Qed.
Lemma cached : @cache_ok Samples.tiny_json history cache.
Proof.
  intros m ms Hm. unfold history in Hm. set_unfold in Hm. destruct_or?; subst; [done|]. unfold cache, MeasureCache.
  cbn [message_id answer]. rewrite lookup_insert_eq. intros [= <-]. vm_compute. reflexivity.
Qed.
End UsageSamples.

Lemma measure_runtime_total_witness :
  sum_measures (measure_runtime (lit "see <rules>be brief</rules>") no_measures) = text_measure (lit "see <rules>be brief</rules>") ∧
  measure_runtime (lit "see <rules>be brief</rules>") no_measures !! RULES = Some (text_measure (lit "<rules>be brief</rules>")).
Proof.
  split; [|vm_compute; reflexivity].
  rewrite (measure_runtime_total (lit "see <rules>be brief</rules>") no_measures ltac:(reflexivity)). vm_compute. reflexivity.
Defined.
Lemma breakdown_partition_witness : ∃ snapshot cache,
  @breakdown Samples.tiny_json 40 200 (Some UsageSamples.baseline) UsageSamples.statics UsageSamples.history UsageSamples.cache =
    Ok (snapshot, cache) ∧
  cat_estimated_tokens <$> categories snapshot = [5; 0; 7; 5; 0; 0; 4; 19] ∧ total (cat_estimated_tokens <$> categories snapshot) = 40.
Proof.
  destruct (@breakdown Samples.tiny_json 40 200 (Some UsageSamples.baseline) UsageSamples.statics UsageSamples.history UsageSamples.cache)
    as [[snapshot cache]|] eqn:E; [|vm_compute in E; discriminate E].
  destruct (@breakdown_partition Samples.tiny_json 40 200 (Some UsageSamples.baseline) UsageSamples.statics UsageSamples.history
    UsageSamples.cache UsageSamples.history snapshot cache) as (Ht & _).
  - vm_compute. split; discriminate.
  - apply add_to_ok. apply no_measures_ok.
  - apply UsageSamples.by_id.
  - done.
  - apply UsageSamples.cached.
  - intros b Hb. injection Hb as <-. repeat constructor. cbn. lia.
  - exact E.
  - exists snapshot, cache. split; [reflexivity|]. split; [|exact Ht]. vm_compute in E. injection E as <- _. vm_compute. reflexivity.
Defined.
