(* ===== verification/CheckpointMessages.v ===== *)
(** * CheckpointMessages: what a checkpoint keeps of a message

    server/src/cursor/checkpoint/messages/: [encode.rs] writes the projected messages of a conversation as the
    JSON that Cursor stores for it, [decode.rs] reads them back when the conversation is resumed, and an
    assistant message whose calls have not all answered is written apart, with the contract of each call.

    [checkpoint_history_restored] says what a resumed conversation shows its provider: the projection of what is
    read back is the projection that was written, up to the ids Cursor assigns, the numbering of the calls and the images
    that only the original results carry.  [pending_round_restored] says the same of a pending round. *)

From stdpp Require Import prelude gmap strings list sorting.
From S2P Require Import Prelude Errors External Json JsonSamples Message.
Local Open Scope Z_scope.

(** The crate base64: [STANDARD.decode]. *)
Class Base64Decode : Type := { decode64 : str → result foreign_error (list Z) }.
(** serde_json: [from_slice::<Value>], and the [Deserialize] that is derived for [ProviderReplayState]. *)
Class SerdeSlice : Type := {
  from_slice : list Z → result foreign_error json;
  replay_of_json : json → result foreign_error ProviderReplayState
}.
(** sha2: [Sha256::digest]. *)
Class Sha256 : Type := { sha256 : list Z → list Z }.

(** server/src/cursor/checkpoint/messages/mod.rs:9-9, [REPLAY_ENVELOPE_PREFIX]. *)
Definition REPLAY_ENVELOPE_PREFIX : string := "cursor-byok:v1:".

(** [str::strip_prefix]. *)
Definition strip_prefix (p s : str) : option str :=
  if starts_with p s then Some (drop (length p) s) else None.

(** ** Writing *)

Section Encode.
Context {SJ : SerdeJson} {B64 : Base64}.

(** server/src/cursor/checkpoint/messages/encode.rs:267-274, [role_name]. *)
Definition wire_role (role : Role) : string :=
  match role with RSystem => "system" | RUser => "user" | RAssistant => "assistant" | RTool => "tool" end.

(** server/src/cursor/checkpoint/messages/encode.rs:167-186, [tool_identifier]. *)
Definition tool_identifier (name : str) (dynamic_tools : list str) : str :=
  if bool_decide (name ∈ dynamic_tools) then name
  else if existsb (named name) ["CallMcpTool"; "SembleSearch"; "SembleFindRelated"]%string then lit "MCP"
  else if named name "CreatePlan" then lit "CREATE_PLAN_V2"
  else if named name "UpdateCurrentStep" then lit "COMMUNICATE_UPDATE"
  else
    let upper c := if is_ascii_lower c then c - 32 else c in
    concat (imap (λ index c, (if (0 <? index)%nat && is_ascii_upper c then [95] else []) ++ [upper c]) name).

(** server/src/cursor/checkpoint/messages/encode.rs:188-194, [wire_message_id]. *)
Definition wire_message_id (m : ProjectedMessage) : str :=
  match p_content m with
  | PCAssistant _ _ _ _ => lit "1"
  | PCToolResult result => r_call_id result
  | PCParts _ => p_message_id m
  end.

(** The [Serialize] that is derived for [ProviderReplayState]. *)
Definition replay_json (state : ProviderReplayState) : json :=
  object [("provider_kind", JString (provider_kind state)); ("value", replay_value state)]%string.
(** server/src/cursor/checkpoint/messages/encode.rs:253-265, [encode_replay_state]. *)
Definition encode_replay_state (state : ProviderReplayState) : res str :=
  if named (provider_kind state) "cursor_opaque" then
    ok_or (as_str (replay_value state)) (protocol "Cursor opaque replay state is not a string")
  else Ok (lit REPLAY_ENVELOPE_PREFIX ++ encode64 (to_vec (replay_json state))).

(** server/src/cursor/checkpoint/messages/encode.rs:201-208-wire_content, [one]: part. *)
(** server/src/cursor/checkpoint/messages/encode.rs:201-208, [wire_content]: one part. *)
Definition wire_part (part : ContentPart) : json :=
  match part with
  | PText t => object [("type", text "text"); ("text", JString t)]%string
  | PImage mime_type data =>
      object [("type", text "image"); ("image", JString (encode64 data)); ("mimeType", JString mime_type)]%string
  end.
(** server/src/cursor/checkpoint/messages/encode.rs:232-239-wire_content, [a]: call. *)
(** server/src/cursor/checkpoint/messages/encode.rs:232-239, [wire_content]: a call. *)
Definition wire_call (call : ToolCallContent) : json :=
  object [("type", text "tool-call"); ("toolCallId", JString (c_call_id call)); ("toolName", JString (c_name call));
          ("args", c_arguments call)]%string.
(** server/src/cursor/checkpoint/messages/encode.rs:217-228-wire_content, [the]: reasoning. *)
(** server/src/cursor/checkpoint/messages/encode.rs:217-228, [wire_content]: the reasoning. *)
Definition wire_reasoning (thinking : str) (replay_state : option ProviderReplayState) (model : str) : res (list json) :=
  let reasoning := object [("type", text "reasoning"); ("text", JString thinking);
    ("providerOptions", object [("cursor", object [("modelName", JString model)])])]%string in
  match replay_state with
  | Some state => signature ← encode_replay_state state; Ok [set_member "signature" (JString signature) reasoning]
  | None => Ok (match thinking with [] => [] | _ => [reasoning] end)
  end.
(** server/src/cursor/checkpoint/messages/encode.rs:242-249-wire_content, [a]: result. *)
(** server/src/cursor/checkpoint/messages/encode.rs:242-249, [wire_content]: a result. *)
Definition wire_result (r : ToolResultContent) : json :=
  object [("type", text "tool-result"); ("toolCallId", JString (r_call_id r)); ("toolName", JString (r_name r));
          ("result", JString (r_content r));
          ("experimental_content", JArray [object [("type", text "text"); ("text", JString (r_content r))]]);
          ("isError", JBool (r_is_error r))]%string.
(** server/src/cursor/checkpoint/messages/encode.rs:196-251, [wire_content]. *)
Definition wire_content (content : ProjectedContent) (model : str) : res json :=
  match content with
  | PCParts parts => Ok (JArray (wire_part <$> parts))
  | PCAssistant t thinking replay_state calls =>
      reasoning ← wire_reasoning thinking replay_state model;
      Ok (JArray (reasoning
                  ++ match t with [] => [] | _ => [object [("type", text "text"); ("text", JString t)]%string] end
                  ++ (wire_call <$> calls)))
  | PCToolResult result => Ok (JArray [wire_result result])
  end.

(** server/src/cursor/checkpoint/messages/encode.rs:106-111, [PendingContext]; [dynamic_tools] is a set. *)
Record PendingContext : Type := MkPending {
  pc_allowed_tools : list (list Z);
  pc_dynamic_tools : list (list Z);
  pc_started_at_ms : Z;
  pc_tool_calls : option (list ToolCall)
}.
(** The error of the call with this id, among the calls of the round. *)
(** server/src/cursor/checkpoint/messages/encode.rs:145-150-wire_message, [the]: error of a call. *)
(** server/src/cursor/checkpoint/messages/encode.rs:145-150, [wire_message]: the error of a call. *)
Definition argument_error_of (pending : PendingContext) (id : str) : option str :=
  calls ← pc_tool_calls pending; c ← snd <$> list_find (λ c, call_id c = id) calls; argument_error c.
(** server/src/cursor/checkpoint/messages/encode.rs:138-153-wire_message, [the]: contract of a call. *)
(** server/src/cursor/checkpoint/messages/encode.rs:138-153, [wire_message]: the contract of a call. *)
Definition contract_of (pending : PendingContext) (call : ToolCallContent) : json :=
  let contract := object [("toolCallId", JString (c_call_id call)); ("outerToolName", JString (c_name call));
    ("toolIdentifier", JString (tool_identifier (c_name call) (pc_dynamic_tools pending)));
    ("isDynamic", JBool (bool_decide (c_name call ∈ pc_dynamic_tools pending)));
    ("allowedToolNames", JArray (JString <$> pc_allowed_tools pending))]%string in
  match argument_error_of pending (c_call_id call) with
  | Some error => set_member "argumentError" (JString error) contract
  | None => contract
  end.
(** server/src/cursor/checkpoint/messages/encode.rs:134-157-wire_message, [the]: contracts of the calls. *)
(** server/src/cursor/checkpoint/messages/encode.rs:134-157, [wire_message]: the contracts of the calls. *)
Definition contracts_of (pending : PendingContext) (calls : list ToolCallContent) : json :=
  JObject (foldl (λ m c, map_insert (c_call_id c) (contract_of pending c) m) [] calls).

(** server/src/cursor/checkpoint/messages/encode.rs:113-165, [wire_message]. *)
Definition wire_message (m : ProjectedMessage) (model : str) (pending : option PendingContext) : res json :=
  content ← wire_content (p_content m) model;
  let root := object [("role", text (wire_role (p_role m))); ("content", content); ("id", JString (wire_message_id m))]%string in
  Ok match p_content m, pending with
     | PCAssistant _ _ _ calls, Some pending =>
         set_member "providerOptions" (object [("cursor", object
           [("pendingToolCallStartedAtMs", number (pc_started_at_ms pending));
            ("pendingToolExecutionContracts", contracts_of pending calls)])]%string) root
     | _, _ => root
     end.

(** server/src/cursor/checkpoint/messages/encode.rs:23-34, [stable_messages]: the instructions. *)
Definition system_message (instructions : str) : list ProjectedMessage :=
  match instructions with [] => [] | _ => [MkProjected (lit "system") RSystem (PCParts [PText instructions])] end.
(** server/src/cursor/checkpoint/messages/encode.rs:17-39, [stable_messages]. *)
Definition stable_messages (instructions : str) (messages : list CanonicalMessage) (model : str) : res (list (list Z)) :=
  projected ← project_messages messages;
  mapM (λ m, to_vec <$> wire_message m model None) (system_message instructions ++ projected).

(** server/src/cursor/checkpoint/messages/encode.rs:41-77, [staged_tool_round]. *)
Definition staged_tool_round (assistant : ToolRoundAssistant) (calls : list ToolCall) (model : str)
    (allowed_tools dynamic_tools : list str) (started_at_ms : Z) : res str :=
  let message := MkProjected (a_model_call_id assistant) RAssistant
    (PCAssistant (a_text assistant) (a_thinking assistant) (a_replay_state assistant)
       ((λ c, MkCall (index c) (call_id c) (name c) (arguments c)) <$> calls)) in
  v ← wire_message message model (Some (MkPending allowed_tools dynamic_tools started_at_ms (Some calls)));
  map_err Json (to_string v).

(** server/src/cursor/checkpoint/messages/encode.rs:79-103, [staged_final]. *)
Definition staged_final (message : CanonicalMessage) (model : str) (allowed_tools dynamic_tools : list str)
    (started_at_ms : Z) : res str :=
  projected ← project_messages [message];
  assistant ← ok_or (m ← head projected; if bool_decide (p_role m = RAssistant) then Some m else None)
                (protocol "final checkpoint stage is not an assistant message");
  v ← wire_message assistant model (Some (MkPending allowed_tools dynamic_tools started_at_ms None));
  map_err Json (to_string v).
End Encode.

(** ** Reading *)

Section Decode.
Context {SJ : SerdeJson} {SS : SerdeSlice} {SN : SerdeNumber} {D64 : Base64Decode} {B64 : Base64} {SH : Sha256}.

(** server/src/cursor/checkpoint/messages/decode.rs:254-259, [required_string]. *)
Definition required_string (value : json) (name : string) : res str :=
  ok_or (get_str name value) (Protocol (lit "Cursor message is missing " ++ lit name)).

(** server/src/cursor/checkpoint/messages/decode.rs:215-229, [decode_replay_state]. *)
Definition decode_replay_state (signature : str) : res ProviderReplayState :=
  match strip_prefix (lit REPLAY_ENVELOPE_PREFIX) signature with
  | None => Ok (MkReplay (lit "cursor_opaque") (JString signature))
  | Some encoded =>
      bytes ← map_err (λ e, Protocol (lit "invalid haxsd byok replay envelope base64: " ++ fe_display e)) (decode64 encoded);
      map_err (λ e, Protocol (lit "invalid haxsd byok replay envelope: " ++ fe_display e))
        (v ← from_slice bytes; replay_of_json v)
  end.

(** server/src/cursor/checkpoint/messages/decode.rs:145-165-decode_text, [one]: part. *)
(** server/src/cursor/checkpoint/messages/decode.rs:145-165, [decode_text]: one part. *)
Definition decode_part (part : json) : res ContentPart :=
  match get_str "type" part with
  | Some kind =>
      if named kind "text" then t ← required_string part "text"; Ok (PText t)
      else if named kind "image" then
        mime_type ← required_string part "mimeType";
        encoded ← required_string part "image";
        data ← map_err (λ e, Protocol (lit "invalid Cursor image base64: " ++ fe_display e)) (decode64 encoded);
        Ok (PImage mime_type data)
      else Err (Protocol (lit "unsupported Cursor message content part: " ++ kind))
  | None => Err (protocol "Cursor message content part is missing type")
  end.
(** server/src/cursor/checkpoint/messages/decode.rs:134-168, [decode_text]. *)
Definition decode_text (value : json) : res MessageContent :=
  match get_member "content" value with
  | Some (JString t) => Ok (CParts [PText t])
  | content =>
      parts ← ok_or (content ≫= as_array) (protocol "Cursor message content is not an array");
      CParts <$> mapM decode_part parts
  end.

(** What the loop of [decode_assistant] has read. *)
(** server/src/cursor/checkpoint/messages/decode.rs:171-174-decode_assistant, [its]: variables. *)
(** server/src/cursor/checkpoint/messages/decode.rs:171-174, [decode_assistant]: its variables. *)
Record Halves : Type := MkHalves {
  hv_text : list Z;
  hv_thinking : list Z;
  hv_calls : list ToolCallContent;
  hv_replay : option ProviderReplayState
}.
Definition text_field (part : json) : str := default [] (get_str "text" part).
(** server/src/cursor/checkpoint/messages/decode.rs:181-203-decode_assistant, [one]: part. *)
(** server/src/cursor/checkpoint/messages/decode.rs:181-203, [decode_assistant]: one part. *)
Definition decode_half (s : Halves) (part : json) : res Halves :=
  match get_str "type" part with
  | Some kind =>
      if named kind "text" then Ok (MkHalves (hv_text s ++ text_field part) (hv_thinking s) (hv_calls s) (hv_replay s))
      else if named kind "reasoning" then
        let thinking := hv_thinking s ++ text_field part in
        match get_str "signature" part with
        | Some signature =>
            match hv_replay s with
            | Some _ => Err (protocol "Cursor assistant has multiple reasoning signatures")
            | None => state ← decode_replay_state signature; Ok (MkHalves (hv_text s) thinking (hv_calls s) (Some state))
            end
        | None => Ok (MkHalves (hv_text s) thinking (hv_calls s) (hv_replay s))
        end
      else if named kind "tool-call" then
        id ← required_string part "toolCallId";
        name ← required_string part "toolName";
        Ok (MkHalves (hv_text s) (hv_thinking s)
              (hv_calls s ++ [MkCall (zlen (hv_calls s)) id name (default JNull (get_member "args" part))]) (hv_replay s))
      else Ok s
  | None => Ok s
  end.
Fixpoint decode_halves (s : Halves) (parts : list json) : res Halves :=
  match parts with
  | [] => Ok s
  | part :: parts => s ← decode_half s part; decode_halves s parts
  end.
(** server/src/cursor/checkpoint/messages/decode.rs:170-213, [decode_assistant]. *)
Definition decode_assistant (value : json) (internal_id : str) : res MessageContent :=
  s ← decode_halves (MkHalves [] [] [] None) (default [] (get_member "content" value ≫= as_array));
  Ok (CAssistant (hv_text s) (hv_thinking s)
        (match hv_calls s with [] => None | _ => Some (internal_id ++ lit ":tool-round") end) (hv_replay s) (hv_calls s)).

(** server/src/cursor/checkpoint/messages/decode.rs:231-252, [decode_tool_result]. *)
Definition decode_tool_result (value : json) : res ToolResultContent :=
  part ← ok_or ((get_member "content" value ≫= as_array) ≫= head) (protocol "Cursor tool message has no result part");
  id ← required_string part "toolCallId";
  name ← required_string part "toolName";
  Ok (MkResult id name (default [] (get_str "result" part)) (default false (get_member "isError" part ≫= as_bool)) None []).

(** server/src/cursor/checkpoint/messages/decode.rs:18-28-decode, [the]: role. *)
(** server/src/cursor/checkpoint/messages/decode.rs:18-28, [decode]: the role. *)
Definition decode_role (role : str) : res Role :=
  if named role "system" then Ok RSystem
  else if named role "user" then Ok RUser
  else if named role "assistant" then Ok RAssistant
  else if named role "tool" then Ok RTool
  else Err (Protocol (lit "unknown Cursor message role: " ++ role)).
(** server/src/cursor/checkpoint/messages/decode.rs:34-34, [decode]. *)
Definition is_request_context (role : Role) (wire_id : str) : bool :=
  bool_decide (role = RUser) && starts_with (lit "request-context:") wire_id.
(** server/src/cursor/checkpoint/messages/decode.rs:35-44, [decode]: the origin. *)
Definition decode_origin (role : Role) (wire_id : str) : Origin :=
  match role with
  | RSystem => OPrompt
  | RAssistant => OAssistant
  | RTool => OTool
  | RUser =>
      if starts_with (lit "runtime:") wire_id then ORuntime
      else if is_request_context role wire_id || starts_with (lit "selected-context:") wire_id then OPrompt
      else OUser
  end.
(** server/src/cursor/checkpoint/messages/decode.rs:46-50, [decode]: the content. *)
Definition decode_content (role : Role) (value : json) (internal_id : str) : res MessageContent :=
  match role with
  | RAssistant => decode_assistant value internal_id
  | RTool => CToolResult <$> decode_tool_result value
  | _ => decode_text value
  end.
(** The id a message is read back with. *)
(** server/src/cursor/checkpoint/messages/decode.rs:51-55, [decode]: the id. *)
Definition restored_id (role : Role) (wire_id internal_id : str) : str :=
  if starts_with (lit "runtime:") wire_id || is_request_context role wire_id then wire_id else internal_id.
(** server/src/cursor/checkpoint/messages/decode.rs:16-63, [decode]. *)
Definition decode (data : list Z) (internal_id : str) : res CanonicalMessage :=
  value ← map_err Json (from_slice data);
  role ← (required_string value "role" ≫= decode_role);
  let wire_id := default [] (get_str "id" value) in
  content ← decode_content role value internal_id;
  Ok (MkMessage (restored_id role wire_id internal_id) role (decode_origin role wire_id) content
        (strip_prefix (lit "runtime:") wire_id)).

(** server/src/cursor/checkpoint/messages/decode.rs:73-76, [decode_pending]: the id. *)
Definition pending_id (value : str) : str := lit "cursor-pending:" ++ encode64 (sha256 (as_bytes value)).
(** One call of a pending round. *)
(** server/src/cursor/checkpoint/messages/decode.rs:105-119, [decode_pending]: one call. *)
Definition recovered_call (wire : json) (model_call_id : str) (index : nat) (call : ToolCallContent) : res ToolCall :=
  arguments_text ← map_err Json (to_string (c_arguments call));
  Ok (MkToolCall (Z.of_nat index) (c_call_id call) model_call_id (c_name call) arguments_text (c_arguments call)
        (contracts ← pointer ["providerOptions"; "cursor"; "pendingToolExecutionContracts"]%string wire;
         contract ← member_at (c_call_id call) contracts;
         get_str "argumentError" contract)).
(** server/src/cursor/checkpoint/messages/decode.rs:101-121, [decode_pending]: the calls. *)
Fixpoint recovered_calls (wire : json) (model_call_id : str) (index : nat) (calls : list ToolCallContent) : res (list ToolCall) :=
  match calls with
  | [] => Ok []
  | call :: calls =>
      c ← recovered_call wire model_call_id index call;
      rest ← recovered_calls wire model_call_id (S index) calls;
      Ok (c :: rest)
  end.
(** server/src/cursor/checkpoint/messages/decode.rs:65-132, [decode_pending]. *)
Definition decode_pending (value : str) : res RecoveredToolRound :=
  wire ← map_err Json (from_str value);
  started_at_ms ← ok_or (pointer ["providerOptions"; "cursor"; "pendingToolCallStartedAtMs"]%string wire ≫= as_u64)
                    (protocol "Cursor pending assistant is missing pendingToolCallStartedAtMs");
  let internal_id := pending_id value in
  message ← decode (as_bytes value) internal_id;
  match content message with
  | CAssistant t thinking _ replay_state tool_calls =>
      match tool_calls with
      | [] => Err (protocol "Cursor resume contains a pending assistant without tool calls")
      | _ =>
          let model_call_id := match pointer ["providerOptions"; "cursor"; "modelProviderMessageId"]%string wire ≫= as_str with
                               | Some (c :: s) => c :: s
                               | _ => internal_id
                               end in
          calls ← recovered_calls wire model_call_id 0 tool_calls;
          Ok (MkRecovered (MkRoundAssistant t thinking model_call_id replay_state) calls started_at_ms)
      end
  | _ => Err (protocol "Cursor pending message is not an assistant message")
  end.
End Decode.

(** ** What is read back *)

Ltac read_obj := get_obj; unfold text; cbn [as_str mbind option_bind].

Section RoundTrip.
Context {SJ : SerdeJson} {SS : SerdeSlice} {SN : SerdeNumber} {D64 : Base64Decode} {B64 : Base64} {SH : Sha256}.

(** serde_json reads the value as it was written (a float may lose its last digit). *)
Definition reads_back (v : json) : Prop := from_slice (to_vec v) = Ok v.
(** A replay state that is written without loss: an opaque one is a string that is not taken for an envelope. *)
Definition replay_kept (state : ProviderReplayState) : Prop :=
  if named (provider_kind state) "cursor_opaque" then
    ∃ t, replay_value state = JString t ∧ starts_with (lit REPLAY_ENVELOPE_PREFIX) t = false
  else reads_back (replay_json state).
(** The roles the projection gives its messages. *)
Definition role_kept (m : ProjectedMessage) : Prop :=
  match p_content m with
  | PCParts _ => p_role m = RSystem ∨ p_role m = RUser
  | PCAssistant _ _ replay_state _ => p_role m = RAssistant ∧ ∀ state, replay_state = Some state → replay_kept state
  | PCToolResult _ => p_role m = RTool
  end.

Definition renumbered (calls : list ToolCallContent) : list ToolCallContent :=
  imap (λ i c, MkCall (Z.of_nat i) (c_call_id c) (c_name c) (c_arguments c)) calls.
Definition without_images (r : ToolResultContent) : ToolResultContent :=
  MkResult (r_call_id r) (r_name r) (r_content r) (r_is_error r) None [].
Definition restored_content (m : ProjectedMessage) (internal_id : str) : MessageContent :=
  match p_content m with
  | PCParts parts => CParts parts
  | PCAssistant t thinking replay_state calls =>
      CAssistant t thinking (match calls with [] => None | _ => Some (internal_id ++ lit ":tool-round") end)
        replay_state (renumbered calls)
  | PCToolResult r => CToolResult (without_images r)
  end.
(** The message that is read back for [m]. *)
Definition restored (m : ProjectedMessage) (internal_id : str) : CanonicalMessage :=
  let wire_id := wire_message_id m in
  MkMessage (restored_id (p_role m) wire_id internal_id) (p_role m) (decode_origin (p_role m) wire_id)
    (restored_content m internal_id) (strip_prefix (lit "runtime:") wire_id).

Hypothesis decode_encode64 : ∀ data, decode64 (encode64 data) = Ok data.
Hypothesis replay_of_replay_json : ∀ state, replay_of_json (replay_json state) = Ok state.

Lemma decode_encode_replay state signature : replay_kept state → encode_replay_state state = Ok signature →
  decode_replay_state signature = Ok state.
Proof.
  unfold replay_kept, encode_replay_state, decode_replay_state, strip_prefix. destruct state as [kind value]. cbn [provider_kind replay_value].
  destruct (named kind "cursor_opaque") eqn:Ek.
  - intros (t & -> & Ht). cbn [as_str ok_or]. intros [= <-]. rewrite Ht. by apply named_true in Ek as ->.
  - intros Hr <-%ok_inj.
    rewrite starts_with_app, drop_app_length, decode_encode64. cbn [map_err mbind result_bind].
    unfold reads_back in Hr. rewrite Hr. cbn [mbind result_bind]. by rewrite replay_of_replay_json.
Qed.

Lemma decode_wire_part part : decode_part (wire_part part) = Ok part.
Proof.
  unfold decode_part, required_string. destruct part as [t|mime data]; cbn [wire_part]; read_obj; rewrite !named_lit;
    cbn [String.eqb Ascii.eqb Bool.eqb ok_or mbind result_bind]; [done|]. by rewrite decode_encode64.
Qed.
Lemma decode_wire_parts parts : mapM decode_part (wire_part <$> parts) = Ok parts.
Proof.
  induction parts as [|part parts IH]; [done|]. rewrite fmap_cons. cbn [mapM]. rewrite decode_wire_part. cbn [mbind result_bind].
  by rewrite IH.
Qed.

Lemma decode_half_call s call : decode_half s (wire_call call) =
  Ok (MkHalves (hv_text s) (hv_thinking s)
        (hv_calls s ++ [MkCall (zlen (hv_calls s)) (c_call_id call) (c_name call) (c_arguments call)]) (hv_replay s)).
Proof.
  unfold decode_half, wire_call, required_string. read_obj. rewrite !named_lit. done.
Qed.
Lemma decode_calls calls : ∀ s, decode_halves s (wire_call <$> calls) =
  Ok (MkHalves (hv_text s) (hv_thinking s)
        (hv_calls s ++ imap (λ i c, MkCall (Z.of_nat (length (hv_calls s) + i)) (c_call_id c) (c_name c) (c_arguments c)) calls)
        (hv_replay s)).
Proof.
  induction calls as [|c calls IH]; intros s; cbn [decode_halves fmap list_fmap imap].
  - rewrite app_nil_r. by destruct s.
  - rewrite decode_half_call. cbn [mbind result_bind]. rewrite IH. cbn [hv_text hv_thinking hv_calls hv_replay].
    rewrite <- app_assoc. cbn [app]. rewrite Nat.add_0_r. do 4 f_equal. apply imap_ext. intros i x _. cbn. f_equal.
    rewrite length_app. cbn. lia.
Qed.
Lemma decode_halves_app p q : ∀ s, decode_halves s (p ++ q) = (s ← decode_halves s p; decode_halves s q).
Proof. induction p as [|x p IH]; intros s; [done|]. cbn. destruct (decode_half s x); [apply IH|done]. Qed.

Lemma decode_reasoning thinking replay_state model parts : (∀ state, replay_state = Some state → replay_kept state) →
  wire_reasoning thinking replay_state model = Ok parts →
  decode_halves (MkHalves [] [] [] None) parts = Ok (MkHalves [] thinking [] replay_state).
Proof.
  unfold wire_reasoning. intros Hk. destruct replay_state as [state|].
  - destruct (encode_replay_state state) as [signature|] eqn:E; [|done]. cbn [mbind result_bind]. intros <-%ok_inj.
    cbn [decode_halves]. unfold decode_half, text_field, get_str. rewrite !get_set_object. read_obj. rewrite !named_lit.
    cbn [String.eqb Ascii.eqb Bool.eqb hv_replay hv_text hv_thinking hv_calls app default].
    rewrite (decode_encode_replay state signature); [done|by apply Hk|done].
  - intros <-%ok_inj. destruct thinking as [|c thinking]; [done|]. cbn [decode_halves]. unfold decode_half, text_field. read_obj.
    rewrite !named_lit. done.
Qed.

Lemma decode_value m model wire data v internal_id : role_kept m → wire_content (p_content m) model = Ok wire →
  from_slice data = Ok v → get_str "role" v = Some (lit (wire_role (p_role m))) → get_member "content" v = Some wire →
  get_str "id" v = Some (wire_message_id m) → decode data internal_id = Ok (restored m internal_id).
Proof.
  unfold role_kept, decode. destruct m as [mid role content]. cbn [p_content p_role].
  intros Hk Ec Hr Hrole Hwire Hid. rewrite Hr. cbn [map_err mbind result_bind].
  set (id := wire_message_id (MkProjected mid role content)) in *.
  unfold required_string. rewrite Hrole, Hid. cbn [ok_or mbind result_bind].
  assert (decode_role (lit (wire_role role)) = Ok role) as ->
    by (unfold decode_role; rewrite !named_lit; by destruct role).
  cbn [mbind result_bind default]. unfold restored. cbn [p_role]. fold id.
  enough (decode_content role v internal_id = Ok (restored_content (MkProjected mid role content) internal_id)) as -> by done.
  unfold decode_content, restored_content. cbn [p_content]. destruct content as [parts|t thinking replay_state calls|r].
  - apply ok_inj in Ec as <-. assert (decode_text v = Ok (CParts parts)) as Hd.
    { unfold decode_text. rewrite Hwire. cbn [as_array option_bind mbind ok_or result_bind]. by rewrite decode_wire_parts. }
    by destruct Hk as [-> | ->].
  - destruct Hk as [-> Hk]. cbn [wire_content] in Ec. destruct (wire_reasoning _ _ _) as [reasoning|] eqn:Er; [|done].
    cbn [mbind result_bind] in Ec. apply ok_inj in Ec as <-. unfold decode_assistant. rewrite Hwire.
    cbn [as_array option_bind mbind].
    cbn [from_option Datatypes.id]. rewrite decode_halves_app, (decode_reasoning _ _ _ _ Hk Er). cbn [mbind result_bind]. rewrite decode_halves_app.
    assert (decode_halves (MkHalves [] thinking [] replay_state)
      match t with [] => [] | _ => [object [("type", text "text"); ("text", JString t)]%string] end =
      Ok (MkHalves t thinking [] replay_state)) as ->.
    { destruct t; [done|]. cbn [decode_halves]. unfold decode_half, text_field. read_obj. rewrite !named_lit. done. }
    cbn [mbind result_bind]. rewrite decode_calls. cbn [hv_text hv_thinking hv_calls hv_replay mbind result_bind app length Nat.add].
    unfold renumbered. by destruct calls.
  - subst role. apply ok_inj in Ec as <-. unfold decode_tool_result, required_string. rewrite Hwire.
    cbn [as_array head ok_or mbind option_bind result_bind]. unfold wire_result. get_obj. done.
Qed.

Lemma decode_wire_message m model v internal_id : role_kept m → wire_message m model None = Ok v → reads_back v →
  decode (to_vec v) internal_id = Ok (restored m internal_id).
Proof.
  unfold wire_message. intros Hk Hw Hr. destruct (wire_content (p_content m) model) as [wire|] eqn:Ec; [|done].
  cbn [mbind result_bind] in Hw.
  assert (v = object [("role", text (wire_role (p_role m))); ("content", wire); ("id", JString (wire_message_id m))]%string) as ->.
  { destruct (p_content m); by apply ok_inj in Hw as <-. }
  eapply decode_value; [done|exact Ec|exact Hr|by get_obj..].
Qed.

(** ** The projection of what is read back *)

(** What a provider sees of a projected message, up to ids, the numbering of the calls and images. *)
Definition seen (m : ProjectedMessage) : Role * ProjectedContent :=
  (p_role m,
   match p_content m with
   | PCParts parts => PCParts parts
   | PCAssistant t thinking replay_state calls => PCAssistant t thinking replay_state (renumbered calls)
   | PCToolResult r => PCToolResult (without_images r)
   end).
(** Names that [normalize_tool_name] leaves as they are, as those of every projection. *)
Definition name_kept (n : str) : Prop := normalize_tool_name n = n.
Definition names_kept (m : ProjectedMessage) : Prop :=
  match p_content m with
  | PCParts _ => True
  | PCAssistant _ _ _ calls => Forall (λ c, name_kept (c_name c)) calls
  | PCToolResult r => name_kept (r_name r)
  end.

Lemma name_idempotent n : name_kept (normalize_tool_name n).
Proof.
  unfold name_kept, normalize_tool_name. set (f := λ c, _).
  assert (∀ c, f (f c) = f c) as Hf.
  { intros c. unfold f at 2 3. destruct (is_ascii_alnum c || (c =? 95) || (c =? 45)) eqn:E; [unfold f; by rewrite E|done]. }
  destruct n as [|c n]; [done|]. cbn [fmap list_fmap]. change (f <$> (f c :: (f <$> n))) with (f (f c) :: (f <$> (f <$> n))).
  rewrite Hf. f_equal. rewrite <- list_fmap_compose. apply list_fmap_ext. intros i x _. apply Hf.
Qed.
Lemma renumbered_names calls : Forall (λ c, name_kept (c_name c)) calls → normalized_tool_call <$> renumbered calls = renumbered calls.
Proof.
  unfold renumbered. rewrite fmap_imap. intros H. apply imap_ext. intros i c Hc. unfold compose, normalized_tool_call. cbn [c_index c_call_id c_name c_arguments].
  f_equal. apply list_elem_of_lookup_2 in Hc. rewrite Forall_forall in H. by apply H.
Qed.
Lemma renumbered_from k calls : StronglySorted (λ c d, c_index c ≤ c_index d)
  (imap (λ i c, MkCall (Z.of_nat (k + i)) (c_call_id c) (c_name c) (c_arguments c)) calls).
Proof.
  revert k. induction calls as [|c calls IH]; intros k; cbn [imap]; [constructor|]. constructor.
  - specialize (IH (S k)). erewrite imap_ext; [exact IH|]. intros i x _. cbn. do 2 f_equal. lia.
  - apply Forall_forall. intros d Hd. apply list_elem_of_lookup_1 in Hd as [i Hd]. rewrite list_lookup_imap in Hd.
    apply fmap_Some in Hd as (x & _ & ->). cbn. lia.
Qed.
Lemma renumbered_ids calls : c_call_id <$> renumbered calls = c_call_id <$> calls.
Proof. unfold renumbered. rewrite fmap_imap. apply list_eq. intros i. rewrite list_lookup_imap, list_lookup_fmap. done. Qed.
Lemma renumbered_twice calls : renumbered (renumbered calls) = renumbered calls.
Proof.
  apply list_eq. intros i. unfold renumbered. rewrite !list_lookup_imap. by destruct (calls !! i).
Qed.

Lemma sort_calls_sorted_id calls : StronglySorted (λ c d, c_index c ≤ c_index d) calls → sort_calls calls = calls.
Proof.
  induction 1 as [|c calls _ IH Hc]; [done|]. cbn [sort_calls foldr]. fold (sort_calls calls). rewrite IH.
  destruct calls as [|d calls]; [done|]. cbn [insert_call]. apply Forall_inv in Hc. by rewrite (proj2 (Z.leb_le _ _) Hc).
Qed.

(** [messages] are projected to [projected], whatever came before. *)
Definition projects_to (messages : list CanonicalMessage) (projected : list ProjectedMessage) : Prop :=
  ∀ before, run project_body project_body_decreases (before, messages) = Ok (before ++ projected).

Lemma projects_to_nil : projects_to [] [].
Proof. intros before. rewrite run_eq. cbn. by rewrite app_nil_r. Qed.
Lemma projects_to_one m messages projected : starts_round m = false → projects_to messages projected →
  projects_to (m :: messages) (project_message m :: projected).
Proof.
  intros Hm H before. rewrite run_eq. unfold project_body at 1.
  assert (project_tool_round (m :: messages) = Ok None) as ->.
  { unfold project_tool_round. unfold starts_round in Hm. by destruct (content m) as [|? ? [?|] ? [|]|]. }
  rewrite H, <- app_assoc. done.
Qed.
Lemma projects_to_round messages group rest projected : project_tool_round messages = Ok (Some (group, rest)) →
  projects_to rest projected → projects_to messages (group ++ projected).
Proof.
  intros Hg H before. rewrite run_eq. unfold project_body at 1. rewrite Hg.
  destruct messages as [|m messages]; [done|]. by rewrite H, <- app_assoc.
Qed.

(** What follows a round is no result, and no half of the same round. *)
Definition ends_round (group_id : str) (rest : list CanonicalMessage) : Prop :=
  match rest with
  | m :: _ => match content m with
              | CAssistant _ _ (Some g) _ _ => g ≠ group_id
              | CToolResult _ => False
              | _ => True
              end
  | [] => True
  end.

Lemma round_results_all calls (results : list (str * ToolResultContent)) messages rest group_id : ∀ before,
  Forall2 (λ m r, message_id m = r.1 ∧ content m = CToolResult r.2) messages results →
  Forall (λ r, r_call_id r.2 ∈ c_call_id <$> calls) results → NoDup ((λ r, r_call_id r.2) <$> (before ++ results)) →
  ends_round group_id rest → round_results calls before (messages ++ rest) = Ok (before ++ results, rest).
Proof.
  intros before H. revert before. induction H as [|m [id r] messages results [Hid Hc] _ IH]; intros before Hin Hn He.
  - rewrite app_nil_r. cbn [app]. destruct rest as [|m rest]; [done|]. cbn [round_results]. unfold ends_round in He.
    by destruct (content m).
  - cbn [app round_results]. rewrite Hc. apply Forall_cons in Hin as [Hr Hin]. cbn [snd fst] in *.
    rewrite bool_decide_eq_true_2 by done. cbn [negb]. unfold has_result. rewrite bool_decide_eq_false_2.
    + rewrite Hid, IH; [by rewrite <- app_assoc|done| |done]. by rewrite <- app_assoc.
    + rewrite fmap_app in Hn. apply NoDup_app in Hn as (_ & Hn & _). intros Hx. apply (Hn _ Hx). by left.
Qed.

(** One assistant message with its results is one round. *)
Lemma project_round_of m t th g rp calls (results : list (str * ToolResultContent)) messages rest :
  content m = CAssistant t th (Some g) rp calls → calls ≠ [] →
  StronglySorted (λ c d, c_index c ≤ c_index d) calls →
  Forall2 (λ m r, message_id m = r.1 ∧ content m = CToolResult r.2) messages results →
  NoDup ((λ r, r_call_id r.2) <$> results) → (∀ id, id ∈ c_call_id <$> calls ↔ id ∈ (λ r, r_call_id r.2) <$> results) →
  ends_round g rest →
  project_tool_round (m :: messages ++ rest) = Ok (Some
    (MkProjected (message_id m) RAssistant (PCAssistant t th rp (normalized_tool_call <$> calls))
     :: ((λ r, MkProjected (fst r) RTool (PCToolResult (normalized_tool_result (snd r)))) <$> results), rest)).
Proof.
  intros Hm Hc Hs Hf Hn Hiff He. unfold project_tool_round. rewrite Hm, bool_decide_eq_false_2 by done.
  assert (∀ c : ToolCallContent, c_call_id (normalized_tool_call c) = c_call_id c) as Hni by done.
  assert (c_call_id <$> (normalized_tool_call <$> calls) = c_call_id <$> calls) as Hids by (by rewrite <- list_fmap_compose).
  assert (round_results (normalized_tool_call <$> calls) [] (messages ++ rest) = Ok (results, rest)) as Hr.
  { rewrite (round_results_all _ results _ _ g []); [done|done| |done|done].
    rewrite Hids. apply Forall_forall. intros r Hr. apply Hiff. apply list_elem_of_fmap. by exists r. }
  rewrite run_eq. unfold round_body at 1. cbn [rd_rest rd_replay rd_calls rd_results rd_text rd_thinking app]. rewrite Hm.
  rewrite bool_decide_eq_true_2, bool_decide_eq_false_2 by done. cbn [negb orb]. rewrite Hr.
  assert (∀ s, rd_rest s = rest → round_body g s = Done (Ok s)) as Hstop.
  { intros s Hs'. unfold round_body. rewrite Hs'. destruct rest as [|m' rest]; [done|]. unfold ends_round in He.
    destruct (content m') as [|? ? [g'|] ? cs|]; try done. by rewrite bool_decide_eq_false_2. }
  assert (match rp with Some _ | _ => rp end = rp) as Hrp by (by destruct rp).
  rewrite run_eq, Hstop by done. cbn [mbind result_bind rd_calls rd_results rd_text rd_thinking rd_replay rd_rest].
  rewrite sort_calls_sorted_id.
  2: { clear -Hs. induction Hs as [|c calls _ IH Hc]; [constructor|]. constructor; [done|]. by apply Forall_fmap. }
  destruct (list_find _ _) as [[i c]|] eqn:Ef; [|by destruct rp].
  apply list_find_Some in Ef as (Hi & Hno & _). exfalso. apply list_elem_of_lookup_2 in Hi.
  apply bool_decide_eq_false in Hno. apply Hno. apply Hiff. rewrite <- Hids. apply list_elem_of_fmap. by exists c.
Qed.

Lemma paired_head m history : paired (m :: history) → ∀ r, p_content m ≠ PCToolResult r.
Proof.
  intros H r Hr. remember (m :: history) as l eqn:El. revert m history El Hr.
  induction H as [|m h Hl _ _|group h Hg Hp IH]; intros m' history [= El] Hr.
  - subst. unfold lone in Hl. by rewrite Hr in Hl.
  - destruct Hg as (id & t & th & rp & calls & results & -> & _). injection El as <- _. done.
Qed.
Lemma ends_round_restored g rest ids : paired rest → g ∉ ids → ends_round (g ++ lit ":tool-round") (zip_with restored rest ids).
Proof.
  intros Hp Hg. destruct rest as [|m rest]; [done|]. destruct ids as [|i ids]; [done|]. cbn [zip_with ends_round].
  pose proof (paired_head _ _ Hp) as Hh. unfold restored, restored_content. cbn [content]. destruct (p_content m) as [|t th rp calls|r]; [done| |by eapply Hh].
  destruct calls; [done|]. intros E. apply app_inv_tail in E as ->. apply Hg. by left.
Qed.

Lemma seen_lone m i : lone m → seen (project_message (restored m i)) = seen m.
Proof.
  unfold lone, seen, project_message, restored, restored_content. destruct m as [mid role content]. cbn.
  by destruct content as [|t th rp calls|]; [|intros ->|].
Qed.
Lemma starts_lone m i : lone m → starts_round (restored m i) = false.
Proof. unfold lone, starts_round, restored, restored_content. cbn. by destruct (p_content m); [|intros ->|]. Qed.

Lemma no_results (calls : list ToolCallContent) (results : list (str * ToolResultContent)) :
  (∀ id, id ∈ c_call_id <$> calls ↔ id ∈ (λ r, r_call_id r.2) <$> results) → calls = [] → results = [].
Proof.
  intros H ->. destruct results as [|r results]; [done|]. exfalso. specialize (H (r_call_id r.2)). cbn in H.
  apply (not_elem_of_nil (r_call_id r.2)). apply H. by left.
Qed.

Definition result_message (r : str * ToolResultContent) : ProjectedMessage := MkProjected r.1 RTool (PCToolResult r.2).
Definition restored_result (r : str * ToolResultContent) (i : str) : str * ToolResultContent :=
  (message_id (restored (result_message r) i), without_images r.2).
Lemma restored_results (results : list (str * ToolResultContent)) ids :
  Forall2 (λ m r, message_id m = r.1 ∧ content m = CToolResult r.2)
    (zip_with restored (result_message <$> results) ids) (zip_with restored_result results ids).
Proof. revert ids. induction results as [|r results IH]; intros [|i ids]; cbn; constructor; [done|apply IH]. Qed.
Lemma restored_result_ids (results : list (str * ToolResultContent)) ids : length ids = length results →
  (λ r, r_call_id r.2) <$> zip_with restored_result results ids = (λ r, r_call_id r.2) <$> results.
Proof. revert ids. induction results as [|r results IH]; intros [|i ids]; cbn; [done..|]. intros [= E]. by rewrite IH. Qed.
Lemma seen_results (results : list (str * ToolResultContent)) ids : length ids = length results →
  Forall names_kept (result_message <$> results) →
  seen <$> ((λ r, MkProjected (fst r) RTool (PCToolResult (normalized_tool_result (snd r)))) <$> zip_with restored_result results ids) =
  seen <$> (result_message <$> results).
Proof.
  revert ids. induction results as [|r results IH]; intros [|i ids]; cbn [length]; try done. intros [= E] [Hr Hn]%Forall_cons.
  cbn [zip_with fmap list_fmap]. rewrite IH by done. f_equal. unfold seen. cbn. unfold without_images, normalized_tool_result. cbn.
  do 4 f_equal. exact Hr.
Qed.

Lemma restored_round group ids rest projected : round_ok group → Forall role_kept group → Forall names_kept group →
  length ids = length group → ends_round (default [] (head ids) ++ lit ":tool-round") rest → projects_to rest projected →
  ∃ group', projects_to (zip_with restored group ids ++ rest) (group' ++ projected) ∧ seen <$> group' = seen <$> group.
Proof.
  intros (mid & t & th & rp & calls & results & -> & _ & Hn & Hiff) Hk Hm Hl He Hp.
  destruct ids as [|i ids]; [done|]. cbn [length fmap list_fmap] in Hl. rewrite length_fmap in Hl. injection Hl as Hl.
  change ((λ r, MkProjected r.1 RTool (PCToolResult r.2)) <$> results) with (result_message <$> results) in *.
  apply Forall_cons in Hk as [Hka Hk]. apply Forall_cons in Hm as [Hma Hm]. cbn [head default] in He.
  destruct (decide (calls = [])) as [->|Hc].
  - pose proof (no_results _ _ Hiff eq_refl) as ->. destruct ids; [|done]. set (a := MkProjected mid RAssistant _).
    exists [project_message (restored a i)]. split; [|by rewrite !list_fmap_singleton, seen_lone].
    apply (projects_to_one (restored a i)); [by apply starts_lone|done].
  - set (a := MkProjected mid RAssistant (PCAssistant t th rp calls)).
    exists (MkProjected (message_id (restored a i)) RAssistant (PCAssistant t th rp (normalized_tool_call <$> renumbered calls))
       :: ((λ r, MkProjected (fst r) RTool (PCToolResult (normalized_tool_result (snd r)))) <$> zip_with restored_result results ids)).
    split.
    + eapply projects_to_round; [|exact Hp]. cbn [zip_with app].
      apply (project_round_of (restored a i) t th (i ++ lit ":tool-round") rp (renumbered calls)).
      * unfold restored, restored_content. cbn. by destruct calls.
      * destruct calls; done.
      * apply (renumbered_from 0).
      * apply restored_results.
      * by rewrite restored_result_ids.
      * intros id. by rewrite restored_result_ids, renumbered_ids.
      * exact He.
    + cbn [fmap list_fmap]. rewrite (seen_results results ids) by done. f_equal. unfold seen. cbn.
      by rewrite renumbered_names, renumbered_twice.
Qed.

Lemma restored_projects projected : paired projected → Forall role_kept projected → Forall names_kept projected →
  ∀ ids, length ids = length projected → NoDup ids →
  ∃ projected', projects_to (zip_with restored projected ids) projected' ∧ seen <$> projected' = seen <$> projected.
Proof.
  induction 1 as [|m h Hl Hp IH|group h Hg Hp IH]; intros Hk Hm ids Hlen Hn.
  - destruct ids; [|done]. exists []. split; [apply projects_to_nil|done].
  - destruct ids as [|i ids]; [done|]. injection Hlen as Hlen. apply NoDup_cons in Hn as [_ Hn].
    destruct (IH (Forall_inv_tail Hk) (Forall_inv_tail Hm) ids Hlen Hn) as (ps & Hps & Hs).
    exists (project_message (restored m i) :: ps). split; [by apply projects_to_one; [apply starts_lone|]|].
    cbn [fmap list_fmap]. by rewrite seen_lone, Hs.
  - apply Forall_app in Hk as [Hkg Hk]. apply Forall_app in Hm as [Hmg Hm]. rewrite length_app in Hlen.
    rewrite <- (take_drop (length group) ids) in Hn |- *. apply NoDup_app in Hn as (_ & Hd & Hn).
    destruct (IH Hk Hm (drop (length group) ids)) as (ps & Hps & Hs); [rewrite length_drop; lia|done|].
    destruct (restored_round group (take (length group) ids) (zip_with restored h (drop (length group) ids)) ps) as (g' & Hg' & Hs').
    + done.
    + done.
    + done.
    + rewrite length_take. lia.
    + apply ends_round_restored; [done|]. apply Hd. destruct group as [|m group]; [by destruct Hg as (?&?&?&?&?&?&?&_)|].
      destruct ids; [done|]. by left.
    + done.
    + exists (g' ++ ps). rewrite zip_with_app by (rewrite length_take; lia). split; [done|]. by rewrite !fmap_app, Hs, Hs'.
Qed.

Lemma projected_names history projected : project_messages history = Ok projected → Forall names_kept projected.
Proof.
  intros Hp%projects_of. induction Hp as [|m ms ps _ _ IH|taken ms group gid ps [_ _ _ Hg _ _ _ _ Hc Hr] _ IH]; [constructor|..].
  - constructor; [|done]. unfold names_kept, project_message. cbn. destruct (content m); cbn; [done| |apply name_idempotent].
    apply Forall_fmap, Forall_forall. intros c _. apply name_idempotent.
  - apply Forall_app. split; [|done]. destruct Hg as (id & t & th & rp & calls & results & -> & _).
    assert (∀ rs : list (str * ToolResultContent), let tail := (λ r, MkProjected r.1 RTool (PCToolResult r.2)) <$> rs in
      concat (p_calls_of <$> tail) = [] ∧ concat (p_results_of <$> tail) = rs) as Ht.
    { induction rs as [|r rs [H1 H2]]; [done|]. cbn in *. rewrite H1, H2. by destruct r. }
    destruct (Ht results) as [H1 H2]. cbn in Hc, Hr. rewrite H1, app_nil_r in Hc. rewrite H2 in Hr. constructor.
    + unfold names_kept. cbn. rewrite Hc. apply Forall_fmap, Forall_forall. intros c _. apply name_idempotent.
    + rewrite Hr. rewrite <- list_fmap_compose. apply Forall_fmap, Forall_forall. intros r _. apply name_idempotent.
Qed.

Lemma decode_stable messages model blobs ids : Forall role_kept messages →
  (∀ m v, m ∈ messages → wire_message m model None = Ok v → reads_back v) →
  mapM (λ m, to_vec <$> wire_message m model None) messages = Ok blobs → length ids = length blobs →
  mapM (λ p, decode p.1 p.2) (zip blobs ids) = Ok (zip_with restored messages ids) ∧ length blobs = length messages.
Proof.
  intros Hk. revert blobs ids. induction Hk as [|m messages Hm _ IH]; intros blobs ids Hr H Hl.
  - injection H as <-. by destruct ids.
  - cbn [mapM] in H. destruct (wire_message m model None) as [v|] eqn:Ev; [|done]. cbn [fmap result_fmap mbind result_bind] in H.
    destruct (mapM _ messages) as [rest|] eqn:Er; [|done]. cbn [mbind result_bind] in H. apply ok_inj in H as <-.
    destruct ids as [|i ids]; [done|]. injection Hl as Hl.
    destruct (IH rest ids) as [H1 H2]; [intros; apply (Hr m0); [by right|done]|done|done|].
    cbn [zip zip_with mapM fst snd]. rewrite (decode_wire_message m model v i Hm Ev); [|apply (Hr m); [by left|done]].
    cbn [mbind result_bind]. cbn [zip] in H1. rewrite H1. cbn. by rewrite H2.
Qed.

Lemma history_restored instructions history model projected blobs ids :
  project_messages history = Ok projected → paired projected → Forall role_kept projected →
  (∀ m v, m ∈ system_message instructions ++ projected → wire_message m model None = Ok v → reads_back v) →
  stable_messages instructions history model = Ok blobs → length ids = length blobs → NoDup ids →
  ∃ messages again, mapM (λ p, decode p.1 p.2) (zip blobs ids) = Ok messages ∧ project_messages messages = Ok again ∧
    seen <$> again = seen <$> (system_message instructions ++ projected).
Proof.
  intros Hp Hpaired Hk Hr Hs Hl Hn. unfold stable_messages in Hs. rewrite Hp in Hs. cbn [mbind result_bind] in Hs.
  set (all := system_message instructions ++ projected) in *.
  assert (Forall role_kept all ∧ paired all ∧ Forall names_kept all) as (Hka & Hpa & Hna).
  { apply projected_names in Hp. unfold all, system_message. destruct instructions as [|c instructions]; [done|]. cbn [app].
    split; [constructor; [by left|done]|]. split; [by constructor|by constructor]. }
  destruct (decode_stable all model blobs ids Hka Hr Hs Hl) as [Hd Hlen].
  destruct (restored_projects all Hpa Hka Hna ids) as (again & Ha & Hseen); [lia|done|].
  exists (zip_with restored all ids), again. split_and!; [done| |done]. unfold project_messages. by rewrite (Ha []).
Qed.

(** A conversation that is resumed from its checkpoint shows its provider what it showed before: when the
    history of a checkpoint is written message by message and read back, the projection of what was read is the projection that was
    written, behind the system prompt, with every text, thinking, replay state, call and result in its place; only the ids,
    the numbering of the calls and the images of the results are not kept. *)
Theorem checkpoint_history_restored instructions history model projected blobs ids :
  project_messages history = Ok projected → paired projected → Forall role_kept projected →
  (∀ m v, m ∈ system_message instructions ++ projected → wire_message m model None = Ok v → reads_back v) →
  stable_messages instructions history model = Ok blobs → length ids = length blobs → NoDup ids →
  ∃ messages again, mapM (λ p, decode p.1 p.2) (zip blobs ids) = Ok messages ∧ project_messages messages = Ok again ∧
    seen <$> again = seen <$> (system_message instructions ++ projected).
Proof. apply history_restored. Qed.

(** ** A round that waits for its results *)

Lemma argument_error_first pending calls c : pc_tool_calls pending = Some calls → NoDup (call_id <$> calls) → c ∈ calls →
  argument_error_of pending (call_id c) = argument_error c.
Proof.
  unfold argument_error_of. intros -> Hn Hc. cbn [mbind option_bind].
  destruct (list_find _ calls) as [[i d]|] eqn:E; cbn [fmap option_fmap option_map snd mbind option_bind].
  - apply list_find_Some in E as (Hi & Hid & _). apply list_elem_of_lookup in Hc as [j Hj].
    assert (i = j) as ->; [|by simplify_eq].
    eapply NoDup_lookup; [exact Hn|rewrite list_lookup_fmap, Hi; reflexivity|rewrite list_lookup_fmap, Hj; cbn; by rewrite Hid].
  - apply list_find_None in E. rewrite Forall_forall in E. by destruct (E c).
Qed.

Lemma contract_error pending call : get_str "argumentError" (contract_of pending call) = argument_error_of pending (c_call_id call).
Proof.
  unfold contract_of, get_str. destruct (argument_error_of _ _); [rewrite get_set_object; done|]. by get_obj.
Qed.
Lemma contract_found pending calls id : id ∈ c_call_id <$> calls →
  ∃ call, member_at id (contracts_of pending calls) = Some (contract_of pending call) ∧ c_call_id call = id.
Proof.
  unfold contracts_of.
  assert (∀ m, id ∈ c_call_id <$> calls ∨ (∃ call, member_at id (JObject m) = Some (contract_of pending call) ∧ c_call_id call = id) →
    ∃ call, member_at id (JObject (foldl (λ m c, map_insert (c_call_id c) (contract_of pending c) m) m calls)) = Some (contract_of pending call)
      ∧ c_call_id call = id) as H; [|intros Hin; apply H; by left].
  induction calls as [|c calls IH]; intros m [Hin|Hm]; cbn [foldl]; [by apply not_elem_of_nil in Hin|done|..].
  - apply IH. apply elem_of_cons in Hin as [->|Hin]; [|by left]. right. exists c. by rewrite member_at_insert, decide_True.
  - apply IH. right. rewrite member_at_insert. destruct (decide (c_call_id c = id)); [by exists c|done].
Qed.

Hypothesis prints : ∀ v, ∃ s, to_string v = Ok s.

Definition kept_call (c : ToolCall) : str * str * json * option str := (call_id c, name c, arguments c, argument_error c).
Definition kept_index (c : ToolCall) : Z := index c.

Lemma recovered_all wire model_call_id pending (calls : list ToolCall) contracts : ∀ k,
  pointer ["providerOptions"; "cursor"; "pendingToolExecutionContracts"]%string wire = Some contracts →
  (∀ c, c ∈ calls → ∃ call, member_at (call_id c) contracts = Some (contract_of pending call) ∧ c_call_id call = call_id c) →
  (∀ c, c ∈ calls → argument_error_of pending (call_id c) = argument_error c) →
  ∃ again, recovered_calls wire model_call_id k
      (imap (λ i c, MkCall (Z.of_nat (k + i)) (call_id c) (name c) (arguments c)) calls) = Ok again ∧
    kept_call <$> again = kept_call <$> calls ∧
    kept_index <$> again = imap (λ i _, Z.of_nat (k + i)) calls ∧ Forall (λ c, model_call_id = Message.model_call_id c) again.
Proof.
  intros k Hp. revert k. induction calls as [|c calls IH]; intros k Hc He; [by exists []|].
  destruct (IH (S k)) as (again & Ha & Hk & Hi & Hm); [intros; apply Hc; by right|intros; apply He; by right|].
  destruct (prints (arguments c)) as [s Hs]. destruct (Hc c) as (call & Hcall & Hid); [by left|].
  exists (MkToolCall (Z.of_nat k) (call_id c) model_call_id (name c) s (arguments c) (argument_error c) :: again).
  cbn [imap recovered_calls]. unfold recovered_call. cbn [c_arguments c_call_id c_name]. rewrite Hs. cbn [map_err mbind result_bind].
  rewrite Hp. cbn [mbind option_bind]. rewrite Hcall. cbn [mbind option_bind]. rewrite contract_error, Hid, (He c) by by left.
  erewrite imap_ext; [rewrite Ha|intros i x _; cbn; do 2 f_equal; lia]. cbn [mbind result_bind]. split; [done|].
  cbn [fmap list_fmap]. rewrite Hk, Hi. split; [done|]. split; [|by constructor]. cbn. rewrite Nat.add_0_r. f_equal.
  apply imap_ext. intros i x _. cbn. lia.
Qed.

Definition of_calls (calls : list ToolCall) : list ToolCallContent :=
  (λ c, MkCall (index c) (call_id c) (name c) (arguments c)) <$> calls.
Lemma renumbered_of_calls calls : renumbered (of_calls calls) =
  imap (λ i c, MkCall (Z.of_nat (0 + i)) (call_id c) (name c) (arguments c)) calls.
Proof. apply list_eq. intros i. unfold renumbered, of_calls. rewrite !list_lookup_imap, list_lookup_fmap. by destruct (calls !! i). Qed.

Lemma read_pending v members pending : v = set_member "providerOptions" (object [("cursor", object members)])%string (object pending) →
  ∀ name, name ≠ "providerOptions"%string → get_member name v = get_member name (object pending).
Proof. intros -> name Hn. rewrite get_set_object. by destruct (String.eqb_spec "providerOptions" name). Qed.

(** A round whose calls are still running is recovered from the checkpoint as it was started: the text, the
    thinking and the replay state of its assistant message, the time it started, and its calls in their order with their ids, names, arguments and the
    errors of the arguments that could not be read. *)
Theorem pending_round_restored assistant calls model allowed_tools dynamic_tools started_at_ms value :
  calls ≠ [] → NoDup (call_id <$> calls) → (∀ state, a_replay_state assistant = Some state → replay_kept state) →
  number_as_u64 (decimal started_at_ms) = Some started_at_ms →
  (∀ v, to_string v = Ok value → from_str value = Ok v ∧ from_slice (as_bytes value) = Ok v) →
  staged_tool_round assistant calls model allowed_tools dynamic_tools started_at_ms = Ok value →
  ∃ round, decode_pending value = Ok round ∧ rr_started_at_ms round = started_at_ms ∧
    a_text (rr_assistant round) = a_text assistant ∧ a_thinking (rr_assistant round) = a_thinking assistant ∧
    a_replay_state (rr_assistant round) = a_replay_state assistant ∧
    kept_call <$> rr_calls round = kept_call <$> calls ∧
    kept_index <$> rr_calls round = imap (λ i _, Z.of_nat i) calls ∧
    Forall (λ c, a_model_call_id (rr_assistant round) = Message.model_call_id c) (rr_calls round).
Proof.
  intros Hne Hn Hk Hnum Hread. unfold staged_tool_round. set (m := MkProjected _ _ _).
  set (pending := MkPending _ _ _ _). unfold wire_message. destruct (wire_content (p_content m) model) as [wire|] eqn:Ec; [|done].
  cbn [mbind result_bind]. change (p_content m) with (PCAssistant (a_text assistant) (a_thinking assistant) (a_replay_state assistant) (of_calls calls)).
  cbv beta iota.
  set (inner := object [("pendingToolCallStartedAtMs", number (pc_started_at_ms pending));
    ("pendingToolExecutionContracts", contracts_of pending (of_calls calls))]%string).
  set (v := set_member "providerOptions" _ _). intros Hs.
  assert (to_string v = Ok value) as Hv by (destruct (to_string v); [by apply ok_inj in Hs as ->|done]).
  destruct (Hread v Hv) as [Hstr Hslice]. unfold decode_pending. rewrite Hstr. cbn [map_err mbind result_bind].
  assert (∀ field w, get_member field inner = w → pointer ["providerOptions"; "cursor"; field]%string v = w) as Hpath.
  { intros field w <-. unfold v, pointer. rewrite get_set_object. clearbody inner. do 2 get_obj.
    by destruct (get_member field inner). }
  rewrite (Hpath "pendingToolCallStartedAtMs"%string (Some (number (pc_started_at_ms pending)))) by (unfold inner; by get_obj). cbn [mbind option_bind].
  unfold as_u64, number. cbn [pc_started_at_ms pending]. rewrite Hnum. cbn [ok_or mbind result_bind].
  rewrite (decode_value m model wire (as_bytes value) v (pending_id value)).
  2: { split; [done|exact Hk]. }
  2: { exact Ec. }
  2: { exact Hslice. }
  2-4: unfold v, get_str; rewrite get_set_object; by get_obj.
  cbn [mbind result_bind]. unfold restored, restored_content. cbn [content m p_content].
  change ((λ c, MkCall (index c) (call_id c) (name c) (arguments c)) <$> calls) with (of_calls calls).
  rewrite (Hpath "modelProviderMessageId"%string None) by (unfold inner; by get_obj). cbn [mbind option_bind]. rewrite renumbered_of_calls.
  destruct (recovered_all v (pending_id value) pending calls (contracts_of pending (of_calls calls)) 0) as (again & Ha & Hkc & Hi & Hm).
  { apply Hpath. unfold inner. by get_obj. }
  { intros c Hc. apply contract_found. unfold of_calls. rewrite <- list_fmap_compose. apply list_elem_of_fmap. by exists c. }
  { intros c Hc. by apply argument_error_first with calls. }
  destruct (imap _ calls) as [|c0 calls0] eqn:Ei; [by destruct calls|]. rewrite Ha. cbn [mbind result_bind].
  eexists. split; [done|]. cbn. by split_and!.
Qed.
End RoundTrip.

(** ** A resumed conversation *)
Module CheckpointSamples.
Definition slice : SerdeSlice :=
  {| from_slice := parse;
     replay_of_json v := match get_str "provider_kind" v, get_member "value" v with
                         | Some kind, Some value => Ok (MkReplay kind value)
                         | _, _ => Err (ForeignError (lit "missing field") [])
                         end |}.
Definition base64 : Base64 := {| encode64 d := d |}.
Definition decoder : Base64Decode := {| decode64 d := Ok d |}.
Definition numbers : SerdeNumber := {| number_as_u64 := parse_u64; number_as_i64 := parse_u64 |}.
Definition digest : Sha256 := {| sha256 d := take 32 d |}.

Definition call (id : string) (i : Z) : ToolCallContent := MkCall i (lit id) (lit "mcp:ls") (JObject []).
Definition answer (id : string) : CanonicalMessage :=
  MkMessage (lit id) RTool OTool (CToolResult (MkResult (lit id) (lit "mcp:ls") (lit "src") false None [])) None.
Definition half (id : string) (calls : list ToolCallContent) (replay : option ProviderReplayState) : CanonicalMessage :=
  MkMessage (lit id) RAssistant OAssistant (CAssistant (lit "look") (lit "hm") (Some (lit "round")) replay calls) None.
Definition replay : ProviderReplayState := MkReplay (lit "anthropic") (JArray []).
Definition history : list CanonicalMessage :=
  [text_message (lit "u1") RUser OUser (lit "hello"); half "a1" [call "c1" 4] (Some replay); answer "c1";
   half "a2" [call "c2" 7] None; answer "c2"; into_message (MkRuntimeEvent (lit "e1") (lit "done"))].
Definition projected : list ProjectedMessage :=
  [project_message (text_message (lit "u1") RUser OUser (lit "hello"));
   MkProjected (lit "a1") RAssistant (PCAssistant (lit "looklook") (lit "hmhm") (Some replay)
     [normalized_tool_call (call "c1" 4); normalized_tool_call (call "c2" 7)]);
   project_message (answer "c1"); project_message (answer "c2");
   project_message (into_message (MkRuntimeEvent (lit "e1") (lit "done")))].
Definition ids : list (list Z) := lit <$> ["r0"; "r1"; "r2"; "r3"; "r4"; "r5"]%string.

Definition started : ToolRoundAssistant := MkRoundAssistant (lit "look") [] (lit "call-7") (Some (MkReplay (lit "cursor_opaque") (JString (lit "sig")))).
Definition running : list ToolCall :=
  [MkToolCall 3 (lit "c1") (lit "call-7") (lit "Read") (lit "{}") (JObject []) None;
   MkToolCall 5 (lit "c2") (lit "call-7") (lit "Write") (lit "{") JNull (Some (lit "not JSON"))].

Lemma projection : project_messages history = Ok projected.
Proof. vm_compute. reflexivity. Qed.
Lemma paired_projection : paired projected.
Proof.
  apply paired_lone; [done|]. apply (paired_round (take 3 (drop 1 projected)) (drop 4 projected)).
  - exists (lit "a1"), (lit "looklook"), (lit "hmhm"), (Some replay), [normalized_tool_call (call "c1" 4); normalized_tool_call (call "c2" 7)],
      [(lit "c1", normalized_tool_result (MkResult (lit "c1") (lit "mcp:ls") (lit "src") false None []));
       (lit "c2", normalized_tool_result (MkResult (lit "c2") (lit "mcp:ls") (lit "src") false None []))].
    split; [done|]. split; [repeat constructor; vm_compute; discriminate|]. split; [|done].
    by apply (bool_decide_unpack _); vm_compute.
  - apply paired_lone; [done|constructor].
Qed.
Lemma base64_laws data : @decode64 decoder (@encode64 base64 data) = Ok data.
Proof. done. Qed.
Lemma print_laws v : ∃ s, @to_string full_json v = Ok s.
Proof. by exists (print v). Qed.
Lemma replay_laws state : @replay_of_json slice (replay_json state) = Ok state.
Proof. cbn. unfold replay_json. get_obj. by destruct state. Qed.
Lemma kept_roles : Forall (@role_kept full_json slice) projected.
Proof.
  apply Forall_cons. split; [by right|]. apply Forall_cons. split.
  - split; [done|]. intros state Hs. injection Hs as <-. apply parse_print.
  - apply Forall_cons. split; [done|]. apply Forall_cons. split; [done|]. apply Forall_cons. split; [by right|constructor].
Qed.
Lemma written : ∃ blobs, @stable_messages full_json base64 (lit "be brief") history (lit "gpt-5") = Ok blobs ∧ length blobs = 6%nat.
Proof. unfold stable_messages. rewrite projection. eexists. split; [lazy -[print]; reflexivity|reflexivity]. Qed.
Lemma staged : ∃ value, @staged_tool_round full_json base64 started running (lit "gpt-5") [lit "Read"] [] 1700000000000 = Ok value.
Proof. eexists. lazy -[print]. reflexivity. Qed.
End CheckpointSamples.

Lemma checkpoint_history_restored_witness : ∃ blobs messages again,
  @stable_messages full_json CheckpointSamples.base64 (lit "be brief") CheckpointSamples.history (lit "gpt-5") = Ok blobs ∧
  project_messages messages = Ok again ∧
  seen <$> again = seen <$> (system_message (lit "be brief") ++ CheckpointSamples.projected).
Proof.
  destruct CheckpointSamples.written as (blobs & E & Hl).
  destruct (@checkpoint_history_restored full_json CheckpointSamples.slice CheckpointSamples.decoder CheckpointSamples.base64
    CheckpointSamples.base64_laws CheckpointSamples.replay_laws (lit "be brief") CheckpointSamples.history (lit "gpt-5") CheckpointSamples.projected
    blobs CheckpointSamples.ids CheckpointSamples.projection CheckpointSamples.paired_projection) as (messages & again & _ & Hp & Hs).
  - apply CheckpointSamples.kept_roles.
  - intros m v _ _. apply parse_print.
  - exact E.
  - by rewrite Hl.
  - by apply (bool_decide_unpack _); vm_compute.
  - exists blobs, messages, again. split; [exact E|]. split; [exact Hp|exact Hs].
Defined.

Lemma pending_round_restored_witness : ∃ value round,
  @staged_tool_round full_json CheckpointSamples.base64 CheckpointSamples.started CheckpointSamples.running (lit "gpt-5")
    [lit "Read"] [] 1700000000000 = Ok value ∧
  @decode_pending full_json CheckpointSamples.slice CheckpointSamples.numbers CheckpointSamples.decoder CheckpointSamples.base64
    CheckpointSamples.digest value = Ok round ∧
  rr_started_at_ms round = 1700000000000 ∧ kept_call <$> rr_calls round = kept_call <$> CheckpointSamples.running.
Proof.
  destruct CheckpointSamples.staged as (value & E).
  destruct (@pending_round_restored full_json CheckpointSamples.slice CheckpointSamples.numbers CheckpointSamples.decoder
    CheckpointSamples.base64 CheckpointSamples.digest CheckpointSamples.base64_laws CheckpointSamples.replay_laws
    CheckpointSamples.print_laws
    CheckpointSamples.started CheckpointSamples.running (lit "gpt-5") [lit "Read"] [] 1700000000000 value)
    as (round & Hd & Ht & _ & _ & _ & Hc & _).
  - discriminate.
  - by apply (bool_decide_unpack _); vm_compute.
  - intros state [= <-]. vm_compute. by exists (lit "sig").
  - vm_compute. reflexivity.
  - intros v Hv. apply ok_inj in Hv as <-. cbn [from_str full_json from_slice CheckpointSamples.slice].
    rewrite print_bytes. split; apply parse_print.
  - exact E.
  - exists value, round. split; [exact E|]. split; [exact Hd|]. split; [exact Ht|exact Hc].
Defined.
