(* ===== verification/Cas.v ===== *)
(** * Cas: the content-addressed blobs and their synchronization with Cursor

    server/src/store/cas.rs and server/src/cursor/services/blob_sync.rs.  A blob is stored under the SHA-256 of its
    bytes; Cursor is told of every blob a checkpoint names (KV SET) and is asked for those the store does not have
    (KV GET), with one waiter per request id.

    The synchronizer runs for all the tasks of a conversation, so its operations are cut at their awaits and
    [sync_step] interleaves them with what the client sends.  [blob_integrity]: whatever the client sends, the store only holds
    bytes under their own digest, a GET is only answered with bytes of the digest it asked for, and a blob counts as
    acknowledged only after the client acknowledged a SET of it. *)

From stdpp Require Import prelude gmap sets strings list.
From S2P Require Import Prelude Errors External Json CheckpointMessages.
Local Open Scope Z_scope.

(** server/src/store/cas.rs:13-13, [BLOB_TOUCH_WINDOW_MS]. *)
Definition BLOB_TOUCH_WINDOW_MS : Z := 60 * 60 * 1000.

(** A row of [blobs], keyed by the id. *)
Record BlobRow : Type := MkBlob { blob_data : list Z; blob_created : Z; blob_last_used : Z }.
(** server/src/store/cas.rs:46-49, [BlobEdge]; [BlobId] is its 32 bytes. *)
Record BlobEdge : Type := MkEdge { child : list Z; field_name : list Z }.
Global Instance BlobEdge_eq_dec : EqDecision BlobEdge.
Proof. solve_decision. Defined.
(** The tables [blobs] and [blob_edges], the latter a set of rows. *)
Record Cas : Type := MkCas { blobs : gmap (list Z) BlobRow; blob_edges : list (list Z * BlobEdge) }.
Definition empty_cas : Cas := MkCas ∅ [].

(** SQLite: the error of a statement that violates a foreign key. *)
Class ForeignKeys : Type := { foreign_key_failed : foreign_error }.

Section Cas.
Context {SH : Sha256} {B64 : Base64} {FK : ForeignKeys}.

(** server/src/store/cas.rs:19-21, [BlobId::digest]. *)
Definition digest (data : list Z) : list Z := sha256 data.
(** server/src/store/cas.rs:23-28, [BlobId::from_bytes]. *)
Definition from_bytes (bytes : list Z) : res (list Z) :=
  if zlen bytes =? 32 then Ok bytes
  else Err (Protocol (lit "BlobID must be 32 bytes, got " ++ decimal (zlen bytes))).
(** server/src/store/cas.rs:40-42, [BlobId::to_base64]. *)
Definition to_base64 (id : list Z) : str := encode64 id.

(** [INSERT OR IGNORE]. *)
(** server/src/store/cas.rs:75-82, [put_blob_tx]: one edge. *)
Definition add_edge (parent : list Z) (edges : list (list Z * BlobEdge)) (e : BlobEdge) : list (list Z * BlobEdge) :=
  if bool_decide ((parent, e) ∈ edges) then edges else edges ++ [(parent, e)].
(** server/src/store/cas.rs:67-73, [put_blob_tx]: the row. *)
Definition put_row (now : Z) (id data : list Z) (bs : gmap (list Z) BlobRow) : gmap (list Z) BlobRow :=
  match bs !! id with
  | Some row => <[id := MkBlob (blob_data row) (blob_created row) now]> bs
  | None => <[id := MkBlob data now now]> bs
  end.
(** server/src/store/cas.rs:61-85, [put_blob_tx]: a blob that is there keeps its bytes; an edge to a blob that is not there violates
    the foreign key of [blob_edges], and the transaction is rolled back. *)
Definition put_blob_tx (now : Z) (id data : list Z) (edges : list BlobEdge) (db : Cas) : res Cas :=
  let bs := put_row now id data (blobs db) in
  if forallb (λ e, bool_decide (is_Some (bs !! child e))) edges
  then Ok (MkCas bs (foldl (add_edge id) (blob_edges db) edges))
  else Err (Database foreign_key_failed).
(** server/src/store/cas.rs:52-59, [put_blob]. *)
Definition put_blob (now : Z) (data : list Z) (edges : list BlobEdge) (db : Cas) : res (Cas * list Z) :=
  db ← put_blob_tx now (digest data) data edges db; Ok (db, digest data).
(** server/src/store/cas.rs:112-123, [touch_blob]. *)
Definition touch_blob (now : Z) (id : list Z) (db : Cas) : Cas :=
  match blobs db !! id with
  | Some row =>
      if blob_last_used row <? now - BLOB_TOUCH_WINDOW_MS
      then MkCas (<[id := MkBlob (blob_data row) (blob_created row) now]> (blobs db)) (blob_edges db) else db
  | None => db
  end.
(** server/src/store/cas.rs:94-108, [get_blob]. *)
Definition get_blob (now : Z) (id : list Z) (db : Cas) : Cas * option (list Z) :=
  match blobs db !! id with
  | Some row => (if blob_last_used row <? now - BLOB_TOUCH_WINDOW_MS then touch_blob now id db else db, Some (blob_data row))
  | None => (db, None)
  end.

(** Every blob under its own digest. *)
Definition content_addressed (db : Cas) : Prop := ∀ id row, blobs db !! id = Some row → digest (blob_data row) = id.
(** What is stored stays, with its bytes. *)
Definition keeps (db db' : Cas) : Prop :=
  (∀ id row, blobs db !! id = Some row → ∃ row', blobs db' !! id = Some row' ∧ blob_data row' = blob_data row) ∧
  (∀ e, e ∈ blob_edges db → e ∈ blob_edges db').
Lemma keeps_refl db : keeps db db.
Proof. split; [|done]. intros id row H. by exists row. Qed.
Lemma keeps_trans a b c : keeps a b → keeps b c → keeps a c.
Proof.
  intros [H1 H2] [H3 H4]. split; [|by eauto]. intros id row (row' & Hr & E)%H1. apply H3 in Hr as (row'' & Hr & E').
  exists row''. by rewrite E'.
Qed.

Lemma add_edges_keep id edges l e : e ∈ l → e ∈ foldl (add_edge id) l edges.
Proof.
  revert l. induction edges as [|x edges IH]; intros l H; [done|]. cbn. apply IH. unfold add_edge.
  case_bool_decide; [done|]. apply elem_of_app. by left.
Qed.
Lemma add_edges_new id edges l e : e ∈ edges → (id, e) ∈ foldl (add_edge id) l edges.
Proof.
  revert l. induction edges as [|x edges IH]; intros l H; [by apply not_elem_of_nil in H|]. cbn.
  apply elem_of_cons in H as [->|H]; [|by apply IH]. apply add_edges_keep. unfold add_edge.
  case_bool_decide; [done|]. apply elem_of_app. right. by left.
Qed.

Lemma put_row_lookup now id data bs k : put_row now id data bs !! k =
  if decide (k = id) then Some (match bs !! id with Some row => MkBlob (blob_data row) (blob_created row) now | None => MkBlob data now now end)
  else bs !! k.
Proof.
  unfold put_row. destruct (bs !! id); destruct (decide (k = id)) as [->|]; by rewrite ?lookup_insert_eq, ?lookup_insert_ne by done.
Qed.
Lemma put_blob_keeps now id data edges db db' : put_blob_tx now id data edges db = Ok db' → keeps db db'.
Proof.
  unfold put_blob_tx. destruct (forallb _ _); [|done]. intros [= <-]. split; [|by intros e; apply add_edges_keep].
  intros k row Hk. cbn [blobs]. rewrite put_row_lookup. destruct (decide (k = id)) as [->|]; [|by eauto].
  rewrite Hk. eexists. by split.
Qed.
Lemma put_blob_addressed now data edges db db' : content_addressed db → put_blob_tx now (digest data) data edges db = Ok db' → content_addressed db'.
Proof.
  intros Hc. unfold put_blob_tx. destruct (forallb _ _); [|done]. intros [= <-] k row. cbn [blobs]. rewrite put_row_lookup.
  destruct (decide (k = digest data)) as [->|]; [|apply Hc]. intros [= <-].
  destruct (blobs db !! digest data) eqn:E; cbn; [by apply Hc|done].
Qed.
(** A blob that was put is there, with the bytes that were there or those that were put, and with its edges. *)
Lemma put_blob_stored now data edges db db' : put_blob_tx now (digest data) data edges db = Ok db' →
  (∃ row, blobs db' !! digest data = Some row ∧
    blob_data row = default data (blob_data <$> blobs db !! digest data)) ∧
  (∀ e, e ∈ edges → (digest data, e) ∈ blob_edges db').
Proof.
  unfold put_blob_tx. destruct (forallb _ _); [|done]. intros [= <-]. cbn [blobs blob_edges]. split.
  - rewrite put_row_lookup, decide_True by done. eexists. split; [done|]. by destruct (blobs db !! digest data).
  - intros e He. by apply add_edges_new.
Qed.
Lemma put_blob_plain now data db : ∃ db', put_blob_tx now (digest data) data [] db = Ok db'.
Proof. unfold put_blob_tx. cbn. by eexists. Qed.

(** Every edge ends at blobs that are there. *)
Definition edges_closed (db : Cas) : Prop :=
  ∀ parent e, (parent, e) ∈ blob_edges db → is_Some (blobs db !! parent) ∧ is_Some (blobs db !! child e).
Lemma add_edges_inv id edges l p e : (p, e) ∈ foldl (add_edge id) l edges → (p, e) ∈ l ∨ p = id ∧ e ∈ edges.
Proof.
  revert l. induction edges as [|x edges IH]; intros l H; [by left|]. cbn in H. apply IH in H as [H|[-> H]]; [|right; split; [done|by right]].
  unfold add_edge in H. case_bool_decide; [by left|]. apply elem_of_app in H as [H|H]; [by left|].
  apply list_elem_of_singleton in H. injection H as -> ->. right. split; [done|by left].
Qed.
Lemma put_blob_closed now id data edges db db' : edges_closed db → put_blob_tx now id data edges db = Ok db' → edges_closed db'.
Proof.
  intros Hc H. pose proof (put_blob_keeps _ _ _ _ _ _ H) as [Hk _]. revert H. unfold put_blob_tx.
  destruct (forallb _ edges) eqn:Ef; [|done]. intros H. apply ok_inj in H. subst db'. cbn [blobs blob_edges] in *. intros p e He. cbn [blobs].
  apply add_edges_inv in He as [[[r1 H1] [r2 H2]]%Hc|[-> He]].
  - destruct (Hk _ _ H1) as (r1' & H1' & _). destruct (Hk _ _ H2) as (r2' & H2' & _). rewrite H1', H2'. split; by eexists.
  - split; [rewrite put_row_lookup, decide_True by done; by eexists|].
    rewrite forallb_forall in Ef. apply list_elem_of_In in He. apply Ef in He. by apply bool_decide_eq_true in He.
Qed.
Lemma touch_addressed now id db : content_addressed db → content_addressed (touch_blob now id db) ∧ keeps db (touch_blob now id db).
Proof.
  intros Hc. unfold touch_blob. destruct (blobs db !! id) as [row|] eqn:E; [|split; [done|apply keeps_refl]].
  destruct (_ <? _); [|split; [done|apply keeps_refl]]. split.
  - intros k r. cbn. destruct (decide (k = id)) as [->|Hn]; [rewrite lookup_insert_eq; intros [= <-]; cbn; by apply Hc|].
    rewrite lookup_insert_ne by done. apply Hc.
  - split; [|done]. intros k r Hk. cbn. destruct (decide (k = id)) as [->|Hn]; [rewrite lookup_insert_eq|rewrite lookup_insert_ne by done];
      simplify_eq; eauto.
Qed.
Lemma get_blob_addressed now id db : content_addressed db →
  content_addressed (get_blob now id db).1 ∧ keeps db (get_blob now id db).1 ∧
  match (get_blob now id db).2 with Some data => digest data = id | None => blobs db !! id = None end.
Proof.
  intros Hc. unfold get_blob. destruct (blobs db !! id) as [row|] eqn:E; [|split_and!; [done|apply keeps_refl|done]].
  cbn [fst snd]. destruct (touch_addressed now id db Hc) as [H1 H2]. destruct (_ <? _); (split_and!; [done| |by apply Hc]); [done|apply keeps_refl].
Qed.
End Cas.

(** ** The synchronizer *)

(** What the client answers a SET or a GET with. *)
Inductive KvClientMessage : Type :=
  | SetBlobResult (error : option (list Z))
  | GetBlobResult (error : option (list Z)) (data : option (list Z))
  | NoResult.
(** What a waiter gets. *)
Inductive SyncReply : Type :=
  | SetReply (r : res ())
  | GetReply (r : res (option (list Z))).

(** server/src/cursor/services/blob_sync.rs:31-39, [Inner]: the store, the counter of the request ids, the pending
    requests and the acknowledged blobs. *)
Record Sync : Type := MkSync {
  cas : Cas;
  next_request : Z;
  set_requests : gmap Z (list Z);
  acked_blobs : gset (list Z);
  get_requests : gmap Z (list Z)
}.

Section Sync.
Context {SH : Sha256} {B64 : Base64} {FK : ForeignKeys}.

Definition set_cas (s : Sync) (db : Cas) : Sync :=
  MkSync db (next_request s) (set_requests s) (acked_blobs s) (get_requests s).

(** What became of a request that was begun: answered at once, or waiting under an id. *)
Inductive Begun : Type := Answered (r : SyncReply) | Waiting (id : Z).

(** server/src/cursor/services/blob_sync.rs:98-129, [ensure_set]: up to its wait; [emitted] is what [emit] returns. *)
Definition ensure_set_begin (blob : list Z) (emitted : res ()) (s : Sync) : Sync * Begun :=
  if bool_decide (blob ∈ acked_blobs s) then (s, Answered (SetReply (Ok ())))
  else
    let id := next_request s in
    let s := MkSync (cas s) (u32 (id + 1)) (<[id := blob]> (set_requests s)) (acked_blobs s) (get_requests s) in
    match emitted with
    | Ok _ => (s, Waiting id)
    | Err e => (MkSync (cas s) (next_request s) (delete id (set_requests s)) (acked_blobs s) (get_requests s), Answered (SetReply (Err e)))
    end.
(** server/src/cursor/services/blob_sync.rs:75-96, [persist]: up to its wait. *)
Definition persist_begin (now : Z) (data : list Z) (edges : list BlobEdge) (emitted : res ()) (s : Sync) : Sync * Begun :=
  match put_blob now data edges (cas s) with
  | Ok (db, id) => ensure_set_begin id emitted (set_cas s db)
  | Err e => (s, Answered (SetReply (Err e)))
  end.
(** server/src/cursor/services/blob_sync.rs:131-139, [ensure_set]: a wait that ends in an error forgets the request. *)
Definition ensure_set_abandon (id : Z) (s : Sync) : Sync :=
  MkSync (cas s) (next_request s) (delete id (set_requests s)) (acked_blobs s) (get_requests s).
(** server/src/cursor/services/blob_sync.rs:142-186, [get]: up to its wait. *)
Definition get_begin (now : Z) (blob : list Z) (emitted : res ()) (s : Sync) : Sync * Begun :=
  match get_blob now blob (cas s) with
  | (db, Some data) => (set_cas s db, Answered (GetReply (Ok (Some data))))
  | (db, None) =>
      let id := next_request s in
      match emitted with
      | Ok _ => (MkSync db (u32 (id + 1)) (set_requests s) (acked_blobs s) (<[id := blob]> (get_requests s)), Waiting id)
      | Err e => (MkSync db (u32 (id + 1)) (set_requests s) (acked_blobs s) (delete id (<[id := blob]> (get_requests s))),
                  Answered (GetReply (Err e)))
      end
  end.
(** server/src/cursor/services/blob_sync.rs:189-197, [get]: a wait that ends in an error forgets the request. *)
Definition get_abandon (id : Z) (s : Sync) : Sync :=
  MkSync (cas s) (next_request s) (set_requests s) (acked_blobs s) (delete id (get_requests s)).

(** server/src/cursor/services/blob_sync.rs:238-249, [cache_received]. *)
Definition cache_received (now : Z) (blob data : list Z) (db : Cas) : res Cas :=
  if bool_decide (digest data = blob) then fst <$> put_blob now data [] db
  else Err (Protocol (lit "received Blob hash mismatch: expected " ++ to_base64 blob ++ lit ", got " ++ to_base64 (digest data))).

(** server/src/cursor/services/blob_sync.rs:251-318, [handle_client]: the new state, and the reply a waiter of this id gets. *)
Definition handle_client (now id : Z) (message : KvClientMessage) (s : Sync) : Sync * option (list Z * SyncReply) :=
  match message with
  | SetBlobResult error =>
      match set_requests s !! id with
      | Some blob =>
          let sets := delete id (set_requests s) in
          match error with
          | Some e => (MkSync (cas s) (next_request s) sets (acked_blobs s) (get_requests s),
                       Some (blob, SetReply (Err (Protocol (lit "KV SET " ++ to_base64 blob ++ lit ": " ++ e)))))
          | None => (MkSync (cas s) (next_request s) sets ({[blob]} ∪ acked_blobs s) (get_requests s), Some (blob, SetReply (Ok ())))
          end
      | None => (s, None)
      end
  | GetBlobResult error data =>
      match get_requests s !! id with
      | Some blob =>
          let s := MkSync (cas s) (next_request s) (set_requests s) (acked_blobs s) (delete id (get_requests s)) in
          match error, data with
          | Some e, _ => (s, Some (blob, GetReply (Err (Protocol (lit "KV GET: " ++ e)))))
          | None, Some data =>
              if bool_decide (digest data = blob)
              then match put_blob now data [] (cas s) with
                   | Ok (db, _) => (set_cas s db, Some (blob, GetReply (Ok (Some data))))
                   | Err e => (s, Some (blob, GetReply (Err (protocol "KV GET response channel closed"))))
                   end
              else (s, Some (blob, GetReply (Err (Protocol (lit "KV GET Blob hash mismatch: expected " ++ to_base64 blob
                                                            ++ lit ", got " ++ to_base64 (digest data))))))
          | None, None => (s, Some (blob, GetReply (Ok None)))
          end
      | None => (s, None)
      end
  | NoResult => (s, None)
  end.

(** The operations of all the tasks, and the messages of the client, in any order.  The second component is the history of
    the answers: the blob asked for, and what its waiter got. *)
Inductive sync_step : Sync * list (list Z * SyncReply) → Sync * list (list Z * SyncReply) → Prop :=
  | step_persist now data edges emitted s log s' r : persist_begin now data edges emitted s = (s', Answered r) →
      sync_step (s, log) (s', (digest data, r) :: log)
  | step_persist_wait now data edges emitted s log s' id : persist_begin now data edges emitted s = (s', Waiting id) →
      sync_step (s, log) (s', log)
  | step_get now blob emitted s log s' r : get_begin now blob emitted s = (s', Answered r) → sync_step (s, log) (s', (blob, r) :: log)
  | step_get_wait now blob emitted s log s' id : get_begin now blob emitted s = (s', Waiting id) → sync_step (s, log) (s', log)
  | step_set_abandon id s log : sync_step (s, log) (ensure_set_abandon id s, log)
  | step_get_abandon id s log : sync_step (s, log) (get_abandon id s, log)
  | step_received now blob data s log db : cache_received now blob data (cas s) = Ok db → sync_step (s, log) (set_cas s db, log)
  | step_client now id message s log s' reply : handle_client now id message s = (s', reply) →
      sync_step (s, log) (s', match reply with Some r => r :: log | None => log end).

(** server/src/cursor/services/blob_sync.rs:53-65, [BlobSynchronizer::new]. *)
Definition new_sync (db : Cas) : Sync := MkSync db 1 ∅ ∅ ∅.
Definition sync_reachable (db : Cas) (s : Sync * list (list Z * SyncReply)) : Prop := rtc sync_step (new_sync db, []) s.

(** An answer that gives bytes gives those of the blob that was asked for. *)
Definition answer_ok (r : list Z * SyncReply) : Prop :=
  match r.2 with GetReply (Ok (Some data)) => digest data = r.1 | _ => True end.
Record sync_inv (db : Cas) (s : Sync * list (list Z * SyncReply)) : Prop := {
  si_addressed : content_addressed (cas s.1);
  si_keeps : keeps db (cas s.1);
  si_answers : Forall answer_ok s.2;
  si_acked : ∀ blob, blob ∈ acked_blobs s.1 → (blob, SetReply (Ok ())) ∈ s.2
}.

Lemma persist_inv now data edges emitted db s log : sync_inv db (s, log) →
  let s' := (persist_begin now data edges emitted s).1 in
  content_addressed (cas s') ∧ keeps db (cas s') ∧ acked_blobs s' = acked_blobs s ∧
  ∀ r, (persist_begin now data edges emitted s).2 = Answered r → ∃ x, r = SetReply x.
Proof.
  intros [H1 H2 _ _]. unfold persist_begin, put_blob. cbn [cas fst snd] in *.
  destruct (put_blob_tx now (digest data) data edges (cas s)) as [db'|e] eqn:E; cbn.
  - pose proof (put_blob_addressed _ _ _ _ _ H1 E) as P1. pose proof (keeps_trans _ _ _ H2 (put_blob_keeps _ _ _ _ _ _ E)) as P2.
    unfold ensure_set_begin. cbn [acked_blobs set_cas cas].
    destruct (bool_decide _); [|destruct emitted]; cbn; (split_and!; [done|done|done|intros r; try done; intros [= <-]; by eexists]).
  - cbn. split_and!; [done|done|done|intros r [= <-]; by eexists].
Qed.

Lemma sync_inv_step db s s' : sync_inv db s → sync_step s s' → sync_inv db s'.
Proof.
  intros Hi Hs. destruct Hs as [now data edges emitted s log s' r H|now data edges emitted s log s' id H|now blob emitted s log s' r H
    |now blob emitted s log s' id H|id s log|id s log|now blob data s log db' H|now id message s log s' reply H].
  - destruct (persist_inv now data edges emitted db s log Hi) as (P1 & P2 & P3 & P4). rewrite H in *. cbn [fst snd] in *.
    destruct (P4 r eq_refl) as [x ->]. destruct Hi as [_ _ H3 H4]. cbn in *. split; cbn; [done|done|by constructor|].
    intros b Hb. right. apply H4. by rewrite <- P3.
  - destruct (persist_inv now data edges emitted db s log Hi) as (P1 & P2 & P3 & _). rewrite H in *. cbn [fst snd] in *.
    destruct Hi as [_ _ H3 H4]. cbn in *. split; cbn; [done|done|done|]. intros b Hb. apply H4. by rewrite <- P3.
  - destruct Hi as [H1 H2 H3 H4]. cbn in *. unfold get_begin in H. destruct (get_blob_addressed now blob (cas s) H1) as (G1 & G2 & G3).
    destruct (get_blob now blob (cas s)) as [db' [data|]]; [|destruct emitted; [done|]]; injection H as <- <-; split; cbn in *;
      try done; try (by eapply keeps_trans); try (by constructor); intros b Hb; right; by apply H4.
  - destruct Hi as [H1 H2 H3 H4]. cbn in *. unfold get_begin in H. destruct (get_blob_addressed now blob (cas s) H1) as (G1 & G2 & G3).
    destruct (get_blob now blob (cas s)) as [db' [data|]]; [done|destruct emitted; [|done]]; injection H as <- <-; split; cbn in *;
      try done; by eapply keeps_trans.
  - by destruct Hi; split.
  - by destruct Hi; split.
  - destruct Hi as [H1 H2 H3 H4]. unfold cache_received, put_blob in H. destruct (bool_decide _); [|done]. cbn [fst snd] in *.
    destruct (put_blob_plain now data (cas s)) as [db2 E]. rewrite E in H. cbn in H. apply ok_inj in H. subst db2. cbn in H1, H2. split; cbn [fst snd set_cas cas acked_blobs] in *;
      [by eapply put_blob_addressed|eapply keeps_trans; [done|by eapply put_blob_keeps]|done|done].
  - destruct Hi as [H1 H2 H3 H4]. cbn in *. unfold handle_client in H. destruct message as [e|e data|].
    + destruct (set_requests s !! id) as [blob|]; [|by injection H as <- <-].
      destruct e; injection H as <- <-; split; cbn; try done; try (by constructor).
      * intros b Hb. right. by apply H4.
      * intros b Hb. apply elem_of_union in Hb as [->%elem_of_singleton|Hb]; [by left|right; by apply H4].
    + destruct (get_requests s !! id) as [blob|]; [|by injection H as <- <-]. destruct e as [e|].
      { injection H as <- <-. split; cbn; try done; [by constructor|]. intros b Hb. right. by apply H4. }
      destruct data as [data|]; [destruct (bool_decide_reflect (digest data = blob)) as [Hd|]|].
      * unfold put_blob in H. cbn [cas] in H. destruct (put_blob_plain now data (cas s)) as [db2 E]. rewrite E in H. cbn in H.
        injection H as <- <-. split; cbn; [by eapply put_blob_addressed|eapply keeps_trans; [done|by eapply put_blob_keeps]|by constructor|].
        intros b Hb. right. by apply H4.
      * injection H as <- <-. split; cbn; try done; [by constructor|]. intros b Hb. right. by apply H4.
      * injection H as <- <-. split; cbn; try done; [by constructor|]. intros b Hb. right. by apply H4.
    + by injection H as <- <-.
Qed.

Lemma sync_inv_reachable db s : content_addressed db → sync_reachable db s → sync_inv db s.
Proof.
  intros Hc Hr. unfold sync_reachable in Hr. assert (sync_inv db (new_sync db, [])) as Hi.
  { split; cbn; [done|apply keeps_refl|constructor|]. intros b Hb. by apply not_elem_of_empty in Hb. }
  revert Hi. induction Hr as [|x y z Hs _ IH]; intros Hi; [done|]. apply IH. by eapply sync_inv_step.
Qed.

(** C23: However the tasks of a conversation and the messages of its client interleave, and whatever the client sends: every
    blob of the store is under its own digest and none that was there is lost or changed; a request for a blob is only answered with
    bytes of the digest that was asked for; and a blob that need not be sent again was acknowledged by the client. *)
Theorem blob_integrity db s log : content_addressed db → sync_reachable db (s, log) →
  content_addressed (cas s) ∧ keeps db (cas s) ∧
  (∀ blob data, (blob, GetReply (Ok (Some data))) ∈ log → digest data = blob) ∧
  (∀ blob, blob ∈ acked_blobs s → (blob, SetReply (Ok ())) ∈ log).
Proof.
  intros Hc Hr. destruct (sync_inv_reachable db (s, log) Hc Hr) as [H1 H2 H3 H4]. split_and!; [done|done| |done].
  intros blob data Hin. rewrite Forall_forall in H3. exact (H3 _ Hin).
Qed.
End Sync.

Module CasSamples.
(** A digest of 32 bytes. *)
Definition digest : Sha256 := {| sha256 d := take 32 (d ++ replicate 32 0) |}.
Definition base64 : Base64 := {| encode64 d := d |}.
Definition foreign_keys : ForeignKeys := {| foreign_key_failed := ForeignError (lit "FOREIGN KEY constraint failed") [] |}.
#[local] Existing Instances digest base64 foreign_keys.
Definition store : Cas := match put_blob 5 (lit "kept") [] empty_cas with Ok (db, _) => db | Err _ => empty_cas end.
Lemma addressed : content_addressed store.
Proof. apply (put_blob_addressed 5 (lit "kept") [] empty_cas); [intros id row; cbn; by rewrite lookup_empty|done]. Qed.
Definition other : list Z := sha256 (lit "other").
Definition s1 : Sync := (persist_begin 9 (lit "new") [] (Ok ()) (new_sync store)).1.
Definition s2 : Sync := (handle_client 10 1 (SetBlobResult None) s1).1.
Definition s3 : Sync := (get_begin 11 other (Ok ()) s2).1.
Definition s4 : Sync := (handle_client 12 2 (GetBlobResult None (Some (lit "forged"))) s3).1.
Definition log : list (list Z * SyncReply) :=
  [(other, GetReply (Err (Protocol (lit "KV GET Blob hash mismatch: expected " ++ other ++ lit ", got " ++ sha256 (lit "forged")))));
   (sha256 (lit "new"), SetReply (Ok ()))].
Lemma reachable : sync_reachable store (s4, log).
Proof.
  eapply rtc_l; [eapply (step_persist_wait 9 (lit "new") [] (Ok ()) _ _ s1 1); vm_compute; reflexivity|].
  eapply rtc_l; [eapply (step_client 10 1 (SetBlobResult None) _ _ s2 (Some (sha256 (lit "new"), SetReply (Ok ())))); vm_compute; reflexivity|].
  eapply rtc_l; [eapply (step_get_wait 11 other (Ok ()) _ _ s3 2); vm_compute; reflexivity|].
  eapply rtc_l; [eapply (step_client 12 2 (GetBlobResult None (Some (lit "forged"))) _ _ s4 (Some _)); vm_compute; reflexivity|].
  apply rtc_refl.
Qed.
End CasSamples.

(** A SET that is acknowledged, then a GET that the client answers with other bytes. *)
Lemma blob_integrity_witness :
  @sha256 CasSamples.digest (lit "new") ∈ acked_blobs CasSamples.s4 ∧
  (@sha256 CasSamples.digest (lit "new"), SetReply (Ok ())) ∈ CasSamples.log ∧
  ∃ row, blobs (cas CasSamples.s4) !! @sha256 CasSamples.digest (lit "kept") = Some row ∧ blob_data row = lit "kept".
Proof.
  destruct (@blob_integrity CasSamples.digest CasSamples.base64 CasSamples.foreign_keys _ _ _ CasSamples.addressed CasSamples.reachable) as (_ & [Hk _] & _ & Ha).
  assert (@sha256 CasSamples.digest (lit "new") ∈ acked_blobs CasSamples.s4) as Hin by (apply (bool_decide_unpack _); vm_compute; exact I).
  split; [exact Hin|]. split; [exact (Ha _ Hin)|].
  destruct (Hk (@sha256 CasSamples.digest (lit "kept")) (MkBlob (lit "kept") 5 5)) as (row & Hrow & Hd); [vm_compute; reflexivity|].
  exists row. split; [exact Hrow|exact Hd].
Defined.
