(* ===== verification/CheckpointState.v ===== *)
(** * CheckpointState: the state of a conversation that Cursor keeps

    The generated messages of protocols/cursor/agent_v1.proto that a checkpoint is made of, and what the code computes on
    them: server/src/cursor/checkpoint/steps.rs (the steps of a turn that are not stored yet), the fold of the to-do list and the plan
    (server/src/cursor/prompting/derived_state.rs), what derived.rs, summary.rs and builder.rs read out of the messages.

    A generated message has the fields this code reads or writes; a map is a finite map, or an association list where it is
    walked through recursively. *)

From stdpp Require Import prelude gmap sets strings list.
From S2P Require Import Prelude Errors External Json Message Usage CheckpointMessages Cas.
Local Open Scope Z_scope.

(** ** Messages of the protocol *)

Record TokenDetails : Type := MkTokens {
  used_tokens : Z;
  max_tokens : Z;
  token_breakdown : option BreakdownSnapshot;
  usage_tree : option (list Z);
  usage_snapshot_blob_id : option (list Z)
}.
Record FileState : Type := MkFileState { file_content : option (list Z); initial_content : option (list Z) }.
Inductive SubagentRunStatus : Type := Backgrounded | RunSuccess | RunError | RunAborted.
Record SubagentRunState : Type := MkSubagentRun {
  parent_tool_call_id : list Z;
  subagent_id : option (list Z);
  run_environment : Z;
  run_status : SubagentRunStatus;
  run_title : option (list Z);
  run_detail : option (list Z);
  run_transcript_path : option (list Z);
  run_completed_at : option Z;
  run_finished : bool
}.
(** [CommunicateUpdateTurnState]. *)
Record UpdateState : Type := MkUpdates {
  update_history : list (list Z * Z);
  final_summary : option (list Z);
  completed_subtitle : option (list Z)
}.
(** [SubagentPersistedState], over the type of the nested conversation. *)
Record SubagentOf (S : Type) : Type := MkSubagent {
  nested_state : option S;
  created_at : Z;
  last_used_at : Z;
  persisted_type : option (list Z);
  persisted_model : option (list Z);
  persisted_environment : Z;
  persisted_machine : option (list Z)
}.
Arguments MkSubagent {S}.
Arguments nested_state {S}.
Arguments created_at {S}.
Arguments last_used_at {S}.
Arguments persisted_type {S}.
Arguments persisted_model {S}.
Arguments persisted_environment {S}.
Arguments persisted_machine {S}.
(** [ConversationStateStructure], over the type of the nested conversations. *)
Record StateOf (S : Type) : Type := MkState {
  root_prompt_messages_json : list (list Z);
  turns : list (list Z);
  todos : list (list Z);
  pending_tool_calls : list (list Z);
  token_details : option TokenDetails;
  summary : option (list Z);
  plan : option (list Z);
  mode : option Z;
  summary_archive : option (list Z);
  file_states : gmap (list Z) (list Z);
  file_states_v2 : gmap (list Z) FileState;
  summary_archives : list (list Z);
  subagent_states : list (list Z * SubagentOf S);
  self_summary_count : Z;
  read_paths : list (list Z);
  communicate_updates : list (list Z * UpdateState);
  subagent_runs : gmap (list Z) SubagentRunState;
  subagent_state_refs : gmap (list Z) (list Z)
}.
Arguments MkState {S}.
Arguments root_prompt_messages_json {S}.
Arguments turns {S}.
Arguments todos {S}.
Arguments pending_tool_calls {S}.
Arguments token_details {S}.
Arguments summary {S}.
Arguments plan {S}.
Arguments mode {S}.
Arguments summary_archive {S}.
Arguments file_states {S}.
Arguments file_states_v2 {S}.
Arguments summary_archives {S}.
Arguments subagent_states {S}.
Arguments self_summary_count {S}.
Arguments read_paths {S}.
Arguments communicate_updates {S}.
Arguments subagent_runs {S}.
Arguments subagent_state_refs {S}.
Inductive ConversationState : Type := Nested (state : StateOf ConversationState).
Definition state_of (c : ConversationState) : StateOf ConversationState := match c with Nested s => s end.
Abbreviation State := (StateOf ConversationState).
Definition default_state : State := MkState [] [] [] [] None None None None None ∅ ∅ [] [] 0 [] [] ∅ ∅.

Definition set_root_prompt_messages_json {S : Type} (x : list (list Z)) (s : StateOf S) : StateOf S :=
  MkState x (turns s) (todos s) (pending_tool_calls s) (token_details s) (summary s) (plan s) (mode s) (summary_archive s) (file_states s) (file_states_v2 s) (summary_archives s) (subagent_states s) (self_summary_count s) (read_paths s) (communicate_updates s) (subagent_runs s) (subagent_state_refs s).
Definition set_turns {S : Type} (x : list (list Z)) (s : StateOf S) : StateOf S :=
  MkState (root_prompt_messages_json s) x (todos s) (pending_tool_calls s) (token_details s) (summary s) (plan s) (mode s) (summary_archive s) (file_states s) (file_states_v2 s) (summary_archives s) (subagent_states s) (self_summary_count s) (read_paths s) (communicate_updates s) (subagent_runs s) (subagent_state_refs s).
Definition set_todos {S : Type} (x : list (list Z)) (s : StateOf S) : StateOf S :=
  MkState (root_prompt_messages_json s) (turns s) x (pending_tool_calls s) (token_details s) (summary s) (plan s) (mode s) (summary_archive s) (file_states s) (file_states_v2 s) (summary_archives s) (subagent_states s) (self_summary_count s) (read_paths s) (communicate_updates s) (subagent_runs s) (subagent_state_refs s).
Definition set_pending_tool_calls {S : Type} (x : list (list Z)) (s : StateOf S) : StateOf S :=
  MkState (root_prompt_messages_json s) (turns s) (todos s) x (token_details s) (summary s) (plan s) (mode s) (summary_archive s) (file_states s) (file_states_v2 s) (summary_archives s) (subagent_states s) (self_summary_count s) (read_paths s) (communicate_updates s) (subagent_runs s) (subagent_state_refs s).
Definition set_token_details {S : Type} (x : option TokenDetails) (s : StateOf S) : StateOf S :=
  MkState (root_prompt_messages_json s) (turns s) (todos s) (pending_tool_calls s) x (summary s) (plan s) (mode s) (summary_archive s) (file_states s) (file_states_v2 s) (summary_archives s) (subagent_states s) (self_summary_count s) (read_paths s) (communicate_updates s) (subagent_runs s) (subagent_state_refs s).
Definition set_summary {S : Type} (x : option (list Z)) (s : StateOf S) : StateOf S :=
  MkState (root_prompt_messages_json s) (turns s) (todos s) (pending_tool_calls s) (token_details s) x (plan s) (mode s) (summary_archive s) (file_states s) (file_states_v2 s) (summary_archives s) (subagent_states s) (self_summary_count s) (read_paths s) (communicate_updates s) (subagent_runs s) (subagent_state_refs s).
Definition set_plan {S : Type} (x : option (list Z)) (s : StateOf S) : StateOf S :=
  MkState (root_prompt_messages_json s) (turns s) (todos s) (pending_tool_calls s) (token_details s) (summary s) x (mode s) (summary_archive s) (file_states s) (file_states_v2 s) (summary_archives s) (subagent_states s) (self_summary_count s) (read_paths s) (communicate_updates s) (subagent_runs s) (subagent_state_refs s).
Definition set_mode {S : Type} (x : option Z) (s : StateOf S) : StateOf S :=
  MkState (root_prompt_messages_json s) (turns s) (todos s) (pending_tool_calls s) (token_details s) (summary s) (plan s) x (summary_archive s) (file_states s) (file_states_v2 s) (summary_archives s) (subagent_states s) (self_summary_count s) (read_paths s) (communicate_updates s) (subagent_runs s) (subagent_state_refs s).
Definition set_summary_archive {S : Type} (x : option (list Z)) (s : StateOf S) : StateOf S :=
  MkState (root_prompt_messages_json s) (turns s) (todos s) (pending_tool_calls s) (token_details s) (summary s) (plan s) (mode s) x (file_states s) (file_states_v2 s) (summary_archives s) (subagent_states s) (self_summary_count s) (read_paths s) (communicate_updates s) (subagent_runs s) (subagent_state_refs s).
Definition set_file_states {S : Type} (x : gmap (list Z) (list Z)) (s : StateOf S) : StateOf S :=
  MkState (root_prompt_messages_json s) (turns s) (todos s) (pending_tool_calls s) (token_details s) (summary s) (plan s) (mode s) (summary_archive s) x (file_states_v2 s) (summary_archives s) (subagent_states s) (self_summary_count s) (read_paths s) (communicate_updates s) (subagent_runs s) (subagent_state_refs s).
Definition set_file_states_v2 {S : Type} (x : gmap (list Z) FileState) (s : StateOf S) : StateOf S :=
  MkState (root_prompt_messages_json s) (turns s) (todos s) (pending_tool_calls s) (token_details s) (summary s) (plan s) (mode s) (summary_archive s) (file_states s) x (summary_archives s) (subagent_states s) (self_summary_count s) (read_paths s) (communicate_updates s) (subagent_runs s) (subagent_state_refs s).
Definition set_summary_archives {S : Type} (x : list (list Z)) (s : StateOf S) : StateOf S :=
  MkState (root_prompt_messages_json s) (turns s) (todos s) (pending_tool_calls s) (token_details s) (summary s) (plan s) (mode s) (summary_archive s) (file_states s) (file_states_v2 s) x (subagent_states s) (self_summary_count s) (read_paths s) (communicate_updates s) (subagent_runs s) (subagent_state_refs s).
Definition set_subagent_states {S : Type} (x : list (list Z * SubagentOf S)) (s : StateOf S) : StateOf S :=
  MkState (root_prompt_messages_json s) (turns s) (todos s) (pending_tool_calls s) (token_details s) (summary s) (plan s) (mode s) (summary_archive s) (file_states s) (file_states_v2 s) (summary_archives s) x (self_summary_count s) (read_paths s) (communicate_updates s) (subagent_runs s) (subagent_state_refs s).
Definition set_self_summary_count {S : Type} (x : Z) (s : StateOf S) : StateOf S :=
  MkState (root_prompt_messages_json s) (turns s) (todos s) (pending_tool_calls s) (token_details s) (summary s) (plan s) (mode s) (summary_archive s) (file_states s) (file_states_v2 s) (summary_archives s) (subagent_states s) x (read_paths s) (communicate_updates s) (subagent_runs s) (subagent_state_refs s).
Definition set_read_paths {S : Type} (x : list (list Z)) (s : StateOf S) : StateOf S :=
  MkState (root_prompt_messages_json s) (turns s) (todos s) (pending_tool_calls s) (token_details s) (summary s) (plan s) (mode s) (summary_archive s) (file_states s) (file_states_v2 s) (summary_archives s) (subagent_states s) (self_summary_count s) x (communicate_updates s) (subagent_runs s) (subagent_state_refs s).
Definition set_communicate_updates {S : Type} (x : list (list Z * UpdateState)) (s : StateOf S) : StateOf S :=
  MkState (root_prompt_messages_json s) (turns s) (todos s) (pending_tool_calls s) (token_details s) (summary s) (plan s) (mode s) (summary_archive s) (file_states s) (file_states_v2 s) (summary_archives s) (subagent_states s) (self_summary_count s) (read_paths s) x (subagent_runs s) (subagent_state_refs s).
Definition set_subagent_runs {S : Type} (x : gmap (list Z) SubagentRunState) (s : StateOf S) : StateOf S :=
  MkState (root_prompt_messages_json s) (turns s) (todos s) (pending_tool_calls s) (token_details s) (summary s) (plan s) (mode s) (summary_archive s) (file_states s) (file_states_v2 s) (summary_archives s) (subagent_states s) (self_summary_count s) (read_paths s) (communicate_updates s) x (subagent_state_refs s).

(** The tool call of a step: what this code reads of it, and the other fields as bytes. *)
Record TaskCall : Type := MkTask {
  task_description : list Z;
  task_subagent_type : option (list Z);
  task_model : option (list Z);
  task_environment : Z;
  task_machine : option (list Z)
}.
(** [TaskSuccess]. *)
Record TaskSuccess : Type := MkTaskSuccess {
  is_background : bool;
  agent_id : option (list Z);
  result_suffix : option (list Z);
  transcript_path : option (list Z)
}.
Inductive StepTool : Type :=
  | StepRead (path : option (list Z)) (success : bool)
  | StepTask (args : option TaskCall) (success : option TaskSuccess)
  | StepOther (fields : list Z).
Record StepCall : Type := MkStepCall {
  step_call_id : option (list Z);
  step_started_at : option Z;
  step_completed_at : option Z;
  step_tool : option StepTool
}.
(** [ConversationStep]. *)
Inductive Step : Type :=
  | StepAssistant (text : list Z)
  | StepThinking (text : list Z) (duration_ms : Z)
  | StepToolCall (call : StepCall).

(** ** Steps that are not stored yet *)

(** server/src/cursor/checkpoint/steps.rs:7-10, [PendingSteps]. *)
Record PendingSteps : Type := MkPendingSteps { pending_steps : list Step; pending_paths : list (list Z) }.
Definition no_steps : PendingSteps := MkPendingSteps [] [].
(** server/src/cursor/checkpoint/steps.rs:13-18, [StepBuffer]. *)
Record StepBuffer : Type := MkBuffer {
  sb_steps : list Step;
  sb_read_paths : list (list Z);
  sb_text : list Z;
  sb_thinking : list Z
}.
Definition new_buffer : StepBuffer := MkBuffer [] [] [] [].
(** server/src/cursor/checkpoint/steps.rs:21-23, [text_delta]. *)
Definition text_delta (delta : str) (b : StepBuffer) : StepBuffer :=
  MkBuffer (sb_steps b) (sb_read_paths b) (sb_text b ++ delta) (sb_thinking b).
(** server/src/cursor/checkpoint/steps.rs:25-36, [finish_text]. *)
Definition finish_text (b : StepBuffer) : StepBuffer :=
  match sb_text b with
  | [] => b
  | t => MkBuffer (sb_steps b ++ [StepAssistant t]) (sb_read_paths b) [] (sb_thinking b)
  end.
(** server/src/cursor/checkpoint/steps.rs:38-40, [thinking_delta]. *)
Definition thinking_delta (delta : str) (b : StepBuffer) : StepBuffer :=
  MkBuffer (sb_steps b) (sb_read_paths b) (sb_text b) (sb_thinking b ++ delta).
(** server/src/cursor/checkpoint/steps.rs:42-54, [finish_thinking]. *)
Definition finish_thinking (duration_ms : Z) (b : StepBuffer) : StepBuffer :=
  match sb_thinking b with
  | [] => b
  | t => MkBuffer (sb_steps b ++ [StepThinking t (Z.min duration_ms U32_MAX)]) (sb_read_paths b) (sb_text b) []
  end.
Definition push_new (path : str) (paths : list str) : list str :=
  if bool_decide (path ∈ paths) then paths else paths ++ [path].
(** server/src/cursor/checkpoint/steps.rs:56-76, [tool_completed]. *)
Definition tool_completed (call : StepCall) (b : StepBuffer) : StepBuffer :=
  let paths := match step_tool call with
               | Some (StepRead (Some (c :: path)) true) => push_new (c :: path) (sb_read_paths b)
               | _ => sb_read_paths b
               end in
  MkBuffer (sb_steps b ++ [StepToolCall call]) paths (sb_text b) (sb_thinking b).
(** server/src/cursor/checkpoint/steps.rs:78-81, [finish_model_attempt]. *)
Definition finish_model_attempt (b : StepBuffer) : StepBuffer := finish_thinking 0 (finish_text b).
Definition is_tool_step (s : Step) : bool := match s with StepToolCall _ => true | _ => false end.
(** server/src/cursor/checkpoint/steps.rs:83-95, [discard_model_output]. *)
Definition discard_model_output (b : StepBuffer) : StepBuffer :=
  MkBuffer (List.filter is_tool_step (sb_steps b)) (sb_read_paths b) [] [].
(** server/src/cursor/checkpoint/steps.rs:97-102, [take]: the buffer keeps the text and the thinking that are open. *)
Definition take_steps (b : StepBuffer) : StepBuffer * PendingSteps :=
  (MkBuffer [] [] (sb_text b) (sb_thinking b), MkPendingSteps (sb_steps b) (sb_read_paths b)).

(** ** The to-do list and the plan *)

(** server/src/cursor/prompting/derived_state.rs:8-11, [DerivedState]. *)
Record DerivedState : Type := MkDerived { d_todos : option json; d_plan : option json }.
(** server/src/cursor/prompting/derived_state.rs:83-89, [normalize]. *)
Definition normalize_name (name : str) : str := to_ascii_lower <$> List.filter is_ascii_alnum name.

Definition has_id (id : str) (todo : json) : bool := bool_decide (get_str "id" todo = Some id).
(** [todo.extend(patch)]: the members of the patch win. *)
Definition extend (todo patch : list (str * json)) : list (str * json) := foldl (λ m p, map_insert p.1 p.2 m) todo patch.
Fixpoint patch_first (id : str) (patch : list (str * json)) (todos : list json) : list json :=
  match todos with
  | [] => []
  | todo :: todos =>
      if has_id id todo then
        match todo with
        | JObject members => JObject (extend members patch) :: todos
        | _ => todo :: todos
        end
      else todo :: patch_first id patch todos
  end.
Definition existing (patch : json) (todos : list json) : option str :=
  id ← get_str "id" patch; if existsb (has_id id) todos then Some id else None.
Definition apply_patch (todos : list json) (patch : json) : list json :=
  match existing patch todos, patch with
  | Some id, JObject members => patch_first id members todos
  | _, _ => todos ++ [patch]
  end.
Definition todo_list (v : json) : list json := default [] (get_member "todos" v ≫= as_array).
(** server/src/cursor/prompting/derived_state.rs:50-81, [apply_todo_write]. *)
Definition apply_todo_write (current : option json) (input : json) : json :=
  if default false (get_member "merge" input ≫= as_bool) then
    let todos := foldl apply_patch (match current with Some v => todo_list v | None => [] end) (todo_list input) in
    set_member "todos" (JArray todos) (set_member "merge" (JBool false) input)
  else input.

Definition derive_result (name : str) (input : json) (s : DerivedState) : DerivedState :=
  let n := normalize_name name in
  if existsb (named n) ["todowrite"; "updatetodos"]%string then MkDerived (Some (apply_todo_write (d_todos s) input)) (d_plan s)
  else if existsb (named n) ["createplan"; "updateplan"; "writeplan"]%string then MkDerived (d_todos s) (Some input)
  else s.
(** server/src/cursor/prompting/derived_state.rs:17-48, [fold_derived_state_from]: one message, and the calls seen so far. *)
Definition derive_message (acc : gmap (list Z) (list Z * json) * DerivedState) (m : CanonicalMessage)
    : gmap (list Z) (list Z * json) * DerivedState :=
  let '(calls, s) := acc in
  match content m with
  | CAssistant _ _ _ _ tool_calls => (foldl (λ calls c, <[c_call_id c := (c_name c, c_arguments c)]> calls) calls tool_calls, s)
  | CToolResult result =>
      if r_is_error result then acc
      else match calls !! r_call_id result with
           | Some (name, input) => (calls, derive_result name input s)
           | None => acc
           end
  | CParts _ => acc
  end.
(** server/src/cursor/prompting/derived_state.rs:17-48, [fold_derived_state_from]. *)
Definition fold_derived_state_from (messages : list CanonicalMessage) (s : DerivedState) : DerivedState :=
  (foldl derive_message (∅, s) messages).2.
(** server/src/cursor/prompting/derived_state.rs:13-15, [fold_derived_state]. *)
Definition fold_derived_state (messages : list CanonicalMessage) : DerivedState :=
  fold_derived_state_from messages (MkDerived None None).

(** ** The current step *)

Section CurrentStep.
Context {SJ : SerdeJson} {SN : SerdeNumber}.

(** server/src/cursor/checkpoint/derived.rs:215-222, [update_message_index]. *)
Definition update_message_index (output : str) : option Z :=
  match from_str output with
  | Ok value => index ← (pointer ["success"; "message_index"]%string value ≫= as_u64);
                if index <=? U32_MAX then Some index else None
  | Err _ => None
  end.
(** The message index of every result that has one: a [HashMap], where a later result wins. *)
Definition result_indices (messages : list CanonicalMessage) : gmap (list Z) Z :=
  foldl (λ indices m, match content m with
                      | CToolResult r => match update_message_index (r_content r) with
                                         | Some i => <[r_call_id r := i]> indices
                                         | None => indices
                                         end
                      | _ => indices
                      end) ∅ messages.
Definition or_field (name : string) (v : json) (known : option str) : option str :=
  match get_str name v with Some s => Some s | None => known end.
Definition current_step_call (indices : gmap (list Z) Z) (s : UpdateState) (call : ToolCallContent) : UpdateState :=
  if named (normalize_name (c_name call)) "updatecurrentstep" then
    let args := c_arguments call in
    MkUpdates
      (match get_str "current_step" args, indices !! c_call_id call with
       | Some step, Some i => update_history s ++ [(step, i)]
       | _, _ => update_history s
       end)
      (or_field "final_summary" args (final_summary s)) (or_field "completed_subtitle" args (completed_subtitle s))
  else s.
(** server/src/cursor/checkpoint/derived.rs:161-213, [update_current_step_state]. *)
Definition update_current_step_state (messages : list CanonicalMessage) : option UpdateState :=
  let indices := result_indices messages in
  let s := foldl (current_step_call indices) (MkUpdates [] None None) (concat (calls_of <$> messages)) in
  match update_history s, final_summary s, completed_subtitle s with
  | [], None, None => None
  | _, _, _ => Some s
  end.
End CurrentStep.

(** ** Paths that a compaction keeps *)

(** [replace('\\', "/")] and the loop over the leading "./". *)
Fixpoint strip_dots (path : str) : str :=
  match path with
  | 46 :: 47 :: rest => strip_dots rest
  | _ => path
  end.
(** server/src/cursor/checkpoint/summary.rs:205-211, [normalize_path]. *)
Definition normalize_path (path : str) : str := strip_dots ((λ c, if c =? 92 then 47 else c) <$> trim path).
Definition FILE_TOOLS : list string :=
  ["read"; "readfile"; "edit"; "write"; "strreplace"; "patchedit"; "patcheditlines"; "patcheditspan"; "editnotebook";
   "applypatch"; "multiedit"; "createfile"].
Definition PATH_KEYS : list string := ["path"; "file_path"; "target_file"; "absolute_path"; "filename"; "file"].
Fixpoint first_path (keys : list string) (arguments : json) : option str :=
  match keys with
  | [] => None
  | key :: keys => match get_str key arguments with
                   | Some (c :: s) => Some (c :: s)
                   | _ => first_path keys arguments
                   end
  end.
(** server/src/cursor/checkpoint/summary.rs:213-251, [file_tool_path]. *)
Definition file_tool_path (name : str) (arguments : json) : option str :=
  if existsb (named (normalize_name name)) FILE_TOOLS then first_path PATH_KEYS arguments else None.
(** server/src/cursor/checkpoint/summary.rs:182-195, [retained_file_paths]. *)
Definition retained_file_paths (messages : list CanonicalMessage) : list str :=
  omap (λ c, normalize_path <$> file_tool_path (c_name c) (c_arguments c)) (concat (calls_of <$> messages)).

(** ** What the builder does to the state *)

(** server/src/cursor/checkpoint/builder.rs:423-425, [context_limit]. *)
Definition context_limit (selected previous : option Z) : option Z :=
  match selected with
  | Some n => Some n
  | None => p ← previous; if p =? 0 then None else Some p
  end.
(** server/src/cursor/checkpoint/builder.rs:118-135, [record_context_tokens]. *)
Definition record_context_tokens (max_context_tokens used : option Z) (s : State) : State :=
  match context_limit max_context_tokens (max_tokens <$> token_details s) with
  | None => s
  | Some limit =>
      let details := default (MkTokens 0 0 None None None) (token_details s) in
      set_token_details (Some (MkTokens (match used with Some n => Z.min n U32_MAX | None => used_tokens details end)
        (Z.min limit U32_MAX) (token_breakdown details) None None)) s
  end.

(** [HashMap::entry(..).and_modify(..).or_insert_with(..)] and [insert], on the association list. *)
Fixpoint update_or_add {A} (k : str) (modify : A → A) (new : A) (l : list (str * A)) : list (str * A) :=
  match l with
  | [] => [(k, new)]
  | (k', v) :: l => if bool_decide (k' = k) then (k', modify v) :: l else (k', v) :: update_or_add k modify new l
  end.
Definition non_empty (o : option str) : option str := match o with Some (c :: s) => Some (c :: s) | _ => None end.
(** server/src/cursor/checkpoint/builder.rs:285-344, [record_background_subagents]: one step; [now] is the clock. *)
Definition record_background_step (now : Z) (s : State) (step : Step) : State :=
  match step with
  | StepToolCall (MkStepCall call_id started completed (Some (StepTask (Some args) (Some success)))) =>
      if is_background success then
        match non_empty (agent_id success), non_empty call_id with
        | Some agent, Some id =>
            let started := default now started in
            let last := default started completed in
            let s := set_subagent_states
              (update_or_add agent (λ a, MkSubagent (nested_state a) (created_at a) last (persisted_type a) (persisted_model a)
                                     (persisted_environment a) (persisted_machine a))
                 (MkSubagent None started last (task_subagent_type args) (task_model args) (task_environment args) (task_machine args))
                 (subagent_states s)) s in
            set_subagent_runs (<[id := MkSubagentRun id (Some agent) (task_environment args) Backgrounded (Some (task_description args))
                                         (result_suffix success) (transcript_path success) None false]> (subagent_runs s)) s
        | _, _ => s
        end
      else s
  | _ => s
  end.
(** server/src/cursor/checkpoint/builder.rs:285-344, [record_background_subagents]. *)
Definition record_background_subagents (now : Z) (p : PendingSteps) (s : State) : State :=
  foldl (record_background_step now) s (pending_steps p).

(** How a child run ended, of those the store reports. *)
Inductive ChildEnd : Type := ChildCompleted | ChildFailed | ChildCancelled.
(** server/src/cursor/checkpoint/builder.rs:261-281, [apply_subagent_completions]: one finished run. *)
Definition apply_completion (s : State) (finished : str * ChildEnd * Z) : State :=
  let '(id, ended, completed_at) := finished in
  match subagent_runs s !! id with
  | Some run =>
      if bool_decide (run_completed_at run ≠ None) then s
      else set_subagent_runs (<[id := MkSubagentRun (parent_tool_call_id run) (subagent_id run) (run_environment run)
             (match ended with ChildCompleted => RunSuccess | ChildFailed => RunError | ChildCancelled => RunAborted end)
             (run_title run) (run_detail run) (run_transcript_path run) (Some completed_at) true]> (subagent_runs s)) s
  | None => s
  end.
(** The calls the store is asked about: those that have not completed. *)
Definition unfinished_runs (s : State) : list str :=
  fst <$> filter (λ p : str * SubagentRunState, run_completed_at p.2 = None) (map_to_list (subagent_runs s)).

Definition option_list {A} (o : option A) : list A := match o with Some x => [x] | None => [] end.
(** server/src/cursor/checkpoint/builder.rs:389-407, [checkpoint_blob_roots]: the ids one state names. *)
Definition raw_ids (s : State) : list (list Z) :=
  root_prompt_messages_json s ++ turns s ++ todos s ++ option_list (summary s) ++ option_list (plan s)
  ++ option_list (summary_archive s) ++ summary_archives s ++ (snd <$> map_to_list (file_states s))
  ++ (snd <$> map_to_list (subagent_state_refs s))
  ++ concat ((λ p, option_list (file_content p.2) ++ option_list (initial_content p.2)) <$> map_to_list (file_states_v2 s))
  ++ match token_details s with Some d => option_list (usage_snapshot_blob_id d) | None => [] end.
(** server/src/cursor/checkpoint/builder.rs:413-417, [checkpoint_blob_roots]: the states of the conversation and of the subagents
    inside it, the conversation first. *)
Fixpoint nested_states (c : ConversationState) : list State :=
  match c with
  | Nested s => s :: concat (List.map (λ p : str * SubagentOf ConversationState,
                                          match nested_state p.2 with Some child => nested_states child | None => [] end) (subagent_states s))
  end.
(** server/src/cursor/checkpoint/builder.rs:386-421, [checkpoint_blob_roots]: a set, here the list of what is inserted. *)
Definition checkpoint_blob_roots (s : State) : res (list (list Z)) :=
  mapM from_bytes (List.filter (λ id, match id with [] => false | _ => true end) (concat (raw_ids <$> nested_states (Nested s)))).
