(* ===== verification/Blobs.v ===== *)
(** * Blobs: what the builder of a checkpoint is promised by the blobs it works on

    [Blobs] is the interface of the builder: [persist] and [get] of the synchronizer (server/src/cursor/services/blob_sync.rs),
    [put_blob] and [retain_conversation_blobs] of the store and [emit] of the transport; [BlobsLaws] is what they promise.  The
    implementation at the end runs the synchronizer of Cas.v: an operation begins, the other tasks and the client take steps until its
    waiter is answered or the wait ends, and a wait that ends in an error forgets its request.  What the environment does at the n-th
    operation is an input. *)

From stdpp Require Import prelude gmap sets strings list.
From S2P Require Import Prelude Errors External Json CheckpointMessages Cas CheckpointState.
Local Open Scope Z_scope.

Class Blobs (W : Type) : Type := {
  stored : W → Cas;
  roots_kept : W → gset (list Z * list Z);
  sent : W → list State;
  persist : list Z → list BlobEdge → W → W * res (list Z);
  fetch : list Z → W → W * res (option (list Z));
  put : list Z → list BlobEdge → W → W * res (list Z);
  retain : list Z → list (list Z) → W → W;
  emit : State → W → W * res ()
}.

Section Laws.
Context {SH : Sha256}.

Definition is_stored (db : Cas) (id : list Z) : Prop := is_Some (blobs db !! id).
(** A store whose blobs are under their digests and whose edges end at blobs. *)
Definition good (db : Cas) : Prop := content_addressed db ∧ edges_closed db.

(** A blob that was put is there with its edges, and what was there stays. *)
Definition put_ok (data : list Z) (edges : list BlobEdge) (db db' : Cas) (id : list Z) : Prop :=
  id = digest data ∧ is_stored db' id ∧ ∀ e, e ∈ edges → (id, e) ∈ blob_edges db'.

Class BlobsLaws (W : Type) `{Blobs W} : Prop := {
  persist_good data edges w : good (stored w) → good (stored (persist data edges w).1) ∧
    keeps (stored w) (stored (persist data edges w).1) ∧ roots_kept (persist data edges w).1 = roots_kept w ∧
    sent (persist data edges w).1 = sent w;
  persist_ok data edges w w' id : good (stored w) → persist data edges w = (w', Ok id) → put_ok data edges (stored w) (stored w') id;
  fetch_good id w : good (stored w) → good (stored (fetch id w).1) ∧ keeps (stored w) (stored (fetch id w).1) ∧
    roots_kept (fetch id w).1 = roots_kept w ∧ sent (fetch id w).1 = sent w;
  fetch_ok id w w' data : good (stored w) → fetch id w = (w', Ok (Some data)) → digest data = id;
  fetch_local id w row : good (stored w) → blobs (stored w) !! id = Some row → (fetch id w).2 = Ok (Some (blob_data row));
  put_good data edges w : good (stored w) → good (stored (put data edges w).1) ∧ keeps (stored w) (stored (put data edges w).1) ∧
    roots_kept (put data edges w).1 = roots_kept w ∧ sent (put data edges w).1 = sent w;
  put_stored data edges w w' id : good (stored w) → put data edges w = (w', Ok id) → put_ok data edges (stored w) (stored w') id;
  retain_spec c roots w : stored (retain c roots w) = stored w ∧ sent (retain c roots w) = sent w ∧
    roots_kept (retain c roots w) = list_to_set (pair c <$> roots) ∪ filter (λ r, r.1 ≠ c) (roots_kept w);
  emit_spec state w : stored (emit state w).1 = stored w ∧ roots_kept (emit state w).1 = roots_kept w ∧
    sent (emit state w).1 = if is_ok (emit state w).2 then sent w ++ [state] else sent w
}.
End Laws.

(** ** The implementation *)

(** What the other tasks and the client do while an operation waits. *)
Inductive SyncOp : Type :=
  | OtherPersist (now : Z) (data : list Z) (edges : list BlobEdge) (emitted : res ())
  | OtherGet (now : Z) (blob : list Z) (emitted : res ())
  | SetAbandoned (id : Z)
  | GetAbandoned (id : Z)
  | OtherReceived (now : Z) (blob data : list Z)
  | FromClient (now : Z) (id : Z) (message : KvClientMessage).
(** One operation: the clock, what [emit] returns, what happens while it waits and how an unanswered wait ends. *)
Record Await : Type := MkAwait { aw_now : Z; aw_emitted : res (); aw_meanwhile : list SyncOp; aw_end : Error }.
Record World : Type := MkWorld { w_sync : Sync; w_roots : gset (list Z * list Z); w_sent : list State; w_at : nat }.

Section Implementation.
Context {SH : Sha256} {B64 : Base64} {FK : ForeignKeys}.
Context (env : nat → Await).

Definition other_op (waiting : Z) (op : SyncOp) (s : Sync) : Sync * option SyncReply :=
  match op with
  | OtherPersist now data edges emitted => ((persist_begin now data edges emitted s).1, None)
  | OtherGet now blob emitted => ((get_begin now blob emitted s).1, None)
  | SetAbandoned id => (ensure_set_abandon id s, None)
  | GetAbandoned id => (get_abandon id s, None)
  | OtherReceived now blob data => (match cache_received now blob data (cas s) with Ok db => set_cas s db | Err _ => s end, None)
  | FromClient now id message =>
      let '(s', reply) := handle_client now id message s in (s', if id =? waiting then snd <$> reply else None)
  end.
(** Until the waiter is answered; [pending] is that its request is still registered, for otherwise its channel is closed. *)
Fixpoint meanwhile (waiting : Z) (pending : Sync → bool) (closed : SyncReply) (ops : list SyncOp) (s : Sync) : Sync * option SyncReply :=
  match ops with
  | [] => (s, None)
  | op :: ops => match other_op waiting op s with
                 | (s', Some r) => (s', Some r)
                 | (s', None) => if pending s' then meanwhile waiting pending closed ops s' else (s', Some closed)
                 end
  end.
Definition set_closed : SyncReply := SetReply (Err (protocol "KV SET response channel closed")).
Definition get_closed : SyncReply := GetReply (Err (protocol "KV GET response channel closed")).
(** server/src/cursor/services/blob_sync.rs:131-139, [ensure_set]: the wait. *)
Definition wait_set (a : Await) (blob : list Z) (begun : Sync * Begun) : Sync * res () :=
  match begun with
  | (s, Answered (SetReply r)) => (s, r)
  | (s, Answered (GetReply _)) => (s, Err (aw_end a))
  | (s, Waiting id) =>
      match meanwhile id (λ s, bool_decide (set_requests s !! id = Some blob)) set_closed (aw_meanwhile a) s with
      | (s', Some (SetReply (Ok u))) => (s', Ok u)
      | (s', Some (SetReply (Err e))) => (ensure_set_abandon id s', Err e)
      | (s', _) => (ensure_set_abandon id s', Err (aw_end a))
      end
  end.
(** server/src/cursor/services/blob_sync.rs:189-197, [get]: the wait. *)
Definition wait_get (a : Await) (blob : list Z) (begun : Sync * Begun) : Sync * res (option (list Z)) :=
  match begun with
  | (s, Answered (GetReply r)) => (s, r)
  | (s, Answered (SetReply _)) => (s, Err (aw_end a))
  | (s, Waiting id) =>
      match meanwhile id (λ s, bool_decide (get_requests s !! id = Some blob)) get_closed (aw_meanwhile a) s with
      | (s', Some (GetReply (Ok r))) => (s', Ok r)
      | (s', Some (GetReply (Err e))) => (get_abandon id s', Err e)
      | (s', _) => (get_abandon id s', Err (aw_end a))
      end
  end.
Definition with_sync (s : Sync) (w : World) : World := MkWorld s (w_roots w) (w_sent w) (S (w_at w)).
(** server/src/cursor/services/blob_sync.rs:75-96, [persist]: the trace is left out. *)
Definition world_persist (data : list Z) (edges : list BlobEdge) (w : World) : World * res (list Z) :=
  let a := env (w_at w) in
  let '(s, r) := wait_set a (digest data) (persist_begin (aw_now a) data edges (aw_emitted a) (w_sync w)) in
  (with_sync s w, r ≫= λ _, Ok (digest data)).
(** server/src/cursor/services/blob_sync.rs:142-236, [get]: the traces are left out. *)
Definition world_fetch (id : list Z) (w : World) : World * res (option (list Z)) :=
  let a := env (w_at w) in
  let '(s, r) := wait_get a id (get_begin (aw_now a) id (aw_emitted a) (w_sync w)) in (with_sync s w, r).
(** server/src/store/cas.rs:52-59, [put_blob]: over the world. *)
Definition world_put (data : list Z) (edges : list BlobEdge) (w : World) : World * res (list Z) :=
  match put_blob (aw_now (env (w_at w))) data edges (cas (w_sync w)) with
  | Ok (db, id) => (with_sync (set_cas (w_sync w) db) w, Ok id)
  | Err e => (with_sync (w_sync w) w, Err e)
  end.
(** server/src/store/retention.rs:74-91, [retain_conversation_blobs]. *)
Definition world_retain (c : list Z) (roots : list (list Z)) (w : World) : World :=
  MkWorld (w_sync w) (list_to_set (pair c <$> roots) ∪ filter (λ r, r.1 ≠ c) (w_roots w)) (w_sent w) (S (w_at w)).
Definition world_emit (state : State) (w : World) : World * res () :=
  match aw_emitted (env (w_at w)) with
  | Ok u => (MkWorld (w_sync w) (w_roots w) (w_sent w ++ [state]) (S (w_at w)), Ok u)
  | Err e => (MkWorld (w_sync w) (w_roots w) (w_sent w) (S (w_at w)), Err e)
  end.

#[export] Instance world_blobs : Blobs World := {|
  stored w := cas (w_sync w);
  roots_kept := w_roots;
  sent := w_sent;
  persist := world_persist;
  fetch := world_fetch;
  put := world_put;
  retain := world_retain;
  emit := world_emit
|}.

(** Every operation of the synchronizer keeps a good store good. *)
Definition grows (db db' : Cas) : Prop := good db → good db' ∧ keeps db db'.
Lemma grows_refl db : grows db db.
Proof. intros H. split; [done|apply keeps_refl]. Qed.
Lemma grows_trans a b c : grows a b → grows b c → grows a c.
Proof. intros H1 H2 Ha. destruct (H1 Ha) as [Hb K1]. destruct (H2 Hb) as [Hc K2]. split; [done|by eapply keeps_trans]. Qed.
Lemma put_grows now data edges db db' : put_blob_tx now (digest data) data edges db = Ok db' → grows db db'.
Proof.
  intros H [Ha Hc]. split; [split|].
  - by eapply put_blob_addressed.
  - by eapply put_blob_closed.
  - by eapply put_blob_keeps.
Qed.
Lemma touch_grows now id db : grows db (touch_blob now id db).
Proof.
  intros [Ha Hc]. destruct (touch_addressed now id db Ha) as [H1 H2]. split; [split; [done|]|done].
  intros p e He. assert ((p, e) ∈ blob_edges db) as Hin by (revert He; unfold touch_blob; by repeat case_match).
  destruct (Hc _ _ Hin) as [[r1 E1] [r2 E2]]. destruct H2 as [Hk _].
  destruct (Hk _ _ E1) as (r1' & E1' & _). destruct (Hk _ _ E2) as (r2' & E2' & _). split; by eexists.
Qed.
Lemma get_grows now id db : grows db (get_blob now id db).1.
Proof. unfold get_blob. repeat case_match; cbn; first [apply touch_grows|apply grows_refl]. Qed.

Lemma ensure_set_cas blob emitted s : cas (ensure_set_begin blob emitted s).1 = cas s.
Proof. unfold ensure_set_begin. by repeat case_match. Qed.
Lemma persist_grows now data edges emitted s : grows (cas s) (cas (persist_begin now data edges emitted s).1).
Proof.
  unfold persist_begin, put_blob. destruct (put_blob_tx _ _ _ _ _) as [db|e] eqn:E; [|apply grows_refl]. cbn [mbind result_bind].
  rewrite ensure_set_cas. by eapply put_grows.
Qed.
Lemma get_begin_cas now blob emitted s : cas (get_begin now blob emitted s).1 = (get_blob now blob (cas s)).1.
Proof. unfold get_begin. destruct (get_blob _ _ _) as [db [d|]]; [done|]. by destruct emitted. Qed.
Lemma client_grows now id message s : grows (cas s) (cas (handle_client now id message s).1).
Proof.
  unfold handle_client. destruct message as [e|e data|]; [| |apply grows_refl].
  - destruct (set_requests s !! id); [destruct e|]; apply grows_refl.
  - destruct (get_requests s !! id) as [blob|]; [|apply grows_refl]. destruct e, data as [data|]; try apply grows_refl.
    destruct (bool_decide _); [|apply grows_refl]. unfold put_blob. cbn [cas].
    destruct (put_blob_tx _ _ _ _ _) eqn:E; [|apply grows_refl]. cbn [mbind result_bind]. by eapply put_grows.
Qed.
Lemma other_grows waiting op s : grows (cas s) (cas (other_op waiting op s).1).
Proof.
  destruct op as [now data edges emitted|now blob emitted|id|id|now blob data|now id message]; cbn [other_op fst].
  - apply persist_grows.
  - rewrite get_begin_cas. apply get_grows.
  - apply grows_refl.
  - apply grows_refl.
  - unfold cache_received, put_blob. destruct (bool_decide _); [|apply grows_refl].
    destruct (put_blob_tx _ _ _ _ _) eqn:E; [|apply grows_refl]. cbn. by eapply put_grows.
  - pose proof (client_grows now id message s) as H. by destruct (handle_client now id message s).
Qed.
Lemma meanwhile_grows waiting pending closed ops s : grows (cas s) (cas (meanwhile waiting pending closed ops s).1).
Proof.
  revert s. induction ops as [|op ops IH]; intros s; [apply grows_refl|]. cbn [meanwhile].
  pose proof (other_grows waiting op s) as H. destruct (other_op waiting op s) as [s' [r|]]; [done|].
  destruct (pending s'); [|done]. eapply grows_trans; [done|apply IH].
Qed.
Ltac destruct_wait :=
  match goal with |- context [meanwhile ?id ?pending ?closed ?ops ?s] => pose proof (meanwhile_grows id pending closed ops s) as H end.
Lemma wait_set_grows a blob begun : grows (cas begun.1) (cas (wait_set a blob begun).1).
Proof.
  destruct begun as [s [[r|r]|id]]; cbn [wait_set fst]; [apply grows_refl..|].
  destruct_wait. destruct (meanwhile _ _ _ _ _) as [s' [[[u|e]|r]|]]; exact H.
Qed.
Lemma wait_get_grows a blob begun : grows (cas begun.1) (cas (wait_get a blob begun).1).
Proof.
  destruct begun as [s [[r|r]|id]]; cbn [wait_get fst]; [apply grows_refl..|].
  destruct_wait. destruct (meanwhile _ _ _ _ _) as [s' [[r|[u|e]]|]]; exact H.
Qed.

(** What the waiter of a GET is given has the digest it asked for. *)
Lemma meanwhile_answer id blob ops s s' data : get_requests s !! id = Some blob →
  meanwhile id (λ s, bool_decide (get_requests s !! id = Some blob)) get_closed ops s = (s', Some (GetReply (Ok (Some data)))) →
  digest data = blob.
Proof.
  revert s. induction ops as [|op ops IH]; intros s Hp H; [done|]. cbn [meanwhile] in H.
  destruct (other_op id op s) as [s1 [r|]] eqn:Eo.
  - injection H as -> ->. destruct op as [| | | | |now k message]; try done. cbn [other_op] in Eo.
    destruct (handle_client now k message s) as [s2 reply] eqn:Ec. destruct (Z.eqb_spec k id) as [->|]; [|done].
    injection Eo as -> Hr. unfold handle_client in Ec. destruct message as [e|e d|].
    + destruct (set_requests s !! id); [destruct e|]; injection Ec as <- <-; done.
    + rewrite Hp in Ec. destruct e as [e|]; [by injection Ec as <- <-|]. destruct d as [d|]; [|by injection Ec as <- <-].
      destruct (bool_decide_reflect (digest d = blob)) as [Hd|]; [|by injection Ec as <- <-].
      destruct (put_blob _ _ _ _) as [[db i]|]; injection Ec as <- <-; cbn in Hr; [|done]. injection Hr as <-. done.
    + by injection Ec as <- <-.
  - case_bool_decide as Hb; [by eapply IH|done].
Qed.

Lemma get_begin_waiting now blob emitted s s' id : get_begin now blob emitted s = (s', Waiting id) → get_requests s' !! id = Some blob.
Proof.
  unfold get_begin. destruct (get_blob _ _ _) as [db [d|]]; [done|]. destruct emitted; [|done]. intros [= <- <-]. cbn. by rewrite lookup_insert_eq.
Qed.
Lemma persist_answer now data edges emitted s s' b : persist_begin now data edges emitted s = (s', b) →
  (∃ e, b = Answered (SetReply (Err e))) ∨ ∃ db, put_blob_tx now (digest data) data edges (cas s) = Ok db ∧ cas s' = db.
Proof.
  unfold persist_begin, put_blob. destruct (put_blob_tx _ _ _ _ _) as [db|e] eqn:E; cbn [mbind result_bind].
  - intros H. right. exists db. split; [done|]. pose proof (ensure_set_cas (digest data) emitted (set_cas s db)) as Hc. by rewrite H in Hc.
  - intros [= <- <-]. left. by eexists.
Qed.

Lemma keeps_stored db db' id : keeps db db' → is_stored db id → is_stored db' id.
Proof. intros [Hk _] [row Hr]. destruct (Hk _ _ Hr) as (row' & E & _). by exists row'. Qed.
Lemma put_tx_ok now data edges db db' : put_blob_tx now (digest data) data edges db = Ok db' → put_ok data edges db db' (digest data).
Proof. intros H. destruct (put_blob_stored _ _ _ _ _ H) as [(row & Hr & _) He]. split_and!; [done|by exists row|done]. Qed.

#[export] Instance world_laws : BlobsLaws World.
Proof.
  split; cbn [stored roots_kept sent persist fetch put retain emit world_blobs].
  - intros data edges w Hg. unfold world_persist. set (a := env (w_at w)).
    pose proof (grows_trans _ _ _ (persist_grows (aw_now a) data edges (aw_emitted a) (w_sync w))
                  (wait_set_grows a (digest data) (persist_begin (aw_now a) data edges (aw_emitted a) (w_sync w))) Hg) as [G K].
    by destruct (wait_set _ _ _) as [s r].
  - intros data edges w w' id Hg. unfold world_persist. set (a := env (w_at w)).
    destruct (persist_begin (aw_now a) data edges (aw_emitted a) (w_sync w)) as [s1 b] eqn:Eb.
    pose proof (persist_grows (aw_now a) data edges (aw_emitted a) (w_sync w) Hg) as [Hg1 _]. rewrite Eb in Hg1. cbn [fst] in Hg1.
    pose proof (wait_set_grows a (digest data) (s1, b) Hg1) as [_ K].
    destruct (wait_set a (digest data) (s1, b)) as [s r] eqn:Ew. intros [= <- Hr]. destruct r as [u|]; [|done]. cbn in Hr. apply ok_inj in Hr as <-.
    destruct (persist_answer _ _ _ _ _ _ _ Eb) as [[e ->]|(db & Ep & Ec)]; [done|]. cbn [with_sync w_sync].
    destruct (put_tx_ok _ _ _ _ _ Ep) as (_ & Hs & He). rewrite <- Ec in Hs, He. cbn [fst] in K. split_and!; [done|by eapply keeps_stored|].
    intros x Hx. by apply K, He.
  - intros id w Hg. unfold world_fetch. set (a := env (w_at w)).
    assert (grows (cas (w_sync w)) (cas (get_begin (aw_now a) id (aw_emitted a) (w_sync w)).1)) as H1 by (rewrite get_begin_cas; apply get_grows).
    pose proof (grows_trans _ _ _ H1 (wait_get_grows a id (get_begin (aw_now a) id (aw_emitted a) (w_sync w))) Hg) as [G K].
    by destruct (wait_get _ _ _) as [s r].
  - intros id w w' data Hg. unfold world_fetch. set (a := env (w_at w)).
    destruct (get_begin (aw_now a) id (aw_emitted a) (w_sync w)) as [s1 b] eqn:Eb.
    destruct (wait_get a id (s1, b)) as [s r] eqn:Ew. intros [= <- ->]. destruct b as [[r|r]|k]; cbn [wait_get] in Ew; [done| |].
    + injection Ew as -> ->. unfold get_begin in Eb. destruct (get_blob_addressed (aw_now a) id (cas (w_sync w)) (proj1 Hg)) as (_ & _ & Hd).
      destruct (get_blob _ _ _) as [db [d|]]; [|by destruct (aw_emitted a)]. injection Eb as <- <-. exact Hd.
    + pose proof (get_begin_waiting _ _ _ _ _ _ Eb) as Hp.
      destruct (meanwhile _ _ _ _ _) as [s2 [[r|[[d|]|e]]|]] eqn:Em; try done. injection Ew as -> <-. by eapply meanwhile_answer.
  - intros id w row Hg Hr. unfold world_fetch. unfold get_begin, get_blob. by rewrite Hr.
  - intros data edges w Hg. unfold world_put, put_blob. destruct (put_blob_tx _ _ _ _ _) as [db|] eqn:E; cbn.
    + by destruct (put_grows _ _ _ _ _ E Hg).
    + split_and!; [by destruct Hg..|apply keeps_refl|done|done].
  - intros data edges w w' id Hg. unfold world_put, put_blob. destruct (put_blob_tx _ _ _ _ _) as [db|] eqn:E; [|done]. cbn.
    intros [= <- <-]. cbn. by eapply put_tx_ok.
  - done.
  - intros state w. unfold world_emit. by destruct (aw_emitted _).
Qed.
End Implementation.
