(* ===== verification/Replay.v ===== *)
(** * Replay: the size limit of tool results

    server/src/model/tool_result_replay.rs: what of a tool result the model sees.
    The truncation loops are run with fuel: [None] is a loop that has not ended. *)

From stdpp Require Import prelude gmap strings list.
From S2P Require Import Prelude Errors External.
Local Open Scope Z_scope.

(** ** Whole characters within a number of bytes *)

Section Utf8.

(** server/src/model/tool_result_replay.rs:265-271, [utf8_prefix]: the longest
    prefix whose end is a character boundary at or before [limit]. *)
Fixpoint utf8_prefix (value : str) (limit : Z) : str :=
  match value with
  | [] => []
  | c :: rest =>
      if len_utf8 c <=? limit then c :: utf8_prefix rest (limit - len_utf8 c) else []
  end.

(** server/src/model/tool_result_replay.rs:273-279, [utf8_suffix]: the longest suffix
    that starts at a character boundary. *)
Definition utf8_suffix (value : str) (limit : Z) : str :=
  reverse (utf8_prefix (reverse value) limit).

Lemma utf8_prefix_prefix s limit : utf8_prefix s limit `prefix_of` s.
Proof.
  revert limit. induction s as [|c s IH]; intros limit; cbn; [done|].
  case_match; [by apply prefix_cons|apply prefix_nil].
Qed.

Lemma str_len_nonneg s : 0 ≤ str_len s.
Proof. pose proof (str_len_bound s). pose proof (zlen_nonneg s). lia. Qed.

Lemma utf8_prefix_bound s limit : 0 ≤ limit → str_len (utf8_prefix s limit) ≤ limit.
Proof.
  revert limit. induction s as [|c s IH]; intros limit Hl; cbn [utf8_prefix]; [done|].
  destruct (Z.leb_spec (len_utf8 c) limit); [|done]. rewrite str_len_cons.
  specialize (IH (limit - len_utf8 c)). lia.
Qed.

Lemma utf8_prefix_near s limit : limit < str_len s → limit - 3 ≤ str_len (utf8_prefix s limit).
Proof.
  revert limit. induction s as [|c s IH]; intros limit Hl; cbn [utf8_prefix] in *.
  { change (str_len []) with 0 in *. lia. }
  rewrite str_len_cons in Hl. pose proof (len_utf8_bound c).
  destruct (Z.leb_spec (len_utf8 c) limit).
  - rewrite str_len_cons. specialize (IH (limit - len_utf8 c)). lia.
  - change (str_len []) with 0. lia.
Qed.

Lemma str_len_reverse s : str_len (reverse s) = str_len s.
Proof.
  induction s as [|c s IH]; [done|]. rewrite reverse_cons, str_len_app, IH, !str_len_cons.
  change (str_len []) with 0. lia.
Qed.

Lemma utf8_suffix_suffix s limit : utf8_suffix s limit `suffix_of` s.
Proof.
  unfold utf8_suffix. destruct (utf8_prefix_prefix (reverse s) limit) as [k Hk].
  exists (reverse k). rewrite <- reverse_app, <- Hk. by rewrite reverse_involutive.
Qed.

Lemma utf8_suffix_bound s limit : 0 ≤ limit → str_len (utf8_suffix s limit) ≤ limit.
Proof. unfold utf8_suffix. rewrite str_len_reverse. apply utf8_prefix_bound. Qed.

Lemma utf8_suffix_near s limit : limit < str_len s → limit - 3 ≤ str_len (utf8_suffix s limit).
Proof.
  unfold utf8_suffix. rewrite str_len_reverse, <- (str_len_reverse s). apply utf8_prefix_near.
Qed.
End Utf8.

Section Limits.
Context {SJ : SerdeJson}.

(** server/src/model/tool_result_replay.rs:12-12, [KIB]. *)
Definition KIB : Z := 1024.

(** [matches!(s, "..." | ...)] *)
Definition one_of (s : str) (names : list string) : bool := bool_decide (s ∈ lit <$> names).

(** server/src/model/tool_result_replay.rs:75-77, [may_spill]. *)
Definition may_spill (name : str) : bool := negb (one_of (trim name) ["GenerateImage"%string]).

(** server/src/model/tool_result_replay.rs:80-92, [replay_limit]. *)
Definition replay_limit (name : str) : option Z :=
  let name := trim name in
  if one_of name ["GenerateImage"; "WebSearch"]%string then Some (16 * KIB)
  else if one_of name ["Read"]%string then Some (64 * KIB)
  else if one_of name ["Shell"]%string then Some (128 * KIB)
  else if one_of name ["Grep"; "Glob"]%string then Some (32 * KIB)
  else if one_of name ["PatchEdit"; "PatchEditLines"; "PatchEditSpan"; "StrReplace"]%string
  then Some (4 * KIB)
  else if one_of name ["Edit"; "EditNotebook"; "Write"; "WebFetch"]%string then Some (32 * KIB)
  else if one_of name ["CallMcpTool"; "FetchMcpResource"; "ListMcpResources"; "GetMcpTools";
                       "SembleSearch"; "SembleFindRelated"]%string then Some (32 * KIB)
  else None.

(** server/src/model/tool_result_replay.rs:233-238, [edit_limit]. *)
Definition edit_limit (name : str) : Z :=
  if one_of (trim name) ["PatchEdit"; "PatchEditLines"; "PatchEditSpan"; "StrReplace"]%string
  then 4 * KIB else 32 * KIB.

Definition newlines2 : str := [10; 10].

(** server/src/model/tool_result_replay.rs:113-121, [truncate_replay_text]: the notice. *)
Definition replay_notice (name : str) (limit shown original : Z) (spill : option str) : str :=
  newlines2 ++ lit "[truncated: " ++ name ++ lit " result exceeded " ++ decimal limit
  ++ lit " bytes; showing " ++ decimal shown ++ lit " of " ++ decimal original
  ++ match spill with
     | Some path => lit " bytes; full result stored at: " ++ path ++ lit "]"
     | None => lit " bytes]"
     end.

(** [trim_start_matches('\n')] and [trim_end_matches('\n')]. *)
Fixpoint trim_start_newlines (s : str) : str :=
  match s with 10 :: rest => trim_start_newlines rest | _ => s end.
Definition trim_end_newlines (s : str) : str := reverse (trim_start_newlines (reverse s)).

(** server/src/model/tool_result_replay.rs:112-136, [truncate_replay_text]: one turn. *)
Definition replay_body (name content : str) (limit : Z) (spill : option str) (shown : Z)
    : flow Z str :=
  let notice := replay_notice name limit shown (str_len content) spill in
  if limit <=? str_len notice then
    Done match spill with
         | Some _ => trim_start_newlines notice
         | None => utf8_prefix content limit
         end
  else
    let available := sat_sub limit (str_len notice) in
    let kept := utf8_prefix content available in
    if str_len kept =? shown then Done (trim_end_newlines kept ++ notice)
    else Next (str_len kept).

(** server/src/model/tool_result_replay.rs:106-137, [truncate_replay_text]. *)
Definition truncate_replay_text (fuel : nat) (name content : str) (limit : Z) (spill : option str)
    : option str :=
  if str_len content <=? limit then Some content
  else loop (replay_body name content limit spill) fuel limit.

(** server/src/model/tool_result_replay.rs:247-258, [truncate_middle]: the notice. *)
Definition middle_notice (name : str) (limit shown original : Z) : str :=
  newlines2 ++ lit "[truncated: " ++ name ++ lit " result exceeded " ++ decimal limit
  ++ lit " bytes; omitted middle; showing " ++ decimal shown ++ lit " of " ++ decimal original
  ++ lit " bytes]" ++ newlines2.

(** server/src/model/tool_result_replay.rs:246-262, [truncate_middle]: one turn. *)
Definition middle_body (name content : str) (limit shown : Z) : flow Z str :=
  let original := str_len content in
  let notice := middle_notice name limit shown original in
  let available := sat_sub limit (str_len notice) in
  let head := utf8_prefix content (available / 2) in
  let tail := utf8_suffix content (sat_sub available (str_len head)) in
  let next_shown := str_len head + str_len tail in
  let next_notice := middle_notice name limit next_shown original in
  let output := head ++ next_notice ++ tail in
  if (str_len output <=? limit) || bool_decide (next_notice = notice) then Done output
  else Next next_shown.

(** server/src/model/tool_result_replay.rs:240-263, [truncate_middle]: with fuel. *)
Definition truncate_middle_loop (fuel : nat) (name content : str) (limit : Z) : option str :=
  if str_len content <=? limit then Some content
  else loop (middle_body name content limit) fuel limit.

Lemma middle_notice_len name limit shown original : 0 ≤ shown →
  str_len (middle_notice name limit shown original) =
  str_len (middle_notice name limit 0 original) - 1 + zlen (decimal shown).
Proof.
  intros Hs. unfold middle_notice. rewrite !str_len_app, (decimal_str_len shown) by done.
  change (str_len (decimal 0)) with 1. lia.
Qed.

Lemma utf8_prefix_0 s : utf8_prefix s 0 = [].
Proof. destruct s as [|c s]; [done|]. cbn. pose proof (len_utf8_bound c). by rewrite (proj2 (Z.leb_gt _ _)) by lia. Qed.
Lemma utf8_suffix_0 s : utf8_suffix s 0 = [].
Proof. unfold utf8_suffix. by rewrite utf8_prefix_0. Qed.

(** What one turn shows is at most what the limit leaves beside the notice. *)
Lemma middle_shown content available : 0 ≤ available →
  let head := utf8_prefix content (available / 2) in
  let tail := utf8_suffix content (sat_sub available (str_len head)) in
  0 ≤ str_len head + str_len tail ≤ available.
Proof.
  intros Ha. cbn zeta.
  pose proof (utf8_prefix_bound content (available / 2) ltac:(apply Z.div_pos; lia)).
  assert (available / 2 ≤ available) by (apply Z.div_le_upper_bound; lia).
  set (head := utf8_prefix content (available / 2)) in *. pose proof (str_len_nonneg head).
  pose proof (utf8_suffix_bound content (sat_sub available (str_len head)) ltac:(unfold sat_sub; lia)).
  pose proof (str_len_nonneg (utf8_suffix content (sat_sub available (str_len head)))).
  unfold sat_sub in *. lia.
Qed.

Lemma middle_body_first name content limit : 0 ≤ limit →
  (∃ output, middle_body name content limit limit = Done output ∧
     (str_len (middle_notice name limit limit (str_len content)) ≤ limit → str_len output ≤ limit)) ∨
  (middle_body name content limit limit = Next 0 ∧
     limit < str_len (middle_notice name limit 0 (str_len content))).
Proof.
  intros Hl. unfold middle_body. set (original := str_len content).
  set (notice := middle_notice name limit limit original).
  pose proof (middle_shown content (sat_sub limit (str_len notice)) ltac:(unfold sat_sub; lia)) as Hs.
  cbn zeta in Hs.
  set (head := utf8_prefix content (sat_sub limit (str_len notice) / 2)) in *.
  set (tail := utf8_suffix content _) in *.
  destruct (decide (str_len notice ≤ limit)) as [Hle|Hgt].
  - left. assert (str_len (head ++ middle_notice name limit (str_len head + str_len tail) original
                           ++ tail) ≤ limit) as Hout.
    { pose proof (decimal_mono (str_len head + str_len tail) limit) as Hd.
      assert (str_len head + str_len tail ≤ limit - str_len notice) by (unfold sat_sub in Hs; lia).
      assert (str_len notice = str_len (middle_notice name limit 0 original) - 1 + zlen (decimal limit))
        by (by apply middle_notice_len).
      assert (0 ≤ str_len notice) by apply str_len_nonneg.
      rewrite !str_len_app, middle_notice_len by lia. lia. }
    rewrite (proj2 (Z.leb_le _ _)) by done. eexists. split; [done|]. auto.
  - assert (sat_sub limit (str_len notice) = 0) as Hz by (unfold sat_sub; lia).
    assert (head = []) as Eh by (subst head; rewrite Hz; apply utf8_prefix_0).
    assert (tail = []) as Et by (subst tail; rewrite Hz, Eh; apply utf8_suffix_0).
    rewrite Eh, Et. change (str_len []) with 0. cbn [app]. rewrite app_nil_r, Z.add_0_r.
    destruct (Z.leb_spec (str_len (middle_notice name limit 0 original)) limit) as [Hle|Hgt'].
    + left. eexists. split; [done|]. lia.
    + case_bool_decide; [left|right]; [|done]. eexists. split; [done|]. lia.
Qed.

Lemma middle_body_second name content limit :
  limit < str_len (middle_notice name limit 0 (str_len content)) →
  ∃ output, middle_body name content limit 0 = Done output.
Proof.
  intros Hgt. unfold middle_body.
  assert (sat_sub limit (str_len (middle_notice name limit 0 (str_len content))) = 0) as ->
    by (unfold sat_sub; lia).
  change (0 / 2) with 0. rewrite utf8_prefix_0. change (str_len []) with 0.
  change (sat_sub 0 0) with 0. rewrite utf8_suffix_0. change (str_len []) with 0.
  change (0 + 0) with 0. rewrite (bool_decide_eq_true_2 _ eq_refl), orb_true_r. eauto.
Qed.

(** Two turns are enough, and one keeps the limit when the notice fits in it. *)
Lemma truncate_middle_spec name content limit : 0 ≤ limit →
  ∃ output, truncate_middle_loop 2 name content limit = Some output ∧
    (str_len (middle_notice name limit limit (str_len content)) ≤ limit → str_len output ≤ limit).
Proof.
  intros Hl. unfold truncate_middle_loop. destruct (Z.leb_spec (str_len content) limit); [eauto|].
  cbn [loop]. destruct (middle_body_first name content limit Hl) as [(out & -> & Ho)|[-> Hgt]]; [eauto|].
  destruct (middle_body_second name content limit Hgt) as [out ->].
  eexists. split; [done|]. intros Hle. exfalso.
  rewrite middle_notice_len in Hle by done.
  assert (decimal limit ≠ []) by (by apply decimal_spec).
  assert (1 ≤ zlen (decimal limit)); [|lia].
  destruct (decimal limit) as [|c s]; [done|]. rewrite zlen_cons. pose proof (zlen_nonneg s). lia.
Qed.

Lemma truncate_middle_ends name content limit :
  truncate_middle_loop 2 name content (Z.max 0 limit) ≠ None.
Proof. destruct (truncate_middle_spec name content (Z.max 0 limit)) as (o & -> & _); [lia|done]. Qed.

(** server/src/model/tool_result_replay.rs:240-263, [truncate_middle]: a [usize]
    limit is not negative. *)
Definition truncate_middle (name content : str) (limit : Z) : str :=
  unwrap _ (truncate_middle_ends name content limit).

(** *** Compaction of JSON results *)

(** server/src/model/tool_result_replay.rs:154-161, [replace_image_data]: the value
    of an image member. *)
Definition image_placeholder (data : str) : option str :=
  if starts_with (lit "[base64 image data omitted from replay; bytes=") data then None
  else Some (lit "[base64 image data omitted from replay; bytes="
             ++ decimal (str_len (trim data)) ++ lit "]").

(** server/src/model/tool_result_replay.rs:147-172, [replace_image_data]: the value
    afterwards and whether it changed.  [Iterator::any] stops at the first item
    that did. *)
Fixpoint replace_image_data (value : json) : json * bool :=
  match value with
  | JObject members =>
      let '(members, changed) :=
        (fix go members changed :=
           match members with
           | [] => ([], changed)
           | (key, child) :: rest =>
               let '(child, c) :=
                 match one_of key ["image_data"; "imageData"]%string, child with
                 | true, JString data =>
                     match image_placeholder data with
                     | Some text => (JString text, true)
                     | None => (child, false)
                     end
                 | _, _ => replace_image_data child
                 end in
               let '(rest, changed) := go rest (changed || c) in
               ((key, child) :: rest, changed)
           end) members false in
      (JObject members, changed)
  | JArray items =>
      let '(items, changed) :=
        (fix any items :=
           match items with
           | [] => ([], false)
           | item :: rest =>
               let '(item, c) := replace_image_data item in
               if c : bool then (item :: rest, true)
               else let '(rest, c) := any rest in (item :: rest, c)
           end) items in
      (JArray items, changed)
  | _ => (value, false)
  end.

(** server/src/model/tool_result_replay.rs:187-191, [compact_shell_fields]. *)
Definition shell_limit (key : str) : option Z :=
  if one_of key ["stdout"; "stderr"]%string then Some (16 * KIB)
  else if one_of key ["interleaved_output"; "interleavedOutput"]%string then Some (32 * KIB)
  else None.

(** server/src/model/tool_result_replay.rs:182-209, [compact_shell_fields]. *)
Fixpoint compact_shell_fields (value : json) : json * bool :=
  match value with
  | JObject members =>
      let '(members, changed) :=
        (fix go members changed :=
           match members with
           | [] => ([], changed)
           | (key, child) :: rest =>
               let '(child, c) :=
                 match child, shell_limit key with
                 | JString text, Some limit =>
                     let next := truncate_middle (lit "Shell " ++ key) text limit in
                     (JString next, negb (bool_decide (next = text)))
                 | _, _ => compact_shell_fields child
                 end in
               let '(rest, changed) := go rest (changed || c) in
               ((key, child) :: rest, changed)
           end) members false in
      (JObject members, changed)
  | JArray items =>
      let '(items, changed) :=
        (fix any items :=
           match items with
           | [] => ([], false)
           | item :: rest =>
               let '(item, c) := compact_shell_fields item in
               if c : bool then (item :: rest, true)
               else let '(rest, c) := any rest in (item :: rest, c)
           end) items in
      (JArray items, changed)
  | _ => (value, false)
  end.

(** [Result::ok] *)
Definition ok {E A} (r : result E A) : option A :=
  match r with Ok a => Some a | Err _ => None end.

(** server/src/model/tool_result_replay.rs:139-145, [compact_generate_image]. *)
Definition compact_generate_image (content : str) : option str :=
  value ← ok (from_str (trim content));
  let '(value, changed) := replace_image_data value in
  if changed : bool then ok (to_string value) else None.

(** server/src/model/tool_result_replay.rs:174-180, [compact_shell]. *)
Definition compact_shell (content : str) : option str :=
  value ← ok (from_str (trim content));
  let '(value, changed) := compact_shell_fields value in
  if changed : bool then ok (to_string value) else None.

(** [success.get(key).or_else(|| success.get(camel)).and_then(as_str).filter(not empty)] *)
Definition success_text (key camel : string) (success : json) : option str :=
  v ← match get_member key success with Some v => Some v | None => get_member camel success end;
  text ← as_str v;
  if bool_decide (text = []) then None else Some text.

Definition success_of (key : string) (text : str) : json :=
  JObject [(lit "success", JObject [(lit key, JString text)])].

(** server/src/model/tool_result_replay.rs:211-231, [compact_edit]: the outer option
    is the fuel. *)
Definition compact_edit (fuel : nat) (name content : str) : option (option str) :=
  match ok (from_str (trim content)) with
  | None => Some None
  | Some value =>
      match get_member "success" value with
      | Some (JObject members) =>
          let success := JObject members in
          match success_text "diff_string" "diffString" success with
          | Some text =>
              diff ← truncate_replay_text fuel name text (edit_limit name) None;
              Some (Some (display_json (success_of "diff_string" diff)))
          | None =>
              match success_text "after_full_file_content" "afterFullFileContent" success with
              | Some text =>
                  after ← truncate_replay_text fuel name text (edit_limit name) None;
                  Some (Some (display_json (success_of "after_full_file_content" after)))
              | None => Some None
              end
          end
      | _ => Some None
      end
  end.

(** server/src/model/tool_result_replay.rs:95-104, [compact_for_replay]. *)
Definition compact_for_replay (fuel : nat) (name content : str) : option (option str) :=
  let n := trim name in
  if one_of n ["GenerateImage"]%string then Some (compact_generate_image content)
  else if one_of n ["Shell"]%string then Some (compact_shell content)
  else if one_of n ["PatchEdit"; "PatchEditLines"; "PatchEditSpan"; "StrReplace"; "Edit"; "Write"]%string
  then compact_edit fuel name content
  else Some None.

(** What became of the spilled copy: none was written, it is kept, or it was
    removed again. *)
Inductive spill_use : Type := NotSpilled | Kept (path : list Z) | Removed (path : list Z).

(** server/src/model/tool_result_replay.rs:37-71, [limit_tool_result_text_with]. *)
Definition limit_tool_result_text_with (fuel : nat) (name content : str)
    (spill : str → option str) : option (str * spill_use) :=
  match replay_limit name with
  | None => Some (content, NotSpilled)
  | Some limit =>
      compact ← compact_for_replay fuel name content;
      let compacted := default content compact in
      if str_len compacted <=? limit then
        if bool_decide (compacted = content) || negb (may_spill name) then
          Some (compacted, NotSpilled)
        else
          match spill content with
          | None => Some (compacted, NotSpilled)
          | Some path =>
              let notice := newlines2 ++ lit "[full result stored at: " ++ path ++ lit "]" in
              if str_len compacted + str_len notice <=? limit
              then Some (compacted ++ notice, Kept path)
              else Some (compacted, Removed path)
          end
      else
        let spilled := if may_spill name then spill content else None in
        text ← truncate_replay_text fuel name compacted limit spilled;
        Some (text, match spilled with Some path => Kept path | None => NotSpilled end)
  end.

(** *** The truncation ends within the limit *)

Lemma replay_notice_len name limit shown original spill : 0 ≤ shown →
  str_len (replay_notice name limit shown original spill) =
  str_len (replay_notice name limit 0 original spill) - 1 + zlen (decimal shown).
Proof.
  intros Hs. unfold replay_notice. rewrite !str_len_app, (decimal_str_len shown) by done.
  change (str_len (decimal 0)) with 1. lia.
Qed.

Lemma trim_start_newlines_suffix s : trim_start_newlines s `suffix_of` s.
Proof.
  induction s as [|c s IH]; [done|]. cbn.
  repeat case_match; try done. by apply suffix_cons_r.
Qed.

Lemma str_len_suffix s t : s `suffix_of` t → str_len s ≤ str_len t.
Proof. intros [k ->]. rewrite str_len_app. pose proof (str_len_nonneg k). lia. Qed.
Lemma str_len_prefix s t : s `prefix_of` t → str_len s ≤ str_len t.
Proof. intros [k ->]. rewrite str_len_app. pose proof (str_len_nonneg k). lia. Qed.

Lemma trim_end_newlines_prefix s : trim_end_newlines s `prefix_of` s.
Proof.
  unfold trim_end_newlines. destruct (trim_start_newlines_suffix (reverse s)) as [k Hk].
  exists (reverse k). rewrite <- reverse_app, <- Hk. by rewrite reverse_involutive.
Qed.

(** When the notice and a thousandth of slack fit, the second turn shows as many
    digits as the first one and ends the loop. *)
Lemma truncate_replay_spec name content limit spill k : 0 < k →
  10 ^ (k - 1) ≤ limit < 10 ^ k →
  str_len (replay_notice name limit limit (str_len content) spill) + 3 + 10 ^ (k - 1) ≤ limit →
  ∃ text, truncate_replay_text 2 name content limit spill = Some text ∧ str_len text ≤ limit ∧
    (text = content ∨ ∃ kept shown, kept `prefix_of` content ∧
       text = kept ++ replay_notice name limit shown (str_len content) spill).
Proof.
  intros Hk Hlim Hroom. unfold truncate_replay_text.
  destruct (Z.leb_spec (str_len content) limit) as [|Hlong]; [eauto|].
  set (original := str_len content) in *. set (notice := replay_notice name limit limit original spill) in *.
  pose proof (str_len_nonneg notice). pose proof (Z.pow_pos_nonneg 10 (k - 1)).
  set (available := limit - str_len notice).
  set (kept := utf8_prefix content available).
  assert (available - 3 ≤ str_len kept ≤ available) as Hkept.
  { split; [apply utf8_prefix_near; lia|apply utf8_prefix_bound; lia]. }
  assert (∀ shown, zlen (decimal shown) = k → 0 ≤ shown →
    replay_body name content limit spill shown =
    if str_len kept =? shown
    then Done (trim_end_newlines kept ++ replay_notice name limit shown original spill)
    else Next (str_len kept)) as Hbody.
  { intros shown Hd Hs. unfold replay_body. fold original.
    assert (str_len (replay_notice name limit shown original spill) = str_len notice) as ->.
    { subst notice. rewrite (replay_notice_len name limit shown), (replay_notice_len name limit limit) by lia.
      rewrite Hd, (decimal_length limit k) by lia. lia. }
    rewrite (proj2 (Z.leb_gt _ _)) by lia.
    replace (sat_sub limit (str_len notice)) with available by (unfold sat_sub; lia). done. }
  cbn [loop]. rewrite (Hbody limit) by (rewrite ?(decimal_length limit k); lia).
  assert (∃ shown, zlen (decimal shown) = k ∧ 0 ≤ shown ∧ str_len kept = shown ∧
    match (if str_len kept =? limit
           then Done (trim_end_newlines kept ++ replay_notice name limit limit original spill)
           else Next (str_len kept)) with
    | Next s' => match replay_body name content limit spill s' with Next _ => None | Done r => Some r end
    | Done r => Some r
    end = Some (trim_end_newlines kept ++ replay_notice name limit shown original spill))
    as (shown & Hd & Hs & Hks & ->).
  { exists (str_len kept). assert (zlen (decimal (str_len kept)) = k) by (apply decimal_length; lia).
    split; [done|]. split; [lia|]. split; [done|].
    destruct (Z.eqb_spec (str_len kept) limit) as [E|]; [by rewrite E|].
    rewrite Hbody by lia. by rewrite Z.eqb_refl. }
  eexists. split; [done|]. split.
  - rewrite str_len_app. pose proof (str_len_prefix _ _ (trim_end_newlines_prefix kept)).
    assert (str_len (replay_notice name limit shown original spill) = str_len notice); [|lia].
    subst notice. rewrite (replay_notice_len name limit shown), (replay_notice_len name limit limit) by lia.
    rewrite Hd, (decimal_length limit k) by lia. lia.
  - right. eexists _, shown. split; [|done].
    etrans; [apply trim_end_newlines_prefix|apply utf8_prefix_prefix].
Qed.

(** The limits of the source, and notices that are not absurdly long. *)
Lemma decimal_len_bound z : 0 ≤ z ≤ I64_MAX → 0 ≤ str_len (decimal z) ≤ 19.
Proof.
  intros Hz. rewrite decimal_str_len by lia. split; [apply zlen_nonneg|].
  pose proof (decimal_mono z I64_MAX Hz). by change (zlen (decimal I64_MAX)) with 19 in *.
Qed.

Definition spill_len (spill : option str) : Z :=
  match spill with Some path => str_len path | None => 0 end.

Lemma replay_notice_short name limit original spill : 0 ≤ limit ≤ I64_MAX → 0 ≤ original ≤ I64_MAX →
  str_len (replay_notice name limit limit original spill) ≤ str_len name + spill_len spill + 200.
Proof.
  intros Hl Ho. unfold replay_notice.
  pose proof (decimal_len_bound limit Hl). pose proof (decimal_len_bound original Ho).
  rewrite !str_len_app.
  change (str_len newlines2) with 2. change (str_len (lit "[truncated: ")) with 12.
  change (str_len (lit " result exceeded ")) with 17. change (str_len (lit " bytes; showing ")) with 16.
  change (str_len (lit " of ")) with 4.
  destruct spill as [path|]; cbn [spill_len]; rewrite ?str_len_app.
  - change (str_len (lit " bytes; full result stored at: ")) with 31. change (str_len (lit "]")) with 1. lia.
  - change (str_len (lit " bytes]")) with 7. lia.
Qed.

Lemma truncate_known name content limit spill :
  limit ∈ [4 * KIB; 16 * KIB; 32 * KIB; 64 * KIB; 128 * KIB] →
  str_len name + spill_len spill ≤ 2500 → str_len content ≤ I64_MAX →
  ∃ text, truncate_replay_text 2 name content limit spill = Some text ∧ str_len text ≤ limit ∧
    (text = content ∨ ∃ kept shown, kept `prefix_of` content ∧
       text = kept ++ replay_notice name limit shown (str_len content) spill).
Proof.
  intros Hl Hn Hc. pose proof (str_len_nonneg content).
  assert (0 ≤ limit ≤ I64_MAX ∧ ∃ k, 0 < k ∧ 10 ^ (k - 1) ≤ limit < 10 ^ k ∧
    2700 + 3 + 10 ^ (k - 1) ≤ limit) as (Hlim & k & Hk & Hd & Hroom).
  { unfold KIB in Hl. rewrite !elem_of_cons, elem_of_nil in Hl.
    destruct Hl as [->|[->|[->|[->|[->|[]]]]]];
      (split; [unfold I64_MAX; lia|]); [exists 4|exists 5|exists 5|exists 5|exists 6]; cbn; lia. }
  apply (truncate_replay_spec _ _ _ _ k); [done|done|].
  pose proof (replay_notice_short name limit (str_len content) spill Hlim ltac:(lia)). lia.
Qed.

Lemma replay_limit_known name limit : replay_limit name = Some limit →
  limit ∈ [4 * KIB; 16 * KIB; 32 * KIB; 64 * KIB; 128 * KIB].
Proof. unfold replay_limit. repeat case_match; intros [= <-]; set_solver. Qed.

Lemma edit_limit_known name : edit_limit name ∈ [4 * KIB; 16 * KIB; 32 * KIB; 64 * KIB; 128 * KIB].
Proof. unfold edit_limit. case_match; set_solver. Qed.

Lemma compact_for_replay_ends `{!SerdeJsonFits} name content : str_len name ≤ 1000 →
  ∃ r, compact_for_replay 2 name content = Some r ∧
    ∀ text, r = Some text → str_len text ≤ I64_MAX.
Proof.
  intros Hn. unfold compact_for_replay.
  destruct (one_of _ _); [|destruct (one_of _ _); [|destruct (one_of _ _)]]; [..|by eexists].
  - eexists. split; [done|]. unfold compact_generate_image. intros text.
    destruct (ok _) as [v|]; [|done]. cbn. destruct (replace_image_data v) as [v' []]; [|done].
    destruct (to_string v') eqn:E; [|done]. intros [= <-]. by eapply to_string_fits.
  - eexists. split; [done|]. unfold compact_shell. intros text.
    destruct (ok _) as [v|]; [|done]. cbn. destruct (compact_shell_fields v) as [v' []]; [|done].
    destruct (to_string v') eqn:E; [|done]. intros [= <-]. by eapply to_string_fits.
  - unfold compact_edit. destruct (from_str (trim content)) as [v|] eqn:Ef; [|by eexists]. cbn [ok].
    destruct (get_member "success" v) as [o|] eqn:Eo; [|by eexists].
    assert (∀ key camel text, success_text key camel o = Some text → str_len text ≤ I64_MAX) as Hfit.
    { intros key camel text. unfold success_text.
      destruct (get_member key o) as [w|] eqn:E1; [|destruct (get_member camel o) as [w|] eqn:E2; [|done]];
        cbn; destruct w; try done; cbn; case_bool_decide; try done; intros [= <-];
        by eapply from_str_fits. }
    destruct o as [| | | | |members]; try by eexists.
    assert (∀ text, str_len text ≤ I64_MAX →
      ∃ out, truncate_replay_text 2 name text (edit_limit name) None = Some out) as Ht.
    { intros text Hl. destruct (truncate_known name text (edit_limit name) None) as (out & -> & _);
        [apply edit_limit_known|cbn; lia|done|eauto]. }
    destruct (success_text "diff_string" "diffString" (JObject members)) as [text|] eqn:E1;
      [|destruct (success_text "after_full_file_content" "afterFullFileContent" (JObject members)) as [text|] eqn:E2; [|eexists; split; [reflexivity|discriminate]]].
    + destruct (Ht text (Hfit _ _ _ E1)) as [out ->]. cbn. eexists. split; [done|].
      intros t [= <-]. apply display_json_fits.
    + destruct (Ht text (Hfit _ _ _ E2)) as [out ->]. cbn. eexists. split; [done|].
      intros t [= <-]. apply display_json_fits.
Qed.

(** the size gate always ends, a tool with a limit never puts more bytes than
    its limit in front of the model, the others keep their result as it is, and
    nothing is spilled and left behind without a notice in the text that names it. *)
Theorem limit_tool_result_bounded `{!SerdeJsonFits} name content spill :
  str_len name ≤ 1000 → str_len content ≤ I64_MAX →
  (∀ raw path, spill raw = Some path → str_len path ≤ 1500) →
  ∃ text use, limit_tool_result_text_with 2 name content spill = Some (text, use) ∧
    match replay_limit name with
    | Some limit => str_len text ≤ limit
    | None => text = content ∧ use = NotSpilled
    end ∧
    (∀ path, use = Kept path → spill content = Some path ∧
       ∃ before after, text = before ++ lit " stored at: " ++ path ++ after).
Proof.
  intros Hn Hc Hsp. unfold limit_tool_result_text_with.
  destruct (replay_limit name) as [limit|] eqn:El; [|by eexists _, _].
  destruct (compact_for_replay_ends name content Hn) as (compact & -> & Hfit). cbn [mbind option_bind].
  set (compacted := default content compact).
  assert (str_len compacted ≤ I64_MAX) as Hcl by (subst compacted; destruct compact; cbn; auto).
  destruct (Z.leb_spec (str_len compacted) limit) as [Hfits|Hlong].
  - destruct (_ || _); [by eexists _, _|]. destruct (spill content) as [path|] eqn:Es; [|by eexists _, _].
    destruct (Z.leb_spec (str_len compacted + str_len (newlines2 ++ lit "[full result stored at: " ++ path ++ lit "]")) limit);
      eexists _, _; (split; [done|]); [|by (split; [done|discriminate])]. split; [by rewrite str_len_app|].
    intros p [= <-]. split; [done|]. exists (compacted ++ newlines2 ++ lit "[full result"), (lit "]").
    rewrite <- !app_assoc. done.
  - set (spilled := if may_spill name then spill content else None).
    assert (spill_len spilled ≤ 1500) as Hpl.
    { subst spilled. destruct (may_spill name); [|done]. destruct (spill content) eqn:Es; [|done]. cbn. eauto. }
    destruct (truncate_known name compacted limit spilled) as (text & -> & Hl & Hshape);
      [by apply (replay_limit_known name)|lia|done|]. cbn.
    eexists _, _. split; [done|]. split; [done|]. intros path.
    destruct spilled as [p|] eqn:Ep; [|done]. intros [= <-].
    assert (spill content = Some p) as Hs by (subst spilled; by destruct (may_spill name)).
    split; [done|]. destruct Hshape as [->|(kept & shown & _ & ->)]; [lia|].
    exists (kept ++ newlines2 ++ lit "[truncated: " ++ name ++ lit " result exceeded " ++ decimal limit
      ++ lit " bytes; showing " ++ decimal shown ++ lit " of " ++ decimal (str_len compacted)
      ++ lit " bytes; full result"), (lit "]").
    unfold replay_notice. rewrite <- !app_assoc. done.
Qed.

(** [Iterator::any] stops at the first item of an array that changed: a second
    image of an array is replayed with all its data. *)
Lemma replace_image_data_first_only d1 d2 t1 :
  image_placeholder d1 = Some t1 → is_Some (image_placeholder d2) →
  replace_image_data (JArray [JObject [(lit "image_data", JString d1)];
                              JObject [(lit "image_data", JString d2)]]) =
  (JArray [JObject [(lit "image_data", JString t1)]; JObject [(lit "image_data", JString d2)]], true).
Proof. intros H1 _. cbn. rewrite H1. done. Qed.
End Limits.

Lemma limit_tool_result_bounded_witness :
  ∃ text use, @limit_tool_result_text_with Samples.tiny_json 2 (lit "Read") (replicate (200 * 1000) 114)
    (λ _, Some (lit "/tmp/spill")) = Some (text, use) ∧ str_len text ≤ 64 * 1024.
Proof.
  destruct (@limit_tool_result_bounded Samples.tiny_json Samples.tiny_json_fits (lit "Read")
    (replicate (200 * 1000) 114) (λ _, Some (lit "/tmp/spill"))) as (text & use & H & Hl & _).
  - vm_compute. discriminate.
  - pose proof (str_len_bound (replicate (200 * 1000) 114)) as [_ Hb]. unfold zlen in Hb.
    rewrite length_replicate in Hb. unfold I64_MAX. lia.
  - intros raw path [= <-]. vm_compute. discriminate.
  - exists text, use. split; [exact H|exact Hl].
Defined.
