(* ===== verification/Float.v ===== *)
(** * Float: the double-precision arithmetic the program uses

    An [f64] is a value of the Standard Library's executable specification of IEEE
    754 with 53 bits of precision; the conversions are Rust's [as] casts, which
    round to nearest one way and saturate the other way. *)

From stdpp Require Import prelude.
From Stdlib Require Import SpecFloat.
From S2P Require Import Prelude.
Local Open Scope Z_scope.

Definition f64 : Type := spec_float.

(** [z as f64] for an unsigned [z]. *)
Definition f64_of (z : Z) : f64 := binary_normalize 53 1024 z 0 false.
Definition f64_div (x y : f64) : f64 := SFdiv 53 1024 x y.
Definition f64_mul (x y : f64) : f64 := SFmul 53 1024 x y.
Definition f64_lt (x y : f64) : bool :=
  match SFcompare x y with Some Lt => true | _ => false end.
(** [f64::clamp]. *)
Definition f64_clamp (x lo hi : f64) : f64 :=
  if f64_lt x lo then lo else if f64_lt hi x then hi else x.

Definition f64_one : f64 := f64_of 1.
Definition f64_half : f64 := f64_div (f64_of 1) (f64_of 2).

(** The saturating cast of an integer value. *)
Definition cast_u64 (z : Z) : Z := Z.max 0 (Z.min U64_MAX z).

(** [x.floor().max(0.0) as u64]. *)
Definition floor_u64 (x : f64) : Z :=
  match x with
  | S754_zero _ | S754_nan | S754_infinity true => 0
  | S754_infinity false => U64_MAX
  | S754_finite s m e =>
      let m := if s : bool then Z.neg m else Z.pos m in
      cast_u64 (if 0 <=? e then m * 2 ^ e else m / 2 ^ (- e))
  end.

(** [x.ceil() as u64]. *)
Definition ceil_u64 (x : f64) : Z :=
  match x with
  | S754_zero _ | S754_nan | S754_infinity true => 0
  | S754_infinity false => U64_MAX
  | S754_finite s m e =>
      let m := if s : bool then Z.neg m else Z.pos m in
      cast_u64 (if 0 <=? e then m * 2 ^ e else - ((- m) / 2 ^ (- e)))
  end.

Lemma cast_u64_bound z : 0 ≤ cast_u64 z ≤ U64_MAX.
Proof. unfold cast_u64, U64_MAX. lia. Qed.
Lemma floor_u64_bound x : 0 ≤ floor_u64 x ≤ U64_MAX.
Proof.
  unfold floor_u64.
  repeat case_match; try apply cast_u64_bound; unfold U64_MAX; lia.
Qed.
Lemma ceil_u64_bound x : 0 ≤ ceil_u64 x ≤ U64_MAX.
Proof.
  unfold ceil_u64.
  repeat case_match; try apply cast_u64_bound; unfold U64_MAX; lia.
Qed.

(** A clamp keeps a number that is comparable to both ends between them. *)
Lemma f64_clamp_cases x lo hi :
  f64_clamp x lo hi = lo ∨ f64_clamp x lo hi = hi ∨
  (f64_clamp x lo hi = x ∧ f64_lt x lo = false ∧ f64_lt hi x = false).
Proof. unfold f64_clamp. repeat case_match; auto. Qed.

Example f64_ratio : floor_u64 (f64_div (f64_of 100000) (f64_div (f64_of 3) (f64_of 2))) = 66666.
Proof. vm_compute. reflexivity. Qed.
