(* ===== verification/Budget.v ===== *)
(** * Budget: how much context a run may use

    The settings of server/src/store/settings.rs and the budgets, the estimate and
    the overflow detection of server/src/run/compaction.rs. *)

From stdpp Require Import prelude gmap strings list.
From S2P Require Import Prelude Errors External Message Tokens Float.
Local Open Scope Z_scope.

(** server/src/store/settings.rs:477-490, [CompactionSettings]. *)
Record CompactionSettings : Type := MkSettings {
  auto : bool;
  summary_model_hash : list Z;
  summary_output_tokens : option Z;
  s_reserve_percent : option Z;
  s_retention_percent : option Z;
  max_retained_tokens : option Z
}.

(** server/src/store/settings.rs:493-502, [CompactionSettings::default]. *)
Definition default_settings : CompactionSettings := MkSettings true [] None None None None.

Definition SUMMARY_OUTPUT_TOKENS_MAX : Z := 32768.
Definition MAX_RETAINED_TOKENS_MAX : Z := 1000000.
Definition RESERVE_PERCENT_DEFAULT : Z := 10.
Definition RETENTION_PERCENT_DEFAULT : Z := 20.
Definition RESERVE_RETENTION_PERCENT_MAX : Z := 80.

(** server/src/store/settings.rs:506-509, [CompactionSettings::reserve_percent]. *)
Definition reserve_percent (s : CompactionSettings) : Z :=
  default RESERVE_PERCENT_DEFAULT (s_reserve_percent s).
(** server/src/store/settings.rs:511-514, [CompactionSettings::retention_percent]. *)
Definition retention_percent (s : CompactionSettings) : Z :=
  default RETENTION_PERCENT_DEFAULT (s_retention_percent s).

(** [Err(Error::Config(...))] when a setting is there and breaks its rule. *)
Definition refuse_if (broken : bool) (message : str) : res () :=
  if broken then Err (Config message) else Ok ().
Definition setting_breaks (rule : Z → bool) (setting : option Z) : bool :=
  match setting with Some v => negb (rule v) | None => false end.

(** server/src/store/settings.rs:516-571, [CompactionSettings::validate]. *)
Definition validate (s : CompactionSettings) : res () :=
  _ ← refuse_if (setting_breaks (λ t, negb (t =? 0)) (summary_output_tokens s))
        (lit "compaction.summary_output_tokens must be positive");
  _ ← refuse_if (setting_breaks (λ t, t <=? SUMMARY_OUTPUT_TOKENS_MAX) (summary_output_tokens s))
        (lit "compaction.summary_output_tokens must be at most " ++ decimal SUMMARY_OUTPUT_TOKENS_MAX
         ++ lit " tokens");
  _ ← refuse_if (256 <? str_len (summary_model_hash s))
        (lit "compaction.summary_model_hash is too long");
  _ ← refuse_if (setting_breaks (λ p, (1 <=? p) && (p <=? 50)) (s_reserve_percent s))
        (lit "compaction.reserve_percent must be between 1 and 50");
  _ ← refuse_if (setting_breaks (λ p, (1 <=? p) && (p <=? 50)) (s_retention_percent s))
        (lit "compaction.retention_percent must be between 1 and 50");
  _ ← refuse_if (setting_breaks (λ t, negb (t =? 0)) (max_retained_tokens s))
        (lit "compaction.max_retained_tokens must be positive");
  _ ← refuse_if (setting_breaks (λ t, t <=? MAX_RETAINED_TOKENS_MAX) (max_retained_tokens s))
        (lit "compaction.max_retained_tokens must be at most " ++ decimal MAX_RETAINED_TOKENS_MAX
         ++ lit " tokens");
  let reserve := reserve_percent s in
  let retention := retention_percent s in
  refuse_if (RESERVE_RETENTION_PERCENT_MAX <? reserve + retention)
    (lit "compaction.reserve_percent + compaction.retention_percent must be at most "
     ++ decimal RESERVE_RETENTION_PERCENT_MAX ++ lit " (effective values: reserve " ++ decimal reserve
     ++ lit "%, retention " ++ decimal retention ++ lit "%; unset fields use "
     ++ decimal RESERVE_PERCENT_DEFAULT ++ lit "% and " ++ decimal RETENTION_PERCENT_DEFAULT ++ lit "%)").

Section Budgets.
Context {SJ : SerdeJson}.

(** server/src/run/compaction.rs:45-46, [MIN_CALIBRATION]. *)
Definition MIN_CALIBRATION : f64 := f64_half.
Definition MAX_CALIBRATION : f64 := f64_of 4.

(** server/src/run/compaction.rs:139-142, [context_budget_with]. *)
Definition context_budget_with (context_window reserve_percent : Z) : Z :=
  let reserve := u64 (context_window * reserve_percent / 100) in
  sat_sub context_window reserve.

(** server/src/run/compaction.rs:150-152, [calibrate_budget]. *)
Definition calibrate_budget (tokens : Z) (calibration : f64) : Z :=
  floor_u64 (f64_div (f64_of tokens) calibration).

(** server/src/run/compaction.rs:161-163, [output_reservation]. *)
Definition output_reservation (p : PreparedRun) : Z := default 0 (max_output_tokens (model p)).

(** [filter(|window| *window > 0)] *)
Definition positive_window (window : option Z) : option Z :=
  match window with Some w => if 0 <? w then Some w else None | None => None end.

(** server/src/run/compaction.rs:174-185, [input_budget]. *)
Definition input_budget (p : PreparedRun) (settings : CompactionSettings) : option Z :=
  window ← positive_window (context_window_tokens (model p));
  let budget := sat_sub (context_budget_with window (reserve_percent settings)) (output_reservation p) in
  if 0 <? budget then Some budget else None.

(** *** Reading an over-limit refusal *)

(** server/src/run/compaction.rs:244-258, [first_number]: the digits, a comma being
    skipped once the number has begun. *)
Fixpoint first_number_digits (started : bool) (text : str) : str :=
  match text with
  | [] => []
  | c :: rest =>
      if is_ascii_digit c || started && (c =? 44) then
        if c =? 44 then first_number_digits true rest else c :: first_number_digits true rest
      else if started then [] else first_number_digits started rest
  end.
(** server/src/run/compaction.rs:244-258, [first_number]. *)
Definition first_number (text : str) : option Z := parse_u64 (first_number_digits false text).

(** server/src/run/compaction.rs:239-242, [first_number_after]. *)
Definition first_number_after (text : str) (marker : string) : option Z :=
  '(_, rest) ← split_once (lit marker) text; first_number rest.

Definition OUTPUT_CAP_MARKERS : list string :=
  ["max_tokens"; "max output"; "max_output"; "max_completion"; "max completion"; "output tokens"]%string.
Definition CONTEXT_MARKERS : list string :=
  ["maximum context length is"; "maximum context window is"; "maximum context length of";
   "context window is"; "context length is"; "token limit is"]%string.

Definition contains (lowered : str) (marker : string) : bool := str_contains (lit marker) lowered.

(** [if limit >= 1_000 { return Some(limit) }] *)
Definition plausible (limit : option Z) : option Z :=
  match limit with Some l => if 1000 <=? l then Some l else None | None => None end.

(** server/src/run/compaction.rs:198-237, [provider_context_limit]. *)
Definition provider_context_limit (message : str) : option Z :=
  let lowered := to_ascii_lower <$> message in
  if existsb (contains lowered) OUTPUT_CAP_MARKERS then None
  else
    match plausible (first_number_after lowered "> ") with
    | Some limit => Some limit
    | None =>
        foldr (λ marker later,
          match plausible (first_number_after lowered marker) with
          | Some limit => Some limit
          | None => later
          end) None CONTEXT_MARKERS
    end.

(** server/src/run/compaction.rs:286-288, [mentions_request_context]. *)
Definition mentions_request_context (lowered : str) : bool :=
  contains lowered "context" || contains lowered "request" || contains lowered "window".

(** server/src/run/compaction.rs:292-300, [input_length_overflow]. *)
Definition input_length_overflow (lowered : str) : bool :=
  match split_once (lit "input length") lowered with
  | None => false
  | Some (_, rest) =>
      let rest := lit "input length" ++ rest in
      existsb (contains rest) ["too long"; "too large"; "exceed"; "limit"; "maximum"]%string
  end.

(** server/src/run/compaction.rs:266-282, [is_context_overflow]. *)
Definition is_context_overflow (message : str) : bool :=
  let lowered := to_ascii_lower <$> message in
  contains lowered "prompt is too long"
  || contains lowered "context window exceeded"
  || contains lowered "context_length_exceeded"
  || contains lowered "context length exceeded"
  || contains lowered "model_context_window_exceeded"
  || contains lowered "maximum context length"
  || contains lowered "exceeds the maximum context"
  || contains lowered "exceeds the maximum number of tokens"
  || contains lowered "reduce the length of the"
  || (contains lowered "too many tokens" && mentions_request_context lowered)
  || (contains lowered "token limit exceeded" && mentions_request_context lowered)
  || ((contains lowered "request is too large" || contains lowered "request too large")
      && contains lowered "context")
  || (contains lowered "input length" && input_length_overflow lowered).

(** *** Estimates *)

(** server/src/store/llm_calls.rs:14-17, [ContextUsageAnchor]. *)
Record ContextUsageAnchor : Type := MkAnchor { context_input_tokens : Z; message_count : Z }.

(** server/src/run/compaction.rs:504-524, [estimate_calibration]. *)
Definition estimate_calibration (p : PreparedRun) (projected : list ProjectedMessage)
    (anchor : option ContextUsageAnchor) : f64 :=
  match anchor with
  | None => f64_one
  | Some a =>
      if negb ((0 <? message_count a) && (message_count a <=? zlen projected)) then f64_one
      else if context_input_tokens a =? 0 then f64_one
      else
        let estimated_prefix :=
          Z.max (estimate_context_tokens (prompt p) (take (Z.to_nat (message_count a)) projected)) 1 in
        f64_clamp (f64_div (f64_of (context_input_tokens a)) (f64_of estimated_prefix))
          MIN_CALIBRATION MAX_CALIBRATION
  end.

(** server/src/run/compaction.rs:526-541, [estimated_tokens]. *)
Definition estimated_tokens (p : PreparedRun) (projected : list ProjectedMessage)
    (anchor : option ContextUsageAnchor) : Z :=
  match anchor with
  | Some a =>
      if message_count a <=? zlen projected then
        let unanchored :=
          estimate_projected_messages_tokens (drop (Z.to_nat (message_count a)) projected) in
        let calibration := estimate_calibration p projected (Some a) in
        let calibrated := ceil_u64 (f64_mul (f64_of unanchored) calibration) in
        sat_add (context_input_tokens a) calibrated
      else estimate_context_tokens (prompt p) projected
  | None => estimate_context_tokens (prompt p) projected
  end.

(** server/src/run/compaction.rs:544-547, [CompactionEstimate]. *)
Record CompactionEstimate : Type := MkEstimate { e_tokens : Z; e_calibration : f64 }.

(** server/src/run/compaction.rs:549-562, [compaction_estimate]. *)
Definition compaction_estimate (p : PreparedRun) (projected : list ProjectedMessage)
    (anchor : option ContextUsageAnchor) (settings : CompactionSettings) : option CompactionEstimate :=
  budget ← input_budget p settings;
  let calibration := estimate_calibration p projected anchor in
  let tokens := estimated_tokens p projected anchor in
  if budget <? tokens then Some (MkEstimate tokens calibration) else None.

(** server/src/run/compaction.rs:579-596, [validate_compacted]. *)
Definition validate_compacted (p : PreparedRun) (projected : list ProjectedMessage)
    (calibration : f64) (settings : CompactionSettings) : result str Z :=
  let estimated := estimate_context_tokens (prompt p) projected in
  match input_budget p settings with
  | None => Ok estimated
  | Some budget =>
      let budget := calibrate_budget budget calibration in
      if estimated <=? budget then Ok estimated
      else Err (lit "context overflow after compaction: estimated input " ++ decimal estimated
                ++ lit " tokens exceeds budget " ++ decimal budget ++ lit " tokens")
  end.

(** *** What holds of the budgets *)

(** Settings that pass the validation keep both shares small enough for the window. *)
Lemma validate_shares s : validate s = Ok () →
  1 ≤ reserve_percent s ≤ 50 ∧ 1 ≤ retention_percent s ≤ 50 ∧
  reserve_percent s + retention_percent s ≤ 80.
Proof.
  unfold validate. intros H. unfold refuse_if in H.
  repeat (match type of H with context [if ?b then _ else _] => destruct b eqn:?; [discriminate H|] end;
          cbn [mbind result_bind] in H).
  unfold reserve_percent, retention_percent, setting_breaks, RESERVE_PERCENT_DEFAULT,
    RETENTION_PERCENT_DEFAULT, RESERVE_RETENTION_PERCENT_MAX in *.
  destruct (s_reserve_percent s), (s_retention_percent s); cbn [default from_option id] in *; lia.
Qed.

Lemma context_budget_bound w percent : 0 ≤ w ≤ U64_MAX → 0 ≤ percent ≤ 100 →
  context_budget_with w percent = w - w * percent / 100.
Proof.
  intros Hw Hp. unfold context_budget_with.
  assert (0 ≤ w * percent / 100 ≤ w).
  { split; [apply Z.div_pos; nia|]. apply Z.div_le_upper_bound; nia. }
  rewrite wrap_small by (unfold U64_MAX in Hw; lia). unfold sat_sub. lia.
Qed.

(** under validated settings an input budget, the output the next request may
    produce and the reserved share never exceed the model's window together; there
    is no budget exactly when they would. *)
Theorem input_budget_room p settings w : validate settings = Ok () →
  context_window_tokens (model p) = Some w → 0 < w ≤ U64_MAX → 0 ≤ output_reservation p →
  match input_budget p settings with
  | Some budget =>
      0 < budget ∧ budget + output_reservation p + w * reserve_percent settings / 100 = w
  | None => w ≤ output_reservation p + w * reserve_percent settings / 100
  end.
Proof.
  intros (Hr & _ & _)%validate_shares Hw Hb Ho. unfold input_budget. rewrite Hw. cbn.
  rewrite (proj2 (Z.ltb_lt _ _)) by lia. cbn.
  rewrite context_budget_bound by lia. unfold sat_sub. set (b := Z.max 0 _).
  destruct (Z.ltb_spec 0 b); subst b; lia.
Qed.

(** a pressure estimate is never below what the provider already charged for the
    anchored prefix, and a compaction is asked for only above the budget. *)
Theorem compaction_estimate_pressure p projected a settings e :
  0 ≤ context_input_tokens a ≤ U64_MAX → message_count a ≤ zlen projected →
  compaction_estimate p projected (Some a) settings = Some e →
  context_input_tokens a ≤ e_tokens e ∧
  ∃ budget, input_budget p settings = Some budget ∧ budget < e_tokens e.
Proof.
  intros Ha Hc. unfold compaction_estimate. destruct (input_budget p settings) as [b|]; [|done]. cbn [mbind option_bind]; cbv zeta.
  destruct (Z.ltb_spec b (estimated_tokens p projected (Some a))) as [Hb|]; [|done].
  intros [= <-]. cbn [e_tokens]. split; [|eauto].
  unfold estimated_tokens. rewrite (proj2 (Z.leb_le _ _)) by done.
  set (x := f64_mul _ _). pose proof (ceil_u64_bound x). unfold sat_add. lia.
Qed.

(** only a plausible limit is learned from a refusal, and never from a message
    about an output cap. *)
Theorem provider_context_limit_sound message limit :
  provider_context_limit message = Some limit →
  1000 ≤ limit ≤ U64_MAX ∧
  existsb (contains (to_ascii_lower <$> message)) OUTPUT_CAP_MARKERS = false.
Proof.
  unfold provider_context_limit. destruct (existsb _ _); [done|].
  assert (∀ o l, plausible (o ≫= first_number) = Some l → 1000 ≤ l ≤ U64_MAX) as Hp.
  { intros o l. destruct o as [t|]; [|done]. cbn. unfold first_number, parse_u64, plausible.
    repeat case_match; try done; intros [= ->]; simplify_eq; lia. }
  assert (∀ marker l, plausible (first_number_after (to_ascii_lower <$> message) marker) = Some l →
    1000 ≤ l ≤ U64_MAX) as Hm.
  { intros marker l. unfold first_number_after.
    destruct (split_once _ _) as [[before after]|]; [|done]. apply (Hp (Some after)). }
  intros H. split; [|done]. revert H.
  destruct (plausible _) as [l|] eqn:E; [intros [= ->]; eauto|].
  generalize CONTEXT_MARKERS as ms. induction ms as [|m ms IH]; cbn [foldr]; [done|].
  case_match eqn:E'; [intros [= ->]; by apply (Hm m)|exact IH].
Qed.

Example anthropic_refusal :
  provider_context_limit (lit "prompt is too long: 210000 tokens > 200000 maximum") = Some 200000.
Proof. vm_compute. reflexivity. Qed.
Example openai_refusal :
  provider_context_limit (lit "This model's maximum context length is 128,000 tokens.") = Some 128000.
Proof. vm_compute. reflexivity. Qed.
Example output_cap_refusal :
  provider_context_limit (lit "max_tokens: 16384 > 8192 maximum") = None.
Proof. vm_compute. reflexivity. Qed.
End Budgets.

(** ** Overflow: the refusal of a prompt, and the ladder that answers it *)

Section Overflow.

(** server/src/model/observability.rs:10-18, [Usage]. *)
Record Usage : Type := MkUsage {
  input_tokens : option Z;
  u_context_input_tokens : option Z;
  output_tokens : option Z;
  total_tokens : option Z;
  cache_read_tokens : option Z;
  cache_write_tokens : option Z;
  reasoning_tokens : option Z
}.

(** server/src/model/observability.rs:34-42, [sum]. *)
Definition sum_tokens (left right : option Z) : option Z :=
  match left, right with
  | None, None => None
  | _, _ => Some (sat_add (default 0 left) (default 0 right))
  end.

(** server/src/model/observability.rs:21-29, [AddAssign for Usage]. *)
Definition add_usage (a b : Usage) : Usage :=
  MkUsage (sum_tokens (input_tokens a) (input_tokens b))
    (sum_tokens (u_context_input_tokens a) (u_context_input_tokens b))
    (sum_tokens (output_tokens a) (output_tokens b))
    (sum_tokens (total_tokens a) (total_tokens b))
    (sum_tokens (cache_read_tokens a) (cache_read_tokens b))
    (sum_tokens (cache_write_tokens a) (cache_write_tokens b))
    (sum_tokens (reasoning_tokens a) (reasoning_tokens b)).

(** server/src/run/engine.rs:2300-2305, [accumulate_usage]. *)
Definition accumulate_usage (total : option Usage) (usage : Usage) : option Usage :=
  match total with Some t => Some (add_usage t usage) | None => Some usage end.

(** server/src/run/engine.rs:2275-2285, [context_usage_snapshot]. *)
Definition context_usage_snapshot (tokens : Z) : Usage :=
  MkUsage (Some tokens) (Some tokens) (Some 0) (Some tokens) (Some 0) (Some 0) (Some 0).

(** server/src/run/engine.rs:2287-2298, [update_context_usage_anchor]. *)
Definition update_context_usage_anchor (anchor : option ContextUsageAnchor) (usage : Usage)
    (count : Z) : option ContextUsageAnchor :=
  match u_context_input_tokens usage with
  | Some tokens => Some (MkAnchor tokens count)
  | None => anchor
  end.

(** server/src/run/engine.rs:2249-2256, [summary_model]. *)
Definition summary_model (m : ModelSpec) (output : Z) : ModelSpec :=
  MkModel (model_id m) (display_name m) (MkReasoning (Some false) None None) (latency m)
    (Some output) (context_window_tokens m) (supports_image_generation m) (extra_params m)
    (stop_sequences m).

(** server/src/run/engine.rs:2264-2273, [cycle_model]. *)
Definition cycle_model (a : RunAction) (m : ModelSpec) (summary_output : Z) : ModelSpec :=
  match a with Compact => summary_model m summary_output | _ => m end.

(** server/src/run/engine.rs:2346-2354, [failure_message]. *)
Definition failure_message (f : RunFailure) : str :=
  match f with
  | FProtocol m | FProvider m | FTruncated m | FStore m | FClient m => m
  end.

(** server/src/run/engine.rs:2366-2381, [exhausted_context_window]. *)
Definition exhausted_context_window (failure : RunFailure) (usage : option Usage)
    (budget : option Z) : bool :=
  match failure, usage, budget with
  | FTruncated _, Some usage, Some budget =>
      match u_context_input_tokens usage, input_tokens usage with
      | Some tokens, _ | None, Some tokens => budget <=? tokens
      | None, None => false
      end
  | _, _, _ => false
  end.

(** server/src/run/engine.rs:2391-2414, [learn_provider_window]. *)
Definition learn_provider_window (p : PreparedRun) (overflow_refusal : bool) (failure : RunFailure)
    : PreparedRun :=
  match overflow_refusal, failure with
  | true, FProvider message =>
      match provider_context_limit message with
      | Some limit =>
          let m := model p in
          MkPrepared (run_id p) (cursor_request_id p) (conversation_id p) (run_kind p)
            (MkModel (model_id m) (display_name m) (reasoning m) (latency m) (max_output_tokens m)
               (Some limit) (supports_image_generation m) (extra_params m) (stop_sequences m))
            (prompt p) (initial_messages p) (action p) (base_checkpoint_id p)
      | None => p
      end
  | _, _ => p
  end.

(** server/src/run/engine.rs:898-929, [RunEngine::run_claimed]: is the failure of a
    model call the refusal of a prompt that is too long. *)
Definition overflow_refusal (compaction_run : PreparedRun) (settings : CompactionSettings)
    (a : RunAction) (failure : RunFailure) (usage : option Usage) : bool :=
  let budget := input_budget compaction_run settings in
  let window_exhausted := exhausted_context_window failure usage budget in
  let provider_refusal :=
    match failure with FProvider message => is_context_overflow message | _ => false end in
  let usage_exhausted :=
    match failure, usage with
    | FProvider _, Some usage =>
        match u_context_input_tokens usage, input_tokens usage with
        | Some tokens, _ | None, Some tokens =>
            match budget with Some budget => budget <=? tokens | None => false end
        | None, None => false
        end
    | _, _ => false
    end in
  match a with
  | Compact => false
  | _ => window_exhausted || provider_refusal || usage_exhausted
  end.

(** server/src/run/compaction.rs:800-808, [Retention]. *)
Inductive Retention : Type := KeepWindow | KeepNone.
Global Instance Retention_eq_dec : EqDecision Retention.
Proof. solve_decision. Defined.

(** server/src/run/engine.rs:165-167, [OverflowEpisode]: a [u8]. *)
Record OverflowEpisode : Type := MkEpisode { compactions : Z }.

Definition new_episode : OverflowEpisode := MkEpisode 0.

(** server/src/run/engine.rs:171-177, [OverflowEpisode::retention]. *)
Definition retention (e : OverflowEpisode) : option Retention :=
  if compactions e =? 0 then Some KeepWindow
  else if compactions e =? 1 then Some KeepNone
  else None.

(** server/src/run/engine.rs:180-182, [OverflowEpisode::model_call_succeeded]. *)
Definition model_call_succeeded (e : OverflowEpisode) : OverflowEpisode := MkEpisode 0.

(** server/src/run/engine.rs:185-187, [OverflowEpisode::provider_refused]. *)
Definition provider_refused (e : OverflowEpisode) : OverflowEpisode :=
  MkEpisode (Z.min 255 (compactions e + 1)).

(** server/src/run/engine.rs:191-193, [OverflowEpisode::preflight_compacted]. *)
Definition preflight_compacted (e : OverflowEpisode) : OverflowEpisode :=
  MkEpisode (Z.max (compactions e) 1).

(** server/src/run/engine.rs:201-203, [OverflowEpisode::already_compacted]. *)
Definition already_compacted (e : OverflowEpisode) : bool := 0 <? compactions e.

(** What a run does to the episode: it compacts before a call (only when it has not
    compacted yet), a call succeeds, or the provider refuses the prompt, which is
    answered by a compaction as long as there is a retention left. *)
Inductive episode_event : Type := EvPreflight | EvSuccess | EvRefusal.

(** The compactions of one step, and the episode after it; [None] ends the run. *)
Definition episode_step (e : OverflowEpisode) (ev : episode_event)
    : option (OverflowEpisode * list Retention) :=
  match ev with
  | EvPreflight => if already_compacted e then Some (e, []) else Some (preflight_compacted e, [KeepWindow])
  | EvSuccess => Some (model_call_succeeded e, [])
  | EvRefusal =>
      match retention e with
      | Some r => Some (provider_refused e, [r])
      | None => None
      end
  end.

Fixpoint episode_run (e : OverflowEpisode) (evs : list episode_event)
    : OverflowEpisode * list Retention * bool :=
  match evs with
  | [] => (e, [], true)
  | ev :: evs =>
      match episode_step e ev with
      | None => (e, [], false)
      | Some (e, rs) =>
          let '(e, rs', alive) := episode_run e evs in (e, rs ++ rs', alive)
      end
  end.

Ltac ladder_step H :=
  change (Z.to_nat 0) with 0%nat in *; change (Z.to_nat 1) with 1%nat in *;
  change (Z.to_nat 2) with 2%nat in *; cbn [drop take length] in H |- *; by rewrite <- H.

Lemma episode_run_shape evs : EvSuccess ∉ evs →
  ∀ c, c ∈ [0; 1; 2] →
  let '(e, rs, alive) := episode_run (MkEpisode c) evs in
  rs = take (length rs) (drop (Z.to_nat c) [KeepWindow; KeepNone]) ∧
  compactions e = c + zlen rs ∧ compactions e ≤ 2 ∧ (alive = false → compactions e = 2).
Proof.
  induction evs as [|ev evs IH]; intros Hs c Hc; cbn [episode_run].
  { rewrite zlen_nil. cbn. rewrite !elem_of_cons, elem_of_nil in Hc. repeat split; try done; lia. }
  apply not_elem_of_cons in Hs as [Hne Hs]. specialize (IH Hs).
  rewrite !elem_of_cons, elem_of_nil in Hc.
  destruct ev; [|done|]; destruct Hc as [->|[->|[->|[]]]]; cbn;
    try change (preflight_compacted (MkEpisode 0)) with (MkEpisode 1);
    try change (provider_refused (MkEpisode 0)) with (MkEpisode 1);
    try change (provider_refused (MkEpisode 1)) with (MkEpisode 2).
  - specialize (IH 1 ltac:(set_solver)). destruct (episode_run _ evs) as [[e rs] alive].
    destruct IH as (H1 & H2 & H3). rewrite zlen_cons. split; [|split; [lia|done]].
    ladder_step H1.
  - specialize (IH 1 ltac:(set_solver)). by destruct (episode_run _ evs) as [[e rs] alive].
  - specialize (IH 2 ltac:(set_solver)). by destruct (episode_run _ evs) as [[e rs] alive].
  - specialize (IH 1 ltac:(set_solver)). destruct (episode_run _ evs) as [[e rs] alive].
    destruct IH as (H1 & H2 & H3). rewrite zlen_cons. split; [|split; [lia|done]].
    ladder_step H1.
  - specialize (IH 2 ltac:(set_solver)). destruct (episode_run _ evs) as [[e rs] alive].
    destruct IH as (H1 & H2 & H3). rewrite zlen_cons. split; [|split; [lia|done]].
    ladder_step H1.
  - rewrite zlen_nil. repeat split; try done; lia.
Qed.

(** within one overflow episode there are at most two compactions: first one that
    keeps the recent turns, then one that keeps the summary alone, and a run only
    gives up after that second one; a call that succeeds starts the ladder afresh. *)
Theorem overflow_ladder evs : EvSuccess ∉ evs →
  let '(e, rs, alive) := episode_run new_episode evs in
  rs `prefix_of` [KeepWindow; KeepNone] ∧ (alive = false → rs = [KeepWindow; KeepNone]) ∧
  model_call_succeeded e = new_episode.
Proof.
  intros Hs. pose proof (episode_run_shape evs Hs 0 ltac:(set_solver)) as H.
  destruct (episode_run (MkEpisode 0) evs) as [[e rs] alive] eqn:E. unfold new_episode. rewrite E.
  destruct H as (H1 & H2 & H3 & H4). cbn [Z.to_nat drop] in H1. split; [|split; [|done]].
  - rewrite H1. apply prefix_take.
  - intros Ha. specialize (H4 Ha). unfold zlen in H2.
    destruct rs as [|r1 [|r2 [|r3 rs]]]; cbn in H2; try lia. done.
Qed.

Lemma overflow_ladder_witness :
  snd (episode_run new_episode [EvPreflight; EvRefusal; EvRefusal]) = false ∧
  snd (fst (episode_run new_episode [EvPreflight; EvRefusal; EvRefusal])) = [KeepWindow; KeepNone].
Proof.
  split; [reflexivity|].
  refine (proj1 (proj2 (overflow_ladder [EvPreflight; EvRefusal; EvRefusal] _)) eq_refl).
  set_solver.
Defined.

(** *** Waiting for background subagents *)

(** server/src/run/engine.rs:101-114, [BackgroundWaitPolicy], in milliseconds. *)
Record BackgroundWaitPolicy : Type := MkPolicy {
  poll : Z;
  completion_grace : Z;
  idle_timeout : Z;
  ceiling : Z;
  heartbeat : Z;
  progress_log : Z
}.

(** server/src/run/engine.rs:117-126, [BackgroundWaitPolicy::default]. *)
Definition default_policy : BackgroundWaitPolicy :=
  MkPolicy (5 * 1000) (2 * 1000) (45 * 60 * 1000) (6 * 60 * 60 * 1000) (45 * 1000) (5 * 60 * 1000).

(** server/src/run/engine.rs:145-147, [duration_ms]. *)
Definition duration_ms (d : Z) : Z := Z.min d I64_MAX.

(** server/src/run/engine.rs:134-143, [background_wait_expired]. *)
Definition background_wait_expired (policy : BackgroundWaitPolicy)
    (now_ms last_activity_ms started_at_ms : Z) : bool :=
  let idle_since_ms := Z.max last_activity_ms started_at_ms in
  (duration_ms (idle_timeout policy) <=? sat_sub_i64 now_ms idle_since_ms)
  || (duration_ms (ceiling policy) <=? sat_sub_i64 now_ms started_at_ms).

(** a parent turn stops waiting exactly when its subagents, or the wait itself,
    have been idle for the threshold or the wait has reached its ceiling: activity
    pushes the first limit back, never the second. *)
Theorem background_wait_limits policy now last start :
  0 ≤ start ≤ now → now ≤ I64_MAX → 0 ≤ last ≤ now →
  0 < idle_timeout policy ≤ I64_MAX → 0 < ceiling policy ≤ I64_MAX →
  (background_wait_expired policy now last start = true ↔
    Z.max last start + idle_timeout policy ≤ now ∨ start + ceiling policy ≤ now).
Proof.
  intros Hs Hn Hl Hi Hc. unfold background_wait_expired, duration_ms, sat_sub_i64, clamp_i64.
  rewrite orb_true_iff, !Z.leb_le. unfold I64_MIN, I64_MAX in *. lia.
Qed.

Lemma background_wait_limits_witness :
  background_wait_expired default_policy (50 * 60 * 1000) (20 * 60 * 1000) 0 = false.
Proof.
  apply not_true_iff_false. rewrite background_wait_limits.
  - cbn. lia.
  - lia.
  - vm_compute. discriminate.
  - lia.
  - vm_compute. split; [reflexivity|discriminate].
  - vm_compute. split; [reflexivity|discriminate].
Defined.
End Overflow.

(** ** Witnesses *)

Definition sample_model : ModelSpec :=
  MkModel (lit "model") None (MkReasoning None None None) LStandard (Some 1000) (Some 20000) false JNull [].

Definition sample_prepared (initial : list CanonicalMessage) : PreparedRun :=
  MkPrepared (lit "run") None (lit "conversation") Root sample_model (MkPrompt (lit "be brief") []) initial
    Start 1.

Lemma input_budget_room_witness :
  input_budget (sample_prepared []) default_settings = Some 17000 ∧
  17000 + output_reservation (sample_prepared []) + 20000 * reserve_percent default_settings / 100 = 20000.
Proof.
  pose proof (input_budget_room (sample_prepared []) default_settings 20000 eq_refl eq_refl) as H.
  split; [reflexivity|]. apply H; vm_compute; split || discriminate; (reflexivity || discriminate).
Defined.

Definition sample_history_projected : list ProjectedMessage :=
  [MkProjected (lit "u1") RUser (PCParts [PText (lit "hello")]);
   MkProjected (lit "u2") RUser (PCParts [PText (lit "again")])].

Lemma compaction_estimate_pressure_witness :
  ∃ e, @compaction_estimate Samples.tiny_json (sample_prepared []) sample_history_projected
    (Some (MkAnchor 18000 1)) default_settings = Some e ∧ 18000 ≤ e_tokens e.
Proof.
  destruct (@compaction_estimate Samples.tiny_json (sample_prepared []) sample_history_projected
    (Some (MkAnchor 18000 1)) default_settings) as [e|] eqn:E.
  - exists e. split; [reflexivity|].
    refine (proj1 (@compaction_estimate_pressure Samples.tiny_json (sample_prepared [])
      sample_history_projected (MkAnchor 18000 1) default_settings e _ _ E)).
    + vm_compute. split; discriminate.
    + vm_compute. discriminate.
  - vm_compute in E. discriminate E.
Defined.

Lemma provider_context_limit_sound_witness :
  provider_context_limit (lit "context window is 200000") = Some 200000 ∧ 1000 ≤ 200000.
Proof.
  split; [vm_compute; reflexivity|].
  apply (provider_context_limit_sound (lit "context window is 200000") 200000). vm_compute. reflexivity.
Defined.
