(* ===== verification/Trim.v ===== *)
(** * Trim: the history a summarize call replays

    server/src/run/history.rs and the part of server/src/run/compaction.rs that
    fits a history into the summarizer's budget: pruning old tool results, keeping
    the newest whole turns, ending with a user message. *)

From stdpp Require Import prelude gmap strings list.
From S2P Require Import Prelude Errors External Message Tokens Replay Float Budget.
Local Open Scope Z_scope.

(** ** Ending with a user message *)

(** server/src/run/history.rs:12-29, [user_terminated]. *)
Definition user_terminated (history : list ProjectedMessage) (id text : str) : list ProjectedMessage :=
  match last history with
  | Some m =>
      if bool_decide (p_role m = RAssistant) then
        history ++ [MkProjected id RUser (PCParts [PText text])]
      else history
  | None => history
  end.

(** ** Pruning a tool result *)

Section Prune.

(** server/src/run/compaction.rs:51-51, [SUMMARY_RECENT_TOOL_RESULTS]. *)
Definition SUMMARY_RECENT_TOOL_RESULTS : Z := 2.
(** server/src/run/compaction.rs:54-54, [SUMMARY_TOOL_RESULT_LIMIT]. *)
Definition SUMMARY_TOOL_RESULT_LIMIT : Z := 8 * 1024.

(** server/src/run/compaction.rs:462-464, [truncate_middle]: the notice. *)
Definition prune_notice (tool : str) (shown original : Z) : str :=
  newlines2 ++ lit "[old " ++ tool ++ lit " result pruned for the summary: showing " ++ decimal shown
  ++ lit " of " ++ decimal original ++ lit " bytes]" ++ newlines2.

(** server/src/run/compaction.rs:461-473, [truncate_middle]: one turn. *)
Definition prune_body (content : str) (limit : Z) (tool : str) (shown : Z) : flow Z str :=
  let notice := prune_notice tool shown (str_len content) in
  let available := sat_sub limit (str_len notice) in
  let head := utf8_prefix content (available / 2) in
  let tail := utf8_suffix content (sat_sub available (str_len head)) in
  let next_shown := sat_add (str_len head) (str_len tail) in
  if next_shown =? shown then Done (head ++ notice ++ tail) else Next next_shown.

(** server/src/run/compaction.rs:455-474, [truncate_middle]. *)
Definition prune_middle (fuel : nat) (content : str) (limit : Z) (tool : str) : option str :=
  if str_len content <=? limit then Some content
  else loop (prune_body content limit tool) fuel limit.

Lemma prune_notice_len tool shown original : 0 ≤ shown →
  str_len (prune_notice tool shown original) =
  str_len (prune_notice tool 0 original) - 1 + zlen (decimal shown).
Proof.
  intros Hs. unfold prune_notice. rewrite !str_len_app, (decimal_str_len shown) by done.
  change (str_len (decimal 0)) with 1. lia.
Qed.

(** With room for the notice and a number of as many digits, the second turn shows
    what the first one found. *)
Lemma prune_middle_spec content limit tool k : 0 < k → limit ≤ U64_MAX →
  10 ^ (k - 1) ≤ limit < 10 ^ k →
  str_len (prune_notice tool limit (str_len content)) + 3 + 10 ^ (k - 1) ≤ limit →
  ∃ text, prune_middle 2 content limit tool = Some text ∧ str_len text ≤ limit ∧
    (text = content ∨ ∃ head tail shown, head `prefix_of` content ∧ tail `suffix_of` content ∧
       text = head ++ prune_notice tool shown (str_len content) ++ tail).
Proof.
  intros Hk Hmax Hlim Hroom. unfold prune_middle.
  destruct (Z.leb_spec (str_len content) limit) as [|Hlong]; [eauto|].
  set (original := str_len content) in *. set (notice := prune_notice tool limit original) in *.
  pose proof (str_len_nonneg notice). pose proof (Z.pow_pos_nonneg 10 (k - 1)).
  set (available := limit - str_len notice) in *.
  set (head := utf8_prefix content (available / 2)).
  set (tail := utf8_suffix content (sat_sub available (str_len head))).
  pose proof (middle_shown content available ltac:(lia)) as Hs. cbn zeta in Hs.
  fold head tail in Hs.
  assert (available - 3 ≤ str_len head + str_len tail) as Hlow.
  { pose proof (utf8_prefix_bound content (available / 2) ltac:(apply Z.div_pos; lia)) as Hh.
    fold head in Hh. assert (available / 2 ≤ available) by (apply Z.div_le_upper_bound; lia).
    pose proof (utf8_suffix_near content (sat_sub available (str_len head))) as Ht.
    fold tail in Ht. pose proof (str_len_nonneg head). unfold sat_sub in *. lia. }
  set (n := str_len head + str_len tail) in *.
  assert (∀ shown, zlen (decimal shown) = k → 0 ≤ shown → prune_body content limit tool shown =
    if n =? shown then Done (head ++ prune_notice tool shown original ++ tail) else Next n) as Hbody.
  { intros shown Hd Hs0. unfold prune_body. fold original.
    assert (str_len (prune_notice tool shown original) = str_len notice) as ->.
    { subst notice. rewrite (prune_notice_len tool shown), (prune_notice_len tool limit) by lia.
      rewrite Hd, (decimal_length limit k) by lia. lia. }
    replace (sat_sub limit (str_len notice)) with available by (unfold sat_sub; lia).
    fold head. fold tail. replace (sat_add (str_len head) (str_len tail)) with n
      by (unfold sat_add; lia). done. }
  assert (zlen (decimal n) = k) as Hdn by (apply decimal_length; lia).
  assert (loop (prune_body content limit tool) 2 limit =
          Some (head ++ prune_notice tool n original ++ tail)) as ->.
  { cbn [loop]. rewrite (Hbody limit) by (rewrite ?(decimal_length limit k); lia).
    destruct (Z.eqb_spec n limit) as [E|]; [by rewrite E|].
    rewrite Hbody by lia. by rewrite Z.eqb_refl. }
  eexists. split; [done|]. split.
  - rewrite !str_len_app.
    assert (str_len (prune_notice tool n original) = str_len notice); [|lia].
    subst notice. rewrite (prune_notice_len tool n), (prune_notice_len tool limit) by lia.
    rewrite Hdn, (decimal_length limit k) by lia. lia.
  - right. exists head, tail, n. split; [apply utf8_prefix_prefix|].
    split; [apply utf8_suffix_suffix|done].
Qed.

Lemma prune_known content tool : str_len tool ≤ 6000 → str_len content ≤ I64_MAX →
  ∃ text, prune_middle 2 content SUMMARY_TOOL_RESULT_LIMIT tool = Some text ∧
    str_len text ≤ SUMMARY_TOOL_RESULT_LIMIT ∧
    (text = content ∨ ∃ head tail shown, head `prefix_of` content ∧ tail `suffix_of` content ∧
       text = head ++ prune_notice tool shown (str_len content) ++ tail).
Proof.
  intros Ht Hc. pose proof (str_len_nonneg content). unfold SUMMARY_TOOL_RESULT_LIMIT.
  apply (prune_middle_spec _ _ _ 4); [done|done|done|].
  unfold prune_notice. pose proof (decimal_len_bound (str_len content) ltac:(lia)).
  rewrite !str_len_app.
  change (str_len newlines2) with 2. change (str_len (lit "[old ")) with 5.
  change (str_len (lit " result pruned for the summary: showing ")) with 40.
  change (str_len (decimal (8 * 1024))) with 4. change (str_len (lit " of ")) with 4.
  change (str_len (lit " bytes]")) with 7. change (10 ^ (4 - 1)) with 1000. lia.
Qed.

(** Without that room the loop can go round for ever: with a tool name of 7125
    bytes it alternates between showing 999 and 1000 bytes. *)
Definition looping_tool : str := replicate (Z.to_nat 7125) 120.
Definition looping_content : str := replicate (Z.to_nat 9000) 97.

Lemma prune_middle_diverges fuel :
  prune_middle fuel looping_content SUMMARY_TOOL_RESULT_LIMIT looping_tool = None.
Proof.
  unfold prune_middle.
  assert (str_len looping_content <=? SUMMARY_TOOL_RESULT_LIMIT = false) as -> by (vm_compute; reflexivity).
  set (body := prune_body looping_content SUMMARY_TOOL_RESULT_LIMIT looping_tool).
  assert (body SUMMARY_TOOL_RESULT_LIMIT = Next 999) as H0 by (vm_compute; reflexivity).
  assert (body 999 = Next 1000) as H1 by (vm_compute; reflexivity).
  assert (body 1000 = Next 999) as H2 by (vm_compute; reflexivity).
  clearbody body.
  assert (∀ n, loop body n 999 = None ∧ loop body n 1000 = None) as H.
  { induction n as [|n [IH1 IH2]]; [done|]. cbn [loop]. by rewrite H1, H2. }
  destruct fuel as [|fuel]; [done|]. cbn [loop]. rewrite H0. apply H.
Qed.
End Prune.

(** ** The newest whole turns *)

Section Trim.
Context {SJ : SerdeJson}.

(** server/src/run/compaction.rs:492-494, [is_turn_boundary]. *)
Definition is_turn_boundary (m : ProjectedMessage) : bool :=
  match p_role m, p_content m with
  | RUser, PCParts _ => true
  | _, _ => false
  end.

Definition with_content (r : ToolResultContent) (text : str) : ToolResultContent :=
  MkResult (r_call_id r) (r_name r) text (r_is_error r) (r_image r) (r_provider_parts r).

(** server/src/run/compaction.rs:435-452, [prune_replayed_tool_results]: the history
    from its end, with [seen]. *)
Fixpoint prune_from_end (fuel : nat) (history : list ProjectedMessage)
    : option (list ProjectedMessage * Z) :=
  match history with
  | [] => Some ([], 0)
  | m :: rest =>
      '(rest, seen) ← prune_from_end fuel rest;
      match p_content m with
      | PCToolResult r =>
          if seen <? SUMMARY_RECENT_TOOL_RESULTS then Some (m :: rest, seen + 1)
          else if SUMMARY_TOOL_RESULT_LIMIT <? str_len (r_content r) then
            text ← prune_middle fuel (r_content r) SUMMARY_TOOL_RESULT_LIMIT (r_name r);
            Some (MkProjected (p_message_id m) (p_role m) (PCToolResult (with_content r text)) :: rest,
                  seen + 1)
          else Some (m :: rest, seen + 1)
      | _ => Some (m :: rest, seen)
      end
  end.

(** server/src/run/compaction.rs:435-452, [prune_replayed_tool_results]. *)
Definition prune_replayed_tool_results (fuel : nat) (history : list ProjectedMessage)
    : option (list ProjectedMessage) :=
  fst <$> prune_from_end fuel history.

(** server/src/run/compaction.rs:408-419, [trim_to_context]: the walk back over the
    messages; [i] of them are still to be looked at. *)
Fixpoint trim_walk (history : list ProjectedMessage) (budget : Z) (i : nat)
    (kept : nat) (newest : option nat) : nat * option nat :=
  match i with
  | O => (kept, newest)
  | S index =>
      match history !! index with
      | Some m =>
          if negb (is_turn_boundary m) then trim_walk history budget index kept newest
          else
            let newest := Some (default index newest) in
            if budget <? estimate_projected_messages_tokens (drop index history) then (kept, newest)
            else trim_walk history budget index (length history - index) newest
      | None => (kept, newest)
      end
  end.

(** server/src/run/compaction.rs:388-428, [trim_to_context]. *)
Definition trim_to_context (fuel : nat) (history : list ProjectedMessage) (budget : option Z)
    : option (list ProjectedMessage) :=
  match budget with
  | None => Some history
  | Some budget =>
      if estimate_projected_messages_tokens history <=? budget then Some history
      else
        history ← prune_replayed_tool_results fuel history;
        if estimate_projected_messages_tokens history <=? budget then Some history
        else
          let '(kept, newest) := trim_walk history budget (length history) 0 None in
          if (kept =? 0)%nat then Some (drop (default 0%nat newest) history)
          else Some (drop (length history - kept) history)
  end.

(** server/src/run/compaction.rs:318-329, [SummaryInput]. *)
Record SummaryInput : Type := MkSummaryInput {
  si_context_window : option Z;
  si_output_tokens : Z;
  si_prompt_tokens : Z;
  si_calibration : f64
}.

(** server/src/run/compaction.rs:30-30, [ASSUMED_WINDOW_WITHOUT_CONFIG]. *)
Definition ASSUMED_WINDOW_WITHOUT_CONFIG : Z := 32000.
(** server/src/run/compaction.rs:37-37, [SUMMARY_INPUT_SAFETY_PERCENT]. *)
Definition SUMMARY_INPUT_SAFETY_PERCENT : Z := 90.
(** server/src/run/compaction.rs:40-40, [SUMMARY_RETRY_PERCENT]. *)
Definition SUMMARY_RETRY_PERCENT : Z := 55.
(** server/src/run/compaction.rs:122-123, [SUMMARY_TAIL_INSTRUCTION]. *)
Definition SUMMARY_TAIL_INSTRUCTION : str :=
  lit "Produce the complete engineering handover now, following the system instructions exactly.".

(** server/src/run/compaction.rs:368-386, [summary_input_budget]. *)
Definition summary_input_budget (input : SummaryInput) (settings : CompactionSettings) (percent : Z)
    : option Z :=
  let window := default ASSUMED_WINDOW_WITHOUT_CONFIG (positive_window (si_context_window input)) in
  let usable := context_budget_with window (reserve_percent settings) in
  let output := Z.min (si_output_tokens input) (usable / 2) in
  let usable := calibrate_budget (sat_sub usable output) (si_calibration input) in
  let usable := sat_sub usable (si_prompt_tokens input) in
  let usable := sat_mul usable percent / 100 in
  if 0 <? usable then Some usable else None.

(** server/src/run/compaction.rs:348-359, [compact_history_at]. *)
Definition compact_history_at (fuel : nat) (history : list ProjectedMessage) (input : SummaryInput)
    (settings : CompactionSettings) (percent : Z) : option (list ProjectedMessage) :=
  trimmed ← trim_to_context fuel history (summary_input_budget input settings percent);
  Some (user_terminated trimmed (lit "compaction:instruction") SUMMARY_TAIL_INSTRUCTION).

(** server/src/run/compaction.rs:331-337, [compaction_history]. *)
Definition compaction_history (fuel : nat) (history : list ProjectedMessage) (input : SummaryInput)
    (settings : CompactionSettings) : option (list ProjectedMessage) :=
  compact_history_at fuel history input settings SUMMARY_INPUT_SAFETY_PERCENT.

(** server/src/run/compaction.rs:340-346, [compaction_history_tight]. *)
Definition compaction_history_tight (fuel : nat) (history : list ProjectedMessage)
    (input : SummaryInput) (settings : CompactionSettings) : option (list ProjectedMessage) :=
  compact_history_at fuel history input settings SUMMARY_RETRY_PERCENT.

(** *** What pruning leaves *)

(** The same message, up to the content of a tool result that was shortened. *)
Definition pruned_from (m m' : ProjectedMessage) : Prop :=
  p_message_id m' = p_message_id m ∧ p_role m' = p_role m ∧
  (m' = m ∨ ∃ r text, p_content m = PCToolResult r ∧
     p_content m' = PCToolResult (with_content r text) ∧
     str_len text ≤ SUMMARY_TOOL_RESULT_LIMIT < str_len (r_content r)).

(** Tool names and results of a size that can occur. *)
Definition result_fits (m : ProjectedMessage) : Prop :=
  match p_content m with
  | PCToolResult r => str_len (r_name r) ≤ 6000 ∧ str_len (r_content r) ≤ I64_MAX
  | _ => True
  end.

Lemma prune_from_end_spec history : Forall result_fits history →
  ∃ history' seen, prune_from_end 2 history = Some (history', seen) ∧ 0 ≤ seen ∧
    Forall2 pruned_from history history'.
Proof.
  induction 1 as [|m rest Hm _ (rest' & seen & IH & Hs & Hf)]; cbn [prune_from_end].
  { exists [], 0. repeat split; [lia|constructor]. }
  rewrite IH. cbn [mbind option_bind].
  assert (∀ n, 0 ≤ n → ∃ history' seen', Some (m :: rest', n) = Some (history', seen') ∧ 0 ≤ seen' ∧
    Forall2 pruned_from (m :: rest) history') as Hsame.
  { intros n Hn. eexists _, _. split; [done|]. split; [done|]. constructor; [|done].
    split; [done|]. split; [done|]. by left. }
  destruct (p_content m) as [| |r] eqn:Em; [by apply Hsame..|].
  destruct (seen <? _); [apply Hsame; lia|].
  destruct (Z.ltb_spec SUMMARY_TOOL_RESULT_LIMIT (str_len (r_content r))) as [Hlong|]; [|apply Hsame; lia].
  unfold result_fits in Hm. rewrite Em in Hm. destruct Hm as [Hn Hc].
  destruct (prune_known (r_content r) (r_name r) Hn Hc) as (text & -> & Hl & _).
  cbn [mbind option_bind]. eexists _, _. split; [done|]. split; [lia|]. constructor; [|done].
  split; [done|]. split; [done|]. right. by exists r, text.
Qed.

(** *** What the walk keeps *)

Definition boundary_at (history : list ProjectedMessage) (i : nat) : Prop :=
  ∃ m, history !! i = Some m ∧ is_turn_boundary m = true.

(** [kept] messages from a boundary fit the budget; [newest] is the last boundary of
    those that were looked at, and the first of the walk. *)
Definition walk_ok (history : list ProjectedMessage) (budget : Z) (i kept : nat) (newest : option nat) : Prop :=
  (kept = 0%nat ∨
   ((kept ≤ length history)%nat ∧ boundary_at history (length history - kept) ∧
    estimate_projected_messages_tokens (drop (length history - kept) history) ≤ budget)) ∧
  match newest with
  | None => kept = 0%nat ∧ ∀ j, (i ≤ j)%nat → ¬ boundary_at history j
  | Some n => boundary_at history n ∧ ∀ j, (n < j)%nat → ¬ boundary_at history j
  end.

Lemma trim_walk_ok history budget i kept newest :
  (i ≤ length history)%nat → walk_ok history budget i kept newest →
  let '(kept', newest') := trim_walk history budget i kept newest in
  walk_ok history budget 0 kept' newest'.
Proof.
  revert kept newest. induction i as [|i IH]; intros kept newest Hi Hw; cbn [trim_walk]; [done|].
  destruct (lookup_lt_is_Some_2 history i) as [m Hm]; [lia|]. rewrite Hm.
  destruct (is_turn_boundary m) eqn:Hb; cbn [negb].
  - assert (boundary_at history i) as Hbi by (by exists m).
    assert (walk_ok history budget i kept (Some (default i newest))) as Hw1.
    { destruct Hw as [Hk Hn]. split; [done|]. destruct newest as [n|]; cbn; [done|].
      split; [done|]. intros j Hj. apply Hn. lia. }
    destruct (Z.ltb_spec budget (estimate_projected_messages_tokens (drop i history))) as [|Hfit].
    + destruct Hw1 as [Hk Hn]. by split.
    + apply IH; [lia|]. destruct Hw1 as [_ Hn]. split; [|done]. right.
      replace (length history - (length history - i))%nat with i by lia. split; [lia|done].
  - apply IH; [lia|]. destruct Hw as [Hk Hn]. split; [done|]. destruct newest as [n|]; [done|].
    destruct Hn as [Hk0 Hn]. split; [done|]. intros j Hj. destruct (decide (j = i)) as [->|].
    + intros (m' & Hm' & Hb'). congruence.
    + apply Hn. lia.
Qed.

(** the summarize call never replays more than its budget unless a single turn is
    already larger: what it replays is a suffix of the history (old tool results
    shortened to 8 KiB) that starts at a user turn and fits, or the newest turn
    alone; a history without any user turn is replayed whole. *)
Theorem trim_to_context_spec history budget : Forall result_fits history →
  ∃ pruned kept, trim_to_context 2 history (Some budget) = Some kept ∧
    Forall2 pruned_from history pruned ∧ kept `suffix_of` pruned ∧
    (estimate_projected_messages_tokens kept ≤ budget ∨
     (∃ n, kept = drop n pruned ∧ boundary_at pruned n ∧ ∀ i, (n < i)%nat → ¬ boundary_at pruned i) ∨
     (kept = pruned ∧ ∀ i, ¬ boundary_at pruned i)) ∧
    (kept = pruned ∨ ∃ m rest, kept = m :: rest ∧ is_turn_boundary m = true).
Proof.
  intros Hfits. unfold trim_to_context.
  assert (∀ h, Forall2 pruned_from h h) as Hrefl.
  { intros h. induction h; constructor; [|done]. split; [done|]. split; [done|]. by left. }
  destruct (Z.leb_spec (estimate_projected_messages_tokens history) budget).
  { exists history, history. repeat split; auto. }
  destruct (prune_from_end_spec history Hfits) as (pruned & seen & Hp & _ & Hf).
  unfold prune_replayed_tool_results. rewrite Hp. cbn [fmap option_fmap option_map mbind option_bind fst].
  exists pruned. destruct (Z.leb_spec (estimate_projected_messages_tokens pruned) budget).
  { exists pruned. repeat split; auto. }
  pose proof (trim_walk_ok pruned budget (length pruned) 0 None ltac:(lia)) as Hw.
  destruct (trim_walk pruned budget (length pruned) 0 None) as [kept newest].
  destruct Hw as [Hk Hn].
  { split; [by left|]. split; [done|]. intros j Hj (m & Hm & _). apply lookup_lt_Some in Hm. lia. }
  assert (∀ n, boundary_at pruned n → ∃ m rest, drop n pruned = m :: rest ∧ is_turn_boundary m = true) as Hdrop.
  { intros n (m & Hm & Hb). exists m, (drop (S n) pruned). split; [by apply drop_S|done]. }
  destruct (Nat.eqb_spec kept 0) as [->|Hne].
  - eexists. split; [done|]. split; [done|]. split; [by eexists (take _ _); rewrite take_drop|].
    destruct newest as [n|]; cbn [default from_option id].
    + destruct Hn as [Hb Hlast]. split; [|right; by apply Hdrop]. right; left. by exists n.
    + destruct Hn as [_ Hn]. split; [|by left]. right; right. split; [done|]. intros i. apply Hn. lia.
  - destruct Hk as [|(Hle & Hb & Hest)]; [done|].
    eexists. split; [done|]. split; [done|]. split; [by eexists (take _ _); rewrite take_drop|].
    split; [by left|]. right. by apply Hdrop.
Qed.

(** the summarize call is always made: its history ends with a user message, so no
    provider takes it for a prefill, and what is before it is the trimmed history. *)
Theorem summarize_history_user_terminated history input settings percent :
  Forall result_fits history →
  ∃ trimmed sent, trim_to_context 2 history (summary_input_budget input settings percent) = Some trimmed ∧
    compact_history_at 2 history input settings percent = Some sent ∧
    trimmed `prefix_of` sent ∧ (length sent ≤ length trimmed + 1)%nat ∧
    ∀ m, last sent = Some m → p_role m ≠ RAssistant.
Proof.
  intros Hfits. unfold compact_history_at.
  assert (∃ trimmed, trim_to_context 2 history (summary_input_budget input settings percent) = Some trimmed)
    as [trimmed Ht].
  { destruct (summary_input_budget _ _ _) as [b|]; [|by eexists].
    unfold trim_to_context. destruct (_ <=? b); [by eexists|].
    destruct (prune_from_end_spec history Hfits) as (pruned & seen & Hp & _).
    unfold prune_replayed_tool_results. rewrite Hp. cbn [fmap option_fmap option_map mbind option_bind fst].
    destruct (_ <=? b); [by eexists|]. destruct (trim_walk _ _ _ _ _) as [k n]. destruct (k =? 0)%nat; by eexists. }
  rewrite Ht. cbn [mbind option_bind]. eexists _, _. split; [done|]. split; [done|].
  unfold user_terminated. destruct (last trimmed) as [m|] eqn:El.
  - case_bool_decide as Hr.
    + split; [by apply prefix_app_r|]. split; [rewrite length_app; cbn; lia|].
      intros m'. rewrite last_snoc. by intros [= <-].
    + split; [done|]. split; [lia|]. rewrite El. by intros m' [= <-].
  - split; [done|]. split; [lia|]. rewrite El. done.
Qed.
End Trim.

Definition sample_turn (id : string) (text : str) : ProjectedMessage :=
  MkProjected (lit id) RUser (PCParts [PText text]).

(** Three turns of which the last two fit. *)
Definition sample_replay : list ProjectedMessage :=
  [sample_turn "u1" (replicate 400 97); sample_turn "u2" (lit "second"); sample_turn "u3" (lit "third")].

Lemma trim_to_context_spec_witness :
  ∃ kept, @trim_to_context Samples.tiny_json 2 sample_replay (Some 60) = Some kept ∧ length kept = 2%nat.
Proof.
  destruct (@trim_to_context_spec Samples.tiny_json sample_replay 60) as (pruned & kept & H & _).
  - repeat constructor.
  - exists kept. split; [exact H|]. vm_compute in H. injection H as <-. reflexivity.
Defined.

Lemma summarize_history_user_terminated_witness :
  ∃ sent, @compact_history_at Samples.tiny_json 2 sample_replay (MkSummaryInput (Some 1000) 100 20 f64_one)
    default_settings 90 = Some sent ∧ sent ≠ [].
Proof.
  destruct (@summarize_history_user_terminated Samples.tiny_json sample_replay
    (MkSummaryInput (Some 1000) 100 20 f64_one) default_settings 90) as (trimmed & sent & _ & H & _).
  - repeat constructor.
  - exists sent. split; [exact H|]. vm_compute in H. injection H as <-. discriminate.
Defined.
