(* ===== verification/Compaction.v ===== *)
(** * Compaction: the history a compaction leaves behind

    The part of server/src/run/compaction.rs that assembles the replacement: what is
    compacted and what is kept, the newest turns within the retention budget, the
    summary slot, its carried text and its anchors. *)

From stdpp Require Import prelude gmap strings list.
From S2P Require Import Prelude Errors External Message Tokens Replay Float Budget Trim.
Local Open Scope Z_scope.

Section Tail.
Context {SJ : SerdeJson}.

(** [str::starts_with] for a literal. *)
Definition has_prefix (prefix : string) (s : str) : bool := starts_with (lit prefix) s.

(** [iter().rposition(p)] *)
Fixpoint rposition {A} (p : A → bool) (l : list A) : option nat :=
  match l with
  | [] => None
  | a :: l =>
      match rposition p l with
      | Some i => Some (S i)
      | None => if p a then Some 0%nat else None
      end
  end.

(** server/src/run/compaction.rs:598-619, [partition]. *)
Definition partition (messages : list CanonicalMessage) (current_ids : list str)
    : list CanonicalMessage * option CanonicalMessage :=
  let current m := bool_decide (message_id m ∈ current_ids) in
  let latest_request_context :=
    rposition (λ m, has_prefix "request-context:" (message_id m)) messages in
  let compactable :=
    snd <$> filter (λ im, Some (fst im) ≠ latest_request_context ∧ current (snd im) = false)
      (imap pair messages) in
  let retained :=
    index ← latest_request_context;
    m ← messages !! index;
    if current m then None else Some m in
  (compactable, retained).

(** server/src/run/compaction.rs:776-781, [is_superseded_summary]. *)
Definition is_superseded_summary (m : CanonicalMessage) : bool :=
  match runtime_event_id m with
  | Some event_id => has_prefix "summary:" event_id
  | None => false
  end.

(** server/src/run/compaction.rs:766-770, [is_turn_start]. *)
Definition is_turn_start (m : CanonicalMessage) : bool :=
  bool_decide (role m = RUser) && negb (bool_decide (origin m = OPrompt))
  && negb (is_superseded_summary m).

(** server/src/run/compaction.rs:772-774, [dropped_from_tail]. *)
Definition dropped_from_tail (m : CanonicalMessage) : bool :=
  bool_decide (role m = RUser) && bool_decide (origin m = OPrompt) || is_superseded_summary m.

(** server/src/run/compaction.rs:757-764, [turn_starts]. *)
Definition turn_starts (messages : list CanonicalMessage) : list nat :=
  fst <$> filter (λ im, is_turn_start (snd im) = true) (imap pair messages).

(** server/src/run/compaction.rs:622-629, [RetentionBudget]. *)
Record RetentionBudget : Type := MkRetention { soft : Z; hard : Z }.

(** server/src/run/compaction.rs:678-682, [projected_tokens]. *)
Definition projected_tokens (messages : list CanonicalMessage) : res Z :=
  projected ← project_messages messages;
  Ok (estimate_projected_messages_tokens projected).

(** server/src/run/compaction.rs:640-676, [retention_budget]. *)
Definition retention_budget (p : PreparedRun) (head after : list CanonicalMessage) (calibration : f64)
    (settings : CompactionSettings) : res (option RetentionBudget) :=
  match positive_window (context_window_tokens (model p)), input_budget p settings with
  | Some window, Some input_budget =>
      head_tokens ← projected_tokens head;
      let window := calibrate_budget window calibration in
      let input_budget := calibrate_budget input_budget calibration in
      let retention := u64 (window * retention_percent settings / 100) in
      let soft := sat_sub retention head_tokens in
      let cap := (λ cap, calibrate_budget cap calibration) <$> max_retained_tokens settings in
      let soft := match cap with Some cap => Z.min soft cap | None => soft end in
      after_tokens ← projected_tokens after;
      let hard := sat_sub (sat_sub (sat_sub input_budget (estimate_context_tokens (prompt p) []))
                             head_tokens) after_tokens in
      let hard := match cap with Some cap => Z.min hard cap | None => hard end in
      Ok (Some (MkRetention soft hard))
  | _, _ => Ok None
  end.

(** [&messages[start..end]] *)
Definition range (messages : list CanonicalMessage) (start stop : nat) : list CanonicalMessage :=
  take (stop - start) (drop start messages).

(** server/src/run/compaction.rs:723-737, [retained_tail]: the turns from the newest
    one back; [starts] are those that are still to be looked at, newest first, [stop]
    is where the last one of them ends. *)
Fixpoint tail_walk (compactable : list CanonicalMessage) (target : Z) (starts : list nat) (stop : nat)
    (total : Z) (keep_from : option nat) : res (option nat) :=
  match starts with
  | [] => Ok keep_from
  | start :: earlier =>
      tokens ← projected_tokens (range compactable start stop);
      if target <? sat_add total tokens then Ok keep_from
      else tail_walk compactable target earlier start (sat_add total tokens) (Some start)
  end.

(** server/src/run/compaction.rs:701-717, [retained_tail]: where a tail may start. *)
Definition tail_starts (compactable : list CanonicalMessage) : list nat :=
  match turn_starts compactable with
  | [] =>
      match list_find (λ m, dropped_from_tail m = false) compactable with
      | Some (i, _) => [i]
      | None => []
      end
  | starts => starts
  end.

(** server/src/run/compaction.rs:691-750, [retained_tail]. *)
Definition retained_tail (compactable : list CanonicalMessage) (budget : RetentionBudget)
    : res (list CanonicalMessage) :=
  all ← projected_tokens compactable;
  if all <=? soft budget then Ok []
  else
    let starts := tail_starts compactable in
    match last starts with
    | None => Ok []
    | Some newest =>
        let target := Z.min (soft budget) (hard budget) in
        keep_from ← tail_walk compactable target (reverse starts) (length compactable) 0 None;
        start ← match keep_from with
                | Some start => Ok (Some start)
                | None =>
                    tokens ← projected_tokens (drop newest compactable);
                    Ok (if tokens <=? hard budget then Some newest else None)
                end;
        match start with
        | Some start => Ok (filter (λ m, dropped_from_tail m = false) (drop start compactable))
        | None => Ok []
        end
    end.

(** *** Images *)

(** server/src/run/compaction.rs:101-101, [MAX_RETAINED_IMAGES]. *)
Definition MAX_RETAINED_IMAGES : Z := 2.

Definition is_image (p : ContentPart) : bool :=
  match p with PImage _ _ => true | PText _ => false end.

(** server/src/run/compaction.rs:882-887, [count_images]. *)
Definition count_images (parts : list ContentPart) : Z := zlen (filter (λ p, is_image p = true) parts).

(** server/src/run/compaction.rs:889-901, [offload_parts]: from the last part. *)
Fixpoint offload_parts (parts : list ContentPart) (remaining : Z) : list ContentPart * Z :=
  match parts with
  | [] => ([], remaining)
  | part :: rest =>
      let '(rest, remaining) := offload_parts rest remaining in
      match part with
      | PImage _ _ =>
          if 0 <? remaining then (part :: rest, remaining - 1)
          else (PText (lit "[image omitted during compaction]") :: rest, remaining)
      | PText _ => (part :: rest, remaining)
      end
  end.

Definition with_message_content (m : CanonicalMessage) (c : MessageContent) : CanonicalMessage :=
  MkMessage (message_id m) (role m) (origin m) c (runtime_event_id m).

(** server/src/run/compaction.rs:857-880, [offload_old_tail_images]: from the last
    message, with [remaining]. *)
Fixpoint offload_from_end (tail : list CanonicalMessage) (remaining : Z)
    : list CanonicalMessage * Z :=
  match tail with
  | [] => ([], remaining)
  | m :: rest =>
      let '(rest, remaining) := offload_from_end rest remaining in
      match content m with
      | CParts parts => (m :: rest, sat_sub remaining (count_images parts))
      | CToolResult r =>
          let remaining := match r_image r with Some _ => sat_sub remaining 1 | None => remaining end in
          let '(parts, remaining) := offload_parts (r_provider_parts r) remaining in
          (with_message_content m
             (CToolResult (MkResult (r_call_id r) (r_name r) (r_content r) (r_is_error r) (r_image r) parts))
           :: rest, remaining)
      | CAssistant _ _ _ _ _ => (m :: rest, remaining)
      end
  end.
(** server/src/run/compaction.rs:857-880, [offload_old_tail_images]. *)
Definition offload_old_tail_images (tail : list CanonicalMessage) : list CanonicalMessage :=
  fst (offload_from_end tail MAX_RETAINED_IMAGES).

(** server/src/run/compaction.rs:784-796, [summary_message]. *)
Definition summary_message (event_id summary : str) : CanonicalMessage :=
  MkMessage (lit "runtime:" ++ event_id) RUser ORuntime
    (CParts [PText (lit "<conversation_summary>" ++ [10] ++ summary ++ [10] ++ lit "</conversation_summary>")])
    (Some event_id).

(** server/src/run/compaction.rs:816-847, [replacement]. *)
Definition replacement (p : PreparedRun) (messages : list CanonicalMessage) (summary : CanonicalMessage)
    (retention : Retention) (calibration : f64) (settings : CompactionSettings)
    : res (list CanonicalMessage) :=
  let current_ids := message_id <$> initial_messages p in
  let '(compactable, retained_request_context) := partition messages current_ids in
  let head := option_list retained_request_context ++ [summary] in
  tail ← match retention with
         | KeepWindow =>
             budget ← retention_budget p head (initial_messages p) calibration settings;
             tail ← match budget with
                    | Some budget => retained_tail compactable budget
                    | None => Ok []
                    end;
             Ok (offload_old_tail_images tail)
         | KeepNone => Ok []
         end;
  Ok (head ++ tail ++ initial_messages p).

(** *** Lists *)

Lemma imap_filter_sublist {A} (P : nat * A → Prop) `{∀ x, Decision (P x)} (l : list A) (f : nat → A → nat * A) :
  (∀ i a, snd (f i a) = a) → snd <$> filter P (imap f l) `sublist_of` l.
Proof.
  revert f. induction l as [|a l IH]; intros f Hf; [constructor|].
  rewrite imap_cons, filter_cons. assert (snd <$> filter P (imap (f ∘ S) l) `sublist_of` l) as Hl
    by (apply IH; intros; apply Hf).
  case_decide; [|by constructor]. rewrite fmap_cons, Hf. by constructor.
Qed.

Lemma imap_filter_elem {A} (P : nat * A → Prop) `{∀ x, Decision (P x)} (l : list A) i a :
  (i, a) ∈ filter P (imap pair l) ↔ P (i, a) ∧ l !! i = Some a.
Proof.
  rewrite list_elem_of_filter. apply and_iff_compat_l. rewrite list_elem_of_lookup. split.
  - intros [j Hj]. apply list_lookup_imap_Some in Hj as (x & Hx & [= -> ->]). done.
  - intros Hi. exists i. by rewrite list_lookup_imap, Hi.
Qed.

Lemma rposition_Some {A} (p : A → bool) (l : list A) i : rposition p l = Some i →
  ∃ a, l !! i = Some a ∧ p a = true.
Proof.
  revert i. induction l as [|a l IH]; intros i; cbn; [done|].
  destruct (rposition p l) as [j|]; [intros [= <-]; apply (IH j eq_refl)|].
  destruct (p a) eqn:E; [|done]. intros [= <-]. by exists a.
Qed.

(** *** The partition *)

Lemma partition_compactable messages ids :
  (partition messages ids).1 `sublist_of` messages ∧
  Forall (λ m, message_id m ∉ ids) (partition messages ids).1.
Proof.
  split; [by apply imap_filter_sublist|]. apply Forall_forall. intros m.
  intros ([i m'] & -> & Hm)%list_elem_of_fmap. apply imap_filter_elem in Hm as [[_ Hc] _].
  by apply bool_decide_eq_false in Hc.
Qed.

Lemma partition_retained messages ids m : (partition messages ids).2 = Some m →
  m ∈ messages ∧ message_id m ∉ ids ∧ has_prefix "request-context:" (message_id m) = true.
Proof.
  cbn. destruct (rposition _ _) as [i|] eqn:Er; [|done]. cbn.
  destruct (messages !! i) as [m'|] eqn:Em; [|done]. cbn. case_bool_decide as Hin; [done|].
  intros [= ->]. split; [by eapply list_elem_of_lookup_2|]. split; [done|].
  apply rposition_Some in Er as (a & Ha & Hp). rewrite Em in Ha. injection Ha as ->. exact Hp.
Qed.

(** The retained context is not compacted: the two parts have no message in common. *)
Lemma partition_disjoint messages ids m : NoDup (message_id <$> messages) →
  (partition messages ids).2 = Some m → message_id m ∉ message_id <$> (partition messages ids).1.
Proof.
  intros Hnd Hm Hin. cbn in Hm, Hin.
  destruct (rposition _ messages) as [i|] eqn:Er; [|done]. cbn in Hm.
  destruct (messages !! i) as [m'|] eqn:Em; [|done]. cbn in Hm. case_bool_decide; [done|].
  injection Hm as ->. apply list_elem_of_fmap in Hin as (m2 & Hid & Hm2).
  apply list_elem_of_fmap in Hm2 as ([j m3] & -> & Hj). apply imap_filter_elem in Hj as [[Hne _] Hj].
  cbn in Hid, Hne. apply Hne. f_equal.
  apply (NoDup_lookup _ j i (message_id m) Hnd); rewrite list_lookup_fmap; [by rewrite Hj; cbn; rewrite Hid|].
  by rewrite Em.
Qed.

(** *** The tail *)

(** The turns of a tail from [start] to [stop], and what they cost. *)
Inductive tail_cost (compactable : list CanonicalMessage) : nat → nat → Z → Prop :=
  | tail_cost_one start stop tokens : projected_tokens (range compactable start stop) = Ok tokens →
      tail_cost compactable start stop (sat_add 0 tokens)
  | tail_cost_more start mid stop total tokens :
      tail_cost compactable mid stop total →
      projected_tokens (range compactable start mid) = Ok tokens →
      tail_cost compactable start stop (sat_add total tokens).

Lemma tail_walk_spec compactable target starts stop total keep_from r :
  tail_walk compactable target starts stop total keep_from = Ok r →
  (keep_from = None → total = 0 ∧ stop = length compactable) →
  (∀ k, keep_from = Some k → stop = k ∧ tail_cost compactable k (length compactable) total ∧ total ≤ target) →
  r = keep_from ∨ ∃ k total', r = Some k ∧ k ∈ starts ∧
    tail_cost compactable k (length compactable) total' ∧ total' ≤ target.
Proof.
  revert stop total keep_from. induction starts as [|start starts IH]; intros stop total keep H HN HS;
    cbn [tail_walk] in H.
  { injection H as <-. by left. }
  apply bind_ok in H as (tokens & Ht & H).
  destruct (Z.ltb_spec target (sat_add total tokens)) as [|Hle]; [injection H as <-; by left|].
  assert (tail_cost compactable start (length compactable) (sat_add total tokens)) as Hcost.
  { destruct keep as [k|].
    - destruct (HS k eq_refl) as (-> & Hc & _). by econstructor.
    - destruct (HN eq_refl) as [-> ->]. by constructor. }
  apply IH in H as [->|(k & t & -> & Hk & Hc & Hl)]; [| |done|].
  - right. exists start, (sat_add total tokens). split; [done|]. split; [apply list_elem_of_here|done].
  - right. exists k, t. split; [done|]. split; [by apply list_elem_of_further|done].
  - intros k [= <-]. done.
Qed.

Lemma turn_starts_spec compactable k : k ∈ turn_starts compactable →
  ∃ m, compactable !! k = Some m ∧ is_turn_start m = true.
Proof.
  intros ([i m] & -> & Hi)%list_elem_of_fmap. apply imap_filter_elem in Hi as [Hs Hi]. by exists m.
Qed.

Lemma turn_start_kept m : is_turn_start m = true → dropped_from_tail m = false.
Proof.
  unfold is_turn_start, dropped_from_tail. rewrite !andb_true_iff, !negb_true_iff.
  intros [[_ ->] ->]. by rewrite andb_false_r.
Qed.

(** Where a tail may start: at a turn, or, when the history has no turn at all, at the
    first message a tail keeps. *)
Lemma tail_starts_spec compactable k : k ∈ tail_starts compactable →
  ∃ m, compactable !! k = Some m ∧ dropped_from_tail m = false ∧
    (is_turn_start m = true ∨
     (Forall (λ m, is_turn_start m = false) compactable ∧
      Forall (λ m, dropped_from_tail m = true) (take k compactable))).
Proof.
  unfold tail_starts. destruct (turn_starts compactable) as [|s ss] eqn:Es.
  - destruct (list_find _ _) as [[i m]|] eqn:Ef; [|by intros ?%elem_of_nil].
    intros ->%list_elem_of_singleton. apply list_find_Some in Ef as (Hi & Hd & Hbefore).
    exists m. split; [done|]. split; [done|]. right. split.
    + apply Forall_forall. intros m' (j & Hj)%list_elem_of_lookup.
      destruct (is_turn_start m') eqn:E; [|done].
      assert (j ∈ turn_starts compactable) as Hin; [|by rewrite Es in Hin; apply elem_of_nil in Hin].
      apply list_elem_of_fmap. exists (j, m'). split; [done|]. by apply imap_filter_elem.
    + apply Forall_forall. intros m' (j & Hj)%list_elem_of_lookup.
      apply lookup_take_Some in Hj as [Hj Hlt]. specialize (Hbefore j m' Hj Hlt).
      by destruct (dropped_from_tail m').
  - rewrite <- Es. intros (m & Hm & Hs)%turn_starts_spec. exists m.
    split; [done|]. split; [by apply turn_start_kept|by left].
Qed.

Lemma retained_tail_start compactable budget tail :
  retained_tail compactable budget = Ok tail → tail ≠ [] →
  ∃ start, tail = filter (λ m, dropped_from_tail m = false) (drop start compactable).
Proof.
  unfold retained_tail. intros H Hne. apply bind_ok in H as (all & Hall & H).
  destruct (all <=? soft budget); [injection H as <-; done|].
  destruct (last (tail_starts compactable)) as [newest|]; [|injection H as <-; done].
  apply bind_ok in H as (keep & _ & H). apply bind_ok in H as (start & _ & H).
  destruct start as [start|]; injection H as <-; [eauto|done].
Qed.

(** what a compaction keeps verbatim is a tail of whole turns: it begins at a user
    turn (or, in a history without one, at the first message that can be kept), it
    drops nothing but prompt context and superseded summaries, and its turns cost no
    more than the retention target together, except that the newest turn alone may
    fill the hard limit. *)
Theorem retained_tail_budget compactable budget tail :
  retained_tail compactable budget = Ok tail → tail ≠ [] →
  ∃ start m, compactable !! start = Some m ∧
    tail = filter (λ m, dropped_from_tail m = false) (drop start compactable) ∧
    head tail = Some m ∧
    (is_turn_start m = true ∨ Forall (λ m, is_turn_start m = false) compactable) ∧
    ((∃ total, tail_cost compactable start (length compactable) total ∧
        total ≤ Z.min (soft budget) (hard budget)) ∨
     (last (tail_starts compactable) = Some start ∧
      ∃ tokens, projected_tokens (drop start compactable) = Ok tokens ∧ tokens ≤ hard budget)).
Proof.
  unfold retained_tail. intros H Hne. apply bind_ok in H as (all & Hall & H).
  destruct (all <=? soft budget); [injection H as <-; done|].
  destruct (last (tail_starts compactable)) as [newest|] eqn:El; [|injection H as <-; done].
  apply bind_ok in H as (keep & Hk & H). apply bind_ok in H as (start & Hs & H).
  destruct start as [start|]; [|injection H as <-; done]. injection H as <-.
  apply tail_walk_spec in Hk; [|done|done].
  assert (start ∈ tail_starts compactable ∧
    ((∃ total, tail_cost compactable start (length compactable) total ∧
        total ≤ Z.min (soft budget) (hard budget)) ∨
     (Some newest = Some start ∧
      ∃ tokens, projected_tokens (drop start compactable) = Ok tokens ∧ tokens ≤ hard budget))) as [Hin Hc].
  { destruct Hk as [->|(k & t & -> & Hk & Hc)].
    - apply bind_ok in Hs as (tokens & Ht & Hs). destruct (Z.leb_spec tokens (hard budget)); [|done].
      injection Hs as ->. split; [by apply last_Some_elem_of|]. right. eauto.
    - injection Hs as ->. split; [by rewrite elem_of_reverse in Hk|]. left. eauto. }
  apply tail_starts_spec in Hin as (m & Hm & Hd & Hstart).
  exists start, m. split; [done|]. split; [done|]. split.
  - rewrite (drop_S _ m) by done. by rewrite filter_cons, decide_True.
  - split; [|done]. destruct Hstart as [|[? _]]; auto.
Qed.

(** *** Images and the replacement *)

Lemma sublist_fmap {A B} (f : A → B) l k : l `sublist_of` k → f <$> l `sublist_of` (f <$> k).
Proof. induction 1; cbn; by constructor. Qed.

(** A message as it is stored: [provider_parts] is not serialized. *)
Definition stored (m : CanonicalMessage) : CanonicalMessage :=
  match content m with
  | CToolResult r =>
      with_message_content m
        (CToolResult (MkResult (r_call_id r) (r_name r) (r_content r) (r_is_error r) (r_image r) []))
  | _ => m
  end.

(** The images a provider is sent of the tool results of a tail. *)
Definition part_images (m : CanonicalMessage) : Z :=
  match content m with CToolResult r => count_images (r_provider_parts r) | _ => 0 end.
Definition tail_images (tail : list CanonicalMessage) : Z := foldr (λ m n, part_images m + n) 0 tail.

Lemma count_images_cons p parts :
  count_images (p :: parts) = (if is_image p then 1 else 0) + count_images parts.
Proof.
  unfold count_images. rewrite filter_cons.
  destruct (is_image p); [by rewrite decide_True, zlen_cons|by rewrite decide_False].
Qed.

Lemma offload_parts_spec parts remaining : 0 ≤ remaining →
  let '(parts', remaining') := offload_parts parts remaining in
  0 ≤ remaining' ∧ count_images parts' + remaining' ≤ remaining ∧
  remaining' = Z.max 0 (remaining - count_images parts) ∧ length parts' = length parts.
Proof.
  intros Hr. induction parts as [|p parts IH]; cbn [offload_parts].
  { change (count_images []) with 0. repeat split; lia. }
  destruct (offload_parts parts remaining) as [rest n]. destruct IH as (H1 & H2 & H3 & H4).
  assert (0 ≤ count_images parts) by apply zlen_nonneg.
  destruct p as [t|mime data]; [|destruct (Z.ltb_spec 0 n)]; rewrite !count_images_cons; cbn [is_image length];
    (split; [lia|]; split; [lia|]; split; [lia|]; lia).
Qed.

Lemma offload_from_end_spec tail remaining : 0 ≤ remaining →
  let '(tail', remaining') := offload_from_end tail remaining in
  0 ≤ remaining' ∧ tail_images tail' + remaining' ≤ remaining ∧ stored <$> tail' = stored <$> tail.
Proof.
  intros Hr. induction tail as [|m tail IH]; cbn [offload_from_end].
  { change (tail_images []) with 0. repeat split; lia. }
  destruct (offload_from_end tail remaining) as [rest n]. destruct IH as (H1 & H2 & H3).
  destruct (content m) as [parts| |r] eqn:Em.
  - change (tail_images (m :: rest)) with (part_images m + tail_images rest).
    unfold part_images. rewrite Em. assert (0 ≤ count_images parts) by apply zlen_nonneg.
    unfold sat_sub. split; [lia|]. split; [lia|]. rewrite !fmap_cons. by rewrite H3.
  - change (tail_images (m :: rest)) with (part_images m + tail_images rest).
    unfold part_images. rewrite Em. split; [lia|]. split; [lia|]. rewrite !fmap_cons. by rewrite H3.
  - set (n' := match r_image r with Some _ => sat_sub n 1 | None => n end).
    assert (0 ≤ n' ≤ n) as Hn' by (subst n'; unfold sat_sub; destruct (r_image r); lia).
    pose proof (offload_parts_spec (r_provider_parts r) n' ltac:(lia)) as Ho.
    destruct (offload_parts (r_provider_parts r) n') as [parts n'']. destruct Ho as (O1 & O2 & _).
    match goal with |- _ ∧ tail_images (?x :: _) + _ ≤ _ ∧ _ =>
      change (tail_images (x :: rest)) with (count_images parts + tail_images rest) end.
    split; [lia|]. split; [lia|]. rewrite !fmap_cons, H3. f_equal.
    unfold stored. cbn. by rewrite Em.
Qed.

(** a compaction replaces a history by the latest request context, the summary, a
    tail of the old messages and the run's own messages, in this order.  The tail
    takes its messages in order and as they are stored, so committing it again never
    meets a different payload under the same identity; a message appears once; and
    the provider is sent at most two images of the tail's tool results. *)
Theorem replacement_shape p messages summary retention calibration settings out :
  replacement p messages summary retention calibration settings = Ok out →
  NoDup (message_id <$> messages) → NoDup (message_id <$> initial_messages p) →
  message_id summary ∉ (message_id <$> messages) ++ (message_id <$> initial_messages p) →
  ∃ context tail, out = option_list context ++ [summary] ++ tail ++ initial_messages p ∧
    (∀ m, context = Some m → m ∈ messages ∧ has_prefix "request-context:" (message_id m) = true) ∧
    (∃ kept, kept `sublist_of` messages ∧ stored <$> tail = stored <$> kept) ∧
    tail_images tail ≤ MAX_RETAINED_IMAGES ∧ (retention = KeepNone → tail = []) ∧
    NoDup (message_id <$> out).
Proof.
  intros H Hnd Hni Hsum. unfold replacement in H.
  set (ids := message_id <$> initial_messages p) in *.
  destruct (partition messages ids) as [compactable context] eqn:Ep.
  pose proof (partition_compactable messages ids) as [Hsub Hids]. rewrite Ep in Hsub, Hids. cbn in Hsub, Hids.
  apply bind_ok in H as (tail & Ht & H). injection H as <-.
  assert (∃ kept, kept `sublist_of` compactable ∧ stored <$> tail = stored <$> kept ∧
    tail_images tail ≤ MAX_RETAINED_IMAGES ∧ (retention = KeepNone → tail = [])) as (kept & Hk & Hst & Him & Hnone).
  { destruct retention.
    - apply bind_ok in Ht as (budget & _ & Ht). apply bind_ok in Ht as (tl & Htl & Ht).
      injection Ht as <-. pose proof (offload_from_end_spec tl MAX_RETAINED_IMAGES ltac:(done)) as Ho.
      unfold offload_old_tail_images. destruct (offload_from_end tl _) as [tail n]. cbn [fst].
      destruct Ho as (O1 & O2 & O3). exists tl. split; [|split; [done|split; [lia|done]]].
      destruct budget as [budget|]; [|injection Htl as <-; apply sublist_nil_l].
      destruct (decide (tl = [])) as [->|Hne]; [apply sublist_nil_l|].
      destruct (retained_tail_start _ _ _ Htl Hne) as (start & ->).
      etrans; [apply sublist_filter|apply sublist_drop].
    - injection Ht as <-. exists []. split; [apply sublist_nil_l|]. done. }
  assert (message_id <$> tail = message_id <$> kept) as Hidk.
  { assert (∀ l : list CanonicalMessage, message_id <$> l = message_id <$> (stored <$> l)) as Hs.
    { intros l. rewrite <- list_fmap_compose. apply list_fmap_ext. intros j m _. cbn.
      unfold stored, with_message_content. by destruct (content m). }
    rewrite (Hs tail), (Hs kept). by rewrite Hst. }
  exists context, tail. split; [by rewrite <- app_assoc|]. split.
  { intros m ->. destruct (partition_retained messages ids m) as (? & _ & ?); [by rewrite Ep|done]. }
  split; [exists kept; split; [by etrans|done]|]. split; [done|]. split; [done|].
  rewrite !fmap_app, Hidk. fold ids.
  assert (∀ i, i ∈ message_id <$> kept → i ∈ message_id <$> messages ∧ i ∉ ids) as Hkid.
  { intros i (m & -> & Hm)%list_elem_of_fmap. split.
    - apply list_elem_of_fmap_2, (elem_of_sublist kept); [done|by etrans].
    - rewrite Forall_forall in Hids. apply Hids. by eapply elem_of_sublist. }
  assert (NoDup (message_id <$> kept)) as Hndk
    by (eapply sublist_NoDup; [exact Hnd|]; apply sublist_fmap; by etrans).
  assert (∀ m, context = Some m → message_id m ∈ message_id <$> messages ∧ message_id m ∉ ids ∧
    message_id m ∉ message_id <$> kept) as Hctx.
  { intros m ->. destruct (partition_retained messages ids m) as (Hm & Hi & _); [by rewrite Ep|].
    split; [by apply list_elem_of_fmap_2|]. split; [done|].
    pose proof (partition_disjoint messages ids m Hnd) as Hd. rewrite Ep in Hd. specialize (Hd eq_refl).
    intros Hin. apply Hd. eapply elem_of_sublist; [exact Hin|]. by apply sublist_fmap. }
  apply not_elem_of_app in Hsum as [Hs1 Hs2].
  assert (NoDup ((message_id <$> kept) ++ ids)) as Hnd2.
  { apply NoDup_app. split; [done|]. split; [|done]. intros i Hi. by apply Hkid. }
  rewrite <- app_assoc. cbn [fmap list_fmap app].
  assert (NoDup (message_id summary :: (message_id <$> kept) ++ ids)) as Hnd3.
  { apply NoDup_cons. split; [|done]. intros [Hi|Hi]%elem_of_app; [|done]. by apply Hs1, Hkid. }
  destruct context as [m|]; [|done]. cbn. destruct (Hctx m eq_refl) as (C1 & C2 & C3).
  apply NoDup_cons. split; [|done]. intros [Hi|[Hi|Hi]%elem_of_app]%elem_of_cons; [|done|done].
  rewrite Hi in C1. done.
Qed.
End Tail.

(** ** Witnesses *)

(** A request context and three turns, the last of which is the run's own. *)
Definition sample_messages : list CanonicalMessage :=
  [text_message (lit "request-context:1") RUser OPrompt (lit "rules");
   text_message (lit "u1") RUser OUser (replicate 4000 97);
   text_message (lit "u2") RUser OUser (replicate 4000 98);
   text_message (lit "u3") RUser OUser (lit "now")].
Definition sample_run : PreparedRun := sample_prepared [text_message (lit "u3") RUser OUser (lit "now")].
Definition sample_summary : CanonicalMessage := summary_message (lit "summary:run") (lit "so far").

Lemma retained_tail_budget_witness :
  ∃ tail start, @retained_tail Samples.tiny_json sample_messages (MkRetention 1100 3000) = Ok tail ∧
    tail = filter (λ m, dropped_from_tail m = false) (drop start sample_messages) ∧ tail ≠ [].
Proof.
  destruct (@retained_tail Samples.tiny_json sample_messages (MkRetention 1100 3000)) as [tail|] eqn:E;
    [|vm_compute in E; discriminate E].
  assert (tail ≠ []) as Hne by (vm_compute in E; injection E as <-; discriminate).
  destruct (@retained_tail_budget Samples.tiny_json sample_messages (MkRetention 1100 3000) tail E Hne)
    as (start & m & _ & H & _).
  exists tail, start. split; [reflexivity|]. split; [exact H|exact Hne].
Defined.

Lemma replacement_shape_witness :
  ∃ out, @replacement Samples.tiny_json sample_run sample_messages sample_summary KeepWindow f64_one
    default_settings = Ok out ∧ NoDup (message_id <$> out).
Proof.
  destruct (@replacement Samples.tiny_json sample_run sample_messages sample_summary KeepWindow f64_one
    default_settings) as [out|] eqn:E; [|vm_compute in E; discriminate E].
  exists out. split; [reflexivity|].
  destruct (@replacement_shape Samples.tiny_json sample_run sample_messages sample_summary KeepWindow
    f64_one default_settings out E) as (context & tail & _ & _ & _ & _ & _ & H).
  - apply (bool_decide_unpack _). vm_compute. exact I.
  - apply (bool_decide_unpack _). vm_compute. exact I.
  - apply (bool_decide_unpack _). vm_compute. exact I.
  - exact H.
Defined.
