(* ===== verification/Summary.v ===== *)
(** * Summary: the text of the summary slot

    The rest of server/src/run/compaction.rs: what a summary slot carries from one
    compaction to the next, how it is made to fit, the digest that replaces a
    summary that failed, and the anchors appended to it. *)

From stdpp Require Import prelude gmap strings list.
From S2P Require Import Prelude Errors External Message Tokens Replay Float Budget Trim Compaction.
Local Open Scope Z_scope.

Section Summary.
Context {SJ : SerdeJson}.

(** [str::strip_prefix] and [str::strip_suffix]. *)
Definition strip_prefix (p s : str) : str := if starts_with p s then drop (length p) s else s.
Definition strip_suffix (p s : str) : str :=
  if starts_with (reverse p) (reverse s) then take (length s - length p) s else s.

Definition part_text (p : ContentPart) : str :=
  match p with PText t => t | PImage _ _ => [] end.

(** server/src/run/compaction.rs:904-926, [summary_text]. *)
Definition summary_text (m : CanonicalMessage) : option str :=
  match content m with
  | CParts parts =>
      let text := trim (concat (part_text <$> parts)) in
      let text := strip_prefix (lit "<conversation_summary>") text in
      let text := strip_suffix (lit "</conversation_summary>") text in
      let text := trim text in
      if bool_decide (text = []) then None else Some text
  | _ => None
  end.

(** server/src/run/compaction.rs:929-934, [latest_summary_message]. *)
Definition latest_summary_message (messages : list CanonicalMessage) : option CanonicalMessage :=
  snd <$> list_find (λ m, is_superseded_summary m = true) (reverse messages).

(** server/src/run/compaction.rs:60-75, [SUMMARY_DETAIL_MIN_MESSAGES]. *)
Definition SUMMARY_DETAIL_MIN_MESSAGES : Z := 40.
Definition SUMMARY_DETAIL_MIN_TOKENS : Z := 16000.
Definition SUMMARY_DETAIL_CHARS_PER_MESSAGE : Z := 6.
Definition SUMMARY_DETAIL_HISTORY_TOKENS_PER_CHAR : Z := 10.
Definition SUMMARY_DETAIL_FLOOR_CHARS : Z := 1200.
Definition SUMMARY_DETAIL_CEILING_CHARS : Z := 12000.

(** [Ord::clamp] *)
Definition clamp (x lo hi : Z) : Z := if x <? lo then lo else if hi <? x then hi else x.

(** [project_messages(..).map(estimate).unwrap_or_default()] *)
Definition tokens_or_zero (messages : list CanonicalMessage) : Z :=
  match projected_tokens messages with Ok t => t | Err _ => 0 end.

(** server/src/run/compaction.rs:942-962, [minimum_summary_chars]. *)
Definition minimum_summary_chars (compactable : list CanonicalMessage) : Z :=
  let estimated_tokens := tokens_or_zero compactable in
  if (zlen compactable <? SUMMARY_DETAIL_MIN_MESSAGES) && (estimated_tokens <? SUMMARY_DETAIL_MIN_TOKENS)
  then 0
  else
    let by_message_count := clamp (sat_mul (zlen compactable) SUMMARY_DETAIL_CHARS_PER_MESSAGE)
                              SUMMARY_DETAIL_FLOOR_CHARS SUMMARY_DETAIL_CEILING_CHARS in
    let by_history_size := clamp (estimated_tokens / SUMMARY_DETAIL_HISTORY_TOKENS_PER_CHAR)
                             SUMMARY_DETAIL_FLOOR_CHARS SUMMARY_DETAIL_CEILING_CHARS in
    clamp (Z.max by_message_count by_history_size) SUMMARY_DETAIL_FLOOR_CHARS SUMMARY_DETAIL_CEILING_CHARS.

(** server/src/run/compaction.rs:964-966, [summary_needs_expansion]. *)
Definition summary_needs_expansion (summary : str) (minimum_chars : Z) : bool :=
  (0 <? minimum_chars) && (zlen (trim summary) <? minimum_chars).

(** ** The carried summary *)

Definition nl : str := [10].

(** server/src/run/compaction.rs:91-96, [EARLIER_COMPACTED_HEADING]. *)
Definition EARLIER_COMPACTED_HEADING : str := lit "## Earlier Compacted Context (Historical)".
Definition EARLIER_COMPACTED_NOTICE : str :=
  lit "Status, Next Action, and In Flight entries in this section may be obsolete.".
Definition CURRENT_COMPACTED_HEADING : str := lit "## Current Compacted Context (Authoritative)".
Definition CURRENT_COMPACTED_NOTICE : str :=
  lit "This newest section supersedes earlier status and next-action entries.".

(** server/src/run/compaction.rs:80-80, [CARRIED_SUMMARY_LIMIT_CHARS]. *)
Definition CARRIED_SUMMARY_LIMIT_CHARS : Z := 64000.

(** server/src/run/compaction.rs:1072-1074, [bound_carried_summary]: the notice. *)
Definition carried_notice (omitted : Z) : str :=
  lit "[Earlier handover text omitted from the active slot after the "
  ++ decimal CARRIED_SUMMARY_LIMIT_CHARS
  ++ lit "-character limit; recover older detail from the Archived History paths below. Omitted characters: "
  ++ decimal omitted ++ lit ".]" ++ nl ++ nl.

(** server/src/run/compaction.rs:1066-1078, [bound_carried_summary]. *)
Definition bound_carried_summary (summary : str) : str :=
  let total := zlen summary in
  if total <=? CARRIED_SUMMARY_LIMIT_CHARS then summary
  else
    let notice := carried_notice (sat_sub total CARRIED_SUMMARY_LIMIT_CHARS) in
    let keep := sat_sub CARRIED_SUMMARY_LIMIT_CHARS (zlen notice) in
    notice ++ drop (Z.to_nat (sat_sub total keep)) summary.

(** server/src/run/compaction.rs:997-1000, [carry_forward_summary]: both sections. *)
Definition carried (previous current : str) : str :=
  EARLIER_COMPACTED_HEADING ++ nl ++ EARLIER_COMPACTED_NOTICE ++ nl ++ previous ++ nl ++ nl
  ++ CURRENT_COMPACTED_HEADING ++ nl ++ CURRENT_COMPACTED_NOTICE ++ nl ++ current.

(** server/src/run/compaction.rs:986-1001, [carry_forward_summary]. *)
Definition carry_forward_summary (previous : option str) (current : str) : str :=
  let current := trim current in
  match trim <$> previous with
  | None | Some [] => current
  | Some previous =>
      if bool_decide (previous = current) then current
      else bound_carried_summary (carried previous current)
  end.

Lemma zlen_trim_start s : zlen (trim_start s) ≤ zlen s.
Proof.
  induction s as [|c s IH]; [done|]. cbn. case_match; [|done]. rewrite zlen_cons. lia.
Qed.
Lemma zlen_reverse {A} (l : list A) : zlen (reverse l) = zlen l.
Proof. unfold zlen. by rewrite length_reverse. Qed.
Lemma zlen_trim s : zlen (trim s) ≤ zlen s.
Proof.
  unfold trim. rewrite zlen_reverse. etrans; [apply zlen_trim_start|].
  rewrite zlen_reverse. apply zlen_trim_start.
Qed.

(** A suffix survives dropping what is before it. *)
Lemma suffix_drop {A} (k l : list A) n : k `suffix_of` l → (length k + n ≤ length l)%nat →
  k `suffix_of` drop n l.
Proof.
  intros [j ->] Hn. rewrite length_app in Hn. exists (drop n j). rewrite drop_app_le by lia. done.
Qed.

Lemma carried_notice_length omitted : 0 ≤ omitted ≤ I64_MAX → zlen (carried_notice omitted) ≤ 200.
Proof.
  intros Ho. unfold carried_notice. rewrite !zlen_app.
  pose proof (decimal_mono omitted I64_MAX Ho) as Hd. change (zlen (decimal I64_MAX)) with 19 in Hd.
  change (zlen (decimal CARRIED_SUMMARY_LIMIT_CHARS)) with 5. change (zlen nl) with 1.
  change (zlen (lit "[Earlier handover text omitted from the active slot after the ")) with 62.
  change (zlen (lit "-character limit; recover older detail from the Archived History paths below. Omitted characters: "))
    with 98.
  change (zlen (lit ".]")) with 2. lia.
Qed.

Lemma zlen_drop {A} (l : list A) n : 0 ≤ n ≤ zlen l → zlen (drop (Z.to_nat n) l) = zlen l - n.
Proof. intros H. unfold zlen in *. rewrite length_drop. lia. Qed.

(** the summary slot never grows beyond its limit however often a conversation is
    compacted, and the newest section is carried verbatim at its end, after the whole
    previous one as long as both fit. *)
Theorem carried_summary_bounded previous current :
  zlen current ≤ 60000 → zlen previous ≤ I64_MAX - 70000 →
  zlen (carry_forward_summary (Some previous) current) ≤ CARRIED_SUMMARY_LIMIT_CHARS ∧
  trim current `suffix_of` carry_forward_summary (Some previous) current ∧
  (zlen (carried (trim previous) (trim current)) ≤ CARRIED_SUMMARY_LIMIT_CHARS →
   trim previous ≠ [] → trim previous ≠ trim current →
   carry_forward_summary (Some previous) current = carried (trim previous) (trim current)).
Proof.
  intros Hc Hp. pose proof (zlen_trim current) as Htc. pose proof (zlen_trim previous) as Htp.
  unfold carry_forward_summary. cbn [fmap option_fmap option_map].
  destruct (trim previous) as [|c t] eqn:Et; [split; [unfold CARRIED_SUMMARY_LIMIT_CHARS; lia|done]|].
  rewrite <- Et in *. clear Et. case_bool_decide as He.
  { split; [unfold CARRIED_SUMMARY_LIMIT_CHARS; lia|]. done. }
  set (all := carried (trim previous) (trim current)).
  assert (zlen all = 236 + zlen (trim previous) + zlen (trim current)) as Hall.
  { subst all. unfold carried. rewrite !zlen_app. change (zlen nl) with 1.
    change (zlen EARLIER_COMPACTED_HEADING) with 41. change (zlen EARLIER_COMPACTED_NOTICE) with 75.
    change (zlen CURRENT_COMPACTED_HEADING) with 44. change (zlen CURRENT_COMPACTED_NOTICE) with 70. lia. }
  assert (trim current `suffix_of` all) as Hsuf.
  { subst all. unfold carried. rewrite !app_assoc. by eexists. }
  unfold bound_carried_summary. destruct (Z.leb_spec (zlen all) CARRIED_SUMMARY_LIMIT_CHARS) as [Hl|Hl];
    [done|].
  set (omitted := sat_sub (zlen all) CARRIED_SUMMARY_LIMIT_CHARS).
  assert (0 ≤ omitted ≤ I64_MAX) as Ho by (subst omitted; unfold sat_sub, CARRIED_SUMMARY_LIMIT_CHARS, I64_MAX in *; lia).
  pose proof (carried_notice_length omitted Ho) as Hn. pose proof (zlen_nonneg (carried_notice omitted)).
  set (keep := sat_sub CARRIED_SUMMARY_LIMIT_CHARS (zlen (carried_notice omitted))).
  assert (keep = CARRIED_SUMMARY_LIMIT_CHARS - zlen (carried_notice omitted)) as Hk
    by (subst keep; unfold sat_sub, CARRIED_SUMMARY_LIMIT_CHARS; lia).
  assert (sat_sub (zlen all) keep = zlen all - keep) as Hd
    by (unfold sat_sub, CARRIED_SUMMARY_LIMIT_CHARS in *; lia).
  rewrite Hd. split; [|split].
  - rewrite zlen_app, zlen_drop by (unfold CARRIED_SUMMARY_LIMIT_CHARS in *; lia). lia.
  - apply suffix_app_r, suffix_drop; [done|]. unfold CARRIED_SUMMARY_LIMIT_CHARS, zlen in *. lia.
  - intros Hfit. lia.
Qed.

(** ** Fitting the slot *)

(** server/src/run/compaction.rs:85-85, [SUMMARY_SLOT_SHARE_PERCENT]. *)
Definition SUMMARY_SLOT_SHARE_PERCENT : Z := 33.
(** server/src/run/compaction.rs:89-89, [SUMMARY_SLOT_MAX_TOKENS]. *)
Definition SUMMARY_SLOT_MAX_TOKENS : Z := 16000.

(** server/src/run/compaction.rs:1009-1023, [summary_slot_token_budget]: the product
    is a [u64]. *)
Definition summary_slot_token_budget (p : PreparedRun) (calibration : f64)
    (settings : CompactionSettings) : Z :=
  match input_budget p settings with
  | None => SUMMARY_SLOT_MAX_TOKENS
  | Some input_budget =>
      let initial := tokens_or_zero (initial_messages p) in
      let fixed := sat_add (estimate_context_tokens (prompt p) []) initial in
      let available := sat_sub (calibrate_budget input_budget calibration) fixed in
      Z.min (u64 (available * SUMMARY_SLOT_SHARE_PERCENT) / 100) SUMMARY_SLOT_MAX_TOKENS
  end.

(** server/src/run/compaction.rs:1049-1054, [summary_slot_tokens]. *)
Definition summary_slot_tokens (summary : str) : Z :=
  match projected_tokens [summary_message (lit "summary:budget") summary] with
  | Ok t => t
  | Err _ => U64_MAX
  end.

(** server/src/run/compaction.rs:1056-1064, [bounded_summary_tail]. *)
Definition bounded_summary_tail (summary : str) (keep : Z) : str :=
  let omitted := sat_sub (zlen summary) keep in
  lit "[Earlier handover text omitted to fit the active context window; recover older detail from the Archived History paths below. Omitted characters: "
  ++ decimal omitted ++ lit ".]" ++ nl ++ nl ++ drop (Z.to_nat omitted) summary.

(** server/src/run/compaction.rs:1037-1045, [fit_summary_slot_to_tokens]: one turn of
    the search for the longest tail that fits. *)
Definition fit_body (summary : str) (max_tokens : Z) (s : Z * Z) : flow (Z * Z) Z :=
  let '(low, high) := s in
  if low <? high then
    let keep := div_ceil (low + high) 2 in
    if summary_slot_tokens (bounded_summary_tail summary keep) <=? max_tokens
    then Next (keep, high) else Next (low, keep - 1)
  else Done low.

Lemma div_ceil_mid low high : low < high →
  low < div_ceil (low + high) 2 ≤ high.
Proof.
  intros H. unfold div_ceil. split.
  - assert (low + 1 ≤ (low + high + 2 - 1) / 2) by (apply Z.div_le_lower_bound; lia). lia.
  - apply Z.div_le_upper_bound; lia.
Qed.

Lemma fit_body_decreases summary max_tokens :
  decreases (fit_body summary max_tokens) (λ s, Z.to_nat (snd s - fst s)).
Proof.
  intros [low high] s'. unfold fit_body. destruct (Z.ltb_spec low high) as [Hlt|]; [|done].
  pose proof (div_ceil_mid low high Hlt). case_match; intros [= <-]; cbn; lia.
Qed.

(** server/src/run/compaction.rs:1030-1047, [fit_summary_slot_to_tokens]. *)
Definition fit_summary_slot_to_tokens (summary : str) (max_tokens : Z) : str :=
  if bool_decide (trim summary = []) || (summary_slot_tokens summary <=? max_tokens) then summary
  else
    let low := run (fit_body summary max_tokens) (fit_body_decreases summary max_tokens) (0, zlen summary) in
    bounded_summary_tail summary low.

(** the search for a summary that fits always ends; what it returns fits the slot
    unless not even an empty tail behind the notice was accepted, and it always ends
    with a suffix of the summary, the whole of it when it fits. *)
Theorem fit_summary_slot summary max_tokens :
  let fitted := fit_summary_slot_to_tokens summary max_tokens in
  (fitted = summary ∨ ∃ keep, 0 ≤ keep ≤ zlen summary ∧ fitted = bounded_summary_tail summary keep ∧
     (keep = 0 ∨ summary_slot_tokens fitted ≤ max_tokens)) ∧
  (summary_slot_tokens summary ≤ max_tokens → fitted = summary) ∧
  (∃ tail, tail `suffix_of` summary ∧ tail `suffix_of` fitted ∧
     (fitted = summary ∨ summary_slot_tokens fitted ≤ max_tokens ∨ tail = [])).
Proof.
  cbn zeta. unfold fit_summary_slot_to_tokens.
  destruct (bool_decide _ || _) eqn:E; [split; [by left|]; split; [done|]; by exists summary; auto|].
  apply orb_false_iff in E as [_ E]. apply Z.leb_gt in E.
  assert (∃ keep, run (fit_body summary max_tokens) (fit_body_decreases summary max_tokens) (0, zlen summary) = keep ∧
    0 ≤ keep ≤ zlen summary ∧
    (keep = 0 ∨ summary_slot_tokens (bounded_summary_tail summary keep) ≤ max_tokens)) as (keep & -> & Hk & Hfit).
  { eexists. split; [done|].
    apply (run_invariant _ _ (fit_body_decreases summary max_tokens)
      (λ s, 0 ≤ fst s ≤ snd s ∧ snd s ≤ zlen summary ∧
        (fst s = 0 ∨ summary_slot_tokens (bounded_summary_tail summary (fst s)) ≤ max_tokens))
      (λ _ keep, 0 ≤ keep ≤ zlen summary ∧
        (keep = 0 ∨ summary_slot_tokens (bounded_summary_tail summary keep) ≤ max_tokens))).
    - intros [low high] r (H1 & H2 & H3). unfold fit_body. destruct (low <? high) eqn:Hlt; [by case_match|].
      intros [= <-]. cbn in *. split; [lia|done].
    - intros [low high] s' (H1 & H2 & H3). unfold fit_body.
      destruct (Z.ltb_spec low high) as [Hlt|]; [|done]. pose proof (div_ceil_mid low high Hlt).
      cbn [fst snd] in *. destruct (Z.leb_spec (summary_slot_tokens (bounded_summary_tail summary (div_ceil (low + high) 2))) max_tokens);
        intros [= <-]; cbn [fst snd]; (split; [|done]).
      + split; [lia|]. split; [lia|]. by right.
      + split; [lia|]. split; [lia|done].
    - cbn [fst snd]. pose proof (zlen_nonneg summary). split; [lia|]. split; [lia|by left]. }
  split; [right; by exists keep|]. split; [lia|].
  exists (drop (Z.to_nat (sat_sub (zlen summary) keep)) summary).
  split; [by eexists (take _ _); rewrite take_drop|].
  split; [unfold bounded_summary_tail; rewrite !app_assoc; by eexists|].
  right. destruct Hfit as [->|]; [right|by left]. apply drop_ge. unfold sat_sub, zlen. lia.
Qed.

(** ** The digest *)

(** server/src/run/compaction.rs:1281-1294, [message_text]. *)
Definition message_text (m : CanonicalMessage) : str :=
  match content m with
  | CParts parts =>
      let texts := omap (λ p, match p with PText t => Some t | PImage _ _ => None end) parts in
      match texts with
      | [] => []
      | t :: ts => foldl (λ acc t, acc ++ nl ++ t) t ts
      end
  | CAssistant text _ _ _ _ => text
  | CToolResult r => r_content r
  end.

(** server/src/run/compaction.rs:1299-1314, [truncate_chars_middle]. *)
Definition truncate_chars_middle (text : str) (limit : Z) : str :=
  if zlen text <=? limit then text
  else
    let head := take (Z.to_nat (limit * 2 / 3)) text in
    let tail_count := sat_sub limit (zlen head + 1) in
    let tail := reverse (take (Z.to_nat tail_count) (reverse text)) in
    head ++ [0x2026] ++ tail.

(** server/src/run/compaction.rs:1138-1144, [digest_of_with_limits]: the words, one
    space apart. *)
Definition collapse (text : str) : str :=
  match split_whitespace text with
  | [] => []
  | w :: ws => foldl (λ acc w, acc ++ [32] ++ w) w ws
  end.

(** server/src/run/compaction.rs:1126-1130, [digest_of_with_limits]: the label. *)
Definition digest_label (m : CanonicalMessage) : option str :=
  match role m with
  | RUser => if bool_decide (origin m = OPrompt) then None else Some (lit "User")
  | RAssistant => Some (lit "Assistant")
  | _ => None
  end.

(** server/src/run/compaction.rs:1121-1151, [digest_of_with_limits]: the messages from
    the newest one. *)
Fixpoint digest_walk (messages : list CanonicalMessage) (max_entries max_chars : Z) (digest : list str)
    : list str :=
  match messages with
  | [] => digest
  | m :: rest =>
      if is_superseded_summary m then digest_walk rest max_entries max_chars digest
      else
        match digest_label m with
        | None => digest_walk rest max_entries max_chars digest
        | Some label =>
            if max_entries <=? zlen digest then digest
            else
              match collapse (message_text m) with
              | [] => digest_walk rest max_entries max_chars digest
              | collapsed =>
                  digest_walk rest max_entries max_chars
                    (digest ++ [lit "- " ++ label ++ lit ": " ++ truncate_chars_middle collapsed max_chars])
              end
        end
  end.

(** server/src/run/compaction.rs:1115-1156, [digest_of_with_limits]. *)
Definition digest_of_with_limits (compactable : list CanonicalMessage) (max_entries max_chars : Z)
    : option str :=
  match reverse (digest_walk (reverse compactable) max_entries max_chars []) with
  | [] => None
  | l :: ls => Some (foldl (λ acc l, acc ++ nl ++ l) l ls)
  end.

(** server/src/run/compaction.rs:1111-1113, [digest_of]. *)
Definition digest_of (compactable : list CanonicalMessage) : option str :=
  digest_of_with_limits compactable 3 400.

(** server/src/run/compaction.rs:129-129, [FALLBACK_SUMMARY]. *)
Definition FALLBACK_SUMMARY : str :=
  lit "This conversation was compacted because the context window was full, and the summary call failed. Older history was dropped; the turns below are kept verbatim. Continue the current task from this state.".

(** server/src/run/compaction.rs:1100-1107, [fallback_summary]. *)
Definition fallback_summary (compactable : list CanonicalMessage) : str :=
  match digest_of compactable with
  | Some digest =>
      FALLBACK_SUMMARY ++ nl ++ nl ++ lit "Deterministic digest of the dropped history:" ++ nl ++ digest
  | None => FALLBACK_SUMMARY
  end.

(** server/src/run/compaction.rs:1083-1091, [short_summary_addendum]. *)
Definition short_summary_addendum (summary : str) (compactable : list CanonicalMessage) : str :=
  match digest_of_with_limits compactable 12 800 with
  | Some digest =>
      trim summary ++ nl ++ nl ++ lit "## Recent Exact Entries" ++ nl
      ++ lit "- These exact entries are retained in addition to the handover:" ++ nl ++ digest
  | None => summary
  end.

Lemma truncate_chars_middle_length text limit : 1 ≤ limit →
  zlen (truncate_chars_middle text limit) ≤ limit.
Proof.
  intros Hl. unfold truncate_chars_middle. destruct (Z.leb_spec (zlen text) limit) as [|Hlong]; [done|].
  assert (0 ≤ limit * 2 / 3 < limit) as Hh
    by (split; [apply Z.div_pos; lia|apply Z.div_lt_upper_bound; lia]).
  assert (zlen (take (Z.to_nat (limit * 2 / 3)) text) = limit * 2 / 3) as Ht
    by (unfold zlen in *; rewrite length_take; lia).
  rewrite !zlen_app, Ht, zlen_reverse. change (zlen [0x2026]) with 1.
  unfold sat_sub. unfold zlen at 1. rewrite length_take. lia.
Qed.

(** the digest of a dropped history is bounded: at most [max_entries] lines, each
    one a labelled text of at most [max_chars] characters. *)
Theorem digest_bounded messages max_entries max_chars :
  0 ≤ max_entries → 1 ≤ max_chars →
  let digest := digest_walk messages max_entries max_chars [] in
  zlen digest ≤ max_entries ∧ Forall (λ line, zlen line ≤ 13 + max_chars) digest.
Proof.
  intros He Hc. cbn zeta.
  enough (∀ digest, zlen digest ≤ max_entries → Forall (λ line, zlen line ≤ 13 + max_chars) digest →
    zlen (digest_walk messages max_entries max_chars digest) ≤ max_entries ∧
    Forall (λ line, zlen line ≤ 13 + max_chars) (digest_walk messages max_entries max_chars digest)) as H
    by (apply H; [done|constructor]).
  induction messages as [|m rest IH]; intros digest Hd Hf; cbn [digest_walk]; [done|].
  destruct (is_superseded_summary m); [auto|].
  destruct (digest_label m) as [label|] eqn:El; [|auto].
  destruct (Z.leb_spec max_entries (zlen digest)); [done|].
  destruct (collapse (message_text m)) as [|c t] eqn:Ec; [auto|]. apply IH.
  - rewrite zlen_app. change (zlen [_]) with 1. lia.
  - apply Forall_app. split; [done|]. constructor; [|constructor].
    pose proof (truncate_chars_middle_length (c :: t) max_chars Hc).
    assert (zlen label ≤ 9).
    { unfold digest_label in El. destruct (role m); try done; [case_bool_decide; [done|]|];
        injection El as <-; by vm_compute. }
    rewrite !zlen_app. change (zlen (lit "- ")) with 2. change (zlen (lit ": ")) with 2. lia.
Qed.

(** ** Anchors *)

(** server/src/run/compaction.rs:57-57, [MAX_ANCHOR_FILES]. *)
Definition MAX_ANCHOR_FILES : nat := 12.

(** server/src/run/compaction.rs:1258-1279, [is_file_tool]. *)
Definition is_file_tool (name : str) : bool :=
  one_of (to_ascii_lower <$> filter (λ c, is_ascii_alnum c = true) name)
    ["read"; "readfile"; "edit"; "write"; "strreplace"; "patchedit"; "patcheditlines";
     "patcheditspan"; "editnotebook"; "applypatch"; "multiedit"; "createfile"]%string.

(** server/src/run/compaction.rs:1237-1256, [anchor_path]. *)
Definition anchor_path (name : str) (arguments : json) : option str :=
  if negb (is_file_tool name) then None
  else
    foldr (λ key later,
      match get_member key arguments ≫= as_str with
      | Some (c :: value) => Some (c :: value)
      | _ => later
      end) None
      ["path"; "file_path"; "target_file"; "absolute_path"; "filename"; "file"]%string.

(** server/src/run/compaction.rs:1217-1228, [context_anchor_paths]: the calls of one
    message, the last one first. *)
Fixpoint anchor_calls (calls : list ToolCallContent) (files : list str) : list str :=
  match calls with
  | [] => files
  | call :: rest =>
      match anchor_path (c_name call) (c_arguments call) with
      | None => anchor_calls rest files
      | Some path =>
          if bool_decide (path ∈ files) then anchor_calls rest files
          else
            let files := files ++ [path] in
            if (MAX_ANCHOR_FILES <=? length files)%nat then files else anchor_calls rest files
      end
  end.

(** server/src/run/compaction.rs:1213-1232, [context_anchor_paths]: the messages, the
    newest one first. *)
Fixpoint anchor_walk (messages : list CanonicalMessage) (files : list str) : list str :=
  match messages with
  | [] => files
  | m :: rest =>
      match content m with
      | CAssistant _ _ _ _ calls =>
          let files := anchor_calls (reverse calls) files in
          if (MAX_ANCHOR_FILES <=? length files)%nat then files else anchor_walk rest files
      | _ => anchor_walk rest files
      end
  end.

(** server/src/run/compaction.rs:1211-1235, [context_anchor_paths]. *)
Definition context_anchor_paths (messages : list CanonicalMessage) : list str :=
  reverse (anchor_walk (reverse messages) []).

Definition comma_join (l : list str) : str :=
  match l with [] => [] | x :: xs => foldl (λ acc x, acc ++ lit ", " ++ x) x xs end.

(** server/src/run/compaction.rs:1165-1184, [with_context_anchors]. *)
Definition with_context_anchors (summary : str) (messages : list CanonicalMessage) : str :=
  let additions := filter (λ path, str_contains path summary = false) (context_anchor_paths messages) in
  match additions with
  | [] => summary
  | _ =>
      let files := comma_join additions in
      if str_contains (lit "## Context Anchors") summary then
        summary ++ nl
        ++ lit "- Additional recently referenced files (re-read them if the handover is not enough): " ++ files
      else
        summary ++ nl ++ nl ++ lit "## Context Anchors" ++ nl
        ++ lit "- Recently referenced files (re-read them if the handover is not enough): " ++ files
  end.

(** server/src/run/compaction.rs:1193-1209, [with_archive_anchor]. *)
Definition with_archive_anchor (summary : str) (archive : option str) : str :=
  match archive with
  | None => summary
  | Some path =>
      let note := lit " (use Shell grep/read to recover details the summary omitted)" in
      if str_contains (lit "## Archived History") summary then
        if str_contains path summary then summary
        else summary ++ nl ++ lit "- Additional archived span: " ++ path ++ note
      else
        summary ++ nl ++ nl ++ lit "## Archived History" ++ nl
        ++ lit "- Full pre-compaction messages: " ++ path ++ note
  end.

Lemma anchor_calls_inv calls files : NoDup files → (length files < MAX_ANCHOR_FILES)%nat →
  NoDup (anchor_calls calls files) ∧ (length (anchor_calls calls files) ≤ MAX_ANCHOR_FILES)%nat.
Proof.
  revert files. induction calls as [|c calls IH]; intros files Hn Hl; cbn [anchor_calls]; [split; [done|lia]|].
  destruct (anchor_path _ _) as [path|]; [|auto]. case_bool_decide as Hin; [auto|].
  assert (NoDup (files ++ [path])) as Hn'.
  { apply NoDup_app. split; [done|]. split; [|apply NoDup_singleton].
    intros x Hx ->%list_elem_of_singleton. done. }
  destruct (Nat.leb_spec MAX_ANCHOR_FILES (length (files ++ [path]))) as [|Hlt]; [|by apply IH].
  split; [done|]. rewrite length_app. cbn [length]. lia.
Qed.

Lemma context_anchor_paths_bounded messages :
  NoDup (context_anchor_paths messages) ∧
  (length (context_anchor_paths messages) ≤ MAX_ANCHOR_FILES)%nat.
Proof.
  unfold context_anchor_paths. rewrite length_reverse.
  assert (∀ ms files, NoDup files → (length files < MAX_ANCHOR_FILES)%nat →
    NoDup (anchor_walk ms files) ∧ (length (anchor_walk ms files) ≤ MAX_ANCHOR_FILES)%nat) as Hw.
  { induction ms as [|m ms IH]; intros files Hn Hl; cbn [anchor_walk]; [split; [done|lia]|].
    destruct (content m) as [|text thinking round replay calls|]; [auto| |auto].
    pose proof (anchor_calls_inv (reverse calls) files Hn Hl) as [Hn' Hl'].
    destruct (Nat.leb_spec MAX_ANCHOR_FILES (length (anchor_calls (reverse calls) files))); [done|auto]. }
  destruct (Hw (reverse messages) []) as [Hn Hl]; [constructor|unfold MAX_ANCHOR_FILES; cbn; lia|].
  split; [|done]. by rewrite (reverse_Permutation (anchor_walk (reverse messages) [])).
Qed.

(** Naming the archive puts its path and the heading in the slot, in front of nothing
    that was there. *)
Lemma with_archive_anchor_contains summary path :
  let anchored := with_archive_anchor summary (Some path) in
  str_contains path anchored = true ∧ str_contains (lit "## Archived History") anchored = true ∧
  summary `prefix_of` anchored.
Proof.
  cbn zeta. unfold with_archive_anchor.
  set (note := lit " (use Shell grep/read to recover details the summary omitted)").
  destruct (str_contains (lit "## Archived History") summary) eqn:Eh;
    [destruct (str_contains path summary) eqn:Ep|].
  - done.
  - split; [|split; [|by apply prefix_app_r]].
    + replace (summary ++ nl ++ lit "- Additional archived span: " ++ path ++ note)
        with ((summary ++ nl ++ lit "- Additional archived span: ") ++ path ++ note)
        by (by rewrite <- !app_assoc). apply str_contains_app.
    + by apply str_contains_mono.
  - split; [|split; [|by apply prefix_app_r]].
    + replace (summary ++ nl ++ nl ++ lit "## Archived History" ++ nl
               ++ lit "- Full pre-compaction messages: " ++ path ++ note)
        with ((summary ++ nl ++ nl ++ lit "## Archived History" ++ nl
               ++ lit "- Full pre-compaction messages: ") ++ path ++ note)
        by (by rewrite <- !app_assoc). apply str_contains_app.
    + replace (summary ++ nl ++ nl ++ lit "## Archived History" ++ nl
               ++ lit "- Full pre-compaction messages: " ++ path ++ note)
        with ((summary ++ nl ++ nl) ++ lit "## Archived History" ++ (nl
               ++ lit "- Full pre-compaction messages: " ++ path ++ note))
        by (by rewrite <- !app_assoc). apply str_contains_app.
Qed.

(** the file anchors of a summary are at most twelve different paths, and naming
    the archive is idempotent: a path is never listed twice, and nothing of the
    summary is touched. *)
Theorem anchors_bounded messages summary path :
  NoDup (context_anchor_paths messages) ∧
  (length (context_anchor_paths messages) ≤ MAX_ANCHOR_FILES)%nat ∧
  let anchored := with_archive_anchor summary (Some path) in
  str_contains path anchored = true ∧ with_archive_anchor anchored (Some path) = anchored ∧
  summary `prefix_of` anchored.
Proof.
  destruct (context_anchor_paths_bounded messages) as [Hn Hl].
  destruct (with_archive_anchor_contains summary path) as (Hp & Hh & Hs).
  split; [done|]. split; [done|]. cbn zeta. split; [done|]. split; [|done].
  unfold with_archive_anchor at 1. by rewrite Hh, Hp.
Qed.
End Summary.

(** ** Witnesses *)

Lemma carried_summary_bounded_witness :
  zlen (carry_forward_summary (Some (lit "old")) (lit "new")) ≤ CARRIED_SUMMARY_LIMIT_CHARS.
Proof.
  refine (proj1 (carried_summary_bounded (lit "old") (lit "new") _ _)); vm_compute; discriminate.
Defined.

Lemma digest_bounded_witness :
  zlen (digest_walk (reverse sample_messages) 3 400 []) ≤ 3.
Proof.
  refine (proj1 (digest_bounded (reverse sample_messages) 3 400 _ _)); vm_compute; discriminate.
Defined.
