(* ===== verification/ModelCycle.v ===== *)
(** * ModelCycle: one streaming call of the model

    server/src/run/model_cycle.rs, server/src/run/model_retry.rs,
    server/src/provider/event.rs and the event type of server/src/run/event.rs.

    [consume_model_cycle] is a loop over what [select!] yields: an item of the
    provider's stream, its end, or the cancellation.  Every turn is [cycle_turn];
    the state of the loop is [Cycle] and the channel to the client is [Channel],
    whose receiver takes some number of events before it goes away. *)

From stdpp Require Import prelude gmap strings list sorting.
From S2P Require Import Prelude Errors External Message Budget.
Local Open Scope Z_scope.

(** server/src/provider/event.rs:5-9, [FinishReason]. *)
Inductive FinishReason : Type := FinishStop | FinishLength | FinishToolUse.

Global Instance FinishReason_eq_dec : EqDecision FinishReason.
Proof. solve_decision. Defined.

(** server/src/provider/event.rs:12-46, [ModelEvent]. *)
Inductive ModelEvent : Type :=
  | MStart (model_call_id : str)
  | MTextStart
  | MTextDelta (delta : str)
  | MTextEnd
  | MThinkingStart
  | MThinkingDelta (delta : str)
  | MThinkingSignature (signature : str)
  | MThinkingEnd
  | MToolCallStart (index : Z) (call_id name : str)
  | MToolCallArgumentsDelta (index : Z) (delta : str)
  | MToolCallEnd (index : Z)
  | MReplayState (state : ProviderReplayState)
  | MUsage (usage : Usage)
  | MStopSequence (sequence : str)
  | MDone (reason : FinishReason).

(** server/src/provider/event.rs:51-62, [is_valid_response_event]. *)
Definition is_valid_response_event (event : ModelEvent) : bool :=
  match event with
  | MTextDelta _ | MThinkingStart | MThinkingDelta _ | MThinkingEnd
  | MToolCallStart _ _ _ | MToolCallArgumentsDelta _ _ | MToolCallEnd _ => true
  | _ => false
  end.

(** server/src/run/event.rs:72-87, [CommitCause]. *)
Inductive CommitCause : Type :=
  | InitialMessages
  | ToolRoundStarted (round_id : str)
  | ToolResultCommitted (call_id : str) (interrupted : bool)
  | FinalTurn
  | CompactionCommitted (summary summary_message_id : str)
  | RuntimeEventCommitted (event_id : str).

(** server/src/run/event.rs:121-160, [RunEvent].  The barrier of a commit is
    whether it has one. *)
Inductive RunEvent : Type :=
  | AutoCompactionStarted
  | AutoCompactionCompleted
  | CycleInterrupted
  | Heartbeat
  | ModelAttemptFailed (attempt : Z) (message : str)
  | RTextStart
  | RTextDelta (delta : str)
  | RTextEnd
  | RThinkingStart
  | RThinkingDelta (delta : str)
  | RThinkingEnd (duration : Z)
  | RToolCallStart (index : Z) (call_id name model_call_id : str)
  | RToolCallArgumentsDelta (index : Z) (delta : str)
  | RToolCallEnd (index : Z)
  | UsageSnapshot (usage : Usage)
  | RUsage (usage : Usage)
  | ExecuteToolRound (round_id : str) (calls : list ToolCall)
  | MessagesCommitted (checkpoint_id tool_round_version : Z) (cause : CommitCause) (barrier : bool)
  | Ended (outcome : RunOutcome).

(** ** The channel to the client

    [room] is [None] without a client, and otherwise the number of events the
    receiver takes before it is dropped; [sent] are the events it was sent. *)
Record Channel : Type := MkChannel { room : option nat; sent : list RunEvent }.

(** server/src/run/model_cycle.rs:363-374, [send]. *)
Definition send (client : Channel) (event : RunEvent) : Channel * bool :=
  match room client with
  | None => (client, true)
  | Some O => (client, false)
  | Some (S n) => (MkChannel (Some n) (sent client ++ [event]), true)
  end.

(** server/src/run/model_cycle.rs:376-393, [interrupt_cycle]. *)
Definition interrupt_cycle (client : Channel) (text_open : bool) (thinking_started : option Z)
    (now : Z) : Channel :=
  let client := if text_open then (send client RTextEnd).1 else client in
  match thinking_started with
  | Some started => (send client (RThinkingEnd (Z.max 0 (now - started)))).1
  | None => client
  end.

(** ** Results *)

(** server/src/run/model_cycle.rs:16-24, [ModelCycleResult]. *)
Record ModelCycleResult : Type := MkCycleResult {
  r_model_call_id : str;
  r_text : str;
  r_reasoning : str;
  r_replay_state : option ProviderReplayState;
  r_calls : list ToolCall;
  r_usage : option Usage;
  r_finish_reason : FinishReason
}.

(** server/src/run/model_cycle.rs:27-37, [ModelCycleFailure]. *)
Record ModelCycleFailure : Type := MkCycleFailure {
  f_failure : RunFailure;
  f_partial_text : str;
  f_partial_reasoning : str;
  f_replay_state : option ProviderReplayState;
  f_usage : option Usage;
  f_retryable : bool
}.

(** server/src/run/model_cycle.rs:426-432, the test of [is_rejected_request] on a token. *)
Definition rejected_status (token : str) : bool :=
  bool_decide (str_len token = 3) && starts_with (lit "4") token
  && forallb is_ascii_digit token
  && negb (existsb (λ s, bool_decide (token = lit s)) ["408"; "425"; "429"]%string).

(** server/src/run/model_cycle.rs:425-433, [is_rejected_request]. *)
Definition is_rejected_request (message : str) : bool :=
  let head := match split_once (lit ": ") message with
              | Some (head, _) => head
              | None => message
              end in
  existsb rejected_status (split_whitespace head).

(** server/src/run/model_cycle.rs:401-409, the [retryable] of [failure]. *)
Definition retryable (f : RunFailure) : bool :=
  match f with
  | FProtocol _ => true
  | FProvider message => negb (is_rejected_request message)
  | FTruncated _ | FStore _ | FClient _ => false
  end.

(** server/src/run/model_cycle.rs:395-418, [failure]. *)
Definition failure (f : RunFailure) (partial_text partial_reasoning : str) (usage : option Usage)
    : ModelCycleFailure :=
  MkCycleFailure f partial_text partial_reasoning None usage (retryable f).

(** server/src/run/model_cycle.rs:435-449, [terminal_failure]. *)
Definition terminal_failure (f : RunFailure) (partial_text partial_reasoning : str)
    (usage : option Usage) : ModelCycleFailure :=
  MkCycleFailure f partial_text partial_reasoning None usage false.

(** ** The state of the loop *)

(** server/src/run/model_cycle.rs:39-42, [OpenTool]. *)
Record OpenTool : Type := MkOpenTool { ot_call : ToolCall; ot_ended : bool }.

(** server/src/run/model_cycle.rs:49-58, the locals of [consume_model_cycle]. *)
Record Cycle : Type := MkCycle {
  c_model_call_id : option str;
  c_text : str;
  c_reasoning : str;
  c_text_open : bool;
  c_thinking : option Z;
  c_tools : gmap Z OpenTool;
  c_call_ids : gset str;
  c_replay : option ProviderReplayState;
  c_usage : option Usage;
  c_finish : option FinishReason;
  c_client : Channel
}.

Definition new_cycle (client : option nat) : Cycle :=
  MkCycle None [] [] false None ∅ ∅ None None None (MkChannel client []).

(** Assignments to the locals. *)
Definition set_model_call_id (s : Cycle) (v : str) : Cycle :=
  MkCycle (Some v) (c_text s) (c_reasoning s) (c_text_open s) (c_thinking s) (c_tools s)
    (c_call_ids s) (c_replay s) (c_usage s) (c_finish s) (c_client s).
Definition set_text (s : Cycle) (v : str) : Cycle :=
  MkCycle (c_model_call_id s) v (c_reasoning s) (c_text_open s) (c_thinking s) (c_tools s)
    (c_call_ids s) (c_replay s) (c_usage s) (c_finish s) (c_client s).
Definition set_reasoning (s : Cycle) (v : str) : Cycle :=
  MkCycle (c_model_call_id s) (c_text s) v (c_text_open s) (c_thinking s) (c_tools s)
    (c_call_ids s) (c_replay s) (c_usage s) (c_finish s) (c_client s).
Definition set_text_open (s : Cycle) (v : bool) : Cycle :=
  MkCycle (c_model_call_id s) (c_text s) (c_reasoning s) v (c_thinking s) (c_tools s)
    (c_call_ids s) (c_replay s) (c_usage s) (c_finish s) (c_client s).
Definition set_thinking (s : Cycle) (v : option Z) : Cycle :=
  MkCycle (c_model_call_id s) (c_text s) (c_reasoning s) (c_text_open s) v (c_tools s)
    (c_call_ids s) (c_replay s) (c_usage s) (c_finish s) (c_client s).
Definition set_tools (s : Cycle) (v : gmap Z OpenTool) : Cycle :=
  MkCycle (c_model_call_id s) (c_text s) (c_reasoning s) (c_text_open s) (c_thinking s) v
    (c_call_ids s) (c_replay s) (c_usage s) (c_finish s) (c_client s).
Definition set_call_ids (s : Cycle) (v : gset str) : Cycle :=
  MkCycle (c_model_call_id s) (c_text s) (c_reasoning s) (c_text_open s) (c_thinking s) (c_tools
    s) v (c_replay s) (c_usage s) (c_finish s) (c_client s).
Definition set_replay (s : Cycle) (v : ProviderReplayState) : Cycle :=
  MkCycle (c_model_call_id s) (c_text s) (c_reasoning s) (c_text_open s) (c_thinking s) (c_tools
    s) (c_call_ids s) (Some v) (c_usage s) (c_finish s) (c_client s).
Definition set_usage (s : Cycle) (v : Usage) : Cycle :=
  MkCycle (c_model_call_id s) (c_text s) (c_reasoning s) (c_text_open s) (c_thinking s) (c_tools
    s) (c_call_ids s) (c_replay s) (Some v) (c_finish s) (c_client s).
Definition set_finish (s : Cycle) (v : FinishReason) : Cycle :=
  MkCycle (c_model_call_id s) (c_text s) (c_reasoning s) (c_text_open s) (c_thinking s) (c_tools
    s) (c_call_ids s) (c_replay s) (c_usage s) (Some v) (c_client s).
Definition set_client (s : Cycle) (v : Channel) : Cycle :=
  MkCycle (c_model_call_id s) (c_text s) (c_reasoning s) (c_text_open s) (c_thinking s) (c_tools
    s) (c_call_ids s) (c_replay s) (c_usage s) (c_finish s) v.

(** The [Err] of an arm, which the loop turns into a protocol failure. *)
Definition violation (message : string) : result RunFailure () := Err (FProtocol (lit message)).

(** [send(client, event).await] as the value of an arm. *)
Definition emit_to (s : Cycle) (event : RunEvent) : Cycle * result RunFailure () :=
  let '(client, ok) := send (c_client s) event in
  (set_client s client, if ok then Ok () else violation "client event channel closed").

Section Turns.
Context {SJ : SerdeJson}.

(** server/src/run/model_cycle.rs:232-256, the arguments of a tool call that ends. *)
Definition close_call (call : ToolCall) : ToolCall :=
  let parsed :=
    match trim (arguments_text call) with
    | [] => Ok (JObject [])
    | _ => from_str (arguments_text call)
    end in
  let with_arguments (arguments : json) (error : option str) :=
    MkToolCall (index call) (call_id call) (model_call_id call) (name call) (arguments_text call)
      arguments error in
  match parsed with
  | Ok arguments =>
      if is_object arguments then with_arguments arguments (argument_error call)
      else with_arguments (JObject [])
             (Some (name call ++ lit " arguments must be a JSON object"))
  | Err error =>
      with_arguments (JObject [])
        (Some (name call ++ lit " arguments are not valid JSON: " ++ fe_display error))
  end.

(** server/src/run/model_cycle.rs:177-221, the arm [ToolCallStart]. *)
Definition on_tool_call_start (s : Cycle) (i : Z) (id raw_name : str)
    : Cycle * result RunFailure () :=
  let nm := normalize_tool_name raw_name in
  match c_model_call_id s with
  | None => (s, violation "provider emitted content before Start")
  | Some m =>
      match c_tools s !! i with
      | Some _ => (s, violation "provider reused a tool index")
      | None =>
          if decide (id ∈ c_call_ids s) then (s, violation "provider reused a tool call_id")
          else
            let s := set_call_ids s ({[id]} ∪ c_call_ids s) in
            let call := MkToolCall i id m nm [] JNull None in
            emit_to (set_tools s (<[i := MkOpenTool call false]> (c_tools s)))
              (RToolCallStart i id nm m)
      end
  end.

(** server/src/run/model_cycle.rs:222-229, the arm [ToolCallArgumentsDelta]. *)
Definition on_tool_call_delta (s : Cycle) (i : Z) (delta : str) : Cycle * result RunFailure () :=
  match c_tools s !! i with
  | Some tool =>
      if ot_ended tool then (s, violation "provider emitted tool arguments after ToolCallEnd")
      else
        let c := ot_call tool in
        let call := MkToolCall (index c) (call_id c) (model_call_id c) (name c)
          (arguments_text c ++ delta) (arguments c) (argument_error c) in
        emit_to (set_tools s (<[i := MkOpenTool call false]> (c_tools s)))
          (RToolCallArgumentsDelta i delta)
  | None => (s, violation "provider emitted tool arguments for an unknown index")
  end.

(** server/src/run/model_cycle.rs:230-261, the arm [ToolCallEnd]. *)
Definition on_tool_call_end (s : Cycle) (i : Z) : Cycle * result RunFailure () :=
  match c_tools s !! i with
  | Some tool =>
      if ot_ended tool then (s, violation "provider emitted duplicate ToolCallEnd")
      else emit_to (set_tools s (<[i := MkOpenTool (close_call (ot_call tool)) true]> (c_tools s)))
             (RToolCallEnd i)
  | None => (s, violation "provider ended an unknown tool index")
  end.

(** server/src/run/model_cycle.rs:286-291, is a content block open. *)
Definition block_open (s : Cycle) : bool :=
  c_text_open s || bool_decide (c_thinking s ≠ None)
  || existsb (λ p, negb (ot_ended p.2)) (map_to_list (c_tools s)).

(** server/src/run/model_cycle.rs:103-298, the [match] on an event. *)
Definition on_event (now : Z) (s : Cycle) (event : ModelEvent) : Cycle * result RunFailure () :=
  match event with
  | MStart id =>
      (set_model_call_id s id,
       match c_model_call_id s with
       | Some _ => violation "provider emitted duplicate Start"
       | None => Ok ()
       end)
  | MTextStart =>
      match c_model_call_id s with
      | None => (s, violation "provider emitted content before Start")
      | Some _ =>
          if c_text_open s then (s, violation "provider emitted duplicate TextStart")
          else emit_to (set_text_open s true) RTextStart
      end
  | MTextDelta delta =>
      if c_text_open s then emit_to (set_text s (c_text s ++ delta)) (RTextDelta delta)
      else (s, violation "provider emitted TextDelta before TextStart")
  | MTextEnd =>
      if c_text_open s then emit_to (set_text_open s false) RTextEnd
      else (s, violation "provider emitted TextEnd before TextStart")
  | MThinkingStart =>
      match c_model_call_id s with
      | None => (s, violation "provider emitted content before Start")
      | Some _ =>
          match c_thinking s with
          | Some _ => (set_thinking s (Some now), violation "provider emitted duplicate ThinkingStart")
          | None => emit_to (set_thinking s (Some now)) RThinkingStart
          end
      end
  | MThinkingDelta delta =>
      match c_thinking s with
      | None => (s, violation "provider emitted ThinkingDelta before ThinkingStart")
      | Some _ => emit_to (set_reasoning s (c_reasoning s ++ delta)) (RThinkingDelta delta)
      end
  | MThinkingSignature _ | MStopSequence _ => (s, Ok ())
  | MThinkingEnd =>
      match c_thinking s with
      | Some started => emit_to (set_thinking s None) (RThinkingEnd (Z.max 0 (now - started)))
      | None => (s, violation "provider emitted ThinkingEnd before ThinkingStart")
      end
  | MToolCallStart i id nm => on_tool_call_start s i id nm
  | MToolCallArgumentsDelta i delta => on_tool_call_delta s i delta
  | MToolCallEnd i => on_tool_call_end s i
  | MReplayState state =>
      (set_replay s state,
       match c_replay s with
       | Some _ => violation "provider emitted duplicate ProviderReplayState"
       | None => Ok ()
       end)
  | MUsage value =>
      let s' := set_usage s value in
      match c_usage s with
      | Some _ => (s', violation "provider emitted duplicate Usage")
      | None =>
          let '(client, ok) := send (c_client s') (RUsage value) in
          (set_client s' client,
           if ok then Ok () else Err (FClient (lit "client event channel closed")))
      end
  | MDone reason =>
      match c_model_call_id s with
      | None => (s, violation "provider emitted content before Start")
      | Some _ =>
          if block_open s then (s, violation "provider emitted Done with an open content block")
          else (set_finish s reason, Ok ())
      end
  end.

(** The failure of the cycle in a state. *)
Definition fail_with (s : Cycle) (f : RunFailure) : ModelCycleFailure :=
  failure f (c_text s) (c_reasoning s) (c_usage s).

(** [BTreeMap::into_values]: by increasing index. *)
Definition index_le (a b : Z * OpenTool) : Prop := a.1 ≤ b.1.
#[global] Instance index_le_dec a b : Decision (index_le a b) := decide (a.1 ≤ b.1).
Definition into_calls (tools : gmap Z OpenTool) : list ToolCall :=
  (λ p, ot_call p.2) <$> merge_sort index_le (map_to_list tools).

(** server/src/run/model_cycle.rs:307-361, what follows the loop. *)
Definition finish_cycle (s : Cycle) : result ModelCycleFailure ModelCycleResult :=
  match c_finish s with
  | None => Err (fail_with s (FProvider (lit "provider stream reached EOF before Done")))
  | Some FinishLength =>
      let truncated := terminal_failure
        (FTruncated (lit "model stopped before completing the response"))
        (c_text s) (c_reasoning s) (c_usage s) in
      Err (MkCycleFailure (f_failure truncated) (f_partial_text truncated)
             (f_partial_reasoning truncated) (c_replay s) (f_usage truncated)
             (f_retryable truncated))
  | Some reason =>
      let calls := into_calls (c_tools s) in
      let has_tool_calls := bool_decide (calls ≠ []) in
      if negb (Bool.eqb (bool_decide (reason = FinishToolUse)) has_tool_calls) then
        Err (fail_with s (FProtocol (lit "finish reason and tool calls disagree")))
      else
        match c_model_call_id s with
        | None => Err (fail_with s (FProtocol (lit "provider completed without Start")))
        | Some id =>
            Ok (MkCycleResult id (c_text s) (c_reasoning s) (c_replay s) calls (c_usage s) reason)
        end
  end.

(** What [select!] yields: an item of the stream, its end together with whether
    the token is cancelled by then, or the cancellation while the stream waits. *)
Inductive polled : Type :=
  | Item (item : result Error ModelEvent)
  | StreamEnd (is_cancelled : bool)
  | CancelledFirst.

(** server/src/run/model_cycle.rs:70-79, the return of a cancelled cycle. *)
Definition cancelled_cycle (now : Z) (s : Cycle) : Cycle * ModelCycleFailure :=
  (set_client s (interrupt_cycle (c_client s) (c_text_open s) (c_thinking s) now),
   fail_with s (FClient (lit "run was cancelled"))).

(** server/src/run/model_cycle.rs:60-305, one turn of the loop. *)
Definition cycle_turn (s : Cycle) (now : Z) (p : polled)
    : flow Cycle (Cycle * result ModelCycleFailure ModelCycleResult) :=
  match p with
  | CancelledFirst | StreamEnd true =>
      let '(s, f) := cancelled_cycle now s in Done (s, Err f)
  | StreamEnd false => Done (s, finish_cycle s)
  | Item (Err error) => Done (s, Err (fail_with s (run_failure_of_error error)))
  | Item (Ok event) =>
      match c_finish s with
      | Some _ => Done (s, Err (fail_with s (FProtocol (lit "provider emitted an event after Done"))))
      | None =>
          match on_event now s event with
          | (s, Ok _) => Next s
          | (s, Err f) => Done (s, Err (fail_with s f))
          end
      end
  end.

(** The loop over what is yielded, each at its time; [None] while it still waits. *)
Fixpoint cycle_loop (s : Cycle) (inputs : list (Z * polled))
    : option (Cycle * result ModelCycleFailure ModelCycleResult) :=
  match inputs with
  | [] => None
  | (now, p) :: inputs =>
      match cycle_turn s now p with
      | Next s => cycle_loop s inputs
      | Done r => Some r
      end
  end.

(** server/src/run/model_cycle.rs:44-361, [consume_model_cycle]. *)
Definition consume_model_cycle (client : option nat) (inputs : list (Z * polled))
    : option (Cycle * result ModelCycleFailure ModelCycleResult) :=
  cycle_loop (new_cycle client) inputs.

End Turns.

(** ** Retries *)

(** server/src/run/model_retry.rs:7-17, [MAX_MODEL_RETRIES], [MAX_PROTOCOL_RETRIES]. *)
Definition MAX_MODEL_RETRIES : Z := 8.
Definition MAX_PROTOCOL_RETRIES : Z := 1.

(** server/src/run/model_retry.rs:18-26, [should_retry]. *)
Definition should_retry (f : ModelCycleFailure) (retries : Z) : bool :=
  if negb (f_retryable f) then false
  else match f_failure f with
       | FProtocol _ => retries <? MAX_PROTOCOL_RETRIES
       | _ => retries <? MAX_MODEL_RETRIES
       end.

(** ** The accepted turns

    [accepts] lists the events a cycle goes on after, with the state they leave;
    [steps] is a run of them. *)
Section Accepted.
Context {SJ : SerdeJson}.

(** [send] went through. *)
Inductive sends (client : Channel) (event : RunEvent) : Channel → Prop :=
  | sends_without : room client = None → sends client event client
  | sends_to n : room client = Some (S n) →
      sends client event (MkChannel (Some n) (sent client ++ [event])).

Inductive accepts (now : Z) (s : Cycle) : ModelEvent → Cycle → Prop :=
  | acc_start id : c_model_call_id s = None → accepts now s (MStart id) (set_model_call_id s id)
  | acc_text_start m ch : c_model_call_id s = Some m → c_text_open s = false →
      sends (c_client s) RTextStart ch →
      accepts now s MTextStart (set_client (set_text_open s true) ch)
  | acc_text_delta d ch : c_text_open s = true → sends (c_client s) (RTextDelta d) ch →
      accepts now s (MTextDelta d) (set_client (set_text s (c_text s ++ d)) ch)
  | acc_text_end ch : c_text_open s = true → sends (c_client s) RTextEnd ch →
      accepts now s MTextEnd (set_client (set_text_open s false) ch)
  | acc_thinking_start m ch : c_model_call_id s = Some m → c_thinking s = None →
      sends (c_client s) RThinkingStart ch →
      accepts now s MThinkingStart (set_client (set_thinking s (Some now)) ch)
  | acc_thinking_delta t d ch : c_thinking s = Some t → sends (c_client s) (RThinkingDelta d) ch →
      accepts now s (MThinkingDelta d) (set_client (set_reasoning s (c_reasoning s ++ d)) ch)
  | acc_signature x : accepts now s (MThinkingSignature x) s
  | acc_stop_sequence x : accepts now s (MStopSequence x) s
  | acc_thinking_end t ch : c_thinking s = Some t →
      sends (c_client s) (RThinkingEnd (Z.max 0 (now - t))) ch →
      accepts now s MThinkingEnd (set_client (set_thinking s None) ch)
  | acc_tool_start m i id nm ch : c_model_call_id s = Some m → c_tools s !! i = None →
      id ∉ c_call_ids s →
      sends (c_client s) (RToolCallStart i id (normalize_tool_name nm) m) ch →
      accepts now s (MToolCallStart i id nm)
        (set_client (set_tools (set_call_ids s ({[id]} ∪ c_call_ids s))
           (<[i := MkOpenTool (MkToolCall i id m (normalize_tool_name nm) [] JNull None) false]>
              (c_tools s))) ch)
  | acc_tool_delta i c d ch : c_tools s !! i = Some (MkOpenTool c false) →
      sends (c_client s) (RToolCallArgumentsDelta i d) ch →
      accepts now s (MToolCallArgumentsDelta i d)
        (set_client (set_tools s
           (<[i := MkOpenTool (MkToolCall (index c) (call_id c) (model_call_id c) (name c)
                (arguments_text c ++ d) (arguments c) (argument_error c)) false]> (c_tools s))) ch)
  | acc_tool_end i c ch : c_tools s !! i = Some (MkOpenTool c false) →
      sends (c_client s) (RToolCallEnd i) ch →
      accepts now s (MToolCallEnd i)
        (set_client (set_tools s (<[i := MkOpenTool (close_call c) true]> (c_tools s))) ch)
  | acc_replay v : c_replay s = None → accepts now s (MReplayState v) (set_replay s v)
  | acc_usage v ch : c_usage s = None → sends (c_client s) (RUsage v) ch →
      accepts now s (MUsage v) (set_client (set_usage s v) ch)
  | acc_done m reason : c_model_call_id s = Some m → block_open s = false →
      accepts now s (MDone reason) (set_finish s reason).

Inductive steps : Cycle → list ModelEvent → Cycle → Prop :=
  | steps_nil s : steps s [] s
  | steps_snoc s es s' now e s'' : steps s es s' → c_finish s' = None → accepts now s' e s'' →
      steps s (es ++ [e]) s''.

Lemma send_true ch ev : (send ch ev).2 = true ↔ sends ch ev (send ch ev).1.
Proof.
  unfold send. destruct (room ch) as [[|n]|] eqn:E; cbn; split; try done.
  - inversion 1; congruence.
  - intros _. by constructor.
  - intros _. by constructor.
Qed.
Lemma send_sends ch ev ch' : send ch ev = (ch', true) ↔ sends ch ev ch'.
Proof.
  split.
  - intros E. pose proof (proj1 (send_true ch ev)) as H. rewrite E in H. by apply H.
  - intros [E|n E]; unfold send; by rewrite E.
Qed.
Lemma send_false ch ev ch' : send ch ev = (ch', false) → ch' = ch.
Proof. unfold send. by destruct (room ch) as [[|n]|]; intros [= <-]. Qed.

(** Every setter commutes with reading the channel, but its own. *)
Lemma emit_ok s ev s' : emit_to s ev = (s', Ok ()) ↔
  ∃ ch, sends (c_client s) ev ch ∧ s' = set_client s ch.
Proof.
  unfold emit_to. destruct (send (c_client s) ev) as [ch []] eqn:E; split.
  - intros [= <-]. exists ch. by rewrite <- send_sends.
  - intros (ch' & Hs & ->). apply send_sends in Hs. congruence.
  - done.
  - intros (ch' & Hs & ->). apply send_sends in Hs. congruence.
Qed.
Lemma emit_err s ev s' f : emit_to s ev = (s', Err f) → s' = set_client s (c_client s).
Proof.
  unfold emit_to. destruct (send (c_client s) ev) as [ch []] eqn:E; intros [= <- <-].
  by rewrite (send_false _ _ _ E).
Qed.

(** [on_event] goes on exactly when the event is accepted. *)
Lemma on_event_accepts now s e s' : on_event now s e = (s', Ok ()) ↔ accepts now s e s'.
Proof.
  split.
  - destruct e; cbn [on_event]; unfold on_tool_call_start, on_tool_call_delta, on_tool_call_end;
      intros E; repeat case_match; simplify_eq;
      try (apply emit_ok in E as (ch & Hs & ->); cbn in Hs);
      try match goal with o : OpenTool |- _ => destruct o as [c b]; cbn in *; subst end;
      try by econstructor.
    + cbn [c_tools set_call_ids]. by apply (acc_tool_start _ _ l).
    + econstructor; [done|]. by apply send_sends.
  - destruct 1; cbn [on_event]; unfold on_tool_call_start, on_tool_call_delta, on_tool_call_end;
      repeat match goal with H : _ = _ |- _ => rewrite H; clear H end; cbn [ot_ended ot_call];
      try reflexivity; try (rewrite decide_False by done);
      try (apply emit_ok; by eexists; split).
    cbn. match goal with H : sends _ _ _ |- _ => apply send_sends in H as -> end. done.
Qed.

(** A turn that fails has sent nothing more, and what it has read stays read. *)
Lemma on_event_err now s e s' f : on_event now s e = (s', Err f) →
  c_client s' = c_client s ∧ c_text s `prefix_of` c_text s' ∧
  c_reasoning s `prefix_of` c_reasoning s'.
Proof.
  destruct e; cbn [on_event]; unfold on_tool_call_start, on_tool_call_delta, on_tool_call_end;
    intros E; repeat case_match; simplify_eq; try (apply emit_err in E as ->);
    try match goal with H : send _ _ = _ |- _ => apply send_false in H as -> end;
    cbn; split; try done; split; try done; by apply prefix_app_r.
Qed.

Lemma steps_trans s es s' es' s'' : steps s es s' → steps s' es' s'' → steps s (es ++ es') s''.
Proof.
  intros H1 H2. induction H2; [by rewrite app_nil_r|]. rewrite app_assoc. econstructor; eauto.
Qed.
Lemma steps_one now s e s' : c_finish s = None → accepts now s e s' → steps s [e] s'.
Proof. intros Hf Ha. apply (steps_snoc s [] s now e s'); [constructor|done..]. Qed.
Lemma steps_cons now s e s' es s'' : c_finish s = None → accepts now s e s' → steps s' es s'' →
  steps s (e :: es) s''.
Proof. intros Hf Ha H. apply (steps_trans s [e] s' es s''); [by eapply steps_one|done]. Qed.

(** A cycle that returns has accepted some events, and one last turn that returns. *)
Lemma cycle_loop_trace s inputs s' r : cycle_loop s inputs = Some (s', r) →
  ∃ es s1 now p rest, steps s es s1 ∧ cycle_turn s1 now p = Done (s', r) ∧
    (snd <$> inputs) = ((λ e, Item (Ok e)) <$> es) ++ p :: rest.
Proof.
  revert s. induction inputs as [|[now p] inputs IH]; intros s; cbn [cycle_loop]; [done|].
  destruct (cycle_turn s now p) as [s2|r2] eqn:E.
  - intros (es & s1 & now1 & p1 & rest & Hs & Ht & Hi)%IH.
    unfold cycle_turn in E. destruct p as [[e|]|[]|]; try done; repeat case_match; simplify_eq.
    exists (e :: es), s1, now1, p1, rest. split; [|split; [done|cbn; by rewrite Hi]].
    eapply steps_cons; [done| |done]. apply on_event_accepts.
    match goal with u : () |- _ => by destruct u end.
  - intros [= ->]. exists [], s, now, p, (snd <$> inputs). split; [constructor|done].
Qed.
End Accepted.

(** ** What the client sees

    [replay] is a client: it takes the events one by one, refuses an event that is
    out of order, and keeps the blocks that are open and the text it was given. *)
Record CallView : Type := MkCallView {
  cv_call_id : str; cv_name : str; cv_model_call_id : str; cv_arguments : str; cv_ended : bool
}.
Record View : Type := MkView {
  v_text : str; v_text_open : bool; v_reasoning : str; v_thinking : bool;
  v_calls : gmap Z CallView; v_usage : option Usage
}.
Definition empty_view : View := MkView [] false [] false ∅ None.

Definition view_step (v : View) (event : RunEvent) : option View :=
  let '(MkView text topen reasoning thinking calls usage) := v in
  match event with
  | RTextStart => if topen then None else Some (MkView text true reasoning thinking calls usage)
  | RTextDelta d =>
      if topen then Some (MkView (text ++ d) true reasoning thinking calls usage) else None
  | RTextEnd => if topen then Some (MkView text false reasoning thinking calls usage) else None
  | RThinkingStart =>
      if thinking then None else Some (MkView text topen reasoning true calls usage)
  | RThinkingDelta d =>
      if thinking then Some (MkView text topen (reasoning ++ d) true calls usage) else None
  | RThinkingEnd d =>
      if thinking && (0 <=? d) then Some (MkView text topen reasoning false calls usage) else None
  | RToolCallStart i id nm m =>
      match calls !! i with
      | None => Some (MkView text topen reasoning thinking
                        (<[i := MkCallView id nm m [] false]> calls) usage)
      | Some _ => None
      end
  | RToolCallArgumentsDelta i d =>
      match calls !! i with
      | Some (MkCallView id nm m args false) =>
          Some (MkView text topen reasoning thinking
                  (<[i := MkCallView id nm m (args ++ d) false]> calls) usage)
      | _ => None
      end
  | RToolCallEnd i =>
      match calls !! i with
      | Some (MkCallView id nm m args false) =>
          Some (MkView text topen reasoning thinking
                  (<[i := MkCallView id nm m args true]> calls) usage)
      | _ => None
      end
  | RUsage u =>
      match usage with
      | None => Some (MkView text topen reasoning thinking calls (Some u))
      | Some _ => None
      end
  | _ => None
  end.
Definition replay (events : list RunEvent) : option View :=
  foldl (λ v e, v ≫= λ v, view_step v e) (Some empty_view) events.

Lemma replay_snoc events e : replay (events ++ [e]) = replay events ≫= λ v, view_step v e.
Proof. unfold replay. by rewrite foldl_app. Qed.

(** The view of a call and of a cycle. *)
Definition call_view (c : ToolCall) (ended : bool) : CallView :=
  MkCallView (call_id c) (name c) (model_call_id c) (arguments_text c) ended.
Definition view_of (s : Cycle) : View :=
  MkView (c_text s) (c_text_open s) (c_reasoning s) (bool_decide (c_thinking s ≠ None))
    ((λ t, call_view (ot_call t) (ot_ended t)) <$> c_tools s) (c_usage s).

Section ClientView.
Context {SJ : SerdeJson}.

Lemma sends_room ch ev ch' n : sends ch ev ch' → room ch = Some n →
  ∃ n', n = S n' ∧ ch' = MkChannel (Some n') (sent ch ++ [ev]).
Proof. intros [E|m E] E'; [congruence|]. exists m. split; [congruence|done]. Qed.

Lemma close_call_fields c : call_view (close_call c) true = call_view c true ∧
  index (close_call c) = index c.
Proof. unfold close_call. repeat case_match; by simplify_eq. Qed.

(** With a client, an accepted turn keeps the client's view equal to the state. *)
Lemma accepts_view now s e s' : accepts now s e s' → is_Some (room (c_client s)) →
  replay (sent (c_client s)) = Some (view_of s) →
  is_Some (room (c_client s')) ∧ replay (sent (c_client s')) = Some (view_of s').
Proof.
  intros Ha [k Hk] Hv. destruct Ha;
    try match goal with H : sends _ _ _ |- _ =>
      destruct (sends_room _ _ _ _ H Hk) as (k' & -> & ->); cbn; split; [done|];
      rewrite replay_snoc, Hv; cbn; unfold view_of; cbn end;
    try done.
  - by rewrite H0.
  - by rewrite H.
  - by rewrite H.
  - by rewrite H0.
  - by rewrite H.
  - rewrite H. cbn. by rewrite (proj2 (Z.leb_le 0 _)) by lia.
  - rewrite lookup_fmap, H0. cbn. by rewrite fmap_insert.
  - rewrite lookup_fmap, H. cbn. by rewrite fmap_insert.
  - rewrite lookup_fmap, H. cbn. rewrite fmap_insert. cbn.
    destruct (close_call_fields c) as [E _]. unfold call_view in *. by rewrite E.
  - by rewrite H.
Qed.

Lemma steps_view s es s' : steps s es s' → is_Some (room (c_client s)) →
  replay (sent (c_client s)) = Some (view_of s) →
  is_Some (room (c_client s')) ∧ replay (sent (c_client s')) = Some (view_of s').
Proof. induction 1; [done|]. intros Hr Hv. destruct IHsteps as [??]; [done..|]. by eapply accepts_view. Qed.

End ClientView.

(** ** What the events say

    Reading a list of events without a state: the text they carry, the calls they
    start, the arguments of a call.  [tracks] is the invariant that the state of the
    cycle is this reading of the events it accepted. *)
Definition text_of_event (e : ModelEvent) : str := match e with MTextDelta d => d | _ => [] end.
Definition reasoning_of_event (e : ModelEvent) : str :=
  match e with MThinkingDelta d => d | _ => [] end.
Definition arguments_of_event (i : Z) (e : ModelEvent) : str :=
  match e with MToolCallArgumentsDelta j d => if decide (i = j) then d else [] | _ => [] end.
Definition start_of_event (e : ModelEvent) : option str :=
  match e with MStart id => Some id | _ => None end.
Definition replay_of_event (e : ModelEvent) : option ProviderReplayState :=
  match e with MReplayState v => Some v | _ => None end.
Definition usage_of_event (e : ModelEvent) : option Usage :=
  match e with MUsage v => Some v | _ => None end.
Definition call_of_event (i : Z) (e : ModelEvent) : option (str * str) :=
  match e with MToolCallStart j id nm => if decide (i = j) then Some (id, nm) else None | _ => None end.
Definition ends_call (i : Z) (e : ModelEvent) : bool :=
  match e with MToolCallEnd j => bool_decide (i = j) | _ => false end.

Definition texts (es : list ModelEvent) : str := concat (text_of_event <$> es).
Definition reasonings (es : list ModelEvent) : str := concat (reasoning_of_event <$> es).
Definition arguments_for (i : Z) (es : list ModelEvent) : str := concat (arguments_of_event i <$> es).
Definition started (i : Z) (es : list ModelEvent) : list (str * str) := omap (call_of_event i) es.

Lemma concat_fmap_snoc {A} (f : A → str) l x : concat (f <$> (l ++ [x])) = concat (f <$> l) ++ f x.
Proof. rewrite fmap_app, concat_app. cbn. by rewrite app_nil_r. Qed.
Lemma omap_snoc {A B} (f : A → option B) l x : omap f (l ++ [x]) = omap f l ++ option_list (f x).
Proof. rewrite omap_app. by f_equal. Qed.

Section Tracks.
Context {SJ : SerdeJson}.

(** The call a started index [i] of the events comes to. *)
Definition raw_call (m : str) (i : Z) (id nm args : str) : ToolCall :=
  MkToolCall i id m (normalize_tool_name nm) args JNull None.
Definition tool_of (m : str) (i : Z) (id nm args : str) (ended : bool) : OpenTool :=
  if ended then MkOpenTool (close_call (raw_call m i id nm args)) true
  else MkOpenTool (raw_call m i id nm args) false.

(** What is known of the index [i]. *)
Definition tracks_index (es : list ModelEvent) (s : Cycle) (i : Z) : Prop :=
  match started i es with
  | [] => c_tools s !! i = None ∧ arguments_for i es = [] ∧ existsb (ends_call i) es = false
  | [(id, nm)] => id ∈ c_call_ids s ∧ ∃ m, c_model_call_id s = Some m ∧
      c_tools s !! i = Some (tool_of m i id nm (arguments_for i es) (existsb (ends_call i) es))
  | _ => False
  end.

Record tracks (es : list ModelEvent) (s : Cycle) : Prop := {
  tr_text : c_text s = texts es;
  tr_reasoning : c_reasoning s = reasonings es;
  tr_start : option_list (c_model_call_id s) = omap start_of_event es;
  tr_replay : option_list (c_replay s) = omap replay_of_event es;
  tr_usage : option_list (c_usage s) = omap usage_of_event es;
  tr_index i : tracks_index es s i;
  tr_ids i j t t' : c_tools s !! i = Some t → c_tools s !! j = Some t' →
    call_id (ot_call t) = call_id (ot_call t') → i = j
}.

(** An event that is not about the index [i] leaves it alone. *)
Lemma tracks_index_frame es s s' e i : tracks_index es s i →
  call_of_event i e = None → arguments_of_event i e = [] → ends_call i e = false →
  c_tools s' !! i = c_tools s !! i → c_call_ids s ⊆ c_call_ids s' →
  (c_model_call_id s = None ∨ c_model_call_id s' = c_model_call_id s) →
  tracks_index (es ++ [e]) s' i.
Proof.
  unfold tracks_index, started, arguments_for. intros H Hc Ha He Ht Hi Hm.
  rewrite omap_snoc, concat_fmap_snoc, existsb_app, Hc, Ha. cbn. rewrite He, !app_nil_r.
  rewrite !orb_false_r. destruct (omap _ es) as [|[id nm] [|]]; [by rewrite Ht| |done].
  destruct H as (Hid & m & Hm' & H). split; [set_solver|]. exists m. rewrite Ht.
  split; [|done]. destruct Hm; congruence.
Qed.

Lemma tool_at_call_id es s i t : tracks_index es s i → c_tools s !! i = Some t →
  call_id (ot_call t) ∈ c_call_ids s.
Proof.
  unfold tracks_index. destruct (started i es) as [|[id nm] [|]]; [|..|done].
  - intros (E & _) ?. congruence.
  - intros (Hid & m & _ & E) ?. simplify_eq. unfold tool_of. case_match; [|done].
    unfold close_call. repeat case_match; done.
Qed.

(** The identities of the calls stay distinct under an update that keeps them. *)
Lemma ids_keep es s i t t' : tracks es s → c_tools s !! i = Some t →
  call_id (ot_call t') = call_id (ot_call t) →
  ∀ j k u u', <[i := t']> (c_tools s) !! j = Some u → <[i := t']> (c_tools s) !! k = Some u' →
    call_id (ot_call u) = call_id (ot_call u') → j = k.
Proof.
  intros T Hi E j k u u' Hj Hk Eu. rewrite lookup_insert_Some in Hj, Hk.
  destruct Hj as [[-> ->]|[? Hj]], Hk as [[-> ->]|[? Hk]]; [done|..].
  - rewrite E in Eu. by apply (tr_ids _ _ T _ _ _ _ Hi Hk).
  - rewrite E in Eu. by apply (tr_ids _ _ T _ _ _ _ Hj Hi).
  - by apply (tr_ids _ _ T _ _ _ _ Hj Hk).
Qed.

Lemma open_tool_tracked es s i c : tracks_index es s i →
  c_tools s !! i = Some (MkOpenTool c false) → ∃ m id nm,
    started i es = [(id, nm)] ∧ id ∈ c_call_ids s ∧ c_model_call_id s = Some m ∧
    c = raw_call m i id nm (arguments_for i es) ∧ existsb (ends_call i) es = false.
Proof.
  unfold tracks_index. destruct (started i es) as [|[id nm] [|]] eqn:E; [|..|done].
  - intros (? & _) ?. congruence.
  - intros (Hid & m & Hm & Ht) Ht'. exists m, id, nm. rewrite Ht in Ht'.
    unfold tool_of in Ht'. case_match; by simplify_eq.
Qed.

Lemma tracks_tool_start es s i id nm m ch : tracks es s → c_model_call_id s = Some m →
  c_tools s !! i = None → id ∉ c_call_ids s →
  tracks (es ++ [MToolCallStart i id nm])
    (set_client (set_tools (set_call_ids s ({[id]} ∪ c_call_ids s))
       (<[i := MkOpenTool (raw_call m i id nm []) false]> (c_tools s))) ch).
Proof.
  intros T Hm Hi Hid. destruct T as [T1 T2 T3 T4 T5 T6 T7].
  unfold texts, reasonings in *. split; unfold texts, reasonings; cbn;
    rewrite ?concat_fmap_snoc, ?omap_snoc; cbn; rewrite ?app_nil_r; try done.
  - intros j. destruct (decide (j = i)) as [->|Hne].
    + specialize (T6 i). unfold tracks_index, started, arguments_for in *.
      rewrite omap_snoc, concat_fmap_snoc, existsb_app. cbn.
      rewrite decide_True, app_nil_r, orb_false_r by done.
      destruct (omap (call_of_event i) es) as [|[] []]; [|naive_solver..].
      destruct T6 as (_ & -> & ->). cbn. split; [set_solver|]. exists m.
      by rewrite lookup_insert_eq.
    + eapply tracks_index_frame; [apply (T6 j)|cbn..]; try done.
      * by rewrite decide_False.
      * by rewrite lookup_insert_ne.
      * set_solver.
      * by right.
  - intros j k t t'. rewrite !lookup_insert_Some.
    intros [[-> <-]|[? Hj]] [[-> <-]|[? Hk]] E; [done|..].
    + cbn in E. subst id. apply tool_at_call_id with (es := es) in Hk; [done|apply T6].
    + cbn in E. subst id. apply tool_at_call_id with (es := es) in Hj; [done|apply T6].
    + by eapply T7.
Qed.

Lemma tracks_tool_delta es s i c d ch : tracks es s → c_tools s !! i = Some (MkOpenTool c false) →
  tracks (es ++ [MToolCallArgumentsDelta i d])
    (set_client (set_tools s
       (<[i := MkOpenTool (MkToolCall (index c) (call_id c) (model_call_id c) (name c)
            (arguments_text c ++ d) (arguments c) (argument_error c)) false]> (c_tools s))) ch).
Proof.
  intros T Hi. pose proof (ids_keep es s i _ (MkOpenTool (MkToolCall (index c) (call_id c) (model_call_id c) (name c)
            (arguments_text c ++ d) (arguments c) (argument_error c)) false) T Hi eq_refl) as HT.
  destruct T as [T1 T2 T3 T4 T5 T6 T7]. unfold texts, reasonings in *.
  split; unfold texts, reasonings; cbn; rewrite ?concat_fmap_snoc, ?omap_snoc; cbn; rewrite ?app_nil_r; try done.
  intros j. destruct (decide (j = i)) as [->|Hne].
  - destruct (open_tool_tracked es s i c (T6 i) Hi) as (m & id & nm & E1 & E2 & E3 & -> & E5).
    unfold tracks_index, started, arguments_for in *.
    rewrite omap_snoc, concat_fmap_snoc, existsb_app, E1, E5. cbn.
    rewrite decide_True by done. split; [done|]. exists m. split; [done|].
    by rewrite lookup_insert_eq.
  - eapply tracks_index_frame; [apply (T6 j)|cbn..]; try done.
    + by rewrite decide_False.
    + by rewrite lookup_insert_ne.
    + by right.
Qed.

Lemma tracks_tool_end es s i c ch : tracks es s → c_tools s !! i = Some (MkOpenTool c false) →
  tracks (es ++ [MToolCallEnd i])
    (set_client (set_tools s (<[i := MkOpenTool (close_call c) true]> (c_tools s))) ch).
Proof.
  intros T Hi. assert (call_id (close_call c) = call_id c) as Ec.
  { unfold close_call. repeat case_match; done. }
  pose proof (ids_keep es s i _ (MkOpenTool (close_call c) true) T Hi Ec) as HT.
  destruct T as [T1 T2 T3 T4 T5 T6 T7]. unfold texts, reasonings in *.
  split; unfold texts, reasonings; cbn; rewrite ?concat_fmap_snoc, ?omap_snoc; cbn; rewrite ?app_nil_r; try done.
  intros j. destruct (decide (j = i)) as [->|Hne].
  - destruct (open_tool_tracked es s i c (T6 i) Hi) as (m & id & nm & E1 & E2 & E3 & -> & E5).
    unfold tracks_index, started, arguments_for in *.
    rewrite omap_snoc, concat_fmap_snoc, existsb_app, E1, E5. cbn.
    rewrite bool_decide_eq_true_2, !app_nil_r by done. split; [done|]. exists m. split; [done|].
    by rewrite lookup_insert_eq.
  - eapply tracks_index_frame; [apply (T6 j)|cbn..]; try done.
    + by rewrite bool_decide_eq_false_2.
    + by rewrite lookup_insert_ne.
    + by right.
Qed.

Lemma accepts_tracks now es s e s' : accepts now s e s' → tracks es s → tracks (es ++ [e]) s'.
Proof.
  intros Ha T. destruct Ha; try (by eapply tracks_tool_start || by eapply tracks_tool_delta
    || by eapply tracks_tool_end);
    destruct T as [T1 T2 T3 T4 T5 T6 T7]; unfold texts, reasonings in *;
    (split; unfold texts, reasonings; cbn; rewrite ?concat_fmap_snoc, ?omap_snoc, ?app_nil_r; cbn; rewrite ?app_nil_r;
     try done; try congruence;
     try (intros ?; eapply tracks_index_frame; [apply T6|cbn..]; by auto)).
  - by rewrite <- T3, H.
  - by rewrite <- T4, H.
  - by rewrite <- T5, H.
Qed.

Lemma steps_tracks es s s' : steps s es s' → ∀ es0, tracks es0 s → tracks (es0 ++ es) s'.
Proof.
  induction 1; intros es0 T; [by rewrite app_nil_r|]. rewrite app_assoc.
  eapply accepts_tracks; eauto.
Qed.

Lemma tracks_new client : tracks [] (new_cycle client).
Proof. split; done. Qed.

(** The cycle is finished by an accepted [Done], after which nothing is accepted. *)
Lemma steps_finish s es s' : steps s es s' → c_finish s = None → ∀ reason, c_finish s' = Some reason →
  ∃ es' s1, es = es' ++ [MDone reason] ∧ steps s es' s1 ∧ c_finish s1 = None ∧
    block_open s1 = false ∧ is_Some (c_model_call_id s1) ∧ s' = set_finish s1 reason.
Proof.
  destruct 1 as [|s es s1 now e s2 Hs Hf Ha]; intros Hn reason Hr; [congruence|].
  destruct Ha; cbn in Hr; try congruence. simplify_eq. exists es, s1. split; [done|].
  split; [done|]. split; [done|]. split; [done|]. split; [by eexists|done].
Qed.

Lemma steps_unfinished s es s' : steps s es s' → c_finish s' = None → ∀ r, MDone r ∉ es.
Proof.
  induction 1 as [|s es s1 now e s2 Hs IH Hf Ha]; intros Hn r; [by intros ?%elem_of_nil|].
  rewrite elem_of_app, list_elem_of_singleton. intros [?|<-]; [by eapply IH|].
  inversion Ha; subst. done.
Qed.
End Tracks.

(** ** Theorems *)
Section Cycles.
Context {SJ : SerdeJson}.

Lemma into_calls_elem tools c :
  c ∈ into_calls tools ↔ ∃ i t, tools !! i = Some t ∧ c = ot_call t.
Proof.
  unfold into_calls. rewrite list_elem_of_fmap. split.
  - intros ([i t] & -> & H). rewrite merge_sort_Permutation, elem_of_map_to_list in H. eauto.
  - intros (i & t & H & ->). exists (i, t). split; [done|].
    by rewrite merge_sort_Permutation, elem_of_map_to_list.
Qed.

Lemma block_closed s : block_open s = false →
  c_text_open s = false ∧ c_thinking s = None ∧
  ∀ i t, c_tools s !! i = Some t → ot_ended t = true.
Proof.
  unfold block_open. rewrite !orb_false_iff. intros [[H1 H2] H3]. split; [done|].
  apply bool_decide_eq_false in H2. split; [by apply dec_stable|]. intros i t Hi.
  destruct (ot_ended t) eqn:E; [done|]. apply not_true_iff_false in H3 as [].
  apply existsb_exists. exists (i, t).
  rewrite <- list_elem_of_In, elem_of_map_to_list. cbn. by rewrite E.
Qed.

(** A cycle that returns [Ok] accepted a list of events that ends in [Done], then
    reached the end of the stream. *)
Lemma cycle_ok client inputs s r : consume_model_cycle client inputs = Some (s, Ok r) →
  ∃ es s1 rest, steps (new_cycle client) (es ++ [MDone (r_finish_reason r)]) s ∧
    steps (new_cycle client) es s1 ∧
    (snd <$> inputs) = ((λ e, Item (Ok e)) <$> (es ++ [MDone (r_finish_reason r)]))
                        ++ StreamEnd false :: rest ∧
    c_finish s1 = None ∧ s = set_finish s1 (r_finish_reason r) ∧ block_open s = false ∧
    c_model_call_id s = Some (r_model_call_id r) ∧
    r_text r = c_text s ∧ r_reasoning r = c_reasoning s ∧ r_replay_state r = c_replay s ∧
    r_usage r = c_usage s ∧ r_calls r = into_calls (c_tools s) ∧
    r_finish_reason r ≠ FinishLength ∧ (r_finish_reason r = FinishToolUse ↔ r_calls r ≠ []).
Proof.
  intros (es & s1 & now & p & rest & Hs & Ht & Hi)%cycle_loop_trace.
  unfold cycle_turn, cancelled_cycle in Ht. destruct p as [[e|]|[]|]; try done;
    try (repeat case_match; by simplify_eq).
  assert (s1 = s) as -> by congruence. assert (finish_cycle s = Ok r) as Ef by congruence.
  clear Ht. unfold finish_cycle in Ef.
  destruct (c_finish s) as [reason|] eqn:Er; [|done].
  assert (reason ≠ FinishLength) as Hne by (intros ->; done).
  destruct (steps_finish _ _ _ Hs eq_refl _ Er) as (es' & s1 & -> & Hs1 & Hn & Hb & [m Hm] & Es).
  assert (Ef' : (if negb (Bool.eqb (bool_decide (reason = FinishToolUse))
      (bool_decide (into_calls (c_tools s) ≠ []))) then None else
      Some (MkCycleResult m (c_text s) (c_reasoning s) (c_replay s)
              (into_calls (c_tools s)) (c_usage s) reason)) = Some r).
  { destruct reason; [|done|]; rewrite Es in Ef |- *; cbn in Ef |- *; rewrite Hm in Ef;
      case_match; congruence. }
  destruct (Bool.eqb _ _) eqn:Eq; [|done]. cbn in Ef'.
  apply Bool.eqb_prop in Eq. injection Ef' as <-. cbn.
  exists es', s1, rest. do 4 (split; [done|]).
  rewrite Es. split; [done|]. split; [done|]. do 5 (split; [done|]). split; [done|].
  rewrite Es in Eq. cbn in Eq. repeat case_bool_decide; naive_solver.
Qed.

(** Interrupting closes the open blocks, and gives the client no more text. *)
Lemma interrupt_view s k now : room (c_client s) = Some k →
  replay (sent (c_client s)) = Some (view_of s) →
  ∃ v, replay (sent (interrupt_cycle (c_client s) (c_text_open s) (c_thinking s) now)) = Some v ∧
    v_text v = c_text s ∧ v_reasoning v = c_reasoning s.
Proof.
  intros Hk Hv. unfold interrupt_cycle, send.
  destruct (c_text_open s) eqn:Et, (c_thinking s) as [t|] eqn:Eh; rewrite ?Hk;
    destruct k as [|[|k]]; cbn; rewrite ?Hk; cbn; rewrite ?replay_snoc, ?Hv; unfold view_of;
    rewrite ?Et, ?Eh; cbn; rewrite ?(proj2 (Z.leb_le 0 (Z.max 0 _))) by lia; cbn; by eexists.
Qed.

Lemma turn_err_view s k now p s' f : room (c_client s) = Some k →
  replay (sent (c_client s)) = Some (view_of s) → cycle_turn s now p = Done (s', Err f) →
  ∃ v, replay (sent (c_client s')) = Some v ∧ v_text v `prefix_of` f_partial_text f ∧
    v_reasoning v `prefix_of` f_partial_reasoning f.
Proof.
  intros Hk Hv. unfold cycle_turn. destruct p as [[e|]|[]|]; cbn.
  - destruct (c_finish s); [intros [= <- <-]; by eexists|].
    destruct (on_event now s e) as [s2 [|f2]] eqn:E; intros [= <- <-].
    apply on_event_err in E as (-> & ? & ?). by eexists.
  - intros [= <- <-]. by eexists.
  - intros [= <- <-]. destruct (interrupt_view s k now Hk Hv) as (v & E & E1 & E2).
    exists v. cbn. by rewrite E, E1, E2.
  - unfold finish_cycle. intros E. repeat case_match; simplify_eq; by eexists.
  - intros [= <- <-]. destruct (interrupt_view s k now Hk Hv) as (v & E & E1 & E2).
    exists v. cbn. by rewrite E, E1, E2.
Qed.

(** The events sent to the client of a streaming call are always in order — a block is
    opened once, written while it is open and closed once — whatever the provider does
    and whenever the client goes away.  When the call succeeds every block is closed and
    the client has seen exactly the text, the reasoning, the usage and the tool calls of
    the result; when it fails the client has seen a prefix of the partial text. *)
Theorem cycle_client_view n inputs s r :
  consume_model_cycle (Some n) inputs = Some (s, r) →
  ∃ v, replay (sent (c_client s)) = Some v ∧
    match r with
    | Ok res => v_text_open v = false ∧ v_thinking v = false ∧ v_text v = r_text res ∧
        v_reasoning v = r_reasoning res ∧ v_usage v = r_usage res ∧
        ∀ cv, (∃ i, v_calls v !! i = Some cv) ↔ ∃ c, c ∈ r_calls res ∧ cv = call_view c true
    | Err f => v_text v `prefix_of` f_partial_text f ∧
        v_reasoning v `prefix_of` f_partial_reasoning f
    end.
Proof.
  intros Hc. destruct r as [res|f].
  - destruct (cycle_ok _ _ _ _ Hc) as (es & s1 & rest & Hs & _ & _ & _ & _ & Hb & _ & Et & Er & _ & Eu & Ec & _).
    destruct (steps_view _ _ _ Hs) as [_ Hv]; [by eexists|done|].
    destruct (block_closed s Hb) as (H1 & H2 & H3).
    exists (view_of s). split; [done|]. cbn. rewrite H2, Et, Er, Eu, Ec. do 5 (split; [done|]).
    intros cv. setoid_rewrite lookup_fmap_Some. setoid_rewrite into_calls_elem. split.
    + intros (i & t & <- & Hi). exists (ot_call t). split; [by eauto|]. by rewrite (H3 i t Hi).
    + intros (c & (i & t & Hi & ->) & ->). exists i, t. by rewrite (H3 i t Hi).
  - destruct (cycle_loop_trace _ _ _ _ Hc) as (es & s1 & now & p & rest & Hs & Ht & _).
    destruct (steps_view _ _ _ Hs) as [[k Hk] Hv]; [by eexists|done|].
    by apply (turn_err_view s1 k now p).
Qed.

Lemma close_call_object c : is_object (arguments (close_call c)) = true.
Proof. unfold close_call. repeat case_match; try done; by cbn; congruence. Qed.

(** The calls of a finished cycle, read from the events. *)
Lemma tracked_calls es s c : tracks es s → block_open s = false →
  c ∈ into_calls (c_tools s) ↔
  ∃ m i id nm, c_model_call_id s = Some m ∧ MToolCallStart i id nm ∈ es ∧
    c = close_call (raw_call m i id nm (arguments_for i es)).
Proof.
  intros T Hb. destruct (block_closed s Hb) as (_ & _ & He). rewrite into_calls_elem. split.
  - intros (i & t & Hi & ->). pose proof (tr_index _ _ T i) as Hx. unfold tracks_index in Hx.
    destruct (started i es) as [|[id nm] [|]] eqn:E; [destruct Hx; congruence| |done].
    destruct Hx as (_ & m & Hm & Ht). exists m, i, id, nm. split; [done|].
    rewrite Ht in Hi. specialize (He i _ Ht). unfold tool_of in *.
    destruct (existsb _ es); simplify_eq. split; [|done].
    assert ((id, nm) ∈ started i es) as Hin by (rewrite E; by apply list_elem_of_singleton).
    apply list_elem_of_omap in Hin as (e & Hin & Hcall). destruct e; try done.
    cbn in Hcall. case_decide; by simplify_eq.
  - intros (m & i & id & nm & Hm & Hin & ->).
    assert ((id, nm) ∈ started i es) as Hs.
    { apply list_elem_of_omap. eexists; split; [done|]. cbn. by rewrite decide_True. }
    pose proof (tr_index _ _ T i) as Hx. unfold tracks_index in Hx.
    destruct (started i es) as [|[id' nm'] [|]] eqn:E; [by apply not_elem_of_nil in Hs| |done].
    apply list_elem_of_singleton in Hs. simplify_eq. destruct Hx as (_ & m' & Hm' & Ht).
    simplify_eq. exists i; eexists; split; [exact Ht|]. specialize (He i _ Ht). unfold tool_of in *.
    by destruct (existsb _ es).
Qed.

Lemma tool_index es s i t : tracks_index es s i → c_tools s !! i = Some t → index (ot_call t) = i.
Proof.
  unfold tracks_index. destruct (started i es) as [|[id nm] [|]]; [|..|done].
  - intros (? & _) ?. congruence.
  - intros (_ & m & _ & E) ?. simplify_eq. unfold tool_of. case_match; [|done].
    cbn. by rewrite (proj2 (close_call_fields _)).
Qed.

#[global] Instance index_le_trans : Transitive index_le.
Proof. unfold index_le. intros ???. lia. Qed.
#[global] Instance index_le_total : Total index_le.
Proof. unfold index_le. intros ??. lia. Qed.

(** [into_values] of a map whose calls carry their index is sorted by it. *)
Lemma into_calls_sorted tools : (∀ i t, tools !! i = Some t → index (ot_call t) = i) →
  StronglySorted Z.lt (index <$> into_calls tools).
Proof.
  intros Hix. unfold into_calls.
  assert (StronglySorted index_le (merge_sort index_le (map_to_list tools))) as Hs.
  { apply (StronglySorted_merge_sort index_le). }
  assert (NoDup (merge_sort index_le (map_to_list tools)).*1) as Hn.
  { rewrite merge_sort_Permutation. apply NoDup_fst_map_to_list. }
  assert (∀ p, p ∈ merge_sort index_le (map_to_list tools) → index (ot_call p.2) = p.1) as Hp.
  { intros [i t] H. rewrite merge_sort_Permutation, elem_of_map_to_list in H. by apply Hix. }
  induction (merge_sort index_le (map_to_list tools)) as [|p l IH]; [constructor|].
  cbn in *. apply NoDup_cons in Hn as [Hn1 Hn2]. apply StronglySorted_cons in Hs as [Hs1 Hs2].
  apply StronglySorted_cons. split.
  - rewrite !Forall_fmap, Forall_forall in *. intros q Hq. cbn.
    rewrite (Hp p), (Hp q) by set_solver. specialize (Hs1 q Hq). unfold index_le in Hs1.
    assert (p.1 ≠ q.1); [|lia]. intros E. apply Hn1. rewrite E. by apply list_elem_of_fmap_2.
  - apply IH; [done..|]. intros q Hq. apply Hp. set_solver.
Qed.

Lemma into_calls_ids tools :
  (∀ i j t t', tools !! i = Some t → tools !! j = Some t' →
     call_id (ot_call t) = call_id (ot_call t') → i = j) →
  NoDup (call_id <$> into_calls tools).
Proof.
  intros Hid. unfold into_calls. rewrite <- list_fmap_compose, merge_sort_Permutation.
  apply NoDup_fmap_2_strong; [|apply NoDup_map_to_list].
  intros [i t] [j t'] Hi Hj E. rewrite !elem_of_map_to_list in *. cbn in E.
  pose proof (Hid i j t t' Hi Hj E) as ->. congruence.
Qed.

(** C36: A call that succeeds is exactly what the provider said: the stream was one [Start],
    content and one final [Done]; the text and the reasoning are their deltas put
    together, the usage and the replay state the ones reported, and the tool calls are
    the ones started, each with its deltas as arguments, ordered by index, with distinct
    indices and identities, and with a JSON object as arguments. *)
Theorem cycle_result_of_events client inputs s r :
  consume_model_cycle client inputs = Some (s, Ok r) →
  ∃ es rest,
    (snd <$> inputs) = ((λ e, Item (Ok e)) <$> (es ++ [MDone (r_finish_reason r)]))
                        ++ StreamEnd false :: rest ∧
    (∀ reason, MDone reason ∉ es) ∧
    omap start_of_event es = [r_model_call_id r] ∧
    r_text r = texts es ∧ r_reasoning r = reasonings es ∧
    omap usage_of_event es = option_list (r_usage r) ∧
    omap replay_of_event es = option_list (r_replay_state r) ∧
    (∀ c, c ∈ r_calls r ↔ ∃ i id nm, MToolCallStart i id nm ∈ es ∧
       c = close_call (raw_call (r_model_call_id r) i id nm (arguments_for i es))) ∧
    StronglySorted Z.lt (index <$> r_calls r) ∧ NoDup (call_id <$> r_calls r) ∧
    Forall (λ c, is_object (arguments c) = true) (r_calls r) ∧
    r_finish_reason r ≠ FinishLength ∧ (r_finish_reason r = FinishToolUse ↔ r_calls r ≠ []).
Proof.
  intros (es & s1 & rest & _ & Hs & Hi & Hf & E & Hb & Hm & Et & Er & Ep & Eu & Ec & Hl & Hc)%cycle_ok.
  exists es, rest. split; [done|]. split; [by eapply steps_unfinished|].
  subst s. cbn in *.
  pose proof (steps_tracks _ _ _ Hs [] (tracks_new client)) as T. cbn in T.
  assert (block_open s1 = false) as Hb1 by done.
  rewrite <- (tr_start _ _ T), <- (tr_usage _ _ T), <- (tr_replay _ _ T), Hm.
  split; [done|]. rewrite Ec in Hc. rewrite Et, (tr_text _ _ T), Er, (tr_reasoning _ _ T), Eu, Ep, Ec.
  do 4 (split; [done|]). split; [|split; [|split; [|split; [|done]]]].
  - intros c. rewrite (tracked_calls es s1) by done. rewrite Hm. naive_solver.
  - apply into_calls_sorted. intros i t. apply (tool_index es). apply (tr_index _ _ T).
  - apply into_calls_ids. apply (tr_ids _ _ T).
  - apply Forall_forall. intros c (m & i & id & nm & _ & _ & ->)%(tracked_calls es); [|done..].
    apply close_call_object.
Qed.
End Cycles.

(** ** Retries

    [attempt k] is what the [k]-th attempt of one logical call returns; a failed
    attempt is tried again while [should_retry] allows it. *)
Section Attempts.
Context {A : Type} (attempt : nat → result ModelCycleFailure A).

Definition attempt_turn (retries : nat) : flow nat (nat * result ModelCycleFailure A) :=
  match attempt retries with
  | Ok a => Done (retries, Ok a)
  | Err f => if should_retry f (Z.of_nat retries) then Next (S retries)
             else Done (retries, Err f)
  end.

Lemma should_retry_bound f k : should_retry f k = true →
  f_retryable f = true ∧ k < MAX_MODEL_RETRIES ∧
  (∀ m, f_failure f = FProtocol m → k < MAX_PROTOCOL_RETRIES).
Proof.
  unfold should_retry, MAX_MODEL_RETRIES, MAX_PROTOCOL_RETRIES.
  destruct (f_retryable f); cbn; [|done]. intros H. split; [done|].
  destruct (f_failure f); rewrite Z.ltb_lt in H; naive_solver lia.
Qed.

Lemma attempt_decreases : decreases attempt_turn (λ k, (8 - k)%nat).
Proof.
  intros k k'. unfold attempt_turn. destruct (attempt k) as [a|f]; [done|].
  destruct (should_retry f (Z.of_nat k)) eqn:E; [|done]. intros [= <-].
  apply should_retry_bound in E as (_ & E & _). unfold MAX_MODEL_RETRIES in E. lia.
Qed.

(** The attempt that decides, and its outcome. *)
Definition attempts : nat * result ModelCycleFailure A := run attempt_turn attempt_decreases 0%nat.
End Attempts.

(** A logical model call makes at most nine attempts and ends with the outcome of the
    last one; every attempt before it failed in a way that may be retried, and a second
    protocol violation is never retried.  A call that fails ends with a failure that is
    not retryable, or that used up its retries. *)
Theorem attempts_bounded {A} (attempt : nat → result ModelCycleFailure A) :
  let '(last, outcome) := attempts attempt in
  (last ≤ 8)%nat ∧ outcome = attempt last ∧
  (∀ k, (k < last)%nat → ∃ f, attempt k = Err f ∧ f_retryable f = true ∧
     (∀ m, f_failure f = FProtocol m → k = 0%nat)) ∧
  (∀ f, outcome = Err f → f_retryable f = false ∨ last = 8%nat ∨
     (last ≥ 1)%nat ∧ ∃ m, f_failure f = FProtocol m).
Proof.
  unfold attempts.
  set (Q := λ (p : nat * result ModelCycleFailure A), (p.1 ≤ 8)%nat ∧ p.2 = attempt p.1 ∧
    (∀ k, (k < p.1)%nat → ∃ f, attempt k = Err f ∧ f_retryable f = true ∧
       (∀ m, f_failure f = FProtocol m → k = 0%nat)) ∧
    (∀ f, p.2 = Err f → f_retryable f = false ∨ p.1 = 8%nat ∨
       (p.1 ≥ 1)%nat ∧ ∃ m, f_failure f = FProtocol m)).
  enough (Q (run (attempt_turn attempt) (attempt_decreases attempt) 0%nat)) as H by by destruct run.
  set (I := λ n, (n ≤ 8)%nat ∧ ∀ k, (k < n)%nat → ∃ f, attempt k = Err f ∧
     f_retryable f = true ∧ (∀ m, f_failure f = FProtocol m → k = 0%nat)).
  apply (run_invariant _ _ (attempt_decreases attempt) I (λ _, Q)).
  - intros n r [Hn Hk]. unfold attempt_turn. destruct (attempt n) as [a|f] eqn:E.
    { intros [= <-]. unfold Q. cbn. rewrite E. naive_solver. }
    destruct (should_retry f (Z.of_nat n)) eqn:Er; intros [= <-]. unfold Q. cbn. rewrite E.
    do 3 (split; [done|]). intros ? [= <-]. unfold should_retry in Er.
    destruct (f_retryable f); [|by left]. cbn in Er. right.
    unfold MAX_MODEL_RETRIES, MAX_PROTOCOL_RETRIES in Er.
    destruct (f_failure f); rewrite Z.ltb_ge in Er; try (left; lia). right. split; [lia|by eexists].
  - intros n n' [Hn Hk]. unfold attempt_turn. destruct (attempt n) as [a|f] eqn:E; [done|].
    destruct (should_retry f (Z.of_nat n)) eqn:Er; intros [= <-]. split; [|done].
    apply should_retry_bound in Er as (H1 & H2 & H3).
    unfold MAX_MODEL_RETRIES, MAX_PROTOCOL_RETRIES in *. split; [lia|]. intros k Hlt.
    destruct (decide (k = n)) as [->|]; [|apply Hk; lia]. exists f. split; [done|].
    split; [done|]. intros m Hm. specialize (H3 m Hm). lia.
  - split; [lia|]. intros k Hk. lia.
Qed.

(** ** Witnesses *)
Definition sample_usage : Usage := MkUsage (Some 12) (Some 12) (Some 3) (Some 15) None None None.
Definition sample_stream : list (Z * polled) :=
  (λ e, (7, Item (Ok e))) <$>
    [MStart (lit "m1"); MThinkingStart; MThinkingDelta (lit "so"); MThinkingEnd;
     MTextStart; MTextDelta (lit "he"); MTextDelta (lit "llo"); MTextEnd;
     MToolCallStart 4 (lit "c4") (lit "read file"); MToolCallStart 2 (lit "c2") (lit "ls");
     MToolCallArgumentsDelta 4 (lit "{"); MToolCallArgumentsDelta 4 (lit "}");
     MToolCallEnd 4; MToolCallEnd 2; MUsage sample_usage; MDone FinishToolUse].
Definition sample_result : ModelCycleResult :=
  MkCycleResult (lit "m1") (lit "hello") (lit "so") None
    [MkToolCall 2 (lit "c2") (lit "m1") (lit "ls") [] (JObject []) None;
     MkToolCall 4 (lit "c4") (lit "m1") (lit "read_file") (lit "{}") (JObject []) None]
    (Some sample_usage) FinishToolUse.

Lemma cycle_result_of_events_witness : ∃ s es rest,
  consume_model_cycle (SJ := Samples.tiny_json) None (sample_stream ++ [(7, StreamEnd false)])
    = Some (s, Ok sample_result) ∧
  (snd <$> (sample_stream ++ [(7, StreamEnd false)])) =
    ((λ e, Item (Ok e)) <$> (es ++ [MDone FinishToolUse])) ++ StreamEnd false :: rest ∧
  r_text sample_result = texts es.
Proof.
  eexists.
  assert (consume_model_cycle (SJ := Samples.tiny_json) None
    (sample_stream ++ [(7, StreamEnd false)]) = Some (_, Ok sample_result)) as E
    by (vm_compute; reflexivity).
  destruct (cycle_result_of_events (SJ := Samples.tiny_json) _ _ _ _ E)
    as (es & rest & H1 & _ & _ & H2 & _).
  exists es, rest. split; [exact E|]. split; [exact H1|exact H2].
Defined.

Lemma cycle_client_view_witness : ∃ s v,
  consume_model_cycle (SJ := Samples.tiny_json) (Some 100%nat)
    (sample_stream ++ [(7, StreamEnd false)]) = Some (s, Ok sample_result) ∧
  replay (sent (c_client s)) = Some v ∧ v_text v = lit "hello".
Proof.
  eexists.
  assert (consume_model_cycle (SJ := Samples.tiny_json) (Some 100%nat)
    (sample_stream ++ [(7, StreamEnd false)]) = Some (_, Ok sample_result)) as E
    by (vm_compute; reflexivity).
  destruct (cycle_client_view (SJ := Samples.tiny_json) _ _ _ _ E)
    as (v & H1 & _ & _ & H2 & _).
  exists v. split; [exact E|]. split; [exact H1|exact H2].
Defined.
