(* ===== verification/Provider.v ===== *)
(** * Provider: what the three provider adapters share

    server/src/provider/mod.rs and event.rs.  An adapter is a stream of [ModelEvent]s made from
    the server-sent events of a response: a computation of [Yield], which has yielded some
    events and then returned or failed, as [try_stream!] does.  The stream of server-sent
    events (the crate eventsource_stream over the body reqwest reads) is the input: its items
    in order, or the cancellation where it comes first. *)

From stdpp Require Import prelude gmap strings list sorting.
From S2P Require Import Prelude Errors External Json Message Budget ModelCycle.
Local Open Scope Z_scope.

(** ** The items of a response *)

Record SseEvent : Type := MkSse { sse_event : str; sse_data : str }.
Inductive SseError : Type :=
  | SseTransport (error : Error) | SseUtf8 (message : str) | SseParser (message : str).
Inductive sse_input : Type :=
  | SseItem (item : result SseError SseEvent)
  | SseCancelled.

(** server/src/provider/mod.rs:35-48, [map_sse_error]. *)
Definition map_sse_error (label : string) (error : SseError) : Error :=
  match error with
  | SseTransport error => error
  | SseUtf8 message => Provider (lit label ++ lit " SSE UTF-8 error: " ++ message)
  | SseParser message => Provider (lit label ++ lit " SSE parse error: " ++ message)
  end.

Definition first_some {A} (l : list (option A)) : option A :=
  foldr (λ x acc, match x with Some _ => x | None => acc end) None l.

(** [&s[n..]], of an offset in bytes that is a character boundary. *)
Fixpoint drop_bytes (n : Z) (s : str) : str :=
  match s with
  | [] => []
  | c :: s' => if n <=? 0 then s else drop_bytes (n - len_utf8 c) s'
  end.
Lemma drop_bytes_app s t : drop_bytes (str_len s) (s ++ t) = t.
Proof.
  induction s as [|c s IH]; cbn [app].
  - by destruct t.
  - rewrite str_len_cons. cbn [drop_bytes]. pose proof (len_utf8_bound c). pose proof (str_len_bound s).
    rewrite (proj2 (Z.leb_gt _ _)) by (unfold zlen in *; lia). by replace (len_utf8 c + str_len s - len_utf8 c) with (str_len s) by lia.
Qed.

(** [get(name).filter(|v| !v.is_null())]. *)
Definition not_null (v : option json) : option json :=
  v ← v; match v with JNull => None | v => Some v end.

(** server/src/provider/mod.rs:50-79, [provider_event_error]. *)
Definition provider_event_error (label : string) (value : json) : option Error :=
  let kind := get_str "type" value in
  let direct := not_null (get_member "error" value) in
  if negb (bool_decide (kind = Some (lit "error")) || bool_decide (kind = Some (lit "response.failed")))
     && bool_decide (direct = None)
  then None
  else
    let message := default (lit "provider returned an error event without a message") (first_some
      [get_str "message" value;
       pointer ["error"; "message"] value ≫= as_str;
       pointer ["response"; "error"; "message"] value ≫= as_str;
       direct ≫= as_str;
       pointer ["response"; "error"] value ≫= as_str]%string) in
    Some (Provider (lit label ++ lit " error: " ++ message)).

(** The members of a request the extra parameters may not replace. *)
Definition RESERVED_PARAMS : list string :=
  ["model"; "stream"; "messages"; "input"; "tools"; "system"; "instructions"; "prompt_cache_key"].
Definition reserved_param (name : str) : bool := existsb (λ n, bool_decide (name = lit n)) RESERVED_PARAMS.

(** server/src/provider/mod.rs:81-107, [merge_extra_params]: the loop. *)
Fixpoint merge_params (body : list (str * json)) (extra : list (str * json)) : res (list (str * json)) :=
  match extra with
  | [] => Ok body
  | (name, value) :: extra =>
      if reserved_param name then Err (Config (lit "model extra params cannot replace " ++ name))
      else merge_params (map_insert name value body) extra
  end.
(** server/src/provider/mod.rs:81-107, [merge_extra_params]. *)
Definition merge_extra_params (body extra : json) : res json :=
  extra ← ok_or (as_object extra) (Config (lit "model extra params must be an object"));
  body ← ok_or (as_object body) (Provider (lit "provider request body must be an object"));
  JObject <$> merge_params body extra.

(** server/src/provider/mod.rs:109-120, [apply_openai_prompt_cache_key]. *)
Definition apply_openai_prompt_cache_key (body : json) (model_id : str) : res json :=
  if negb (str_contains (lit "gpt") (to_ascii_lower <$> model_id)) then Ok body
  else
    members ← ok_or (as_object body) (Provider (lit "provider request body must be an object"));
    Ok (JObject (map_insert (lit "prompt_cache_key") (text "cursor-byok") members)).

(** The value an extra parameter gives a member. *)
Fixpoint extra_of (name : str) (extra : list (str * json)) : option json :=
  match extra with
  | [] => None
  | (k, v) :: extra =>
      match extra_of name extra with Some v => Some v | None => if decide (k = name) then Some v else None end
  end.
Lemma merge_params_spec extra : ∀ body, match merge_params body extra with
  | Ok merged => Forall (λ p, reserved_param p.1 = false) extra ∧ ∀ name, get_member name (JObject merged) =
      match extra_of (lit name) extra with Some v => Some v | None => get_member name (JObject body) end
  | Err e => ∃ name, name ∈ extra.*1 ∧ reserved_param name = true ∧
      e = Config (lit "model extra params cannot replace " ++ name)
  end.
Proof.
  induction extra as [|[k v] extra IH]; intros body; cbn [merge_params extra_of fmap list_fmap fst]; [by split|].
  destruct (reserved_param k) eqn:Ek; [exists k; split_and!; [by left|done..]|].
  specialize (IH (map_insert k v body)). destruct (merge_params _ extra) as [merged|e].
  - destruct IH as [H1 H2]. split; [by constructor|]. intros name. rewrite H2, get_insert.
    destruct (extra_of (lit name) extra); [done|]. by destruct (decide (k = lit name)).
  - destruct IH as (name & H1 & H2 & H3). exists name. split_and!; [by right|done..].
Qed.

(** The extra parameters of a model are merged into the body of its request member by member, the
    extra value winning, but never into a member the adapter owns (the model, the messages, the tools, the
    stream flag, ...): such a parameter is an error, so is one that is not an object. *)
Theorem merge_extra_params_spec members extra :
  match merge_extra_params (JObject members) extra with
  | Ok merged => ∃ params, extra = JObject params ∧
      Forall (λ p, reserved_param p.1 = false) params ∧
      ∀ name, get_member name merged =
        match extra_of (lit name) params with Some v => Some v | None => get_member name (JObject members) end
  | Err e => match extra with
             | JObject params => ∃ name, name ∈ params.*1 ∧ reserved_param name = true ∧
                 e = Config (lit "model extra params cannot replace " ++ name)
             | _ => e = Config (lit "model extra params must be an object")
             end
  end.
Proof.
  unfold merge_extra_params. destruct extra as [| | | | |params]; cbn [as_object ok_or mbind result_bind]; try done.
  pose proof (merge_params_spec params members) as H. destruct (merge_params members params) as [merged|e]; [|done].
  destruct H as [H1 H2]. by exists params.
Qed.

Lemma extra_unreserved name params : Forall (λ p : str * json, reserved_param p.1 = false) params →
  reserved_param name = true → extra_of name params = None.
Proof.
  intros H Hn. induction H as [|[k v] params Hk H IH]; [done|]. cbn. rewrite IH.
  destruct (decide (k = name)) as [->|]; [|done]. enough (true = false) by done. rewrite <- Hn. exact Hk.
Qed.
(** The adapter's members survive the rest of the body. *)
Lemma merge_keeps body extra merged name : merge_extra_params body extra = Ok merged → reserved_param (lit name) = true →
  get_member name merged = get_member name body ∧ is_Some (as_object merged).
Proof.
  unfold merge_extra_params. intros H Hn. destruct extra as [| | | | |params]; try done. destruct body as [| | | | |members]; try done.
  cbn [as_object ok_or mbind result_bind] in H. pose proof (merge_params_spec params members) as Hs.
  destruct (merge_params members params) as [m|]; [|done]. injection H as <-. destruct Hs as [H1 H2].
  rewrite H2, extra_unreserved by done. by split.
Qed.
Lemma cache_key_keeps body id keyed name : apply_openai_prompt_cache_key body id = Ok keyed →
  name ≠ "prompt_cache_key"%string → get_member name keyed = get_member name body.
Proof.
  unfold apply_openai_prompt_cache_key. intros H Hn. destruct (negb _); [by injection H as <-|].
  destruct body; try done. injection H as <-. rewrite get_insert, decide_False; [done|]. intros E. by apply lit_inj in E.
Qed.

(** ** Streams that yield and may fail *)

Definition Yield (A : Type) : Type := list ModelEvent * res A.
Global Instance yield_ret : MRet Yield := λ A a, ([], Ok a).
Global Instance yield_bind : MBind Yield := λ A C k m,
  match m with
  | (events, Ok a) => let '(more, r) := k a in (events ++ more, r)
  | (events, Err e) => (events, Err e)
  end.
Definition yield (event : ModelEvent) : Yield () := ([event], Ok ()).
Definition yield_all (events : list ModelEvent) : Yield () := (events, Ok ()).
(** [r?]. *)
Definition attempt {A} (r : res A) : Yield A := ([], r).
Definition yield_when (b : bool) (event : ModelEvent) : Yield () := yield_all (if b then [event] else []).

(** The items of the stream: what is yielded, then the error. *)
Definition items {A} (y : Yield A) : list (res ModelEvent) :=
  (Ok <$> y.1) ++ match y.2 with Ok _ => [] | Err e => [Err e] end.

Lemma yield_bind_ok {A C} (m : Yield A) (k : A → Yield C) events c :
  (m ≫= k) = (events, Ok c) ↔ ∃ e1 a e2, m = (e1, Ok a) ∧ k a = (e2, Ok c) ∧ events = e1 ++ e2.
Proof.
  unfold mbind, yield_bind. destruct m as [e1 [a|e]]; split.
  - destruct (k a) as [e2 r] eqn:E. intros [= <- ->]. by exists e1, a, e2.
  - intros (x & y & z & [= <- <-] & -> & ->). done.
  - done.
  - by intros (x & y & z & ? & _).
Qed.

(** A [BTreeMap] by increasing key. *)
Definition key_le {A} (a b : Z * A) : Prop := a.1 ≤ b.1.
#[global] Instance key_le_dec {A} (a b : Z * A) : Decision (key_le a b) := decide (a.1 ≤ b.1).
Definition btree {A} (m : gmap Z A) : list (Z * A) := merge_sort key_le (map_to_list m).
Lemma elem_of_btree {A} (m : gmap Z A) i x : (i, x) ∈ btree m ↔ m !! i = Some x.
Proof. unfold btree. by rewrite merge_sort_Permutation, elem_of_map_to_list. Qed.
Lemma NoDup_btree {A} (m : gmap Z A) : NoDup (btree m).*1.
Proof. unfold btree. rewrite merge_sort_Permutation. apply NoDup_fst_map_to_list. Qed.

(** The loop over the source; it ends with the state, or with [None] when it was cancelled. *)
Section Loop.
Context {SJ : SerdeJson} {St : Type} (label : string).
(** The event that ends the loop, what it does to the state, and what another one does. *)
Context (marker : SseEvent → bool) (marked : St → St) (handle : St → SseEvent → json → Yield St).

Fixpoint sse_loop (s : St) (inputs : list sse_input) : Yield (option St) :=
  match inputs with
  | [] => mret (Some s)
  | SseCancelled :: _ => mret None
  | SseItem (Err error) :: _ => attempt (Err (map_sse_error label error))
  | SseItem (Ok event) :: inputs =>
      if marker event then mret (Some (marked s))
      else
        value ← attempt (map_err Json (from_str (sse_data event)));
        _ ← attempt (match provider_event_error label value with Some error => Err error | None => Ok () end);
        s ← handle s event value;
        sse_loop s inputs
  end.

(** The events the loop handles, with their values, and whether a marker ended it. *)
Fixpoint sse_values (inputs : list sse_input) : list (SseEvent * json) * bool :=
  match inputs with
  | SseItem (Ok event) :: inputs =>
      if marker event then ([], true)
      else match from_str (sse_data event) with
           | Ok value => let '(vs, m) := sse_values inputs in ((event, value) :: vs, m)
           | Err _ => ([], false)
           end
  | _ => ([], false)
  end.
End Loop.

(** ** A stream through the cycle

    [runs c events P]: the cycle takes the events one by one from [c], at whatever times, and [P]
    holds of the state it reaches; what may stop it is only what no adapter can know
    ([excused]): a client that is gone, or a call id the provider used twice. *)
Definition excused (f : RunFailure) : Prop :=
  f = FProtocol (lit "client event channel closed") ∨ f = FClient (lit "client event channel closed") ∨
  f = FProtocol (lit "provider reused a tool call_id").

Section Through.
Context {SJ : SerdeJson}.

Fixpoint runs (c : Cycle) (events : list ModelEvent) (P : Cycle → Prop) : Prop :=
  match events with
  | [] => P c
  | e :: events =>
      c_finish c = None ∧ ∀ now,
      match on_event now c e with
      | (c', Ok _) => runs c' events P
      | (_, Err f) => excused f
      end
  end.

Lemma runs_weaken c events (P Q : Cycle → Prop) : runs c events P → (∀ c, P c → Q c) → runs c events Q.
Proof.
  revert c. induction events as [|e events IH]; intros c H HPQ; [by apply HPQ|].
  destruct H as [Hf H]. split; [done|]. intros now. specialize (H now).
  destruct (on_event now c e) as [c' [u|f]]; [by apply IH|done].
Qed.
Lemma runs_app c es es' P : runs c (es ++ es') P ↔ runs c es (λ c, runs c es' P).
Proof.
  revert c. induction es as [|e es IH]; intros c; [done|]. cbn [app runs]. split.
  - intros [Hf H]. split; [done|]. intros now. specialize (H now).
    destruct (on_event now c e) as [c' [u|f]]; [by apply IH|done].
  - intros [Hf H]. split; [done|]. intros now. specialize (H now).
    destruct (on_event now c e) as [c' [u|f]]; [by apply IH|done].
Qed.
Lemma runs_nil c (P : Cycle → Prop) : P c → runs c [] P.
Proof. done. Qed.
Lemma runs_one c e (P : Cycle → Prop) : c_finish c = None →
  (∀ now, match on_event now c e with (c', Ok _) => P c' | (_, Err f) => excused f end) → runs c [e] P.
Proof. by split. Qed.

(** *** Events *)

Lemma runs_emit c e (P : Cycle → Prop) (next : Z → Cycle) (ev : Z → RunEvent) : c_finish c = None →
  (∀ now, on_event now c e = emit_to (next now) (ev now)) →
  (∀ now ch, P (set_client (next now) ch)) → runs c [e] P.
Proof.
  intros Hf He HP. apply runs_one; [done|]. intros now. rewrite He. unfold emit_to.
  destruct (send (c_client (next now)) (ev now)) as [ch []]; [apply HP|by left].
Qed.
Lemma runs_start c id (P : Cycle → Prop) : c_finish c = None → c_model_call_id c = None →
  P (set_model_call_id c id) → runs c [MStart id] P.
Proof. intros Hf Hm HP. apply runs_one; [done|]. intros now. cbn. by rewrite Hm. Qed.
Lemma runs_text_start c id (P : Cycle → Prop) : c_finish c = None → c_model_call_id c = Some id → c_text_open c = false →
  (∀ ch, P (set_client (set_text_open c true) ch)) → runs c [MTextStart] P.
Proof. intros Hf Hm Ht HP. eapply runs_emit; [done|intros now; cbn; by rewrite Hm, Ht|auto]. Qed.
Lemma runs_text_delta c d (P : Cycle → Prop) : c_finish c = None → c_text_open c = true →
  (∀ ch, P (set_client (set_text c (c_text c ++ d)) ch)) → runs c [MTextDelta d] P.
Proof. intros Hf Ht HP. eapply runs_emit; [done|intros now; cbn; by rewrite Ht|auto]. Qed.
Lemma runs_text_end c (P : Cycle → Prop) : c_finish c = None → c_text_open c = true →
  (∀ ch, P (set_client (set_text_open c false) ch)) → runs c [MTextEnd] P.
Proof. intros Hf Ht HP. eapply runs_emit; [done|intros now; cbn; by rewrite Ht|auto]. Qed.
Lemma runs_thinking_start c id (P : Cycle → Prop) : c_finish c = None → c_model_call_id c = Some id → c_thinking c = None →
  (∀ now ch, P (set_client (set_thinking c (Some now)) ch)) → runs c [MThinkingStart] P.
Proof.
  intros Hf Hm Ht HP. eapply (runs_emit c MThinkingStart P (λ now, set_thinking c (Some now)) (λ _, RThinkingStart));
    [done|intros now; cbn; by rewrite Hm, Ht|done].
Qed.
Lemma runs_thinking_delta c d (P : Cycle → Prop) : c_finish c = None → c_thinking c ≠ None →
  (∀ ch, P (set_client (set_reasoning c (c_reasoning c ++ d)) ch)) → runs c [MThinkingDelta d] P.
Proof.
  intros Hf Ht HP. destruct (c_thinking c) as [t|] eqn:E; [|done].
  eapply runs_emit; [done|intros now; cbn; by rewrite E|auto].
Qed.
Lemma runs_thinking_end c (P : Cycle → Prop) : c_finish c = None → c_thinking c ≠ None →
  (∀ ch, P (set_client (set_thinking c None) ch)) → runs c [MThinkingEnd] P.
Proof.
  intros Hf Ht HP. destruct (c_thinking c) as [t|] eqn:E; [|done].
  eapply (runs_emit c MThinkingEnd P (λ _, set_thinking c None) (λ now, RThinkingEnd (Z.max 0 (now - t))));
    [done|intros now; cbn; by rewrite E|done].
Qed.
Lemma runs_tool_start c m i id nm (P : Cycle → Prop) : c_finish c = None → c_model_call_id c = Some m → c_tools c !! i = None →
  (∀ ch, P (set_client (set_tools (set_call_ids c ({[id]} ∪ c_call_ids c))
     (<[i := MkOpenTool (MkToolCall i id m (normalize_tool_name nm) [] JNull None) false]> (c_tools c))) ch)) →
  runs c [MToolCallStart i id nm] P.
Proof.
  intros Hf Hm Ht HP. apply runs_one; [done|]. intros now. cbn [on_event]. unfold on_tool_call_start. rewrite Hm, Ht.
  destruct (decide (id ∈ c_call_ids c)); [by right; right|]. unfold emit_to. destruct (send _ _) as [ch []]; [apply HP|by left].
Qed.
Lemma runs_tool_delta c i call d (P : Cycle → Prop) : c_finish c = None → c_tools c !! i = Some (MkOpenTool call false) →
  (∀ ch, P (set_client (set_tools c (<[i := MkOpenTool (MkToolCall (index call) (call_id call) (model_call_id call)
     (name call) (arguments_text call ++ d) (arguments call) (argument_error call)) false]> (c_tools c))) ch)) →
  runs c [MToolCallArgumentsDelta i d] P.
Proof.
  intros Hf Ht HP. eapply runs_emit; [done|intros now; cbn [on_event]; unfold on_tool_call_delta; by rewrite Ht|auto].
Qed.
Lemma runs_tool_end c i call (P : Cycle → Prop) : c_finish c = None → c_tools c !! i = Some (MkOpenTool call false) →
  (∀ ch, P (set_client (set_tools c (<[i := MkOpenTool (close_call call) true]> (c_tools c))) ch)) →
  runs c [MToolCallEnd i] P.
Proof.
  intros Hf Ht HP. eapply runs_emit; [done|intros now; cbn [on_event]; unfold on_tool_call_end; by rewrite Ht|auto].
Qed.
Lemma runs_replay c v (P : Cycle → Prop) : c_finish c = None → c_replay c = None → P (set_replay c v) → runs c [MReplayState v] P.
Proof. intros Hf Hr HP. apply runs_one; [done|]. intros now. cbn. by rewrite Hr. Qed.
Lemma runs_usage c u (P : Cycle → Prop) : c_finish c = None → c_usage c = None →
  (∀ ch, P (set_client (set_usage c u) ch)) → runs c [MUsage u] P.
Proof.
  intros Hf Hu HP. apply runs_one; [done|]. intros now. cbn. rewrite Hu.
  destruct (send _ _) as [ch []]; [apply HP|by right; left].
Qed.
Lemma runs_done c id reason (P : Cycle → Prop) : c_finish c = None → c_model_call_id c = Some id → block_open c = false →
  P (set_finish c reason) → runs c [MDone reason] P.
Proof. intros Hf Hm Hb HP. apply runs_one; [done|]. intros now. cbn. by rewrite Hm, Hb. Qed.

(** The cycle ignores the events only a gateway reads. *)
Lemma runs_ignored c e (P : Cycle → Prop) : (∃ x, e = MThinkingSignature x ∨ e = MStopSequence x) → c_finish c = None →
  P c → runs c [e] P.
Proof. intros [x [-> | ->]] Hf HP; by apply runs_one. Qed.

(** The cycle over a stream whose items arrive at some times. *)
Lemma cycle_runs events : ∀ c P timed rest, runs c events P → (snd <$> timed) = events → ∀ c' r,
  cycle_loop c (((λ p, (p.1, Item (Ok p.2))) <$> timed) ++ rest) = Some (c', r) →
  (∃ c1, P c1 ∧ cycle_loop c1 rest = Some (c', r)) ∨
  (∃ f, r = Err f ∧ excused (f_failure f)).
Proof.
  induction events as [|e events IH]; intros c P [|[now e'] timed] rest H E c' r; try done.
  - cbn. intros Hl. left. by exists c.
  - destruct H as [Hf H]. injection E as -> E. cbn [fmap list_fmap app cycle_loop fst snd]. specialize (H now).
    unfold cycle_turn. rewrite Hf. destruct (on_event now c e) as [c1 [[]|f]].
    + by apply IH.
    + intros [= <- <-]. right. eexists. by split.
Qed.

(** [sound c y P]: the cycle takes what [y] yields from [c], and [P] holds of what [y] returns and of
    the state that is reached. *)
Definition sound {A} (c : Cycle) (y : Yield A) (P : A → Cycle → Prop) : Prop :=
  runs c y.1 (λ c', match y.2 with Ok a => P a c' | Err _ => True end).

Lemma sound_ret {A} c (a : A) (P : A → Cycle → Prop) : P a c → sound c (mret a) P.
Proof. done. Qed.
Lemma sound_err {A} c e (P : A → Cycle → Prop) : sound c (attempt (Err e)) P.
Proof. done. Qed.
Lemma sound_attempt {A} c (r : res A) (P : A → Cycle → Prop) : (∀ a, r = Ok a → P a c) → sound c (attempt r) P.
Proof. destruct r as [a|e]; [intros H; by apply (H a)|done]. Qed.
Lemma sound_bind {A C} c (m : Yield A) (k : A → Yield C) (P : A → Cycle → Prop) (Q : C → Cycle → Prop) :
  sound c m P → (∀ a c', P a c' → sound c' (k a) Q) → sound c (m ≫= k) Q.
Proof.
  unfold sound. intros Hm Hk. destruct m as [events [a|e]]; cbn in *; [|done].
  destruct (k a) as [more r] eqn:E. cbn. apply runs_app. eapply runs_weaken; [exact Hm|].
  intros c' Hc. specialize (Hk a c' Hc). by rewrite E in Hk.
Qed.
Lemma sound_weaken {A} c (m : Yield A) (P Q : A → Cycle → Prop) : sound c m P → (∀ a c', P a c' → Q a c') → sound c m Q.
Proof.
  unfold sound. intros H HPQ. eapply runs_weaken; [exact H|]. intros c'. destruct m.2; [apply HPQ|done].
Qed.
Lemma sound_all c events (P : Cycle → Prop) : runs c events P → sound c (yield_all events) (λ _, P).
Proof. done. Qed.
Lemma sound_yield c e (P : Cycle → Prop) : runs c [e] P → sound c (yield e) (λ _, P).
Proof. done. Qed.
Lemma sound_when c b e (P : Cycle → Prop) : (b = true → runs c [e] P) → (b = false → P c) →
  sound c (yield_when b e) (λ _, P).
Proof. destruct b; intros H1 H2; [by apply H1|by apply H2]. Qed.

Section SoundLoop.
Context {St : Type} (label : string) (marker : SseEvent → bool) (marked : St → St) (handle : St → SseEvent → json → Yield St).
(** The loop keeps what every turn keeps of the values so far, the first of [all]. *)
Lemma sound_loop_of all (I : list (SseEvent * json) → St → Cycle → Prop) :
  (∀ vs s c event v, vs ++ [(event, v)] `prefix_of` all → I vs s c → sound c (handle s event v) (I (vs ++ [(event, v)]))) →
  ∀ inputs vs s c, vs ++ (sse_values marker inputs).1 `prefix_of` all → I vs s c →
  sound c (sse_loop label marker marked handle s inputs)
    (λ o c', match o with
             | Some s' => ∃ s1, I (vs ++ (sse_values marker inputs).1) s1 c' ∧
                 s' = (if (sse_values marker inputs).2 then marked s1 else s1)
             | None => SseCancelled ∈ inputs ∧ ∃ s1, I (vs ++ (sse_values marker inputs).1) s1 c'
             end).
Proof.
  intros Hh inputs. induction inputs as [|[[event|error]|] inputs IH]; intros vs s c Hpre HI; cbn [sse_loop sse_values] in *.
  - apply sound_ret. exists s. by rewrite app_nil_r.
  - destruct (marker event); [apply sound_ret; exists s; by rewrite app_nil_r|].
    eapply sound_bind; [apply (sound_attempt _ _ (λ v c', from_str (sse_data event) = Ok v ∧ c' = c))|].
    { intros v Hv. destruct (from_str (sse_data event)); [by injection Hv as ->|done]. }
    intros v c1 [Hv ->]. rewrite Hv in Hpre |- *. eapply sound_bind; [apply (sound_attempt _ _ (λ _ c', c' = c)); done|].
    intros u c1 ->. destruct (sse_values marker inputs) as [vs' m]. cbn [fst snd] in *.
    replace (vs ++ (event, v) :: vs') with ((vs ++ [(event, v)]) ++ vs') in Hpre by (by rewrite <- app_assoc).
    eapply sound_bind; [apply Hh; [etransitivity; [|exact Hpre]; by eexists|done]|]. intros s1 c1 H1.
    eapply sound_weaken; [by apply (IH (vs ++ [(event, v)]))|]. intros [s2|] c2.
    + intros (s3 & H3 & ->). exists s3. by rewrite <- app_assoc in H3.
    + intros [Hx [s3 Hi]]. split; [by right|]. exists s3. by rewrite <- app_assoc in Hi.
  - apply sound_err.
  - apply sound_ret. split; [by left|]. exists s. by rewrite app_nil_r.
Qed.
Lemma sound_loop (I : list (SseEvent * json) → St → Cycle → Prop) :
  (∀ vs s c event v, I vs s c → sound c (handle s event v) (I (vs ++ [(event, v)]))) →
  ∀ inputs vs s c, I vs s c →
  sound c (sse_loop label marker marked handle s inputs)
    (λ o c', match o with
             | Some s' => ∃ s1, I (vs ++ (sse_values marker inputs).1) s1 c' ∧
                 s' = (if (sse_values marker inputs).2 then marked s1 else s1)
             | None => SseCancelled ∈ inputs ∧ ∃ s1, I (vs ++ (sse_values marker inputs).1) s1 c'
             end).
Proof. intros Hh inputs vs s c HI. eapply sound_loop_of; [intros; by apply Hh|reflexivity|done]. Qed.
End SoundLoop.

(** The cycle over the whole stream. *)
Lemma cycle_sound {A} client (y : Yield A) (P : A → Cycle → Prop) timed t c r :
  sound (new_cycle client) y P → (snd <$> timed) = items y →
  consume_model_cycle client (((λ p, (p.1, Item p.2)) <$> timed) ++ [(t, StreamEnd false)]) = Some (c, r) →
  (∃ a c1, y.2 = Ok a ∧ P a c1 ∧ r = finish_cycle c1) ∨
  ∃ f, r = Err f ∧ (excused (f_failure f) ∨ ∃ e, y.2 = Err e ∧ f_failure f = run_failure_of_error e).
Proof.
  intros Hs Ht H. unfold sound in Hs. unfold consume_model_cycle in H. destruct y as [events r0]. cbn in *.
  unfold items in Ht. cbn in Ht.
  assert (∃ timed1 timed2, timed = ((λ p, (p.1, Ok p.2)) <$> timed1) ++ timed2 ∧ timed1.*2 = events ∧
    timed2.*2 = match r0 with Ok _ => [] | Err e => [Err e] end) as (t1 & t2 & -> & E1 & E2).
  { clear -Ht. revert events Ht. induction timed as [|[n i] timed IH]; intros [|e events] Ht; cbn in Ht.
    - by exists [], [].
    - done.
    - exists [], ((n, i) :: timed). by split_and!.
    - injection Ht as -> Ht. destruct (IH _ Ht) as (t1 & t2 & -> & <- & E2). exists ((n, e) :: t1), t2. by split_and!. }
  rewrite fmap_app, <- list_fmap_compose, <- app_assoc in H.
  change ((λ p, (p.1, Item p.2)) ∘ (λ p : Z * ModelEvent, (p.1, @Ok Error ModelEvent p.2)))
    with (λ p : Z * ModelEvent, (p.1, Item (Ok p.2))) in H.
  destruct (cycle_runs _ _ _ _ _ Hs E1 _ _ H) as [(c1 & HP & Hl)|(f & -> & Hx)]; [|right; exists f; auto].
  destruct r0 as [a|e].
  - destruct t2 as [|]; [|done]. left. exists a, c1. split_and!; [done..|]. cbn in Hl. by injection Hl as _ <-.
  - destruct t2 as [|[n i] [|]]; try done. cbn in E2. injection E2 as ->. cbn in Hl. injection Hl as _ <-.
    right. eexists. split; [reflexivity|]. right. by exists e.
Qed.

(** *** The calls of the cycle *)

(** Only the tools [l] of the cycle changed. *)
Record only_tools (l : list Z) (c c' : Cycle) : Prop := {
  ot_id : c_model_call_id c' = c_model_call_id c;
  ot_finish : c_finish c' = c_finish c;
  ot_text_open : c_text_open c' = c_text_open c;
  ot_thinking : c_thinking c' = c_thinking c;
  ot_reasoning : c_reasoning c' = c_reasoning c;
  ot_usage : c_usage c' = c_usage c;
  ot_replay : c_replay c' = c_replay c;
  ot_text : c_text c' = c_text c;
  ot_others j : j ∉ l → c_tools c' !! j = c_tools c !! j
}.
#[global] Instance only_tools_preorder l : PreOrder (only_tools l).
Proof.
  split; [by split|]. intros x y z [A1 A2 A3 A4 A5 A6 A7 A8 A9] [B1 B2 B3 B4 B5 B6 B7 B8 B9].
  split; [congruence..|]. intros j Hj. by rewrite B9, A9.
Qed.
Lemma only_tools_weaken l l' c c' : only_tools l c c' → l ⊆ l' → only_tools l' c c'.
Proof. intros [A1 A2 A3 A4 A5 A6 A7 A8 A9] Hl. split; [done..|]. intros j Hj. apply A9. set_solver. Qed.

(** A call of the cycle, of arguments [args] so far, and one that has ended. *)
Definition open_call (m : str) (i : Z) (args : str) (o : option OpenTool) : Prop :=
  ∃ id nm, o = Some (MkOpenTool (MkToolCall i id m nm args JNull None) false).
Definition ended_call (m : str) (i : Z) (args : str) (o : option OpenTool) : Prop :=
  ∃ id nm, o = Some (MkOpenTool (close_call (MkToolCall i id m nm args JNull None)) true).

Lemma runs_open m i id nm c : c_finish c = None → c_model_call_id c = Some m → c_tools c !! i = None →
  runs c [MToolCallStart i id nm] (λ c', only_tools [i] c c' ∧ open_call m i [] (c_tools c' !! i)).
Proof.
  intros Hf Hm Hn. eapply runs_tool_start; [done..|]. intros ch. split; [split; try done|].
  - intros j Hj. cbn. rewrite lookup_insert_ne; [done|set_solver].
  - cbn. rewrite lookup_insert_eq. by do 2 eexists.
Qed.
Lemma runs_more m i d args c : c_finish c = None → open_call m i args (c_tools c !! i) →
  runs c [MToolCallArgumentsDelta i d] (λ c', only_tools [i] c c' ∧ open_call m i (args ++ d) (c_tools c' !! i)).
Proof.
  intros Hf (id & nm & Ho). eapply runs_tool_delta; [done..|]. intros ch. split; [split; try done|].
  - intros j Hj. cbn. rewrite lookup_insert_ne; [done|set_solver].
  - cbn. rewrite lookup_insert_eq. by do 2 eexists.
Qed.
Lemma runs_close m i args c : c_finish c = None → open_call m i args (c_tools c !! i) →
  runs c [MToolCallEnd i] (λ c', only_tools [i] c c' ∧ ended_call m i args (c_tools c' !! i)).
Proof.
  intros Hf (id & nm & Ho). eapply runs_tool_end; [done..|]. intros ch. split; [split; try done|].
  - intros j Hj. cbn. rewrite lookup_insert_ne; [done|set_solver].
  - cbn. rewrite lookup_insert_eq. by do 2 eexists.
Qed.

Lemma close_call_index t : index (close_call t) = index t.
Proof. unfold close_call. by destruct (match trim _ with [] => _ | _ => _ end); [destruct (is_object _)|]. Qed.
Lemma close_call_text t : arguments_text (close_call t) = arguments_text t.
Proof. unfold close_call. by destruct (match trim _ with [] => _ | _ => _ end); [destruct (is_object _)|]. Qed.

(** Blocks that are all closed let the cycle be done. *)
Lemma blocks_closed c : c_text_open c = false → c_thinking c = None →
  (∀ i t, c_tools c !! i = Some t → ot_ended t = true) → block_open c = false.
Proof.
  intros H1 H2 H3. unfold block_open. rewrite H1, H2, (bool_decide_eq_false_2 (None ≠ None)) by naive_solver. cbn.
  destruct (existsb _ _) eqn:E; [|done]. apply existsb_exists in E as ([i t] & Hin & Ht).
  apply list_elem_of_In, elem_of_map_to_list in Hin. cbn in Ht. by rewrite (H3 _ _ Hin) in Ht.
Qed.

(** What the adapter sent is what the cycle returns: the text, the reasoning, and the calls of the
    indices [seen], each with its arguments. *)
Record returns (m text reasoning : str) (seen : Z → Prop) (args : Z → str) (r : ModelCycleResult) : Prop := {
  rt_id : r_model_call_id r = m;
  rt_text : r_text r = text;
  rt_reasoning : r_reasoning r = reasoning;
  rt_seen i : i ∈ index <$> r_calls r ↔ seen i;
  rt_args call : call ∈ r_calls r → arguments_text call = args (index call)
}.
(** A response that was cancelled ends before it is done. *)
Lemma finish_cancelled c : c_finish c = None →
  ∃ x, finish_cycle c = Err x ∧ f_failure x = FProvider (lit "provider stream reached EOF before Done").
Proof. unfold finish_cycle. intros ->. by eexists. Qed.
(** The failures that end a stream that kept the protocol. *)
Definition ended_badly (f : RunFailure) : Prop :=
  f = FProtocol (lit "finish reason and tool calls disagree") ∨
  f = FTruncated (lit "model stopped before completing the response").

Lemma finish_returns m text reasoning seen args f c : c_model_call_id c = Some m → c_finish c = Some f →
  c_text c = text → c_reasoning c = reasoning → (∀ i, is_Some (c_tools c !! i) ↔ seen i) →
  (∀ i, is_Some (c_tools c !! i) → ended_call m i (args i) (c_tools c !! i)) →
  match finish_cycle c with
  | Ok r => returns m text reasoning seen args r
  | Err x => ended_badly (f_failure x)
  end.
Proof.
  intros Hm Hf Ht Hr Hs Ha. unfold finish_cycle. rewrite Hf, Hm.
  assert (∀ i t, c_tools c !! i = Some t → index (ot_call t) = i ∧ arguments_text (ot_call t) = args i) as Ht'.
  { intros i t Hi. destruct (Ha i) as (id & nm & Hx); [by rewrite Hi|]. rewrite Hi in Hx. injection Hx as ->. cbn [ot_call].
    by rewrite close_call_index, close_call_text. }
  assert (returns m text reasoning seen args (MkCycleResult m (c_text c) (c_reasoning c) (c_replay c) (into_calls (c_tools c)) (c_usage c) f)).
  { split; cbn; [done..| |].
    - intros i. rewrite <- Hs, list_elem_of_fmap. setoid_rewrite into_calls_elem. split.
      + intros (call & -> & j & t & Hj & ->). destruct (Ht' _ _ Hj) as [-> _]. by rewrite Hj.
      + intros [t Hi]. exists (ot_call t). destruct (Ht' _ _ Hi) as [E _]. split; [done|]. by exists i, t.
    - intros call. rewrite into_calls_elem. intros (i & t & Hi & ->). by destruct (Ht' _ _ Hi) as [-> ->]. }
  destruct f; [|by right|]; (destruct (negb _); [by left|done]).
Qed.

(** ** The contract of an adapter

    [Adapter stream fits text reasoning seen args]: of a response that [fits], the cycle takes what the stream yields, and
    at its end has what was sent, unless the response was cancelled before.  [adapter_conforms] is what the
    cycle makes of any adapter. *)
Record all_sent (m text reasoning : str) (seen : Z → Prop) (args : Z → str) (c : Cycle) : Prop := {
  as_id : c_model_call_id c = Some m;
  as_finish : is_Some (c_finish c);
  as_text : c_text c = text;
  as_reasoning : c_reasoning c = reasoning;
  as_seen i : is_Some (c_tools c !! i) ↔ seen i;
  as_args i : seen i → ended_call m i (args i) (c_tools c !! i)
}.
Class Adapter (stream : str → list sse_input → Yield ()) (fits : list sse_input → Prop)
    (text reasoning : list sse_input → str) (seen : list sse_input → Z → Prop) (args : list sse_input → Z → str) : Prop :=
  adapter_sound id client inputs : fits inputs →
    sound (new_cycle client) (stream id inputs)
      (λ _ c, all_sent id (text inputs) (reasoning inputs) (seen inputs) (args inputs) c ∨
              (SseCancelled ∈ inputs ∧ c_finish c = None) ∨ c_finish c = Some FinishLength).

Section Contract.
Context {stream : str → list sse_input → Yield ()} {fits : list sse_input → Prop}.
Context {text reasoning : list sse_input → str} {seen : list sse_input → Z → Prop} {args : list sse_input → Z → str}.
Context {A : Adapter stream fits text reasoning seen args}.

Lemma adapter_conforms id client inputs timed t c r : fits inputs → (snd <$> timed) = items (stream id inputs) →
  consume_model_cycle client (((λ p, (p.1, Item p.2)) <$> timed) ++ [(t, StreamEnd false)]) = Some (c, r) →
  match r with
  | Ok r => returns id (text inputs) (reasoning inputs) (seen inputs) (args inputs) r
  | Err x =>
      excused (f_failure x) ∨ ended_badly (f_failure x) ∨
      (SseCancelled ∈ inputs ∧ f_failure x = FProvider (lit "provider stream reached EOF before Done")) ∨
      ∃ e, (stream id inputs).2 = Err e ∧ f_failure x = run_failure_of_error e
  end.
Proof.
  intros Hfit Ht H.
  destruct (cycle_sound _ _ _ _ _ _ _ (adapter_sound id client inputs Hfit) Ht H)
    as [(a & c1 & E & [He|[[Hx Hf]|Hf]] & ->)|(f & -> & [Hx|Hx])].
  - destruct He as [L1 [f L2] L3 L4 L5 L6].
    pose proof (finish_returns _ _ _ _ _ _ _ L1 L2 L3 L4 L5 (λ i Hi, L6 i (proj1 (L5 i) Hi))) as Hr.
    destruct (finish_cycle c1); auto.
  - destruct (finish_cancelled c1 Hf) as (x & -> & Hx'). right; right; left. by split.
  - unfold finish_cycle. rewrite Hf. by right; left; right.
  - by left.
  - by right; right; right.
Qed.
End Contract.
End Through.
