(* ===== verification/Upstream.v ===== *)
(** * Upstream: sending a request to a provider

    server/src/upstream.rs.  [attempt] sends a request up to three times, [send] makes the
    error the run reports of what was refused.  What happens in the world is the input: how
    each request that is sent ends, and whether the wait before the next one is cancelled.  A
    status is its code with its [Display] (the crate http); a failure to send is its text and
    the kind reqwest gives it. *)

From stdpp Require Import prelude gmap strings list.
From S2P Require Import Prelude Errors External ModelCycle.
Local Open Scope Z_scope.

Record StatusLine : Type := MkStatus { st_code : Z; st_reason : str }.
(** [Display]: the code and its canonical reason. *)
Definition status_display (s : StatusLine) : str := decimal (st_code s) ++ lit " " ++ st_reason s.

(** What ends one request. *)
Inductive sent_request : Type :=
  | SentCancelled
  | SentResponse (status : StatusLine)
  | SentFailed (error : foreign_error) (is_connect : bool).

(** server/src/upstream.rs:19-19, [MAX_RETRIES]. *)
Definition MAX_RETRIES : Z := 2.
(** server/src/upstream.rs:24-25, [RETRY_BACKOFF], in milliseconds. *)
Definition RETRY_BACKOFF : list Z := [300; 1000].

(** server/src/upstream.rs:243-245, [retryable_status]. *)
Definition retryable_status (s : StatusLine) : bool := (502 <=? st_code s) && (st_code s <=? 504).
(** server/src/upstream.rs:259-261, [retry_backoff]. *)
Definition retry_backoff (retryable : bool) (retries : Z) : option Z :=
  if retryable && (retries <? MAX_RETRIES) then RETRY_BACKOFF !! Z.to_nat retries else None.

(** server/src/upstream.rs:38-50, [Attempt]. *)
Inductive Attempt : Type :=
  | Response (status : StatusLine)
  | Rejected (status : StatusLine) (retries : Z)
  | AttemptFailed (error : foreign_error) (retries : Z)
  | AttemptCancelled.

(** One turn of the loop of [attempt]: how the request ends, and, should it be retried, whether
    the wait is cancelled. *)
Definition attempt_step (sent : sent_request) (wait_cancelled : bool) (retries : Z) : flow Z Attempt :=
  let retry_or (retryable : bool) (give : Attempt) :=
    match retry_backoff retryable retries with
    | None => Done give
    | Some _ => if wait_cancelled then Done AttemptCancelled else Next (retries + 1)
    end in
  match sent with
  | SentCancelled => Done AttemptCancelled
  | SentFailed error is_connect => retry_or is_connect (AttemptFailed error retries)
  | SentResponse status =>
      if (200 <=? st_code status) && (st_code status <? 300) then Done (Response status)
      else retry_or (retryable_status status) (Rejected status retries)
  end.

(** server/src/upstream.rs:56-123, [attempt]: over what each request meets; with the number of
    requests that were sent, [None] while one is still out. *)
Fixpoint attempt_loop (retries : Z) (world : list (sent_request * bool)) : option (Attempt * nat) :=
  match world with
  | [] => None
  | (sent, wait_cancelled) :: world =>
      match attempt_step sent wait_cancelled retries with
      | Done a => Some (a, 1%nat)
      | Next retries => '(a, n) ← attempt_loop retries world; Some (a, S n)
      end
  end.
Definition upstream_attempt (world : list (sent_request * bool)) : option (Attempt * nat) := attempt_loop 0 world.

(** server/src/upstream.rs:217-223, [retry_note]. *)
Definition retry_note (retries : Z) : str :=
  if retries =? 0 then [] else lit " (after " ++ decimal retries ++ lit " retries)".

(** server/src/upstream.rs:185-199, [rejected_message]: of the text the body is read as. *)
Definition rejected_message (label : string) (status : StatusLine) (retries : Z) (body : str) : str :=
  let head := lit label ++ lit " " ++ status_display status ++ retry_note retries in
  match trim body with
  | [] => head
  | body => head ++ lit ": " ++ body
  end.

(** server/src/upstream.rs:206-214, [send_failure]. *)
Definition send_failure (label : string) (error : foreign_error) (retries : Z) : Error :=
  if retries =? 0 then Http error
  else Provider (lit label ++ lit " upstream request failed" ++ retry_note retries ++ lit ": " ++ fe_display error).

(** server/src/upstream.rs:156-160, [REJECTED_BODY_LIMIT]. *)
Definition REJECTED_BODY_LIMIT : nat := 64 * 1024.

(** server/src/upstream.rs:165-180, [read_rejected_body]: over the chunks that arrive in time; what
    ends it (the end, an error, the idle timeout) is the end of the list. *)
Fixpoint read_rejected_body (body : list Z) (chunks : list (list Z)) : list Z :=
  match chunks with
  | [] => body
  | chunk :: chunks =>
      if bool_decide (REJECTED_BODY_LIMIT < length body + length chunk)%nat then
        body ++ take (REJECTED_BODY_LIMIT - length body) chunk ++ as_bytes (32 :: 8230 :: lit "<truncated>")
      else read_rejected_body (body ++ chunk) chunks
  end.

(** server/src/upstream.rs:129-154, [send]: [None] when it was cancelled.  The body of a refusal is
    read while the cancellation is awaited; [from_utf8_lossy] is a parameter. *)
Definition send_upstream (from_utf8_lossy : list Z → str) (label : string) (world : list (sent_request * bool))
    (body_cancelled : bool) (chunks : list (list Z)) : option (res (option StatusLine)) :=
  '(a, _) ← upstream_attempt world;
  Some match a with
       | Response status => Ok (Some status)
       | AttemptCancelled => Ok None
       | Rejected status retries =>
           if body_cancelled then Ok None
           else Err (Provider (rejected_message label status retries
                       (from_utf8_lossy (read_rejected_body [] chunks))))
       | AttemptFailed error retries => Err (send_failure label error retries)
       end.

(** ** Words and heads of a message *)

Lemma split_ws_app s : ∀ acc c t, is_whitespace c = true →
  split_ws_aux acc (s ++ c :: t) = split_ws_aux acc s ++ split_whitespace t.
Proof.
  induction s as [|d s IH]; intros acc c t Hc; cbn [app split_ws_aux].
  - rewrite Hc. by destruct acc.
  - destruct (is_whitespace d); [destruct acc; cbn [app]; by rewrite IH|by apply IH].
Qed.
Lemma split_whitespace_app s t : split_whitespace (s ++ 32 :: t) = split_whitespace s ++ split_whitespace t.
Proof. by apply split_ws_app. Qed.
Lemma split_ws_word s : ∀ acc, Forall (λ c, is_whitespace c = false) s → split_ws_aux acc s =
  match reverse s ++ acc with [] => [] | w => [reverse w] end.
Proof.
  induction s as [|c s IH]; intros acc; [by destruct acc|]. intros [Hc Hs]%Forall_cons. cbn [split_ws_aux]. rewrite Hc, IH by done.
  by rewrite reverse_cons, <- app_assoc.
Qed.
(** The words of a text are made of its characters. *)
Lemma split_ws_chars (P : Z → Prop) s : ∀ acc, Forall P s → Forall P acc → Forall (Forall P) (split_ws_aux acc s).
Proof.
  induction s as [|c s IH]; intros acc Hs Ha; cbn [split_ws_aux].
  - destruct acc; [constructor|]. repeat constructor. by apply Forall_reverse.
  - apply Forall_cons in Hs as [Hc Hs]. destruct (is_whitespace c); [|by apply IH; [|by constructor]].
    destruct acc; [by apply IH|]. constructor; [by apply Forall_reverse|by apply IH].
Qed.

Definition no_colon (s : str) : Prop := Forall (λ c, c ≠ 58) s.
Lemma split_once_colon s t : no_colon s → split_once (lit ": ") (s ++ lit ": " ++ t) = Some (s, t).
Proof.
  induction 1 as [|c s Hc Hs IH]; [done|]. cbn [app split_once].
  assert (starts_with (lit ": ") (c :: s ++ lit ": " ++ t) = false) as ->.
  { apply andb_false_iff. left. apply Z.eqb_neq. change (58 ≠ c). congruence. }
  by rewrite IH.
Qed.
Lemma split_once_no_colon s : no_colon s → split_once (lit ": ") s = None.
Proof.
  change (lit ": ") with [58; 32]. induction 1 as [|c s Hc Hs IH]; [done|]. cbn [split_once starts_with].
  rewrite (proj2 (Z.eqb_neq 58 c)) by congruence. cbn. by rewrite IH.
Qed.

(** ** How often a request is sent *)

(** A request that did not reach the provider, or that its gateway turned away: no answer to it has
    begun. *)
Definition unanswered (sent : sent_request) : Prop :=
  match sent with
  | SentFailed _ is_connect => is_connect = true
  | SentResponse status => 502 ≤ st_code status ≤ 504
  | SentCancelled => False
  end.
(** What the last request gave. *)
Definition attempt_outcome (sent : sent_request) (retries : Z) (a : Attempt) : Prop :=
  a = AttemptCancelled ∨
  match sent with
  | SentResponse status => if (200 <=? st_code status) && (st_code status <? 300) then a = Response status
                           else a = Rejected status retries
  | SentFailed error _ => a = AttemptFailed error retries
  | SentCancelled => False
  end.

Lemma retry_backoff_some retryable retries d : retry_backoff retryable retries = Some d →
  retryable = true ∧ retries < 2.
Proof.
  unfold retry_backoff, MAX_RETRIES. destruct (retryable && _) eqn:E; [|done]. intros _.
  apply andb_prop in E as [-> E]. split; [done|lia].
Qed.
Lemma attempt_step_next sent w retries r : attempt_step sent w retries = Next r →
  r = retries + 1 ∧ retries < 2 ∧ w = false ∧ unanswered sent.
Proof.
  unfold attempt_step. destruct sent as [|status|error c]; [done| |].
  - destruct (_ && _); [done|]. destruct (retry_backoff _ _) eqn:E; [|done].
    apply retry_backoff_some in E as [E Hr]. destruct w; [done|]. intros [= <-]. split_and!; try done.
    unfold retryable_status in E. cbn. lia.
  - destruct (retry_backoff _ _) eqn:E; [|done].
    apply retry_backoff_some in E as [E Hr]. destruct w; [done|]. intros [= <-]. by split_and!.
Qed.
Lemma attempt_step_done sent w retries a : attempt_step sent w retries = Done a → attempt_outcome sent retries a.
Proof.
  unfold attempt_step, attempt_outcome. intros H. destruct sent; [by injection H; auto| |];
    repeat case_match; simplify_eq; auto.
Qed.
Lemma attempt_step_last sent w : ∃ a, attempt_step sent w 2 = Done a.
Proof.
  assert (∀ b, retry_backoff b 2 = None) as E by by intros [].
  unfold attempt_step. destruct sent; cbn zeta; rewrite ?E; [by eexists| |by eexists]. case_match; by eexists.
Qed.
Lemma attempt_loop_spec world : ∀ retries a n, attempt_loop retries world = Some (a, n) →
  ∃ before sent w rest, world = before ++ (sent, w) :: rest ∧ n = S (length before) ∧
    Forall (λ p, p.2 = false ∧ unanswered p.1) before ∧ (before ≠ [] → retries + zlen before ≤ 2) ∧
    attempt_outcome sent (retries + zlen before) a.
Proof.
  induction world as [|[sent w] world IH]; intros retries a n; cbn [attempt_loop]; [done|].
  destruct (attempt_step sent w retries) as [r|a'] eqn:E.
  - intros H. destruct (attempt_loop r world) as [[a1 n1]|] eqn:E1; [|done]. injection H as <- <-.
    apply attempt_step_next in E as (-> & Hr & Hw & Hu).
    destruct (IH _ _ _ E1) as (before & s1 & w1 & rest & -> & -> & Hb & Hlen & Ho).
    exists ((sent, w) :: before), s1, w1, rest. rewrite zlen_cons. split_and!; [done|done|by constructor| |].
    + intros _. destruct before as [|p before]; [rewrite zlen_nil; lia|]. specialize (Hlen ltac:(done)). lia.
    + by replace (retries + (1 + zlen before)) with (retries + 1 + zlen before) by lia.
  - intros [= <- <-]. exists [], sent, w, world. apply attempt_step_done in E. rewrite zlen_nil, Z.add_0_r. by split_and!.
Qed.

(** A request is sent at most three times, and never again once it was answered: every
    request before the last failed to connect or was turned away by a gateway with 502, 503 or
    504; the outcome is what the last request met (or the cancellation); and three requests, whatever
    they meet, decide it. *)
Theorem upstream_sends_bounded world a n : upstream_attempt world = Some (a, n) →
  (n ≤ 3)%nat ∧ ∃ before sent w rest, world = before ++ (sent, w) :: rest ∧ n = S (length before) ∧
    Forall (λ p, p.2 = false ∧ unanswered p.1) before ∧ attempt_outcome sent (zlen before) a.
Proof.
  intros H. apply attempt_loop_spec in H as (before & sent & w & rest & -> & -> & Hb & Hlen & Ho). split.
  - destruct before as [|p before]; [cbn; lia|]. specialize (Hlen ltac:(done)). unfold zlen in Hlen. cbn in *. lia.
  - by exists before, sent, w, rest.
Qed.
Lemma upstream_sends_decided p q r world : is_Some (upstream_attempt (p :: q :: r :: world)).
Proof.
  destruct p as [s1 w1], q as [s2 w2], r as [s3 w3]. unfold upstream_attempt. cbn [attempt_loop].
  destruct (attempt_step s1 w1 0) as [r1|a1] eqn:E1; [|by eexists].
  apply attempt_step_next in E1 as (-> & _). destruct (attempt_step s2 w2 (0 + 1)) as [r2|a2] eqn:E2; [|by eexists].
  apply attempt_step_next in E2 as (-> & _). destruct (attempt_step_last s3 w3) as [a3 E3].
  change (0 + 1 + 1) with 2. rewrite E3. by eexists.
Qed.

(** ** Refusals are final *)

(** The canonical reason of a status is words of letters: no digit and no colon in it. *)
Definition plain_reason (reason : str) : Prop :=
  Forall (λ c, c ≠ 58 ∧ is_ascii_digit c = false) reason.
Definition provider_label (label : string) : Prop :=
  label = "Anthropic"%string ∨ label = "OpenAI Chat"%string ∨ label = "OpenAI Responses"%string.

Lemma rejected_word_digits w : Forall (λ c, is_ascii_digit c = false) w → rejected_status w = false.
Proof.
  intros H. unfold rejected_status. destruct w as [|c w]; [done|]. apply Forall_cons in H as [H _].
  cbn [forallb]. rewrite H. cbn. by rewrite !andb_false_r.
Qed.
Lemma rejected_words_digits ws : Forall (Forall (λ c, is_ascii_digit c = false)) ws → existsb rejected_status ws = false.
Proof. induction 1 as [|w ws H _ IH]; [done|]. cbn. by rewrite rejected_word_digits, IH. Qed.

(** The codes of three digits. *)
Definition refusal (code : Z) : bool :=
  (400 <=? code) && (code <? 500) && negb (existsb (λ c, code =? c) [408; 425; 429]).
Lemma status_codes : Forall (λ n, rejected_status (decimal (Z.of_nat n)) = refusal (Z.of_nat n) ∧
  Forall (λ c, is_whitespace c = false ∧ c ≠ 58) (decimal (Z.of_nat n))) (seq 100 900).
Proof. apply (bool_decide_unpack _). vm_compute. exact I. Qed.
Lemma status_code code : 100 ≤ code < 1000 → rejected_status (decimal code) = refusal code ∧
  Forall (λ c, is_whitespace c = false ∧ c ≠ 58) (decimal code).
Proof.
  intros H. pose proof status_codes as Hs. rewrite Forall_forall in Hs.
  specialize (Hs (Z.to_nat code)). rewrite Z2Nat.id in Hs by lia. apply Hs. apply elem_of_seq. lia.
Qed.

Definition message_head (label : string) (status : StatusLine) (retries : Z) : str :=
  lit label ++ lit " " ++ status_display status ++ retry_note retries.
Lemma rejected_message_head label status retries body : no_colon (message_head label status retries) →
  is_rejected_request (rejected_message label status retries body) =
    existsb rejected_status (split_whitespace (message_head label status retries)).
Proof.
  intros H. unfold is_rejected_request, rejected_message. fold (message_head label status retries).
  destruct (trim body); [by rewrite split_once_no_colon|by rewrite split_once_colon].
Qed.
Lemma retry_note_words retries : 0 ≤ retries ≤ 2 →
  no_colon (retry_note retries) ∧ (retry_note retries = [] ∨ ∃ t, retry_note retries = 32 :: t ∧
    existsb rejected_status (split_whitespace t) = false).
Proof.
  intros H. assert (retries = 0 ∨ retries = 1 ∨ retries = 2) as [-> | [-> | ->]] by lia.
  - split; [constructor|by left].
  - split; [apply (bool_decide_unpack _); vm_compute; exact I|right; eexists; split; vm_compute; reflexivity].
  - split; [apply (bool_decide_unpack _); vm_compute; exact I|right; eexists; split; vm_compute; reflexivity].
Qed.
Lemma label_words label : provider_label label →
  no_colon (lit label) ∧ existsb rejected_status (split_whitespace (lit label)) = false.
Proof.
  intros [-> | [-> | ->]]; (split; [apply (bool_decide_unpack _); vm_compute; exact I|vm_compute; reflexivity]).
Qed.

(** The run retries what an upstream error leaves open, and only that.  The message [send] makes of
    a refused request names its status before the first colon; [is_rejected_request] finds exactly
    the 4xx statuses that will not change (all but 408, 425 and 429) there, whatever the body says and
    however often the request was sent, so the failure of the cycle is retryable for every other status
    and for none of them. *)
Theorem refusal_not_retried label status retries body : provider_label label → 100 ≤ st_code status < 1000 →
  plain_reason (st_reason status) → 0 ≤ retries ≤ 2 →
  retryable (FProvider (rejected_message label status retries body)) = negb (refusal (st_code status)).
Proof.
  intros Hl Hc Hp Hr. destruct (label_words label Hl) as [Cl Wl]. destruct (retry_note_words retries Hr) as [Cn Wn].
  destruct (status_code _ Hc) as [Wc Fc]. set (r := st_reason status) in *.
  assert (no_colon r ∧ Forall (λ c, is_ascii_digit c = false) r) as [Cr Dr].
  { by apply Forall_and. }
  assert (no_colon (decimal (st_code status)) ∧ Forall (λ c, is_whitespace c = false) (decimal (st_code status))) as [Cc Fw].
  { apply Forall_and. eapply Forall_impl; [exact Fc|]. by intros c []. }
  cbn [retryable]. f_equal. rewrite rejected_message_head.
  - unfold message_head, status_display. fold r. change (lit " ") with [32]. cbn [app]. rewrite <- app_assoc. cbn [app].
    rewrite split_whitespace_app, existsb_app, Wl, split_whitespace_app, existsb_app. cbn [orb].
    assert (split_whitespace (decimal (st_code status)) = [decimal (st_code status)]) as ->.
    { unfold split_whitespace. rewrite split_ws_word by done. rewrite app_nil_r.
      destruct (reverse (decimal (st_code status))) eqn:E; [|by rewrite <- E, reverse_involutive].
      apply (f_equal reverse) in E. rewrite reverse_involutive in E.
      pose proof (decimal_length (st_code status) 3 ltac:(lia) ltac:(lia)) as Hd. by rewrite E in Hd. }
    cbn [existsb]. rewrite Wc, orb_false_r.
    assert (existsb rejected_status (split_whitespace (r ++ retry_note retries)) = false) as ->; [|by rewrite orb_false_r].
    destruct Wn as [->|(t & -> & Wt)].
    + rewrite app_nil_r. apply rejected_words_digits. by apply split_ws_chars.
    + rewrite split_whitespace_app, existsb_app, Wt, orb_false_r. apply rejected_words_digits. by apply split_ws_chars.
  - unfold message_head, status_display. repeat apply Forall_app_2; try done.
    all: change (lit " ") with [32]; by repeat constructor.
Qed.

Definition bad_gateway : StatusLine := MkStatus 502 (lit "Bad Gateway").
Definition ok_status : StatusLine := MkStatus 200 (lit "OK").

Lemma upstream_sends_bounded_witness : ∃ n,
  upstream_attempt [(SentResponse bad_gateway, false); (SentResponse ok_status, false)] = Some (Response ok_status, n) ∧
  (n ≤ 3)%nat.
Proof.
  exists 2%nat.
  assert (upstream_attempt [(SentResponse bad_gateway, false); (SentResponse ok_status, false)]
    = Some (Response ok_status, 2%nat)) as E by reflexivity.
  split; [exact E|]. exact (proj1 (upstream_sends_bounded _ _ _ E)).
Defined.

Lemma refusal_not_retried_witness :
  retryable (FProvider (rejected_message "OpenAI Chat" (MkStatus 404 (lit "Not Found")) 2 (lit "status: 503"))) = false ∧
  retryable (FProvider (rejected_message "Anthropic" bad_gateway 2 (lit "error 400"))) = true.
Proof.
  split.
  - rewrite (refusal_not_retried "OpenAI Chat" (MkStatus 404 (lit "Not Found")) 2); [reflexivity| | | |].
    + right; left; reflexivity.
    + cbn; lia.
    + apply (bool_decide_unpack _); vm_compute; exact I.
    + lia.
  - rewrite (refusal_not_retried "Anthropic" bad_gateway 2); [reflexivity| | | |].
    + left; reflexivity.
    + cbn; lia.
    + apply (bool_decide_unpack _); vm_compute; exact I.
    + lia.
Defined.
