(* ===== verification/OpenAiChat.v ===== *)
(** * OpenAiChat: the adapter of the Chat Completions API

    server/src/provider/openai_chat.rs: the request made from a projected history, and the
    stream of events made from the chunks of a response.  The client a chunk comes from may send a
    tool call in increments or repeat it whole; [merge_chat_fragment] tells them apart.

    [chat_conforms]: whatever the provider sends, the cycle that consumes the stream
    (ModelCycle.v) finds no violation of its protocol but the ones no adapter can rule out,
    and what it returns is what was sent: the text is the concatenation of the content deltas,
    the arguments of each call the merge of its fragments. *)

From stdpp Require Import prelude gmap strings list sorting.
From S2P Require Import Prelude Errors External Json Message Budget ModelCycle Provider.
Local Open Scope Z_scope.

Definition LABEL : string := "OpenAI Chat".

(** ** Tool calls *)

(** server/src/provider/openai_chat.rs:27-33, [ChatToolState]; lengths are in bytes. *)
Record ChatTool : Type := MkChatTool {
  ct_call_id : str;
  ct_name : str;
  ct_arguments : str;
  ct_emitted : Z;
  ct_started : bool
}.
Definition new_chat_tool : ChatTool := MkChatTool [] [] [] 0 false.

(** server/src/provider/openai_chat.rs:444-453, [merge_chat_fragment]. *)
Definition merge_chat_fragment (target fragment : str) : str :=
  if starts_with fragment target then target
  else if starts_with target fragment then fragment
  else target ++ fragment.
Definition merge_some (target : str) (fragment : option str) : str :=
  match fragment with Some fragment => merge_chat_fragment target fragment | None => target end.

(** A tool starts once both its id and its name are there. *)
Definition start_tool (i : Z) (t : ChatTool) : list ModelEvent * ChatTool :=
  if negb (ct_started t) && bool_decide (ct_call_id t ≠ []) && bool_decide (ct_name t ≠ []) then
    ([MToolCallStart i (ct_call_id t) (ct_name t)],
     MkChatTool (ct_call_id t) (ct_name t) (ct_arguments t) (ct_emitted t) true)
  else ([], t).
(** What was not emitted yet of its arguments. *)
Definition emit_arguments (i : Z) (t : ChatTool) : list ModelEvent * ChatTool :=
  if ct_started t && (ct_emitted t <? str_len (ct_arguments t)) then
    ([MToolCallArgumentsDelta i (drop_bytes (ct_emitted t) (ct_arguments t))],
     MkChatTool (ct_call_id t) (ct_name t) (ct_arguments t) (str_len (ct_arguments t)) (ct_started t))
  else ([], t).
(** server/src/provider/openai_chat.rs:397-430, [update_chat_tool]. *)
Definition update_chat_tool (i : Z) (id name arguments : option str) (ts : gmap Z ChatTool)
    : list ModelEvent * gmap Z ChatTool :=
  let t := default new_chat_tool (ts !! i) in
  let t := MkChatTool (merge_some (ct_call_id t) id) (merge_some (ct_name t) name)
             (merge_some (ct_arguments t) arguments) (ct_emitted t) (ct_started t) in
  let '(start, t) := start_tool i t in
  let '(delta, t) := emit_arguments i t in
  (start ++ delta, <[i := t]> ts).

(** server/src/provider/openai_chat.rs:385-395, [map_finish]. *)
Definition map_finish (value : str) (has_tools : bool) : FinishReason :=
  if bool_decide (value = lit "tool_calls") || bool_decide (value = lit "function_call") then FinishToolUse
  else if bool_decide (value = lit "length") then FinishLength
  else if bool_decide (value = lit "content_filter") then FinishStop
  else if has_tools then FinishToolUse
  else FinishStop.

Section Chat.
Context {SJ : SerdeJson} {SN : SerdeNumber}.

(** server/src/provider/openai_chat.rs:455-470, [openai_usage]. *)
Definition openai_usage (value : json) : Usage :=
  let n (name : string) := get_member name value ≫= as_u64 in
  MkUsage (n "prompt_tokens") (n "prompt_tokens") (n "completion_tokens") (n "total_tokens")
    (pointer ["prompt_tokens_details"; "cached_tokens"] value ≫= as_u64) None
    (pointer ["completion_tokens_details"; "reasoning_tokens"] value ≫= as_u64).

(** ** The response *)

(** server/src/provider/openai_chat.rs:128-134, the locals of [stream]. *)
Record ChatStream : Type := MkChat {
  ch_text_open : bool;
  ch_thinking_open : bool;
  ch_reasoning : str;
  ch_tools : gmap Z ChatTool;
  ch_usage : option Usage;
  ch_finish : option FinishReason;
  ch_done : bool
}.
Definition new_chat : ChatStream := MkChat false false [] ∅ None None false.
Definition set_ch_usage (s : ChatStream) (u : option Usage) : ChatStream :=
  MkChat (ch_text_open s) (ch_thinking_open s) (ch_reasoning s) (ch_tools s) u (ch_finish s) (ch_done s).
Definition set_ch_tools (s : ChatStream) (ts : gmap Z ChatTool) : ChatStream :=
  MkChat (ch_text_open s) (ch_thinking_open s) (ch_reasoning s) ts (ch_usage s) (ch_finish s) (ch_done s).
Definition set_ch_finish (s : ChatStream) (f : FinishReason) : ChatStream :=
  MkChat (ch_text_open s) (ch_thinking_open s) (ch_reasoning s) (ch_tools s) (ch_usage s) (Some f) (ch_done s).
Definition set_ch_done (s : ChatStream) : ChatStream :=
  MkChat (ch_text_open s) (ch_thinking_open s) (ch_reasoning s) (ch_tools s) (ch_usage s) (ch_finish s) true.

(** The first choice of a chunk, and its delta. *)
Definition first_choice (value : json) : option json :=
  choices ← (get_member "choices" value ≫= as_array); head choices.
Definition delta_of (choice : json) : json := default JNull (get_member "delta" choice).

Definition non_empty (s : option str) : option str :=
  s ← s; match s with [] => None | _ => Some s end.
(** The pieces of a delta: reasoning, content. *)
Definition reasoning_delta (delta : json) : option str :=
  let v := match get_member "reasoning_content" delta with
           | Some v => Some v
           | None => get_member "reasoning" delta
           end in
  non_empty (v ≫= as_str).
Definition content_delta (delta : json) : option str := non_empty (get_str "content" delta).

(** server/src/provider/openai_chat.rs:172-176, the reasoning of a chunk. *)
Definition on_reasoning (s : ChatStream) (d : option str) : Yield ChatStream :=
  match d with
  | None => mret s
  | Some d =>
      _ ← yield_when (negb (ch_thinking_open s)) MThinkingStart;
      _ ← yield (MThinkingDelta d);
      mret (MkChat (ch_text_open s) true (ch_reasoning s ++ d) (ch_tools s) (ch_usage s) (ch_finish s) (ch_done s))
  end.
(** server/src/provider/openai_chat.rs:177-181, the content of a chunk. *)
Definition on_content (s : ChatStream) (d : option str) : Yield ChatStream :=
  match d with
  | None => mret s
  | Some d =>
      _ ← yield_when (ch_thinking_open s) MThinkingEnd;
      _ ← yield_when (negb (ch_text_open s)) MTextStart;
      _ ← yield (MTextDelta d);
      mret (MkChat true false (ch_reasoning s) (ch_tools s) (ch_usage s) (ch_finish s) (ch_done s))
  end.

(** A fragment of a tool call, at its position in the chunk. *)
Record Fragment : Type := MkFragment {
  fg_index : Z; fg_id : option str; fg_name : option str; fg_arguments : option str
}.
Definition fragment_of (position : nat) (tool : json) : Fragment :=
  let function := default JNull (get_member "function" tool) in
  MkFragment (default (Z.of_nat position) (get_member "index" tool ≫= as_u64))
    (get_str "id" tool) (get_str "name" function) (get_str "arguments" function).
Definition fragments_of (delta : json) : list Fragment :=
  match get_member "tool_calls" delta ≫= as_array with
  | Some tools => imap fragment_of tools
  | None => []
  end.
(** server/src/provider/openai_chat.rs:182-191, the tool calls of a chunk. *)
Fixpoint on_fragments (s : ChatStream) (fragments : list Fragment) : Yield ChatStream :=
  match fragments with
  | [] => mret s
  | f :: fragments =>
      let '(events, ts) := update_chat_tool (fg_index f) (fg_id f) (fg_name f) (fg_arguments f) (ch_tools s) in
      _ ← yield_all events;
      on_fragments (set_ch_tools s ts) fragments
  end.

(** server/src/provider/openai_chat.rs:167-194, one chunk. *)
Definition chat_chunk (s : ChatStream) (value : json) : Yield ChatStream :=
  let s := match not_null (get_member "usage" value) with
           | Some usage => set_ch_usage s (Some (openai_usage usage))
           | None => s
           end in
  match first_choice value with
  | None => mret s
  | Some choice =>
      let delta := delta_of choice in
      s ← on_reasoning s (reasoning_delta delta);
      s ← on_content s (content_delta delta);
      s ← on_fragments s (fragments_of delta);
      mret match get_str "finish_reason" choice with
           | Some reason => set_ch_finish s (map_finish reason (bool_decide (ch_tools s ≠ ∅)))
           | None => s
           end
  end.

(** server/src/provider/openai_chat.rs:198-214, a tool at the end of the stream. *)
Definition close_tool (p : Z * ChatTool) : Yield () :=
  let '(i, t) := p in
  _ ← (if ct_started t then mret ()
       else if bool_decide (ct_name t = []) then
         attempt (Err (Provider (lit "OpenAI Chat tool call is missing name")))
       else
         let id := match ct_call_id t with [] => lit "call-" ++ decimal i | id => id end in
         _ ← yield (MToolCallStart i id (ct_name t));
         yield_when (bool_decide (ct_arguments t ≠ [])) (MToolCallArgumentsDelta i (ct_arguments t)));
  yield (MToolCallEnd i).
Fixpoint close_tools (l : list (Z * ChatTool)) : Yield () :=
  match l with [] => mret () | p :: l => _ ← close_tool p; close_tools l end.

Definition chat_replay (reasoning : str) : ProviderReplayState :=
  MkReplay (lit "openai_chat") (object [("reasoning_content"%string, JString reasoning)]).

(** server/src/provider/openai_chat.rs:196-224, the end of the stream. *)
Definition chat_end (s : ChatStream) : Yield () :=
  _ ← yield_when (ch_thinking_open s) MThinkingEnd;
  _ ← yield_when (ch_text_open s) MTextEnd;
  _ ← close_tools (btree (ch_tools s));
  _ ← yield_all (match ch_usage s with Some u => [MUsage u] | None => [] end);
  _ ← yield_when (bool_decide (ch_reasoning s ≠ [])) (MReplayState (chat_replay (ch_reasoning s)));
  finish ← attempt (match ch_finish s with
                    | Some f => Ok f
                    | None => if ch_done s then Ok (if bool_decide (ch_tools s = ∅) then FinishStop else FinishToolUse)
                              else Err (Provider (lit "OpenAI Chat stream ended without finish_reason"))
                    end);
  yield (MDone finish).

Definition chat_marker (event : SseEvent) : bool := bool_decide (sse_data event = lit "[DONE]").

(** server/src/provider/openai_chat.rs:111-225, [stream], from the response on. *)
Definition chat_stream (id : str) (inputs : list sse_input) : Yield () :=
  _ ← yield (MStart id);
  s ← sse_loop LABEL chat_marker set_ch_done (λ s _ value, chat_chunk s value) new_chat inputs;
  match s with
  | None => mret ()
  | Some s => chat_end s
  end.
End Chat.

(** ** The stream conforms *)

(** What the chunks hold. *)
Section Pieces.
Context {SN : SerdeNumber}.
Definition chunk_delta (p : SseEvent * json) : json :=
  match first_choice p.2 with Some choice => delta_of choice | None => JNull end.
Definition chunk_text (p : SseEvent * json) : str := default [] (content_delta (chunk_delta p)).
Definition chunk_reasoning (p : SseEvent * json) : str := default [] (reasoning_delta (chunk_delta p)).
Definition chunk_fragments (p : SseEvent * json) : list Fragment := fragments_of (chunk_delta p).
End Pieces.
(** The arguments of a call: its fragments, merged. *)
Definition merged_arguments (fragments : list Fragment) (i : Z) : str :=
  foldl (λ acc f, if decide (fg_index f = i) then merge_some acc (fg_arguments f) else acc) [] fragments.

Lemma merge_extends target fragment : target `prefix_of` merge_chat_fragment target fragment.
Proof.
  unfold merge_chat_fragment. destruct (starts_with fragment target); [done|].
  destruct (starts_with target fragment) eqn:E; [|by apply prefix_app_r].
  apply starts_with_spec in E as (r & ->). by apply prefix_app_r.
Qed.
Lemma merge_some_extends target fragment : target `prefix_of` merge_some target fragment.
Proof. destruct fragment; [apply merge_extends|done]. Qed.

(** A tool of the adapter and the cycle's. *)
Definition tool_rel (m : str) (i : Z) (t : option ChatTool) (o : option OpenTool) : Prop :=
  match t with
  | None => o = None
  | Some t =>
      if ct_started t then
        ct_emitted t = str_len (ct_arguments t) ∧ open_call m i (ct_arguments t) o
      else o = None ∧ ct_emitted t = 0
  end.

(** The state of the adapter after the fragments [fs], and the cycle's. *)
Record chat_rel (m : str) (fs : list Fragment) (s : ChatStream) (c : Cycle) : Prop := {
  cr_id : c_model_call_id c = Some m;
  cr_finish : c_finish c = None;
  cr_text : c_text_open c = ch_text_open s;
  cr_thinking : bool_decide (c_thinking c ≠ None) = ch_thinking_open s;
  cr_reasoning : c_reasoning c = ch_reasoning s;
  cr_usage : c_usage c = None;
  cr_replay : c_replay c = None;
  cr_tools i : tool_rel m i (ch_tools s !! i) (c_tools c !! i);
  cr_merged i t : ch_tools s !! i = Some t → ct_arguments t = merged_arguments fs i;
  cr_seen i : is_Some (ch_tools s !! i) ↔ i ∈ fg_index <$> fs
}.

Section Conforms.
Context {SJ : SerdeJson} {SN : SerdeNumber}.

Lemma merged_snoc fs f i : merged_arguments (fs ++ [f]) i =
  if decide (fg_index f = i) then merge_some (merged_arguments fs i) (fg_arguments f) else merged_arguments fs i.
Proof. unfold merged_arguments. by rewrite foldl_app. Qed.
Lemma merged_unseen fs i : i ∉ fg_index <$> fs → merged_arguments fs i = [].
Proof.
  induction fs as [|f fs IH] using rev_ind; [done|]. rewrite merged_snoc, fmap_app. intros H.
  rewrite not_elem_of_app in H. destruct H as [H1 H2]. rewrite decide_False; [by apply IH|].
  intros <-. apply H2. by left.
Qed.

(** A tool whose last arguments may be still to be emitted. *)
Definition pending_rel (m : str) (i : Z) (t : ChatTool) (o : option OpenTool) : Prop :=
  if ct_started t then
    ∃ args, args `prefix_of` ct_arguments t ∧ ct_emitted t = str_len args ∧ open_call m i args o
  else o = None ∧ ct_emitted t = 0.

Lemma start_runs m i t t' events c : c_model_call_id c = Some m → c_finish c = None → pending_rel m i t (c_tools c !! i) →
  start_tool i t = (events, t') →
  runs c events (λ c', only_tools [i] c c' ∧ pending_rel m i t' (c_tools c' !! i) ∧ ct_arguments t' = ct_arguments t).
Proof.
  intros Hm Hf H. unfold start_tool. destruct (negb (ct_started t) && _ && _) eqn:E; intros [= <- <-].
  - apply andb_prop in E as [E _]. apply andb_prop in E as [E _]. apply negb_true_iff in E.
    unfold pending_rel in H. rewrite E in H. destruct H as [Ho He].
    eapply runs_weaken; [by eapply (runs_open m)|]. intros c' [K Hc]. split; [done|split; [|done]].
    unfold pending_rel. cbn. exists []. split; [apply prefix_nil|done].
  - apply runs_nil. split_and!; [reflexivity|done..].
Qed.
Lemma emit_runs m i t t' events c : c_finish c = None → pending_rel m i t (c_tools c !! i) →
  emit_arguments i t = (events, t') →
  runs c events (λ c', only_tools [i] c c' ∧ tool_rel m i (Some t') (c_tools c' !! i) ∧ ct_arguments t' = ct_arguments t).
Proof.
  intros Hf H. unfold emit_arguments, pending_rel, tool_rel in *. destruct (ct_started t) eqn:Es; cbn [andb];
    [|intros [= <- <-]; apply runs_nil; rewrite Es; destruct H; split_and!; [reflexivity|done..]].
  destruct H as (args & [rest Ha] & He & Ho). rewrite He, Ha, str_len_app.
  destruct (Z.ltb_spec (str_len args) (str_len args + str_len rest)) as [Hlt|Hge]; intros [= <- <-].
  - rewrite drop_bytes_app. eapply runs_weaken; [by eapply runs_more|]. intros c' [K Hc]. split; [done|split; [|done]].
    cbn. split; [by rewrite str_len_app|done].
  - apply runs_nil. rewrite Es. assert (rest = []) as ->.
    { destruct rest as [|x rest]; [done|]. rewrite str_len_cons in Hge. pose proof (len_utf8_bound x).
      pose proof (str_len_bound rest). unfold zlen in *. lia. }
    rewrite app_nil_r in Ha. split; [reflexivity|split; [split|by rewrite app_nil_r]]; [congruence|].
    by rewrite Ha.
Qed.

Lemma update_runs m fs s c f events ts : chat_rel m fs s c →
  update_chat_tool (fg_index f) (fg_id f) (fg_name f) (fg_arguments f) (ch_tools s) = (events, ts) →
  runs c events (λ c', chat_rel m (fs ++ [f]) (set_ch_tools s ts) c' ∧ c_text c' = c_text c).
Proof.
  intros [R1 R2 R3 R4 R5 R6 R7 R8 R9 R10]. unfold update_chat_tool. set (i := fg_index f). set (t0 := default new_chat_tool _).
  set (t1 := MkChatTool _ _ _ _ _). destruct (start_tool i t1) as [start t2] eqn:E1.
  destruct (emit_arguments i t2) as [delta t3] eqn:E2. intros [= <- <-].
  assert (ct_arguments t0 = merged_arguments fs i) as Ha.
  { unfold t0. destruct (ch_tools s !! i) as [t|] eqn:Et; [by apply R9|]. cbn. rewrite merged_unseen; [done|].
    rewrite <- R10, Et. by intros []. }
  assert (pending_rel m i t1 (c_tools c !! i)) as Hp.
  { specialize (R8 i). unfold tool_rel in R8. unfold pending_rel, t1, t0. cbn [ct_started ct_emitted ct_arguments].
    destruct (ch_tools s !! i) as [t|]; cbn [default from_option]; unfold Datatypes.id; [|by split].
    destruct (ct_started t); [|done]. destruct R8 as (He & Ho). exists (ct_arguments t).
    split_and!; [apply merge_some_extends|done|done]. }
  apply runs_app. eapply runs_weaken; [eapply (start_runs m); [exact R1|exact R2|exact Hp|exact E1]|].
  intros c1 (K1 & H1 & A1).
  eapply runs_weaken; [eapply (emit_runs m); [by rewrite (ot_finish _ _ _ K1)|exact H1|exact E2]|].
  intros c2 (K2 & H2 & A2). pose proof (transitivity K1 K2) as [J1 J2 J3 J4 J5 J6 J7 J8 J9]. split; [|done].
  split; cbn [set_ch_tools ch_text_open ch_thinking_open ch_reasoning ch_tools]; try congruence; try (by rewrite J4).
  - intros j. destruct (decide (j = i)) as [->|Hj]; [by rewrite lookup_insert_eq|].
    rewrite lookup_insert_ne by congruence. rewrite J9 by set_solver. apply R8.
  - intros j t. rewrite merged_snoc. fold i. destruct (decide (i = j)) as [<-|Hj].
    + rewrite lookup_insert_eq. intros [= <-]. rewrite A2, A1. unfold t1. cbn. by rewrite Ha.
    + rewrite lookup_insert_ne by congruence. apply R9.
  - intros j. rewrite fmap_app, elem_of_app, <- R10. cbn. fold i. destruct (decide (i = j)) as [<-|Hj].
    + rewrite lookup_insert_eq. split; [|by eexists]. intros _. right. by left.
    + rewrite lookup_insert_ne by congruence. rewrite list_elem_of_singleton. naive_solver.
Qed.

Lemma reasoning_sound m fs s c d : chat_rel m fs s c →
  sound c (on_reasoning s d) (λ s' c', chat_rel m fs s' c' ∧ c_text c' = c_text c ∧
    c_reasoning c' = c_reasoning c ++ default [] d).
Proof.
  intros R. destruct d as [d|]; cbn [on_reasoning]; [|apply sound_ret; rewrite app_nil_r; by split_and!].
  destruct R as [R1 R2 R3 R4 R5 R6 R7 R8 R9 R10].
  eapply (sound_bind _ _ _ (λ _ c', ∃ now, c_thinking c' = Some now ∧
    c' = set_client (set_thinking c (Some now)) (c_client c'))).
  { apply sound_when; intros E; [apply negb_true_iff in E|apply negb_false_iff in E]; rewrite E in R4.
    - apply bool_decide_eq_false in R4. eapply runs_thinking_start; [done..|by apply dec_stable|].
      intros now ch. by exists now.
    - apply bool_decide_eq_true in R4. destruct (c_thinking c) as [now|] eqn:Et; [|done]. exists now. split; [done|].
      destruct c; cbn in *. by rewrite Et. }
  intros _ c1 (now & Et & ->). cbn in Et.
  eapply (sound_bind _ _ _ (λ _ c', ∃ ch, c' = set_client (set_reasoning (set_thinking c (Some now)) (c_reasoning c ++ d)) ch));
    [apply sound_yield, runs_thinking_delta; [done|done|by eexists]|].
  intros _ c2 [ch ->]. apply sound_ret. split; [|done]. split; cbn; try done. by rewrite R5.
Qed.

Lemma content_sound m fs s c d : chat_rel m fs s c →
  sound c (on_content s d) (λ s' c', chat_rel m fs s' c' ∧ c_text c' = c_text c ++ default [] d ∧
    c_reasoning c' = c_reasoning c).
Proof.
  intros R. destruct d as [d|]; cbn [on_content]; [|apply sound_ret; rewrite app_nil_r; by split_and!].
  destruct R as [R1 R2 R3 R4 R5 R6 R7 R8 R9 R10].
  eapply (sound_bind _ _ _ (λ _ c', ∃ ch, c' = set_client (set_thinking c None) ch)).
  { apply sound_when; intros E; rewrite E in R4.
    - apply bool_decide_eq_true in R4. apply runs_thinking_end; [done..|]. by eexists.
    - apply bool_decide_eq_false in R4. apply dec_stable in R4. exists (c_client c). destruct c; cbn in *. by rewrite R4. }
  intros _ c1 [ch1 ->].
  eapply (sound_bind _ _ _ (λ _ c', ∃ ch, c' = set_client (set_text_open (set_thinking c None) true) ch)).
  { apply sound_when; intros E; [apply negb_true_iff in E|apply negb_false_iff in E]; rewrite E in R3.
    - eapply runs_text_start; [done..|]. intros ch. by eexists.
    - exists ch1. destruct c; cbn in *. by rewrite R3. }
  intros _ c2 [ch2 ->].
  eapply (sound_bind _ _ _ (λ _ c', ∃ ch, c' = set_client (set_text (set_text_open (set_thinking c None) true) (c_text c ++ d)) ch));
    [apply sound_yield, runs_text_delta; [done|done|by eexists]|].
  intros _ c3 [ch3 ->]. apply sound_ret. split; [|done]. by split.
Qed.

Lemma fragments_sound m l : ∀ fs s c, chat_rel m fs s c →
  sound c (on_fragments s l) (λ s' c', chat_rel m (fs ++ l) s' c' ∧ c_text c' = c_text c ∧ c_reasoning c' = c_reasoning c).
Proof.
  induction l as [|f l IH]; intros fs s c R; cbn [on_fragments]; [apply sound_ret; rewrite app_nil_r; by split_and!|].
  destruct (update_chat_tool _ _ _ _ _) as [events ts] eqn:E.
  eapply sound_bind; [apply sound_all, (update_runs m _ _ _ _ _ _ R E)|]. intros _ c1 [R1 Et].
  eapply sound_weaken; [by apply IH|]. intros s2 c2 (R2 & Et2 & Er2). rewrite <- app_assoc in R2. split; [done|].
  rewrite Et2, Et, Er2, (cr_reasoning _ _ _ _ R1), (cr_reasoning _ _ _ _ R). by split.
Qed.

(** After the values [vs]. *)
Definition chat_inv (m : str) (vs : list (SseEvent * json)) (s : ChatStream) (c : Cycle) : Prop :=
  chat_rel m (concat (chunk_fragments <$> vs)) s c ∧
  c_text c = concat (chunk_text <$> vs) ∧ c_reasoning c = concat (chunk_reasoning <$> vs).

Lemma chunk_sound m vs s c event v : chat_inv m vs s c →
  sound c (chat_chunk s v) (chat_inv m (vs ++ [(event, v)])).
Proof.
  intros (R & Ht & Hr). unfold chat_chunk.
  set (s1 := match not_null _ with Some _ => _ | None => _ end).
  assert (chat_rel m (concat (chunk_fragments <$> vs)) s1 c) as R1.
  { unfold s1. destruct (not_null _); [|done]. by destruct R; split. }
  clearbody s1. unfold chat_inv. rewrite !fmap_app, !concat_app. cbn [fmap list_fmap concat].
  assert (chunk_delta (event, v) = match first_choice v with Some choice => delta_of choice | None => JNull end) as Hd by done.
  unfold chunk_text, chunk_reasoning, chunk_fragments in *. rewrite Hd. clear Hd.
  destruct (first_choice v) as [choice|].
  2: { apply sound_ret. cbn. rewrite !app_nil_r. by split_and!. }
  eapply sound_bind; [by eapply reasoning_sound|]. intros s2 c2 (R2 & Ht2 & Hr2).
  eapply sound_bind; [by eapply content_sound|]. intros s3 c3 (R3 & Ht3 & Hr3).
  eapply sound_bind; [by eapply fragments_sound|]. intros s4 c4 (R4 & Ht4 & Hr4).
  apply sound_ret. rewrite !app_nil_r. split; [|split; congruence].
  destruct (get_str _ _); [|done]. by destruct R4; split.
Qed.

(** *** The end of the stream *)

Lemma close_tool_sound m i t c : c_model_call_id c = Some m → c_finish c = None → tool_rel m i (Some t) (c_tools c !! i) →
  sound c (close_tool (i, t)) (λ _ c', only_tools [i] c c' ∧ ended_call m i (ct_arguments t) (c_tools c' !! i)).
Proof.
  intros Hm Hf H. unfold close_tool.
  eapply (sound_bind _ _ _ (λ _ c', only_tools [i] c c' ∧ open_call m i (ct_arguments t) (c_tools c' !! i))).
  - unfold tool_rel in H. destruct (ct_started t).
    { apply sound_ret. destruct H as [_ H]. by split. }
    destruct H as [H _]. case_bool_decide as Hn; [apply sound_err|].
    eapply sound_bind; [apply sound_yield, (runs_open m); done|]. intros _ c1 [K1 H1].
    apply sound_when; intros E.
    + eapply runs_weaken; [eapply runs_more; [|exact H1]; by rewrite (ot_finish _ _ _ K1)|]. intros c2 [K2 H2].
      split; [by etransitivity|done].
    + apply bool_decide_eq_false, dec_stable in E. rewrite E. by split.
  - intros _ c1 [K1 H1]. apply sound_yield.
    eapply runs_weaken; [eapply runs_close; [|exact H1]; by rewrite (ot_finish _ _ _ K1)|]. intros c2 [K2 H2].
    split; [by etransitivity|done].
Qed.
Lemma close_tools_sound m l : ∀ c, NoDup l.*1 → c_model_call_id c = Some m → c_finish c = None →
  (∀ i t, (i, t) ∈ l → tool_rel m i (Some t) (c_tools c !! i)) →
  sound c (close_tools l) (λ _ c', only_tools l.*1 c c' ∧ ∀ i t, (i, t) ∈ l → ended_call m i (ct_arguments t) (c_tools c' !! i)).
Proof.
  induction l as [|[i t] l IH]; intros c Hn Hm Hf H; cbn [close_tools].
  - apply sound_ret. split; [reflexivity|]. intros i t Hi. by apply not_elem_of_nil in Hi.
  - apply NoDup_cons in Hn as [Hi Hn]. eapply sound_bind; [apply (close_tool_sound m); [done..|apply H; by left]|].
    intros _ c1 [K1 H1]. eapply sound_weaken; [apply IH|].
    + done.
    + by rewrite (ot_id _ _ _ K1).
    + by rewrite (ot_finish _ _ _ K1).
    + intros j u Hj. rewrite (ot_others _ _ _ K1); [apply H; by right|].
      rewrite list_elem_of_singleton. intros ->. apply Hi. by apply (list_elem_of_fmap_2 fst) in Hj.
    + intros _ c2 [K2 H2]. cbn [fmap list_fmap fst]. split.
      * transitivity c1; (eapply only_tools_weaken; [done|set_solver]).
      * intros j u [[= -> ->]|Hj]%elem_of_cons; [by rewrite (ot_others _ _ _ K2)|by apply H2].
Qed.

(** What the cycle has when the stream ends. *)
Definition chat_ended (m : str) (vs : list (SseEvent * json)) : Cycle → Prop :=
  all_sent m (concat (chunk_text <$> vs)) (concat (chunk_reasoning <$> vs))
    (λ i, i ∈ fg_index <$> concat (chunk_fragments <$> vs)) (merged_arguments (concat (chunk_fragments <$> vs))).

Lemma end_sound m vs s c : chat_inv m vs s c → sound c (chat_end s) (λ _ c', chat_ended m vs c').
Proof.
  intros ([R1 R2 R3 R4 R5 R6 R7 R8 R9 R10] & Ht & Hr). unfold chat_end.
  eapply (sound_bind _ _ _ (λ _ c', ∃ ch, c' = set_client (set_thinking c None) ch)).
  { apply sound_when; intros E; rewrite E in R4.
    - apply bool_decide_eq_true in R4. apply runs_thinking_end; [done..|]. by eexists.
    - apply bool_decide_eq_false in R4. apply dec_stable in R4. exists (c_client c). destruct c; cbn in *. by rewrite R4. }
  intros _ c1 [ch1 ->].
  eapply (sound_bind _ _ _ (λ _ c', ∃ ch, c' = set_client (set_text_open (set_thinking c None) false) ch)).
  { apply sound_when; intros E; rewrite E in R3.
    - apply runs_text_end; [done..|]. intros ch. by eexists.
    - exists ch1. destruct c; cbn in *. by rewrite R3. }
  intros _ c2 [ch2 ->].
  eapply sound_bind; [apply (close_tools_sound m); [apply NoDup_btree|done|done|]|].
  { intros i t. rewrite elem_of_btree. intros Hi. specialize (R8 i). by rewrite Hi in R8. }
  intros _ c3 [K H3]. destruct K as [K1 K2 K3 K4 K5 K6 K7 K8 K9]. cbn in K1, K2, K3, K4, K5, K6, K7, K8, K9.
  eapply (sound_bind _ _ _ (λ _ c', ∃ ch u, c' = set_client (match u with Some u => set_usage c3 u | None => c3 end) ch)).
  { apply sound_all. destruct (ch_usage s) as [u|]; [|exists (c_client c3), None; by destruct c3].
    apply runs_usage; [congruence..|]. intros ch. by exists ch, (Some u). }
  intros _ c4 (ch4 & u & ->).
  eapply (sound_bind _ _ _ (λ _ c', c_model_call_id c' = Some m ∧ c_finish c' = None ∧ c_text_open c' = false ∧
    c_thinking c' = None ∧ c_text c' = c_text c ∧ c_reasoning c' = c_reasoning c ∧ c_tools c' = c_tools c3)).
  { apply sound_when; intros _; [apply runs_replay|]; destruct u; cbn; (try split_and!); congruence. }
  intros _ c5 (L1 & L2 & L3 & L4 & L5 & L6 & L7).
  assert (∀ i, (is_Some (c_tools c3 !! i) ↔ i ∈ fg_index <$> concat (chunk_fragments <$> vs)) ∧
    (is_Some (c_tools c3 !! i) → ended_call m i (merged_arguments (concat (chunk_fragments <$> vs)) i) (c_tools c3 !! i))) as Hc.
  { intros i. destruct (ch_tools s !! i) as [t|] eqn:Ei.
    - destruct (H3 i t) as (id & nm & Hx); [by apply elem_of_btree|]. rewrite <- R10, <- (R9 _ _ Ei), Ei. split.
      + rewrite Hx. split; by eexists.
      + intros _. by exists id, nm.
    - rewrite <- R10, Ei, K9; [|].
      + specialize (R8 i). rewrite Ei in R8. cbn in R8. rewrite R8. split; [done|by intros []].
      + intros ([j t] & -> & Hj)%list_elem_of_fmap. apply elem_of_btree in Hj. cbn in Ei. by rewrite Ei in Hj. }
  eapply sound_bind; [apply (sound_attempt _ _ (λ _ c', c' = c5)); done|]. intros f c6 ->.
  apply sound_yield. eapply runs_done; [done..| |].
  - apply blocks_closed; [done..|]. intros i t Hi. rewrite L7 in Hi. destruct (Hc i) as [_ Hx].
    destruct Hx as (id & nm & Hx); [by rewrite Hi|]. rewrite Hi in Hx. by injection Hx as ->.
  - split; cbn; rewrite ?L1, ?L5, ?L6, ?L7; [done|by eexists|done|done|apply Hc|intros i Hi; by apply Hc, Hc].
Qed.

(** What was sent. *)
Definition chat_values (inputs : list sse_input) : list (SseEvent * json) := (sse_values chat_marker inputs).1.
Definition sent_fragments (inputs : list sse_input) : list Fragment := concat (chunk_fragments <$> chat_values inputs).
#[global] Instance chat_adapter : Adapter chat_stream (λ _, True)
  (λ inputs, concat (chunk_text <$> chat_values inputs)) (λ inputs, concat (chunk_reasoning <$> chat_values inputs))
  (λ inputs i, i ∈ fg_index <$> sent_fragments inputs) (λ inputs, merged_arguments (sent_fragments inputs)).
Proof.
  intros id client inputs _. enough (sound (new_cycle client) (chat_stream id inputs)
    (λ _ c', chat_ended id (chat_values inputs) c' ∨ (SseCancelled ∈ inputs ∧ c_finish c' = None))) as Hs.
  { eapply sound_weaken; [exact Hs|]. intros _ c' [Hf|Hx]; [by left|right; by left]. }
  unfold chat_stream. eapply (sound_bind _ _ _ (λ _ c', chat_inv id [] new_chat c')).
  - apply sound_yield, runs_start; [done..|]. split; [|done]. split; try done.
    intros i. cbn. rewrite lookup_empty. split; [by intros []|intros Hi; by apply not_elem_of_nil in Hi].
  - intros _ c1 R. eapply sound_bind; [apply (sound_loop _ _ _ _ (chat_inv id)); [|exact R]|].
    { intros. by apply chunk_sound. }
    intros [s|] c2; [|intros (Hx & s1 & R1 & _); apply sound_ret; right; by destruct R1]. intros (s1 & R1 & ->).
    eapply sound_weaken; [apply end_sound|by left].
    cbn [app] in R1. destruct (sse_values chat_marker inputs).2; [|exact R1]. destruct R1 as [R1 R2]. by destruct R1; split.
Qed.

(** C1: Whatever the provider of a chat completion sends, and however the chunks split the answer,
    the cycle that consumes the adapter's stream returns what was sent: the text and the reasoning are
    the concatenation of the deltas, there is one call for each index a chunk names, and its arguments are
    its fragments merged.  When it fails, the adapter kept the protocol of the events (one Start, no
    overlapping or unclosed block, nothing before a start or after the end): the
    failure is the adapter's own error, a client that is gone, a call id the provider used
    twice, a finish reason that contradicts the calls, a truncation, or the
    end of a response that was cancelled. *)
Theorem chat_conforms id client inputs timed t c r :
  (snd <$> timed) = items (chat_stream id inputs) →
  consume_model_cycle client (((λ p, (p.1, Item p.2)) <$> timed) ++ [(t, StreamEnd false)]) = Some (c, r) →
  let vs := chat_values inputs in
  let fragments := sent_fragments inputs in
  match r with
  | Ok r => returns id (concat (chunk_text <$> vs)) (concat (chunk_reasoning <$> vs))
              (λ i, i ∈ fg_index <$> fragments) (merged_arguments fragments) r
  | Err x =>
      excused (f_failure x) ∨ ended_badly (f_failure x) ∨
      (SseCancelled ∈ inputs ∧ f_failure x = FProvider (lit "provider stream reached EOF before Done")) ∨
      ∃ e, (chat_stream id inputs).2 = Err e ∧ f_failure x = run_failure_of_error e
  end.
Proof.
  intros Ht H. exact (adapter_conforms (A := chat_adapter) id client inputs timed t c r I Ht H).
Qed.
End Conforms.

(** ** Fragments

    Increments of which none is a prefix of the value so far, nor the value of it, merge to their
    concatenation; values repeated whole merge to the last.  An increment that happens to be a prefix of
    the value is lost. *)
Fixpoint increments (value : str) (fragments : list str) : Prop :=
  match fragments with
  | [] => True
  | f :: fragments => starts_with f value = false ∧ starts_with value f = false ∧ increments (value ++ f) fragments
  end.
Fixpoint cumulative (value : str) (fragments : list str) : Prop :=
  match fragments with
  | [] => True
  | f :: fragments => value `prefix_of` f ∧ cumulative f fragments
  end.

Lemma starts_with_prefix p s : starts_with p s = true ↔ p `prefix_of` s.
Proof. rewrite starts_with_spec. split; intros [k ->]; by exists k. Qed.

(** The fragments of a field merge to what the upstream meant, whichever of its two habits it has:
    increments of which none is comparable with the value so far are concatenated after the first,
    and whole values, each extending the one before, leave the last. *)
Theorem merge_fragments first fragments : first ≠ [] →
  (increments first fragments →
     foldl merge_chat_fragment [] (first :: fragments) = first ++ concat fragments) ∧
  (cumulative first fragments →
     foldl merge_chat_fragment [] (first :: fragments) = default first (last fragments)).
Proof.
  intros Hne. cbn [foldl]. assert (merge_chat_fragment [] first = first) as ->.
  { unfold merge_chat_fragment. by destruct first. }
  clear Hne. revert first. induction fragments as [|f fragments IH]; intros first; cbn [foldl concat increments cumulative].
  - by rewrite app_nil_r.
  - split.
    + intros (H1 & H2 & H3). unfold merge_chat_fragment at 2. rewrite H1, H2.
      rewrite (proj1 (IH _) H3). by rewrite <- app_assoc.
    + intros [H1 H2]. assert (merge_chat_fragment first f = f) as ->.
      { unfold merge_chat_fragment. rewrite (proj2 (starts_with_prefix first f) H1).
        destruct (starts_with f first) eqn:E; [|done]. apply starts_with_prefix in E.
        apply (anti_symm prefix); done. }
      rewrite (proj2 (IH _) H2). rewrite last_cons. by destruct (last fragments).
Qed.
Lemma merge_fragments_witness :
  foldl merge_chat_fragment [] [lit "call"; lit "_"; lit "1"] = lit "call_1" ∧
  foldl merge_chat_fragment [] [lit "ca"; lit "call"; lit "call_1"] = lit "call_1".
Proof.
  split.
  - apply (proj1 (merge_fragments (lit "call") [lit "_"; lit "1"] ltac:(discriminate))). vm_compute. repeat split.
  - apply (proj2 (merge_fragments (lit "ca") [lit "call"; lit "call_1"] ltac:(discriminate))).
    split; [by exists (lit "ll")|]. split; [by exists (lit "_1")|done].
Defined.

(** The increments of [{'a':{'b':1}}] (its quotes written as apostrophes), of which the second opens an
    object again: it is taken for a value repeated late, and the arguments are not JSON any more. *)
Example increment_lost :
  foldl merge_chat_fragment [] [qlit "{'a':"; lit "{"; qlit "'b':1}}"] = qlit "{'a':'b':1}}".
Proof. vm_compute. reflexivity. Qed.

(** ** A response from its first chunk to its end *)
Module ChatSamples.
Definition delta (members : list (string * json)) : json :=
  object [("choices"%string, JArray [object [("delta"%string, object members)]])].
Definition call_delta (function : list (string * json)) (id : list (string * json)) : json :=
  delta [("tool_calls"%string, JArray [object (id ++ [("function"%string, object function)])])].
(** The chunks a text stands for. *)
Definition chunks : list (string * json) :=
  [("text", delta [("content", text "hi")]);
   ("think", delta [("reasoning", text "hm")]);
   ("name", call_delta [("name", text "ls"); ("arguments", text "{")] [("id", text "c1")]);
   ("more", call_delta [("arguments", text "}")] []);
   ("finish", object [("choices", JArray [object [("finish_reason", text "stop")]])])]%string.
Definition parser : SerdeJson :=
  {| to_vec _ := []; display_json _ := []; to_string _ := Ok [];
     from_str s := match list_find (λ p, lit p.1 = s) chunks with
                   | Some (_, (_, v)) => Ok v
                   | None => if decide (s = lit "{}") then Ok (JObject []) else Err (ForeignError (lit "expected value") [])
                   end |}.
Definition numbers : SerdeNumber := {| number_as_u64 _ := None; number_as_i64 _ := None |}.
Definition inputs : list sse_input :=
  (λ s, SseItem (Ok (MkSse [] (lit s)))) <$> ["think"; "text"; "name"; "more"; "finish"; "[DONE]"]%string.
Definition timed : list (Z * res ModelEvent) := (λ i, (7, i)) <$> items (@chat_stream parser numbers (lit "m1") inputs).
End ChatSamples.

Lemma chat_conforms_witness : ∃ c r,
  @consume_model_cycle ChatSamples.parser (Some 50%nat)
    (((λ p, (p.1, Item p.2)) <$> ChatSamples.timed) ++ [(8, StreamEnd false)]) = Some (c, Ok r) ∧
  r_text r = lit "hi" ∧ r_reasoning r = lit "hm" ∧ (arguments_text <$> r_calls r) = [lit "{}"].
Proof.
  eexists _, _. split; [vm_compute; reflexivity|].
  pose proof (@chat_conforms ChatSamples.parser ChatSamples.numbers (lit "m1") (Some 50%nat) ChatSamples.inputs
    ChatSamples.timed 8 _ (Ok _) ltac:(vm_compute; reflexivity) ltac:(vm_compute; reflexivity)) as H.
  cbn zeta in H. split; [exact (rt_text _ _ _ _ _ _ H)|]. split; [exact (rt_reasoning _ _ _ _ _ _ H)|].
  vm_compute. reflexivity.
Defined.
