(* ===== verification/Requests.v ===== *)
(** * Requests: what a provider is asked

    server/src/provider/normalize.rs and the request half of openai_chat.rs: the ids of the
    calls are shortened, then the projected history becomes the messages of the provider's API.

    [paired] is what a history owes a provider (each call answered right after it, once);
    [normalize_keeps_paired] says when the shortening keeps it, and [chat_request_valid] that
    the messages of a Chat Completions request have it too and carry the history. *)

From stdpp Require Import prelude gmap strings list sorting.
From S2P Require Import Prelude Errors External Json Message Provider.
Local Open Scope Z_scope.

(** server/src/model/inference.rs:6-6, [PROVIDER_TOOL_CALL_ID_MAX_CHARS]. *)
Definition PROVIDER_TOOL_CALL_ID_MAX_CHARS : nat := 64.
(** server/src/model/inference.rs:98-102, [truncate_tool_call_id]. *)
Definition truncate_tool_call_id (call_id : str) : str := take PROVIDER_TOOL_CALL_ID_MAX_CHARS call_id.

Definition truncate_call (c : ToolCallContent) : ToolCallContent :=
  MkCall (c_index c) (truncate_tool_call_id (c_call_id c)) (c_name c) (c_arguments c).
Definition truncate_result (r : ToolResultContent) : ToolResultContent :=
  MkResult (truncate_tool_call_id (r_call_id r)) (r_name r) (r_content r) (r_is_error r) (r_image r) (r_provider_parts r).
(** server/src/model/inference.rs:82-96, [normalize_provider_tool_call_ids]: one message. *)
Definition normalize_ids (m : ProjectedMessage) : ProjectedMessage :=
  MkProjected (p_message_id m) (p_role m)
    match p_content m with
    | PCAssistant text thinking replay calls => PCAssistant text thinking replay (truncate_call <$> calls)
    | PCToolResult result => PCToolResult (truncate_result result)
    | PCParts parts => PCParts parts
    end.
(** server/src/model/inference.rs:82-96, [normalize_provider_tool_call_ids]. *)
Definition normalize_provider_tool_call_ids (history : list ProjectedMessage) : list ProjectedMessage :=
  normalize_ids <$> history.

(** The ids of the calls of a history. *)
Definition call_ids_of (history : list ProjectedMessage) : list str :=
  c_call_id <$> concat (p_calls_of <$> history).

Lemma call_ids_app h k : call_ids_of (h ++ k) = call_ids_of h ++ call_ids_of k.
Proof. unfold call_ids_of. by rewrite fmap_app, concat_app, fmap_app. Qed.
Lemma round_ids group : round_ok group → ∀ id, (∃ m r, m ∈ group ∧ p_content m = PCToolResult r ∧ r_call_id r = id) → id ∈ call_ids_of group.
Proof.
  intros (mid & t & th & rp & calls & results & -> & _ & _ & Hiff) id (m & r & Hm & Hr & <-).
  unfold call_ids_of. rewrite fmap_cons. cbn [concat]. rewrite fmap_app. apply elem_of_app. left. cbn [p_calls_of p_content].
  apply Hiff. apply elem_of_cons in Hm as [->|Hm]; [done|]. apply list_elem_of_fmap in Hm as (x & -> & Hx). cbn in Hr.
  injection Hr as <-. apply list_elem_of_fmap. by exists x.
Qed.

Lemma truncated_calls (calls : list ToolCallContent) : c_call_id <$> (truncate_call <$> calls) = truncate_tool_call_id <$> (c_call_id <$> calls).
Proof. by rewrite <- !list_fmap_compose. Qed.
Lemma truncated_results (results : list (str * ToolResultContent)) :
  (λ r, r_call_id (snd r)) <$> ((λ r, (r.1, truncate_result r.2)) <$> results) =
  truncate_tool_call_id <$> ((λ r, r_call_id (snd r)) <$> results).
Proof. by rewrite <- !list_fmap_compose. Qed.

(** Shortening the ids of the calls to 64 characters leaves every call of the history with its one
    result, as long as no two different ids of the history share their first 64 characters. *)
Theorem normalize_keeps_paired history : paired history →
  (∀ a b, a ∈ call_ids_of history → b ∈ call_ids_of history →
    truncate_tool_call_id a = truncate_tool_call_id b → a = b) →
  paired (normalize_provider_tool_call_ids history) ∧
  Forall (λ id, (length id ≤ 64)%nat) (call_ids_of (normalize_provider_tool_call_ids history)).
Proof.
  intros Hp Hinj. split.
  - induction Hp as [|m h Hl Hp IH|group h Hr Hp IH]; [constructor|..].
    + cbn [normalize_provider_tool_call_ids fmap list_fmap]. constructor.
      * unfold lone, normalize_ids in *. destruct (p_content m); cbn; [done| |done]. by rewrite Hl.
      * apply IH. intros a b Ha Hb. apply Hinj; change (m :: h) with ([m] ++ h); rewrite call_ids_app; set_solver.
    + unfold normalize_provider_tool_call_ids. rewrite fmap_app. constructor.
      2: { apply IH. intros a b Ha Hb. apply Hinj; rewrite call_ids_app; set_solver. }
      assert (∀ a b, a ∈ call_ids_of group → b ∈ call_ids_of group →
        truncate_tool_call_id a = truncate_tool_call_id b → a = b) as Hg.
      { intros a b Ha Hb. apply Hinj; rewrite call_ids_app; set_solver. }
      destruct Hr as (mid & t & th & rp & calls & results & -> & Hs & Hn & Hiff).
      exists mid, t, th, rp, (truncate_call <$> calls), ((λ r, (r.1, truncate_result r.2)) <$> results).
      assert (∀ id, id ∈ c_call_id <$> calls → id ∈ call_ids_of (MkProjected mid RAssistant (PCAssistant t th rp calls)
        :: ((λ r, MkProjected r.1 RTool (PCToolResult r.2)) <$> results))) as Hin.
      { intros id Hid. unfold call_ids_of. rewrite fmap_cons. cbn [concat]. rewrite fmap_app. apply elem_of_app. by left. }
      split; [by rewrite fmap_cons, <- !list_fmap_compose|]. split; [|split].
      * clear -Hs. induction Hs as [|c cs Hs IH Hf]; [constructor|]. rewrite fmap_cons. constructor; [done|]. by rewrite Forall_fmap.
      * rewrite truncated_results. apply NoDup_fmap_2_strong; [|exact Hn]. intros a b Ha Hb. apply Hg; apply Hin; by apply Hiff.
      * intros id. rewrite truncated_results, truncated_calls, !(list_elem_of_fmap truncate_tool_call_id). by setoid_rewrite Hiff.
  - apply Forall_forall. intros id. unfold call_ids_of. rewrite list_elem_of_fmap. intros (c & -> & Hc).
    apply elem_of_concat in Hc as (l & Hc & Hl). apply list_elem_of_fmap in Hl as (m & -> & Hm).
    apply list_elem_of_fmap in Hm as (m' & -> & _). unfold normalize_ids, p_calls_of in Hc. cbn in Hc.
    destruct (p_content m'); [by apply not_elem_of_nil in Hc| |by apply not_elem_of_nil in Hc].
    apply list_elem_of_fmap in Hc as (c' & -> & _). cbn. unfold truncate_tool_call_id. rewrite length_take.
    unfold PROVIDER_TOOL_CALL_ID_MAX_CHARS. lia.
Qed.
(** Two ids that differ only after 64 characters become one: the request then has two results for it. *)
Example truncation_conflates (id : str) : length id = 64%nat →
  truncate_tool_call_id (id ++ lit "a") = truncate_tool_call_id (id ++ lit "b").
Proof. intros H. unfold truncate_tool_call_id, PROVIDER_TOOL_CALL_ID_MAX_CHARS. by rewrite !take_app_le by lia. Qed.

(** ** Chat Completions *)

Section Chat.
Context {SJ : SerdeJson} {B64 : Base64}.

(** server/src/provider/openai_chat.rs:376-383, [role_name]. *)
Definition role_name (role : Role) : string :=
  match role with
  | RSystem => "system" | RUser => "user" | RAssistant => "assistant" | RTool => "tool"
  end.

(** [format!(data:{mime_type};base64,{})]. *)
Definition data_url (mime_type data : list Z) : str :=
  lit "data:" ++ mime_type ++ lit ";base64," ++ encode64 data.

Definition chat_part (part : ContentPart) : json :=
  match part with
  | PText t => object [("type", text "text"); ("text", JString t)]
  | PImage mime_type data =>
      object [("type", text "image_url"); ("image_url", object [("url", JString (data_url mime_type data))])]
  end%string.
(** The loop that joins the text, until an image. *)
Fixpoint only_text (parts : list ContentPart) : option str :=
  match parts with
  | [] => Some []
  | PText t :: parts => rest ← only_text parts; Some (t ++ rest)
  | PImage _ _ :: _ => None
  end.
(** server/src/provider/openai_chat.rs:333-363, [chat_content]. *)
Definition chat_content (parts : list ContentPart) : json :=
  match only_text parts with
  | Some t => JString t
  | None => JArray (chat_part <$> parts)
  end.

(** server/src/provider/openai_chat.rs:365-374, [openai_tool_call]. *)
Definition openai_tool_call (call : ToolCallContent) : res json :=
  arguments ← map_err Json (to_string (c_arguments call));
  Ok (object [("id", JString (c_call_id call)); ("type", text "function");
              ("function", object [("name", JString (c_name call)); ("arguments", JString arguments)])])%string.

(** Content some upstreams reject. *)
Definition empty_content (v : json) : bool :=
  match v with JString [] => true | JArray [] => true | _ => false end.

(** The reasoning an assistant message is replayed with. *)
Definition replay_reasoning (replay_state : option ProviderReplayState) : option str :=
  state ← replay_state;
  if bool_decide (provider_kind state = lit "openai_chat") then
    reasoning ← get_str "reasoning_content" (replay_value state);
    match reasoning with [] => None | _ => Some reasoning end
  else None.

(** server/src/provider/openai_chat.rs:255-330, [openai_chat_messages]: the members of one message
    besides its role, or [None] when it is left out. *)
Definition chat_message (m : ProjectedMessage) : res (option (list (string * json))) :=
  match p_content m with
  | PCParts parts =>
      let content := chat_content parts in
      Ok (if empty_content content then None else Some [("content"%string, content)])
  | PCAssistant t _ replay_state calls =>
      if bool_decide (t = []) && bool_decide (calls = []) then Ok None
      else
        let content := match t with [] => JNull | _ => JString t end in
        let reasoning := match replay_reasoning replay_state with
                         | Some r => [("reasoning_content"%string, JString r)]
                         | None => []
                         end in
        match calls with
        | [] => Ok (Some (("content"%string, content) :: reasoning))
        | _ =>
            calls ← mapM openai_tool_call calls;
            Ok (Some (("content"%string, content) :: reasoning ++ [("tool_calls"%string, JArray calls)]))
        end
  | PCToolResult result =>
      let content := match r_provider_parts result with
                     | [] => JString (r_content result)
                     | parts => chat_content parts
                     end in
      Ok (Some [("content"%string, content); ("tool_call_id"%string, JString (r_call_id result))])
  end.
(** server/src/provider/openai_chat.rs:250-331, [openai_chat_messages]: its loop. *)
Fixpoint chat_messages (history : list ProjectedMessage) : res (list json) :=
  match history with
  | [] => Ok []
  | m :: history =>
      members ← chat_message m;
      rest ← chat_messages history;
      Ok match members with
         | Some members => object (("role"%string, text (role_name (p_role m))) :: members) :: rest
         | None => rest
         end
  end.
(** server/src/provider/openai_chat.rs:250-331, [openai_chat_messages]. *)
Definition openai_chat_messages (instructions : str) (history : list ProjectedMessage) : res (list json) :=
  messages ← chat_messages history;
  Ok (match instructions with
      | [] => messages
      | _ => object [("role", text "system"); ("content", JString instructions)] :: messages
      end)%string.

(** server/src/provider/openai_chat.rs:229-247, [apply_model]. *)
Definition chat_apply_model (m : ModelSpec) (route_max : option Z) (body : json) : json :=
  let body := match match max_output_tokens m with Some n => Some n | None => route_max end with
              | Some n => set_member "max_completion_tokens" (number n) body
              | None => body
              end in
  let body := match rs_effort (reasoning m) with
              | Some effort => set_member "reasoning_effort" (JString effort) body
              | None => body
              end in
  match latency m with LFast => set_member "service_tier" (text "fast") body | LStandard => body end.

Definition chat_tool (t : ToolDefinition) : json :=
  object [("type", text "function");
          ("function", object [("name", JString (t_name t)); ("description", JString (t_description t));
                               ("parameters", t_parameters t)])]%string.
(** server/src/provider/openai_chat.rs:73-97, the body of the request, in [stream]. *)
Definition chat_body (p : PromptSpec) (m : ModelSpec) (route_max : option Z) (history : list ProjectedMessage) : res json :=
  messages ← openai_chat_messages (instructions p) history;
  let body := object [("model", JString (model_id m)); ("messages", JArray messages); ("stream", JBool true);
                      ("stream_options", object [("include_usage", JBool true)])]%string in
  let body := match tools p with [] => body | ts => set_member "tools" (JArray (chat_tool <$> ts)) body end in
  let body := match stop_sequences m with
              | [] => body
              | stops => set_member "stop" (JArray (JString <$> take 4 stops)) body
              end in
  body ← merge_extra_params (chat_apply_model m route_max body) (extra_params m);
  apply_openai_prompt_cache_key body (model_id m).
End Chat.

(** ** The messages of a Chat Completions request *)

(** What the API reads of a message. *)
Definition role_of (v : json) : option str := get_str "role" v.
Definition calls_in (v : json) : list str :=
  match get_member "tool_calls" v ≫= as_array with
  | Some calls => omap (get_str "id") calls
  | None => []
  end.
Definition answer_of (v : json) : option str := get_str "tool_call_id" v.

(** What it accepts: content that is not empty, and every call answered right after it, once. *)
Inductive chat_valid : list json → Prop :=
  | chat_valid_nil : chat_valid []
  | chat_valid_plain v messages content :
      is_Some (role_of v) → calls_in v = [] → answer_of v = None →
      get_member "content" v = Some content → content ≠ JNull → empty_content content = false →
      chat_valid messages → chat_valid (v :: messages)
  | chat_valid_round v answers messages ids :
      role_of v = Some (lit "assistant") → answer_of <$> answers = Some <$> ids →
      Forall (λ a, role_of a = Some (lit "tool")) answers → NoDup ids →
      (∀ id, id ∈ calls_in v ↔ id ∈ ids) →
      chat_valid messages → chat_valid (v :: answers ++ messages).

Section ChatFacts.
Context {SJ : SerdeJson} {B64 : Base64}.

(** What is said: characters, and images by their URLs, in order. *)
Definition chars (t : str) : list (Z + str) := inl <$> t.
Definition seen_parts (parts : list ContentPart) : list (Z + str) :=
  concat ((λ p, match p with PText t => chars t | PImage mime_type data => [inr (data_url mime_type data)] end) <$> parts).
Definition said_of (m : ProjectedMessage) : list (Z + str) :=
  match p_content m with
  | PCParts parts => seen_parts parts
  | PCAssistant t _ _ _ => chars t
  | PCToolResult r => match r_provider_parts r with [] => chars (r_content r) | parts => seen_parts parts end
  end.
(** The same, read off the content of a message. *)
Definition read_part (part : json) : option (list (Z + str)) :=
  kind ← get_str "type" part;
  if bool_decide (kind = lit "text") then t ← get_str "text" part; Some (chars t)
  else if bool_decide (kind = lit "image_url") then url ← get_member "image_url" part ≫= get_str "url"; Some [inr url]
  else None.
Definition read_content (v : json) : option (list (Z + str)) :=
  match get_member "content" v with
  | Some JNull => Some []
  | Some (JString t) => Some (chars t)
  | Some (JArray parts) => l ← mapM read_part parts; Some (concat l)
  | _ => None
  end.
Definition tool_calls_in (v : json) : list json := default [] (get_member "tool_calls" v ≫= as_array).
(** A call with its id, its name and its arguments as JSON. *)
Definition same_call (c : ToolCallContent) (v : json) : Prop :=
  get_str "id" v = Some (c_call_id c) ∧ (get_member "function" v ≫= get_str "name") = Some (c_name c) ∧
  ∃ arguments, to_string (c_arguments c) = Ok arguments ∧ (get_member "function" v ≫= get_str "arguments") = Some arguments.
(** The message of the request that carries a message of the history. *)
Record carries (m : ProjectedMessage) (v : json) : Prop := {
  ca_role : role_of v = Some (lit (role_name (p_role m)));
  ca_content : read_content v = Some (said_of m);
  ca_calls : Forall2 same_call (p_calls_of m) (tool_calls_in v);
  ca_answer : answer_of v = match p_content m with PCToolResult r => Some (r_call_id r) | _ => None end
}.
(** A message with nothing to send: no content, or thinking only. *)
Definition silent (m : ProjectedMessage) : bool :=
  match p_content m with
  | PCToolResult _ => false
  | _ => bool_decide (said_of m = []) && bool_decide (p_calls_of m = [])
  end.

Lemma seen_only_text parts t : only_text parts = Some t → seen_parts parts = chars t.
Proof.
  revert t. induction parts as [|[x|mt d] parts IH]; intros t; cbn [only_text]; [by intros [= <-]| |done].
  destruct (only_text parts) as [rest|]; [|done]. intros [= <-]. unfold seen_parts in *. rewrite fmap_cons. cbn [concat].
  rewrite (IH rest eq_refl). unfold chars. by rewrite fmap_app.
Qed.
Lemma read_chat_parts parts : (l ← mapM read_part (chat_part <$> parts); Some (concat l)) = Some (seen_parts parts).
Proof.
  induction parts as [|p parts IH]; [done|]. rewrite fmap_cons. cbn [mapM].
  assert (read_part (chat_part p) = Some (match p with PText t => chars t | PImage mt d => [inr (data_url mt d)] end)) as ->
    by (destruct p; unfold read_part, chat_part; by get_obj).
  cbn [mbind option_bind]. destruct (mapM read_part _) as [l|]; [|done]. injection IH as IH. cbn. by rewrite IH.
Qed.
Lemma some_image parts : only_text parts = None → seen_parts parts ≠ [].
Proof.
  induction parts as [|[x|mt d] parts IH]; cbn [only_text]; [done| |done]. destruct (only_text parts); [done|].
  intros _ E. unfold seen_parts in *. cbn in E. apply app_nil in E as [_ E]. by apply IH.
Qed.
Lemma chat_content_read parts v : get_member "content" v = Some (chat_content parts) →
  read_content v = Some (seen_parts parts) ∧ empty_content (chat_content parts) = bool_decide (seen_parts parts = []).
Proof.
  unfold read_content, chat_content. intros ->. destruct (only_text parts) as [t|] eqn:E.
  - rewrite (seen_only_text _ _ E). split; [done|]. by destruct t.
  - rewrite read_chat_parts. split; [done|]. pose proof (some_image _ E) as Hn. rewrite bool_decide_eq_false_2 by done.
    destruct parts; [done|]. by rewrite fmap_cons.
Qed.
Lemma mapM_same_calls calls values : mapM openai_tool_call calls = Ok values → Forall2 same_call calls values.
Proof.
  revert values. induction calls as [|c calls IH]; intros values; cbn [mapM]; [by intros [= <-]|].
  destruct (openai_tool_call c) as [v|] eqn:Ec; [|done]. cbn.
  destruct (mapM openai_tool_call calls) as [vs|]; [|done]. intros [= <-]. constructor; [|by apply IH].
  unfold openai_tool_call in Ec. unfold same_call. destruct (to_string (c_arguments c)) as [a|] eqn:Ea; [|done]. cbn in Ec. injection Ec as <-.
  get_obj. split; [done|]. split; [done|]. exists a. by split.
Qed.

(** A message is left out when it is silent, and carried whole otherwise. *)
Lemma chat_message_carries m members : chat_message m = Ok members →
  match members with
  | None => silent m = true
  | Some members => silent m = false ∧ carries m (object (("role"%string, text (role_name (p_role m))) :: members))
  end.
Proof.
  unfold chat_message, silent. destruct m as [id r c]. cbn [p_content p_role]. destruct c as [parts|t th rp calls|res].
  - intros E. apply ok_inj in E. subst members.
    destruct (chat_content_read parts (object [("role", text (role_name r)); ("content", chat_content parts)]%string)) as [H1 H2]; [by get_obj|].
    unfold said_of, p_calls_of. cbn [p_content]. rewrite andb_true_r. rewrite H2. destruct (bool_decide (seen_parts parts = [])) eqn:E; [done|].
    split; [done|]. split; cbn [p_role p_content]; [by get_obj|exact H1|unfold tool_calls_in; get_obj; constructor|unfold answer_of; by get_obj].
  - unfold said_of, p_calls_of. cbn [p_content].
    assert (bool_decide (chars t = []) = bool_decide (t = [])) as -> by (by destruct t).
    destruct (bool_decide (t = []) && bool_decide (calls = [])) eqn:E; [intros H; by apply ok_inj in H as <-|].
    destruct calls as [|c calls].
    + intros H. apply ok_inj in H as <-. split; [done|]. destruct t as [|x t]; [done|].
      destruct (replay_reasoning rp); (split; cbn [p_role p_content p_calls_of said_of];
        [by get_obj|unfold read_content; by get_obj|unfold tool_calls_in; get_obj; constructor|unfold answer_of; by get_obj]).
    + destruct (mapM openai_tool_call (c :: calls)) as [values|] eqn:Ev; [|done]. cbn [mbind result_bind]. intros H. apply ok_inj in H as <-.
      split; [done|]. apply mapM_same_calls in Ev.
      destruct t, (replay_reasoning rp); (split; cbn [p_role p_content p_calls_of said_of];
        [by get_obj|unfold read_content; by get_obj|unfold tool_calls_in; by get_obj|unfold answer_of; by get_obj]).
  - intros H. apply ok_inj in H as <-. split; [done|].
    split; cbn [p_role p_content p_calls_of said_of]; [by get_obj| |unfold tool_calls_in; get_obj; constructor|unfold answer_of; by get_obj].
    destruct (r_provider_parts res) as [|q qs]; [unfold read_content; by get_obj|]. apply chat_content_read. by get_obj.
Qed.
Lemma chat_messages_carry history messages : chat_messages history = Ok messages →
  Forall2 carries (filter (λ m, silent m = false) history) messages.
Proof.
  revert messages. induction history as [|m h IH]; intros messages; cbn [chat_messages]; [by intros [= <-]|].
  destruct (chat_message m) as [members|] eqn:Em; [|done]. cbn [mbind result_bind].
  destruct (chat_messages h) as [rest|]; [|done]. cbn [mbind result_bind]. intros H. apply ok_inj in H as <-.
  apply chat_message_carries in Em. rewrite filter_cons. destruct members as [members|].
  - destruct Em as [-> Hc]. rewrite decide_True by done. constructor; [exact Hc|by apply IH].
  - rewrite Em, decide_False by done. by apply IH.
Qed.

Lemma mapM_calls calls values : mapM openai_tool_call calls = Ok values → omap (get_str "id") values = c_call_id <$> calls.
Proof.
  revert values. induction calls as [|c calls IH]; intros values; cbn [mapM]; [by intros [= <-]|].
  destruct (openai_tool_call c) as [v|] eqn:Ec; [|done]. cbn.
  destruct (mapM openai_tool_call calls) as [vs|]; [|done]. intros [= <-]. cbn [omap list_omap].
  rewrite (IH vs eq_refl). unfold openai_tool_call in Ec. destruct (map_err _ _); [|done]. injection Ec as <-. by get_obj.
Qed.

Lemma chat_messages_app h k : chat_messages (h ++ k) = (a ← chat_messages h; b ← chat_messages k; Ok (a ++ b)).
Proof.
  induction h as [|m h IH]; cbn [app chat_messages].
  - cbn. by destruct (chat_messages k).
  - destruct (chat_message m) as [members|]; [|done]. cbn. rewrite IH.
    destruct (chat_messages h) as [a|]; [|done]. cbn. destruct (chat_messages k); [|done]. cbn. by destruct members.
Qed.

Lemma chat_lone m messages rest : lone m → chat_valid rest →
  (members ← chat_message m; Ok match members with
     | Some members => object (("role"%string, text (role_name (p_role m))) :: members) :: rest
     | None => rest end) = Ok messages → chat_valid messages.
Proof.
  unfold lone, chat_message. intros Hl Hr. destruct (p_content m) as [parts|t th rp calls|r]; [| |done].
  - cbn [mbind result_bind]. destruct (empty_content _) eqn:E; intros [= <-]; [done|].
    eapply chat_valid_plain; [by get_obj; eexists|by unfold calls_in; get_obj|by unfold answer_of; get_obj|by get_obj|..]; try done.
    intros Hn. unfold chat_content in Hn. by destruct (only_text parts).
  - rewrite Hl, andb_true_r. case_bool_decide as Ht; cbn [mbind result_bind]; intros [= <-]; [done|].
    destruct t as [|x t]; [done|]. destruct (replay_reasoning rp);
      (eapply chat_valid_plain; [by get_obj; eexists|by unfold calls_in; get_obj|by unfold answer_of; get_obj|by get_obj|done..]).
Qed.

Lemma chat_results (results : list (str * ToolResultContent)) out :
  chat_messages ((λ r, MkProjected (fst r) RTool (PCToolResult (snd r))) <$> results) = Ok out →
  answer_of <$> out = Some <$> ((λ r, r_call_id (snd r)) <$> results) ∧ Forall (λ a, role_of a = Some (lit "tool")) out.
Proof.
  revert out. induction results as [|r results IH]; intros out; [by intros [= <-]|].
  rewrite fmap_cons. cbn [chat_messages chat_message p_content p_role mbind result_bind].
  destruct (chat_messages _) as [rest|]; [|done]. destruct (IH rest eq_refl) as [H1 H2]. intros [= <-].
  rewrite !fmap_cons, H1. unfold answer_of, role_of. get_obj. split; [done|]. constructor; [by get_obj|done].
Qed.

Lemma chat_round group out rest : round_ok group → chat_messages group = Ok out → chat_valid rest → chat_valid (out ++ rest).
Proof.
  intros (id & t & th & rp & calls & results & -> & _ & Hn & Hiff) H Hr.
  destruct (decide (calls = [])) as [->|Hc].
  - assert (results = []) as ->.
    { destruct results as [|r results]; [done|]. exfalso. specialize (Hiff (r_call_id r.2)). cbn in Hiff.
      apply (not_elem_of_nil (r_call_id r.2)). apply Hiff. by left. }
    apply (chat_lone (MkProjected id RAssistant (PCAssistant t th rp [])) _ rest); [done|done|].
    cbn [fmap list_fmap chat_messages] in H. destruct (chat_message _) as [[members|]|]; [..|done]; by injection H as <-.
  - cbn [chat_messages] in H. unfold chat_message at 1 in H. cbn [p_content p_role] in H.
    rewrite (bool_decide_eq_false_2 (calls = [])), andb_false_r in H by done.
    destruct calls as [|c calls]; [done|]. destruct (mapM openai_tool_call (c :: calls)) as [values|] eqn:Ev; [|done].
    apply mapM_calls in Ev. cbn [mbind result_bind] in H.
    destruct (chat_messages _) as [answers|] eqn:Ea; [|done]. cbn [mbind result_bind] in H. injection H as <-.
    apply chat_results in Ea as [Ha Hf]. rewrite <- app_comm_cons.
    eapply chat_valid_round; [|exact Ha|exact Hf|exact Hn| |exact Hr].
    + destruct (replay_reasoning rp); by get_obj.
    + intros i. rewrite <- Hiff, <- Ev. unfold calls_in.
      by destruct (replay_reasoning rp); get_obj.
Qed.

Lemma chat_messages_valid history messages : paired history → chat_messages history = Ok messages → chat_valid messages.
Proof.
  intros Hp. revert messages. induction Hp as [|m h Hl Hp IH|group h Hr Hp IH]; intros out E.
  - injection E as <-. constructor.
  - cbn [chat_messages] in E. destruct (chat_messages h) as [rest|] eqn:Er.
    + eapply chat_lone; [exact Hl|by apply (IH rest)|]. by destruct (chat_message m).
    + by destruct (chat_message m).
  - rewrite chat_messages_app in E. destruct (chat_messages group) as [a|] eqn:Ea; [|done]. cbn in E.
    destruct (chat_messages h) as [b|]; [|done]. injection E as <-. eapply chat_round; [exact Hr|exact Ea|by apply IH].
Qed.

(** Members set after the literal of the body. *)
Lemma get_set field v members name : get_member name (set_member field v (JObject members)) =
  if (field =? name)%string then Some v else get_member name (JObject members).
Proof.
  cbn [set_member]. rewrite get_insert. destruct (String.eqb_spec field name) as [->|H]; [by rewrite decide_True|].
  rewrite decide_False; [done|]. intros E. by apply lit_inj in E.
Qed.
Lemma set_is_object field v members : ∃ members', set_member field v (JObject members) = JObject members'.
Proof. by eexists. Qed.

(** A body that differs from another only in members of [names]. *)
Definition only_sets (names : list string) (b b' : json) : Prop :=
  is_Some (as_object b') ∧ ∀ name, name ∉ names → get_member name b' = get_member name b.
Lemma only_sets_refl names b : is_Some (as_object b) → only_sets names b b.
Proof. by split. Qed.
Lemma only_sets_set names b b' field v : only_sets names b b' → field ∈ names → only_sets names b (set_member field v b').
Proof.
  intros [[m Ho] H] Hin. destruct b'; try done. split; [by eexists|]. intros name Hn. rewrite get_set, H by done.
  destruct (String.eqb_spec field name) as [->|]; [done|done].
Qed.
Lemma chat_apply_model_sets names m route b b' : only_sets names b b' →
  ["max_completion_tokens"; "reasoning_effort"; "service_tier"]%string ⊆ names → only_sets names b (chat_apply_model m route b').
Proof.
  intros H Hn. unfold chat_apply_model. destruct (latency m); destruct (rs_effort _); destruct (max_output_tokens m); destruct route;
    repeat (apply only_sets_set; [|set_solver]); done.
Qed.

(** C6: A Chat Completions request is one the API accepts, whatever extra parameters the model has: it
    asks for a stream of the model's own answer, with the prompt's tools; after the prompt's instructions its messages
    carry the history's messages that say anything - role, text and images, calls, the content of every result - in order, and keep
    the pairing of calls and results whenever the history does; no message but an answer is empty. *)
Theorem chat_request_valid p m route history body : paired history → chat_body p m route history = Ok body →
  get_member "model" body = Some (JString (model_id m)) ∧ get_member "stream" body = Some (JBool true) ∧
  (∃ messages, get_member "messages" body = Some (JArray (match instructions p with
      | [] => messages
      | _ => object [("role", text "system"); ("content", JString (instructions p))]%string :: messages
      end)) ∧ chat_valid messages ∧ Forall2 carries (filter (λ m, silent m = false) history) messages) ∧
  get_member "tools" body = match tools p with [] => None | ts => Some (JArray (chat_tool <$> ts)) end.
Proof.
  intros Hp H. unfold chat_body, openai_chat_messages in H. destruct (chat_messages history) as [sent|] eqn:Em; [|done].
  cbn [mbind result_bind] in H. set (messages := match instructions p with [] => _ | _ => _ end) in H.
  set (b0 := object _) in H. set (b1 := match tools p with [] => _ | _ => _ end) in H.
  set (b2 := match stop_sequences m with [] => _ | _ => _ end) in H.
  destruct (merge_extra_params _ _) as [b3|] eqn:E3; [|done].
  assert (∃ members, b1 = JObject members) as [members Hb1] by (unfold b1; destruct (tools p); by eexists).
  assert (only_sets ["stop"; "max_completion_tokens"; "reasoning_effort"; "service_tier"]%string b1 (chat_apply_model m route b2)) as [_ Hs].
  { apply chat_apply_model_sets; [|set_solver]. unfold b2. rewrite Hb1.
    destruct (stop_sequences m); [by apply only_sets_refl|]. apply only_sets_set; [by apply only_sets_refl|set_solver]. }
  assert (∀ name, name ∈ ["model"; "stream"; "messages"; "tools"]%string → get_member name body = get_member name b1) as Hk.
  { intros name Hn. rewrite (cache_key_keeps _ _ _ name H) by set_solver.
    rewrite (proj1 (merge_keeps _ _ _ name E3 ltac:(set_unfold; destruct Hn as [->|[->|[->|[->|[]]]]]; reflexivity))).
    apply Hs. set_unfold. naive_solver. }
  rewrite !Hk by set_solver. unfold b1, b0. destruct (tools p) as [|t ts]; [|unfold object at 1; rewrite !get_set]; get_obj.
  all: pose proof (chat_messages_valid history sent Hp Em); apply chat_messages_carry in Em;
    split_and!; try done; exists sent; split_and!; try done; unfold messages; by destruct (instructions p).
Qed.
End ChatFacts.

(** ** A request *)
Module RequestSamples.
Definition serde : SerdeJson := Samples.tiny_json.
Definition base64 : Base64 := {| encode64 _ := lit "AA==" |}.
Definition call : ToolCallContent := MkCall 0 (lit "c1") (lit "ls") (JObject []).
Definition answer : ToolResultContent := MkResult (lit "c1") (lit "ls") (lit "src") false None [].
Definition history : list ProjectedMessage :=
  [MkProjected (lit "m1") RUser (PCParts [PText (lit "hello"); PImage (lit "image/png") []]);
   MkProjected (lit "m2") RAssistant (PCAssistant [] (lit "hm") None []);
   MkProjected (lit "m3") RAssistant (PCAssistant (lit "let me look") [] None [call]);
   MkProjected (lit "m4") RTool (PCToolResult answer)].
Definition prompt : PromptSpec := MkPrompt (lit "be brief") [MkTool (lit "ls") (lit "lists") (JObject [])].
Definition model : ModelSpec :=
  MkModel (lit "gpt-5") None (MkReasoning None (Some (lit "high")) None) LFast None None false
    (JObject [(lit "top_p", number 1)]) [lit "STOP"].

Lemma paired_history : paired history.
Proof.
  apply paired_lone; [done|]. apply paired_lone; [done|]. apply (paired_round (drop 2 history) []); [|constructor].
  exists (lit "m3"), (lit "let me look"), [], None, [call], [(lit "m4", answer)]. split; [done|]. split; [repeat constructor|].
  split; [repeat constructor; set_solver|]. done.
Qed.
End RequestSamples.

Lemma normalize_keeps_paired_witness : paired (normalize_provider_tool_call_ids RequestSamples.history).
Proof.
  apply (normalize_keeps_paired RequestSamples.history RequestSamples.paired_history).
  intros a b Ha Hb _. apply list_elem_of_singleton in Ha as ->. by apply list_elem_of_singleton in Hb as ->.
Defined.
Lemma chat_request_valid_witness : ∃ body messages,
  @chat_body RequestSamples.serde RequestSamples.base64 RequestSamples.prompt RequestSamples.model (Some 4096)
    RequestSamples.history = Ok body ∧
  get_member "messages" body =
    Some (JArray (object [("role", text "system"); ("content", JString (lit "be brief"))]%string :: messages)) ∧
  chat_valid messages ∧ length messages = 3%nat ∧
  (messages !! 2%nat ≫= read_content) = Some (chars (lit "src")).
Proof.
  destruct (@chat_body RequestSamples.serde RequestSamples.base64 RequestSamples.prompt RequestSamples.model (Some 4096)
    RequestSamples.history) as [body|] eqn:E; [|vm_compute in E; discriminate E].
  destruct (@chat_request_valid RequestSamples.serde RequestSamples.base64 RequestSamples.prompt RequestSamples.model (Some 4096)
    RequestSamples.history body RequestSamples.paired_history E) as (_ & _ & (messages & Hg & Hv & Hc) & _).
  exists body, messages. split; [reflexivity|]. split; [exact Hg|]. split; [exact Hv|].
  apply Forall2_cons_inv_l in Hc as (v1 & l1 & H1 & Hc & ->). apply Forall2_cons_inv_l in Hc as (v2 & l2 & H2 & Hc & ->).
  apply Forall2_cons_inv_l in Hc as (v3 & l3 & H3 & Hc & ->). apply Forall2_nil_inv_l in Hc as ->.
  split; [reflexivity|]. exact (ca_content _ _ H3).
Defined.
