(* ===== verification/Anthropic.v ===== *)
(** * Anthropic: the stream of the Messages API

    server/src/provider/anthropic.rs, the response half: the stream of events made from the blocks
    of a message.  An upstream may leave out the start of a text or thinking block, and its
    message_stop; the adapter then opens and closes them itself.

    [anthropic_conforms]: of a response whose blocks do not overlap ([grammar]), the cycle gets the
    text, the reasoning and the arguments that were sent, and finds no violation. *)

From stdpp Require Import prelude gmap strings list sorting.
From S2P Require Import Prelude Errors External Json Message Budget ModelCycle Provider.
Local Open Scope Z_scope.

Definition LABEL : string := "Anthropic".

Section Anthropic.
Context {SJ : SerdeJson} {SN : SerdeNumber}.

Definition missing (name : string) : Error := Provider (lit "Anthropic event is missing " ++ lit name).
(** server/src/provider/anthropic.rs:562-567, [required_string]. *)
Definition required_string (value : json) (name : string) : res str := ok_or (get_str name value) (missing name).
(** server/src/provider/anthropic.rs:569-578, [required_u64]: a number, or the text of one. *)
Definition required_u64 (value : json) (name : string) : res Z :=
  ok_or (v ← get_member name value;
         match as_u64 v with Some n => Some n | None => as_str v ≫= parse_u64 end) (missing name).

(** ** Usage *)

(** server/src/provider/anthropic.rs:580-600, [anthropic_usage]. *)
Definition anthropic_usage (value : json) : Usage :=
  let n (name : string) := get_member name value ≫= as_u64 in
  let cache_read := n "cache_read_input_tokens" in
  let cache_write := n "cache_creation_input_tokens" in
  MkUsage (n "input_tokens")
    ((λ input, sat_add (sat_add input (default 0 cache_read)) (default 0 cache_write)) <$> n "input_tokens")
    (n "output_tokens") (n "total_tokens") cache_read cache_write None.
(** server/src/provider/anthropic.rs:427-431, [merge_usage_field]. *)
Definition merge_usage_field (total update : option Z) : option Z :=
  match update with
  | Some u => Some (match total with Some t => Z.max t u | None => u end)
  | None => total
  end.
(** server/src/provider/anthropic.rs:410-425, [merge_usage]. *)
Definition merge_usage (total update : Usage) : Usage :=
  let context := merge_usage_field (u_context_input_tokens total) (u_context_input_tokens update) in
  let output := merge_usage_field (output_tokens total) (output_tokens update) in
  let sum := merge_usage_field (total_tokens total) (total_tokens update) in
  MkUsage (merge_usage_field (input_tokens total) (input_tokens update)) context output
    (match context, output with
     | Some i, Some o => if i + o <=? U64_MAX then Some (i + o) else sum
     | _, _ => sum
     end)
    (merge_usage_field (cache_read_tokens total) (cache_read_tokens update))
    (merge_usage_field (cache_write_tokens total) (cache_write_tokens update))
    (merge_usage_field (reasoning_tokens total) (reasoning_tokens update)).
Definition no_usage : Usage := MkUsage None None None None None None None.

(** ** The response *)

(** server/src/provider/anthropic.rs:125-132, the locals of [stream]. *)
Record AnthropicStream : Type := MkAnthropic {
  an_blocks : gmap Z str;
  an_text : gmap Z str;
  an_signatures : gmap Z str;
  an_thinking_blocks : list json;
  an_finish : option FinishReason;
  an_saw_tool : bool;
  an_terminal : bool;
  an_usage : option Usage
}.
Definition new_anthropic : AnthropicStream := MkAnthropic ∅ ∅ ∅ [] None false false None.

Definition set_blocks (s : AnthropicStream) (blocks : gmap Z str) : AnthropicStream :=
  MkAnthropic blocks (an_text s) (an_signatures s) (an_thinking_blocks s) (an_finish s) (an_saw_tool s) (an_terminal s) (an_usage s).
Definition set_signed (s : AnthropicStream) (text signatures : gmap Z str) (blocks : list json) : AnthropicStream :=
  MkAnthropic (an_blocks s) text signatures blocks (an_finish s) (an_saw_tool s) (an_terminal s) (an_usage s).
Definition set_an_finish (s : AnthropicStream) (f : option FinishReason) : AnthropicStream :=
  MkAnthropic (an_blocks s) (an_text s) (an_signatures s) (an_thinking_blocks s) f (an_saw_tool s) (an_terminal s) (an_usage s).
Definition set_saw_tool (s : AnthropicStream) : AnthropicStream :=
  MkAnthropic (an_blocks s) (an_text s) (an_signatures s) (an_thinking_blocks s) (an_finish s) true (an_terminal s) (an_usage s).
Definition set_terminal (s : AnthropicStream) : AnthropicStream :=
  MkAnthropic (an_blocks s) (an_text s) (an_signatures s) (an_thinking_blocks s) (an_finish s) (an_saw_tool s) true (an_usage s).
Definition count_usage (s : AnthropicStream) (value : option json) : AnthropicStream :=
  match value with
  | Some v =>
      MkAnthropic (an_blocks s) (an_text s) (an_signatures s) (an_thinking_blocks s) (an_finish s) (an_saw_tool s) (an_terminal s)
        (Some (merge_usage (default no_usage (an_usage s)) (anthropic_usage v)))
  | None => s
  end.

(** The kind of an event: its name, unless that says nothing. *)
Definition anthropic_kind (event : SseEvent) (value : json) : str :=
  if bool_decide (sse_event event = []) || named (sse_event event) "message" then
    default (sse_event event) (get_str "type" value)
  else sse_event event.

(** server/src/provider/anthropic.rs:299-328, [close_anthropic_block]. *)
Definition close_anthropic_block (i : Z) (kind : str) (s : AnthropicStream) : list ModelEvent * AnthropicStream :=
  if named kind "text" then ([MTextEnd], s)
  else if named kind "thinking" then
    let thinking : str := default [] (an_text s !! i) in
    let signature := default [] (an_signatures s !! i) in
    let '(events, blocks) :=
      match signature with
      | [] => ([], an_thinking_blocks s)
      | _ => ([MThinkingSignature signature],
              an_thinking_blocks s ++ [object [("type"%string, text "thinking"); ("thinking"%string, JString thinking);
                                               ("signature"%string, JString signature)]])
      end in
    (events ++ [MThinkingEnd], set_signed s (delete i (an_text s)) (delete i (an_signatures s)) blocks)
  else if named kind "tool_use" then ([MToolCallEnd i], s)
  else ([], s).

(** server/src/provider/anthropic.rs:154-178, a block starts. *)
Definition block_start (s : AnthropicStream) (value : json) : Yield AnthropicStream :=
  i ← attempt (required_u64 value "index");
  let block := default JNull (get_member "content_block" value) in
  kind ← attempt (required_string block "type");
  let s := set_blocks s (<[i := kind]> (an_blocks s)) in
  if named kind "text" then _ ← yield MTextStart; mret s
  else if named kind "thinking" then
    _ ← yield MThinkingStart;
    mret (set_signed s (<[i := []]> (an_text s)) (<[i := []]> (an_signatures s)) (an_thinking_blocks s))
  else if named kind "redacted_thinking" then
    mret (set_signed s (an_text s) (an_signatures s) (an_thinking_blocks s ++ [block]))
  else if named kind "tool_use" then
    id ← attempt (required_string block "id");
    nm ← attempt (required_string block "name");
    _ ← yield (MToolCallStart i id nm);
    mret (set_saw_tool s)
  else mret s.

(** The kind of block a delta without a start opens. *)
Definition implied_kind (delta_kind : str) : option string :=
  if named delta_kind "text_delta" then Some "text"%string
  else if named delta_kind "thinking_delta" || named delta_kind "signature_delta" then Some "thinking"%string
  else None.
(** server/src/provider/anthropic.rs:183-197, a delta whose block did not start. *)
Definition open_implied (i : Z) (delta_kind : str) (s : AnthropicStream) : Yield AnthropicStream :=
  match an_blocks s !! i with
  | Some _ => mret s
  | None =>
      match implied_kind delta_kind with
      | None => mret s
      | Some kind =>
          let s := set_blocks s (<[i := lit kind]> (an_blocks s)) in
          if (kind =? "text")%string then _ ← yield MTextStart; mret s
          else
            _ ← yield MThinkingStart;
            mret (set_signed s (<[i := []]> (an_text s)) (<[i := []]> (an_signatures s)) (an_thinking_blocks s))
      end
  end.
Definition push_at (i : Z) (piece : str) (m : gmap Z str) : gmap Z str := <[i := default [] (m !! i) ++ piece]> m.
(** server/src/provider/anthropic.rs:179-209, a piece of a block. *)
Definition block_delta (s : AnthropicStream) (value : json) : Yield AnthropicStream :=
  i ← attempt (required_u64 value "index");
  let delta := default JNull (get_member "delta" value) in
  delta_kind ← attempt (required_string delta "type");
  s ← open_implied i delta_kind s;
  if named delta_kind "text_delta" then
    _ ← yield_all (match get_str "text" delta with Some t => [MTextDelta t] | None => [] end);
    mret s
  else if named delta_kind "thinking_delta" then
    match get_str "thinking" delta with
    | Some t =>
        _ ← yield (MThinkingDelta t);
        mret (set_signed s (push_at i t (an_text s)) (an_signatures s) (an_thinking_blocks s))
    | None => mret s
    end
  else if named delta_kind "signature_delta" then
    mret (match get_str "signature" delta with
          | Some sig => set_signed s (an_text s) (push_at i sig (an_signatures s)) (an_thinking_blocks s)
          | None => s
          end)
  else if named delta_kind "input_json_delta" then
    _ ← yield_all (match get_str "partial_json" delta with Some t => [MToolCallArgumentsDelta i t] | None => [] end);
    mret s
  else mret s.

(** server/src/provider/anthropic.rs:210-217, a block ends. *)
Definition block_stop (s : AnthropicStream) (value : json) : Yield AnthropicStream :=
  i ← attempt (required_u64 value "index");
  match an_blocks s !! i with
  | None => mret s
  | Some kind =>
      let '(events, s) := close_anthropic_block i kind (set_blocks s (delete i (an_blocks s))) in
      _ ← yield_all events; mret s
  end.

(** The reason a stop reason stands for. *)
Definition stop_reason (s : AnthropicStream) (reason : option str) : option FinishReason :=
  match reason with
  | None => an_finish s
  | Some r =>
      Some (if named r "tool_use" then FinishToolUse
            else if named r "max_tokens" || named r "model_context_window_exceeded" then FinishLength
            else if existsb (named r) ["end_turn"; "stop_sequence"; "pause_turn"; "refusal"]%string then FinishStop
            else if an_saw_tool s then FinishToolUse else FinishStop)
  end.
(** server/src/provider/anthropic.rs:218-239, the delta of the message. *)
Definition message_delta (s : AnthropicStream) (value : json) : Yield AnthropicStream :=
  let s := count_usage s (get_member "usage" value) in
  _ ← yield_all (match pointer ["delta"; "stop_sequence"]%string value ≫= as_str with
                 | Some ((_ :: _) as sequence) => [MStopSequence sequence]
                 | _ => []
                 end);
  mret (set_an_finish s (stop_reason s (pointer ["delta"; "stop_reason"]%string value ≫= as_str))).

Fixpoint close_blocks (blocks : list (Z * str)) (s : AnthropicStream) : list ModelEvent * AnthropicStream :=
  match blocks with
  | [] => ([], s)
  | (i, kind) :: blocks =>
      let '(events, s) := close_anthropic_block i kind s in
      let '(more, s) := close_blocks blocks s in
      (events ++ more, s)
  end.
(** server/src/provider/anthropic.rs:270-291, the end of the message, as both [message_stop] and the end of the source do it. *)
Definition anthropic_done (s : AnthropicStream) : Yield AnthropicStream :=
  let '(events, s) := close_blocks (btree (an_blocks s)) (set_blocks s ∅) in
  _ ← yield_all events;
  let s := set_terminal s in
  _ ← yield_all (match an_thinking_blocks s with
                 | [] => []
                 | blocks => [MReplayState (MkReplay (lit "anthropic") (object [("blocks"%string, JArray blocks)]))]
                 end);
  let s := set_signed s (an_text s) (an_signatures s) [] in
  _ ← yield_all (match an_usage s with Some u => [MUsage u] | None => [] end);
  _ ← yield (MDone (match an_finish s with
                    | Some FinishLength => FinishLength
                    | _ => if an_saw_tool s then FinishToolUse else default FinishStop (an_finish s)
                    end));
  mret s.

(** server/src/provider/anthropic.rs:137-268, one event. *)
Definition anthropic_event (s : AnthropicStream) (event : SseEvent) (value : json) : Yield AnthropicStream :=
  let kind := anthropic_kind event value in
  if named kind "message_start" then mret (count_usage s (pointer ["message"; "usage"]%string value))
  else if named kind "content_block_start" then block_start s value
  else if named kind "content_block_delta" then block_delta s value
  else if named kind "content_block_stop" then block_stop s value
  else if named kind "message_delta" then message_delta s value
  else if named kind "message_stop" then anthropic_done s
  else mret s.

(** server/src/provider/anthropic.rs:269-294, the end of the source. *)
Definition anthropic_end (s : AnthropicStream) : Yield () :=
  if an_terminal s then mret ()
  else match an_finish s with
       | Some _ => _ ← anthropic_done s; mret ()
       | None => attempt (Err (Provider (lit "Anthropic stream ended without message_stop")))
       end.

Definition no_marker (_ : SseEvent) : bool := false.
(** server/src/provider/anthropic.rs:111-296, [stream], from the response on. *)
Definition anthropic_stream (id : str) (inputs : list sse_input) : Yield () :=
  _ ← yield (MStart id);
  s ← sse_loop LABEL no_marker (λ s, s) anthropic_event new_anthropic inputs;
  match s with
  | None => mret ()
  | Some s => anthropic_end s
  end.
End Anthropic.

(** ** Responses whose blocks do not overlap *)

Section Grammar.
Context {SN : SerdeNumber}.

(** What has been read: the block that is open, the indices of the blocks so far, and whether the message stopped. *)
Record Gram : Type := MkGram { g_open : option (Z * str); g_used : gset Z; g_stopped : bool }.
Definition new_gram : Gram := MkGram None ∅ false.

(** A piece belongs to a block of its kind. *)
Definition piece_fits (kind delta_kind : str) : bool :=
  if named delta_kind "text_delta" then named kind "text"
  else if named delta_kind "thinking_delta" then named kind "thinking"
  else if named delta_kind "input_json_delta" then named kind "tool_use"
  else true.
Definition gram_start (g : Gram) (i : Z) (kind : str) : option Gram :=
  if bool_decide (g_open g = None) && bool_decide (i ∉ g_used g) then Some (MkGram (Some (i, kind)) ({[i]} ∪ g_used g) false)
  else None.

(** Blocks come one after the other, each of an index of its own; a text or thinking block may begin with its
    first piece; nothing of the message follows its stop. *)
Definition grammar (g : Gram) (event : SseEvent) (value : json) : option Gram :=
  let kind := anthropic_kind event value in
  if named kind "content_block_start" then
    match g_stopped g, required_u64 value "index", required_string (default JNull (get_member "content_block" value)) "type" with
    | false, Ok i, Ok kind => gram_start g i kind
    | _, _, _ => None
    end
  else if named kind "content_block_delta" then
    match g_stopped g, required_u64 value "index", required_string (default JNull (get_member "delta" value)) "type" with
    | false, Ok i, Ok delta_kind =>
        match g_open g with
        | Some (j, kind) => if bool_decide (i = j) && piece_fits kind delta_kind then Some g else None
        | None => kind ← implied_kind delta_kind; gram_start g i (lit kind)
        end
    | _, _, _ => None
    end
  else if named kind "content_block_stop" then
    match g_stopped g, required_u64 value "index", g_open g with
    | false, Ok i, Some (j, _) => if bool_decide (i = j) then Some (MkGram None (g_used g) false) else None
    | _, _, _ => None
    end
  else if named kind "message_delta" then if g_stopped g then None else Some g
  else if named kind "message_stop" then if g_stopped g then None else Some (MkGram None (g_used g) true)
  else Some g.
Fixpoint gram_run (g : Gram) (values : list (SseEvent * json)) : option Gram :=
  match values with
  | [] => Some g
  | (event, value) :: values => g ← grammar g event value; gram_run g values
  end.
Definition grammatical (values : list (SseEvent * json)) : Prop := is_Some (gram_run new_gram values).
Lemma gram_run_snoc g values p : gram_run g (values ++ [p]) = (g ← gram_run g values; grammar g p.1 p.2).
Proof.
  revert g. induction values as [|[event v] values IH]; intros g; cbn [app gram_run mbind option_bind].
  - destruct p as [event v]. cbn. by destruct (grammar g event v).
  - destruct (grammar g event v) as [g'|]; [apply IH|done].
Qed.
Lemma grammatical_prefix a b : a `prefix_of` b → grammatical b → grammatical a.
Proof.
  intros [k ->]. induction k as [|p k IH] using rev_ind; [by rewrite app_nil_r|]. rewrite app_assoc. unfold grammatical.
  rewrite gram_run_snoc. intros [g H]. apply IH. destruct (gram_run new_gram (a ++ k)) as [g'|] eqn:E; [|done]. unfold grammatical. by rewrite E.
Qed.

(** What the pieces hold. *)
Definition piece (p : SseEvent * json) (delta_kind member : string) : option str :=
  let delta := default JNull (get_member "delta" p.2) in
  if named (anthropic_kind p.1 p.2) "content_block_delta" && bool_decide (get_str "type" delta = Some (lit delta_kind))
  then get_str member delta else None.
Definition piece_text (p : SseEvent * json) : str := default [] (piece p "text_delta" "text").
Definition piece_thinking (p : SseEvent * json) : str := default [] (piece p "thinking_delta" "thinking").
Definition piece_arguments (i : Z) (p : SseEvent * json) : str :=
  if decide (required_u64 p.2 "index" = Ok i) then default [] (piece p "input_json_delta" "partial_json") else [].
(** The call a block starts. *)
Definition piece_call (p : SseEvent * json) : option Z :=
  if named (anthropic_kind p.1 p.2) "content_block_start"
     && bool_decide (get_str "type" (default JNull (get_member "content_block" p.2)) = Some (lit "tool_use")) then
    match required_u64 p.2 "index" with Ok i => Some i | Err _ => None end
  else None.
End Grammar.

(** ** The stream conforms *)

Section Conforms.
Context {SJ : SerdeJson} {SN : SerdeNumber}.
Implicit Types vs : list (SseEvent * json).

Definition calls vs : list Z := omap piece_call vs.
Definition args vs (i : Z) : str := concat (piece_arguments i <$> vs).

(** A tool of the cycle, of the block [open]. *)
Definition block_state m vs (open : option (Z * str)) (i : Z) (o : option OpenTool) : Prop :=
  if decide (i ∈ calls vs) then
    if decide (open = Some (i, lit "tool_use")) then open_call m i (args vs i) o else ended_call m i (args vs i) o
  else o = None.
Definition open_is (open : option (Z * str)) (kind : string) : bool :=
  match open with Some (_, k) => named k kind | None => false end.

Record an_core (m : str) vs (open : option (Z * str)) (used : gset Z) (c : Cycle) : Prop := {
  k_id : c_model_call_id c = Some m;
  k_finish : c_finish c = None;
  k_usage : c_usage c = None;
  k_replay : c_replay c = None;
  k_text_open : c_text_open c = open_is open "text";
  k_thinking : bool_decide (c_thinking c ≠ None) = open_is open "thinking";
  k_text : c_text c = concat (piece_text <$> vs);
  k_reasoning : c_reasoning c = concat (piece_thinking <$> vs);
  k_tools i : block_state m vs open i (c_tools c !! i);
  k_fresh i : i ∉ used → i ∉ calls vs ∧ args vs i = [];
  k_call i : open = Some (i, lit "tool_use") → i ∈ calls vs
}.

Lemma calls_snoc vs p : calls (vs ++ [p]) = calls vs ++ match piece_call p with Some i => [i] | None => [] end.
Proof. unfold calls. rewrite omap_app. cbn. by destruct (piece_call p). Qed.
Lemma args_snoc vs p i : args (vs ++ [p]) i = args vs i ++ piece_arguments i p.
Proof. unfold args. rewrite fmap_app, concat_app. cbn. by rewrite app_nil_r. Qed.
Lemma concat_snoc (f : SseEvent * json → str) vs p : concat (f <$> vs ++ [p]) = concat (f <$> vs) ++ f p.
Proof. rewrite fmap_app, concat_app. cbn. by rewrite app_nil_r. Qed.
Lemma not_delta p : named (anthropic_kind p.1 p.2) "content_block_delta" = false →
  piece_text p = [] ∧ piece_thinking p = [] ∧ ∀ i, piece_arguments i p = [].
Proof.
  intros H. unfold piece_text, piece_thinking, piece_arguments, piece. rewrite H. split; [done|]. split; [done|].
  intros i. by destruct (decide _).
Qed.
Lemma not_start p : named (anthropic_kind p.1 p.2) "content_block_start" = false → piece_call p = None.
Proof. intros H. unfold piece_call. by rewrite H. Qed.

(** A value that holds nothing of the message. *)
Lemma core_quiet m vs p open used c : named (anthropic_kind p.1 p.2) "content_block_delta" = false → piece_call p = None →
  an_core m vs open used c → an_core m (vs ++ [p]) open used c.
Proof.
  intros Hd Hc [H1 H2 H3 H4 H5 H6 H7 H8 H9 H10 H11]. destruct (not_delta p Hd) as (Ht & Hr & Ha).
  assert (calls (vs ++ [p]) = calls vs) as Ec by (by rewrite calls_snoc, Hc, app_nil_r).
  assert (∀ i, args (vs ++ [p]) i = args vs i) as Ea by (intros i; by rewrite args_snoc, Ha, app_nil_r).
  split; try done.
  - by rewrite concat_snoc, Ht, app_nil_r.
  - by rewrite concat_snoc, Hr, app_nil_r.
  - intros i. unfold block_state. rewrite Ec, Ea. apply H9.
  - intros i. rewrite Ec, Ea. apply H10.
  - intros i. rewrite Ec. apply H11.
Qed.

Lemma block_state_other m vs i k j o : k ≠ lit "tool_use" → block_state m vs (Some (i, k)) j o ↔ block_state m vs None j o.
Proof.
  intros Hk. unfold block_state. destruct (decide (j ∈ calls vs)); [|done].
  rewrite !decide_False; [done|done|]. by intros [= -> ->].
Qed.
Lemma close_sound m vs i k used s c : an_core m vs (Some (i, k)) used c →
  sound c (yield_all (close_anthropic_block i k s).1) (λ _ c', an_core m vs None used c').
Proof.
  intros [H1 H2 H3 H4 H5 H6 H7 H8 H9 H10 H11]. cbn [open_is] in H5, H6. apply sound_all. unfold close_anthropic_block.
  destruct (named k "text") eqn:Et; [|destruct (named k "thinking") eqn:Eh].
  - apply runs_text_end; [done..|]. rewrite (named_false _ _ "thinking" Et) in H6 by done. intros ch. split; try done.
    intros j. apply (block_state_other m vs i k); [|apply H9]. by eapply named_ne.
  - apply bool_decide_eq_true in H6.
    assert (runs c [MThinkingEnd] (λ c', an_core m vs None used c')) as He.
    { apply runs_thinking_end; [done..|]. intros ch. split; try done.
      intros j. apply (block_state_other m vs i k); [|apply H9]. by eapply named_ne. }
    destruct (default [] (an_signatures s !! i)); cbn [fst app]; [done|].
    apply (runs_app _ [MThinkingSignature _] [MThinkingEnd]). apply runs_ignored; [eexists; by left|done|done].
  - destruct (named k "tool_use") eqn:Eu.
    + apply named_true in Eu as ->. pose proof (H9 i) as Hi. unfold block_state in Hi.
      rewrite decide_True in Hi by (by apply H11). rewrite decide_True in Hi by done.
      eapply runs_weaken; [eapply runs_close; [done|exact Hi]|]. intros c' [[O1 O2 O3 O4 O5 O6 O7 O8 O9] He].
      split; try congruence; try done; [by rewrite O3, H5|by rewrite O4, H6|].

      intros j. specialize (H9 j). unfold block_state in *. destruct (decide (j ∈ calls vs)) as [Hj|Hj].
      * destruct (decide (j = i)) as [->|Hji]; [done|]. rewrite O9 by set_solver.
        rewrite decide_False by (by intros [=]). by rewrite decide_False in H9 by (by intros [=]).
      * rewrite O9; [done|]. intros ->%list_elem_of_singleton. apply Hj. by apply H11.
    + apply runs_nil. split; try done. intros j. apply (block_state_other m vs i k); [|apply H9].
      intros ->. by rewrite named_lit in Eu.
Qed.

Definition open_blocks (open : option (Z * str)) : gmap Z str :=
  match open with Some (i, k) => {[i := k]} | None => ∅ end.
Record an_open m vs (g : Gram) (s : AnthropicStream) (c : Cycle) : Prop := {
  o_stopped : g_stopped g = false;
  o_core : an_core m vs (g_open g) (g_used g) c;
  o_blocks : an_blocks s = open_blocks (g_open g);
  o_used i k : g_open g = Some (i, k) → i ∈ g_used g;
  o_terminal : an_terminal s = false
}.

(** *** A block starts *)

(** Besides its text and thinking, the cycle did not change. *)
Definition same_calls (c c' : Cycle) : Prop :=
  c_model_call_id c' = c_model_call_id c ∧ c_finish c' = c_finish c ∧ c_usage c' = c_usage c ∧ c_replay c' = c_replay c ∧
  c_text c' = c_text c ∧ c_reasoning c' = c_reasoning c ∧ c_tools c' = c_tools c.
Lemma core_open m vs i k used c c' : an_core m vs None used c → k ≠ lit "tool_use" → same_calls c c' →
  c_text_open c' = named k "text" → bool_decide (c_thinking c' ≠ None) = named k "thinking" →
  an_core m vs (Some (i, k)) ({[i]} ∪ used) c'.
Proof.
  intros [H1 H2 H3 H4 H5 H6 H7 H8 H9 H10 H11] Hk (E1 & E2 & E3 & E4 & E5 & E6 & E7) Et Eh. split; try congruence; try done.
  - intros j. rewrite E7. by apply block_state_other.
  - intros j Hj. apply H10. set_solver.
Qed.

Lemma open_text m vs i used c : an_core m vs None used c →
  sound c (yield MTextStart) (λ _ c', an_core m vs (Some (i, lit "text")) ({[i]} ∪ used) c').
Proof.
  intros K. apply sound_yield. eapply runs_text_start; [by eapply k_finish|by eapply k_id|by rewrite (k_text_open _ _ _ _ _ K)|].
  intros ch. eapply core_open; [exact K|by eapply (named_ne _ "text"); [by apply named_true|]|done|by rewrite named_lit|].
  rewrite named_lit. cbn. apply (k_thinking _ _ _ _ _ K).
Qed.
Lemma open_thinking m vs i used c : an_core m vs None used c →
  sound c (yield MThinkingStart) (λ _ c', an_core m vs (Some (i, lit "thinking")) ({[i]} ∪ used) c').
Proof.
  intros K. pose proof (k_thinking _ _ _ _ _ K) as Hk. cbn in Hk. apply bool_decide_eq_false, dec_stable in Hk.
  apply sound_yield. eapply runs_thinking_start; [by eapply k_finish|by eapply k_id|done|].
  intros now ch. eapply core_open; [exact K|by eapply (named_ne _ "thinking"); [by apply named_true|]|done| |by rewrite named_lit].
  rewrite named_lit. cbn. apply (k_text_open _ _ _ _ _ K).
Qed.
Lemma open_tool m vs p i id nm used c : an_core m vs None used c → i ∉ used →
  named (anthropic_kind p.1 p.2) "content_block_delta" = false → piece_call p = Some i →
  sound c (yield (MToolCallStart i id nm)) (λ _ c', an_core m (vs ++ [p]) (Some (i, lit "tool_use")) ({[i]} ∪ used) c').
Proof.
  intros [H1 H2 H3 H4 H5 H6 H7 H8 H9 H10 H11] Hi Hd Hp. destruct (not_delta p Hd) as (Ht & Hr & Ha).
  destruct (H10 i Hi) as [Hic Hia].
  apply sound_yield. eapply runs_weaken; [apply (runs_open m); [done..|]|].
  { specialize (H9 i). unfold block_state in H9. by rewrite decide_False in H9. }
  intros c' [[O1 O2 O3 O4 O5 O6 O7 O8 O9] Ho]. split; try congruence.
  - by rewrite O3, H5.
  - by rewrite O4, H6.
  - by rewrite concat_snoc, Ht, app_nil_r, O8.
  - by rewrite concat_snoc, Hr, app_nil_r, O5.
  - intros j. unfold block_state. rewrite calls_snoc, Hp, args_snoc, Ha, app_nil_r.
    destruct (decide (j = i)) as [->|Hj].
    + rewrite decide_True by set_solver. rewrite decide_True by done. by rewrite Hia.
    + specialize (H9 j). unfold block_state in H9. rewrite O9 by set_solver. destruct (decide (j ∈ calls vs)).
      * rewrite decide_True by set_solver. rewrite decide_False by (by intros [=]). exact H9.
      * rewrite decide_False by set_solver. exact H9.
  - intros j Hj. rewrite calls_snoc, Hp, args_snoc, Ha, app_nil_r. destruct (H10 j); set_solver.
  - intros j [= <-]. rewrite calls_snoc, Hp. set_solver.
Qed.

Lemma required_string_ok v name x : required_string v name = Ok x ↔ get_str name v = Some x.
Proof. unfold required_string, ok_or. destruct (get_str name v); split; by intros [= ->]. Qed.

Lemma start_sound m vs g s c ev v g' : named (anthropic_kind ev v) "content_block_start" = true → an_open m vs g s c →
  grammar g ev v = Some g' → sound c (block_start s v) (an_open m (vs ++ [(ev, v)]) g').
Proof.
  intros Hk [Hs K Hb Hused Ht] Hg. unfold grammar in Hg. rewrite Hk, Hs in Hg. unfold block_start.
  pose proof (named_false _ _ "content_block_delta" Hk ltac:(done)) as Hd.
  destruct (required_u64 v "index") as [i|] eqn:Ei; [|done].
  destruct (required_string _ "type") as [k|] eqn:Ek; [|done]. unfold gram_start in Hg.
  destruct (bool_decide (g_open g = None) && _) eqn:Eo; [|done]. injection Hg as <-.
  apply andb_prop in Eo as [Eo Ei']. apply bool_decide_eq_true in Eo, Ei'. rewrite Eo in K, Hb.
  eapply sound_bind; [apply (sound_attempt _ _ (λ j c', j = i ∧ c' = c)); by intros j [= ->]|]. intros j c1 [-> ->].
  eapply sound_bind; [apply (sound_attempt _ _ (λ j c', j = k ∧ c' = c)); by intros j [= ->]|]. intros j c1 [-> ->].
  apply required_string_ok in Ek.
  assert (piece_call (ev, v) = if named k "tool_use" then Some i else None) as Hp.
  { unfold piece_call. cbn [fst snd]. rewrite Hk, Ek, Ei. unfold named. cbn [andb].
    destruct (bool_decide_reflect (k = lit "tool_use")) as [->|Hne]; [by rewrite bool_decide_eq_true_2|].
    rewrite bool_decide_eq_false_2; [done|]. by intros [= ->]. }
  set (s1 := set_blocks s _).
  assert (an_blocks s1 = open_blocks (Some (i, k)) ∧ an_terminal s1 = false) as [Hb1 Ht1].
  { split; [|done]. cbn. by rewrite Hb. }
  clearbody s1. destruct (named k "text") eqn:Et; [|destruct (named k "thinking") eqn:Eh; [|destruct (named k "redacted_thinking") eqn:Er;
    [|destruct (named k "tool_use") eqn:Eu]]].
  - rewrite (named_false _ _ "tool_use" Et) in Hp by done. apply named_true in Et as ->.
    eapply sound_bind; [apply open_text, (core_quiet m vs (ev, v)); done|]. intros u c1 K1. apply sound_ret. split; [done|exact K1|exact Hb1|intros j kj [= <- _]; set_solver|exact Ht1].
  - rewrite (named_false _ _ "tool_use" Eh) in Hp by done. apply named_true in Eh as ->.
    eapply sound_bind; [apply open_thinking, (core_quiet m vs (ev, v)); done|]. intros u c1 K1. apply sound_ret. split; [done|exact K1|exact Hb1|intros j kj [= <- _]; set_solver|exact Ht1].
  - rewrite (named_false _ _ "tool_use" Er) in Hp by done. apply sound_ret. split; [done| |done|intros j kj [= <- _]; set_solver|done].
    apply (core_quiet m vs (ev, v)) in K; [|done|done]. pose proof K as [_ _ _ _ K5 K6 _ _ _ _ _].
    eapply core_open; [exact K|by eapply named_ne|done|by rewrite Et|by rewrite Eh].
  - apply named_true in Eu as ->.
    eapply sound_bind; [apply (sound_attempt _ _ (λ _ c', c' = c)); done|]. intros id c1 ->.
    eapply sound_bind; [apply (sound_attempt _ _ (λ _ c', c' = c)); done|]. intros nm c1 ->.
    eapply sound_bind; [by apply (open_tool m vs (ev, v))|]. intros u c1 K1. apply sound_ret. split; [done|exact K1|exact Hb1|intros j kj [= <- _]; set_solver|exact Ht1].
  - apply sound_ret. split; [done| |done|intros j kj [= <- _]; set_solver|done].
    apply (core_quiet m vs (ev, v)) in K; [|done|done]. pose proof K as [_ _ _ _ K5 K6 _ _ _ _ _].
    eapply core_open; [exact K| |done|by rewrite Et|by rewrite Eh]. intros ->. by rewrite named_lit in Eu.
Qed.

(** *** A piece of a block *)

Lemma pieces_of ev v i dk : named (anthropic_kind ev v) "content_block_delta" = true → required_u64 v "index" = Ok i →
  get_str "type" (default JNull (get_member "delta" v)) = Some dk →
  let delta := default JNull (get_member "delta" v) in
  let held (kind member : string) : str := if named dk kind then default [] (get_str member delta) else [] in
  piece_call (ev, v) = None ∧ piece_text (ev, v) = held "text_delta"%string "text"%string ∧
  piece_thinking (ev, v) = held "thinking_delta"%string "thinking"%string ∧
  ∀ j, piece_arguments j (ev, v) = if decide (i = j) then held "input_json_delta"%string "partial_json"%string else [].
Proof.
  intros Hk Hi Hd delta held. split; [apply not_start; by apply (named_false _ "content_block_delta")|].
  assert (∀ kind member, default [] (piece (ev, v) kind member) = held kind member) as Hp.
  { intros kind member. unfold piece, held, named in *. cbn [fst snd]. rewrite Hk. fold delta. fold delta in Hd. rewrite Hd. cbn [andb].
    destruct (bool_decide_reflect (dk = lit kind)) as [->|Hne]; [by rewrite bool_decide_eq_true_2|].
    rewrite bool_decide_eq_false_2; [done|]. by intros [= ->]. }
  unfold piece_text, piece_thinking, piece_arguments. rewrite !Hp. split; [done|]. split; [done|].
  intros j. cbn [fst snd]. rewrite Hi. destruct (decide (i = j)) as [->|Hne]; [by rewrite decide_True|].
  rewrite decide_False; [done|]. by intros [= ->].
Qed.

Lemma core_words m vs p open used c c' : an_core m vs open used c → piece_call p = None → (∀ j, piece_arguments j p = []) →
  c_model_call_id c' = c_model_call_id c → c_finish c' = c_finish c → c_usage c' = c_usage c → c_replay c' = c_replay c →
  c_text_open c' = c_text_open c → c_thinking c' = c_thinking c → c_tools c' = c_tools c →
  c_text c' = c_text c ++ piece_text p → c_reasoning c' = c_reasoning c ++ piece_thinking p →
  an_core m (vs ++ [p]) open used c'.
Proof.
  intros [H1 H2 H3 H4 H5 H6 H7 H8 H9 H10 H11] Hp Ha E1 E2 E3 E4 E5 E6 E7 E8 E9.
  assert (calls (vs ++ [p]) = calls vs) as Ec by (by rewrite calls_snoc, Hp, app_nil_r).
  assert (∀ j, args (vs ++ [p]) j = args vs j) as Ea by (intros j; by rewrite args_snoc, Ha, app_nil_r).
  split; try congruence.
  - by rewrite E6, H6.
  - by rewrite concat_snoc, E8, H7.
  - by rewrite concat_snoc, E9, H8.
  - intros j. unfold block_state. rewrite Ec, Ea, E7. apply H9.
  - intros j. rewrite Ec, Ea. apply H10.
  - intros j. rewrite Ec. apply H11.
Qed.
Lemma core_arguments m vs p i used c c' : an_core m vs (Some (i, lit "tool_use")) used c → i ∈ used → piece_call p = None →
  piece_text p = [] → piece_thinking p = [] → (∀ j, j ≠ i → piece_arguments j p = []) →
  only_tools [i] c c' → open_call m i (args vs i ++ piece_arguments i p) (c_tools c' !! i) →
  an_core m (vs ++ [p]) (Some (i, lit "tool_use")) used c'.
Proof.
  intros [H1 H2 H3 H4 H5 H6 H7 H8 H9 H10 H11] Hu Hp Ht Hr Ha [O1 O2 O3 O4 O5 O6 O7 O8 O9] Ho.
  assert (calls (vs ++ [p]) = calls vs) as Ec by (by rewrite calls_snoc, Hp, app_nil_r).
  split; try congruence.
  - by rewrite O4, H6.
  - by rewrite concat_snoc, Ht, app_nil_r, O8.
  - by rewrite concat_snoc, Hr, app_nil_r, O5.
  - intros j. specialize (H9 j). unfold block_state in *. rewrite Ec, args_snoc. destruct (decide (j = i)) as [->|Hne].
    + by rewrite !decide_True by (done || by apply H11).
    + by rewrite Ha, app_nil_r, O9 by set_solver.
  - intros j Hj. rewrite Ec, args_snoc, Ha by (by intros ->). rewrite app_nil_r. by apply H10.
  - intros j. rewrite Ec. apply H11.
Qed.

(** The piece of an open block of its kind. *)
Lemma piece_sound m vs ev v i k dk used s c :
  named (anthropic_kind ev v) "content_block_delta" = true → required_u64 v "index" = Ok i →
  get_str "type" (default JNull (get_member "delta" v)) = Some dk → piece_fits k dk = true →
  an_core m vs (Some (i, k)) used c → i ∈ used →
  sound c (let delta := default JNull (get_member "delta" v) in
    if named dk "text_delta" then
      _ ← yield_all (match get_str "text" delta with Some t => [MTextDelta t] | None => [] end);
      mret s
    else if named dk "thinking_delta" then
      match get_str "thinking" delta with
      | Some t =>
          _ ← yield (MThinkingDelta t);
          mret (set_signed s (push_at i t (an_text s)) (an_signatures s) (an_thinking_blocks s))
      | None => mret s
      end
    else if named dk "signature_delta" then
      mret (match get_str "signature" delta with
            | Some sig => set_signed s (an_text s) (push_at i sig (an_signatures s)) (an_thinking_blocks s)
            | None => s
            end)
    else if named dk "input_json_delta" then
      _ ← yield_all (match get_str "partial_json" delta with Some t => [MToolCallArgumentsDelta i t] | None => [] end);
      mret s
    else mret s)
    (λ s' c', an_core m (vs ++ [(ev, v)]) (Some (i, k)) used c' ∧ an_blocks s' = an_blocks s ∧ an_terminal s' = an_terminal s).
Proof.
  intros Hk Hi Hd Hfit K Hu. destruct (pieces_of ev v i dk Hk Hi Hd) as (Pc & Pt & Ph & Pa). cbn zeta in *.
  set (delta := default JNull _) in *. pose proof K as [H1 H2 H3 H4 H5 H6 H7 H8 H9 H10 H11].
  unfold piece_fits in Hfit. cbn [open_is] in H5, H6.
  assert (k = lit "tool_use" → open_call m i (args vs i) (c_tools c !! i)) as Hopen.
  { intros ->. specialize (H9 i). unfold block_state in H9. rewrite !decide_True in H9 by (done || by apply H11). exact H9. }
  destruct (named dk "text_delta") eqn:Et; [|destruct (named dk "thinking_delta") eqn:Eh; [|destruct (named dk "signature_delta") eqn:Es;
    [|destruct (named dk "input_json_delta") eqn:Eu]]].
  - rewrite (named_false _ _ "thinking_delta" Et) in Ph by done. rewrite (named_false _ _ "input_json_delta" Et) in Pa by done.
    rewrite Hfit in H5.
    eapply (sound_bind _ _ _ (λ _ c', an_core m (vs ++ [(ev, v)]) (Some (i, k)) used c')); [|intros u c1 K1; apply sound_ret; by split_and!].
    apply sound_all. destruct (get_str "text" delta) as [t|].
    + apply runs_text_delta; [done..|]. intros ch. eapply core_words; [exact K|done|intros j; rewrite Pa; by destruct (decide _)|done..| |]; cbn.
      * by rewrite Pt.
      * by rewrite Ph, app_nil_r.
    + apply runs_nil. eapply core_words; [exact K|done|intros j; rewrite Pa; by destruct (decide _)|done..| |].
      * by rewrite Pt, app_nil_r.
      * by rewrite Ph, app_nil_r.
  - rewrite (named_false _ _ "input_json_delta" Eh) in Pa by done. rewrite Hfit in H6. apply bool_decide_eq_true in H6.
    destruct (get_str "thinking" delta) as [t|].
    + eapply (sound_bind _ _ _ (λ _ c', an_core m (vs ++ [(ev, v)]) (Some (i, k)) used c')); [|intros u c1 K1; apply sound_ret; by split_and!].
      apply sound_yield, runs_thinking_delta; [done..|]. intros ch.
      eapply core_words; [exact K|done|intros j; rewrite Pa; by destruct (decide _)|done..| |]; cbn.
      * by rewrite Pt, app_nil_r.
      * by rewrite Ph.
    + apply sound_ret. split_and!; [|done|done]. eapply core_words; [exact K|done|intros j; rewrite Pa; by destruct (decide _)|done..| |].
      * by rewrite Pt, app_nil_r.
      * by rewrite Ph, app_nil_r.
  - rewrite (named_false _ _ "input_json_delta" Es) in Pa by done.
    apply sound_ret. split_and!; [|by destruct (get_str "signature" delta)|by destruct (get_str "signature" delta)].
    eapply core_words; [exact K|done|intros j; rewrite Pa; by destruct (decide _)|done..| |].
    * by rewrite Pt, app_nil_r.
    * by rewrite Ph, app_nil_r.
  - apply named_true in Hfit as ->. specialize (Hopen eq_refl).
    eapply (sound_bind _ _ _ (λ _ c', an_core m (vs ++ [(ev, v)]) (Some (i, lit "tool_use")) used c'));
      [|intros u c1 K1; apply sound_ret; by split_and!].
    assert (∀ j, j ≠ i → piece_arguments j (ev, v) = []) as Pj by (intros j Hj; rewrite Pa, decide_False by congruence; done).
    specialize (Pa i). rewrite decide_True in Pa by done.
    apply sound_all. destruct (get_str "partial_json" delta) as [t|]; cbn [default from_option] in Pa; unfold Datatypes.id in Pa.
    + eapply runs_weaken; [eapply runs_more; [done|exact Hopen]|]. intros c' [O Ho].
      eapply core_arguments; [exact K|done|done|done|done|done|exact O|]. by rewrite Pa.
    + apply runs_nil. eapply core_arguments; [exact K|done|done|done|done|done|reflexivity|]. by rewrite Pa, app_nil_r.
  - apply sound_ret. split_and!; [|done|done]. eapply core_words; [exact K|done|intros j; rewrite Pa; by destruct (decide _)|done..| |].
    + by rewrite Pt, app_nil_r.
    + by rewrite Ph, app_nil_r.
Qed.


Lemma open_lookup i k : open_blocks (Some (i, k)) !! i = Some k.
Proof. apply lookup_singleton_eq. Qed.
Lemma delta_sound m vs g s c ev v g' : named (anthropic_kind ev v) "content_block_delta" = true → an_open m vs g s c →
  grammar g ev v = Some g' → sound c (block_delta s v) (an_open m (vs ++ [(ev, v)]) g').
Proof.
  intros Hk [Hs K Hb Hused Ht] Hg. unfold grammar in Hg.
  rewrite (named_false _ _ "content_block_start" Hk), Hk, Hs in Hg by done. unfold block_delta.
  destruct (required_u64 v "index") as [i|] eqn:Ei; [|done].
  destruct (required_string _ "type") as [dk|] eqn:Ek; [|done].
  eapply sound_bind; [apply (sound_attempt _ _ (λ j c', j = i ∧ c' = c)); by intros j [= ->]|]. intros j c1 [-> ->].
  eapply sound_bind; [apply (sound_attempt _ _ (λ j c', j = dk ∧ c' = c)); by intros j [= ->]|]. intros j c1 [-> ->].
  apply required_string_ok in Ek.
  assert (∃ k, g_open g' = Some (i, k) ∧ g_stopped g' = false ∧ piece_fits k dk = true ∧ i ∈ g_used g' ∧
    sound c (open_implied i dk s) (λ s' c', an_core m vs (Some (i, k)) (g_used g') c' ∧
      an_blocks s' = open_blocks (Some (i, k)) ∧ an_terminal s' = false)) as (k & Eo & Es & Hfit & Hu & Hopen).
  { unfold open_implied. destruct (g_open g) as [[j k]|] eqn:Eg.
    - destruct (bool_decide (i = j) && _) eqn:E; [|done]. injection Hg as <-. apply andb_prop in E as [E Hfit].
      apply bool_decide_eq_true in E as <-. exists k. rewrite Eg. split_and!; [done..|by eapply Hused|].
      rewrite Hb, open_lookup. by apply sound_ret.
    - destruct (implied_kind dk) as [kind|] eqn:Em; [|done]. cbn [mbind option_bind] in Hg. unfold gram_start in Hg.
      destruct (bool_decide (g_open g = None) && _) eqn:Eo; [|done]. injection Hg as <-.
      exists (lit kind). cbn [g_open g_stopped g_used]. rewrite Hb. cbn [open_blocks]. rewrite lookup_empty. unfold implied_kind in Em.
      assert (an_blocks (set_blocks s (<[i := lit kind]> ∅)) = open_blocks (Some (i, lit kind))) as Hs1 by done.
      destruct (named dk "text_delta") eqn:Et; [|destruct (_ || _) eqn:Eh; [|done]]; injection Em as <-.
      + split_and!; [done|done|unfold piece_fits; rewrite Et; by rewrite named_lit|set_solver|]. cbn [String.eqb Ascii.eqb Bool.eqb].
        eapply sound_bind; [by apply (open_text m vs i)|]. intros u c1 K1. apply sound_ret. by split_and!.
      + split_and!; [done|done| |set_solver|].
        { unfold piece_fits. rewrite Et, named_lit. cbn. destruct (named dk "thinking_delta") eqn:E1; [done|].
          destruct (named dk "input_json_delta") eqn:E2; [|done]. apply named_true in E2 as ->. by rewrite named_lit in Eh. }
        cbn [String.eqb Ascii.eqb Bool.eqb].
        eapply sound_bind; [by apply (open_thinking m vs i)|]. intros u c1 K1. apply sound_ret. by split_and!. }
  eapply sound_bind; [exact Hopen|]. intros s1 c1 (K1 & Hb1 & Ht1).
  eapply sound_weaken; [by eapply piece_sound|]. intros s2 c2 (K2 & Hb2 & Ht2).
  split; [done|by rewrite Eo|by rewrite Hb2, Eo|intros j kj; rewrite Eo; by intros [= <- _]|by rewrite Ht2].
Qed.

(** *** A block ends, and the message *)

Lemma close_keeps i k s : an_blocks (close_anthropic_block i k s).2 = an_blocks s ∧
  an_terminal (close_anthropic_block i k s).2 = an_terminal s.
Proof.
  unfold close_anthropic_block. destruct (named k "text"); [done|]. destruct (named k "thinking"); [|by destruct (named k "tool_use")].
  by destruct (default [] (an_signatures s !! i)).
Qed.
Lemma stop_sound m vs g s c ev v g' : named (anthropic_kind ev v) "content_block_stop" = true → an_open m vs g s c →
  grammar g ev v = Some g' → sound c (block_stop s v) (an_open m (vs ++ [(ev, v)]) g').
Proof.
  intros Hk [Hs K Hb Hused Ht] Hg. unfold grammar in Hg.
  rewrite (named_false _ _ "content_block_start" Hk), (named_false _ _ "content_block_delta" Hk), Hk, Hs in Hg by done. unfold block_stop.
  destruct (required_u64 v "index") as [i|] eqn:Ei; [|done]. destruct (g_open g) as [[j k]|] eqn:Eg; [|done].
  case_bool_decide as E; [|done]. injection Hg as <-. subst j.
  eapply sound_bind; [apply (sound_attempt _ _ (λ j c', j = i ∧ c' = c)); by intros j [= ->]|]. intros j c1 [-> ->].
  rewrite Hb, open_lookup. cbn [open_blocks]. rewrite delete_singleton_eq.
  pose proof (close_sound m vs i k _ (set_blocks s ∅) c K) as Hc. pose proof (close_keeps i k (set_blocks s ∅)) as [Kb Kt].
  destruct (close_anthropic_block i k (set_blocks s ∅)) as [events s1]. cbn [fst snd] in *.
  eapply sound_bind; [exact Hc|]. intros u c1 K1. apply sound_ret. split; [done| |done|done|by rewrite Kt].
  apply (core_quiet m vs (ev, v)); [by apply (named_false _ "content_block_stop")| |done].
  apply not_start. by apply (named_false _ "content_block_stop").
Qed.

(** The message is done. *)
Record an_final (m : str) vs (c : Cycle) : Prop := {
  n_id : c_model_call_id c = Some m;
  n_finish : is_Some (c_finish c);
  n_text : c_text c = concat (piece_text <$> vs);
  n_reasoning : c_reasoning c = concat (piece_thinking <$> vs);
  n_tools i : block_state m vs None i (c_tools c !! i)
}.
Lemma btree_empty : btree (∅ : gmap Z str) = [].
Proof. done. Qed.
Lemma btree_singleton i (k : str) : btree {[i := k]} = [(i, k)].
Proof. unfold btree. by rewrite map_to_list_singleton. Qed.
Lemma closes_sound m vs open used s c : an_core m vs open used c →
  sound c (yield_all (close_blocks (btree (open_blocks open)) s).1) (λ _ c', an_core m vs None used c') ∧
  an_terminal (close_blocks (btree (open_blocks open)) s).2 = an_terminal s.
Proof.
  intros K. destruct open as [[i k]|]; cbn [open_blocks]; [|by split]. rewrite btree_singleton. cbn [close_blocks].
  pose proof (close_sound m vs i k used s c K) as Hc. pose proof (close_keeps i k s) as [_ Kt].
  destruct (close_anthropic_block i k s) as [events s1]. cbn [fst snd] in *. by rewrite app_nil_r.
Qed.

Lemma done_sound m vs open used s c : an_core m vs open used c → an_blocks s = open_blocks open →
  sound c (anthropic_done s) (λ s' c', an_final m vs c' ∧ an_terminal s' = true).
Proof.
  intros K Hb. unfold anthropic_done. rewrite Hb.
  destruct (closes_sound m vs open used (set_blocks s ∅) c K) as [Hc _].
  destruct (close_blocks _ _) as [events s1]. cbn [fst] in Hc.
  eapply sound_bind; [exact Hc|]. intros u c1 K1. cbn beta in K1. destruct K1 as [H1 H2 H3 H4 H5 H6 H7 H8 H9 H10 H11].
  cbn [open_is] in H5, H6. apply bool_decide_eq_false, dec_stable in H6. clear K Hb Hc u.
  eapply (sound_bind _ _ _ (λ _ c', ∃ ch r, c' = set_client (match r with Some r => set_replay c1 r | None => c1 end) ch)).
  { apply sound_all. destruct (an_thinking_blocks (set_terminal s1)); [exists (c_client c1), None; by destruct c1|].
    apply runs_replay; [done..|]. eexists (c_client c1), (Some _). by destruct c1. }
  intros _ c2 (ch2 & r & ->).
  eapply (sound_bind _ _ _ (λ _ c', c_model_call_id c' = Some m ∧ c_finish c' = None ∧ c_text_open c' = false ∧
    c_thinking c' = None ∧ c_text c' = c_text c1 ∧ c_reasoning c' = c_reasoning c1 ∧ c_tools c' = c_tools c1)).
  { apply sound_all. destruct (an_usage _) as [u|]; [apply runs_usage|apply runs_nil]; destruct r; cbn; intros; (try split_and!); congruence. }
  intros _ c3 (L1 & L2 & L3 & L4 & L5 & L6 & L7).
  set (reason := match an_finish _ with Some _ => _ | None => _ end).
  eapply (sound_bind _ _ _ (λ _ c', an_final m vs c')); [|intros u c4 K4; by apply sound_ret].
  apply sound_yield. eapply runs_done; [done..| |].
  - apply blocks_closed; [done..|]. intros i t Hi. rewrite L7 in Hi. specialize (H9 i). unfold block_state in H9. rewrite Hi in H9.
    destruct (decide (i ∈ calls vs)); [|done]. destruct H9 as (id & nm & Hx). by injection Hx as ->.
  - split; cbn; [done|done|congruence..|]. intros i. rewrite L7. apply H9.
Qed.

Lemma final_quiet m vs p c : named (anthropic_kind p.1 p.2) "content_block_delta" = false → piece_call p = None →
  an_final m vs c → an_final m (vs ++ [p]) c.
Proof.
  intros Hd Hp [H1 H2 H3 H4 H5]. destruct (not_delta p Hd) as (Ht & Hr & Ha). split; [done|done|..].
  - by rewrite concat_snoc, Ht, app_nil_r.
  - by rewrite concat_snoc, Hr, app_nil_r.
  - intros i. unfold block_state. rewrite calls_snoc, Hp, app_nil_r, args_snoc, Ha, app_nil_r. apply H5.
Qed.

(** The state of the adapter and of the cycle after the values [vs]. *)
Definition an_inv m vs (s : AnthropicStream) (c : Cycle) : Prop :=
  ∃ g, gram_run new_gram vs = Some g ∧
    if g_stopped g then an_final m vs c ∧ an_terminal s = true else an_open m vs g s c.

Lemma usage_keeps s v : an_blocks (count_usage s v) = an_blocks s ∧ an_terminal (count_usage s v) = an_terminal s.
Proof. by destruct v. Qed.

Lemma quiet_inv m vs g s s' c p : gram_run new_gram vs = Some g → grammar g p.1 p.2 = Some g →
  named (anthropic_kind p.1 p.2) "content_block_delta" = false → named (anthropic_kind p.1 p.2) "content_block_start" = false →
  an_blocks s' = an_blocks s → an_terminal s' = an_terminal s →
  (if g_stopped g then an_final m vs c ∧ an_terminal s = true else an_open m vs g s c) → an_inv m (vs ++ [p]) s' c.
Proof.
  intros Hr Hg Hd Hs Eb Et H. exists g. rewrite gram_run_snoc, Hr. split; [exact Hg|].
  destruct (g_stopped g).
  - destruct H as [Hf Ht]. split; [|congruence]. by apply final_quiet; [|apply not_start|].
  - destruct H as [H1 K H2 H3 H4]. split; [done| |congruence|done|congruence]. by apply core_quiet; [|apply not_start|].
Qed.

Lemma event_sound m vs s c ev v : grammatical (vs ++ [(ev, v)]) → an_inv m vs s c →
  sound c (anthropic_event s ev v) (an_inv m (vs ++ [(ev, v)])).
Proof.
  intros [g' Hg'] (g & Hr & H). pose proof Hg' as Hg. rewrite gram_run_snoc, Hr in Hg. cbn in Hg. unfold anthropic_event.
  assert (∀ s' c', an_open m (vs ++ [(ev, v)]) g' s' c' → an_inv m (vs ++ [(ev, v)]) s' c') as Hopen.
  { intros s' c' Ho. exists g'. split; [done|]. by rewrite (o_stopped _ _ _ _ _ Ho). }
  pose proof Hg as Hgr. unfold grammar in Hgr.
  destruct (named (anthropic_kind ev v) "message_start") eqn:E0.
  { rewrite !(named_false _ _ _ E0) in Hgr by done. injection Hgr as <-. apply sound_ret.
    destruct (usage_keeps s (pointer ["message"; "usage"]%string v)). eapply (quiet_inv m vs g s); eauto; by apply (named_false _ _ _ E0). }
  destruct (named (anthropic_kind ev v) "content_block_start") eqn:E1.
  { destruct (g_stopped g) eqn:Es; [done|]. eapply sound_weaken; [by eapply start_sound|exact Hopen]. }
  destruct (named (anthropic_kind ev v) "content_block_delta") eqn:E2.
  { destruct (g_stopped g) eqn:Es; [done|]. eapply sound_weaken; [by eapply delta_sound|exact Hopen]. }
  destruct (named (anthropic_kind ev v) "content_block_stop") eqn:E3.
  { destruct (g_stopped g) eqn:Es; [done|]. eapply sound_weaken; [by eapply stop_sound|exact Hopen]. }
  destruct (named (anthropic_kind ev v) "message_delta") eqn:E4.
  { destruct (g_stopped g) eqn:Es; [done|]. injection Hgr as <-. unfold message_delta.
    eapply (sound_bind _ _ _ (λ _ c', c' = c)).
    - apply sound_all. destruct (pointer _ v ≫= as_str) as [[|x q]|]; [done| |done].
      apply runs_ignored; [eexists; by right| |done]. destruct H as [_ K _ _ _]. by eapply k_finish.
    - intros u c1 ->. apply sound_ret. destruct (usage_keeps s (get_member "usage" v)).
      eapply (quiet_inv m vs g s); eauto; by rewrite ?Es. }
  destruct (named (anthropic_kind ev v) "message_stop") eqn:E5.
  { destruct (g_stopped g) eqn:Es; [done|]. injection Hgr as <-. destruct H as [_ K Hb _ _].
    eapply sound_weaken; [by eapply done_sound|]. intros s' c' [Hf Ht]. eexists. split; [exact Hg'|]. split; [|done].
    apply final_quiet; [done|by apply not_start|done]. }
  injection Hgr as <-. apply sound_ret. eapply (quiet_inv m vs g s); eauto.
Qed.

(** What the cycle has when the message is done. *)
Lemma final_sent m vs c : an_final m vs c →
  all_sent m (concat (piece_text <$> vs)) (concat (piece_thinking <$> vs)) (λ i, i ∈ calls vs) (args vs) c.
Proof.
  intros [L1 L2 L3 L4 L5]. split; try done; intros i.
  - specialize (L5 i). unfold block_state in L5. destruct (decide (i ∈ calls vs)) as [Hi|Hi].
    + rewrite decide_False in L5 by done. destruct L5 as (? & ? & ->). split; [done|by eexists].
    + rewrite L5. split; [by intros []|done].
  - intros Hi. specialize (L5 i). unfold block_state in L5. rewrite decide_True in L5 by done. by rewrite decide_False in L5.
Qed.

Definition anthropic_values (inputs : list sse_input) : list (SseEvent * json) := (sse_values no_marker inputs).1.
#[global] Instance anthropic_adapter : Adapter anthropic_stream (λ inputs, grammatical (anthropic_values inputs))
  (λ inputs, concat (piece_text <$> anthropic_values inputs)) (λ inputs, concat (piece_thinking <$> anthropic_values inputs))
  (λ inputs i, i ∈ calls (anthropic_values inputs)) (λ inputs, args (anthropic_values inputs)).
Proof.
  intros id client inputs Hg. set (vs := anthropic_values inputs) in *.
  enough (sound (new_cycle client) (anthropic_stream id inputs)
    (λ _ c', an_final id vs c' ∨ (SseCancelled ∈ inputs ∧ c_finish c' = None))) as Hs.
  { eapply sound_weaken; [exact Hs|]. intros _ c' [Hf|Hx]; [left; by apply final_sent|right; by left]. }
  unfold anthropic_stream. eapply (sound_bind _ _ _ (λ _ c', an_inv id [] new_anthropic c')).
  - apply sound_yield, runs_start; [done..|]. exists new_gram. split; [done|]. split; [done| |done|done|done]. split; try done.
    intros i. split; [apply not_elem_of_nil|done].
  - intros u c1 R. eapply sound_bind; [refine (sound_loop_of _ _ _ _ vs (an_inv id) _ inputs [] _ _ _ R); [|reflexivity]|].
    { intros vs1 s1 c2 ev v Hpre. apply event_sound. by eapply grammatical_prefix. }
    intros [s|] c2.
    + intros (s1 & (g & Hr & Hi) & ->). cbn [app] in Hr, Hi. change (sse_values no_marker inputs).1 with vs in Hr, Hi.
      replace (if (sse_values no_marker inputs).2 then s1 else s1) with s1 by (by destruct (sse_values no_marker inputs).2).
      unfold anthropic_end. destruct (g_stopped g).
      * destruct Hi as [Hf ->]. apply sound_ret. by left.
      * destruct Hi as [_ K Hb _ ->]. destruct (an_finish s1); [|apply sound_err].
        eapply sound_bind; [by eapply done_sound|]. intros s2 c3 [Hf _]. apply sound_ret. by left.
    + intros (Hx & s1 & g & Hr & Hi). apply sound_ret. cbn [app] in Hi. change (sse_values no_marker inputs).1 with vs in Hi.
      destruct (g_stopped g); [left; by destruct Hi|right; split; [done|]; destruct Hi as [_ K _ _ _]; by eapply k_finish].
Qed.

(** C2: Of an Anthropic response whose blocks do not overlap and are of distinct indices, however it is cut (a missing
    start of a text or thinking block, a block or a message that does not stop before the stream ends), the cycle
    returns what was sent: the text and the reasoning are the concatenation of the pieces, there is one
    call for each tool_use block, and its arguments are the pieces of its index.  When it fails, it
    is the adapter's own error, a client that is gone, a call id the provider used twice, a truncation, a
    finish reason that contradicts the calls, or the end of a response that was cancelled. *)
Theorem anthropic_conforms id client inputs timed t c r :
  (snd <$> timed) = items (anthropic_stream id inputs) → grammatical (anthropic_values inputs) →
  consume_model_cycle client (((λ p, (p.1, Item p.2)) <$> timed) ++ [(t, StreamEnd false)]) = Some (c, r) →
  let vs := anthropic_values inputs in
  match r with
  | Ok r => returns id (concat (piece_text <$> vs)) (concat (piece_thinking <$> vs)) (λ i, i ∈ calls vs) (args vs) r
  | Err x =>
      excused (f_failure x) ∨ ended_badly (f_failure x) ∨
      (SseCancelled ∈ inputs ∧ f_failure x = FProvider (lit "provider stream reached EOF before Done")) ∨
      ∃ e, (anthropic_stream id inputs).2 = Err e ∧ f_failure x = run_failure_of_error e
  end.
Proof.
  intros Ht Hg H. exact (adapter_conforms (A := anthropic_adapter) id client inputs timed t c r Hg Ht H).
Qed.
End Conforms.

(** ** A response without the start of its text and without its stop *)
Module AnthropicSamples.
Definition event (kind : string) (members : list (string * json)) : json := object (("type"%string, text kind) :: members).
Definition chunks : list (string * json) :=
  [("piece", event "content_block_delta" [("index", number 0); ("delta", object [("type", text "text_delta"); ("text", text "hi")])]);
   ("stop0", event "content_block_stop" [("index", number 0)]);
   ("start1", event "content_block_start" [("index", text "1");
      ("content_block", object [("type", text "tool_use"); ("id", text "c1"); ("name", text "ls")])]);
   ("open", event "content_block_delta" [("index", text "1");
      ("delta", object [("type", text "input_json_delta"); ("partial_json", text "{")])]);
   ("close", event "content_block_delta" [("index", text "1");
      ("delta", object [("type", text "input_json_delta"); ("partial_json", text "}")])]);
   ("delta", event "message_delta" [("delta", object [("stop_reason", text "tool_use")])])]%string.
Definition parser : SerdeJson :=
  {| to_vec _ := []; display_json _ := []; to_string _ := Ok [];
     from_str s := match list_find (λ p, lit p.1 = s) chunks with
                   | Some (_, (_, v)) => Ok v
                   | None => if decide (s = lit "{}") then Ok (JObject []) else Err (ForeignError (lit "expected value") [])
                   end |}.
Definition numbers : SerdeNumber := {| number_as_u64 := parse_u64; number_as_i64 := parse_u64 |}.
Definition inputs : list sse_input :=
  (λ s, SseItem (Ok (MkSse [] (lit s)))) <$> ["piece"; "stop0"; "start1"; "open"; "close"; "delta"]%string.
Definition timed : list (Z * res ModelEvent) := (λ i, (7, i)) <$> items (@anthropic_stream parser numbers (lit "m1") inputs).
End AnthropicSamples.

Lemma anthropic_conforms_witness : ∃ c r,
  @consume_model_cycle AnthropicSamples.parser (Some 50%nat)
    (((λ p, (p.1, Item p.2)) <$> AnthropicSamples.timed) ++ [(8, StreamEnd false)]) = Some (c, Ok r) ∧
  r_text r = lit "hi" ∧ (arguments_text <$> r_calls r) = [lit "{}"].
Proof.
  eexists _, _. split; [vm_compute; reflexivity|].
  pose proof (@anthropic_conforms AnthropicSamples.parser AnthropicSamples.numbers (lit "m1") (Some 50%nat) AnthropicSamples.inputs
    AnthropicSamples.timed 8 _ (Ok _) ltac:(vm_compute; reflexivity) ltac:(vm_compute; eexists; reflexivity)
    ltac:(vm_compute; reflexivity)) as H.
  cbn zeta in H. split; [exact (rt_text _ _ _ _ _ _ H)|]. vm_compute. reflexivity.
Defined.
