(* ===== verification/AnthropicRequest.v ===== *)
(** * AnthropicRequest: what the Messages API is asked

    server/src/provider/anthropic.rs, the request half: the projected history becomes messages whose
    roles alternate, one of them is a cache breakpoint, and thinking is asked for only where the API accepts it.

    [anthropic_request_valid] gives the shape of the messages ([turns_ok]), [thinking_accepted] the
    thinking configuration. *)

From stdpp Require Import prelude gmap strings list sorting.
From S2P Require Import Prelude Errors External Json Message Provider Requests Anthropic Configuration.
Local Open Scope Z_scope.

(** server/src/provider/anthropic.rs:27-27, [DEFAULT_MAX_OUTPUT_TOKENS]. *)
Definition DEFAULT_MAX_OUTPUT_TOKENS : Z := 4096.
(** server/src/provider/anthropic.rs:368-368, [MIN_THINKING_BUDGET]. *)
Definition MIN_THINKING_BUDGET : Z := 1024.

(** server/src/provider/anthropic.rs:553-560, [role_name]: a system or tool message is the user's. *)
Definition anthropic_role (role : Role) : string :=
  match role with RAssistant => "assistant" | _ => "user" end.

Section Request.
Context {B64 : Base64}.

(** server/src/provider/anthropic.rs:519-538, [anthropic_parts]. *)
Fixpoint anthropic_parts (role : Role) (parts : list ContentPart) : res (list json) :=
  match parts with
  | [] => Ok []
  | PText [] :: parts => anthropic_parts role parts
  | PText t :: parts =>
      rest ← anthropic_parts role parts;
      Ok (object [("type", text "text"); ("text", JString t)]%string :: rest)
  | PImage mime_type data :: parts =>
      if bool_decide (role = RUser) then
        rest ← anthropic_parts role parts;
        Ok (object [("type", text "image");
                    ("source", object [("type", text "base64"); ("media_type", JString mime_type);
                                       ("data", JString (encode64 data))])]%string :: rest)
      else Err (Protocol (lit "Anthropic only accepts images in user messages"))
  end.

Definition anthropic_turn (role : string) (content : list json) : json :=
  object [("role", text role); ("content", JArray content)]%string.
(** server/src/provider/anthropic.rs:540-551, [push_anthropic]: what follows a message of the same role joins it. *)
Definition push_anthropic (output : list json) (role : string) (content : list json) : list json :=
  match last output with
  | Some v =>
      if bool_decide (get_str "role" v = Some (lit role)) then
        match get_member "content" v with
        | Some (JArray existing) => removelast output ++ [set_member "content" (JArray (existing ++ content)) v]
        | _ => output ++ [anthropic_turn role content]
        end
      else output ++ [anthropic_turn role content]
  | None => output ++ [anthropic_turn role content]
  end.

(** The thinking blocks an assistant message is replayed with. *)
Definition replay_blocks (replay_state : option ProviderReplayState) : list json :=
  match replay_state with
  | Some state =>
      if bool_decide (provider_kind state = lit "anthropic")
      then default [] (get_member "blocks" (replay_value state) ≫= as_array) else []
  | None => []
  end.
Definition tool_use (call : ToolCallContent) : json :=
  object [("type", text "tool_use"); ("id", JString (c_call_id call)); ("name", JString (c_name call));
          ("input", c_arguments call)]%string.
Definition tool_result (r : ToolResultContent) (content : json) : json :=
  let block := object [("type", text "tool_result"); ("tool_use_id", JString (r_call_id r)); ("content", content)]%string in
  if r_is_error r then set_member "is_error" (JBool true) block else block.
Definition result_content (r : ToolResultContent) : res json :=
  match r_provider_parts r with
  | [] => Ok (JString (r_content r))
  | parts => JArray <$> anthropic_parts RUser parts
  end.
Definition assistant_content (t : str) (replay_state : option ProviderReplayState) (calls : list ToolCallContent) : list json :=
  replay_blocks replay_state
  ++ match t with [] => [] | _ => [object [("type", text "text"); ("text", JString t)]%string] end
  ++ (tool_use <$> calls).
Definition push_non_empty (output : list json) (role : string) (content : list json) : list json :=
  match content with [] => output | _ => push_anthropic output role content end.

(** server/src/provider/anthropic.rs:433-494, [anthropic_messages]: one message. *)
Definition anthropic_message (output : list json) (m : ProjectedMessage) : res (list json) :=
  match p_content m with
  | PCParts parts =>
      content ← anthropic_parts (p_role m) parts;
      Ok (push_non_empty output (anthropic_role (p_role m)) content)
  | PCToolResult r =>
      content ← result_content r;
      Ok (push_anthropic output "user" [tool_result r content])
  | PCAssistant t _ replay_state calls =>
      Ok (push_non_empty output "assistant" (assistant_content t replay_state calls))
  end.
(** server/src/provider/anthropic.rs:433-494, [anthropic_messages]: its loop. *)
Fixpoint anthropic_loop (output : list json) (history : list ProjectedMessage) : res (list json) :=
  match history with
  | [] => Ok output
  | m :: history => output ← anthropic_message output m; anthropic_loop output history
  end.
(** server/src/provider/anthropic.rs:433-494, [anthropic_messages]. *)
Definition anthropic_messages (history : list ProjectedMessage) : res (list json) := anthropic_loop [] history.

(** The last element of a kind, changed. *)
Fixpoint mark_last {A} (p : A → bool) (f : A → A) (l : list A) : list A :=
  match l with
  | [] => []
  | x :: l => if existsb p l then x :: mark_last p f l else if p x then f x :: l else x :: l
  end.
Definition ephemeral : json := object [("type"%string, text "ephemeral")].
Definition cacheable (block : json) : bool :=
  match get_str "type" block with
  | Some k => existsb (named k) ["text"; "image"; "tool_result"]%string
  | None => false
  end.
Definition user_turn (message : json) : bool := bool_decide (get_str "role" message = Some (lit "user")).
Definition mark_content (message : json) : json :=
  match get_member "content" message with
  | Some (JArray blocks) => set_member "content" (JArray (mark_last cacheable (set_member "cache_control" ephemeral) blocks)) message
  | _ => message
  end.
(** server/src/provider/anthropic.rs:496-517, [mark_cache_breakpoint]. *)
Definition mark_cache_breakpoint (messages : list json) : list json := mark_last user_turn mark_content messages.

(** ** The model *)

(** server/src/provider/anthropic.rs:332-337, [resolve_max_output_tokens]. *)
Definition resolve_max_output_tokens (m : ModelSpec) (route_max : option Z) : Z :=
  match max_output_tokens m with Some n => n | None => default DEFAULT_MAX_OUTPUT_TOKENS route_max end.
(** server/src/provider/anthropic.rs:373-381, [thinking_config]. *)
Definition thinking_config (r : ReasoningSpec) (max_tokens : Z) : json :=
  match rs_thinking_budget_tokens r with
  | Some budget =>
      object [("type", text "enabled");
              ("budget_tokens", number (Z.min (Z.max budget MIN_THINKING_BUDGET) (sat_sub max_tokens 1)))]
  | None => object [("type", text "adaptive"); ("display", text "summarized")]
  end%string.
Definition of_type (kind : string) (block : json) : bool := bool_decide (get_str "type" block = Some (lit kind)).
(** server/src/provider/anthropic.rs:386-408, [trailing_turn_supports_thinking]. *)
Definition trailing_turn_supports_thinking (messages : list json) : bool :=
  match list_find (λ m, bool_decide (get_str "role" m = Some (lit "assistant"))) (reverse messages) with
  | None => true
  | Some (_, m) =>
      match get_member "content" m ≫= as_array with
      | None => true
      | Some blocks =>
          if existsb (of_type "tool_use") blocks
          then existsb (λ b, of_type "thinking" b || of_type "redacted_thinking" b) blocks
          else true
      end
  end.
(** server/src/provider/anthropic.rs:339-363, [apply_model]. *)
Definition anthropic_apply_model (m : ModelSpec) (max_tokens : Z) (body : json) : json :=
  let supports_thinking := match get_member "messages" body ≫= as_array with
                           | Some messages => trailing_turn_supports_thinking messages
                           | None => true
                           end in
  let body := if reasoning_enabled (reasoning m) && supports_thinking
              then set_member "thinking" (thinking_config (reasoning m) max_tokens) body else body in
  if supports_thinking && bool_decide (rs_thinking_budget_tokens (reasoning m) = None) then
    match rs_effort (reasoning m) with
    | Some effort => set_member "output_config" (object [("effort"%string, JString effort)]) body
    | None => body
    end
  else body.

Definition anthropic_tool (t : ToolDefinition) : json :=
  object [("name", JString (t_name t)); ("description", JString (t_description t)); ("input_schema", t_parameters t)]%string.
(** The last tool is a cache breakpoint too. *)
Fixpoint anthropic_tools (tools : list ToolDefinition) : list json :=
  match tools with
  | [] => []
  | [t] => [set_member "cache_control" ephemeral (anthropic_tool t)]
  | t :: tools => anthropic_tool t :: anthropic_tools tools
  end.
Definition anthropic_system (instructions : str) : json :=
  match instructions with
  | [] => JString []
  | _ => JArray [object [("type", text "text"); ("text", JString instructions); ("cache_control", ephemeral)]%string]
  end.
(** server/src/provider/anthropic.rs:61-93, the body of the request, in [stream]. *)
Definition anthropic_body (p : PromptSpec) (m : ModelSpec) (route_max : option Z) (history : list ProjectedMessage) : res json :=
  messages ← anthropic_messages history;
  let messages := mark_cache_breakpoint messages in
  let max_tokens := resolve_max_output_tokens m route_max in
  let body := object [("model", JString (model_id m)); ("system", anthropic_system (instructions p));
                      ("messages", JArray messages); ("max_tokens", number max_tokens); ("stream", JBool true)]%string in
  let body := match tools p with [] => body | ts => set_member "tools" (JArray (anthropic_tools ts)) body end in
  let body := match stop_sequences m with
              | [] => body
              | stops => set_member "stop_sequences" (JArray (JString <$> stops)) body
              end in
  merge_extra_params (anthropic_apply_model m max_tokens body) (extra_params m).
End Request.

(** ** Messages the API accepts *)

Definition turn : Type := string * list json.
Definition message_of (t : turn) : json := anthropic_turn t.1 t.2.
(** The calls of a message and the answers in it, by id. *)
Definition uses (blocks : list json) : list str :=
  omap (λ b, if of_type "tool_use" b then get_str "id" b else None) blocks.
Definition answers (blocks : list json) : list str :=
  omap (λ b, if of_type "tool_result" b then get_str "tool_use_id" b else None) blocks.

(** A message after another: the roles alternate, and it answers exactly the calls of the one before, each once. *)
Definition turn_follows (prev : option turn) (t : turn) : Prop :=
  t.2 ≠ [] ∧ (t.1 = "user" ∨ t.1 = "assistant")%string ∧ (t.1 = "user"%string → uses t.2 = []) ∧
  match prev with
  | Some p => p.1 ≠ t.1 ∧ NoDup (answers t.2) ∧ ∀ id, id ∈ uses p.2 ↔ id ∈ answers t.2
  | None => answers t.2 = []
  end.
Fixpoint turns_from (prev : option turn) (l : list turn) : Prop :=
  match l with [] => True | t :: l => turn_follows prev t ∧ turns_from (Some t) l end.
Definition last_turn (prev : option turn) (l : list turn) : option turn :=
  match last l with Some t => Some t | None => prev end.
(** Besides, no call is left without an answer. *)
Definition turns_ok (l : list turn) : Prop :=
  turns_from None l ∧ match last l with Some t => uses t.2 = [] | None => True end.

Lemma turns_snoc l t : ∀ prev, turns_from prev (l ++ [t]) ↔ turns_from prev l ∧ turn_follows (last_turn prev l) t.
Proof.
  induction l as [|x l IH]; intros prev; cbn [app turns_from]; [unfold last_turn; cbn; naive_solver|].
  rewrite IH. replace (last_turn prev (x :: l)) with (last_turn (Some x) l); [naive_solver|].
  unfold last_turn. rewrite last_cons. by destruct (last l).
Qed.
Lemma uses_app a b : uses (a ++ b) = uses a ++ uses b.
Proof. apply omap_app. Qed.
Lemma answers_app a b : answers (a ++ b) = answers a ++ answers b.
Proof. apply omap_app. Qed.

(** What [push_anthropic] does to the turns. *)
Definition push_turn (l : list turn) (role : string) (content : list json) : list turn :=
  match last l with
  | Some (r, blocks) => if (r =? role)%string then removelast l ++ [(r, blocks ++ content)] else l ++ [(role, content)]
  | None => l ++ [(role, content)]
  end.
Lemma removelast_fmap {A C} (f : A → C) (l : list A) : removelast (f <$> l) = f <$> removelast l.
Proof. induction l as [|x [|y l] IH]; [done|done|]. cbn [fmap list_fmap removelast] in *. by rewrite IH. Qed.
Lemma push_turns l role content :
  push_anthropic (message_of <$> l) role content = message_of <$> push_turn l role content.
Proof.
  unfold push_anthropic, push_turn. rewrite fmap_last. destruct (last l) as [[r blocks]|]; cbn [fmap option_fmap option_map].
  - unfold message_of at 1, anthropic_turn at 1. cbn [fst snd]. get_obj.
    destruct (String.eqb_spec r role) as [->|Hne].
    + rewrite bool_decide_eq_true_2 by done. unfold message_of at 1, anthropic_turn at 1. get_obj.
      rewrite fmap_app, removelast_fmap. f_equal.
    + rewrite bool_decide_eq_false_2; [by rewrite fmap_app|]. intros [= E]. by apply lit_inj in E.
  - by rewrite fmap_app.
Qed.

Lemma last_turn_snoc prev l t : last_turn prev (l ++ [t]) = Some t.
Proof. unfold last_turn. by rewrite last_snoc. Qed.
Lemma last_turn_none l : last_turn None l = last l.
Proof. unfold last_turn. by destruct (last l). Qed.
Lemma push_turn_snoc l r blocks role content : push_turn (l ++ [(r, blocks)]) role content =
  if (r =? role)%string then l ++ [(r, blocks ++ content)] else l ++ [(r, blocks); (role, content)].
Proof. unfold push_turn. rewrite last_snoc, removelast_last, <- app_assoc. done. Qed.

Definition a_role (role : string) : Prop := (role = "user" ∨ role = "assistant")%string.

(** Content with the calls [ids] and no answers, pushed after turns that are all answered. *)
Lemma push_calls l role content : turns_ok l → content ≠ [] → a_role role → answers content = [] →
  (role = "user"%string → uses content = []) →
  ∃ l' blocks, push_turn l role content = l' ++ [(role, blocks)] ∧ turns_from None (l' ++ [(role, blocks)]) ∧
    uses blocks = uses content.
Proof.
  intros [Hl Hlast] Hne Hr Ha Hu. destruct l as [|[r b] l _] using rev_ind.
  - exists [], content. cbn. split; [done|]. split; [|done]. split; [|done]. by split_and!.
  - rewrite last_snoc in Hlast. rewrite push_turn_snoc. cbn [snd] in Hlast. pose proof Hl as Hl'.
    apply turns_snoc in Hl as [Hl Hf]. destruct (String.eqb_spec r role) as [->|Hne'].
    + exists l, (b ++ content). split; [done|]. rewrite turns_snoc. unfold turn_follows in *. cbn [fst snd] in *.
      rewrite uses_app, answers_app, Hlast, Ha, app_nil_r. destruct Hf as (F1 & F2 & F3 & F4). split; [|done].
      split; [done|]. split; [by destruct b|]. by split_and!.
    + exists (l ++ [(r, b)]), content. rewrite <- app_assoc. split; [done|]. split; [|done]. cbn [app].
      change (turns_from None (l ++ [(r, b)] ++ [(role, content)])). rewrite app_assoc, turns_snoc. split; [done|].
      rewrite last_turn_snoc. unfold turn_follows. cbn [fst snd]. rewrite Ha, Hlast. split_and!; try done. constructor.
Qed.
Lemma push_lone l role content : turns_ok l → content ≠ [] → a_role role → answers content = [] → uses content = [] →
  turns_ok (push_turn l role content).
Proof.
  intros Hl Hne Hr Ha Hu. destruct (push_calls l role content Hl Hne Hr Ha (λ _, Hu)) as (l' & b & -> & Ht & Hb).
  split; [done|]. rewrite last_snoc. cbn [snd]. by rewrite Hb.
Qed.

(** The answers that follow. *)
Lemma push_answers l blocks results : ∀ pushed, pushed ≠ [] →
  foldl (λ l b, push_turn l "user" [b]) (l ++ [("assistant"%string, blocks); ("user"%string, pushed)]) results =
  l ++ [("assistant"%string, blocks); ("user"%string, pushed ++ results)].
Proof.
  induction results as [|b results IH]; intros pushed Hne; cbn [foldl]; [by rewrite app_nil_r|].
  change (l ++ [("assistant"%string, blocks); ("user"%string, pushed)]) with (l ++ [("assistant"%string, blocks)] ++ [("user"%string, pushed)]).
  rewrite app_assoc, push_turn_snoc. cbn [String.eqb Ascii.eqb Bool.eqb]. rewrite <- app_assoc. cbn [app].
  rewrite IH; [by rewrite <- app_assoc|by destruct pushed].
Qed.
Lemma push_results l blocks results : results ≠ [] →
  foldl (λ l b, push_turn l "user" [b]) (l ++ [("assistant"%string, blocks)]) results =
  l ++ [("assistant"%string, blocks); ("user"%string, results)].
Proof.
  destruct results as [|b results]; [done|]. intros _. cbn [foldl]. rewrite push_turn_snoc. cbn [String.eqb Ascii.eqb Bool.eqb].
  by rewrite push_answers.
Qed.

(** ** What the messages say *)

(** A text or an image, and the blocks of a message. *)
Inductive Shown : Type := ShownText (t : str) | ShownImage (media_type data : str).
Inductive Block : Type :=
  | BShown (shown : Shown)
  | BUse (id name : str) (input : json)
  | BResult (id : str) (shown : list Shown) (is_error : bool)
  | BOther (block : json).

(** Blocks as they are read off a request; a cache breakpoint says nothing. *)
Definition read_shown (b : json) : option Shown :=
  if of_type "text" b then t ← get_str "text" b; Some (ShownText t)
  else if of_type "image" b then
    source ← get_member "source" b;
    media_type ← get_str "media_type" source;
    data ← get_str "data" source;
    Some (ShownImage media_type data)
  else None.
Definition read_block (b : json) : option Block :=
  if of_type "text" b || of_type "image" b then shown ← read_shown b; Some (BShown shown)
  else if of_type "tool_use" b then
    id ← get_str "id" b; name ← get_str "name" b; input ← get_member "input" b; Some (BUse id name input)
  else if of_type "tool_result" b then
    id ← get_str "tool_use_id" b;
    shown ← match get_member "content" b with
            | Some (JString t) => Some [ShownText t]
            | Some (JArray blocks) => mapM read_shown blocks
            | _ => None
            end;
    Some (BResult id shown (bool_decide (get_member "is_error" b = Some (JBool true))))
  else Some (BOther b).
Definition read_turns (turns : list turn) : list (string * option Block) :=
  concat ((λ t : turn, (λ b, (t.1, read_block b)) <$> t.2) <$> turns).

Section Said.
Context {B64 : Base64}.
(** What a message of the history says, and as whom: an empty text says nothing. *)
Definition shown_parts (parts : list ContentPart) : list Shown :=
  omap (λ p, match p with
             | PText [] => None
             | PText t => Some (ShownText t)
             | PImage mime_type data => Some (ShownImage mime_type (encode64 data))
             end) parts.
Definition says (m : ProjectedMessage) : list (string * option Block) :=
  match p_content m with
  | PCParts parts => (λ shown, (anthropic_role (p_role m), Some (BShown shown))) <$> shown_parts parts
  | PCToolResult r =>
      let shown := match r_provider_parts r with [] => [ShownText (r_content r)] | parts => shown_parts parts end in
      [("user"%string, Some (BResult (r_call_id r) shown (r_is_error r)))]
  | PCAssistant t _ replay_state calls => pair "assistant"%string <$>
      (read_block <$> replay_blocks replay_state)
      ++ match t with [] => [] | _ => [Some (BShown (ShownText t))] end
      ++ ((λ c, Some (BUse (c_call_id c) (c_name c) (c_arguments c))) <$> calls)
  end.
End Said.

(** ** The messages of a history *)

(** Replayed blocks are thinking blocks: they hold no calls and no answers. *)
Definition replay_plain (m : ProjectedMessage) : Prop :=
  match p_content m with
  | PCAssistant _ _ replay_state _ => uses (replay_blocks replay_state) = [] ∧ answers (replay_blocks replay_state) = []
  | _ => True
  end.

Section Messages.
Context {B64 : Base64}.

Lemma of_type_other kind members other : get_str "type" (object members) = Some (lit other) → kind ≠ other →
  of_type kind (object members) = false.
Proof.
  unfold of_type. intros -> Hne. apply bool_decide_eq_false_2. intros [= E]. apply lit_inj in E. congruence.
Qed.
Lemma of_type_same kind members : get_str "type" (object members) = Some (lit kind) → of_type kind (object members) = true.
Proof. unfold of_type. intros ->. by apply bool_decide_eq_true_2. Qed.

Lemma uses_other kind members l : get_str "type" (object members) = Some (lit kind) → kind ≠ "tool_use"%string →
  uses (object members :: l) = uses l.
Proof. intros H Hne. unfold uses. cbn [omap list_omap]. by rewrite (of_type_other _ _ kind). Qed.
Lemma answers_other kind members l : get_str "type" (object members) = Some (lit kind) → kind ≠ "tool_result"%string →
  answers (object members :: l) = answers l.
Proof. intros H Hne. unfold answers. cbn [omap list_omap]. by rewrite (of_type_other _ _ kind). Qed.

Lemma parts_plain role parts content : anthropic_parts role parts = Ok content → uses content = [] ∧ answers content = [].
Proof.
  revert content. induction parts as [|[t|mt d] parts IH]; intros content; cbn [anthropic_parts]; [by intros [= <-]|..].
  - destruct t as [|x t]; [apply IH|]. destruct (anthropic_parts role parts) as [rest|]; [|done]. intros [= <-].
    rewrite (uses_other "text"), (answers_other "text") by (by get_obj). by apply IH.
  - destruct (bool_decide _); [|done]. destruct (anthropic_parts role parts) as [rest|]; [|done]. intros [= <-].
    rewrite (uses_other "image"), (answers_other "image") by (by get_obj). by apply IH.
Qed.
Lemma tool_uses_of calls : uses (tool_use <$> calls) = c_call_id <$> calls ∧ answers (tool_use <$> calls) = [].
Proof.
  induction calls as [|c calls [IH1 IH2]]; [done|]. rewrite !fmap_cons. split.
  - change (tool_use c :: (tool_use <$> calls)) with ([tool_use c] ++ (tool_use <$> calls)). by rewrite uses_app, IH1.
  - unfold tool_use at 1. by rewrite (answers_other "tool_use") by (by get_obj).
Qed.
Lemma assistant_blocks t rp calls : uses (replay_blocks rp) = [] → answers (replay_blocks rp) = [] →
  uses (assistant_content t rp calls) = c_call_id <$> calls ∧ answers (assistant_content t rp calls) = [].
Proof.
  intros Hu Ha. unfold assistant_content. rewrite !uses_app, !answers_app, Hu, Ha.
  destruct (tool_uses_of calls) as [-> ->]. destruct t; [done|].
  by rewrite (uses_other "text"), (answers_other "text") by (by get_obj).
Qed.
Lemma result_block r content : uses [tool_result r content] = [] ∧ answers [tool_result r content] = [r_call_id r].
Proof.
  assert (get_str "type" (tool_result r content) = Some (lit "tool_result") ∧
    get_str "tool_use_id" (tool_result r content) = Some (r_call_id r)) as [Ht Hi].
  { unfold tool_result, get_str, object. destruct (r_is_error r); [rewrite !get_set_other by done|];
      fold (object [("type"%string, text "tool_result"); ("tool_use_id"%string, JString (r_call_id r)); ("content"%string, content)]);
      by get_obj. }
  unfold uses, answers, of_type. cbn [omap list_omap]. rewrite Ht, Hi. rewrite bool_decide_eq_false_2, bool_decide_eq_true_2; [done|done|by intros [=]].
Qed.

Lemma results_loop (results : list (str * ToolResultContent)) : ∀ l out,
  anthropic_loop (message_of <$> l) ((λ r, MkProjected (fst r) RTool (PCToolResult (snd r))) <$> results) = Ok out →
  ∃ blocks, out = message_of <$> foldl (λ l b, push_turn l "user" [b]) l blocks ∧
    uses blocks = [] ∧ answers blocks = (λ r, r_call_id (snd r)) <$> results ∧ length blocks = length results.
Proof.
  induction results as [|r results IH]; intros l out; cbn [fmap list_fmap anthropic_loop]; [intros [= <-]; by exists []|].
  cbn [anthropic_message p_content p_role mbind result_bind]. destruct (result_content r.2) as [content|]; [|done].
  cbn [mbind result_bind]. rewrite push_turns. intros H. apply IH in H as (blocks & -> & Hu & Ha & Hl).
  exists (tool_result r.2 content :: blocks). destruct (result_block r.2 content) as [R1 R2].
  change (tool_result r.2 content :: blocks) with ([tool_result r.2 content] ++ blocks).
  rewrite uses_app, answers_app, R1, R2, Hu, Ha. split; [done|]. split; [done|]. split; [done|]. cbn. by rewrite Hl.
Qed.

Lemma loop_app h k out : anthropic_loop out (h ++ k) = (out ← anthropic_loop out h; anthropic_loop out k).
Proof.
  revert out. induction h as [|m h IH]; intros out; cbn [app anthropic_loop]; [done|].
  destruct (anthropic_message out m); [apply IH|done].
Qed.

Lemma message_of_inj : Inj eq eq message_of.
Proof.
  intros [r b] [r' b'] E. assert (get_str "role" (message_of (r, b)) = get_str "role" (message_of (r', b')) ∧
    get_member "content" (message_of (r, b)) = get_member "content" (message_of (r', b'))) as [H1 H2] by (by rewrite E).
  unfold message_of, anthropic_turn in H1, H2. revert H1 H2. get_obj. intros [= H1] [= H2]. apply lit_inj in H1. cbn in *. by subst.
Qed.
Lemma read_turns_app l k : read_turns (l ++ k) = read_turns l ++ read_turns k.
Proof. unfold read_turns. by rewrite fmap_app, concat_app. Qed.
Lemma read_push_turn l role content :
  read_turns (push_turn l role content) = read_turns l ++ ((λ b, (role, read_block b)) <$> content).
Proof.
  unfold push_turn. destruct l as [|[r blocks] l _] using rev_ind; [by unfold read_turns; cbn; rewrite app_nil_r|].
  rewrite last_snoc. destruct (String.eqb_spec r role) as [->|Hne].
  - rewrite removelast_last, !read_turns_app, <- app_assoc. f_equal. unfold read_turns. cbn. by rewrite !app_nil_r, fmap_app.
  - rewrite read_turns_app. f_equal. unfold read_turns. cbn. by rewrite app_nil_r.
Qed.

Lemma read_shown_parts role parts blocks : anthropic_parts role parts = Ok blocks →
  mapM read_shown blocks = Some (shown_parts parts) ∧ read_block <$> blocks = (λ s, Some (BShown s)) <$> shown_parts parts.
Proof.
  revert blocks. induction parts as [|[t|mt d] parts IH]; intros blocks; cbn [anthropic_parts]; [by intros [= <-]|..].
  - destruct t as [|x t]; [apply IH|]. destruct (anthropic_parts role parts) as [rest|]; [|done]. intros H. apply ok_inj in H as <-.
    destruct (IH rest eq_refl) as [H1 H2]. rewrite fmap_cons. cbn [mapM]. rewrite H1, H2.
    unfold read_block, read_shown, of_type. get_obj. by rewrite bool_decide_eq_true_2.
  - destruct (bool_decide _); [|done]. destruct (anthropic_parts role parts) as [rest|]; [|done]. intros H. apply ok_inj in H as <-.
    destruct (IH rest eq_refl) as [H1 H2]. rewrite fmap_cons. cbn [mapM]. rewrite H1, H2.
    unfold read_block, read_shown, of_type. get_obj. rewrite bool_decide_eq_false_2 by done. rewrite bool_decide_eq_true_2 by done. done.
Qed.
Lemma read_tool_use c : read_block (tool_use c) = Some (BUse (c_call_id c) (c_name c) (c_arguments c)).
Proof.
  unfold read_block, tool_use, of_type. get_obj. rewrite !bool_decide_eq_false_2 by done. by rewrite bool_decide_eq_true_2 by done.
Qed.
Lemma read_result r content shown :
  match content with JString t => Some [ShownText t] | JArray blocks => mapM read_shown blocks | _ => None end = Some shown →
  read_block (tool_result r content) = Some (BResult (r_call_id r) shown (r_is_error r)).
Proof.
  intros Hc.
  assert (get_str "type" (tool_result r content) = Some (lit "tool_result") ∧
    get_str "tool_use_id" (tool_result r content) = Some (r_call_id r) ∧
    get_member "content" (tool_result r content) = Some content ∧
    bool_decide (get_member "is_error" (tool_result r content) = Some (JBool true)) = r_is_error r) as (H1 & H2 & H3 & H4).
  { unfold tool_result, get_str, object. destruct (r_is_error r).
    - rewrite !get_set_other by done. rewrite get_set_same, bool_decide_eq_true_2 by done.
      fold (object [("type"%string, text "tool_result"); ("tool_use_id"%string, JString (r_call_id r)); ("content"%string, content)]). by get_obj.
    - fold (object [("type"%string, text "tool_result"); ("tool_use_id"%string, JString (r_call_id r)); ("content"%string, content)]). by get_obj. }
  unfold read_block, of_type. rewrite H1, H2, H3, H4. rewrite !bool_decide_eq_false_2 by (intros [=]).
  rewrite bool_decide_eq_true_2 by done. cbn [orb mbind option_bind]. destruct content; try done; cbn in Hc |- *; [by injection Hc as <-|by rewrite Hc].
Qed.

(** A message adds what it says. *)
Lemma message_says m l out : anthropic_message (message_of <$> l) m = Ok out →
  ∃ l', out = message_of <$> l' ∧ read_turns l' = read_turns l ++ says m.
Proof.
  assert (∀ role content, ∃ l', push_non_empty (message_of <$> l) role content = message_of <$> l' ∧
    read_turns l' = read_turns l ++ (pair role <$> (read_block <$> content))) as Hpush.
  { intros role content. rewrite <- list_fmap_compose. destruct content as [|b content]; [exists l; by rewrite app_nil_r|].
    exists (push_turn l role (b :: content)). cbn [push_non_empty]. by rewrite push_turns, read_push_turn. }
  unfold anthropic_message, says. destruct m as [id role c]. cbn [p_content p_role]. destruct c as [parts|t th rp calls|r].
  - destruct (anthropic_parts role parts) as [content|] eqn:E; [|done]. intros H. apply ok_inj in H as <-.
    apply read_shown_parts in E as [_ E]. destruct (Hpush (anthropic_role role) content) as (l' & -> & Hl). exists l'. split; [done|].
    by rewrite Hl, E, <- list_fmap_compose.
  - intros H. apply ok_inj in H as <-. destruct (Hpush "assistant"%string (assistant_content t rp calls)) as (l' & -> & Hl). exists l'.
    split; [done|]. rewrite Hl. do 2 f_equal. unfold assistant_content. rewrite !fmap_app. f_equal. f_equal.
    + destruct t; [done|]. cbn. unfold read_block, read_shown, of_type. get_obj. by rewrite bool_decide_eq_true_2.
    + rewrite <- list_fmap_compose. apply list_fmap_ext. intros i c _. apply read_tool_use.
  - destruct (result_content r) as [content|] eqn:E; [|done]. intros H. apply ok_inj in H as <-. rewrite push_turns. eexists. split; [done|].
    rewrite read_push_turn. cbn [fmap list_fmap]. do 3 f_equal. apply read_result. unfold result_content in E.
    destruct (r_provider_parts r) as [|q qs]; [by apply ok_inj in E as <-|].
    destruct (anthropic_parts RUser (q :: qs)) as [bs|] eqn:Eb; [|done]. apply ok_inj in E as <-. by apply read_shown_parts in Eb as [-> _].
Qed.
Lemma loop_says history : ∀ l out, anthropic_loop (message_of <$> l) history = Ok out →
  ∃ l', out = message_of <$> l' ∧ read_turns l' = read_turns l ++ concat (says <$> history).
Proof.
  induction history as [|m h IH]; intros l out; cbn [anthropic_loop].
  - intros H. apply ok_inj in H as <-. exists l. by rewrite app_nil_r.
  - destruct (anthropic_message _ m) as [o|] eqn:E; [|done]. apply message_says in E as (l1 & -> & E1). cbn [mbind result_bind].
    intros H. apply IH in H as (l' & -> & E2). exists l'. split; [done|]. by rewrite E2, E1, fmap_cons, <- app_assoc.
Qed.

Lemma lone_turns m l out : lone m → replay_plain m → turns_ok l → anthropic_message (message_of <$> l) m = Ok out →
  ∃ l', out = message_of <$> l' ∧ turns_ok l'.
Proof.
  unfold lone, replay_plain, anthropic_message. intros Hl Hp Hok. destruct (p_content m) as [parts|t th rp calls|r]; [| |done].
  - destruct (anthropic_parts _ _) as [content|] eqn:E; [|done]. apply parts_plain in E as [Hu Ha]. intros [= <-].
    destruct content as [|b content]; [by exists l|]. cbn [push_non_empty]. rewrite push_turns. eexists. split; [done|].
    apply push_lone; [done|done| |done|done]. unfold a_role. destruct (p_role m); auto.
  - destruct Hp as [Hpu Hpa]. destruct (assistant_blocks t rp calls Hpu Hpa) as [Hu Ha]. rewrite Hl in Hu. intros [= <-].
    rewrite Hl in Ha |- *. destruct (assistant_content t rp []) as [|b content] eqn:Ec; [by exists l|]. cbn [push_non_empty]. rewrite push_turns.
    eexists. split; [done|]. rewrite <- Ec in *. apply push_lone; [done|by rewrite Ec|by right|done|done].
Qed.

Lemma round_turns group l out : round_ok group → Forall replay_plain group → turns_ok l →
  anthropic_loop (message_of <$> l) group = Ok out → ∃ l', out = message_of <$> l' ∧ turns_ok l'.
Proof.
  intros (id & t & th & rp & calls & results & -> & _ & Hn & Hiff) Hp Hok H. apply Forall_cons in Hp as [[Hpu Hpa] _].
  destruct (assistant_blocks t rp calls Hpu Hpa) as [Hu Ha]. cbn [anthropic_loop anthropic_message p_content mbind result_bind] in H.
  destruct (decide (results = [])) as [->|Hr].
  - assert (calls = []) as ->.
    { destruct calls as [|c calls]; [done|]. exfalso. apply (not_elem_of_nil (c_call_id c)). apply (Hiff (c_call_id c)). by left. }
    cbn [fmap list_fmap anthropic_loop] in H. eapply (lone_turns (MkProjected id RAssistant (PCAssistant t th rp []))); [done|done|exact Hok|].
    cbn [anthropic_message p_content]. exact H.
  - assert (calls ≠ []) as Hc.
    { intros ->. destruct results as [|r results]; [done|]. apply (not_elem_of_nil (r_call_id r.2)). apply Hiff. by left. }
    assert (assistant_content t rp calls ≠ []) as Hne.
    { intros E. apply Hc. rewrite E in Hu. cbn in Hu. by destruct calls. }
    destruct (assistant_content t rp calls) as [|b content] eqn:Ec; [done|]. cbn [push_non_empty] in H. rewrite push_turns in H.
    destruct (push_calls l "assistant" (b :: content) Hok ltac:(done) ltac:(by right) Ha ltac:(done)) as (l' & blocks & E & Ht & Hb).
    rewrite E in H. apply results_loop in H as (rs & -> & Ru & Ra & Rl).
    rewrite push_results by (by destruct rs, results). eexists. split; [done|].
    change (l' ++ [("assistant"%string, blocks); ("user"%string, rs)]) with (l' ++ [("assistant"%string, blocks)] ++ [("user"%string, rs)]).
    rewrite app_assoc. split; [|by rewrite last_snoc]. rewrite turns_snoc. split; [done|]. rewrite last_turn_snoc.
    unfold turn_follows. cbn [fst snd]. rewrite Ra, Hb, Hu. split_and!; try done; [by destruct rs, results|by left].
Qed.

Lemma loop_turns history : paired history → Forall replay_plain history → ∀ l out, turns_ok l →
  anthropic_loop (message_of <$> l) history = Ok out → ∃ l', out = message_of <$> l' ∧ turns_ok l'.
Proof.
  intros Hp. induction Hp as [|m h Hl Hp IH|group h Hr Hp IH]; intros Hf l out Hok H.
  - injection H as <-. by exists l.
  - apply Forall_cons in Hf as [Hm Hf]. cbn [anthropic_loop] in H. destruct (anthropic_message _ m) as [o|] eqn:E; [|done].
    eapply lone_turns in E as (l' & -> & Hl'); [|done..]. by eapply IH.
  - apply Forall_app in Hf as [Hg Hf]. rewrite loop_app in H. destruct (anthropic_loop _ group) as [o|] eqn:E; [|done].
    eapply round_turns in E as (l' & -> & Hl'); [|done..]. by eapply IH.
Qed.
End Messages.

(** ** The cache breakpoint leaves the turns as they are *)

Record same_turn (t t' : turn) : Prop := {
  st_role : t'.1 = t.1;
  st_uses : uses t'.2 = uses t.2;
  st_answers : answers t'.2 = answers t.2;
  st_empty : t'.2 = [] → t.2 = [];
  st_read : read_block <$> t'.2 = read_block <$> t.2
}.
#[global] Instance same_turn_refl : Reflexive same_turn.
Proof. by split. Qed.
Lemma same_follows p p' t t' : option_Forall2 same_turn p p' → same_turn t t' → turn_follows p t → turn_follows p' t'.
Proof.
  intros Hp [T1 T2 T3 T4 _] (F1 & F2 & F3 & F4). unfold turn_follows. rewrite T1, T2, T3. split_and!; try done; [naive_solver|].
  destruct Hp as [x x' [X1 X2 X3 X4 _]|]; [by rewrite X1, X2|done].
Qed.
Lemma same_turns l l' : Forall2 same_turn l l' → turns_ok l → turns_ok l'.
Proof.
  intros H [Hf Hl]. split.
  - clear Hl. assert (∀ p p', option_Forall2 same_turn p p' → turns_from p l → turns_from p' l') as Hg; [|by eapply (Hg None); [constructor|]].
    clear Hf. induction H as [|t t' l l' Ht H IH]; intros p p' Hp; [done|]. intros [Hf Hr]. split; [by eapply same_follows|].
    eapply IH; [|exact Hr]. by constructor.
  - apply Forall2_last in H. destruct H as [t t' Ht|]; [by rewrite (st_uses _ _ Ht)|done].
Qed.

Lemma same_read l l' : Forall2 same_turn l l' → read_turns l' = read_turns l.
Proof.
  unfold read_turns. induction 1 as [|[r b] [r' b'] l l' [T1 _ _ _ T5] _ IH]; [done|]. rewrite !fmap_cons. cbn [concat]. rewrite IH. f_equal.
  cbn in *. subst r'. change (λ x, (r, read_block x)) with (pair r ∘ read_block). by rewrite !list_fmap_compose, T5.
Qed.

Lemma existsb_fmap {A C} (p : C → bool) (q : A → bool) (f : A → C) l : (∀ x, p (f x) = q x) → existsb p (f <$> l) = existsb q l.
Proof. intros Hp. induction l as [|x l IH]; [done|]. cbn [fmap list_fmap existsb] in *. by rewrite Hp, IH. Qed.
Lemma mark_last_fmap {A C} (p : C → bool) (g : C → C) (q : A → bool) (h : A → A) (f : A → C) l :
  (∀ x, p (f x) = q x) → (∀ x, g (f x) = f (h x)) → mark_last p g (f <$> l) = f <$> mark_last q h l.
Proof.
  intros Hp Hg. induction l as [|x l IH]; [done|]. rewrite fmap_cons. cbn [mark_last].
  rewrite (existsb_fmap p q f l Hp), Hp. destruct (existsb q l); [by rewrite fmap_cons, <- IH|]. destruct (q x); [by rewrite fmap_cons, Hg|done].
Qed.
Lemma mark_last_forall {A} (R : A → A → Prop) (p : A → bool) (f : A → A) l : Reflexive R → (∀ x, R x (f x)) → Forall2 R l (mark_last p f l).
Proof.
  intros Hr Hf. induction l as [|x l IH]; [constructor|]. cbn [mark_last]. destruct (existsb p l); [by constructor|].
  assert (Forall2 R l l) by (clear -Hr; induction l; by constructor). destruct (p x); by constructor.
Qed.
Lemma mark_last_omap {A C} (p : A → bool) (f : A → A) (u : A → option C) l : (∀ x, u (f x) = u x) → omap u (mark_last p f l) = omap u l.
Proof.
  intros Hu. induction l as [|x l IH]; [done|]. cbn [mark_last]. destruct (existsb p l); cbn [omap list_omap]; [by rewrite <- IH|].
  destruct (p x); cbn [omap list_omap]; by rewrite ?Hu.
Qed.

Lemma mark_last_same {A C} (p : A → bool) (f : A → A) (u : A → C) l : (∀ x, p x = true → u (f x) = u x) →
  u <$> mark_last p f l = u <$> l.
Proof.
  intros Hu. induction l as [|x l IH]; [done|]. cbn [mark_last]. destruct (existsb p l); [by rewrite !fmap_cons, IH|].
  destruct (p x) eqn:E; [|done]. by rewrite !fmap_cons, Hu.
Qed.

Lemma get_member_marked name b v : name ≠ "cache_control"%string → get_member name (set_member "cache_control" v b) = get_member name b.
Proof. intros H. destruct b; try done. by rewrite get_set_other. Qed.
Lemma get_marked name b v : name ≠ "cache_control"%string → get_str name (set_member "cache_control" v b) = get_str name b.
Proof. intros H. unfold get_str. destruct b; try done. by rewrite get_set_other. Qed.
Lemma read_marked b : cacheable b = true → read_block (set_member "cache_control" ephemeral b) = read_block b.
Proof.
  intros Hc. unfold read_block, read_shown, of_type. rewrite !get_marked, !get_member_marked by done.
  unfold cacheable in Hc. destruct (get_str "type" b) as [k|]; [|done].
  repeat case_bool_decide; cbn [orb]; try done. exfalso.
  cbn [existsb] in Hc. unfold named in Hc. rewrite !orb_true_iff, !bool_decide_eq_true in Hc. naive_solver.
Qed.
Definition mark_turn (t : turn) : turn := (t.1, mark_last cacheable (set_member "cache_control" ephemeral) t.2).
Lemma mark_turn_same t : same_turn t (mark_turn t).
Proof.
  split; cbn [mark_turn fst snd].
  - done.
  - apply mark_last_omap. intros b. unfold of_type. by rewrite !get_marked.
  - apply mark_last_omap. intros b. unfold of_type. by rewrite !get_marked.
  - destruct t.2 as [|b l]; [done|]. cbn [mark_last]. by destruct (existsb _ l), (cacheable b).
  - apply mark_last_same, read_marked.
Qed.
Lemma mark_turns l : ∃ l', mark_cache_breakpoint (message_of <$> l) = message_of <$> l' ∧ Forall2 same_turn l l'.
Proof.
  exists (mark_last (λ t, (t.1 =? "user")%string) mark_turn l). split.
  - apply mark_last_fmap.
    + intros [r b]. unfold user_turn, message_of, anthropic_turn. get_obj. cbn [fst].
      destruct (String.eqb_spec r "user") as [->|H]; [by apply bool_decide_eq_true_2|]. apply bool_decide_eq_false_2.
      intros [= E]. by apply (lit_inj r "user") in E.
    + intros [r b]. unfold mark_content, message_of at 1, anthropic_turn at 1. by get_obj.
  - apply mark_last_forall; [apply _|apply mark_turn_same].
Qed.

Section Valid.
Context {B64 : Base64}.

Lemma apply_model_sets names m max b b' : only_sets names b b' → ["thinking"; "output_config"]%string ⊆ names →
  only_sets names b (anthropic_apply_model m max b').
Proof.
  intros H Hn. unfold anthropic_apply_model. set (s := match get_member "messages" b' ≫= as_array with Some _ => _ | None => _ end).
  clearbody s. destruct (reasoning_enabled (reasoning m) && s), (s && _), (rs_effort (reasoning m)); repeat (apply only_sets_set; [|set_solver]); done.
Qed.

(** An extra parameter takes the place of the limit. *)
Lemma merge_limit body extra merged : merge_extra_params body extra = Ok merged → ∃ params, extra = JObject params ∧
  get_member "max_tokens" merged = match extra_of (lit "max_tokens") params with Some v => Some v | None => get_member "max_tokens" body end.
Proof.
  unfold merge_extra_params. destruct extra as [| | | | |params]; try done. destruct body as [| | | | |members]; try done.
  cbn [as_object ok_or mbind result_bind]. intros H. pose proof (merge_params_spec params members) as Hs.
  destruct (merge_params members params) as [merged'|]; [|done]. apply ok_inj in H as <-. exists params. split; [done|]. apply Hs.
Qed.

(** C5: An Anthropic request is one the API accepts, for a paired history whose replayed thinking blocks are no calls or results:
    no message is empty, roles alternate, each message answers exactly the calls of the one before, once,
    and no call is left unanswered; the messages say what the history says, block by block - texts, images, calls, the content of every
    result, thinking replayed -, a cache breakpoint apart; it asks for a stream of the model under the prompt's instructions and tools,
    with the token limit of the model, else of the route, else 4096, unless the model's extra parameters give another. *)
Theorem anthropic_request_valid p m route history body : paired history → Forall replay_plain history →
  anthropic_body p m route history = Ok body →
  (∃ turns, get_member "messages" body = Some (JArray (message_of <$> turns)) ∧ turns_ok turns ∧
     read_turns turns = concat (says <$> history)) ∧
  get_member "model" body = Some (JString (model_id m)) ∧ get_member "stream" body = Some (JBool true) ∧
  (∃ extra, extra_params m = JObject extra ∧ get_member "max_tokens" body = Some (default
     (number (default 4096 (match max_output_tokens m with Some n => Some n | None => route end))) (extra_of (lit "max_tokens") extra))) ∧
  get_member "system" body = Some (anthropic_system (instructions p)) ∧
  get_member "tools" body = match tools p with [] => None | ts => Some (JArray (anthropic_tools ts)) end.
Proof.
  intros Hp Hr H. unfold anthropic_body in H. destruct (anthropic_messages history) as [messages|] eqn:Em; [|done].
  cbn [mbind result_bind] in H.
  destruct (loop_turns history Hp Hr [] messages) as (l & -> & Hl); [done|exact Em|].
  destruct (loop_says history [] _ Em) as (l0 & E0 & Hsays). apply (list_fmap_eq_inj _ message_of_inj) in E0 as <-.
  destruct (mark_turns l) as (l' & E & Hs). rewrite E in H. apply (same_turns _ _ Hs) in Hl. apply same_read in Hs. rewrite Hsays in Hs.
  set (b0 := object _) in H. set (b1 := match tools p with [] => _ | _ => _ end) in H.
  set (b2 := match stop_sequences m with [] => _ | _ => _ end) in H.
  assert (∃ members, b1 = JObject members) as [members Hb1] by (unfold b1; destruct (tools p); by eexists).
  assert (only_sets ["stop_sequences"; "thinking"; "output_config"]%string b1
    (anthropic_apply_model m (resolve_max_output_tokens m route) b2)) as [_ Ha].
  { apply apply_model_sets; [|set_solver]. unfold b2. rewrite Hb1.
    destruct (stop_sequences m); [by apply only_sets_refl|]. apply only_sets_set; [by apply only_sets_refl|set_solver]. }
  assert (∀ name, name ∈ ["model"; "stream"; "messages"; "tools"; "system"]%string → get_member name body = get_member name b1) as Hk.
  { intros name Hn.
    rewrite (proj1 (merge_keeps _ _ _ name H ltac:(set_unfold; destruct Hn as [->|[->|[->|[->|[->|[]]]]]]; reflexivity))).
    apply Ha. set_unfold. naive_solver. }
  destruct (merge_limit _ _ _ H) as (extra & Ex & Hmax). rewrite Ha in Hmax by set_solver.
  assert (get_member "max_tokens" b1 = Some (number (resolve_max_output_tokens m route))) as Hb1m
    by (unfold b1, b0; destruct (tools p) as [|t ts]; [|unfold object at 1; rewrite !get_set]; by get_obj).
  assert (∃ extra, extra_params m = JObject extra ∧ get_member "max_tokens" body = Some (default
     (number (default 4096 (match max_output_tokens m with Some n => Some n | None => route end))) (extra_of (lit "max_tokens") extra))) as Hlim.
  { exists extra. split; [done|]. rewrite Hmax, Hb1m. destruct (extra_of _ extra); [done|]. unfold resolve_max_output_tokens.
    by destruct (max_output_tokens m). }
  split; [exists l'; split; [|done]|split; [|split; [|split; [exact Hlim|split]]]]; rewrite Hk by set_solver;
    unfold b1, b0; (destruct (tools p) as [|t ts]; [|unfold object at 1; rewrite ?get_set]; by get_obj).
Qed.

(** Thinking is asked for only where the API accepts it: never in a tool turn whose assistant message has no signed
    thinking, and then without an effort either; a budget is below the request's token limit and, as
    long as the limit leaves room for it, at least the minimum; budget and effort are never sent together. *)
Theorem thinking_accepted m max members : 1 ≤ max →
  get_member "thinking" (JObject members) = None → get_member "output_config" (JObject members) = None →
  let body := anthropic_apply_model m max (JObject members) in
  let supported := match get_member "messages" (JObject members) ≫= as_array with
                   | Some messages => trailing_turn_supports_thinking messages
                   | None => true
                   end in
  (supported = false → body = JObject members) ∧
  (get_member "thinking" body = if reasoning_enabled (reasoning m) && supported
                               then Some (thinking_config (reasoning m) max) else None) ∧
  (∀ budget, rs_thinking_budget_tokens (reasoning m) = Some budget →
     get_member "output_config" body = None ∧
     ∃ n, get_member "budget_tokens" (thinking_config (reasoning m) max) = Some (number n) ∧ n < max ∧
       (MIN_THINKING_BUDGET < max → MIN_THINKING_BUDGET ≤ n) ∧ n ≤ Z.max budget MIN_THINKING_BUDGET).
Proof.
  intros Hmax Ht Ho body supported.
  assert (body = let b := if reasoning_enabled (reasoning m) && supported
                          then set_member "thinking" (thinking_config (reasoning m) max) (JObject members) else JObject members in
                 if supported && bool_decide (rs_thinking_budget_tokens (reasoning m) = None) then
                   match rs_effort (reasoning m) with
                   | Some effort => set_member "output_config" (object [("effort"%string, JString effort)]) b
                   | None => b
                   end else b) as Hb by reflexivity.
  clearbody body supported. rewrite Hb. clear Hb. split; [intros ->; by rewrite andb_false_r|]. split.
  - assert (∀ v b, get_member "thinking" (set_member "output_config" v b) = get_member "thinking" b) as Hother.
    { intros v b. destruct b; try done. by rewrite get_set_other. }
    cbn zeta. destruct (supported && _); [destruct (rs_effort (reasoning m)); [rewrite Hother|]|];
      (destruct (reasoning_enabled (reasoning m) && supported); [by rewrite get_set_same|done]).
  - intros budget Hbud. rewrite Hbud, (bool_decide_eq_false_2 (Some budget = None)), andb_false_r by done. cbn zeta. split.
    + destruct (_ && supported); [|done]. by rewrite get_set.
    + unfold thinking_config. rewrite Hbud. get_obj. eexists. split; [done|]. unfold MIN_THINKING_BUDGET, sat_sub. lia.
Qed.
End Valid.

(** A limit of at most the minimum leaves a budget below what the API accepts. *)
Example budget_below_minimum :
  get_member "budget_tokens" (thinking_config (MkReasoning (Some true) None (Some 2048)) 1024) = Some (number 1023).
Proof. reflexivity. Qed.

Lemma anthropic_request_valid_witness : ∃ body turns,
  @anthropic_body RequestSamples.base64 RequestSamples.prompt RequestSamples.model (Some 8192) RequestSamples.history = Ok body ∧
  get_member "messages" body = Some (JArray (message_of <$> turns)) ∧ turns_ok turns ∧
  ("user"%string, Some (BResult (lit "c1") [ShownText (lit "src")] false)) ∈ read_turns turns ∧
  get_member "max_tokens" body = Some (number 8192).
Proof.
  destruct (@anthropic_body RequestSamples.base64 RequestSamples.prompt RequestSamples.model (Some 8192) RequestSamples.history)
    as [body|] eqn:E; [|vm_compute in E; discriminate E].
  destruct (@anthropic_request_valid RequestSamples.base64 RequestSamples.prompt RequestSamples.model (Some 8192) RequestSamples.history
    body RequestSamples.paired_history ltac:(repeat constructor) E) as ((turns & Hm & Ht & Hs) & _ & _ & (extra & Hx & Hl) & _).
  exists body, turns. split; [reflexivity|]. split; [exact Hm|]. split; [exact Ht|]. split.
  - rewrite Hs. apply elem_of_concat. exists (@says RequestSamples.base64 (MkProjected (lit "m4") RTool (PCToolResult RequestSamples.answer))).
    split; [by left|]. apply list_elem_of_fmap_2. do 3 right. by left.
  - injection Hx as <-. exact Hl.
Defined.
Lemma thinking_accepted_witness :
  get_member "thinking" (anthropic_apply_model
    (MkModel (lit "claude") None (MkReasoning (Some true) None (Some 32000)) LStandard None None false (JObject []) []) 4096 (JObject []))
  = Some (object [("type", text "enabled"); ("budget_tokens", number 4095)]%string).
Proof.
  etransitivity; [apply (thinking_accepted _ 4096 []); [lia|reflexivity|reflexivity]|]. reflexivity.
Defined.
