(* ===== verification/OpenAiResponses.v ===== *)
(** * OpenAiResponses: the stream of the Responses API

    server/src/provider/openai_responses.rs, the response half.  An output item may be streamed in
    deltas, be given whole when it is done, or both; the adapter emits what was not emitted yet.

    [responses_conforms]: of a response in which nothing follows its end and no call grows after it
    ended ([response_fits]), the cycle gets the text of the messages ([tells]), the reasoning and the
    arguments of every call.  A message that follows other text and is given whole only is lost
    ([second_message_lost]). *)

From stdpp Require Import prelude gmap strings list sorting.
From S2P Require Import Prelude Errors External Json Message Budget ModelCycle Provider.
Local Open Scope Z_scope.

Definition LABEL : string := "OpenAI Responses".

(** ** Tool calls *)

(** server/src/provider/openai_responses.rs:25-32, [ResponseToolState]; lengths are in bytes. *)
Record ResponseTool : Type := MkResponseTool {
  re_call_id : option str;
  re_name : option str;
  re_arguments : str;
  re_emitted : Z;
  re_started : bool;
  re_ended : bool
}.
Definition new_response_tool : ResponseTool := MkResponseTool None None [] 0 false false.
(** server/src/provider/openai_responses.rs:34-38, [ResponseToolArguments]. *)
Inductive ToolArguments : Type := NoArguments | Delta (delta : str) | Snapshot (snapshot : str).

Definition mismatch : Error := Provider (lit "OpenAI Responses final tool arguments do not match streamed arguments").
Definition nameless : Error := Provider (lit "OpenAI Responses function call is missing call_id or name").
(** server/src/provider/openai_responses.rs:326-338, the arguments of a call after more of them. *)
Definition merge_arguments (args : str) (a : ToolArguments) : res str :=
  match a with
  | NoArguments => Ok args
  | Delta delta => Ok (args ++ delta)
  | Snapshot snapshot =>
      if bool_decide (snapshot = args) then Ok args
      else if starts_with args snapshot then Ok (args ++ drop_bytes (str_len args) snapshot)
      else Err mismatch
  end.
(** server/src/provider/openai_responses.rs:341-350, a call starts once its id and name are known. *)
Definition start_response_tool (i : Z) (t : ResponseTool) : list ModelEvent * ResponseTool :=
  match re_started t, re_call_id t, re_name t with
  | false, Some id, Some nm =>
      ([MToolCallStart i id nm], MkResponseTool (re_call_id t) (re_name t) (re_arguments t) (re_emitted t) true (re_ended t))
  | _, _, _ => ([], t)
  end.
(** server/src/provider/openai_responses.rs:351-355, what was not emitted yet of its arguments. *)
Definition emit_response_arguments (i : Z) (t : ResponseTool) : list ModelEvent * ResponseTool :=
  if re_started t && (re_emitted t <? str_len (re_arguments t)) then
    ([MToolCallArgumentsDelta i (drop_bytes (re_emitted t) (re_arguments t))],
     MkResponseTool (re_call_id t) (re_name t) (re_arguments t) (str_len (re_arguments t)) (re_started t) (re_ended t))
  else ([], t).
(** server/src/provider/openai_responses.rs:356-364, the call is done. *)
Definition end_response_tool (i : Z) (done : bool) (t : ResponseTool) : res (list ModelEvent * ResponseTool) :=
  if done && negb (re_ended t) then
    if re_started t then
      Ok ([MToolCallEnd i], MkResponseTool (re_call_id t) (re_name t) (re_arguments t) (re_emitted t) (re_started t) true)
    else Err nameless
  else Ok ([], t).
Definition get_or_insert (known new : option str) : option str := match known with Some _ => known | None => new end.

(** server/src/provider/openai_responses.rs:312-366, [update_response_tool]. *)
Definition update_response_tool (i : Z) (item : json) (a : ToolArguments) (done : bool) (ts : gmap Z ResponseTool)
    : res (list ModelEvent * gmap Z ResponseTool) :=
  let t := default new_response_tool (ts !! i) in
  let id := get_or_insert (re_call_id t) (get_str "call_id" item) in
  let nm := get_or_insert (re_name t) (get_str "name" item) in
  args ← merge_arguments (re_arguments t) a;
  let t := MkResponseTool id nm args (re_emitted t) (re_started t) (re_ended t) in
  let '(start, t) := start_response_tool i t in
  let '(delta, t) := emit_response_arguments i t in
  '(stop, t) ← end_response_tool i done t;
  Ok (start ++ delta ++ stop, <[i := t]> ts).

Section Responses.
Context {SJ : SerdeJson} {SN : SerdeNumber}.

(** server/src/provider/openai_responses.rs:603-608, [required_u64]. *)
Definition required_u64 (value : json) (name : string) : res Z :=
  ok_or (get_member name value ≫= as_u64) (Provider (lit "OpenAI Responses event is missing " ++ lit name)).

(** server/src/provider/openai_responses.rs:610-625, [responses_usage]. *)
Definition responses_usage (value : json) : Usage :=
  let n (name : string) := get_member name value ≫= as_u64 in
  MkUsage (n "input_tokens") (n "input_tokens") (n "output_tokens") (n "total_tokens")
    (pointer ["input_tokens_details"; "cached_tokens"]%string value ≫= as_u64) None
    (pointer ["output_tokens_details"; "reasoning_tokens"]%string value ≫= as_u64).

(** ** The response *)

(** server/src/provider/openai_responses.rs:115-122, the locals of [stream]. *)
Record ResponseStream : Type := MkResponse {
  rp_text_open : bool;
  rp_text : str;
  rp_thinking_open : bool;
  rp_tools : gmap Z ResponseTool;
  rp_items : list json;
  rp_saw_tool : bool;
  rp_saw_completed : bool;
  rp_terminal : bool
}.
Definition new_response : ResponseStream := MkResponse false [] false ∅ [] false false false.
Definition rp_set_text (s : ResponseStream) (open : bool) (t : str) : ResponseStream :=
  MkResponse open t (rp_thinking_open s) (rp_tools s) (rp_items s) (rp_saw_tool s) (rp_saw_completed s) (rp_terminal s).
Definition rp_set_thinking (s : ResponseStream) (open : bool) : ResponseStream :=
  MkResponse (rp_text_open s) (rp_text s) open (rp_tools s) (rp_items s) (rp_saw_tool s) (rp_saw_completed s) (rp_terminal s).
Definition rp_set_tools (s : ResponseStream) (ts : gmap Z ResponseTool) : ResponseStream :=
  MkResponse (rp_text_open s) (rp_text s) (rp_thinking_open s) ts (rp_items s) (rp_saw_tool s) (rp_saw_completed s) (rp_terminal s).
Definition rp_set_items (s : ResponseStream) (items : list json) : ResponseStream :=
  MkResponse (rp_text_open s) (rp_text s) (rp_thinking_open s) (rp_tools s) items (rp_saw_tool s) (rp_saw_completed s) (rp_terminal s).
Definition rp_set_saw_tool (s : ResponseStream) : ResponseStream :=
  MkResponse (rp_text_open s) (rp_text s) (rp_thinking_open s) (rp_tools s) (rp_items s) true (rp_saw_completed s) (rp_terminal s).
Definition rp_set_completed (s : ResponseStream) : ResponseStream :=
  MkResponse (rp_text_open s) (rp_text s) (rp_thinking_open s) (rp_tools s) (rp_items s) (rp_saw_tool s) true (rp_terminal s).
Definition rp_set_terminal (s : ResponseStream) : ResponseStream :=
  MkResponse (rp_text_open s) (rp_text s) (rp_thinking_open s) (rp_tools s) (rp_items s) (rp_saw_tool s) (rp_saw_completed s) true.

(** The kinds of events the adapter looks at. *)
Inductive EventKind : Type :=
  | TextDelta | TextDone | ThinkingDelta | ThinkingDone | ItemAdded | ItemDone
  | ArgumentsDelta | ArgumentsDone | Completed | Incomplete | Unknown.
Definition kind_named (kind : str) : EventKind :=
  if named kind "response.output_text.delta" then TextDelta
  else if named kind "response.output_text.done" then TextDone
  else if named kind "response.reasoning_summary_text.delta" || named kind "response.reasoning_text.delta" then ThinkingDelta
  else if named kind "response.reasoning_summary_text.done" || named kind "response.reasoning_text.done" then ThinkingDone
  else if named kind "response.output_item.added" then ItemAdded
  else if named kind "response.output_item.done" then ItemDone
  else if named kind "response.function_call_arguments.delta" then ArgumentsDelta
  else if named kind "response.function_call_arguments.done" then ArgumentsDone
  else if named kind "response.completed" then Completed
  else if named kind "response.incomplete" then Incomplete
  else Unknown.
Definition response_kind (event : SseEvent) (value : json) : EventKind :=
  kind_named (default (sse_event event) (get_str "type" value)).

(** The text of a part, when it is output text. *)
Definition output_text (part : json) : option str :=
  if bool_decide (get_str "type" part = Some (lit "output_text")) then get_str "text" part else None.
(** server/src/provider/openai_responses.rs:283-292, [response_item_text]. *)
Definition response_item_text (item : json) : option str :=
  content ← get_member "content" item; parts ← as_array content; Some (concat (omap output_text parts)).

(** server/src/provider/openai_responses.rs:294-310, [reconcile_response_text]: a final text that extends what was
    streamed is completed, another is not looked at. *)
Definition reconcile_response_text (s : ResponseStream) (final : str) : list ModelEvent * ResponseStream :=
  if starts_with (rp_text s) final && (str_len (rp_text s) <? str_len final) then
    let suffix := drop_bytes (str_len (rp_text s)) final in
    ((if rp_text_open s then [] else [MTextStart]) ++ [MTextDelta suffix], rp_set_text s true (rp_text s ++ suffix))
  else ([], s).
Definition reconcile (s : ResponseStream) (final : option str) : Yield ResponseStream :=
  match final with
  | Some final => let '(events, s) := reconcile_response_text s final in _ ← yield_all events; mret s
  | None => mret s
  end.

Definition end_thinking (s : ResponseStream) : Yield ResponseStream :=
  _ ← yield_when (rp_thinking_open s) MThinkingEnd; mret (rp_set_thinking s false).
Definition end_text (s : ResponseStream) : Yield ResponseStream :=
  _ ← yield_when (rp_text_open s) MTextEnd; mret (rp_set_text s false (rp_text s)).

(** server/src/provider/openai_responses.rs:137-144, a delta of the text. *)
Definition text_delta (s : ResponseStream) (value : json) : Yield ResponseStream :=
  s ← end_thinking s;
  _ ← yield_when (negb (rp_text_open s)) MTextStart;
  let s := rp_set_text s true (rp_text s) in
  match get_str "delta" value with
  | Some delta => _ ← yield (MTextDelta delta); mret (rp_set_text s true (rp_text s ++ delta))
  | None => mret s
  end.
(** server/src/provider/openai_responses.rs:151-154, a delta of the reasoning. *)
Definition thinking_delta (s : ResponseStream) (value : json) : Yield ResponseStream :=
  _ ← yield_when (negb (rp_thinking_open s)) MThinkingStart;
  _ ← yield_all (match get_str "delta" value with Some delta => [MThinkingDelta delta] | None => [] end);
  mret (rp_set_thinking s true).

(** An update of a call, as its handlers make it. *)
Definition on_tool (s : ResponseStream) (i : Z) (item : json) (a : ToolArguments) (done : bool) : Yield ResponseStream :=
  '(events, ts) ← attempt (update_response_tool i item a done (rp_tools s));
  _ ← yield_all events;
  mret (rp_set_tools s ts).

Definition item_of (value : json) : json := default JNull (get_member "item" value).
Definition item_type (value : json) : str := default [] (get_str "type" (item_of value)).
(** server/src/provider/openai_responses.rs:157-164, an output item is added. *)
Definition item_added (s : ResponseStream) (value : json) : Yield ResponseStream :=
  if named (item_type value) "function_call" then
    i ← attempt (required_u64 value "output_index");
    on_tool (rp_set_saw_tool s) i (item_of value) NoArguments false
  else mret s.
(** server/src/provider/openai_responses.rs:165-191, an output item is done. *)
Definition item_done (s : ResponseStream) (value : json) : Yield ResponseStream :=
  let item := item_of value in
  if named (item_type value) "reasoning" then
    s ← end_thinking s; mret (rp_set_items s (rp_items s ++ [item]))
  else if named (item_type value) "message" then
    s ← reconcile (rp_set_completed s) (response_item_text item);
    end_text s
  else if named (item_type value) "function_call" then
    i ← attempt (required_u64 value "output_index");
    on_tool (rp_set_saw_tool (rp_set_completed s)) i item
      (match get_str "arguments" item with Some arguments => Snapshot arguments | None => NoArguments end) true
  else mret s.
(** server/src/provider/openai_responses.rs:192-198, a delta of the arguments of a call. *)
Definition arguments_delta (s : ResponseStream) (value : json) : Yield ResponseStream :=
  i ← attempt (required_u64 value "output_index");
  match get_str "delta" value with
  | Some delta => on_tool (rp_set_saw_tool s) i JNull (Delta delta) false
  | None => mret s
  end.
(** server/src/provider/openai_responses.rs:199-219, the arguments of a call are done. *)
Definition arguments_done (s : ResponseStream) (value : json) : Yield ResponseStream :=
  i ← attempt (required_u64 value "output_index");
  match get_str "arguments" value with
  | Some [] => on_tool s i JNull NoArguments false
  | Some arguments => on_tool s i JNull (Snapshot arguments) true
  | None => on_tool s i JNull NoArguments true
  end.

(** The calls that are still open end, by index. *)
Definition mark_ended (t : ResponseTool) : ResponseTool :=
  if re_started t then MkResponseTool (re_call_id t) (re_name t) (re_arguments t) (re_emitted t) true true else t.
Definition still_open (p : Z * ResponseTool) : bool := re_started p.2 && negb (re_ended p.2).
Definition end_tools (s : ResponseStream) : Yield ResponseStream :=
  _ ← yield_all ((λ p, MToolCallEnd p.1) <$> List.filter still_open (btree (rp_tools s)));
  mret (rp_set_tools s (mark_ended <$> rp_tools s)).
Definition any_tool (p : ResponseTool → bool) (s : ResponseStream) : bool := existsb (λ t, p t.2) (btree (rp_tools s)).

Definition replay_items (owner : json) (s : ResponseStream) : list ModelEvent :=
  match rp_items s with
  | [] => []
  | items => [MReplayState (MkReplay (lit "openai_responses")
                (object [("items"%string, JArray items); ("owner"%string, owner)]))]
  end.
Definition done_event (s : ResponseStream) : ModelEvent := MDone (if rp_saw_tool s then FinishToolUse else FinishStop).

(** server/src/provider/openai_responses.rs:220-244, the response is completed. *)
Definition completed (owner : json) (s : ResponseStream) (value : json) : Yield ResponseStream :=
  _ ← yield_all (match pointer ["response"; "usage"]%string value with Some u => [MUsage (responses_usage u)] | None => [] end);
  s ← end_thinking s;
  s ← end_text s;
  s ← end_tools s;
  _ ← attempt (if any_tool (λ t, negb (re_started t)) s
               then Err (Provider (lit "OpenAI Responses completed with incomplete tool metadata")) else Ok ());
  let s := rp_set_terminal s in
  _ ← yield_all (replay_items owner s);
  let s := rp_set_items s [] in
  _ ← yield (done_event s);
  mret s.
(** server/src/provider/openai_responses.rs:245-254, the response is incomplete. *)
Definition incomplete (s : ResponseStream) : Yield ResponseStream :=
  s ← end_thinking s;
  s ← end_text s;
  s ← end_tools s;
  _ ← yield (MDone FinishLength);
  mret (rp_set_terminal s).

(** server/src/provider/openai_responses.rs:136-256, one event. *)
Definition response_event (owner : json) (s : ResponseStream) (event : SseEvent) (value : json) : Yield ResponseStream :=
  match response_kind event value with
  | TextDelta => text_delta s value
  | TextDone => s ← reconcile s (get_str "text" value); end_text s
  | ThinkingDelta => thinking_delta s value
  | ThinkingDone => end_thinking s
  | ItemAdded => item_added s value
  | ItemDone => item_done s value
  | ArgumentsDelta => arguments_delta s value
  | ArgumentsDone => arguments_done s value
  | Completed => completed owner s value
  | Incomplete => incomplete s
  | Unknown => mret s
  end.

Definition done_marker (event : SseEvent) : bool := bool_decide (sse_data event = lit "[DONE]").
(** server/src/provider/openai_responses.rs:258-278, the end of the source. *)
Definition response_end (owner : json) (s : ResponseStream) : Yield () :=
  if rp_terminal s then mret ()
  else if rp_saw_completed s then
    _ ← yield_when (rp_thinking_open s) MThinkingEnd;
    _ ← yield_when (rp_text_open s) MTextEnd;
    _ ← attempt (if any_tool (λ t, negb (re_ended t)) s
                 then Err (Provider (lit "OpenAI Responses stream ended with an incomplete tool call")) else Ok ());
    _ ← yield_all (replay_items owner s);
    yield (done_event s)
  else attempt (Err (Provider (lit "OpenAI Responses stream ended without response.completed or response.incomplete"))).

(** server/src/provider/openai_responses.rs:101-280, [stream], from the response on. *)
Definition responses_stream (owner : json) (id : str) (inputs : list sse_input) : Yield () :=
  _ ← yield (MStart id);
  s ← sse_loop LABEL done_marker (λ s, s) (response_event owner) new_response inputs;
  match s with
  | None => mret ()
  | Some s => response_end owner s
  end.
End Responses.

(** ** What a response says *)

Section Said.
Context {SN : SerdeNumber}.

(** The text after more of it: a final text that extends it replaces it. *)
Definition reconciled (said : str) (final : option str) : str :=
  match final with Some final => if starts_with said final then final else said | None => said end.
Definition text_step (said : str) (p : SseEvent * json) : str :=
  match response_kind p.1 p.2 with
  | TextDelta => said ++ default [] (get_str "delta" p.2)
  | TextDone => reconciled said (get_str "text" p.2)
  | ItemDone => if named (item_type p.2) "message" then reconciled said (response_item_text (item_of p.2)) else said
  | _ => said
  end.
Definition said_text (values : list (SseEvent * json)) : str := foldl text_step [] values.
(** What the values tell: the texts of the messages that are done, and that of the one in progress.  The text of a message is what its
    deltas say and its final texts agree with; a final text may say more than the deltas only when there was no text before the
    message. *)
Definition finishes (prev : list str) (cur final : str) : Prop := final = cur ∨ concat prev = [] ∧ cur `prefix_of` final.
Inductive tells : list (SseEvent * json) → list str → str → Prop :=
  | tells_nil : tells [] [] []
  | tells_delta vs prev cur p : tells vs prev cur → response_kind p.1 p.2 = TextDelta → tells (vs ++ [p]) prev (cur ++ default [] (get_str "delta" p.2))
  | tells_part vs prev cur p part : tells vs prev cur → response_kind p.1 p.2 = TextDone → get_str "text" p.2 = Some part → part `suffix_of` cur → tells (vs ++ [p]) prev cur
  | tells_whole_part vs prev cur p part : tells vs prev cur → response_kind p.1 p.2 = TextDone → get_str "text" p.2 = Some part → finishes prev cur part →
      tells (vs ++ [p]) prev part
  | tells_message vs prev cur p final : tells vs prev cur → response_kind p.1 p.2 = ItemDone → item_type p.2 = lit "message" →
      response_item_text (item_of p.2) = Some final → finishes prev cur final → tells (vs ++ [p]) (prev ++ [final]) []
  | tells_other vs prev cur p : tells vs prev cur →
      match response_kind p.1 p.2 with TextDelta => False | TextDone => get_str "text" p.2 = None | ItemDone => item_type p.2 ≠ lit "message" | _ => True end →
      tells (vs ++ [p]) prev cur.

Definition reasoning_piece (p : SseEvent * json) : str :=
  match response_kind p.1 p.2 with ThinkingDelta => default [] (get_str "delta" p.2) | _ => [] end.
Definition said_reasoning (values : list (SseEvent * json)) : str := concat (reasoning_piece <$> values).

(** What a value does to a call: more of its arguments, and whether it is done. *)
Definition call_op (p : SseEvent * json) : option (Z * ToolArguments * bool) :=
  let of_index (op : ToolArguments * bool) :=
    match required_u64 p.2 "output_index" with Ok i => Some (i, op.1, op.2) | Err _ => None end in
  match response_kind p.1 p.2 with
  | ItemAdded => if named (item_type p.2) "function_call" then of_index (NoArguments, false) else None
  | ItemDone =>
      if named (item_type p.2) "function_call" then
        of_index (match get_str "arguments" (item_of p.2) with Some a => Snapshot a | None => NoArguments end, true)
      else None
  | ArgumentsDelta => match get_str "delta" p.2 with Some d => of_index (Delta d, false) | None => None end
  | ArgumentsDone => of_index match get_str "arguments" p.2 with
                              | Some [] => (NoArguments, false)
                              | Some a => (Snapshot a, true)
                              | None => (NoArguments, true)
                              end
  | _ => None
  end.

(** The arguments of each call and whether it ended; [None] when it grew after that. *)
Notation Calls := (gmap Z (str * bool)).
Definition calls_step (calls : Calls) (op : option (Z * ToolArguments * bool)) : option Calls :=
  match op with
  | None => Some calls
  | Some (i, a, done) =>
      let '(args, ended) := default ([], false) (calls !! i) in
      match merge_arguments args a with
      | Err _ => Some calls
      | Ok args' => if ended && negb (bool_decide (args' = args)) then None else Some (<[i := (args', ended || done)]> calls)
      end
  end.
Definition ends (kind : EventKind) : bool := match kind with Completed | Incomplete => true | _ => false end.
Definition known (kind : EventKind) : bool := match kind with Unknown => false | _ => true end.

(** The calls so far, and whether the response ended; nothing the adapter looks at may follow. *)
Definition fits_step (g : Calls * bool) (p : SseEvent * json) : option (Calls * bool) :=
  let kind := response_kind p.1 p.2 in
  if known kind && g.2 then None
  else calls ← calls_step g.1 (call_op p); Some (calls, g.2 || ends kind).
Fixpoint fits_run (g : Calls * bool) (values : list (SseEvent * json)) : option (Calls * bool) :=
  match values with [] => Some g | p :: values => g ← fits_step g p; fits_run g values end.
Definition response_fits (values : list (SseEvent * json)) : Prop := is_Some (fits_run (∅, false) values).
Definition said_calls (values : list (SseEvent * json)) : Calls :=
  match fits_run (∅, false) values with Some g => g.1 | None => ∅ end.
Definition said_arguments (values : list (SseEvent * json)) (i : Z) : str := default [] (fst <$> said_calls values !! i).

Lemma fits_run_snoc g values p : fits_run g (values ++ [p]) = (g ← fits_run g values; fits_step g p).
Proof.
  revert g. induction values as [|q values IH]; intros g; cbn [app fits_run mbind option_bind].
  - by destruct (fits_step g p).
  - destruct (fits_step g q) as [g'|]; [apply IH|done].
Qed.
Lemma fits_prefix a b : a `prefix_of` b → response_fits b → response_fits a.
Proof.
  intros [k ->]. induction k as [|p k IH] using rev_ind; [by rewrite app_nil_r|]. rewrite app_assoc. unfold response_fits.
  rewrite fits_run_snoc. intros [g H]. apply IH. unfold response_fits. by destruct (fits_run _ (a ++ k)).
Qed.
Lemma said_text_snoc values p : said_text (values ++ [p]) = text_step (said_text values) p.
Proof. unfold said_text. by rewrite foldl_app. Qed.
Lemma said_reasoning_snoc values p : said_reasoning (values ++ [p]) = said_reasoning values ++ reasoning_piece p.
Proof. unfold said_reasoning. rewrite fmap_app, concat_app. cbn. by rewrite app_nil_r. Qed.
End Said.

(** ** The stream conforms *)

Section Conforms.
Context {SJ : SerdeJson} {SN : SerdeNumber}.
Implicit Types calls : gmap Z (str * bool).

(** A call of the adapter and the cycle's. *)
Definition tool_rel (m : str) (i : Z) (t : option ResponseTool) (o : option OpenTool) : Prop :=
  match t with
  | None => o = None
  | Some t =>
      if re_started t then
        re_emitted t = str_len (re_arguments t) ∧
        if re_ended t then ended_call m i (re_arguments t) o else open_call m i (re_arguments t) o
      else o = None ∧ re_emitted t = 0 ∧ re_ended t = false
  end.

Record resp_rel (m : str) (used : option Usage) (said why : str) calls (s : ResponseStream) (c : Cycle) : Prop := {
  q_id : c_model_call_id c = Some m;
  q_finish : c_finish c = None;
  q_usage : c_usage c = used;
  q_replay : c_replay c = None;
  q_text_open : c_text_open c = rp_text_open s;
  q_thinking : bool_decide (c_thinking c ≠ None) = rp_thinking_open s;
  q_text : c_text c = said;
  q_said : rp_text s = said;
  q_reasoning : c_reasoning c = why;
  q_tools i : tool_rel m i (rp_tools s !! i) (c_tools c !! i);
  q_calls i : calls !! i = (λ t, (re_arguments t, re_ended t)) <$> rp_tools s !! i;
  q_terminal : rp_terminal s = false
}.

(** *** Text and thinking *)

Lemma end_thinking_sound m used said why calls s c : resp_rel m used said why calls s c →
  sound c (end_thinking s) (λ s' c', resp_rel m used said why calls s' c' ∧ rp_thinking_open s' = false ∧ rp_text_open s' = rp_text_open s).
Proof.
  intros [H1 H2 H3 H4 H5 H6 H7 H8 H9 H10 H11 H12]. unfold end_thinking.
  eapply (sound_bind _ _ _ (λ _ c', ∃ ch, c' = set_client (set_thinking c None) ch)).
  { apply sound_when; intros E; rewrite E in H6.
    - apply bool_decide_eq_true in H6. apply runs_thinking_end; [done..|]. by eexists.
    - apply bool_decide_eq_false, dec_stable in H6. exists (c_client c). destruct c; cbn in *. by rewrite H6. }
  intros _ c1 [ch ->]. apply sound_ret. split; [|done]. by split.
Qed.
Lemma end_text_sound m used said why calls s c : resp_rel m used said why calls s c →
  sound c (end_text s) (λ s' c', resp_rel m used said why calls s' c' ∧ rp_text_open s' = false ∧ rp_thinking_open s' = rp_thinking_open s).
Proof.
  intros [H1 H2 H3 H4 H5 H6 H7 H8 H9 H10 H11 H12]. unfold end_text.
  eapply (sound_bind _ _ _ (λ _ c', ∃ ch, c' = set_client (set_text_open c false) ch)).
  { apply sound_when; intros E; rewrite E in H5.
    - apply runs_text_end; [done..|]. intros ch. by eexists.
    - exists (c_client c). destruct c; cbn in *. by rewrite H5. }
  intros _ c1 [ch ->]. apply sound_ret. split; [|done]. by split.
Qed.
(** The text is open, and [d] follows. *)
Lemma say_sound m used said why calls s c d : resp_rel m used said why calls s c →
  runs c ((if rp_text_open s then [] else [MTextStart]) ++ [MTextDelta d])
    (λ c', resp_rel m used (said ++ d) why calls (rp_set_text s true (said ++ d)) c').
Proof.
  intros [H1 H2 H3 H4 H5 H6 H7 H8 H9 H10 H11 H12]. apply runs_app.
  assert (runs c (if rp_text_open s then [] else [MTextStart]) (λ c', ∃ ch, c' = set_client (set_text_open c true) ch)) as Ho.
  { destruct (rp_text_open s).
    - exists (c_client c). destruct c; cbn in *. by rewrite H5.
    - eapply runs_text_start; [done..|]. intros ch. by eexists. }
  eapply runs_weaken; [exact Ho|]. intros c1 [ch ->]. apply runs_text_delta; [done..|]. intros ch'. split; try done. by rewrite <- H7.
Qed.
Lemma reconcile_sound m used said why calls s c final : resp_rel m used said why calls s c →
  sound c (reconcile s final) (λ s' c', resp_rel m used (reconciled said final) why calls s' c').
Proof.
  intros R. destruct final as [final|]; cbn [reconcile reconciled]; [|by apply sound_ret].
  pose proof (q_said _ _ _ _ _ _ _ R) as Hs. unfold reconcile_response_text. rewrite Hs.
  destruct (starts_with said final) eqn:E; cbn [andb]; [|by apply sound_ret].
  apply starts_with_spec in E as (rest & ->). rewrite drop_bytes_app, str_len_app.
  destruct (Z.ltb_spec (str_len said) (str_len said + str_len rest)) as [Hlt|Hge].
  - eapply (sound_bind _ _ _ (λ _ c', resp_rel m used (said ++ rest) why calls (rp_set_text s true (said ++ rest)) c'));
      [apply sound_all; by apply say_sound|]. intros u c1 R1. by apply sound_ret.
  - assert (rest = []) as ->.
    { destruct rest as [|x rest]; [done|]. rewrite str_len_cons in Hge. pose proof (len_utf8_bound x).
      pose proof (str_len_bound rest). unfold zlen in *. lia. }
    rewrite app_nil_r. by apply sound_ret.
Qed.
Lemma text_delta_sound m used said why calls s c v : resp_rel m used said why calls s c →
  sound c (text_delta s v) (λ s' c', resp_rel m used (said ++ default [] (get_str "delta" v)) why calls s' c').
Proof.
  intros R. unfold text_delta. eapply sound_bind; [by eapply end_thinking_sound|]. intros s1 c1 (R1 & _).
  pose proof R1 as [H1 H2 H3 H4 H5 H6 H7 H8 H9 H10 H11 H12].
  eapply (sound_bind _ _ _ (λ _ c', resp_rel m used said why calls (rp_set_text s1 true (rp_text s1)) c')).
  { apply sound_when; intros E; [apply negb_true_iff in E|apply negb_false_iff in E]; rewrite E in H5.
    - eapply runs_text_start; [done..|]. intros ch. by split.
    - split; try done. }
  intros u c2 R2. destruct (get_str "delta" v) as [d|]; cbn [default from_option]; [|rewrite app_nil_r; by apply sound_ret].
  pose proof (say_sound _ _ _ _ _ _ _ d R2) as Hs. cbn [rp_set_text rp_text_open] in Hs. cbn [app] in Hs.
  eapply (sound_bind _ _ _ (λ _ c', resp_rel m used (said ++ d) why calls (rp_set_text s1 true (said ++ d)) c')); [by apply sound_yield|].
  intros u' c3 R3. apply sound_ret. cbn [rp_text rp_set_text]. rewrite H8. exact R3.
Qed.
Lemma thinking_delta_sound m used said why calls s c v : resp_rel m used said why calls s c →
  sound c (thinking_delta s v) (λ s' c', resp_rel m used said (why ++ default [] (get_str "delta" v)) calls s' c').
Proof.
  intros [H1 H2 H3 H4 H5 H6 H7 H8 H9 H10 H11 H12]. unfold thinking_delta.
  eapply (sound_bind _ _ _ (λ _ c', c_thinking c' ≠ None ∧ resp_rel m used said why calls (rp_set_thinking s true) c')).
  { apply sound_when; intros E; [apply negb_true_iff in E|apply negb_false_iff in E]; rewrite E in H6.
    - apply bool_decide_eq_false, dec_stable in H6. eapply runs_thinking_start; [done..|]. intros now ch. split; [done|]. by split.
    - split; [by apply bool_decide_eq_true in H6|]. split; try done. }
  intros _ c1 (Ht & R1).
  eapply (sound_bind _ _ _ (λ _ c', resp_rel m used said (why ++ default [] (get_str "delta" v)) calls (rp_set_thinking s true) c')).
  { apply sound_all. destruct R1 as [K1 K2 K3 K4 K5 K6 K7 K8 K9 K10 K11 K12].
    destruct (get_str "delta" v) as [d|]; cbn [default from_option]; [|rewrite app_nil_r; apply runs_nil; by split].
    apply runs_thinking_delta; [done..|]. intros ch. split; try done. cbn. by rewrite K9. }
  intros u c2 R2. by apply sound_ret.
Qed.

(** *** Calls *)

(** A call that has not ended, whose last arguments may be still to be emitted. *)
Definition pending_rel (m : str) (i : Z) (t : ResponseTool) (o : option OpenTool) : Prop :=
  re_ended t = false ∧
  if re_started t then ∃ args, args `prefix_of` re_arguments t ∧ re_emitted t = str_len args ∧ open_call m i args o
  else o = None ∧ re_emitted t = 0.

Lemma response_start_runs m i t t' events c : c_model_call_id c = Some m → c_finish c = None → pending_rel m i t (c_tools c !! i) →
  start_response_tool i t = (events, t') →
  runs c events (λ c', only_tools [i] c c' ∧ pending_rel m i t' (c_tools c' !! i) ∧ re_arguments t' = re_arguments t).
Proof.
  intros Hm Hf H. unfold start_response_tool.
  destruct (re_started t) eqn:Es; [intros [= <- <-]; apply runs_nil; by split_and!; [reflexivity|..]|].
  destruct (re_call_id t) as [id|], (re_name t) as [nm|]; intros [= <- <-]; try (apply runs_nil; by split_and!; [reflexivity|..]).
  unfold pending_rel in H. rewrite Es in H. destruct H as (He & Ho & Hz).
  eapply runs_weaken; [by eapply (runs_open m)|]. intros c' [K Hc]. split; [done|split; [|done]]. split; [done|]. cbn.
  exists []. split; [apply prefix_nil|done].
Qed.
Lemma response_emit_runs m i t t' events c : c_finish c = None → pending_rel m i t (c_tools c !! i) →
  emit_response_arguments i t = (events, t') →
  runs c events (λ c', only_tools [i] c c' ∧ tool_rel m i (Some t') (c_tools c' !! i) ∧ re_arguments t' = re_arguments t ∧ re_ended t' = false).
Proof.
  intros Hf (He & H). unfold emit_response_arguments, tool_rel in *. destruct (re_started t) eqn:Es; cbn [andb].
  2: { intros [= <- <-]. apply runs_nil. rewrite Es. destruct H. by split; [reflexivity|]. }
  destruct H as (args & [rest Ha] & Hl & Ho). rewrite Hl, Ha, str_len_app.
  destruct (Z.ltb_spec (str_len args) (str_len args + str_len rest)) as [Hlt|Hge]; intros [= <- <-].
  - rewrite drop_bytes_app. eapply runs_weaken; [by eapply runs_more|]. intros c' [K Hc]. split; [done|split; [|done]].
    cbn. rewrite He. split; [by rewrite str_len_app|done].
  - apply runs_nil. rewrite Es, He. assert (rest = []) as ->.
    { destruct rest as [|x rest]; [done|]. rewrite str_len_cons in Hge. pose proof (len_utf8_bound x).
      pose proof (str_len_bound rest). unfold zlen in *. lia. }
    rewrite app_nil_r in Ha. split; [reflexivity|]. split; [split; [congruence|by rewrite Ha]|]. by rewrite app_nil_r.
Qed.
Lemma end_runs m i t t' done events c : c_finish c = None → tool_rel m i (Some t) (c_tools c !! i) → re_ended t = false →
  end_response_tool i done t = Ok (events, t') →
  runs c events (λ c', only_tools [i] c c' ∧ tool_rel m i (Some t') (c_tools c' !! i) ∧ re_arguments t' = re_arguments t ∧ re_ended t' = done).
Proof.
  intros Hf H He. unfold end_response_tool. rewrite He. cbn [negb]. rewrite andb_true_r.
  destruct done; [|intros [= <- <-]; apply runs_nil; by split; [reflexivity|]].
  destruct (re_started t) eqn:Es; intros [= <- <-]. unfold tool_rel in *. rewrite Es, He in H. destruct H as [Hl Ho].
  eapply runs_weaken; [by eapply runs_close|]. intros c' [K Hc]. by split_and!.
Qed.

(** A tool that was replaced, in the adapter and in the cycle. *)
Lemma resp_rel_tool m used said why calls s c c' i t : resp_rel m used said why calls s c → only_tools [i] c c' →
  tool_rel m i (Some t) (c_tools c' !! i) →
  resp_rel m used said why (<[i := (re_arguments t, re_ended t)]> calls) (rp_set_tools s (<[i := t]> (rp_tools s))) c'.
Proof.
  intros [H1 H2 H3 H4 H5 H6 H7 H8 H9 H10 H11 H12] [O1 O2 O3 O4 O5 O6 O7 O8 O9] Ht. split; cbn; try congruence; try done.
  - by rewrite O4.
  - intros j. destruct (decide (j = i)) as [->|Hne]; [by rewrite lookup_insert_eq|].
    rewrite lookup_insert_ne by congruence. rewrite O9 by set_solver. apply H10.
  - intros j. destruct (decide (j = i)) as [->|Hne]; [by rewrite !lookup_insert_eq|]. rewrite !lookup_insert_ne by congruence. apply H11.
Qed.

Lemma merge_grows args a args' : merge_arguments args a = Ok args' → args `prefix_of` args'.
Proof.
  destruct a as [|d|sn]; cbn; [by intros [= <-]|intros [= <-]; by apply prefix_app_r|].
  case_bool_decide; [by intros [= <-]|]. destruct (starts_with args sn); [|done]. intros [= <-]. by apply prefix_app_r.
Qed.
Lemma on_tool_sound m used said why calls calls' s c i item a done : resp_rel m used said why calls s c →
  calls_step calls (Some (i, a, done)) = Some calls' →
  sound c (on_tool s i item a done) (resp_rel m used said why calls').
Proof.
  intros R Hg. unfold on_tool.
  destruct (update_response_tool i item a done (rp_tools s)) as [[events ts]|e] eqn:Eu; [|apply sound_err].
  unfold update_response_tool in Eu. set (t0 := default new_response_tool _) in Eu.
  pose proof R as [H1 H2 H3 H4 H5 H6 H7 H8 H9 H10 H11 H12].
  assert (default ([], false) (calls !! i) = (re_arguments t0, re_ended t0)) as Ed.
  { rewrite H11. unfold t0. by destruct (rp_tools s !! i). }
  cbn [calls_step] in Hg. rewrite Ed in Hg. cbn [mbind result_bind] in Eu.
  destruct (merge_arguments (re_arguments t0) a) as [args|] eqn:Em; [|done].
  cbn [mbind result_bind] in Eu. set (t1 := MkResponseTool _ _ args _ _ _) in Eu.
  assert (tool_rel m i (Some t0) (c_tools c !! i)) as Hrel.
  { specialize (H10 i). unfold t0. destruct (rp_tools s !! i); [exact H10|by split_and!]. }
  destruct (re_ended t0) eqn:Ee.
  - cbn [andb negb] in Hg. destruct (bool_decide_reflect (args = re_arguments t0)) as [Ha|Ha]; cbn [negb] in Hg; [|discriminate Hg]. injection Hg as <-. cbn [orb].
    assert (re_started t0 = true) as Es.
    { unfold tool_rel in Hrel. destruct (re_started t0); [done|]. destruct Hrel as (_ & _ & ?). congruence. }
    unfold tool_rel in Hrel. rewrite Es, Ee in Hrel. destruct Hrel as [Hl Hend].
    assert (events = [] ∧ ts = <[i := t1]> (rp_tools s)) as [-> ->].
    { assert (start_response_tool i t1 = ([], t1)) as E1 by (unfold start_response_tool, t1; cbn; by rewrite Es).
      assert (emit_response_arguments i t1 = ([], t1)) as E2.
      { unfold emit_response_arguments, t1. cbn. by rewrite Es, Hl, Ha, Z.ltb_irrefl. }
      assert (end_response_tool i done t1 = Ok ([], t1)) as E3.
      { unfold end_response_tool, t1. cbn. by rewrite ?Ee, andb_false_r. }
      rewrite E1, E2, E3 in Eu. by injection Eu as <- <-. }
    eapply sound_bind; [apply (sound_attempt _ _ (λ x c', x = ([], <[i := t1]> (rp_tools s)) ∧ c' = c)); by intros x [= <-]|].
    intros x c1 [-> ->]. eapply (sound_bind _ _ _ (λ _ c', c' = c)); [done|]. intros u c1 ->. apply sound_ret.
    replace (args, true) with (re_arguments t1, re_ended t1) by (unfold t1; cbn; by rewrite ?Ee).
    eapply resp_rel_tool; [exact R|reflexivity|]. unfold tool_rel, t1. cbn. rewrite Es, ?Ee, Ha. by split.
  - cbn [andb orb] in Hg. injection Hg as <-.
    destruct (start_response_tool i t1) as [start t2] eqn:E1. destruct (emit_response_arguments i t2) as [delta t3] eqn:E2.
    destruct (end_response_tool i done t3) as [[stop t4]|] eqn:E3; [|done]. injection Eu as <- <-.
    eapply sound_bind; [apply (sound_attempt _ _ (λ x c', x = (start ++ delta ++ stop, <[i := t4]> (rp_tools s)) ∧ c' = c)); by intros x [= <-]|].
    intros x c1 [-> ->].
    assert (pending_rel m i t1 (c_tools c !! i)) as Hp.
    { split; [done|]. unfold tool_rel in Hrel. unfold t1. cbn. destruct (re_started t0); [|by destruct Hrel as (? & ? & _)].
      rewrite Ee in Hrel. destruct Hrel as [Hl Ho]. exists (re_arguments t0). split; [|done]. by eapply merge_grows. }
    eapply (sound_bind _ _ _ (λ _ c', resp_rel m used said why (<[i := (args, done)]> calls) (rp_set_tools s (<[i := t4]> (rp_tools s))) c'));
      [|intros u c1 R1; by apply sound_ret].
    apply sound_all, runs_app. eapply runs_weaken; [by eapply (response_start_runs m)|]. intros c1 (K1 & P1 & A1).
    apply runs_app. eapply runs_weaken; [eapply (response_emit_runs m); [by rewrite (ot_finish _ _ _ K1)|exact P1|exact E2]|].
    intros c2 (K2 & P2 & A2 & N2).
    eapply runs_weaken; [eapply (end_runs m); [by rewrite (ot_finish _ _ _ K2), (ot_finish _ _ _ K1)|exact P2|exact N2|exact E3]|].
    intros c3 (K3 & P3 & A3 & N3). rewrite <- N3. replace args with (re_arguments t4) by (rewrite A3, A2, A1; done).
    eapply resp_rel_tool; [exact R| |exact P3]. by do 2 (etransitivity; [|eassumption]).
Qed.

(** *** The end of a response *)

Lemma ends_sound m (l : list (Z * ResponseTool)) : ∀ c, NoDup l.*1 → c_finish c = None →
  (∀ i t, (i, t) ∈ l → open_call m i (re_arguments t) (c_tools c !! i)) →
  runs c ((λ p, MToolCallEnd p.1) <$> l)
    (λ c', only_tools l.*1 c c' ∧ ∀ i t, (i, t) ∈ l → ended_call m i (re_arguments t) (c_tools c' !! i)).
Proof.
  induction l as [|[i t] l IH]; intros c Hn Hf H; rewrite ?fmap_cons.
  - apply runs_nil. split; [reflexivity|]. intros i t Hi. by apply not_elem_of_nil in Hi.
  - apply NoDup_cons in Hn as [Hi Hn]. apply (runs_app _ [_]).
    eapply runs_weaken; [eapply runs_close; [done|apply H; by left]|]. intros c1 [K1 H1]. cbn [fst] in K1, H1.
    eapply runs_weaken; [apply IH; [done|by rewrite (ot_finish _ _ _ K1)|]|].
    + intros j u Hj. rewrite (ot_others _ _ _ K1); [apply H; by right|].
      rewrite list_elem_of_singleton. intros ->. apply Hi. by apply (list_elem_of_fmap_2 fst) in Hj.
    + intros c2 [K2 H2]. cbn [fst] in *. split.
      * transitivity c1; (eapply only_tools_weaken; [done|set_solver]).
      * intros j u [[= -> ->]|Hj]%elem_of_cons; [by rewrite (ot_others _ _ _ K2)|by apply H2].
Qed.
Lemma NoDup_filter_fst {A} (p : Z * A → bool) (l : list (Z * A)) : NoDup l.*1 → NoDup (List.filter p l).*1.
Proof.
  induction l as [|x l IH]; [done|]. rewrite fmap_cons, NoDup_cons. intros [Hx Hn]. cbn [List.filter].
  destruct (p x); [|by apply IH]. rewrite fmap_cons, NoDup_cons. split; [|by apply IH].
  intros Hin. apply Hx. apply list_elem_of_fmap in Hin as (y & E & Hy). apply list_elem_of_In, filter_In in Hy as [Hy _].
  apply list_elem_of_fmap. exists y. split; [done|]. by apply list_elem_of_In.
Qed.
Lemma elem_of_still_open s i t : (i, t) ∈ List.filter still_open (btree (rp_tools s)) ↔
  rp_tools s !! i = Some t ∧ re_started t = true ∧ re_ended t = false.
Proof.
  rewrite list_elem_of_In, filter_In, <- list_elem_of_In, elem_of_btree. unfold still_open. cbn.
  rewrite andb_true_iff, negb_true_iff. naive_solver.
Qed.

(** Everything the cycle has open is closed. *)
Record resp_closed (m said why : str) (s : ResponseStream) (c : Cycle) : Prop := {
  z_id : c_model_call_id c = Some m;
  z_finish : c_finish c = None;
  z_replay : c_replay c = None;
  z_text_open : c_text_open c = false;
  z_thinking : c_thinking c = None;
  z_text : c_text c = said;
  z_reasoning : c_reasoning c = why;
  z_tools i : match rp_tools s !! i with
              | Some t => if re_started t then ended_call m i (re_arguments t) (c_tools c !! i) else c_tools c !! i = None
              | None => c_tools c !! i = None
              end
}.
Lemma closed_done m said why s c reason (P : Cycle → Prop) : resp_closed m said why s c → P (set_finish c reason) → runs c [MDone reason] P.
Proof.
  intros [H1 H2 H3 H4 H5 H6 H7 H8] HP. eapply runs_done; [done..| |done]. apply blocks_closed; [done..|].
  intros i t Hi. specialize (H8 i). rewrite Hi in H8. destruct (rp_tools s !! i) as [t0|]; [|done].
  destruct (re_started t0); [|done]. destruct H8 as (id & nm & Hx). by injection Hx as ->.
Qed.

(** The calls that were known, in the adapter after it ended them. *)
Definition same_calls calls (s : ResponseStream) : Prop :=
  ∀ i, fst <$> calls !! i = re_arguments <$> rp_tools s !! i.
Lemma end_all_sound m used said why calls s c : resp_rel m used said why calls s c →
  sound c (s ← end_thinking s; s ← end_text s; end_tools s) (λ s' c', resp_closed m said why s' c' ∧ same_calls calls s').
Proof.
  intros R. eapply sound_bind; [by eapply end_thinking_sound|]. intros s1 c1 (R1 & T1 & _).
  eapply sound_bind; [by eapply end_text_sound|]. intros s2 c2 (R2 & T2 & T3). rewrite T1 in T3. clear R R1 T1 s c s1 c1.
  destruct R2 as [H1 H2 H3 H4 H5 H6 H7 H8 H9 H10 H11 H12]. rewrite T2 in H5. rewrite T3 in H6.
  apply bool_decide_eq_false, dec_stable in H6. unfold end_tools.
  set (l := List.filter still_open (btree (rp_tools s2))).
  eapply (sound_bind _ _ _ (λ _ c', only_tools l.*1 c2 c' ∧ ∀ i t, (i, t) ∈ l → ended_call m i (re_arguments t) (c_tools c' !! i))).
  { apply sound_all, ends_sound; [apply NoDup_filter_fst, NoDup_btree|done|].
    intros i t (Hi & Hs & He)%elem_of_still_open. specialize (H10 i). rewrite Hi in H10. unfold tool_rel in H10. rewrite Hs, He in H10. apply H10. }
  intros u c3 [[O1 O2 O3 O4 O5 O6 O7 O8 O9] He]. apply sound_ret. split.
  - split; try congruence. intros i. cbn. rewrite lookup_fmap. specialize (H10 i).
    destruct (rp_tools s2 !! i) as [t|] eqn:Ei; cbn.
    + assert (re_started (mark_ended t) = re_started t ∧ re_arguments (mark_ended t) = re_arguments t) as [-> ->].
      { unfold mark_ended. destruct (re_started t) eqn:E; by rewrite ?E. }
      unfold tool_rel in H10. destruct (re_started t) eqn:Es; [destruct (re_ended t) eqn:Ee|].
      * rewrite O9; [apply H10|]. intros ([j t'] & E & Hj)%list_elem_of_fmap. cbn in E. subst j.
        apply elem_of_still_open in Hj as (Hj & _ & Hx). congruence.
      * apply He, elem_of_still_open. by split_and!.
      * rewrite O9; [apply H10|]. intros ([j t'] & E & Hj)%list_elem_of_fmap. cbn in E. subst j.
        apply elem_of_still_open in Hj as (Hj & Hx & _). congruence.
    + rewrite O9; [exact H10|]. intros ([j t'] & E & Hj)%list_elem_of_fmap. cbn in E. subst j.
      apply elem_of_still_open in Hj as (Hj & _). congruence.
  - intros i. cbn. rewrite lookup_fmap, H11. destruct (rp_tools s2 !! i) as [t|]; [|done]. cbn. f_equal.
    unfold mark_ended. by destruct (re_started t).
Qed.

(** The calls are those of the response, once each of them started. *)
Lemma closed_sent m said why calls s c f : resp_closed m said why s c → same_calls calls s →
  any_tool (λ t, negb (re_started t)) s = false →
  all_sent m said why (λ i, is_Some (calls !! i)) (λ i, default [] (fst <$> calls !! i)) (set_finish c f).
Proof.
  intros [H1 H2 H3 H4 H5 H6 H7 H8] Hc Ha.
  assert (∀ i t, rp_tools s !! i = Some t → re_started t = true) as Hs.
  { intros i t Hi. apply not_false_iff_true. intros E. enough (true = false) by done. rewrite <- Ha. symmetry.
    apply existsb_exists. exists (i, t). split; [by apply list_elem_of_In, elem_of_btree|]. cbn. by rewrite E. }
  split; cbn; try done; try (by eexists).
  - intros i. specialize (Hc i). specialize (H8 i). destruct (rp_tools s !! i) as [t|] eqn:Ei.
    + rewrite (Hs _ _ Ei) in H8. destruct H8 as (id & nm & ->). destruct (calls !! i); [|done]. split; intros _; by eexists.
    + rewrite H8. destruct (calls !! i); [done|]. by split; intros [].
  - intros i [x Hi]. specialize (Hc i). specialize (H8 i). rewrite Hi in Hc |- *. destruct (rp_tools s !! i) as [t|] eqn:Ei; [|done].
    rewrite (Hs _ _ Ei) in H8. cbn in Hc |- *. injection Hc as ->. exact H8.
Qed.

Lemma yield_assoc {A B C} (x : Yield A) (k : A → Yield B) (h : B → Yield C) : ((x ≫= k) ≫= h) = (x ≫= λ a, k a ≫= h).
Proof.
  unfold mbind, yield_bind. destruct x as [ev [a|e]]; [|done]. destruct (k a) as [ev' [b|e]]; [|done].
  destruct (h b). by rewrite app_assoc.
Qed.
Lemma yield_ext {A B} (x : Yield A) (k h : A → Yield B) : (∀ a, k a = h a) → (x ≫= k) = (x ≫= h).
Proof. intros H. unfold mbind, yield_bind. destruct x as [ev [a|e]]; [|done]. by rewrite H. Qed.
Lemma end_all_then {A} m used said why calls s c (k : ResponseStream → Yield A) Q : resp_rel m used said why calls s c →
  (∀ s' c', resp_closed m said why s' c' → same_calls calls s' → sound c' (k s') Q) →
  sound c (s ← end_thinking s; s ← end_text s; s ← end_tools s; k s) Q.
Proof.
  intros R Hk. replace (s ← end_thinking s; s ← end_text s; s ← end_tools s; k s)
    with ((s ← end_thinking s; s ← end_text s; end_tools s) ≫= k) by (rewrite yield_assoc; apply yield_ext; intros s1; by rewrite yield_assoc).
  eapply sound_bind; [by eapply end_all_sound|]. intros s' c' [H1 H2]. by apply Hk.
Qed.

Lemma replay_sound m said why owner s s' c : resp_closed m said why s' c →
  sound c (yield_all (replay_items owner s)) (λ _ c', ∃ r, c' = match r with Some r => set_replay c r | None => c end).
Proof.
  intros [H1 H2 H3 H4 H5 H6 H7 H8]. apply sound_all. unfold replay_items. destruct (rp_items s); [by exists None|].
  apply runs_replay; [done..|]. by eexists (Some _).
Qed.
(** The response is done, with all its calls. *)
Lemma response_done m said why calls owner s c : resp_closed m said why s c → same_calls calls s →
  any_tool (λ t, negb (re_started t)) s = false → ∀ items (e : bool),
  sound c (_ ← yield_all (replay_items owner (rp_set_items s items)); yield (MDone (if e then FinishToolUse else FinishStop)))
    (λ _ c', all_sent m said why (λ i, is_Some (calls !! i)) (λ i, default [] (fst <$> calls !! i)) c').
Proof.
  intros R Hc Ha items e. eapply sound_bind; [by eapply replay_sound|]. intros _ c1 [r ->].
  pose proof (λ f, closed_sent _ _ _ _ _ _ f R Hc Ha) as Hs. destruct R as [H1 H2 H3 H4 H5 H6 H7 H8].
  apply sound_yield. eapply runs_done; [by destruct r|by destruct r| |].
  - apply blocks_closed; [by destruct r..|]. intros i t Hi.
    replace (c_tools (match r with Some r => set_replay c r | None => c end)) with (c_tools c) in Hi by (by destruct r).
    specialize (H8 i). rewrite Hi in H8. destruct (rp_tools s !! i) as [t0|]; [|done].
    destruct (re_started t0); [|done]. destruct H8 as (id & nm & Hx). by injection Hx as ->.
  - destruct (Hs (if e then FinishToolUse else FinishStop)) as [S1 S2 S3 S4 S5 S6]. by destruct r; split.
Qed.

Lemma usage_sound m said why calls s c v : resp_rel m None said why calls s c →
  sound c (yield_all (match pointer ["response"; "usage"]%string v with Some u => [MUsage (responses_usage u)] | None => [] end))
    (λ _ c', ∃ used, resp_rel m used said why calls s c').
Proof.
  intros R. apply sound_all. destruct (pointer _ v) as [u|]; [|by exists None]. pose proof R as [H1 H2 H3 H4 H5 H6 H7 H8 H9 H10 H11 H12].
  apply runs_usage; [done..|]. intros ch. exists (Some (responses_usage u)). by split.
Qed.
Lemma completed_sound m said why calls owner s c v : resp_rel m None said why calls s c →
  sound c (completed owner s v) (λ s' c', rp_terminal s' = true ∧
    all_sent m said why (λ i, is_Some (calls !! i)) (λ i, default [] (fst <$> calls !! i)) c').
Proof.
  intros R. unfold completed. eapply sound_bind; [by apply usage_sound|]. intros _ c1 [used R1].
  eapply end_all_then; [exact R1|]. intros s2 c2 Hz Hc.
  eapply sound_bind; [apply (sound_attempt _ _ (λ _ c', c' = c2 ∧ any_tool (λ t, negb (re_started t)) s2 = false)); by destruct (any_tool _ s2)|].
  intros _ c3 [-> Ha]. pose proof (response_done m said why calls owner s2 c2 Hz Hc Ha (rp_items s2) (rp_saw_tool s2)) as Hd.
  rewrite <- yield_assoc. eapply sound_bind.
  - exact Hd.
  - intros u c4 Hs. apply sound_ret. by split.
Qed.
Lemma incomplete_sound m used said why calls s c : resp_rel m used said why calls s c →
  sound c (incomplete s) (λ s' c', rp_terminal s' = true ∧ c_finish c' = Some FinishLength).
Proof.
  intros R. unfold incomplete. eapply end_all_then; [exact R|]. intros s2 c2 Hz Hc.
  eapply (sound_bind _ _ _ (λ _ c', c_finish c' = Some FinishLength)); [|intros u c3 Hf; by apply sound_ret].
  apply sound_yield. by eapply closed_done.
Qed.

(** The state after the values [vs]. *)
Definition sent_response m vs calls : Cycle → Prop :=
  all_sent m (said_text vs) (said_reasoning vs) (λ i, is_Some (calls !! i)) (λ i, default [] (fst <$> calls !! i)).
Definition resp_inv m vs (s : ResponseStream) (c : Cycle) : Prop :=
  ∃ g, fits_run (∅, false) vs = Some g ∧
    if g.2 then rp_terminal s = true ∧ (sent_response m vs g.1 c ∨ c_finish c = Some FinishLength)
    else resp_rel m None (said_text vs) (said_reasoning vs) g.1 s c.

Lemma unknown_quiet vs ev v : response_kind ev v = Unknown →
  said_text (vs ++ [(ev, v)]) = said_text vs ∧ said_reasoning (vs ++ [(ev, v)]) = said_reasoning vs ∧ call_op (ev, v) = None.
Proof.
  intros E. rewrite said_text_snoc, said_reasoning_snoc. unfold text_step, reasoning_piece, call_op. cbn [fst snd]. rewrite E.
  by rewrite app_nil_r.
Qed.
(** The values that belong to a call. *)
Lemma call_event m said why calls calls' s c ev v owner : resp_rel m None said why calls s c →
  response_kind ev v = ItemAdded ∨ (response_kind ev v = ItemDone ∧ named (item_type v) "reasoning" = false ∧ named (item_type v) "message" = false) ∨
  response_kind ev v = ArgumentsDelta ∨ response_kind ev v = ArgumentsDone →
  calls_step calls (call_op (ev, v)) = Some calls' → sound c (response_event owner s ev v) (resp_rel m None said why calls').
Proof.
  intros R Hk Hg. unfold response_event. unfold call_op in Hg. cbn [fst snd] in Hg.
  assert (∀ i item a done s', (s' = s ∨ s' = rp_set_saw_tool s ∨ s' = rp_set_saw_tool (rp_set_completed s)) →
    calls_step calls (Some (i, a, done)) = Some calls' → sound c (on_tool s' i item a done) (resp_rel m None said why calls')) as Ht.
  { intros i item a done s' Hs. eapply on_tool_sound. destruct R. by destruct Hs as [-> | [-> | ->]]; split. }
  assert (∀ (k : Z → Yield ResponseStream), (∀ i, required_u64 v "output_index" = Ok i → sound c (k i) (resp_rel m None said why calls')) →
    sound c (i ← attempt (required_u64 v "output_index"); k i) (resp_rel m None said why calls')) as Hi.
  { intros k H. eapply sound_bind; [apply (sound_attempt _ _ (λ i c', required_u64 v "output_index" = Ok i ∧ c' = c)); by intros i ->|].
    intros i c1 [Hx ->]. by apply H. }
  destruct Hk as [Hk|[(Hk & E1 & E2)|[Hk|Hk]]]; rewrite Hk in Hg |- *.
  - unfold item_added. destruct (named (item_type v) "function_call"); [|injection Hg as <-; by apply sound_ret].
    apply Hi. intros i Hx. rewrite Hx in Hg. apply Ht; [by right; left|exact Hg].
  - unfold item_done. rewrite E1, E2. destruct (named (item_type v) "function_call"); [|injection Hg as <-; by apply sound_ret].
    apply Hi. intros i Hx. rewrite Hx in Hg. apply Ht; [by right; right|exact Hg].
  - unfold arguments_delta. apply Hi. intros i Hx. rewrite Hx in Hg.
    destruct (get_str "delta" v); [|injection Hg as <-; by apply sound_ret]. apply Ht; [by right; left|exact Hg].
  - unfold arguments_done. apply Hi. intros i Hx. rewrite Hx in Hg.
    destruct (get_str "arguments" v) as [[|x a]|]; (apply Ht; [by left|exact Hg]).
Qed.

Lemma response_event_sound m owner vs s c ev v : response_fits (vs ++ [(ev, v)]) → resp_inv m vs s c →
  sound c (response_event owner s ev v) (resp_inv m (vs ++ [(ev, v)])).
Proof.
  intros [g' Hg'] (g & Hr & H). pose proof Hg' as Hg. rewrite fits_run_snoc, Hr in Hg. cbn [mbind option_bind] in Hg.
  destruct g as [calls over]. unfold fits_step in Hg. cbn [fst snd] in *.
  destruct (known (response_kind ev v)) eqn:Ek.
  2: { assert (response_kind ev v = Unknown) as Eu by (by destruct (response_kind ev v)).
    destruct (unknown_quiet vs ev v Eu) as (U1 & U2 & U3). rewrite U3, Eu in Hg. cbn in Hg. rewrite orb_false_r in Hg. injection Hg as <-.
    unfold response_event. rewrite Eu. apply sound_ret. exists (calls, over). split; [done|]. unfold sent_response. cbn [fst snd]. by rewrite U1, U2. }
  destruct over; [done|]. cbn [andb orb] in Hg. destruct (calls_step calls _) as [calls'|] eqn:Ec; [|done]. injection Hg as <-.
  assert (∀ s' c', ends (response_kind ev v) = false →
    resp_rel m None (said_text (vs ++ [(ev, v)])) (said_reasoning (vs ++ [(ev, v)])) calls' s' c' → resp_inv m (vs ++ [(ev, v)]) s' c') as Hopen.
  { intros s' c' E R. eexists. split; [exact Hg'|]. cbn [fst snd]. by rewrite E. }
  rewrite said_text_snoc, said_reasoning_snoc in Hopen. unfold text_step, reasoning_piece in Hopen. cbn [fst snd] in Hopen.
  pose proof Ec as Ec'. unfold call_op in Ec'. cbn [fst snd] in Ec'.
  unfold response_event. destruct (response_kind ev v) eqn:Er; cbn [known] in Ek; try done; cbn [ends] in Hopen;
    try (rewrite app_nil_r in Hopen); try (injection Ec' as <-).
  - eapply sound_weaken; [by apply text_delta_sound|]. intros s' c' R. by apply Hopen.
  - eapply sound_bind; [by apply reconcile_sound|]. intros s1 c1 R1. eapply sound_weaken; [by eapply end_text_sound|].
    intros s2 c2 (R2 & _). by apply Hopen.
  - eapply sound_weaken; [by apply thinking_delta_sound|]. intros s' c' R. by apply Hopen.
  - eapply sound_weaken; [by eapply end_thinking_sound|]. intros s2 c2 (R2 & _). by apply Hopen.
  - pose proof (call_event m _ _ calls calls' s c ev v owner H ltac:(by left) Ec) as Hs. unfold response_event in Hs. rewrite Er in Hs.
    eapply sound_weaken; [exact Hs|]. intros s' c' R. by apply Hopen.
  - destruct (named (item_type v) "reasoning") eqn:E1; [|destruct (named (item_type v) "message") eqn:E2].
    + rewrite (named_false _ _ "message" E1) in Hopen by done. rewrite (named_false _ _ "function_call" E1) in Ec' by done. injection Ec' as <-.
      unfold item_done. rewrite E1. eapply sound_bind; [by eapply end_thinking_sound|]. intros s1 c1 (R1 & _). apply sound_ret.
      apply Hopen; [done|]. by destruct R1; split.
    + rewrite (named_false _ _ "function_call" E2) in Ec' by done. injection Ec' as <-.
      unfold item_done. rewrite E1, E2. eapply sound_bind; [apply reconcile_sound; instantiate (1 := calls); by destruct H; split|].
      intros s1 c1 R1. eapply sound_weaken; [by eapply end_text_sound|]. intros s2 c2 (R2 & _). by apply Hopen.
    + pose proof (call_event m _ _ calls calls' s c ev v owner H ltac:(by right; left) Ec) as Hs. unfold response_event in Hs. rewrite Er in Hs.
      eapply sound_weaken; [exact Hs|]. intros s' c' R. by apply Hopen.
  - pose proof (call_event m _ _ calls calls' s c ev v owner H ltac:(by right; right; left) Ec) as Hs. unfold response_event in Hs. rewrite Er in Hs.
    eapply sound_weaken; [exact Hs|]. intros s' c' R. by apply Hopen.
  - pose proof (call_event m _ _ calls calls' s c ev v owner H ltac:(by right; right; right) Ec) as Hs. unfold response_event in Hs. rewrite Er in Hs.
    eapply sound_weaken; [exact Hs|]. intros s' c' R. by apply Hopen.
  - eapply sound_weaken; [by apply completed_sound|]. intros s' c' [Ht Hs]. eexists. split; [exact Hg'|]. cbn [fst snd].
    rewrite ?Er. cbn [ends]. split; [done|]. left. unfold sent_response. rewrite said_text_snoc, said_reasoning_snoc. unfold text_step, reasoning_piece. cbn [fst snd].
    rewrite Er, app_nil_r. exact Hs.
  - eapply sound_weaken; [by eapply incomplete_sound|]. intros s' c' [Ht Hs]. eexists. split; [exact Hg'|]. cbn [fst snd].
    rewrite ?Er. cbn [ends]. split; [done|]. by right.
Qed.

Lemma response_end_sound m said why calls owner s c : resp_rel m None said why calls s c →
  sound c (response_end owner s) (λ _ c', all_sent m said why (λ i, is_Some (calls !! i)) (λ i, default [] (fst <$> calls !! i)) c').
Proof.
  intros [H1 H2 H3 H4 H5 H6 H7 H8 H9 H10 H11 H12]. unfold response_end. rewrite H12.
  destruct (rp_saw_completed s); [|apply sound_err].
  eapply (sound_bind _ _ _ (λ _ c', ∃ ch, c' = set_client (set_thinking c None) ch)).
  { apply sound_when; intros E; rewrite E in H6.
    - apply bool_decide_eq_true in H6. apply runs_thinking_end; [done..|]. by eexists.
    - apply bool_decide_eq_false, dec_stable in H6. exists (c_client c). destruct c; cbn in *. by rewrite H6. }
  intros _ c1 [ch1 ->].
  eapply (sound_bind _ _ _ (λ _ c', ∃ ch, c' = set_client (set_text_open (set_thinking c None) false) ch)).
  { apply sound_when; intros E; rewrite E in H5.
    - apply runs_text_end; [done..|]. intros ch. by eexists.
    - exists ch1. destruct c; cbn in *. by rewrite H5. }
  intros _ c2 [ch2 ->].
  eapply sound_bind; [apply (sound_attempt _ _ (λ _ c', c' = set_client (set_text_open (set_thinking c None) false) ch2 ∧
    any_tool (λ t, negb (re_ended t)) s = false)); by destruct (any_tool _ s)|].
  intros _ c3 [-> Ha].
  assert (∀ i t, rp_tools s !! i = Some t → re_ended t = true) as He.
  { intros i t Hi. apply not_false_iff_true. intros E. enough (true = false) by done. rewrite <- Ha. symmetry.
    apply existsb_exists. exists (i, t). split; [by apply list_elem_of_In, elem_of_btree|]. cbn. by rewrite E. }
  assert (∀ i t, rp_tools s !! i = Some t → re_started t = true ∧ ended_call m i (re_arguments t) (c_tools c !! i)) as Hs.
  { intros i t Hi. specialize (H10 i). specialize (He i t Hi). rewrite Hi in H10. unfold tool_rel in H10. rewrite He in H10.
    destruct (re_started t); [by destruct H10|]. by destruct H10 as (_ & _ & ?). }
  replace (replay_items owner s) with (replay_items owner (rp_set_items s (rp_items s))) by done.
  eapply (response_done m said why calls owner s).
  - split; try done. intros i. cbn. specialize (H10 i). destruct (rp_tools s !! i) as [t|] eqn:Ei; [|exact H10].
    destruct (Hs i t Ei) as [-> Hx]. exact Hx.
  - intros i. rewrite H11. by destruct (rp_tools s !! i).
  - unfold any_tool. destruct (existsb _ _) eqn:E; [|done]. apply existsb_exists in E as ([i t] & Hin & Ht).
    apply list_elem_of_In, elem_of_btree in Hin. cbn in Ht. by rewrite (proj1 (Hs _ _ Hin)) in Ht.
Qed.

Definition response_values (inputs : list sse_input) : list (SseEvent * json) := (sse_values done_marker inputs).1.
#[global] Instance responses_adapter owner : Adapter (responses_stream owner) (λ inputs, response_fits (response_values inputs))
  (λ inputs, said_text (response_values inputs)) (λ inputs, said_reasoning (response_values inputs))
  (λ inputs i, is_Some (said_calls (response_values inputs) !! i)) (λ inputs, said_arguments (response_values inputs)).
Proof.
  intros id client inputs Hg. set (vs := response_values inputs) in *. unfold responses_stream.
  eapply (sound_bind _ _ _ (λ _ c', resp_inv id [] new_response c')).
  - apply sound_yield, runs_start; [done..|]. exists (∅, false). split; [done|]. cbn [snd fst]. split; try done.
  - intros u c1 R. eapply sound_bind; [refine (sound_loop_of _ _ _ _ vs (resp_inv id) _ inputs [] _ _ _ R); [|reflexivity]|].
    { intros vs1 s1 c2 ev v Hpre. apply response_event_sound. by eapply fits_prefix. }
    assert (∀ g, fits_run (∅, false) vs = Some g → said_calls vs = g.1) as Hc by (intros g E; unfold said_calls; by rewrite E).
    assert (∀ g c', fits_run (∅, false) vs = Some g → sent_response id vs g.1 c' →
      all_sent id (said_text vs) (said_reasoning vs) (λ i, is_Some (said_calls vs !! i)) (said_arguments vs) c') as Hsent.
    { intros g c' E. unfold said_arguments, said_calls. by rewrite E. }
    intros [s|] c2.
    + intros (s1 & (g & Hr & Hi) & ->). cbn [app] in Hr, Hi. change (sse_values done_marker inputs).1 with vs in Hr, Hi.
      replace (if (sse_values done_marker inputs).2 then s1 else s1) with s1 by (by destruct (sse_values done_marker inputs).2).
      destruct g.2.
      * destruct Hi as [Ht [Hs|Hl]]; unfold response_end; rewrite Ht; apply sound_ret; [left; by eapply Hsent|by right; right].
      * eapply sound_weaken; [by apply response_end_sound|]. intros u' c' Hs. left. by eapply Hsent.
    + intros (Hx & s1 & g & Hr & Hi). cbn [app] in Hr, Hi. change (sse_values done_marker inputs).1 with vs in Hr, Hi. apply sound_ret.
      destruct g.2; [destruct Hi as [Ht [Hs|Hl]]; [left; by eapply Hsent|by right; right]|].
      right; left. split; [done|]. by eapply q_finish.
Qed.

Lemma starts_with_longer (a b : str) : (length b ≤ length a)%nat → (if starts_with a b then b else a) = a.
Proof.
  intros Hl. destruct (starts_with a b) eqn:E; [|done]. apply starts_with_spec in E as (r & ->). rewrite length_app in Hl. destruct r; [by rewrite app_nil_r|cbn in Hl; lia].
Qed.
Lemma finishes_said prev cur final : finishes prev cur final → reconciled (concat prev ++ cur) (Some final) = concat prev ++ final.
Proof.
  unfold reconciled. intros [->|[-> [k ->]]].
  - apply starts_with_longer. rewrite length_app. lia.
  - cbn [app]. by rewrite starts_with_app.
Qed.
(** What the values tell is what is said. *)
Lemma tells_said vs prev cur : tells vs prev cur → said_text vs = concat prev ++ cur.
Proof.
  induction 1 as [|vs prev cur p _ IH Hk|vs prev cur p part _ IH Hk Ht [k ->]|vs prev cur p part _ IH Hk Ht Hf|vs prev cur p final _ IH Hk Hm Ht Hf|vs prev cur p _ IH Ho];
    [done|rewrite said_text_snoc, IH; unfold text_step..].
  - rewrite Hk. by rewrite app_assoc.
  - rewrite Hk, Ht. unfold reconciled. apply starts_with_longer. rewrite !length_app. lia.
  - rewrite Hk, Ht. by apply finishes_said.
  - rewrite Hk, Hm, named_lit. cbn [String.eqb Ascii.eqb Bool.eqb]. rewrite Ht, concat_app. cbn [concat]. rewrite !app_nil_r. by apply finishes_said.
  - destruct (response_kind p.1 p.2); try done; [by rewrite Ho|].
    destruct (named (item_type p.2) "message") eqn:E; [|done]. by apply named_true in E.
Qed.

(** C3: Of a response of the Responses API in which nothing follows its end and no call grows after it ended, the cycle returns
    what was sent.  The text is the texts of the messages, one after the other, as long as every message that comes after some text is
    streamed in full; the first may be streamed, given whole at its end, or both (a later message that is given whole only is lost).
    The reasoning is the concatenation of its deltas, there is one call for each function call, and its arguments are the
    deltas and the snapshot they are a prefix of, once.  When it fails, it is the adapter's own error, a client that is gone, a call id the
    provider used twice, a truncation, a finish reason that contradicts the calls, or the end of a response that was cancelled. *)
Theorem responses_conforms owner id client inputs timed t c r :
  (snd <$> timed) = items (responses_stream owner id inputs) → response_fits (response_values inputs) →
  consume_model_cycle client (((λ p, (p.1, Item p.2)) <$> timed) ++ [(t, StreamEnd false)]) = Some (c, r) →
  let vs := response_values inputs in
  match r with
  | Ok r => (∀ messages rest, tells vs messages rest → r_text r = concat messages ++ rest) ∧
      returns id (said_text vs) (said_reasoning vs) (λ i, is_Some (said_calls vs !! i)) (said_arguments vs) r
  | Err x =>
      excused (f_failure x) ∨ ended_badly (f_failure x) ∨
      (SseCancelled ∈ inputs ∧ f_failure x = FProvider (lit "provider stream reached EOF before Done")) ∨
      ∃ e, (responses_stream owner id inputs).2 = Err e ∧ f_failure x = run_failure_of_error e
  end.
Proof.
  intros Ht Hg H. pose proof (adapter_conforms (A := responses_adapter owner) id client inputs timed t c r Hg Ht H) as K. cbn zeta. destruct r as [r|x]; [|exact K].
  split; [|exact K]. intros messages rest Hm. rewrite <- (tells_said _ _ _ Hm). exact (rt_text _ _ _ _ _ _ K).
Qed.
End Conforms.

(** ** A response whose items are streamed and given whole *)
Module ResponseSamples.
Definition event (kind : string) (members : list (string * json)) : json := object (("type"%string, text kind) :: members).
Definition call (members : list (string * json)) : json :=
  object ([("type"%string, text "function_call"); ("call_id"%string, text "c1"); ("name"%string, text "ls")] ++ members).
Definition chunks : list (string * json) :=
  [("text", event "response.output_text.delta" [("delta", text "h")]);
   ("said", event "response.output_text.done" [("text", text "hi")]);
   ("added", event "response.output_item.added" [("output_index", number 1); ("item", call [])]);
   ("open", event "response.function_call_arguments.delta" [("output_index", number 1); ("delta", text "{")]);
   ("whole", event "response.function_call_arguments.done" [("output_index", number 1); ("arguments", text "{}")]);
   ("done", event "response.output_item.done" [("output_index", number 1); ("item", call [("arguments", text "{}")])]);
   ("end", event "response.completed" [("response", object [])])]%string.
Definition parser : SerdeJson :=
  {| to_vec _ := []; display_json _ := []; to_string _ := Ok [];
     from_str s := match list_find (λ p, lit p.1 = s) chunks with
                   | Some (_, (_, v)) => Ok v
                   | None => if decide (s = lit "{}") then Ok (JObject []) else Err (ForeignError (lit "expected value") [])
                   end |}.
Definition numbers : SerdeNumber := {| number_as_u64 := parse_u64; number_as_i64 := parse_u64 |}.
Definition inputs : list sse_input :=
  (λ s, SseItem (Ok (MkSse [] (lit s)))) <$> ["text"; "said"; "added"; "open"; "whole"; "done"; "end"]%string.
Definition timed : list (Z * res ModelEvent) := (λ i, (7, i)) <$> items (@responses_stream parser numbers JNull (lit "m1") inputs).
(** The values tell one message, begun and then completed. *)
Lemma told : tells (@response_values parser inputs) [] (lit "hi").
Proof.
  assert (∀ vs prev cur p, match response_kind p.1 p.2 with TextDelta | TextDone | ItemDone => False | _ => True end → tells vs prev cur → tells (vs ++ [p]) prev cur) as Hother.
  { intros vs prev cur p Hk H. apply tells_other; [done|]. by destruct (response_kind p.1 p.2). }
  set (p := λ c : string * json, (MkSse [] (lit c.1), c.2)). assert (@response_values parser inputs = p <$> chunks) as -> by (vm_compute; reflexivity).
  change (p <$> chunks) with (((((([p (nth 0 chunks (String.EmptyString, JNull))] ++ [p (nth 1 chunks (String.EmptyString, JNull))]) ++ [p (nth 2 chunks (String.EmptyString, JNull))]) ++ [p (nth 3 chunks (String.EmptyString, JNull))]) ++ [p (nth 4 chunks (String.EmptyString, JNull))])
    ++ [p (nth 5 chunks (String.EmptyString, JNull))]) ++ [p (nth 6 chunks (String.EmptyString, JNull))]).
  apply Hother; [vm_compute; exact I|]. apply tells_other; [|vm_compute; discriminate]. do 3 (apply Hother; [vm_compute; exact I|]).
  apply (tells_whole_part _ _ (lit "h") _ (lit "hi")); [exact (tells_delta [] [] [] (p (nth 0 chunks (String.EmptyString, JNull))) tells_nil eq_refl)|vm_compute; reflexivity..|].
  right. split; [reflexivity|]. exists (lit "i"). vm_compute. reflexivity.
Qed.
(** A response of two messages that are given whole only. *)
Definition whole (s : string) : json :=
  event "response.output_item.done"
    [("item", object [("type", text "message"); ("content", JArray [object [("type", text "output_text"); ("text", text s)]])])]%string.
Definition two_messages : SerdeJson :=
  {| to_vec _ := []; display_json _ := []; to_string _ := Ok [];
     from_str s := Ok (if decide (s = lit "end") then event "response.completed" [("response"%string, object [])]
                       else whole (if decide (s = lit "one") then "one" else "two")) |}.
End ResponseSamples.

Lemma responses_conforms_witness : ∃ c r,
  @consume_model_cycle ResponseSamples.parser (Some 50%nat)
    (((λ p, (p.1, Item p.2)) <$> ResponseSamples.timed) ++ [(8, StreamEnd false)]) = Some (c, Ok r) ∧
  r_text r = lit "hi" ∧ (arguments_text <$> r_calls r) = [lit "{}"].
Proof.
  eexists _, _. split; [vm_compute; reflexivity|].
  pose proof (@responses_conforms ResponseSamples.parser ResponseSamples.numbers JNull (lit "m1") (Some 50%nat) ResponseSamples.inputs
    ResponseSamples.timed 8 _ (Ok _) ltac:(vm_compute; reflexivity) ltac:(vm_compute; eexists; reflexivity)
    ltac:(vm_compute; reflexivity)) as H.
  cbn zeta in H. split; [|vm_compute; reflexivity]. exact (proj1 H [] (lit "hi") ResponseSamples.told).
Defined.

(** A second message that is given whole only is lost: the deltas of its response are those of the first. *)
Lemma second_message_lost :
  omap (λ i, match i with Ok (MTextDelta d) => Some d | _ => None end)
    (items (@responses_stream ResponseSamples.two_messages ResponseSamples.numbers JNull (lit "m1")
       ((λ s, SseItem (Ok (MkSse [] (lit s)))) <$> ["one"; "two"; "end"]%string))) = [lit "one"].
Proof. vm_compute. reflexivity. Qed.
