(* ===== verification/ResponsesRequest.v ===== *)
(** * ResponsesRequest: what the Responses API is asked

    server/src/provider/openai_responses.rs, the request half: the projected history becomes a list of items, the
    reasoning of an earlier answer is replayed only to the upstream and model it came from, and the schemas of
    the tools are written with integers where the API insists on them.

    [responses_request_valid] gives the shape of the items and the provenance of the reasoning,
    [normalize_schema_idempotent] what happens to a schema. *)

From stdpp Require Import prelude gmap strings list sorting.
From Stdlib Require Import SpecFloat.
From S2P Require Import Prelude Errors External Json Message Provider Requests Configuration Float.
Local Open Scope Z_scope.

(** serde_json: [Value::as_f64] of a number, from the text it is written with. *)
Class SerdeFloat : Type := { number_as_f64 : str → option f64 }.
(** reqwest: the origin of a URL (scheme, host and port), when it parses. *)
Class UrlOrigin : Type := { url_origin : str → option str }.

(** ** Schemas *)

(** server/src/provider/openai_responses.rs:394-403, [INTEGER_SCHEMA_KEYWORDS]. *)
Definition INTEGER_SCHEMA_KEYWORDS : list string :=
  ["minLength"; "maxLength"; "minItems"; "maxItems"; "minProperties"; "maxProperties"; "minContains"; "maxContains"].
Definition integer_keyword (key : str) : bool := existsb (named key) INTEGER_SCHEMA_KEYWORDS.

(** [x.fract() == 0.0 && x.abs() < 9.0e15], and then [x as i64]. *)
Definition integral (x : f64) : option Z :=
  match x with
  | S754_zero _ => Some 0
  | S754_finite s m e =>
      let small (n : Z) := if n <? 9000000000000000 then Some (if s : bool then - n else n) else None in
      if 0 <=? e then small (Z.pos m * 2 ^ e)
      else if Z.pos m mod 2 ^ (- e) =? 0 then small (Z.pos m / 2 ^ (- e)) else None
  | S754_infinity _ | S754_nan => None
  end.

Section Schemas.
Context {SF : SerdeFloat}.

Definition as_integral (v : json) : option Z :=
  match v with JNumber t => x ← number_as_f64 t; integral x | _ => None end.
(** A member of a schema, its value normalized already. *)
Definition normalize_member (key : str) (v : json) : json :=
  if integer_keyword key then match as_integral v with Some n => number n | None => v end else v.
(** server/src/provider/openai_responses.rs:410-433, [normalize_schema_integers]. *)
Fixpoint normalize_schema_integers (v : json) : json :=
  match v with
  | JObject members => JObject (List.map (λ p, (p.1, normalize_member p.1 (normalize_schema_integers p.2))) members)
  | JArray items => JArray (List.map normalize_schema_integers items)
  | v => v
  end.
(** server/src/provider/openai_responses.rs:436-447, [responses_tools]. *)
Definition responses_tools (tools : list ToolDefinition) : json :=
  JArray ((λ t, object [("type", text "function"); ("name", JString (t_name t)); ("description", JString (t_description t));
                        ("parameters", normalize_schema_integers (t_parameters t)); ("strict", JBool false)]%string) <$> tools).
End Schemas.

(** ** Items *)

Section Items.
Context {SJ : SerdeJson} {B64 : Base64} {UO : UrlOrigin}.

(** server/src/provider/openai_responses.rs:454-460, [replay_owner]. *)
Definition replay_owner (request_url model_id : str) : json :=
  object [("upstream", JString (default request_url (url_origin request_url))); ("model", JString model_id)]%string.

Definition text_type (role : Role) : string := if bool_decide (role = RAssistant) then "output_text" else "input_text".
(** server/src/provider/openai_responses.rs:563-576, [responses_content]. *)
Fixpoint responses_content (parts : list ContentPart) (kind : string) : list json :=
  match parts with
  | [] => []
  | PText [] :: parts => responses_content parts kind
  | PText t :: parts => object [("type", text kind); ("text", JString t)]%string :: responses_content parts kind
  | PImage mime_type data :: parts =>
      object [("type", text "input_image"); ("detail", text "auto"); ("image_url", JString (data_url mime_type data))]%string
      :: responses_content parts kind
  end.
Definition message_item (role : Role) (content : list json) : json :=
  object [("type", text "message"); ("role", text (role_name role)); ("content", JArray content)]%string.
(** server/src/provider/openai_responses.rs:546-561, [push_responses_parts]: the items it adds. *)
Definition responses_parts (role : Role) (parts : list ContentPart) : list json :=
  match responses_content parts (text_type role) with [] => [] | content => [message_item role content] end.
(** server/src/provider/openai_responses.rs:578-592, [push_responses_text]: the items it adds. *)
Definition responses_text (role : Role) (t : str) : list json :=
  match t with
  | [] => []
  | _ => [message_item role [object [("type", text (text_type role)); ("text", JString t)]%string]]
  end.

(** The members of a reasoning item that are replayed. *)
Definition REASONING_FIELDS : list string := ["id"; "summary"; "content"; "encrypted_content"].
(** server/src/provider/openai_responses.rs:529-544, [response_reasoning_input]. *)
Definition response_reasoning_input (item : json) : res json :=
  if is_object item && bool_decide (get_str "type" item = Some (lit "reasoning")) then
    Ok (object (("type"%string, text "reasoning")
                :: omap (λ field, v ← get_member field item; Some (field, v)) REASONING_FIELDS))
  else Err (Protocol (lit "OpenAI Responses replay state contains a non-reasoning item")).
(** server/src/provider/openai_responses.rs:487-513, the reasoning an assistant message is replayed with. *)
Definition responses_replay (owner : json) (replay_state : option ProviderReplayState) : res (list json) :=
  match replay_state with
  | Some state =>
      if bool_decide (provider_kind state = lit "openai_responses")
         && bool_decide (get_member "owner" (replay_value state) = Some owner) then
        items ← ok_or (get_member "items" (replay_value state) ≫= as_array)
                  (Protocol (lit "OpenAI Responses replay state is missing items"));
        mapM response_reasoning_input items
      else Ok []
  | None => Ok []
  end.
Definition function_call (call : ToolCallContent) : res json :=
  arguments ← map_err Json (to_string (c_arguments call));
  Ok (object [("type", text "function_call"); ("call_id", JString (c_call_id call)); ("name", JString (c_name call));
              ("arguments", JString arguments)]%string).
Definition function_output (r : ToolResultContent) : json :=
  object [("type", text "function_call_output"); ("call_id", JString (r_call_id r));
          ("output", match r_provider_parts r with
                     | [] => JString (r_content r)
                     | parts => JArray (responses_content parts "input_text")
                     end)]%string.

(** server/src/provider/openai_responses.rs:462-527, [responses_input]: the items of one message. *)
Definition responses_items (owner : json) (m : ProjectedMessage) : res (list json) :=
  match p_content m with
  | PCParts parts => Ok (responses_parts (p_role m) parts)
  | PCToolResult r => Ok [function_output r]
  | PCAssistant t _ replay_state calls =>
      replayed ← responses_replay owner replay_state;
      calls ← mapM function_call calls;
      Ok (replayed ++ responses_text (p_role m) t ++ calls)
  end.
(** server/src/provider/openai_responses.rs:462-527, [responses_input]. *)
Fixpoint responses_input (history : list ProjectedMessage) (owner : json) : res (list json) :=
  match history with
  | [] => Ok []
  | m :: history => items ← responses_items owner m; rest ← responses_input history owner; Ok (items ++ rest)
  end.

(** server/src/provider/openai_responses.rs:368-391, [apply_model]. *)
Definition responses_apply_model (m : ModelSpec) (route_max : option Z) (body : json) : json :=
  let body := match match max_output_tokens m with Some n => Some n | None => route_max end with
              | Some n => set_member "max_output_tokens" (number n) body
              | None => body
              end in
  let body := if reasoning_enabled (reasoning m) || bool_decide (rs_effort (reasoning m) ≠ None) then
                set_member "reasoning" (object (("summary"%string, text "auto")
                  :: match rs_effort (reasoning m) with Some effort => [("effort"%string, JString effort)] | None => [] end)) body
              else body in
  match latency m with LFast => set_member "service_tier" (text "fast") body | LStandard => body end.

Context {SF : SerdeFloat}.
(** server/src/provider/openai_responses.rs:73-85, the body of the request, in [stream]. *)
Definition responses_body (p : PromptSpec) (m : ModelSpec) (request_url : str) (route_max : option Z)
    (history : list ProjectedMessage) : res json :=
  input ← responses_input history (replay_owner request_url (model_id m));
  let body := object [("model", JString (model_id m)); ("input", JArray input); ("stream", JBool true);
                      ("instructions", JString (instructions p));
                      ("include", JArray [text "reasoning.encrypted_content"])]%string in
  let body := match tools p with [] => body | ts => set_member "tools" (responses_tools ts) body end in
  body ← merge_extra_params (responses_apply_model m route_max body) (extra_params m);
  apply_openai_prompt_cache_key body (model_id m).
End Items.

(** ** The items of a Responses request *)

Definition item_type (v : json) : option str := get_str "type" v.
Definition call_id_of (v : json) : option str := get_str "call_id" v.
(** An item of its own: reasoning, or a message with content. *)
Definition plain_item (v : json) : Prop :=
  item_type v = Some (lit "reasoning") ∨
  item_type v = Some (lit "message") ∧ ∃ c content, get_member "content" v = Some (JArray (c :: content)).

(** What the API accepts: every call of a round is answered after the calls of the round, once, and nothing else is. *)
Inductive responses_valid : list json → Prop :=
  | responses_valid_nil : responses_valid []
  | responses_valid_plain v items : plain_item v → responses_valid items → responses_valid (v :: items)
  | responses_valid_round calls outputs items ids answers :
      Forall (λ v, item_type v = Some (lit "function_call")) calls → call_id_of <$> calls = Some <$> ids →
      Forall (λ v, item_type v = Some (lit "function_call_output")) outputs → call_id_of <$> outputs = Some <$> answers →
      NoDup answers → (∀ id, id ∈ ids ↔ id ∈ answers) →
      responses_valid items → responses_valid (calls ++ outputs ++ items).

(** Reasoning that an answer of the history carries, of the same upstream and model. *)
Definition replayed_from (owner : json) (history : list ProjectedMessage) (v : json) : Prop :=
  ∃ m t thinking state calls items item, m ∈ history ∧ p_content m = PCAssistant t thinking (Some state) calls ∧
    provider_kind state = lit "openai_responses" ∧ get_member "owner" (replay_value state) = Some owner ∧
    get_member "items" (replay_value state) = Some (JArray items) ∧ item ∈ items ∧
    response_reasoning_input item = Ok v.

Section ItemFacts.
Context {SJ : SerdeJson} {B64 : Base64} {UO : UrlOrigin}.

Lemma message_plain role v content : plain_item (message_item role (v :: content)).
Proof. right. unfold item_type, message_item. get_obj. split; [done|]. by eexists _, _. Qed.

Lemma plain_items items rest : Forall plain_item items → responses_valid rest → responses_valid (items ++ rest).
Proof. induction 1; [done|]. intros. cbn. by apply responses_valid_plain; [|apply IHForall]. Qed.

Lemma responses_parts_plain role parts : Forall plain_item (responses_parts role parts).
Proof. unfold responses_parts. destruct (responses_content _ _); constructor; [apply message_plain|done]. Qed.
Lemma text_plain role t : Forall plain_item (responses_text role t).
Proof. destruct t; constructor; [apply message_plain|done]. Qed.

Lemma reasoning_input_type item v : response_reasoning_input item = Ok v → item_type v = Some (lit "reasoning").
Proof.
  unfold response_reasoning_input. destruct (_ && _); [|done]. intros [= <-]. unfold item_type, REASONING_FIELDS. cbn [omap list_omap].
  destruct (get_member "id" item), (get_member "summary" item), (get_member "content" item), (get_member "encrypted_content" item);
    cbn [mbind option_bind]; by get_obj.
Qed.

Lemma mapM_ok {A B} (f : A → res B) l k : mapM f l = Ok k → Forall2 (λ a b, f a = Ok b) l k.
Proof.
  revert k. induction l as [|a l IH]; intros k; cbn [mapM]; [intros [= <-]; constructor|].
  destruct (f a) eqn:Ef; [|done]. cbn. destruct (mapM f l); [|done]. intros [= <-]. by constructor; [|apply IH].
Qed.

Lemma replay_source owner replay_state items v : responses_replay owner replay_state = Ok items → v ∈ items →
  ∃ state sources item, replay_state = Some state ∧
    provider_kind state = lit "openai_responses" ∧ get_member "owner" (replay_value state) = Some owner ∧
    get_member "items" (replay_value state) = Some (JArray sources) ∧ item ∈ sources ∧
    response_reasoning_input item = Ok v.
Proof.
  unfold responses_replay. destruct replay_state as [state|]; [|intros [= <-] H; by apply not_elem_of_nil in H].
  destruct (bool_decide_reflect (provider_kind state = lit "openai_responses")) as [Hk|]; cbn [andb];
    [|intros [= <-] H; by apply not_elem_of_nil in H].
  destruct (bool_decide_reflect (get_member "owner" (replay_value state) = Some owner)) as [Ho|];
    [|intros [= <-] H; by apply not_elem_of_nil in H].
  destruct (get_member "items" (replay_value state)) as [value|] eqn:Ei; [|done]. destruct value as [| | | |sources|]; try done.
  cbn [mbind option_bind as_array ok_or result_bind]. intros H%mapM_ok Hv.
  apply list_elem_of_lookup in Hv as [i Hv]. destruct (Forall2_lookup_r _ _ _ _ _ H Hv) as (item & Hi & He).
  apply list_elem_of_lookup_2 in Hi. by exists state, sources, item.
Qed.
Lemma replay_reasoning_items owner replay_state items : responses_replay owner replay_state = Ok items →
  Forall (λ v, item_type v = Some (lit "reasoning")) items.
Proof.
  intros H. apply Forall_forall. intros v Hv. destruct (replay_source _ _ _ _ H Hv) as (?&?&?&_&_&_&_&_&Hr).
  by eapply reasoning_input_type.
Qed.

Lemma call_items calls items : mapM function_call calls = Ok items →
  Forall (λ v, item_type v = Some (lit "function_call")) items ∧ call_id_of <$> items = Some <$> (c_call_id <$> calls).
Proof.
  intros H%mapM_ok. induction H as [|c v calls items Hc _ [H1 H2]]; [by split|].
  unfold function_call in Hc. destruct (map_err _ _); [|done]. injection Hc as <-. rewrite !fmap_cons, H2.
  unfold call_id_of, item_type. split; [constructor; [by get_obj|done]|]. by get_obj.
Qed.

Lemma result_items owner (results : list (str * ToolResultContent)) items :
  responses_input ((λ r, MkProjected (fst r) RTool (PCToolResult (snd r))) <$> results) owner = Ok items →
  Forall (λ v, item_type v = Some (lit "function_call_output")) items ∧
  call_id_of <$> items = Some <$> ((λ r, r_call_id (snd r)) <$> results).
Proof.
  revert items. induction results as [|r results IH]; intros items; [by intros [= <-]|]. rewrite fmap_cons.
  cbn [responses_input responses_items p_content mbind result_bind]. destruct (responses_input _ owner) as [rest|]; [|done].
  destruct (IH rest eq_refl) as [H1 H2]. intros [= <-]. rewrite !fmap_cons, H2.
  unfold call_id_of, item_type, function_output. split; [constructor; [by get_obj|done]|]. by get_obj.
Qed.

Lemma responses_input_app h k owner : responses_input (h ++ k) owner = (a ← responses_input h owner; b ← responses_input k owner; Ok (a ++ b)).
Proof.
  induction h as [|m h IH]; cbn [app responses_input].
  - cbn. by destruct (responses_input k owner).
  - destruct (responses_items owner m) as [items|]; [|done]. cbn. rewrite IH.
    destruct (responses_input h owner) as [a|]; [|done]. cbn. destruct (responses_input k owner); [|done]. cbn. by rewrite <- app_assoc.
Qed.

Lemma assistant_items owner mid t th rp calls items : responses_items owner (MkProjected mid RAssistant (PCAssistant t th rp calls)) = Ok items →
  ∃ plain invoked, items = plain ++ invoked ∧ Forall plain_item plain ∧ mapM function_call calls = Ok invoked.
Proof.
  unfold responses_items. cbn [p_content p_role]. destruct (responses_replay owner rp) as [replayed|] eqn:Er; [|done].
  cbn [mbind result_bind]. destruct (mapM function_call calls) as [invoked|]; [|done]. cbn. intros [= <-].
  exists (replayed ++ responses_text RAssistant t), invoked. rewrite <- app_assoc. split_and!; [done| |done].
  apply Forall_app. split; [|apply text_plain]. eapply Forall_impl; [by eapply replay_reasoning_items|]. intros v Hv. by left.
Qed.

Lemma lone_items owner m items : lone m → responses_items owner m = Ok items → Forall plain_item items.
Proof.
  unfold lone. destruct m as [mid role content]. cbn [p_content]. destruct content as [parts|t th rp calls|r]; [| |done].
  - intros _ [= <-]. apply responses_parts_plain.
  - intros -> H. unfold responses_items in H. cbn [p_content p_role] in H.
    destruct (responses_replay owner rp) as [replayed|] eqn:Er; [|done]. injection H as <-. rewrite app_nil_r.
    apply Forall_app. split; [|apply text_plain]. eapply Forall_impl; [by eapply replay_reasoning_items|]. intros v Hv. by left.
Qed.

Lemma responses_input_valid owner history items : paired history → responses_input history owner = Ok items → responses_valid items.
Proof.
  intros Hp. revert items. induction Hp as [|m h Hl Hp IH|group h Hr Hp IH]; intros items H.
  - injection H as <-. constructor.
  - cbn [responses_input] in H. destruct (responses_items owner m) as [one|] eqn:E; [|done]. cbn in H.
    destruct (responses_input h owner) as [rest|]; [|done]. injection H as <-.
    apply plain_items; [by eapply lone_items|by apply IH].
  - rewrite responses_input_app in H. destruct Hr as (mid & t & th & rp & calls & results & -> & _ & Hn & Hiff).
    cbn [responses_input] in H. destruct (responses_items owner _) as [one|] eqn:E; [|done]. cbn [mbind result_bind] in H.
    destruct (responses_input (_ <$> results) owner) as [outputs|] eqn:Eo; [|done]. cbn [mbind result_bind] in H.
    destruct (responses_input h owner) as [rest|]; [|done]. injection H as <-.
    apply assistant_items in E as (plain & invoked & -> & Hpl & [H1 H2]%call_items). apply result_items in Eo as [H3 H4].
    rewrite <- !app_assoc. apply plain_items; [done|].
    by eapply responses_valid_round; [exact H1|exact H2|exact H3|exact H4|exact Hn|exact Hiff|apply IH].
Qed.

(** Where the reasoning of a request comes from. *)
Lemma items_source owner m items v : responses_items owner m = Ok items → v ∈ items → item_type v = Some (lit "reasoning") →
  replayed_from owner [m] v.
Proof.
  unfold responses_items. destruct m as [mid role content]. cbn [p_content p_role]. intros H Hv Ht.
  assert (∀ vs, Forall plain_item vs → (∀ w, w ∈ vs → item_type w = Some (lit "message")) → v ∉ vs) as Hno.
  { intros vs _ Hw Hin. specialize (Hw v Hin). rewrite Hw in Ht. discriminate Ht. }
  destruct content as [parts|t th rp calls|r].
  - injection H as <-. exfalso. revert Hv. apply (Hno _ (responses_parts_plain _ _)). intros w Hw. unfold responses_parts in Hw.
    destruct (responses_content _ _); [by apply not_elem_of_nil in Hw|]. apply list_elem_of_singleton in Hw as ->.
    unfold item_type, message_item. by get_obj.
  - destruct (responses_replay owner rp) as [replayed|] eqn:Er; [|done]. cbn [mbind result_bind] in H.
    destruct (mapM function_call calls) as [invoked|] eqn:Ec; [|done]. injection H as <-.
    apply elem_of_app in Hv as [Hv|[Hv|Hv]%elem_of_app].
    + destruct (replay_source _ _ _ _ Er Hv) as (state & sources & item & -> & H). 
      exists (MkProjected mid role (PCAssistant t th (Some state) calls)), t, th, state, calls, sources, item.
      split; [by left|]. split; [done|]. exact H.
    + exfalso. revert Hv. apply (Hno _ (text_plain _ _)). intros w Hw. destruct t; [by apply not_elem_of_nil in Hw|].
      apply list_elem_of_singleton in Hw as ->. unfold item_type, message_item. by get_obj.
    + apply call_items in Ec as [Hf _]. rewrite Forall_forall in Hf. rewrite (Hf v Hv) in Ht. discriminate Ht.
  - injection H as <-. apply list_elem_of_singleton in Hv as ->. unfold item_type, function_output in Ht. revert Ht. get_obj. discriminate.
Qed.
Lemma replayed_from_mono owner h k v : h ⊆ k → replayed_from owner h v → replayed_from owner k v.
Proof. intros Hs (m & t & th & st & cs & is' & item & Hm & H). exists m, t, th, st, cs, is', item. split; [by apply Hs|done]. Qed.
Lemma input_source owner history items v : responses_input history owner = Ok items → v ∈ items →
  item_type v = Some (lit "reasoning") → replayed_from owner history v.
Proof.
  revert items. induction history as [|m h IH]; intros items H Hv Ht; [injection H as <-; by apply not_elem_of_nil in Hv|].
  cbn [responses_input] in H. destruct (responses_items owner m) as [one|] eqn:E; [|done]. cbn in H.
  destruct (responses_input h owner) as [rest|]; [|done]. injection H as <-. apply elem_of_app in Hv as [Hv|Hv].
  - eapply replayed_from_mono; [|by eapply items_source]. intros x. rewrite list_elem_of_singleton. intros ->. by left.
  - eapply replayed_from_mono; [|by eapply IH]. intros x. by right.
Qed.

Lemma responses_apply_model_sets m route b b' names : only_sets names b b' →
  ["max_output_tokens"; "reasoning"; "service_tier"]%string ⊆ names → only_sets names b (responses_apply_model m route b').
Proof.
  intros H Hn. unfold responses_apply_model. destruct (latency m); destruct (_ || _); destruct (max_output_tokens m); destruct route;
    repeat (apply only_sets_set; [|set_solver]); done.
Qed.

Context {SF : SerdeFloat}.
(** C4: A Responses request is one the API accepts, whatever extra parameters the model has: it asks for a
    stream of the model's own answer with the prompt's instructions and tools; its items keep the pairing of calls
    and results whenever the projected history does; and the reasoning it replays is that of an answer of the history
    which the same upstream and model gave (another one could not verify its encrypted content). *)
Theorem responses_request_valid p m url route history body : paired history → responses_body p m url route history = Ok body →
  get_member "model" body = Some (JString (model_id m)) ∧ get_member "stream" body = Some (JBool true) ∧
  get_member "instructions" body = Some (JString (instructions p)) ∧
  get_member "tools" body = match tools p with [] => None | ts => Some (responses_tools ts) end ∧
  ∃ items, get_member "input" body = Some (JArray items) ∧ responses_valid items ∧
    ∀ v, v ∈ items → item_type v = Some (lit "reasoning") → replayed_from (replay_owner url (model_id m)) history v.
Proof.
  intros Hp H. unfold responses_body in H. destruct (responses_input _ _) as [items|] eqn:Ei; [|done].
  cbn [mbind result_bind] in H. set (b0 := object _) in H. set (b1 := match tools p with [] => _ | _ => _ end) in H.
  destruct (merge_extra_params _ _) as [b2|] eqn:E2; [|done].
  assert (∃ members, b1 = JObject members) as [members Hb1] by (unfold b1; destruct (tools p); by eexists).
  assert (only_sets ["max_output_tokens"; "reasoning"; "service_tier"]%string b1 (responses_apply_model m route b1)) as [_ Hs].
  { apply responses_apply_model_sets; [|set_solver]. rewrite Hb1. by apply only_sets_refl. }
  assert (∀ name, name ∈ ["model"; "stream"; "instructions"; "tools"; "input"]%string → get_member name body = get_member name b1) as Hk.
  { intros name Hn. rewrite (cache_key_keeps _ _ _ name H) by set_solver.
    rewrite (proj1 (merge_keeps _ _ _ name E2 ltac:(set_unfold; destruct Hn as [->|[->|[->|[->|[->|[]]]]]]; reflexivity))).
    apply Hs. set_unfold. naive_solver. }
  rewrite !Hk by set_solver. unfold b1, b0.
  destruct (tools p) as [|t ts]; [|unfold object at 1; rewrite !get_set]; get_obj; split_and!; try done;
    exists items; (split; [done|]); (split; [by eapply responses_input_valid|]); intros v; by apply input_source.
Qed.
End ItemFacts.

(** ** The schemas *)

Section SchemaFacts.
Context {SF : SerdeFloat}.
(** What the printing of an integer owes the reading of it (both are exact below 2^53). *)
Hypothesis read_number : ∀ n, Z.abs n < 9000000000000000 → number_as_f64 (decimal n) ≫= integral = Some n.

Lemma integral_small x n : integral x = Some n → Z.abs n < 9000000000000000.
Proof.
  assert (∀ (s : bool) k, 0 ≤ k → (if k <? 9000000000000000 then Some (if s then - k else k) else None) = Some n →
    Z.abs n < 9000000000000000) as Hk.
  { intros s k Hk. destruct (Z.ltb_spec k 9000000000000000); [|done]. intros [= <-]. destruct s; lia. }
  destruct x as [s|s| |s m e]; cbn [integral]; try done; [by intros [= <-]|].
  destruct (0 <=? e); [|destruct (_ =? 0); [|done]]; apply Hk; [apply Z.mul_nonneg_nonneg|apply Z_div_nonneg_nonneg];
    by try apply Z.pow_nonneg.
Qed.
Lemma normalize_member_idempotent key v : normalize_member key (normalize_member key v) = normalize_member key v.
Proof.
  unfold normalize_member. destruct (integer_keyword key); [|done]. destruct (as_integral v) as [n|] eqn:E; [|by rewrite E].
  assert (as_integral (number n) = Some n) as ->; [|done]. apply read_number.
  unfold as_integral in E. destruct v as [| |t| | |]; try done. destruct (number_as_f64 t); [|done]. by eapply integral_small.
Qed.
Lemma normalize_kept key v : normalize_schema_integers v = v → normalize_schema_integers (normalize_member key v) = normalize_member key v.
Proof. intros H. unfold normalize_member. destruct (integer_keyword key); [|done]. by destruct (as_integral v). Qed.

(** Rewriting the limits of a schema as integers is done once: a schema it has produced is not changed again
    (the tools are the same bytes from one request to the next, which the prompt cache needs). *)
Theorem normalize_schema_idempotent v :
  normalize_schema_integers (normalize_schema_integers v) = normalize_schema_integers v.
Proof.
  induction v as [v Ha Ho|items IH|members IH] using json_nested_ind.
  - destruct v; try done; exfalso; [by eapply Ha|by eapply Ho].
  - cbn [normalize_schema_integers]. f_equal. rewrite List.map_map. induction IH; cbn; [done|]. by f_equal.
  - cbn [normalize_schema_integers]. f_equal. rewrite List.map_map. induction IH as [|[k v] members Hv _ IH]; cbn [List.map fst snd]; [done|].
    f_equal; [|done]. f_equal. cbn [snd] in Hv. rewrite <- (normalize_member_idempotent k (normalize_schema_integers v)) at 2. f_equal.
    by apply normalize_kept.
Qed.
End SchemaFacts.

Module ResponsesSamples.
Definition url : UrlOrigin := {| url_origin u := Some (take 14 u) |}.
Definition floats : SerdeFloat := {| number_as_f64 t := if bool_decide (t = decimal 20000) || bool_decide (t = lit "20000.0") then Some (f64_of 20000) else None |}.
Definition endpoint : str := lit "https://a.test/v1/responses".
Definition reasoning : json := object [("type", text "reasoning"); ("id", text "rs_1"); ("status", text "completed")]%string.
Definition state (model : string) : ProviderReplayState :=
  MkReplay (lit "openai_responses") (object [("owner", @replay_owner url endpoint (lit model)); ("items", JArray [reasoning])]%string).
Definition history : list ProjectedMessage :=
  [MkProjected (lit "m0") RAssistant (PCAssistant [] [] (Some (state "gpt-4")) []);
   MkProjected (lit "m1") RAssistant (PCAssistant (lit "ok") [] (Some (state "gpt-5")) [])] ++ RequestSamples.history.
Lemma paired_replayed : paired history.
Proof. apply paired_lone; [done|]. apply paired_lone; [done|]. apply RequestSamples.paired_history. Qed.
Definition schema : json := object [("maxLength", JNumber (lit "20000.0")); ("default", JNumber (lit "20000.0"))]%string.
End ResponsesSamples.

Example normalize_schema : @normalize_schema_integers ResponsesSamples.floats ResponsesSamples.schema =
  object [("maxLength", number 20000); ("default", JNumber (lit "20000.0"))]%string.
Proof. vm_compute. reflexivity. Qed.

(** The reasoning of the other model is left out: five items, one of them reasoning, then the call and its output. *)
Lemma responses_request_valid_witness : ∃ body items,
  @responses_body RequestSamples.serde RequestSamples.base64 ResponsesSamples.url ResponsesSamples.floats
    RequestSamples.prompt RequestSamples.model ResponsesSamples.endpoint None ResponsesSamples.history = Ok body ∧
  get_member "input" body = Some (JArray items) ∧ responses_valid items ∧
  omap item_type items = lit <$> ["reasoning"; "message"; "message"; "message"; "function_call"; "function_call_output"]%string.
Proof.
  destruct (@responses_body RequestSamples.serde RequestSamples.base64 ResponsesSamples.url ResponsesSamples.floats
    RequestSamples.prompt RequestSamples.model ResponsesSamples.endpoint None ResponsesSamples.history) as [body|] eqn:E;
    [|vm_compute in E; discriminate E].
  destruct (@responses_request_valid RequestSamples.serde RequestSamples.base64 ResponsesSamples.url ResponsesSamples.floats
    RequestSamples.prompt RequestSamples.model ResponsesSamples.endpoint None ResponsesSamples.history body
    ResponsesSamples.paired_replayed E) as (_ & _ & _ & _ & items & Hi & Hv & _).
  exists body, items. split; [reflexivity|]. split; [exact Hi|]. split; [exact Hv|].
  clear Hv. vm_compute in E. injection E as <-. vm_compute in Hi. injection Hi as <-. vm_compute. reflexivity.
Defined.
