(* ===== verification/Store.v ===== *)
(** * Store: conversations, checkpoints and the runs that own them

    server/src/store/conversations.rs, messages.rs, checkpoints.rs, runs.rs and
    tool_rounds.rs, over the schema of server/migrations.

    A table is a finite map from its primary key to its row, a database is the
    record of the tables, and a transaction is a function from a database to
    [res (Db * A)]: on [Err] the transaction is rolled back, so the caller keeps the
    database it had.  Writers hold the store's write lock, so transactions do not
    interleave.  [now] is the value of [now_ms] in the transaction.

    The invariant of the tables is in StoreInvariants.v, what follows for sequences of transactions in StoreMachine.v, and
    what the rows refer to in StoreReferences.v. *)

From stdpp Require Import prelude gmap strings list sorting.
From S2P Require Import Prelude Errors External Message Budget.
Local Open Scope Z_scope.

(** ** Rows *)

(** server/migrations/0001_initial.sql, [conversations]. *)
Record ConversationRow : Type := MkConversation {
  current_checkpoint : option Z;
  active_run : option str;
  conversation_updated : Z
}.

(** [messages], keyed by conversation and message id. *)
Record MessageRow : Type := MkMessageRow {
  row_role : str;
  row_origin : str;
  payload_json : str;
  row_event_id : option str
}.

(** [conversation_checkpoints], keyed by the checkpoint id, with the rows of
    [checkpoint_messages] by ordinal. *)
Record CheckpointRow : Type := MkCheckpoint {
  ck_conversation : str;
  ck_parent : option Z;
  ck_digest : list Z;
  ck_messages : list str
}.

(** server/src/store/runs.rs:15-20, [RunStatus]. *)
Inductive RunStatus : Type := Running | StatusCompleted | StatusCancelled | StatusFailed.

Global Instance RunStatus_eq_dec : EqDecision RunStatus.
Proof. solve_decision. Defined.

(** [runs], keyed by the run id. *)
Record RunRow : Type := MkRunRow {
  run_conversation : str;
  run_request : option str;
  base_checkpoint : Z;
  head_checkpoint : Z;
  run_parent : option str;
  run_parent_call : option str;
  run_kind_name : str;
  subagent_kind_name : option str;
  status : RunStatus;
  provider_call_index : Z;
  turn_usage : option Usage;
  failure_category : option str;
  failure_summary : option str;
  run_created : Z;
  run_updated : Z
}.

(** [llm_calls]: the columns that the state of a run decides. *)
Inductive CallStatus : Type := CallRunning | CallCompleted | CallCancelled | CallError.
Global Instance CallStatus_eq_dec : EqDecision CallStatus.
Proof. solve_decision. Defined.
Record LlmCallRow : Type := MkLlmCall {
  llm_run : str;
  llm_status : CallStatus;
  llm_created : Z;
  llm_finished : option Z;
  llm_duration : option Z;
  llm_error_kind : option str;
  llm_error_message : option str
}.

(** server/src/store/tool_rounds.rs:15-18, [ToolRoundStatus]. *)
Inductive ToolRoundStatus : Type := RoundPending | RoundSettled.
Global Instance ToolRoundStatus_eq_dec : EqDecision ToolRoundStatus.
Proof. solve_decision. Defined.

(** [tool_rounds], keyed by the round id. *)
Record ToolRoundRow : Type := MkToolRound {
  tr_run : str;
  tr_base_checkpoint : Z;
  tr_assistant : ToolRoundAssistant;
  tr_status : ToolRoundStatus;
  tr_version : Z;
  tr_next_seq : Z;
  tr_created : Z;
  tr_updated : Z
}.

(** The result of a completed call. *)
Record CompletedCall : Type := MkCompleted {
  cc_seq : Z;
  cc_content : str;
  cc_is_error : bool;
  cc_checkpoint : Z;
  cc_at : Z
}.

(** [tool_round_calls]: [completed] is [None] while its status is pending. *)
Record ToolCallRow : Type := MkToolCallRow {
  tc_index : Z;
  tc_call_id : str;
  tc_model_call_id : str;
  tc_name : str;
  tc_arguments : json;
  tc_argument_error : option str;
  tc_completed : option CompletedCall
}.

(** The database.  [last_id] is the AUTOINCREMENT counter of the checkpoints. *)
Record Db : Type := MkDb {
  conversations : gmap str ConversationRow;
  messages : gmap (str * str) MessageRow;
  image_blobs : gset (str * str);
  checkpoints : gmap Z CheckpointRow;
  last_id : Z;
  runs : gmap str RunRow;
  llm_calls : gmap str LlmCallRow;
  tool_rounds : gmap str ToolRoundRow;
  tool_round_calls : gmap str (list ToolCallRow)
}.

Definition empty_db : Db := MkDb ∅ ∅ ∅ ∅ 0 ∅ ∅ ∅ ∅.

(** UPDATE of a table. *)
Definition set_conversations (db : Db) (v : gmap str ConversationRow) : Db :=
  MkDb v (messages db) (image_blobs db) (checkpoints db) (last_id db) (runs db) (llm_calls db)
    (tool_rounds db) (tool_round_calls db).
Definition set_messages (db : Db) (v : gmap (str * str) MessageRow) (w : gset (str * str)) : Db :=
  MkDb (conversations db) v w (checkpoints db) (last_id db) (runs db) (llm_calls db)
    (tool_rounds db) (tool_round_calls db).
Definition set_checkpoints (db : Db) (v : gmap Z CheckpointRow) (id : Z) : Db :=
  MkDb (conversations db) (messages db) (image_blobs db) v id (runs db) (llm_calls db)
    (tool_rounds db) (tool_round_calls db).
Definition set_runs (db : Db) (v : gmap str RunRow) (w : gmap str LlmCallRow) : Db :=
  MkDb (conversations db) (messages db) (image_blobs db) (checkpoints db) (last_id db) v w
    (tool_rounds db) (tool_round_calls db).
Definition set_rounds (db : Db) (v : gmap str ToolRoundRow) (w : gmap str (list ToolCallRow)) : Db :=
  MkDb (conversations db) (messages db) (image_blobs db) (checkpoints db) (last_id db) (runs db)
    (llm_calls db) v w.

(** ** What comes from other crates

    The JSON text and bytes of a message (serde), the equality of JSON values,
    SHA-256 and the error of a violated constraint. *)
Class Backend : Type := {
  encode_message : CanonicalMessage → result foreign_error str;
  message_bytes : CanonicalMessage → result foreign_error (list Z);
  decode_message : str → result foreign_error CanonicalMessage;
  json_eq : json → json → bool;
  sha256 : list Z → list Z;
  constraint_failed : str → foreign_error
}.

(** A payload carries the ids of its message, and equality holds of a value and itself.
    Nothing is assumed of what a payload reads back as: [provider_parts] of a tool result
    is [serde(skip)], so a message that has them reads back without them. *)
Class BackendLaws `{Backend} : Prop := {
  encode_identity m m' p : encode_message m = Ok p → encode_message m' = Ok p →
    message_id m = message_id m' ∧ runtime_event_id m = runtime_event_id m';
  json_eq_refl v : json_eq v v = true
}.

(** ** Equality of messages: [derive(PartialEq)] *)
Section MessageEquality.
Context `{B : Backend}.

Definition list_eq {A} (eq : A → A → bool) : list A → list A → bool :=
  fix go l k := match l, k with
                | [], [] => true
                | x :: l, y :: k => eq x y && go l k
                | _, _ => false
                end.
Definition option_eq {A} (eq : A → A → bool) (a b : option A) : bool :=
  match a, b with None, None => true | Some x, Some y => eq x y | _, _ => false end.

Definition part_eq (a b : ContentPart) : bool :=
  match a, b with
  | PText t, PText u => bool_decide (t = u)
  | PImage m d, PImage n e => bool_decide (m = n) && bool_decide (d = e)
  | _, _ => false
  end.
Definition image_eq (a b : ToolImageReference) : bool :=
  bool_decide (blob_id a = blob_id b) && bool_decide (image_mime_type a = image_mime_type b)
  && bool_decide (image_path a = image_path b).
Definition call_eq (a b : ToolCallContent) : bool :=
  (c_index a =? c_index b) && bool_decide (c_call_id a = c_call_id b)
  && bool_decide (c_name a = c_name b) && json_eq (c_arguments a) (c_arguments b).
Definition replay_eq (a b : ProviderReplayState) : bool :=
  bool_decide (provider_kind a = provider_kind b) && json_eq (replay_value a) (replay_value b).
Definition tool_result_eq (a b : ToolResultContent) : bool :=
  bool_decide (r_call_id a = r_call_id b) && bool_decide (r_name a = r_name b)
  && bool_decide (r_content a = r_content b) && eqb (r_is_error a) (r_is_error b)
  && option_eq image_eq (r_image a) (r_image b)
  && list_eq part_eq (r_provider_parts a) (r_provider_parts b).
Definition content_eq (a b : MessageContent) : bool :=
  match a, b with
  | CParts ps, CParts qs => list_eq part_eq ps qs
  | CAssistant t h r s cs, CAssistant t' h' r' s' cs' =>
      bool_decide (t = t') && bool_decide (h = h') && bool_decide (r = r')
      && option_eq replay_eq s s' && list_eq call_eq cs cs'
  | CToolResult x, CToolResult y => tool_result_eq x y
  | _, _ => false
  end.
Definition message_eq (a b : CanonicalMessage) : bool :=
  bool_decide (message_id a = message_id b) && bool_decide (role a = role b)
  && bool_decide (origin a = origin b) && content_eq (content a) (content b)
  && bool_decide (runtime_event_id a = runtime_event_id b).

Context {L : BackendLaws}.

Lemma list_eq_refl {A} (eq : A → A → bool) l : (∀ x, eq x x = true) → list_eq eq l l = true.
Proof. intros H. induction l as [|x l IH]; cbn; [done|]. by rewrite H, IH. Qed.
Lemma option_eq_refl {A} (eq : A → A → bool) o : (∀ x, eq x x = true) → option_eq eq o o = true.
Proof. intros H. by destruct o; cbn. Qed.
Lemma message_eq_refl m : message_eq m m = true.
Proof.
  assert (∀ p, part_eq p p = true) as Hp by (intros []; cbn; by rewrite ?bool_decide_eq_true_2).
  unfold message_eq. rewrite !bool_decide_eq_true_2 by done. cbn. rewrite andb_true_r.
  destruct (content m) as [ps|t h r s cs|x]; cbn.
  - by apply list_eq_refl.
  - rewrite !bool_decide_eq_true_2 by done. cbn. apply andb_true_iff; split.
    + apply option_eq_refl. intros y. unfold replay_eq.
      by rewrite bool_decide_eq_true_2, json_eq_refl.
    + apply list_eq_refl. intros y. unfold call_eq.
      by rewrite !bool_decide_eq_true_2, json_eq_refl, Z.eqb_refl.
  - unfold tool_result_eq. rewrite !bool_decide_eq_true_2, eqb_reflx by done. cbn.
    apply andb_true_iff; split; [|by apply list_eq_refl].
    apply option_eq_refl. intros y. unfold image_eq. by rewrite !bool_decide_eq_true_2.
Qed.
End MessageEquality.

(** ** Messages: server/src/store/messages.rs *)
Section Operations.
Context `{B : Backend}.

(** server/src/store/messages.rs:132-139, [role_name]. *)
Definition role_name (r : Role) : str :=
  match r with
  | RSystem => lit "system" | RUser => lit "user"
  | RAssistant => lit "assistant" | RTool => lit "tool"
  end.

(** server/src/store/messages.rs:141-149, [origin_name]. *)
Definition origin_name (o : Origin) : str :=
  match o with
  | OPrompt => lit "prompt" | OUser => lit "user" | ORuntime => lit "runtime"
  | OAssistant => lit "assistant" | OTool => lit "tool"
  end.

(** server/src/store/messages.rs:152-159, [message_image_blob_id]. *)
Definition message_image_blob_id (m : CanonicalMessage) : option str :=
  match content m with
  | CToolResult result => blob_id <$> r_image result
  | CParts _ | CAssistant _ _ _ _ _ => None
  end.

(** A row of the conversation with this runtime event: the unique index
    [messages_runtime_event]. *)
Definition event_row (db : Db) (c : str) (event : option str) : option MessageRow :=
  match event with
  | None => None
  | Some e => snd <$> head (filter (λ p, p.1.1 = c ∧ row_event_id p.2 = Some e)
                              (map_to_list (messages db)))
  end.

(** server/src/store/messages.rs:85-101, [register_message_image_tx]. *)
Definition register_image (c : str) (m : CanonicalMessage) (images : gset (str * str))
    : gset (str * str) :=
  match message_image_blob_id m with
  | Some image => {[(c, image)]} ∪ images
  | None => images
  end.

(** server/src/store/messages.rs:29-76, [put_message_tx]. *)
Definition put_message_tx (db : Db) (c : str) (m : CanonicalMessage) : res Db :=
  payload ← map_err Json (encode_message m);
  let reused := Store (lit "message id or runtime event reused with different content: "
                       ++ message_id m) in
  let check (existing : MessageRow) :=
    if decide (payload_json existing = payload) then Ok db else Err reused in
  match messages db !! (c, message_id m), event_row db c (runtime_event_id m) with
  | None, None =>
      Ok (set_messages db
            (<[(c, message_id m) :=
               MkMessageRow (role_name (role m)) (origin_name (origin m)) payload
                 (runtime_event_id m)]> (messages db))
            (register_image c m (image_blobs db)))
  | Some existing, _ => check existing
  | None, Some existing => check existing
  end.

(** ** Reading a history *)

(** The recursive query of a lineage: the checkpoint, its parent, and so on; a parent
    has a smaller id than its child, so the id is fuel enough. *)
Fixpoint lineage (fuel : nat) (cks : gmap Z CheckpointRow) (id : Z) : list (Z * CheckpointRow) :=
  match fuel with
  | O => []
  | S fuel =>
      match cks !! id with
      | None => []
      | Some row =>
          (id, row) :: match ck_parent row with
                       | Some parent => lineage fuel cks parent
                       | None => []
                       end
      end
  end.
Definition lineage_of (db : Db) (id : Z) : list (Z * CheckpointRow) :=
  lineage (Z.to_nat id) (checkpoints db) id.

(** The message rows of a history, from the root to the checkpoint. *)
Definition history_rows (db : Db) (id : Z) : list (str * MessageRow) :=
  mjoin ((λ p, omap (λ m, (λ row, (m, row)) <$> messages db !! (ck_conversation p.2, m))
                 (ck_messages p.2))
         <$> reverse (lineage_of db id)).

(** server/src/store/messages.rs:103-128, [load_checkpoint_messages_tx]. *)
Definition load_checkpoint_messages (db : Db) (id : Z) : res (list CanonicalMessage) :=
  mapM (λ p, map_err Json (decode_message (payload_json p.2))) (history_rows db id).

(** ** Digests *)

(** server/src/store/checkpoints.rs:530-532, [root_digest]. *)
Definition root_digest : list Z := sha256 [].

(** [u64::to_be_bytes]. *)
Definition be_bytes8 (v : Z) : list Z :=
  to_be_bytes (Z.shiftr v 32 `mod` 2 ^ 32) ++ to_be_bytes (v `mod` 2 ^ 32).

(** server/src/store/checkpoints.rs:552-559, [update_digest], as the bytes it hashes. *)
Definition digest_input (ms : list CanonicalMessage) : res (list Z) :=
  foldl (λ acc m,
           input ← acc;
           bytes ← map_err Json (message_bytes m);
           Ok (input ++ be_bytes8 (zlen bytes) ++ bytes))
    (Ok []) ms.

(** server/src/store/checkpoints.rs:545-550, [chained_digest]. *)
Definition chained_digest (parent : list Z) (additions : list CanonicalMessage) : res (list Z) :=
  input ← digest_input additions;
  Ok (sha256 (parent ++ input)).

(** server/src/store/checkpoints.rs:578-594, [checkpoint_digest_tx]. *)
Definition checkpoint_digest (db : Db) (id : Z) : res (list Z) :=
  match checkpoints db !! id with
  | Some row => Ok (ck_digest row)
  | None => Err (Store (lit "checkpoint " ++ decimal id
                        ++ lit " is missing while computing its parent digest"))
  end.

(** ** Checkpoints *)

(** The checkpoints a query selects, by increasing id. *)
Definition select_checkpoints (P : CheckpointRow → bool) (db : Db) : list Z :=
  merge_sort Z.le (fst <$> filter (λ p, P p.2) (map_to_list (checkpoints db))).
Definition has_digest (c : str) (digest : list Z) (row : CheckpointRow) : bool :=
  bool_decide (ck_conversation row = c) && bool_decide (ck_digest row = digest).

(** INSERT INTO conversation_checkpoints, with the constraint that the digest is
    unique in its conversation. *)
Definition insert_checkpoint_row (db : Db) (row : CheckpointRow) : res (Db * Z) :=
  match select_checkpoints (has_digest (ck_conversation row) (ck_digest row)) db with
  | [] => let id := last_id db + 1 in
          Ok (set_checkpoints db (<[id := row]> (checkpoints db)) id, id)
  | _ => Err (Database (constraint_failed
                (lit "conversation_checkpoints.conversation_id, conversation_checkpoints.state_digest")))
  end.

(** server/src/store/checkpoints.rs:472-505, [insert_checkpoint_tx]; a message id
    occurs once in a checkpoint. *)
Definition insert_checkpoint_tx (db : Db) (c : str) (parent : Z) (additions : list CanonicalMessage)
    (digest : list Z) : res (Db * Z) :=
  db ← foldl (λ acc m, db ← acc; put_message_tx db c m) (Ok db) additions;
  let ids := message_id <$> additions in
  if decide (NoDup ids) then
    insert_checkpoint_row db (MkCheckpoint c (Some parent) digest ids)
  else Err (Database (constraint_failed
              (lit "checkpoint_messages.checkpoint_id, checkpoint_messages.message_id"))).

(** server/src/store/checkpoints.rs:451-470, [conversation_root_tx]. *)
Definition conversation_root_tx (db : Db) (c : str) : res Z :=
  match select_checkpoints (λ row, bool_decide (ck_conversation row = c)
                                   && bool_decide (ck_parent row = None)) db with
  | root :: _ => Ok root
  | [] => Err (Store (lit "conversation " ++ c ++ lit " has no root checkpoint"))
  end.

(** server/src/store/conversations.rs:30-72, [ensure_conversation_tx]. *)
Definition ensure_conversation_tx (db : Db) (now : Z) (c : str) : res (Db * Z) :=
  let db := match conversations db !! c with
            | Some _ => db
            | None => set_conversations db
                        (<[c := MkConversation None None now]> (conversations db))
            end in
  match conversations db !! c with
  | Some (MkConversation (Some current) _ _) => Ok (db, current)
  | Some (MkConversation None active _) =>
      '(db, root) ← insert_checkpoint_row db (MkCheckpoint c None root_digest []);
      Ok (set_conversations db (<[c := MkConversation (Some root) active now]> (conversations db)),
          root)
  | None => Err (Database (constraint_failed (lit "no rows returned")))
  end.

(** server/src/store/conversations.rs:76-99, [require_active_head_tx]. *)
Definition require_active_head_tx (db : Db) (c run : str) (expected : Z) : res () :=
  let refused := Store (lit "run " ++ run ++ lit " no longer owns conversation " ++ c
                        ++ lit " at checkpoint " ++ decimal expected) in
  match conversations db !! c with
  | Some row =>
      if decide (current_checkpoint row = Some expected ∧ active_run row = Some run) then Ok ()
      else Err refused
  | None => Err refused
  end.

(** The UPDATE of [conversations] under ownership and of the run's head, that ends
    every append: server/src/store/checkpoints.rs:422-444. *)
Definition move_head (db : Db) (now : Z) (c run : str) (expected next : Z) (verb : string) : res Db :=
  match conversations db !! c with
  | Some row =>
      if decide (current_checkpoint row = Some expected ∧ active_run row = Some run) then
        let db := set_conversations db
                    (<[c := MkConversation (Some next) (active_run row) now]> (conversations db)) in
        Ok (set_runs db
              (alter (λ r, MkRunRow (run_conversation r) (run_request r) (base_checkpoint r) next (run_parent r)
                 (run_parent_call r) (run_kind_name r) (subagent_kind_name r) (status r)
                 (provider_call_index r) (turn_usage r) (failure_category r) (failure_summary r)
                 (run_created r) now) run (runs db)) (llm_calls db))
      else Err (Store (lit "lost active ownership while " ++ lit verb
                       ++ lit " checkpoint for run " ++ run))
  | None => Err (Store (lit "lost active ownership while " ++ lit verb
                        ++ lit " checkpoint for run " ++ run))
  end.

(** server/src/store/checkpoints.rs:396-446, [append_checkpoint_with_digest_tx]. *)
Definition append_checkpoint_with_digest_tx (db : Db) (now : Z) (c run : str) (expected : Z)
    (additions : list CanonicalMessage) (digest : list Z) : res (Db * Z) :=
  _ ← require_active_head_tx db c run expected;
  match select_checkpoints (has_digest c digest) db with
  | _ :: _ => Err (Store (lit
      "active append would reuse an existing checkpoint instead of creating a child"))
  | [] =>
      '(db, checkpoint) ← insert_checkpoint_tx db c expected additions digest;
      db ← move_head db now c run expected checkpoint "appending";
      Ok (db, checkpoint)
  end.

(** server/src/store/checkpoints.rs:376-394, [append_checkpoint_tx]. *)
Definition append_checkpoint_tx (db : Db) (now : Z) (c run : str) (expected : Z)
    (additions : list CanonicalMessage) : res (Db * Z) :=
  parent_digest ← checkpoint_digest db expected;
  digest ← chained_digest parent_digest additions;
  append_checkpoint_with_digest_tx db now c run expected additions digest.

(** server/src/store/checkpoints.rs:155-182, [append_checkpoint]. *)
Definition append_checkpoint (db : Db) (now : Z) (c run : str) (expected : Z)
    (additions : list CanonicalMessage) : res (Db * Z) :=
  match additions with
  | [] => Ok (db, expected)
  | _ => append_checkpoint_tx db now c run expected additions
  end.

(** server/src/store/checkpoints.rs:184-226, [replace_checkpoint]. *)
Definition replace_checkpoint (db : Db) (now : Z) (c run : str) (expected : Z)
    (ms : list CanonicalMessage) : res (Db * Z) :=
  _ ← require_active_head_tx db c run expected;
  root ← conversation_root_tx db c;
  parent_digest ← checkpoint_digest db root;
  digest ← chained_digest parent_digest ms;
  '(db, checkpoint) ← insert_checkpoint_tx db c root ms digest;
  db ← move_head db now c run expected checkpoint "replacing";
  Ok (db, checkpoint).

(** server/src/store/checkpoints.rs:517-525, [extends_prefix]. *)
Definition extends_prefix (stored incoming : list CanonicalMessage) : bool :=
  (zlen stored <=? zlen incoming)
  && forallb (λ p, bool_decide (role p.1 = role p.2) && bool_decide (origin p.1 = origin p.2)
                   && content_eq (content p.1) (content p.2)
                   && bool_decide (runtime_event_id p.1 = runtime_event_id p.2))
       (zip stored incoming).

(** server/src/store/checkpoints.rs:99-153, [import_checkpoint]. *)
Definition import_checkpoint (db : Db) (now : Z) (c : str) (ms : list CanonicalMessage)
    : res (Db * Z) :=
  '(db, current) ← ensure_conversation_tx db now c;
  current_messages ← load_checkpoint_messages db current;
  '(parent, additions) ←
    (if extends_prefix current_messages ms then Ok (current, drop (length current_messages) ms)
     else root ← conversation_root_tx db c; Ok (root, ms));
  if decide (additions = [] ∧ parent = current) then Ok (db, current)
  else
    parent_digest ← checkpoint_digest db parent;
    digest ← chained_digest parent_digest additions;
    match select_checkpoints (has_digest c digest) db with
    | existing :: _ => Ok (db, existing)
    | [] => insert_checkpoint_tx db c parent additions digest
    end.

(** server/src/store/checkpoints.rs:66-96, [match_checkpoint_prefix]: the loop, from
    the additions already matched. *)
Fixpoint match_prefix_from (db : Db) (c : str) (checkpoint : Z) (parent_digest : list Z)
    (matched : nat) (additions : list CanonicalMessage) : res (Z * nat) :=
  match additions with
  | [] => Ok (checkpoint, matched)
  | addition :: additions =>
      digest ← chained_digest parent_digest [addition];
      match select_checkpoints (λ row, has_digest c digest row
                                  && bool_decide (ck_parent row = Some checkpoint)) db with
      | child :: _ => match_prefix_from db c child digest (S matched) additions
      | [] => Ok (checkpoint, matched)
      end
  end.
Definition match_checkpoint_prefix (db : Db) (c : str) (base : Z) (additions : list CanonicalMessage)
    : res (Z * nat) :=
  parent_digest ← checkpoint_digest db base;
  match_prefix_from db c base parent_digest 0 additions.

(** ** Runtime messages, committed once *)

(** server/src/store/checkpoints.rs:641-645, [ChainIdentity]. *)
Record ChainIdentity : Type := MkIdentity {
  id_message : str;
  id_event : option str;
  id_body : option CanonicalMessage
}.

(** server/src/store/checkpoints.rs:649-653, [ChainIdentity::matches]. *)
Definition identity_matches (known : ChainIdentity) (m : CanonicalMessage) : bool :=
  bool_decide (id_message known = message_id m)
  || bool_decide (runtime_event_id m ≠ None) && bool_decide (id_event known = runtime_event_id m).

(** server/src/store/checkpoints.rs:601-636, [chain_identities]: nothing when the
    checkpoint is not of the conversation.  The query orders by checkpoint id, which is
    the order of the lineage. *)
Definition chain_identities (db : Db) (c : str) (id : Z) : list ChainIdentity :=
  match checkpoints db !! id with
  | Some row =>
      if decide (ck_conversation row = c) then
        (λ p, MkIdentity p.1 (row_event_id p.2) None) <$> history_rows db id
      else []
  | None => []
  end.

(** server/src/store/checkpoints.rs:277-303, is the message stored with this content. *)
Definition stored_same (db : Db) (c : str) (existing : option CanonicalMessage)
    (m : CanonicalMessage) : res bool :=
  match existing with
  | Some stored => Ok (message_eq stored m)
  | None =>
      match messages db !! (c, message_id m) with
      | Some row => stored ← map_err Json (decode_message (payload_json row)); Ok (message_eq stored m)
      | None => Ok false
      end
  end.

Record AppendLoop : Type := MkAppend {
  al_db : Db;
  al_known : list ChainIdentity;
  al_head : Z;
  al_digest : list Z;
  al_appended : list (Z * bool)
}.

(** server/src/store/checkpoints.rs:275-341, one message of [append_messages_once]. *)
Definition append_one (c : str) (s : AppendLoop) (m : CanonicalMessage) : res AppendLoop :=
  let '(MkAppend db known head parent_digest appended) := s in
  match list_find (λ k, Is_true (identity_matches k m)) known with
  | Some (_, existing) =>
      match stored_same db c (id_body existing) m with
      | Ok true => Ok (MkAppend db known head parent_digest (appended ++ [(head, false)]))
      | Ok false => Err (Store (lit "message id or runtime event reused with different content: "
                                ++ message_id m))
      | Err e => Err e
      end
  | None =>
      digest ← chained_digest parent_digest [m];
      match select_checkpoints (has_digest c digest) db with
      | _ :: _ => Err (Store (lit
          "active append would reuse an existing checkpoint instead of creating a child"))
      | [] =>
          '(db, head) ← insert_checkpoint_tx db c head [m] digest;
          Ok (MkAppend db (known ++ [MkIdentity (message_id m) (runtime_event_id m) (Some m)])
                head digest (appended ++ [(head, true)]))
      end
  end.

(** server/src/store/checkpoints.rs:256-374, [append_messages_once].  The identities
    are read from [snapshot], before the write lock is taken. *)
Definition append_messages_once (snapshot db : Db) (now : Z) (c run : str) (expected : Z)
    (ms : list CanonicalMessage) : res (Db * list (Z * bool)) :=
  match ms with
  | [] => Ok (db, [])
  | _ =>
      let known := chain_identities snapshot c expected in
      _ ← require_active_head_tx db c run expected;
      parent_digest ← checkpoint_digest db expected;
      s ← foldl (λ acc m, s ← acc; append_one c s m)
            (Ok (MkAppend db known expected parent_digest [])) ms;
      if decide (al_head s = expected) then Ok (al_db s, al_appended s)
      else
        db ← move_head (al_db s) now c run expected (al_head s) "appending";
        Ok (db, al_appended s)
  end.
End Operations.

(** ** Runs: server/src/store/runs.rs *)
Section Runs.
Context `{B : Backend}.

(** server/src/store/runs.rs:34-39, [ClaimedRun]. *)
Record ClaimedRun : Type := MkClaimed {
  cl_run : str;
  cl_conversation : str;
  cl_head : Z;
  cl_replaced : option str
}.

(** server/src/store/runs.rs:475-492, [run_kind_columns]. *)
Definition run_kind_columns (k : RunKind) : option str * option str * str * option str :=
  match k with
  | Root => (None, None, lit "root", None)
  | Subagent parent call kind =>
      (parent, call, lit "subagent",
       Some (match kind with GeneralPurpose => lit "generalPurpose" | Named name => name end))
  end.

(** The status, the failure and the time of a run; its usage too when it is given. *)
Definition end_run (r : RunRow) (s : RunStatus) (usage : option Usage)
    (category summary : option str) (now : Z) : RunRow :=
  MkRunRow (run_conversation r) (run_request r) (base_checkpoint r) (head_checkpoint r) (run_parent r)
    (run_parent_call r) (run_kind_name r) (subagent_kind_name r) s (provider_call_index r)
    usage category summary (run_created r) now.

(** The UPDATE of the running calls of a run. *)
Definition end_calls (calls : gmap str LlmCallRow) (run : str) (now : Z) (s : CallStatus)
    (kind message : option str) : gmap str LlmCallRow :=
  (λ call, if decide (llm_run call = run ∧ llm_status call = CallRunning) then
             MkLlmCall run s (llm_created call) (Some now) (Some (Z.max 0 (now - llm_created call)))
               kind message
           else call) <$> calls.

(** A claim cancels the calls of the run it replaces without touching their errors. *)
Definition cancel_calls (calls : gmap str LlmCallRow) (run : str) (now : Z) : gmap str LlmCallRow :=
  (λ call, if decide (llm_run call = run ∧ llm_status call = CallRunning) then
             MkLlmCall run CallCancelled (llm_created call) (Some now)
               (Some (Z.max 0 (now - llm_created call))) (llm_error_kind call) (llm_error_message call)
           else call) <$> calls.

(** server/src/store/runs.rs:64-91, the run a claim replaces is cancelled. *)
Definition cancel_replaced (db : Db) (now : Z) (run : str) (replaced : option str) : Db :=
  match replaced with
  | Some old =>
      if decide (old = run) then db
      else set_runs db
             (alter (λ r, if decide (status r = Running)
                          then end_run r StatusCancelled (turn_usage r) (failure_category r)
                                 (failure_summary r) now
                          else r) old (runs db))
             (cancel_calls (llm_calls db) old now)
  | None => db
  end.

(** server/src/store/runs.rs:42-135, [claim_run]. *)
Definition claim_run (db : Db) (now : Z) (p : PreparedRun) : res (Db * ClaimedRun) :=
  let c := conversation_id p in
  let base := base_checkpoint_id p in
  '(db, _) ← ensure_conversation_tx db now c;
  if decide (ck_conversation <$> checkpoints db !! base = Some c) then
    let replaced := conversations db !! c ≫= active_run in
    let db := cancel_replaced db now (run_id p) replaced in
    let '(parent, call, kind, sub) := run_kind_columns (run_kind p) in
    match runs db !! run_id p with
    | Some _ => Err (Database (constraint_failed (lit "runs.run_id")))
    | None =>
        let row := MkRunRow c (cursor_request_id p) base base parent call kind sub Running (-1) None None None now now in
        let db := set_runs db (<[run_id p := row]> (runs db)) (llm_calls db) in
        Ok (set_conversations db
              (<[c := MkConversation (Some base) (Some (run_id p)) now]> (conversations db)),
            MkClaimed (run_id p) c base
              (match replaced with
               | Some old => if decide (old = run_id p) then None else Some old
               | None => None
               end))
    end
  else Err (Store (lit "base checkpoint " ++ decimal base
                   ++ lit " does not belong to conversation " ++ c)).

(** server/src/store/runs.rs:293-307, [begin_provider_call]. *)
Definition begin_provider_call (db : Db) (now : Z) (run : str) : res (Db * Z) :=
  match runs db !! run with
  | Some r =>
      if decide (status r = Running) then
        let next := provider_call_index r + 1 in
        Ok (set_runs db
              (<[run := MkRunRow (run_conversation r) (run_request r) (base_checkpoint r) (head_checkpoint r)
                   (run_parent r) (run_parent_call r) (run_kind_name r) (subagent_kind_name r)
                   (status r) next (turn_usage r) (failure_category r) (failure_summary r)
                   (run_created r) now]> (runs db)) (llm_calls db),
            u64 next)
      else Err (Store (lit "run is not active: " ++ run))
  | None => Err (Store (lit "run is not active: " ++ run))
  end.

(** server/src/store/runs.rs:309-398, [finish_run]. *)
Definition finish_run (db : Db) (now : Z) (run : str) (s : RunStatus) (usage : option Usage)
    (failed : option (str * str)) : res (Db * bool) :=
  match runs db !! run with
  | None => Err (RunNotFound run)
  | Some r =>
      let c := run_conversation r in
      let running := bool_decide (status r = Running) in
      let terminal := if running then s else status r in
      let category := if running then fst <$> failed else failure_category r in
      let summary := if running then snd <$> failed else failure_summary r in
      let updated := if running then <[run := end_run r s usage category summary now]> (runs db)
                     else runs db in
      calls ← match terminal with
              | StatusCancelled => Ok (end_calls (llm_calls db) run now CallCancelled None None)
              | StatusFailed => Ok (end_calls (llm_calls db) run now CallError category summary)
              | StatusCompleted =>
                  Ok (end_calls (llm_calls db) run now CallError (Some (lit "internal"))
                        (Some (lit "Run completed before LLM call reached a terminal state")))
              | Running => Err (Store (lit
                  "cannot finish LLM calls for non-terminal Run status: running"))
              end;
      let db := set_runs db updated calls in
      match conversations db !! c with
      | Some row =>
          if decide (active_run row = Some run) then
            Ok (set_conversations db
                  (<[c := MkConversation (current_checkpoint row) None now]> (conversations db)), true)
          else Ok (db, false)
      | None => Ok (db, false)
      end
  end.

Definition INTERRUPTED_BY_PROCESS_EXIT : str := lit "interrupted by process exit".

(** Is a run one that a previous process left running. *)
Definition left_running (started : Z) (r : RunRow) : bool :=
  bool_decide (status r = Running) && (run_created r <? started).

(** server/src/store/runs.rs:408-472, [reconcile_interrupted_runs] on the tables of
    this model; the result counts the runs and the calls. *)
Definition reconcile_interrupted_runs (db : Db) (now started : Z) : Db * Z :=
  let left_id (o : option str) :=
    match o ≫= λ run, runs db !! run with Some r => left_running started r | None => false end in
  let left_call call := bool_decide (llm_status call = CallRunning) && (llm_created call <? started) in
  let conversations' :=
    (λ row, if left_id (active_run row)
            then MkConversation (current_checkpoint row) None (conversation_updated row)
            else row) <$> conversations db in
  let runs' :=
    (λ r, if left_running started r
          then end_run r StatusFailed (turn_usage r) (Some (lit "interrupted"))
                 (Some INTERRUPTED_BY_PROCESS_EXIT) now
          else r) <$> runs db in
  let calls' :=
    (λ call, if left_call call
             then MkLlmCall (llm_run call) CallError (llm_created call) (Some now)
                    (Some (Z.max 0 (now - llm_created call))) (Some (lit "interrupted"))
                    (Some INTERRUPTED_BY_PROCESS_EXIT)
             else call) <$> llm_calls db in
  (set_runs (set_conversations db conversations') runs' calls',
   Z.of_nat (length (filter (λ p, Is_true (left_running started p.2)) (map_to_list (runs db))))
   + Z.of_nat (length (filter (λ p, Is_true (left_call p.2)) (map_to_list (llm_calls db))))).
End Runs.

(** ** Tool rounds: server/src/store/tool_rounds.rs *)
Section Rounds.
Context `{B : Backend}.

(** server/src/store/tool_rounds.rs:34-39, [ToolCommit]. *)
Record ToolCommit : Type := MkCommit {
  tm_checkpoint : Z;
  tm_version : Z;
  tm_seq : Z;
  tm_settled : bool
}.

(** A new call of a round. *)
Definition pending_call (call : ToolCall) : ToolCallRow :=
  MkToolCallRow (index call) (call_id call) (Message.model_call_id call) (name call)
    (arguments call) (argument_error call) None.

(** server/src/store/tool_rounds.rs:42-111, [create_tool_round]. *)
Definition create_tool_round (db : Db) (now : Z) (round run : str) (base : Z)
    (assistant : ToolRoundAssistant) (calls : list ToolCall) (created : option Z) : res Db :=
  match calls with
  | [] => Err (Store (lit "cannot persist an empty tool round"))
  | _ =>
      let owns :=
        match runs db !! run with
        | Some r =>
            match conversations db !! run_conversation r with
            | Some row => bool_decide (head_checkpoint r = base ∧ status r = Running
                            ∧ active_run row = Some run
                            ∧ current_checkpoint row = Some (head_checkpoint r))
            | None => false
            end
        | None => false
        end in
      if owns then
        if match created with Some t => I64_MAX <? t | None => false end then
          Err (Protocol (lit "tool round timestamp exceeds SQLite INTEGER"))
        else
          match tool_rounds db !! round with
          | Some _ => Err (Database (constraint_failed (lit "tool_rounds.round_id")))
          | None =>
              if decide (NoDup (index <$> calls) ∧ NoDup (call_id <$> calls)) then
                Ok (set_rounds db
                      (<[round := MkToolRound run base assistant RoundPending 0 0
                                    (default now created) now]> (tool_rounds db))
                      (<[round := pending_call <$> calls]> (tool_round_calls db)))
              else Err (Database (constraint_failed (lit "tool_round_calls.round_id, tool_round_calls.call_index")))
          end
      else Err (Store (lit "run " ++ run ++ lit " cannot start tool round at checkpoint "
                       ++ decimal base))
  end.

Definition is_pending (call : ToolCallRow) : bool := bool_decide (cc_seq <$> tc_completed call = None).

(** server/src/store/tool_rounds.rs:170-211, the two messages of a result: the first one
    of a round carries the text, the thinking and the replay state of the assistant. *)
Definition result_messages (round : str) (assistant : ToolRoundAssistant) (first : bool)
    (call : ToolCallRow) (result : ToolResult) : list CanonicalMessage :=
  [MkMessage (round ++ lit ":" ++ tr_call_id result ++ lit ":assistant") RAssistant OAssistant
     (CAssistant (if first then a_text assistant else []) (if first then a_thinking assistant else [])
        (Some round) (if first then a_replay_state assistant else None)
        [MkCall (tc_index call) (tr_call_id result) (tc_name call) (tc_arguments call)]) None;
   MkMessage (round ++ lit ":" ++ tr_call_id result ++ lit ":result") RTool OTool
     (CToolResult (MkResult (tr_call_id result) (tc_name call) (tr_content result)
        (tr_is_error result) (tr_image result) [])) None].

(** The UPDATE of the call that gets its result. *)
Definition complete_call (id : str) (done : CompletedCall) (call : ToolCallRow) : ToolCallRow :=
  if decide (tc_call_id call = id ∧ tc_completed call = None) then
    MkToolCallRow (tc_index call) (tc_call_id call) (tc_model_call_id call) (tc_name call)
      (tc_arguments call) (tc_argument_error call) (Some done)
  else call.

(** server/src/store/tool_rounds.rs:113-259, [commit_tool_result]. *)
Definition commit_tool_result (db : Db) (now : Z) (c run round : str) (result : ToolResult)
    : res (Db * ToolCommit) :=
  let unknown := Store (lit "unknown tool round: " ++ round) in
  match tool_rounds db !! round with
  | None => Err unknown
  | Some r =>
      if negb (bool_decide (tr_run r = run)) then Err unknown
      else if bool_decide (tr_status r = RoundSettled) then
        Err (Store (lit "tool round is already settled: " ++ round))
      else
        let calls := default [] (tool_round_calls db !! round) in
        match list_find (λ call, tc_call_id call = tr_call_id result) calls with
        | None => Err (Protocol (lit "unknown tool result call_id: " ++ tr_call_id result))
        | Some (_, call) =>
            if negb (is_pending call) then
              Err (Protocol (lit "duplicate tool result call_id: " ++ tr_call_id result))
            else
              match runs db !! run with
              | None => Err (Database (constraint_failed (lit "no rows returned")))
              | Some run_row =>
                  let first := tr_next_seq r =? 0 in
                  '(db, checkpoint) ← append_checkpoint_tx db now c run (head_checkpoint run_row)
                      (result_messages round (tr_assistant r) first call result);
                  let done := MkCompleted (tr_next_seq r) (tr_content result) (tr_is_error result)
                                checkpoint now in
                  let calls' := complete_call (tr_call_id result) done <$> calls in
                  let settled := bool_decide (filter (λ call, Is_true (is_pending call)) calls' = []) in
                  let round_row := MkToolRound (tr_run r) (tr_base_checkpoint r) (tr_assistant r)
                      (if settled then RoundSettled else RoundPending) (tr_version r + 1)
                      (tr_next_seq r + 1) (tr_created r) now in
                  Ok (set_rounds db (<[round := round_row]> (tool_rounds db))
                        (<[round := calls']> (tool_round_calls db)),
                      MkCommit checkpoint (u64 (tr_version r + 1)) (u64 (tr_next_seq r)) settled)
              end
        end
  end.
End Rounds.

(** ** Queries *)
Section Queries.
Context `{B : Backend}.

(** server/src/store/checkpoints.rs:34-47, [checkpoint_parent]. *)
Definition checkpoint_parent (db : Db) (id : Z) : option Z := checkpoints db !! id ≫= ck_parent.

(** server/src/store/checkpoints.rs:49-64, [load_current_messages]. *)
Definition load_current_messages (db : Db) (c : str) : res (list CanonicalMessage) :=
  match conversations db !! c ≫= current_checkpoint with
  | Some id => load_checkpoint_messages db id
  | None => Ok []
  end.

(** server/src/store/checkpoints.rs:228-244, [append_message_once]. *)
Definition append_message_once (snapshot db : Db) (now : Z) (c run : str) (expected : Z)
    (m : CanonicalMessage) : res (Db * option (Z * bool)) :=
  '(db, out) ← append_messages_once snapshot db now c run expected [m];
  Ok (db, last out).

(** server/src/store/runs.rs:137-151, [active_run_for_cursor_request]: the running run
    of the request that was created last. *)
Definition active_run_for_cursor_request (db : Db) (request : str) : option str :=
  let newer (best : option (str * RunRow)) (p : str * RunRow) :=
    if decide (run_request p.2 = Some request ∧ status p.2 = Running) then
      match best with
      | Some b => if run_created b.2 <? run_created p.2 then Some p else best
      | None => Some p
      end
    else best in
  fst <$> foldl newer None (map_to_list (runs db)).

(** All the rows of [tool_round_calls]. *)
Definition all_calls (db : Db) : list ToolCallRow := mjoin ((map_to_list (tool_round_calls db)).*2).

(** The join of the running children of a run with the completed calls that started them. *)
Definition background_children (db : Db) (run : str) : list (str * RunRow) :=
  filter (λ p, run_parent p.2 = Some run ∧ status p.2 = Running ∧
    Exists (λ call, run_parent_call p.2 = Some (tc_call_id call) ∧ tc_completed call ≠ None)
      (all_calls db)) (map_to_list (runs db)).

(** server/src/store/runs.rs:159-173, [has_running_background_subagents]. *)
Definition has_running_background_subagents (db : Db) (run : str) : bool :=
  match background_children db run with [] => false | _ => true end.

(** MAX of a column. *)
Definition max_of (l : list Z) : option Z :=
  foldr (λ x m, Some (match m with Some y => Z.max x y | None => x end)) None l.

(** server/src/store/runs.rs:180-207, [background_subagent_activity]. *)
Definition background_subagent_activity (db : Db) (run : str) : option Z :=
  let calls_of child := (λ p, llm_created p.2) <$>
    filter (λ p, llm_run p.2 = child) (map_to_list (llm_calls db)) in
  let rounds_of child := (λ p, tr_updated p.2) <$>
    filter (λ p, tr_run p.2 = child) (map_to_list (tool_rounds db)) in
  max_of ((λ p, Z.max (run_updated p.2)
                  (Z.max (default (run_updated p.2) (max_of (calls_of p.1)))
                         (default (run_updated p.2) (max_of (rounds_of p.1)))))
          <$> background_children db run).

(** server/src/store/tool_rounds.rs:21-31, [ToolRoundSnapshot]. *)
Record ToolRoundSnapshot : Type := MkRoundSnapshot {
  ts_round : str;
  ts_run : str;
  ts_base : Z;
  ts_assistant : ToolRoundAssistant;
  ts_calls : list ToolCall;
  ts_completed : list str;
  ts_status : ToolRoundStatus;
  ts_version : Z;
  ts_created : Z
}.

Definition index_before (a b : ToolCallRow) : Prop := tc_index a ≤ tc_index b.
#[global] Instance index_before_dec a b : Decision (index_before a b) := decide (tc_index a ≤ tc_index b).

(** server/src/store/tool_rounds.rs:261-312, [tool_round]; the text of the arguments is
    their stored JSON. *)
Definition tool_round (display : json → str) (db : Db) (round : str) : option ToolRoundSnapshot :=
  r ← tool_rounds db !! round;
  let rows := merge_sort index_before (default [] (tool_round_calls db !! round)) in
  Some (MkRoundSnapshot round (tr_run r) (tr_base_checkpoint r) (tr_assistant r)
    ((λ call, MkToolCall (tc_index call) (tc_call_id call) (tc_model_call_id call) (tc_name call)
                (display (tc_arguments call)) (tc_arguments call) (tc_argument_error call)) <$> rows)
    (tc_call_id <$> filter (λ call, tc_completed call ≠ None) rows)
    (tr_status r) (u64 (tr_version r)) (u64 (tr_created r))).
End Queries.
