(* ===== verification/Spill.v ===== *)
(** * Spill: the files of large tool results and of compacted histories

    server/src/model/tool_result_spill.rs.  A tool result that is cut for the model is kept in full in a file named after its
    call, and the history a compaction replaces in one named after its conversation; the maintenance loop reads the reference back
    from the name and removes the files whose reference is gone.

    [artifact_names_resolve]: the reference is read back from every name that is given, so a live one is never taken for a dead one.
    [prune_directory_spec]: what a pass over a directory removes and what it leaves.  The file system is the list of what [read_dir]
    yields and whether each removal succeeds. *)

From stdpp Require Import prelude gmap sets strings list sorting.
From S2P Require Import Prelude Utf8 Errors External Json Message Store.
Local Open Scope Z_scope.

(** ** The names *)

(** [char::from_digit(_, 16)] and [char::to_digit(16)]. *)
Definition hex_char (n : Z) : Z := if n <? 10 then 48 + n else 87 + n.
Definition hex_value (c : Z) : option Z :=
  if is_ascii_digit c then Some (c - 48)
  else if (97 <=? c) && (c <=? 102) then Some (c - 87)
  else if (65 <=? c) && (c <=? 70) then Some (c - 55) else None.
(** server/src/model/tool_result_spill.rs:174-181, [hex_encode]. *)
Definition hex_encode (bytes : list Z) : str := concat ((λ b, [hex_char (Z.shiftr b 4); hex_char (Z.land b 15)]) <$> bytes).
(** server/src/model/tool_result_spill.rs:192-198, [hex_decode]: the pairs of digits. *)
Fixpoint hex_pairs (digits : list Z) : option (list Z) :=
  match digits with
  | [] => Some []
  | [_] => None
  | a :: b :: digits => high ← hex_value a; low ← hex_value b; bytes ← hex_pairs digits; Some (high * 16 + low :: bytes)
  end.
(** server/src/model/tool_result_spill.rs:183-199, [hex_decode]. *)
Definition hex_decode (encoded : str) : option (list Z) :=
  if Z.odd (str_len encoded) then None else hex_pairs (as_bytes encoded).
(** server/src/model/tool_result_spill.rs:201-208, [fnv1a]. *)
Definition fnv1a (bytes : list Z) : Z := foldl (λ hash b, u32 (Z.lxor hash b * 0x01000193)) 0x811c9dc5 bytes.
(** The format [{:08x}] of a [u32]. *)
Definition hex8 (h : Z) : str := (λ i, hex_char (Z.land (Z.shiftr h (4 * i)) 15)) <$> [7; 6; 5; 4; 3; 2; 1; 0].

(** server/src/model/tool_result_spill.rs:52-52, [FILE_NAME_PART]. *)
Definition FILE_NAME_PART : nat := 40.
(** server/src/model/tool_result_spill.rs:343-360, [sanitize]. *)
Definition sanitize (value : str) : str :=
  let cleaned := take FILE_NAME_PART ((λ c, if is_ascii_alnum c || (c =? 45) || (c =? 95) then c else 95) <$> value) in
  match cleaned with [] => lit "result" | _ => cleaned end.
(** server/src/model/tool_result_spill.rs:147-154, [spill_file_name]. *)
Definition spill_file_name (name call_id : str) : str :=
  hex8 (fnv1a (as_bytes (name ++ 0 :: call_id))) ++ lit "-" ++ hex_encode (as_bytes call_id) ++ lit "-" ++ sanitize name ++ lit ".txt".
(** server/src/model/tool_result_spill.rs:89-95, [archive_file_name]. *)
Definition archive_file_name (conversation_id run_id : str) (stamp : Z) : str :=
  hex_encode (as_bytes conversation_id) ++ lit "-" ++ decimal stamp ++ lit "-"
  ++ hex8 (fnv1a (as_bytes (conversation_id ++ 0 :: run_id))) ++ lit ".jsonl".

(** [str::strip_suffix]. *)
Definition strip_suffix (p s : str) : option str :=
  let k := (length s - length p)%nat in
  if bool_decide (drop k s = p) then Some (take k s) else None.
(** server/src/model/tool_result_spill.rs:157-165, [spill_call_id]. *)
Definition spill_call_id (file_name : str) : option str :=
  rest ← strip_suffix (lit ".txt") file_name;
  '(hash, rest) ← split_once (lit "-") rest;
  if negb (str_len hash =? 8) || negb (forallb is_ascii_hexdigit hash) then None
  else '(encoded, _) ← split_once (lit "-") rest; bytes ← hex_decode encoded; from_utf8 bytes.
(** server/src/model/tool_result_spill.rs:168-172, [archive_conversation_id]. *)
Definition archive_conversation_id (file_name : str) : option str :=
  rest ← strip_suffix (lit ".jsonl") file_name;
  '(encoded, _) ← split_once (lit "-") rest;
  bytes ← hex_decode encoded; from_utf8 bytes.

(** *** Reading a name back *)

(** A Rust [String] holds scalar values. *)
Lemma hex_value_char n : 0 ≤ n < 16 → hex_value (hex_char n) = Some n.
Proof.
  intros Hn. unfold hex_char. destruct (Z.ltb_spec n 10); unfold hex_value, is_ascii_digit; decide_bools; f_equal; lia.
Qed.
Lemma hex_char_ok n : 0 ≤ n < 16 → 48 ≤ hex_char n < 58 ∨ 97 ≤ hex_char n < 103.
Proof. unfold hex_char. destruct (Z.ltb_spec n 10); lia. Qed.
(** The two halves of a byte. *)
Lemma nibbles b : is_byte b → 0 ≤ Z.shiftr b 4 < 16 ∧ 0 ≤ Z.land b 15 < 16 ∧ Z.shiftr b 4 * 16 + Z.land b 15 = b.
Proof.
  unfold is_byte. intros Hb. rewrite Z.shiftr_div_pow2 by lia. change 15 with (2 ^ 4 - 1). rewrite land_low by lia. change (2 ^ 4) with 16.
  pose proof (Z.div_mod b 16 ltac:(lia)). pose proof (Z.mod_pos_bound b 16 ltac:(lia)). lia.
Qed.
Lemma hex_pairs_encode bytes : bytes_ok bytes → hex_pairs (hex_encode bytes) = Some bytes.
Proof.
  induction 1 as [|b bytes Hb _ IH]; [done|]. destruct (nibbles b Hb) as (H1 & H2 & E).
  change (hex_encode (b :: bytes)) with (hex_char (Z.shiftr b 4) :: hex_char (Z.land b 15) :: hex_encode bytes).
  cbn [hex_pairs]. rewrite !hex_value_char, IH by done. cbn. by rewrite E.
Qed.
(** What the digits of a name may be. *)
Definition hex_text (s : str) : Prop := Forall (λ c, 48 ≤ c < 58 ∨ 97 ≤ c < 103) s.
Lemma hex_encode_text bytes : bytes_ok bytes → hex_text (hex_encode bytes).
Proof.
  induction 1 as [|b bytes Hb _ IH]; [constructor|]. destruct (nibbles b Hb) as (H1 & H2 & _).
  constructor; [by apply hex_char_ok|]. constructor; [by apply hex_char_ok|exact IH].
Qed.
Lemma hex_encode_length bytes : length (hex_encode bytes) = (2 * length bytes)%nat.
Proof.
  induction bytes as [|b bytes IH]; [done|].
  change (hex_encode (b :: bytes)) with (hex_char (Z.shiftr b 4) :: hex_char (Z.land b 15) :: hex_encode bytes). cbn [length]. lia.
Qed.
Lemma hex8_text h : hex_text (hex8 h) ∧ length (hex8 h) = 8%nat.
Proof.
  split; [|done]. unfold hex_text, hex8. apply Forall_fmap, Forall_forall. intros i _. apply hex_char_ok.
  change 15 with (2 ^ 4 - 1). rewrite land_low by lia. apply Z.mod_pos_bound. lia.
Qed.
Lemma hex_text_ascii s : hex_text s → as_bytes s = s ∧ str_len s = zlen s ∧ forallb is_ascii_hexdigit s = true ∧ 45 ∉ s.
Proof.
  intros Hs. assert (as_bytes s = s) as E by (apply as_bytes_ascii; eapply Forall_impl; [exact Hs|]; cbn; lia).
  split; [done|]. split; [by rewrite <- as_bytes_len, E|]. split.
  - apply forallb_forall. intros c Hc%list_elem_of_In. unfold hex_text in Hs. rewrite Forall_forall in Hs. apply Hs in Hc.
    unfold is_ascii_hexdigit, is_ascii_digit. destruct Hc; decide_bools; by rewrite ?orb_true_r.
  - intros Hc. unfold hex_text in Hs. rewrite Forall_forall in Hs. apply Hs in Hc. lia.
Qed.
Lemma utf8_bytes c : is_scalar c = true → bytes_ok (utf8 c).
Proof.
  unfold is_scalar. rewrite orb_true_iff, !andb_true_iff, !Z.leb_le, !Z.ltb_lt. intros Hc. unfold utf8, bytes_ok, is_byte.
  pose proof (Z.mod_pos_bound c 64 ltac:(lia)). pose proof (Z.mod_pos_bound (c / 64) 64 ltac:(lia)).
  pose proof (Z.mod_pos_bound (c / 4096) 64 ltac:(lia)). pose proof (Z.div_pos c 64). pose proof (Z.div_pos c 4096).
  pose proof (Z.div_pos c 262144). pose proof (Z.div_lt_upper_bound c 64 32). pose proof (Z.div_lt_upper_bound c 4096 16).
  pose proof (Z.div_lt_upper_bound c 262144 8).
  destruct (Z.ltb_spec c 128); [|destruct (Z.ltb_spec c 2048); [|destruct (Z.ltb_spec c 65536)]];
    repeat (apply Forall_cons; split); try apply Forall_nil; lia.
Qed.
Lemma as_bytes_ok s : text_ok s → bytes_ok (as_bytes s).
Proof.
  induction 1 as [|c s Hc _ IH]; [constructor|]. unfold as_bytes. cbn. apply bytes_ok_app. split; [by apply utf8_bytes|exact IH].
Qed.
(** A text in hexadecimal is read back. *)
Lemma hex_decode_text s : text_ok s → hex_decode (hex_encode (as_bytes s)) = Some (as_bytes s).
Proof.
  intros Hs%as_bytes_ok. destruct (hex_text_ascii _ (hex_encode_text _ Hs)) as (E & El & _). unfold hex_decode. rewrite El, E.
  unfold zlen. rewrite hex_encode_length, Nat2Z.inj_mul, Z.odd_mul. cbn. by apply hex_pairs_encode.
Qed.

Lemma split_once_at c a b : c ∉ a → split_once [c] (a ++ c :: b) = Some (a, b).
Proof.
  induction a as [|d a IH]; intros Hc; cbn [app split_once]; cbn [starts_with]; [by rewrite Z.eqb_refl|].
  apply not_elem_of_cons in Hc as [Hd Ha]. rewrite (proj2 (Z.eqb_neq c d) Hd). cbn [andb]. by rewrite IH.
Qed.
Lemma strip_suffix_app s p : strip_suffix p (s ++ p) = Some s.
Proof.
  unfold strip_suffix. rewrite length_app. replace (length s + length p - length p)%nat with (length s) by lia.
  by rewrite drop_app_length, bool_decide_eq_true_2, take_app_length by done.
Qed.

(** What a file name is made of: no separator of a path, no drive, no [..]. *)
Definition name_char (c : Z) : bool := is_ascii_alnum c || (c =? 45) || (c =? 95).
Lemma sanitize_chars value : forallb name_char (sanitize value) = true.
Proof.
  unfold sanitize. match goal with |- forallb _ (match ?l with _ => _ end) = _ => assert (forallb name_char l = true) as H; [|by destruct l] end.
  apply forallb_forall. intros c Hc%list_elem_of_In%elem_of_take. destruct Hc as (i & Hc & _).
  apply list_lookup_fmap_Some in Hc as (d & -> & _). unfold name_char.
  destruct (is_ascii_alnum d || (d =? 45) || (d =? 95)) eqn:E; [exact E|done].
Qed.
Lemma hex_text_chars s : hex_text s → forallb name_char s = true.
Proof.
  intros Hs. apply forallb_forall. intros c Hc%list_elem_of_In. unfold hex_text in Hs. rewrite Forall_forall in Hs. apply Hs in Hc.
  unfold name_char, is_ascii_alnum, is_ascii_digit, is_ascii_upper, is_ascii_lower. destruct Hc; decide_bools; by rewrite ?orb_true_r.
Qed.

Lemma decimal_chars z : 0 ≤ z → forallb name_char (decimal z) = true.
Proof.
  intros Hz. destruct (decimal_spec z Hz) as (_ & Hd & _). apply forallb_forall. intros c Hc.
  rewrite forallb_forall in Hd. apply Hd in Hc. unfold name_char, is_ascii_alnum. by rewrite Hc.
Qed.
Lemma spill_name_read name id : text_ok id → spill_call_id (spill_file_name name id) = Some id.
Proof.
  intros Hid. unfold spill_file_name, spill_call_id. set (h := fnv1a _). destruct (hex8_text h) as [Ht Hl].
  destruct (hex_text_ascii _ Ht) as (_ & Hs & Hx & Hm). rewrite !app_assoc, strip_suffix_app, <- !app_assoc. cbn [mbind option_bind].
  change (lit "-") with [45]. cbn [app]. rewrite split_once_at by done. cbn [mbind option_bind].
  rewrite Hs, Hx. unfold zlen. rewrite Hl. cbn [Z.of_nat negb orb Z.eqb Pos.of_succ_nat Pos.succ Pos.eqb].
  destruct (hex_text_ascii _ (hex_encode_text _ (as_bytes_ok _ Hid))) as (_ & _ & _ & He).
  rewrite split_once_at by done. cbn [mbind option_bind]. rewrite hex_decode_text by done. cbn [mbind option_bind].
  by apply from_utf8_as_bytes.
Qed.
Lemma archive_name_read c r stamp : text_ok c → archive_conversation_id (archive_file_name c r stamp) = Some c.
Proof.
  intros Hc. unfold archive_file_name, archive_conversation_id. rewrite !app_assoc, strip_suffix_app, <- !app_assoc. cbn [mbind option_bind].
  change (lit "-") with [45]. cbn [app]. destruct (hex_text_ascii _ (hex_encode_text _ (as_bytes_ok _ Hc))) as (_ & _ & _ & He).
  rewrite split_once_at by done. cbn [mbind option_bind]. rewrite hex_decode_text by done. cbn [mbind option_bind].
  by apply from_utf8_as_bytes.
Qed.

(** The maintenance loop reads from the name of a file the very call, or the very conversation, it was written for, whatever
    characters the id has; so distinct calls have distinct files, and a live reference is never taken for a dead one.  The name
    holds no character that could leave the directory. *)
Theorem artifact_names_resolve name id c r stamp : text_ok id → text_ok c → 0 ≤ stamp →
  spill_call_id (spill_file_name name id) = Some id ∧
  archive_conversation_id (archive_file_name c r stamp) = Some c ∧
  (∀ name' id', text_ok id' → spill_file_name name id = spill_file_name name' id' → id = id') ∧
  (∃ stem, spill_file_name name id = stem ++ lit ".txt" ∧ forallb name_char stem = true) ∧
  (∃ stem, archive_file_name c r stamp = stem ++ lit ".jsonl" ∧ forallb name_char stem = true).
Proof.
  intros Hid Hc Hs. split_and!; [by apply spill_name_read|by apply archive_name_read|..].
  - intros name' id' Hid' E. apply (f_equal spill_call_id) in E. rewrite !spill_name_read in E by done. by injection E.
  - unfold spill_file_name. eexists. rewrite !app_assoc. split; [done|]. set (h := fnv1a _). destruct (hex8_text h) as [Ht _].
    by rewrite !forallb_app, sanitize_chars, (hex_text_chars _ Ht), (hex_text_chars (hex_encode _)) by (by apply hex_encode_text, as_bytes_ok).
  - unfold archive_file_name. eexists. rewrite !app_assoc. split; [done|]. set (h := fnv1a _). destruct (hex8_text h) as [Ht _].
    by rewrite !forallb_app, decimal_chars, (hex_text_chars _ Ht), (hex_text_chars (hex_encode _)) by (try done; by apply hex_encode_text, as_bytes_ok).
Qed.
(** A name in four scripts, with separators in it. *)
Lemma artifact_names_resolve_witness :
  spill_call_id (spill_file_name (lit "Read") [233; 47; 8364; 128512; 45]) = Some [233; 47; 8364; 128512; 45] ∧
  archive_conversation_id (archive_file_name (lit "a-b") (lit "r") 7) = Some (lit "a-b").
Proof.
  destruct (artifact_names_resolve (lit "Read") [233; 47; 8364; 128512; 45] (lit "a-b") (lit "r") 7) as (H1 & H2 & _);
    [by repeat constructor|by repeat constructor|lia|]. by split.
Defined.

(** Only the readable part of a name is cut: the whole call id is in it, so a long one makes a name no file system takes and its
    result is not kept. *)
Lemma spill_name_long name id : text_ok id → (2 * length id ≤ length (spill_file_name name id))%nat.
Proof.
  intros Hid. unfold spill_file_name. rewrite !length_app, hex_encode_length. pose proof (as_bytes_len id) as E.
  pose proof (str_len_bound id). unfold zlen in *. lia.
Qed.

(** ** What is written *)

(** server/src/model/tool_result_spill.rs:46-46, [MAX_SPILL_BYTES]. *)
Definition MAX_SPILL_BYTES : Z := 8 * 1024 * 1024.
(** server/src/model/tool_result_spill.rs:49-49, [MAX_ARCHIVE_BYTES]. *)
Definition MAX_ARCHIVE_BYTES : Z := 8 * 1024 * 1024.

(** Whether the directory can be created and a file of this name be written in it. *)
Record Disk : Type := MkDisk { creates : bool; writes : str → bool }.
(** A directory: its files by name. *)
Definition Directory : Type := gmap (list Z) (list Z).

(** server/src/model/tool_result_spill.rs:133-141, [write_spill]. *)
Definition write_spill (disk : Disk) (call_id name content : str) (dir : Directory) : Directory * option str :=
  if MAX_SPILL_BYTES <? str_len content then (dir, None)
  else if negb (creates disk) then (dir, None)
  else
    let path := spill_file_name name call_id in
    if writes disk path then (<[path := content]> dir, Some path) else (dir, None).

Section Archive.
Context `{B : Backend}.

(** server/src/model/tool_result_spill.rs:104-112, [archive_body]: the lines, the newest first. *)
Fixpoint archive_lines (newest_first : list CanonicalMessage) (bytes : Z) : option (list str) :=
  match newest_first with
  | [] => Some []
  | m :: rest =>
      match encode_message m with
      | Err _ => None
      | Ok line =>
          let needed := sat_add (str_len line) 1 in
          if MAX_ARCHIVE_BYTES <? sat_add bytes needed then Some []
          else lines ← archive_lines rest (bytes + needed); Some (line :: lines)
      end
  end.
(** server/src/model/tool_result_spill.rs:101-124, [archive_body]. *)
Definition archive_body (messages : list CanonicalMessage) : option str :=
  lines ← archive_lines (reverse messages) 0;
  match lines with
  | [] => None
  | _ => Some (concat ((λ line, line ++ [10]) <$> reverse lines))
  end.
(** server/src/model/tool_result_spill.rs:71-82, [write_archive]. *)
Definition write_archive (disk : Disk) (stamp : option Z) (conversation_id run_id : str) (messages : list CanonicalMessage)
    (dir : Directory) : Directory * option str :=
  match archive_body messages with
  | None => (dir, None)
  | Some body =>
      if negb (creates disk) then (dir, None)
      else match stamp with
           | None => (dir, None)
           | Some stamp =>
               let path := archive_file_name conversation_id run_id stamp in
               if writes disk path then (<[path := body]> dir, Some path) else (dir, None)
           end
  end.

Lemma archive_lines_spec ms bytes lines : 0 ≤ bytes ≤ MAX_ARCHIVE_BYTES → archive_lines ms bytes = Some lines →
  ∃ k, Forall2 (λ m line, encode_message m = Ok line) (take k ms) lines ∧
    bytes + str_len (concat ((λ line, line ++ [10]) <$> lines)) ≤ MAX_ARCHIVE_BYTES ∧
    (∀ m rest line, drop k ms = m :: rest → encode_message m = Ok line →
      MAX_ARCHIVE_BYTES < bytes + str_len (concat ((λ line, line ++ [10]) <$> lines)) + str_len line + 1).
Proof.
  revert bytes lines. induction ms as [|m ms IH]; intros bytes lines Hb; cbn [archive_lines].
  { intros [= <-]. exists 0%nat. split; [constructor|]. cbn. split; [lia|done]. }
  destruct (encode_message m) as [line|] eqn:E; [|done]. pose proof (str_len_bound line) as Hl. pose proof (zlen_nonneg line) as Hz.
  assert (MAX_ARCHIVE_BYTES < U64_MAX) as HM by done.
  destruct (Z.ltb_spec MAX_ARCHIVE_BYTES (sat_add bytes (sat_add (str_len line) 1))) as [Hlt|Hle].
  { intros [= <-]. exists 0%nat. split; [constructor|]. cbn. split; [lia|]. intros m' rest line' [= <- <-]. rewrite E. intros [= <-].
    unfold sat_add in Hlt. lia. }
  assert (sat_add (str_len line) 1 = str_len line + 1) as -> by (unfold sat_add in *; lia).
  intros H. destruct (archive_lines ms _) as [ls|] eqn:El; [|done]. cbn in H. injection H as <-.
  apply IH in El as (k & H1 & H2 & H3); [|unfold sat_add in *; lia]. exists (S k). cbn [take drop]. split; [by constructor|].
  cbn [fmap list_fmap concat]. rewrite !str_len_app. change (str_len [10]) with 1. split; [lia|].
  intros m' rest line' Hd Hm. specialize (H3 _ _ _ Hd Hm). lia.
Qed.
Lemma str_len_lines lines : str_len (concat ((λ line, line ++ [10]) <$> reverse lines)) = str_len (concat ((λ line, line ++ [10]) <$> lines)).
Proof.
  induction lines as [|l lines IH]; [done|]. rewrite reverse_cons, fmap_app, concat_app. cbn. rewrite app_nil_r, !str_len_app, IH.
  change (str_len [10]) with 1. lia.
Qed.

(** An archive holds the newest messages of the history in their order, one line each, as many as fit in its limit: the next
    older one would exceed it. *)
Theorem archive_keeps_newest messages body : archive_body messages = Some body →
  ∃ older kept lines, messages = older ++ kept ∧ kept ≠ [] ∧ Forall2 (λ m line, encode_message m = Ok line) kept lines ∧
    body = concat ((λ line, line ++ [10]) <$> lines) ∧ str_len body ≤ MAX_ARCHIVE_BYTES ∧
    (∀ m line, last older = Some m → encode_message m = Ok line → MAX_ARCHIVE_BYTES < str_len body + str_len line + 1).
Proof.
  unfold archive_body. destruct (archive_lines _ _) as [lines|] eqn:E; [|done]. cbn [mbind option_bind]. intros H.
  apply archive_lines_spec in E as (k & H1 & H2 & H3); [|done].
  assert (lines ≠ [] ∧ body = concat ((λ line, line ++ [10]) <$> reverse lines)) as [Hn ->] by (destruct lines; [done|by injection H as <-]).
  exists (reverse (drop k (reverse messages))), (reverse (take k (reverse messages))), (reverse lines).
  split; [by rewrite <- reverse_app, take_drop, reverse_involutive|]. split.
  { intros Hr. apply Hn. destruct (take k (reverse messages)) as [|x l]; [by inversion H1|]. by rewrite reverse_cons in Hr; apply app_nil in Hr as [_ ?]. }
  split; [by apply Forall2_reverse|]. split; [done|]. rewrite str_len_lines. cbn in H2. split; [lia|].
  intros m line Hm He. rewrite last_reverse in Hm. destruct (drop k (reverse messages)) as [|m' rest] eqn:Ed; [done|]. injection Hm as ->.
  specialize (H3 _ _ _ eq_refl He). lia.
Qed.
End Archive.

(** ** A pass over a directory *)

(** What [read_dir] yields of an entry: [None] when its metadata cannot be read. *)
Record Metadata : Type := MkMetadata { is_file : bool; meta_modified : option Z; meta_len : Z }.
Record DirEntry : Type := MkEntry { entry_name : str; entry_metadata : option Metadata }.

(** Times are in nanoseconds. *)
Definition SECOND : Z := 10 ^ 9.
(** server/src/model/tool_result_spill.rs:31-32, [RETENTION]. *)
Definition RETENTION : Z := 7 * 24 * 60 * 60 * SECOND.
(** server/src/model/tool_result_spill.rs:35-35, [GRACE]. *)
Definition GRACE : Z := 60 * 60 * SECOND.
(** server/src/model/tool_result_spill.rs:38-38, [SPILL_MAX_FILES]. *)
Definition SPILL_MAX_FILES : nat := 2048.
(** server/src/model/tool_result_spill.rs:39-39, [ARCHIVE_MAX_FILES]. *)
Definition ARCHIVE_MAX_FILES : nat := 256.
(** server/src/model/tool_result_spill.rs:41-41, [MAX_DIRECTORY_BYTES]. *)
Definition MAX_DIRECTORY_BYTES : Z := 512 * 1024 * 1024.

(** A file of the pass: its tuple [(modified, len, path, keep)]. *)
(** server/src/model/tool_result_spill.rs:317-317, [prune_directory]: a file of the pass. *)
Record Seen : Type := MkSeen { s_modified : Z; s_len : Z; s_name : str; s_keep : bool }.

(** server/src/model/tool_result_spill.rs:312-316, [prune_directory]: does a file stay, by its reference and its age. *)
Definition keeps_file (reference : option bool) (age : Z) : bool :=
  match reference with
  | Some true => true
  | Some false => age <=? GRACE
  | None => age <=? RETENTION
  end.
(** server/src/model/tool_result_spill.rs:299-317, [prune_directory]: one entry; a file from the future has no age. *)
Definition see_entry (now : Z) (reference : str → option bool) (e : DirEntry) : option Seen :=
  m ← entry_metadata e;
  if is_file m then
    modified ← meta_modified m;
    Some (MkSeen modified (meta_len m) (entry_name e) (keeps_file (reference (entry_name e)) (Z.max 0 (now - modified))))
  else None.
(** server/src/model/tool_result_spill.rs:330-330, [prune_directory]: a directory over its limits. *)
Definition over (ceiling : nat) (files : list Seen) (bytes : Z) : bool := (ceiling <? length files)%nat || (MAX_DIRECTORY_BYTES <? bytes).
(** server/src/model/tool_result_spill.rs:332-338, [prune_directory]: the oldest files go while the directory is over a limit;
    [removes] tells whether a removal succeeds.  The names removed. *)
Fixpoint remove_oldest (removes : str → bool) (ceiling : nat) (files : list Seen) (bytes : Z) : list str :=
  match files with
  | [] => []
  | f :: rest =>
      if over ceiling files bytes then
        if removes (s_name f) then s_name f :: remove_oldest removes ceiling rest (sat_sub bytes (s_len f))
        else remove_oldest removes ceiling rest bytes
      else []
  end.
Definition older (a b : Seen) : bool := s_modified a <=? s_modified b.
Definition total_len (files : list Seen) : Z := foldr (λ f n, s_len f + n) 0 files.
(** server/src/model/tool_result_spill.rs:288-341, [prune_directory]: [None] is a directory that cannot be read.  The names of the
    files that were removed; the code returns their number. *)
Definition prune_directory (entries : option (list DirEntry)) (removes : str → bool) (ceiling : nat) (now : Z)
    (reference : str → option bool) : list str :=
  match entries with
  | None => []
  | Some entries =>
      let files := omap (see_entry now reference) entries in
      let dead := List.filter removes (s_name <$> List.filter (λ f, negb (s_keep f)) files) in
      let files := List.filter s_keep files in
      let bytes := total_len files in
      dead ++ (if over ceiling files bytes then remove_oldest removes ceiling (sort_by older files) bytes else [])
  end.

(** server/src/model/tool_result_spill.rs:267-282, [prune_artifacts_in]: what is removed from the two directories. *)
Definition prune_artifacts_in (spills archives : option (list DirEntry)) (removes : str → bool) (now : Z)
    (live_calls live_conversations : gset (list Z)) : list str * list str :=
  (prune_directory spills removes SPILL_MAX_FILES now (λ name, (λ id, bool_decide (id ∈ live_calls)) <$> spill_call_id name),
   prune_directory archives removes ARCHIVE_MAX_FILES now
     (λ name, (λ id, bool_decide (id ∈ live_conversations)) <$> archive_conversation_id name)).

(** server/src/model/tool_result_spill.rs:250-264, [remove_archives_in]: [parent] is the canonical parent of a path, if it has one; the
    paths removed. *)
Definition remove_archives_in (parent : str → option str) (removes : str → bool) (directory : str) (paths : list str) : list str :=
  List.filter (λ path, bool_decide (parent path = Some directory) && removes path) paths.

(** *** What a pass leaves *)

Lemma older_total a b : older a b = false → older b a = true.
Proof. unfold older. rewrite Z.leb_gt, Z.leb_le. lia. Qed.
Lemma older_trans a b c : older a b = true → older b c = true → older a c = true.
Proof. unfold older. rewrite !Z.leb_le. lia. Qed.

Lemma total_len_cons f l : total_len (f :: l) = s_len f + total_len l.
Proof. done. Qed.
Lemma total_len_perm l k : l ≡ₚ k → total_len l = total_len k.
Proof. induction 1; rewrite ?total_len_cons; lia. Qed.
Lemma over_perm ceiling l k : l ≡ₚ k → over ceiling l (total_len l) = over ceiling k (total_len k).
Proof. intros H. unfold over. by rewrite (Permutation_length H), (total_len_perm _ _ H). Qed.
Lemma filter_split {A} (p : A → bool) l : List.filter (λ x, negb (p x)) l ++ List.filter p l ≡ₚ l.
Proof. induction l as [|x l IH]; [done|]. cbn. destruct (p x); cbn; rewrite <- ?Permutation_middle, IH; done. Qed.
Lemma filter_all {A} (p : A → bool) l : (∀ x, p x = true) → List.filter p l = l.
Proof. intros H. induction l as [|x l IH]; [done|]. cbn. by rewrite H, IH. Qed.

(** When every removal succeeds the oldest go, as few as bring the directory under its limits. *)
Lemma remove_oldest_spec removes ceiling files bytes : (∀ n, removes n = true) → Forall (λ f, 0 ≤ s_len f) files → bytes = total_len files →
  ∃ k, remove_oldest removes ceiling files bytes = s_name <$> take k files ∧ (k ≤ length files)%nat ∧
    over ceiling (drop k files) (total_len (drop k files)) = false ∧
    (∀ j, (j < k)%nat → over ceiling (drop j files) (total_len (drop j files)) = true).
Proof.
  intros Hr. revert bytes. induction files as [|f files IH]; intros bytes Hl ->.
  { exists 0%nat. cbn. split_and!; [done|lia| |lia]. unfold over. cbn. done. }
  cbn [remove_oldest]. apply Forall_cons in Hl as [Hf Hl]. destruct (over ceiling (f :: files) (total_len (f :: files))) eqn:E.
  - rewrite Hr. destruct (IH (total_len files) Hl eq_refl) as (k & H1 & H2 & H3 & H4). exists (S k).
    assert (sat_sub (total_len (f :: files)) (s_len f) = total_len files) as ->.
    { unfold sat_sub. rewrite total_len_cons. assert (0 ≤ total_len files); [|lia]. clear -Hl. induction Hl; rewrite ?total_len_cons; [done|lia]. }
    rewrite H1. cbn [take fmap list_fmap drop length]. split_and!; [done|lia|done|]. intros [|j] Hj; [done|]. cbn [drop]. apply H4. lia.
  - exists 0%nat. cbn [take fmap list_fmap drop]. split_and!; [done|lia|done|lia].
Qed.

Lemma filter_none {A} (P : A → Prop) `{!∀ x, Decision (P x)} l : Forall (λ x, ¬ P x) l → filter P l = [].
Proof. induction 1; [done|]. by rewrite filter_cons_False. Qed.
Lemma filter_every {A} (P : A → Prop) `{!∀ x, Decision (P x)} l : Forall P l → filter P l = l.
Proof. induction 1 as [|x l Hx _ IH]; [done|]. by rewrite filter_cons_True, IH. Qed.

Lemma NoDup_fmap_elem {A C} (f : A → C) l x y : NoDup (f <$> l) → x ∈ l → y ∈ l → f x = f y → x = y.
Proof.
  intros Hn (i & Hi)%list_elem_of_lookup (j & Hj)%list_elem_of_lookup E. assert (i = j) as <-; [|congruence].
  eapply (NoDup_lookup _ i j (f x)); [exact Hn|by rewrite list_lookup_fmap, Hi|by rewrite list_lookup_fmap, Hj, E].
Qed.
Lemma drop_sub {A} n (l : list A) x : x ∈ drop n l → x ∈ l.
Proof. intros H. rewrite <- (take_drop n l). apply elem_of_app. by right. Qed.

(** The regular files of a directory, and those that a pass leaves. *)
Definition seen_files (now : Z) (reference : str → option bool) (entries : list DirEntry) : list Seen := omap (see_entry now reference) entries.
Definition left_files (removed : list str) (files : list Seen) : list Seen := filter (λ f, s_name f ∉ removed) files.

Lemma prune_removed entries removes ceiling now reference : (∀ n, removes n = true) →
  Forall (λ f, 0 ≤ s_len f) (seen_files now reference entries) →
  let files := seen_files now reference entries in
  let kept := sort_by older (List.filter s_keep files) in
  ∃ k, prune_directory (Some entries) removes ceiling now reference =
         s_name <$> (List.filter (λ f, negb (s_keep f)) files ++ take k kept) ∧
       over ceiling (drop k kept) (total_len (drop k kept)) = false ∧
       (∀ j, (j < k)%nat → over ceiling (drop j kept) (total_len (drop j kept)) = true).
Proof.
  intros Hr Hl files kept. unfold prune_directory. fold (seen_files now reference entries). fold files kept.
  rewrite (filter_all removes) by done. pose proof (sort_by_perm older (List.filter s_keep files)) as Hp. fold kept in Hp.
  destruct (over ceiling (List.filter s_keep files) _) eqn:E.
  - destruct (remove_oldest_spec removes ceiling kept (total_len (List.filter s_keep files)) Hr) as (k & H1 & _ & H2 & H3).
    { rewrite Hp. apply Forall_forall. intros f Hf%list_elem_of_In%filter_In. destruct Hf as [Hf%list_elem_of_In _].
      rewrite Forall_forall in Hl. by apply Hl. }
    { by symmetry; apply total_len_perm. }
    exists k. rewrite H1, fmap_app. done.
  - exists 0%nat. rewrite take_0, !app_nil_r, drop_0, (over_perm _ _ _ Hp). split_and!; [done|done|lia].
Qed.

(** What a pass over a directory does, of a directory whose files can be removed.  Afterwards the directory is within its limits of
    files and bytes.  Every file whose reference is gone, or cannot be read from its name, goes once its time is over.  A file
    with a live reference, or within its time, goes only when the directory is over a limit, and then the oldest first: none
    older than it is left, and with it and the files not older than it the directory would be over the limit. *)
Theorem prune_directory_spec entries removes ceiling now reference removed :
  (∀ n, removes n = true) → NoDup (s_name <$> seen_files now reference entries) →
  Forall (λ f, 0 ≤ s_len f) (seen_files now reference entries) →
  prune_directory (Some entries) removes ceiling now reference = removed →
  let files := seen_files now reference entries in
  let left := left_files removed files in
  (length left ≤ ceiling)%nat ∧ total_len left ≤ MAX_DIRECTORY_BYTES ∧
  (∀ f, f ∈ files → s_keep f = false → s_name f ∈ removed) ∧
  (∀ f, f ∈ files → s_keep f = true → s_name f ∈ removed →
    (∀ g, g ∈ left → s_modified f ≤ s_modified g) ∧
    ∃ newer, f ∈ newer ∧ left ⊆ newer ∧ newer ⊆ files ∧ (∀ g, g ∈ newer → s_keep g = true ∧ s_modified f ≤ s_modified g) ∧
      over ceiling newer (total_len newer) = true).
Proof.
  intros Hr Hn Hl <- files left. pose proof (prune_removed entries removes ceiling now reference Hr Hl) as Hrem. cbv zeta in Hrem.
  fold files in Hrem, Hn. destruct Hrem as (k & Er & Ho & Hj).
  set (kept := sort_by older (List.filter s_keep files)) in *. set (dead := List.filter (λ f, negb (s_keep f)) files) in *.
  assert (dead ++ take k kept ++ drop k kept ≡ₚ files) as Hp.
  { rewrite take_drop. unfold kept, dead. rewrite sort_by_perm. apply filter_split. }
  assert (left ≡ₚ drop k kept) as Hleft.
  { unfold left, left_files. rewrite Er. pose proof Hn as Hn'. rewrite <- Hp in Hn'. rewrite <- Hp at 1.
    rewrite app_assoc in Hn' |- *. rewrite fmap_app in Hn'. apply NoDup_app in Hn' as (_ & Hd & _).
    rewrite filter_app, filter_none, filter_every; [done|..].
    - apply Forall_forall. intros f Hf Hin. by apply (Hd (s_name f)), list_elem_of_fmap_2.
    - apply Forall_forall. intros f Hf Hin. apply Hin. by apply list_elem_of_fmap_2. }
  assert (∀ f, f ∈ kept → s_keep f = true ∧ f ∈ files) as Hk.
  { intros f Hin. unfold kept in Hin. rewrite sort_by_elem, list_elem_of_In, filter_In in Hin. destruct Hin as [Hin ?].
    by rewrite list_elem_of_In. }
  unfold over in Ho. apply orb_false_iff in Ho as [Ho1%Nat.ltb_ge Ho2%Z.ltb_ge].
  split; [by rewrite Hleft|]. split; [by rewrite (total_len_perm _ _ Hleft)|]. split.
  - intros f Hf Hkf. rewrite Er. apply list_elem_of_fmap_2, elem_of_app. left. apply list_elem_of_In, filter_In.
    split; [by apply list_elem_of_In|by rewrite Hkf].
  - intros f Hf Hkf Hin. rewrite Er in Hin. apply list_elem_of_fmap in Hin as (e & En & He).
    assert (e ∈ files) as Hef by (rewrite <- Hp, app_assoc; apply elem_of_app; by left).
    assert (e = f) as -> by (eapply NoDup_fmap_elem; eauto).
    apply elem_of_app in He as [He|He]; [apply list_elem_of_In, filter_In in He as [_ He]; by rewrite Hkf in He|].
    apply elem_of_take in He as (i & Hi & Hik).
    assert (∀ g, g ∈ drop i kept → s_modified f ≤ s_modified g) as Hold.
    { rewrite (drop_S _ _ _ Hi). intros g Hg. pose proof (sort_by_sorted older older_total older_trans (List.filter s_keep files)) as Hs.
      fold kept in Hs. rewrite <- (take_drop_middle _ _ _ Hi) in Hs. apply StronglySorted_app_1_r in Hs.
      apply StronglySorted_inv in Hs as [_ Hs]. apply elem_of_cons in Hg as [->|Hg]; [done|].
      rewrite Forall_forall in Hs. apply Hs in Hg. by apply Z.leb_le in Hg. }
    assert (left ⊆ drop i kept) as Hsub.
    { intros g Hg. rewrite Hleft in Hg. replace k with (i + (k - i))%nat in Hg by lia. rewrite <- drop_drop in Hg.
      by apply drop_sub in Hg. }
    split; [by intros g Hg%Hsub; apply Hold|]. exists (drop i kept). split; [rewrite (drop_S _ _ _ Hi); by left|]. split; [done|].
    assert (∀ g, g ∈ drop i kept → g ∈ kept) as Hdk by (intros g; apply drop_sub).
    split; [intros g Hg%Hdk%Hk; tauto|]. split; [|by apply Hj]. intros g Hg. split; [apply Hdk, Hk in Hg; tauto|by apply Hold].
Qed.

Module SpillSamples.
(** A message is written as its id. *)
Definition backend : Backend :=
  {| encode_message m := Ok (message_id m); message_bytes m := Ok (message_id m); decode_message s := Err (ForeignError s []);
     json_eq _ _ := true; sha256 d := d; constraint_failed s := ForeignError s [] |}.
Definition messages : list CanonicalMessage := [into_message (MkRuntimeEvent (lit "e1") (lit "one")); into_message (MkRuntimeEvent (lit "e2") (lit "two"))].
Definition file (name : string) (age : Z) : DirEntry := MkEntry (lit name) (Some (MkMetadata true (Some (- age * SECOND)) 5)).
(** Two live files, one whose reference is gone, one with an old name, a directory. *)
Definition entries : list DirEntry :=
  [file "live" 9; file "gone" 7200; file "older" 10; file "legacy" 60; MkEntry (lit "sub") (Some (MkMetadata false None 0))].
Definition reference (name : str) : option bool :=
  if bool_decide (name = lit "gone") then Some false else if bool_decide (name = lit "legacy") then None else Some true.
End SpillSamples.

Lemma archive_keeps_newest_witness : ∃ body older kept lines,
  @archive_body SpillSamples.backend SpillSamples.messages = Some body ∧ SpillSamples.messages = older ++ kept ∧ kept ≠ [] ∧
  body = concat ((λ line, line ++ [10]) <$> lines).
Proof.
  assert (∃ body, @archive_body SpillSamples.backend SpillSamples.messages = Some body) as [body Hb] by (eexists; vm_compute; reflexivity).
  destruct (@archive_keeps_newest SpillSamples.backend SpillSamples.messages body Hb) as (older & kept & lines & H1 & H2 & _ & H3 & _).
  exists body, older, kept, lines. split_and!; [exact Hb|exact H1|exact H2|exact H3].
Defined.

(** A pass with a ceiling of two files. *)
Lemma prune_directory_spec_witness :
  prune_directory (Some SpillSamples.entries) (λ _, true) 2 0 SpillSamples.reference = [lit "gone"; lit "legacy"] ∧
  (length (left_files [lit "gone"; lit "legacy"] (seen_files 0 SpillSamples.reference SpillSamples.entries)) ≤ 2)%nat.
Proof.
  assert (prune_directory (Some SpillSamples.entries) (λ _, true) 2 0 SpillSamples.reference = [lit "gone"; lit "legacy"]) as E
    by (vm_compute; reflexivity).
  destruct (prune_directory_spec SpillSamples.entries (λ _, true) 2 0 SpillSamples.reference [lit "gone"; lit "legacy"] (λ _, eq_refl)) as (H & _); [..|exact E|].
  - apply (bool_decide_unpack _). vm_compute. exact I.
  - apply (bool_decide_unpack _). vm_compute. exact I.
  - split; [exact E|exact H].
Defined.
