(* ===== verification/StoreInvariants.v ===== *)
(** * StoreInvariants: what every transaction of the store keeps

    The invariant of a database ([db_ok]), its preservation by each operation of
    [Store], and the effect of each operation on the history of a checkpoint. *)

From stdpp Require Import prelude gmap strings list sorting.
From Stdlib Require Import Wf_nat.
From S2P Require Import Prelude Errors External Message Budget Store.
Local Open Scope Z_scope.

Lemma foldl_err {E A S} (f : S → A → result E S) e l :
  foldl (λ acc x, s ← acc; f s x) (Err e) l = Err e.
Proof. by induction l. Qed.

(** ** What a database keeps

    [tree_ok]: the checkpoints of a conversation are a tree that grows from one empty
    root, every digest chains its parent's, and every message of a checkpoint is stored.
    [owner_ok]: a conversation is owned by its one running run, at the head of that run. *)
Section Invariants.
Context `{B : Backend}.

(** The message is in the conversation, as it is. *)
Definition stored (db : Db) (c : str) (m : CanonicalMessage) : Prop :=
  ∃ row, messages db !! (c, message_id m) = Some row ∧ encode_message m = Ok (payload_json row).

Record tree_ok (db : Db) : Prop := {
  t_bound id row : checkpoints db !! id = Some row → 0 < id ≤ last_id db;
  t_parent id row p : checkpoints db !! id = Some row → ck_parent row = Some p →
    p < id ∧ ∃ prow, checkpoints db !! p = Some prow ∧ ck_conversation prow = ck_conversation row;
  t_root id row : checkpoints db !! id = Some row → ck_parent row = None →
    ck_digest row = root_digest ∧ ck_messages row = [];
  t_chain id row p prow : checkpoints db !! id = Some row → ck_parent row = Some p →
    checkpoints db !! p = Some prow →
    ∃ ms, ck_messages row = message_id <$> ms ∧ Forall (stored db (ck_conversation row)) ms ∧
      chained_digest (ck_digest prow) ms = Ok (ck_digest row);
  t_unique id row id' row' : checkpoints db !! id = Some row → checkpoints db !! id' = Some row' →
    ck_conversation row = ck_conversation row' → ck_digest row = ck_digest row' → id = id';
  t_message c id row : messages db !! (c, id) = Some row →
    ∃ m, encode_message m = Ok (payload_json row) ∧ message_id m = id ∧
      row_event_id row = runtime_event_id m;
  t_event c id row id' row' : messages db !! (c, id) = Some row → messages db !! (c, id') = Some row' →
    row_event_id row = row_event_id row' → is_Some (row_event_id row) → id = id';
  t_last : 0 ≤ last_id db
}.

Record owner_ok (db : Db) : Prop := {
  o_current c row id : conversations db !! c = Some row → current_checkpoint row = Some id →
    ck_conversation <$> checkpoints db !! id = Some c;
  o_active c row run : conversations db !! c = Some row → active_run row = Some run →
    ∃ r, runs db !! run = Some r ∧ status r = Running ∧ run_conversation r = c ∧
      current_checkpoint row = Some (head_checkpoint r);
  o_running run r : runs db !! run = Some r → status r = Running →
    ∃ row, conversations db !! run_conversation r = Some row ∧ active_run row = Some run
}.

(** Histories only grow: what was stored stays as it was. *)
Definition extends (db db' : Db) : Prop :=
  checkpoints db ⊆ checkpoints db' ∧ messages db ⊆ messages db'.

#[global] Instance extends_preorder : PreOrder extends.
Proof. split; [by intros ?|]. intros ??? [] []. split; by etrans. Qed.

Lemma stored_mono db db' c m : extends db db' → stored db c m → stored db' c m.
Proof. intros [_ E] (row & H & ?). exists row. split; [|done]. by eapply lookup_weaken. Qed.

Lemma select_elem P db id :
  id ∈ select_checkpoints P db ↔ ∃ row, checkpoints db !! id = Some row ∧ P row = true.
Proof.
  unfold select_checkpoints. rewrite merge_sort_Permutation, list_elem_of_fmap. split.
  - intros ([i row] & -> & H). apply list_elem_of_filter in H as [HP H].
    apply elem_of_map_to_list in H. exists row. split; [done|]. by apply Is_true_true.
  - intros (row & H & HP). exists (id, row). split; [done|]. apply list_elem_of_filter.
    split; [by apply Is_true_true|]. by apply elem_of_map_to_list.
Qed.
Lemma select_nil P db id row :
  select_checkpoints P db = [] → checkpoints db !! id = Some row → P row = false.
Proof.
  intros E H. destruct (P row) eqn:EP; [|done].
  assert (id ∈ select_checkpoints P db) as Hin by (apply select_elem; eauto).
  rewrite E in Hin. by apply elem_of_nil in Hin.
Qed.
Lemma has_digest_spec c d row :
  has_digest c d row = true ↔ ck_conversation row = c ∧ ck_digest row = d.
Proof. unfold has_digest. by rewrite andb_true_iff, !bool_decide_eq_true. Qed.

Context {L : BackendLaws}.

Lemma event_row_spec db c e row : event_row db c e = Some row →
  ∃ id, messages db !! (c, id) = Some row ∧ row_event_id row = e ∧ is_Some e.
Proof.
  unfold event_row. destruct e as [e|]; [|done].
  destruct (filter _ _) as [|[[c' id] row'] l] eqn:E; [done|]. intros [= <-].
  assert (((c', id), row') ∈ filter (λ p : str * str * MessageRow, p.1.1 = c ∧ row_event_id p.2 = Some e)
    (map_to_list (messages db))) as H by (rewrite E; by left).
  apply list_elem_of_filter in H as [[Hc He] H]. cbn in *. subst c'.
  apply elem_of_map_to_list in H. eauto.
Qed.
Lemma event_row_none db c e id row : event_row db c (Some e) = None →
  messages db !! (c, id) = Some row → row_event_id row ≠ Some e.
Proof.
  unfold event_row. intros H Hm He.
  destruct (filter _ _) as [|p l] eqn:E; [|done].
  assert ((c, id, row) ∈ filter (λ p : str * str * MessageRow, p.1.1 = c ∧ row_event_id p.2 = Some e)
    (map_to_list (messages db))) as Hin.
  { apply list_elem_of_filter. split; [done|]. by apply elem_of_map_to_list. }
  rewrite E in Hin. by apply elem_of_nil in Hin.
Qed.

(** Storing a message: it was there as it is, or it is new. *)
Lemma put_message_spec db c m db' : tree_ok db → put_message_tx db c m = Ok db' →
  (db' = db ∧ stored db c m) ∨
  (∃ p, encode_message m = Ok p ∧ messages db !! (c, message_id m) = None ∧
     event_row db c (runtime_event_id m) = None ∧
     db' = set_messages db
       (<[(c, message_id m) := MkMessageRow (role_name (role m)) (origin_name (origin m)) p
           (runtime_event_id m)]> (messages db)) (register_image c m (image_blobs db))).
Proof.
  intros T. unfold put_message_tx. destruct (encode_message m) as [p|e] eqn:Ep; cbn; [|done].
  destruct (messages db !! (c, message_id m)) as [row|] eqn:Em.
  - case_decide as Ec; [|done]. intros [= <-]. left. split; [done|]. exists row. by rewrite Ec.
  - destruct (event_row db c (runtime_event_id m)) as [row|] eqn:Ev.
    + case_decide as Ec; [|done]. intros _. exfalso.
      apply event_row_spec in Ev as (id & Hid & _). destruct (t_message _ T _ _ _ Hid) as (m' & H1 & H2 & _).
      rewrite Ec in H1. destruct (encode_identity _ _ _ H1 Ep). congruence.
    + intros [= <-]. right. by exists p.
Qed.

(** The parts of the invariant that a transaction does not touch carry over. *)
Lemma tree_ok_same db db' : checkpoints db' = checkpoints db → messages db' = messages db →
  last_id db' = last_id db → tree_ok db → tree_ok db'.
Proof.
  intros E1 E2 E3 [T1 T2 T3 T4 T5 T6 T7 T8].
  split; unfold stored in *; rewrite ?E1, ?E2, ?E3; done.
Qed.
Lemma owner_ok_same db db' : conversations db' = conversations db → runs db' = runs db →
  checkpoints db ⊆ checkpoints db' → owner_ok db → owner_ok db'.
Proof.
  intros E1 E2 E3 [O1 O2 O3]. split; rewrite ?E1, ?E2; try done.
  intros c row id Hc Hi. specialize (O1 c row id Hc Hi).
  destruct (checkpoints db !! id) eqn:E; [|done]. by erewrite lookup_weaken by done.
Qed.

Definition same_but_history (db db' : Db) : Prop :=
  conversations db' = conversations db ∧ runs db' = runs db ∧ llm_calls db' = llm_calls db ∧
  tool_rounds db' = tool_rounds db ∧ tool_round_calls db' = tool_round_calls db.

Lemma put_message_ok db c m db' : tree_ok db → put_message_tx db c m = Ok db' →
  tree_ok db' ∧ extends db db' ∧ stored db' c m ∧ same_but_history db db' ∧
  checkpoints db' = checkpoints db ∧ last_id db' = last_id db.
Proof.
  intros T [[-> Hs]|(p & Ep & Hn & Hv & ->)]%put_message_spec; [| |done].
  { split; [done|]. split; [done|]. split; [done|]. done. }
  assert (extends db (set_messages db
    (<[(c, message_id m) := MkMessageRow (role_name (role m)) (origin_name (origin m)) p
           (runtime_event_id m)]> (messages db)) (register_image c m (image_blobs db)))) as He.
  { split; [done|]. cbn. by apply insert_subseteq. }
  split; [|split; [done|split; [|done]]].
  - destruct T as [T1 T2 T3 T4 T5 T6 T7 T8]. split; cbn; try done.
    + intros id row q prow H1 H2 H3. destruct (T4 _ _ _ _ H1 H2 H3) as (ms & ? & Hst & ?).
      exists ms. split; [done|]. split; [|done]. eapply Forall_impl; [done|].
      intros m' Hm'. by eapply stored_mono.
    + intros c' id row [[Heq <-]|[Hne H]]%lookup_insert_Some; [|by eapply T6].
      injection Heq as <- <-. exists m. split; [done|]. by split.
    + intros c' id row id' row' H1 H2 Hev [e Hs].
      rewrite lookup_insert_Some in H1, H2.
      destruct H1 as [[E1 <-]|[N1 H1]], H2 as [[E2 <-]|[N2 H2]].
      * congruence.
      * injection E1 as <- <-. cbn in *. rewrite Hs in Hv, Hev.
        exfalso. by eapply event_row_none.
      * injection E2 as <- <-. cbn in *. rewrite <- Hev, Hs in Hv.
        exfalso. by eapply event_row_none.
      * eapply (T7 c' id row id' row'); [done..|by exists e].
  - eexists. cbn. by rewrite lookup_insert_eq.
Qed.

Lemma put_messages_ok db c ms db' : tree_ok db →
  foldl (λ acc m, db ← acc; put_message_tx db c m) (Ok db) ms = Ok db' →
  tree_ok db' ∧ extends db db' ∧ Forall (stored db' c) ms ∧ same_but_history db db' ∧
  checkpoints db' = checkpoints db ∧ last_id db' = last_id db.
Proof.
  revert db. induction ms as [|m ms IH]; intros db T; cbn [foldl].
  { intros [= <-]. split; [done|]. split; [done|]. by split. }
  change (mbind (λ db, put_message_tx db c m) (Ok db)) with (put_message_tx db c m).
  destruct (put_message_tx db c m) as [db1|e] eqn:E.
  - intros H. destruct (put_message_ok _ _ _ _ T E) as (T1 & X1 & S1 & (A1 & A2 & A3 & A4 & A5) & C1 & I1).
    destruct (IH db1 T1 H) as (T2 & X2 & S2 & (B1 & B2 & B3 & B4 & B5) & C2 & I2).
    split; [done|]. split; [by etrans|]. split; [constructor; [by eapply stored_mono|done]|].
    split; [|split; congruence]. repeat split; congruence.
  - by rewrite foldl_err.
Qed.

(** Inserting a checkpoint that chains to its parent. *)
Lemma insert_row_ok db row db' id : tree_ok db → insert_checkpoint_row db row = Ok (db', id) →
  (match ck_parent row with
   | None => ck_digest row = root_digest ∧ ck_messages row = []
   | Some p => ∃ prow ms, checkpoints db !! p = Some prow ∧
       ck_conversation prow = ck_conversation row ∧ ck_messages row = message_id <$> ms ∧
       Forall (stored db (ck_conversation row)) ms ∧
       chained_digest (ck_digest prow) ms = Ok (ck_digest row)
   end) →
  id = last_id db + 1 ∧ checkpoints db !! id = None ∧
  db' = set_checkpoints db (<[id := row]> (checkpoints db)) id ∧ tree_ok db' ∧ extends db db'.
Proof.
  intros T. unfold insert_checkpoint_row.
  destruct (select_checkpoints _ db) eqn:Es; [|done]. intros [= <- <-] Hp.
  assert (checkpoints db !! (last_id db + 1) = None) as Hn.
  { destruct (checkpoints db !! (last_id db + 1)) eqn:E; [|done].
    apply (t_bound _ T) in E. lia. }
  assert (checkpoints db ⊆ <[last_id db + 1 := row]> (checkpoints db)) as Hx
    by by apply insert_subseteq.
  split; [done|]. split; [done|]. split; [done|]. split; [|by split].
  assert (∀ i r, checkpoints db !! i = Some r → i ≠ last_id db + 1) as Hne
    by (intros i r H ->; congruence).
  pose proof (t_last _ T) as H8.
  split; cbn; try (by apply T).
  - intros i r [[<- <-]|[? H]]%lookup_insert_Some; [lia|]. apply (t_bound _ T) in H. lia.
  - intros i r q [[<- <-]|[? H]]%lookup_insert_Some Hq.
    + rewrite Hq in Hp. destruct Hp as (prow & ms & Hl & Hc & _).
      pose proof (t_bound _ T _ _ Hl). split; [lia|]. exists prow. split; [|done].
      by eapply lookup_weaken.
    + destruct (t_parent _ T _ _ _ H Hq) as (? & prow & Hl & ?). split; [done|].
      exists prow. split; [|done]. by eapply lookup_weaken.
  - intros i r [[<- <-]|[? H]]%lookup_insert_Some Hq; [by rewrite Hq in Hp|by eapply (t_root _ T)].
  - intros i r q prow [[<- <-]|[? H]]%lookup_insert_Some Hq Hl.
    + rewrite Hq in Hp. destruct Hp as (prow' & ms & Hl' & Hc & Hm & Hs & Hd).
      rewrite lookup_insert_ne in Hl by (symmetry; by eapply Hne). simplify_eq.
      exists ms. by split.
    + assert (checkpoints db !! q = Some prow) as Hl'.
      { destruct (t_parent _ T _ _ _ H Hq) as (? & prow' & Hl' & _).
        rewrite lookup_insert_ne in Hl by (symmetry; by eapply Hne). done. }
      by eapply (t_chain _ T).
  - assert (∀ i r, checkpoints db !! i = Some r → ck_conversation r = ck_conversation row →
      ck_digest r ≠ ck_digest row) as Hu.
    { intros i r H Hc Hd. pose proof (select_nil _ _ _ _ Es H) as Hf.
      by rewrite (proj2 (has_digest_spec _ _ _)) in Hf. }
    intros i r i' r' [[<- <-]|[? H]]%lookup_insert_Some [[<- <-]|[? H']]%lookup_insert_Some Hc Hd;
      [done|..].
    + by destruct (Hu _ _ H').
    + by destruct (Hu _ _ H).
    + by eapply (t_unique _ T).
  - lia.
Qed.

Lemma insert_checkpoint_ok db c p prow ms digest db' id : tree_ok db →
  insert_checkpoint_tx db c p ms digest = Ok (db', id) →
  checkpoints db !! p = Some prow → ck_conversation prow = c →
  chained_digest (ck_digest prow) ms = Ok digest →
  tree_ok db' ∧ extends db db' ∧ same_but_history db db' ∧ checkpoints db !! id = None ∧
  checkpoints db' = <[id := MkCheckpoint c (Some p) digest (message_id <$> ms)]> (checkpoints db) ∧
  Forall (stored db' c) ms.
Proof.
  intros T Hi Hp Hc Hd. unfold insert_checkpoint_tx in Hi.
  destruct (foldl _ (Ok db) ms) as [db1|] eqn:Ef; [|done].
  destruct (put_messages_ok _ _ _ _ T Ef) as (T1 & X1 & S1 & (A1 & A2 & A3 & A4 & A5) & C1 & I1).
  cbn [mbind result_bind] in Hi. case_decide; [|done].
  apply insert_row_ok in Hi as (-> & Hn & -> & T2 & X2); [|done|].
  - rewrite C1, I1 in *. split; [done|]. split; [by etrans|]. split; [done|]. split; [done|].
    split; [done|]. eapply Forall_impl; [done|]. intros m Hm. by eapply stored_mono.
  - cbn. exists prow, ms. rewrite C1. by subst c.
Qed.

Lemma require_active_head_ok db c run expected u : require_active_head_tx db c run expected = Ok u →
  ∃ row, conversations db !! c = Some row ∧ current_checkpoint row = Some expected ∧
    active_run row = Some run.
Proof.
  unfold require_active_head_tx. destruct (conversations db !! c) as [row|]; [|done].
  case_decide as E; [|done]. intros _. exists row. naive_solver.
Qed.

(** The head moves to a checkpoint of the conversation. *)
Lemma move_head_ok db now c run expected next verb db' : owner_ok db →
  ck_conversation <$> checkpoints db !! next = Some c →
  move_head db now c run expected next verb = Ok db' →
  owner_ok db' ∧ checkpoints db' = checkpoints db ∧ messages db' = messages db ∧
  last_id db' = last_id db ∧ tool_rounds db' = tool_rounds db ∧
  tool_round_calls db' = tool_round_calls db ∧
  (current_checkpoint <$> conversations db' !! c = Some (Some next)) ∧
  (∀ r, runs db !! r = None ↔ runs db' !! r = None) ∧
  (∀ r row, runs db !! r = Some row → status <$> runs db' !! r = Some (status row)) ∧
  head_checkpoint <$> runs db' !! run = Some next.
Proof.
  intros O Hn. unfold move_head. destruct (conversations db !! c) as [row|] eqn:Ec; [|done].
  case_decide as E; [|done]. destruct E as [E1 E2]. intros [= <-]. cbn.
  set (f := λ r, MkRunRow (run_conversation r) (run_request r) (base_checkpoint r) next (run_parent r)
      (run_parent_call r) (run_kind_name r) (subagent_kind_name r) (status r)
      (provider_call_index r) (turn_usage r) (failure_category r) (failure_summary r)
      (run_created r) now).
  destruct (o_active _ O _ _ _ Ec E2) as (r & Hr & Hs & Hc & Hh).
  split; [|do 5 (split; [done|]); split; [by rewrite lookup_insert_eq|split; [|split]]].
  - split; cbn.
    + intros c' row' id [[<- <-]|[? H]]%lookup_insert_Some Hi; [by simplify_eq/=|].
      by eapply (o_current _ O).
    + intros c' row' run' [[<- <-]|[Hne H]]%lookup_insert_Some Ha; cbn in *.
      * assert (run' = run) as -> by congruence. exists (f r). by rewrite lookup_alter_eq, Hr.
      * destruct (o_active _ O _ _ _ H Ha) as (r' & Hr' & Hs' & Hc' & Hh').
        exists r'. rewrite lookup_alter_ne; [done|]. intros <-. congruence.
    + intros run' r' H Hs'. destruct (decide (run' = run)) as [->|Hne].
      * rewrite lookup_alter_eq, Hr in H. injection H as <-. cbn. rewrite Hc.
        eexists. by rewrite lookup_insert_eq.
      * rewrite lookup_alter_ne in H by done.
        destruct (o_running _ O _ _ H Hs') as (row' & H1 & H2).
        destruct (decide (run_conversation r' = c)) as [Erc|].
        -- rewrite Erc in H1. congruence.
        -- exists row'. by rewrite lookup_insert_ne.
  - intros r'. destruct (decide (r' = run)) as [->|]; [by rewrite lookup_alter_eq, Hr|].
    by rewrite lookup_alter_ne.
  - intros r' row' H. destruct (decide (r' = run)) as [->|].
    + rewrite lookup_alter_eq, H. done.
    + rewrite lookup_alter_ne by done. by rewrite H.
  - by rewrite lookup_alter_eq, Hr.
Qed.

(** A round counts its completed calls, and is settled when none is pending. *)
Definition round_ok (r : ToolRoundRow) (calls : list ToolCallRow) : Prop :=
  NoDup (tc_call_id <$> calls) ∧ tr_version r = tr_next_seq r ∧
  tr_next_seq r = zlen (omap tc_completed calls) ∧
  (tr_status r = RoundSettled ↔ Forall (λ call, is_pending call = false) calls) ∧
  NoDup (cc_seq <$> omap tc_completed calls) ∧
  Forall (λ done, cc_seq done < tr_next_seq r) (omap tc_completed calls).
Definition rounds_ok (db : Db) : Prop :=
  ∀ id r, tool_rounds db !! id = Some r →
    ∃ calls, tool_round_calls db !! id = Some calls ∧ round_ok r calls.

Record db_ok (db : Db) : Prop := {
  ok_tree : tree_ok db; ok_owner : owner_ok db; ok_rounds : rounds_ok db
}.

(** What no transaction undoes: the histories, and the end of a run. *)
Definition ends_stay (db db' : Db) : Prop :=
  ∀ run r, runs db !! run = Some r → ∃ r', runs db' !! run = Some r' ∧
    (status r ≠ Running → status r' = status r).
Definition later (db db' : Db) : Prop := extends db db' ∧ ends_stay db db'.

#[global] Instance later_preorder : PreOrder later.
Proof.
  split.
  - intros db. split; [done|]. intros run r H. by exists r.
  - intros a b c [E1 S1] [E2 S2]. split; [by etrans|]. intros run r H.
    destruct (S1 _ _ H) as (r1 & H1 & F1). destruct (S2 _ _ H1) as (r2 & H2 & F2).
    exists r2. split; [done|]. intros Hr. rewrite F2; [by apply F1|]. by rewrite F1.
Qed.

Lemma same_ends db db' : runs db' = runs db → ends_stay db db'.
Proof. intros E run r H. exists r. by rewrite E. Qed.

Lemma rounds_ok_same db db' : tool_rounds db' = tool_rounds db →
  tool_round_calls db' = tool_round_calls db → rounds_ok db → rounds_ok db'.
Proof. intros E1 E2 R id r. rewrite E1, E2. apply R. Qed.

(** Inserting a checkpoint keeps a database. *)
Lemma insert_checkpoint_db db c p prow ms digest db' id : db_ok db →
  insert_checkpoint_tx db c p ms digest = Ok (db', id) →
  checkpoints db !! p = Some prow → ck_conversation prow = c →
  chained_digest (ck_digest prow) ms = Ok digest →
  db_ok db' ∧ later db db' ∧ same_but_history db db' ∧
  checkpoints db' = <[id := MkCheckpoint c (Some p) digest (message_id <$> ms)]> (checkpoints db) ∧
  checkpoints db !! id = None ∧ Forall (stored db' c) ms.
Proof.
  intros [T O R] Hi Hp Hc Hd.
  destruct (insert_checkpoint_ok _ _ _ _ _ _ _ _ T Hi Hp Hc Hd)
    as (T' & X & (A1 & A2 & A3 & A4 & A5) & Hn & Ec & Hs).
  split; [|split; [|split; [done|by split]]].
  - split; [done| |by eapply rounds_ok_same].
    eapply owner_ok_same; [done..| |done]. apply X.
  - split; [done|]. by apply same_ends.
Qed.

Lemma move_head_db db now c run expected next verb db' : db_ok db →
  ck_conversation <$> checkpoints db !! next = Some c →
  move_head db now c run expected next verb = Ok db' →
  db_ok db' ∧ later db db' ∧ checkpoints db' = checkpoints db ∧ messages db' = messages db ∧
  current_checkpoint <$> conversations db' !! c = Some (Some next) ∧
  head_checkpoint <$> runs db' !! run = Some next ∧
  tool_rounds db' = tool_rounds db ∧ tool_round_calls db' = tool_round_calls db.
Proof.
  intros [T O R] Hn Hm.
  destruct (move_head_ok _ _ _ _ _ _ _ _ O Hn Hm)
    as (O' & C1 & C2 & C3 & C4 & C5 & C6 & C7 & C8 & C9).
  split; [|split; [|done]].
  - split; [by eapply tree_ok_same|done|by eapply rounds_ok_same].
  - split; [split; by rewrite ?C1, ?C2|]. intros r row H. specialize (C8 _ _ H).
    destruct (runs db' !! r) as [r'|]; [|done]. injection C8 as E. eexists. split; [done|].
    by intros _.
Qed.

Lemma set_conversation_db db c row : db_ok db →
  (∀ id, current_checkpoint row = Some id → ck_conversation <$> checkpoints db !! id = Some c) →
  active_run row = (conversations db !! c ≫= active_run) →
  (is_Some (active_run row) → current_checkpoint row = (conversations db !! c ≫= current_checkpoint)) →
  db_ok (set_conversations db (<[c := row]> (conversations db))).
Proof.
  intros [T O R] Hc Ha Hh. split; [by apply (tree_ok_same db)| |done]. split; cbn.
  - intros c' row' id [[<- <-]|[? H]]%lookup_insert_Some; [by apply Hc|by eapply (o_current _ O)].
  - intros c' row' run [[<- <-]|[? H]]%lookup_insert_Some Hr; [|by eapply (o_active _ O)].
    rewrite Ha in Hr. destruct (conversations db !! c) as [old|] eqn:Eo; [|done]. cbn in Hr, Ha, Hh.
    destruct (o_active _ O _ _ _ Eo Hr) as (r & ? & ? & ? & ?). exists r.
    split; [done|]. split; [done|]. split; [done|]. rewrite Hh; [done|]. rewrite Ha. by eexists.
  - intros run r H Hs. destruct (o_running _ O _ _ H Hs) as (old & H1 & H2).
    destruct (decide (run_conversation r = c)) as [E|].
    + rewrite E in *. exists row. rewrite lookup_insert_eq, Ha, H1. done.
    + exists old. by rewrite lookup_insert_ne.
Qed.

(** ** The operations *)
Lemma ensure_conversation_ok db now c db' id : db_ok db →
  ensure_conversation_tx db now c = Ok (db', id) →
  db_ok db' ∧ later db db' ∧ runs db' = runs db ∧
  current_checkpoint <$> conversations db' !! c = Some (Some id) ∧
  ck_conversation <$> checkpoints db' !! id = Some c ∧
  (∀ row, conversations db !! c = Some row → is_Some (current_checkpoint row) → db' = db).
Proof.
  intros D. unfold ensure_conversation_tx.
  set (db1 := match conversations db !! c with Some _ => db | None => _ end).
  assert (db_ok db1 ∧ later db db1 ∧ runs db1 = runs db ∧ checkpoints db1 = checkpoints db ∧
          (conversations db1 !! c = conversations db !! c ∨ conversations db !! c = None)) as
    (D1 & L1 & R1 & K1 & C1).
  { subst db1. destruct (conversations db !! c) as [row|] eqn:E; [by split_and!; try done; left|].
    split; [|split; [by split; [split|apply same_ends]|split; [done|split; [done|by right]]]].
    apply set_conversation_db; cbn; rewrite ?E; done. }
  assert (∀ row, conversations db !! c = Some row → db1 = db) as E1.
  { subst db1. by intros row ->. }
  clearbody db1. destruct (conversations db1 !! c) as [[[cur|] act upd]|] eqn:E; [| |done].
  - intros [= <- <-]. split; [done|]. split; [done|]. split; [done|]. rewrite E. split; [done|].
    split; [by eapply (o_current _ (ok_owner _ D1))|]. intros row H _. by eapply E1.
  - cbn [mbind result_bind]. destruct (insert_checkpoint_row _ _) as [[db2 root]|] eqn:Ei; [|done].
    cbn. intros [= <- <-]. destruct D1 as [T O R].
    apply insert_row_ok in Ei as (_ & Hn & -> & T2 & X2); [|done|by cbn].
    assert (db_ok (set_checkpoints db1 (<[root := MkCheckpoint c None root_digest []]> (checkpoints db1)) root)) as D2.
    { split; [done| |done]. apply (owner_ok_same db1); [done|done|apply X2|done]. }
    split; [|split; [|split; [done|split; [|split]]]].
    + apply set_conversation_db; cbn; [done|..].
      * intros id [= <-]. by rewrite lookup_insert_eq.
      * by rewrite E.
      * rewrite E. cbn. intros [run ->].
        destruct (o_active _ O _ _ _ E eq_refl) as (r & _ & _ & _ & Hh). done.
    + etrans; [done|]. split; [done|]. by apply same_ends.
    + cbn. by rewrite lookup_insert_eq.
    + cbn. by rewrite lookup_insert_eq.
    + intros row H Hs. destruct C1 as [C1|C1]; [|congruence]. rewrite H in C1.
      injection C1 as <-. by destruct Hs.
Qed.

Lemma checkpoint_digest_ok db id d : checkpoint_digest db id = Ok d →
  ∃ row, checkpoints db !! id = Some row ∧ ck_digest row = d.
Proof. unfold checkpoint_digest. destruct (checkpoints db !! id) as [row|]; [|done]. intros [= <-]. eauto. Qed.

(** What an append does: the new head is a child of [expected] with the additions. *)
Definition appended (db db' : Db) (c run : str) (expected : Z) (ms : list CanonicalMessage) (id : Z)
    : Prop :=
  ∃ digest, checkpoints db' = <[id := MkCheckpoint c (Some expected) digest (message_id <$> ms)]>
                                (checkpoints db) ∧
    checkpoints db !! id = None ∧ Forall (stored db' c) ms ∧
    current_checkpoint <$> conversations db' !! c = Some (Some id) ∧
    head_checkpoint <$> runs db' !! run = Some id ∧
    tool_rounds db' = tool_rounds db ∧ tool_round_calls db' = tool_round_calls db.

(** The head of a conversation is a checkpoint of it. *)
Lemma active_head_row db c run expected u : db_ok db → require_active_head_tx db c run expected = Ok u →
  ∃ row, checkpoints db !! expected = Some row ∧ ck_conversation row = c.
Proof.
  intros [_ O _] (row & H1 & H2 & _)%require_active_head_ok.
  pose proof (o_current _ O _ _ _ H1 H2) as H.
  destruct (checkpoints db !! expected) as [ck|]; [|done]. injection H as H. by exists ck.
Qed.

Lemma insert_and_move db now c run expected parent prow ms digest verb db1 id db' : db_ok db →
  insert_checkpoint_tx db c parent ms digest = Ok (db1, id) →
  checkpoints db !! parent = Some prow → ck_conversation prow = c →
  chained_digest (ck_digest prow) ms = Ok digest →
  move_head db1 now c run expected id verb = Ok db' →
  db_ok db' ∧ later db db' ∧ appended db db' c run parent ms id.
Proof.
  intros D Hi Hp Hc Hd Hm.
  destruct (insert_checkpoint_db _ _ _ _ _ _ _ _ D Hi Hp Hc Hd)
    as (D1 & L1 & (A1 & A2 & A3 & A4 & A5) & Ec & Hn & Hs).
  apply move_head_db in Hm as (D2 & L2 & C1 & C2 & C3 & C4 & C5 & C6); [|done|].
  2: { by rewrite Ec, lookup_insert_eq. }
  split; [done|]. split; [by etrans|]. exists digest. rewrite C1, C5, C6.
  do 2 (split; [done|]). split; [|by auto].
  eapply Forall_impl; [done|]. intros m Hst. eapply stored_mono; [apply L2|done].
Qed.

Lemma append_checkpoint_tx_ok db now c run expected ms db' id : db_ok db →
  append_checkpoint_tx db now c run expected ms = Ok (db', id) →
  db_ok db' ∧ later db db' ∧ appended db db' c run expected ms id.
Proof.
  intros D. unfold append_checkpoint_tx.
  intros (pd & Hpd & (digest & Hd & H)%bind_ok)%bind_ok.
  unfold append_checkpoint_with_digest_tx in H. apply bind_ok in H as (u & Hr & H).
  destruct (active_head_row _ _ _ _ _ D Hr) as (prow & Hp & Hc).
  apply checkpoint_digest_ok in Hpd as (prow' & Hp' & <-).
  assert (prow' = prow) as -> by congruence.
  destruct (select_checkpoints _ db); [|done].
  apply bind_ok in H as ([db1 ck] & Hi & (db2 & Hm & [= <- <-])%bind_ok).
  by eapply insert_and_move.
Qed.

Lemma conversation_root_ok db c root : conversation_root_tx db c = Ok root →
  ∃ row, checkpoints db !! root = Some row ∧ ck_conversation row = c ∧ ck_parent row = None.
Proof.
  unfold conversation_root_tx. destruct (select_checkpoints _ db) as [|r l] eqn:E; [done|].
  intros [= <-]. assert (r ∈ r :: l) as H by left. rewrite <- E in H.
  apply select_elem in H as (row & H & Hb). exists row.
  rewrite andb_true_iff, !bool_decide_eq_true in Hb. naive_solver.
Qed.

Lemma replace_checkpoint_ok db now c run expected ms db' id : db_ok db →
  replace_checkpoint db now c run expected ms = Ok (db', id) →
  ∃ root rrow, checkpoints db !! root = Some rrow ∧ ck_conversation rrow = c ∧
    ck_parent rrow = None ∧ db_ok db' ∧ later db db' ∧ appended db db' c run root ms id.
Proof.
  intros D. unfold replace_checkpoint.
  intros (u & Hr & (root & Hroot & (pd & Hpd & (digest & Hd & ([db1 ck] & Hi &
    (db2 & Hm & [= <- <-])%bind_ok)%bind_ok)%bind_ok)%bind_ok)%bind_ok)%bind_ok.
  apply conversation_root_ok in Hroot as (rrow & H1 & H2 & H3).
  apply checkpoint_digest_ok in Hpd as (rrow' & Hp' & <-).
  assert (rrow' = rrow) as -> by congruence.
  exists root, rrow. do 3 (split; [done|]). by eapply insert_and_move.
Qed.

(** ** Histories *)

(** Parents are older, so the id of a checkpoint is fuel enough for its lineage. *)
Lemma lineage_fuel db : tree_ok db → ∀ n id, (Z.to_nat id ≤ n)%nat →
  lineage n (checkpoints db) id = lineage_of db id.
Proof.
  intros T. unfold lineage_of. induction n as [n IH] using lt_wf_ind. intros id Hn.
  destruct n as [|n]; [by replace (Z.to_nat id) with 0%nat by lia|].
  destruct (checkpoints db !! id) as [row|] eqn:E.
  - pose proof (t_bound _ T _ _ E). destruct (Z.to_nat id) as [|k] eqn:Ek; [lia|].
    cbn [lineage]. rewrite E. f_equal. destruct (ck_parent row) as [p|] eqn:Ep; [|done].
    destruct (t_parent _ T _ _ _ E Ep) as (? & prow & Hp & _). pose proof (t_bound _ T _ _ Hp).
    rewrite (IH n) by lia. symmetry. apply (IH k); lia.
  - cbn [lineage]. rewrite E. destruct (Z.to_nat id); cbn [lineage]; by rewrite ?E.
Qed.

Lemma lineage_cons db id row : tree_ok db → checkpoints db !! id = Some row →
  lineage_of db id = (id, row) :: match ck_parent row with
                                  | Some p => lineage_of db p
                                  | None => []
                                  end.
Proof.
  intros T E. rewrite <- (lineage_fuel db T (S (Z.to_nat id))) by lia. cbn [lineage]. rewrite E.
  f_equal. destruct (ck_parent row) as [p|] eqn:Ep; [|done].
  destruct (t_parent _ T _ _ _ E Ep) as (? & _). apply lineage_fuel; [done|lia].
Qed.

(** Induction on a checkpoint from its parent. *)
Lemma checkpoint_ind db (P : Z → Prop) : tree_ok db →
  (∀ id row, checkpoints db !! id = Some row → ck_parent row = None → P id) →
  (∀ id row p, checkpoints db !! id = Some row → ck_parent row = Some p → P p → P id) →
  ∀ id row, checkpoints db !! id = Some row → P id.
Proof.
  intros T H0 H1 id. assert (∀ n id, (Z.to_nat id < n)%nat →
    ∀ row, checkpoints db !! id = Some row → P id) as H; [|intros row; by apply (H (S (Z.to_nat id))); lia].
  induction n as [|n IH]; [lia|]. intros i Hi row E.
  destruct (ck_parent row) as [p|] eqn:Ep; [|by eapply H0]. eapply H1; [done..|].
  destruct (t_parent _ T _ _ _ E Ep) as (? & prow & Hp & _). pose proof (t_bound _ T _ _ Hp).
  eapply IH; [lia|done].
Qed.

(** The history of a checkpoint, read from the messages: [None] is no checkpoint. *)
Lemma history_rows_cons db id row p : tree_ok db → checkpoints db !! id = Some row →
  ck_parent row = Some p →
  history_rows db id = history_rows db p ++
    omap (λ m, (λ r, (m, r)) <$> messages db !! (ck_conversation row, m)) (ck_messages row).
Proof.
  intros T E Ep. unfold history_rows. rewrite (lineage_cons db id row T E), Ep.
  rewrite reverse_cons, fmap_app, join_app. f_equal. cbn. apply app_nil_r.
Qed.
Lemma history_rows_root db id row : tree_ok db → checkpoints db !! id = Some row →
  ck_parent row = None → history_rows db id = [].
Proof.
  intros T E Ep. unfold history_rows. rewrite (lineage_cons db id row T E), Ep. cbn.
  by rewrite (proj2 (t_root _ T _ _ E Ep)).
Qed.

(** ** Histories

    The history of a checkpoint is the list of the messages that were appended to it and
    its ancestors: the rows of its lineage hold their payloads.  Loading a checkpoint
    reads every payload back. *)
Definition row_holds (p : str * MessageRow) (m : CanonicalMessage) : Prop :=
  p.1 = message_id m ∧ row_event_id p.2 = runtime_event_id m ∧ encode_message m = Ok (payload_json p.2).
Definition history (db : Db) (id : Z) (h : list CanonicalMessage) : Prop :=
  Forall2 row_holds (history_rows db id) h.

(** What a message is after it was stored and loaded. *)
Definition reread (m : CanonicalMessage) : res CanonicalMessage :=
  payload ← map_err Json (encode_message m); map_err Json (decode_message payload).

Lemma stored_row_identity db c m row : tree_ok db → messages db !! (c, message_id m) = Some row →
  encode_message m = Ok (payload_json row) → row_event_id row = runtime_event_id m.
Proof.
  intros T Hr He. destruct (t_message _ T _ _ _ Hr) as (m' & He' & _ & ->).
  by destruct (encode_identity _ _ _ He' He).
Qed.
(** The rows of messages that are stored. *)
Lemma stored_rows db c ms : tree_ok db → Forall (stored db c) ms →
  Forall2 row_holds (omap (λ m, (λ r, (m, r)) <$> messages db !! (c, m)) (message_id <$> ms)) ms.
Proof.
  intros T. induction 1 as [|m ms (row & Hr & He) _ IH]; [constructor|].
  cbn. rewrite Hr. constructor; [|done]. split; [done|]. split; [|done]. by eapply stored_row_identity.
Qed.

Lemma mapM_app {A C} (f : A → res C) l k :
  mapM f (l ++ k) = (x ← mapM f l; y ← mapM f k; Ok (x ++ y)).
Proof.
  induction l as [|a l IH]; cbn; [by destruct (mapM f k)|].
  destruct (f a); cbn; [|done]. rewrite IH. destruct (mapM f l); cbn; [|done].
  by destruct (mapM f k).
Qed.

Lemma history_load db id h : history db id h → load_checkpoint_messages db id = mapM reread h.
Proof.
  unfold history, load_checkpoint_messages. induction 1 as [|p m rows h (_ & _ & He) _ IH]; [done|].
  assert (reread m = map_err Json (decode_message (payload_json p.2))) as Hm
    by (unfold reread; by rewrite He).
  cbn [mapM]. by rewrite IH, Hm.
Qed.

(** A child adds its messages to the history of its parent. *)
Lemma history_child db id c p digest ms h : tree_ok db →
  checkpoints db !! id = Some (MkCheckpoint c (Some p) digest (message_id <$> ms)) →
  Forall (stored db c) ms → history db p h → history db id (h ++ ms).
Proof.
  intros T E S H. unfold history. rewrite (history_rows_cons db id _ p T E eq_refl).
  apply Forall2_app; [done|]. by apply stored_rows.
Qed.

(** Every checkpoint has a history, and no transaction changes it. *)
Lemma history_total db id row : tree_ok db → checkpoints db !! id = Some row → ∃ h, history db id h.
Proof.
  intros T. revert id row. apply (checkpoint_ind db); [done|..].
  - intros id row E Ep. exists []. unfold history. by rewrite (history_rows_root db id row).
  - intros id row p E Ep [h IH]. destruct (t_parent _ T _ _ _ E Ep) as (_ & prow & Hp & _).
    destruct (t_chain _ T _ _ _ _ E Ep Hp) as (ms & Hids & Hst & _).
    exists (h ++ ms). destruct row as [c par dg ids]; cbn in *. subst par ids.
    by apply (history_child db id c p dg ms).
Qed.

Lemma extends_rows db db' id row : tree_ok db → tree_ok db' → extends db db' →
  checkpoints db !! id = Some row → history_rows db' id = history_rows db id.
Proof.
  intros T T' X. revert id row. apply (checkpoint_ind db); [done|..]; intros id row.
  - intros E Ep. rewrite (history_rows_root db id row) by done.
    apply (history_rows_root db' id row); [done| |done]. eapply lookup_weaken; [done|apply X].
  - intros p E Ep IH. destruct (t_parent _ T _ _ _ E Ep) as (_ & prow & Hp & _).
    destruct (t_chain _ T _ _ _ _ E Ep Hp) as (ms & Hids & Hst & _).
    assert (checkpoints db' !! id = Some row) as E' by (eapply lookup_weaken; [done|apply X]).
    rewrite (history_rows_cons db' id row p), (history_rows_cons db id row p), IH by done.
    f_equal. rewrite Hids. clear -Hst X. induction Hst as [|m ms (r & Hr & _) _ IH]; [done|].
    cbn. rewrite Hr, (lookup_weaken _ (messages db') _ _ Hr) by apply X. cbn. by rewrite IH.
Qed.

Lemma extends_load db db' id row : tree_ok db → tree_ok db' → extends db db' →
  checkpoints db !! id = Some row →
  load_checkpoint_messages db' id = load_checkpoint_messages db id.
Proof. intros T T' X E. unfold load_checkpoint_messages. by rewrite (extends_rows db db' id row). Qed.

Lemma extends_history db db' id row h : tree_ok db → tree_ok db' → extends db db' →
  checkpoints db !! id = Some row → history db id h → history db' id h.
Proof. intros T T' X E. unfold history. by rewrite (extends_rows db db' id row). Qed.

(** What an append does to the history. *)
Lemma appended_history db db' c run expected prow ms id h : db_ok db → db_ok db' → extends db db' →
  appended db db' c run expected ms id → checkpoints db !! expected = Some prow →
  history db expected h → history db' id (h ++ ms).
Proof.
  intros [T _ _] [T' _ _] X (digest & Ec & Hn & Hs & _) Hp Hl.
  apply (history_child db' id c expected digest ms); [done| |done|].
  - by rewrite Ec, lookup_insert_eq.
  - by apply (extends_history db db' expected prow).
Qed.
(** The same, of what is loaded. *)
Lemma appended_load db db' c run expected prow ms id : db_ok db → db_ok db' → extends db db' →
  appended db db' c run expected ms id → checkpoints db !! expected = Some prow →
  load_checkpoint_messages db' id =
    (h ← load_checkpoint_messages db expected; k ← mapM reread ms; Ok (h ++ k)).
Proof.
  intros D D' X A Hp. destruct (history_total db expected prow (ok_tree _ D) Hp) as [h H].
  rewrite (history_load _ _ _ H), <- mapM_app. apply history_load.
  exact (appended_history _ _ _ _ _ _ _ _ _ D D' X A Hp H).
Qed.

Lemma import_checkpoint_ok db now c ms db' id : db_ok db →
  import_checkpoint db now c ms = Ok (db', id) →
  db_ok db' ∧ later db db' ∧ ck_conversation <$> checkpoints db' !! id = Some c.
Proof.
  intros D. unfold import_checkpoint.
  intros ([db1 cur] & He & (cm & Hl & ([parent adds] & Hpa & H)%bind_ok)%bind_ok)%bind_ok.
  destruct (ensure_conversation_ok _ _ _ _ _ D He) as (D1 & L1 & _ & _ & Hcur & _).
  assert (∃ prow, checkpoints db1 !! parent = Some prow ∧ ck_conversation prow = c) as (prow & Hp & Hc).
  { destruct (extends_prefix cm ms).
    - injection Hpa as <- <-. destruct (checkpoints db1 !! cur) as [r|]; [|done].
      injection Hcur as Hcur. by exists r.
    - apply bind_ok in Hpa as (root & (r & ? & ? & _)%conversation_root_ok & [= <- <-]). by exists r. }
  case_decide.
  { injection H as <- <-. done. }
  apply bind_ok in H as (pd & Hpd & (digest & Hd & H)%bind_ok).
  apply checkpoint_digest_ok in Hpd as (prow' & Hp' & <-).
  assert (prow' = prow) as -> by congruence.
  destruct (select_checkpoints _ db1) as [|ex l] eqn:Es.
  - destruct (insert_checkpoint_db _ _ _ _ _ _ _ _ D1 H Hp Hc Hd) as (D2 & L2 & _ & Ec & _).
    split; [done|]. split; [by etrans|]. by rewrite Ec, lookup_insert_eq.
  - injection H as <- <-. split; [done|]. split; [done|].
    assert (ex ∈ ex :: l) as Hin by left. rewrite <- Es in Hin.
    apply select_elem in Hin as (r & Hr & [Hrc _]%has_digest_spec). by rewrite Hr, <- Hrc.
Qed.

(** Two messages with one identity: the same id, or the same runtime event. *)
Definition same_identity (m k : CanonicalMessage) : bool :=
  bool_decide (message_id k = message_id m)
  || bool_decide (runtime_event_id m ≠ None) && bool_decide (runtime_event_id k = runtime_event_id m).

(** The messages a batch adds to a history: those whose identity it does not have. *)
Fixpoint new_messages (history ms : list CanonicalMessage) : list CanonicalMessage :=
  match ms with
  | [] => []
  | m :: ms =>
      if existsb (same_identity m) history then new_messages history ms
      else m :: new_messages (history ++ [m]) ms
  end.

(** The identities of a history. *)
Definition identities_of (known : list ChainIdentity) (h : list CanonicalMessage) : Prop :=
  Forall2 (λ k m, id_message k = message_id m ∧ id_event k = runtime_event_id m ∧
             (id_body k = None ∨ id_body k = Some m)) known h.

Lemma identities_find known h m : identities_of known h →
  match list_find (λ k, Is_true (identity_matches k m)) known with
  | Some (_, k) => existsb (same_identity m) h = true ∧
      ∃ b, b ∈ h ∧ same_identity m b = true ∧ (id_body k = None ∨ id_body k = Some b)
  | None => existsb (same_identity m) h = false
  end.
Proof.
  induction 1 as [|k b known h (E1 & E2 & E3) _ IH]; [done|].
  assert (identity_matches k m = same_identity m b) as Em
    by (unfold identity_matches, same_identity; by rewrite E1, E2).
  cbn [list_find existsb]. destruct (decide (Is_true (identity_matches k m))) as [H|H].
  - apply Is_true_true in H. rewrite <- Em, H. split; [done|].
    exists b. split; [by left|]. by rewrite <- Em.
  - apply Is_true_false in H. rewrite <- Em, H. cbn.
    destruct (list_find _ known) as [[i k']|]; cbn; [|done].
    destruct IH as (? & b' & ? & ?). split; [done|]. exists b'. split; [by right|done].
Qed.

(** The identities of a chain, without bodies. *)
Lemma chain_identity_bodies db c id k : k ∈ chain_identities db c id → id_body k = None.
Proof.
  unfold chain_identities. destruct (checkpoints db !! id) as [row|]; [|by intros ?%not_elem_of_nil].
  case_decide; [|by intros ?%not_elem_of_nil]. by intros (p & -> & _)%list_elem_of_fmap.
Qed.

(** The identities of a chain are those of its history. *)
Lemma chain_identities_of snapshot db c id row h : tree_ok snapshot → tree_ok db →
  extends snapshot db → checkpoints snapshot !! id = Some row → ck_conversation row = c →
  history db id h → identities_of (chain_identities snapshot c id) h.
Proof.
  intros Ts T X Es Hc H. unfold chain_identities. rewrite Es, decide_True by done.
  rewrite <- (extends_rows snapshot db id row) by done. unfold identities_of.
  apply Forall2_fmap_l. eapply Forall2_impl; [exact H|]. intros p m (? & ? & _). by auto.
Qed.

(** ** The loop of [append_messages_once] *)

(** The message is stored, under an equal message of the batch or a payload that reads back
    as an equal message. *)
Definition settled (batch : list CanonicalMessage) (db : Db) (c : str) (m : CanonicalMessage) : Prop :=
  ∃ row, messages db !! (c, message_id m) = Some row ∧
    ((∃ b, b ∈ batch ∧ encode_message b = Ok (payload_json row) ∧ message_eq b m = true) ∨
     (∃ m', decode_message (payload_json row) = Ok m' ∧ message_eq m' m = true)).

(** Which messages of a batch are inserted. *)
Fixpoint inserted_flags (history ms : list CanonicalMessage) : list bool :=
  match ms with
  | [] => []
  | m :: ms =>
      if existsb (same_identity m) history then false :: inserted_flags history ms
      else true :: inserted_flags (history ++ [m]) ms
  end.

Lemma settled_mono batch db db' c m : extends db db' → settled batch db c m → settled batch db' c m.
Proof. intros [_ X] (row & H & ?). exists row. split; [|done]. by eapply lookup_weaken. Qed.
Lemma stored_settled batch db c m : m ∈ batch → stored db c m → settled batch db c m.
Proof. intros Hm (row & H & E). exists row. split; [done|]. left. exists m. by rewrite message_eq_refl. Qed.
(** When the messages of the batch read back as they are, a replay finds them unchanged. *)
Lemma settled_same batch db c m : Forall (λ b, reread b = Ok b) batch → settled batch db c m →
  stored_same db c None m = Ok true.
Proof.
  intros Hb (row & H & E). unfold stored_same. rewrite H.
  destruct E as [(b & Hin & He & Eq)|(m' & Hd & Eq)].
  - rewrite Forall_forall in Hb. specialize (Hb b Hin). unfold reread in Hb. rewrite He in Hb.
    cbn [map_err mbind result_bind] in Hb |- *. rewrite Hb. cbn. by rewrite Eq.
  - rewrite Hd. cbn. by rewrite Eq.
Qed.
Lemma message_eq_id a b : message_eq a b = true → message_id a = message_id b.
Proof. unfold message_eq. rewrite !andb_true_iff, bool_decide_eq_true. naive_solver. Qed.

Record al_inv (batch : list CanonicalMessage) (db0 : Db) (c : str) (expected : Z) (h : list CanonicalMessage)
    (s : AppendLoop) : Prop := {
  ai_ok : db_ok (al_db s);
  ai_later : later db0 (al_db s);
  ai_same : same_but_history db0 (al_db s);
  ai_head : ∃ row, checkpoints (al_db s) !! al_head s = Some row ∧ ck_conversation row = c ∧
      ck_digest row = al_digest s;
  ai_history : history (al_db s) (al_head s) h;
  ai_known : identities_of (al_known s) h;
  ai_bodies k b : k ∈ al_known s → id_body k = Some b → b ∈ batch ∧ stored (al_db s) c b;
  ai_fresh : al_db s = db0 ∧ al_head s = expected ∨ checkpoints db0 !! al_head s = None
}.

Lemma append_one_found batch db0 c expected h s m k i s' : al_inv batch db0 c expected h s →
  list_find (λ k, Is_true (identity_matches k m)) (al_known s) = Some (i, k) →
  append_one c s m = Ok s' →
  s' = MkAppend (al_db s) (al_known s) (al_head s) (al_digest s) (al_appended s ++ [(al_head s, false)]) ∧
  settled batch (al_db s) c m.
Proof.
  intros I Hf. pose proof (ai_bodies _ _ _ _ _ _ I k) as Hbody.
  destruct s as [db known head dg ap]. unfold append_one. cbn in Hf, Hbody |- *. rewrite Hf.
  destruct (stored_same db c (id_body k) m) as [[]|] eqn:Es; try done. intros [= <-]. split; [done|].
  apply list_find_Some in Hf as (Hk & _). apply list_elem_of_lookup_2 in Hk. unfold stored_same in Es.
  destruct (id_body k) as [b|].
  - injection Es as Eq. destruct (Hbody b Hk eq_refl) as (Hb & brow & Hbr & Hbe).
    exists brow. rewrite <- (message_eq_id _ _ Eq). split; [done|]. left. by exists b.
  - destruct (messages db !! (c, message_id m)) as [row|] eqn:Er; [|done].
    destruct (decode_message (payload_json row)) as [m'|] eqn:Ed; cbn in Es; [|done].
    injection Es as Es. exists row. split; [done|]. right. by exists m'.
Qed.

Lemma append_one_new batch db0 c expected h s m s' : m ∈ batch → al_inv batch db0 c expected h s →
  list_find (λ k, Is_true (identity_matches k m)) (al_known s) = None →
  append_one c s m = Ok s' →
  al_inv batch db0 c expected (h ++ [m]) s' ∧ later (al_db s) (al_db s') ∧ stored (al_db s') c m ∧
  al_appended s' = al_appended s ++ [(al_head s', true)].
Proof.
  intros Hm I Hf. destruct s as [db known head dg ap]. unfold append_one. cbn [al_db al_head al_digest al_known al_appended] in Hf |- *. rewrite Hf.
  intros (digest & Hd & H)%bind_ok. destruct (select_checkpoints _ db); [|done].
  apply bind_ok in H as ([db1 id] & Hi & [= <-]). cbn [al_db al_head al_digest al_known al_appended].
  destruct I as [D La Sa (row & Hr & Hc & Hdg) Hl Hk Hbo Hfr];
    cbn [al_db al_head al_digest al_known] in *. rewrite <- Hdg in Hd.
  destruct (insert_checkpoint_db _ _ _ _ _ _ _ _ D Hi Hr Hc Hd)
    as (D1 & L1 & (B1 & B2 & B3 & B4 & B5) & Ec & Hn & Hst).
  destruct Sa as (A1 & A2 & A3 & A4 & A5).
  split; [|split; [done|split; [inversion Hst; done|done]]]. split; cbn [al_db al_head al_digest al_known al_appended].
  - done.
  - by etrans.
  - repeat split; congruence.
  - eexists. by rewrite Ec, lookup_insert_eq.
  - apply (history_child db1 id c head digest [m]); [apply D1| |done|].
    + by rewrite Ec, lookup_insert_eq.
    + apply (extends_history db db1 head row); [apply D|apply D1|apply L1|done..].
  - apply Forall2_app; [done|]. constructor; [|constructor]. split; [done|]. split; [done|]. by right.
  - intros k b [Hk'|Hk'%list_elem_of_singleton]%elem_of_app Hb; cbn in Hb.
    + destruct (Hbo k b Hk' Hb). split; [done|]. by eapply stored_mono; [apply L1|].
    + subst k. cbn in Hb. injection Hb as <-. split; [done|]. by inversion Hst.
  - right. eapply lookup_weaken_None; [done|apply La].
Qed.

Lemma append_loop_ok batch db0 c expected ms : ms ⊆ batch → ∀ h s s', al_inv batch db0 c expected h s →
  foldl (λ acc m, s ← acc; append_one c s m) (Ok s) ms = Ok s' →
  al_inv batch db0 c expected (h ++ new_messages h ms) s' ∧ later (al_db s) (al_db s') ∧
  Forall (settled batch (al_db s') c) ms ∧
  ∃ out, al_appended s' = al_appended s ++ out ∧ out.*2 = inserted_flags h ms ∧
    al_head s' = default (al_head s) (fst <$> last out).
Proof.
  induction ms as [|m ms IH]; intros Hms h s s' I; cbn [foldl new_messages inserted_flags].
  { intros [= <-]. rewrite app_nil_r. split; [done|]. split; [done|]. split; [done|].
    exists []. by rewrite app_nil_r. }
  assert (m ∈ batch ∧ ms ⊆ batch) as [Hin Hsub] by set_solver. specialize (IH Hsub).
  assert (∀ (x : Z * bool) y (l : list (Z * bool)), default y (fst <$> last (x :: l)) = default x.1 (fst <$> last l))
    as Hlast by (intros x y l; rewrite last_cons; by destruct (last l)).
  change (mbind (λ s, append_one c s m) (Ok s)) with (append_one c s m).
  destruct (append_one c s m) as [s1|e] eqn:E; [|by rewrite foldl_err]. intros H.
  pose proof (identities_find _ _ m (ai_known _ _ _ _ _ _ I)) as Hf.
  destruct (list_find _ (al_known s)) as [[i k]|] eqn:Ef.
  - destruct Hf as [-> _]. destruct (append_one_found _ _ _ _ _ _ _ _ _ _ I Ef E) as [-> Hs].
    destruct (IH h (MkAppend (al_db s) (al_known s) (al_head s) (al_digest s)
      (al_appended s ++ [(al_head s, false)])) s') as (I' & L' & S' & out & Eo & Ef' & Eh);
      [by destruct I|done|]. cbn [al_db al_appended al_head] in L', Eo, Eh.
    split; [done|]. split; [done|]. split; [constructor; [|done]; by eapply settled_mono; [apply L'|]|].
    exists ((al_head s, false) :: out). rewrite Eo, <- app_assoc, Hlast. split; [done|]. cbn. by rewrite Ef'.
  - rewrite Hf. destruct (append_one_new _ _ _ _ _ _ _ _ Hin I Ef E) as (I1 & L1 & Hs & Ea).
    destruct (IH _ s1 s' I1 H) as (I' & L' & S' & out & Eo & Ef' & Eh).
    rewrite <- app_assoc in I'. split; [done|]. split; [by etrans|].
    split; [constructor; [|done]; eapply settled_mono; [apply L'|by apply stored_settled]|].
    exists ((al_head s1, true) :: out). rewrite Eo, Ea, <- app_assoc, Hlast. split; [done|]. cbn. by rewrite Ef'.
Qed.

Lemma append_start batch snapshot db c expected row h : db_ok snapshot → db_ok db → extends snapshot db →
  checkpoints snapshot !! expected = Some row → ck_conversation row = c → history db expected h →
  al_inv batch db c expected h (MkAppend db (chain_identities snapshot c expected) expected (ck_digest row) []).
Proof.
  intros Ds D X Es Hc Hl. split; cbn; try done; [| | |by left].
  - exists row. split; [|done]. eapply lookup_weaken; [exact Es|apply X].
  - eapply chain_identities_of; [apply Ds|apply D|done..].
  - intros k b Hk. by rewrite (chain_identity_bodies _ _ _ _ Hk).
Qed.

Lemma append_messages_once_ok snapshot db now c run expected ms db' out row h :
  db_ok snapshot → db_ok db → extends snapshot db → checkpoints snapshot !! expected = Some row →
  ck_conversation row = c → history db expected h →
  append_messages_once snapshot db now c run expected ms = Ok (db', out) →
  db_ok db' ∧ later db db' ∧ out.*2 = inserted_flags h ms ∧ Forall (settled ms db' c) ms ∧
  (tool_rounds db' = tool_rounds db ∧ tool_round_calls db' = tool_round_calls db) ∧
  ∃ head, head = default expected (fst <$> last out) ∧ history db' head (h ++ new_messages h ms) ∧
    ck_conversation <$> checkpoints db' !! head = Some c ∧
    (ms ≠ [] → current_checkpoint <$> conversations db' !! c = Some (Some head) ∧
               active_run <$> conversations db' !! c = Some (Some run)).
Proof.
  intros Ds D X Es Hc Hl.
  assert (checkpoints db !! expected = Some row) as Er by (eapply lookup_weaken; [done|apply X]).
  unfold append_messages_once. destruct ms as [|m ms'] eqn:Ems.
  { intros [= <- <-]. cbn. rewrite app_nil_r. split; [done|]. split; [done|]. split; [done|].
    split; [done|]. split; [done|]. exists expected. rewrite Er, <- Hc. split; [done|].
    split; [done|]. by split. }
  rewrite <- Ems. clear m ms' Ems. intros (u & Ha & (pd & Hpd & (s & Hs & H)%bind_ok)%bind_ok)%bind_ok.
  apply checkpoint_digest_ok in Hpd as (row' & Hr' & <-). assert (row' = row) as -> by congruence.
  apply require_active_head_ok in Ha as (crow & Hcr & Hcur & Hact).
  destruct (append_loop_ok ms db c expected ms ltac:(done) h (MkAppend db (chain_identities snapshot c expected)
    expected (ck_digest row) []) s (append_start _ _ _ _ _ _ _ Ds D X Es Hc Hl) Hs)
    as (I & L1 & S1 & out' & Eo & Ef & Elast).
  cbn in Eo, Elast. destruct (ai_same _ _ _ _ _ _ I) as (A1 & A2 & _ & A4 & A5).
  case_decide as Eh.
  - injection H as <- <-. split; [apply I|]. split; [apply I|]. split; [by rewrite Eo|]. split; [done|].
    split; [done|]. exists (al_head s). rewrite Eo. split; [done|].
    split; [apply I|]. destruct (ai_head _ _ _ _ _ _ I) as (hr & -> & <- & _).
    split; [done|]. intros _. rewrite A1, Hcr. cbn. by rewrite Hcur, Hact, Eh.
  - apply bind_ok in H as (db2 & Hm & [= <- <-]).
    destruct (ai_head _ _ _ _ _ _ I) as (hr & Hhr & Hhc & _).
    assert (active_run <$> conversations db2 !! c = Some (Some run)) as Hact2.
    { unfold move_head in Hm. rewrite A1, Hcr in Hm. case_decide; [|done]. injection Hm as <-. cbn.
      by rewrite lookup_insert_eq, <- Hact. }
    apply move_head_db in Hm as (D2 & L2 & C1 & C2 & C3 & _ & C5 & C6); [|apply I|by rewrite Hhr, <- Hhc].
    split; [done|]. split; [by etrans|]. split; [by rewrite Eo|].
    split; [eapply Forall_impl; [done|]; intros ? Hst; eapply settled_mono; [apply L2|done]|].
    split; [by rewrite C5, C6|]. exists (al_head s). rewrite Eo. split; [done|].
    split; [|split; [by rewrite C1, Hhr, <- Hhc|by split]].
    eapply (extends_history (al_db s) db2 _ hr); [apply I|apply D2|apply L2|done|apply I].
Qed.

(** ** Runs and rounds *)

Lemma db_ok_calls db calls : db_ok db → db_ok (set_runs db (runs db) calls).
Proof.
  intros [T O R]. split; [by apply (tree_ok_same db)| |done].
  by apply (owner_ok_same db).
Qed.

(** Changing a run in a way that keeps its conversation and its head, and its status
    unless no conversation is owned by it. *)
Lemma set_run_db db run r r' calls : db_ok db → runs db !! run = Some r →
  run_conversation r' = run_conversation r → head_checkpoint r' = head_checkpoint r →
  status r' = status r → db_ok (set_runs db (<[run := r']> (runs db)) calls) ∧
    later db (set_runs db (<[run := r']> (runs db)) calls).
Proof.
  intros [T O R] Hr Hc Hh Hs. split.
  - split; [by apply (tree_ok_same db)| |done]. split; cbn.
    + apply (o_current _ O).
    + intros c row run' H Ha. destruct (o_active _ O _ _ _ H Ha) as (q & Hq & H1 & H2 & H3).
      destruct (decide (run' = run)) as [->|].
      * simplify_eq. exists r'. rewrite lookup_insert_eq. split; [done|]. by rewrite Hs, Hc, Hh.
      * exists q. by rewrite lookup_insert_ne.
    + intros run' q [[<- <-]|[? H]]%lookup_insert_Some Hq; [|by apply (o_running _ O _ _ H)].
      rewrite Hc. apply (o_running _ O _ _ Hr). congruence.
  - split; [done|]. intros run' q Hq. destruct (decide (run' = run)) as [->|].
    + simplify_eq. exists r'. cbn. by rewrite lookup_insert_eq.
    + exists q. cbn. by rewrite lookup_insert_ne.
Qed.

(** Ending a run gives its conversation up. *)
Lemma end_run_db db run r r' row row' calls : db_ok db → runs db !! run = Some r →
  status r' ≠ Running → (status r ≠ Running → status r' = status r) →
  conversations db !! run_conversation r = Some row → active_run row = Some run →
  current_checkpoint row' = current_checkpoint row → active_run row' = None →
  let db' := set_conversations (set_runs db (<[run := r']> (runs db)) calls)
               (<[run_conversation r := row']> (conversations db)) in
  db_ok db' ∧ later db db'.
Proof.
  intros [T O R] Hr Hs Hs' Hc Ha Hcur Hnone. cbv zeta. split.
  - split; [by apply (tree_ok_same db)| |done]. split; cbn.
    + intros c q id [[<- <-]|[? H]]%lookup_insert_Some Hi; [|by apply (o_current _ O c q)].
      rewrite Hcur in Hi. by apply (o_current _ O _ row).
    + intros c q run' [[<- <-]|[Hne H]]%lookup_insert_Some Hq; [congruence|].
      destruct (o_active _ O _ _ _ H Hq) as (p & Hp & H1 & H2 & H3). exists p.
      rewrite lookup_insert_ne; [done|]. intros <-. simplify_eq.
    + intros run' q [[<- <-]|[Hne H]]%lookup_insert_Some Hq; [done|].
      destruct (o_running _ O _ _ H Hq) as (p & Hp & H1). exists p.
      rewrite lookup_insert_ne; [done|]. intros E. rewrite <- E in Hp. congruence.
  - split; [done|]. intros run' q Hq. destruct (decide (run' = run)) as [->|].
    + simplify_eq. exists r'. cbn. by rewrite lookup_insert_eq.
    + exists q. cbn. by rewrite lookup_insert_ne.
Qed.

Lemma begin_provider_call_ok db now run db' n : db_ok db →
  begin_provider_call db now run = Ok (db', n) → db_ok db' ∧ later db db'.
Proof.
  intros D. unfold begin_provider_call. destruct (runs db !! run) as [r|] eqn:Hr; [|done].
  case_decide; [|done]. intros [= <- _]. by apply (set_run_db db run r).
Qed.

Lemma finish_run_ok db now run s usage failed db' released : db_ok db →
  finish_run db now run s usage failed = Ok (db', released) →
  db_ok db' ∧ later db db' ∧ (∃ r, runs db' !! run = Some r ∧ status r ≠ Running).
Proof.
  intros D. unfold finish_run. destruct (runs db !! run) as [r|] eqn:Hr; [|done].
  destruct (decide (status r = Running)) as [Hs|Hs].
  - rewrite bool_decide_eq_true_2 by done. intros (calls & Hc & H)%bind_ok.
    assert (s ≠ Running) as Hne by (intros ->; done). clear Hc.
    destruct (o_running _ (ok_owner _ D) _ _ Hr Hs) as (row & Hrow & Ha). cbn in H.
    rewrite Hrow, decide_True in H by done. injection H as <- _.
    destruct (end_run_db db run r (end_run r s usage (fst <$> failed) (snd <$> failed) now) row
      (MkConversation (current_checkpoint row) None now) calls) as [D' L']; try done.
    split; [done|]. split; [done|]. cbn. eexists. by rewrite lookup_insert_eq.
  - rewrite bool_decide_eq_false_2 by done. intros (calls & Hc & H)%bind_ok. clear Hc. cbn in H.
    assert ((set_runs db (runs db) calls, false) = (db', released)) as E.
    { destruct (conversations db !! run_conversation r) as [row|] eqn:Ec; [|congruence].
      case_decide as Ha; [|congruence]. exfalso.
      destruct (o_active _ (ok_owner _ D) _ _ _ Ec Ha) as (q & Hq & Hqs & _). congruence. }
    injection E as <- _. split; [by apply db_ok_calls|]. split; [split; [done|]|by exists r].
    by apply same_ends.
Qed.

Lemma reconcile_ok db now started : db_ok db →
  db_ok (reconcile_interrupted_runs db now started).1 ∧
  later db (reconcile_interrupted_runs db now started).1.
Proof.
  intros [T O R]. split.
  - split; [by apply (tree_ok_same db)| |done]. split; cbn.
    + intros c row id (old & <- & H)%lookup_fmap_Some Hi. apply (o_current _ O c old); [done|].
      by case_match.
    + intros c row run (old & <- & H)%lookup_fmap_Some Ha.
      destruct (active_run old) as [ro|] eqn:Eo; cbn in Ha; [|by rewrite Eo in Ha].
      destruct (o_active _ O _ _ _ H Eo) as (r & Hr & H1 & H2 & H3). rewrite Hr in *.
      destruct (left_running started r) eqn:El; [done|]. rewrite Eo in Ha. injection Ha as <-.
      exists r. rewrite lookup_fmap, Hr. cbn. rewrite El. split_and!; try done.
      by rewrite Hr, El.
    + intros run r (old & <- & H)%lookup_fmap_Some Hs.
      destruct (left_running started old) eqn:El; [done|].
      destruct (o_running _ O _ _ H Hs) as (row & Hrow & Ha). rewrite lookup_fmap, Hrow. cbn.
      rewrite Ha. cbn. rewrite H, El. by eexists.
  - split; [done|]. intros run r Hr. cbn. rewrite lookup_fmap, Hr. eexists. split; [done|].
    intros Hs. unfold left_running. by rewrite bool_decide_eq_false_2.
Qed.

Lemma cancel_replaced_runs db now run old q : runs (cancel_replaced db now run old) !! q = None ↔
  runs db !! q = None.
Proof.
  unfold cancel_replaced. destruct old as [o|]; [|done]. case_decide; [done|]. cbn.
  destruct (decide (q = o)) as [->|]; [rewrite lookup_alter_eq|by rewrite lookup_alter_ne].
  by destruct (runs db !! o).
Qed.

(** A claim ends the run it replaces and makes the new one the owner. *)
Lemma claim_run_ok db now p db' claimed : db_ok db → claim_run db now p = Ok (db', claimed) →
  db_ok db' ∧ later db db' ∧ runs db !! run_id p = None ∧
  (∃ r, runs db' !! run_id p = Some r ∧ status r = Running ∧
     head_checkpoint r = base_checkpoint_id p ∧ run_conversation r = conversation_id p) ∧
  (∀ old r, cl_replaced claimed = Some old → runs db' !! old = Some r → status r ≠ Running).
Proof.
  intros D. unfold claim_run. intros ([db1 cur] & He & H)%bind_ok.
  destruct (ensure_conversation_ok _ _ _ _ _ D He) as (D1 & L1 & R1 & Hcur & _).
  case_decide as Hbase; [|done].
  set (c := conversation_id p) in *. set (run := run_id p) in *.
  destruct (conversations db1 !! c) as [crow|] eqn:Ec; [|done]. cbn in H.
  set (old := active_run crow) in *. set (db2 := cancel_replaced db1 now run old) in *.
  destruct (run_kind_columns (run_kind p)) as [[[parent call] kind] sub].
  destruct (runs db2 !! run) as [|] eqn:Hnew; [done|]. injection H as <- <-. cbn.
  pose proof (proj1 (cancel_replaced_runs db1 now run old run) Hnew) as Hnew1.
  assert (checkpoints db2 = checkpoints db1 ∧ messages db2 = messages db1 ∧ last_id db2 = last_id db1
    ∧ tool_rounds db2 = tool_rounds db1 ∧ tool_round_calls db2 = tool_round_calls db1
    ∧ conversations db2 = conversations db1) as (K1 & K2 & K3 & K4 & K5 & K6).
  { subst db2. unfold cancel_replaced. destruct old as [o|]; [|done]. by case_decide. }
  (* the runs of [db2]: the replaced one has ended *)
  assert (∀ q r, runs db2 !! q = Some r → ∃ r1, runs db1 !! q = Some r1 ∧
    run_conversation r = run_conversation r1 ∧ head_checkpoint r = head_checkpoint r1 ∧
    (status r = Running → status r1 = Running ∧ old ≠ Some q) ∧
    (status r1 ≠ Running → status r = status r1)) as Hold.
  { intros q r. subst db2. unfold cancel_replaced. destruct old as [o|] eqn:Eo.
    - case_decide as Ho.
      { intros Hq. exists r. do 3 (split; [done|]). split; [|done]. intros _. split; [|].
        all: subst o; destruct (o_active _ (ok_owner _ D1) _ _ _ Ec Eo) as (x & Hx & _); congruence. }
      cbn. destruct (decide (q = o)) as [->|].
      + rewrite lookup_alter_eq. intros (r1 & Hr1 & ->)%fmap_Some. exists r1. rewrite Hr1.
        case_decide; cbn; naive_solver.
      + rewrite lookup_alter_ne by done. intros Hq. exists r. naive_solver.
    - intros Hq. exists r. naive_solver. }
  destruct D1 as [T1 O1 Rd1]. split; [|split; [|split; [|split]]].
  - split; [by apply (tree_ok_same db1)| |intros id r; cbn; rewrite K4, K5; apply Rd1].
    split; cbn; rewrite ?K1, ?K6.
    + intros c' row id [[<- <-]|[? H]]%lookup_insert_Some Hi; [by simplify_eq/=|].
      by apply (o_current _ O1 c' row).
    + intros c' row q [[<- <-]|[Hne H]]%lookup_insert_Some Ha.
      * injection Ha as <-. eexists. rewrite lookup_insert_eq. by split_and!.
      * destruct (o_active _ O1 _ _ _ H Ha) as (r & Hr & H1 & H2 & H3).
        assert (q ≠ run) by (intros ->; congruence).
        exists r. rewrite lookup_insert_ne by done. split; [|done].
        subst db2. unfold cancel_replaced. destruct old as [o|] eqn:Eo; [|done].
        case_decide; [done|]. cbn. rewrite lookup_alter_ne; [done|]. intros <-.
        destruct (o_active _ O1 _ _ _ Ec Eo) as (x & Hx & _ & Hxc & _). congruence.
    + intros q r [[<- <-]|[Hne H]]%lookup_insert_Some Hs.
      * cbn. eexists. by rewrite lookup_insert_eq.
      * destruct (Hold _ _ H) as (r1 & Hr1 & Hrc & _ & Hrs & _). destruct (Hrs Hs) as [Hs1 Ho].
        destruct (o_running _ O1 _ _ Hr1 Hs1) as (row & Hrow & Ha). exists row. rewrite Hrc.
        rewrite lookup_insert_ne; [done|]. intros E. rewrite <- E in Hrow. apply Ho. subst old. congruence.
  - etrans; [done|]. split; [by split; cbn; rewrite ?K1, ?K2|].
    intros q r1 Hr1. cbn. assert (q ≠ run) by (intros ->; congruence).
    rewrite lookup_insert_ne by done. destruct (runs db2 !! q) as [r|] eqn:Hq.
    + exists r. split; [done|]. destruct (Hold _ _ Hq) as (r1' & ? & _ & _ & _ & ?). by simplify_eq.
    + apply cancel_replaced_runs in Hq. congruence.
  - congruence.
  - eexists. rewrite lookup_insert_eq. by split_and!.
  - intros o r Ho Hr Hs. destruct old as [o'|] eqn:Eo; [|done]. case_decide; [done|].
    injection Ho as ->. rewrite lookup_insert_ne in Hr by done.
    destruct (Hold _ _ Hr) as (r1 & _ & _ & _ & Hx & _). by destruct (Hx Hs).
Qed.

(** *** Rounds *)
Lemma is_pending_spec call : is_pending call = true ↔ tc_completed call = None.
Proof. unfold is_pending. rewrite bool_decide_eq_true. by destruct (tc_completed call). Qed.

Lemma pending_calls_completed calls : omap tc_completed (pending_call <$> calls) = [].
Proof. by induction calls. Qed.

Lemma create_tool_round_ok db now round run base assistant calls created db' : db_ok db →
  create_tool_round db now round run base assistant calls created = Ok db' →
  db_ok db' ∧ later db db' ∧ NoDup (call_id <$> calls) ∧ calls ≠ [] ∧
  tool_rounds db' !! round =
    Some (MkToolRound run base assistant RoundPending 0 0 (default now created) now) ∧
  tool_round_calls db' !! round = Some (pending_call <$> calls) ∧
  (∃ r row, runs db' !! run = Some r ∧ status r = Running ∧ head_checkpoint r = base ∧
     conversations db' !! run_conversation r = Some row ∧ active_run row = Some run ∧
     current_checkpoint row = Some base) ∧
  runs db' = runs db ∧ conversations db' = conversations db ∧ checkpoints db' = checkpoints db.
Proof.
  intros [T O R]. unfold create_tool_round. destruct calls as [|call0 calls0] eqn:Ecalls; [done|].
  rewrite <- Ecalls. assert (calls ≠ []) as Hnil by by rewrite Ecalls. clear call0 calls0 Ecalls.
  destruct (runs db !! run) as [r|] eqn:Er; [|done].
  destruct (conversations db !! run_conversation r) as [row|] eqn:Ec; [|done].
  destruct (bool_decide _) eqn:Eo; [|done]. apply bool_decide_eq_true in Eo as (E1 & E2 & E3 & E4).
  destruct (match created with Some t => _ | None => _ end); [done|].
  destruct (tool_rounds db !! round) eqn:Et; [done|]. case_decide as Hn; [|done].
  destruct Hn as [_ Hn]. intros [= <-].
  split; [|split; [by split; [|apply same_ends]|split; [done|split; [done|]]]].
  - split; [by apply (tree_ok_same db)|by apply (owner_ok_same db)|]. intros id q. cbn.
    intros [[<- <-]|[? H]]%lookup_insert_Some.
    + eexists. rewrite lookup_insert_eq. split; [done|]. split; [by rewrite <- list_fmap_compose|].
      cbn. rewrite pending_calls_completed. split; [done|]. split; [done|].
      split; [|split; constructor]. split; [done|]. destruct calls; [done|].
      by intros [? _]%Forall_cons.
    + destruct (R _ _ H) as (cs & Hcs & Hok). exists cs. by rewrite lookup_insert_ne.
  - cbn. rewrite !lookup_insert_eq. split; [done|]. split; [done|]. split; [|done].
    exists r, row. split_and!; try done. congruence.
Qed.

(** Completing one pending call of a round. *)
Lemma complete_calls id done call calls : NoDup (tc_call_id <$> calls) → call ∈ calls →
  tc_call_id call = id → tc_completed call = None →
  omap tc_completed (complete_call id done <$> calls) ≡ₚ done :: omap tc_completed calls ∧
  tc_call_id <$> (complete_call id done <$> calls) = tc_call_id <$> calls ∧
  (∀ c, c ∈ calls → tc_call_id c ≠ id → complete_call id done c = c).
Proof.
  intros Hn Hin Hid Hc.
  assert (tc_call_id <$> (complete_call id done <$> calls) = tc_call_id <$> calls) as Hids.
  { clear. induction calls as [|c calls IH]; [reflexivity|]. cbn. rewrite IH. f_equal.
    unfold complete_call. by case_decide. }
  split; [|split; [exact Hids|]]; [|intros c _ Hne; unfold complete_call; by rewrite decide_False by naive_solver].
  clear Hids. revert Hn Hin. induction calls as [|c calls IH]; [by intros _ ?%not_elem_of_nil|].
  cbn [fmap list_fmap]. intros [Hn1 Hn2]%NoDup_cons [<-|Hin]%elem_of_cons.
  - assert (complete_call id done <$> calls = calls) as ->.
    { clear IH. revert Hn1. induction calls as [|c' calls IH]; [reflexivity|]. cbn. intros Hn1.
      rewrite IH; [|by apply NoDup_cons in Hn2 as [_ ?]|set_solver]. f_equal.
      unfold complete_call. rewrite decide_False; [reflexivity|]. set_solver. }
    cbn. rewrite Hc. unfold complete_call. by rewrite decide_True.
  - assert (tc_call_id c ≠ id) as Hne.
    { intros E. apply Hn1. rewrite E, <- Hid. by apply list_elem_of_fmap_2. }
    assert (complete_call id done c = c) as Ec
      by (unfold complete_call; by rewrite decide_False by naive_solver).
    cbn. rewrite Ec. specialize (IH Hn2 Hin). destruct (tc_completed c).
    + rewrite IH. apply Permutation_swap.
    + exact IH.
Qed.

(** What committing a result does. *)
Record committed (db db' : Db) (c run round : str) (result : ToolResult) (commit : ToolCommit)
    (r : ToolRoundRow) (calls : list ToolCallRow) (call : ToolCallRow) : Prop := {
  cm_round : tool_rounds db !! round = Some r;
  cm_run : tr_run r = run;
  cm_pending : tr_status r = RoundPending;
  cm_calls : tool_round_calls db !! round = Some calls;
  cm_call : call ∈ calls ∧ tc_call_id call = tr_call_id result ∧ tc_completed call = None;
  cm_calls' : ∃ now, tool_round_calls db' !! round = Some (complete_call (tr_call_id result)
      (MkCompleted (tr_next_seq r) (tr_content result) (tr_is_error result) (tm_checkpoint commit) now)
      <$> calls);
  cm_round' : ∃ r', tool_rounds db' !! round = Some r' ∧ tr_run r' = run ∧
      tr_next_seq r' = tr_next_seq r + 1 ∧ tr_assistant r' = tr_assistant r ∧
      (tr_status r' = RoundSettled ↔ tm_settled commit = true);
  cm_head : ∃ run_row, runs db !! run = Some run_row ∧
      appended db (set_rounds db' (tool_rounds db) (tool_round_calls db)) c run
        (head_checkpoint run_row) (result_messages round (tr_assistant r) (tr_next_seq r =? 0) call result)
        (tm_checkpoint commit);
  cm_settled : tm_settled commit = true ↔ ∃ calls', tool_round_calls db' !! round = Some calls' ∧
      Forall (λ call, is_pending call = false) calls'
}.

Lemma filter_pending_nil calls : filter (λ call, Is_true (is_pending call)) calls = [] ↔
  Forall (λ call, is_pending call = false) calls.
Proof.
  rewrite Forall_forall. split.
  - intros E c Hc. destruct (is_pending c) eqn:Ep; [|done].
    assert (c ∈ filter (λ call, Is_true (is_pending call)) calls) as H
      by (apply list_elem_of_filter; by rewrite Ep).
    rewrite E in H. by apply elem_of_nil in H.
  - intros H. destruct (filter _ calls) as [|c l] eqn:E; [done|].
    assert (c ∈ filter (λ call, Is_true (is_pending call)) calls) as Hc by (rewrite E; by left).
    apply list_elem_of_filter in Hc as [Hp Hc]. by rewrite (H c Hc) in Hp.
Qed.

Lemma commit_tool_result_ok db now c run round result db' commit : db_ok db →
  commit_tool_result db now c run round result = Ok (db', commit) →
  db_ok db' ∧ later db db' ∧ ∃ r calls call, committed db db' c run round result commit r calls call.
Proof.
  intros D. unfold commit_tool_result. destruct (tool_rounds db !! round) as [r|] eqn:Er; [|done].
  destruct (ok_rounds _ D _ _ Er) as (calls & Hcalls & Hn & Hv & Hlen & Hst & Hseq & Hlt).
  rewrite Hcalls. change (default [] (Some calls)) with calls.
  destruct (negb _) eqn:Erun; [done|]. apply negb_false_iff, bool_decide_eq_true in Erun.
  destruct (bool_decide (tr_status r = _)) eqn:Es; [done|]. apply bool_decide_eq_false in Es.
  assert (tr_status r = RoundPending) as Hpend by (by destruct (tr_status r)).
  destruct (list_find (λ call, tc_call_id call = tr_call_id result) calls)
    as [[i call]|] eqn:Ef; [|done].
  apply (list_find_Some (λ call, tc_call_id call = tr_call_id result)) in Ef as (Hi & Hid & _). apply list_elem_of_lookup_2 in Hi.
  destruct (negb (is_pending call)) eqn:Ep; [done|]. apply negb_false_iff, is_pending_spec in Ep.
  destruct (runs db !! run) as [run_row|] eqn:Err; [|done].
  intros ([db1 ck] & Ha & [= <- <-])%bind_ok.
  destruct (append_checkpoint_tx_ok _ _ _ _ _ _ _ _ D Ha) as ([T1 O1 R1] & L1 & Happ).
  assert (tool_rounds db1 = tool_rounds db ∧ tool_round_calls db1 = tool_round_calls db) as [K1 K2].
  { destruct Happ as (? & _ & _ & _ & _ & _ & ? & ?). done. }
  set (done := MkCompleted (tr_next_seq r) (tr_content result) (tr_is_error result) ck now).
  destruct (complete_calls (tr_call_id result) done call calls Hn Hi Hid Ep) as (P1 & P2 & _).
  split; [|split].
  - split; [by apply (tree_ok_same db1)|by apply (owner_ok_same db1)|]. intros id q. cbn.
    intros [[<- <-]|[? H]]%lookup_insert_Some.
    + eexists. rewrite lookup_insert_eq. split; [reflexivity|]. split; [by rewrite P2|]. cbn.
      split; [lia|]. split; [|split; [|split]].
      * unfold zlen in *. rewrite P1. cbn. lia.
      * case_bool_decide as Hb; [|split; [done|]]; rewrite filter_pending_nil in Hb; [done|].
        intros Hf. by destruct Hb.
      * rewrite P1. cbn. apply NoDup_cons. split; [|done]. intros Hin.
        apply list_elem_of_fmap in Hin as (x & Hx & Hxin). rewrite Forall_forall in Hlt.
        specialize (Hlt x Hxin). lia.
      * rewrite P1. constructor; [cbn; lia|]. eapply Forall_impl; [exact Hlt|]. cbn. lia.
    + destruct (R1 _ _ H) as (cs & Hcs & Hok). exists cs. by rewrite lookup_insert_ne.
  - split; [apply L1|]. apply L1.
  - exists r, calls, call. split; try done; cbn [tm_checkpoint tm_settled tool_rounds tool_round_calls set_rounds].
    + exists now. by rewrite lookup_insert_eq.
    + eexists. rewrite lookup_insert_eq. split; [reflexivity|]. cbn. do 3 (split; [done|]).
      by case_bool_decide.
    + exists run_row. split; [done|]. destruct Happ as (dg & ? & ? & ? & ? & ? & ? & ?).
      exists dg. by split_and!.
    + rewrite lookup_insert_eq. rewrite bool_decide_eq_true, filter_pending_nil. naive_solver.
Qed.
End Invariants.
