(* ===== verification/StoreMachine.v ===== *)
(** * StoreMachine: the store as a state machine

    The committed transactions as a step relation, the databases it reaches, and the
    theorems on ownership, history, exactly-once commits and runs that have ended. *)

From stdpp Require Import prelude gmap strings list sorting.
From Stdlib Require Import Wf_nat.
From S2P Require Import Prelude Errors External Message Budget Store StoreInvariants.
Local Open Scope Z_scope.

(** ** The store as a state machine *)
Section Machine.
Context `{B : Backend}.

(** One committed transaction.  A batch of runtime messages reads the identities of its
    chain from a [snapshot] taken before the write lock. *)
Inductive store_step : Db → Db → Prop :=
  | step_ensure db now c db' id : ensure_conversation_tx db now c = Ok (db', id) → store_step db db'
  | step_import db now c ms db' id : import_checkpoint db now c ms = Ok (db', id) → store_step db db'
  | step_append db now c run expected ms db' id :
      append_checkpoint db now c run expected ms = Ok (db', id) → store_step db db'
  | step_replace db now c run expected ms db' id :
      replace_checkpoint db now c run expected ms = Ok (db', id) → store_step db db'
  | step_claim db now p db' claimed : claim_run db now p = Ok (db', claimed) → store_step db db'
  | step_begin_call db now run db' n : begin_provider_call db now run = Ok (db', n) → store_step db db'
  | step_finish db now run s usage failed db' released :
      finish_run db now run s usage failed = Ok (db', released) → store_step db db'
  | step_reconcile db now started : store_step db (reconcile_interrupted_runs db now started).1
  | step_round db now round run base assistant calls created db' :
      create_tool_round db now round run base assistant calls created = Ok db' → store_step db db'
  | step_result db now c run round result db' commit :
      commit_tool_result db now c run round result = Ok (db', commit) → store_step db db'
  | step_append_once snapshot db now c run expected ms db' out :
      rtc store_step snapshot db → is_Some (checkpoints snapshot !! expected) →
      rtc store_step empty_db snapshot →
      append_messages_once snapshot db now c run expected ms = Ok (db', out) → store_step db db'.

(** A database the program can have. *)
Definition reachable (db : Db) : Prop := rtc store_step empty_db db.

Context {L : BackendLaws}.

Lemma empty_db_ok : db_ok empty_db.
Proof. split; [split|split|]; try (by intros *; rewrite ?lookup_empty); done. Qed.

Lemma append_checkpoint_ok db now c run expected ms db' id : db_ok db →
  append_checkpoint db now c run expected ms = Ok (db', id) → ms ≠ [] →
  db_ok db' ∧ later db db' ∧ appended db db' c run expected ms id.
Proof. intros D. unfold append_checkpoint. destruct ms; [done|]. intros H _. by eapply append_checkpoint_tx_ok. Qed.

Lemma append_once_step snapshot db now c run expected ms db' out : db_ok snapshot → db_ok db →
  extends snapshot db → is_Some (checkpoints snapshot !! expected) →
  append_messages_once snapshot db now c run expected ms = Ok (db', out) → db_ok db' ∧ later db db'.
Proof.
  intros Ds D X [row Es] H. assert (checkpoints db !! expected = Some row) as Er
    by (eapply lookup_weaken; [done|apply X]).
  destruct (history_total db expected row (ok_tree _ D) Er) as [h Hl].
  destruct ms as [|m ms]; [by injection H as <- _|].
  assert (ck_conversation row = c) as Hc.
  { cbn [append_messages_once] in H. apply bind_ok in H as (u & Ha & _).
    destruct (active_head_row _ _ _ _ _ D Ha) as (row' & Hr' & <-). congruence. }
  destruct (append_messages_once_ok snapshot db now c run expected (m :: ms) db' out row h)
    as (? & ? & _); done.
Qed.

(** Every transaction keeps the database well formed. *)
Lemma steps_ok n : ∀ db db', nsteps store_step n db db' → db_ok db → db_ok db' ∧ later db db'.
Proof.
  assert (∀ db db', store_step db db' → db_ok db → db_ok db' ∧ later db db') as Hstep.
  { fix IH 3. intros db db' [] D.
    - edestruct ensure_conversation_ok as (? & ? & _); done.
    - edestruct import_checkpoint_ok as (? & ? & _); done.
    - destruct ms as [|m ms]; [by injection H as <- _|].
      edestruct append_checkpoint_ok as (? & ? & _); done.
    - edestruct replace_checkpoint_ok as (? & ? & _ & _ & _ & ? & ? & _); done.
    - edestruct claim_run_ok as (? & ? & _); done.
    - by eapply begin_provider_call_ok.
    - edestruct finish_run_ok as (? & ? & _); done.
    - by apply reconcile_ok.
    - edestruct create_tool_round_ok as (? & ? & _); done.
    - edestruct commit_tool_result_ok as (? & ? & _); done.
    - assert (∀ a b, rtc store_step a b → db_ok a → db_ok b ∧ later a b) as IHs.
      { clear -IH. fix IHs 3. intros a b [a'|a' b' c' Hs Hr] Da; [done|].
        destruct (IH a' b' Hs Da) as [Db1 L1]. destruct (IHs b' c' Hr Db1) as [Db2 L2].
        split; [done|]. by etrans. }
      destruct (IHs _ _ H1 empty_db_ok) as [Ds _]. destruct (IHs _ _ H Ds) as [_ [X _]].
      eapply append_once_step; [exact Ds|exact D|exact X|exact H0|exact H2]. }
  induction n as [|n IH]; intros db db' H D; inversion H; subst; [done|].
  destruct (Hstep _ _ H1 D) as [D1 L1]. destruct (IH _ _ H2 D1) as [D2 L2]. split; [done|]. by etrans.
Qed.
Lemma rtc_ok db db' : rtc store_step db db' → db_ok db → db_ok db' ∧ later db db'.
Proof. intros [n H]%rtc_nsteps_1. by eapply steps_ok. Qed.
Lemma reachable_ok db : reachable db → db_ok db.
Proof. intros H. by apply (rtc_ok empty_db), empty_db_ok. Qed.

(** C27: In every database the store's transactions make, a conversation is owned by at most one run —
    the only one of its runs that is running — and its current checkpoint is that run's
    head; the checkpoints of a conversation are a tree with a single root, in which every
    digest chains the digest of the parent with the messages it adds. *)
Theorem store_ownership db : reachable db →
  (∀ r1 r2 row1 row2, runs db !! r1 = Some row1 → runs db !! r2 = Some row2 →
     status row1 = Running → status row2 = Running →
     run_conversation row1 = run_conversation row2 → r1 = r2) ∧
  (∀ run row, runs db !! run = Some row → status row = Running →
     ∃ crow, conversations db !! run_conversation row = Some crow ∧ active_run crow = Some run ∧
       current_checkpoint crow = Some (head_checkpoint row)) ∧
  (∀ c i j ri rj, checkpoints db !! i = Some ri → checkpoints db !! j = Some rj →
     ck_conversation ri = c → ck_conversation rj = c → ck_parent ri = None → ck_parent rj = None →
     i = j) ∧
  (∀ i row, checkpoints db !! i = Some row →
     match ck_parent row with
     | None => ck_digest row = root_digest ∧ ck_messages row = []
     | Some p => ∃ prow ms, checkpoints db !! p = Some prow ∧
         ck_conversation prow = ck_conversation row ∧ ck_messages row = message_id <$> ms ∧
         chained_digest (ck_digest prow) ms = Ok (ck_digest row)
     end).
Proof.
  intros [T O _]%reachable_ok.
  assert (∀ run row, runs db !! run = Some row → status row = Running →
    ∃ crow, conversations db !! run_conversation row = Some crow ∧ active_run crow = Some run ∧
      current_checkpoint crow = Some (head_checkpoint row)) as Hown.
  { intros run row H Hs. destruct (o_running _ O _ _ H Hs) as (crow & Hc & Ha). exists crow.
    destruct (o_active _ O _ _ _ Hc Ha) as (r & Hr & _ & _ & ?). by simplify_eq. }
  split; [|split; [done|split]].
  - intros r1 r2 row1 row2 H1 H2 S1 S2 Ec.
    destruct (Hown _ _ H1 S1) as (c1 & Hc1 & Ha1 & _). destruct (Hown _ _ H2 S2) as (c2 & Hc2 & Ha2 & _).
    rewrite Ec in Hc1. congruence.
  - intros c i j ri rj Hi Hj <- Hc Pi Pj. eapply (t_unique _ T); [done..|].
    by rewrite (proj1 (t_root _ T _ _ Hi Pi)), (proj1 (t_root _ T _ _ Hj Pj)).
  - intros i row H. destruct (ck_parent row) as [p|] eqn:Ep; [|by apply (t_root _ T i)].
    destruct (t_parent _ T _ _ _ H Ep) as (_ & prow & Hp & Hc).
    destruct (t_chain _ T _ _ _ _ H Ep Hp) as (ms & ? & _ & ?). exists prow, ms. by split_and!.
Qed.

(** C28: History is append-only: appending messages gives a new head, whose history is the old
    one followed by them as they read back from their payloads (a tool result without its
    [provider_parts], which are not serialized), and whatever the program does afterwards
    every checkpoint keeps loading what it loaded. *)
Theorem store_history db now c run expected ms db' id db'' : reachable db → ms ≠ [] →
  append_checkpoint db now c run expected ms = Ok (db', id) → rtc store_step db' db'' →
  load_checkpoint_messages db'' id =
    (h ← load_checkpoint_messages db expected; k ← mapM reread ms; Ok (h ++ k)) ∧
  (∃ h, history db expected h ∧ history db'' id (h ++ ms)) ∧
  current_checkpoint <$> conversations db' !! c = Some (Some id) ∧
  ∀ i row, checkpoints db !! i = Some row →
    load_checkpoint_messages db'' i = load_checkpoint_messages db i.
Proof.
  intros D%reachable_ok Hne Ha Hs.
  destruct (append_checkpoint_ok _ _ _ _ _ _ _ _ D Ha Hne) as (D' & L' & Happ).
  destruct (rtc_ok _ _ Hs D') as [D'' L''].
  assert (∃ row, checkpoints db !! expected = Some row) as [row Hrow].
  { unfold append_checkpoint in Ha. destruct ms; [done|].
    apply bind_ok in Ha as (pd & (r & Hr & _)%checkpoint_digest_ok & _). by exists r. }
  destruct (history_total db expected row (ok_tree _ D) Hrow) as [h Hl].
  assert (∃ r, checkpoints db' !! id = Some r) as [r Hr]
    by (destruct Happ as (dg & Ec & _); rewrite Ec, lookup_insert_eq; by eexists).
  split; [|split; [exists h; split; [done|]|split]].
  - rewrite <- (appended_load db db' c run expected row ms id); [|done..|apply L'|done|done].
    by apply (extends_load db' db'' id r); [apply D'|apply D''|apply L''|].
  - apply (extends_history db' db'' id r); [apply D'|apply D''|apply L''|done|].
    by eapply (appended_history db db'); [..|done|done|done]; [done..|apply L'].
  - by destruct Happ as (dg & _ & _ & _ & Hcur & _).
  - intros i irow Hi. eapply extends_load; [apply D|apply D''| |done].
    transitivity db'; [apply L'|apply L''].
Qed.

(** A replay finds every identity. *)
Lemma new_messages_known h ms : Forall (λ m, existsb (same_identity m) h = true) ms →
  new_messages h ms = [] ∧ inserted_flags h ms = replicate (length ms) false.
Proof. induction 1 as [|m ms E _ [IH1 IH2]]; [done|]. cbn. by rewrite E, IH1, IH2. Qed.
Lemma same_identity_refl m : same_identity m m = true.
Proof. unfold same_identity. by rewrite bool_decide_eq_true_2. Qed.
Lemma new_messages_cover ms : ∀ h, Forall (λ m, existsb (same_identity m) (h ++ new_messages h ms) = true) ms.
Proof.
  induction ms as [|m ms IH]; intros h; [constructor|]. cbn [new_messages].
  destruct (existsb (same_identity m) h) eqn:E.
  - constructor; [|apply IH]. by rewrite existsb_app, E.
  - constructor.
    + rewrite existsb_app. cbn. by rewrite same_identity_refl, orb_true_r.
    + specialize (IH (h ++ [m])). rewrite <- app_assoc in IH. apply IH.
Qed.

Lemma append_loop_replay db c head dg ms : ∀ known ap,
  Forall (λ m, ∃ i k, list_find (λ k, Is_true (identity_matches k m)) known = Some (i, k) ∧
                 id_body k = None) ms →
  Forall (λ m, stored_same db c None m = Ok true) ms →
  foldl (λ acc m, s ← acc; append_one c s m) (Ok (MkAppend db known head dg ap)) ms
  = Ok (MkAppend db known head dg (ap ++ ((λ _, (head, false)) <$> ms))).
Proof.
  induction ms as [|m ms IH]; intros known ap; [by rewrite app_nil_r|].
  intros [(i & k & Hk & Hb) H1]%Forall_cons [Hsame H2]%Forall_cons. cbn [foldl].
  change (mbind (λ s, append_one c s m) (Ok (MkAppend db known head dg ap)))
    with (append_one c (MkAppend db known head dg ap) m).
  assert (append_one c (MkAppend db known head dg ap) m
          = Ok (MkAppend db known head dg (ap ++ [(head, false)]))) as ->.
  { unfold append_one. rewrite Hk. by rewrite Hb, Hsame. }
  rewrite IH by done. rewrite <- app_assoc. done.
Qed.

Lemma reachable_history db expected row : reachable db → checkpoints db !! expected = Some row →
  ∃ h, history db expected h.
Proof. intros D%reachable_ok E. by eapply history_total; [apply D|]. Qed.

(** C29: Runtime messages are committed exactly once: a batch adds to the history exactly the
    messages whose identity it does not have yet, in order, and reports which; submitting
    the batch again at the new head adds nothing, changes nothing and is not an error, where
    its messages read back from their payloads as they are (as all do but for
    [provider_parts] of tool results, which are not serialized, and numbers or nesting
    that serde_json does not read back). *)
Theorem append_messages_exactly_once snapshot db now now' c run expected ms db' out :
  reachable snapshot → rtc store_step snapshot db → is_Some (checkpoints snapshot !! expected) →
  ms ≠ [] → append_messages_once snapshot db now c run expected ms = Ok (db', out) →
  ∃ h head, history db expected h ∧ history db' head (h ++ new_messages h ms) ∧
    load_checkpoint_messages db' head =
      (old ← load_checkpoint_messages db expected; new ← mapM reread (new_messages h ms); Ok (old ++ new)) ∧
    out.*2 = inserted_flags h ms ∧
    current_checkpoint <$> conversations db' !! c = Some (Some head) ∧
    (Forall (λ m, reread m = Ok m) ms →
     append_messages_once db' db' now' c run head ms = Ok (db', (λ _, (head, false)) <$> ms)).
Proof.
  intros Rs Hs [row Es] Hne H. pose proof (reachable_ok _ Rs) as Ds.
  destruct (rtc_ok _ _ Hs Ds) as [D [X _]].
  assert (checkpoints db !! expected = Some row) as Er by (eapply lookup_weaken; [done|apply X]).
  destruct (history_total db expected row (ok_tree _ D) Er) as [h Hl].
  assert (ck_conversation row = c) as Hc.
  { destruct ms as [|m ms]; [done|]. cbn [append_messages_once] in H.
    apply bind_ok in H as (u & Ha & _).
    destruct (active_head_row _ _ _ _ _ D Ha) as (row' & Hr' & <-). congruence. }
  destruct (append_messages_once_ok snapshot db now c run expected ms db' out row h)
    as (D' & L' & Hout & Hset & _ & head & _ & Hload & Hhead & Hcur); try done.
  destruct (Hcur Hne) as [Hcur' Hact]. exists h, head. split_and!; try done.
  { by rewrite (history_load _ _ _ Hl), (history_load _ _ _ Hload), mapM_app. }
  intros Hread.
  destruct (checkpoints db' !! head) as [hrow|] eqn:Eh; [|done]. injection Hhead as Hhc.
  destruct (conversations db' !! c) as [crow|] eqn:Ec; [|done].
  injection Hcur' as Hcur'. injection Hact as Hact.
  assert (require_active_head_tx db' c run head = Ok ()) as Ea
    by (unfold require_active_head_tx; by rewrite Ec, decide_True).
  assert (checkpoint_digest db' head = Ok (ck_digest hrow)) as Ed
    by (unfold checkpoint_digest; by rewrite Eh).
  unfold append_messages_once. destruct ms as [|m0 ms0] eqn:Ems; [done|]. rewrite <- Ems in *.
  clear m0 ms0 Ems. rewrite Ea. cbn [mbind result_bind]. rewrite Ed. cbn [mbind result_bind].
  pose proof (chain_identities_of db' db' c head hrow _ (ok_tree _ D') (ok_tree _ D')
    (reflexivity _) Eh Hhc Hload) as Hid.
  rewrite (append_loop_replay db' c head (ck_digest hrow) ms); [|clear H|].
  - cbn [mbind result_bind al_head al_db al_appended]. by rewrite decide_True.
  - eapply Forall_impl; [apply (new_messages_cover ms h)|]. cbn. intros m Hm.
    pose proof (identities_find _ _ m Hid) as Hf.
    destruct (list_find _ _) as [[i k]|] eqn:Ef; [|congruence]. exists i, k. split; [done|].
    apply list_find_Some in Ef as (Hi & _). apply list_elem_of_lookup_2 in Hi.
    by eapply chain_identity_bodies.
  - eapply Forall_impl; [exact Hset|]. intros m. by apply settled_same.
Qed.

(** A run that has ended owns nothing. *)
Lemma ended_not_head db c run expected r : db_ok db → runs db !! run = Some r → status r ≠ Running →
  ∃ e, require_active_head_tx db c run expected = Err e.
Proof.
  intros D Hr Hs. destruct (require_active_head_tx db c run expected) as [u|e] eqn:E; [|by eexists].
  exfalso. apply require_active_head_ok in E as (row & H1 & _ & H2).
  destruct (o_active _ (ok_owner _ D) _ _ _ H1 H2) as (q & Hq & Hqs & _). congruence.
Qed.
Lemma ended_append db now c run expected ms r : db_ok db → runs db !! run = Some r →
  status r ≠ Running → ∃ e, append_checkpoint_tx db now c run expected ms = Err e.
Proof.
  intros D Hr Hs. destruct (ended_not_head db c run expected r D Hr Hs) as [e E].
  unfold append_checkpoint_tx. destruct (checkpoint_digest db expected) as [pd|]; cbn; [|by eexists].
  destruct (chained_digest pd ms) as [d|]; cbn; [|by eexists].
  unfold append_checkpoint_with_digest_tx. rewrite E. by eexists.
Qed.

(** A run that ended — finished, or replaced by a newer claim of its conversation — stays
    ended, and nothing it still tries to write is accepted: not a message, not a
    replacement of the history, not a tool round or a tool result, not a new model call. *)
Theorem ended_run_cannot_write db db' run r : reachable db → runs db !! run = Some r →
  status r ≠ Running → rtc store_step db db' →
  (∃ r', runs db' !! run = Some r' ∧ status r' = status r) ∧
  (∀ now c expected ms, ms ≠ [] → ∃ e, append_checkpoint db' now c run expected ms = Err e) ∧
  (∀ now c expected ms, ∃ e, replace_checkpoint db' now c run expected ms = Err e) ∧
  (∀ snapshot now c expected ms, ms ≠ [] →
     ∃ e, append_messages_once snapshot db' now c run expected ms = Err e) ∧
  (∀ now round base assistant calls created,
     ∃ e, create_tool_round db' now round run base assistant calls created = Err e) ∧
  (∀ now c round result, ∃ e, commit_tool_result db' now c run round result = Err e) ∧
  (∀ now, ∃ e, begin_provider_call db' now run = Err e).
Proof.
  intros D%reachable_ok Hr Hs H. destruct (rtc_ok _ _ H D) as [D' [_ E']].
  destruct (E' _ _ Hr) as (r' & Hr' & Hst). specialize (Hst Hs).
  assert (status r' ≠ Running) as Hs' by congruence.
  split; [by exists r'|]. split_and!.
  - intros now c expected ms Hne. unfold append_checkpoint. destruct ms; [done|].
    by eapply ended_append.
  - intros now c expected ms. destruct (ended_not_head db' c run expected r' D' Hr' Hs') as [e E].
    unfold replace_checkpoint. rewrite E. by eexists.
  - intros snapshot now c expected ms Hne.
    destruct (ended_not_head db' c run expected r' D' Hr' Hs') as [e E].
    unfold append_messages_once. destruct ms; [done|]. rewrite E. by eexists.
  - intros now round base assistant calls created. unfold create_tool_round.
    destruct calls; [by eexists|]. rewrite Hr'.
    destruct (conversations db' !! run_conversation r'); [|by eexists].
    rewrite bool_decide_eq_false_2 by naive_solver. by eexists.
  - intros now c round result. unfold commit_tool_result.
    repeat (case_match; try (by eexists)).
    simplify_eq. edestruct ended_append as [e E]; [exact D'|eassumption|exact Hs'|].
    erewrite E. by eexists.
  - intros now. unfold begin_provider_call. rewrite Hr', decide_False by done. by eexists.
Qed.
End Machine.

(** ** Witnesses

    A backend that knows the messages of a list but for what is not serialized, and hashes
    to the input itself. *)
Module StoreSamples.
(** What is serialized of a message: [provider_parts] is [serde(skip)]. *)
Definition as_stored (m : CanonicalMessage) : CanonicalMessage :=
  match content m with
  | CToolResult r =>
      MkMessage (message_id m) (role m) (origin m)
        (CToolResult (MkResult (r_call_id r) (r_name r) (r_content r) (r_is_error r) (r_image r) []))
        (runtime_event_id m)
  | _ => m
  end.
Definition index (known : list CanonicalMessage) (m : CanonicalMessage) : result foreign_error str :=
  match list_find (as_stored m =.) known with
  | Some (i, _) => Ok [Z.of_nat i]
  | None => Err (ForeignError (lit "unknown message") [])
  end.
Definition backend (known : list CanonicalMessage) : Backend :=
  {| encode_message m := index known m;
     message_bytes m := index known m;
     decode_message p := match p with
                         | [i] => match known !! Z.to_nat i with
                                  | Some m => Ok m
                                  | None => Err (ForeignError (lit "unknown message") [])
                                  end
                         | _ => Err (ForeignError (lit "unknown message") [])
                         end;
     json_eq a b := bool_decide (a = b);
     sha256 input := input;
     constraint_failed what := ForeignError (lit "constraint failed: " ++ what) [] |}.

Lemma index_as_stored known m p : index known m = Ok p →
  ∃ i, p = [Z.of_nat i] ∧ known !! i = Some (as_stored m).
Proof.
  unfold index. destruct (list_find (as_stored m =.) known) as [[i m']|] eqn:E; [|done].
  apply list_find_Some in E as (Hi & <- & _). intros [= <-]. by exists i.
Qed.
Lemma as_stored_identity m : message_id (as_stored m) = message_id m ∧ runtime_event_id (as_stored m) = runtime_event_id m.
Proof. by destruct m as [? ? ? []]. Qed.
Lemma backend_laws known : @BackendLaws (backend known).
Proof.
  split; cbn.
  - intros m m' p (i & -> & Hi)%index_as_stored (j & [= Ej%Nat2Z.inj] & Hj)%index_as_stored. subst j.
    destruct (as_stored_identity m), (as_stored_identity m'). rewrite Hi in Hj. injection Hj as E. split; congruence.
  - intros v. by apply bool_decide_eq_true_2.
Qed.

Definition hello : CanonicalMessage := into_message (MkRuntimeEvent (lit "e1") (lit "hello")).
Definition again : CanonicalMessage := into_message (MkRuntimeEvent (lit "e2") (lit "again")).
Definition conv : str := lit "c".
Definition prepared (run : string) : PreparedRun :=
  let p := sample_prepared [] in
  MkPrepared (lit run) None conv Root (model p) (prompt p) [] Start 1.
(** A result with an image for the provider. *)
Definition seen : CanonicalMessage :=
  MkMessage (lit "m3") RTool OTool
    (CToolResult (MkResult (lit "call") (lit "Read") (lit "an image") false None [PText (lit "shown")])) None.
Definition store : Backend := backend [hello; again; as_stored seen].

(** A database in which run [r1] owns the conversation, at its root. *)
Definition opened : Db :=
  match @ensure_conversation_tx store empty_db 10 conv with
  | Ok (db, _) =>
      match @claim_run store db 11 (prepared "r1") with Ok (db, _) => db | Err _ => empty_db end
  | Err _ => empty_db
  end.
(** ... and one in which [r2] has replaced it. *)
Definition replaced : Db :=
  match @claim_run store opened 12 (prepared "r2") with Ok (db, _) => db | Err _ => empty_db end.

Lemma opened_reachable : @reachable store opened.
Proof.
  eapply rtc_l.
  { eapply (@step_ensure store _ 10 conv _ 1). vm_compute. reflexivity. }
  eapply rtc_once. eapply (@step_claim store _ 11 (prepared "r1")). vm_compute. reflexivity.
Qed.
End StoreSamples.

Lemma store_ownership_witness : @reachable StoreSamples.store StoreSamples.opened ∧
  ∃ crow, conversations StoreSamples.opened !! StoreSamples.conv = Some crow ∧
    active_run crow = Some (lit "r1").
Proof.
  split; [apply StoreSamples.opened_reachable|].
  destruct (store_ownership (L := StoreSamples.backend_laws _) StoreSamples.opened
    StoreSamples.opened_reachable) as (_ & H & _).
  destruct (H (lit "r1") _ ltac:(vm_compute; reflexivity) ltac:(reflexivity)) as (crow & H1 & H2 & _).
  exists crow. split; [exact H1|exact H2].
Defined.

(** The message that is appended loads without what is not serialized of it. *)
Lemma store_history_witness : ∃ db' id,
  @append_checkpoint StoreSamples.store StoreSamples.opened 20 StoreSamples.conv (lit "r1") 1
    [StoreSamples.seen] = Ok (db', id) ∧
  @load_checkpoint_messages StoreSamples.store db' id = Ok [StoreSamples.as_stored StoreSamples.seen] ∧
  StoreSamples.as_stored StoreSamples.seen ≠ StoreSamples.seen.
Proof.
  do 2 eexists.
  assert (@append_checkpoint StoreSamples.store StoreSamples.opened 20 StoreSamples.conv (lit "r1") 1
    [StoreSamples.seen] = Ok (_, _)) as E by (vm_compute; reflexivity).
  destruct (store_history (L := StoreSamples.backend_laws _) _ _ _ _ _ [StoreSamples.seen] _ _ _
    StoreSamples.opened_reachable ltac:(discriminate) E (rtc_refl _ _)) as (H & _).
  split; [exact E|]. split; [|vm_compute; discriminate].
  etransitivity; [exact H|vm_compute; reflexivity].
Defined.

Lemma append_messages_exactly_once_witness : ∃ db' out,
  @append_messages_once StoreSamples.store StoreSamples.opened StoreSamples.opened 20
    StoreSamples.conv (lit "r1") 1 [StoreSamples.hello; StoreSamples.again; StoreSamples.hello]
    = Ok (db', out) ∧ out.*2 = [true; true; false] ∧
  ∃ head, @append_messages_once StoreSamples.store db' db' 21 StoreSamples.conv (lit "r1") head
    [StoreSamples.hello; StoreSamples.again; StoreSamples.hello]
    = Ok (db', [(head, false); (head, false); (head, false)]).
Proof.
  do 2 eexists.
  assert (@append_messages_once StoreSamples.store StoreSamples.opened StoreSamples.opened 20
    StoreSamples.conv (lit "r1") 1 [StoreSamples.hello; StoreSamples.again; StoreSamples.hello]
    = Ok (_, _)) as E by (vm_compute; reflexivity).
  assert (is_Some (checkpoints StoreSamples.opened !! 1)) as Hs
    by (vm_compute; eexists; reflexivity).
  assert (@history_rows StoreSamples.opened 1 = []) as E1 by (vm_compute; reflexivity).
  destruct (append_messages_exactly_once (L := StoreSamples.backend_laws _)
    StoreSamples.opened StoreSamples.opened 20 21 StoreSamples.conv (lit "r1") 1
    [StoreSamples.hello; StoreSamples.again; StoreSamples.hello] _ _
    StoreSamples.opened_reachable (rtc_refl _ _) Hs ltac:(discriminate) E)
    as (h & head & H1 & _ & _ & H2 & _ & H3).
  split; [exact E|]. unfold history in H1. rewrite E1 in H1. apply Forall2_nil_inv_l in H1 as ->.
  split; [exact H2|]. exists head. apply H3. repeat constructor.
Defined.

Lemma ended_run_cannot_write_witness : ∃ e,
  @append_checkpoint StoreSamples.store StoreSamples.replaced 20 StoreSamples.conv (lit "r1") 1
    [StoreSamples.hello] = Err e.
Proof.
  assert (@reachable StoreSamples.store StoreSamples.replaced) as R.
  { eapply rtc_r; [apply StoreSamples.opened_reachable|].
    eapply (@step_claim StoreSamples.store _ 12 (StoreSamples.prepared "r2")).
    vm_compute. reflexivity. }
  assert (∃ r, runs StoreSamples.replaced !! (lit "r1") = Some r ∧ status r = StatusCancelled)
    as (r & Hr & Hs) by (eexists; split; [vm_compute; reflexivity|reflexivity]).
  destruct (ended_run_cannot_write (L := StoreSamples.backend_laws _) _ _ (lit "r1") r R
    Hr ltac:(congruence) (rtc_refl _ _)) as (_ & H & _).
  apply H. discriminate.
Defined.
