(* ===== verification/StoreReferences.v ===== *)
(** * StoreReferences: the checkpoints that the rows of the store name

    The foreign keys from server/src/store/: a run names its base and its head, a tool round its base and a completed call the
    checkpoint that holds its result.  [references_local]: in every database the program can have, each of them is a checkpoint of the
    conversation of the run.  So the rows of a conversation can be deleted without those of another, as retention does. *)

From stdpp Require Import prelude gmap strings list.
From S2P Require Import Prelude Errors External Json Message Store StoreInvariants StoreMachine.
Local Open Scope Z_scope.

Definition in_conversation (db : Db) (id : Z) (c : list Z) : Prop := ck_conversation <$> checkpoints db !! id = Some c.
Record refs_ok (db : Db) : Prop := {
  rf_run run r : runs db !! run = Some r →
    in_conversation db (base_checkpoint r) (run_conversation r) ∧ in_conversation db (head_checkpoint r) (run_conversation r);
  rf_round id tr : tool_rounds db !! id = Some tr →
    ∃ r, runs db !! tr_run tr = Some r ∧ in_conversation db (tr_base_checkpoint tr) (run_conversation r);
  rf_call id calls call done : tool_round_calls db !! id = Some calls → call ∈ calls → tc_completed call = Some done →
    ∃ tr r, tool_rounds db !! id = Some tr ∧ runs db !! tr_run tr = Some r ∧ in_conversation db (cc_checkpoint done) (run_conversation r)
}.

(** What a transaction may do to the runs: move a head within the conversation, and add a run. *)
Definition moved (db db' : Db) : Prop :=
  checkpoints db ⊆ checkpoints db' ∧ (∀ q, is_Some (runs db !! q) → is_Some (runs db' !! q)) ∧
  ∀ q r', runs db' !! q = Some r' →
    (∃ r, runs db !! q = Some r ∧ run_conversation r' = run_conversation r ∧ base_checkpoint r' = base_checkpoint r ∧
      (head_checkpoint r' = head_checkpoint r ∨ in_conversation db' (head_checkpoint r') (run_conversation r))) ∨
    (runs db !! q = None ∧ in_conversation db' (base_checkpoint r') (run_conversation r') ∧
      in_conversation db' (head_checkpoint r') (run_conversation r')).

Lemma in_conversation_mono db db' id c : checkpoints db ⊆ checkpoints db' → in_conversation db id c → in_conversation db' id c.
Proof.
  unfold in_conversation. intros Hs. destruct (checkpoints db !! id) as [row|] eqn:E; [|done]. by rewrite (lookup_weaken _ _ _ _ E Hs).
Qed.
Lemma moved_same db db' : checkpoints db ⊆ checkpoints db' → runs db' = runs db → moved db db'.
Proof. intros Hs E. split; [done|]. rewrite E. split; [done|]. intros q r Hq. left. exists r. naive_solver. Qed.
(** Runs changed one by one, in what is not their place in the history. *)
Definition same_place (r' r : RunRow) : Prop :=
  run_conversation r' = run_conversation r ∧ base_checkpoint r' = base_checkpoint r ∧ head_checkpoint r' = head_checkpoint r.
Lemma moved_pointwise db db' : checkpoints db ⊆ checkpoints db' →
  (∀ q, option_relation same_place (λ _, False) (λ _, False) (runs db' !! q) (runs db !! q)) → moved db db'.
Proof.
  intros Hs H. split; [done|]. split.
  - intros q [r E]. specialize (H q). rewrite E in H. destruct (runs db' !! q); [by eexists|done].
  - intros q r' Hq. left. specialize (H q). rewrite Hq in H. destruct (runs db !! q) as [r|]; [|done]. exists r.
    destruct H as (? & ? & ?). naive_solver.
Qed.
Lemma moved_trans a b c : moved a b → moved b c → moved a c.
Proof.
  intros (S1 & K1 & H1) (S2 & K2 & H2). split; [by etrans|]. split; [by eauto|]. intros q r2 Hq.
  destruct (H2 q r2 Hq) as [(r1 & Hr1 & Ec & Eb & Eh)|(Hn & Hb & Hh)].
  - rewrite Ec, Eb. destruct (H1 q r1 Hr1) as [(r & Hr & Ec' & Eb' & Eh')|(Hn & Hb & Hh)].
    + left. exists r. split; [done|]. split; [done|]. split; [done|]. rewrite Ec' in Eh. destruct Eh as [->|?]; [|by right].
      destruct Eh' as [->|?]; [by left|right; by eapply in_conversation_mono].
    + right. split; [done|]. split; [by eapply in_conversation_mono|]. destruct Eh as [->|?]; [by eapply in_conversation_mono|done].
  - right. split; [|done]. destruct (runs a !! q) as [r|] eqn:E; [|done]. destruct (K1 q) as [x Hx]; [by eexists|congruence].
Qed.

Lemma refs_moved db db' : refs_ok db → moved db db' → tool_rounds db' = tool_rounds db → tool_round_calls db' = tool_round_calls db →
  refs_ok db'.
Proof.
  intros F (Hs & Hk & Hr) Et Ec.
  assert (∀ q r, runs db !! q = Some r → ∃ r', runs db' !! q = Some r' ∧ run_conversation r' = run_conversation r) as Hrun.
  { intros q r Hq. destruct (Hk q) as [r' Hr']; [by eexists|]. exists r'. split; [done|].
    destruct (Hr q r' Hr') as [(r0 & ? & ? & _)|(? & _)]; congruence. }
  split.
  - intros q r' Hq. destruct (Hr q r' Hq) as [(r & Hr0 & Ecv & Eb & Eh)|(_ & ? & ?)]; [|done].
    destruct (rf_run _ F _ _ Hr0) as [Hb Hh]. rewrite Ecv, Eb. split; [by eapply in_conversation_mono|].
    destruct Eh as [->|?]; [by eapply in_conversation_mono|done].
  - intros id tr. rewrite Et. intros Ht. destruct (rf_round _ F _ _ Ht) as (r & Hr0 & Hb). destruct (Hrun _ _ Hr0) as (r' & Hr' & Ecv).
    exists r'. split; [done|]. rewrite Ecv. by eapply in_conversation_mono.
  - intros id calls call done. rewrite Et, Ec. intros Hcl Hin Hd. destruct (rf_call _ F _ _ _ _ Hcl Hin Hd) as (tr & r & Ht & Hr0 & Hcp).
    destruct (Hrun _ _ Hr0) as (r' & Hr' & Ecv). exists tr, r'. split; [done|]. split; [done|]. rewrite Ecv. by eapply in_conversation_mono.
Qed.

Section References.
Context `{B : Backend} {L : BackendLaws}.

Definition same_rounds (db db' : Db) : Prop := tool_rounds db' = tool_rounds db ∧ tool_round_calls db' = tool_round_calls db.
Lemma refs_step db db' : refs_ok db → moved db db' → same_rounds db db' → refs_ok db'.
Proof. intros F M [E1 E2]. by eapply refs_moved. Qed.

Lemma insert_row_moved db row db' id : tree_ok db → insert_checkpoint_row db row = Ok (db', id) → moved db db' ∧ same_rounds db db' ∧ runs db' = runs db.
Proof.
  intros T. unfold insert_checkpoint_row. destruct (select_checkpoints _ _); [|done]. intros H. apply ok_inj in H. injection H as <- <-.
  split; [|done]. apply moved_same; [|done]. cbn. apply insert_subseteq. destruct (checkpoints db !! (last_id db + 1)) as [r|] eqn:E; [|done].
  apply (t_bound _ T) in E. lia.
Qed.
Lemma ensure_moved db now c db' id : db_ok db → ensure_conversation_tx db now c = Ok (db', id) → moved db db' ∧ same_rounds db db'.
Proof.
  intros D. unfold ensure_conversation_tx. set (db1 := match conversations db !! c with Some _ => db | None => _ end).
  assert (moved db db1 ∧ same_rounds db db1 ∧ tree_ok db1) as (M & R & T).
  { subst db1. destruct (conversations db !! c); [split; [by apply moved_same|split; [done|apply D]]|].
    split; [by apply moved_same|]. split; [done|]. by apply (tree_ok_same db); [..|apply D]. }
  clearbody db1. destruct (conversations db1 !! c) as [[[cur|] act upd]|]; [by intros [= <- <-]| |done].
  intros ([db2 root] & Hi & H)%bind_ok. apply ok_inj in H. injection H as <- <-.
  destruct (insert_row_moved _ _ _ _ T Hi) as (M2 & R2 & E2). destruct R as [R1 R1']. destruct R2 as [R2 R2'].
  split; [|split; cbn; congruence]. eapply moved_trans; [exact M|]. eapply moved_trans; [exact M2|]. by apply moved_same.
Qed.
Lemma move_head_moved db now c run expected next verb db' : owner_ok db → in_conversation db next c →
  move_head db now c run expected next verb = Ok db' → moved db db' ∧ same_rounds db db'.
Proof.
  intros O Hn. unfold move_head. destruct (conversations db !! c) as [row|] eqn:Ec; [|done]. case_decide as E; [|done].
  destruct E as [E1 E2]. destruct (o_active _ O _ _ _ Ec E2) as (r & Hr & _ & Hc & _). intros H. apply ok_inj in H. subst db'.
  split; [|done]. split; [done|]. cbn. split.
  - intros q [x Hx]. destruct (decide (q = run)) as [->|]; [rewrite lookup_alter_eq, Hx; by eexists|rewrite lookup_alter_ne by done; by eexists].
  - intros q r'. destruct (decide (q = run)) as [->|]; [|rewrite lookup_alter_ne by done; intros Hq; left; exists r'; naive_solver].
    rewrite lookup_alter_eq, Hr. intros [= <-]. left. exists r. cbn. split_and!; [done..|]. right. by rewrite Hc.
Qed.
Lemma insert_moved db c p prow ms digest db' id : tree_ok db → insert_checkpoint_tx db c p ms digest = Ok (db', id) →
  checkpoints db !! p = Some prow → ck_conversation prow = c → chained_digest (ck_digest prow) ms = Ok digest →
  moved db db' ∧ same_rounds db db'.
Proof.
  intros T Hi Hp Hc Hd. destruct (insert_checkpoint_ok _ _ _ _ _ _ _ _ T Hi Hp Hc Hd) as (_ & X & (A1 & A2 & A3 & A4 & A5) & _).
  split; [|done]. apply moved_same; [apply X|done].
Qed.
Lemma insert_and_move_moved db now c run expected parent prow ms digest verb db1 id db' : db_ok db →
  insert_checkpoint_tx db c parent ms digest = Ok (db1, id) → checkpoints db !! parent = Some prow → ck_conversation prow = c →
  chained_digest (ck_digest prow) ms = Ok digest → move_head db1 now c run expected id verb = Ok db' → moved db db' ∧ same_rounds db db'.
Proof.
  intros D Hi Hp Hc Hd Hm. destruct (insert_moved _ _ _ _ _ _ _ _ (ok_tree _ D) Hi Hp Hc Hd) as [M1 [R1 R1']].
  destruct (insert_checkpoint_db _ _ _ _ _ _ _ _ D Hi Hp Hc Hd) as (D1 & _ & _ & Ec & _).
  destruct (move_head_moved db1 now c run expected id verb db' (ok_owner _ D1)) as [M2 [R2 R2']];
    [unfold in_conversation; by rewrite Ec, lookup_insert_eq|done|].
  split; [by eapply moved_trans|]. split; congruence.
Qed.

Lemma append_tx_moved db now c run expected ms db' id : db_ok db → append_checkpoint_tx db now c run expected ms = Ok (db', id) →
  moved db db' ∧ same_rounds db db' ∧ in_conversation db' id c ∧ ∃ r, runs db !! run = Some r ∧ run_conversation r = c.
Proof.
  intros D H. destruct (append_checkpoint_tx_ok _ _ _ _ _ _ _ _ D H) as (_ & _ & (dg & Ec & _)). revert H. unfold append_checkpoint_tx.
  intros (pd & Hpd & (digest & Hd & H)%bind_ok)%bind_ok. unfold append_checkpoint_with_digest_tx in H. apply bind_ok in H as (u & Hr & H).
  destruct (active_head_row _ _ _ _ _ D Hr) as (prow & Hp & Hc). apply checkpoint_digest_ok in Hpd as (prow' & Hp' & <-).
  assert (prow' = prow) as -> by congruence. destruct (select_checkpoints _ db); [|done].
  apply bind_ok in H as ([db1 ck] & Hi & (db2 & Hm & E)%bind_ok). apply ok_inj in E. injection E as <- <-.
  destruct (insert_and_move_moved _ _ _ _ _ _ _ _ _ _ _ _ _ D Hi Hp Hc Hd Hm) as [M R]. split; [done|]. split; [done|].
  split; [unfold in_conversation; by rewrite Ec, lookup_insert_eq|].
  apply require_active_head_ok in Hr as (row & Hrow & _ & Ha). destruct (o_active _ (ok_owner _ D) _ _ _ Hrow Ha) as (r & ? & _ & ? & _).
  by exists r.
Qed.
Lemma replace_moved db now c run expected ms db' id : db_ok db → replace_checkpoint db now c run expected ms = Ok (db', id) →
  moved db db' ∧ same_rounds db db'.
Proof.
  intros D. unfold replace_checkpoint.
  intros (u & Hr & (root & Hroot & (pd & Hpd & (digest & Hd & ([db1 ck] & Hi & (db2 & Hm & E)%bind_ok)%bind_ok)%bind_ok)%bind_ok)%bind_ok)%bind_ok.
  apply ok_inj in E. injection E as <- <-. apply conversation_root_ok in Hroot as (rrow & H1 & H2 & _).
  apply checkpoint_digest_ok in Hpd as (rrow' & Hp' & <-). assert (rrow' = rrow) as -> by congruence. by eapply insert_and_move_moved.
Qed.
Lemma import_moved db now c ms db' id : db_ok db → import_checkpoint db now c ms = Ok (db', id) → moved db db' ∧ same_rounds db db'.
Proof.
  intros D. unfold import_checkpoint. intros ([db1 cur] & He & (cm & Hl & ([parent adds] & Hpa & H)%bind_ok)%bind_ok)%bind_ok.
  destruct (ensure_conversation_ok _ _ _ _ _ D He) as (D1 & _ & _ & _ & Hcur & _). destruct (ensure_moved _ _ _ _ _ D He) as [M1 [R1 R1']].
  assert (∃ prow, checkpoints db1 !! parent = Some prow ∧ ck_conversation prow = c) as (prow & Hp & Hc).
  { destruct (extends_prefix cm ms).
    - apply ok_inj in Hpa. injection Hpa as <- <-. destruct (checkpoints db1 !! cur) as [r|]; [|done]. injection Hcur as Hcur. by exists r.
    - apply bind_ok in Hpa as (root & (r & ? & ? & _)%conversation_root_ok & E). apply ok_inj in E. injection E as <- <-. by exists r. }
  case_decide; [apply ok_inj in H; injection H as <- <-; split; [done|by split]|].
  apply bind_ok in H as (pd & Hpd & (digest & Hd & H)%bind_ok). apply checkpoint_digest_ok in Hpd as (prow' & Hp' & <-).
  assert (prow' = prow) as -> by congruence. destruct (select_checkpoints _ db1); [|apply ok_inj in H; injection H as <- <-; split; [done|by split]].
  destruct (insert_moved _ _ _ _ _ _ _ _ (ok_tree _ D1) H Hp Hc Hd) as [M2 [R2 R2']].
  split; [by eapply moved_trans|]. split; congruence.
Qed.
Lemma append_once_moved snapshot db now c run expected ms db' out : db_ok snapshot → db_ok db → extends snapshot db →
  is_Some (checkpoints snapshot !! expected) → append_messages_once snapshot db now c run expected ms = Ok (db', out) →
  moved db db' ∧ same_rounds db db'.
Proof.
  intros Ds D X [row Es] H. assert (checkpoints db !! expected = Some row) as Er by (eapply lookup_weaken; [done|apply X]).
  destruct (history_total db expected row (ok_tree _ D) Er) as [h Hl]. destruct ms as [|m ms]; [apply ok_inj in H; injection H as <- _; split; [by apply moved_same|done]|].
  revert H. unfold append_messages_once. intros (u & Ha & (pd & Hpd & (s & Hs & H)%bind_ok)%bind_ok)%bind_ok.
  destruct (active_head_row _ _ _ _ _ D Ha) as (row' & Hr' & Hc). assert (row' = row) as -> by congruence.
  apply checkpoint_digest_ok in Hpd as (row' & Hr'' & <-). assert (row' = row) as -> by congruence.
  destruct (append_loop_ok (m :: ms) db c expected (m :: ms) ltac:(done) h (MkAppend db (chain_identities snapshot c expected)
    expected (ck_digest row) []) s (append_start _ _ _ _ _ _ _ Ds D X Es Hc Hl) Hs) as (I & L1 & _).
  destruct (ai_same _ _ _ _ _ _ I) as (A1 & A2 & A3 & A4 & A5).
  assert (moved db (al_db s)) as M1 by (apply moved_same; [apply L1|done]).
  case_decide; [apply ok_inj in H; injection H as <- _; by split|].
  apply bind_ok in H as (db2 & Hm & E). apply ok_inj in E. injection E as <- _. destruct (ai_head _ _ _ _ _ _ I) as (hr & Hhr & Hhc & _).
  destruct (move_head_moved (al_db s) now c run expected (al_head s) "appending" db2 (ok_owner _ (ai_ok _ _ _ _ _ _ I))) as [M2 [R2 R2']];
    [unfold in_conversation; by rewrite Hhr, <- Hhc|done|].
  split; [by eapply moved_trans|]. split; congruence.
Qed.

(** A claim cancels the run it replaces and adds one at a checkpoint of its conversation. *)
Lemma claim_moved db now p db' claimed : db_ok db → claim_run db now p = Ok (db', claimed) → moved db db' ∧ same_rounds db db'.
Proof.
  intros D. unfold claim_run. intros ([db1 cur] & He & H)%bind_ok. destruct (ensure_moved _ _ _ _ _ D He) as [M1 [R1 R1']].
  case_decide as Hbase; [|done]. set (db2 := cancel_replaced db1 now (run_id p) _) in H.
  assert (moved db1 db2 ∧ same_rounds db1 db2 ∧ checkpoints db2 = checkpoints db1) as (M2 & [R2 R2'] & E2).
  { subst db2. unfold cancel_replaced. destruct (conversations db1 !! conversation_id p ≫= active_run) as [old|]; [|by split; [apply moved_same|]].
    case_decide; [by split; [apply moved_same|]|]. split; [|done]. apply moved_pointwise; [done|]. intros q. cbn.
    destruct (decide (q = old)) as [->|]; [rewrite lookup_alter_eq|rewrite lookup_alter_ne by done].
    - destruct (runs db1 !! old) as [r|]; cbn; [|done]. by case_decide.
    - by destruct (runs db1 !! q). }
  destruct (run_kind_columns (run_kind p)) as [[[parent call] kind] sub]. destruct (runs db2 !! run_id p) eqn:En; [done|].
  apply ok_inj in H. injection H as <- _. split; [|split; cbn; congruence].
  eapply moved_trans; [exact M1|]. eapply moved_trans; [exact M2|]. split; [done|]. split.
  - intros q Hq. cbn. destruct (decide (q = run_id p)) as [->|]; [rewrite lookup_insert_eq; by eexists|by rewrite lookup_insert_ne].
  - intros q r'. cbn. destruct (decide (q = run_id p)) as [->|].
    + rewrite lookup_insert_eq. intros [= <-]. right. cbn. unfold in_conversation. cbn. by rewrite E2.
    + rewrite lookup_insert_ne by done. intros Hq. left. exists r'. naive_solver.
Qed.
Lemma begin_moved db now run db' n : begin_provider_call db now run = Ok (db', n) → moved db db' ∧ same_rounds db db'.
Proof.
  unfold begin_provider_call. destruct (runs db !! run) as [r|] eqn:Hr; [|done]. case_decide; [|done]. intros E. apply ok_inj in E. injection E as <- _.
  split; [|done]. apply moved_pointwise; [done|]. intros q. cbn. destruct (decide (q = run)) as [->|].
  - by rewrite lookup_insert_eq, Hr.
  - rewrite lookup_insert_ne by done. by destruct (runs db !! q).
Qed.
Lemma finish_moved db now run s usage failed db' released : finish_run db now run s usage failed = Ok (db', released) →
  moved db db' ∧ same_rounds db db'.
Proof.
  unfold finish_run. destruct (runs db !! run) as [r|] eqn:Hr; [|done]. intros (calls & _ & H)%bind_ok.
  set (updated := if bool_decide _ then _ else _) in H.
  assert (checkpoints db' = checkpoints db ∧ runs db' = updated ∧ same_rounds db db') as (E1 & E2 & R).
  { destruct (conversations _ !! _); [case_decide|]; apply ok_inj in H; injection H as <- _; done. }
  split; [|done]. apply moved_pointwise; [by rewrite E1|]. intros q. rewrite E2. subst updated. case_bool_decide.
  - destruct (decide (q = run)) as [->|]; [by rewrite lookup_insert_eq, Hr|rewrite lookup_insert_ne by done; by destruct (runs db !! q)].
  - by destruct (runs db !! q).
Qed.
Lemma reconcile_moved db now started : moved db (reconcile_interrupted_runs db now started).1 ∧
  same_rounds db (reconcile_interrupted_runs db now started).1.
Proof.
  split; [|done]. apply moved_pointwise; [done|]. intros q. cbn. rewrite lookup_fmap. destruct (runs db !! q) as [r|]; [|done]. cbn.
  by destruct (left_running started r).
Qed.

Lemma create_round_refs db now round run base assistant calls created db' : db_ok db → refs_ok db →
  create_tool_round db now round run base assistant calls created = Ok db' → refs_ok db'.
Proof.
  intros D F H. destruct (create_tool_round_ok _ _ _ _ _ _ _ _ _ D H) as (_ & _ & _ & _ & Ht & Hc & (r & row & Hr & _ & Hb & _) & Er & _ & Ek).
  revert H. unfold create_tool_round. destruct calls as [|c0 cs] eqn:Ecs; [done|]. rewrite <- Ecs in *.
  rewrite Er in Hr. rewrite Hr. destruct (conversations db !! run_conversation r); [|done]. destruct (bool_decide _); [|done].
  destruct (match created with Some t => _ | None => _ end); [done|]. destruct (tool_rounds db !! round) eqn:Eround; [done|]. case_decide; [|done].
  intros E. apply ok_inj in E. subst db'. cbn in *. destruct F as [F1 F2 F3]. unfold in_conversation in *. split; cbn; [done|..].
  - intros id tr [[<- <-]|[_ Hid]]%lookup_insert_Some; [|exact (F2 _ _ Hid)]. cbn. exists r. split; [done|]. subst base. by apply (F1 run).
  - intros id calls' call done [[<- <-]|[Hne Hid]]%lookup_insert_Some Hin Hd.
    + apply list_elem_of_fmap in Hin as (x & -> & _). done.
    + destruct (F3 _ _ _ _ Hid Hin Hd) as (tr & r' & Htr & ?). exists tr, r'. by rewrite lookup_insert_ne.
Qed.
Lemma commit_refs db now c run round result db' commit : db_ok db → refs_ok db →
  commit_tool_result db now c run round result = Ok (db', commit) → refs_ok db'.
Proof.
  intros D F. unfold commit_tool_result. destruct (tool_rounds db !! round) as [r|] eqn:Er; [|done].
  destruct (negb _) eqn:Erun; [done|]. apply negb_false_iff, bool_decide_eq_true in Erun. destruct (bool_decide (tr_status r = _)); [done|].
  destruct (list_find _ _) as [[i call]|]; [|done]. destruct (negb (is_pending call)); [done|].
  destruct (runs db !! run) as [run_row|] eqn:Err; [|done]. intros ([db1 ck] & Ha & H)%bind_ok. apply ok_inj in H. injection H as <- _.
  destruct (append_tx_moved _ _ _ _ _ _ _ _ D Ha) as (M & [R1 R2] & Hck & (r0 & Hr0 & Ec0)).
  pose proof (refs_step _ _ F M (conj R1 R2)) as F1. destruct F1 as [G1 G2 G3].
  destruct M as (_ & Mk & Mr). destruct (Mk run) as [r1 Hr1]; [by eexists|].
  assert (run_conversation r1 = c) as Ec1 by (destruct (Mr run r1 Hr1) as [(x & Hx & E & _)|(Hx & _)]; congruence).
  split; cbn; [exact G1|..].
  - intros id tr [[<- <-]|[Hne Hid]]%lookup_insert_Some; [|exact (G2 _ _ Hid)]. cbn. rewrite <- R1 in Er. exact (G2 _ _ Er).
  - intros id calls' x d [[<- <-]|[Hne Hid]]%lookup_insert_Some Hin Hd.
    + eexists _, r1. rewrite lookup_insert_eq. split; [done|]. cbn. rewrite Erun. split; [done|].
      apply list_elem_of_fmap in Hin as (y & -> & Hy). unfold complete_call in Hd. case_decide.
      * cbn in Hd. injection Hd as <-. cbn. by rewrite Ec1.
      * destruct (tool_round_calls db !! round) as [calls|] eqn:Ecl; [|by apply not_elem_of_nil in Hy]. cbn in Hy.
        destruct (G3 round calls y d) as (tr & r2 & Htr & Hr2 & Hcc); [by rewrite R2|done|done|].
        rewrite R1, Er in Htr. injection Htr as <-. rewrite Erun in Hr2. by simplify_eq.
    + destruct (G3 _ _ _ _ Hid Hin Hd) as (tr & r' & Htr & ?). exists tr, r'. by rewrite lookup_insert_ne.
Qed.

Lemma step_refs db db' : db_ok db → refs_ok db → store_step db db' → refs_ok db'.
Proof.
  intros D F Hs. assert (∀ x, moved db x ∧ same_rounds db x → refs_ok x) as K by (intros x [M R]; by apply (refs_step db)).
  destruct Hs as [db now c db' id H|db now c ms db' id H|db now c run expected ms db' id H|db now c run expected ms db' id H|db now p db' cl H
    |db now run db' n H|db now run st us fl db' rl H|db now started|db now round run base a calls cr db' H|db now c run round result db' cm H
    |snapshot db now c run expected ms db' out Hsn Hex Hr H].
  - apply K. by eapply ensure_moved.
  - apply K. by eapply import_moved.
  - apply K. destruct ms as [|m ms]; [apply ok_inj in H; injection H as <- _; split; [by apply moved_same|done]|].
    destruct (append_tx_moved _ _ _ _ _ _ _ _ D H) as (M & R & _). by split.
  - apply K. by eapply replace_moved.
  - apply K. by eapply claim_moved.
  - apply K. by eapply begin_moved.
  - apply K. by eapply finish_moved.
  - apply K. apply reconcile_moved.
  - by eapply create_round_refs.
  - by eapply commit_refs.
  - apply K. destruct (rtc_ok _ _ Hr empty_db_ok) as [Ds _]. destruct (rtc_ok _ _ Hsn Ds) as [_ [X _]]. by eapply append_once_moved.
Qed.
Lemma empty_refs : refs_ok empty_db.
Proof. split; intros *; cbn; by rewrite lookup_empty. Qed.

(** In every database the program can have, the rows of a run name checkpoints of its own conversation only. *)
Lemma references_local db : reachable db → refs_ok db.
Proof.
  intros Hr. unfold reachable in Hr. assert (db_ok db ∧ refs_ok db) as [_ F]; [|exact F]. revert Hr.
  apply (rtc_ind_r (λ d, db_ok d ∧ refs_ok d)); [split; [apply empty_db_ok|apply empty_refs]|].
  intros y z _ Hs [D F]. split; [|by eapply step_refs]. by apply (rtc_ok y z); [apply rtc_once|].
Qed.
End References.
