(* ===== verification/Retention.v ===== *)
(** * Retention: what the maintenance of the store removes

    server/src/store/retention.rs.  A pass recycles conversations that have not been used for a day, drops the payload of old traces
    and calls, and collects blobs that nothing keeps.  The client holds the durable copy of a conversation, so what a pass must not do
    is remove something in use: [recycling_isolated] for the rows of the conversations and [collection_safe] for the blobs.

    The rows of a table have no order of their own: [Scan] is the order in which SQLite returns them, which decides between rows that an
    ORDER BY does not tell apart. *)

From stdpp Require Import prelude gmap sets strings list sorting.
From S2P Require Import Prelude Errors External Json Message CheckpointMessages Cas Spill Store StoreInvariants StoreMachine StoreReferences.
Local Open Scope Z_scope.

(** server/src/store/retention.rs:7-7, [RETENTION_MS]. *)
Definition RETENTION_MS : Z := 3 * 24 * 60 * 60 * 1000.
(** server/src/store/retention.rs:30-30, [CONVERSATION_RETENTION_MS]. *)
Definition CONVERSATION_RETENTION_MS : Z := 24 * 60 * 60 * 1000.
(** server/src/store/retention.rs:43-43, [MAX_PRUNED_CONVERSATIONS_PER_PASS]. *)
Definition MAX_PRUNED_CONVERSATIONS_PER_PASS : nat := 16.
(** server/src/store/retention.rs:54-54, [UNROOTED_BLOB_MS]. *)
Definition UNROOTED_BLOB_MS : Z := 60 * 60 * 1000.
(** server/src/store/retention.rs:55-55, [MAX_PRUNED_BLOBS_PER_PASS]. *)
Definition MAX_PRUNED_BLOBS_PER_PASS : nat := 512.
(** server/src/store/retention.rs:63-63, [RETAINED_TRACE_ROWS]. *)
Definition RETAINED_TRACE_ROWS : nat := Z.to_nat 1000.
(** server/src/store/retention.rs:71-71, [MAX_PRUNED_TRACES_PER_PASS]. *)
Definition MAX_PRUNED_TRACES_PER_PASS : nat := Z.to_nat 8192.

(** ** The tables of a pass *)

(** [cursor_run_traces], by request id. *)
Record TraceRow : Type := MkTrace { trace_running : bool; trace_received : Z }.
(** [compaction_events]. *)
Record CompactionRow : Type := MkCompactionRow { cp_conversation : list Z; cp_archive : option (list Z) }.
(** The database with the tables that are only read or written here: the roots of the conversations, the traces and their
    artifacts, the payloads of the calls, the compactions and the anchors. *)
Record Storage : Type := MkStorage {
  st_db : Db;
  st_cas : Cas;
  blob_roots : gset (list Z * list Z);
  traces : gmap (list Z) TraceRow;
  trace_artifacts : gmap (list Z * Z) (list Z);
  call_requests : gset (list Z);
  call_chunks : gset (list Z * Z);
  compactions : list CompactionRow;
  input_anchors : gmap (list Z * list Z) Z
}.
(** The order of the rows of the tables that a LIMIT is put on. *)
Record Scan : Type := MkScan {
  scan_conversations : list (list Z);
  scan_traces : list (list Z);
  scan_calls : list (list Z);
  scan_blobs : list (list Z)
}.

(** Rows in the order of a column, and the newest ones. *)
Definition oldest_first {A} (key : A → Z) (l : list A) : list A := sort_by (λ a b, key a <=? key b) l.
Definition newest {A} (n : nat) (key : A → Z) (l : list A) : list A := take n (sort_by (λ a b, key b <=? key a) l).

Section Retention.
Context {D64 : Base64Decode} {FK : ForeignKeys}.

(** server/src/store/retention.rs:74-91, [retain_conversation_blobs]. *)
Definition retain_conversation_blobs (conversation : list Z) (roots : list (list Z)) (s : Storage) : Storage :=
  MkStorage (st_db s) (st_cas s) (list_to_set (pair conversation <$> roots) ∪ filter (λ r, r.1 ≠ conversation) (blob_roots s))
    (traces s) (trace_artifacts s) (call_requests s) (call_chunks s) (compactions s) (input_anchors s).

(** server/src/store/retention.rs:127-135, [prune_inactive_storage]: a run that was active within the window. *)
Definition recently_running (since : Z) (db : Db) : bool :=
  existsb (λ r, bool_decide (status r = Running) && (since <=? run_updated r)) ((map_to_list (runs db)).*2).

(** server/src/store/retention.rs:138-142, [prune_inactive_storage]: the conversations to recycle. *)
Definition conversation_age (db : Db) (c : list Z) : Z := default 0 (conversation_updated <$> conversations db !! c).
(** server/src/store/retention.rs:138-138, [prune_inactive_storage]: a conversation to recycle. *)
Definition is_expired (since : Z) (db : Db) (c : list Z) : bool :=
  match conversations db !! c with
  | Some row => (conversation_updated row <? since) && bool_decide (active_run row = None)
  | None => false
  end.
(** server/src/store/retention.rs:138-142, [prune_inactive_storage]: the oldest of them. *)
Definition expired_conversations (scan : Scan) (since : Z) (db : Db) : list (list Z) :=
  take MAX_PRUNED_CONVERSATIONS_PER_PASS (oldest_first (conversation_age db) (List.filter (is_expired since db) (scan_conversations scan))).

(** server/src/store/input_anchors.rs:10-41, [anchor_input]: the first base that was given for an input is its base. *)
Definition anchor_input (c input : list Z) (base : Z) (s : Storage) : res (Storage * Z) :=
  match input_anchors s !! (c, input) with
  | Some anchored => Ok (s, anchored)
  | None =>
      if bool_decide (is_Some (conversations (st_db s) !! c) ∧ is_Some (checkpoints (st_db s) !! base)) then
        Ok (MkStorage (st_db s) (st_cas s) (blob_roots s) (traces s) (trace_artifacts s) (call_requests s) (call_chunks s)
              (compactions s) (<[(c, input) := base]> (input_anchors s)), base)
      else Err (Database foreign_key_failed)
  end.

(** The rows that name a checkpoint: SQLite refuses to delete one that is still named. *)
Definition names_checkpoint (gone : Z → bool) (db : Db) (anchors : gmap (list Z * list Z) Z) : bool :=
  existsb gone ((map_to_list anchors).*2)
  || existsb (λ r, gone (base_checkpoint r) || gone (head_checkpoint r)) ((map_to_list (runs db)).*2)
  || existsb (λ r, gone (tr_base_checkpoint r)) ((map_to_list (tool_rounds db)).*2)
  || existsb (λ d, gone (cc_checkpoint d)) (omap tc_completed (concat ((map_to_list (tool_round_calls db)).*2)))
  || existsb (λ r, match ck_parent r with Some p => gone p | None => false end) ((map_to_list (checkpoints db)).*2).
(** server/src/store/retention.rs:152-152, [prune_inactive_storage]: the runs that go. *)
Definition doomed_run (expired : list (list Z)) (db : Db) (run : list Z) : bool :=
  match runs db !! run with Some r => bool_decide (run_conversation r ∈ expired) | None => false end.
(** server/src/store/retention.rs:150-151, [prune_inactive_storage]: the rounds that go, with their calls. *)
Definition doomed_round (expired : list (list Z)) (db : Db) (round : list Z) : bool :=
  match tool_rounds db !! round with Some r => doomed_run expired db (tr_run r) | None => false end.
(** The rows that name a run or a round. *)
Definition names_run (gone_run gone_round : list Z → bool) (db : Db) : bool :=
  existsb (λ r, gone_run (tr_run r)) ((map_to_list (tool_rounds db)).*2)
  || existsb gone_round ((map_to_list (tool_round_calls db)).*1).
(** server/src/store/retention.rs:148-158, [prune_inactive_storage]: the rows that stay. *)
Definition without (expired : list (list Z)) (db : Db) : Db :=
  MkDb (filter (λ p, p.1 ∉ expired) (conversations db)) (filter (λ p, p.1.1 ∉ expired) (messages db))
    (filter (λ p, p.1 ∉ expired) (image_blobs db)) (filter (λ p, ck_conversation p.2 ∉ expired) (checkpoints db)) (last_id db)
    (filter (λ p, run_conversation p.2 ∉ expired) (runs db)) (llm_calls db)
    (filter (λ p, doomed_round expired db p.1 = false) (tool_rounds db))
    (filter (λ p, doomed_round expired db p.1 = false) (tool_round_calls db)).
Definition deleted_checkpoint (expired : list (list Z)) (db : Db) (id : Z) : bool :=
  match checkpoints db !! id with Some row => bool_decide (ck_conversation row ∈ expired) | None => false end.
(** server/src/store/retention.rs:147-162, [prune_inactive_storage]: the rows of the conversations to recycle, children first. *)
Definition recycle (expired : list (list Z)) (db : Db) (anchors : gmap (list Z * list Z) Z) : res Db :=
  let db' := without expired db in
  if names_checkpoint (deleted_checkpoint expired db) db' anchors || names_run (doomed_run expired db) (doomed_round expired db) db'
  then Err (Database foreign_key_failed) else Ok db'.

(** server/src/store/retention.rs:180-186, [prune_inactive_storage]: is a call, or a trace, over and older than the window. *)
Definition call_over (cutoff : Z) (db : Db) (call : list Z) : bool :=
  match llm_calls db !! call with
  | Some row => (llm_created row <? cutoff) && negb (bool_decide (llm_status row = CallRunning))
  | None => false
  end.
(** server/src/store/retention.rs:183-183, [prune_inactive_storage]: a trace whose artifacts go. *)
Definition trace_over (cutoff : Z) (s : gmap (list Z) TraceRow) (request : list Z) : bool :=
  match s !! request with Some row => (trace_received row <? cutoff) && negb (trace_running row) | None => false end.

(** server/src/store/retention.rs:324-355, [prune_expired_trace_summaries]: the traces that go; an artifact that is left keeps its
    trace, and so do the newest traces and calls. *)
Definition expired_traces (scan : Scan) (cutoff : Z) (db : Db) (ts : gmap (list Z) TraceRow) (artifacts : gmap (list Z * Z) (list Z)) : list (list Z) :=
  let received t := default 0 (trace_received <$> ts !! t) in
  let recent := newest RETAINED_TRACE_ROWS received (scan_traces scan) in
  let called := omap (λ c, llm_run <$> llm_calls db !! c)
    (newest RETAINED_TRACE_ROWS (λ c, default 0 (llm_created <$> llm_calls db !! c)) (scan_calls scan)) in
  take MAX_PRUNED_TRACES_PER_PASS (oldest_first received
    (List.filter (λ t, trace_over cutoff ts t && negb (existsb (λ a, bool_decide (a.1.1 = t)) (map_to_list artifacts))
                       && negb (bool_decide (t ∈ recent)) && negb (bool_decide (t ∈ called))) (scan_traces scan))).

(** server/src/store/retention.rs:296-315, [has_expired_blob_candidates]. *)
Definition has_expired_blob_candidates (unrooted : Z) (db : Cas) (roots : gset (list Z * list Z)) (artifacts : gmap (list Z * Z) (list Z)) : bool :=
  existsb (λ b, (blob_last_used b.2 <? unrooted)
                && negb (existsb (λ r : list Z * list Z, bool_decide (r.2 = b.1)) (elements roots))
                && negb (existsb (λ a, bool_decide (a.2 = b.1)) (map_to_list artifacts))) (map_to_list (blobs db)).

(** [BlobId::from_base64], server/src/store/cas.rs:30-35. *)
(** server/src/store/cas.rs:30-35, [BlobId::from_base64]. *)
Definition from_base64 (value : str) : res (list Z) :=
  decoded ← map_err (λ e, Protocol (lit "invalid BlobID base64: " ++ fe_display e)) (decode64 value);
  from_bytes decoded.

(** WITH RECURSIVE with UNION: the rows that the edges lead to, until nothing is new. *)
Definition children_of (edges : list (list Z * BlobEdge)) (seen : gset (list Z)) : gset (list Z) :=
  list_to_set (child <$> (List.filter (λ e : list Z * BlobEdge, bool_decide (e.1 ∈ seen)) edges).*2).
(** server/src/store/retention.rs:219-220, [prune_inactive_storage]: the recursive query. *)
Fixpoint closure (fuel : nat) (edges : list (list Z * BlobEdge)) (seen : gset (list Z)) : gset (list Z) :=
  match fuel with
  | O => seen
  | S fuel => closure fuel edges (seen ∪ children_of edges seen)
  end.
(** server/src/store/retention.rs:203-220, [prune_inactive_storage]: the blobs that are kept.  There are at most as many turns that
    find something new as there are edges. *)
Definition retained_blobs (unrooted : Z) (images : list (list Z)) (db : Cas) (roots : gset (list Z * list Z))
    (artifacts : gmap (list Z * Z) (list Z)) : gset (list Z) :=
  let used := (filter (λ b, unrooted <= blob_last_used b.2) (map_to_list (blobs db))).*1 in
  let start : gset (list Z) := list_to_set (used ++ (map_to_list artifacts).*2 ++ (elements roots).*2 ++ images) in
  closure (S (length (blob_edges db))) (blob_edges db) start.
(** server/src/store/retention.rs:229-239, [prune_inactive_storage]: the blobs that go, with their edges. *)
Definition collect (expired : list (list Z)) (db : Cas) : Cas :=
  MkCas (filter (λ p, p.1 ∉ expired) (blobs db))
    (filter (λ e, e.1 ∉ expired ∧ child e.2 ∉ expired) (blob_edges db)).
(** The rows that name a blob. *)
Definition names_blob (gone : list (list Z)) (db : Cas) (artifacts : gmap (list Z * Z) (list Z)) : bool :=
  existsb (λ e : list Z * BlobEdge, bool_decide (e.1 ∈ gone ∨ child e.2 ∈ gone)) (blob_edges db)
  || existsb (λ b, bool_decide (b ∈ gone)) ((map_to_list artifacts).*2).
(** server/src/store/retention.rs:190-246, [prune_inactive_storage]: the blobs. *)
Definition prune_blobs (scan : Scan) (unrooted : Z) (db : Db) (s : Cas) (roots : gset (list Z * list Z)) (artifacts : gmap (list Z * Z) (list Z)) : res Cas :=
  if has_expired_blob_candidates unrooted s roots artifacts then
    images ← mapM from_base64 (elements (image_blobs db)).*2;
    let retained := retained_blobs unrooted images s roots artifacts in
    let gone := take MAX_PRUNED_BLOBS_PER_PASS (List.filter (λ b, bool_decide (b ∉ retained)) (scan_blobs scan)) in
    let left := collect gone s in
    if names_blob gone left artifacts then Err (Database foreign_key_failed) else Ok left
  else Ok s.

(** server/src/store/retention.rs:121-291, [prune_inactive_storage]: the storage after the pass, and the archives whose files go
    once it is committed. *)
Definition prune_inactive_storage (scan : Scan) (now : Z) (s : Storage) : res (Storage * list (list Z)) :=
  let cutoff := now - RETENTION_MS in
  let since := now - CONVERSATION_RETENTION_MS in
  if recently_running since (st_db s) then Ok (s, [])
  else
    let expired := expired_conversations scan since (st_db s) in
    let roots := filter (λ r, r.1 ∉ expired) (blob_roots s) in
    let anchors := filter (λ a, a.1.1 ∉ expired) (input_anchors s) in
    db ← recycle expired (st_db s) anchors;
    let has_conversation c := bool_decide (is_Some (conversations db !! cp_conversation c)) in
    let orphaned := omap cp_archive (List.filter (λ c, negb (has_conversation c)) (compactions s)) in
    let events := List.filter has_conversation (compactions s) in
    let requests := filter (λ c, call_over cutoff db c = false) (call_requests s) in
    let chunks := filter (λ c, call_over cutoff db c.1 = false) (call_chunks s) in
    let artifacts := filter (λ a, trace_over cutoff (traces s) a.1.1 = false) (trace_artifacts s) in
    let gone := expired_traces scan cutoff db (traces s) artifacts in
    let ts := filter (λ t, t.1 ∉ gone) (traces s) in
    blobs ← prune_blobs scan (now - UNROOTED_BLOB_MS) db (st_cas s) roots artifacts;
    Ok (MkStorage db blobs roots ts artifacts requests chunks events anchors, orphaned).

(** server/src/store/retention.rs:98-115, [prune_artifact_files]: with the references of the tables. *)
Definition prune_artifact_files (spills archives : option (list DirEntry)) (removes : str → bool) (now : Z) (s : Storage) : list str * list str :=
  prune_artifacts_in spills archives removes now
    (list_to_set (tc_call_id <$> concat ((map_to_list (tool_round_calls (st_db s))).*2))) (dom (conversations (st_db s))).
End Retention.

(** ** The closure of the edges *)

Definition edge_of (edges : list (list Z * BlobEdge)) (parent c : list Z) : Prop := ∃ e, (parent, e) ∈ edges ∧ child e = c.

Lemma existsb_false {A} (f : A → bool) l : existsb f l = false ↔ ∀ x, x ∈ l → f x = false.
Proof.
  induction l as [|x l IH]; cbn; [split; [by intros _ x H%not_elem_of_nil|done]|]. rewrite orb_false_iff, IH. split.
  - intros [Hx Hl] y [->|Hy]%elem_of_cons; [done|by apply Hl].
  - intros H. split; [apply H; by left|]. intros y Hy. apply H. by right.
Qed.
Lemma list_set_size (l : list (list Z)) : (size (list_to_set l : gset (list Z)) ≤ length l)%nat.
Proof.
  induction l as [|x l IH]; [by rewrite list_to_set_nil, size_empty|]. rewrite list_to_set_cons, size_union_alt, size_singleton. cbn.
  pose proof (subseteq_size (list_to_set l ∖ {[x]}) (list_to_set l : gset (list Z)) ltac:(set_solver)). lia.
Qed.

Section Closure.
Context (edges : list (list Z * BlobEdge)).

Lemma children_elem seen c : c ∈ children_of edges seen ↔ ∃ p, p ∈ seen ∧ edge_of edges p c.
Proof.
  unfold children_of. rewrite elem_of_list_to_set, list_elem_of_fmap. split.
  - intros (e & -> & (q & -> & Hq)%list_elem_of_fmap). apply list_elem_of_In, filter_In in Hq as [Hq Hs]. apply bool_decide_eq_true in Hs.
    destruct q as [p e]. exists p. split; [done|]. exists e. split; [by apply list_elem_of_In|done].
  - intros (p & Hp & e & He & <-). exists e. split; [done|]. apply list_elem_of_fmap. exists (p, e). split; [done|].
    apply list_elem_of_In, filter_In. split; [by apply list_elem_of_In|by apply bool_decide_eq_true].
Qed.
Lemma closure_sub fuel seen : seen ⊆ closure fuel edges seen.
Proof. revert seen. induction fuel as [|n IH]; intros seen; [done|]. cbn. etrans; [|apply IH]. set_solver. Qed.
Lemma closure_sound fuel seen c : c ∈ closure fuel edges seen → ∃ p, p ∈ seen ∧ rtc (edge_of edges) p c.
Proof.
  revert seen. induction fuel as [|n IH]; intros seen; cbn; [intros H; exists c; split; [done|apply rtc_refl]|].
  intros (p & [Hp|(q & Hq & He)%children_elem]%elem_of_union & Hr)%IH; [by exists p|]. exists q. split; [done|]. by eapply rtc_l.
Qed.
(** When a turn finds nothing the set is closed. *)
Lemma closure_fixed fuel seen : children_of edges seen ⊆ seen → closure fuel edges seen = seen.
Proof. induction fuel as [|n IH]; intros H; [done|]. cbn. assert (seen ∪ children_of edges seen = seen) as -> by set_solver. by apply IH. Qed.
Definition all_children : gset (list Z) := list_to_set (child <$> edges.*2).
Lemma children_bound seen : children_of edges seen ⊆ all_children.
Proof.
  intros c (p & _ & e & He & <-)%children_elem. unfold all_children. rewrite elem_of_list_to_set. apply list_elem_of_fmap_2, list_elem_of_fmap.
  by exists (p, e).
Qed.
(** The children that are not seen yet: every turn that is not the last finds one. *)
Lemma closure_closed fuel seen : (size (all_children ∖ seen) < fuel)%nat → children_of edges (closure fuel edges seen) ⊆ closure fuel edges seen.
Proof.
  revert seen. induction fuel as [|n IH]; intros seen Hn; [lia|]. cbn. destruct (decide (children_of edges seen ⊆ seen)) as [Hc|Hc].
  - assert (seen ∪ children_of edges seen = seen) as -> by set_solver. by rewrite closure_fixed.
  - apply IH. assert (size (all_children ∖ (seen ∪ children_of edges seen)) < size (all_children ∖ seen))%nat; [|lia].
    apply subset_size. pose proof (children_bound seen). split; [set_solver|]. intros Hs. apply Hc. intros c Hin.
    destruct (decide (c ∈ seen)) as [|Hns]; [done|]. exfalso. assert (c ∈ all_children ∖ seen) as Hx by set_solver. apply Hs in Hx. set_solver.
Qed.
Lemma all_children_size seen : (size (all_children ∖ seen) ≤ length edges)%nat.
Proof.
  etrans; [apply (subseteq_size _ all_children); set_solver|]. unfold all_children. etrans; [apply list_set_size|]. by rewrite !length_fmap.
Qed.
(** With one turn more than there are edges the closure is what the edges lead to. *)
Lemma closure_spec seen c : c ∈ closure (S (length edges)) edges seen ↔ ∃ p, p ∈ seen ∧ rtc (edge_of edges) p c.
Proof.
  split; [apply closure_sound|]. intros (p & Hp & Hr). pose proof (all_children_size seen).
  pose proof (closure_closed (S (length edges)) seen ltac:(lia)) as Hc. revert Hp. assert (seen ⊆ closure (S (length edges)) edges seen) as Hs by apply closure_sub.
  intros Hp%Hs. clear Hs. induction Hr as [|x y z He _ IH]; [done|]. apply IH, Hc, children_elem. by exists x.
Qed.
End Closure.

(** ** The blobs *)

Section Blobs.
Context {D64 : Base64Decode} {FK : ForeignKeys}.

(** What keeps a blob by itself: a recent use, a root of a conversation, an artifact of a trace, an image of a message. *)
Definition pinned (unrooted : Z) (images : list (list Z)) (db : Cas) (roots : gset (list Z * list Z)) (artifacts : gmap (list Z * Z) (list Z))
    (b : list Z) : Prop :=
  (∃ row, blobs db !! b = Some row ∧ unrooted ≤ blob_last_used row) ∨ (∃ c, (c, b) ∈ roots) ∨ (∃ k, artifacts !! k = Some b) ∨ b ∈ images.

Lemma retained_spec unrooted images db roots artifacts b : b ∈ retained_blobs unrooted images db roots artifacts ↔
  ∃ p, pinned unrooted images db roots artifacts p ∧ rtc (edge_of (blob_edges db)) p b.
Proof.
  unfold retained_blobs. rewrite closure_spec. apply exist_proper. intros p. apply and_iff_compat_r.
  rewrite elem_of_list_to_set, !elem_of_app, !list_elem_of_fmap. unfold pinned. split.
  - intros [((k & row) & -> & [Hu Hin]%list_elem_of_filter)|[((k & x) & -> & Hin)|[((c & x) & -> & Hin)|Hin]]].
    + left. exists row. split; [by apply elem_of_map_to_list|done].
    + right. right. left. exists k. by apply elem_of_map_to_list.
    + right. left. exists c. by apply elem_of_elements.
    + by do 3 right.
  - intros [(row & Hr & Hu)|[(c & Hin)|[(k & Hk)|Hin]]].
    + left. exists (p, row). split; [done|]. apply list_elem_of_filter. split; [done|]. by apply elem_of_map_to_list.
    + right. right. left. exists (c, p). split; [done|]. by apply elem_of_elements.
    + right. left. exists (k, p). split; [done|]. by apply elem_of_map_to_list.
    + by do 3 right.
Qed.

(** Without a candidate every blob is pinned. *)
Lemma no_candidates unrooted images db roots artifacts b row : has_expired_blob_candidates unrooted db roots artifacts = false →
  blobs db !! b = Some row → pinned unrooted images db roots artifacts b.
Proof.
  intros Hc Hb. unfold has_expired_blob_candidates in Hc. rewrite existsb_false in Hc. specialize (Hc (b, row)).
  destruct (decide (unrooted ≤ blob_last_used row)) as [|Hn]; [left; by exists row|]. right.
  destruct (existsb (λ r : list Z * list Z, bool_decide (r.2 = b)) (elements roots)) eqn:E1.
  { apply existsb_exists in E1 as ((c & x) & Hin%list_elem_of_In & <-%bool_decide_eq_true). left. exists c. by apply elem_of_elements. }
  destruct (existsb (λ a, bool_decide (a.2 = b)) (map_to_list artifacts)) eqn:E2.
  { apply existsb_exists in E2 as ((k & x) & Hin%list_elem_of_In & <-%bool_decide_eq_true). right. left. exists k. by apply elem_of_map_to_list. }
  exfalso. cbn [fst snd] in Hc. rewrite E1, E2 in Hc. rewrite (proj2 (Z.ltb_lt _ _)) in Hc by lia.
  specialize (Hc ltac:(by apply elem_of_map_to_list)). done.
Qed.

Lemma collect_nil db : collect [] db = db.
Proof.
  unfold collect. destruct db as [bs es]. cbn. f_equal.
  - apply map_filter_id. intros k x _. apply not_elem_of_nil.
  - apply filter_every, Forall_forall. intros e _. split; apply not_elem_of_nil.
Qed.
(** The blobs that nothing keeps, as many as a pass takes. *)
Definition unretained (scan : Scan) (unrooted : Z) (images : list (list Z)) (s : Cas) (roots : gset (list Z * list Z))
    (artifacts : gmap (list Z * Z) (list Z)) : list (list Z) :=
  take MAX_PRUNED_BLOBS_PER_PASS (List.filter (λ b, bool_decide (b ∉ retained_blobs unrooted images s roots artifacts)) (scan_blobs scan)).
Lemma prune_blobs_cases scan unrooted db s roots artifacts s' : prune_blobs scan unrooted db s roots artifacts = Ok s' →
  has_expired_blob_candidates unrooted s roots artifacts = false ∧ s' = s ∨
  ∃ images, mapM from_base64 (elements (image_blobs db)).*2 = Ok images ∧
    s' = collect (unretained scan unrooted images s roots artifacts) s.
Proof.
  unfold prune_blobs. destruct (has_expired_blob_candidates _ _ _ _); [|intros E; apply ok_inj in E; by left].
  intros (images & Hi & H)%bind_ok. destruct (names_blob _ _ _); [done|]. apply ok_inj in H. right. by exists images.
Qed.
(** What goes is named by nothing that stays. *)
Lemma unretained_unnamed scan unrooted images s roots artifacts :
  names_blob (unretained scan unrooted images s roots artifacts) (collect (unretained scan unrooted images s roots artifacts) s) artifacts = false.
Proof.
  set (gone := unretained _ _ _ _ _ _). unfold names_blob. apply orb_false_iff. split; apply existsb_false.
  - intros e [[H1 H2] _]%list_elem_of_filter. apply bool_decide_eq_false. by intros [].
  - intros b (k & -> & Hk)%list_elem_of_fmap. destruct k as [k b]. cbn. apply elem_of_map_to_list in Hk. apply bool_decide_eq_false.
    intros (i & Hin & _)%elem_of_take. apply list_elem_of_lookup_2, list_elem_of_In, filter_In in Hin as [_ Hin].
    apply bool_decide_eq_true in Hin. apply Hin, retained_spec. exists b. split; [|apply rtc_refl]. right. right. left. by exists k.
Qed.
(** Looking for candidates first only saves time. *)
Lemma prune_blobs_exact scan unrooted db s roots artifacts s' images : scan_blobs scan ⊆ (map_to_list (blobs s)).*1 →
  mapM from_base64 (elements (image_blobs db)).*2 = Ok images → prune_blobs scan unrooted db s roots artifacts = Ok s' →
  s' = collect (unretained scan unrooted images s roots artifacts) s.
Proof.
  intros Hs Hi [[E ->]|(images' & Hi' & ->)]%prune_blobs_cases; [|rewrite Hi in Hi'; by injection Hi' as <-]. unfold unretained.
  assert (List.filter (λ b, bool_decide (b ∉ retained_blobs unrooted images s roots artifacts)) (scan_blobs scan) = []) as ->; [|by rewrite take_nil, collect_nil].
  destruct (List.filter _ _) as [|b l] eqn:El; [done|]. exfalso. assert (b ∈ b :: l) as Hb by left. rewrite <- El in Hb.
  apply list_elem_of_In, filter_In in Hb as [Hin%list_elem_of_In Hn%bool_decide_eq_true]. apply Hn, retained_spec. exists b. split; [|apply rtc_refl].
  apply Hs, list_elem_of_fmap in Hin as ((k & row) & -> & Hin%elem_of_map_to_list). by eapply no_candidates.
Qed.

(** A pass either leaves everything, or is its three parts. *)
Lemma pass_parts scan now s s' archives : prune_inactive_storage scan now s = Ok (s', archives) →
  recently_running (now - CONVERSATION_RETENTION_MS) (st_db s) = true ∧ s' = s ∧ archives = [] ∨
  recently_running (now - CONVERSATION_RETENTION_MS) (st_db s) = false ∧
  let expired := expired_conversations scan (now - CONVERSATION_RETENTION_MS) (st_db s) in
  let anchors := filter (λ a, a.1.1 ∉ expired) (input_anchors s) in
  recycle expired (st_db s) anchors = Ok (st_db s') ∧
  (input_anchors s' = anchors ∧
   compactions s' = List.filter (λ c, bool_decide (is_Some (conversations (st_db s') !! cp_conversation c))) (compactions s) ∧
   archives = omap cp_archive (List.filter (λ c, negb (bool_decide (is_Some (conversations (st_db s') !! cp_conversation c)))) (compactions s))) ∧
  blob_roots s' = filter (λ r, r.1 ∉ expired) (blob_roots s) ∧
  trace_artifacts s' = filter (λ a, trace_over (now - RETENTION_MS) (traces s) a.1.1 = false) (trace_artifacts s) ∧
  prune_blobs scan (now - UNROOTED_BLOB_MS) (st_db s') (st_cas s) (blob_roots s') (trace_artifacts s') = Ok (st_cas s').
Proof.
  unfold prune_inactive_storage. destruct (recently_running _ _) eqn:E; [by intros [= <- <-]; left|]. intros (db & Hd & H)%bind_ok.
  apply bind_ok in H as (bs & Hb & H). apply ok_inj in H. injection H as <- <-. right. split_and!; try done.
Qed.

(** A blob that a pass must keep: it was used within the hour, or a root, an artifact or an image that is left after the pass names
    it. *)
Definition live (now : Z) (s s' : Storage) (b : list Z) : Prop :=
  (∃ row, blobs (st_cas s) !! b = Some row ∧ now - UNROOTED_BLOB_MS ≤ blob_last_used row) ∨ (∃ c, (c, b) ∈ blob_roots s') ∨
  (∃ k, trace_artifacts s' !! k = Some b) ∨ (∃ c v, (c, v) ∈ image_blobs (st_db s') ∧ from_base64 v = Ok b).

Lemma images_of db images b : mapM from_base64 (elements (image_blobs db)).*2 = Ok images →
  (∃ c v, (c, v) ∈ image_blobs db ∧ from_base64 v = Ok b) → b ∈ images.
Proof.
  intros Hi (c & v & Hin & Hv). assert (v ∈ (elements (image_blobs db)).*2) as Hl by (apply list_elem_of_fmap; exists (c, v); set_solver).
  revert Hi Hl. generalize ((elements (image_blobs db)).*2) as l. intros l. revert images. induction l as [|x l IH]; intros images Hi Hl.
  { by apply not_elem_of_nil in Hl. }
  cbn [mapM] in Hi. apply bind_ok in Hi as (y & Hy & Hi). apply bind_ok in Hi as (ys & Hys & Hi). apply ok_inj in Hi as <-.
  apply elem_of_cons in Hl as [->|Hl]; [rewrite Hv in Hy; apply ok_inj in Hy as <-; by left|right; by eapply IH].
Qed.

Lemma collect_keeps expired db b : b ∉ expired → blobs (collect expired db) !! b = blobs db !! b.
Proof.
  intros Hb. unfold collect. cbn. destruct (blobs db !! b) as [row|] eqn:E; [|by apply map_lookup_filter_None_2; left].
  by apply map_lookup_filter_Some_2.
Qed.
Lemma collect_closed expired db : edges_closed db → edges_closed (collect expired db).
Proof.
  intros Hc p e [[Hp He] Hin]%list_elem_of_filter. destruct (Hc p e Hin) as [H1 H2]. by rewrite !collect_keeps.
Qed.
Lemma collect_size expired db : (size (blobs db) ≤ size (blobs (collect expired db)) + length expired)%nat.
Proof.
  rewrite <- !size_dom. etrans; [|apply Nat.add_le_mono_l, list_set_size]. rewrite (subseteq_size (dom (blobs db)) (dom (blobs (collect expired db)) ∪ list_to_set expired)).
  - rewrite size_union_alt. pose proof (subseteq_size (list_to_set expired ∖ dom (blobs (collect expired db))) (list_to_set expired : gset (list Z)) ltac:(set_solver)). lia.
  - intros b [row Hb]%elem_of_dom. apply elem_of_union. destruct (decide (b ∈ expired)); [right; by apply elem_of_list_to_set|left].
    apply elem_of_dom. rewrite collect_keeps by done. by exists row.
Qed.

Lemma collection_keeps scan now s s' archives : prune_inactive_storage scan now s = Ok (s', archives) → edges_closed (st_cas s) →
  (∀ p b, live now s s' p → rtc (edge_of (blob_edges (st_cas s))) p b →
     blobs (st_cas s') !! b = blobs (st_cas s) !! b ∧
     ∀ e, (b, e) ∈ blob_edges (st_cas s) → (b, e) ∈ blob_edges (st_cas s')) ∧
  edges_closed (st_cas s') ∧ blobs (st_cas s') ⊆ blobs (st_cas s) ∧
  (size (blobs (st_cas s)) ≤ size (blobs (st_cas s')) + MAX_PRUNED_BLOBS_PER_PASS)%nat.
Proof.
  intros Hp Hc. apply pass_parts in Hp as [(_ & -> & ->)|(_ & _ & _ & _ & _ & Hb)]; [split_and!; [done|done|done|lia]|].
  apply prune_blobs_cases in Hb as [[_ Hb]|(images & Hi & Hb)]; [rewrite Hb; split_and!; [done|done|done|lia]|].
  revert Hb. unfold unretained. set (retained := retained_blobs _ _ _ _ _). set (expired := take _ _). intros Hb.
  assert (∀ b, b ∈ expired → b ∉ retained) as He.
  { intros b (i & Hin & _)%elem_of_take. apply list_elem_of_lookup_2, list_elem_of_In, filter_In in Hin as [_ Hin]. by apply bool_decide_eq_true in Hin. }
  rewrite Hb. split_and!; [|by apply collect_closed|by apply map_filter_subseteq|].
  - intros p b Hl Hr. assert (∀ x, rtc (edge_of (blob_edges (st_cas s))) p x → x ∉ expired) as Hx.
    { intros x Hrx Hin. apply (He x Hin), retained_spec. exists p. split; [|done].
      destruct Hl as [Hl|[Hl|[Hl|Hl]]]; [by left|by right; left|by do 2 right; left|do 3 right; by eapply images_of]. }
    split; [apply collect_keeps; by apply Hx|]. intros e Hin. apply list_elem_of_filter. split; [|done]. split; [by apply Hx|].
    apply Hx. eapply rtc_r; [done|]. by exists e.
  - pose proof (collect_size expired (st_cas s)). assert (length expired ≤ MAX_PRUNED_BLOBS_PER_PASS)%nat; [|lia].
    unfold expired. rewrite length_take. lia.
Qed.
(** The roots of a conversation that was used within the day, or has a run, stay. *)
Lemma roots_stay scan now s s' archives c b : prune_inactive_storage scan now s = Ok (s', archives) →
  is_expired (now - CONVERSATION_RETENTION_MS) (st_db s) c = false → (c, b) ∈ blob_roots s → (c, b) ∈ blob_roots s'.
Proof.
  intros Hp Hc Hb. apply pass_parts in Hp as [(_ & -> & ->)|(_ & _ & _ & -> & _)]; [done|]. apply elem_of_filter. split; [|done]. cbn. intros Hin.
  unfold expired_conversations in Hin. apply elem_of_take in Hin as (i & Hi%list_elem_of_lookup_2 & _).
  unfold oldest_first in Hi. rewrite sort_by_elem in Hi. apply list_elem_of_In, filter_In in Hi as [_ He]. congruence.
Qed.

(** C24: A pass never collects a blob that is in use: of a blob used within the hour, and of every root, trace artifact and message
    image that is left, the blobs that the edges lead to stay with their bytes and edges.  No edge is left hanging, nothing else
    about a blob changes, and a pass removes at most its limit. *)
Theorem collection_safe scan now s s' archives : prune_inactive_storage scan now s = Ok (s', archives) → edges_closed (st_cas s) →
  (∀ p b, live now s s' p → rtc (edge_of (blob_edges (st_cas s))) p b →
     blobs (st_cas s') !! b = blobs (st_cas s) !! b ∧
     ∀ e, (b, e) ∈ blob_edges (st_cas s) → (b, e) ∈ blob_edges (st_cas s')) ∧
  edges_closed (st_cas s') ∧ blobs (st_cas s') ⊆ blobs (st_cas s) ∧
  (size (blobs (st_cas s)) ≤ size (blobs (st_cas s')) + MAX_PRUNED_BLOBS_PER_PASS)%nat.
Proof. apply collection_keeps. Qed.
End Blobs.

(** ** The conversations *)

Section Conversations.
Context `{B : Backend} {D64 : Base64Decode} {FK : ForeignKeys}.

Lemma without_stored expired db c m : c ∉ expired → stored db c m → stored (without expired db) c m.
Proof. intros Hc (row & Hr & He). exists row. split; [|done]. cbn. by apply map_lookup_filter_Some_2. Qed.
Lemma without_checkpoint expired db id row : checkpoints (without expired db) !! id = Some row ↔
  checkpoints db !! id = Some row ∧ ck_conversation row ∉ expired.
Proof. cbn. by rewrite map_lookup_filter_Some. Qed.

Lemma without_tree expired db : tree_ok db → tree_ok (without expired db).
Proof.
  intros T. split.
  - intros id row [H _]%without_checkpoint. exact (t_bound _ T _ _ H).
  - intros id row p [H Hc]%without_checkpoint Hp. destruct (t_parent _ T _ _ _ H Hp) as (Hlt & prow & Hpr & Ec). split; [done|].
    exists prow. split; [|done]. apply without_checkpoint. by rewrite Ec.
  - intros id row [H _]%without_checkpoint. exact (t_root _ T _ _ H).
  - intros id row p prow [H Hc]%without_checkpoint Hp [Hpr _]%without_checkpoint.
    destruct (t_chain _ T _ _ _ _ H Hp Hpr) as (ms & E & Hs & Hd). exists ms. split; [done|]. split; [|done].
    eapply Forall_impl; [exact Hs|]. intros m. by apply without_stored.
  - intros id row id' row' [H _]%without_checkpoint [H' _]%without_checkpoint. exact (t_unique _ T _ _ _ _ H H').
  - intros c id row [H _]%map_lookup_filter_Some. exact (t_message _ T _ _ _ H).
  - intros c id row id' row' [H _]%map_lookup_filter_Some [H' _]%map_lookup_filter_Some. exact (t_event _ T _ _ _ _ _ H H').
  - apply T.
Qed.
Lemma without_owner expired db : owner_ok db → owner_ok (without expired db).
Proof.
  intros O. split.
  - intros c row id [H Hc]%map_lookup_filter_Some Hid. pose proof (o_current _ O _ _ _ H Hid) as Hck.
    destruct (checkpoints db !! id) as [ck|] eqn:E; [|done]. injection Hck as Eck.
    assert (checkpoints (without expired db) !! id = Some ck) as ->; [|cbn; by rewrite Eck]. apply without_checkpoint. by rewrite Eck.
  - intros c row run [H Hc]%map_lookup_filter_Some Ha. destruct (o_active _ O _ _ _ H Ha) as (r & Hr & Hs & Ec & Eh).
    exists r. split_and!; try done. cbn. apply map_lookup_filter_Some_2; [done|]. cbn. by rewrite Ec.
  - intros run r [H Hc]%map_lookup_filter_Some Hs. destruct (o_running _ O _ _ H Hs) as (row & Hrow & Ha). exists row. split; [|done].
    by apply map_lookup_filter_Some_2.
Qed.
Lemma without_rounds expired db : rounds_ok db → rounds_ok (without expired db).
Proof.
  intros R id r [H Hd]%map_lookup_filter_Some. destruct (R id r H) as (calls & Hc & Ho). exists calls. split; [|done].
  by apply map_lookup_filter_Some_2.
Qed.
Lemma without_ok expired db : db_ok db → db_ok (without expired db).
Proof. intros [T O R]. split; [by apply without_tree|by apply without_owner|by apply without_rounds]. Qed.





End Conversations.

(** ** No pass is refused *)

Section Total.
Context `{B : Backend} {L : BackendLaws} {D64 : Base64Decode} {FK : ForeignKeys}.

(** The anchors of a conversation name checkpoints of it. *)
Definition anchors_ok (db : Db) (anchors : gmap (list Z * list Z) Z) : Prop :=
  ∀ c input base, anchors !! (c, input) = Some base → in_conversation db base c.

Definition with_db (s : Storage) (db : Db) : Storage :=
  MkStorage db (st_cas s) (blob_roots s) (traces s) (trace_artifacts s) (call_requests s) (call_chunks s) (compactions s) (input_anchors s).

(** The storages the program can have: from an empty one by the transactions of the store (a batch of runtime messages reads the
    identities of its chain from an earlier storage, of which the rows it read are still there), the anchors of inputs to a checkpoint
    that was imported for their conversation, passes, and whatever is done to the blobs, the traces and the calls. *)
Inductive maintained : Storage → Prop :=
  | m_empty s : st_db s = empty_db → input_anchors s = ∅ → maintained s
  | m_store s db' : maintained s → store_step (st_db s) db' → maintained (with_db s db')
  | m_append_once snapshot s now c run expected ms db' out : maintained snapshot → maintained s →
      extends (st_db snapshot) (st_db s) → is_Some (checkpoints (st_db snapshot) !! expected) →
      append_messages_once (st_db snapshot) (st_db s) now c run expected ms = Ok (db', out) → maintained (with_db s db')
  | m_anchor s c input base s' anchored : maintained s → in_conversation (st_db s) base c →
      anchor_input c input base s = Ok (s', anchored) → maintained s'
  | m_other s s' : maintained s → st_db s' = st_db s → input_anchors s' = input_anchors s → maintained s'
  | m_pass scan now s s' archives : maintained s → prune_inactive_storage scan now s = Ok (s', archives) → maintained s'.

Record storage_ok (s : Storage) : Prop := {
  so_db : db_ok (st_db s);
  so_refs : refs_ok (st_db s);
  so_anchors : anchors_ok (st_db s) (input_anchors s)
}.

Lemma without_in_conversation expired db id c : in_conversation db id c → c ∉ expired → in_conversation (without expired db) id c.
Proof.
  unfold in_conversation. destruct (checkpoints db !! id) as [ck|] eqn:E; [|done]. intros [= <-] Hc.
  assert (checkpoints (without expired db) !! id = Some ck) as ->; [by apply without_checkpoint|done].
Qed.
Lemma kept_run expired db run r : runs db !! run = Some r → doomed_run expired db run = false →
  run_conversation r ∉ expired ∧ runs (without expired db) !! run = Some r.
Proof.
  intros Hr Hd. unfold doomed_run in Hd. rewrite Hr in Hd. apply bool_decide_eq_false in Hd. split; [done|]. by apply map_lookup_filter_Some_2.
Qed.
Lemma kept_round expired db round tr : tool_rounds db !! round = Some tr → doomed_round expired db round = false →
  doomed_run expired db (tr_run tr) = false.
Proof. intros Ht Hd. unfold doomed_round in Hd. by rewrite Ht in Hd. Qed.
Lemma without_refs expired db : refs_ok db → refs_ok (without expired db).
Proof.
  intros F. split.
  - intros run r [Hr Hc]%map_lookup_filter_Some. destruct (rf_run _ F _ _ Hr). split; by apply without_in_conversation.
  - intros id tr [Ht Hd]%map_lookup_filter_Some. destruct (rf_round _ F _ _ Ht) as (r & Hr & Hb).
    destruct (kept_run _ _ _ _ Hr (kept_round _ _ _ _ Ht Hd)) as [Hc Hr']. exists r. split; [done|]. by apply without_in_conversation.
  - intros id calls call done [Ht Hd]%map_lookup_filter_Some Hin Hdone. destruct (rf_call _ F _ _ _ _ Ht Hin Hdone) as (tr & r & Htr & Hr & Hcc).
    destruct (kept_run _ _ _ _ Hr (kept_round _ _ _ _ Htr Hd)) as [Hc Hr']. exists tr, r.
    split; [by apply map_lookup_filter_Some_2|]. split; [done|]. by apply without_in_conversation.
Qed.

(** What is reached without a pass is among them. *)
Lemma maintained_reachable s : reachable (st_db s) → input_anchors s = ∅ → maintained s.
Proof.
  unfold reachable. remember (st_db s) as db eqn:E. intros H. revert s E. revert db H.
  apply (rtc_ind_r (λ db, ∀ s, db = st_db s → input_anchors s = ∅ → maintained s)); [intros s E; by apply m_empty|].
  intros y z _ Hs IH s -> Ha. assert (maintained (with_db s y)) as M by by apply IH.
  pose proof (m_store _ (st_db s) M Hs) as M'. by destruct s.
Qed.
Lemma maintained_ok s : maintained s → storage_ok s.
Proof.
  assert (∀ db db' a, checkpoints db ⊆ checkpoints db' → anchors_ok db a → anchors_ok db' a) as Hmono
    by (intros db db' a Hs Ha c input base Hb; eapply in_conversation_mono; [exact Hs|]; by eapply Ha).
  induction 1 as [s Hd Ha|s db' _ IH Hs|sn s now c run expected ms db' out _ IHs _ IH X Hck Ho|s c input base s' an _ IH Hin Han
    |s s' _ IH Hd Ha|scan now s s' archives _ IH Hp].
  - split; rewrite ?Hd, ?Ha; [apply empty_db_ok|apply empty_refs|]. intros c input base Hb. by rewrite lookup_empty in Hb.
  - destruct IH as [D F A]. destruct (rtc_ok _ _ (rtc_once _ _ Hs) D) as [D' [[K _] _]].
    split; cbn; [done|exact (step_refs _ _ D F Hs)|by eapply Hmono].
  - destruct IH as [D F A]. destruct (append_once_step _ _ _ _ _ _ _ _ _ (so_db _ IHs) D X Hck Ho) as [D' [[K _] _]].
    destruct (append_once_moved _ _ _ _ _ _ _ _ _ (so_db _ IHs) D X Hck Ho) as [M [R1 R2]].
    split; cbn; [done|exact (refs_moved _ _ F M R1 R2)|by eapply Hmono].
  - destruct IH as [D F A]. unfold anchor_input in Han. destruct (input_anchors s !! (c, input)) eqn:E; [by injection Han as <- <-|].
    case_bool_decide; [|done]. injection Han as <- <-. split; cbn; [done|done|].
    intros c' i' b [[[= <- <-] <-]|[_ Hb]]%lookup_insert_Some; [done|by eapply A].
  - destruct IH as [D F A]. split; by rewrite ?Hd, ?Ha.
  - destruct IH as [D F A]. apply pass_parts in Hp as [(_ & -> & ->)|(_ & Hd & (Ha & _) & _)]; [by split|].
    unfold recycle in Hd. destruct (_ || _); [done|]. apply ok_inj in Hd. symmetry in Hd.
    split; rewrite ?Hd, ?Ha; [by apply without_ok|by apply without_refs|].
    intros c input base [Hb Hc]%map_lookup_filter_Some. cbn in Hc. apply without_in_conversation; [by eapply A|done].
Qed.

(** Deleting whole conversations leaves no row that names what is gone. *)
Lemma recycle_total expired db anchors : tree_ok db → refs_ok db → anchors_ok db anchors → (∀ c i, is_Some (anchors !! (c, i)) → c ∉ expired) →
  recycle expired db anchors = Ok (without expired db).
Proof.
  intros T F A Hx. unfold recycle. pose proof (without_refs expired db F) as F'.
  assert (∀ id c, in_conversation db id c → c ∉ expired → deleted_checkpoint expired db id = false) as Hkeep.
  { intros id c Hin Hc. unfold deleted_checkpoint, in_conversation in *. destruct (checkpoints db !! id); [|done].
    injection Hin as ->. by apply bool_decide_eq_false. }
  assert (∀ id c, in_conversation (without expired db) id c → deleted_checkpoint expired db id = false) as Hd.
  { intros id c Hin. unfold in_conversation in Hin. destruct (checkpoints (without expired db) !! id) as [ck|] eqn:E; [|done].
    apply without_checkpoint in E as [E Hc]. apply (Hkeep id (ck_conversation ck)); [|done]. unfold in_conversation. by rewrite E. }
  assert (names_checkpoint (deleted_checkpoint expired db) (without expired db) anchors = false) as ->;
    [|assert (names_run (doomed_run expired db) (doomed_round expired db) (without expired db) = false) as ->; [|done]].
  - unfold names_checkpoint. repeat (apply orb_false_iff; split); apply existsb_false.
    + intros base ((k & b) & -> & Hk%elem_of_map_to_list)%list_elem_of_fmap. destruct k as [c i]. cbn. apply (Hkeep b c); [by eapply A|by eapply Hx].
    + intros r ((run & x) & -> & Hr%elem_of_map_to_list)%list_elem_of_fmap. cbn in Hr |- *. destruct (rf_run _ F' _ _ Hr) as [Hb Hh].
      by rewrite (Hd _ _ Hb), (Hd _ _ Hh).
    + intros r ((id & tr) & -> & Ht%elem_of_map_to_list)%list_elem_of_fmap. destruct (rf_round _ F' _ _ Ht) as (q & _ & Hb). by apply (Hd _ _ Hb).
    + intros done (call & Hin & Hdn)%list_elem_of_omap. apply elem_of_concat in Hin as (calls & Hcall & Hin).
      apply list_elem_of_fmap in Hin as ((id & cs) & -> & Ht%elem_of_map_to_list).
      destruct (rf_call _ F' _ _ _ _ Ht Hcall Hdn) as (tr & q & _ & _ & Hcc). by apply (Hd _ _ Hcc).
    + intros ck ((id & x) & -> & Hck%elem_of_map_to_list)%list_elem_of_fmap. destruct (ck_parent x) as [p|] eqn:Ep; cbn; rewrite Ep; [|done].
      destruct (t_parent _ (without_tree expired db T) _ _ _ Hck Ep) as (_ & prow & Hp & _).
      apply (Hd p (ck_conversation prow)). unfold in_conversation. by rewrite Hp.
  - unfold names_run. apply orb_false_iff. split; apply existsb_false.
    + intros tr ((id & x) & -> & [Ht Hdm]%elem_of_map_to_list%map_lookup_filter_Some)%list_elem_of_fmap. by apply (kept_round expired db id).
    + intros id ((x & cs) & -> & [Ht Hdm]%elem_of_map_to_list%map_lookup_filter_Some)%list_elem_of_fmap. done.
Qed.

Lemma prune_blobs_total scan unrooted db s roots artifacts : (∀ c v, (c, v) ∈ image_blobs db → is_ok (from_base64 v) = true) →
  is_ok (prune_blobs scan unrooted db s roots artifacts) = true.
Proof.
  intros Hi. unfold prune_blobs. destruct (has_expired_blob_candidates _ _ _ _); [|done].
  assert (∀ v, v ∈ (elements (image_blobs db)).*2 → is_ok (from_base64 v) = true) as Hv
    by (intros v ((c & w) & -> & Hin%elem_of_elements)%list_elem_of_fmap; by eapply Hi).
  assert (∃ images, mapM from_base64 (elements (image_blobs db)).*2 = Ok images) as [images ->].
  { revert Hv. generalize ((elements (image_blobs db)).*2) as l. induction l as [|v l IH]; intros Hv; [by eexists|].
    cbn. specialize (Hv v ltac:(by left)) as Hv0. destruct (from_base64 v); [|done]. cbn.
    destruct (IH ltac:(intros w Hw; apply Hv; by right)) as [images ->]. by eexists. }
  cbn [mbind result_bind]. pose proof (unretained_unnamed scan unrooted images s roots artifacts) as Hn. unfold unretained in Hn. by rewrite Hn.
Qed.

(** C26: No pass is refused by a foreign key: over every storage the program can have, earlier passes included, whose image references
    are blob ids, the pass succeeds, whatever it finds to remove: no anchor, run, round, call or checkpoint that stays names a row that
    goes, and no edge or artifact a blob that goes. *)
Theorem maintenance_total scan now s : maintained s →
  (∀ c v, (c, v) ∈ image_blobs (st_db s) → is_ok (from_base64 v) = true) →
  ∃ s' archives, prune_inactive_storage scan now s = Ok (s', archives).
Proof.
  intros [D F A]%maintained_ok Hi. unfold prune_inactive_storage. destruct (recently_running _ _); [by eexists _, _|].
  set (expired := expired_conversations _ _ _). rewrite recycle_total; [|apply D|done| |].
  - cbn [mbind result_bind]. match goal with |- context [prune_blobs ?a ?b ?c ?d ?e ?f] =>
      pose proof (prune_blobs_total a b c d e f) as Hp; destruct (prune_blobs a b c d e f) end; [by eexists _, _|].
    discriminate Hp. intros c v [_ Hin]%elem_of_filter. by eapply Hi.
  - intros c input base [Hb _]%map_lookup_filter_Some. by eapply A.
  - intros c input [base [_ Hc]%map_lookup_filter_Some]. exact Hc.
Qed.
End Total.

Module RetentionSamples.
Definition decoder : Base64Decode := {| decode64 d := Ok d |}.
#[local] Existing Instances CasSamples.digest CasSamples.base64 CasSamples.foreign_keys StoreSamples.store decoder.
(** A conversation with a run of long ago, and one that is idle. *)
Definition db : Db := match ensure_conversation_tx StoreSamples.opened 7 (lit "idle") with Ok (db, _) => db | Err _ => StoreSamples.opened end.
Lemma db_reachable : reachable db.
Proof.
  eapply rtc_r; [exact StoreSamples.opened_reachable|]. eapply (step_ensure _ 7 (lit "idle") _ 2). vm_compute. reflexivity.
Qed.
(** A root with a child, and a blob that nothing names. *)
Definition kept_id : list Z := Cas.digest (lit "kept").
Definition root_id : list Z := Cas.digest (lit "root").
Definition junk_id : list Z := Cas.digest (lit "junk").
Definition put (data : string) (edges : list BlobEdge) (s : Cas) : Cas := match put_blob 6 (lit data) edges s with Ok (s, _) => s | Err _ => s end.
Definition cas : Cas := put "junk" [] (put "root" [MkEdge kept_id (lit "turns")] CasSamples.store).
Lemma put_closed data edges s : edges_closed s → edges_closed (put data edges s).
Proof.
  intros Hs. unfold put, put_blob. destruct (put_blob_tx 6 _ _ edges s) as [s'|] eqn:E; [|done]. by eapply put_blob_closed.
Qed.
Lemma cas_closed : edges_closed cas.
Proof. do 2 apply put_closed. intros p e H. vm_compute in H. by apply not_elem_of_nil in H. Qed.
Definition unanchored : Storage := MkStorage db cas {[ (StoreSamples.conv, root_id) ]} ∅ ∅ ∅ ∅ [] ∅.
(** An input of the idle conversation is anchored to its root. *)
Definition storage : Storage := match anchor_input (lit "idle") (lit "input") 2 unanchored with Ok (s, _) => s | Err _ => unanchored end.
Lemma storage_maintained : maintained storage.
Proof.
  apply (m_anchor unanchored (lit "idle") (lit "input") 2 storage 2); [|vm_compute; reflexivity|vm_compute; reflexivity].
  by apply (maintained_reachable unanchored); [exact db_reachable|].
Qed.
Definition scan : Scan := MkScan [lit "idle"; StoreSamples.conv] [] [] [junk_id; root_id; kept_id].
Definition now : Z := 3 * RETENTION_MS.
Definition after : Storage := match prune_inactive_storage scan now storage with Ok (s, _) => s | Err _ => storage end.
Lemma pass : prune_inactive_storage scan now storage = Ok (after, []).
Proof. vm_compute. reflexivity. Qed.
End RetentionSamples.

(** The root of the conversation that stays keeps its child, and the blob that nothing names goes. *)
Lemma collection_safe_witness :
  blobs (st_cas RetentionSamples.after) !! RetentionSamples.junk_id = None ∧
  blobs (st_cas RetentionSamples.after) !! RetentionSamples.kept_id = blobs (st_cas RetentionSamples.storage) !! RetentionSamples.kept_id ∧
  is_Some (blobs (st_cas RetentionSamples.storage) !! RetentionSamples.kept_id).
Proof.
  destruct (@collection_safe RetentionSamples.decoder CasSamples.foreign_keys _ _ _ _ _ RetentionSamples.pass RetentionSamples.cas_closed) as (H & _).
  destruct (H RetentionSamples.root_id RetentionSamples.kept_id) as [E _].
  - right. left. exists StoreSamples.conv. apply (bool_decide_unpack _). vm_compute. exact I.
  - apply rtc_once. exists (MkEdge RetentionSamples.kept_id (lit "turns")). split; [|reflexivity]. apply (bool_decide_unpack _). vm_compute. exact I.
  - split; [vm_compute; reflexivity|]. split; [exact E|]. vm_compute. eexists. reflexivity.
Defined.
Lemma maintenance_total_witness : input_anchors RetentionSamples.storage !! (lit "idle", lit "input") = Some 2 ∧
  ∃ s' archives, @prune_inactive_storage RetentionSamples.decoder CasSamples.foreign_keys RetentionSamples.scan RetentionSamples.now RetentionSamples.storage = Ok (s', archives).
Proof.
  split; [vm_compute; reflexivity|].
  apply (@maintenance_total StoreSamples.store (StoreSamples.backend_laws _)); [exact RetentionSamples.storage_maintained|].
  intros c v H. apply elem_of_elements in H. revert H. vm_compute. intros H. inversion H.
Defined.
