(* ===== verification/Checkpoint.v ===== *)
(** * Checkpoint: building the checkpoint of a conversation

    server/src/cursor/checkpoint/{builder,roots,recovery,turns,derived,summary}.rs, over the blobs of Blobs.v.  An operation of the
    builder is a state transformer that keeps what it changed when it fails, because the builder outlives a failure.  The encodings of
    the generated messages are parameters; the messages of the conversation are those of CheckpointMessages.v. *)

From stdpp Require Import prelude gmap sets strings list sorting.
From S2P Require Import Prelude Errors External Json Message Tokens Usage CheckpointMessages Cas CheckpointState Blobs Store.
Local Open Scope Z_scope.

(** ** Generated messages *)

(** [UserMessage]: the mode, and the other fields as they came. *)
Record UserMessage : Type := MkUser { user_fields : list Z; user_mode : Z }.
(** [AgentConversationTurnStructure]: what this code reads or writes, and the other fields as they came. *)
Record AgentTurn : Type := MkAgentTurn {
  turn_user_message : list Z;
  turn_steps : list (list Z);
  turn_request_id : option (list Z);
  turn_fields : list Z
}.
(** [TodoItem]. *)
Record TodoItem : Type := MkTodo {
  todo_id : list Z;
  todo_content : list Z;
  todo_status : Z;
  todo_dependencies : list (list Z)
}.
(** [ConversationSummaryArchive]. *)
Record SummaryArchive : Type := MkArchive {
  summarized_messages : list (list Z);
  archive_summary : list Z;
  window_tail : Z;
  archive_summary_message : list Z
}.
(** prost: the generated encodings.  [decode_turn] is [None] where the wrapper holds no agent turn. *)
Class Generated : Type := {
  encode_step : Step → list Z;
  encode_user : UserMessage → list Z;
  encode_turn : AgentTurn → list Z;
  encode_todo : TodoItem → list Z;
  encode_plan : list Z → list Z;
  encode_summary : list Z → list Z;
  encode_archive : SummaryArchive → list Z;
  decode_turn : list Z → result foreign_error (option AgentTurn);
  decode_todo : list Z → result foreign_error TodoItem
}.

(** ** The builder *)

(** server/src/cursor/checkpoint/roots.rs:7-11, [RootFrontier]. *)
Record RootFrontier : Type := MkRoots { root_ids : list (list Z); generated : list (list Z); base_count : nat }.
(** server/src/cursor/checkpoint/turns.rs:13-17, [TurnFrontier]. *)
Record TurnFrontier : Type := MkTurn { preceding : list (list Z); current_id : option (list Z); current : AgentTurn }.
(** server/src/cursor/checkpoint/builder.rs:21-40, [CheckpointBuilder]; the store and the synchronizer are its blobs, and the request
    id is the synchronizer's. *)
Record Builder : Type := MkBuilder {
  b_request_id : list Z;
  b_parent : option (list Z);
  base : State;
  b_model : list Z;
  b_max_tokens : option Z;
  b_instructions : list Z;
  b_tools : list ToolDefinition;
  b_allowed : list (list Z);
  b_dynamic : list (list Z);
  turn_user : option UserMessage;
  roots : option RootFrontier;
  turn : option TurnFrontier;
  turns_initialized : bool;
  b_cache : MeasureCache;
  b_statics : option (list Measure)
}.
(** server/src/cursor/checkpoint/builder.rs:43-67, [new]. *)
Definition new_builder (request_id : list Z) (parent : option (list Z)) (state : option State) : Builder :=
  MkBuilder request_id parent (default default_state state) [] None [] [] [] [] None None None false ∅ None.
Definition set_base (x : State) (b : Builder) : Builder :=
  MkBuilder (b_request_id b) (b_parent b) x (b_model b) (b_max_tokens b) (b_instructions b) (b_tools b) (b_allowed b) (b_dynamic b)
    (turn_user b) (roots b) (turn b) (turns_initialized b) (b_cache b) (b_statics b).
Definition set_roots (x : option RootFrontier) (b : Builder) : Builder :=
  MkBuilder (b_request_id b) (b_parent b) (base b) (b_model b) (b_max_tokens b) (b_instructions b) (b_tools b) (b_allowed b) (b_dynamic b)
    (turn_user b) x (turn b) (turns_initialized b) (b_cache b) (b_statics b).
Definition set_turn (x : option TurnFrontier) (b : Builder) : Builder :=
  MkBuilder (b_request_id b) (b_parent b) (base b) (b_model b) (b_max_tokens b) (b_instructions b) (b_tools b) (b_allowed b) (b_dynamic b)
    (turn_user b) (roots b) x true (b_cache b) (b_statics b).
Definition set_measures (cache : MeasureCache) (statics : option (list Measure)) (b : Builder) : Builder :=
  MkBuilder (b_request_id b) (b_parent b) (base b) (b_model b) (b_max_tokens b) (b_instructions b) (b_tools b) (b_allowed b) (b_dynamic b)
    (turn_user b) (roots b) (turn b) (turns_initialized b) cache statics.
(** server/src/cursor/checkpoint/builder.rs:74-76, [adopt]. *)
Definition adopt (state : option State) (b : Builder) : Builder := set_base (default default_state state) b.
(** server/src/cursor/checkpoint/builder.rs:78-99, [configure]. *)
Definition configure (model : list Z) (max_context_tokens : option Z) (instructions : list Z) (tools : list ToolDefinition)
    (dynamic_tools : list (list Z)) (user : option UserMessage) (b : Builder) : Builder :=
  MkBuilder (b_request_id b) (b_parent b) (base b) model max_context_tokens instructions tools (t_name <$> tools) dynamic_tools
    user (roots b) (turn b) (turns_initialized b) (b_cache b) None.

(** ** Finished child runs *)

(** The rows of a call that have ended, the latest first. *)
(** server/src/store/runs.rs:265-274, [finished_child_runs]: the rows of a call. *)
Definition ended_runs (db : Db) (call : list Z) : list RunRow :=
  sort_by (λ a b, run_updated b <=? run_updated a)
    (List.filter (λ r, bool_decide (run_parent_call r = Some call) && bool_decide (run_kind_name r = lit "subagent")
                       && negb (bool_decide (status r = Running))) (map_to_list (runs db)).*2).
(** server/src/store/runs.rs:254-291, [finished_child_runs]: one row per call that has any. *)
Definition finished_child_runs (db : Db) (calls : list (list Z)) : list (list Z * ChildEnd * Z) :=
  omap (λ call, r ← head (ended_runs db call);
                Some (call, match status r with
                            | StatusCompleted => ChildCompleted
                            | StatusFailed => ChildFailed
                            | _ => ChildCancelled
                            end, Z.max (run_updated r) 0)) (remove_dups calls).

(** ** Operations of the builder *)

Section Builder.
Context {W : Type} {BW : Blobs W} {GC : Generated} {SJ : SerdeJson} {SS : SerdeSlice} {SN : SerdeNumber} {D64 : Base64Decode}
  {B64 : Base64} {SH : Sha256}.

(** A fallible step over the builder and its blobs; what it did stays when it fails. *)
Definition Build (A : Type) : Type := Builder * W → (Builder * W) * res A.
#[global] Instance build_ret : MRet Build := λ A a s, (s, Ok a).
#[global] Instance build_bind : MBind Build := λ A B k m s, match m s with (s, Ok a) => k a s | (s, Err e) => (s, Err e) end.
Definition lift {A} (r : res A) : Build A := λ s, (s, r).
Definition builder_ : Build Builder := λ s, (s, Ok s.1).
Definition update (f : Builder → Builder) : Build () := λ s, ((f s.1, s.2), Ok ()).
Definition blob_op {A} (op : W → W * res A) : Build A := λ s, let '(w, r) := op s.2 in ((s.1, w), r).
Definition persist_ (data : list Z) (edges : list BlobEdge) : Build (list Z) := blob_op (persist data edges).
Definition fetch_ (id : list Z) : Build (option (list Z)) := blob_op (fetch id).

(** *** Roots *)

(** server/src/cursor/checkpoint/roots.rs:57-73, [ensure_roots]. *)
Definition ensure_roots : Build RootFrontier :=
  b ← builder_;
  match roots b with
  | Some r => mret r
  | None =>
      ids ← lift (mapM from_bytes (root_prompt_messages_json (base b)));
      let r := MkRoots ids [] (length ids) in
      update (set_roots (Some r));; mret r
  end.
(** server/src/cursor/checkpoint/roots.rs:107-114, [changed_system_root]. *)
Definition changed_system_root (r : RootFrontier) (messages : list (list Z)) : option (list Z) :=
  match root_ids r, messages with
  | current :: _, message :: _ => if bool_decide (current = digest message) then None else Some message
  | _, _ => None
  end.
(** server/src/cursor/checkpoint/roots.rs:43-50, [project_roots]: a message that was generated before and is another now. *)
Fixpoint first_changed (index : nat) (gs messages : list (list Z)) : option nat :=
  match gs with
  | [] => None
  | g :: gs => if bool_decide (messages !! index = Some g) then first_changed (S index) gs messages else Some index
  end.
(** server/src/cursor/checkpoint/roots.rs:51-54, [project_roots]: the messages that are new. *)
Fixpoint push_roots (r : RootFrontier) (messages : list (list Z)) : Build RootFrontier :=
  match messages with
  | [] => mret r
  | m :: messages =>
      id ← persist_ m [];
      let r := MkRoots (root_ids r ++ [id]) (generated r ++ [m]) (base_count r) in
      update (set_roots (Some r));; push_roots r messages
  end.
(** server/src/cursor/checkpoint/roots.rs:14-55, [project_roots]. *)
Definition project_roots (messages : list CanonicalMessage) : Build (list (list Z)) :=
  b ← builder_;
  wire ← lift (stable_messages (b_instructions b) messages (b_model b));
  r ← ensure_roots;
  r ← match changed_system_root r wire with
      | Some message =>
          id ← persist_ message [];
          let r := MkRoots (<[0%nat := id]> (root_ids r)) (generated r) (base_count r) in
          update (set_roots (Some r));; mret r
      | None => mret r
      end;
  if (length wire <? length (root_ids r))%nat then
    lift (Err (Protocol (lit "Cursor stable history shrank from " ++ decimal (zlen (root_ids r)) ++ lit " to " ++ decimal (zlen wire)
                         ++ lit " roots")))
  else match first_changed (base_count r) (generated r) wire with
       | Some index => lift (Err (Protocol (lit "Cursor stable root changed at index " ++ decimal (Z.of_nat index))))
       | None => r ← push_roots r (drop (length (root_ids r)) wire); mret (root_ids r)
       end.

(** server/src/cursor/checkpoint/roots.rs:94-104, [replace_roots]: one message. *)
Fixpoint replace_each (system : option (list Z)) (messages : list (list Z)) : Build (list (list Z)) :=
  match messages with
  | [] => mret []
  | m :: messages =>
      id ← (if bool_decide (system = Some (digest m)) then mret (digest m) else persist_ m []);
      ids ← replace_each None messages; mret (id :: ids)
  end.
(** server/src/cursor/checkpoint/roots.rs:83-104, [replace_roots]. *)
Definition replace_roots (messages : list CanonicalMessage) : Build (list (list Z)) :=
  b ← builder_;
  wire ← lift (stable_messages (b_instructions b) messages (b_model b));
  r ← ensure_roots;
  ids ← replace_each (head (root_ids r)) wire;
  update (set_roots (Some (MkRoots ids [] (length ids))));; mret ids.

(** *** Recovery *)

(** server/src/cursor/checkpoint/recovery.rs:12-24, [import_prefetched]. *)
Fixpoint import_prefetched (prefetched : list (list Z * list Z)) : Build () :=
  match prefetched with
  | [] => mret ()
  | (raw, value) :: prefetched =>
      expected ← lift (from_bytes raw);
      actual ← blob_op (put value []);
      if bool_decide (expected = actual) then import_prefetched prefetched
      else lift (Err (Protocol (lit "prefetched Blob hash mismatch: " ++ to_base64 expected)))
  end.
(** server/src/cursor/checkpoint/recovery.rs:42-44, [hydrate_messages]: the id of a restored message. *)
Definition root_message_id (id : list Z) (ordinal : nat) : list Z :=
  lit "cursor-root:" ++ to_base64 id ++ lit ":" ++ decimal (Z.of_nat ordinal).
(** server/src/cursor/checkpoint/recovery.rs:34-46, [hydrate_messages]: the roots from [ordinal] on. *)
Fixpoint hydrate_from (ordinal : nat) (raws : list (list Z)) : Build (list CanonicalMessage) :=
  match raws with
  | [] => mret []
  | raw :: raws =>
      id ← lift (from_bytes raw);
      data ← fetch_ id;
      data ← lift (ok_or data (Protocol (lit "missing message Blob " ++ to_base64 id)));
      m ← lift (decode data (root_message_id id ordinal));
      ms ← hydrate_from (S ordinal) raws; mret (m :: ms)
  end.
(** server/src/cursor/checkpoint/recovery.rs:26-48, [hydrate_messages]. *)
Definition hydrate_messages (state : option State) : Build (list CanonicalMessage) :=
  match state with
  | None => mret []
  | Some state => hydrate_from 0 (root_prompt_messages_json state)
  end.

(** *** Turns *)

(** server/src/cursor/checkpoint/turns.rs:74-125, [ensure_turn]. *)
Definition ensure_turn (mode : Z) : Build () :=
  b ← builder_;
  if turns_initialized b then mret ()
  else
    update (set_turn (turn b));;
    base_ids ← lift (mapM from_bytes (turns (base b)));
    match turn_user b with
    | Some user =>
        user_id ← persist_ (encode_user (MkUser (user_fields user) mode)) [];
        update (set_turn (Some (MkTurn base_ids None (MkAgentTurn user_id [] (Some (b_request_id b)) []))))
    | None =>
        match last base_ids with
        | None => mret ()
        | Some current =>
            data ← fetch_ current;
            data ← lift (ok_or data (Protocol (lit "missing current Turn Blob " ++ to_base64 current)));
            wrapper ← lift (map_err Decode (decode_turn data));
            agent ← lift (ok_or wrapper (protocol "current Cursor Turn is not an agent conversation turn"));
            update (set_turn (Some (MkTurn (removelast base_ids) (Some current) agent)))
        end
    end.
(** server/src/cursor/checkpoint/turns.rs:34-39, [project_turns]: one step. *)
Definition push_step (id : list Z) (t : TurnFrontier) : TurnFrontier :=
  MkTurn (preceding t) (current_id t)
    (MkAgentTurn (turn_user_message (current t)) (turn_steps (current t) ++ [id]) (turn_request_id (current t)) (turn_fields (current t))).
(** server/src/cursor/checkpoint/turns.rs:34-39, [project_turns]: the steps that are new. *)
Fixpoint push_steps (t : TurnFrontier) (steps : list Step) : Build TurnFrontier :=
  match steps with
  | [] => mret t
  | step :: steps =>
      id ← persist_ (encode_step step) [];
      let t := push_step id t in
      update (set_turn (Some t));; push_steps t steps
  end.
(** server/src/cursor/checkpoint/turns.rs:55-60, [project_turns]: the edge to a step. *)
Definition turn_edge (index : nat) (raw : list Z) : res BlobEdge :=
  id ← from_bytes raw; Ok (MkEdge id (lit "agent_conversation_turn.steps[" ++ decimal (Z.of_nat index) ++ lit "]")).
(** server/src/cursor/checkpoint/turns.rs:50-60, [project_turns]: the edges of a turn. *)
Definition turn_edges (t : AgentTurn) : res (list BlobEdge) :=
  user ← from_bytes (turn_user_message t);
  steps ← mapM (λ p, turn_edge p.1 p.2) (zip (seq 0 (length (turn_steps t))) (turn_steps t));
  Ok (MkEdge user (lit "agent_conversation_turn.user_message") :: steps).
(** server/src/cursor/checkpoint/turns.rs:20-71, [project_turns]. *)
Definition project_turns (mode : Z) (p : PendingSteps) : Build (list (list Z)) :=
  ensure_turn mode;;
  b ← builder_;
  match turn b with
  | None => lift (mapM from_bytes (turns (base b)))
  | Some t =>
      t ← push_steps t (pending_steps p);
      t ← (if negb (bool_decide (pending_steps p = [])) || bool_decide (current_id t = None) then
             edges ← lift (turn_edges (current t));
             id ← persist_ (encode_turn (current t)) edges;
             let t := MkTurn (preceding t) (Some id) (current t) in
             update (set_turn (Some t));; mret t
           else mret t);
      id ← lift (ok_or (current_id t) (protocol "Cursor current Turn has no BlobID"));
      mret (preceding t ++ [id])
  end.

(** *** The to-do list and the plan *)

(** server/src/cursor/checkpoint/derived.rs:55-69, [build_derived_state]: the statuses. *)
Definition todo_status_of (status : str) : option Z :=
  if named status "in_progress" then Some 2
  else if named status "completed" then Some 3
  else if named status "cancelled" then Some 4
  else if named status "pending" then Some 1
  else None.
(** server/src/cursor/checkpoint/derived.rs:135-146, [base_todo_state]: the statuses. *)
Definition todo_status_name (status : Z) : option str :=
  if status =? 2 then Some (lit "in_progress")
  else if status =? 3 then Some (lit "completed")
  else if status =? 4 then Some (lit "cancelled")
  else if status =? 1 then Some (lit "pending")
  else None.
(** server/src/cursor/checkpoint/derived.rs:58-58, [build_derived_state]: the error of a missing field. *)
Definition todo_missing (field : string) : Error := Protocol (lit "TodoWrite item is missing " ++ lit field).
(** server/src/cursor/checkpoint/derived.rs:54-90, [build_derived_state]: the message of one item. *)
Definition todo_of_json (todo : json) : res TodoItem :=
  status ← ok_or (get_str "status" todo) (todo_missing "status");
  status ← ok_or (todo_status_of status) (Protocol (lit "unknown TodoWrite status: " ++ status));
  id ← ok_or (get_str "id" todo) (todo_missing "id");
  content ← ok_or (get_str "content" todo) (todo_missing "content");
  Ok (MkTodo id content status (omap as_str (default [] (get_member "dependencies" todo ≫= as_array)))).
(** A blob the baseline names at this place is not written again. *)
(** server/src/cursor/checkpoint/derived.rs:93-98, [build_derived_state]: one blob. *)
Definition persist_unless (known : option (list Z)) (encoded : list Z) : Build (list Z) :=
  if bool_decide (known = Some (digest encoded)) then mret (digest encoded) else persist_ encoded [].
(** server/src/cursor/checkpoint/derived.rs:54-98, [build_derived_state]: the items. *)
Fixpoint persist_todos (index : nat) (items : list json) : Build (list (list Z)) :=
  match items with
  | [] => mret []
  | item :: items =>
      todo ← lift (todo_of_json item);
      b ← builder_;
      id ← persist_unless (todos (base b) !! index) (encode_todo todo);
      ids ← persist_todos (S index) items; mret (id :: ids)
  end.
(** server/src/cursor/checkpoint/derived.rs:148-153, [base_todo_state]: one item. *)
Definition json_of_todo (todo : TodoItem) : res json :=
  status ← ok_or (todo_status_name (todo_status todo)) (Protocol (lit "unknown Cursor Todo status: " ++ decimal (todo_status todo)));
  Ok (object [("id", JString (todo_id todo)); ("content", JString (todo_content todo)); ("status", JString status);
              ("dependencies", JArray (JString <$> todo_dependencies todo))])%string.
(** server/src/cursor/checkpoint/derived.rs:130-158, [base_todo_state]: the items. *)
Fixpoint base_todos (raws : list (list Z)) : Build (list json) :=
  match raws with
  | [] => mret []
  | raw :: raws =>
      id ← lift (from_bytes raw);
      data ← fetch_ id;
      data ← lift (ok_or data (Protocol (lit "Cursor Todo Blob is missing: " ++ to_base64 id)));
      todo ← lift (map_err Decode (decode_todo data));
      item ← lift (json_of_todo todo);
      items ← base_todos raws; mret (item :: items)
  end.
(** server/src/cursor/checkpoint/derived.rs:130-158, [base_todo_state]. *)
Definition base_todo_state : Build json :=
  b ← builder_;
  items ← base_todos (todos (base b));
  mret (object [("merge", JBool false); ("todos", JArray items)])%string.
(** server/src/cursor/checkpoint/derived.rs:101-106, [build_derived_state]: the text of a plan. *)
Definition plan_text (value : json) : option str :=
  match get_str "plan" value with
  | Some text => Some text
  | None => match as_str value with Some text => Some text | None => get_str "overview" value end
  end.
(** server/src/cursor/checkpoint/derived.rs:19-124, [build_derived_state]. *)
Definition build_derived_state (messages : list CanonicalMessage) : Build (list (list Z) * option (list Z)) :=
  b ← builder_;
  let changes := fold_derived_state messages in
  s ← (if bool_decide (d_todos changes ≠ None) && negb (bool_decide (todos (base b) = [])) then
         known ← base_todo_state; mret (fold_derived_state_from messages (MkDerived (Some known) None))
       else mret changes);
  todo_ids ← match d_todos s with
             | Some value =>
                 items ← lift (ok_or (get_member "todos" value ≫= as_array) (protocol "TodoWrite state is missing todos[]"));
                 persist_todos 0 items
             | None => lift (mapM from_bytes (todos (base b)))
             end;
  plan_id ← match d_plan s with
            | Some value =>
                text ← lift (ok_or (plan_text value) (protocol "plan state has no textual plan"));
                id ← persist_unless (plan (base b)) (encode_plan text); mret (Some id)
            | None => lift (match plan (base b) with
                            | Some raw => Some <$> from_bytes raw
                            | None => Ok None
                            end)
            end;
  mret (todo_ids, plan_id).

(** *** The state *)

(** server/src/cursor/checkpoint/builder.rs:105-116, [static_measures]. *)
Definition static_measures_ : Build (list Measure) :=
  b ← builder_;
  match b_statics b with
  | Some ms => mret ms
  | None =>
      ms ← lift (static_measures (b_instructions b) (b_tools b) (b_dynamic b));
      update (set_measures (b_cache b) (Some ms));; mret ms
  end.
(** server/src/cursor/checkpoint/builder.rs:210-214, [build_state]: the paths that were read. *)
Definition add_paths (paths : list (list Z)) (s : State) : State :=
  set_read_paths (foldl (λ known path, push_new path known) (read_paths s) paths) s.
(** server/src/cursor/checkpoint/builder.rs:223-231, [build_state]: the breakdown of the token details, if there are any.  What a
    failed breakdown left in the cache is measured again. *)
Definition with_breakdown (statics : list Measure) (messages : list CanonicalMessage) (s : State) : Build State :=
  match token_details s with
  | None => mret s
  | Some d =>
      b ← builder_;
      '(snapshot, cache) ← lift (breakdown (used_tokens d) (max_tokens d) (token_breakdown d) statics messages (b_cache b));
      update (set_measures cache (b_statics b));;
      mret (set_token_details (Some (MkTokens (used_tokens d) (max_tokens d) (Some snapshot) (usage_tree d) (usage_snapshot_blob_id d))) s)
  end.
(** server/src/cursor/checkpoint/builder.rs:241-283, [apply_subagent_completions]: the states that have not completed are asked for. *)
Definition apply_subagent_completions (db : Db) (s : State) : State :=
  foldl apply_completion s (finished_child_runs db (unfinished_runs s)).
(** server/src/cursor/checkpoint/builder.rs:187-235, [build_state]; [now] is the clock and [db] the tables of the store. *)
Definition build_state (now : Z) (db : Db) (messages : list CanonicalMessage) (mode : Z) (pending : list str) (p : PendingSteps) : Build State :=
  update (λ b, set_base (record_background_subagents now p (base b)) b);;
  update (λ b, set_base (apply_subagent_completions db (base b)) b);;
  roots ← project_roots messages;
  turns ← project_turns mode p;
  '(todo_ids, plan_id) ← build_derived_state messages;
  update (λ b, set_base (add_paths (pending_paths p) (set_plan plan_id (set_todos todo_ids (base b)))) b);;
  b ← builder_;
  let updates := match b_parent b with
                 | Some parent => match update_current_step_state messages with Some s => [(parent, s)] | None => [] end
                 | None => []
                 end in
  let checkpoint := set_communicate_updates updates (set_mode (Some mode) (set_pending_tool_calls pending
                      (set_turns turns (set_root_prompt_messages_json roots (base b))))) in
  statics ← static_measures_;
  with_breakdown statics messages checkpoint.
(** server/src/cursor/checkpoint/builder.rs:137-145, [settled]. *)
Definition settled (now : Z) (db : Db) (messages : list CanonicalMessage) (mode : Z) (p : PendingSteps) : Build State :=
  build_state now db messages mode [] p.
(** server/src/cursor/checkpoint/builder.rs:147-166, [staged_tool_round]. *)
Definition staged_tool_round_ (now : Z) (db : Db) (stable : list CanonicalMessage) (mode : Z) (assistant : ToolRoundAssistant)
    (calls : list ToolCall) (started_at_ms : Z) (p : PendingSteps) : Build State :=
  b ← builder_;
  pending ← lift (staged_tool_round assistant calls (b_model b) (b_allowed b) (b_dynamic b) started_at_ms);
  build_state now db stable mode [pending] p.
(** server/src/cursor/checkpoint/builder.rs:168-181, [staged_final]. *)
Definition staged_final_ (now : Z) (db : Db) (stable : list CanonicalMessage) (mode : Z) (assistant : CanonicalMessage)
    (started_at_ms : Z) (p : PendingSteps) : Build State :=
  b ← builder_;
  pending ← lift (staged_final assistant (b_model b) (b_allowed b) (b_dynamic b) started_at_ms);
  build_state now db stable mode [pending] p.
(** server/src/cursor/checkpoint/builder.rs:347-383, [publish]: [conversation] is that of the transport; the trace is left out. *)
Definition publish (conversation : option (list Z)) (checkpoint : State) : Build () :=
  match conversation with
  | Some c => ids ← lift (checkpoint_blob_roots checkpoint); blob_op (λ w, (retain c ids w, Ok ()))
  | None => mret ()
  end;;
  blob_op (emit checkpoint).

(** *** Compaction *)

(** server/src/cursor/checkpoint/summary.rs:142-174, [summary_root]. *)
Definition summary_root (b : Builder) (messages : list CanonicalMessage) (summary_message_id : str) (ids : list (list Z)) : res (list Z) :=
  message ← ok_or (snd <$> list_find (λ m, message_id m = summary_message_id) messages)
              (Protocol (lit "compaction summary message is missing from the replacement: " ++ summary_message_id));
  wire ← stable_messages (b_instructions b) [message] (b_model b);
  bytes ← ok_or (last wire) (protocol "compaction summary message encoded to nothing");
  if bool_decide (digest bytes ∈ ids) then Ok (digest bytes) else Err (protocol "compaction summary message is not a checkpoint root").
(** server/src/cursor/checkpoint/summary.rs:40-49, [compacted]: the old roots that the new ones leave out. *)
Definition summarized_of (previous ids : list (list Z)) : list (list Z) :=
  List.filter (λ id, negb (bool_decide (id ∈ ids))) (drop 1 previous).
(** server/src/cursor/checkpoint/summary.rs:40-44, [compacted]: the new roots that were old ones. *)
Definition retained_of (previous ids : list (list Z)) (summary_message : list Z) : list (list Z) :=
  List.filter (λ id, negb (bool_decide (id = summary_message)) && bool_decide (id ∈ previous)) (drop 1 ids).
(** server/src/cursor/checkpoint/summary.rs:67-79, [compacted]: the edges of the archive. *)
Definition archive_edges (summarized : list (list Z)) (summary_message : list Z) : list BlobEdge :=
  ((λ p, MkEdge p.2 (lit "summarized_messages[" ++ decimal (Z.of_nat p.1) ++ lit "]")) <$> zip (seq 0 (length summarized)) summarized)
  ++ [MkEdge summary_message (lit "summary_message")].
(** server/src/cursor/checkpoint/summary.rs:98-103, [compacted]: the files of one map. *)
Definition keep_files {A} (paths : list str) (files : gmap (list Z) A) : gmap (list Z) A :=
  filter (λ p : list Z * A, normalize_path p.1 ∈ paths) files.
(** server/src/cursor/checkpoint/summary.rs:83-119, [compacted]: what becomes of the state. *)
Definition compact_state (mode : Z) (ids turns : list (list Z)) (summary_id archive_id : list Z) (paths : list str) (p : PendingSteps)
    (s : State) : State :=
  let s := add_paths (pending_paths p) s in
  let s := set_pending_tool_calls [] (set_turns turns (set_root_prompt_messages_json ids s)) in
  let s := set_file_states_v2 (keep_files paths (file_states_v2 s)) (set_file_states (keep_files paths (file_states s)) s) in
  let s := set_summary_archive (Some archive_id) (set_summary (Some summary_id) (set_mode (Some mode) s)) in
  let s := set_summary_archives (push_new archive_id (summary_archives s)) s in
  set_self_summary_count (Z.min (self_summary_count s + 1) U32_MAX) s.
(** server/src/cursor/checkpoint/summary.rs:23-134, [compacted]. *)
Definition compacted (messages : list CanonicalMessage) (mode : Z) (summary summary_message_id : str) (p : PendingSteps) : Build State :=
  b ← builder_;
  previous ← lift (mapM from_bytes (root_prompt_messages_json (base b)));
  ids ← replace_roots messages;
  summary_message ← lift (summary_root b messages summary_message_id ids);
  let summarized := summarized_of previous ids in
  summary_id ← persist_ (encode_summary summary) [];
  let archive := MkArchive summarized summary (Z.min (zlen (retained_of previous ids summary_message)) U32_MAX) summary_message in
  archive_id ← persist_ (encode_archive archive) (archive_edges summarized summary_message);
  turns ← project_turns mode p;
  update (λ b, set_base (compact_state mode ids turns summary_id archive_id (retained_file_paths messages) p (base b)) b);;
  projected ← lift (project_messages messages);
  let tokens := estimate_context_tokens (MkPrompt (b_instructions b) (b_tools b)) projected in
  update (λ b, set_base (record_context_tokens (b_max_tokens b) (Some tokens) (base b)) b);;
  statics ← static_measures_;
  b ← builder_;
  s ← with_breakdown statics messages (base b);
  update (set_base s);; mret s.

(** ** The worker *)

(** server/src/cursor/checkpoint/worker.rs:22-39, [CheckpointKind]: [compacting] holds what a compaction asks for. *)
Inductive CheckpointKind : Type :=
  | Settled (checkpoint : Z)
  | ToolStarted (round : str) (stable_checkpoint : Z)
  | ToolSettled (checkpoint : Z)
  | Final (checkpoint : Z)
  | Compaction (checkpoint : Z) (summary summary_message_id : str).
(** server/src/cursor/checkpoint/worker.rs:15-20, [CheckpointJob]; [awaited] tells whether someone waits for it. *)
Record CheckpointJob : Type := MkJob { kind : CheckpointKind; presentation : PendingSteps; context_tokens : option Z; awaited : bool }.
(** What a job answers: the result its kind carries, and what is sent to the one who waits. *)
(** server/src/cursor/checkpoint/worker.rs:41-44, [FinalCheckpoints]: with what the other channels carry. *)
Inductive JobResult : Type :=
  | FinalResult (r : res (State * State))
  | CompactionResult (r : res State)
  | ReadyResult (r : result str ()).

Context `{BS : Backend} (display : json → str).
Context (conversation : option (list Z)) (mode_ : Z).

(** server/src/cursor/checkpoint/worker.rs:155-166, [publish_settled]. *)
Definition publish_settled (now : Z) (db : Db) (id : Z) (p : PendingSteps) : Build () :=
  messages ← lift (load_checkpoint_messages db id);
  s ← settled now db messages mode_ p;
  publish conversation s.
(** server/src/cursor/checkpoint/worker.rs:168-193, [publish_started]. *)
Definition publish_started (now : Z) (db : Db) (round : str) (stable : Z) (p : PendingSteps) : Build () :=
  r ← lift (ok_or (tool_round display db round) (Errors.Store (lit "checkpoint tool round not found: " ++ round)));
  messages ← lift (load_checkpoint_messages db stable);
  s ← staged_tool_round_ now db messages mode_ (ts_assistant r) (ts_calls r) (ts_created r) p;
  publish conversation s.
(** server/src/cursor/checkpoint/worker.rs:195-214, [build_final]. *)
Definition build_final (now : Z) (db : Db) (id : Z) (p : PendingSteps) : Build (State * State) :=
  messages ← lift (load_checkpoint_messages db id);
  assistant ← lift (ok_or (last messages) (Errors.Store (lit "final checkpoint contains no assistant")));
  staged ← staged_final_ now db (removelast messages) mode_ assistant now p;
  final ← settled now db messages mode_ no_steps;
  mret (staged, final).
(** server/src/cursor/checkpoint/worker.rs:61-130, [spawn]: one job, at a time and with the tables as they are then. *)
Definition run_job (now : Z) (db : Db) (job : CheckpointJob) (s : Builder * W) : (Builder * W) * list JobResult * option Error :=
  let s := (set_base (record_context_tokens (b_max_tokens s.1) (context_tokens job) (base s.1)) s.1, s.2) in
  let '(s, results, outcome) :=
    match kind job with
    | Settled id | ToolSettled id => let '(s, r) := publish_settled now db id (presentation job) s in (s, [], r)
    | ToolStarted round stable => let '(s, r) := publish_started now db round stable (presentation job) s in (s, [], r)
    | Final id => let '(s, r) := build_final now db id (presentation job) s in (s, [FinalResult r], Ok ())
    | Compaction id summary summary_message_id =>
        let '(s, r) := (messages ← lift (load_checkpoint_messages db id);
                        compacted messages mode_ summary summary_message_id (presentation job)) s in
        (s, [CompactionResult r], Ok ())
    end in
  match outcome with
  | Ok _ => (s, results ++ (if awaited job then [ReadyResult (Ok ())] else []), None)
  | Err e => (s, results ++ (if awaited job then [ReadyResult (Err (error_display e))] else []), Some e)
  end.
(** server/src/cursor/checkpoint/worker.rs:60-141, [spawn]: the first job that fails ends the worker, and those behind it are dropped. *)
Fixpoint run_jobs (jobs : list (Z * Db * CheckpointJob)) (s : Builder * W) : (Builder * W) * list (list JobResult) * option Error :=
  match jobs with
  | [] => (s, [], None)
  | (now, db, job) :: jobs =>
      let '(s, results, failure) := run_job now db job s in
      match failure with
      | Some e => (s, [results], Some e)
      | None => let '(s, rest, failure) := run_jobs jobs s in (s, results :: rest, failure)
      end
  end.

End Builder.
