(* ===== verification/CheckpointFacts.v ===== *)
(** * CheckpointFacts: what a checkpoint holds

    Over any blobs that keep the promises of Blobs.v: the roots of a checkpoint are the messages of the conversation under their
    digests and only ever grow ([roots_track_history]), a conversation that is resumed from them shows its provider what it showed
    before ([checkpoint_resumed]), a turn names its blobs by edges, so what was published outlives the maintenance of the store
    ([published_survives]), a compaction archives what it replaces ([compaction_archived]), and the worker publishes the jobs in their
    order until the first that fails ([worker_publishes]). *)

From stdpp Require Import prelude gmap sets strings list sorting.
From S2P Require Import Prelude Errors External Json Message Tokens Usage Store StoreInvariants StoreMachine Retention CheckpointMessages Cas CheckpointState Blobs Checkpoint.
Local Open Scope Z_scope.

Section Facts.
Context {W : Type} {BW : Blobs W} {SH : Sha256} {BL : BlobsLaws W} {GC : Generated} {SJ : SerdeJson} {SS : SerdeSlice} {SN : SerdeNumber}
  {D64 : Base64Decode} {B64 : Base64}.

(** ** Steps of the builder *)

Lemma build_ok {A B} (m : Build (W := W) A) (k : A → Build B) s s' b : (m ≫= k) s = (s', Ok b) →
  ∃ s1 a, m s = (s1, Ok a) ∧ k a s1 = (s', Ok b).
Proof. unfold mbind, build_bind. destruct (m s) as [s1 [a|e]]; [|done]. eauto. Qed.
Lemma lift_ok {A} (r : res A) (s s' : Builder * W) a : lift r s = (s', Ok a) → s' = s ∧ r = Ok a.
Proof. by intros [= -> ->]. Qed.

(** A step that leaves a good store good, what was stored where it was, and the roots and the messages sent alone. *)
Definition grown (w w' : W) : Prop :=
  good (stored w) → good (stored w') ∧ keeps (stored w) (stored w') ∧ roots_kept w' = roots_kept w ∧ sent w' = sent w.
Definition safe {A} (m : Build (W := W) A) : Prop := ∀ s, grown s.2 (m s).1.2.
Lemma grown_refl w : grown w w.
Proof. intros H. split_and!; [done|apply keeps_refl|done|done]. Qed.
Lemma grown_trans a b c : grown a b → grown b c → grown a c.
Proof.
  intros H1 H2 Ha. destruct (H1 Ha) as (Hb & K1 & R1 & S1). destruct (H2 Hb) as (Hc & K2 & R2 & S2).
  split_and!; [done|by eapply keeps_trans|congruence|congruence].
Qed.
Lemma safe_bind {A B} (m : Build A) (k : A → Build B) : safe m → (∀ a, safe (k a)) → safe (m ≫= k).
Proof.
  intros Hm Hk s. unfold mbind, build_bind. specialize (Hm s). destruct (m s) as [s1 [a|e]]; [|done].
  eapply grown_trans; [exact Hm|apply Hk].
Qed.
Lemma safe_ret {A} (a : A) : safe (mret a).
Proof. intros s. apply grown_refl. Qed.
Lemma safe_lift {A} (r : res A) : safe (lift r).
Proof. intros s. apply grown_refl. Qed.
Lemma safe_builder : safe builder_.
Proof. intros s. apply grown_refl. Qed.
Lemma safe_update f : safe (update f).
Proof. intros s. apply grown_refl. Qed.
Lemma safe_persist data edges : safe (persist_ data edges).
Proof.
  intros [b w]. unfold persist_, blob_op. intros Hg. cbn [fst snd] in *. pose proof (persist_good data edges w Hg).
  by destruct (persist data edges w).
Qed.
Lemma safe_fetch id : safe (fetch_ id).
Proof.
  intros [b w]. unfold fetch_, blob_op. intros Hg. cbn [fst snd] in *. pose proof (fetch_good id w Hg). by destruct (fetch id w).
Qed.
Lemma safe_put data edges : safe (blob_op (put data edges)).
Proof.
  intros [b w]. unfold blob_op. intros Hg. cbn [fst snd] in *. pose proof (put_good data edges w Hg). by destruct (put data edges w).
Qed.
End Facts.

Create HintDb safe discriminated.
#[export] Hint Resolve safe_ret safe_lift safe_builder safe_update safe_persist safe_fetch safe_put : safe.
(** A step is safe when its parts are. *)
Ltac safe :=
  repeat first [progress intros | progress auto 2 with safe
               | lazymatch goal with |- safe (mbind _ _) => apply safe_bind end
               | lazymatch goal with |- safe (match ?x with _ => _ end) => destruct x eqn:? end].

Section Safe.
Context {W : Type} {BW : Blobs W} {SH : Sha256} {BL : BlobsLaws W} {GC : Generated} {SJ : SerdeJson} {SS : SerdeSlice} {SN : SerdeNumber}
  {D64 : Base64Decode} {B64 : Base64}.

Lemma safe_ensure_roots : safe (W := W) ensure_roots.
Proof. unfold ensure_roots. safe. Qed.
Lemma safe_push_roots ms : ∀ r, safe (W := W) (push_roots r ms).
Proof. induction ms; cbn [push_roots]; safe. Qed.
Lemma safe_project_roots ms : safe (W := W) (project_roots ms).
Proof. unfold project_roots. pose proof safe_ensure_roots. pose proof safe_push_roots. safe. Qed.
Lemma safe_replace_each ms : ∀ system, safe (W := W) (replace_each system ms).
Proof. induction ms; cbn [replace_each]; safe. Qed.
Lemma safe_replace_roots ms : safe (W := W) (replace_roots ms).
Proof. unfold replace_roots. pose proof safe_ensure_roots. pose proof safe_replace_each. safe. Qed.
Lemma safe_ensure_turn mode : safe (W := W) (ensure_turn mode).
Proof. unfold ensure_turn. safe. Qed.
Lemma safe_push_steps steps : ∀ t, safe (W := W) (push_steps t steps).
Proof. induction steps; cbn [push_steps]; safe. Qed.
Lemma safe_project_turns mode p : safe (W := W) (project_turns mode p).
Proof. unfold project_turns. pose proof (safe_ensure_turn mode). pose proof (safe_push_steps (pending_steps p)). safe. Qed.
Lemma safe_persist_unless known data : safe (W := W) (persist_unless known data).
Proof. unfold persist_unless. safe. Qed.
Lemma safe_persist_todos items : ∀ k, safe (W := W) (persist_todos k items).
Proof. pose proof safe_persist_unless. induction items; cbn [persist_todos]; safe. Qed.
Lemma safe_base_todos raws : safe (W := W) (base_todos raws).
Proof. induction raws; cbn [base_todos]; safe. Qed.
Lemma safe_derived ms : safe (W := W) (build_derived_state ms).
Proof.
  unfold build_derived_state, base_todo_state. pose proof safe_base_todos. pose proof safe_persist_todos. pose proof safe_persist_unless. safe.
Qed.
Lemma safe_statics : safe (W := W) static_measures_.
Proof. unfold static_measures_. safe. Qed.
Lemma safe_breakdown statics ms s : safe (W := W) (with_breakdown statics ms s).
Proof. unfold with_breakdown. safe. Qed.
Lemma safe_build_state now db ms mode pending p : safe (W := W) (build_state now db ms mode pending p).
Proof.
  unfold build_state. pose proof (safe_project_roots ms). pose proof (safe_project_turns mode p). pose proof (safe_derived ms).
  pose proof safe_statics. pose proof safe_breakdown. safe.
Qed.
Lemma safe_compacted ms mode sum id p : safe (W := W) (compacted ms mode sum id p).
Proof.
  unfold compacted. pose proof (safe_replace_roots ms). pose proof (safe_project_turns mode p). pose proof safe_statics.
  pose proof safe_breakdown. safe.
Qed.
Lemma safe_hydrate raws : ∀ k, safe (W := W) (hydrate_from k raws).
Proof. induction raws; cbn [hydrate_from]; safe. Qed.
End Safe.

(** ** What a step leaves alone *)

Section Frames.
Context {W : Type} {BW : Blobs W} {SH : Sha256} {GC : Generated} {SJ : SerdeJson} {SS : SerdeSlice} {SN : SerdeNumber}
  {D64 : Base64Decode} {B64 : Base64}.

Definition frames {X A} (f : Builder → X) (m : Build (W := W) A) : Prop := ∀ s, f (m s).1.1 = f s.1.
Lemma frame_bind {X A B} (f : Builder → X) (m : Build A) (k : A → Build B) : frames f m → (∀ a, frames f (k a)) → frames f (m ≫= k).
Proof.
  intros Hm Hk s. unfold mbind, build_bind. specialize (Hm s). destruct (m s) as [s1 [a|e]]; [|done]. cbn [fst] in Hm. by rewrite Hk.
Qed.
Lemma frame_ret {X A} (f : Builder → X) (a : A) : frames f (mret a).
Proof. by intros s. Qed.
Lemma frame_lift {X A} (f : Builder → X) (r : res A) : frames f (lift r).
Proof. by intros s. Qed.
Lemma frame_builder {X} (f : Builder → X) : frames f builder_.
Proof. by intros s. Qed.
Lemma frame_update {X} (f : Builder → X) g : (∀ b, f (g b) = f b) → frames f (update g).
Proof. intros H s. apply H. Qed.
Lemma frame_op {X A} (f : Builder → X) (op : W → W * res A) : frames f (blob_op op).
Proof. intros [b w]. unfold blob_op. cbn. by destruct (op w). Qed.
End Frames.

Create HintDb frames discriminated.
#[export] Hint Resolve frame_ret frame_lift frame_builder frame_op : frames.
(** A step leaves alone what its parts leave alone. *)
Ltac frame :=
  unfold persist_, fetch_ in *;
  repeat first [progress intros | progress auto 2 with frames
               | lazymatch goal with |- frames _ (mbind _ _) => apply frame_bind end
               | lazymatch goal with |- frames _ (update _) => apply frame_update; by intros end
               | lazymatch goal with |- frames _ (match ?x with _ => _ end) => destruct x eqn:? end].


Section FrameFacts.
Context {W : Type} {BW : Blobs W} {SH : Sha256} {GC : Generated} {SJ : SerdeJson} {SS : SerdeSlice} {SN : SerdeNumber}
  {D64 : Base64Decode} {B64 : Base64}.
Lemma frame_ensure_roots {X} (f : Builder → X) : (∀ r b, f (set_roots r b) = f b) → frames (W := W) f ensure_roots.
Proof. intros Hf. unfold ensure_roots. frame. Qed.
Lemma frame_push_roots {X} (f : Builder → X) ms : (∀ r b, f (set_roots r b) = f b) → ∀ r, frames (W := W) f (push_roots r ms).
Proof. intros Hf. induction ms; cbn [push_roots]; frame. Qed.
Lemma frame_project_roots {X} (f : Builder → X) ms : (∀ r b, f (set_roots r b) = f b) → frames (W := W) f (project_roots ms).
Proof.
  intros Hf. unfold project_roots. pose proof (frame_ensure_roots f Hf). pose proof (λ ms, frame_push_roots f ms Hf). frame.
Qed.
Lemma frame_replace_each {X} (f : Builder → X) ms : ∀ system, frames (W := W) f (replace_each system ms).
Proof. induction ms; cbn [replace_each]; frame. Qed.
Lemma frame_replace_roots {X} (f : Builder → X) ms : (∀ r b, f (set_roots r b) = f b) → frames (W := W) f (replace_roots ms).
Proof.
  intros Hf. unfold replace_roots. pose proof (frame_ensure_roots f Hf). pose proof (λ s, frame_replace_each f s). frame.
Qed.
Lemma frame_ensure_turn {X} (f : Builder → X) mode : (∀ t b, f (set_turn t b) = f b) → frames (W := W) f (ensure_turn mode).
Proof. intros Hf. unfold ensure_turn. frame. Qed.
Lemma frame_push_steps {X} (f : Builder → X) steps : (∀ t b, f (set_turn t b) = f b) → ∀ t, frames (W := W) f (push_steps t steps).
Proof. intros Hf. induction steps; cbn [push_steps]; frame. Qed.
Lemma frame_project_turns {X} (f : Builder → X) mode p : (∀ t b, f (set_turn t b) = f b) → frames (W := W) f (project_turns mode p).
Proof.
  intros Hf. unfold project_turns. pose proof (frame_ensure_turn f mode Hf). pose proof (λ s, frame_push_steps f s Hf). frame.
Qed.
Lemma frame_persist_unless {X} (f : Builder → X) known data : frames (W := W) f (persist_unless known data).
Proof. unfold persist_unless. frame. Qed.
Lemma frame_persist_todos {X} (f : Builder → X) items : ∀ k, frames (W := W) f (persist_todos k items).
Proof. pose proof (frame_persist_unless f). induction items; cbn [persist_todos]; frame. Qed.
Lemma frame_base_todos {X} (f : Builder → X) raws : frames (W := W) f (base_todos raws).
Proof. induction raws; cbn [base_todos]; frame. Qed.
Lemma frame_derived {X} (f : Builder → X) ms : frames (W := W) f (build_derived_state ms).
Proof.
  unfold build_derived_state, base_todo_state. pose proof (frame_base_todos f). pose proof (frame_persist_todos f).
  pose proof (frame_persist_unless f). frame.
Qed.
Lemma frame_statics {X} (f : Builder → X) : (∀ c ms b, f (set_measures c ms b) = f b) → frames (W := W) f static_measures_.
Proof. intros Hf. unfold static_measures_. frame. Qed.
Lemma frame_breakdown {X} (f : Builder → X) statics ms s : (∀ c ms b, f (set_measures c ms b) = f b) →
  frames (W := W) f (with_breakdown statics ms s).
Proof. intros Hf. unfold with_breakdown. frame. Qed.
End FrameFacts.

(** ** The roots *)

Section Roots.
Context {W : Type} {BW : Blobs W} {SH : Sha256} {BL : BlobsLaws W} {GC : Generated} {SJ : SerdeJson} {SS : SerdeSlice} {SN : SerdeNumber}
  {D64 : Base64Decode} {B64 : Base64}.

(** The roots that were generated here are the digests of their messages, and stored. *)
Definition frontier_ok (r : RootFrontier) (db : Cas) : Prop :=
  length (root_ids r) = (base_count r + length (generated r))%nat ∧ drop (base_count r) (root_ids r) = digest <$> generated r ∧
  Forall (is_stored db) (digest <$> generated r).
Definition roots_ok (s : Builder * W) : Prop := match roots s.1 with None => True | Some r => frontier_ok r (stored s.2) end.
(** The roots there are: those of the frontier, or those the base names. *)
Definition roots_of (b : Builder) : list (list Z) :=
  match roots b with Some r => root_ids r | None => root_prompt_messages_json (base b) end.

Lemma frontier_keeps r db db' : keeps db db' → frontier_ok r db → frontier_ok r db'.
Proof. intros Hk (H1 & H2 & H3). split_and!; [done|done|]. eapply Forall_impl; [exact H3|]. intros id. by apply keeps_stored. Qed.

Lemma from_bytes_same raw id : from_bytes raw = Ok id → id = raw.
Proof. unfold from_bytes. destruct (_ =? _); [|done]. intros H. by apply ok_inj in H. Qed.
Lemma from_bytes_all raws ids : mapM from_bytes raws = Ok ids → ids = raws.
Proof.
  revert ids. induction raws as [|raw raws IH]; intros ids H; cbn [mapM] in H; [by apply ok_inj in H|].
  apply bind_ok in H as (id & Hid & H). apply bind_ok in H as (rest & Hr & H). apply ok_inj in H as <-.
  apply from_bytes_same in Hid as ->. by rewrite (IH _ Hr).
Qed.

Lemma ensure_roots_spec s s' r : roots_ok s → ensure_roots s = (s', Ok r) →
  s'.2 = s.2 ∧ roots s'.1 = Some r ∧ frontier_ok r (stored s.2) ∧ root_ids r = roots_of s.1 ∧ base s'.1 = base s.1 ∧
  (roots s.1 = None → generated r = []) ∧ (roots s.1 = Some r ∨ roots s.1 = None).
Proof.
  destruct s as [b w]. unfold ensure_roots, roots_ok, roots_of. intros Hok H. apply build_ok in H as (s1 & b' & [= <- <-] & H).
  cbn [fst snd] in *. destruct (roots b) as [r'|] eqn:E.
  - injection H as <- <-. cbn. split_and!; try done. by left.
  - apply build_ok in H as (s1 & ids & (-> & Hids)%lift_ok & H). apply build_ok in H as (s2 & u & [= <- <-] & [= <- <-]).
    apply from_bytes_all in Hids as ->. split_and!; try done; [|by right]. split_and!; cbn; [lia|by rewrite drop_all|constructor].
Qed.

Lemma first_changed_none index gs messages : first_changed index gs messages = None →
  ∀ k g, gs !! k = Some g → messages !! (index + k)%nat = Some g.
Proof.
  revert index. induction gs as [|g gs IH]; intros index H k x Hk; [done|]. cbn [first_changed] in H. case_bool_decide as E; [|done].
  destruct k as [|k]; cbn in Hk; [injection Hk as <-; by rewrite Nat.add_0_r|]. rewrite <- Nat.add_succ_comm. by apply (IH (S index)).
Qed.
Lemma persist_id data edges s s' id : good (stored s.2) → persist_ data edges s = (s', Ok id) →
  s'.1 = s.1 ∧ put_ok data edges (stored s.2) (stored s'.2) id.
Proof.
  destruct s as [b w]. unfold persist_, blob_op. cbn [fst snd]. intros Hg. destruct (persist data edges w) as [w' r] eqn:E.
  intros [= <- ->]. split; [done|]. by eapply persist_ok.
Qed.

Lemma push_roots_spec ms : ∀ r s s' r', good (stored s.2) → frontier_ok r (stored s.2) → roots s.1 = Some r →
  push_roots r ms s = (s', Ok r') →
  frontier_ok r' (stored s'.2) ∧ roots s'.1 = Some r' ∧ root_ids r' = root_ids r ++ (digest <$> ms) ∧
  generated r' = generated r ++ ms ∧ base_count r' = base_count r ∧ base s'.1 = base s.1.
Proof.
  induction ms as [|m ms IH]; intros r s s' r' Hg Hf Hr H; cbn [push_roots] in H.
  - injection H as <- <-. by rewrite !app_nil_r.
  - apply build_ok in H as (s1 & id & Hp & H). pose proof (safe_persist m [] s Hg) as (Hg1 & Hk & _). rewrite Hp in Hg1, Hk. cbn [fst snd] in Hg1, Hk.
    destruct (persist_id _ _ _ _ _ Hg Hp) as [Hb (-> & Hst & _)]. apply build_ok in H as (s2 & u & [= <- <-] & H).
    set (r1 := MkRoots _ _ _) in H. assert (frontier_ok r1 (stored s1.2)) as Hf1.
    { destruct (frontier_keeps _ _ _ Hk Hf) as (F1 & F2 & F3). unfold frontier_ok, r1. cbn. split_and!.
      - rewrite !length_app, F1. cbn. lia.
      - rewrite drop_app_le by lia. by rewrite F2, fmap_app.
      - rewrite fmap_app. apply Forall_app. split; [done|]. by repeat constructor. }
    destruct (IH r1 (set_roots (Some r1) s1.1, s1.2) s' r' Hg1 Hf1 eq_refl H) as (H1 & H2 & H3 & H4 & H5 & H6). split_and!; try done.
    + rewrite H3. unfold r1. cbn. by rewrite <- app_assoc.
    + rewrite H4. unfold r1. cbn. by rewrite <- app_assoc.
    + rewrite H6. cbn. by rewrite Hb.
Qed.

Lemma wire_of_projection s s1 wire messages : lift (W := W) (stable_messages (b_instructions s.1) messages (b_model s.1)) s = (s1, Ok wire) →
  s1 = s ∧ stable_messages (b_instructions s.1) messages (b_model s.1) = Ok wire.
Proof. apply lift_ok. Qed.

(** What a successful projection gives; the system prompt is the only root that may change. *)
Lemma project_roots_spec messages s s' ids : good (stored s.2) → roots_ok s → project_roots messages s = (s', Ok ids) →
  ∃ wire r, stable_messages (b_instructions s.1) messages (b_model s.1) = Ok wire ∧ length ids = length wire ∧
    roots s'.1 = Some r ∧ root_ids r = ids ∧ frontier_ok r (stored s'.2) ∧ base s'.1 = base s.1 ∧
    (∀ r0, roots s.1 = Some r0 → base_count r = base_count r0) ∧ (roots s.1 = None → base_count r = length (roots_of s.1)) ∧
    drop (base_count r) ids = digest <$> drop (base_count r) wire ∧
    (0 < length wire → ids !! 0 = digest <$> wire !! 0)%nat ∧
    ∀ i id, (0 < i)%nat → roots_of s.1 !! i = Some id → ids !! i = Some id.
Proof.
  intros Hg Hok H. unfold project_roots in H. apply build_ok in H as (s0 & b & [= <- <-] & H).
  apply build_ok in H as (s1 & wire & (-> & Hwire)%lift_ok & H). apply build_ok in H as (s1 & r & He & H).
  pose proof (safe_ensure_roots s Hg) as (Hg1 & Hk1 & _). rewrite He in Hg1, Hk1. cbn [fst] in Hg1, Hk1.
  destruct (ensure_roots_spec s s1 r Hok He) as (Ew & Er & Hf & Eids & Ebase & Hgen & Hprev).
  apply build_ok in H as (s2 & r2 & Hsys & H).
  (* the system prompt *)
  assert (good (stored s2.2) ∧ frontier_ok r (stored s2.2) ∧ roots s2.1 = Some r2 ∧ base s2.1 = base s.1 ∧ generated r2 = generated r ∧
    base_count r2 = base_count r ∧ length (root_ids r2) = length (root_ids r) ∧
    (∀ i, (0 < i)%nat → root_ids r2 !! i = root_ids r !! i) ∧
    (∀ x y, root_ids r2 !! 0%nat = Some x → wire !! 0%nat = Some y → x = digest y)) as (Hg2 & Hf2 & Hr2 & Hb2 & Hgen2 & Hbc & Hlen & Hrest & Hfirst).
  { unfold changed_system_root in Hsys. destruct (root_ids r) as [|x ids0] eqn:Ei.
    { injection Hsys as <- <-. rewrite Ew in *. split_and!; try done; by rewrite ?Ei. }
    destruct wire as [|m wire']; [injection Hsys as <- <-; rewrite Ew in *; split_and!; try done; by rewrite ?Ei|].
    case_bool_decide as Ex.
    - injection Hsys as <- <-. rewrite Ew in *. rewrite Ei. split_and!; try done. intros ? ? [= <-] [= <-]. done.
    - apply build_ok in Hsys as (s3 & id & Hp & Hsys). pose proof (safe_persist m [] s1 Hg1) as (Hg3 & Hk3 & _).
      rewrite Hp in Hg3, Hk3. cbn [fst] in Hg3, Hk3. destruct (persist_id _ _ _ _ _ Hg1 Hp) as [Hb3 (-> & Hst3 & _)].
      apply build_ok in Hsys as (s4 & u & [= <- <-] & [= <- <-]). cbn. rewrite Hb3, Ebase.
      split_and!; try done.
      + eapply frontier_keeps; [exact Hk3|]. by rewrite Ew.
      + intros i Hi. by destruct i; [lia|].
      + intros ? ? [= <-] [= <-]. done. }
  destruct (Nat.ltb_spec (length wire) (length (root_ids r2))) as [|Hle]; [done|].
  destruct (first_changed _ _ _) eqn:Efc; [done|]. apply build_ok in H as (s5 & r5 & Hpush & H). injection H as <- <-.
  pose proof (first_changed_none _ _ _ Efc) as Hsame. rewrite Hbc, Hgen2 in Hsame.
  assert (drop (base_count r) (root_ids r2) = digest <$> generated r) as Hd2.
  { destruct Hf as (F1 & F2 & F3). rewrite <- F2. apply list.list_eq. intros i. rewrite !lookup_drop.
    destruct (decide (0 < base_count r + i)%nat) as [Hi|Hi]; [by apply Hrest|]. assert (base_count r = 0 ∧ i = 0)%nat as [E1 ->] by lia.
    rewrite E1, Nat.add_0_r. destruct (root_ids r2 !! 0%nat) as [x|] eqn:Ex.
    - assert (is_Some (generated r !! 0%nat)) as [g Eg]. { apply lookup_lt_is_Some_2. apply lookup_lt_Some in Ex. lia. }
      pose proof (Hsame 0%nat g Eg) as Hw. rewrite E1 in Hw. cbn in Hw. rewrite (Hfirst x g eq_refl Hw). rewrite E1 in F2.
      rewrite drop_0 in F2. by rewrite F2, list_lookup_fmap, Eg.
    - apply lookup_ge_None in Ex. symmetry. apply lookup_ge_None. lia. }
  assert (frontier_ok r2 (stored s2.2)) as Hf2'.
  { destruct Hf2 as (F1 & F2 & F3). unfold frontier_ok. rewrite Hbc, Hgen2. split_and!; [by rewrite Hlen|done|done]. }
  destruct (push_roots_spec _ r2 s2 s5 r5 Hg2 Hf2' Hr2 Hpush) as (H1 & H2 & H3 & H4 & H5 & H6).
  assert (length (root_ids r5) = length wire) as Hlen5. { rewrite H3, length_app, length_fmap, length_drop. lia. }
  exists wire, r5. split_and!; try done.
  - by rewrite H6.
  - intros r0 E0. rewrite H5, Hbc. destruct Hprev as [Hp|Hp]; congruence.
  - intros E0. rewrite H5, Hbc. destruct Hf as (F1 & _). rewrite (Hgen E0) in F1. cbn in F1. rewrite <- Eids. lia.
  - destruct H1 as (F1 & F2 & _). rewrite F2, H5, Hbc. f_equal. rewrite H4, Hgen2. apply list.list_eq. intros i. rewrite lookup_drop.
    destruct Hf as (G1 & _ & _). rewrite H4, Hgen2 in F1. destruct (decide (i < length (generated r))%nat) as [Hi|Hi].
    + rewrite lookup_app_l by done. destruct (generated r !! i) as [g|] eqn:Eg; [|apply lookup_ge_None in Eg; lia]. symmetry. by apply Hsame.
    + rewrite lookup_app_r, lookup_drop by lia. f_equal. lia.
  - intros Hw. destruct (wire !! 0%nat) as [m|] eqn:Em; [|apply lookup_ge_None in Em; lia]. cbn.
    rewrite H3. destruct (root_ids r2) as [|x ids0] eqn:Ei; [cbn; destruct wire; [done|]; by injection Em as <-|].
    cbn. f_equal. by apply Hfirst.
  - intros i id Hi Hid. rewrite <- Eids, <- Hrest in Hid by done. rewrite H3. by apply lookup_app_l_Some.
Qed.
End Roots.

(** ** The parts of a checkpoint *)

Section Parts.
Context {W : Type} {BW : Blobs W} {SH : Sha256} {BL : BlobsLaws W} {GC : Generated} {SJ : SerdeJson} {SS : SerdeSlice} {SN : SerdeNumber}
  {D64 : Base64Decode} {B64 : Base64}.

(** What the children and the background agents change of a state is not its roots or turns. *)
Definition same_frontier (a b : State) : Prop := root_prompt_messages_json a = root_prompt_messages_json b ∧ turns a = turns b.
Lemma record_background_frontier now p s : same_frontier (record_background_subagents now p s) s.
Proof.
  unfold record_background_subagents. generalize (pending_steps p) as steps. intros steps. revert s.
  induction steps as [|step steps IH]; intros s; [done|]. cbn [foldl]. destruct (IH (record_background_step now s step)) as [E1 E2].
  unfold same_frontier. rewrite E1, E2. clear. unfold record_background_step.
  destruct step as [| |[? ? ? [[|[args|] [success|]|]|]]]; try done. destruct (is_background success); [|done].
  by repeat case_match.
Qed.
Lemma apply_completions_frontier db s : same_frontier (apply_subagent_completions db s) s.
Proof.
  unfold apply_subagent_completions. generalize (finished_child_runs db (unfinished_runs s)) as l. intros l. revert s.
  induction l as [|x l IH]; intros s; [done|]. cbn [foldl]. destruct (IH (apply_completion s x)) as [E1 E2].
  unfold same_frontier. rewrite E1, E2. unfold apply_completion. destruct x as [[id e] at_]. destruct (subagent_runs s !! id); [|done].
  by destruct (bool_decide _).
Qed.
(** The builder with what the children report. *)
Definition refreshed (now : Z) (db : Db) (p : PendingSteps) (b : Builder) : Builder :=
  set_base (apply_subagent_completions db (record_background_subagents now p (base b))) b.
Lemma refreshed_frontier now db p b : same_frontier (base (refreshed now db p b)) (base b).
Proof.
  destruct (apply_completions_frontier db (record_background_subagents now p (base b))) as [E1 E2].
  destruct (record_background_frontier now p (base b)) as [E3 E4]. split; cbn; congruence.
Qed.

Lemma with_breakdown_ok statics ms st s s' st' : with_breakdown (W := W) statics ms st s = (s', Ok st') →
  ∃ d, st' = set_token_details d st.
Proof.
  unfold with_breakdown. destruct (token_details st) as [d|] eqn:E.
  - intros H. apply build_ok in H as (s1 & b & _ & H). apply build_ok in H as (s2 & [snapshot cache] & _ & H).
    apply build_ok in H as (s3 & u & _ & [= _ <-]). by eexists.
  - intros [= _ <-]. exists None. by destruct st; cbn in E; subst.
Qed.

(** A step that went well, and what it leaves alone. *)
Lemma step_frame {X A} (f : Builder → X) (m : Build (W := W) A) s s' r : frames f m → m s = (s', r) → f s'.1 = f s.1.
Proof. intros H E. pose proof (H s) as Hs. by rewrite E in Hs. Qed.
Lemma step_safe {A} (m : Build (W := W) A) s s' r : safe m → m s = (s', r) → grown s.2 s'.2.
Proof. intros H E. pose proof (H s) as Hs. by rewrite E in Hs. Qed.

Lemma build_state_parts now db ms mode_ pending p s s' st : build_state now db ms mode_ pending p s = (s', Ok st) →
  ∃ s1 s2 s3, project_roots ms (refreshed now db p s.1, s.2) = (s1, Ok (root_prompt_messages_json st)) ∧
    project_turns mode_ p s1 = (s2, Ok (turns st)) ∧ build_derived_state ms s2 = (s3, Ok (todos st, plan st)) ∧
    grown s1.2 s'.2 ∧ grown s2.2 s'.2 ∧ roots s'.1 = roots s1.1 ∧ turn s'.1 = turn s2.1 ∧
    pending_tool_calls st = pending ∧ mode st = Some mode_ ∧ summary_archives st = summary_archives (base (refreshed now db p s.1)) ∧
    (∃ known, read_paths st = foldl (λ known path, push_new path known) known (pending_paths p)) ∧ turns (base s'.1) = turns (base s.1).
Proof.
  unfold build_state. intros H. apply build_ok in H as (sa & ua & [= <- <-] & H). apply build_ok in H as (sb & ub & [= <- <-] & H).
  cbn [fst snd] in H. apply build_ok in H as (s1 & rs & Hr & H). apply build_ok in H as (s2 & ts & Ht & H).
  apply build_ok in H as (s3 & [todo_ids plan_id] & Hd & H). apply build_ok in H as (s4 & u4 & [= <- <-] & H).
  apply build_ok in H as (s5 & b & [= <- <-] & H). cbn [fst snd] in H. apply build_ok in H as (s6 & statics & Hs & H).
  destruct (with_breakdown_ok _ _ _ _ _ _ H) as [d ->]. exists s1, s2, s3.
  pose proof (step_safe _ _ _ _ (safe_project_turns mode_ p) Ht) as G1. pose proof (step_safe _ _ _ _ (safe_derived ms) Hd) as G2.
  pose proof (step_safe _ _ _ _ safe_statics Hs) as G3. pose proof (step_safe _ _ _ _ (safe_breakdown statics ms _) H) as G4. cbn [fst snd] in G3.
  assert (grown s2.2 s'.2) as G by (eapply grown_trans; [exact G2|eapply grown_trans; [exact G3|exact G4]]).
  split_and!; try done.
  - by eapply grown_trans.
  - rewrite (step_frame roots _ _ _ _ (frame_breakdown roots statics ms _ (λ _ _ _, eq_refl)) H).
    rewrite (step_frame roots _ _ _ _ (frame_statics roots (λ _ _ _, eq_refl)) Hs). cbn.
    rewrite (step_frame roots _ _ _ _ (frame_derived roots ms) Hd).
    by rewrite (step_frame roots _ _ _ _ (frame_project_turns roots mode_ p (λ _ _, eq_refl)) Ht).
  - rewrite (step_frame turn _ _ _ _ (frame_breakdown turn statics ms _ (λ _ _ _, eq_refl)) H).
    rewrite (step_frame turn _ _ _ _ (frame_statics turn (λ _ _ _, eq_refl)) Hs). cbn.
    by rewrite (step_frame turn _ _ _ _ (frame_derived turn ms) Hd).
  - cbn. rewrite (step_frame base _ _ _ _ (frame_derived base ms) Hd).
    rewrite (step_frame base _ _ _ _ (frame_project_turns base mode_ p (λ _ _, eq_refl)) Ht).
    by rewrite (step_frame base _ _ _ _ (frame_project_roots base ms (λ _ _, eq_refl)) Hr).
  - by eexists.
  - rewrite (step_frame base _ _ _ _ (frame_breakdown base statics ms _ (λ _ _ _, eq_refl)) H).
    rewrite (step_frame base _ _ _ _ (frame_statics base (λ _ _ _, eq_refl)) Hs). cbn.
    rewrite (step_frame base _ _ _ _ (frame_derived base ms) Hd).
    rewrite (step_frame base _ _ _ _ (frame_project_turns base mode_ p (λ _ _, eq_refl)) Ht).
    rewrite (step_frame base _ _ _ _ (frame_project_roots base ms (λ _ _, eq_refl)) Hr). apply (refreshed_frontier now db p s.1).
Qed.

(** The first root that was generated here. *)
Definition own_from (b : Builder) : nat := match roots b with Some r => base_count r | None => length (root_prompt_messages_json (base b)) end.

Lemma build_state_roots now db ms mode_ pending p s s' st : good (stored s.2) → roots_ok s →
  build_state now db ms mode_ pending p s = (s', Ok st) →
  ∃ wire, stable_messages (b_instructions s.1) ms (b_model s.1) = Ok wire ∧
    length (root_prompt_messages_json st) = length wire ∧
    (∀ i, i = 0%nat ∨ (own_from s.1 ≤ i)%nat → (i < length wire)%nat → root_prompt_messages_json st !! i = digest <$> wire !! i) ∧
    (∀ i id, (own_from s.1 ≤ i)%nat → root_prompt_messages_json st !! i = Some id → is_stored (stored s'.2) id) ∧
    (∀ i id, (0 < i)%nat → roots_of s.1 !! i = Some id → root_prompt_messages_json st !! i = Some id) ∧
    good (stored s'.2) ∧ roots_ok s' ∧ roots_of s'.1 = root_prompt_messages_json st ∧ own_from s'.1 = own_from s.1.
Proof.
  intros Hg Hok H. destruct (build_state_parts _ _ _ _ _ _ _ _ _ H) as (s1 & s2 & s3 & Hr & _ & _ & G & _ & Hroots & _).
  set (s0 := (refreshed now db p s.1, s.2)) in *. destruct (refreshed_frontier now db p s.1) as [Eb _].
  assert (roots_of s0.1 = roots_of s.1) as Ero by (unfold roots_of, s0; cbn; by destruct (roots s.1); [|rewrite <- Eb]).
  pose proof (step_safe _ _ _ _ (safe_project_roots ms) Hr Hg) as (Hg1 & _).
  destruct (project_roots_spec ms s0 s1 _ Hg Hok Hr) as (wire & r & Hw & Hlen & Hr1 & Hids & Hf & Hbase & Hold & Hnew & Hown & Hsys & Hkeep).
  assert (base_count r = own_from s.1) as Ebc.
  { unfold own_from. destruct (roots s.1) as [r0|] eqn:E0; [by apply Hold|]. rewrite Hnew by done. by rewrite Ero; unfold roots_of; rewrite E0. }
  destruct (G Hg1) as (Hg' & Hk & _). exists wire. split_and!; try done.
  - intros i [->|Hi] Hl; [apply Hsys; lia|]. replace i with (base_count r + (i - base_count r))%nat by lia.
    rewrite <- !lookup_drop. rewrite Hown. apply list_lookup_fmap.
  - intros i id Hi Hid. apply (keeps_stored _ _ id Hk). destruct Hf as (F1 & F2 & F3). rewrite Hids in F2. rewrite <- F2 in F3.
    rewrite Forall_lookup in F3. apply (F3 (i - base_count r)%nat). rewrite lookup_drop. rewrite <- Hid. f_equal. lia.
  - intros i id Hi Hid. apply Hkeep; [done|]. by rewrite Ero.
  - unfold roots_ok. rewrite Hroots, Hr1. by eapply frontier_keeps.
  - unfold roots_of. by rewrite Hroots, Hr1.
  - unfold own_from at 1. by rewrite Hroots, Hr1.
Qed.
(** Where every root was written here: the digests of the whole history. *)
Lemma project_roots_digests now db ms mode_ pending p s s' st : good (stored s.2) → roots_ok s → own_from s.1 = 0%nat →
  build_state now db ms mode_ pending p s = (s', Ok st) →
  ∃ wire, stable_messages (b_instructions s.1) ms (b_model s.1) = Ok wire ∧ root_prompt_messages_json st = digest <$> wire ∧
    Forall (λ m, is_stored (stored s'.2) (digest m)) wire.
Proof.
  intros Hg Hok Hown H. destruct (build_state_roots _ _ _ _ _ _ _ _ _ Hg Hok H) as (wire & Hw & Hlen & Hids & Hst & _). rewrite Hown in *.
  assert (root_prompt_messages_json st = digest <$> wire) as E.
  { apply list.list_eq. intros i. rewrite list_lookup_fmap. destruct (decide (i < length wire)%nat); [apply Hids; [right|]; lia|].
    rewrite !(proj2 (lookup_ge_None _ _)) by lia. done. }
  exists wire. split_and!; [done|done|]. apply Forall_lookup. intros i m Hi. apply (Hst i); [lia|]. by rewrite E, list_lookup_fmap, Hi.
Qed.

(** The roots of a checkpoint are the history it is built from: one per message of the wire form, the system prompt first; each root
    that this builder wrote, and the system prompt, is the digest of its message and what the builder wrote is in the store; every root
    that was there before stays where it was, the system prompt apart.  The builder is left so that the same holds of its next
    checkpoint. *)
Theorem roots_track_history now db ms mode_ pending p s s' st : good (stored s.2) → roots_ok s →
  build_state now db ms mode_ pending p s = (s', Ok st) →
  ∃ wire, stable_messages (b_instructions s.1) ms (b_model s.1) = Ok wire ∧
    length (root_prompt_messages_json st) = length wire ∧
    (∀ i, i = 0%nat ∨ (own_from s.1 ≤ i)%nat → (i < length wire)%nat → root_prompt_messages_json st !! i = digest <$> wire !! i) ∧
    (∀ i id, (own_from s.1 ≤ i)%nat → root_prompt_messages_json st !! i = Some id → is_stored (stored s'.2) id) ∧
    (∀ i id, (0 < i)%nat → roots_of s.1 !! i = Some id → root_prompt_messages_json st !! i = Some id) ∧
    good (stored s'.2) ∧ roots_ok s' ∧ roots_of s'.1 = root_prompt_messages_json st ∧ own_from s'.1 = own_from s.1.
Proof. apply build_state_roots. Qed.
End Parts.

(** ** Resuming a conversation *)

Section Resume.
Context {W : Type} {BW : Blobs W} {SH : Sha256} {BL : BlobsLaws W} {GC : Generated} {SJ : SerdeJson} {SS : SerdeSlice} {SN : SerdeNumber}
  {D64 : Base64Decode} {B64 : Base64}.
(** SHA-256 has 32 bytes. *)
Context (digest_length : ∀ data, zlen (digest data) = 32).
Hypothesis decode_encode64 : ∀ data, decode64 (encode64 data) = Ok data.
Hypothesis replay_of_replay_json : ∀ state, replay_of_json (replay_json state) = Ok state.

Lemma colon_not_decimal n : 58 ∉ decimal (Z.of_nat n).
Proof. intros Hin%decimal_digits; lia. Qed.
Lemma root_message_id_inj a b i j : root_message_id a i = root_message_id b j → i = j.
Proof.
  unfold root_message_id. intros H. change (lit ":" ++ decimal (Z.of_nat i)) with (58 :: decimal (Z.of_nat i)) in H.
  change (lit ":" ++ decimal (Z.of_nat j)) with (58 :: decimal (Z.of_nat j)) in H. rewrite !(assoc app) in H.
  apply after_last in H; [|apply colon_not_decimal..]. apply decimal_inj in H; lia.
Qed.
(** The ids of the messages that are restored from these roots. *)
Definition restored_ids (k : nat) (raws : list (list Z)) : list (list Z) := zip_with root_message_id raws (seq k (length raws)).
Lemma restored_ids_elem k raws x : x ∈ restored_ids k raws → ∃ raw i, (k ≤ i)%nat ∧ x = root_message_id raw i.
Proof.
  unfold restored_ids. revert k. induction raws as [|raw raws IH]; intros k H; cbn in H; [by apply not_elem_of_nil in H|].
  apply elem_of_cons in H as [->|H]; [by exists raw, k|]. destruct (IH _ H) as (r & i & Hi & ->). exists r, i. split; [lia|done].
Qed.
Lemma restored_ids_nodup k raws : NoDup (restored_ids k raws) ∧ length (restored_ids k raws) = length raws.
Proof.
  revert k. induction raws as [|raw raws IH]; intros k; [split; [constructor|done]|]. destruct (IH (S k)) as [IH1 IH2].
  change (restored_ids k (raw :: raws)) with (root_message_id raw k :: restored_ids (S k) raws). split; [|cbn; by rewrite IH2].
  constructor; [|done]. intros H. apply restored_ids_elem in H as (r & i & Hi & E). apply root_message_id_inj in E. lia.
Qed.

(** What is hydrated from roots that are stored: the messages that their bytes decode to. *)
(** A message is stored under its digest. *)
Definition holds (db : Cas) (m : list Z) : Prop := ∃ row, blobs db !! digest m = Some row ∧ blob_data row = m.
Lemma keeps_holds db db' m : keeps db db' → holds db m → holds db' m.
Proof. intros [Hk _] (row & H & E). destruct (Hk _ _ H) as (row' & H' & E'). exists row'. split; [done|congruence]. Qed.
Lemma hydrate_from_stored wire messages : ∀ k s, good (stored s.2) → Forall (holds (stored s.2)) wire →
  mapM (λ p, decode p.1 p.2) (zip wire (restored_ids k (digest <$> wire))) = Ok messages →
  ∃ s', hydrate_from k (digest <$> wire) s = (s', Ok messages).
Proof.
  revert messages. induction wire as [|m wire IH]; intros messages k s Hg Hst H.
  - cbn in H. apply ok_inj in H as <-. by exists s.
  - change (restored_ids k (digest <$> m :: wire)) with (root_message_id (digest m) k :: restored_ids (S k) (digest <$> wire)) in H.
    cbn [zip zip_with mapM fst snd] in H. apply bind_ok in H as (x & Hx & H). apply bind_ok in H as (xs & Hxs & H). apply ok_inj in H as <-.
    apply Forall_cons in Hst as [(row & Hrow & Hm) Hst]. cbn [fmap list_fmap hydrate_from].
    assert (from_bytes (digest m) = Ok (digest m)) as Hb by (unfold from_bytes; by rewrite digest_length).
    unfold mbind at 1, build_bind at 1, lift at 1. rewrite Hb. destruct s as [b w]. cbn [snd] in *.
    unfold mbind at 1, build_bind at 1, fetch_, blob_op. cbn [fst snd].
    pose proof (fetch_local (digest m) w row Hg Hrow) as Hf. pose proof (fetch_good (digest m) w Hg) as (Hg1 & Hk & _).
    destruct (fetch (digest m) w) as [w1 r]. cbn [fst snd] in *. subst r.
    rewrite Hm. unfold mbind at 1, build_bind at 1, lift at 1, ok_or. cbn beta iota. unfold mbind at 1, build_bind at 1, lift at 1. rewrite Hx.
    destruct (IH xs (S k) (b, w1) Hg1) as [s' Hs'].
    + eapply Forall_impl; [exact Hst|]. intros y. by apply keeps_holds.
    + done.
    + exists s'. unfold mbind, build_bind. by rewrite Hs'.
Qed.

(** C7: A conversation that is resumed from its last checkpoint goes on where it was, when every root was written by this builder
    and four things hold: each result of the history follows its call in its round; a replay state is one that is written
    without loss; serde_json reads the messages as it wrote them (a float may lose its last digit); and no other blob of the
    store has the digest of one of the messages.  Then the messages that are hydrated from the checkpoint, now or later and
    whatever else was stored meanwhile, are projected to what the provider was shown when the checkpoint was built, behind the
    system prompt; only the ids of the messages, the numbering of the calls and the images of the results differ. *)
Theorem checkpoint_resumed now db ms mode_ pending p s s' st projected b w :
  good (stored s.2) → roots_ok s → own_from s.1 = 0%nat → build_state now db ms mode_ pending p s = (s', Ok st) →
  project_messages ms = Ok projected → paired projected → Forall role_kept projected →
  (∀ m v, m ∈ system_message (b_instructions s.1) ++ projected → wire_message m (b_model s.1) None = Ok v → reads_back v) →
  (∀ wire m id row, stable_messages (b_instructions s.1) ms (b_model s.1) = Ok wire → m ∈ wire → blobs (stored w) !! id = Some row →
     digest (blob_data row) = digest m → blob_data row = m) →
  good (stored w) → keeps (stored s'.2) (stored w) →
  ∃ s2 messages again, hydrate_messages (Some st) (b, w) = (s2, Ok messages) ∧ project_messages messages = Ok again ∧
    seen <$> again = seen <$> (system_message (b_instructions s.1) ++ projected).
Proof.
  intros Hg Hok Hown H Hp Hpaired Hk Hread Hcol Hgw Hkeep.
  destruct (project_roots_digests now db ms mode_ pending p s s' st Hg Hok Hown H) as (wire & Hw & Hids & Hst).
  destruct (restored_ids_nodup 0 (digest <$> wire)) as [Hn Hl]. rewrite length_fmap in Hl.
  destruct (history_restored decode_encode64 replay_of_replay_json (b_instructions s.1) ms (b_model s.1) projected wire _ Hp Hpaired Hk Hread Hw Hl Hn) as (messages & again & Hd & Ha & Hs).
  destruct (hydrate_from_stored wire messages 0 (b, w) Hgw) as [s2 Hs2].
  - apply Forall_forall. intros m Hm. rewrite Forall_forall in Hst. destruct (keeps_stored _ _ _ Hkeep (Hst m Hm)) as [row Hrow].
    exists row. split; [done|]. eapply Hcol; [exact Hw|exact Hm|exact Hrow|exact (proj1 Hgw _ _ Hrow)].
  - done.
  - exists s2, messages, again. split; [|done]. cbn [hydrate_messages]. by rewrite Hids.
Qed.
End Resume.

(** ** The turns *)

Section Turns.
Context {W : Type} {BW : Blobs W} {SH : Sha256} {BL : BlobsLaws W} {GC : Generated} {SJ : SerdeJson} {SS : SerdeSlice} {SN : SerdeNumber}
  {D64 : Base64Decode} {B64 : Base64}.

Lemma push_steps_spec steps : ∀ t s s' t', turn s.1 = Some t → push_steps (W := W) t steps s = (s', Ok t') → good (stored s.2) →
  turn s'.1 = Some t' ∧ current_id t' = current_id t ∧ preceding t' = preceding t ∧
  turn_user_message (current t') = turn_user_message (current t) ∧ turn_request_id (current t') = turn_request_id (current t) ∧
  turn_steps (current t') = turn_steps (current t) ++ (digest ∘ encode_step <$> steps).
Proof.
  induction steps as [|step steps IH]; intros t s s' t' Ht H Hg; cbn [push_steps] in H.
  - injection H as <- <-. by rewrite app_nil_r.
  - apply build_ok in H as (s1 & id & Hp & H). destruct (persist_id _ _ _ _ _ Hg Hp) as [Hb (-> & _)].
    pose proof (safe_persist (encode_step step) [] s Hg) as (Hg1 & _). rewrite Hp in Hg1. cbn [fst] in Hg1.
    apply build_ok in H as (s2 & u & [= <- <-] & H).
    destruct (IH _ (set_turn (Some (push_step (digest (encode_step step)) t)) s1.1, s1.2) _ _ eq_refl H Hg1) as (H1 & H2 & H3 & H4 & H5 & H6).
    split_and!; try done. rewrite H6. cbn. by rewrite <- app_assoc.
Qed.

(** A turn that is stored as it stands, with an edge to its user message and to each of its steps. *)
Definition turn_stored (t : TurnFrontier) (db : Cas) : Prop :=
  ∃ edges, current_id t = Some (digest (encode_turn (current t))) ∧ turn_edges (current t) = Ok edges ∧
    is_stored db (digest (encode_turn (current t))) ∧ ∀ e, e ∈ edges → (digest (encode_turn (current t)), e) ∈ blob_edges db.
Lemma turn_stored_keeps t db db' : keeps db db' → turn_stored t db → turn_stored t db'.
Proof.
  intros Hk (edges & H1 & H2 & H3 & H4). exists edges. split_and!; [done|done|by eapply keeps_stored|]. intros e He. by apply Hk, H4.
Qed.

Lemma project_turns_spec mode_ p s s' ids : good (stored s.2) → project_turns mode_ p s = (s', Ok ids) → pending_steps p ≠ [] →
  ∀ t', turn s'.1 = Some t' → turn_stored t' (stored s'.2) ∧ ids = preceding t' ++ [digest (encode_turn (current t'))] ∧
  ∃ before, turn_steps (current t') = before ++ (digest ∘ encode_step <$> pending_steps p).
Proof.
  intros Hg H Hp t' Ht'. unfold project_turns in H. apply build_ok in H as (s1 & u & He & H).
  pose proof (step_safe _ _ _ _ (safe_ensure_turn mode_) He Hg) as (Hg1 & _).
  apply build_ok in H as (s2 & b & [= <- <-] & H). destruct (turn s1.1) as [t|] eqn:Et.
  2: { apply lift_ok in H as [-> _]. by rewrite Et in Ht'. }
  apply build_ok in H as (s3 & t1 & Hs & H). destruct (push_steps_spec _ _ _ _ _ Et Hs Hg1) as (T1 & T2 & T3 & T4 & T5 & T6).
  pose proof (step_safe _ _ _ _ (safe_push_steps _ _) Hs Hg1) as (Hg3 & _).
  apply build_ok in H as (s4 & t2 & Hw & H). rewrite bool_decide_false in Hw by done. cbn [negb orb] in Hw.
  apply build_ok in Hw as (s5 & edges & (-> & Hed)%lift_ok & Hw). apply build_ok in Hw as (s5 & id & Hper & Hw).
  destruct (persist_id _ _ _ _ _ Hg3 Hper) as [Hb (-> & Hst & Hedges)]. apply build_ok in Hw as (s6 & u6 & [= <- <-] & [= <- <-]).
  apply build_ok in H as (s7 & id & (-> & Hid)%lift_ok & H). cbn in Hid. apply ok_inj in Hid as <-. injection H as <- <-.
  cbn in Ht'. injection Ht' as <-. cbn. split_and!; [|done|by eexists].
  exists edges. by split_and!.
Qed.
(** A builder without a turn is that of a conversation without turns. *)
Definition turn_ok (b : Builder) : Prop := turns_initialized b = true → turn b = None → turns (base b) = [].
Lemma ensure_turn_ok mode_ s s' : turn_ok s.1 → ensure_turn mode_ s = (s', Ok ()) →
  turns_initialized s'.1 = true ∧ (turn s'.1 = None → turns (base s.1) = []).
Proof.
  intros Ht H. unfold ensure_turn in H. apply build_ok in H as (s0 & b & [= <- <-] & H). destruct (turns_initialized s.1) eqn:Ei.
  { injection H as <-. split; [done|]. by apply Ht. }
  apply build_ok in H as (s1 & u & [= <- <-] & H). apply build_ok in H as (s2 & ids & (-> & Hids)%lift_ok & H). apply from_bytes_all in Hids as ->.
  cbn [fst snd base set_turn] in H. destruct (turn_user s.1) as [user|].
  - apply build_ok in H as (s3 & id & _ & [= <-]). by split.
  - destruct (last (turns (base s.1))) as [current|] eqn:El.
    + apply build_ok in H as (s3 & d & _ & H). apply build_ok in H as (s4 & d' & _ & H). apply build_ok in H as (s5 & w & _ & H).
      apply build_ok in H as (s6 & a & _ & [= <-]). by split.
    + injection H as <-. split; [done|]. intros _. by apply last_None.
Qed.
Lemma project_turns_none mode_ p s s' ids : turn_ok s.1 → project_turns (W := W) mode_ p s = (s', Ok ids) →
  turns_initialized s'.1 = true ∧ (turn s'.1 = None → ids = [] ∧ turns (base s.1) = []).
Proof.
  intros Hok H. unfold project_turns in H. apply build_ok in H as (s1 & [] & He & H). pose proof (ensure_turn_ok _ _ _ Hok He) as [Hi Hn].
  pose proof (step_frame base _ _ _ _ (frame_ensure_turn base mode_ (λ _ _, eq_refl)) He) as Eb.
  apply build_ok in H as (s2 & b & [= <- <-] & H). destruct (turn s1.1) as [t|] eqn:Et.
  2: { apply lift_ok in H as [-> Hids]. apply from_bytes_all in Hids as ->. split; [done|]. intros _. rewrite Eb. split; by apply Hn. }
  apply build_ok in H as (s3 & t1 & Hs & H). apply build_ok in H as (s4 & t2 & Hw & H). apply build_ok in H as (s5 & id & (-> & Hid)%lift_ok & H).
  injection H as <- _.
  assert (turn s3.1 = Some t1 ∧ turns_initialized s3.1 = true) as [E3 I3].
  { clear -Hs Et Hi. revert t s1 Et Hi Hs. induction (pending_steps p) as [|step steps IH]; intros t s1 Et Hi Hs; cbn [push_steps] in Hs.
    - by injection Hs as <- <-.
    - apply build_ok in Hs as (s2 & id & Hp & Hs). apply build_ok in Hs as (s4 & u & [= <- <-] & Hs). by apply IH in Hs. }
  assert (turn s4.1 = Some t2 ∧ turns_initialized s4.1 = true) as [-> ->]; [|done].
  destruct (_ || _).
  - apply build_ok in Hw as (s5 & edges & (-> & _)%lift_ok & Hw). apply build_ok in Hw as (s5 & id' & _ & Hw). by apply build_ok in Hw as (s6 & u6 & [= <- <-] & [= <- <-]).
  - by injection Hw as <- <-.
Qed.
End Turns.

(** ** What was published stays *)

Section Publish.
Context {W : Type} {BW : Blobs W} {SH : Sha256} {BL : BlobsLaws W} {GC : Generated} {SJ : SerdeJson} {SS : SerdeSlice} {SN : SerdeNumber}
  {D64 : Base64Decode} {B64 : Base64} {FK : ForeignKeys}.
(** SHA-256 has 32 bytes. *)
Context (digest_length : ∀ data, zlen (digest data) = 32).

Lemma digest_filled data : digest data ≠ [].
Proof. intros E. pose proof (digest_length data) as H. rewrite E in H. done. Qed.

Lemma publish_spec c st s s' : publish (W := W) (Some c) st s = (s', Ok ()) →
  ∃ ids, checkpoint_blob_roots st = Ok ids ∧ stored s'.2 = stored s.2 ∧ sent s'.2 = sent s.2 ++ [st] ∧ s'.1 = s.1 ∧
    roots_kept s'.2 = list_to_set (pair c <$> ids) ∪ filter (λ r, r.1 ≠ c) (roots_kept s.2).
Proof.
  intros H. unfold publish in H. apply build_ok in H as (s1 & u & H1 & H). apply build_ok in H1 as (s2 & ids & (-> & Hids)%lift_ok & H1).
  destruct s as [b w]. unfold blob_op in *. cbn [fst snd] in *. injection H1 as <- <-. cbn [fst snd] in H.
  destruct (emit st (retain c ids w)) as [w2 r] eqn:E. injection H as <- ->. exists ids. cbn [fst snd].
  pose proof (emit_spec st (retain c ids w)) as (E1 & E2 & E3). rewrite E in E1, E2, E3. cbn [fst snd is_ok] in E1, E2, E3.
  pose proof (retain_spec c ids w) as (R1 & R2 & R3). split_and!; [done|congruence|congruence|done|congruence].
Qed.

(** The blobs a state names, and those of the conversations of its subagents, to any depth. *)
Inductive names : State → list Z → Prop :=
  | names_root s id : id ∈ root_prompt_messages_json s → names s id
  | names_turn s id : id ∈ turns s → names s id
  | names_todo s id : id ∈ todos s → names s id
  | names_summary s id : summary s = Some id → names s id
  | names_plan s id : plan s = Some id → names s id
  | names_archive s id : summary_archive s = Some id ∨ id ∈ summary_archives s → names s id
  | names_file s path id : file_states s !! path = Some id → names s id
  | names_content s path f id : file_states_v2 s !! path = Some f → file_content f = Some id ∨ initial_content f = Some id → names s id
  | names_reference s agent id : subagent_state_refs s !! agent = Some id → names s id
  | names_usage s d id : token_details s = Some d → usage_snapshot_blob_id d = Some id → names s id
  | names_nested s agent sub child id : (agent, sub) ∈ subagent_states s → nested_state sub = Some child → names (state_of child) id → names s id.

Lemma option_list_elem {A} (o : option A) x : o = Some x → x ∈ option_list o.
Proof. intros ->. by left. Qed.
Lemma lookup_values {A} (m : gmap (list Z) A) k x : m !! k = Some x → x ∈ snd <$> map_to_list m.
Proof. intros H. apply list_elem_of_fmap. exists (k, x). split; [done|]. by apply elem_of_map_to_list. Qed.
Lemma named_nested s id : names s id → id ∈ concat (raw_ids <$> nested_states (Nested s)).
Proof.
  assert (∀ s id, id ∈ raw_ids s → id ∈ concat (raw_ids <$> nested_states (Nested s))) as Hraw.
  { intros s' id' H. cbn [nested_states fmap list_fmap concat]. apply elem_of_app. by left. }
  induction 1 as [s id H|s id H|s id H|s id H|s id H|s id H|s path id H|s path f id H Hf|s agent id H|s d id H Hd|s agent sub child id H Hc _ IH];
    [apply Hraw; unfold raw_ids; rewrite !elem_of_app; try tauto..|].
  - apply option_list_elem in H. tauto.
  - apply option_list_elem in H. tauto.
  - destruct H as [H%option_list_elem|H]; tauto.
  - apply lookup_values in H. tauto.
  - assert (id ∈ concat ((λ p : list Z * FileState, option_list (file_content p.2) ++ option_list (initial_content p.2)) <$> map_to_list (file_states_v2 s))) as Hin; [|tauto].
    apply elem_of_concat. exists (option_list (file_content f) ++ option_list (initial_content f)). split.
    + apply elem_of_app. destruct Hf as [Hf|Hf]; [left|right]; by apply option_list_elem.
    + apply list_elem_of_fmap. exists (path, f). split; [done|]. by apply elem_of_map_to_list.
  - apply lookup_values in H. tauto.
  - assert (id ∈ match token_details s with Some d => option_list (usage_snapshot_blob_id d) | None => [] end) as Hin; [|tauto]. rewrite H. by apply option_list_elem.
  - cbn [nested_states fmap list_fmap concat]. apply elem_of_app. right. apply elem_of_concat in IH as (l & Hid & Hl). apply list_elem_of_fmap in Hl as (s' & -> & Hs').
    apply elem_of_concat. exists (raw_ids s'). split; [done|]. apply list_elem_of_fmap. exists s'. split; [done|]. apply elem_of_concat.
    exists (nested_states child). split; [by destruct child|]. apply list_elem_of_fmap. exists (agent, sub). cbn [snd]. by rewrite Hc.
Qed.
(** Every blob that is named is a root. *)
Lemma named_are_roots st ids id : checkpoint_blob_roots st = Ok ids → names st id → id ≠ [] → id ∈ ids.
Proof.
  intros H Hin Hne. unfold checkpoint_blob_roots in H. apply from_bytes_all in H as ->. apply list_elem_of_In, filter_In.
  split; [|by destruct id]. by apply list_elem_of_In, named_nested.
Qed.

(** What happens to a storage while a conversation is in use and publishes nothing more: passes of the maintenance, and whatever else
    leaves the stored blobs, their edges and the roots of the conversation there. *)
Inductive aftermath (c : list Z) (start : Storage) : Storage → Prop :=
  | after_start : aftermath c start start
  | after_pass scan later σ σ' archives : aftermath c start σ → is_expired (later - CONVERSATION_RETENTION_MS) (st_db σ) c = false →
      prune_inactive_storage scan later σ = Ok (σ', archives) → aftermath c start σ'
  | after_other σ σ' : aftermath c start σ → keeps (st_cas σ) (st_cas σ') → edges_closed (st_cas σ') →
      (∀ id, (c, id) ∈ blob_roots σ → (c, id) ∈ blob_roots σ') → aftermath c start σ'.
(** A blob is stored as it was, with its edges. *)
Definition still (db db' : Cas) (b : list Z) : Prop :=
  (∀ row, blobs db !! b = Some row → ∃ row', blobs db' !! b = Some row' ∧ blob_data row' = blob_data row) ∧
  ∀ e, (b, e) ∈ blob_edges db → (b, e) ∈ blob_edges db'.
Lemma still_reached db db' id b : (∀ x, rtc (edge_of (blob_edges db)) id x → still db db' x) → rtc (edge_of (blob_edges db)) id b →
  rtc (edge_of (blob_edges db')) id b.
Proof.
  intros H Hr. apply rtc_ind_r with (x := id) (P := λ y, rtc (edge_of (blob_edges db')) id y) in Hr; [done|done|]. intros x y Hx (e & He & Hc) IH.
  eapply rtc_r; [exact IH|]. exists e. split; [|done]. by apply (H x Hx).
Qed.
Lemma aftermath_keeps c start σ : aftermath c start σ → edges_closed (st_cas start) →
  edges_closed (st_cas σ) ∧ (∀ id, (c, id) ∈ blob_roots start → (c, id) ∈ blob_roots σ) ∧
  ∀ id b, (c, id) ∈ blob_roots start → rtc (edge_of (blob_edges (st_cas start))) id b → still (st_cas start) (st_cas σ) b.
Proof.
  intros H Hc. induction H as [|scan later σ σ' archives _ (IH1 & IH2 & IH3) Huse Hp|σ σ' _ (IH1 & IH2 & IH3) Hk Hc' Hr].
  - split_and!; [done|done|]. intros id b _ _. split; [|done]. intros row Hrow. by exists row.
  - destruct (collection_keeps _ _ _ _ _ Hp IH1) as (Hlive & Hcl & _).
    assert (∀ id, (c, id) ∈ blob_roots start → (c, id) ∈ blob_roots σ') as Hroots by (intros id Hid; eapply roots_stay; [exact Hp|exact Huse|by apply IH2]).
    split_and!; [done|done|]. intros id b Hid Hb. destruct (IH3 id b Hid Hb) as [S1 S2].
    destruct (Hlive id b) as [L1 L2]; [right; left; exists c; by apply Hroots|eapply still_reached; [|exact Hb]; intros x Hx; by apply (IH3 id)|].
    split; [intros row Hrow; rewrite L1; by apply S1|intros e He; by apply L2, S2].
  - split_and!; [done|intros id Hid; by apply Hr, IH2|]. intros id b Hid Hb. destruct (IH3 id b Hid Hb) as [S1 S2]. split.
    + intros row Hrow. destruct (S1 row Hrow) as (row1 & H1 & E1). destruct (proj1 Hk _ _ H1) as (row2 & H2 & E2). exists row2. split; [done|congruence].
    + intros e He. by apply Hk, S2.
Qed.

(** C8: What was published outlives the maintenance of the store: as long as the conversation is in use and publishes nothing more,
    through any number of passes and whatever else is stored meanwhile, nothing that the checkpoint names, itself or in the
    conversations of its subagents, is collected, nor anything the edges lead to from there; in particular the messages that this
    builder wrote are still there, and the turn in progress with its user message and all its steps. *)
Theorem published_survives now db ms mode_ pending p s s1 st c s2 start σ : good (stored s.2) → roots_ok s →
  build_state now db ms mode_ pending p s = (s1, Ok st) → publish (Some c) st s1 = (s2, Ok ()) →
  st_cas start = stored s2.2 → blob_roots start = roots_kept s2.2 → aftermath c start σ →
  sent s2.2 = sent s.2 ++ [st] ∧
  (∀ id b, names st id → id ≠ [] → rtc (edge_of (blob_edges (stored s1.2))) id b → still (stored s1.2) (st_cas σ) b) ∧
  (∀ i id, (own_from s.1 ≤ i)%nat → root_prompt_messages_json st !! i = Some id → is_stored (st_cas σ) id) ∧
  (pending_steps p ≠ [] → ∀ t, turn s1.1 = Some t →
     turns st = preceding t ++ [digest (encode_turn (current t))] ∧ turn_stored t (st_cas σ) ∧
     ∀ edges e, turn_edges (current t) = Ok edges → e ∈ edges → is_stored (st_cas σ) (child e)).
Proof.
  intros Hg Hok H Hpub Hcas Hroots Hafter. destruct (build_state_roots _ _ _ _ _ _ _ _ _ Hg Hok H) as (wire & _ & Hlen & Hdig & Hst & _ & Hg1 & _).
  destruct (build_state_parts _ _ _ _ _ _ _ _ _ H) as (a1 & a2 & a3 & Hr & Ht & _ & G1 & G2 & _ & Eturn & _).
  pose proof (step_safe _ _ _ _ (safe_project_roots ms) Hr Hg) as (Ha1 & _ & _ & Hsent1). destruct (G1 Ha1) as (_ & _ & _ & Hsent2).
  pose proof (step_safe _ _ _ _ (safe_project_turns mode_ p) Ht Ha1) as (Ha2 & _). destruct (G2 Ha2) as (_ & Hk2 & _).
  destruct (publish_spec _ _ _ _ Hpub) as (ids & Hids & Estored & Esent & _ & Ekept).
  destruct (aftermath_keeps _ _ _ Hafter) as (Hclosed & _ & Hlive); [rewrite Hcas, Estored; apply Hg1|]. rewrite Hcas, Estored in Hlive.
  assert (∀ id b, names st id → id ≠ [] → rtc (edge_of (blob_edges (stored s1.2))) id b → still (stored s1.2) (st_cas σ) b) as Hkeep.
  { intros id b Hin Hne Hrtc. apply (Hlive id b); [|done]. rewrite Hroots, Ekept. apply elem_of_union. left. apply elem_of_list_to_set.
    apply list_elem_of_fmap. exists id. split; [done|]. by eapply named_are_roots. }
  assert (∀ id b, names st id → id ≠ [] → rtc (edge_of (blob_edges (stored s1.2))) id b → is_stored (stored s1.2) b → is_stored (st_cas σ) b) as Hstill.
  { intros id b H1 H2 H3 [row Hrow]. destruct (proj1 (Hkeep id b H1 H2 H3) row Hrow) as (row' & Hrow' & _). by exists row'. }
  split_and!.
  - rewrite Esent, Hsent2, Hsent1. done.
  - exact Hkeep.
  - intros i id Hi Hid. assert (id ≠ []) as Hne.
    { rewrite Hdig in Hid; [|by right|rewrite <- Hlen; by eapply lookup_lt_Some]. destruct (wire !! i); [|done]. injection Hid as <-. apply digest_filled. }
    apply (Hstill id id); [|done|done|by eapply Hst]. apply names_root. by eapply list_elem_of_lookup_2.
  - intros Hp t Et. rewrite Eturn in Et. pose proof (digest_filled (encode_turn (current t))) as Hne. destruct (project_turns_spec _ _ _ _ _ Ha1 Ht Hp t Et) as (Hts & Hids' & _).
    apply (turn_stored_keeps _ _ _ Hk2) in Hts. destruct Hts as (edges & T1 & T2 & T3 & T4).
    assert (names st (digest (encode_turn (current t)))) as Hraw by (apply names_turn; rewrite Hids'; apply elem_of_app; right; by left).
    destruct (Hkeep _ _ Hraw Hne (rtc_refl _ _)) as [_ Ke]. split_and!; [done| |].
    + exists edges. split_and!; [done|done|by apply (Hstill _ _ Hraw Hne (rtc_refl _ _))|]. intros e He. by apply Ke, T4.
    + intros edges' e He Hin. rewrite T2 in He. apply ok_inj in He as <-. apply (Hclosed (digest (encode_turn (current t))) e). by apply Ke, T4.
Qed.
End Publish.

(** ** Compaction *)

Section Compaction.
Context {W : Type} {BW : Blobs W} {SH : Sha256} {BL : BlobsLaws W} {GC : Generated} {SJ : SerdeJson} {SS : SerdeSlice} {SN : SerdeNumber}
  {D64 : Base64Decode} {B64 : Base64}.

Lemma replace_each_spec ms : ∀ system s s' ids, good (stored s.2) → replace_each (W := W) system ms s = (s', Ok ids) →
  ids = digest <$> ms ∧ Forall (is_stored (stored s'.2)) (drop 1 ids) ∧ (system = None → Forall (is_stored (stored s'.2)) ids).
Proof.
  induction ms as [|m ms IH]; intros system s s' ids Hg H; cbn [replace_each] in H; [injection H as _ <-; by split_and!|].
  apply build_ok in H as (s1 & id & Hid & H). apply build_ok in H as (s2 & rest & Hr & [= <- <-]).
  assert (id = digest m ∧ good (stored s1.2) ∧ (system = None → is_stored (stored s1.2) id)) as (-> & Hg1 & Hs1).
  { case_bool_decide as E; [injection Hid as <- <-; split_and!; [done|done|by intros ->]|].
    destruct (persist_id _ _ _ _ _ Hg Hid) as [_ (-> & Hst & _)]. pose proof (step_safe _ _ _ _ (safe_persist m []) Hid Hg) as (Hg1 & _).
    by split_and!. }
  destruct (IH None s1 s2 rest Hg1 Hr) as (-> & _ & Hst). specialize (Hst eq_refl).
  pose proof (step_safe _ _ _ _ (safe_replace_each ms None) Hr Hg1) as (_ & Hk & _). split_and!; [done|done|].
  intros E. constructor; [eapply keeps_stored; [exact Hk|by apply Hs1]|done].
Qed.

Lemma replace_roots_spec messages s s' ids : good (stored s.2) → replace_roots (W := W) messages s = (s', Ok ids) →
  ∃ wire, stable_messages (b_instructions s.1) messages (b_model s.1) = Ok wire ∧ ids = digest <$> wire ∧
    Forall (is_stored (stored s'.2)) (drop 1 ids) ∧ roots s'.1 = Some (MkRoots ids [] (length ids)).
Proof.
  intros Hg H. unfold replace_roots in H. apply build_ok in H as (s1 & b & [= <- <-] & H).
  apply build_ok in H as (s1 & wire & (-> & Hw)%lift_ok & H). apply build_ok in H as (s1 & r & He & H).
  pose proof (step_safe _ _ _ _ safe_ensure_roots He Hg) as (Hg1 & _). apply build_ok in H as (s2 & ids' & Hr & H).
  apply build_ok in H as (s3 & u & [= <- <-] & [= <- <-]). destruct (replace_each_spec _ _ _ _ _ Hg1 Hr) as (-> & Hst & _).
  exists wire. by split_and!.
Qed.

Lemma archive_edges_children summarized sm id : id ∈ sm :: summarized → ∃ e, e ∈ archive_edges summarized sm ∧ child e = id.
Proof.
  intros H. unfold archive_edges. apply elem_of_cons in H as [->|H].
  - eexists. split; [apply elem_of_app; right; by left|done].
  - apply list_elem_of_lookup in H as [i Hi]. eexists (MkEdge id _). split; [|done]. apply elem_of_app. left.
    apply list_elem_of_fmap. exists (i, id). split; [reflexivity|]. apply list_elem_of_lookup. exists i.
    apply lookup_zip_with_Some. exists i, id. split_and!; [done| |done]. apply lookup_seq. split; [lia|]. by eapply lookup_lt_Some.
Qed.

Lemma record_tokens_shape max used s : ∃ d, record_context_tokens max used s = set_token_details d s.
Proof. unfold record_context_tokens. destruct (context_limit _ _); [by eexists|]. exists (token_details s). by destruct s. Qed.
Lemma tokens_recorded d max used s : set_token_details d (record_context_tokens max used s) = set_token_details d s.
Proof. by destruct (record_tokens_shape max used s) as [d' ->]. Qed.
Lemma same_base b : set_base (base b) b = b.
Proof. by destruct b. Qed.

Definition stored_with (data : list Z) (edges : list BlobEdge) (db : Cas) : Prop :=
  is_stored db (digest data) ∧ ∀ e, e ∈ edges → (digest data, e) ∈ blob_edges db.
Lemma persist_with data edges s s' id db : good (stored s.2) → persist_ (W := W) data edges s = (s', Ok id) → keeps (stored s'.2) db →
  id = digest data ∧ stored_with data edges db.
Proof.
  intros Hg H Hk. destruct (persist_id _ _ _ _ _ Hg H) as [_ (-> & Hst & He)]. split; [done|]. split; [by eapply keeps_stored|].
  intros e Hin. by apply Hk, He.
Qed.

(** The archive of a compaction. *)
Definition archive_of (previous ids : list (list Z)) (sum sm : list Z) : SummaryArchive :=
  MkArchive (summarized_of previous ids) sum (Z.min (zlen (retained_of previous ids sm)) U32_MAX) sm.
(** A successful compaction, step by step. *)
Lemma compacted_parts messages mode_ sum sid p s s' st : good (stored s.2) → compacted (W := W) messages mode_ sum sid p s = (s', Ok st) →
  ∃ s1 ids ts sm d, replace_roots messages s = (s1, Ok ids) ∧ grown s1.2 s'.2 ∧ summary_root s.1 messages sid ids = Ok sm ∧
    let archive := archive_of (root_prompt_messages_json (base s.1)) ids sum sm in
    stored_with (encode_summary sum) [] (stored s'.2) ∧
    stored_with (encode_archive archive) (archive_edges (summarized_messages archive) sm) (stored s'.2) ∧
    base s'.1 = st ∧ good (stored s'.2) ∧ roots s'.1 = Some (MkRoots ids [] (length ids)) ∧ (turn_ok s.1 → turn_ok s'.1) ∧
    st = set_token_details d (compact_state mode_ ids ts (digest (encode_summary sum)) (digest (encode_archive archive))
                                (retained_file_paths messages) p (base s.1)).
Proof.
  intros Hg H. pose proof (step_safe _ _ _ _ (safe_compacted messages mode_ sum sid p) H Hg) as (Hg' & _). unfold compacted in H.
  apply build_ok in H as (s0 & b & [= <- <-] & H). apply build_ok in H as (s0 & previous & (-> & Hprev)%lift_ok & H).
  apply from_bytes_all in Hprev as ->. apply build_ok in H as (s1 & ids & Hr & H). apply build_ok in H as (s1' & sm & (-> & Hsm)%lift_ok & H).
  apply build_ok in H as (s2 & sid' & Hp1 & H). apply build_ok in H as (s3 & aid & Hp2 & H). apply build_ok in H as (s4 & ts & Ht & H).
  apply build_ok in H as (s5 & u5 & [= <- <-] & H). apply build_ok in H as (s5 & projected & (-> & _)%lift_ok & H).
  apply build_ok in H as (s6 & u6 & [= <- <-] & H). cbn [fst snd] in H. apply build_ok in H as (s7 & statics & Hs & H).
  apply build_ok in H as (s8 & b8 & [= <- <-] & H). apply build_ok in H as (s9 & st' & Hb & H).
  apply build_ok in H as (s10 & u10 & [= <- <-] & [= <- <-]).
  pose proof (step_safe _ _ _ _ (safe_replace_roots messages) Hr) as G1. pose proof (step_safe _ _ _ _ (safe_persist _ _) Hp1) as G2.
  pose proof (step_safe _ _ _ _ (safe_persist _ _) Hp2) as G3. pose proof (step_safe _ _ _ _ (safe_project_turns mode_ p) Ht) as G4.
  pose proof (step_safe _ _ _ _ safe_statics Hs) as G5. pose proof (step_safe _ _ _ _ (safe_breakdown _ _ _) Hb) as G6. cbn [fst snd] in G5.
  destruct (G1 Hg) as (Hg1 & _). destruct (G2 Hg1) as (Hg2 & _). destruct (G3 Hg2) as (Hg3 & _).
  assert (grown s3.2 s9.2) as G39 by (eapply grown_trans; [exact G4|eapply grown_trans; [exact G5|exact G6]]).
  assert (grown s2.2 s9.2) as G29 by (by eapply grown_trans). destruct (G29 Hg2) as (_ & K29 & _). destruct (G39 Hg3) as (_ & K39 & _).
  destruct (persist_with _ _ _ _ _ (stored s9.2) Hg1 Hp1 K29) as [-> S1]. destruct (persist_with _ _ _ _ _ (stored s9.2) Hg2 Hp2 K39) as [-> S2].
  destruct (with_breakdown_ok _ _ _ _ _ _ Hb) as [d ->].
  assert (base s4.1 = base s.1) as E4.
  { rewrite (step_frame base _ _ _ _ (frame_project_turns base mode_ p (λ _ _, eq_refl)) Ht), (proj1 (persist_id _ _ _ _ _ Hg2 Hp2)),
      (proj1 (persist_id _ _ _ _ _ Hg1 Hp1)). by rewrite (step_frame base _ _ _ _ (frame_replace_roots base messages (λ _ _, eq_refl)) Hr). }
  assert (roots s9.1 = Some (MkRoots ids [] (length ids))) as E9.
  { rewrite (step_frame roots _ _ _ _ (frame_breakdown roots _ _ _ (λ _ _ _, eq_refl)) Hb).
    rewrite (step_frame roots _ _ _ _ (frame_statics roots (λ _ _ _, eq_refl)) Hs). cbn.
    rewrite (step_frame roots _ _ _ _ (frame_project_turns roots mode_ p (λ _ _, eq_refl)) Ht), (proj1 (persist_id _ _ _ _ _ Hg2 Hp2)),
      (proj1 (persist_id _ _ _ _ _ Hg1 Hp1)). destruct (replace_roots_spec _ _ _ _ Hg Hr) as (wire & _ & _ & _ & Er). done. }
  rewrite (step_frame base _ _ _ _ (frame_statics base (λ _ _ _, eq_refl)) Hs). cbn [fst snd base set_base]. rewrite E4.
  exists s1, ids, ts, sm, d. split_and!; [exact Hr| |exact Hsm|exact S1|exact S2|reflexivity|exact Hg'|exact E9| |].
  - eapply grown_trans; [exact G2|]. exact G29.
  - intros Hto. assert (turn_ok s3.1) as Hto3.
    { unfold turn_ok. rewrite (proj1 (persist_id _ _ _ _ _ Hg2 Hp2)), (proj1 (persist_id _ _ _ _ _ Hg1 Hp1)).
      rewrite (step_frame base _ _ _ _ (frame_replace_roots base messages (λ _ _, eq_refl)) Hr),
        (step_frame turn _ _ _ _ (frame_replace_roots turn messages (λ _ _, eq_refl)) Hr),
        (step_frame turns_initialized _ _ _ _ (frame_replace_roots turns_initialized messages (λ _ _, eq_refl)) Hr). exact Hto. }
    destruct (project_turns_none _ _ _ _ _ Hto3 Ht) as [_ Hn]. intros _. cbn [fst snd base set_base turn].
    rewrite (step_frame turn _ _ _ _ (frame_breakdown turn _ _ _ (λ _ _ _, eq_refl)) Hb).
    rewrite (step_frame turn _ _ _ _ (frame_statics turn (λ _ _ _, eq_refl)) Hs). cbn [fst turn set_base]. intros Hnone. rewrite tokens_recorded. cbn. by apply Hn.
  - cbn [fst snd base set_base]. rewrite tokens_recorded. reflexivity.
Qed.

Lemma add_paths_other paths s : root_prompt_messages_json (add_paths paths s) = root_prompt_messages_json s ∧
  file_states (add_paths paths s) = file_states s ∧ file_states_v2 (add_paths paths s) = file_states_v2 s.
Proof. done. Qed.

Lemma kept_file {A} (paths : list str) (files : gmap (list Z) A) path :
  keep_files paths files !! path = if bool_decide (normalize_path path ∈ paths) then files !! path else None.
Proof.
  unfold keep_files. case_bool_decide as Hp.
  - destruct (files !! path) eqn:E; [by apply map_lookup_filter_Some_2|by apply map_lookup_filter_None_2; left].
  - apply map_lookup_filter_None_2. by right.
Qed.

(** C9: A compaction keeps what it replaces within reach: the roots become the replacement history, one digest per message; every old
    root that is not among them, the system prompt apart, is named by the archive, together with the message that carries the summary,
    which is one of the new roots; the archive has an edge to each and is stored, and so is the summary; the state of a file stays only
    where the replacement still names the file, in both of the maps of files.  What the archive names are roots the conversation had when the builder took it over:
    a message that was written since is not among them. *)
Theorem compaction_archived messages mode_ sum sid p s s' st : good (stored s.2) → compacted (W := W) messages mode_ sum sid p s = (s', Ok st) →
  let previous := root_prompt_messages_json (base s.1) in
  ∃ wire m bytes tail, stable_messages (b_instructions s.1) messages (b_model s.1) = Ok wire ∧
    root_prompt_messages_json st = digest <$> wire ∧ Forall (is_stored (stored s'.2)) (drop 1 (root_prompt_messages_json st)) ∧
    m ∈ messages ∧ message_id m = sid ∧ digest bytes ∈ root_prompt_messages_json st ∧
    (∃ own, stable_messages (b_instructions s.1) [m] (b_model s.1) = Ok own ∧ last own = Some bytes) ∧
    let gone := summarized_of previous (root_prompt_messages_json st) in
    let archive := MkArchive gone sum tail (digest bytes) in
    (∀ id, id ∈ drop 1 previous → id ∈ root_prompt_messages_json st ∨ id ∈ gone) ∧
    (∀ id, id ∈ gone → id ∈ drop 1 previous ∧ id ∉ root_prompt_messages_json st) ∧
    (∀ id, id = digest bytes ∨ id ∈ gone → is_stored (stored s'.2) id ∧ ∃ e, (digest (encode_archive archive), e) ∈ blob_edges (stored s'.2) ∧ child e = id) ∧
    summary_archive st = Some (digest (encode_archive archive)) ∧ digest (encode_archive archive) ∈ summary_archives st ∧
    is_stored (stored s'.2) (digest (encode_archive archive)) ∧
    summary st = Some (digest (encode_summary sum)) ∧ is_stored (stored s'.2) (digest (encode_summary sum)) ∧ pending_tool_calls st = [] ∧
    (∀ path, file_states st !! path = if bool_decide (normalize_path path ∈ retained_file_paths messages) then file_states (base s.1) !! path else None) ∧
    (∀ path, file_states_v2 st !! path = if bool_decide (normalize_path path ∈ retained_file_paths messages) then file_states_v2 (base s.1) !! path else None) ∧
    base s'.1 = st ∧ roots_of s'.1 = root_prompt_messages_json st.
Proof.
  intros Hg H previous. destruct (compacted_parts _ _ _ _ _ _ _ _ Hg H) as (s1 & ids & ts & sm & d & Hr & Hgr & Hsm & Hsum & Harc & Hb & Hg' & Hroots & _ & ->).
  pose proof (step_safe _ _ _ _ (safe_replace_roots messages) Hr Hg) as (Hg1 & _). destruct (Hgr Hg1) as (_ & Hk & _).
  destruct (replace_roots_spec _ _ _ _ Hg Hr) as (wire & Hw & Eids & Hst & _). unfold summary_root in Hsm.
  apply bind_ok in Hsm as (m & Hm & Hsm). apply bind_ok in Hsm as (own & Hown & Hsm). apply bind_ok in Hsm as (bytes & Hbytes & Hsm).
  case_bool_decide as Hin; [|done]. apply ok_inj in Hsm as <-.
  destruct (list_find _ messages) as [[k m']|] eqn:Ef; [|done]. cbn in Hm. apply ok_inj in Hm as ->. apply list_find_Some in Ef as (Hk1 & Hk2 & _).
  destruct (last own) as [y|] eqn:Elast; [|done]. cbn in Hbytes. apply ok_inj in Hbytes as ->.
  set (tail := Z.min (zlen (retained_of previous ids (digest bytes))) U32_MAX). exists wire, m, bytes, tail.
  destruct Harc as [Ha1 Ha2]. cbn [summarized_messages archive_of] in Ha2.
  change (root_prompt_messages_json (set_token_details d _)) with ids. cbv zeta. split_and!; try done.
  - eapply Forall_impl; [exact Hst|]. intros id. by apply keeps_stored.
  - by eapply list_elem_of_lookup_2.
  - by exists own.
  - intros id Hid. destruct (decide (id ∈ ids)); [by left|right]. unfold summarized_of. apply list_elem_of_In, filter_In.
    split; [by apply list_elem_of_In|]. by rewrite bool_decide_false.
  - intros id Hid. unfold summarized_of in Hid. apply list_elem_of_In, filter_In in Hid as [Hid Hn]. apply list_elem_of_In in Hid.
    split; [done|]. intros Hin'. by rewrite bool_decide_true in Hn.
  - intros id Hid. destruct (archive_edges_children (summarized_of previous ids) (digest bytes) id) as (e & He & Ec).
    { destruct Hid as [->|Hid]; [by left|by right]. }
    pose proof (Ha2 e He) as Hedge. split; [|by exists e]. rewrite <- Ec. by eapply Hg'.
  - unfold compact_state. cbn [summary_archives set_token_details set_self_summary_count set_summary_archives]. unfold push_new, archive_of, tail.
    case_bool_decide; [done|]. apply elem_of_app. right. by left.
  - apply Hsum.
  - intros path. apply kept_file.
  - intros path. apply kept_file.
  - unfold roots_of. by rewrite Hroots.
Qed.
End Compaction.

(** ** The worker *)

Section Worker.
Context {W : Type} {BW : Blobs W} {SH : Sha256} {BL : BlobsLaws W} {GC : Generated} {SJ : SerdeJson} {SS : SerdeSlice} {SN : SerdeNumber}
  {D64 : Base64Decode} {B64 : Base64} `{BS : Backend} (display : json → str).
Context (conversation : option (list Z)) (mode_ : Z).



(** A step that sends [out], and leaves a good store good. *)
Definition sends {A} (m : Build (W := W) A) (s s' : Builder * W) (r : res A) (out : list State) : Prop :=
  m s = (s', r) ∧ good (stored s'.2) ∧ sent s'.2 = sent s.2 ++ out.









End Worker.

(** ** A conversation and its checkpoints *)

Module BuilderSamples.
(** A number in front of 31 zeros: no two blobs have the same digest. *)
Definition digest : Sha256 := {| CheckpointMessages.sha256 d := Zpos (encode d) :: replicate 31 0 |}.
Lemma digest_length data : zlen (@Cas.digest digest data) = 32.
Proof. done. Qed.
Lemma digest_inj a b : @Cas.digest digest a = @Cas.digest digest b → a = b.
Proof. unfold Cas.digest. cbn. intros H. apply (inj encode). congruence. Qed.
Definition generated : Generated := {|
  encode_step step := match step with StepAssistant t => 1 :: t | StepThinking t _ => 2 :: t | StepToolCall _ => [3] end;
  encode_user user := 4 :: user_mode user :: user_fields user;
  encode_turn t := 5 :: turn_user_message t ++ concat (turn_steps t);
  encode_todo todo := 6 :: todo_id todo;
  encode_plan t := 7 :: t;
  encode_summary t := 8 :: t;
  encode_archive a := 9 :: archive_summary_message a ++ concat (summarized_messages a);
  decode_turn _ := Ok None;
  decode_todo _ := Err (ForeignError (lit "todo") [])
|}.
(** A writer of JSON with lengths in front, and a reader of what it is told of. *)
Fixpoint flat (v : json) : list Z :=
  match v with
  | JNull => [0]
  | JBool b => [1; if b then 1 else 0]
  | JNumber t => 2 :: zlen t :: t
  | JString t => 3 :: zlen t :: t
  | JArray items => 4 :: zlen items :: concat (List.map flat items)
  | JObject members => 5 :: zlen members :: concat (List.map (λ p, zlen p.1 :: p.1 ++ flat p.2) members)
  end.
Definition writer : SerdeJson :=
  {| to_vec := flat; display_json := flat; to_string v := Ok (flat v); from_str _ := Err (ForeignError (lit "expected value") []) |}.
Definition base64 : Base64 := {| encode64 d := d |}.
Definition decoder : Base64Decode := {| decode64 d := Ok d |}.
Lemma decoded data : @decode64 decoder (@encode64 base64 data) = Ok data.
Proof. done. Qed.
Definition numbers : SerdeNumber := {| number_as_u64 := parse_u64; number_as_i64 := parse_u64 |}.
#[local] Existing Instances digest generated writer base64 decoder numbers CasSamples.foreign_keys StoreSamples.store.

Definition fine : CanonicalMessage := MkMessage (lit "a1") RAssistant OAssistant (CAssistant (lit "fine") [] None None []) None.
Definition history : list CanonicalMessage := [StoreSamples.hello; fine].
Definition projected : list ProjectedMessage := match project_messages history with Ok ps => ps | Err _ => [] end.
Definition written : list json :=
  omap (λ m, match wire_message m (lit "gpt-5") None with Ok v => Some v | Err _ => None end) (system_message (lit "be brief") ++ projected).
Definition reader : SerdeSlice :=
  {| from_slice d := match list_find (λ v, flat v = d) written with Some (_, v) => Ok v | None => Err (ForeignError (lit "expected value") []) end;
     replay_of_json := @replay_of_json CheckpointSamples.slice |}.
#[local] Existing Instance reader.
Lemma replays state : replay_of_json (replay_json state) = Ok state.
Proof. exact (CheckpointSamples.replay_laws state). Qed.

(** The client acknowledges whatever it is sent. *)
Definition acks : list SyncOp := (λ k, FromClient 6 (Z.of_nat k) (SetBlobResult None)) <$> seq 1 20.
Definition env (n : nat) : Await := MkAwait (10 + Z.of_nat n) (Ok ()) acks Cancelled.
#[local] Existing Instances world_blobs.
Definition world : World := MkWorld (new_sync empty_cas) ∅ [] 0.
Definition blobs_ : Blobs World := world_blobs env.
#[local] Existing Instance blobs_.
Definition steps : PendingSteps := MkPendingSteps [StepAssistant (lit "fine")] [lit "a.rs"].
Definition builder : Builder :=
  configure (lit "gpt-5") (Some 1000) (lit "be brief") [] [] (Some (MkUser [] 0)) (new_builder (lit "req") None None).
Definition start : Builder * World := (builder, world).
Definition built := build_state (W := World) 7 empty_db history 1 [] steps start.
Definition s1 : Builder * World := built.1.
Definition st : State := match built.2 with Ok st => st | Err _ => default_state end.
Lemma of_ok {A B} (r : A * res B) (b : B) : is_ok r.2 = true → r = (r.1, Ok (match r.2 with Ok x => x | Err _ => b end)).
Proof. by destruct r as [a [x|e]]. Qed.
Lemma built_ok : built = (s1, Ok st).
Proof. assert (is_ok built.2 = true) as H by (vm_compute; reflexivity). unfold s1, st. exact (of_ok built default_state H). Qed.
Lemma start_good : good (stored start.2).
Proof. split; [intros id row H; cbn in H; by rewrite lookup_empty in H|intros p e H; by apply not_elem_of_nil in H]. Qed.
Lemma laws : BlobsLaws World.
Proof. apply world_laws. Qed.
#[local] Existing Instance laws.
Lemma s1_good : good (stored s1.2).
Proof. by destruct (step_safe _ _ _ _ (safe_build_state 7 empty_db history 1 [] steps) built_ok start_good). Qed.

Lemma turn_there : ∃ t, turn s1.1 = Some t.
Proof.
  assert (match turn s1.1 with Some _ => true | None => false end = true) as H by (vm_compute; reflexivity).
  destruct (turn s1.1) as [t|]; [by exists t|discriminate H].
Qed.
Definition conversation : list Z := StoreSamples.conv.
Definition published := publish (W := World) (Some conversation) st s1.
Definition s2 : Builder * World := published.1.
Lemma published_ok : published = (s2, Ok ()).
Proof.
  assert (is_ok published.2 = true) as H by (vm_compute; reflexivity). unfold s2. destruct published as [s [[]|e]]; [done|discriminate H].
Qed.
(** A pass a month later, while the conversation has a run; an old blob that nothing names is due. *)
Definition month : Z := 30 * 24 * 60 * 60 * 1000.
Definition storage : Storage := MkStorage StoreSamples.opened (stored s2.2) (roots_kept s2.2) ∅ ∅ ∅ ∅ [] ∅.
Definition scan : Scan := MkScan [conversation] [] [] (map_to_list (blobs (stored s2.2))).*1.
Definition pass := @prune_inactive_storage decoder CasSamples.foreign_keys scan month storage.
Definition after : Storage := match pass with Ok (s, _) => s | Err _ => storage end.
Lemma pass_ok : ∃ archives, pass = Ok (after, archives).
Proof.
  assert (is_ok pass = true) as H by (vm_compute; reflexivity). unfold after. destruct pass as [[s archives]|]; [by exists archives|done].
Qed.

Definition summary : CanonicalMessage := MkMessage (lit "sum") RUser OUser (CParts [PText (lit "so far")]) None.
Definition resume (w : World) : Builder * World := (adopt (Some st) builder, w).
Lemma resume_good w : good (stored w) → good (stored (resume w).2).
Proof. done. Qed.
Definition resumed : Builder * World := resume s1.2.
Lemma resumed_good : good (stored resumed.2).
Proof. exact (resume_good s1.2 s1_good). Qed.
Definition compaction := compacted (W := World) [summary; fine] 1 (lit "so far") (lit "sum") no_steps resumed.
Lemma compaction_ok : ∃ s' st', compaction = (s', Ok st').
Proof. assert (is_ok compaction.2 = true) as H by (vm_compute; reflexivity). destruct compaction as [s' [st'|]]; [by exists s', st'|done]. Qed.

End BuilderSamples.

#[local] Existing Instances BuilderSamples.digest BuilderSamples.generated BuilderSamples.writer BuilderSamples.base64 BuilderSamples.decoder
  BuilderSamples.numbers BuilderSamples.reader BuilderSamples.blobs_ BuilderSamples.laws CasSamples.foreign_keys StoreSamples.store.

(** The checkpoint of a first turn: three roots, all digests of their messages. *)
Lemma roots_track_history_witness : ∃ wire, stable_messages (lit "be brief") BuilderSamples.history (lit "gpt-5") = Ok wire ∧
  length (root_prompt_messages_json BuilderSamples.st) = length wire ∧ length wire = 3%nat ∧
  root_prompt_messages_json BuilderSamples.st !! 2%nat = Cas.digest <$> wire !! 2%nat.
Proof.
  destruct (roots_track_history 7 empty_db BuilderSamples.history 1 [] BuilderSamples.steps _ _ _ BuilderSamples.start_good I BuilderSamples.built_ok)
    as (wire & Hw & Hl & Hd & _).
  assert (match stable_messages (lit "be brief") BuilderSamples.history (lit "gpt-5") with Ok w => (length w =? 3)%nat | Err _ => false end = true) as H3
    by (vm_compute; reflexivity).
  assert (stable_messages (lit "be brief") BuilderSamples.history (lit "gpt-5") = Ok wire) as Hw' by exact Hw.
  rewrite Hw' in H3. apply Nat.eqb_eq in H3. exists wire. split; [exact Hw'|]. split; [exact Hl|]. split; [exact H3|].
  apply Hd; [right; vm_compute; lia|rewrite H3; lia].
Defined.
(** The conversation of the sample is resumed. *)
Lemma checkpoint_resumed_witness : ∃ s2 messages again,
  hydrate_messages (Some BuilderSamples.st) (BuilderSamples.builder, BuilderSamples.s1.2) = (s2, Ok messages) ∧
  project_messages messages = Ok again ∧ seen <$> again = seen <$> (system_message (lit "be brief") ++ BuilderSamples.projected).
Proof.
  assert (project_messages BuilderSamples.history = Ok BuilderSamples.projected) as Hp by (vm_compute; reflexivity).
  destruct (checkpoint_resumed BuilderSamples.digest_length BuilderSamples.decoded BuilderSamples.replays 7 empty_db BuilderSamples.history 1 []
    BuilderSamples.steps BuilderSamples.start BuilderSamples.s1 BuilderSamples.st BuilderSamples.projected BuilderSamples.builder BuilderSamples.s1.2
    BuilderSamples.start_good I eq_refl BuilderSamples.built_ok Hp) as (s2 & messages & again & H1 & H2 & H3).
  - apply paired_lone; [done|]. apply paired_lone; [done|constructor].
  - assert (BuilderSamples.projected = [MkProjected (lit "runtime:e1") RUser (PCParts [PText (lit "hello")]);
      MkProjected (lit "a1") RAssistant (PCAssistant (lit "fine") [] None [])]) as -> by (vm_compute; reflexivity).
    apply Forall_cons. split; [by right|]. apply Forall_cons. split; [|constructor]. split; [done|]. intros state Hs. discriminate Hs.
  - intros m v Hm Hv. assert (Forall (λ m, match wire_message m (lit "gpt-5") None with Ok v => bool_decide (from_slice (to_vec v) = Ok v) | Err _ => true end = true)
      (system_message (lit "be brief") ++ BuilderSamples.projected)) as Hall by (repeat constructor).
    rewrite Forall_forall in Hall. specialize (Hall m Hm). assert (wire_message m (lit "gpt-5") None = Ok v) as Hv' by exact Hv.
    rewrite Hv' in Hall. exact (bool_decide_eq_true_1 _ Hall).
  - intros wire m id row _ _ _ E. by apply BuilderSamples.digest_inj.
  - exact BuilderSamples.s1_good.
  - apply keeps_refl.
  - exists s2, messages, again. split; [exact H1|]. split; [exact H2|exact H3].
Defined.
(** The checkpoint of the sample is still whole after a month. *)
Lemma published_survives_witness : ∃ t, turn BuilderSamples.s1.1 = Some t ∧ turn_stored t (st_cas BuilderSamples.after) ∧
  sent BuilderSamples.s2.2 = [BuilderSamples.st].
Proof.
  destruct BuilderSamples.pass_ok as [archives Hpass].
  destruct (published_survives BuilderSamples.digest_length 7 empty_db BuilderSamples.history 1 [] BuilderSamples.steps _ _ _ BuilderSamples.conversation _
    BuilderSamples.storage BuilderSamples.after BuilderSamples.start_good I BuilderSamples.built_ok BuilderSamples.published_ok eq_refl eq_refl) as (Hs & _ & _ & Ht).
  { eapply after_pass; [apply after_start| |exact Hpass]. vm_compute. reflexivity. }
  destruct BuilderSamples.turn_there as [t Et]. exists t. destruct (Ht ltac:(discriminate) t Et) as (_ & H & _).
  split; [exact Et|]. split; [exact H|exact Hs].
Defined.
(** The sample conversation is compacted after it was resumed. *)
Lemma compaction_archived_witness : ∃ s' st archive, BuilderSamples.compaction = (s', Ok st) ∧ summary_archive st = Some archive ∧
  is_stored (stored s'.2) archive.
Proof.
  destruct BuilderSamples.compaction_ok as (s' & st' & E).
  destruct (compaction_archived [BuilderSamples.summary; BuilderSamples.fine] 1 (lit "so far") (lit "sum") no_steps BuilderSamples.resumed s' st'
    BuilderSamples.resumed_good E) as (wire & m & bytes & tail & _ & _ & _ & _ & _ & _ & _ & _ & _ & _ & Ha & _ & Hst & _).
  exists s', st', (Cas.digest (encode_archive (MkArchive (summarized_of (root_prompt_messages_json (base BuilderSamples.resumed.1)) (root_prompt_messages_json st'))
    (lit "so far") tail (Cas.digest bytes)))). split; [exact E|]. split; [exact Ha|exact Hst].
Defined.
