(* ===== verification/ToolRound.v ===== *)
(** * ToolRound: one round of tool calls

    server/src/run/tool_round.rs, server/src/run/messages.rs,
    server/src/run/command.rs and [wait_for_state_ready] of server/src/run/engine.rs.

    An asynchronous function of the run is a computation [Run A]: it reads and
    updates the [World] of the run and returns a value or the outcome that ends the
    run; what it had done before an [Err] stays done. *)

From stdpp Require Import prelude gmap strings list.
From S2P Require Import Prelude Errors External Message Budget ModelCycle Store StoreInvariants.
From S2P Require Import StoreMachine.
Local Open Scope Z_scope.

(** server/src/run/command.rs:8-16, [CommandResult]. *)
Inductive CommandResult : Type :=
  | Applied | Duplicate | RunClosing | RunEnded | Suppressed | StaleTarget.

Global Instance CommandResult_eq_dec : EqDecision CommandResult.
Proof. solve_decision. Defined.

(** server/src/run/command.rs:19-23, [MessageBatch]; completing its [result] is an entry
    of [w_results] under its event id. *)
Record MessageBatch : Type := MkBatch { b_event_id : str; b_messages : list CanonicalMessage }.

(** server/src/run/command.rs:32-37, [RunCommand]. *)
Inductive RunCommand : Type :=
  | CToolResultCommand (result : ToolResult)
  | InsertMessages (batch : MessageBatch)
  | BreakMessages (batch : MessageBatch)
  | CancelRun.

(** What the client answers to the barrier of a checkpoint. *)
Inductive barrier_answer : Type :=
  | BarrierReady | BarrierFailed (error : str) | BarrierDropped | BarrierCancelled.

(** ** The world of a run *)
Record World : Type := MkWorld {
  w_db : Db;
  w_client : Channel;
  w_accounted : gset str;
  w_results : list (str * CommandResult);
  w_now : Z
}.
Definition set_db (w : World) (db : Db) : World :=
  MkWorld db (w_client w) (w_accounted w) (w_results w) (w_now w).
Definition set_now (w : World) (now : Z) : World :=
  MkWorld (w_db w) (w_client w) (w_accounted w) (w_results w) now.

Definition Run (A : Type) : Type := World → World * result RunOutcome A.

Global Instance run_ret : MRet Run := λ A a w, (w, Ok a).
Global Instance run_bind : MBind Run := λ A C k m w,
  match m w with
  | (w, Ok a) => k a w
  | (w, Err o) => (w, Err o)
  end.

Lemma bind_run {A C} (m : Run A) (k : A → Run C) w w' c :
  (m ≫= k) w = (w', Ok c) ↔ ∃ w1 a, m w = (w1, Ok a) ∧ k a w1 = (w', Ok c).
Proof.
  unfold mbind, run_bind. destruct (m w) as [w1 [a|o]]; split.
  - intros H. by exists w1, a.
  - intros (w2 & a' & [= -> ->] & H). done.
  - done.
  - by intros (w2 & a' & ? & _).
Qed.

(** Ends the run. *)
Definition fail {A} (o : RunOutcome) : Run A := λ w, (w, Err o).

(** server/src/run/tool_round.rs:290-292, [failed]. *)
Definition failed (error : Error) : RunOutcome := Failed (run_failure_of_error error).

(** server/src/run/engine.rs:2327-2329, [client_failure]. *)
Definition client_failure : RunOutcome := Failed (FClient (lit "client event channel closed")).

(** A transaction of the store. *)
Definition transact {A} (f : Z → Db → res (Db * A)) : Run A := λ w,
  match f (w_now w) (w_db w) with
  | Ok (db, a) => (set_db w db, Ok a)
  | Err e => (w, Err (failed e))
  end.

(** server/src/run/tool_round.rs:282-288, [send]. *)
Definition send_event (event : RunEvent) : Run () := λ w,
  let '(client, ok) := send (w_client w) event in
  (MkWorld (w_db w) client (w_accounted w) (w_results w) (w_now w),
   if ok then Ok () else Err client_failure).

(** [accounted.insert]. *)
Definition account (id : str) : Run () := λ w,
  (MkWorld (w_db w) (w_client w) ({[id]} ∪ w_accounted w) (w_results w) (w_now w), Ok ()).

(** [batch.result.send]. *)
Definition complete_batch (batch : MessageBatch) (r : CommandResult) : Run () := λ w,
  (MkWorld (w_db w) (w_client w) (w_accounted w) (w_results w ++ [(b_event_id batch, r)]) (w_now w),
   Ok ()).

Section ToolRounds.
Context `{B : Backend}.
(** The answers to the barriers, by checkpoint. *)
Context (answers : Z → barrier_answer).

(** server/src/run/engine.rs:2307-2321, [wait_for_state_ready]. *)
Definition wait_for_state_ready (checkpoint : Z) : Run () :=
  match answers checkpoint with
  | BarrierReady => mret ()
  | BarrierFailed error => fail (Failed (FClient error))
  | BarrierDropped => fail client_failure
  | BarrierCancelled => fail RunCancelled
  end.

(** server/src/run/messages.rs:47-75, the events of a batch: one for each inserted
    message, and a wait for the barrier of the last. *)
Fixpoint announce_batch (appended : list ((Z * bool) * CanonicalMessage)) : Run () :=
  match appended with
  | [] => mret ()
  | ((_, false), _) :: appended => announce_batch appended
  | ((checkpoint, true), message) :: appended =>
      _ ← send_event (MessagesCommitted checkpoint 0
            (RuntimeEventCommitted (default [] (runtime_event_id message))) true);
      _ ← (if existsb (λ p, p.1.2) appended then mret () else wait_for_state_ready checkpoint);
      announce_batch appended
  end.

(** server/src/run/messages.rs:26-83, one batch of [append_batches]. *)
Definition append_batch (c run : str) (checkpoint : Z) (batch : MessageBatch) : Run (Z * bool) :=
  if existsb (λ m, bool_decide (runtime_event_id m = None)) (b_messages batch) then
    fail (Failed (FProtocol (lit "runtime message has no event identity")))
  else
    appended ← transact (λ now db, append_messages_once db db now c run checkpoint (b_messages batch));
    _ ← announce_batch (zip appended (b_messages batch));
    _ ← complete_batch batch (if existsb snd appended then Applied else Duplicate);
    mret (default checkpoint (fst <$> last appended), existsb snd appended).

(** server/src/run/messages.rs:16-84, [append_batches]: the head it leaves, and whether
    any message was inserted. *)
Fixpoint append_batches (c run : str) (checkpoint : Z) (batches : list MessageBatch)
    : Run (Z * bool) :=
  match batches with
  | [] => mret (checkpoint, false)
  | batch :: batches =>
      '(checkpoint, inserted) ← append_batch c run checkpoint batch;
      '(checkpoint, inserted_any) ← append_batches c run checkpoint batches;
      mret (checkpoint, inserted || inserted_any)
  end.

(** What [select!] yields to the loop: the cancellation, the deadline, a command, or the
    end of the command channel; each at its time. *)
Inductive round_input : Type :=
  | RoundCancelled | RoundDeadline | RoundCommand (command : RunCommand) | CommandsClosed.

(** The locals of the loop. *)
Record RoundLoop : Type := MkLoop {
  rl_checkpoint : Z;
  rl_remaining : Z;
  rl_completed : gset str;
  rl_insertions : list MessageBatch
}.

(** Why the loop ends: [timed_out], and the messages that broke the round. *)
Record RoundExit : Type := MkExit {
  re_loop : RoundLoop;
  re_timed_out : bool;
  re_break : option MessageBatch
}.

(** Commits a result and announces it; the last one of a round has a barrier. *)
Definition commit_and_announce (c run round : str) (r : ToolResult) (interrupted : bool) : Run Z :=
  committed ← transact (λ now db, commit_tool_result db now c run round r);
  _ ← account (tr_call_id r);
  _ ← send_event (MessagesCommitted (tm_checkpoint committed) (tm_version committed)
        (ToolResultCommitted (tr_call_id r) interrupted) (tm_settled committed));
  _ ← (if tm_settled committed then wait_for_state_ready (tm_checkpoint committed) else mret ());
  mret (tm_checkpoint committed).

(** server/src/run/tool_round.rs:86-162, the loop that awaits the results; [None] while
    it still waits. *)
Fixpoint await_results (c run round : str) (s : RoundLoop) (inputs : list (Z * round_input))
    : Run (option RoundExit) :=
  match inputs with
  | [] => mret None
  | (now, input) :: inputs => λ w,
      (match input with
       | RoundCancelled => fail RunCancelled
       | RoundDeadline => mret (Some (MkExit s true None))
       | CommandsClosed => fail client_failure
       | RoundCommand (CToolResultCommand r) =>
           if decide (tr_call_id r ∈ rl_completed s) then await_results c run round s inputs
           else
             checkpoint ← commit_and_announce c run round r false;
             let s := MkLoop checkpoint (rl_remaining s - 1) ({[tr_call_id r]} ∪ rl_completed s)
                        (rl_insertions s) in
             if rl_remaining s =? 0 then mret (Some (MkExit s false None))
             else await_results c run round s inputs
       | RoundCommand (BreakMessages batch) => mret (Some (MkExit s false (Some batch)))
       | RoundCommand (InsertMessages batch) =>
           await_results c run round
             (MkLoop (rl_checkpoint s) (rl_remaining s) (rl_completed s) (rl_insertions s ++ [batch]))
             inputs
       | RoundCommand CancelRun => fail RunCancelled
       end) (set_now w now)
  end.

(** server/src/run/tool_round.rs:223-280, [interrupt_remaining]. *)
Fixpoint interrupt_remaining (c run round : str) (checkpoint : Z) (calls : list ToolCall)
    (completed : gset str) (reason : str) : Run Z :=
  match calls with
  | [] => mret checkpoint
  | call :: calls =>
      if decide (call_id call ∈ completed) then
        interrupt_remaining c run round checkpoint calls completed reason
      else
        checkpoint ← commit_and_announce c run round (MkToolResult (call_id call) reason true None) true;
        interrupt_remaining c run round checkpoint calls completed reason
  end.

(** server/src/run/tool_round.rs:26-31, [ToolRound]. *)
Record Round : Type := MkRound {
  round_id : str;
  round_assistant : ToolRoundAssistant;
  round_calls : list ToolCall;
  recovered_started_at_ms : option Z
}.

(** server/src/run/tool_round.rs:167-182, the reason of an interrupted result. *)
Definition interruption_reason (timed_out : bool) : str :=
  if timed_out then lit "Tool execution did not report a result in time."
  else lit "Tool execution was interrupted by a newer user message.".

(** server/src/run/tool_round.rs:34-219, [execute]. *)
Definition execute (c run : str) (checkpoint : Z) (round : Round) (insertions : list MessageBatch)
    (inputs : list (Z * round_input)) : Run (option Z) :=
  _ ← transact (λ now db, (λ db, (db, ())) <$>
        create_tool_round db now (round_id round) run checkpoint (round_assistant round)
          (round_calls round) (recovered_started_at_ms round));
  _ ← send_event (MessagesCommitted checkpoint 0 (ToolRoundStarted (round_id round)) false);
  _ ← send_event (ExecuteToolRound (round_id round) (round_calls round));
  ended ← await_results c run (round_id round)
            (MkLoop checkpoint (zlen (round_calls round)) ∅ insertions) inputs;
  match ended with
  | None => mret None
  | Some (MkExit s timed_out broken) =>
      checkpoint ← interrupt_remaining c run (round_id round) (rl_checkpoint s) (round_calls round)
                     (rl_completed s) (interruption_reason timed_out);
      '(checkpoint, _) ← append_batches c run checkpoint (rl_insertions s);
      '(checkpoint, _) ← match broken with
                         | Some batch => append_batches c run checkpoint [batch]
                         | None => mret (checkpoint, false)
                         end;
      mret (Some checkpoint)
  end.

(** server/src/run/engine.rs:2335-2344, [late_tool_result]. *)
Definition late_tool_result (r : ToolResult) (accounted : gset str) : bool :=
  bool_decide (tr_call_id r ∈ accounted).

(** server/src/run/messages.rs:86-101, [drain_accepted]: the commands that are queued;
    [closed] when the channel has no sender left. *)
Fixpoint drain_accepted (queued : list RunCommand) (closed : bool) : result RunOutcome (list MessageBatch) :=
  match queued with
  | [] => if closed then Err client_failure else Ok []
  | (InsertMessages batch | BreakMessages batch) :: queued =>
      batches ← drain_accepted queued closed; Ok (batch :: batches)
  | CancelRun :: _ => Err RunCancelled
  | CToolResultCommand _ :: queued => drain_accepted queued closed
  end.
End ToolRounds.

(** ** What a round commits *)
Section RoundFacts.
Context `{B : Backend} {L : BackendLaws} (answers : Z → barrier_answer).

(** The messages of the results of a round, in the order they were committed. *)
Definition round_messages (round : str) (assistant : ToolRoundAssistant)
    (results : list (ToolCallRow * ToolResult)) : list CanonicalMessage :=
  mjoin (imap (λ i p, result_messages round assistant (Z.of_nat i =? 0) p.1 p.2) results).

Lemma round_messages_snoc round assistant results p :
  round_messages round assistant (results ++ [p]) =
  round_messages round assistant results
    ++ result_messages round assistant (zlen results =? 0) p.1 p.2.
Proof.
  unfold round_messages. rewrite imap_app, join_app. f_equal. cbn.
  by rewrite Nat.add_0_r, ?app_nil_r.
Qed.

(** The state of a round in the database, with its results so far. *)
Record round_state (c round run : str) (assistant : ToolRoundAssistant) (calls : list ToolCall)
    (h : list CanonicalMessage) (db : Db) (checkpoint : Z) (completed : gset str)
    (results : list (ToolCallRow * ToolResult)) : Prop := {
  rs_ok : db_ok db;
  rs_rows : ∃ r rows, tool_rounds db !! round = Some r ∧ tool_round_calls db !! round = Some rows ∧
      tr_run r = run ∧ tr_assistant r = assistant ∧ tr_next_seq r = zlen results ∧
      tc_call_id <$> rows = call_id <$> calls ∧
      (∀ row, row ∈ rows → tc_completed row = None → row ∈ pending_call <$> calls) ∧
      (∀ row, row ∈ rows → tc_completed row ≠ None ↔ tc_call_id row ∈ completed);
  rs_head : ∃ run_row, runs db !! run = Some run_row ∧ head_checkpoint run_row = checkpoint;
  rs_history : history db checkpoint (h ++ round_messages round assistant results);
  rs_row : ck_conversation <$> checkpoints db !! checkpoint = Some c;
  rs_results : Forall (λ p, p.1 ∈ pending_call <$> calls ∧ tc_call_id p.1 = tr_call_id p.2) results;
  rs_nodup : NoDup (tr_call_id <$> results.*2);
  rs_completed id : id ∈ completed ↔ id ∈ tr_call_id <$> results.*2
}.

Lemma commit_state c round run assistant calls h db now checkpoint completed results r db' commit :
  round_state c round run assistant calls h db checkpoint completed results →
  commit_tool_result db now c run round r = Ok (db', commit) →
  later db db' ∧ tr_call_id r ∉ completed ∧ ∃ row,
    round_state c round run assistant calls h db' (tm_checkpoint commit)
      ({[tr_call_id r]} ∪ completed) (results ++ [(row, r)]).
Proof.
  intros S Hc. destruct S as [D (q & rows & Hq & Hrows & Hrun & Has & Hseq & Hids & Hpend & Hdone)
    (rr & Hrr & Hhead) Hload Hconv Hres Hnd Hcomp].
  destruct (checkpoints db !! checkpoint) as [ck|] eqn:Hck; [|done].
  destruct (commit_tool_result_ok _ _ _ _ _ _ _ _ D Hc) as (D' & L' & q' & rows' & row & C).
  destruct C as [C1 C2 C3 C4 (C5a & C5b & C5c) [now' C6] (q2 & C7a & C7b & C7c & C7d & C7e)
    (rr' & C8 & Happ) C9].
  rewrite Hq in C1. injection C1 as <-. rewrite Hrows in C4. injection C4 as <-.
  rewrite Hrr in C8. injection C8 as <-. rewrite Hhead in Happ.
  assert (tr_call_id r ∉ completed) as Hnew.
  { intros Hin. rewrite <- C5b in Hin. by apply (Hdone _ C5a) in Hin. }
  assert (NoDup (tc_call_id <$> rows)) as Hn.
  { destruct (ok_rounds _ D _ _ Hq) as (rs & Hrs & Hn & _). by simplify_eq. }
  destruct (complete_calls (tr_call_id r) (MkCompleted (tr_next_seq q) (tr_content r)
    (tr_is_error r) (tm_checkpoint commit) now') row rows Hn C5a C5b C5c) as (_ & P2 & P3).
  split; [done|]. split; [done|]. exists row.
  assert (∀ x, x ∈ rows → tc_call_id x = tr_call_id r → x = row) as Huniq.
  { intros x Hx Ex. rewrite <- C5b in Ex. apply list_elem_of_lookup in Hx as [i Hi].
    apply list_elem_of_lookup in C5a as [j Hj].
    assert (i = j) as ->; [|congruence].
    eapply NoDup_lookup; [exact Hn| |]; rewrite list_lookup_fmap, ?Hi, ?Hj; cbn; by rewrite ?Ex. }
  split; [done| | | | | | |].
  - exists q2. eexists. split; [done|]. split; [done|]. rewrite C7c, C7d, zlen_app, P2, Hseq. rewrite Hseq in P3.
    do 4 (split; [done|]). split; intros x (y & -> & Hy)%list_elem_of_fmap.
    + destruct (decide (tc_call_id y = tr_call_id r)) as [E|E].
      * rewrite (Huniq y Hy E). unfold complete_call. by rewrite decide_True.
      * rewrite P3 by done. by apply Hpend.
    + destruct (decide (tc_call_id y = tr_call_id r)) as [E|E].
      * rewrite (Huniq y Hy E). unfold complete_call. rewrite decide_True by done. cbn. set_solver.
      * rewrite P3 by done. rewrite Hdone by done. set_solver.
  - destruct Happ as (_ & _ & _ & _ & _ & Hh & _). cbn in Hh.
    destruct (runs db' !! run) as [r'|]; [|done]. injection Hh as Hh. by exists r'.
  - rewrite round_messages_snoc, app_assoc, <- Hseq, <- Has. cbn [fst snd].
    rewrite <- Has in Hload.
    exact (appended_history db (set_rounds db' (tool_rounds db) (tool_round_calls db)) c run checkpoint ck
      _ _ _ D ltac:(destruct D' as [T O _]; split; [by apply (tree_ok_same db')|by apply (owner_ok_same db')|
        by apply (rounds_ok_same db), (ok_rounds _ D)]) (proj1 L') Happ Hck Hload).
  - destruct Happ as (dg & Hcks & _). cbn in Hcks. by rewrite Hcks, lookup_insert_eq.
  - apply Forall_app. split; [done|]. constructor; [|constructor]. split; [by apply Hpend|done].
  - rewrite !fmap_app. apply NoDup_app. split; [done|]. split; [|apply NoDup_singleton].
    intros x Hx ->%list_elem_of_singleton. by apply Hnew, Hcomp.
  - intros id. rewrite !fmap_app, elem_of_app, elem_of_union, elem_of_singleton, Hcomp.
    cbn. rewrite list_elem_of_singleton. naive_solver.
Qed.

(** Only transactions change the database; a run of the others leaves it. *)
Lemma send_event_db ev w w' : send_event ev w = (w', Ok ()) →
  w_db w' = w_db w ∧ w_accounted w' = w_accounted w ∧ w_results w' = w_results w.
Proof. unfold send_event. destruct (send _ _) as [ch []]; [|done]. by intros [= <-]. Qed.
Lemma wait_ready_ok ck w w' u : wait_for_state_ready answers ck w = (w', Ok u) → w' = w.
Proof. unfold wait_for_state_ready. destruct (answers ck); by intros [= <-]. Qed.
Lemma transact_ok {A} (f : Z → Db → res (Db * A)) w w' a : transact f w = (w', Ok a) →
  f (w_now w) (w_db w) = Ok (w_db w', a) ∧ w_accounted w' = w_accounted w ∧ w_results w' = w_results w.
Proof. unfold transact. destruct (f _ _) as [[db x]|]; [|done]. by intros [= <- ->]. Qed.

Lemma commit_and_announce_ok c run round r interrupted w w' ck :
  commit_and_announce answers c run round r interrupted w = (w', Ok ck) →
  ∃ commit, commit_tool_result (w_db w) (w_now w) c run round r = Ok (w_db w', commit) ∧
    ck = tm_checkpoint commit ∧ w_accounted w' = {[tr_call_id r]} ∪ w_accounted w ∧
    w_results w' = w_results w.
Proof.
  unfold commit_and_announce.
  intros (w1 & commit & (H1 & A1 & R1)%transact_ok & (w2 & u & Ha & (w3 & [] & (D3 & A3 & R3)%send_event_db &
    (w4 & [] & Hw & [= <- <-])%bind_run)%bind_run)%bind_run)%bind_run.
  injection Ha as <- <-. cbn in *. assert (w4 = w3) as ->.
  { destruct (tm_settled commit); [by apply wait_ready_ok in Hw|by injection Hw]. }
  exists commit. rewrite D3, A3, R3. split; [done|]. split; [done|]. by rewrite A1.
Qed.

(** The batch a command of the loop brings. *)
Definition batch_of (p : Z * round_input) : option MessageBatch :=
  match p.2 with
  | RoundCommand (InsertMessages batch) | RoundCommand (BreakMessages batch) => Some batch
  | _ => None
  end.

Lemma await_results_ok c run round assistant calls h acc inputs : ∀ s w w' e results,
  round_state c round run assistant calls h (w_db w) (rl_checkpoint s) (rl_completed s) results →
  w_accounted w = acc ∪ rl_completed s →
  await_results answers c run round s inputs w = (w', Ok (Some e)) →
  ∃ results' consumed rest, inputs = consumed ++ rest ∧
    round_state c round run assistant calls h (w_db w') (rl_checkpoint (re_loop e))
      (rl_completed (re_loop e)) results' ∧
    later (w_db w) (w_db w') ∧ w_accounted w' = acc ∪ rl_completed (re_loop e) ∧
    w_results w' = w_results w ∧
    rl_insertions (re_loop e) ++ option_list (re_break e) = rl_insertions s ++ omap batch_of consumed.
Proof.
  induction inputs as [|[now input] inputs IH]; intros s w w' e results S Ha; cbn [await_results]; [done|].
  destruct input as [| |command|]; try done.
  - intros [= <- <-]. exists results, [(now, RoundDeadline)], inputs. by split_and!.
  - destruct command as [r|batch|batch|]; try done.
    + case_decide as Hin.
      * intros H. destruct (IH s (set_now w now) w' e results S Ha H) as (res' & con & rest & -> & H1 & H2 & H3 & H4 & H5).
        exists res', ((now, RoundCommand (CToolResultCommand r)) :: con), rest. by split_and!.
      * intros (w1 & ck & (commit & Hc & -> & Hacc & Hres)%commit_and_announce_ok & H)%bind_run.
        destruct (commit_state _ _ _ _ _ _ _ _ _ _ _ _ _ _ S Hc) as (L1 & Hnew & row & S1).
        cbn [rl_remaining] in H. case_match.
        -- injection H as <- <-. exists (results ++ [(row, r)]), [(now, RoundCommand (CToolResultCommand r))], inputs.
           split_and!; try done. rewrite Hacc. cbn. rewrite Ha. set_solver.
        -- destruct (IH (MkLoop (tm_checkpoint commit) (rl_remaining s - 1)
             ({[tr_call_id r]} ∪ rl_completed s) (rl_insertions s)) w1 w' e (results ++ [(row, r)]) S1)
             as (res' & con & rest & -> & H1 & H2 & H3 & H4 & H5); [|exact H|].
           { rewrite Hacc. cbn. rewrite Ha. set_solver. }
           exists res', ((now, RoundCommand (CToolResultCommand r)) :: con), rest.
           split_and!; try done; [by etrans|by rewrite H4].
    + intros H. destruct (IH (MkLoop (rl_checkpoint s) (rl_remaining s) (rl_completed s)
        (rl_insertions s ++ [batch])) (set_now w now) w' e results S Ha H)
        as (res' & con & rest & -> & H1 & H2 & H3 & H4 & H5).
      exists res', ((now, RoundCommand (InsertMessages batch)) :: con), rest.
      split_and!; try done. rewrite H5. cbn. by rewrite <- app_assoc.
    + intros [= <- <-]. exists results, [(now, RoundCommand (BreakMessages batch))], inputs. by split_and!.
Qed.

Lemma interrupt_remaining_ok c run round assistant calls h acc completed reason todo : ∀ ck done w w' ck' results,
  round_state c round run assistant calls h (w_db w) ck done results → completed ⊆ done →
  w_accounted w = acc ∪ done →
  interrupt_remaining answers c run round ck todo completed reason w = (w', Ok ck') →
  ∃ done' results', round_state c round run assistant calls h (w_db w') ck' done' results' ∧
    later (w_db w) (w_db w') ∧ done ⊆ done' ∧ Forall (λ call, call_id call ∈ done') todo ∧
    w_accounted w' = acc ∪ done' ∧ w_results w' = w_results w.
Proof.
  induction todo as [|call todo IH]; intros ck done w w' ck' results S Hsub Ha; cbn [interrupt_remaining].
  { intros [= <- <-]. exists done, results. by split_and!. }
  case_decide as Hin.
  - intros H. destruct (IH _ _ _ _ _ _ S Hsub Ha H) as (done' & res' & H1 & H2 & H3 & H4 & H5).
    exists done', res'. split_and!; try done; [|apply H5..]. constructor; [set_solver|done].
  - intros (w1 & ck1 & (commit & Hc & -> & Hacc & Hres)%commit_and_announce_ok & H)%bind_run.
    destruct (commit_state _ _ _ _ _ _ _ _ _ _ _ _ _ _ S Hc) as (L1 & Hnew & row & S1). cbn in Hacc, S1.
    destruct (IH (tm_checkpoint commit) ({[call_id call]} ∪ done) w1 w' ck' _ S1)
      as (done' & res' & H1 & H2 & H3 & H4 & H5 & H6); [| |exact H|].
    { set_solver. }
    { rewrite Hacc, Ha. set_solver. }
    exists done', res'. split_and!; try done; [by etrans|set_solver| |by rewrite H6].
    constructor; [set_solver|done].
Qed.

(** ** Batches *)
Lemma announce_batch_ok l : ∀ w w' u, announce_batch answers l w = (w', Ok u) →
  w_db w' = w_db w ∧ w_accounted w' = w_accounted w ∧ w_results w' = w_results w.
Proof.
  induction l as [|[[ck []] m] l IH]; intros w w' u; cbn [announce_batch]; [by intros [= <- _]| |by apply IH].
  intros (w1 & [] & (E1 & E2 & E3)%send_event_db & (w2 & [] & Hw & H)%bind_run)%bind_run.
  assert (w2 = w1) as ->.
  { destruct (existsb _ l); [by injection Hw|by apply wait_ready_ok in Hw]. }
  destruct (IH _ _ _ H) as (F1 & F2 & F3). by rewrite F1, F2, F3.
Qed.

(** The history after a list of batches. *)
Definition with_batches (h : list CanonicalMessage) (batches : list MessageBatch)
    : list CanonicalMessage :=
  foldl (λ h batch, h ++ new_messages h (b_messages batch)) h batches.

Definition same_rounds (db db' : Db) : Prop :=
  tool_rounds db' = tool_rounds db ∧ tool_round_calls db' = tool_round_calls db.

Lemma append_batch_ok c run ck batch w w' ck' ins h row : db_ok (w_db w) →
  checkpoints (w_db w) !! ck = Some row → ck_conversation row = c →
  history (w_db w) ck h →
  append_batch answers c run ck batch w = (w', Ok (ck', ins)) →
  db_ok (w_db w') ∧ later (w_db w) (w_db w') ∧ same_rounds (w_db w) (w_db w') ∧
  ck_conversation <$> checkpoints (w_db w') !! ck' = Some c ∧
  history (w_db w') ck' (h ++ new_messages h (b_messages batch)) ∧
  w_accounted w' = w_accounted w ∧ (w_results w').*1 = (w_results w).*1 ++ [b_event_id batch] ∧
  ins = existsb id (inserted_flags h (b_messages batch)).
Proof.
  intros D Hrow Hc Hl. unfold append_batch. destruct (existsb _ (b_messages batch)); [done|].
  intros (w1 & out & (Hap & A1 & R1)%transact_ok & (w2 & u2 & (E2 & A2 & R2)%announce_batch_ok &
    (w3 & u3 & Hcb & Hret)%bind_run)%bind_run)%bind_run.
  injection Hcb as <- <-. injection Hret as <- <- <-. cbn.
  destruct (append_messages_once_ok _ _ _ _ _ _ _ _ _ row h D D (reflexivity _) Hrow Hc Hl Hap)
    as (D1 & L1 & Hout & _ & Hr & head & -> & Hload & Hcv & _).
  rewrite E2, A2, R2, R1, A1, fmap_app. cbn. split_and!; try done; try apply Hr.
  rewrite <- Hout. clear. induction out as [|[? []] out IH]; cbn; [done..|]. by apply IH.
Qed.

Lemma append_batches_ok c run batches : ∀ ck w w' ck' ins h row, db_ok (w_db w) →
  checkpoints (w_db w) !! ck = Some row → ck_conversation row = c →
  history (w_db w) ck h →
  append_batches answers c run ck batches w = (w', Ok (ck', ins)) →
  db_ok (w_db w') ∧ later (w_db w) (w_db w') ∧ same_rounds (w_db w) (w_db w') ∧
  ck_conversation <$> checkpoints (w_db w') !! ck' = Some c ∧
  history (w_db w') ck' (with_batches h batches) ∧
  w_accounted w' = w_accounted w ∧ (w_results w').*1 = (w_results w).*1 ++ (b_event_id <$> batches).
Proof.
  induction batches as [|batch batches IH]; intros ck w w' ck' ins h row D Hrow Hc Hl; cbn [append_batches].
  { intros [= <- <- _]. rewrite Hrow, app_nil_r. split_and!; try done. cbn. congruence. }
  intros (w1 & [ck1 ins1] & H1 & (w2 & [ck2 ins2] & H2 & [= <- <- _])%bind_run)%bind_run.
  destruct (append_batch_ok _ _ _ _ _ _ _ _ _ _ D Hrow Hc Hl H1) as (D1 & L1 & [S1 S1'] & C1 & Hl1 & A1 & R1 & _).
  destruct (checkpoints (w_db w1) !! ck1) as [row1|] eqn:E1; [|done]. injection C1 as C1.
  destruct (IH _ _ _ _ _ _ _ D1 E1 C1 Hl1 H2) as (D2 & L2 & [S2 S2'] & C2 & Hl2 & A2 & R2).
  split_and!; try done; [by etrans|split; congruence|congruence|]. rewrite R2, R1, <- app_assoc. done.
Qed.

Lemma round_started c round run base assistant calls created h db now db' :
  db_ok db → history db base h → ck_conversation <$> checkpoints db !! base = Some c →
  create_tool_round db now round run base assistant calls created = Ok db' →
  round_state c round run assistant calls h db' base ∅ [] ∧ later db db'.
Proof.
  intros D Hl Hconv Hc. destruct (checkpoints db !! base) as [row|] eqn:Hrow; [|done].
  destruct (create_tool_round_ok _ _ _ _ _ _ _ _ _ D Hc)
    as (D' & L' & Hn & _ & Hr & Hrows & (r & crow & Hrr & _ & Hh & _) & _ & _ & Eck).
  split; [|done]. split; [done| | | | | | |]; cbn.
  - eexists _, _. do 2 (split; [done|]). cbn. do 3 (split; [done|]).
    rewrite <- list_fmap_compose. split; [done|]. split; [done|].
    intros x (call & -> & _)%list_elem_of_fmap. cbn. set_solver.
  - by exists r.
  - rewrite app_nil_r. by apply (extends_history db db' base row); [apply D|apply D'|apply L'| |].
  - by rewrite Eck, Hrow.
  - constructor.
  - constructor.
  - set_solver.
Qed.

(** When every call has its result the round is settled. *)
Lemma round_finished c round run assistant calls h db ck completed results :
  round_state c round run assistant calls h db ck completed results →
  Forall (λ call, call_id call ∈ completed) calls →
  (∃ r rows, tool_rounds db !! round = Some r ∧ tr_status r = RoundSettled ∧
     tool_round_calls db !! round = Some rows ∧ tc_call_id <$> rows = call_id <$> calls ∧
     Forall (λ row, tc_completed row ≠ None) rows) ∧
  tr_call_id <$> results.*2 ≡ₚ call_id <$> calls ∧
  completed = list_to_set (call_id <$> calls).
Proof.
  intros [D (r & rows & Hr & Hrows & _ & _ & _ & Hids & _ & Hdone) _ _ _ Hres Hnd Hcomp] Hall.
  destruct (ok_rounds _ D _ _ Hr) as (rows' & Hrows' & Hn & _ & _ & Hst & _). simplify_eq.
  assert (∀ id, id ∈ call_id <$> calls → id ∈ completed) as Hin.
  { intros id (call & -> & Hc)%list_elem_of_fmap. rewrite Forall_forall in Hall. by apply Hall. }
  assert (Forall (λ row, tc_completed row ≠ None) rows) as Hrd.
  { apply Forall_forall. intros row Hrow. apply (Hdone row Hrow), Hin. rewrite <- Hids.
    by apply list_elem_of_fmap_2. }
  assert (∀ id, id ∈ completed → id ∈ call_id <$> calls) as Hout.
  { intros id (p & -> & (q & -> & Hq)%list_elem_of_fmap)%Hcomp%list_elem_of_fmap.
    rewrite Forall_forall in Hres. destruct (Hres q Hq) as [Hp E].
    apply list_elem_of_fmap in Hp as (call & Ec & Hcall). rewrite <- E, Ec. cbn.
    by apply list_elem_of_fmap_2. }
  split; [|split].
  - exists r, rows. split_and!; try done. apply Hst. eapply Forall_impl; [done|]. cbn. intros row Hd.
    destruct (is_pending row) eqn:E; [|done]. by apply is_pending_spec in E.
  - apply NoDup_Permutation; [done|by rewrite <- Hids|]. intros id. rewrite <- Hcomp. naive_solver.
  - apply set_eq. intros id. rewrite elem_of_list_to_set. naive_solver.
Qed.

(** C30: A tool round that returns has settled: every call has exactly one committed result —
    the first one reported for it, or an interruption when the round was broken or timed
    out — each as an assistant message and its result, in the order of the commits, the
    first carrying the text of the turn; then the messages that were waiting and those
    that arrived during the round, all of which are answered.  From then on every call of
    the round is accounted for.  The history is that of the messages whose payloads the
    checkpoint holds ([StoreInvariants.history], what [history_load] reads back). *)
Theorem round_settles c run base round insertions inputs w w' ck h :
  reachable (w_db w) → history (w_db w) base h →
  ck_conversation <$> checkpoints (w_db w) !! base = Some c →
  execute answers c run base round insertions inputs w = (w', Ok (Some ck)) →
  ∃ results consumed rest batches,
    inputs = consumed ++ rest ∧ batches = insertions ++ omap batch_of consumed ∧
    tr_call_id <$> results.*2 ≡ₚ call_id <$> round_calls round ∧
    Forall (λ p, p.1 ∈ pending_call <$> round_calls round ∧ tc_call_id p.1 = tr_call_id p.2) results ∧
    history (w_db w') ck
      (with_batches (h ++ round_messages (round_id round) (round_assistant round) results) batches) ∧
    (∃ r rows, tool_rounds (w_db w') !! round_id round = Some r ∧ tr_status r = RoundSettled ∧
       tool_round_calls (w_db w') !! round_id round = Some rows ∧
       tc_call_id <$> rows = call_id <$> round_calls round ∧
       Forall (λ row, tc_completed row ≠ None) rows) ∧
    w_accounted w' = w_accounted w ∪ list_to_set (call_id <$> round_calls round) ∧
    (w_results w').*1 = (w_results w).*1 ++ (b_event_id <$> batches).
Proof.
  intros D%reachable_ok Hl Hconv. unfold execute.
  intros (w1 & u1 & (Hcr & A1 & R1)%transact_ok & (w2 & [] & (E2 & A2 & R2)%send_event_db &
    (w3 & [] & (E3 & A3 & R3)%send_event_db & (w4 & ended & Haw & H)%bind_run)%bind_run)%bind_run)%bind_run.
  destruct ended as [[s timed_out broken]|]; [|done].
  destruct (create_tool_round _ _ _ _ _ _ _ _) as [db1|] eqn:Ec; [|done]. cbn in Hcr.
  injection Hcr as Hdb1 _.
  destruct (round_started _ _ _ _ _ _ _ _ _ _ _ D Hl Hconv Ec) as [S1 L1].
  rewrite Hdb1, <- E2, <- E3 in S1, L1.
  destruct (await_results_ok c run _ _ _ h (w_accounted w) inputs
    (MkLoop base (zlen (round_calls round)) ∅ insertions) w3 w4 (MkExit s timed_out broken) [] S1)
    as (res1 & consumed & rest & -> & S2 & L2 & Ha2 & Hr2 & Hb2); [|exact Haw|].
  { cbn. rewrite A3, A2, A1. set_solver. }
  cbn [re_loop re_break rl_insertions] in S2, Ha2, Hb2.
  apply bind_run in H as (w5 & ck5 & Hint & (w6 & [ck6 i6] & Hb6 & (w7 & [ck7 i7] & Hb7 & Hret)%bind_run)%bind_run).
  injection Hret as <- <-.
  destruct (interrupt_remaining_ok _ _ _ _ _ _ (w_accounted w) _ _ _ _ _ _ _ _ _ S2 (reflexivity _) Ha2 Hint)
    as (done5 & res5 & S5 & L5 & _ & Hall & Ha5 & Hr5).
  destruct (round_finished _ _ _ _ _ _ _ _ _ _ S5 Hall) as (Hset & Hperm & Hdone).
  pose proof (rs_row _ _ _ _ _ _ _ _ _ _ S5) as Hc5.
  destruct (checkpoints (w_db w5) !! ck5) as [row5|] eqn:Hrow5; [|done]. injection Hc5 as Hc5.
  destruct (append_batches_ok _ _ _ _ _ _ _ _ _ _ (rs_ok _ _ _ _ _ _ _ _ _ _ S5) Hrow5 Hc5
    (rs_history _ _ _ _ _ _ _ _ _ _ S5) Hb6) as (D6 & L6 & [T6 T6'] & C6 & Hl6 & A6 & R6).
  destruct (checkpoints (w_db w6) !! ck6) as [row6|] eqn:Erow6; [|done]. injection C6 as C6.
  assert (append_batches answers c run ck6 (option_list broken) w6 = (w7, Ok (ck7, i7))) as Hb7'.
  { destruct broken; [done|]. by injection Hb7 as <- <- <-. }
  destruct (append_batches_ok _ _ _ _ _ _ _ _ _ _ D6 Erow6 C6 Hl6 Hb7')
    as (D7 & L7 & [T7 T7'] & C7 & Hl7 & A7 & R7).
  exists res5, consumed, rest, (insertions ++ omap batch_of consumed).
  rewrite T7, T6, T7', T6', A7, A6, Ha5, Hdone, R7, R6, Hr5, Hr2, R3, R2, R1.
  split_and!; try done.
  - apply (rs_results _ _ _ _ _ _ _ _ _ _ S5).
  - rewrite <- Hb2. unfold with_batches in *. by rewrite foldl_app.
  - by rewrite <- app_assoc, <- fmap_app, Hb2.
Qed.
End RoundFacts.

(** ** Witnesses *)
Module RoundSamples.
Definition answers (_ : Z) : barrier_answer := BarrierReady.
Definition call (i : Z) (id : string) : ToolCall :=
  MkToolCall i (lit id) (lit "m1") (lit "ls") [] (JObject []) None.
Definition assistant : ToolRoundAssistant := MkRoundAssistant (lit "on it") [] (lit "m1") None.
Definition first_round : Round := MkRound (lit "r1:round:0") assistant [call 0 "a"; call 1 "b"] None.
Definition second_round : Round := MkRound (lit "r1:round:1") assistant [call 0 "c"] None.
Definition reported (id : string) : ToolResult := MkToolResult (lit id) (lit "done") false None.
Definition interrupted (id : string) : ToolResult :=
  MkToolResult (lit id) (interruption_reason true) true None.

Definition known : list CanonicalMessage :=
  result_messages (lit "r1:round:0") assistant true (pending_call (call 0 "a")) (reported "a")
  ++ result_messages (lit "r1:round:0") assistant false (pending_call (call 1 "b")) (interrupted "b")
  ++ [StoreSamples.hello].
Definition store : Backend := StoreSamples.backend known.

Definition world : World :=
  MkWorld StoreSamples.opened (MkChannel (Some 100%nat) []) ∅ [] 20.
Definition greeting : MessageBatch := MkBatch (lit "e1") [StoreSamples.hello].

(** [a] reports, a message arrives, then the deadline passes with [b] outstanding. *)
Definition inputs : list (Z * round_input) :=
  [(21, RoundCommand (CToolResultCommand (reported "a"))); (22, RoundCommand (InsertMessages greeting));
   (1900, RoundDeadline)].
Definition after_first : World * result RunOutcome (option Z) :=
  @execute store answers StoreSamples.conv (lit "r1") 1 first_round [] inputs world.

Lemma round_opened_reachable : @reachable store (w_db world).
Proof.
  eapply rtc_l.
  { eapply (@step_ensure store _ 10 StoreSamples.conv _ 1). vm_compute. reflexivity. }
  eapply rtc_once. eapply (@step_claim store _ 11 (StoreSamples.prepared "r1")). vm_compute. reflexivity.
Qed.
End RoundSamples.

Lemma round_settles_witness : ∃ w' ck (results : list (ToolCallRow * ToolResult)) r,
  @execute RoundSamples.store RoundSamples.answers StoreSamples.conv (lit "r1") 1
    RoundSamples.first_round [] RoundSamples.inputs RoundSamples.world = (w', Ok (Some ck)) ∧
  tr_call_id <$> results.*2 ≡ₚ [lit "a"; lit "b"] ∧
  tool_rounds (w_db w') !! (lit "r1:round:0") = Some r ∧ tr_status r = RoundSettled.
Proof.
  assert (match (@execute RoundSamples.store RoundSamples.answers StoreSamples.conv (lit "r1") 1
    RoundSamples.first_round [] RoundSamples.inputs RoundSamples.world).2 with
    Ok (Some _) => true | _ => false end = true) as H by (vm_compute; reflexivity).
  destruct (@execute RoundSamples.store RoundSamples.answers StoreSamples.conv (lit "r1") 1
    RoundSamples.first_round [] RoundSamples.inputs RoundSamples.world)
    as [w' [[ck|]|o]] eqn:E; [|discriminate H|discriminate H]. clear H.
  assert (@history RoundSamples.store (w_db RoundSamples.world) 1 []) as Hl by (vm_compute; constructor).
  assert (ck_conversation <$> checkpoints (w_db RoundSamples.world) !! 1 = Some StoreSamples.conv)
    as Hc by (vm_compute; reflexivity).
  destruct (round_settles (L := StoreSamples.backend_laws _) RoundSamples.answers StoreSamples.conv
    (lit "r1") 1 RoundSamples.first_round [] RoundSamples.inputs RoundSamples.world w' ck []
    RoundSamples.round_opened_reachable Hl Hc E)
    as (results & consumed & rest & batches & _ & _ & Hp & _ & _ & (r & rows & Hr & Hs & _) & _).
  exists w', ck, results, r. split; [reflexivity|]. split; [exact Hp|]. split; [exact Hr|exact Hs].
Defined.

(** The comment of [late_tool_result] says that a result arriving after its round timed out
    must not fail the run.  The rounds do not use it: [b] timed out in the first round and
    is accounted for, and its result arriving during the second round ends the run. *)
Lemma late_result_fails_next_round :
  match RoundSamples.after_first with
  | (w, Ok (Some ck)) =>
      late_tool_result (RoundSamples.reported "b") (w_accounted w) = true ∧
      (@execute RoundSamples.store RoundSamples.answers StoreSamples.conv (lit "r1") ck
         RoundSamples.second_round []
         [(2000, RoundCommand (CToolResultCommand (RoundSamples.reported "b")))] w).2 =
      Err (Failed (FProtocol (lit "unknown tool result call_id: b")))
  | _ => False
  end.
Proof. vm_compute. by split. Qed.
