(* ===== verification/Engine.v ===== *)
(** * Engine: a run from its claim to its end

    server/src/run/engine.rs: [RunEngine::run], [run_claimed] with its loop of model calls,
    [auto_compact] and [await_background_subagents].

    A run is a computation [Eng A] over an [Engine]: the [World] of ToolRound.v, the phase
    the run's handle sees, the usage so far, the invocations the provider was given, and the
    inputs.  Wherever the code suspends, the environment decides what happens: the stream of
    a model call and the commands that arrive meanwhile, the results of a round, the end of a
    delay, what the children do.  [en_inputs] is that sequence, one [Await] for each
    suspension in the order they are reached; a run whose inputs are used up still waits.

    One run is modelled: nothing else writes its database meanwhile. The reads of tables that
    other components write (models, observability, image blobs, the archive) are parameters. *)

From stdpp Require Import prelude gmap strings list.
From S2P Require Import Prelude Errors External Message Configuration Tokens Float Budget Trim Compaction Summary.
From S2P Require Import ModelCycle Store StoreInvariants StoreMachine ToolRound.
Local Open Scope Z_scope.

(** server/src/run/handle.rs:14-18, [RunPhase]. *)
Inductive RunPhase : Type := PhaseRunning | PhaseFinalizing | PhaseEnded.
Global Instance RunPhase_eq_dec : EqDecision RunPhase.
Proof. solve_decision. Defined.

(** server/src/run/handle.rs:36-41, [RunPhaseControl::begin_finalizing]. *)
Definition begin_finalizing (phase : RunPhase) : RunPhase :=
  match phase with PhaseRunning => PhaseFinalizing | _ => phase end.
(** server/src/run/handle.rs:43-48, [RunPhaseControl::resume_running]. *)
Definition resume_running (phase : RunPhase) : RunPhase :=
  match phase with PhaseFinalizing => PhaseRunning | _ => phase end.

(** server/src/model/inference.rs:27-31, [CallPurpose]. *)
Inductive CallPurpose : Type := Chat | CompactionSummary.
(** server/src/model/inference.rs:15-19, [ModelRequest]. *)
Record ModelRequest : Type := MkRequest {
  rq_prompt : PromptSpec;
  rq_model : ModelSpec;
  rq_history : list ProjectedMessage
}.
(** server/src/model/inference.rs:43-52, [ModelInvocation]: of the engine, whose client is
    always Cursor. *)
Record ModelInvocation : Type := MkInvocation {
  iv_call_id : str;
  iv_run_id : str;
  iv_conversation_id : str;
  iv_provider_call_index : Z;
  iv_purpose : CallPurpose;
  iv_request : ModelRequest
}.

(** ** Suspensions *)

(** What arrives while a model call runs: an item of its stream, a command, or the end of
    the command channel. *)
Inductive call_input : Type :=
  | CallPolled (p : polled)
  | CallCommand (command : RunCommand)
  | CallClosed.
(** What ends or interrupts the delay before a retry. *)
Inductive delay_input : Type :=
  | DelayElapsed | DelayCancelled
  | DelayCommand (command : RunCommand)
  | DelayClosed.
(** What wakes the wait for background children. *)
Inductive wait_input : Type :=
  | WaitElapsed | WaitCancelled
  | WaitCommand (command : RunCommand)
  | WaitClosed.
(** One turn of that wait: what the activity query returns, the wall clock, the monotonic
    clock, and what wakes it. *)
Record WaitPoll : Type := MkPoll {
  wp_activity : res (option Z);
  wp_now_ms : Z;
  wp_instant : Z;
  wp_input : wait_input
}.

Inductive Await : Type :=
  | AwaitTop (cancelled : bool)
  | AwaitCall (inputs : list (Z * call_input)) (cancelled : bool)
  | AwaitDelay (inputs : list (Z * delay_input))
  | AwaitRound (inputs : list (Z * round_input))
  | AwaitChildren (running : res bool)
  | AwaitBackground (started_at_ms started : Z) (polls : list WaitPoll)
  | AwaitQueue (queued : list RunCommand) (closed : bool).

Record Engine : Type := MkEngine {
  en_world : World;
  en_phase : RunPhase;
  en_usage : option Usage;
  en_calls : list ModelInvocation;
  en_inputs : list Await
}.
Definition set_world (e : Engine) (w : World) : Engine :=
  MkEngine w (en_phase e) (en_usage e) (en_calls e) (en_inputs e).
Definition set_phase (e : Engine) (phase : RunPhase) : Engine :=
  MkEngine (en_world e) phase (en_usage e) (en_calls e) (en_inputs e).

(** Why a computation stops: the run ends, or it waits for an input that is not there. *)
Inductive Stop : Type := Ends (o : RunOutcome) | Waits.

Definition Eng (A : Type) : Type := Engine → Engine * result Stop A.
Global Instance eng_ret : MRet Eng := λ A a e, (e, Ok a).
Global Instance eng_bind : MBind Eng := λ A C k m e,
  match m e with
  | (e, Ok a) => k a e
  | (e, Err s) => (e, Err s)
  end.

Lemma bind_eng {A C} (m : Eng A) (k : A → Eng C) e e' c :
  (m ≫= k) e = (e', Ok c) ↔ ∃ e1 a, m e = (e1, Ok a) ∧ k a e1 = (e', Ok c).
Proof.
  unfold mbind, eng_bind. destruct (m e) as [e1 [a|s]]; split.
  - intros H. by exists e1, a.
  - intros (e2 & a' & [= -> ->] & H). done.
  - done.
  - by intros (e2 & a' & ? & _).
Qed.

(** [return (outcome, usage)]. *)
Definition ends {A} (o : RunOutcome) : Eng A := λ e, (e, Err (Ends o)).
Definition waits {A} : Eng A := λ e, (e, Err Waits).
Definition of_res {A} (r : res A) : Eng A :=
  match r with Ok a => mret a | Err error => ends (failed error) end.

(** A computation of the world; one that has not returned waits. *)
Definition in_world {A} (m : Run A) : Eng A := λ e,
  match m (en_world e) with
  | (w, Ok a) => (set_world e w, Ok a)
  | (w, Err o) => (set_world e w, Err (Ends o))
  end.
Definition returned {A} (m : Run (option A)) : Eng A :=
  a ← in_world m; match a with Some a => mret a | None => waits end.

(** The next suspension. *)
Definition next_await : Eng Await := λ e,
  match en_inputs e with
  | [] => (e, Err Waits)
  | a :: inputs => (MkEngine (en_world e) (en_phase e) (en_usage e) (en_calls e) inputs, Ok a)
  end.

(** server/src/run/engine.rs:2300-2305, [accumulate_usage], of the usage of the run. *)
Definition add_run_usage (usage : option Usage) : Eng () := λ e,
  (MkEngine (en_world e) (en_phase e)
     (match usage with Some u => accumulate_usage (en_usage e) u | None => en_usage e end)
     (en_calls e) (en_inputs e), Ok ()).
Definition change_phase (f : RunPhase → RunPhase) : Eng () := λ e, (set_phase e (f (en_phase e)), Ok ()).
Definition invoke (i : ModelInvocation) : Eng () := λ e,
  (MkEngine (en_world e) (en_phase e) (en_usage e) (en_calls e ++ [i]) (en_inputs e), Ok ()).
Definition read_world : Eng World := λ e, (e, Ok (en_world e)).

(** The time of what follows. *)
Definition set_clock (now : Z) : Eng () := λ e, (set_world e (set_now (en_world e) now), Ok ()).

(** [if emit(client, event).await.is_err() { return client_failure() }]. *)
Definition emit (event : RunEvent) : Eng () := in_world (send_event event).
(** [let _ = emit(client, event).await]. *)
Definition notify (event : RunEvent) : Eng () := λ e, (set_world e ((send_event event (en_world e)).1), Ok ()).

(** A loop whose turns each use an input. *)
Fixpoint eloop {S A : Type} (body : S → Eng (flow S A)) (fuel : nat) (s : S) : Eng A :=
  match fuel with
  | O => waits
  | Datatypes.S fuel =>
      r ← body s;
      match r with
      | Next s => eloop body fuel s
      | Done a => mret a
      end
  end.
Definition loop_inputs {S A : Type} (body : S → Eng (flow S A)) (s : S) : Eng A := λ e,
  eloop body (Datatypes.S (length (en_inputs e))) s e.

(** ** A model call and the commands that arrive meanwhile *)

(** How it ends: by itself, or by a command after which the call was cancelled. *)
Inductive call_end : Type :=
  | CallFinished (r : result ModelCycleFailure ModelCycleResult)
  | CallBroken (batch : MessageBatch) (r : result ModelCycleFailure ModelCycleResult)
  | CallStopped
  | CallToolResult
  | CallChannelClosed.

Definition call_usage (r : result ModelCycleFailure ModelCycleResult) : option Usage :=
  match r with Ok c => r_usage c | Err f => f_usage f end.

Section Calls.
Context {SJ : SerdeJson}.

(** [cycle_cancellation.cancel(); cycle.await]: the call is polled to its end. *)
Fixpoint drain_cycle (s : Cycle) (inputs : list (Z * call_input))
    : option (Z * Cycle * result ModelCycleFailure ModelCycleResult) :=
  match inputs with
  | (now, CallPolled p) :: inputs =>
      match cycle_turn s now p with
      | Next s => drain_cycle s inputs
      | Done (s, r) => Some (now, s, r)
      end
  | _ => None
  end.

(** server/src/run/engine.rs:740-830, [run_claimed]: the loop of [select!] around a call;
    server/src/run/engine.rs:1966-2003, [auto_compact]: the same loop. *)
Fixpoint call_loop (accounted : gset str) (s : Cycle) (inserted : list MessageBatch)
    (inputs : list (Z * call_input)) : option (Z * Cycle * list MessageBatch * call_end) :=
  match inputs with
  | [] => None
  | (now, CallPolled p) :: inputs =>
      match cycle_turn s now p with
      | Next s => call_loop accounted s inserted inputs
      | Done (s, r) => Some (now, s, inserted, CallFinished r)
      end
  | (_, CallCommand (InsertMessages batch)) :: inputs =>
      call_loop accounted s (inserted ++ [batch]) inputs
  | (_, CallCommand (BreakMessages batch)) :: inputs =>
      '(now, s, r) ← drain_cycle s inputs; Some (now, s, inserted, CallBroken batch r)
  | (_, CallCommand CancelRun) :: inputs =>
      '(now, s, _) ← drain_cycle s inputs; Some (now, s, inserted, CallStopped)
  | (_, CallCommand (CToolResultCommand r)) :: inputs =>
      if late_tool_result r accounted then call_loop accounted s inserted inputs
      else '(now, s, _) ← drain_cycle s inputs; Some (now, s, inserted, CallToolResult)
  | (_, CallClosed) :: inputs =>
      '(now, s, _) ← drain_cycle s inputs; Some (now, s, inserted, CallChannelClosed)
  end.
End Calls.

Definition set_client (w : World) (client : Channel) : World :=
  MkWorld (w_db w) client (w_accounted w) (w_results w) (w_now w).

(** Runs a call whose events go to the client, or to nobody: [Some(&cycle_events)] or [None],
    and the channel of a summary, which is drained. *)
Definition await_call `{SJ : SerdeJson} (visible : bool) (inserted : list MessageBatch)
    : Eng (list MessageBatch * call_end * bool) :=
  a ← next_await;
  match a with
  | AwaitCall inputs cancelled => λ e,
      let w := en_world e in
      let client := w_client w in
      match call_loop (w_accounted w) (new_cycle (if visible then room client else None)) inserted inputs with
      | None => (e, Err Waits)
      | Some (now, s, inserted, how) =>
          let client := if visible then MkChannel (room (c_client s)) (sent client ++ sent (c_client s))
                        else client in
          (set_world e (set_now (set_client w client) now), Ok (inserted, how, cancelled))
      end
  | _ => waits
  end.

(** ** The run *)

(** server/src/run/engine.rs:229-233, [SummaryTarget]. *)
Record SummaryTarget : Type := MkTarget {
  st_model : ModelSpec;
  st_context_window : option Z;
  st_output_tokens : Z
}.

(** The locals of [run_claimed] that outlive a turn of its loop. *)
Record Locals : Type := MkLocals {
  l_checkpoint : Z;
  l_anchor : option ContextUsageAnchor;
  l_compaction_run : PreparedRun;
  l_overflow : OverflowEpisode;
  l_detail_retry : bool;
  l_short_summary : option str
}.
Definition at_checkpoint (l : Locals) (checkpoint : Z) : Locals :=
  MkLocals checkpoint (l_anchor l) (l_compaction_run l) (l_overflow l) (l_detail_retry l) (l_short_summary l).
Definition with_overflow (l : Locals) (o : OverflowEpisode) : Locals :=
  MkLocals (l_checkpoint l) (l_anchor l) (l_compaction_run l) o (l_detail_retry l) (l_short_summary l).
Definition with_anchor (l : Locals) (a : option ContextUsageAnchor) : Locals :=
  MkLocals (l_checkpoint l) a (l_compaction_run l) (l_overflow l) (l_detail_retry l) (l_short_summary l).
Definition with_compaction_run (l : Locals) (p : PreparedRun) : Locals :=
  MkLocals (l_checkpoint l) (l_anchor l) p (l_overflow l) (l_detail_retry l) (l_short_summary l).
Definition with_short_summary (l : Locals) (s : str) : Locals :=
  MkLocals (l_checkpoint l) (l_anchor l) (l_compaction_run l) (l_overflow l) true (Some s).
(** A compaction was committed: the anchor no longer counts this history. *)
Definition compacted (l : Locals) (checkpoint : Z) : Locals :=
  MkLocals checkpoint None (l_compaction_run l) (l_overflow l) (l_detail_retry l) (l_short_summary l).

(** [update_context_usage_anchor] and [accumulate_usage], when the call reported a usage. *)
Definition anchored (anchor : option ContextUsageAnchor) (usage : option Usage) (messages : Z)
    : option ContextUsageAnchor :=
  match usage with Some u => update_context_usage_anchor anchor u messages | None => anchor end.

(** server/src/run/engine.rs:89-89, [CONTINUE_MESSAGE_ID], [CONTINUE_INSTRUCTION]. *)
Definition CONTINUE_MESSAGE_ID : str := lit "runtime:continue".
Definition CONTINUE_INSTRUCTION : str := lit "Continue from where you left off.".

(** server/src/run/compaction.rs:971-975, [detail_retry_instructions]. *)
Definition detail_retry_instructions (minimum_chars : Z) : str :=
  nl ++ nl ++ lit "## Detail Retry" ++ nl
  ++ lit "The previous handover was too short for this history. Regenerate it from scratch and return at least "
  ++ decimal minimum_chars
  ++ lit " characters. Preserve every still-true requirement, correction, decision, path, command, identifier, number, error, and unfinished item. Do not describe the retry itself.".

(** server/src/run/compaction.rs:110-110, [OUTPUT_TOKENS]. *)
Definition OUTPUT_TOKENS : Z := 8192.

(** server/src/run/engine.rs:1720-1734, [summary_output_tokens]. *)
Definition summary_output (settings : CompactionSettings) (configured : option ModelConfig)
    (run_limit : option Z) : Z :=
  let requested := default OUTPUT_TOKENS (Budget.summary_output_tokens settings) in
  let limit := match configured with
               | Some c => config_max_output_tokens c
               | None => run_limit
               end in
  match limit with Some limit => Z.min requested limit | None => requested end.

(** server/src/run/engine.rs:1500-1524, [persist_truncated_assistant], and 1303-1318,
    [run_claimed]: the assistant message of a model call. *)
Definition assistant_message (run : str) (index : Z) (text thinking : str)
    (replay : option ProviderReplayState) : CanonicalMessage :=
  MkMessage (run ++ lit ":assistant:" ++ decimal index) RAssistant OAssistant
    (CAssistant text thinking None replay []) None.

Section Run.
Context {SJ : SerdeJson} `{B : Backend}.
(** The answers to the barriers, by checkpoint. *)
Context (answers : Z → barrier_answer).
(** The summarizer's prompt (prompt/cursor/compaction/prompt.md), the bytes of an image blob
    ([ImageCache::data]), the configured models, the path of the archive that is written at
    a time, and the fuel of [truncate_middle]. *)
Context (SUMMARY_INSTRUCTIONS : str).
Context (image_data : str → res (list Z)).
Context (models : str → option ModelConfig).
Context (archive : Z → list CanonicalMessage → option str).
Context (prune_fuel : nat).

(** server/src/run/engine.rs:56-83, [ImageCache::hydrate]: one message. *)
Definition hydrate_one (m : ProjectedMessage) : res ProjectedMessage :=
  match p_content m with
  | PCToolResult r =>
      match r_image r with
      | Some image =>
          data ← image_data (blob_id image);
          Ok (MkProjected (p_message_id m) (p_role m)
                (PCToolResult (MkResult (r_call_id r) (r_name r) (r_content r) (r_is_error r) (r_image r)
                   [PText (r_content r); PImage (image_mime_type image) data])))
      | None => Ok m
      end
  | _ => Ok m
  end.
(** server/src/run/engine.rs:56-83, [ImageCache::hydrate]. *)
Fixpoint hydrate (messages : list ProjectedMessage) : res (list ProjectedMessage) :=
  match messages with
  | [] => Ok []
  | m :: messages => m ← hydrate_one m; messages ← hydrate messages; Ok (m :: messages)
  end.

(** *** Commits *)

(** A commit that the client confirms before the run goes on. *)
Definition announce (checkpoint : Z) (cause : CommitCause) : Eng () :=
  _ ← emit (MessagesCommitted checkpoint 0 cause true);
  in_world (wait_for_state_ready answers checkpoint).

(** [append_batches]: the new head and whether anything was inserted. *)
Definition append (p : PreparedRun) (checkpoint : Z) (batches : list MessageBatch) : Eng (Z * bool) :=
  in_world (append_batches answers (conversation_id p) (run_id p) checkpoint batches).

(** server/src/run/engine.rs:795-827, [run_claimed]: what was waiting, then the messages
    that interrupted the call. *)
Definition append_interruption (p : PreparedRun) (checkpoint : Z) (pending : list MessageBatch)
    (interruption : MessageBatch) : Eng Z :=
  '(checkpoint, _) ← append p checkpoint pending;
  '(checkpoint, _) ← append p checkpoint [interruption];
  mret checkpoint.

(** server/src/run/engine.rs:1500-1553, [persist_truncated_assistant]. *)
Definition persist_truncated_assistant (p : PreparedRun) (checkpoint : Z) (f : ModelCycleFailure) (index : Z)
    : Eng () :=
  next ← in_world (transact (λ now db, append_checkpoint db now (conversation_id p) (run_id p) checkpoint
           [assistant_message (run_id p) index (f_partial_text f) (f_partial_reasoning f) (f_replay_state f)]));
  announce next FinalTurn.

(** *** The initial messages *)

(** server/src/store/messages.rs:12-27, [message]. *)
Definition stored_message (db : Db) (c id : str) : res (option CanonicalMessage) :=
  match messages db !! (c, id) with
  | None => Ok None
  | Some row => match decode_message (payload_json row) with
                | Ok m => Ok (Some m)
                | Err error => Err (Json error)
                end
  end.

(** server/src/run/engine.rs:374-452, [run_claimed]: what is to be committed of the initial
    messages, and whether a completion among them was delivered before. *)
Fixpoint collect_initial (p : PreparedRun) (db : Db) (pending initial : list CanonicalMessage)
    : res (list CanonicalMessage * bool) :=
  match initial with
  | [] => Ok (pending, false)
  | m :: initial =>
      match action p with
      | BackgroundCompletion =>
          known ← stored_message db (conversation_id p) (message_id m);
          match known with
          | Some _ => Ok (pending, true)
          | None => collect_initial p db (pending ++ [m]) initial
          end
      | _ => collect_initial p db (pending ++ [m]) initial
      end
  end.

(** The commit of a batch of initial messages: the head and whether any was new. *)
Definition commit_initial (p : PreparedRun) (checkpoint : Z) (pending : list CanonicalMessage) : Eng (Z * bool) :=
  match pending with
  | [] => mret (checkpoint, false)
  | _ =>
      appended ← in_world (transact (λ now db,
        append_messages_once db db now (conversation_id p) (run_id p) checkpoint pending));
      mret (default checkpoint (fst <$> last appended), existsb snd appended)
  end.

(** server/src/run/engine.rs:369-497, [run_claimed]: the initial messages; [None] when the run
    has nothing to do. *)
Definition deliver_initial (p : PreparedRun) (checkpoint : Z) : Eng (option Z) :=
  match initial_messages p with
  | [] => mret (Some checkpoint)
  | initial =>
      w ← read_world;
      '(pending, delivered) ← of_res (collect_initial p (w_db w) [] initial);
      '(checkpoint, changed) ← commit_initial p checkpoint pending;
      if (delivered : bool) then _ ← announce checkpoint InitialMessages; mret None
      else if (changed : bool) then _ ← announce checkpoint InitialMessages; mret (Some checkpoint)
      else mret (Some checkpoint)
  end.

(** *** Compaction *)

(** server/src/run/engine.rs:1736-1748, [configured_model]. *)
Definition configured_model (hash : str) : option ModelConfig :=
  match trim hash with [] => None | hash => models hash end.

(** server/src/run/engine.rs:1752-1793, [summary_target]. *)
Definition summary_target (p : PreparedRun) (settings : CompactionSettings) : SummaryTarget :=
  let configured := configured_model (summary_model_hash settings) in
  let run_limit := match configured with
                   | Some _ => None
                   | None => c ← models (model_id (model p)); config_max_output_tokens c
                   end in
  let output := summary_output settings configured run_limit in
  let m := summary_model (model p) output in
  match configured with
  | None => MkTarget m (context_window_tokens (model p)) output
  | Some target =>
      let cap := match config_max_output_tokens target with
                 | Some limit => Some (Z.min output limit)
                 | None => max_output_tokens m
                 end in
      let window := match context_window_tokens (model p), in_context_window_tokens (config target) with
                    | Some conversation, Some summary => Some (Z.min conversation summary)
                    | conversation, summary => or_else summary conversation
                    end in
      MkTarget (MkModel (model_hash target) (Some (in_display_name (config target))) (reasoning m) (latency m)
                  cap (context_window_tokens m) (supports_image_generation m) (extra_params m)
                  (stop_sequences m)) window output
  end.

(** [minimum_summary_chars(..).min(output_tokens * 4)]. *)
Definition wanted_summary_chars (messages : list CanonicalMessage) (target : SummaryTarget) : Z :=
  Z.min (minimum_summary_chars messages) (sat_mul (st_output_tokens target) 4).

Definition or_wait {A} (a : option A) : Eng A := match a with Some a => mret a | None => waits end.
Definition run_index (p : PreparedRun) (index : Z) : str := run_id p ++ lit ":" ++ decimal index.
Definition plus_usage (total usage : option Usage) : option Usage :=
  match usage with Some u => accumulate_usage total u | None => total end.

(** The locals of the loop of [auto_compact]. *)
Record Summarizing : Type := MkSummarizing {
  sm_attempts : Z;
  sm_tighten : bool;
  sm_instructions : str;
  sm_usage : option Usage;
  sm_call_index : option Z;
  sm_short : option str;
  sm_pending : list MessageBatch
}.
(** What the loop leaves: the summary, and the messages that broke the call. *)
Record Summarized : Type := MkSummarized {
  sd_summary : str;
  sd_usage : option Usage;
  sd_call_index : Z;
  sd_pending : list MessageBatch;
  sd_break : option MessageBatch
}.

(** The summary without a usable answer: what a first answer gave, or a digest. *)
Definition summary_without_model (short : option str) (compactable : list CanonicalMessage) : str :=
  match short with
  | Some summary => short_summary_addendum summary compactable
  | None => fallback_summary compactable
  end.

(** server/src/run/engine.rs:2026-2146, [auto_compact]: what follows a summary call; whether to
    retry, and whether the retry replays less. *)
Definition summarized (compactable : list CanonicalMessage) (minimum : Z) (s : Summarizing)
    (pending : list MessageBatch) (r : result ModelCycleFailure ModelCycleResult) : flow Summarizing Summarized :=
  let usage := plus_usage (sm_usage s) (call_usage r) in
  let index := default 0 (sm_call_index s) in
  let retry instructions tighten short :=
    Next (MkSummarizing (sm_attempts s) tighten instructions usage (sm_call_index s) short pending) in
  let give summary := Done (MkSummarized summary usage index pending None) in
  let no_summary (retryable tighten : bool) :=
    if (sm_attempts s <? 2) && retryable then retry (sm_instructions s) tighten (sm_short s)
    else give (summary_without_model (sm_short s) compactable) in
  match r with
  | Ok cycle =>
      if bool_decide (r_calls cycle = []) && bool_decide (trim (r_text cycle) ≠ []) then
        let summary := trim (r_text cycle) in
        if summary_needs_expansion summary minimum then
          if sm_attempts s <? 2 then
            retry (SUMMARY_INSTRUCTIONS ++ detail_retry_instructions minimum) (sm_tighten s) (Some summary)
          else give (short_summary_addendum summary compactable)
        else give summary
      else no_summary true false
  | Err f =>
      let overflow := match f_failure f with FProvider m => is_context_overflow m | _ => false end in
      no_summary (f_retryable f || overflow) overflow
  end.

(** server/src/run/engine.rs:1917-2147, [auto_compact]: one turn of the loop. *)
Definition summary_turn (p : PreparedRun) (settings : CompactionSettings) (target : SummaryTarget)
    (calibration : f64) (compactable : list CanonicalMessage) (minimum : Z) (s : Summarizing)
    : Eng (flow Summarizing Summarized) :=
  index ← in_world (transact (λ now db, begin_provider_call db now (run_id p)));
  let s := MkSummarizing (sm_attempts s + 1) (sm_tighten s) (sm_instructions s) (sm_usage s)
             (or_else (sm_call_index s) (Some index)) (sm_short s) (sm_pending s) in
  let prompt := MkPrompt (sm_instructions s) [] in
  let input := MkSummaryInput (st_context_window target) (st_output_tokens target)
                 (estimate_context_tokens prompt []) calibration in
  projected ← of_res (project_messages compactable);
  history ← or_wait (if sm_tighten s then compaction_history_tight prune_fuel projected input settings
                     else compaction_history prune_fuel projected input settings);
  _ ← invoke (MkInvocation (run_index p index) (run_id p) (conversation_id p) index CompactionSummary
                (MkRequest prompt (st_model target) history));
  '(pending, how, _) ← await_call false (sm_pending s);
  match how with
  | CallStopped => ends RunCancelled
  | CallToolResult => ends (Failed (FProtocol
      (lit "received a tool result while automatic compaction was running")))
  | CallChannelClosed => ends client_failure
  | CallBroken batch r =>
      mret (Done (MkSummarized (summary_without_model (sm_short s) compactable)
        (plus_usage (sm_usage s) (call_usage r)) (default 0 (sm_call_index s)) pending (Some batch)))
  | CallFinished r => mret (summarized compactable minimum s pending r)
  end.

(** server/src/run/engine.rs:2149-2157, [auto_compact]: the replacement of the history. *)
Definition summary_slot (p : PreparedRun) (settings : CompactionSettings) (calibration : f64)
    (messages : list CanonicalMessage) (summary : str) (archive : option str) : str :=
  with_archive_anchor (with_context_anchors
    (fit_summary_slot_to_tokens summary (summary_slot_token_budget p calibration settings)) messages) archive.

(** server/src/run/engine.rs:1860-1903, [auto_compact]: the summary that is used again. *)
Definition reused_summary (retention : Retention) (messages compactable : list CanonicalMessage) : option str :=
  match retention with
  | KeepNone =>
      existing ← (latest_summary_message messages ≫= summary_text);
      Some (match digest_of compactable with
            | Some digest => existing ++ nl ++ nl
                ++ lit "Recent context dropped by the summary-only compaction:" ++ nl ++ digest
            | None => existing
            end)
  | KeepWindow => None
  end.

(** server/src/run/engine.rs:1795-2240, [auto_compact]. *)
Definition auto_compact (p : PreparedRun) (settings : CompactionSettings) (checkpoint : Z)
    (messages : list CanonicalMessage) (retention : Retention) (calibration : f64) : Eng (Z * option Usage) :=
  let '(compactable, _) := partition messages (message_id <$> initial_messages p) in
  let previous := latest_summary_message messages ≫= summary_text in
  match compactable with
  | [] =>
      projected ← of_res (project_messages messages);
      ends (Failed (FProtocol
        match validate_compacted p projected calibration settings with
        | Err message => message
        | Ok _ => lit "context overflow after compaction: no conversation history can be compacted"
        end))
  | _ =>
      _ ← emit AutoCompactionStarted;
      w ← read_world;
      let path := archive (w_now w) compactable in
      '(summary, usage, event_id, pending, broken) ←
        match reused_summary retention messages compactable with
        | Some summary =>
            mret (summary, None, lit "summary:auto:" ++ run_id p ++ lit ":reuse:" ++ decimal checkpoint, [], None)
        | None =>
            let target := summary_target p settings in
            d ← loop_inputs (summary_turn p settings target calibration compactable
                   (wanted_summary_chars compactable target))
                  (MkSummarizing 0 false SUMMARY_INSTRUCTIONS None None None []);
            mret (carry_forward_summary previous (sd_summary d), sd_usage d,
              lit "summary:auto:" ++ run_index p (sd_call_index d), sd_pending d, sd_break d)
        end;
      let summary := summary_slot p settings calibration messages summary path in
      let slot := summary_message event_id summary in
      replaced ← of_res (replacement p messages slot retention calibration settings);
      projected ← of_res (project_messages replaced);
      _ ← (match validate_compacted p projected calibration settings with
           | Ok _ => mret ()
           | Err message => ends (Failed (FProtocol message))
           end);
      checkpoint ← in_world (transact (λ now db,
        replace_checkpoint db now (conversation_id p) (run_id p) checkpoint replaced));
      _ ← announce checkpoint (CompactionCommitted summary (message_id slot));
      _ ← emit AutoCompactionCompleted;
      _ ← emit (UsageSnapshot (context_usage_snapshot 0));
      '(checkpoint, _) ← append p checkpoint pending;
      '(checkpoint, _) ← match (broken : option MessageBatch) with
                         | Some batch => append p checkpoint [batch]
                         | None => mret (checkpoint, false)
                         end;
      mret (checkpoint, usage)
  end.

(** *** Waiting for background children *)

(** The locals of the wait: the head, the next heartbeat, since when no child runs, and what
    is to be appended. *)
Record Waiting : Type := MkWaiting {
  wt_checkpoint : Z;
  wt_next_heartbeat : Z;
  wt_drained_since : option Z;
  wt_pending : list MessageBatch
}.
Inductive BackgroundWait : Type := Continued | Drained.

(** server/src/run/engine.rs:1586-1600, [await_background_subagents]: the batches that arrived. *)
Definition wait_append (p : PreparedRun) (s : Waiting) : Eng (Waiting * bool) :=
  match wt_pending s with
  | [] => mret (s, false)
  | batches =>
      '(checkpoint, inserted) ← append p (wt_checkpoint s) batches;
      mret (MkWaiting checkpoint (wt_next_heartbeat s) (wt_drained_since s) [], inserted)
  end.
(** server/src/run/engine.rs:1601-1661, [await_background_subagents]: is the wait over; since
    when no child runs otherwise. *)
Definition wait_checked (policy : BackgroundWaitPolicy) (started_at_ms : Z) (s : Waiting) (w : WaitPoll)
    : option (option Z) :=
  match wp_activity w with
  | Ok (Some last_activity) =>
      if background_wait_expired policy (wp_now_ms w) last_activity started_at_ms then None else Some None
  | Ok None =>
      let since := default (wp_instant w) (wt_drained_since s) in
      if completion_grace policy <=? wp_instant w - since then None else Some (Some since)
  | Err _ => None
  end.

(** server/src/run/engine.rs:1562-1708, [await_background_subagents]: the loop. *)
Fixpoint background_loop (p : PreparedRun) (policy : BackgroundWaitPolicy) (started_at_ms : Z)
    (s : Waiting) (polls : list WaitPoll) : Eng (Z * BackgroundWait) :=
  match polls with
  | [] => waits
  | w :: polls =>
      _ ← set_clock (wp_now_ms w);
      '(s, inserted) ← wait_append p s;
      if (inserted : bool) then mret (wt_checkpoint s, Continued)
      else
        match wait_checked policy started_at_ms s w with
        | None => mret (wt_checkpoint s, Drained)
        | Some since =>
            next ← (if wt_next_heartbeat s <=? wp_instant w then
                      _ ← emit Heartbeat; mret (wp_instant w + heartbeat policy)
                    else mret (wt_next_heartbeat s));
            let s := MkWaiting (wt_checkpoint s) next since (wt_pending s) in
            match wp_input w with
            | WaitElapsed | WaitCommand (CToolResultCommand _) => background_loop p policy started_at_ms s polls
            | WaitCommand (InsertMessages batch) | WaitCommand (BreakMessages batch) =>
                background_loop p policy started_at_ms
                  (MkWaiting (wt_checkpoint s) (wt_next_heartbeat s) (wt_drained_since s) (wt_pending s ++ [batch]))
                  polls
            | WaitCancelled | WaitCommand CancelRun => _ ← notify CycleInterrupted; ends RunCancelled
            | WaitClosed => ends client_failure
            end
        end
  end.

(** server/src/run/engine.rs:1562-1708, [await_background_subagents]. *)
Definition await_background_subagents (p : PreparedRun) (policy : BackgroundWaitPolicy) (checkpoint : Z)
    : Eng (Z * BackgroundWait) :=
  a ← next_await;
  match a with
  | AwaitBackground started_at_ms started polls =>
      background_loop p policy started_at_ms (MkWaiting checkpoint (started + heartbeat policy) None []) polls
  | _ => waits
  end.

(** server/src/run/engine.rs:1474-1491, [has_background_work]. *)
Definition has_background_work : Eng bool :=
  a ← next_await;
  match a with
  | AwaitChildren (Ok running) => mret running
  | AwaitChildren (Err _) => mret false
  | _ => waits
  end.

(** *** The attempts of a model call *)

(** What a turn prepared for its model call. *)
Record Prepared : Type := MkPreparedCall {
  pc_index : Z;
  pc_messages : list CanonicalMessage;
  pc_anchored : Z;
  pc_target : option SummaryTarget;
  pc_minimum : Z;
  pc_calibration : f64;
  pc_previous : option str
}.
Record Attempt : Type := MkAttempt {
  at_locals : Locals;
  at_request : ModelRequest;
  at_retries : Z;
  at_sequence : Z;
  at_pending : list MessageBatch
}.
(** How the attempts end: with a result, or with a new turn of the run's loop. *)
Inductive AttemptsEnd : Type :=
  | GotCycle (l : Locals) (pending : list MessageBatch) (cycle : ModelCycleResult)
  | NextTurn (l : Locals).

(** server/src/run/engine.rs:702-716, [run_claimed]: the id of an attempt. *)
Definition attempt_id (p : PreparedRun) (index sequence : Z) : str :=
  if sequence =? 1 then run_index p index else run_index p index ++ lit ":retry-" ++ decimal (sequence - 1).

(** server/src/run/engine.rs:1085-1146, [run_claimed]: the delay before a retry. *)
Fixpoint delay_loop (pending : list MessageBatch) (inputs : list (Z * delay_input))
    : Eng (list MessageBatch * option MessageBatch) :=
  match inputs with
  | [] => waits
  | (now, input) :: inputs => λ e,
      let e := set_world e (set_now (en_world e) now) in
      match input with
      | DelayElapsed => (e, Ok (pending, None))
      | DelayCancelled | DelayCommand CancelRun => (_ ← notify CycleInterrupted; ends RunCancelled) e
      | DelayCommand (InsertMessages batch) => delay_loop (pending ++ [batch]) inputs e
      | DelayCommand (BreakMessages batch) => (e, Ok (pending, Some batch))
      | DelayCommand (CToolResultCommand r) =>
          if late_tool_result r (w_accounted (en_world e)) then delay_loop pending inputs e
          else ends (Failed (FProtocol (lit "received a tool result while waiting to retry the model"))) e
      | DelayClosed => ends client_failure e
      end
  end.
Definition await_delay (pending : list MessageBatch) : Eng (list MessageBatch * option MessageBatch) :=
  a ← next_await;
  match a with AwaitDelay inputs => delay_loop pending inputs | _ => waits end.

Definition is_compact (p : PreparedRun) : bool := match action p with Compact => true | _ => false end.
(** A failure after which the first summary is kept. *)
Definition summary_may_stand (f : RunFailure) : bool :=
  match f with FProvider _ | FTruncated _ => true | _ => false end.
Definition detail_instructions (minimum : Z) : str := SUMMARY_INSTRUCTIONS ++ detail_retry_instructions minimum.

(** server/src/run/engine.rs:841-876, [run_claimed]: a summary that is too short is asked for
    once more; [None] when the answer is taken. *)
Definition expand_summary (p : PreparedRun) (settings : CompactionSettings) (pc : Prepared) (a : Attempt)
    (l : Locals) (pending : list MessageBatch) (cycle : ModelCycleResult) : Eng (option Attempt) :=
  if is_compact p && bool_decide (r_calls cycle = []) && negb (l_detail_retry l)
     && summary_needs_expansion (r_text cycle) (pc_minimum pc)
  then
    let l := with_anchor l (anchored (l_anchor l) (r_usage cycle) (pc_anchored pc)) in
    _ ← add_run_usage (r_usage cycle);
    let l := with_short_summary l (trim (r_text cycle)) in
    let q := at_request a in
    let prompt := MkPrompt (detail_instructions (pc_minimum pc)) (tools (rq_prompt q)) in
    history ← match pc_target pc with
              | Some target => or_wait (compaction_history prune_fuel (rq_history q)
                  (MkSummaryInput (st_context_window target) (st_output_tokens target)
                     (estimate_context_tokens prompt []) (pc_calibration pc)) settings)
              | None => mret (rq_history q)
              end;
    mret (Some (MkAttempt l (MkRequest prompt (rq_model q) history) (at_retries a) (at_sequence a) pending))
  else mret None.

(** server/src/run/engine.rs:940-1003, [run_claimed]: the prompt was refused as too long. *)
Definition compact_refused (p : PreparedRun) (settings : CompactionSettings) (l : Locals)
    (pending : list MessageBatch) (retention : Retention) : Eng Locals :=
  let l := with_overflow l (provider_refused (l_overflow l)) in
  '(checkpoint, _) ← append p (l_checkpoint l) pending;
  w ← read_world;
  messages ← of_res (load_checkpoint_messages (w_db w) checkpoint);
  projected ← of_res (project_messages messages);
  let calibration := estimate_calibration (l_compaction_run l) projected (l_anchor l) in
  '(checkpoint, usage) ← auto_compact (l_compaction_run l) settings checkpoint messages retention calibration;
  _ ← add_run_usage usage;
  mret (compacted l checkpoint).

(** server/src/run/engine.rs:1004-1062, [run_claimed]: the call failed for good. *)
Definition abandon_call (p : PreparedRun) (pc : Prepared) (l : Locals) (pending : list MessageBatch)
    (f : ModelCycleFailure) : Eng AttemptsEnd :=
  if bool_decide (l_short_summary l ≠ None) && is_compact p && summary_may_stand (f_failure f) then
    mret (GotCycle l pending (MkCycleResult (run_id p ++ lit ":summary-detail-fallback")
      (default [] (l_short_summary l)) [] None [] None FinishStop))
  else
    _ ← (match f_failure f with
         | FTruncated _ =>
             if bool_decide (trim (f_partial_text f) = []) then mret ()
             else persist_truncated_assistant p (l_checkpoint l) f (pc_index pc)
         | _ => mret ()
         end);
    ends (Failed (f_failure f)).

(** server/src/run/engine.rs:877-1150, [run_claimed]: the call of an attempt failed. *)
Definition attempt_failed (p : PreparedRun) (settings : CompactionSettings) (pc : Prepared) (a : Attempt)
    (l : Locals) (pending : list MessageBatch) (f : ModelCycleFailure) (cancelled : bool)
    : Eng (flow Attempt AttemptsEnd) :=
  let l := with_anchor l (anchored (l_anchor l) (f_usage f) (pc_anchored pc)) in
  _ ← add_run_usage (f_usage f);
  if cancelled then _ ← notify CycleInterrupted; ends RunCancelled
  else
    let refused := overflow_refusal (l_compaction_run l) settings (action p) (f_failure f) (f_usage f) in
    let l := with_compaction_run l (learn_provider_window (l_compaction_run l) refused (f_failure f)) in
    match retention (l_overflow l), refused with
    | Some r, true => l ← compact_refused p settings l pending r; mret (Done (NextTurn l))
    | _, _ =>
        if negb (should_retry f (at_retries a)) then
          r ← abandon_call p pc l pending f; mret (Done r)
        else
          let retries := at_retries a + 1 in
          _ ← emit (ModelAttemptFailed retries (failure_message (f_failure f)));
          '(pending, broken) ← await_delay pending;
          match (broken : option MessageBatch) with
          | Some interruption =>
              _ ← emit CycleInterrupted;
              checkpoint ← append_interruption p (l_checkpoint l) pending interruption;
              mret (Done (NextTurn (at_checkpoint l checkpoint)))
          | None => mret (Next (MkAttempt l (at_request a) retries (at_sequence a) pending))
          end
    end.

(** server/src/run/engine.rs:771-876, [run_claimed]: an attempt came to an end. *)
Definition attempt_ended (p : PreparedRun) (settings : CompactionSettings) (pc : Prepared) (a : Attempt)
    (pending : list MessageBatch) (how : call_end) (cancelled : bool) : Eng (flow Attempt AttemptsEnd) :=
  let l := at_locals a in
  match how with
  | CallStopped => _ ← notify CycleInterrupted; ends RunCancelled
  | CallToolResult => _ ← notify CycleInterrupted;
      ends (Failed (FProtocol (lit "received a tool result while the model was running")))
  | CallChannelClosed => _ ← notify CycleInterrupted; ends client_failure
  | CallBroken interruption r =>
      let l := with_anchor l (anchored (l_anchor l) (call_usage r) (pc_anchored pc)) in
      _ ← add_run_usage (call_usage r);
      _ ← emit CycleInterrupted;
      checkpoint ← append_interruption p (l_checkpoint l) pending interruption;
      mret (Done (NextTurn (at_checkpoint l checkpoint)))
  | CallFinished (Ok cycle) =>
      let l := with_overflow l (model_call_succeeded (l_overflow l)) in
      again ← expand_summary p settings pc a l pending cycle;
      mret (match again with
            | Some a => Next a
            | None => Done (GotCycle l pending cycle)
            end)
  | CallFinished (Err f) => attempt_failed p settings pc a l pending f cancelled
  end.

(** server/src/run/engine.rs:698-739, [run_claimed]: one attempt. *)
Definition attempt_turn (p : PreparedRun) (settings : CompactionSettings) (pc : Prepared) (a : Attempt)
    : Eng (flow Attempt AttemptsEnd) :=
  let sequence := Z.min (2 ^ 32 - 1) (at_sequence a + 1) in
  _ ← invoke (MkInvocation (attempt_id p (pc_index pc) sequence) (run_id p) (conversation_id p) (pc_index pc)
                (if is_compact p then CompactionSummary else Chat) (at_request a));
  '(pending, how, cancelled) ← await_call (negb (is_compact p)) (at_pending a);
  attempt_ended p settings pc (MkAttempt (at_locals a) (at_request a) (at_retries a) sequence (at_pending a))
    pending how cancelled.

(** *** The turns of the loop *)

(** server/src/run/engine.rs:530-614, [run_claimed]: the compaction before a call; [None] when
    none is due. *)
Definition preflight (p : PreparedRun) (settings : CompactionSettings) (l : Locals)
    (messages : list CanonicalMessage) (history : list ProjectedMessage) : Eng (option Locals) :=
  if negb (is_compact p) && auto settings && negb (already_compacted (l_overflow l)) then
    match compaction_estimate (l_compaction_run l) history (l_anchor l) settings with
    | Some estimate =>
        _ ← emit (UsageSnapshot (context_usage_snapshot (e_tokens estimate)));
        '(checkpoint, usage) ← auto_compact (l_compaction_run l) settings (l_checkpoint l) messages KeepWindow
                                 (e_calibration estimate);
        _ ← add_run_usage usage;
        mret (Some (with_overflow (compacted l checkpoint) (preflight_compacted (l_overflow l))))
    | None => mret None
    end
  else mret None.

(** server/src/run/engine.rs:615-697, [run_claimed]: the request of a turn. *)
Definition prepare_call (p : PreparedRun) (settings : CompactionSettings) (l : Locals)
    (messages : list CanonicalMessage) (history : list ProjectedMessage) : Eng (Prepared * ModelRequest) :=
  index ← in_world (transact (λ now db, begin_provider_call db now (run_id p)));
  let calibration := if is_compact p then estimate_calibration (l_compaction_run l) history (l_anchor l)
                     else f64_one in
  let target := if is_compact p then Some (summary_target (l_compaction_run l) settings) else None in
  let previous := _ ← target; (latest_summary_message messages ≫= summary_text) in
  let minimum := match target with Some t => wanted_summary_chars messages t | None => 0 end in
  let summary_prompt :=
    MkPrompt (if l_detail_retry l then detail_instructions minimum else SUMMARY_INSTRUCTIONS) [] in
  history ← of_res (hydrate history);
  let count := zlen history in
  history ← match target with
            | Some t => or_wait (compaction_history prune_fuel history
                (MkSummaryInput (st_context_window t) (st_output_tokens t)
                   (estimate_context_tokens summary_prompt []) calibration) settings)
            | None => mret (user_terminated history CONTINUE_MESSAGE_ID CONTINUE_INSTRUCTION)
            end;
  let request :=
    match target with
    | Some t => MkRequest summary_prompt (st_model t) history
    | None => MkRequest (prompt p) (cycle_model (action p) (model p) OUTPUT_TOKENS) history
    end in
  mret (MkPreparedCall index messages count target minimum calibration previous, request).

(** What [drain_accepted] takes from the queue when the run is about to close. *)
Definition close_queue : Eng (list MessageBatch) :=
  _ ← change_phase begin_finalizing;
  a ← next_await;
  match a with
  | AwaitQueue queued closed =>
      match drain_accepted queued closed with
      | Ok batches => mret batches
      | Err o => ends o
      end
  | _ => waits
  end.

(** server/src/run/engine.rs:1158-1289, [run_claimed]: the end of a run that summarizes. *)
Definition finish_compact (p : PreparedRun) (settings : CompactionSettings) (pc : Prepared) (l : Locals)
    (pending : list MessageBatch) (cycle : ModelCycleResult) : Eng () :=
  if bool_decide (r_calls cycle ≠ []) then
    ends (Failed (FProtocol (lit "compaction model returned tool calls")))
  else
    summary ← (match trim (r_text cycle), l_short_summary l with
               | [], Some short => mret short
               | [], None => ends (Failed (FProtocol (lit "compaction model returned an empty summary")))
               | summary, _ => mret summary
               end);
    let summary := if summary_needs_expansion summary (pc_minimum pc)
                   then short_summary_addendum summary (pc_messages pc) else summary in
    _ ← emit (RTextDelta summary);
    w ← read_world;
    let summary := summary_slot (l_compaction_run l) settings (pc_calibration pc) (pc_messages pc)
                     (carry_forward_summary (pc_previous pc) summary) (archive (w_now w) (pc_messages pc)) in
    let slot := summary_message (lit "summary:" ++ run_id p) summary in
    replaced ← of_res (replacement (l_compaction_run l) (pc_messages pc) slot KeepWindow (pc_calibration pc) settings);
    checkpoint ← in_world (transact (λ now db,
      replace_checkpoint db now (conversation_id p) (run_id p) (l_checkpoint l) replaced));
    '(checkpoint, _) ← append p checkpoint pending;
    closing ← close_queue;
    '(checkpoint, _) ← append p checkpoint closing;
    announce checkpoint (CompactionCommitted summary (message_id slot)).

(** server/src/run/engine.rs:1291-1424, [run_claimed]: the model answered without calls; the
    end of the run, or a new turn. *)
Definition finish_turn (p : PreparedRun) (policy : BackgroundWaitPolicy) (pc : Prepared) (l : Locals)
    (pending : list MessageBatch) (cycle : ModelCycleResult) : Eng (flow Locals ()) :=
  checkpoint ← in_world (transact (λ now db, append_checkpoint db now (conversation_id p) (run_id p) (l_checkpoint l)
    [assistant_message (run_id p) (pc_index pc) (r_text cycle) (r_reasoning cycle) (r_replay_state cycle)]));
  '(checkpoint, inserted) ← append p checkpoint pending;
  if (inserted : bool) then mret (Next (at_checkpoint l checkpoint))
  else
    busy ← has_background_work;
    '(checkpoint, wait) ← (if (busy : bool) then await_background_subagents p policy checkpoint
                           else mret (checkpoint, Drained));
    match wait with
    | Continued => mret (Next (at_checkpoint l checkpoint))
    | Drained =>
        closing ← close_queue;
        match closing with
        | [] => _ ← announce checkpoint FinalTurn; mret (Done ())
        | _ =>
            '(checkpoint, _) ← append p checkpoint closing;
            _ ← change_phase resume_running;
            mret (Next (at_checkpoint l checkpoint))
        end
    end.

(** A round of tool calls, over the results the environment brings. *)
Definition run_round (p : PreparedRun) (checkpoint : Z) (round : ToolRound.Round) (pending : list MessageBatch) : Eng Z :=
  a ← next_await;
  match a with
  | AwaitRound inputs => returned (execute answers (conversation_id p) (run_id p) checkpoint round pending inputs)
  | _ => waits
  end.

(** server/src/run/engine.rs:523-1466, [run_claimed]: one turn of its loop, from the check of
    the cancellation. *)
Definition turn_at (p : PreparedRun) (settings : CompactionSettings) (policy : BackgroundWaitPolicy) (l : Locals)
    (a : Await) : Eng (flow Locals ()) :=
  match a with
  | AwaitTop true => ends RunCancelled
  | AwaitTop false =>
      w ← read_world;
      messages ← of_res (load_checkpoint_messages (w_db w) (l_checkpoint l));
      history ← of_res (project_messages messages);
      compacted ← preflight p settings l messages history;
      match compacted with
      | Some l => mret (Next l)
      | None =>
          '(pc, request) ← prepare_call p settings l messages history;
          r ← loop_inputs (attempt_turn p settings pc) (MkAttempt l request 0 0 []);
          match r with
          | NextTurn l => mret (Next l)
          | GotCycle l pending cycle =>
              let l := with_anchor l (anchored (l_anchor l) (r_usage cycle) (pc_anchored pc)) in
              _ ← add_run_usage (r_usage cycle);
              if is_compact p then _ ← finish_compact p settings pc l pending cycle; mret (Done ())
              else if bool_decide (r_calls cycle = []) then finish_turn p policy pc l pending cycle
              else
                checkpoint ← run_round p (l_checkpoint l)
                  (ToolRound.MkRound (run_id p ++ lit ":round:" ++ decimal (pc_index pc))
                     (MkRoundAssistant (r_text cycle) (r_reasoning cycle) (r_model_call_id cycle)
                        (r_replay_state cycle))
                     (r_calls cycle) None) pending;
                mret (Next (at_checkpoint l checkpoint))
          end
      end
  | _ => waits
  end.
Definition turn (p : PreparedRun) (settings : CompactionSettings) (policy : BackgroundWaitPolicy) (l : Locals)
    : Eng (flow Locals ()) :=
  next_await ≫= turn_at p settings policy l.

(** server/src/run/engine.rs:499-522, [run_claimed]: the round an interrupted run left. *)
Definition resume_round (p : PreparedRun) (checkpoint : Z) : Eng Z :=
  match action p with
  | Resume (Some round) =>
      run_round p checkpoint
        (ToolRound.MkRound (run_id p ++ lit ":round:resume") (rr_assistant round) (rr_calls round)
           (Some (rr_started_at_ms round))) []
  | _ => mret checkpoint
  end.

(** server/src/run/engine.rs:337-1467, [run_claimed]: it returns when the run completes. *)
Definition run_claimed (p : PreparedRun) (policy : BackgroundWaitPolicy)
    (anchor : res (option ContextUsageAnchor)) (settings : res CompactionSettings) (checkpoint : Z) : Eng () :=
  anchor ← of_res anchor;
  settings ← of_res settings;
  checkpoint ← deliver_initial p checkpoint;
  match checkpoint with
  | None => mret ()
  | Some checkpoint =>
      checkpoint ← resume_round p checkpoint;
      loop_inputs (turn p settings policy) (MkLocals checkpoint anchor p new_episode false None)
  end.

(** *** The whole run *)

(** The status and the failure a run is stored with. *)
Definition stored_outcome (o : RunOutcome) : RunStatus * option (str * str) :=
  match o with
  | Completed => (StatusCompleted, None)
  | RunCancelled => (StatusCancelled, None)
  | Failed f => (StatusFailed, Some (category f, failure_message f))
  end.

(** [finish_run], unless the database fails: the database, and whether it was stored. *)
Definition persist_outcome (fault : bool) (now : Z) (run : str) (s : RunStatus) (usage : option Usage)
    (f : option (str * str)) (db : Db) : Db * bool :=
  if fault then (db, false)
  else match finish_run db now run s usage f with
       | Ok (db, _) => (db, true)
       | Err _ => (db, false)
       end.

(** server/src/run/engine.rs:285-329, [run]: the outcome is stored at the first of three
    attempts that succeeds; the last one stores a bare failure. *)
Definition finish_stored (faults : nat → bool) (now : Z) (run : str) (o : RunOutcome) (usage : option Usage)
    (db : Db) : Db :=
  let '(s, f) := stored_outcome o in
  let '(db, stored) := persist_outcome (faults 0%nat) now run s usage f db in
  if stored then db
  else
    let '(db, stored) := persist_outcome (faults 1%nat) now run s usage f db in
    if stored then db else (persist_outcome (faults 2%nat) now run StatusFailed None None db).1.

(** [client.phase.finish(); let _ = client.events.send(Ended(outcome))]. *)
Definition say_ended (o : RunOutcome) (e : Engine) : Engine :=
  set_phase (notify (Ended o) e).1 PhaseEnded.

(** server/src/run/engine.rs:255-335, [run]: the outcome, or [None] while it waits. *)
Definition run (p : PreparedRun) (policy : BackgroundWaitPolicy) (anchor : res (option ContextUsageAnchor))
    (settings : res CompactionSettings) (faults : nat → bool) (e : Engine) : Engine * option RunOutcome :=
  match claim_run (w_db (en_world e)) (w_now (en_world e)) p with
  | Err error => let o := failed error in (say_ended o e, Some o)
  | Ok (db, claimed) =>
      let '(e, r) := run_claimed p policy anchor settings (cl_head claimed) (set_world e (set_db (en_world e) db)) in
      match r with
      | Err Waits => (e, None)
      | Ok _ | Err (Ends _) =>
          let o := match r with Err (Ends o) => o | _ => Completed end in
          let w := en_world e in
          let e := set_world e (set_db w (finish_stored faults (w_now w) (run_id p) o (en_usage e) (w_db w))) in
          (say_ended o e, Some o)
      end
  end.
End Run.
