(* ===== verification/EngineEffects.v ===== *)
(** * EngineEffects: what a run does to its surroundings

    Whatever arrives, a computation of the run changes the database only by transactions of
    its own run in its own conversation ([own]), sends the client events that are not the
    end of the run ([says]), and adds invocations of its own.  [effect] says so of an
    engine; it is a preorder, and every computation of Engine.v has it ([does]): the
    lemmas are the hint database [effects]. *)

From stdpp Require Import prelude gmap strings list.
From S2P Require Import Prelude Errors External Message Configuration Tokens Float Budget Trim Compaction Summary.
From S2P Require Import ModelCycle Store StoreInvariants StoreMachine ToolRound Engine.
Local Open Scope Z_scope.

Create HintDb effects discriminated.

Section Effects.
Context {SJ : SerdeJson} `{B : Backend} {L : BackendLaws}.

(** ** The database *)

(** Only the conversation [c], its messages, and the row of [run] change. *)
Record frame (c run : str) (db db' : Db) : Prop := MkFrame {
  fr_conversations c' : c' ≠ c → conversations db' !! c' = conversations db !! c';
  fr_runs r : r ≠ run → runs db' !! r = runs db !! r;
  fr_messages c' id : c' ≠ c → messages db' !! (c', id) = messages db !! (c', id);
  fr_kept r : runs db !! run = Some r → ∃ r', runs db' !! run = Some r' ∧
    run_conversation r' = run_conversation r ∧ status r' = status r
}.
#[global] Instance frame_preorder c run : PreOrder (frame c run).
Proof.
  split; [split; eauto|]. intros x y z [A1 A2 A3 A4] [B1 B2 B3 B4]. split.
  - intros c' H. by rewrite B1, A1.
  - intros r H. by rewrite B2, A2.
  - intros c' id H. by rewrite B3, A3.
  - intros r (r' & H & E1 & E2)%A4. destruct (B4 _ H) as (r2 & ? & ? & ?). exists r2. split_and!; congruence.
Qed.

Definition own (c run : str) (db db' : Db) : Prop :=
  reachable db → rtc store_step db db' ∧ frame c run db db'.
#[global] Instance own_preorder c run : PreOrder (own c run).
Proof.
  split; [intros db _; split; reflexivity|]. intros x y z H1 H2 Hx. destruct (H1 Hx) as [S1 F1].
  destruct H2 as [S2 F2]; [by unfold reachable in *; etrans|]. split; [by etrans|by etrans].
Qed.

Lemma put_messages_frame c run ms : ∀ db db',
  foldl (λ acc m, db ← acc; put_message_tx db c m) (Ok db) ms = Ok db' → frame c run db db'.
Proof.
  induction ms as [|m ms IH]; intros db db'; cbn [foldl]; [intros [= <-]; reflexivity|].
  change (mbind (λ db, put_message_tx db c m) (Ok db)) with (put_message_tx db c m).
  destruct (put_message_tx db c m) as [db1|e] eqn:E; intros H; [|by rewrite foldl_err in H].
  etrans; [|by apply IH]. unfold put_message_tx in E. apply bind_ok in E as (payload & _ & E).
  repeat case_match; simplify_eq; try done. split; cbn; eauto.
  intros c' id Hc. by rewrite lookup_insert_ne by congruence.
Qed.

Lemma insert_checkpoint_frame db c p ms digest db' id run :
  insert_checkpoint_tx db c p ms digest = Ok (db', id) → frame c run db db'.
Proof.
  unfold insert_checkpoint_tx. intros (db1 & Hp & H)%bind_ok. case_decide; [|done].
  etrans; [by eapply put_messages_frame|].
  unfold insert_checkpoint_row in H. destruct (select_checkpoints _ _); [|done]. injection H as <- <-.
  split; cbn; eauto.
Qed.
Lemma move_head_frame db now c run expected next verb db' :
  move_head db now c run expected next verb = Ok db' → frame c run db db'.
Proof.
  unfold move_head. destruct (conversations db !! c) as [row|]; [|done]. case_decide; [|done].
  intros [= <-]. split; cbn; eauto.
  - intros c' H'. by rewrite lookup_insert_ne by congruence.
  - intros r H'. by rewrite lookup_alter_ne by congruence.
  - intros r H'. rewrite lookup_alter_eq, H'. by eexists.
Qed.
Lemma append_tx_frame db now c run expected ms db' id :
  append_checkpoint_tx db now c run expected ms = Ok (db', id) → frame c run db db'.
Proof.
  unfold append_checkpoint_tx, append_checkpoint_with_digest_tx.
  intros (d & _ & (d' & _ & (u & _ & H)%bind_ok)%bind_ok)%bind_ok.
  destruct (select_checkpoints _ _); [|done]. apply bind_ok in H as ([db1 ck] & H1 & H).
  apply bind_ok in H as (db2 & H2 & [= <- <-]).
  etrans; [by eapply insert_checkpoint_frame|by eapply move_head_frame].
Qed.
Lemma append_one_frame c run s m s' : append_one c s m = Ok s' → frame c run (al_db s) (al_db s').
Proof.
  destruct s as [db known head pd out]. unfold append_one. cbn [al_db]. destruct (list_find _ known) as [[i k]|].
  - destruct (stored_same _ _ _ _) as [[]|]; [|done..]. intros [= <-]. reflexivity.
  - intros (d & _ & H)%bind_ok. destruct (select_checkpoints _ _); [|done].
    apply bind_ok in H as ([db1 ck] & H1 & [= <-]). cbn [al_db]. by eapply insert_checkpoint_frame.
Qed.
Lemma append_loop_frame c run ms : ∀ s s',
  foldl (λ acc m, s ← acc; append_one c s m) (Ok s) ms = Ok s' → frame c run (al_db s) (al_db s').
Proof.
  induction ms as [|m ms IH]; intros s s'; cbn [foldl]; [intros [= <-]; reflexivity|].
  change (mbind (λ s, append_one c s m) (Ok s)) with (append_one c s m).
  destruct (append_one c s m) as [s1|e] eqn:E; intros H; [|by rewrite foldl_err in H].
  etrans; [by eapply append_one_frame|by apply IH].
Qed.

Lemma own_append db now c run expected ms db' id :
  append_checkpoint db now c run expected ms = Ok (db', id) → own c run db db'.
Proof.
  intros H R. split; [by eapply rtc_once, step_append|].
  unfold append_checkpoint in H. destruct ms; [injection H as <- _; reflexivity|]. by eapply append_tx_frame.
Qed.
Lemma own_replace db now c run expected ms db' id :
  replace_checkpoint db now c run expected ms = Ok (db', id) → own c run db db'.
Proof.
  intros H R. split; [by eapply rtc_once, step_replace|].
  unfold replace_checkpoint in H. apply bind_ok in H as (u & _ & H). apply bind_ok in H as (root & _ & H).
  apply bind_ok in H as (d & _ & H). apply bind_ok in H as (d' & _ & H). apply bind_ok in H as ([db1 ck] & H1 & H).
  apply bind_ok in H as (db2 & H2 & [= <- <-]).
  etrans; [by eapply insert_checkpoint_frame|by eapply move_head_frame].
Qed.
Lemma own_append_once db now c run expected ms db' out :
  append_messages_once db db now c run expected ms = Ok (db', out) → own c run db db'.
Proof.
  intros H R. destruct ms as [|m ms]; [injection H as <- _; split; reflexivity|].
  pose proof H as Hs. unfold append_messages_once in H. apply bind_ok in H as (u & Ha & H).
  apply bind_ok in H as (d & Hd & H). apply bind_ok in H as (s & Hl & H).
  destruct (checkpoint_digest_ok _ _ _ Hd) as (row & Hrow & _).
  split; [eapply rtc_once, step_append_once; [apply rtc_refl|by eexists|exact R|exact Hs]|].
  apply (append_loop_frame c run) in Hl. cbn [al_db] in Hl. case_decide; [by injection H as <- _|].
  apply bind_ok in H as (db2 & H2 & [= <- <-]). etrans; [done|by eapply move_head_frame].
Qed.
Lemma own_round db now c round run base assistant calls created db' :
  create_tool_round db now round run base assistant calls created = Ok db' → own c run db db'.
Proof.
  intros H R. split; [by eapply rtc_once, step_round|]. unfold create_tool_round in H.
  destruct calls; [done|]. destruct (match runs db !! run with Some _ => _ | None => _ end); [|done].
  destruct (match created with Some _ => _ | None => _ end); [done|].
  destruct (tool_rounds db !! round); [done|]. case_decide; [|done]. injection H as <-. split; cbn; eauto.
Qed.
Lemma own_commit db now c run round r db' commit :
  commit_tool_result db now c run round r = Ok (db', commit) → own c run db db'.
Proof.
  intros H R. split; [by eapply rtc_once, step_result|]. unfold commit_tool_result in H.
  destruct (tool_rounds db !! round) as [q|]; [|done]. destruct (negb _); [done|].
  destruct (bool_decide _); [done|]. destruct (list_find _ _) as [[i call]|]; [|done].
  destruct (negb _); [done|]. destruct (runs db !! run); [|done].
  apply bind_ok in H as ([db1 ck] & H1 & [= <- _]). apply append_tx_frame in H1. destruct H1. by split.
Qed.
Lemma own_call db now c run db' index : begin_provider_call db now run = Ok (db', index) → own c run db db'.
Proof.
  intros H R. split; [by eapply rtc_once, step_begin_call|]. unfold begin_provider_call in H.
  destruct (runs db !! run) as [r|] eqn:E; [|done]. case_decide; [|done]. injection H as <- _.
  split; cbn; eauto.
  - intros r' Hr. by rewrite lookup_insert_ne by congruence.
  - intros r'. rewrite E, lookup_insert_eq. intros [= <-]. by eexists.
Qed.

(** ** The client *)

Definition quiet (ev : RunEvent) : Prop := match ev with Ended _ => False | _ => True end.
Definition says (c c' : Channel) : Prop := ∃ new, sent c' = sent c ++ new ∧ Forall quiet new.
#[global] Instance says_preorder : PreOrder says.
Proof.
  split; [exists []; by rewrite app_nil_r|]. intros x y z (l & E1 & Hl) (k & E2 & Hk).
  exists (l ++ k). split; [by rewrite E2, E1, app_assoc|by apply Forall_app].
Qed.
Lemma says_send c ev : quiet ev → says c (send c ev).1.
Proof.
  intros H. unfold send. destruct (room c) as [[|n]|]; [done| |done].
  exists [ev]. split; [done|by constructor].
Qed.
Lemma says_emit_to c s ev : c_client s = c → quiet ev → says c (c_client (emit_to s ev).1).
Proof.
  intros <- H. unfold emit_to. pose proof (says_send (c_client s) ev H). by destruct (send _ _).
Qed.
Lemma says_interrupt c text thinking now : says c (interrupt_cycle c text thinking now).
Proof.
  unfold interrupt_cycle.
  assert (says c (if text then (send c RTextEnd).1 else c)) as H by (destruct text; [by apply says_send|done]).
  destruct thinking; [etrans; [exact H|by apply says_send]|done].
Qed.
Lemma says_event now s ev : says (c_client s) (c_client (on_event now s ev).1).
Proof.
  destruct ev; cbn [on_event]; unfold on_tool_call_start, on_tool_call_delta, on_tool_call_end;
    repeat case_match; try reflexivity; try (by apply says_emit_to).
  all: match goal with H : send ?c ?e = _ |- _ => pose proof (says_send c e I) as Hs; by rewrite H in Hs end.
Qed.
Lemma says_turn now s p : match cycle_turn s now p with
  | Next s' => says (c_client s) (c_client s')
  | Done (s', _) => says (c_client s) (c_client s') end.
Proof.
  destruct p as [[ev|e]|[]|]; cbn; try done; try apply says_interrupt.
  destruct (c_finish s); [done|]. pose proof (says_event now s ev) as H.
  by destruct (on_event now s ev) as [s' [[]|]].
Qed.

(** ** Computations of the world *)

Definition weffect (c run : str) (w w' : World) : Prop :=
  own c run (w_db w) (w_db w') ∧ says (w_client w) (w_client w').
#[global] Instance weffect_preorder c run : PreOrder (weffect c run).
Proof. split; [by split|]. intros x y z [A1 A2] [B1 B2]. split; by etrans. Qed.

(** A computation of the world that has only effects of the run, and does not end it as if it
    were complete. *)
Definition wdoes (c run : str) {A} (m : Run A) : Prop := ∀ w, weffect c run w (m w).1 ∧ (m w).2 ≠ Err Completed.

Lemma wdoes_ret c run {A} (a : A) : wdoes c run (mret a).
Proof. intros w. by split. Qed.
Lemma wdoes_fail c run {A} o : o ≠ Completed → wdoes c run (@fail A o).
Proof. intros H w. split; [reflexivity|]. by intros [= ->]. Qed.
Lemma wdoes_bind c run {A C} (m : Run A) (k : A → Run C) :
  wdoes c run m → (∀ a, wdoes c run (k a)) → wdoes c run (m ≫= k).
Proof.
  intros Hm Hk w. destruct (Hm w) as [H1 H2]. unfold mbind, run_bind. destruct (m w) as [w1 [a|o]].
  - destruct (Hk a w1) as [H3 H4]. split; [by etrans|done].
  - split; [done|]. intros [= ->]. by apply H2.
Qed.
Lemma wdoes_transact c run {A} (f : Z → Db → res (Db * A)) :
  (∀ now db db' a, f now db = Ok (db', a) → own c run db db') → wdoes c run (transact f).
Proof.
  intros Hf w. unfold transact. destruct (f _ _) as [[db a]|] eqn:E; [|by split].
  split; [|done]. split; [by eapply Hf|reflexivity].
Qed.
Lemma wdoes_send c run ev : quiet ev → wdoes c run (send_event ev).
Proof.
  intros H w. unfold send_event. pose proof (says_send (w_client w) ev H). destruct (send _ _) as [ch []];
    (split; [|done]); (split; [reflexivity|done]).
Qed.
Lemma wdoes_account c run id : wdoes c run (account id).
Proof. intros w. split; [|done]. split; reflexivity. Qed.
Lemma wdoes_complete c run batch r : wdoes c run (complete_batch batch r).
Proof. intros w. split; [|done]. split; reflexivity. Qed.
Lemma wdoes_now c run {A} (m : Run A) now : wdoes c run m → wdoes c run (λ w, m (set_now w now)).
Proof. intros H w. apply (H (set_now w now)). Qed.
End Effects.

#[export] Hint Resolve wdoes_ret wdoes_bind wdoes_send wdoes_account wdoes_complete : effects.
#[export] Hint Extern 1 (wdoes _ _ (fail _)) => apply wdoes_fail; discriminate : effects.
#[export] Hint Resolve own_append own_replace own_append_once own_round own_commit own_call : effects.

(** Goes through a computation: its binds, its branches, and the known effects of its parts. *)
Ltac by_effects :=
  repeat first
    [ progress intros
    | solve [eauto 3 with effects nocore]
    | match goal with
      | |- wdoes _ _ (mbind _ _) => apply wdoes_bind
      | |- context [match ?x with _ => _ end] => destruct x
      end ].

Section WorldEffects.
Context {SJ : SerdeJson} `{B : Backend} {L : BackendLaws} (answers : Z → barrier_answer) (c run : str).

Lemma wdoes_wait ck : wdoes c run (wait_for_state_ready answers ck).
Proof. unfold wait_for_state_ready. destruct (answers ck); by_effects. Qed.

Lemma wdoes_announce_batch l : wdoes c run (announce_batch answers l).
Proof.
  induction l as [|[[ck []] m] l IH]; cbn [announce_batch]; [apply wdoes_ret| |done].
  apply wdoes_bind; [by apply wdoes_send|intros _]. apply wdoes_bind; [|by intros _].
  destruct (existsb _ l); [apply wdoes_ret|apply wdoes_wait].
Qed.
Lemma wdoes_append_batch ck batch : wdoes c run (append_batch answers c run ck batch).
Proof.
  unfold append_batch. destruct (existsb _ _); [by apply wdoes_fail|].
  apply wdoes_bind; [apply wdoes_transact; intros ????; apply own_append_once|intros out].
  apply wdoes_bind; [apply wdoes_announce_batch|intros _].
  apply wdoes_bind; [apply wdoes_complete|intros _; apply wdoes_ret].
Qed.
Lemma wdoes_append_batches batches : ∀ ck, wdoes c run (append_batches answers c run ck batches).
Proof.
  induction batches as [|batch batches IH]; intros ck; cbn [append_batches]; [apply wdoes_ret|].
  apply wdoes_bind; [apply wdoes_append_batch|intros [ck1 i1]].
  apply wdoes_bind; [apply IH|intros [ck2 i2]; apply wdoes_ret].
Qed.
Lemma wdoes_commit round r i : wdoes c run (commit_and_announce answers c run round r i).
Proof.
  unfold commit_and_announce. apply wdoes_bind; [apply wdoes_transact; intros ????; apply own_commit|intros cm].
  apply wdoes_bind; [apply wdoes_account|intros _]. apply wdoes_bind; [by apply wdoes_send|intros _].
  apply wdoes_bind; [|intros _; apply wdoes_ret]. destruct (tm_settled cm); [apply wdoes_wait|apply wdoes_ret].
Qed.
Lemma wdoes_await_results round inputs : ∀ s, wdoes c run (await_results answers c run round s inputs).
Proof.
  induction inputs as [|[now input] inputs IH]; intros s; cbn [await_results]; [apply wdoes_ret|].
  apply wdoes_now. destruct input as [| |[r|batch|batch|]|]; try (by apply wdoes_fail); try apply wdoes_ret; [|apply IH].
  case_decide; [apply IH|]. apply wdoes_bind; [apply wdoes_commit|intros ck].
  case_match; [apply wdoes_ret|apply IH].
Qed.
Lemma wdoes_interrupt round calls completed reason : ∀ ck,
  wdoes c run (interrupt_remaining answers c run round ck calls completed reason).
Proof.
  induction calls as [|call calls IH]; intros ck; cbn [interrupt_remaining]; [apply wdoes_ret|].
  case_decide; [apply IH|]. apply wdoes_bind; [apply wdoes_commit|intros; apply IH].
Qed.
Lemma wdoes_execute ck round insertions inputs :
  wdoes c run (execute answers c run ck round insertions inputs).
Proof.
  unfold execute. apply wdoes_bind.
  { apply wdoes_transact. intros now db db' a H. destruct (create_tool_round _ _ _ _ _ _ _ _) eqn:E; [|done].
    injection H as <- _. by eapply own_round. }
  intros _. apply wdoes_bind; [by apply wdoes_send|intros _]. apply wdoes_bind; [by apply wdoes_send|intros _].
  apply wdoes_bind; [apply wdoes_await_results|intros [[s t b]|]]; [|apply wdoes_ret].
  apply wdoes_bind; [apply wdoes_interrupt|intros ck1]. apply wdoes_bind; [apply wdoes_append_batches|intros [ck2 i2]].
  apply wdoes_bind; [destruct b; [apply wdoes_append_batches|apply wdoes_ret]|intros [ck3 i3]; apply wdoes_ret].
Qed.
End WorldEffects.

(** ** Computations of the engine *)

Definition own_call_of (c run : str) (i : ModelInvocation) : Prop :=
  iv_run_id i = run ∧ iv_conversation_id i = c.

Record effect `{B : Backend} (c run : str) (e e' : Engine) : Prop := MkEffect {
  ef_world : weffect c run (en_world e) (en_world e');
  ef_calls : ∃ new, en_calls e' = en_calls e ++ new ∧ Forall (own_call_of c run) new;
  ef_phase : en_phase e ≠ PhaseEnded → en_phase e' ≠ PhaseEnded;
  ef_inputs : ∃ used, en_inputs e = used ++ en_inputs e'
}.

Section EngineEffects.
Context {SJ : SerdeJson} `{B : Backend} {L : BackendLaws} (c run : str).

#[global] Instance effect_preorder : PreOrder (effect c run).
Proof.
  split.
  - intros e. split; [reflexivity|exists []; by rewrite app_nil_r|done|by exists []].
  - intros x y z [A1 (l & E1 & H1) A3 (u & U1)] [B1 (k & E2 & H2) B3 (v & V1)]. split; [by etrans| |auto|].
    + exists (l ++ k). split; [by rewrite E2, E1, app_assoc|by apply Forall_app].
    + exists (u ++ v). by rewrite U1, V1, app_assoc.
Qed.

(** [m] has only effects of the run, does not end it as complete, and what it returns satisfies [Q]. *)
Definition does {A} (m : Eng A) (Q : A → Prop) : Prop := ∀ e,
  effect c run e (m e).1 ∧ match (m e).2 with Ok a => Q a | Err s => s ≠ Ends Completed end.

Lemma does_ret {A} (a : A) (Q : A → Prop) : Q a → does (mret a) Q.
Proof. intros H e. by split. Qed.
Lemma does_stop {A} s (Q : A → Prop) : s ≠ Ends Completed → does (λ e, (e, Err s)) Q.
Proof. intros H e. by split. Qed.
Lemma does_bind {A C} (m : Eng A) (k : A → Eng C) (P : A → Prop) (Q : C → Prop) :
  does m P → (∀ a, P a → does (k a) Q) → does (m ≫= k) Q.
Proof.
  intros Hm Hk e. destruct (Hm e) as [H1 H2]. unfold mbind, eng_bind. destruct (m e) as [e1 [a|s]]; [|done].
  destruct (Hk a H2 e1) as [H3 H4]. split; [by etrans|done].
Qed.
Lemma does_then {A C} (m : Eng A) (k : A → Eng C) (Q : C → Prop) :
  does m (λ _, True) → (∀ a, does (k a) Q) → does (m ≫= k) Q.
Proof. intros Hm Hk. eapply does_bind; eauto. Qed.
Lemma does_weaken {A} (m : Eng A) (P Q : A → Prop) : does m P → (∀ a, P a → Q a) → does m Q.
Proof. intros H HPQ e. destruct (H e) as [H1 H2]. split; [done|]. destruct (m e).2; eauto. Qed.
Lemma does_any {A} (m : Eng A) (P : A → Prop) : does m P → does m (λ _, True).
Proof. intros H. by eapply does_weaken. Qed.

Lemma does_in_world {A} (m : Run A) : wdoes c run m → does (in_world m) (λ _, True).
Proof.
  intros H e. destruct (H (en_world e)) as [H1 H2]. unfold in_world.
  destruct (m (en_world e)) as [w [a|o]]; (split; [|by (done || (intros [= ->]; apply H2))]).
  all: split; [done|exists []; by rewrite app_nil_r|done|by exists []].
Qed.
Lemma does_returned {A} (m : Run (option A)) : wdoes c run m → does (returned m) (λ _, True).
Proof.
  intros H. eapply does_then; [by apply does_in_world|]. intros [a|]; [by apply does_ret|by apply does_stop].
Qed.
Lemma does_of_res {A} (r : res A) : does (of_res r) (λ _, True).
Proof. destruct r; [by apply does_ret|by apply does_stop]. Qed.
Lemma does_or_wait {A} (a : option A) : does (or_wait a) (λ _, True).
Proof. destruct a; [by apply does_ret|by apply does_stop]. Qed.
Lemma does_next : does next_await (λ _, True).
Proof.
  intros e. unfold next_await. destruct (en_inputs e) as [|a inputs] eqn:E; [by split|]. split; [|done].
  split; [reflexivity|exists []; by rewrite app_nil_r|done|by exists [a]].
Qed.
Lemma does_usage u : does (add_run_usage u) (λ _, True).
Proof. intros e. split; [|done]. split; [reflexivity|exists []; by rewrite app_nil_r|done|by exists []]. Qed.
Lemma does_phase f : (∀ x, x ≠ PhaseEnded → f x ≠ PhaseEnded) → does (change_phase f) (λ _, True).
Proof. intros H e. split; [|done]. split; [reflexivity|exists []; by rewrite app_nil_r|apply H|by exists []]. Qed.
Lemma does_invoke i : own_call_of c run i → does (invoke i) (λ _, True).
Proof. intros H e. split; [|done]. split; [reflexivity|exists [i]; split; [done|by constructor]|done|by exists []]. Qed.
Lemma does_read : does read_world (λ _, True).
Proof. intros e. by split. Qed.
Lemma does_clock now : does (set_clock now) (λ _, True).
Proof.
  intros e. split; [|done]. split; [split; reflexivity|exists []; by rewrite app_nil_r|done|by exists []].
Qed.
Lemma does_emit ev : quiet ev → does (emit ev) (λ _, True).
Proof. intros H. by apply does_in_world, wdoes_send. Qed.
Lemma does_notify ev : quiet ev → does (notify ev) (λ _, True).
Proof.
  intros H e. split; [|done]. split; [by apply wdoes_send|exists []; by rewrite app_nil_r|done|by exists []].
Qed.

Lemma does_loop {S A} (body : S → Eng (flow S A)) (I : S → Prop) (Q : A → Prop) fuel : ∀ s, I s →
  (∀ s, I s → does (body s) (λ r, match r with Next s => I s | Done a => Q a end)) →
  does (eloop body fuel s) Q.
Proof.
  induction fuel as [|fuel IH]; intros s Hs Hb; cbn [eloop]; [by apply does_stop|].
  eapply does_bind; [by apply Hb|]. intros [s'|a] Hr; [by apply IH|by apply does_ret].
Qed.
Lemma does_loop_inputs {S A} (body : S → Eng (flow S A)) (I : S → Prop) (Q : A → Prop) s : I s →
  (∀ s, I s → does (body s) (λ r, match r with Next s => I s | Done a => Q a end)) →
  does (loop_inputs body s) Q.
Proof. intros Hs Hb e. unfold loop_inputs. by eapply does_loop. Qed.

(** A model call sends the client what its turns send. *)
Lemma drain_says inputs : ∀ s now s' r, drain_cycle s inputs = Some (now, s', r) →
  says (c_client s) (c_client s').
Proof.
  induction inputs as [|[now [p|cmd|]] inputs IH]; intros s now' s' r; cbn [drain_cycle]; try done.
  pose proof (says_turn now s p) as H. destruct (cycle_turn s now p) as [s1|[s1 r1]].
  - intros Hd. etrans; [exact H|by eapply IH].
  - by intros [= <- <- <-].
Qed.
Lemma call_says accounted inputs : ∀ s ins now s' ins' how,
  call_loop accounted s ins inputs = Some (now, s', ins', how) → says (c_client s) (c_client s').
Proof.
  induction inputs as [|[now [p|[r|batch|batch|]|]] inputs IH]; intros s ins now' s' ins' how; cbn [call_loop];
    try done; try by apply IH.
  - pose proof (says_turn now s p) as H. destruct (cycle_turn s now p) as [s1|[s1 r1]].
    + intros Hd. etrans; [exact H|by eapply IH].
    + by intros [= <- <- <- <-].
  - destruct (late_tool_result _ _); [by apply IH|].
    destruct (drain_cycle s inputs) as [[[n s1] r1]|] eqn:E; [|done]. intros [= <- <- <- <-]. by eapply drain_says.
  - destruct (drain_cycle s inputs) as [[[n s1] r1]|] eqn:E; [|done]. intros [= <- <- <- <-]. by eapply drain_says.
  - destruct (drain_cycle s inputs) as [[[n s1] r1]|] eqn:E; [|done]. intros [= <- <- <- <-]. by eapply drain_says.
  - destruct (drain_cycle s inputs) as [[[n s1] r1]|] eqn:E; [|done]. intros [= <- <- <- <-]. by eapply drain_says.
Qed.

Lemma does_call visible ins : does (await_call visible ins) (λ _, True).
Proof.
  unfold await_call. eapply does_then; [apply does_next|]. intros []; try (by apply does_stop).
  intros e. destruct (call_loop _ _ _ _) as [[[[now s] ins'] how]|] eqn:E; [|by split]. split; [|done].
  apply call_says in E. split; [|exists []; by rewrite app_nil_r|done|by exists []].
  split; [reflexivity|]. cbn. destruct visible; [|reflexivity]. destruct E as (new & En & Hq).
  exists new. by rewrite En.
Qed.
Lemma does_delay inputs : ∀ pending, does (delay_loop pending inputs) (λ _, True).
Proof.
  induction inputs as [|[now input] inputs IH]; intros pending; cbn [delay_loop]; [by apply does_stop|].
  intros e. set (e1 := set_world e _).
  assert (effect c run e e1) as H1.
  { split; [split; reflexivity|exists []; by rewrite app_nil_r|done|by exists []]. }
  assert (∀ {A} (m : Eng A) Q, does m Q → effect c run e (m e1).1 ∧
    match (m e1).2 with Ok a => Q a | Err s => s ≠ Ends Completed end) as Hd.
  { intros A m Q H. destruct (H e1) as [H2 H3]. split; [by etrans|done]. }
  destruct input as [| |[r|batch|batch|]|]; try (split; [exact H1|done]).
  - apply Hd. eapply does_then; [by apply does_notify|intros _; by apply does_stop].
  - destruct (late_tool_result _ _); [apply Hd, IH|split; [exact H1|done]].
  - apply Hd, IH.
  - apply Hd. eapply does_then; [by apply does_notify|intros _; by apply does_stop].
Qed.
End EngineEffects.

#[export] Hint Resolve does_of_res does_or_wait does_next does_usage does_read does_clock does_call : effects.
#[export] Hint Extern 1 (does _ _ (mret _) _) => apply does_ret : effects.
#[export] Hint Extern 1 (does _ _ (emit _) _) => apply does_emit; exact I : effects.
#[export] Hint Extern 1 (does _ _ (notify _) _) => apply does_notify; exact I : effects.
#[export] Hint Extern 1 (does _ _ (ends _) _) => apply does_stop; discriminate : effects.
#[export] Hint Extern 1 (does _ _ waits _) => apply does_stop; discriminate : effects.
#[export] Hint Extern 1 True => exact I : effects.

(** One step through a computation of the engine. *)
Ltac does_step :=
  first
  [ solve [eauto 2 with effects nocore]
  | match goal with
    | |- does _ _ (mbind _ _) _ => eapply does_then; [|intro]
    | |- does _ _ (match ?x with _ => _ end) _ => destruct x
    | |- does _ _ (if ?x then _ else _) _ => destruct x
    end ].
Ltac does_steps := repeat does_step.

Section RunEffects.
Context {SJ : SerdeJson} `{B : Backend} {L : BackendLaws} (answers : Z → barrier_answer).
Context (SUMMARY_INSTRUCTIONS : str) (image_data : str → res (list Z)) (models : str → option ModelConfig).
Context (archive : Z → list CanonicalMessage → option str) (prune_fuel : nat).
Context (c run : str).

Definition names (p : PreparedRun) : Prop := conversation_id p = c ∧ run_id p = run.

Lemma does_announce ck cause : does c run (announce answers ck cause) (λ _, True).
Proof. unfold announce. does_steps. apply does_in_world, wdoes_wait. Qed.
Lemma does_append p ck batches : names p → does c run (append answers p ck batches) (λ _, True).
Proof. intros [E1 E2]. unfold append. rewrite E1, E2. apply does_in_world, wdoes_append_batches. Qed.
Lemma does_transact {A} (f : Z → Db → res (Db * A)) :
  (∀ now db db' a, f now db = Ok (db', a) → own c run db db') → does c run (in_world (transact f)) (λ _, True).
Proof. intros H. by apply does_in_world, wdoes_transact. Qed.
Lemma does_append_checkpoint p ck ms : names p → does c run
  (in_world (transact (λ now db, append_checkpoint db now (conversation_id p) (run_id p) ck ms))) (λ _, True).
Proof. intros [-> ->]. apply does_transact. intros ????. apply own_append. Qed.
Lemma does_replace p ck ms : names p → does c run
  (in_world (transact (λ now db, replace_checkpoint db now (conversation_id p) (run_id p) ck ms))) (λ _, True).
Proof. intros [-> ->]. apply does_transact. intros ????. apply own_replace. Qed.
Lemma does_begin p : names p → does c run
  (in_world (transact (λ now db, begin_provider_call db now (run_id p)))) (λ _, True).
Proof. intros [_ ->]. apply does_transact. intros ????. apply own_call. Qed.
End RunEffects.

#[export] Hint Resolve does_announce does_append does_append_checkpoint does_replace does_begin does_delay : effects.

Section RunEffects2.
Context {SJ : SerdeJson} `{B : Backend} {L : BackendLaws} (answers : Z → barrier_answer).
Context (SUMMARY_INSTRUCTIONS : str) (image_data : str → res (list Z)) (models : str → option ModelConfig).
Context (archive : Z → list CanonicalMessage → option str) (prune_fuel : nat).
Context (c run : str).

Lemma does_append_interruption p ck pending i : names c run p →
  does c run (append_interruption answers p ck pending i) (λ _, True).
Proof. intros H. unfold append_interruption. does_steps. Qed.
Lemma does_persist p ck f i : names c run p → does c run (persist_truncated_assistant answers p ck f i) (λ _, True).
Proof. intros H. unfold persist_truncated_assistant. does_steps. Qed.
Lemma does_deliver p ck : names c run p → does c run (deliver_initial answers p ck) (λ _, True).
Proof.
  intros H. unfold deliver_initial, commit_initial. does_steps.
  apply does_transact. intros ????. destruct H as [-> ->]. apply own_append_once.
Qed.
Lemma does_summary_turn p settings target calibration compactable minimum s : names c run p →
  does c run (summary_turn SUMMARY_INSTRUCTIONS prune_fuel p settings target calibration compactable minimum s) (λ _, True).
Proof.
  intros H. unfold summary_turn. does_steps. apply does_invoke. by split; apply H.
Qed.
Lemma does_auto_compact p settings ck messages r calibration : names c run p →
  does c run (auto_compact answers SUMMARY_INSTRUCTIONS models archive prune_fuel p settings ck messages r calibration)
    (λ _, True).
Proof.
  intros H. unfold auto_compact. destruct (partition _ _) as [compactable kept]. does_steps.
  apply (does_loop_inputs c run _ (λ _, True)); [done|]. intros s _.
  eapply does_weaken; [by apply does_summary_turn|]. by intros [].
Qed.
End RunEffects2.

#[export] Hint Resolve does_append_interruption does_persist does_deliver does_auto_compact : effects.

Section TurnEffects.
Context {SJ : SerdeJson} `{B : Backend} {L : BackendLaws} (answers : Z → barrier_answer).
Context (SUMMARY_INSTRUCTIONS : str) (image_data : str → res (list Z)) (models : str → option ModelConfig).
Context (archive : Z → list CanonicalMessage → option str) (prune_fuel : nat).
Context (c run : str).

(** The spec a run compacts with is the run's own, but for the window it learned. *)
Definition locals_ok (l : Locals) : Prop := names c run (l_compaction_run l).
Definition end_ok (r : AttemptsEnd) : Prop :=
  match r with GotCycle l _ _ | NextTurn l => locals_ok l end.

Lemma learned_names p b f : names c run p → names c run (learn_provider_window p b f).
Proof. unfold learn_provider_window. intros H. by repeat case_match. Qed.

Lemma does_wait_append p s : names c run p → does c run (wait_append answers p s) (λ _, True).
Proof. intros H. unfold wait_append. does_steps. Qed.
Lemma does_background p policy started polls : names c run p → ∀ s,
  does c run (background_loop answers p policy started s polls) (λ _, True).
Proof.
  intros H. induction polls as [|w polls IH]; intros s; cbn [background_loop]; [by apply does_stop|].
  eapply does_then; [apply does_clock|intros _].
  eapply does_then; [by apply does_wait_append|intros [s1 []]]; [by apply does_ret|].
  destruct (wait_checked _ _ _ _) as [since|]; [|by apply does_ret].
  eapply does_then; [does_steps|intros next]. destruct (wp_input w) as [| |[r|batch|batch|]|]; try apply IH; does_steps.
Qed.
Lemma does_wait_background p policy ck : names c run p →
  does c run (await_background_subagents answers p policy ck) (λ _, True).
Proof.
  intros H. unfold await_background_subagents. eapply does_then; [apply does_next|].
  intros []; try (by apply does_stop). by apply does_background.
Qed.
Lemma does_children : does c run has_background_work (λ _, True).
Proof. unfold has_background_work. does_steps. Qed.
Lemma does_await_delay pending : does c run (await_delay pending) (λ _, True).
Proof. unfold await_delay. does_steps. Qed.
Lemma drain_outcome queued closed o : drain_accepted queued closed = Err o → o ≠ Completed.
Proof.
  induction queued as [|[r|batch|batch|] queued IH]; cbn [drain_accepted]; [destruct closed; by intros [= <-]|done| | |].
  - destruct (drain_accepted queued closed); [done|by intros [= <-]; apply IH].
  - destruct (drain_accepted queued closed); [done|by intros [= <-]; apply IH].
  - by intros [= <-].
Qed.
Lemma does_close : does c run close_queue (λ _, True).
Proof.
  unfold close_queue. eapply does_then; [apply does_phase; by intros []|intros _].
  eapply does_then; [apply does_next|]. intros []; try (by apply does_stop).
  destruct (drain_accepted _ _) eqn:E; [by apply does_ret|]. apply does_stop. intros [= ->]. by apply drain_outcome in E.
Qed.

Lemma does_expand p settings pc a l pending cycle : locals_ok l →
  does c run (expand_summary SUMMARY_INSTRUCTIONS prune_fuel p settings pc a l pending cycle)
    (λ r, match r with Some a => locals_ok (at_locals a) | None => True end).
Proof.
  intros H. unfold expand_summary. destruct (_ && _); [|by apply does_ret].
  eapply does_then; [apply does_usage|intros _]. eapply does_then; [does_steps|intros h]. by apply does_ret.
Qed.
Lemma does_compact_refused p settings l pending r : names c run p → locals_ok l →
  does c run (compact_refused answers SUMMARY_INSTRUCTIONS models archive prune_fuel p settings l pending r) locals_ok.
Proof.
  intros H Hl. unfold compact_refused.
  eapply does_then; [by apply does_append|intros [ck i]]. eapply does_then; [apply does_read|intros w].
  eapply does_then; [apply does_of_res|intros ms]. eapply does_then; [apply does_of_res|intros ps].
  eapply does_then; [by apply does_auto_compact|intros [ck' u]].
  eapply does_then; [apply does_usage|intros _]. by apply does_ret.
Qed.
Lemma does_abandon p pc l pending f : names c run p → locals_ok l →
  does c run (abandon_call answers p pc l pending f) end_ok.
Proof.
  intros H Hl. unfold abandon_call. destruct (_ && _); [by apply does_ret|].
  eapply does_then; [does_steps|intros _]. by apply does_stop.
Qed.
Lemma does_attempt_failed p settings pc a l pending f cancelled : names c run p → locals_ok l →
  does c run (attempt_failed answers SUMMARY_INSTRUCTIONS models archive prune_fuel p settings pc a l pending f cancelled)
    (λ r, match r with Next a => locals_ok (at_locals a) | Done r => end_ok r end).
Proof.
  intros H Hl. unfold attempt_failed. eapply does_then; [apply does_usage|intros _].
  destruct cancelled; [does_steps|]. set (l1 := with_compaction_run _ _).
  assert (locals_ok l1) as Hl1 by by apply learned_names.
  assert (∀ r, does c run (l2 ← compact_refused answers SUMMARY_INSTRUCTIONS models archive prune_fuel p settings l1 pending r;
    mret (Done (NextTurn l2)))
    (λ r : flow Attempt AttemptsEnd, match r with Next a => locals_ok (at_locals a) | Done r => end_ok r end)) as Hc.
  { intros r. eapply does_bind; [by apply does_compact_refused|]. intros l2 Hl2. by apply does_ret. }
  assert (does c run (if negb (should_retry f (at_retries a)) then r ← abandon_call answers p pc l1 pending f; mret (Done r)
    else
      _ ← emit (ModelAttemptFailed (at_retries a + 1) (failure_message (f_failure f)));
      '(pending, broken) ← await_delay pending;
      match (broken : option MessageBatch) with
      | Some interruption =>
          _ ← emit CycleInterrupted;
          checkpoint ← append_interruption answers p (l_checkpoint l1) pending interruption;
          mret (Done (NextTurn (at_checkpoint l1 checkpoint)))
      | None => mret (Next (MkAttempt l1 (at_request a) (at_retries a + 1) (at_sequence a) pending))
      end)
    (λ r : flow Attempt AttemptsEnd, match r with Next a => locals_ok (at_locals a) | Done r => end_ok r end)) as Hr.
  { destruct (negb _).
    - eapply does_bind; [by apply does_abandon|]. intros r Hr. by apply does_ret.
    - eapply does_then; [by apply does_emit|intros _]. eapply does_then; [apply does_await_delay|intros [pd [i|]]].
      + eapply does_then; [by apply does_emit|intros _].
        eapply does_then; [by apply does_append_interruption|intros ck]. by apply does_ret.
      + by apply does_ret. }
  destruct (retention _) as [r|]; [destruct (overflow_refusal _ _ _ _ _); [apply Hc|exact Hr]|exact Hr].
Qed.
Lemma does_ended p settings pc a pending how cancelled : names c run p → locals_ok (at_locals a) →
  does c run (attempt_ended answers SUMMARY_INSTRUCTIONS models archive prune_fuel p settings pc a pending how cancelled)
    (λ r, match r with Next a => locals_ok (at_locals a) | Done r => end_ok r end).
Proof.
  intros H Ha. unfold attempt_ended. destruct how as [[cycle|f]|i r| | |].
  - eapply does_bind; [by apply does_expand|]. intros [a'|] Ha'; by apply does_ret.
  - by apply does_attempt_failed.
  - eapply does_then; [apply does_usage|intros _]. eapply does_then; [by apply does_emit|intros _].
    eapply does_then; [by apply does_append_interruption|intros ck]. by apply does_ret.
  - does_steps.
  - does_steps.
  - does_steps.
Qed.
Lemma does_attempt p settings pc a : names c run p → locals_ok (at_locals a) →
  does c run (attempt_turn answers SUMMARY_INSTRUCTIONS models archive prune_fuel p settings pc a)
    (λ r, match r with Next a => locals_ok (at_locals a) | Done r => end_ok r end).
Proof.
  intros H Ha. unfold attempt_turn. eapply does_then; [apply does_invoke; by split; apply H|intros _].
  eapply does_then; [apply does_call|intros [[pending how] cancelled]]. by apply does_ended.
Qed.

Lemma does_preflight p settings l messages history : locals_ok l →
  does c run (preflight answers SUMMARY_INSTRUCTIONS models archive prune_fuel p settings l messages history)
    (λ r, match r with Some l => locals_ok l | None => True end).
Proof.
  intros H. unfold preflight. destruct (_ && _); [|by apply does_ret].
  destruct (compaction_estimate _ _ _ _) as [est|]; [|by apply does_ret].
  eapply does_then; [by apply does_emit|intros _]. eapply does_then; [by apply does_auto_compact|intros [ck u]].
  eapply does_then; [apply does_usage|intros _]. by apply does_ret.
Qed.
Lemma does_prepare p settings l messages history : names c run p →
  does c run (prepare_call SUMMARY_INSTRUCTIONS image_data models prune_fuel p settings l messages history) (λ _, True).
Proof. intros H. unfold prepare_call. does_steps. Qed.
Lemma does_finish_compact p settings pc l pending cycle : names c run p →
  does c run (finish_compact answers archive p settings pc l pending cycle) (λ _, True).
Proof.
  intros H. unfold finish_compact. destruct (bool_decide _); [by apply does_stop|].
  eapply does_then; [does_steps|intros summary]. does_steps. apply does_close.
Qed.
Lemma does_finish_turn p policy pc l pending cycle : names c run p → locals_ok l →
  does c run (finish_turn answers p policy pc l pending cycle)
    (λ r, match r with Next l => locals_ok l | Done _ => True end).
Proof.
  intros H Hl. unfold finish_turn. eapply does_then; [by apply does_append_checkpoint|intros ck].
  eapply does_then; [by apply does_append|intros [ck1 []]]; [by apply does_ret|].
  eapply does_then; [apply does_children|intros busy].
  eapply does_then; [destruct busy; [by apply does_wait_background|by apply does_ret]|intros [ck2 []]]; [by apply does_ret|].
  eapply does_then; [apply does_close|intros [|b bs]].
  - eapply does_then; [apply does_announce|intros _]. by apply does_ret.
  - eapply does_then; [by apply does_append|intros [ck3 i3]].
    eapply does_then; [apply does_phase; by intros []|intros _]. by apply does_ret.
Qed.
Lemma does_round p ck round pending : names c run p → does c run (run_round answers p ck round pending) (λ _, True).
Proof.
  intros [E1 E2]. unfold run_round. eapply does_then; [apply does_next|]. intros []; try (by apply does_stop).
  rewrite E1, E2. apply does_returned, wdoes_execute.
Qed.
Lemma does_turn_at p settings policy l a : names c run p → locals_ok l →
  does c run (turn_at answers SUMMARY_INSTRUCTIONS image_data models archive prune_fuel p settings policy l a)
    (λ r, match r with Next l => locals_ok l | Done _ => True end).
Proof.
  intros H Hl. unfold turn_at. destruct a; try (by apply does_stop).
  destruct cancelled; [by apply does_stop|]. eapply does_then; [apply does_read|intros w].
  eapply does_then; [apply does_of_res|intros ms]. eapply does_then; [apply does_of_res|intros ps].
  eapply does_bind; [by apply does_preflight|]. intros [l1|] Hl1; [by apply does_ret|].
  eapply does_then; [by apply does_prepare|intros [pc request]].
  eapply does_bind; [apply (does_loop_inputs c run _ (λ a, locals_ok (at_locals a)) end_ok);
    [exact Hl|intros a Ha; by apply does_attempt]|].
  intros [l2 pending cycle|l2] Hl2; [|by apply does_ret].
  eapply does_then; [apply does_usage|intros _].
  destruct (is_compact p).
  { eapply does_then; [by apply does_finish_compact|intros _]. by apply does_ret. }
  destruct (bool_decide _); [by apply does_finish_turn|].
  eapply does_then; [by apply does_round|intros ck]. by apply does_ret.
Qed.
Lemma does_turn p settings policy l : names c run p → locals_ok l →
  does c run (turn answers SUMMARY_INSTRUCTIONS image_data models archive prune_fuel p settings policy l)
    (λ r, match r with Next l => locals_ok l | Done _ => True end).
Proof. intros H Hl. eapply does_then; [apply does_next|]. intros a. by apply does_turn_at. Qed.
Lemma does_claimed p policy anchor settings ck : names c run p →
  does c run (run_claimed answers SUMMARY_INSTRUCTIONS image_data models archive prune_fuel p policy anchor settings ck)
    (λ _, True).
Proof.
  intros H. unfold run_claimed. eapply does_then; [apply does_of_res|intros a]. eapply does_then; [apply does_of_res|intros s].
  eapply does_then; [by apply does_deliver|intros [ck1|]]; [|by apply does_ret].
  eapply does_then; [unfold resume_round; destruct (action p) as [| |[r|]|]; (by apply does_ret) || (by apply does_round)|intros ck2].
  apply (does_loop_inputs c run _ locals_ok); [done|]. intros l Hl.
  eapply does_weaken; [by apply does_turn|]. by intros [].
Qed.
End TurnEffects.
