(* ===== verification/EngineBounds.v ===== *)
(** * EngineBounds: nothing in a run spins

    How often a run calls the provider: [within m n Q] says that [m] adds at most [n]
    invocations, and leaves [Q a] of them for what follows its result [a].  With a
    potential for the state of a loop this bounds the loop; [turn_calls_bounded] is the bound of a
    turn.  And every turn of a loop uses an input, so the fuel of [loop_inputs] never ends a loop
    ([loops_have_fuel]). *)

From stdpp Require Import prelude gmap strings list.
From S2P Require Import Prelude Errors External Message Configuration Tokens Float Budget Trim Compaction Summary.
From S2P Require Import ModelCycle Store StoreInvariants StoreMachine ToolRound Engine EngineEffects.
Local Open Scope nat_scope.

Create HintDb free discriminated.

(** ** Invocations *)

Definition within {A} (m : Eng A) (n : nat) (Q : A → nat) : Prop := ∀ e,
  match m e with
  | (e', Ok a) => length (en_calls e') + Q a ≤ length (en_calls e) + n
  | (e', Err _) => length (en_calls e') ≤ length (en_calls e) + n
  end.
(** No invocation. *)
Definition free {A} (m : Eng A) : Prop := ∀ e, en_calls (m e).1 = en_calls e.

Lemma within_ret {A} (a : A) n Q : Q a ≤ n → within (mret a) n Q.
Proof. intros H e. cbn. lia. Qed.
Lemma within_bind {A C} (m : Eng A) (k : A → Eng C) n Q R :
  within m n Q → (∀ a, within (k a) (Q a) R) → within (m ≫= k) n R.
Proof.
  intros Hm Hk e. specialize (Hm e). unfold mbind, eng_bind. destruct (m e) as [e1 [a|s]]; [|done].
  specialize (Hk a e1). destruct (k a e1) as [e2 [b|s]]; lia.
Qed.
Lemma within_free {A} (m : Eng A) n : free m → within m n (λ _, n).
Proof. intros H e. specialize (H e). destruct (m e) as [e1 [a|s]]; cbn in H; rewrite H; lia. Qed.
Lemma within_stop {A} s n (Q : A → nat) : within (λ e, (e, Err s)) n Q.
Proof. intros e. cbn. lia. Qed.
Lemma within_end {A} (m : Eng A) n : free m → within m n (λ _, 0).
Proof. intros H e. specialize (H e). destruct (m e) as [e1 [a|s]]; cbn in H; rewrite H; lia. Qed.
Lemma within_after {A C} (m : Eng A) (k : A → Eng C) n R :
  free m → (∀ a, within (k a) n R) → within (m ≫= k) n R.
Proof. intros Hm Hk. eapply within_bind; [by apply within_free|done]. Qed.
Lemma within_weaken {A} (m : Eng A) n n' Q Q' : within m n Q → n ≤ n' → (∀ a, Q' a ≤ Q a) → within m n' Q'.
Proof. intros H Hn HQ e. specialize (H e). destruct (m e) as [e1 [a|s]]; [specialize (HQ a)|]; lia. Qed.
Lemma within_invoke i n : within (invoke i) (S n) (λ _, n).
Proof. intros e. cbn. rewrite length_app. cbn. lia. Qed.
Lemma within_loop {T A} (body : T → Eng (flow T A)) (Φ : T → nat) (Q : A → nat) fuel : ∀ s,
  (∀ s, within (body s) (Φ s) (λ r, match r with Next s => Φ s | Done a => Q a end)) →
  within (eloop body fuel s) (Φ s) Q.
Proof.
  induction fuel as [|fuel IH]; intros s Hb; [intros e; cbn; lia|]. cbn [eloop].
  eapply within_bind; [apply Hb|]. intros [s'|a]; [by apply IH|by apply within_ret].
Qed.
Lemma within_loop_inputs {T A} (body : T → Eng (flow T A)) (Φ : T → nat) (Q : A → nat) s :
  (∀ s, within (body s) (Φ s) (λ r, match r with Next s => Φ s | Done a => Q a end)) →
  within (loop_inputs body s) (Φ s) Q.
Proof. intros Hb e. unfold loop_inputs. by apply within_loop. Qed.

Lemma free_ret {A} (a : A) : free (mret a).
Proof. done. Qed.
Lemma free_bind {A C} (m : Eng A) (k : A → Eng C) : free m → (∀ a, free (k a)) → free (m ≫= k).
Proof.
  intros Hm Hk e. specialize (Hm e). unfold mbind, eng_bind. destruct (m e) as [e1 [a|s]]; [|done].
  by rewrite Hk.
Qed.
Lemma free_stop {A} s : free (λ e, (e, @Err _ A s)).
Proof. done. Qed.
Lemma free_in_world {A} (m : Run A) : free (in_world m).
Proof. intros e. unfold in_world. by destruct (m (en_world e)) as [w []]. Qed.
Lemma free_of_res {A} (r : res A) : free (of_res r).
Proof. by destruct r. Qed.
Lemma free_or_wait {A} (a : option A) : free (or_wait a).
Proof. by destruct a. Qed.
Lemma free_next : free next_await.
Proof. intros e. unfold next_await. by destruct (en_inputs e). Qed.
Lemma free_usage u : free (add_run_usage u).
Proof. done. Qed.
Lemma free_phase f : free (change_phase f).
Proof. done. Qed.
Lemma free_read : free read_world.
Proof. done. Qed.
Lemma free_clock now : free (set_clock now).
Proof. done. Qed.
Lemma free_notify ev : free (notify ev).
Proof. done. Qed.
Lemma free_call {SJ : SerdeJson} visible ins : free (await_call visible ins).
Proof.
  unfold await_call. apply free_bind; [apply free_next|]. intros []; try apply free_stop.
  intros e. by destruct (call_loop _ _ _ _) as [[[[now s] ins'] how]|].
Qed.

#[export] Hint Resolve free_ret free_stop free_in_world free_of_res free_or_wait free_next free_usage free_phase
  free_read free_clock free_notify free_call : free.
#[export] Hint Extern 1 (free (ends _)) => apply free_stop : free.
#[export] Hint Extern 1 (free waits) => apply free_stop : free.
#[export] Hint Extern 1 (free (emit _)) => apply free_in_world : free.

Ltac by_free :=
  repeat first
  [ solve [eauto 2 with free nocore]
  | match goal with
    | |- free (mbind _ _) => apply free_bind; [|intro]
    | |- free (match ?x with _ => _ end) => destruct x
    end ].

Section Bounds.
Context {SJ : SerdeJson} `{B : Backend} (answers : Z → barrier_answer).
Context (SUMMARY_INSTRUCTIONS : str) (image_data : str → res (list Z)) (models : str → option ModelConfig).
Context (archive : Z → list CanonicalMessage → option str) (prune_fuel : nat).

Lemma free_announce ck cause : free (announce answers ck cause).
Proof. unfold announce. by_free. Qed.
Lemma free_append p ck bs : free (append answers p ck bs).
Proof. apply free_in_world. Qed.
#[local] Hint Resolve free_announce free_append : free.
Lemma free_append_interruption p ck pending i : free (append_interruption answers p ck pending i).
Proof. unfold append_interruption. by_free. Qed.
Lemma free_persist p ck f i : free (persist_truncated_assistant answers p ck f i).
Proof. unfold persist_truncated_assistant. by_free. Qed.
#[local] Hint Resolve free_append_interruption free_persist : free.
Lemma free_abandon p pc l pending f : free (abandon_call answers p pc l pending f).
Proof. unfold abandon_call. by_free. Qed.
Lemma free_delay pending : free (await_delay pending).
Proof.
  unfold await_delay. apply free_bind; [apply free_next|]. intros []; try apply free_stop.
  revert pending. induction inputs as [|[now input] inputs IH]; intros pending; [apply free_stop|].
  intros e. cbn [delay_loop]. destruct input as [| |[r|batch|batch|]|]; try done; [|by rewrite IH].
  destruct (late_tool_result _ _); [by rewrite IH|done].
Qed.
Lemma free_prepare p settings l messages history :
  free (prepare_call SUMMARY_INSTRUCTIONS image_data models prune_fuel p settings l messages history).
Proof. unfold prepare_call. by_free. Qed.
Lemma free_background p policy ck : free (await_background_subagents answers p policy ck).
Proof.
  unfold await_background_subagents. apply free_bind; [apply free_next|]. intros []; try apply free_stop.
  generalize (MkWaiting ck (started + heartbeat policy) None []).
  induction polls as [|w polls IH]; intros s; cbn [background_loop]; [apply free_stop|].
  apply free_bind; [apply free_clock|intros _].
  apply free_bind; [unfold wait_append; by_free|intros [s1 []]]; [by_free|].
  destruct (wait_checked _ _ _ _) as [since|]; [|by_free]. apply free_bind; [by_free|intros next].
  destruct (wp_input w) as [| |[r|batch|batch|]|]; try apply IH; by_free.
Qed.
Lemma free_close : free close_queue.
Proof. unfold close_queue. by_free. Qed.
#[local] Hint Resolve free_abandon free_delay free_prepare free_background free_close : free.
Lemma free_finish_compact p settings pc l pending cycle : free (finish_compact answers archive p settings pc l pending cycle).
Proof. unfold finish_compact. by_free. Qed.
Lemma free_finish_turn p policy pc l pending cycle : free (finish_turn answers p policy pc l pending cycle).
Proof. unfold finish_turn, has_background_work. by_free. Qed.
Lemma free_round p ck round pending : free (run_round answers p ck round pending).
Proof.
  unfold run_round. apply free_bind; [apply free_next|]. intros []; try apply free_stop.
  unfold returned. by_free.
Qed.

(** A summary is asked for twice at most. *)
Definition summaries_left (s : Summarizing) : nat := S (Z.to_nat (1 - sm_attempts s)).
Lemma summarized_again compactable minimum s pending r s' :
  summarized SUMMARY_INSTRUCTIONS compactable minimum s pending r = Next s' →
  (sm_attempts s < 2)%Z ∧ sm_attempts s' = sm_attempts s.
Proof.
  unfold summarized. intros H.
  repeat match type of H with context [match ?x with _ => _ end] => destruct x eqn:? end; try done;
    injection H as <-; (split; [|done]); apply Z.ltb_lt; by repeat match goal with
    | H : _ && _ = true |- _ => apply andb_prop in H as [? ?] end.
Qed.
Lemma summary_calls p settings target calibration compactable minimum s :
  within (summary_turn SUMMARY_INSTRUCTIONS prune_fuel p settings target calibration compactable minimum s)
    (summaries_left s) (λ r, match r with Next s => summaries_left s | Done _ => 0 end).
Proof.
  unfold summary_turn. apply within_after; [by_free|intros index].
  apply within_after; [by_free|intros ps]. apply within_after; [by_free|intros h].
  eapply within_bind; [apply within_invoke|intros u; cbn beta; clear u].
  apply within_after; [apply free_call|intros [[pending how] cancelled]].
  destruct how as [r|b r| | |]; try apply within_stop; [|apply within_ret; lia].
  apply within_ret. destruct (summarized _ _ _ _ _ _) as [s'|d] eqn:E; [|lia].
  apply summarized_again in E as [E1 E2]. unfold summaries_left. cbn in E1, E2. lia.
Qed.
Lemma compact_calls p settings ck messages r calibration :
  within (auto_compact answers SUMMARY_INSTRUCTIONS models archive prune_fuel p settings ck messages r calibration)
    2 (λ _, 0).
Proof.
  unfold auto_compact. destruct (partition _ _) as [[|m compactable] kept].
  { apply within_end. by_free. }
  apply within_after; [by_free|intros _]. apply within_after; [by_free|intros w].
  eapply within_bind.
  - instantiate (1 := λ _, 0). destruct (reused_summary _ _ _); [apply within_ret; lia|].
    eapply within_bind; [eapply within_weaken; [apply (within_loop_inputs _ summaries_left (λ _, 0)); intros s;
      apply summary_calls|done|done]|]. intros d. by apply within_ret.
  - intros [[[[summary usage] event] pending] broken]. apply within_end.
    by_free.
Qed.

(** An attempt is made [8] times more than it is retried, once more for a short summary, and
    followed by a compaction at most. *)
Definition attempts_left (a : Attempt) : nat :=
  3 + Z.to_nat (8 - at_retries a) + (if l_detail_retry (at_locals a) then 0 else 1).
Lemma refused_calls p settings l pending r :
  within (compact_refused answers SUMMARY_INSTRUCTIONS models archive prune_fuel p settings l pending r) 2 (λ _, 0).
Proof.
  unfold compact_refused. apply within_after; [by_free|intros [ck i]]. apply within_after; [by_free|intros w].
  apply within_after; [by_free|intros ms]. apply within_after; [by_free|intros ps].
  eapply within_bind; [apply compact_calls|intros [ck' u]]. apply within_end. by_free.
Qed.
Lemma failed_calls p settings pc a l pending f cancelled : l_detail_retry l = l_detail_retry (at_locals a) →
  within (attempt_failed answers SUMMARY_INSTRUCTIONS models archive prune_fuel p settings pc a l pending f cancelled)
    (attempts_left a - 1) (λ r, match r with Next a => attempts_left a | Done _ => 0 end).
Proof.
  intros Hd. unfold attempt_failed. apply within_after; [by_free|intros u]. clear u.
  destruct cancelled; [apply within_after; [by_free|intros; apply within_stop]|]. set (l1 := with_compaction_run _ _).
  assert (l_detail_retry l1 = l_detail_retry (at_locals a)) as Hd1 by done. clearbody l1.
  set (other := if negb (should_retry f (at_retries a)) then _ else _).
  assert (within other (attempts_left a - 1) (λ r, match r with Next a => attempts_left a | Done _ => 0 end)) as Ho.
  { unfold other. destruct (should_retry f (at_retries a)) eqn:Er; cbn [negb].
    - apply should_retry_bound in Er as (_ & Er & _). unfold MAX_MODEL_RETRIES in Er.
      apply within_after; [by_free|intros u]. apply within_after; [by_free|intros [pd [b|]]].
      + apply within_after; [by_free|intros v]. apply within_after; [by_free|intros ck]. apply within_ret. lia.
      + apply within_ret. unfold attempts_left. cbn. rewrite Hd1. destruct (l_detail_retry (at_locals a)); lia.
    - apply within_after; [by_free|intros r]. apply within_ret. lia. }
  destruct (retention _) as [r|]; [|done]. destruct (overflow_refusal _ _ _ _ _); [|done].
  apply (within_bind _ _ _ (λ _, 0)); [eapply within_weaken; [apply refused_calls|unfold attempts_left; lia|done]|].
  intros l2. apply within_ret. lia.
Qed.
Lemma ended_calls p settings pc a pending how cancelled :
  within (attempt_ended answers SUMMARY_INSTRUCTIONS models archive prune_fuel p settings pc a pending how cancelled)
    (attempts_left a - 1) (λ r, match r with Next a => attempts_left a | Done _ => 0 end).
Proof.
  unfold attempt_ended. destruct how as [[cycle|f]|b r| | |]; try (apply within_after; [by_free|intros; apply within_stop]).
  - unfold expand_summary. destruct (_ && _) eqn:Ec; [|apply within_ret; lia].
    apply andb_prop in Ec as [Ec _]. apply andb_prop in Ec as [_ Ed]. cbn in Ed.
    apply (within_bind _ _ _ (λ o, default 0 (attempts_left <$> o)));
      [|intros [a'|]; apply within_ret; cbn; lia].
    apply within_after; [by_free|intros u]. apply within_after; [by_free|intros h]. apply within_ret.
    unfold attempts_left. cbn. destruct (l_detail_retry (at_locals a)); [done|lia].
  - by apply failed_calls.
  - apply within_after; [by_free|intros u]. apply within_after; [by_free|intros v].
    apply within_after; [by_free|intros ck]. apply within_ret. lia.
Qed.
Lemma attempt_calls p settings pc a :
  within (attempt_turn answers SUMMARY_INSTRUCTIONS models archive prune_fuel p settings pc a)
    (attempts_left a) (λ r, match r with Next a => attempts_left a | Done _ => 0 end).
Proof.
  unfold attempt_turn. assert (attempts_left a = S (attempts_left a - 1)) as -> by (unfold attempts_left; lia).
  eapply within_bind; [apply within_invoke|intros u; cbn beta; clear u].
  apply within_after; [by_free|intros [[pending how] cancelled]]. apply (ended_calls p settings pc (MkAttempt _ _ _ _ _)).
Qed.

Lemma turn_calls p settings policy l :
  within (turn answers SUMMARY_INSTRUCTIONS image_data models archive prune_fuel p settings policy l) 12 (λ _, 0).
Proof.
  unfold turn, turn_at. apply within_after; [by_free|]. intros []; try apply within_stop.
  destruct cancelled; [apply within_stop|]. apply within_after; [by_free|intros w].
  apply within_after; [by_free|intros ms]. apply within_after; [by_free|intros ps].
  eapply (within_bind _ _ _ (λ r, match r with Some _ => 0 | None => 12 end)).
  - unfold preflight. destruct (_ && _); [|by apply within_ret].
    destruct (compaction_estimate _ _ _ _) as [est|]; [|by apply within_ret].
    apply within_after; [by_free|intros u].
    eapply within_bind; [eapply within_weaken; [apply compact_calls|lia|done]|intros [ck u']].
    apply within_after; [by_free|intros v]. by apply within_ret.
  - intros [l1|]; [by apply within_ret|]. apply within_after; [by_free|intros [pc request]].
    eapply within_bind.
    { eapply within_weaken; [apply (within_loop_inputs _ attempts_left (λ _, 0)); intros; apply attempt_calls| |done].
      unfold attempts_left. cbn. destruct (l_detail_retry l); lia. }
    intros [l2 pending cycle|l2]; [|by apply within_ret]. apply within_after; [by_free|intros u].
    destruct (is_compact p); [apply within_end; apply free_bind; [apply free_finish_compact|done]|].
    destruct (bool_decide _); [apply within_end, free_finish_turn|].
    apply within_end, free_bind; [apply free_round|done].
Qed.

(** C34: A turn of the run's loop calls the provider at most twelve times: a compaction makes
    at most two calls, a call that fails is retried at most eight times, a summary that is too short
    is asked for once more, and a refused prompt is compacted once.  Whatever the
    provider answers, and however the turn ends. *)
Theorem turn_calls_bounded p settings policy l messages r calibration ck e :
  length (en_calls (turn answers SUMMARY_INSTRUCTIONS image_data models archive prune_fuel p settings policy l e).1)
    ≤ length (en_calls e) + 12 ∧
  length (en_calls (auto_compact answers SUMMARY_INSTRUCTIONS models archive prune_fuel p settings ck messages r
    calibration e).1) ≤ length (en_calls e) + 2.
Proof.
  split.
  - pose proof (turn_calls p settings policy l e). destruct (turn _ _ _ _ _ _ _ _ _ _ e) as [e' []]; cbn in *; lia.
  - pose proof (compact_calls p settings ck messages r calibration e).
    destruct (auto_compact _ _ _ _ _ _ _ _ _ _ _ e) as [e' []]; cbn in *; lia.
Qed.
End Bounds.

(** ** Inputs *)

Section Inputs.
Context {SJ : SerdeJson} `{B : Backend} {L : BackendLaws} (answers : Z → barrier_answer).
Context (SUMMARY_INSTRUCTIONS : str) (image_data : str → res (list Z)) (models : str → option ModelConfig).
Context (archive : Z → list CanonicalMessage → option str) (prune_fuel : nat).
Context (c run : str).

(** What returns has used an input. *)
Definition uses {A} (m : Eng A) : Prop := ∀ e e' a, m e = (e', Ok a) → length (en_inputs e') < length (en_inputs e).

Lemma does_shorter {A} (m : Eng A) Q e : does c run m Q → length (en_inputs (m e).1) ≤ length (en_inputs e).
Proof. intros H. destruct (H e) as [[_ _ _ (used & ->)] _]. rewrite length_app. lia. Qed.
Lemma uses_bind {A C} (m : Eng A) (k : A → Eng C) : uses m → (∀ a, does c run (k a) (λ _, True)) → uses (m ≫= k).
Proof.
  intros Hm Hk e e' b (e1 & a & H1 & H2)%bind_eng. apply Hm in H1.
  pose proof (does_shorter _ _ e1 (Hk a)) as H. rewrite H2 in H. cbn in H. lia.
Qed.
Lemma uses_after {A C} (m : Eng A) (k : A → Eng C) Q : does c run m Q → (∀ a, uses (k a)) → uses (m ≫= k).
Proof.
  intros Hm Hk e e' b (e1 & a & H1 & H2)%bind_eng. apply Hk in H2.
  pose proof (does_shorter _ _ e Hm) as H. rewrite H1 in H. cbn in H. lia.
Qed.
Lemma uses_next : uses next_await.
Proof. intros e e' a. unfold next_await. destruct (en_inputs e) eqn:E; [done|]. intros [= <- <-]. cbn. lia. Qed.
Lemma uses_call visible ins : uses (await_call visible ins).
Proof.
  intros e e' a. unfold await_call. intros (e1 & a1 & H1 & H2)%bind_eng. apply uses_next in H1.
  destruct a1; try done. destruct (call_loop _ _ _ _) as [[[[now s] ins'] how]|]; [|done].
  injection H2 as <- _. done.
Qed.

(** Two fuels beyond the inputs give the same. *)
Lemma loop_fuels {T A} (body : T → Eng (flow T A)) (I : T → Prop) f : ∀ g e s,
  (∀ s, I s → uses (body s)) →
  (∀ s, I s → does c run (body s) (λ r, match r with Next s => I s | Done _ => True end)) →
  I s → length (en_inputs e) < f → length (en_inputs e) < g → eloop body f s e = eloop body g s e.
Proof.
  induction f as [|f IH]; intros [|g] e s Hu Hd Hs Hf Hg; try lia. cbn [eloop]. unfold mbind, eng_bind.
  pose proof (Hu s Hs e) as Hlt. destruct (Hd s Hs e) as [_ Hn]. destruct (body s e) as [e1 [[s'|a]|stop]]; [|done..].
  specialize (Hlt _ _ eq_refl). apply IH; [done|done|exact Hn|lia|lia].
Qed.
Lemma loop_fuel {T A} (body : T → Eng (flow T A)) (I : T → Prop) fuel e s :
  (∀ s, I s → uses (body s)) →
  (∀ s, I s → does c run (body s) (λ r, match r with Next s => I s | Done _ => True end)) →
  I s → length (en_inputs e) < fuel → eloop body fuel s e = loop_inputs body s e.
Proof. intros Hu Hd Hs Hf. unfold loop_inputs. apply (loop_fuels body I); auto with lia. Qed.

Lemma uses_turn p settings policy l : names c run p → locals_ok c run l →
  uses (turn answers SUMMARY_INSTRUCTIONS image_data models archive prune_fuel p settings policy l).
Proof.
  intros H Hl. apply uses_bind; [apply uses_next|]. intros a. eapply does_any. by apply does_turn_at.
Qed.
Lemma uses_attempt p settings pc a : names c run p → locals_ok c run (at_locals a) →
  uses (attempt_turn answers SUMMARY_INSTRUCTIONS models archive prune_fuel p settings pc a).
Proof.
  intros H Ha. unfold attempt_turn. eapply uses_after; [apply does_invoke; by split; apply H|intros u].
  apply uses_bind; [apply uses_call|]. intros [[pending how] cancelled]. eapply does_any. by apply does_ended.
Qed.
Lemma uses_summary p settings target calibration compactable minimum s : names c run p →
  uses (summary_turn SUMMARY_INSTRUCTIONS prune_fuel p settings target calibration compactable minimum s).
Proof.
  intros H. unfold summary_turn. eapply uses_after; [by apply does_begin|intros index].
  eapply uses_after; [apply does_of_res|intros ps].
  eapply uses_after; [destruct (sm_tighten _); apply does_or_wait|intros h].
  eapply uses_after; [apply does_invoke; by split; apply H|intros u].
  apply uses_bind; [apply uses_call|]. intros [[pending how] cancelled]. does_steps.
Qed.
End Inputs.

(** C35: The loops of a run never run out of fuel.  Each turn of [run_claimed]'s loop, of the
    loop of attempts and of [auto_compact]'s loop uses an input, so beyond the number of inputs the
    fuel makes no difference: a loop stops because it ends or because it waits for an input that has
    not arrived. *)
Theorem loops_have_fuel {SJ : SerdeJson} `{B : Backend} {L : BackendLaws} answers SUMMARY_INSTRUCTIONS image_data models
    archive prune_fuel p settings policy pc target calibration compactable minimum l a s fuel e :
  names (conversation_id p) (run_id p) (l_compaction_run l) →
  names (conversation_id p) (run_id p) (l_compaction_run (at_locals a)) → length (en_inputs e) < fuel →
  eloop (turn answers SUMMARY_INSTRUCTIONS image_data models archive prune_fuel p settings policy) fuel l e =
    loop_inputs (turn answers SUMMARY_INSTRUCTIONS image_data models archive prune_fuel p settings policy) l e ∧
  eloop (attempt_turn answers SUMMARY_INSTRUCTIONS models archive prune_fuel p settings pc) fuel a e =
    loop_inputs (attempt_turn answers SUMMARY_INSTRUCTIONS models archive prune_fuel p settings pc) a e ∧
  eloop (summary_turn SUMMARY_INSTRUCTIONS prune_fuel p settings target calibration compactable minimum) fuel s e =
    loop_inputs (summary_turn SUMMARY_INSTRUCTIONS prune_fuel p settings target calibration compactable minimum) s e.
Proof.
  intros Hl Ha Hf. pose (c := conversation_id p). pose (run := run_id p). assert (names c run p) as H by done. split_and!.
  - apply (loop_fuel c run _ (locals_ok c run)); [by intros; apply (uses_turn _ _ _ _ _ _ c run)| |done|done].
    intros l1 Hl1. by apply does_turn.
  - apply (loop_fuel c run _ (λ a, locals_ok c run (at_locals a))); [by intros; apply (uses_attempt _ _ _ _ _ c run)| |done|done].
    intros a1 Ha1. eapply does_weaken; [by apply does_attempt|]. by intros [].
  - apply (loop_fuel c run _ (λ _, True)); [by intros; apply (uses_summary _ _ c run)| |done|done].
    intros s1 _. eapply does_weaken; [by apply does_summary_turn|]. by intros [].
Qed.

(** A run that is cancelled at its first turn. *)
Module BoundsSamples.
Definition locals : Locals := MkLocals 1 None (StoreSamples.prepared "r1") new_episode false None.
Definition attempt : Attempt :=
  MkAttempt locals (MkRequest (prompt (StoreSamples.prepared "r1")) (model (StoreSamples.prepared "r1")) []) 0 0 [].
Definition engine : Engine :=
  MkEngine (MkWorld StoreSamples.opened (MkChannel (Some 9) []) ∅ [] 20%Z) PhaseRunning None [] [AwaitTop true].
End BoundsSamples.

Lemma loops_have_fuel_witness :
  let turns := @turn Samples.tiny_json StoreSamples.store (λ _, BarrierReady) [] (λ _, Ok []) (λ _, None) (λ _ _, None) 9
    (StoreSamples.prepared "r1") default_settings (MkPolicy 1 1 1 1 1 1) in
  eloop turns 5 BoundsSamples.locals BoundsSamples.engine = loop_inputs turns BoundsSamples.locals BoundsSamples.engine ∧
  (loop_inputs turns BoundsSamples.locals BoundsSamples.engine).2 = Err (Ends RunCancelled).
Proof.
  intros turns. split; [|vm_compute; reflexivity].
  refine (proj1 (loops_have_fuel (L := StoreSamples.backend_laws _) (λ _, BarrierReady) [] (λ _, Ok []) (λ _, None)
    (λ _ _, None) 9 (StoreSamples.prepared "r1") default_settings (MkPolicy 1 1 1 1 1 1)
    (MkPreparedCall 0 [] 0 None 0 f64_one None) (MkTarget (model (StoreSamples.prepared "r1")) None 0) f64_one [] 0
    BoundsSamples.locals BoundsSamples.attempt (MkSummarizing 0 false [] None None None []) 5 BoundsSamples.engine _ _ _));
    [split; reflexivity|split; reflexivity|cbn; lia].
Defined.
