(* ===== verification/EngineFinal.v ===== *)
(** * EngineFinal: what a turn that ends the run commits

    [final_turn_history]: when the loop of a run ends with an answer, the head of the
    conversation holds the history the model was shown, followed by what it answered — nothing was
    added, lost or reordered between the request and the commit —, and the client was told of that
    checkpoint last. *)

From stdpp Require Import prelude gmap strings list.
From S2P Require Import Prelude Errors External Message Configuration Tokens Float Budget Trim Compaction Summary.
From S2P Require Import ModelCycle Store StoreInvariants StoreMachine ToolRound Engine EngineEffects.
Local Open Scope Z_scope.

(** ** Computations that leave the database and the invocations alone *)

Definition steady (e e' : Engine) : Prop :=
  w_db (en_world e') = w_db (en_world e) ∧ en_calls e' = en_calls e ∧ ∃ used, en_inputs e = used ++ en_inputs e'.
Lemma steady_inputs e e' : w_db (en_world e') = w_db (en_world e) → en_calls e' = en_calls e →
  en_inputs e' = en_inputs e → steady e e'.
Proof. intros ?? E. split_and!; [done..|]. exists []. by rewrite E. Qed.
#[global] Instance steady_preorder : PreOrder steady.
Proof.
  split; [intros x; by apply steady_inputs|].
  intros x y z (A1 & A2 & u & A3) (B1 & B2 & v & B3). split_and!; [congruence..|].
  exists (u ++ v). by rewrite A3, B3, app_assoc.
Qed.

(** When it returns. *)
Definition still {A} (m : Eng A) : Prop := ∀ e e' a, m e = (e', Ok a) → steady e e'.

Create HintDb still discriminated.

Lemma still_ret {A} (a : A) : still (mret a).
Proof. intros e e' a' [= <- _]. reflexivity. Qed.
Lemma still_bind {A C} (m : Eng A) (k : A → Eng C) : still m → (∀ a, still (k a)) → still (m ≫= k).
Proof. intros Hm Hk e e' b (e1 & a & H1 & H2)%bind_eng. etrans; [by eapply Hm|by eapply Hk]. Qed.
Lemma still_stop {A} s : still (λ e, (e, @Err _ A s)).
Proof. by intros e e' a. Qed.
Lemma still_of_res {A} (r : res A) : still (of_res r).
Proof. destruct r; [apply still_ret|apply still_stop]. Qed.
Lemma still_or_wait {A} (a : option A) : still (or_wait a).
Proof. destruct a; [apply still_ret|apply still_stop]. Qed.
Lemma still_next : still next_await.
Proof. intros e e' a. unfold next_await. destruct (en_inputs e) eqn:E; [done|].
  intros [= <- _]. split_and!; [done..|]. eexists [_]. by rewrite E. Qed.
Lemma still_usage u : still (add_run_usage u).
Proof. intros e e' a [= <- _]. by apply steady_inputs. Qed.
Lemma still_phase f : still (change_phase f).
Proof. intros e e' a [= <- _]. by apply steady_inputs. Qed.
Lemma still_clock now : still (set_clock now).
Proof. intros e e' a [= <- _]. by apply steady_inputs. Qed.
Lemma still_emit ev : still (emit ev).
Proof.
  intros e e' []. unfold emit, in_world. destruct (send_event ev (en_world e)) as [w [[]|]] eqn:E; [|done].
  apply send_event_db in E as (E & _). intros [= <-]. by apply steady_inputs.
Qed.
Lemma still_notify ev : still (notify ev).
Proof.
  intros e e' a [= <- _]. apply steady_inputs; [|done..]. cbn. unfold send_event. by destruct (send _ _).
Qed.
Lemma still_call {SJ : SerdeJson} visible ins : still (await_call visible ins).
Proof.
  unfold await_call. apply still_bind; [apply still_next|]. intros []; try apply still_stop.
  intros e e' a. destruct (call_loop _ _ _ _) as [[[[now s] ins'] how]|]; [|done].
  intros [= <- _]. by apply steady_inputs.
Qed.
Lemma still_delay pending : still (await_delay pending).
Proof.
  unfold await_delay. apply still_bind; [apply still_next|]. intros []; try apply still_stop.
  revert pending. induction inputs as [|[now input] inputs IH]; intros pending; [apply still_stop|].
  intros e e' a. cbn [delay_loop]. destruct input as [| |[r|batch|batch|]|]; try done.
  - intros [= <- _]. by apply steady_inputs.
  - destruct (late_tool_result _ _); [intros H%IH; exact H|done].
  - intros H%IH. exact H.
  - intros [= <- _]. by apply steady_inputs.
Qed.

#[export] Hint Resolve still_ret still_stop still_of_res still_or_wait still_next still_usage still_phase still_clock
  still_emit still_notify still_call still_delay : still.
#[export] Hint Extern 1 (still (ends _)) => apply still_stop : still.
#[export] Hint Extern 1 (still waits) => apply still_stop : still.

Ltac by_still :=
  repeat first
  [ solve [eauto 2 with still nocore]
  | match goal with
    | |- still (mbind _ _) => apply still_bind; [|intro]
    | |- still (match ?x with _ => _ end) => destruct x
    end ].

Lemma still_close : still close_queue.
Proof. unfold close_queue. by_still. Qed.

(** Runs a bind in a hypothesis. *)
Ltac eng_step H := apply bind_eng in H; destruct H as (? & ? & ? & H).

Section Append.
Context `{B : Backend} (answers : Z → barrier_answer).

Lemma append_one_flags c s m s' : append_one c s m = Ok s' → ∃ head inserted,
  al_appended s' = al_appended s ++ [(head, inserted)] ∧
  (inserted = false → al_db s' = al_db s ∧ al_head s' = al_head s ∧ head = al_head s).
Proof.
  destruct s as [db known head pd out]. unfold append_one. destruct (list_find _ known) as [[i k]|].
  - destruct (stored_same _ _ _ _) as [[]|]; [|done..]. intros [= <-]. by exists head, false.
  - intros (d & _ & H)%bind_ok. destruct (select_checkpoints _ _); [|done].
    apply bind_ok in H as ([db1 ck] & H1 & [= <-]). by exists ck, true.
Qed.
Lemma append_loop_flags c ms : ∀ s s',
  foldl (λ acc m, s ← acc; append_one c s m) (Ok s) ms = Ok s' → ∃ new,
  al_appended s' = al_appended s ++ new ∧
  (existsb snd new = false → al_db s' = al_db s ∧ al_head s' = al_head s ∧ Forall (λ p, p.1 = al_head s) new).
Proof.
  induction ms as [|m ms IH]; intros s s'; cbn [foldl].
  { intros [= <-]. exists []. by rewrite app_nil_r. }
  change (mbind (λ s, append_one c s m) (Ok s)) with (append_one c s m).
  destruct (append_one c s m) as [s1|e] eqn:E; intros H; [|by rewrite foldl_err in H].
  apply append_one_flags in E as (head & ins & E1 & E2). apply IH in H as (new & H1 & H2).
  exists ((head, ins) :: new). split; [by rewrite H1, E1, <- app_assoc|]. cbn. intros [-> Hn]%orb_false_iff.
  destruct (E2 eq_refl) as (F1 & F2 & ->). destruct (H2 Hn) as (G1 & G2 & G3). split_and!; [congruence..|].
  constructor; [done|]. by rewrite <- F2.
Qed.
(** Messages that were all there change nothing. *)
Lemma append_once_same db now c run expected ms db' out :
  append_messages_once db db now c run expected ms = Ok (db', out) → existsb snd out = false →
  db' = db ∧ default expected (fst <$> last out) = expected.
Proof.
  unfold append_messages_once. destruct ms as [|m ms]; [by intros [= <- <-]|].
  intros (u & _ & (d & _ & (s & Hl & H)%bind_ok)%bind_ok)%bind_ok Hf.
  apply append_loop_flags in Hl as (new & H1 & H2). cbn in H1.
  assert (out = al_appended s) as ->.
  { case_decide; [by injection H|]. by apply bind_ok in H as (db2 & _ & [= _ <-]). }
  rewrite H1 in Hf |- *. destruct (H2 Hf) as (G1 & G2 & G3). cbn in G1, G2.
  rewrite decide_True in H by done. injection H as <-. split; [done|].
  destruct (last new) as [[h i]|] eqn:El; [|done]. cbn. apply last_Some_elem_of in El.
  rewrite Forall_forall in G3. by apply (G3 _ El).
Qed.

Lemma append_batch_same c run ck batch w w' ck' : append_batch answers c run ck batch w = (w', Ok (ck', false)) →
  w_db w' = w_db w ∧ ck' = ck.
Proof.
  unfold append_batch. destruct (existsb _ (b_messages batch)); [done|].
  intros (w1 & out & (Hap & _)%transact_ok & (w2 & u2 & (E2 & _)%announce_batch_ok &
    (w3 & u3 & Hcb & Hret)%bind_run)%bind_run)%bind_run.
  injection Hcb as <- <-. injection Hret as <- <- Hf. cbn.
  destruct (append_once_same _ _ _ _ _ _ _ _ Hap Hf) as [E3 E4]. by rewrite E2, E3.
Qed.
Lemma append_batches_same c run batches : ∀ ck w w' ck',
  append_batches answers c run ck batches w = (w', Ok (ck', false)) → w_db w' = w_db w ∧ ck' = ck.
Proof.
  induction batches as [|b batches IH]; intros ck w w' ck'; cbn [append_batches]; [by intros [= <- <-]|].
  intros (w1 & [ck1 i1] & H1 & (w2 & [ck2 i2] & H2 & H)%bind_run)%bind_run.
  injection H as <- <- Hf. apply orb_false_iff in Hf as [-> ->].
  apply append_batch_same in H1 as [E1 ->]. apply IH in H2 as [E2 ->]. by rewrite E2, E1.
Qed.
End Append.

Section Final.
Context {SJ : SerdeJson} `{B : Backend} {L : BackendLaws} (answers : Z → barrier_answer).
Context (SUMMARY_INSTRUCTIONS : str) (image_data : str → res (list Z)) (models : str → option ModelConfig).
Context (archive : Z → list CanonicalMessage → option str) (prune_fuel : nat).

Lemma append_same p ck batches e e' ck' : append answers p ck batches e = (e', Ok (ck', false)) →
  steady e e' ∧ ck' = ck.
Proof.
  unfold append, in_world. destruct (append_batches _ _ _ _ _ _) as [w [[k i]|]] eqn:E; [|done].
  intros [= <- -> ->]. apply append_batches_same in E as [? ->]. split; [by apply steady_inputs|done].
Qed.

(** *** The attempts *)

(** The answer came from the stream of a model call. *)
Definition answered (cycle : ModelCycleResult) (inputs : list Await) : Prop :=
  ∃ calls cancelled accounted client ins now s pending, AwaitCall calls cancelled ∈ inputs ∧
    call_loop accounted (new_cycle client) ins calls = Some (now, s, pending, CallFinished (Ok cycle)).

(** The invocation of an attempt, of a run that does not summarize. *)
Definition invoked (p : PreparedRun) (pc : Prepared) (request : ModelRequest) (calls calls' : list ModelInvocation)
    : Prop := ∃ before i, calls' = calls ++ before ++ [i] ∧ iv_request i = request ∧ iv_purpose i = Chat ∧
  iv_provider_call_index i = pc_index pc ∧ iv_run_id i = run_id p.

Lemma call_answered visible ins e e' pending cycle cancelled :
  await_call visible ins e = (e', Ok (pending, CallFinished (Ok cycle), cancelled)) → answered cycle (en_inputs e).
Proof.
  unfold await_call. intros (e1 & a & H1 & H2)%bind_eng. unfold next_await in H1.
  destruct (en_inputs e) as [|a' inputs]; [done|]. injection H1 as <- <-. destruct a'; try done.
  destruct (call_loop _ _ _ _) as [[[[now s] ins'] how]|] eqn:E; [|done]. injection H2 as _ -> -> ->.
  eexists _, _, _, _, _, _, _, _. split; [by left|exact E].
Qed.

Lemma failed_next p settings pc a l pending f cancelled e e' r : is_compact p = false →
  attempt_failed answers SUMMARY_INSTRUCTIONS models archive prune_fuel p settings pc a l pending f cancelled e = (e', Ok r) →
  match r with
  | Next a' => steady e e' ∧ at_request a' = at_request a ∧ l_checkpoint (at_locals a') = l_checkpoint l
  | Done (GotCycle _ _ _) => False
  | Done (NextTurn _) => True
  end.
Proof.
  intros Hc. unfold attempt_failed. intros (e1 & u & H1%still_usage & H)%bind_eng.
  destruct cancelled; [by apply bind_eng in H as (? & ? & _ & H)|]. set (l1 := with_compaction_run _ _) in H.
  assert (l_checkpoint l1 = l_checkpoint l) as Hl by done. clearbody l1.
  destruct (retention _) as [rt|]; [destruct (overflow_refusal _ _ _ _ _)|].
  { apply bind_eng in H as (? & ? & _ & [= _ <-]). done. }
  all: destruct (negb _);
    [apply bind_eng in H as (? & r' & Hg & [= _ <-]); unfold abandon_call in Hg; rewrite Hc, andb_false_r in Hg;
     by apply bind_eng in Hg as (? & ? & _ & Hg)|].
  all: apply bind_eng in H as (e2 & v & H2%still_emit & H); apply bind_eng in H as (e3 & [pd [b|]] & H3%still_delay & H);
    [eng_step H; eng_step H; by injection H as _ <-|].
  all: injection H as <- <-; cbn; split_and!; [etrans; [exact H1|]; by etrans|done|done].
Qed.

Lemma expand_none p settings pc a l pending cycle e e' r : is_compact p = false →
  expand_summary SUMMARY_INSTRUCTIONS prune_fuel p settings pc a l pending cycle e = (e', Ok r) → e' = e ∧ r = None.
Proof. intros Hc. unfold expand_summary. rewrite Hc. by intros [= <- <-]. Qed.

Lemma attempt_next p settings pc a e e' r : is_compact p = false →
  attempt_turn answers SUMMARY_INSTRUCTIONS models archive prune_fuel p settings pc a e = (e', Ok r) →
  let same l := w_db (en_world e') = w_db (en_world e) ∧ (∃ used, en_inputs e = used ++ en_inputs e') ∧
    invoked p pc (at_request a) (en_calls e) (en_calls e') ∧ l_checkpoint l = l_checkpoint (at_locals a) in
  match r with
  | Next a' => same (at_locals a') ∧ at_request a' = at_request a
  | Done (GotCycle l _ cycle) => same l ∧ answered cycle (en_inputs e)
  | Done (NextTurn _) => True
  end.
Proof.
  intros Hc H. cbn zeta. unfold attempt_turn in H. apply bind_eng in H as (e1 & u & [= <- <-] & H).
  apply bind_eng in H as (e2 & [[pending how] cancelled] & Hcall & H). set (e1 := MkEngine _ _ _ _ _) in *.
  pose proof (still_call _ _ _ _ _ Hcall) as S2.
  assert (∀ e3 l, steady e2 e3 → l_checkpoint l = l_checkpoint (at_locals a) →
    w_db (en_world e3) = w_db (en_world e) ∧ (∃ used, en_inputs e = used ++ en_inputs e3) ∧
    invoked p pc (at_request a) (en_calls e) (en_calls e3) ∧ l_checkpoint l = l_checkpoint (at_locals a)) as Hsame.
  { intros e3 l S3 Hl. destruct (transitivity S2 S3) as (D & C & used & I). split_and!; [done|by exists used| |done].
    rewrite C. unfold e1. cbn. rewrite Hc. eexists [], _. by split_and!. }
  unfold attempt_ended in H. destruct how as [[cycle|f]|b r'| | |].
  - apply bind_eng in H as (e3 & ag & [-> ->]%(expand_none _ _ _ _ _ _ _ _ _ _ Hc) & [= <- <-]). split.
    + by apply Hsame.
    + by eapply (call_answered _ _ e1).
  - pose proof (failed_next _ _ _ _ _ _ _ _ _ _ _ Hc H) as Hf. destruct r as [a'|[l pd cycle|l]]; [|done..].
    destruct Hf as (S3 & R & Hl). split; [by apply Hsame|exact R].
  - eng_step H. eng_step H. eng_step H. by injection H as _ <-.
  - by eng_step H.
  - by eng_step H.
  - by eng_step H.
Qed.

Lemma attempts_got p settings pc fuel : is_compact p = false → ∀ a e e' l pending cycle,
  eloop (attempt_turn answers SUMMARY_INSTRUCTIONS models archive prune_fuel p settings pc) fuel a e
    = (e', Ok (GotCycle l pending cycle)) →
  w_db (en_world e') = w_db (en_world e) ∧ (∃ used, en_inputs e = used ++ en_inputs e') ∧
  invoked p pc (at_request a) (en_calls e) (en_calls e') ∧ l_checkpoint l = l_checkpoint (at_locals a) ∧
  answered cycle (en_inputs e).
Proof.
  intros Hc. induction fuel as [|fuel IH]; intros a e e' l pending cycle; cbn [eloop]; [done|].
  intros (e1 & r & H1%(attempt_next _ _ _ _ _ _ _ Hc) & H)%bind_eng.
  destruct r as [a1|r1].
  - destruct H1 as [(D & (u & U) & (bf & i & C & _) & K) R]. destruct (IH _ _ _ _ _ _ H) as (D2 & (v & V) & (bf2 & j & C2 & J) & K2 & An).
    split_and!; [congruence|exists (u ++ v); by rewrite U, V, app_assoc| |congruence|].
    + exists (bf ++ [i] ++ bf2), j. rewrite C2, C, <- !app_assoc, <- R. by split.
    + destruct An as (x1 & x2 & x3 & x4 & x5 & x6 & x7 & x8 & Hin & Hx). exists x1, x2, x3, x4, x5, x6, x7, x8.
      rewrite U. split; [|done]. apply elem_of_app. by right.
  - injection H as <- ->. by destruct H1 as [(? & ? & ? & ?) ?].
Qed.

(** *** The end of the turn *)

Lemma wait_append_same p s e e' s' : wait_append answers p s e = (e', Ok (s', false)) →
  steady e e' ∧ wt_checkpoint s' = wt_checkpoint s.
Proof.
  unfold wait_append. destruct (wt_pending s); [intros [= <- <-]; by split|].
  intros (e1 & [ck ins] & H1 & [= <- <- ->])%bind_eng. by apply append_same in H1 as [? ->].
Qed.
Lemma drained_same p policy started polls : ∀ s e e' ck,
  background_loop answers p policy started s polls e = (e', Ok (ck, Drained)) → steady e e' ∧ ck = wt_checkpoint s.
Proof.
  induction polls as [|w polls IH]; intros s e e' ck; cbn [background_loop]; [done|].
  intros (e1 & u & H1%still_clock & (e2 & [s1 ins] & H2 & H)%bind_eng)%bind_eng.
  destruct ins; [done|]. apply wait_append_same in H2 as [H2 E2].
  destruct (wait_checked _ _ _ _) as [since|].
  - apply bind_eng in H as (e3 & next & H3 & H).
    assert (steady e2 e3) as H3'.
    { destruct (_ <=? _); [|by injection H3 as <- _]. apply bind_eng in H3 as (e4 & v & H4%still_emit & [= <- _]). done. }
    assert (steady e e3) as S by (etrans; [exact H1|]; by etrans).
    assert (∀ s' e e' ck, background_loop answers p policy started s' polls e = (e', Ok (ck, Drained)) →
      wt_checkpoint s' = wt_checkpoint s1 → steady e e' ∧ ck = wt_checkpoint s1) as IH'.
    { intros s' ??? Hb <-. by apply IH. }
    destruct (wp_input w) as [| |[r|batch|batch|]|]; try done;
      try (apply IH' in H as [S' ->]; [split; [by etrans|done]|done]); by apply bind_eng in H as (? & ? & _ & ?).
  - injection H as <- <-. split; [|done]. etrans; [exact H1|exact H2].
Qed.

Lemma announce_last ck cause e e' u : announce answers ck cause e = (e', Ok u) →
  steady e e' ∧ (room (w_client (en_world e')) ≠ None →
    last (sent (w_client (en_world e'))) = Some (MessagesCommitted ck 0 cause true)).
Proof.
  unfold announce. intros (e1 & [] & H1 & H2)%bind_eng.
  assert (e' = e1) as ->.
  { unfold in_world in H2. destruct (wait_for_state_ready _ _ _) as [w [[]|]] eqn:E; [|done].
    injection H2 as <- _. apply wait_ready_ok in E as ->. by destruct e1. }
  split; [by eapply still_emit|]. unfold emit, in_world, send_event, send in H1.
  destruct (room (w_client (en_world e))) as [[|n]|] eqn:E; [done| |].
  - injection H1 as <-. intros _. cbn. apply last_snoc.
  - injection H1 as <-. cbn. rewrite E. done.
Qed.

(** An answer is appended to the history the turn began with. *)
Lemma append_grows db now c run expected m db' id h : db_ok db → load_checkpoint_messages db expected = Ok h →
  append_checkpoint db now c run expected [m] = Ok (db', id) →
  load_checkpoint_messages db' id = (k ← reread m; Ok (h ++ [k])) ∧ current_checkpoint <$> conversations db' !! c = Some (Some id).
Proof.
  intros D Hl Ha. destruct (append_checkpoint_ok _ _ _ _ _ _ _ _ D Ha ltac:(done)) as (D' & L' & Happ).
  assert (∃ row, checkpoints db !! expected = Some row) as [row Hrow].
  { cbn in Ha. apply bind_ok in Ha as (pd & (r & Hr & _)%checkpoint_digest_ok & _). by exists r. }
  split; [|by destruct Happ as (dg & _ & _ & _ & ? & _)].
  rewrite (appended_load _ _ _ _ _ _ _ _ D D' (proj1 L') Happ Hrow), Hl. cbn. by destruct (reread m).
Qed.

Lemma finish_final p policy pc l pending cycle e e' h : db_ok (w_db (en_world e)) →
  load_checkpoint_messages (w_db (en_world e)) (l_checkpoint l) = Ok h →
  finish_turn answers p policy pc l pending cycle e = (e', Ok (Done ())) →
  ∃ ck, en_calls e' = en_calls e ∧
  load_checkpoint_messages (w_db (en_world e')) ck = (answer ← reread
    (assistant_message (run_id p) (pc_index pc) (r_text cycle) (r_reasoning cycle) (r_replay_state cycle)); Ok (h ++ [answer])) ∧
  current_checkpoint <$> conversations (w_db (en_world e')) !! conversation_id p = Some (Some ck) ∧
  (room (w_client (en_world e')) ≠ None →
    last (sent (w_client (en_world e'))) = Some (MessagesCommitted ck 0 FinalTurn true)).
Proof.
  intros D Hl. unfold finish_turn. intros (e1 & ck & H1 & (e2 & [ck2 ins] & H2 & H)%bind_eng)%bind_eng.
  unfold in_world in H1. destruct (transact _ _) as [w1 [ck1|]] eqn:Et; [|done]. injection H1 as <- ->.
  apply transact_ok in Et as (Ha & _). destruct (append_grows _ _ _ _ _ _ _ _ _ D Hl Ha) as [Hload Hcur].
  destruct ins; [done|]. apply append_same in H2 as [S2 ->].
  apply bind_eng in H as (e3 & busy & H3 & H).
  assert (steady e2 e3) as S3.
  { revert H3. unfold has_background_work. generalize e2, e3, busy.
    change (still (a ← next_await; match a with AwaitChildren (Ok running) => mret running
      | AwaitChildren (Err _) => mret false | _ => waits end)). by_still. }
  apply bind_eng in H as (e4 & [ck4 wt] & H4 & H).
  destruct wt; [done|].
  assert (steady e3 e4 ∧ ck4 = ck) as [S4 ->].
  { destruct busy; [|injection H4 as <- <-; by split].
    unfold await_background_subagents in H4. apply bind_eng in H4 as (e5 & aw & S5%still_next & H4).
    destruct aw; try done. apply drained_same in H4 as [S6 ->]. split; [by etrans|done]. }
  apply bind_eng in H as (e5 & closing & S5%still_close & H).
  destruct closing; [|eng_step H; match goal with x : Z * bool |- _ => destruct x end; by eng_step H].
  apply bind_eng in H as (e6 & u & H6 & [= <-]). apply announce_last in H6 as [S6 Hlast].
  assert (steady (set_world e w1) e6) as (Hdb & Hcalls & _).
  { etrans; [exact S2|]. etrans; [exact S3|]. etrans; [exact S4|]. by etrans. }
  exists ck. rewrite Hdb, Hcalls. by split_and!.
Qed.

Lemma prepare_request p settings l messages history e e' pc request : is_compact p = false →
  prepare_call SUMMARY_INSTRUCTIONS image_data models prune_fuel p settings l messages history e
    = (e', Ok (pc, request)) →
  (∃ now, begin_provider_call (w_db (en_world e)) now (run_id p) = Ok (w_db (en_world e'), pc_index pc)) ∧
  en_calls e' = en_calls e ∧ en_inputs e' = en_inputs e ∧
  ∃ shown, hydrate image_data history = Ok shown ∧ rq_prompt request = prompt p ∧
    rq_history request = user_terminated shown CONTINUE_MESSAGE_ID CONTINUE_INSTRUCTION.
Proof.
  intros Hc. unfold prepare_call. rewrite Hc. intros (e1 & index & H1 & (e2 & shown & H2 & H)%bind_eng)%bind_eng.
  unfold in_world in H1. destruct (transact _ _) as [w1 [i1|]] eqn:Et; [|done]. injection H1 as <- <-.
  apply transact_ok in Et as (Hb & _). unfold of_res in H2. destruct (hydrate _ _) as [sh|] eqn:Eh; [|done].
  injection H2 as <- ->. apply bind_eng in H as (e3 & hist & [= <- <-] & [= <- <- <-]). split; [by eexists|].
  split_and!; [done..|]. by exists shown.
Qed.

Definition final_commit (p : PreparedRun) (h : list CanonicalMessage) (i : ModelInvocation) (cycle : ModelCycleResult)
    (ck : Z) (db : Db) : Prop :=
  load_checkpoint_messages db ck = (answer ← reread (assistant_message (run_id p) (iv_provider_call_index i) (r_text cycle)
    (r_reasoning cycle) (r_replay_state cycle)); Ok (h ++ [answer])) ∧
  current_checkpoint <$> conversations db !! conversation_id p = Some (Some ck).
(** What the model was shown of the history [h]. *)
Definition shows (p : PreparedRun) (h : list CanonicalMessage) (i : ModelInvocation) : Prop :=
  iv_run_id i = run_id p ∧ iv_purpose i = Chat ∧ rq_prompt (iv_request i) = prompt p ∧
  ∃ projected shown, project_messages h = Ok projected ∧ hydrate image_data projected = Ok shown ∧
    rq_history (iv_request i) = user_terminated shown CONTINUE_MESSAGE_ID CONTINUE_INSTRUCTION.

Lemma turn_final p settings policy l e e' : is_compact p = false → reachable (w_db (en_world e)) →
  turn answers SUMMARY_INSTRUCTIONS image_data models archive prune_fuel p settings policy l e = (e', Ok (Done ())) →
  ∃ h i before cycle ck, load_checkpoint_messages (w_db (en_world e)) (l_checkpoint l) = Ok h ∧
    en_calls e' = en_calls e ++ before ++ [i] ∧ shows p h i ∧
    answered cycle (en_inputs e) ∧ r_calls cycle = [] ∧
    final_commit p h i cycle ck (w_db (en_world e')) ∧
    (room (w_client (en_world e')) ≠ None →
      last (sent (w_client (en_world e'))) = Some (MessagesCommitted ck 0 FinalTurn true)).
Proof.
  intros Hc R. unfold turn. intros (e1 & a & H1 & H)%bind_eng.
  destruct (still_next _ _ _ H1) as (D1 & C1 & used & U1). unfold turn_at in H. destruct a; try done.
  destruct cancelled; [done|]. apply bind_eng in H as (? & w & [= <- <-] & H).
  apply bind_eng in H as (? & h & Hh & H). unfold of_res in Hh.
  destruct (load_checkpoint_messages _ _) as [h1|] eqn:El; [|done]. injection Hh as <- ->.
  apply bind_eng in H as (? & ps & Hp & H). destruct (project_messages h) as [ps1|] eqn:Ep; [|done].
  injection Hp as <- ->. apply bind_eng in H as (e2 & [l1|] & H2 & H); [done|].
  assert (e2 = e1) as ->.
  { unfold preflight in H2. destruct (_ && _); [|by injection H2]. destruct (compaction_estimate _ _ _ _); [|by injection H2].
    eng_step H2. eng_step H2. match goal with x : Z * option Usage |- _ => destruct x end. by eng_step H2. }
  apply bind_eng in H as (e3 & [pc request] & H3 & H).
  apply (prepare_request _ _ _ _ _ _ _ _ _ Hc) in H3 as ((now & Hb) & C3 & U3 & shown & Hs & Q1 & Q2).
  apply bind_eng in H as (e4 & r & H4 & H). destruct r as [l2 pending cycle|l2]; [|done].
  unfold loop_inputs in H4. apply (attempts_got _ _ _ _ Hc) in H4 as (D4 & U4 & (bf & i & C4 & I1 & I2 & I3 & I4) & K4 & An).
  apply bind_eng in H as (e5 & u & (D5 & C5 & _)%still_usage & H). rewrite Hc in H.
  destruct (bool_decide (r_calls cycle = [])) eqn:Ec; [|by eng_step H]. apply bool_decide_eq_true in Ec.
  rewrite D1 in Hb.
  assert (reachable (w_db (en_world e3))) as R3 by (unfold reachable in *; etrans; [exact R|by eapply rtc_once, step_begin_call]).
  assert (w_db (en_world e5) = w_db (en_world e3)) as E5 by congruence.
  eapply (finish_final _ _ _ _ _ _ _ _ h) in H as (ck & C6 & Hload & Hcur & Hlast).
  - exists h, i, bf, cycle, ck. split; [|split; [|split; [|split; [|split; [done|split; [|done]]]]]].
    + by rewrite <- D1.
    + by rewrite C6, C5, C4, C3, C1.
    + split_and!; [done..|by rewrite I1|]. exists ps, shown. by rewrite I1.
    + destruct An as (x1 & x2 & x3 & x4 & x5 & x6 & x7 & x8 & Hin & Hx). exists x1, x2, x3, x4, x5, x6, x7, x8.
      rewrite U1, <- U3. split; [|done]. apply elem_of_app. by right.
    + split; [by rewrite I3|done].
  - rewrite E5. by apply reachable_ok.
  - rewrite E5. cbn [l_checkpoint with_anchor]. rewrite K4. cbn. rewrite <- El, D1.
    unfold begin_provider_call in Hb. destruct (runs (w_db (en_world e)) !! run_id p); [|done].
    case_decide; [|done]. by injection Hb as <- _.
Qed.
End Final.
