(* ===== verification/EngineFacts.v ===== *)
(** * EngineFacts: what a run guarantees

    Theorems about [Engine.run] and its loop, for every sequence of inputs:
    [run_isolated] (a run touches its own conversation only, by transactions of the store),
    [run_ends_once] (its outcome is stored, the conversation is free, and the client hears of the
    end once and last), [turn_calls_bounded] and [loops_have_fuel] (nothing spins), and
    [final_turn_history] (what is committed at the end is what the model was shown and what it
    answered). *)

From stdpp Require Import prelude gmap strings list.
From S2P Require Import Prelude Errors External Message Configuration Tokens Float Budget Trim Compaction Summary.
From S2P Require Import ModelCycle Store StoreInvariants StoreMachine ToolRound Engine EngineEffects EngineBounds EngineFinal.
Local Open Scope Z_scope.

Section Facts.
Context {SJ : SerdeJson} `{B : Backend} {L : BackendLaws} (answers : Z → barrier_answer).
Context (SUMMARY_INSTRUCTIONS : str) (image_data : str → res (list Z)) (models : str → option ModelConfig).
Context (archive : Z → list CanonicalMessage → option str) (prune_fuel : nat).

(** ** The claim and the end *)

(** What a claim of [run] for [c] leaves of the rest. *)
Record claimed_frame (c run : str) (db db' : Db) : Prop := {
  cf_conversations c' : c' ≠ c → conversations db' !! c' = conversations db !! c';
  cf_messages c' id : messages db' !! (c', id) = messages db !! (c', id);
  cf_runs r row : runs db !! r = Some row → run_conversation row ≠ c → runs db' !! r = Some row;
  cf_run : runs db !! run = None ∧
    ∃ row, runs db' !! run = Some row ∧ run_conversation row = c ∧ status row = Running
}.
Lemma ensure_frame db now c db' id : ensure_conversation_tx db now c = Ok (db', id) →
  (∀ c', c' ≠ c → conversations db' !! c' = conversations db !! c') ∧
  runs db' = runs db ∧ messages db' = messages db ∧
  (conversations db' !! c ≫= active_run) = (conversations db !! c ≫= active_run).
Proof.
  unfold ensure_conversation_tx. intros H.
  destruct (conversations db !! c) as [[[cur|] act up]|] eqn:E.
  - rewrite E in H. injection H as <- <-. by rewrite E.
  - rewrite E in H. apply bind_ok in H as ([db1 root] & H1 & [= <- <-]).
    unfold insert_checkpoint_row in H1. destruct (select_checkpoints _ _); [|done]. injection H1 as <- <-.
    cbn. split_and!; try done; [|by rewrite lookup_insert_eq]. intros c' Hc. by rewrite lookup_insert_ne by congruence.
  - cbn [conversations set_conversations] in H. rewrite lookup_insert_eq in H.
    apply bind_ok in H as ([db1 root] & H1 & [= <- <-]).
    unfold insert_checkpoint_row in H1. destruct (select_checkpoints _ _); [|done]. injection H1 as <- <-.
    cbn. split_and!; try done; [|by rewrite lookup_insert_eq]. intros c' Hc.
    by rewrite !lookup_insert_ne by congruence.
Qed.
Lemma claim_frame db now p db' claimed : reachable db → claim_run db now p = Ok (db', claimed) →
  claimed_frame (conversation_id p) (run_id p) db db'.
Proof.
  intros R%reachable_ok H. unfold claim_run in H. set (c := conversation_id p) in *.
  apply bind_ok in H as ([db1 id] & H1 & H). destruct (ensure_frame _ _ _ _ _ H1) as (F1 & F2 & F3 & F4).
  case_decide as Hck; [|done]. rewrite F4 in H. set (replaced := conversations db !! c ≫= active_run) in *.
  destruct (run_kind_columns (run_kind p)) as [[[parent call] kind] sub].
  set (db2 := cancel_replaced db1 now (run_id p) replaced) in *.
  assert (conversations db2 = conversations db1 ∧ messages db2 = messages db1 ∧
    (∀ r row, runs db1 !! r = Some row → run_conversation row ≠ c → runs db2 !! r = Some row) ∧
    ∀ r, runs db2 !! r = None → runs db1 !! r = None) as (G1 & G2 & G3 & G4).
  { unfold db2, cancel_replaced. destruct replaced as [old|] eqn:Er; [|done]. case_decide; [done|].
    cbn. split_and!; [done..| |].
    - intros r row Hr Hc. destruct (decide (r = old)) as [->|]; [|by rewrite lookup_alter_ne by congruence].
      exfalso. unfold replaced in Er. destruct (conversations db !! c) as [crow|] eqn:Ec; [|done].
      destruct (o_active _ (ok_owner _ R) _ _ _ Ec Er) as (orow & Ho & _ & Hoc & _).
      rewrite F2, Ho in Hr. by simplify_eq.
    - intros r Hr. destruct (decide (r = old)) as [->|]; [|by rewrite lookup_alter_ne in Hr by congruence].
      rewrite lookup_alter_eq in Hr. by destruct (runs db1 !! old). }
  destruct (runs db2 !! run_id p) eqn:En; [done|]. injection H as <- _. cbn. split; cbn.
  - intros c' Hc. rewrite lookup_insert_ne by congruence. rewrite G1. by apply F1.
  - intros c' i. by rewrite G2, F3.
  - intros r row Hr Hc. rewrite lookup_insert_ne; [apply G3; [by rewrite F2|done]|].
    intros <-. apply G4 in En. by rewrite F2, Hr in En.
  - split; [rewrite <- F2; by apply G4|]. rewrite lookup_insert_eq. by eexists.
Qed.

(** Storing the outcome of a run that is known. *)
Lemma finish_known db now run s usage f row : runs db !! run = Some row → s ≠ Running →
  ∃ db' released row', finish_run db now run s usage f = Ok (db', released) ∧
    runs db' !! run = Some row' ∧ run_conversation row' = run_conversation row ∧
    status row' = (if decide (status row = Running) then s else status row) ∧
    (status row = Running → failure_category row' = fst <$> f ∧ failure_summary row' = snd <$> f) ∧
    (∀ r, r ≠ run → runs db' !! r = runs db !! r) ∧ messages db' = messages db ∧
    (∀ c, c ≠ run_conversation row → conversations db' !! c = conversations db !! c) ∧
    (conversations db' !! run_conversation row ≫= active_run) ≠ Some run ∧
    (∀ c, current_checkpoint <$> conversations db' !! c = current_checkpoint <$> conversations db !! c) ∧
    (∀ id, load_checkpoint_messages db' id = load_checkpoint_messages db id).
Proof.
  intros Hr Hs. unfold finish_run. rewrite Hr. case_bool_decide as Hrun.
  - rewrite (decide_True _ _ Hrun).
    assert (∃ calls, (match s with
      | StatusCancelled => Ok (end_calls (llm_calls db) run now CallCancelled None None)
      | StatusFailed => Ok (end_calls (llm_calls db) run now CallError (fst <$> f) (snd <$> f))
      | StatusCompleted => Ok (end_calls (llm_calls db) run now CallError (Some (lit "internal"))
          (Some (lit "Run completed before LLM call reached a terminal state")))
      | Running => Err (Store (lit "cannot finish LLM calls for non-terminal Run status: running"))
      end : res _) = Ok calls) as [calls ->] by (destruct s; [done|by eexists..]).
    cbn [mbind result_bind].
    destruct (conversations (set_runs _ _ _) !! run_conversation row) as [crow|] eqn:Ec; cbn in Ec; [case_decide as Ha|];
      (eexists _, _, _; split; [reflexivity|]); cbn; rewrite !lookup_insert_eq, ?Ec; cbn;
      (split; [reflexivity|]); split_and!; try done; intros; rewrite ?lookup_insert_ne by congruence; try done;
      match goal with |- _ <$> <[_:=_]> _ !! ?c = _ => destruct (decide (c = run_conversation row)) as [->|];
        [by rewrite lookup_insert_eq, Ec|by rewrite lookup_insert_ne by congruence] end.
  - rewrite (decide_False _ _ Hrun).
    assert (∃ calls, (match status row with
      | StatusCancelled => Ok (end_calls (llm_calls db) run now CallCancelled None None)
      | StatusFailed => Ok (end_calls (llm_calls db) run now CallError (failure_category row) (failure_summary row))
      | StatusCompleted => Ok (end_calls (llm_calls db) run now CallError (Some (lit "internal"))
          (Some (lit "Run completed before LLM call reached a terminal state")))
      | Running => Err (Store (lit "cannot finish LLM calls for non-terminal Run status: running"))
      end : res _) = Ok calls) as [calls ->] by (destruct (status row); [done|by eexists..]).
    cbn [mbind result_bind].
    destruct (conversations (set_runs _ _ _) !! run_conversation row) as [crow|] eqn:Ec; cbn in Ec; [case_decide as Ha|];
      (eexists _, _, _; split; [reflexivity|]); cbn; rewrite ?lookup_insert_eq, ?Ec; cbn;
      (split; [exact Hr|]); split_and!; try done; intros; rewrite ?lookup_insert_ne by congruence; try done;
      match goal with |- _ <$> <[_:=_]> _ !! ?c = _ => destruct (decide (c = run_conversation row)) as [->|];
        [by rewrite lookup_insert_eq, Ec|by rewrite lookup_insert_ne by congruence] end.
Qed.

(** What storing the outcome leaves of the rest. *)
Record stored_frame (c run : str) (row : RunRow) (db db' : Db) : Prop := {
  sf_conversations c' : c' ≠ c → conversations db' !! c' = conversations db !! c';
  sf_messages : messages db' = messages db;
  sf_runs r : r ≠ run → runs db' !! r = runs db !! r;
  sf_run : ∃ row', runs db' !! run = Some row' ∧ run_conversation row' = c;
  sf_heads c' : current_checkpoint <$> conversations db' !! c' = current_checkpoint <$> conversations db !! c';
  sf_load id : load_checkpoint_messages db' id = load_checkpoint_messages db id
}.
Definition stored_as (run c : str) (db : Db) (s : RunStatus) (f : option (str * str)) : Prop :=
  ∃ row, runs db !! run = Some row ∧ status row = s ∧ failure_category row = fst <$> f ∧
    failure_summary row = snd <$> f ∧ (conversations db !! c ≫= active_run) ≠ Some run.

Lemma persist_stored fault now run s usage f db row : runs db !! run = Some row → status row = Running → s ≠ Running →
  match persist_outcome fault now run s usage f db with
  | (db', true) => fault = false ∧ stored_frame (run_conversation row) run row db db' ∧ rtc store_step db db' ∧
      stored_as run (run_conversation row) db' s f
  | (db', false) => fault = true ∧ db' = db
  end.
Proof.
  intros Hr Hrun Hs. unfold persist_outcome. destruct fault; [done|].
  destruct (finish_known db now run s usage f row Hr Hs) as
    (db' & released & row' & E & H1 & H2 & H3 & H4 & H5 & H6 & H7 & H8 & H11 & H12).
  rewrite E. rewrite decide_True in H3 by done. destruct (H4 Hrun) as [H9 H10]. split_and!; [done| | |].
  - split; [exact H7|exact H6|exact H5|by exists row'|exact H11|exact H12].
  - by eapply rtc_once, step_finish.
  - by exists row'.
Qed.

Lemma finish_stored_ok faults now run o usage db row : runs db !! run = Some row → status row = Running →
  let db' := finish_stored faults now run o usage db in
  stored_frame (run_conversation row) run row db db' ∧ rtc store_step db db' ∧
  (faults 0%nat = false ∨ faults 1%nat = false →
     stored_as run (run_conversation row) db' (stored_outcome o).1 (stored_outcome o).2) ∧
  (faults 0%nat = true → faults 1%nat = true → faults 2%nat = false →
     stored_as run (run_conversation row) db' StatusFailed None).
Proof.
  intros Hr Hrun. unfold finish_stored. cbn zeta.
  assert ((stored_outcome o).1 ≠ Running) as Hs by (by destruct o).
  assert (stored_frame (run_conversation row) run row db db) as Hrefl by (split; eauto).
  destruct (stored_outcome o) as [s f]. cbn [fst snd] in *.
  pose proof (persist_stored (faults 0%nat) now run s usage f db row Hr Hrun Hs) as H0.
  destruct (persist_outcome (faults 0%nat) _ _ _ _ _ _) as [db0 []].
  { destruct H0 as (E0 & F & S & A). split_and!; [done..|]. congruence. }
  destruct H0 as [E0 ->].
  pose proof (persist_stored (faults 1%nat) now run s usage f db row Hr Hrun Hs) as H1.
  destruct (persist_outcome (faults 1%nat) _ _ _ _ _ _) as [db1 []].
  { destruct H1 as (E1 & F & S & A). split_and!; [done..|]. congruence. }
  destruct H1 as [E1 ->].
  pose proof (persist_stored (faults 2%nat) now run StatusFailed None None db row Hr Hrun ltac:(done)) as H2.
  destruct (persist_outcome (faults 2%nat) _ _ _ _ _ _) as [db2 []]; cbn [fst].
  - destruct H2 as (E2 & F & S & A). split_and!; [done|done| |done]. intros [?|?]; congruence.
  - destruct H2 as [E2 ->]. split_and!; [done|done| |congruence]. intros [?|?]; congruence.
Qed.

(** How a run went, up to the end of [run_claimed]. *)
Definition claimed_run p policy anchor settings :=
  run_claimed answers SUMMARY_INSTRUCTIONS image_data models archive prune_fuel p policy anchor settings.
Definition whole_run p policy anchor settings faults :=
  run answers SUMMARY_INSTRUCTIONS image_data models archive prune_fuel p policy anchor settings faults.

Lemma run_cases p policy anchor settings faults e e' o :
  whole_run p policy anchor settings faults e = (e', o) → reachable (w_db (en_world e)) →
  (∃ error, claim_run (w_db (en_world e)) (w_now (en_world e)) p = Err error ∧
     o = Some (failed error) ∧ e' = say_ended (failed error) e) ∨
  (∃ db cl e1 r, claim_run (w_db (en_world e)) (w_now (en_world e)) p = Ok (db, cl) ∧
     claimed_run p policy anchor settings (cl_head cl) (set_world e (set_db (en_world e) db)) = (e1, r) ∧
     claimed_frame (conversation_id p) (run_id p) (w_db (en_world e)) db ∧ reachable db ∧
     effect (conversation_id p) (run_id p) (set_world e (set_db (en_world e) db)) e1 ∧
     reachable (w_db (en_world e1)) ∧ frame (conversation_id p) (run_id p) db (w_db (en_world e1)) ∧
     (∃ row, runs (w_db (en_world e1)) !! run_id p = Some row ∧ run_conversation row = conversation_id p ∧
        status row = Running) ∧
     ((r = Err Waits ∧ o = None ∧ e' = e1) ∨
      (∃ out, (r = Ok () ∧ out = Completed ∨ r = Err (Ends out) ∧ out ≠ Completed) ∧ o = Some out ∧
         e' = say_ended out (set_world e1 (set_db (en_world e1)
                (finish_stored faults (w_now (en_world e1)) (run_id p) out (en_usage e1) (w_db (en_world e1)))))))).
Proof.
  unfold whole_run, run. intros H R.
  destruct (claim_run _ _ _) as [[db cl]|error] eqn:Ec; [right|left; exists error; by injection H as <- <-].
  pose proof (claim_frame _ _ _ _ _ R Ec) as F.
  assert (reachable db) as Rd by (unfold reachable in *; etrans; [exact R|by eapply rtc_once, step_claim]).
  fold (claimed_run p policy anchor settings) in H.
  destruct (claimed_run p policy anchor settings (cl_head cl) (set_world e (set_db (en_world e) db))) as [e1 r] eqn:Er.
  destruct (does_claimed answers SUMMARY_INSTRUCTIONS image_data models archive prune_fuel (conversation_id p) (run_id p)
    p policy anchor settings (cl_head cl) ltac:(done) (set_world e (set_db (en_world e) db))) as [Hef Hends].
  fold (claimed_run p policy anchor settings) in Hef, Hends. rewrite Er in Hef, Hends. cbn [fst snd] in Hef, Hends.
  destruct (proj1 (ef_world _ _ _ _ Hef) Rd) as [Hrtc Hframe].
  exists db, cl, e1, r. split_and!; [done..| |exact Hframe| |].
  - unfold reachable in *. etrans; [exact Rd|exact Hrtc].
  - destruct (cf_run _ _ _ _ F) as (_ & row & H1 & H2 & H3).
    destruct (fr_kept _ _ _ _ Hframe row H1) as (row' & ? & ? & ?). exists row'. split_and!; congruence.
  - destruct r as [[]|[out|]].
    + right. exists Completed. injection H as <- <-. split_and!; [by left|done..].
    + right. exists out. injection H as <- <-. split_and!; [right; split; [done|congruence]|done..].
    + left. by injection H as <- <-.
Qed.

Lemma say_ended_world out e : w_db (en_world (say_ended out e)) = w_db (en_world e) ∧
  en_calls (say_ended out e) = en_calls e ∧ en_phase (say_ended out e) = PhaseEnded.
Proof. unfold say_ended, notify, send_event. by destruct (send _ _). Qed.
Lemma say_ended_sent out e :
  sent (w_client (en_world (say_ended out e))) = sent (w_client (en_world e)) ++ [Ended out] ∨
  sent (w_client (en_world (say_ended out e))) = sent (w_client (en_world e)) ∧
  room (w_client (en_world (say_ended out e))) = room (w_client (en_world e)) ∧
  ∀ n, room (w_client (en_world (say_ended out e))) ≠ Some (S n).
Proof.
  unfold say_ended, notify, send_event, send. destruct (room (w_client (en_world e))) as [[|n]|] eqn:E; cbn.
  - right. split_and!; [done..|]. by rewrite E.
  - by left.
  - right. split_and!; [done..|]. by rewrite E.
Qed.

(** C33: A run stays in its conversation.  Whatever the provider, the client and the children
    do, and however it ends — or while it still waits —, what it did to the database is a
    sequence of transactions of the store, so every invariant of the store holds; the other
    conversations, their messages and their runs are untouched; and every call of the
    provider carries this run's identity. *)
Theorem run_isolated p policy anchor settings faults e e' o :
  whole_run p policy anchor settings faults e = (e', o) → reachable (w_db (en_world e)) →
  let db := w_db (en_world e) in let db' := w_db (en_world e') in
  reachable db' ∧
  (∀ c, c ≠ conversation_id p → conversations db' !! c = conversations db !! c ∧
     ∀ id, messages db' !! (c, id) = messages db !! (c, id)) ∧
  (∀ r row, runs db !! r = Some row → run_conversation row ≠ conversation_id p → runs db' !! r = Some row) ∧
  ∃ calls, en_calls e' = en_calls e ++ calls ∧
    Forall (λ i, iv_run_id i = run_id p ∧ iv_conversation_id i = conversation_id p) calls.
Proof.
  intros H R. cbn zeta.
  destruct (run_cases _ _ _ _ _ _ _ _ H R) as
    [(error & _ & _ & ->)|(db & cl & e1 & r & _ & _ & F & _ & Hef & R1 & G & (row & Hr & Hc & Hs) & Hend)].
  { destruct (say_ended_world (failed error) e) as (-> & -> & _). split_and!; [done..|]. exists []. by rewrite app_nil_r. }
  destruct (ef_calls _ _ _ _ Hef) as (calls & Hcalls & Hall). cbn in Hcalls.
  assert (stored_frame (conversation_id p) (run_id p) row (w_db (en_world e1)) (w_db (en_world e')) ∧
    rtc store_step (w_db (en_world e1)) (w_db (en_world e')) ∧ en_calls e' = en_calls e1) as (S & Hrtc & Hcs).
  { destruct Hend as [(_ & _ & ->)|(out & _ & _ & ->)].
    - split_and!; [by split; eauto|reflexivity|done].
    - destruct (say_ended_world out (set_world e1 (set_db (en_world e1) (finish_stored faults (w_now (en_world e1))
        (run_id p) out (en_usage e1) (w_db (en_world e1)))))) as (-> & -> & _). cbn.
      destruct (finish_stored_ok faults (w_now (en_world e1)) (run_id p) out (en_usage e1) _ row Hr Hs) as (S & ? & _).
      by rewrite Hc in S. }
  split_and!.
  - unfold reachable in *. by etrans.
  - intros c Hne. split.
    + by rewrite (sf_conversations _ _ _ _ _ S), (fr_conversations _ _ _ _ G), (cf_conversations _ _ _ _ F).
    + intros id. by rewrite (sf_messages _ _ _ _ _ S), (fr_messages _ _ _ _ G), (cf_messages _ _ _ _ F).
  - intros r' row' Hr' Hne. assert (r' ≠ run_id p) as Hrun.
    { intros ->. destruct (cf_run _ _ _ _ F) as [Hn _]. congruence. }
    rewrite (sf_runs _ _ _ _ _ S), (fr_runs _ _ _ _ G) by done. by apply (cf_runs _ _ _ _ F).
  - exists calls. by rewrite Hcs.
Qed.

(** C32: A run ends once, and what ends it is what is stored.  While it waits, the client has
    not been told that it ended.  When it ends, the last thing the client is sent — if it still
    listens — is [Ended] with the outcome, and nothing before it is; a run that could not be claimed
    leaves the database as it was; a claimed one is stored with the status and the failure of
    that outcome if the first or the second attempt to store succeeds, as failed if only
    the third does, and in each case its conversation is free for the next run. *)
Theorem run_ends_once p policy anchor settings faults e e' o :
  whole_run p policy anchor settings faults e = (e', o) → reachable (w_db (en_world e)) →
  en_phase e ≠ PhaseEnded →
  let db := w_db (en_world e) in let db' := w_db (en_world e') in
  ∃ new, Forall quiet new ∧
  match o with
  | None => en_phase e' ≠ PhaseEnded ∧ sent (w_client (en_world e')) = sent (w_client (en_world e)) ++ new
  | Some out =>
      en_phase e' = PhaseEnded ∧
      (sent (w_client (en_world e')) = sent (w_client (en_world e)) ++ new ++ [Ended out] ∨
       sent (w_client (en_world e')) = sent (w_client (en_world e)) ++ new ∧
         ∀ n, room (w_client (en_world e')) ≠ Some (S n)) ∧
      match claim_run db (w_now (en_world e)) p with
      | Err error => out = failed error ∧ db' = db
      | Ok _ =>
          (faults 0%nat = false ∨ faults 1%nat = false →
             stored_as (run_id p) (conversation_id p) db' (stored_outcome out).1 (stored_outcome out).2) ∧
          (faults 0%nat = true → faults 1%nat = true → faults 2%nat = false →
             stored_as (run_id p) (conversation_id p) db' StatusFailed None)
      end
  end.
Proof.
  intros H R Hph. cbn zeta.
  destruct (run_cases _ _ _ _ _ _ _ _ H R) as
    [(error & -> & -> & ->)|(db & cl & e1 & r & -> & _ & F & _ & Hef & R1 & G & (row & Hr & Hc & Hs) & Hend)].
  { exists []. split; [done|]. destruct (say_ended_world (failed error) e) as (-> & _ & ->).
    destruct (say_ended_sent (failed error) e) as [->|(-> & E1 & ?)]; rewrite ?app_nil_r; auto. }
  destruct (proj2 (ef_world _ _ _ _ Hef)) as (new & Hnew & Hq). cbn in Hnew. exists new. split; [done|].
  pose proof (ef_phase _ _ _ _ Hef Hph) as Hph1.
  destruct Hend as [(_ & -> & ->)|(out & _ & -> & ->)]; [done|].
  set (e2 := set_world e1 _). destruct (say_ended_world out e2) as (-> & _ & ->). split; [done|]. split.
  - destruct (say_ended_sent out e2) as [->|(-> & E1 & ?)]; cbn; rewrite Hnew, <- ?app_assoc; auto.
  - destruct (finish_stored_ok faults (w_now (en_world e1)) (run_id p) out (en_usage e1) _ row Hr Hs) as (_ & _ & ?).
    by rewrite Hc in *.
Qed.

(** *** A run that completes *)

(** The last turn of a loop that ended. *)
Lemma loop_last {T A} (c run : str) (body : T → Eng (flow T A)) (I : T → Prop) fuel : ∀ s e e' a, I s →
  (∀ s, I s → does c run (body s) (λ r, match r with Next s => I s | Done _ => True end)) →
  eloop body fuel s e = (e', Ok a) → ∃ s1 e1, effect c run e e1 ∧ body s1 e1 = (e', Ok (Done a)).
Proof.
  induction fuel as [|fuel IH]; intros s e e' a Hs Hb; cbn [eloop]; [done|].
  intros (e1 & r & H1 & H)%bind_eng. destruct (Hb s Hs e) as [Hef Hn]. rewrite H1 in Hef, Hn. cbn in Hef, Hn.
  destruct r as [s1|a1]; [|injection H as <- <-; by exists s, e].
  destruct (IH s1 e1 e' a) as (s2 & e2 & Hef2 & Hlast); [done..|].
  exists s2, e2. split; [by etrans|done].
Qed.

Lemma collect_delivered p db initial : ∀ pending ms, collect_initial p db pending initial = Ok (ms, true) →
  action p = BackgroundCompletion.
Proof.
  induction initial as [|m initial IH]; intros pending ms; cbn [collect_initial]; [done|].
  destruct (action p) eqn:E; try (by intros H%IH). done.
Qed.
Lemma deliver_calls p ck e : en_calls (deliver_initial answers p ck e).1 = en_calls e.
Proof.
  revert e. change (free (deliver_initial answers p ck)). unfold deliver_initial, commit_initial, announce. by_free.
Qed.
Lemma deliver_nothing p ck e e' : deliver_initial answers p ck e = (e', Ok None) →
  action p = BackgroundCompletion ∧ en_calls e' = en_calls e.
Proof.
  intros H. split; [|pose proof (deliver_calls p ck e) as Hc; by rewrite H in Hc]. unfold deliver_initial in H.
  destruct (initial_messages p) as [|m ms]; [done|]. apply bind_eng in H as (e1 & w & _ & H).
  apply bind_eng in H as (e2 & [pending delivered] & H2 & H). destruct (collect_initial _ _ _ _) as [[ps dl]|] eqn:E; [|done].
  injection H2 as _ -> ->. apply bind_eng in H as (e3 & [ck1 changed] & _ & H).
  destruct delivered; [by eapply collect_delivered|]. destruct changed; [|done].
  by apply bind_eng in H as (e4 & u & _ & H).
Qed.

Lemma claimed_final p policy anchor settings ck e e' : is_compact p = false → reachable (w_db (en_world e)) →
  claimed_run p policy anchor settings ck e = (e', Ok ()) →
  action p = BackgroundCompletion ∧ en_calls e' = en_calls e ∨
  ∃ h i before cycle ck, en_calls e' = en_calls e ++ before ++ [i] ∧ shows image_data p h i ∧
    answered cycle (en_inputs e) ∧ r_calls cycle = [] ∧ final_commit p h i cycle ck (w_db (en_world e')) ∧
    (room (w_client (en_world e')) ≠ None →
      last (sent (w_client (en_world e'))) = Some (MessagesCommitted ck 0 FinalTurn true)).
Proof.
  intros Hc R H. set (c := conversation_id p). set (run := run_id p). assert (names c run p) as Hn by done.
  unfold claimed_run, run_claimed in H.
  apply bind_eng in H as (e1 & a & H1 & H). destruct (does_of_res c run anchor e) as [Ef1 _]. rewrite H1 in Ef1.
  apply bind_eng in H as (e2 & s & H2 & H). destruct (does_of_res c run settings e1) as [Ef2 _]. rewrite H2 in Ef2.
  apply bind_eng in H as (e3 & d & H3 & H). destruct (does_deliver answers c run p ck Hn e2) as [Ef3 _].
  rewrite H3 in Ef3. destruct d as [ck1|].
  - right. apply bind_eng in H as (e4 & ck2 & H4 & H).
    assert (effect c run e3 e4) as Ef4.
    { pose proof (does_round answers c run p) as Hr. unfold resume_round in H4.
      destruct (action p) as [| |[r|]|]; try (injection H4 as <- _; reflexivity).
      match type of H4 with run_round _ _ ?ck ?round ?pending _ = _ => destruct (Hr ck round pending Hn e3) as [Ef _] end.
      by rewrite H4 in Ef. }
    eapply (loop_last c run _ (locals_ok c run)) in H as (l & e5 & Ef5 & H);
      [|done|intros l1 Hl1; by apply does_turn].
    assert (effect c run e e5) as Ef.
    { etrans; [exact Ef1|]. etrans; [exact Ef2|]. etrans; [exact Ef3|]. by etrans. }
    apply turn_final in H as (h & i & bf & cycle & ck3 & _ & C & Sh & An & E & F & La); [|done|].
    + destruct (ef_calls _ _ _ _ Ef) as (new & Hnew & _). destruct (ef_inputs _ _ _ _ Ef) as (used & Hused).
      exists h, i, (new ++ bf), cycle, ck3. split_and!; try done; [by rewrite C, Hnew, <- !app_assoc| |by apply F..].
      destruct An as (x1 & x2 & x3 & x4 & x5 & x6 & x7 & x8 & Hin & Hx). exists x1, x2, x3, x4, x5, x6, x7, x8.
      rewrite Hused. split; [|done]. apply elem_of_app. by right.
    + destruct (proj1 (ef_world _ _ _ _ Ef) R) as [Hrtc _]. unfold reachable in *. by etrans.
  - left. injection H as <-. apply deliver_nothing in H3 as [? E3]. split; [done|].
    rewrite E3. assert (e2 = e) as ->; [|done].
    unfold of_res in H1, H2. destruct anchor; [|done]. destruct settings; [|done]. by injection H1 as <- _; injection H2 as <- _.
Qed.

(** C31: What a run commits when it completes is what the model was shown and what it answered.
    A run that does not summarize and completes — other than a completion that had been delivered
    already, for which no model is called — called the provider last with the projection of a history
    [h] of the conversation, under the run's own prompt; the answer, taken from the stream of a model
    call, had no tool calls; the conversation's head is a checkpoint that loads [h] followed
    by that answer as its payload reads back; and the client, if it listens, heard of that checkpoint last before the end. *)
Theorem completed_history p policy anchor settings faults e e' :
  whole_run p policy anchor settings faults e = (e', Some Completed) → is_compact p = false →
  reachable (w_db (en_world e)) →
  action p = BackgroundCompletion ∧ en_calls e' = en_calls e ∨
  ∃ h i before cycle ck, en_calls e' = en_calls e ++ before ++ [i] ∧ shows image_data p h i ∧
    answered cycle (en_inputs e) ∧ r_calls cycle = [] ∧ final_commit p h i cycle ck (w_db (en_world e')) ∧
    (room (w_client (en_world e')) ≠ None → ∃ s, let told := s ++ [MessagesCommitted ck 0 FinalTurn true] in
      sent (w_client (en_world e')) = told ∨ sent (w_client (en_world e')) = told ++ [Ended Completed]).
Proof.
  intros H Hc R. destruct (run_cases _ _ _ _ _ _ _ _ H R) as
    [(error & _ & Hf & _)|(db & cl & e1 & r & _ & Hr & _ & Rd & _ & _ & _ & (row & Hrow & Hrc & Hrs) & Hend)]; [done|].
  destruct Hend as [(_ & Hf & _)|(out & [[-> _]|[-> Hne]] & [= <-] & ->)]; [done| |done].
  set (e2 := set_world e1 _). destruct (say_ended_world Completed e2) as (Ed & Ec & _). rewrite Ec, Ed.
  apply claimed_final in Hr; [|done|done]. cbn in Hr.
  destruct Hr as [[Ha Hcalls]|(h & i & bf & cycle & ck & H1 & H2 & H3 & H4 & [H5 H6] & H7)]; [by left|right].
  destruct (finish_stored_ok faults (w_now (en_world e1)) (run_id p) Completed (en_usage e1) _ row Hrow Hrs) as (S & _).
  exists h, i, bf, cycle, ck. split_and!; try done.
  - split; cbn; [by rewrite (sf_load _ _ _ _ _ S)|by rewrite (sf_heads _ _ _ _ _ S)].
  - intros Hroom. assert (room (w_client (en_world e1)) ≠ None) as Hr1.
    { intros Hn. apply Hroom. unfold say_ended, notify, send_event, send. cbn. by rewrite Hn. }
    destruct (last_Some (sent (w_client (en_world e1))) (MessagesCommitted ck 0 FinalTurn true)) as [(s & Hs) _];
      [by apply H7|]. exists s. cbn zeta.
    destruct (say_ended_sent Completed e2) as [->|(-> & _)]; cbn; rewrite Hs; auto.
Qed.
End Facts.

(** ** A run from the first message to its end *)
Module EngineSamples.
Definition answers (_ : Z) : barrier_answer := BarrierReady.
Definition answer : CanonicalMessage := assistant_message (lit "r1") 0 (lit "hi") [] None.
Definition store : Backend := StoreSamples.backend [StoreSamples.hello; answer].
Definition laws : @BackendLaws store := StoreSamples.backend_laws _.
Definition json : SerdeJson := Samples.tiny_json.
Definition policy : BackgroundWaitPolicy := MkPolicy 1000 5000 600000 3600000 15000 60000.
Definition prepared : PreparedRun :=
  let p := StoreSamples.prepared "r1" in
  MkPrepared (run_id p) None (conversation_id p) Root (model p) (prompt p) [StoreSamples.hello] Start 1.
(** A first attempt fails, the second answers, and nothing else is queued. *)
Definition inputs : list Await :=
  [AwaitTop false;
   AwaitCall [(21, CallPolled (Item (Err (Provider (lit "overloaded")))))] false;
   AwaitDelay [(22, DelayElapsed)];
   AwaitCall (((λ ev, (23, CallPolled (Item (Ok ev))))
                <$> [MStart (lit "m1"); MTextStart; MTextDelta (lit "hi"); MTextEnd; MDone FinishStop])
              ++ [(24, CallPolled (StreamEnd false))]) false;
   AwaitChildren (Ok false);
   AwaitQueue [] false].
Definition engine : Engine :=
  MkEngine (MkWorld empty_db (MkChannel (Some 100%nat) []) ∅ [] 20) PhaseRunning None [] inputs.
Definition ended : Engine * option RunOutcome :=
  @whole_run json store answers (lit "summarize") (λ _, Ok []) (λ _, None) (λ _ _, None) 100 prepared policy (Ok None)
    (Ok default_settings) (λ _, false) engine.

Lemma ran : @whole_run json store answers (lit "summarize") (λ _, Ok []) (λ _, None) (λ _ _, None) 100 prepared policy
  (Ok None) (Ok default_settings) (λ _, false) engine = (ended.1, ended.2).
Proof. exact (surjective_pairing ended). Qed.
Lemma completes : snd ended = Some Completed.
Proof. vm_compute. reflexivity. Qed.
End EngineSamples.

Lemma run_isolated_witness :
  @reachable EngineSamples.store (w_db (en_world EngineSamples.ended.1)) ∧
  ∃ calls, en_calls EngineSamples.ended.1 = calls ∧
    Forall (λ i, iv_run_id i = lit "r1" ∧ iv_conversation_id i = StoreSamples.conv) calls.
Proof.
  pose proof (run_isolated (L := EngineSamples.laws) EngineSamples.answers (lit "summarize") (λ _, Ok []) (λ _, None)
    (λ _ _, None) 100 EngineSamples.prepared EngineSamples.policy (Ok None) (Ok default_settings) (λ _, false)
    EngineSamples.engine EngineSamples.ended.1 EngineSamples.ended.2 EngineSamples.ran
    (rtc_refl _ _)) as H.
  cbn zeta in H. destruct H as (H1 & _ & _ & calls & H2 & H3). split; [exact H1|]. exists calls. split; [exact H2|exact H3].
Defined.

Lemma run_ends_once_witness : ∃ new, Forall quiet new ∧
  sent (w_client (en_world EngineSamples.ended.1)) = new ++ [Ended Completed] ∧
  stored_as (lit "r1") StoreSamples.conv (w_db (en_world EngineSamples.ended.1)) StatusCompleted None.
Proof.
  pose proof (run_ends_once (L := EngineSamples.laws) EngineSamples.answers (lit "summarize") (λ _, Ok []) (λ _, None)
    (λ _ _, None) 100 EngineSamples.prepared EngineSamples.policy (Ok None) (Ok default_settings) (λ _, false)
    EngineSamples.engine EngineSamples.ended.1 EngineSamples.ended.2 EngineSamples.ran
    (rtc_refl _ _) ltac:(discriminate)) as H.
  rewrite EngineSamples.completes in H. cbn zeta in H. destruct H as (new & Hq & _ & Hs & Hd). exists new. split; [exact Hq|].
  split.
  - destruct Hs as [Hs|[_ Hs]]; [exact Hs|]. exfalso. apply (Hs 92%nat). vm_compute. reflexivity.
  - destruct (@claim_run EngineSamples.store (w_db (en_world EngineSamples.engine)) (w_now (en_world EngineSamples.engine))
      EngineSamples.prepared) as [[db cl]|error] eqn:E; [|vm_compute in E; discriminate E].
    apply (proj1 Hd). left. reflexivity.
Defined.

Lemma completed_history_witness : ∃ h i cycle ck,
  @final_commit EngineSamples.store EngineSamples.prepared h i cycle ck (w_db (en_world EngineSamples.ended.1)) ∧
  last (en_calls EngineSamples.ended.1) = Some i.
Proof.
  destruct (completed_history (SJ := EngineSamples.json) (L := EngineSamples.laws) EngineSamples.answers (lit "summarize") (λ _, Ok [])
    (λ _, None) (λ _ _, None) 100 EngineSamples.prepared EngineSamples.policy (Ok None) (Ok default_settings) (λ _, false)
    EngineSamples.engine EngineSamples.ended.1) as [[H _]|(h & i & bf & cycle & ck & H1 & _ & _ & _ & H2 & _)].
  - rewrite EngineSamples.ran, EngineSamples.completes. reflexivity.
  - reflexivity.
  - apply rtc_refl.
  - discriminate H.
  - exists h, i, cycle, ck. split; [exact H2|]. rewrite H1, app_assoc. apply last_snoc.
Defined.
