(* ===== verification/JsonStream.v ===== *)
(** * JsonStream: the string fields of a tool call, read while they arrive

    server/src/cursor/protocol/json_stream.rs.  The arguments of a tool call come in
    pieces; [push] reads the next piece and returns what it adds to the string fields
    of the object.  The lexer is used again after a piece it refused (the conversation
    output only logs it), so a refused character leaves a state too.

    Theorems: reading in pieces is reading at once ([push_chunks]), and every JSON
    object is read to the end with exactly its string fields ([push_object]). *)

From stdpp Require Import prelude gmap strings list.
From S2P Require Import Prelude Errors External.
Local Open Scope Z_scope.

(** server/src/cursor/protocol/json_stream.rs:5-8, [StringFieldEvent]. *)
Inductive StringFieldEvent : Type :=
  | Delta (name text : str)
  | End (name : str).

Global Instance StringFieldEvent_eq_dec : EqDecision StringFieldEvent.
Proof. solve_decision. Defined.

(** server/src/cursor/protocol/json_stream.rs:19-30, [State]. *)
Inductive State : Type :=
  | SObject | SKey | SKeyString | SColon | SValue | SValueString | SSkipValue | SAfterValue | SDone.

(** server/src/cursor/protocol/json_stream.rs:129-131, [JsonString]. *)
Record JsonString : Type := MkJsonString { escape : str }.

(** server/src/cursor/protocol/json_stream.rs:133-137, [StringStep]. *)
Inductive StringStep : Type :=
  | Text (s : str)
  | StringEnd
  | Pending.

(** server/src/cursor/protocol/json_stream.rs:191-195, [SkippedValue]. *)
Record SkippedValue : Type := MkSkipped { depth : Z; in_string : bool; escaped : bool }.

(** server/src/cursor/protocol/json_stream.rs:11-16, [JsonStringFields]. *)
Record JsonStringFields : Type := MkFields {
  js_state : State;
  js_key : str;
  js_string : JsonString;
  js_skipped : SkippedValue
}.

Definition new_fields : JsonStringFields :=
  MkFields SObject [] (MkJsonString []) (MkSkipped 0 false false).

(** server/src/cursor/protocol/json_stream.rs:211-228, [SkippedValue::observe]. *)
Definition observe (v : SkippedValue) (c : Z) : SkippedValue :=
  if in_string v then
    if escaped v then MkSkipped (depth v) true false
    else if c =? 92 then MkSkipped (depth v) true true
    else if c =? 34 then MkSkipped (depth v) false (escaped v)
    else v
  else if c =? 34 then MkSkipped (depth v) true (escaped v)
  else if (c =? 123) || (c =? 91) then MkSkipped (u64 (depth v + 1)) (in_string v) (escaped v)
  else if (c =? 125) || (c =? 93) then MkSkipped (sat_sub (depth v) 1) (in_string v) (escaped v)
  else v.

(** server/src/cursor/protocol/json_stream.rs:198-201, [SkippedValue::start]. *)
Definition start_skipped (first : Z) : SkippedValue := observe (MkSkipped 0 false false) first.

(** server/src/cursor/protocol/json_stream.rs:200-206, [SkippedValue::push]. *)
Definition push_skipped (v : SkippedValue) (c : Z) : SkippedValue * option Z :=
  if negb (in_string v) && (depth v =? 0) && ((c =? 44) || (c =? 125)) then (v, Some c)
  else (observe v c, None).

(** [u16::from_str_radix(.., 16)] of hexadecimal digits. *)
Definition hex_value (c : Z) : Z :=
  if is_ascii_digit c then c - 48 else if is_ascii_upper c then c - 55 else c - 87.
Definition hex16 (s : str) : Z := foldl (λ n c, 16 * n + hex_value c) 0 s.

(** server/src/cursor/protocol/json_stream.rs:158-179, the escape is whole ([Some true]),
    may still become so ([Some false]), or is none. *)
Definition escape_complete (bytes : list Z) : option bool :=
  let hex := forallb is_ascii_hexdigit in
  let len := zlen bytes in
  match bytes with
  | 92 :: 117 :: rest =>
      if (len =? 6) && hex rest then
        let code := hex16 rest in Some (negb ((0xD800 <=? code) && (code <=? 0xDBFF)))
      else if len <? 6 then Some false
      else match rest with
           | [a; b; c; d; 92; 117; e; f; g; h] =>
               if hex [a; b; c; d; e; f; g; h] then Some true else None
           | _ => if len <? 12 then Some false else None
           end
  | [92; c] =>
      if bool_decide (c ∈ [34; 92; 47; 98; 102; 110; 114; 116]) then Some true else None
  | [92] => Some false
  | _ => None
  end.

Section JsonStream.
Context {SS : SerdeString}.

(** server/src/cursor/protocol/json_stream.rs:145-187, [JsonString::push]. *)
Definition push_string (j : JsonString) (c : Z) : JsonString * res StringStep :=
  match escape j with
  | [] =>
      if c =? 34 then (j, Ok StringEnd)
      else if c =? 92 then (MkJsonString [c], Ok Pending)
      else if c <? 0x20 then (j, Err (protocol "control character in JSON string"))
      else (j, Ok (Text [c]))
  | _ =>
      let e := escape j ++ [c] in
      match escape_complete (as_bytes e) with
      | None => (MkJsonString e, Err (protocol "invalid JSON string escape"))
      | Some false => (MkJsonString e, Ok Pending)
      | Some true =>
          match string_from_str (34 :: e ++ [34]) with
          | Ok decoded => (MkJsonString [], Ok (Text decoded))
          | Err error =>
              (MkJsonString e, Err (Protocol (lit "invalid JSON string escape: " ++ fe_display error)))
          end
      end
  end.

(** server/src/cursor/protocol/json_stream.rs:111-126, [push_delta]. *)
Definition push_delta (events : list StringFieldEvent) (name text : str) : list StringFieldEvent :=
  match reverse events with
  | Delta previous_name previous_text :: earlier =>
      if decide (previous_name = name) then
        reverse earlier ++ [Delta previous_name (previous_text ++ text)]
      else events ++ [Delta name text]
  | _ => events ++ [Delta name text]
  end.

Definition set_state (f : JsonStringFields) (s : State) : JsonStringFields :=
  MkFields s (js_key f) (js_string f) (js_skipped f).
Definition set_string (f : JsonStringFields) (j : JsonString) : JsonStringFields :=
  MkFields (js_state f) (js_key f) j (js_skipped f).

(** server/src/cursor/protocol/json_stream.rs:41-108, [JsonStringFields::consume]. *)
Definition consume (f : JsonStringFields) (c : Z) (events : list StringFieldEvent)
    : JsonStringFields * res (list StringFieldEvent) :=
  match js_state f with
  | SObject =>
      if c =? 123 then (set_state f SKey, Ok events)
      else if is_whitespace c then (f, Ok events)
      else (f, Err (protocol "tool arguments must start with an object"))
  | SKey =>
      if c =? 34 then (MkFields SKeyString [] (MkJsonString []) (js_skipped f), Ok events)
      else if c =? 125 then (set_state f SDone, Ok events)
      else if is_whitespace c then (f, Ok events)
      else (f, Err (protocol "expected a tool argument name"))
  | SKeyString =>
      let '(j, step) := push_string (js_string f) c in
      let f := set_string f j in
      match step with
      | Ok (Text text) => (MkFields (js_state f) (js_key f ++ text) (js_string f) (js_skipped f), Ok events)
      | Ok StringEnd => (set_state f SColon, Ok events)
      | Ok Pending => (f, Ok events)
      | Err e => (f, Err e)
      end
  | SColon =>
      if c =? 58 then (set_state f SValue, Ok events)
      else if is_whitespace c then (f, Ok events)
      else (f, Err (protocol "expected ':' after tool argument name"))
  | SValue =>
      if c =? 34 then (MkFields SValueString (js_key f) (MkJsonString []) (js_skipped f), Ok events)
      else if is_whitespace c then (f, Ok events)
      else (MkFields SSkipValue (js_key f) (js_string f) (start_skipped c), Ok events)
  | SValueString =>
      let '(j, step) := push_string (js_string f) c in
      let f := set_string f j in
      match step with
      | Ok (Text text) => (f, Ok (push_delta events (js_key f) text))
      | Ok StringEnd => (set_state f SAfterValue, Ok (events ++ [End (js_key f)]))
      | Ok Pending => (f, Ok events)
      | Err e => (f, Err e)
      end
  | SSkipValue =>
      let '(v, terminal) := push_skipped (js_skipped f) c in
      let f := MkFields (js_state f) (js_key f) (js_string f) v in
      match terminal with
      | Some 44 => (set_state f SKey, Ok events)
      | Some 125 => (set_state f SDone, Ok events)
      | Some _ => (f, Err (protocol "invalid skipped JSON value terminator"))
      | None => (f, Ok events)
      end
  | SAfterValue =>
      if c =? 44 then (set_state f SKey, Ok events)
      else if c =? 125 then (set_state f SDone, Ok events)
      else if is_whitespace c then (f, Ok events)
      else (f, Err (protocol "expected ',' after tool argument value"))
  | SDone =>
      if is_whitespace c then (f, Ok events)
      else (f, Err (protocol "data after tool arguments object"))
  end.

(** The loop of [push]: it stops at the first refused character. *)
Fixpoint consume_all (f : JsonStringFields) (input : str) (events : list StringFieldEvent)
    : JsonStringFields * res (list StringFieldEvent) :=
  match input with
  | [] => (f, Ok events)
  | c :: input =>
      match consume f c events with
      | (f, Ok events) => consume_all f input events
      | (f, Err e) => (f, Err e)
      end
  end.

(** server/src/cursor/protocol/json_stream.rs:33-39, [JsonStringFields::push]. *)
Definition push (f : JsonStringFields) (input : str) : JsonStringFields * res (list StringFieldEvent) :=
  consume_all f input [].

(** ** Reading in pieces

    [add_events] appends events to a list the way [push] does: a delta joins the delta
    of the same field before it. *)
Definition add_event (events : list StringFieldEvent) (e : StringFieldEvent) : list StringFieldEvent :=
  match e with
  | Delta name text => push_delta events name text
  | End name => events ++ [e]
  end.
Definition add_events : list StringFieldEvent → list StringFieldEvent → list StringFieldEvent :=
  foldl add_event.

Lemma push_delta_snoc l n t m s :
  push_delta (l ++ [Delta n t]) m s =
  if decide (n = m) then l ++ [Delta n (t ++ s)] else (l ++ [Delta n t]) ++ [Delta m s].
Proof. unfold push_delta. rewrite reverse_snoc. case_decide; [by rewrite reverse_involutive|done]. Qed.
Lemma push_delta_end l n m s : push_delta (l ++ [End n]) m s = (l ++ [End n]) ++ [Delta m s].
Proof. unfold push_delta. by rewrite reverse_snoc. Qed.
Lemma push_delta_nil m s : push_delta [] m s = [Delta m s].
Proof. done. Qed.

(** A delta that joins what is before it does so after any other list too. *)
Lemma push_delta_delta l n t s : push_delta (push_delta l n t) n s = push_delta l n (t ++ s).
Proof.
  destruct l as [|[m r|m] l _] using rev_ind.
  - rewrite !push_delta_nil. change [Delta n t] with ([] ++ [Delta n t]).
    by rewrite push_delta_snoc, decide_True.
  - rewrite !push_delta_snoc. case_decide as E.
    + subst m. by rewrite push_delta_snoc, decide_True, (assoc_L (++)).
    + by rewrite push_delta_snoc, decide_True.
  - by rewrite !push_delta_end, push_delta_snoc, decide_True.
Qed.
Lemma push_delta_other l n t m s : n ≠ m →
  push_delta (push_delta l n t) m s = push_delta l n t ++ [Delta m s].
Proof.
  intros Hne. destruct l as [|[k r|k] l _] using rev_ind.
  - rewrite push_delta_nil. change [Delta n t] with ([] ++ [Delta n t]).
    by rewrite push_delta_snoc, decide_False.
  - rewrite !push_delta_snoc. case_decide as E.
    + subst k. by rewrite push_delta_snoc, decide_False.
    + by rewrite push_delta_snoc, decide_False.
  - by rewrite !push_delta_end, push_delta_snoc, decide_False.
Qed.

Lemma add_event_assoc l k e : add_events l (add_event k e) = add_event (add_events l k) e.
Proof.
  unfold add_events. destruct e as [m s|m]; cbn [add_event].
  - destruct k as [|[n t|n] k _] using rev_ind.
    + done.
    + rewrite push_delta_snoc, foldl_snoc. cbn [add_event]. case_decide as E.
      * subst n. rewrite foldl_snoc. cbn [add_event]. by rewrite push_delta_delta.
      * rewrite !foldl_snoc. cbn [add_event]. by rewrite push_delta_other.
    + rewrite push_delta_end, !foldl_snoc. cbn [add_event]. done.
  - by rewrite foldl_snoc.
Qed.
Lemma add_events_assoc l k j : add_events l (add_events k j) = add_events (add_events l k) j.
Proof.
  induction j as [|e j IH] using rev_ind; [done|]. unfold add_events in *. rewrite !foldl_snoc, <- IH.
  apply add_event_assoc.
Qed.

(** What a character adds does not depend on what was read before. *)
Lemma consume_events f c events :
  consume f c events =
  (let '(f', r) := consume f c [] in (f', add_events events <$> r)).
Proof.
  unfold consume. destruct (js_state f); repeat case_match; simplify_eq; done.
Qed.
Lemma consume_all_events f s events :
  consume_all f s events =
  (let '(f', r) := consume_all f s [] in (f', add_events events <$> r)).
Proof.
  revert f events. induction s as [|c s IH]; intros f events; [done|]. cbn [consume_all].
  rewrite consume_events. destruct (consume f c []) as [f' [e1|e]]; [|done].
  cbn. rewrite IH. rewrite (IH _ e1). destruct (consume_all f' s []) as [g [e2|e]]; [|done].
  cbn. by rewrite add_events_assoc.
Qed.
Lemma consume_all_app f s t events :
  consume_all f (s ++ t) events =
  match consume_all f s events with
  | (f', Ok events') => consume_all f' t events'
  | (f', Err e) => (f', Err e)
  end.
Proof.
  revert f events. induction s as [|c s IH]; intros f events; [done|]. cbn.
  destruct (consume f c events) as [f' [e1|e]]; [apply IH|done].
Qed.

Lemma push_app f s t :
  push f (s ++ t) =
  match push f s with
  | (f', Ok e1) => let '(g, r) := push f' t in (g, add_events e1 <$> r)
  | (f', Err e) => (f', Err e)
  end.
Proof.
  unfold push. rewrite consume_all_app. destruct (consume_all f s []) as [f' [e1|e]]; [|done].
  apply consume_all_events.
Qed.

(** The pieces one after the other, up to the first that is refused. *)
Fixpoint push_pieces (f : JsonStringFields) (pieces : list str)
    : JsonStringFields * res (list (list StringFieldEvent)) :=
  match pieces with
  | [] => (f, Ok [])
  | piece :: pieces =>
      match push f piece with
      | (f, Ok events) => let '(f, r) := push_pieces f pieces in (f, cons events <$> r)
      | (f, Err e) => (f, Err e)
      end
  end.

Lemma push_pieces_concat f pieces :
  push f (concat pieces) =
  (let '(g, r) := push_pieces f pieces in (g, (λ es, add_events [] (concat es)) <$> r)).
Proof.
  revert f. induction pieces as [|p pieces IH]; intros f; [done|]. cbn [concat push_pieces].
  rewrite push_app. destruct (push f p) as [f' [e1|e]] eqn:E; [|done].
  rewrite IH. destruct (push_pieces f' pieces) as [g [es|e]]; [|done]. cbn. do 2 f_equal.
  assert (e1 = add_events [] e1) as He1.
  { pose proof (consume_all_events f p []) as H. unfold push in E. rewrite E in H.
    by injection H. }
  unfold add_events in *. rewrite foldl_app, <- He1. exact (add_events_assoc e1 [] (concat es)).
Qed.

(** Reading the arguments in pieces is reading them at once, whatever the pieces: the
    same pieces are accepted or refused with the same error in the same state, and the
    events are the same up to deltas of one field that two pieces share. *)
Theorem push_chunks f pieces :
  push f (concat pieces) =
  (let '(g, r) := push_pieces f pieces in (g, (λ es, add_events [] (concat es)) <$> r)).
Proof. apply push_pieces_concat. Qed.
End JsonStream.

(** ** JSON

    The grammar of RFC 8259, as relations between a text and what it denotes. *)
Definition json_ws (w : str) : Prop := Forall (λ c, c ∈ [32; 9; 10; 13]) w.
Definition hex4 (h : str) : Prop := length h = 4%nat ∧ forallb is_ascii_hexdigit h = true.
Definition quoted (raw : str) : str := 34 :: raw ++ [34].

(** An escape and the character it stands for. *)
Inductive escape_text : str → Z → Prop :=
  | escape_simple c t :
      (c, t) ∈ [(34, 34); (92, 92); (47, 47); (98, 8); (102, 12); (110, 10); (114, 13); (116, 9)] →
      escape_text [92; c] t
  | escape_unicode h : hex4 h → ¬ 0xD800 ≤ hex16 h ≤ 0xDFFF → escape_text (92 :: 117 :: h) (hex16 h)
  | escape_pair h l : hex4 h → hex4 l → 0xD800 ≤ hex16 h ≤ 0xDBFF → 0xDC00 ≤ hex16 l ≤ 0xDFFF →
      escape_text (92 :: 117 :: h ++ 92 :: 117 :: l)
        (0x10000 + (hex16 h - 0xD800) * 1024 + (hex16 l - 0xDC00)).

(** The characters between the quotes of a string. *)
Inductive string_chars : str → str → Prop :=
  | chars_nil : string_chars [] []
  | chars_plain c raw s : 32 ≤ c → c ≠ 34 → c ≠ 92 → string_chars raw s → string_chars (c :: raw) (c :: s)
  | chars_escape e t raw s : escape_text e t → string_chars raw s → string_chars (e ++ raw) (t :: s).

(** Numbers and literal names. *)
Definition atom_char (c : Z) : bool := is_ascii_alnum c || bool_decide (c ∈ [43; 45; 46]).

Inductive nonterminal : Type := Value | Elements | Members.
Inductive json_text : nonterminal → str → Prop :=
  | json_string raw s : string_chars raw s → json_text Value (quoted raw)
  | json_atom a : a ≠ [] → forallb atom_char a = true → json_text Value a
  | json_empty_array w : json_ws w → json_text Value (91 :: w ++ [93])
  | json_array body : json_text Elements body → json_text Value (91 :: body ++ [93])
  | json_empty_object w : json_ws w → json_text Value (123 :: w ++ [125])
  | json_object body : json_text Members body → json_text Value (123 :: body ++ [125])
  | json_element w1 v w2 : json_ws w1 → json_text Value v → json_ws w2 →
      json_text Elements (w1 ++ v ++ w2)
  | json_elements w1 v w2 rest : json_ws w1 → json_text Value v → json_ws w2 →
      json_text Elements rest → json_text Elements ((w1 ++ v ++ w2) ++ 44 :: rest)
  | json_member w1 k key w2 w3 v w4 : json_ws w1 → string_chars k key → json_ws w2 → json_ws w3 →
      json_text Value v → json_ws w4 →
      json_text Members (w1 ++ quoted k ++ w2 ++ 58 :: w3 ++ v ++ w4)
  | json_members w1 k key w2 w3 v w4 rest : json_ws w1 → string_chars k key → json_ws w2 →
      json_ws w3 → json_text Value v → json_ws w4 → json_text Members rest →
      json_text Members ((w1 ++ quoted k ++ w2 ++ 58 :: w3 ++ v ++ w4) ++ 44 :: rest).

(** The members of an object with their names, and their contents when these are strings. *)
Inductive field_value : str → option str → Prop :=
  | field_string raw s : string_chars raw s → field_value (quoted raw) (Some s)
  | field_other v : json_text Value v → head v ≠ Some 34 → field_value v None.
Inductive fields_text : str → list (str * option str) → Prop :=
  | fields_one w1 k key w2 w3 v o w4 : json_ws w1 → string_chars k key → json_ws w2 → json_ws w3 →
      field_value v o → json_ws w4 →
      fields_text (w1 ++ quoted k ++ w2 ++ 58 :: w3 ++ v ++ w4) [(key, o)]
  | fields_more w1 k key w2 w3 v o w4 rest fields : json_ws w1 → string_chars k key → json_ws w2 →
      json_ws w3 → field_value v o → json_ws w4 → fields_text rest fields →
      fields_text ((w1 ++ quoted k ++ w2 ++ 58 :: w3 ++ v ++ w4) ++ 44 :: rest) ((key, o) :: fields).
Inductive object_text : str → list (str * option str) → Prop :=
  | object_empty w1 w2 w3 : json_ws w1 → json_ws w2 → json_ws w3 →
      object_text (w1 ++ 123 :: w2 ++ 125 :: w3) []
  | object_fields w1 body fields w2 : json_ws w1 → fields_text body fields → json_ws w2 →
      object_text (w1 ++ 123 :: body ++ 125 :: w2) fields.

(** Every object of the grammar has its fields. *)
Lemma value_field v : json_text Value v → ∃ o, field_value v o.
Proof.
  intros H. inversion H; subst; try (eexists; by eapply field_string);
    try (exists None; by apply field_other).
  exists None. apply field_other; [done|]. destruct v as [|c v]; [done|].
  cbn in *. intros [= ->]. done.
Qed.
Lemma members_fields s : json_text Members s → ∃ fields, fields_text s fields.
Proof.
  intros H. remember Members as n eqn:En. induction H; try done.
  - destruct (value_field v) as [o Ho]; [done|]. eexists. by eapply fields_one.
  - destruct (value_field v) as [o Ho]; [done|]. destruct IHjson_text2 as [fields Hf]; [done|].
    eexists. by eapply fields_more.
Qed.

(** serde_json reads every escape of the grammar. *)
Class SerdeStringLaws `{SerdeString} : Prop := {
  string_from_str_escape e t : escape_text e t → string_from_str (quoted e) = Ok [t]
}.

(** ** Skipped values

    [quiet v s]: [push_skipped] goes through [s] without meeting the end of the value. *)
Fixpoint quiet (v : SkippedValue) (s : str) : Prop :=
  match s with
  | [] => True
  | c :: s => (in_string v = false → depth v = 0 → c ≠ 44 ∧ c ≠ 125) ∧ quiet (observe v c) s
  end.
Definition outside (d : Z) : SkippedValue := MkSkipped d false false.
Definition inside (d : Z) : SkippedValue := MkSkipped d true false.

(** A text that is skipped and leaves no trace: at any depth from [lowest]. *)
Definition skips (lowest : Z) (s : str) : Prop :=
  ∀ d, lowest ≤ d → d + zlen s < 2 ^ 64 →
    foldl observe (outside d) s = outside d ∧ quiet (outside d) s.

Lemma quiet_app v s t : quiet v (s ++ t) ↔ quiet v s ∧ quiet (foldl observe v s) t.
Proof. revert v; induction s as [|c s IH]; intros v; cbn; [tauto|]. rewrite IH. tauto. Qed.
Lemma skips_nil lowest : skips lowest [].
Proof. done. Qed.
Lemma skips_app lowest s t : skips lowest s → skips lowest t → skips lowest (s ++ t).
Proof.
  intros Hs Ht d Hd Hl. rewrite zlen_app in Hl. pose proof (zlen_nonneg s). pose proof (zlen_nonneg t).
  destruct (Hs d) as [E1 Q1]; [lia..|]. destruct (Ht d) as [E2 Q2]; [lia..|].
  rewrite foldl_app, quiet_app, E1. done.
Qed.
Lemma skips_weaken a b s : a ≤ b → skips a s → skips b s.
Proof. intros Hab H d Hd Hl. apply H; lia. Qed.

(** A character that means nothing outside a string. *)
Lemma skips_char lowest c : c ∉ [34; 123; 91; 125; 93] → (c = 44 → 1 ≤ lowest) → skips lowest [c].
Proof.
  intros Hc H44 d Hd _. cbn. unfold observe. cbn [in_string outside depth escaped].
  assert (c ≠ 34 ∧ c ≠ 123 ∧ c ≠ 91 ∧ c ≠ 125 ∧ c ≠ 93) as (E1 & E2 & E3 & E4 & E5).
  { repeat split; intros ->; apply Hc; set_solver. }
  rewrite !(proj2 (Z.eqb_neq c _)) by done. split; [done|]. split; [|done].
  intros _ ->. split; [|done]. intros ->. specialize (H44 eq_refl). lia.
Qed.
Lemma skips_chars s : Forall (λ c, c ∉ [34; 123; 91; 125; 93; 44]) s → skips 0 s.
Proof.
  induction 1 as [|c s Hc _ IH]; [done|]. apply (skips_app 0 [c]); [|done].
  apply skips_char; [set_solver|]. intros ->. set_solver.
Qed.
Lemma skips_ws w : json_ws w → skips 0 w.
Proof. intros H. apply skips_chars. eapply Forall_impl; [exact H|]. cbn. set_solver. Qed.

Lemma skips_bracket open close s : (open, close) ∈ [(91, 93); (123, 125)] →
  skips 1 s → skips 0 (open :: s ++ [close]).
Proof.
  intros Ho Hs d Hd Hl. rewrite zlen_cons, zlen_app, zlen_cons in Hl. pose proof (zlen_nonneg s).
  change (zlen (@nil Z)) with 0 in Hl. destruct (Hs (d + 1)) as [E Q]; [lia..|].
  assert (observe (outside d) open = outside (d + 1)) as E1.
  { rewrite !elem_of_cons, elem_of_nil in Ho. unfold observe, outside. cbn [in_string escaped depth].
    rewrite wrap_small by lia. by destruct Ho as [[= -> ->]|[[= -> ->]|[]]]. }
  cbn [foldl quiet]. rewrite E1, foldl_app, quiet_app, E. cbn [foldl quiet].
  rewrite !elem_of_cons, elem_of_nil in Ho. split.
  - unfold observe, outside. cbn [in_string escaped depth]. unfold sat_sub.
    replace (Z.max 0 (d + 1 - 1)) with d by lia. by destruct Ho as [[= -> ->]|[[= -> ->]|[]]].
  - split; [|split; [done|split; [|done]]].
    + by destruct Ho as [[= -> ->]|[[= -> ->]|[]]].
    + cbn. lia.
Qed.

(** Inside a string. *)
Lemma observe_plain d c : c ≠ 34 → c ≠ 92 → observe (inside d) c = inside d.
Proof. intros H1 H2. unfold observe. cbn. by rewrite !(proj2 (Z.eqb_neq c _)). Qed.
Definition within (d : Z) (s : str) : Prop :=
  foldl observe (inside d) s = inside d ∧ quiet (inside d) s.
Lemma within_app d s t : within d s → within d t → within d (s ++ t).
Proof. intros [E1 Q1] [E2 Q2]. unfold within. by rewrite foldl_app, quiet_app, E1. Qed.
Lemma within_plain d c : c ≠ 34 → c ≠ 92 → within d [c].
Proof. intros H1 H2. unfold within. cbn [foldl quiet]. by rewrite observe_plain. Qed.
Lemma within_escape d c : within d [92; c].
Proof. done. Qed.
Lemma within_hex d s : forallb is_ascii_hexdigit s = true → within d s.
Proof.
  induction s as [|c s IH]; [done|]. intros [Hc Hs]%andb_true_iff.
  apply (within_app d [c]); [|by apply IH]. apply within_plain; by intros ->.
Qed.
Lemma within_chars d raw s : string_chars raw s → within d raw.
Proof.
  induction 1 as [|c raw s _ H1 H2 _ IH|e t raw s He _ IH]; [done| |].
  - by apply (within_app d [c]); [apply within_plain|].
  - apply within_app; [|done]. destruct He as [c t H|h [_ H] _|h l [_ H1] [_ H2] _ _].
    + apply within_escape.
    + apply (within_app d [92; 117]); [apply within_escape|by apply within_hex].
    + apply (within_app d [92; 117]); [apply within_escape|].
      apply within_app; [by apply within_hex|].
      apply (within_app d [92; 117]); [apply within_escape|by apply within_hex].
Qed.

Lemma skips_quoted raw s : string_chars raw s → skips 0 (quoted raw).
Proof.
  intros H d Hd _. destruct (within_chars d raw s H) as [E Q]. unfold quoted.
  cbn [foldl quiet]. change (observe (outside d) 34) with (inside d).
  rewrite foldl_app, quiet_app, E. cbn. by split_and!.
Qed.

Lemma skips_json n s : json_text n s → skips (match n with Value => 0 | _ => 1 end) s.
Proof.
  assert (∀ w, json_ws w → skips 1 w) as Hws.
  { intros w Hw. apply (skips_weaken 0); [lia|by apply skips_ws]. }
  assert (∀ c, c ∈ [44; 58] → skips 1 [c]) as Hc.
  { intros c Hc. apply skips_char; [|done]. assert (c = 44 ∨ c = 58) as [->| ->] by set_solver; set_solver. }
  assert (∀ s, skips 0 s → skips 1 s) as Hw1 by (intros ? ?; eapply skips_weaken; [|done]; lia).
  assert (∀ w1 k key w2 w3 v w4, json_ws w1 → string_chars k key → json_ws w2 → json_ws w3 →
    skips 0 v → json_ws w4 → skips 1 (w1 ++ quoted k ++ w2 ++ 58 :: w3 ++ v ++ w4)) as Hm.
  { intros w1 k key w2 w3 v w4 H1 Hk H2 H3 Hv H4.
    apply skips_app; [auto|]. apply skips_app; [eapply Hw1, skips_quoted, Hk|].
    apply skips_app; [auto|]. apply (skips_app 1 [58]); [apply Hc; set_solver|].
    repeat apply skips_app; auto. }
  induction 1; cbn in *.
  - by eapply skips_quoted.
  - apply skips_chars. apply Forall_forall. intros c Hin Hbad.
    assert (atom_char c = true) as Ha.
    { eapply forallb_forall; [done|]. by apply list_elem_of_In. }
    rewrite !elem_of_cons, elem_of_nil in Hbad. by destruct Hbad as [->|[->|[->|[->|[->|[->|[]]]]]]].
  - apply skips_bracket; [set_solver|auto].
  - apply skips_bracket; [set_solver|auto].
  - apply skips_bracket; [set_solver|auto].
  - apply skips_bracket; [set_solver|auto].
  - repeat apply skips_app; auto.
  - apply skips_app; [repeat apply skips_app; auto|].
    apply (skips_app 1 [44]); [apply Hc; set_solver|done].
  - by eapply Hm.
  - apply skips_app; [by eapply Hm|]. apply (skips_app 1 [44]); [apply Hc; set_solver|done].
Qed.

(** A value does not start with white space. *)
Lemma json_value_head v c : json_text Value v → head v = Some c → is_whitespace c = false.
Proof.
  intros H. inversion H; subst; cbn; try (intros [= <-]; done).
  destruct v as [|d v]; [done|]. cbn in *. intros [= <-].
  assert (atom_char d = true) as Ha by (destruct (atom_char d); [done|discriminate]).
  unfold atom_char in Ha. apply orb_true_iff in Ha as [Ha|Ha%bool_decide_eq_true].
  - unfold is_ascii_alnum, is_ascii_digit, is_ascii_upper, is_ascii_lower, is_whitespace in *. lia.
  - rewrite !elem_of_cons, elem_of_nil in Ha. by destruct Ha as [->|[->|[->|[]]]].
Qed.

(** ** Reading an object *)
Section Reading.
Context {SS : SerdeString} {SL : SerdeStringLaws}.

Definition reads (f : JsonStringFields) (s : str) (e : list StringFieldEvent)
    (f' : JsonStringFields) (e' : list StringFieldEvent) : Prop :=
  consume_all f s e = (f', Ok e').

Lemma reads_nil f e : reads f [] e f e.
Proof. done. Qed.
Lemma reads_app f s t e f1 e1 f2 e2 :
  reads f s e f1 e1 → reads f1 t e1 f2 e2 → reads f (s ++ t) e f2 e2.
Proof. unfold reads. intros H1 H2. by rewrite consume_all_app, H1. Qed.
Lemma reads_cons f c s e f1 e1 f2 e2 :
  consume f c e = (f1, Ok e1) → reads f1 s e1 f2 e2 → reads f (c :: s) e f2 e2.
Proof. unfold reads. intros H1 H2. cbn. by rewrite H1. Qed.

(** White space between the tokens. *)
Lemma reads_ws f w e : json_ws w → js_state f ∈ [SObject; SKey; SColon; SValue; SAfterValue; SDone] →
  reads f w e f e.
Proof.
  intros Hw Hf. induction Hw as [|c w Hc _ IH]; [done|]. eapply reads_cons; [|exact IH].
  unfold consume. rewrite !elem_of_cons, elem_of_nil in Hc. rewrite !elem_of_cons, elem_of_nil in Hf.
  destruct Hc as [->|[->|[->|[->|[]]]]]; by destruct Hf as [->|[->|[->|[->|[->|[->|[]]]]]]].
Qed.

(** An escape is read character by character: pending up to the last, then its text. *)
Fixpoint pending (p s : str) : Prop :=
  match s with
  | [] => True
  | c :: s => push_string (MkJsonString p) c = (MkJsonString (p ++ [c]), Ok Pending) ∧ pending (p ++ [c]) s
  end.
Definition spells (e : str) (t : Z) : Prop :=
  ∃ e0 z, e = e0 ++ [z] ∧ pending [] e0 ∧
    push_string (MkJsonString e0) z = (MkJsonString [], Ok (Text [t])).

Lemma hex4_inv h : hex4 h → ∃ a b c d, h = [a; b; c; d] ∧ Forall (λ x, x < 128) h ∧
  forallb is_ascii_hexdigit h = true.
Proof.
  intros [Hl Hh]. destruct h as [|a [|b [|c [|d [|]]]]]; try done. exists a, b, c, d. split; [done|].
  split; [|done]. cbn in Hh. rewrite !andb_true_iff in Hh.
  assert (∀ x, is_ascii_hexdigit x = true → x < 128) as Hx.
  { intros x H. unfold is_ascii_hexdigit, is_ascii_digit in H. lia. }
  destruct Hh as (Ha & Hb & Hc & Hd & _). repeat (constructor; [by apply Hx|]). constructor.
Qed.

Lemma push_string_escape c p x : c :: p ≠ [] → Forall (λ y, y < 128) (c :: p ++ [x]) →
  push_string (MkJsonString (c :: p)) x =
  match escape_complete (c :: p ++ [x]) with
  | None => (MkJsonString (c :: p ++ [x]), Err (protocol "invalid JSON string escape"))
  | Some false => (MkJsonString (c :: p ++ [x]), Ok Pending)
  | Some true =>
      match string_from_str (quoted (c :: p ++ [x])) with
      | Ok decoded => (MkJsonString [], Ok (Text decoded))
      | Err error => (MkJsonString (c :: p ++ [x]),
                      Err (Protocol (lit "invalid JSON string escape: " ++ fe_display error)))
      end
  end.
Proof.
  intros _ H. unfold push_string. cbn [escape app]. rewrite as_bytes_ascii by done. done.
Qed.

Lemma spells_escape e t : escape_text e t → spells e t.
Proof.
  intros He. pose proof (string_from_str_escape e t He) as Hs.
  assert (∀ h, hex4 h → pending [] (92 :: 117 :: take 3 h)) as Hpend.
  { intros h (a & b & c & d & -> & Hlt & _)%hex4_inv.
    rewrite !Forall_cons in Hlt. destruct Hlt as (Ha & Hb & Hc & _).
    cbn [pending app take]. repeat split;
      rewrite push_string_escape; try done; repeat (constructor; [lia|]); constructor. }
  destruct He as [c t Hc|h Hh Hr|h l Hh Hl Hrh Hrl].
  - exists [92], c. split; [done|]. split; [done|].
    rewrite push_string_escape; [|done|].
    + cbn [app]. assert (escape_complete [92; c] = Some true) as ->; [|by rewrite Hs].
      rewrite !elem_of_cons, elem_of_nil in Hc. by naive_solver.
    + constructor; [lia|]. constructor; [|constructor].
      rewrite !elem_of_cons, elem_of_nil in Hc. by naive_solver.
  - specialize (Hpend h Hh). destruct (hex4_inv h Hh) as (a & b & c & d & -> & Hlt & Hx).
    exists [92; 117; a; b; c], d. split; [done|]. split; [exact Hpend|].
    rewrite push_string_escape; [|done|repeat (constructor; [lia|]); exact Hlt].
    cbn [app]. rewrite Hs. unfold escape_complete. rewrite Hx. change (zlen _ =? 6) with true.
    cbn [andb]. rewrite (proj2 (andb_false_iff _ _)); [done|]. lia.
  - specialize (Hpend h Hh). destruct (hex4_inv h Hh) as (a & b & c & d & -> & Hlt & Hx).
    destruct (hex4_inv l Hl) as (a' & b' & c' & d' & -> & Hlt' & Hx').
    pose proof Hlt as Hlt0. pose proof Hlt' as Hlt0'.
    rewrite !Forall_cons in Hlt, Hlt'. destruct Hlt as (La & Lb & Lc & Ld & _).
    destruct Hlt' as (La' & Lb' & Lc' & Ld' & _).
    exists [92; 117; a; b; c; d; 92; 117; a'; b'; c'], d'. split; [done|]. split.
    + cbn [pending app take] in Hpend |- *. destruct Hpend as (P1 & P2 & P3 & P4 & P5 & _).
      repeat (split; [assumption|]). split.
      { rewrite push_string_escape; [|done|repeat (constructor; [lia|]); constructor].
        cbn [app]. unfold escape_complete. rewrite Hx. change (zlen _ =? 6) with true.
        cbn [andb]. by rewrite (proj2 (andb_true_iff _ _)) by lia. }
      repeat split; rewrite push_string_escape; try done; repeat (constructor; [lia|]); constructor.
    + rewrite push_string_escape; [|done|repeat (constructor; [lia|]); constructor].
      cbn [app]. unfold quoted in *. cbn [app] in Hs |- *. rewrite Hs.
      assert (escape_complete [92; 117; a; b; c; d; 92; 117; a'; b'; c'; d'] = Some true) as ->; [|done].
      unfold escape_complete. change (zlen _ =? 6) with false. change (zlen _ <? 6) with false.
      cbn [andb]. cbn [forallb] in *. rewrite !andb_true_iff in Hx, Hx'.
      destruct Hx as (-> & -> & -> & -> & _), Hx' as (-> & -> & -> & -> & _). done.
Qed.

Lemma reads_pending f p s e : js_state f ∈ [SKeyString; SValueString] → escape (js_string f) = p →
  pending p s → reads f s e (set_string f (MkJsonString (p ++ s))) e.
Proof.
  revert f p. induction s as [|c s IH]; intros f p Hf <- Hp.
  { rewrite app_nil_r. by destruct f as [? ? []]. }
  destruct Hp as [E Hp]. replace (escape (js_string f) ++ c :: s) with ((escape (js_string f) ++ [c]) ++ s)
    by by rewrite <- (assoc_L (++)).
  apply reads_cons with (set_string f (MkJsonString (escape (js_string f) ++ [c]))) e.
  - unfold consume. assert (js_string f = MkJsonString (escape (js_string f))) as Ej by by destruct (js_string f).
    rewrite Ej, E. rewrite !elem_of_cons, elem_of_nil in Hf. by destruct Hf as [->|[->|[]]].
  - apply (IH (set_string f _)); [done|done|exact Hp].
Qed.

(** The contents of a name, and of a string value. *)
Definition add_text (events : list StringFieldEvent) (name text : str) : list StringFieldEvent :=
  match text with [] => events | _ => push_delta events name text end.
Lemma add_text_app events name s t :
  add_text (add_text events name s) name t = add_text events name (s ++ t).
Proof.
  destruct s as [|c s]; [done|]. destruct t as [|d t]; [by rewrite app_nil_r|].
  unfold add_text. cbn [app]. by rewrite push_delta_delta.
Qed.

Definition key_state (key : str) (v : SkippedValue) : JsonStringFields :=
  MkFields SKeyString key (MkJsonString []) v.
Definition value_state (key : str) (v : SkippedValue) : JsonStringFields :=
  MkFields SValueString key (MkJsonString []) v.

Lemma reads_key_chars raw s key v e : string_chars raw s →
  reads (key_state key v) raw e (key_state (key ++ s) v) e.
Proof.
  intros H. revert key. induction H as [|c raw s H0 H1 H2 _ IH|esc t raw s He _ IH]; intros key.
  - rewrite app_nil_r. done.
  - rewrite (cons_middle c key s). rewrite (assoc_L (++)). eapply reads_cons; [|apply IH].
    unfold consume, key_state. cbn [js_state js_string]. unfold push_string. cbn [escape].
    rewrite !(proj2 (Z.eqb_neq c _)) by done. by rewrite (proj2 (Z.ltb_ge c 32)) by done.
  - rewrite (cons_middle t key s), (assoc_L (++)). apply reads_app with (key_state (key ++ [t]) v) e; [|apply IH].
    destruct (spells_escape esc t He) as (e0 & z & -> & Hp & Hz).
    eapply reads_app; [by apply (reads_pending _ []); [set_solver|..]|].
    eapply reads_cons; [|apply reads_nil]. unfold consume. cbn. by rewrite Hz.
Qed.
Lemma reads_value_chars raw s key v e : string_chars raw s →
  reads (value_state key v) raw e (value_state key v) (add_text e key s).
Proof.
  intros H. revert e. induction H as [|c raw s H0 H1 H2 _ IH|esc t raw s He _ IH]; intros e.
  - done.
  - change (c :: s) with ([c] ++ s). rewrite <- add_text_app. eapply reads_cons; [|apply IH].
    unfold consume, value_state. cbn [js_state js_string]. unfold push_string. cbn [escape].
    rewrite !(proj2 (Z.eqb_neq c _)) by done. by rewrite (proj2 (Z.ltb_ge c 32)) by done.
  - change (t :: s) with ([t] ++ s). rewrite <- add_text_app.
    apply reads_app with (value_state key v) (add_text e key [t]); [|apply IH].
    destruct (spells_escape esc t He) as (e0 & z & -> & Hp & Hz).
    eapply reads_app; [by apply (reads_pending _ []); [set_solver|..]|].
    eapply reads_cons; [|apply reads_nil]. unfold consume. cbn. by rewrite Hz.
Qed.

(** A value that is skipped, with what follows it up to the next terminator. *)
Lemma reads_quiet key j v s e : quiet v s →
  reads (MkFields SSkipValue key j v) s e (MkFields SSkipValue key j (foldl observe v s)) e.
Proof.
  revert v. induction s as [|c s IH]; intros v Hq; [done|]. destruct Hq as [Hc Hq].
  eapply reads_cons; [|apply IH, Hq]. unfold consume. cbn [js_state js_skipped]. unfold push_skipped.
  destruct (in_string v) eqn:E1; [done|]. destruct (depth v =? 0) eqn:E2; [|done].
  destruct Hc as [H1 H2]; [done|lia|]. cbn [negb andb]. by rewrite !(proj2 (Z.eqb_neq c _)).
Qed.

(** The events of a member. *)
Definition field_events (field : str * option str) : list StringFieldEvent :=
  match field.2 with
  | Some s => (match s with [] => [] | _ => [Delta field.1 s] end) ++ [End field.1]
  | None => []
  end.

(** Where a member may start: nothing that is read joins the events before it. *)
Definition settled (e : list StringFieldEvent) : Prop := e = [] ∨ ∃ l n, e = l ++ [End n].
Lemma settled_add e n s : settled e → add_text e n s = e ++ match s with [] => [] | _ => [Delta n s] end.
Proof.
  intros [->|(l & m & ->)]; destruct s; cbn; try done; [by rewrite app_nil_r|]. apply push_delta_end.
Qed.
Lemma settled_field e field : settled e → settled (e ++ field_events field).
Proof.
  intros He. destruct field as [n [s|]]; cbn; [|by rewrite app_nil_r].
  right. eexists _, n. by rewrite (assoc_L (++)).
Qed.

(** A member, up to the character that ends it: [terminal] is where that one leads. *)
Definition terminal (c : Z) : State := if c =? 44 then SKey else SDone.

Lemma reads_value v o key j k e c w : field_value v o → settled e → json_ws w → c ∈ [44; 125] →
  zlen v + zlen w < 2 ^ 64 →
  ∃ f', reads (MkFields SValue key j k) (v ++ w ++ [c]) e f' (e ++ field_events (key, o)) ∧
        js_state f' = terminal c.
Proof.
  intros Hv He Hw Hc Hl. assert (c = 44 ∨ c = 125) as Hc' by set_solver. clear Hc.
  destruct Hv as [raw s Hs|v Hv Hq].
  - exists (MkFields (terminal c) key (MkJsonString []) k). split; [|done].
    unfold quoted. cbn [app]. eapply reads_cons; [done|].
    rewrite <- (assoc_L (++)). eapply reads_app; [by apply (reads_value_chars raw s)|].
    cbn [app]. eapply reads_cons; [done|].
    eapply reads_app; [apply reads_ws; [done|]; cbn; set_solver|].
    unfold field_events; cbn [fst snd]. rewrite settled_add, <- (assoc_L (++)) by done.
    eapply reads_cons; [|apply reads_nil]. by destruct Hc' as [->| ->].
  - destruct (skips_json _ _ Hv 0) as [E Q]; [lia| |]; cbn [Z.add].
    { pose proof (zlen_nonneg w). lia. }
    destruct (skips_ws w Hw 0) as [Ew Qw]; [lia| |]; cbn [Z.add].
    { pose proof (zlen_nonneg v). lia. }
    destruct v as [|z v]; [by inversion Hv|]. cbn in Hq.
    assert (z ≠ 34) as Hz by congruence.
    assert (is_whitespace z = false) as Hzw by by apply (json_value_head (z :: v)).
    exists (MkFields (terminal c) key j (outside 0)). split; [|done].
    cbn [app]. eapply reads_cons.
      { unfold consume. cbn [js_state]. rewrite (proj2 (Z.eqb_neq z 34)), Hzw by done. reflexivity. }
      destruct Q as [_ Q]. cbn [foldl] in E. cbn [js_key js_string].
      change (start_skipped z) with (observe (outside 0) z).
      eapply reads_app; [apply reads_quiet, Q|]. rewrite E.
      eapply reads_app; [apply reads_quiet, Qw|]. rewrite Ew.
      unfold field_events. cbn [fst snd]. rewrite app_nil_r.
      eapply reads_cons; [|apply reads_nil]. by destruct Hc' as [->| ->].
Qed.

Lemma reads_member f w1 k key w2 w3 v o w4 e c : js_state f = SKey → settled e →
  json_ws w1 → string_chars k key → json_ws w2 → json_ws w3 → field_value v o → json_ws w4 →
  c ∈ [44; 125] → zlen (w1 ++ quoted k ++ w2 ++ 58 :: w3 ++ v ++ w4) < 2 ^ 64 →
  ∃ f', reads f ((w1 ++ quoted k ++ w2 ++ 58 :: w3 ++ v ++ w4) ++ [c]) e f'
          (e ++ field_events (key, o)) ∧ js_state f' = terminal c.
Proof.
  intros Hf He H1 Hk H2 H3 Hv H4 Hc Hl.
  destruct (reads_value v o key (MkJsonString []) (js_skipped f) e c w4) as (f' & Hr & Hf'); try done.
  { rewrite !zlen_app, zlen_cons, !zlen_app in Hl. pose proof (zlen_nonneg w1).
    pose proof (zlen_nonneg (quoted k)). pose proof (zlen_nonneg w2). pose proof (zlen_nonneg w3). lia. }
  exists f'. split; [|done]. rewrite <- !(assoc_L (++)). cbn [app]. rewrite <- !(assoc_L (++)).
  eapply reads_app; [apply reads_ws; [done|rewrite Hf; set_solver]|].
  unfold quoted. cbn [app]. rewrite <- !(assoc_L (++)). eapply reads_cons.
  { unfold consume. rewrite Hf. reflexivity. }
  eapply reads_app; [apply (reads_key_chars k key [] (js_skipped f) e Hk)|]. cbn [app].
  eapply reads_cons; [reflexivity|].
  eapply reads_app; [apply reads_ws; [done|cbn; set_solver]|].
  eapply reads_cons; [reflexivity|].
  eapply reads_app; [apply reads_ws; [done|cbn; set_solver]|]. exact Hr.
Qed.

Lemma reads_fields f s fields e : js_state f = SKey → settled e → fields_text s fields →
  zlen s < 2 ^ 64 →
  ∃ f', reads f (s ++ [125]) e f' (e ++ concat (field_events <$> fields)) ∧ js_state f' = SDone.
Proof.
  intros Hf He Hs Hl. revert f e Hf He.
  induction Hs as [w1 k key w2 w3 v o w4 H1 Hk H2 H3 Hv H4
                  |w1 k key w2 w3 v o w4 rest fields H1 Hk H2 H3 Hv H4 _ IH]; intros f e Hf He.
  - destruct (reads_member f w1 k key w2 w3 v o w4 e 125) as (f' & Hr & Hf'); try done; [set_solver|].
    exists f'. cbn [fmap list_fmap concat]. by rewrite app_nil_r.
  - rewrite zlen_app, zlen_cons in Hl. pose proof (zlen_nonneg rest).
    destruct (reads_member f w1 k key w2 w3 v o w4 e 44) as (f1 & Hr & Hf1); try done;
      [set_solver|lia|].
    destruct (IH ltac:(pose proof (zlen_nonneg (w1 ++ quoted k ++ w2 ++ 58 :: w3 ++ v ++ w4)); lia)
                f1 (e ++ field_events (key, o)) Hf1 (settled_field _ _ He)) as (f2 & Hr2 & Hf2).
    exists f2. split; [|done]. cbn [fmap list_fmap concat].
    rewrite (assoc_L (++) e). rewrite (cons_middle 44 _ rest), (assoc_L (++)), <- (assoc_L (++) _ rest).
    by eapply reads_app.
Qed.

Lemma push_object_reads s fields : object_text s fields → zlen s < 2 ^ 64 →
  ∃ f', push new_fields s = (f', Ok (concat (field_events <$> fields))) ∧ js_state f' = SDone.
Proof.
  intros Hs Hl.
  destruct Hs as [w1 w2 w3 H1 H2 H3|w1 body fields w2 H1 Hb H2].
  - exists (set_state new_fields SDone). split; [|done].
    eapply reads_app; [apply reads_ws; [done|cbn; set_solver]|]. eapply reads_cons; [reflexivity|].
    eapply reads_app; [apply reads_ws; [done|cbn; set_solver]|]. eapply reads_cons; [reflexivity|].
    apply reads_ws; [done|cbn; set_solver].
  - destruct (reads_fields (set_state new_fields SKey) body fields []) as (f' & Hr & Hf);
      [done|by left|done| |].
    { rewrite zlen_app, zlen_cons, zlen_app, zlen_cons in Hl. pose proof (zlen_nonneg w1).
      pose proof (zlen_nonneg w2). lia. }
    exists f'. split; [|done].
    eapply reads_app; [apply reads_ws; [done|cbn; set_solver]|]. eapply reads_cons; [reflexivity|].
    rewrite (cons_middle 125 body w2), (assoc_L (++)). eapply reads_app; [exact Hr|].
    apply reads_ws; [done|rewrite Hf; set_solver].
Qed.

(** C39: Every JSON object of fewer than [2 ^ 64] characters whose strings denote texts (an escape of a lone
    surrogate, which serde_json refuses as well, denotes none) is read to its end, and what is
    reported of it are exactly its members whose value is a string, in their order: the
    decoded name with the decoded value in one delta, unless it is empty, and the end of
    the field.  Members with other values, however nested, leave no event. *)
Theorem push_object s fields : object_text s fields → zlen s < 2 ^ 64 →
  js_state (push new_fields s).1 = SDone ∧
  (push new_fields s).2 = Ok (concat (field_events <$> fields)).
Proof. intros Hs Hl. by destruct (push_object_reads s fields Hs Hl) as (f' & -> & Hf). Qed.
End Reading.

(** ** Samples *)
Module JsonStreamSamples.
(** A decoder of one escape. *)
Definition decode_escape (s : str) : result foreign_error str :=
  match take (length s - 2) (drop 1 s) with
  | [92; c] =>
      match list_find (λ p, fst p = c)
              [(34, 34); (92, 92); (47, 47); (98, 8); (102, 12); (110, 10); (114, 13); (116, 9)] with
      | Some (_, (_, t)) => Ok [t]
      | None => Err (ForeignError (lit "invalid escape") [])
      end
  | [92; 117; a; b; c; d] =>
      let code := hex16 [a; b; c; d] in
      if (0xDC00 <=? code) && (code <=? 0xDFFF) then Err (ForeignError (lit "lone surrogate") []) else Ok [code]
  | [92; 117; a; b; c; d; 92; 117; e; f; g; h] =>
      Ok [0x10000 + (hex16 [a; b; c; d] - 0xD800) * 1024 + (hex16 [e; f; g; h] - 0xDC00)]
  | _ => Err (ForeignError (lit "invalid string") [])
  end.
Definition decoder : SerdeString := {| string_from_str := decode_escape |}.
Lemma decoder_laws : @SerdeStringLaws decoder.
Proof.
  split. intros e t He. cbn. destruct He as [c t Hc|h Hh Hr|h l Hh Hl Hrh Hrl].
  - rewrite !elem_of_cons, elem_of_nil in Hc. by naive_solver.
  - destruct (hex4_inv h Hh) as (a & b & c & d & -> & _). cbn [quoted app].
    unfold quoted, decode_escape. cbn [app length drop take Nat.sub]. case_match eqn:E; [lia|done].
  - destruct (hex4_inv h Hh) as (a & b & c & d & -> & _).
    destruct (hex4_inv l Hl) as (a' & b' & c' & d' & -> & _). done.
Qed.

(** The arguments of a call, with an escape, and a member that is skipped. *)
Definition arguments : str := qlit "{'path': 'a\n', 'n':1}".
Lemma arguments_text : object_text arguments [(lit "path", Some [97; 10]); (lit "n", None)].
Proof.
  assert (∀ s, forallb (λ c, is_ascii_lower c) s = true → string_chars s s) as Hs.
  { induction s as [|c s IH]; intros H; [constructor|]. cbn in H. apply andb_true_iff in H as [H ?].
    unfold is_ascii_lower in H. constructor; [lia..|by apply IH]. }
  assert (json_ws [] ∧ json_ws [32]) as [Hn Hb] by (split; repeat constructor; set_solver).
  apply (object_fields [] (qlit "'path': 'a\n', 'n':1") _ []); [done| |done].
  apply (fields_more [] (lit "path") (lit "path") [] [32] (qlit "'a\n'") (Some [97; 10]) []
           (qlit " 'n':1")); try done; [by apply Hs| |].
  - apply (field_string (lit "a\n")). apply (chars_plain 97); [done..|].
    apply (chars_escape [92; 110] 10 [] []); [|constructor]. constructor. set_solver.
  - apply (fields_one [32] (lit "n") (lit "n") [] [] (lit "1") None []); try done; [by apply Hs|].
    constructor; [|done]. by constructor.
Qed.
End JsonStreamSamples.

Lemma push_object_witness :
  object_text JsonStreamSamples.arguments [(lit "path", Some [97; 10]); (lit "n", None)] ∧
  (@push JsonStreamSamples.decoder new_fields JsonStreamSamples.arguments).2 =
    Ok [Delta (lit "path") [97; 10]; End (lit "path")].
Proof.
  split; [exact JsonStreamSamples.arguments_text|].
  apply (@push_object JsonStreamSamples.decoder JsonStreamSamples.decoder_laws _ _
           JsonStreamSamples.arguments_text). vm_compute. reflexivity.
Defined.
