(* ===== verification/Interaction.v ===== *)
(** * Interaction: the messages a client shows, and the cards of tool calls

    server/src/cursor/protocol/events.rs, server/src/cursor/tools/codec/render.rs,
    the rendering part of server/src/cursor/tools/codec/mod.rs,
    server/src/cursor/tools/compat.rs and [todo_items] of
    server/src/cursor/tools/tool_call_result/local.rs.

    The wire types are generated from protocols/cursor/agent_v1.proto; a type here has
    the fields this code sets, the ones left to [Default::default()] are left out.
    The clock is the argument [now]. *)

From stdpp Require Import prelude gmap strings list.
From S2P Require Import Prelude Errors External Float Message Budget ModelCycle.
Local Open Scope Z_scope.

(** [prost_types::Value]: a number keeps the text of the JSON number, whose [as_f64] the
    wire carries. *)
Inductive ProstValue : Type :=
  | NullValue
  | BoolValue (b : bool)
  | NumberValue (text : str)
  | StringValue (s : str)
  | ListValue (values : list ProstValue)
  | StructValue (fields : list (str * ProstValue)).

(** server/src/cursor/tools/codec/request.rs:520-535, [prost_value]. *)
Fixpoint prost_value (v : json) : ProstValue :=
  match v with
  | JNull => NullValue
  | JBool b => BoolValue b
  | JNumber text => NumberValue text
  | JString s => StringValue s
  | JArray items => ListValue (map prost_value items)
  | JObject members => StructValue (map (λ m, (fst m, prost_value (snd m))) members)
  end.

(** server/src/cursor/tools/codec/request.rs:511-518, [json_object_to_prost]. *)
Definition json_object_to_prost (members : list (str * json)) : list (str * ProstValue) :=
  map (λ m, (fst m, prost_value (snd m))) members.

(** [Type] of [pb::SubagentType]. *)
Inductive SubagentType : Type :=
  | TUnspecified | TExplore | TBrowserUse | TShell | TBash | TDebug | TCursorGuide | TComputerUse
  | TCustom (name : str).

Record TodoItem : Type := MkTodo {
  todo_id : str; todo_content : str; todo_status : Z; todo_dependencies : list str
}.

(** The arguments of the tools. *)
Record ShellArgs : Type := MkShellArgs {
  sh_command : str; sh_working_directory : str; sh_description : option str; sh_tool_call_id : str
}.
Record GrepArgs : Type := MkGrepArgs {
  gr_pattern : str; gr_path : option str; gr_glob : option str; gr_output_mode : option str;
  gr_tool_call_id : str
}.
Record ReadToolArgs : Type := MkReadArgs {
  rd_path : str; rd_offset : option Z; rd_limit : option Z; rd_include_line_numbers : option bool
}.
Record EditArgs : Type := MkEditArgs { ed_path : str; stream_content : option str }.
Record McpArgs : Type := MkMcpArgs {
  mcp_name : str; mcp_args : list (str * ProstValue); mcp_tool_call_id : str;
  mcp_provider_identifier : str; mcp_tool_name : str; mcp_server_identifier : str
}.
Record CreatePlanArgs : Type := MkPlanArgs {
  pl_plan : str; pl_todos : list TodoItem; pl_overview : str; pl_name : str; pl_is_project : bool
}.
Record TaskArgs : Type := MkTaskArgs {
  tk_description : str; tk_prompt : str; tk_subagent_type : option SubagentType;
  tk_model : option str; tk_resume : option str; tk_attachments : list str; tk_environment : Z
}.
Record FetchResourceArgs : Type := MkFetchResourceArgs {
  fr_server : str; fr_uri : str; fr_download_path : option str; fr_tool_call_id : str
}.
Record SwitchModeArgs : Type := MkSwitchModeArgs {
  sm_target_mode_id : str; sm_explanation : option str; sm_tool_call_id : str
}.
Record GenerateImageArgs : Type := MkImageArgs {
  gi_description : str; gi_file_path : option str; gi_reference_image_paths : list str;
  gi_aspect_ratio : option str
}.
Record CommunicateUpdateArgs : Type := MkUpdateArgs {
  cu_current_step : option str; cu_final_summary : option str; cu_completed_subtitle : option str
}.
Record GetMcpToolsArgs : Type := MkGetMcpArgs {
  gm_server : option str; gm_tool_name : option str; gm_pattern : option str; gm_tool_call_id : str
}.

(** [Tool] of [pb::ToolCall]. *)
Inductive Tool : Type :=
  | ShellToolCall (args : option ShellArgs) (description : option str)
  | DeleteToolCall (args : option (str * str))
  | GlobToolCall (args : option (option str * str))
  | GrepToolCall (args : option GrepArgs)
  | ReadToolCall (args : option ReadToolArgs)
  | UpdateTodosToolCall (args : option (list TodoItem * bool))
  | EditToolCall (args : option EditArgs)
  | ReadLintsToolCall (args : option (list str))
  | McpToolCall (args : option McpArgs) (error : option str) (description : option str)
  | CreatePlanToolCall (args : option CreatePlanArgs)
  | WebSearchToolCall (args : option (str * str))
  | TaskToolCall (args : option TaskArgs)
  | ReadMcpResourceToolCall (args : option FetchResourceArgs)
  | AskQuestionToolCall
  | WebFetchToolCall (args : option (str * str))
  | SwitchModeToolCall (args : option SwitchModeArgs)
  | GenerateImageToolCall (args : option GenerateImageArgs)
  | CommunicateUpdateToolCall (args : option CommunicateUpdateArgs)
  | GetMcpToolsToolCall (args : option GetMcpToolsArgs)
  | McpAuthToolCall (server_identifier tool_call_id : str).

(** [pb::ToolCall]. *)
Record PbToolCall : Type := MkPbToolCall {
  tool_call_id : option str;
  started_at_ms : option Z;
  completed_at_ms : option Z;
  tool : option Tool
}.

Inductive InjectionState : Type :=
  | InjectionQueued
  | InjectionRejected (reason : str)
  | InjectionDelivered (step : Z) (delivery_batch_id : str) (delivered_at_ms : Z).

(** [Message] of [pb::InteractionUpdate]. *)
Inductive Update : Type :=
  | UTextDelta (text : str) (is_server_notice : bool)
  | UThinkingDelta (text : str)
  | UThinkingCompleted (thinking_duration_ms : Z)
  | UPartialToolCall (id : str) (tool_call : option PbToolCall) (args_text_delta model_call : str)
  | UToolCallDelta (id : str) (stream_content_delta model_call : str)
  | UToolCallStarted (id : str) (tool_call : option PbToolCall) (model_call : str)
  | UToolCallCompleted (id : str) (tool_call : option PbToolCall) (model_call : str)
  | UHeartbeat
  | UTurnEnded (input output cache_read cache_write reasoning : option Z)
  | UTokenDelta (tokens : Z)
  | USummaryStarted
  | USummary (summary : str)
  | USummaryCompleted
  | UContextInjectionState (injection_id : str) (state : InjectionState).

(** [pb::AgentServerMessage]: the interaction updates. *)
Inductive AgentServerMessage : Type := InteractionUpdate (update : Update).

(** server/src/cursor/protocol/events.rs:165-174, [server_interaction]. *)
Definition server_interaction (u : Update) : AgentServerMessage := InteractionUpdate u.

(** The definition of a tool of a client-side MCP server. *)
Record McpToolDefinition : Type := MkMcpDefinition {
  md_name : str; md_provider_identifier : str; md_tool_name : str; md_description : str
}.

(** server/src/cursor/tools/codec/render.rs:555-561, [normalized]. *)
Definition normalized (value : str) : str := to_ascii_lower <$> List.filter is_ascii_alnum value.

(** A match on the normalized name. *)
Definition is_name (name : str) (names : list string) : bool :=
  existsb (λ n, bool_decide (name = lit n)) names.
#[global] Arguments is_name : simpl never.

(** server/src/cursor/tools/codec/render.rs:563-569, [semble_tool_name]. *)
Definition semble_tool_name (name : str) : option str :=
  let n := normalized name in
  if is_name n ["semblesearch"] then Some (lit "search")
  else if is_name n ["semblefindrelated"] then Some (lit "find_related")
  else None.

(** server/src/cursor/tools/codec/render.rs:529-545, [subagent_type]. *)
Definition subagent_type (name : str) : SubagentType :=
  let n := to_ascii_lower <$> name in
  if is_name n [EmptyString; "generalpurpose"] then TUnspecified
  else if is_name n ["explore"] then TExplore
  else if is_name n ["browser-use"; "browseruse"] then TBrowserUse
  else if is_name n ["shell"] then TShell
  else if is_name n ["bash"] then TBash
  else if is_name n ["debug"] then TDebug
  else if is_name n ["cursor-guide"; "cursorguide"] then TCursorGuide
  else if is_name n ["computer-use"; "computeruse"] then TComputerUse
  else TCustom name.

(** server/src/cursor/tools/codec/render.rs:547-553, [execution_environment]. *)
Definition execution_environment (value : option str) : Z :=
  match value with
  | None => 1
  | Some v => if is_name v ["cloud"] then 2 else if is_name v ["local"] then 1 else 0
  end.

(** ** Cards *)

(** server/src/cursor/tools/codec/render.rs:210-245, [tool_placeholder]. *)
Definition builtin_tool_placeholder (nm id : str) : res PbToolCall :=
  let n := normalized nm in
  let card t := Ok (MkPbToolCall (Some id) None None (Some t)) in
  if is_name n ["shell"; "bash"] then card (ShellToolCall None None)
  else if is_name n ["delete"] then card (DeleteToolCall None)
  else if is_name n ["glob"] then card (GlobToolCall None)
  else if is_name n ["grep"] then card (GrepToolCall None)
  else if is_name n ["read"] then card (ReadToolCall None)
  else if is_name n ["todowrite"] then card (UpdateTodosToolCall None)
  else if is_name n ["strreplace"; "editnotebook"; "write"] then card (EditToolCall None)
  else if is_name n ["readlints"] then card (ReadLintsToolCall None)
  else if is_name n ["callmcptool"; "semblesearch"; "semblefindrelated"] then card (McpToolCall None None None)
  else if is_name n ["createplan"] then card (CreatePlanToolCall None)
  else if is_name n ["websearch"] then card (WebSearchToolCall None)
  else if is_name n ["task"] then card (TaskToolCall None)
  else if is_name n ["fetchmcpresource"] then card (ReadMcpResourceToolCall None)
  else if is_name n ["askquestion"] then card AskQuestionToolCall
  else if is_name n ["webfetch"] then card (WebFetchToolCall None)
  else if is_name n ["switchmode"] then card (SwitchModeToolCall None)
  else if is_name n ["generateimage"] then card (GenerateImageToolCall None)
  else if is_name n ["updatecurrentstep"] then card (CommunicateUpdateToolCall None)
  else if is_name n ["getmcptools"] then card (GetMcpToolsToolCall None)
  else Err (Protocol (lit "unsupported tool: " ++ nm)).

(** The arguments of a call by name: a string, or the first string of several names. *)
Definition optional (c : ToolCall) (field : string) : option str :=
  v ← get_member field (arguments c); as_str v.
Definition string_arg (c : ToolCall) (field : string) : str := default [] (optional c field).
Fixpoint optional_aliased (c : ToolCall) (fields : list string) : option str :=
  match fields with
  | [] => None
  | field :: fields =>
      match optional c field with Some v => Some v | None => optional_aliased c fields end
  end.
Definition aliased (c : ToolCall) (fields : list string) : str := default [] (optional_aliased c fields).
Definition string_array (c : ToolCall) (field : string) : list str :=
  omap as_str (default [] (v ← get_member field (arguments c); as_array v)).
Definition bool_arg (c : ToolCall) (field : string) : option bool :=
  v ← get_member field (arguments c); as_bool v.

(** [value as i32] of an [i64]. *)
Definition as_i32 (z : Z) : Z := (z + 2 ^ 31) `mod` 2 ^ 32 - 2 ^ 31.

(** server/src/cursor/tools/edit.rs:167-170, [normalize_newlines]: the text after
    [replace("\r\n", "\n")] and [replace('\r', "\n")]. *)
Fixpoint replace_crlf (s : str) : str :=
  match s with
  | 13 :: ((10 :: s) as rest) => 10 :: replace_crlf s
  | c :: s => c :: replace_crlf s
  | [] => []
  end.
Definition replace_cr (s : str) : str := (λ c, if c =? 13 then 10 else c) <$> s.
Definition normalize_newlines (value : str) : str := replace_cr (replace_crlf value).

(** server/src/cursor/tools/tool_call_result/local.rs:132-163, [todo_items]. *)
Definition todo_items (args : json) : list TodoItem :=
  let text (v : json) (field : string) : str := default [] (x ← get_member field v; as_str x) in
  (λ todo,
     let st := default (lit "pending") (v ← get_member "status" todo; as_str v) in
     MkTodo (text todo "id") (text todo "content")
       (if is_name st ["in_progress"] then 2 else if is_name st ["completed"] then 3
        else if is_name st ["cancelled"] then 4 else 1)
       (omap as_str (default [] (v ← get_member "dependencies" todo; as_array v))))
  <$> default [] (v ← get_member "todos" args; as_array v).

(** server/src/cursor/tools/codec/render.rs:520-527, [is_mcp_auth]. *)
Definition is_mcp_auth (c : ToolCall) : bool :=
  is_name (normalized (name c)) ["callmcptool"]
  && match optional c "toolName" with
     | Some t => is_name (normalized t) ["mcpauth"]
     | None => false
     end.

Section Render.
Context {SN : SerdeNumber}.

(** server/src/cursor/tools/codec/render.rs:308-515, [render_tool_call]: the arguments of a
    card. *)
Definition fill_arguments (c : ToolCall) (t : Tool) : Tool :=
  match t with
  | ShellToolCall _ _ =>
      ShellToolCall
        (Some (MkShellArgs (string_arg c "command") (default [] (optional c "working_directory"))
                 (optional c "description") (call_id c)))
        (optional c "description")
  | DeleteToolCall _ => DeleteToolCall (Some (aliased c ["path"; "file_path"; "filePath"], call_id c))
  | GlobToolCall _ => GlobToolCall (Some (optional c "target_directory", string_arg c "glob_pattern"))
  | GrepToolCall _ =>
      GrepToolCall (Some (MkGrepArgs (string_arg c "pattern") (optional c "path") (optional c "glob")
                            (optional c "output_mode") (call_id c)))
  | ReadToolCall _ =>
      ReadToolCall (Some (MkReadArgs (aliased c ["path"; "file_path"; "filePath"])
        (as_i32 <$> (v ← get_member "offset" (arguments c); as_i64 v))
        (as_i32 <$> (v ← get_member "limit" (arguments c); as_i64 v))
        (bool_arg c "include_line_numbers")))
  | UpdateTodosToolCall _ =>
      UpdateTodosToolCall (Some (todo_items (arguments c), default false (bool_arg c "merge")))
  | EditToolCall _ =>
      let content :=
        if is_name (normalized (name c)) ["write"] then default [] (optional_aliased c ["contents"; "content"])
        else default [] (optional c "new_string") in
      EditToolCall (Some (MkEditArgs
        (if is_name (normalized (name c)) ["editnotebook"] then string_arg c "target_notebook"
         else aliased c ["path"; "file_path"; "filePath"])
        (Some (normalize_newlines content))))
  | ReadLintsToolCall _ => ReadLintsToolCall (Some (string_array c "paths"))
  | McpToolCall _ error _ =>
      match semble_tool_name (name c) with
      | Some tool_name =>
          let members := List.filter (λ m, negb (bool_decide (fst m = lit "description")))
                           (default [] (as_object (arguments c))) in
          McpToolCall
            (Some (MkMcpArgs tool_name (json_object_to_prost members) (call_id c)
                     (lit "builtin-semble") tool_name (lit "builtin-semble")))
            error (optional c "description")
      | None =>
          McpToolCall
            (Some (MkMcpArgs (string_arg c "toolName")
                     (default [] (json_object_to_prost <$>
                        (v ← get_member "arguments" (arguments c); as_object v)))
                     (call_id c) [] (string_arg c "toolName") (string_arg c "server")))
            error (optional c "description")
      end
  | CreatePlanToolCall _ =>
      CreatePlanToolCall (Some (MkPlanArgs (string_arg c "plan") (todo_items (arguments c))
                                  (string_arg c "overview") (string_arg c "name") false))
  | WebSearchToolCall _ => WebSearchToolCall (Some (aliased c ["search_term"; "query"], call_id c))
  | TaskToolCall _ =>
      TaskToolCall (Some (MkTaskArgs (string_arg c "description") (string_arg c "prompt")
        (Some (subagent_type (string_arg c "subagent_type"))) (optional c "model") (optional c "resume")
        (string_array c "file_attachments") (execution_environment (optional c "environment"))))
  | ReadMcpResourceToolCall _ =>
      ReadMcpResourceToolCall (Some (MkFetchResourceArgs (string_arg c "server") (string_arg c "uri")
                                       (optional c "downloadPath") (call_id c)))
  | WebFetchToolCall _ => WebFetchToolCall (Some (string_arg c "url", call_id c))
  | SwitchModeToolCall _ =>
      SwitchModeToolCall (Some (MkSwitchModeArgs (string_arg c "target_mode_id")
                                  (optional c "explanation") (call_id c)))
  | GenerateImageToolCall _ =>
      GenerateImageToolCall (Some (MkImageArgs (string_arg c "description") (optional c "filename")
                                     (string_array c "reference_image_paths") (optional c "aspect_ratio")))
  | CommunicateUpdateToolCall _ =>
      CommunicateUpdateToolCall (Some (MkUpdateArgs (optional c "current_step")
                                         (optional c "final_summary") (optional c "completed_subtitle")))
  | GetMcpToolsToolCall _ =>
      GetMcpToolsToolCall (Some (MkGetMcpArgs (optional c "server") (optional c "toolName")
                                   (optional c "pattern") (call_id c)))
  | AskQuestionToolCall | McpAuthToolCall _ _ => t
  end.

(** server/src/cursor/tools/codec/render.rs:247-518, [render_tool_call]. *)
Definition builtin_render_tool_call (now : Z) (c : ToolCall) (completed : bool) : res PbToolCall :=
  let at_end := if completed then Some now else None in
  if is_mcp_auth c then
    match optional c "server" with
    | Some (x :: server) =>
        Ok (MkPbToolCall (Some (call_id c)) (Some now) at_end
              (Some (McpAuthToolCall (x :: server) (call_id c))))
    | _ => Err (protocol "CallMcpTool mcp_auth is missing server")
    end
  else
    output ← builtin_tool_placeholder (name c) (call_id c);
    Ok (MkPbToolCall (tool_call_id output) (Some now) at_end (fill_arguments c <$> tool output)).

(** server/src/cursor/tools/codec/render.rs:169-198, [dynamic_mcp_tool_call]. *)
Definition dynamic_mcp_tool_call (now : Z) (id : str) (args : option json) (d : McpToolDefinition)
    (started completed : bool) : PbToolCall :=
  MkPbToolCall (Some id) (if started then Some now else None) (if completed then Some now else None)
    (Some (McpToolCall
      (Some (MkMcpArgs (md_name d)
               (default [] (json_object_to_prost <$> (v ← args; as_object v)))
               id (md_provider_identifier d) (md_tool_name d) []))
      None (Some (md_description d)))).

(** server/src/cursor/tools/codec/render.rs:151-153, [dynamic_mcp_placeholder]. *)
Definition dynamic_mcp_placeholder (now : Z) (d : McpToolDefinition) (id : str) : PbToolCall :=
  dynamic_mcp_tool_call now id None d false false.

(** server/src/cursor/tools/codec/render.rs:155-167, [render_dynamic_mcp]. *)
Definition render_dynamic_mcp (now : Z) (c : ToolCall) (d : McpToolDefinition) (completed : bool)
    : PbToolCall :=
  dynamic_mcp_tool_call now (call_id c) (Some (arguments c)) d true completed.

(** *** Tools the client does not have *)
Definition COMPAT_PROVIDER : str := lit "cursor-byok-compat".
Definition LEGACY : str := lit "Unavailable legacy or unsupported tool".

(** server/src/cursor/tools/compat.rs:13-32, [placeholder]. *)
Definition compat_placeholder (nm id : str) : PbToolCall :=
  MkPbToolCall (Some id) None None
    (Some (McpToolCall (Some (MkMcpArgs nm [] id COMPAT_PROVIDER nm COMPAT_PROVIDER)) None (Some LEGACY))).

(** server/src/cursor/tools/compat.rs:34-49, [render]. *)
Definition compat_render (now : Z) (c : ToolCall) (completed : bool) : PbToolCall :=
  MkPbToolCall (Some (call_id c)) (Some now) (if completed then Some now else None)
    (Some (McpToolCall
      (Some (MkMcpArgs (name c) (default [] (json_object_to_prost <$> as_object (arguments c)))
               (call_id c) COMPAT_PROVIDER (name c) COMPAT_PROVIDER))
      None (Some LEGACY))).

(** server/src/cursor/tools/codec/mod.rs:65-67, [is_unsupported_tool]. *)
Definition is_unsupported_tool (e : Error) (nm : str) : bool :=
  match e with
  | Protocol message => bool_decide (message = lit "unsupported tool: " ++ nm)
  | _ => false
  end.

(** server/src/cursor/tools/codec/mod.rs:26-34, [tool_placeholder]. *)
Definition tool_placeholder (nm id : str) : res PbToolCall :=
  match builtin_tool_placeholder nm id with
  | Ok t => Ok t
  | Err e => if is_unsupported_tool e nm then Ok (compat_placeholder nm id) else Err e
  end.

(** server/src/cursor/tools/codec/mod.rs:36-44, [render_tool_call]. *)
Definition render_tool_call (now : Z) (c : ToolCall) (completed : bool) : res PbToolCall :=
  match builtin_render_tool_call now c completed with
  | Ok t => Ok t
  | Err e => if is_unsupported_tool e (name c) then Ok (compat_render now c completed) else Err e
  end.

(** server/src/cursor/tools/codec/render.rs:134-149, [tool_started]. *)
Definition builtin_tool_started (now : Z) (c : ToolCall) (dynamic : option McpToolDefinition)
    : res AgentServerMessage :=
  card ← match dynamic with
         | Some d => Ok (render_dynamic_mcp now c d false)
         | None => builtin_render_tool_call now c false
         end;
  Ok (server_interaction (UToolCallStarted (call_id c) (Some card) (model_call_id c))).

(** server/src/cursor/tools/codec/mod.rs:46-63, [tool_started]. *)
Definition tool_started (now : Z) (c : ToolCall) (dynamic : option McpToolDefinition)
    : res AgentServerMessage :=
  match builtin_tool_started now c dynamic with
  | Ok m => Ok m
  | Err e =>
      if bool_decide (dynamic = None) && is_unsupported_tool e (name c) then
        Ok (server_interaction (UToolCallStarted (call_id c) (Some (compat_render now c false))
                                  (model_call_id c)))
      else Err e
  end.

(** server/src/cursor/tools/codec/mod.rs:69-78, [arguments_delta]. *)
Definition arguments_delta (c : ToolCall) (delta : str) : res AgentServerMessage :=
  card ← tool_placeholder (name c) (call_id c);
  Ok (server_interaction (UPartialToolCall (call_id c) (Some card) delta (model_call_id c))).

(** server/src/cursor/tools/codec/mod.rs:80-93, [dynamic_mcp_arguments_delta]. *)
Definition dynamic_mcp_arguments_delta (now : Z) (c : ToolCall) (delta : str) (d : McpToolDefinition)
    : AgentServerMessage :=
  server_interaction (UPartialToolCall (call_id c) (Some (dynamic_mcp_placeholder now d (call_id c)))
                        delta (model_call_id c)).

(** ** Events of a turn *)

(** server/src/cursor/protocol/events.rs:12-52, [response_event]. *)
Definition response_event (now : Z) (event : ModelEvent) (model_call : str)
    (dynamic : gmap str McpToolDefinition) : res (option AgentServerMessage) :=
  match event with
  | MTextDelta text => Ok (Some (server_interaction (UTextDelta text false)))
  | MThinkingDelta text => Ok (Some (server_interaction (UThinkingDelta text)))
  | MToolCallStart _ id nm =>
      card ← match dynamic !! nm with
             | Some d => Ok (dynamic_mcp_placeholder now d id)
             | None => tool_placeholder nm id
             end;
      Ok (Some (server_interaction (UPartialToolCall id (Some card) [] model_call)))
  | _ => Ok None
  end.
End Render.

Definition I32_MAX : Z := 2 ^ 31 - 1.

(** server/src/cursor/protocol/events.rs:54-61, [thinking_completed]: from milliseconds. *)
Definition thinking_completed (elapsed_ms : Z) : AgentServerMessage :=
  server_interaction (UThinkingCompleted (Z.max 1 (Z.min I32_MAX elapsed_ms))).

(** server/src/cursor/protocol/events.rs:63-67, [heartbeat]. *)
Definition heartbeat : AgentServerMessage := server_interaction UHeartbeat.

(** [value as i64] of a [u64]. *)
Definition as_i64_cast (z : Z) : Z := (z + 2 ^ 63) `mod` 2 ^ 64 - 2 ^ 63.

(** server/src/cursor/protocol/events.rs:69-82, [turn_ended]. *)
Definition turn_ended (usage : option Usage) : AgentServerMessage :=
  let field (f : Usage → option Z) := u ← usage; as_i64_cast <$> f u in
  server_interaction (UTurnEnded (field input_tokens) (field output_tokens) (field cache_read_tokens)
    (field cache_write_tokens) (field reasoning_tokens)).

(** server/src/cursor/protocol/events.rs:84-90, [token_delta]. *)
Definition token_delta (tokens : Z) : AgentServerMessage :=
  server_interaction (UTokenDelta (Z.min tokens I32_MAX)).

(** server/src/cursor/protocol/events.rs:92-96, [summary_started]. *)
Definition summary_started : AgentServerMessage := server_interaction USummaryStarted.
(** server/src/cursor/protocol/events.rs:98-102, [summary_delta]. *)
Definition summary_delta (summary : str) : AgentServerMessage := server_interaction (USummary summary).
(** server/src/cursor/protocol/events.rs:104-108, [summary_completed]. *)
Definition summary_completed : AgentServerMessage := server_interaction USummaryCompleted.

(** server/src/cursor/protocol/events.rs:110-121, [context_injection_queued]. *)
Definition context_injection_queued (id : str) : AgentServerMessage :=
  server_interaction (UContextInjectionState id InjectionQueued).
(** server/src/cursor/protocol/events.rs:123-134, [context_injection_rejected]. *)
Definition context_injection_rejected (id reason : str) : AgentServerMessage :=
  server_interaction (UContextInjectionState id (InjectionRejected reason)).
(** server/src/cursor/protocol/events.rs:136-155, [context_injection_delivered]. *)
Definition context_injection_delivered (id batch : str) (delivered_at_ms : Z) : AgentServerMessage :=
  server_interaction (UContextInjectionState id (InjectionDelivered 0 batch delivered_at_ms)).

(** ** Facts *)

(** A card is always found: what is not built in gets the compatibility card. *)
Lemma builtin_placeholder_err nm id e : builtin_tool_placeholder nm id = Err e →
  is_unsupported_tool e nm = true.
Proof.
  unfold builtin_tool_placeholder. cbv zeta.
  do 19 (match goal with |- context [if ?b then _ else _] => destruct b; [discriminate|] end).
  intros [= <-]. by apply bool_decide_eq_true_2.
Qed.
Lemma tool_placeholder_total nm id : ∃ card, tool_placeholder nm id = Ok card.
Proof.
  unfold tool_placeholder. destruct (builtin_tool_placeholder nm id) as [t|e] eqn:E; [by eexists|].
  rewrite (builtin_placeholder_err _ _ _ E). by eexists.
Qed.

(** Newlines are normalized once and for all. *)
Lemma replace_crlf_id s : 13 ∉ s → replace_crlf s = s.
Proof.
  induction s as [|c s IH]; [done|]. rewrite not_elem_of_cons. intros [Hc Hs]. cbn [replace_crlf].
  rewrite IH by done. destruct (decide (c = 13)) as [->|]; [done|]. repeat case_match; naive_solver.
Qed.
Lemma replace_cr_no_cr s : 13 ∉ replace_cr s.
Proof.
  unfold replace_cr. rewrite list_elem_of_fmap. intros (c & E & _). destruct (c =? 13) eqn:Ec; lia.
Qed.
Lemma replace_cr_id s : 13 ∉ s → replace_cr s = s.
Proof.
  induction s as [|c s IH]; [done|]. rewrite not_elem_of_cons. intros [Hc Hs]. unfold replace_cr in *.
  cbn. rewrite (proj2 (Z.eqb_neq c 13)) by congruence. by rewrite IH.
Qed.
Lemma normalize_newlines_no_cr s : 13 ∉ normalize_newlines s.
Proof. apply replace_cr_no_cr. Qed.
Lemma normalize_newlines_id s : 13 ∉ s → normalize_newlines s = s.
Proof. intros H. unfold normalize_newlines. by rewrite replace_crlf_id, replace_cr_id. Qed.
Lemma normalize_newlines_idem s : normalize_newlines (normalize_newlines s) = normalize_newlines s.
Proof. apply normalize_newlines_id, normalize_newlines_no_cr. Qed.
