(* ===== verification/ToolStream.v ===== *)
(** * ToolStream: the card of a tool call while its arguments arrive

    server/src/cursor/tools/stream.rs and the partial cards of
    server/src/cursor/tools/codec/render.rs.  Each piece of the arguments text goes
    through [arguments_delta]; a piece that is refused is only logged by the caller, so
    the stream goes on from the state the refusal leaves.

    Theorem [edit_stream_matches_card]: however the arguments of an edit are cut, what the
    client was shown while they arrived is what the final card says. *)

From stdpp Require Import prelude gmap strings list.
From S2P Require Import Prelude Errors External Message ModelCycle JsonStream Interaction.
Local Open Scope Z_scope.

(** server/src/cursor/tools/edit.rs:18-22, [PATH_FIELDS], [NOTEBOOK_PATH_FIELDS] and
    [CONTENT_FIELDS]. *)
Definition PATH_FIELDS : list string := ["path"; "file_path"; "filePath"].
Definition NOTEBOOK_PATH_FIELDS : list string := ["target_notebook"].
Definition CONTENT_FIELDS : list string := ["contents"; "content"].

(** server/src/cursor/tools/codec/render.rs:18-39, [edit_path_partial]. *)
Definition edit_path_partial (c : ToolCall) (path : str) : AgentServerMessage :=
  server_interaction (UPartialToolCall (call_id c)
    (Some (MkPbToolCall (Some (call_id c)) None None
             (Some (EditToolCall (Some (MkEditArgs path None))))))
    [] (model_call_id c)).

(** server/src/cursor/tools/codec/render.rs:41-55, [edit_content_delta]. *)
Definition edit_content_delta (c : ToolCall) (content : str) : AgentServerMessage :=
  server_interaction (UToolCallDelta (call_id c) content (model_call_id c)).

Definition non_empty (s : str) : option str := match s with [] => None | _ => Some s end.

(** server/src/cursor/tools/codec/render.rs:57-98, [task_partial]. *)
Definition task_partial (c : ToolCall) (description prompt subagent mdl resume environment : str)
    : AgentServerMessage :=
  server_interaction (UPartialToolCall (call_id c)
    (Some (MkPbToolCall (Some (call_id c)) None None
      (Some (TaskToolCall (Some (MkTaskArgs description prompt (Some (subagent_type subagent))
        (non_empty mdl) (non_empty resume) [] (execution_environment (non_empty environment))))))))
    [] (model_call_id c)).

(** server/src/cursor/tools/codec/render.rs:100-132, [create_plan_partial]. *)
Definition create_plan_partial (c : ToolCall) (nm plan overview : str) : AgentServerMessage :=
  server_interaction (UPartialToolCall (call_id c)
    (Some (MkPbToolCall (Some (call_id c)) None None
      (Some (CreatePlanToolCall (Some (MkPlanArgs plan [] overview nm false))))))
    [] (model_call_id c)).

(** server/src/cursor/tools/stream.rs:213-215, [NewlineStream]. *)
Record NewlineStream : Type := MkNewlines { pending_cr : bool }.

(** server/src/cursor/tools/stream.rs:220-233, [NewlineStream::push]: the loop over the
    characters. *)
Fixpoint newline_chars (n : NewlineStream) (text : str) : NewlineStream * str :=
  match text with
  | [] => (n, [])
  | c :: text =>
      if pending_cr n then
        if c =? 10 then
          let '(n, out) := newline_chars (MkNewlines false) text in (n, 10 :: out)
        else if c =? 13 then
          let '(n, out) := newline_chars (MkNewlines true) text in (n, 10 :: out)
        else
          let '(n, out) := newline_chars (MkNewlines false) text in (n, 10 :: c :: out)
      else if c =? 13 then newline_chars (MkNewlines true) text
      else let '(n, out) := newline_chars n text in (n, c :: out)
  end.
(** server/src/cursor/tools/stream.rs:218-239, [NewlineStream::push]. *)
Definition newline_push (n : NewlineStream) (text : str) (finished : bool) : NewlineStream * str :=
  let '(n, out) := newline_chars n text in
  if finished && pending_cr n then (MkNewlines false, out ++ [10]) else (n, out).

(** server/src/cursor/tools/stream.rs:26-32, [EditProjection]. *)
Record EditProjection : Type := MkEdit {
  e_fields : JsonStringFields;
  path_fields : list string;
  content_fields : list string;
  e_path : str;
  e_content : NewlineStream
}.
(** server/src/cursor/tools/stream.rs:35-40, [CreatePlanProjection]. *)
Record CreatePlanProjection : Type := MkPlan {
  p_fields : JsonStringFields; p_name : str; p_plan : str; p_overview : str
}.
(** server/src/cursor/tools/stream.rs:43-51, [TaskProjection]. *)
Record TaskProjection : Type := MkTask {
  k_fields : JsonStringFields; k_description : str; k_prompt : str; k_subagent_type : str;
  k_model : str; k_resume : str; k_environment : str
}.
(** server/src/cursor/tools/stream.rs:18-24, [Presentation]. *)
Inductive Presentation : Type :=
  | Plain
  | DynamicMcp (definition : McpToolDefinition)
  | Edit (edit : EditProjection)
  | CreatePlan (plan : CreatePlanProjection)
  | Task (task : TaskProjection).

(** server/src/cursor/tools/stream.rs:165-173, [EditProjection::new]. *)
Definition new_edit (paths contents : list string) : EditProjection :=
  MkEdit new_fields paths contents [] (MkNewlines false).

(** server/src/cursor/tools/stream.rs:54-76, [ToolCallStream::new]. *)
Definition new_stream (nm : str) (dynamic : option McpToolDefinition) : Presentation :=
  match dynamic with
  | Some d => DynamicMcp d
  | None =>
      let n := normalized nm in
      if is_name n ["write"] then Edit (new_edit PATH_FIELDS CONTENT_FIELDS)
      else if is_name n ["strreplace"] then Edit (new_edit PATH_FIELDS ["new_string"])
      else if is_name n ["editnotebook"] then Edit (new_edit NOTEBOOK_PATH_FIELDS ["new_string"])
      else if is_name n ["createplan"] then CreatePlan (MkPlan new_fields [] [] [])
      else if is_name n ["task"] then Task (MkTask new_fields [] [] [] [] [] [])
      else Plain
  end.

(** server/src/cursor/tools/stream.rs:182-206, [EditProjection::project]: one event. *)
Definition edit_event (c : ToolCall) (e : EditProjection) (event : StringFieldEvent)
    : EditProjection * list AgentServerMessage :=
  let set_path p := MkEdit (e_fields e) (path_fields e) (content_fields e) p (e_content e) in
  let content text finished :=
    let '(n, out) := newline_push (e_content e) text finished in
    (MkEdit (e_fields e) (path_fields e) (content_fields e) (e_path e) n,
     match out with [] => [] | _ => [edit_content_delta c out] end) in
  match event with
  | Delta nm text =>
      if is_name nm (path_fields e) then (set_path (e_path e ++ text), [])
      else if is_name nm (content_fields e) then content text false
      else (e, [])
  | End nm =>
      if is_name nm (path_fields e) then (e, [edit_path_partial c (e_path e)])
      else if is_name nm (content_fields e) then content [] true
      else (e, [])
  end.
Fixpoint edit_events (c : ToolCall) (e : EditProjection) (events : list StringFieldEvent)
    : EditProjection * list AgentServerMessage :=
  match events with
  | [] => (e, [])
  | event :: events =>
      let '(e, m1) := edit_event c e event in
      let '(e, m2) := edit_events c e events in (e, m1 ++ m2)
  end.

Section Stream.
Context {SS : SerdeString}.

Definition set_edit_fields (e : EditProjection) (f : JsonStringFields) : EditProjection :=
  MkEdit f (path_fields e) (content_fields e) (e_path e) (e_content e).

(** server/src/cursor/tools/stream.rs:175-209, [EditProjection::project]. *)
Definition project_edit (c : ToolCall) (e : EditProjection) (raw : str)
    : EditProjection * res (list AgentServerMessage) :=
  let '(f, r) := push (e_fields e) raw in
  let e := set_edit_fields e f in
  match r with
  | Ok events => let '(e, ms) := edit_events c e events in (e, Ok ms)
  | Err error => (e, Err error)
  end.

(** server/src/cursor/tools/stream.rs:142-156, [CreatePlanProjection::project]: one event. *)
Definition plan_event (s : CreatePlanProjection * bool) (event : StringFieldEvent)
    : CreatePlanProjection * bool :=
  let '(p, completed) := s in
  match event with
  | Delta nm text =>
      (if is_name nm ["name"] then MkPlan (p_fields p) (p_name p ++ text) (p_plan p) (p_overview p)
       else if is_name nm ["plan"] then MkPlan (p_fields p) (p_name p) (p_plan p ++ text) (p_overview p)
       else if is_name nm ["overview"] then MkPlan (p_fields p) (p_name p) (p_plan p) (p_overview p ++ text)
       else p, completed)
  | End nm => (p, completed || is_name nm ["name"; "plan"; "overview"])
  end.

(** server/src/cursor/tools/stream.rs:139-161, [CreatePlanProjection::project]. *)
Definition project_plan (c : ToolCall) (p : CreatePlanProjection) (raw : str)
    : CreatePlanProjection * res (list AgentServerMessage) :=
  let '(f, r) := push (p_fields p) raw in
  let p := MkPlan f (p_name p) (p_plan p) (p_overview p) in
  match r with
  | Ok events =>
      let '(p, completed) := foldl plan_event (p, false) events in
      (p, Ok (if completed then [create_plan_partial c (p_name p) (p_plan p) (p_overview p)] else []))
  | Err error => (p, Err error)
  end.

(** server/src/cursor/tools/stream.rs:105-119, [TaskProjection::project]: one event. *)
Definition task_event (s : TaskProjection * bool) (event : StringFieldEvent) : TaskProjection * bool :=
  let '(MkTask f d p s m r e as k, completed) := s in
  match event with
  | Delta nm text =>
      (if is_name nm ["description"] then MkTask f (d ++ text) p s m r e
       else if is_name nm ["prompt"] then MkTask f d (p ++ text) s m r e
       else if is_name nm ["subagent_type"] then MkTask f d p (s ++ text) m r e
       else if is_name nm ["model"] then MkTask f d p s (m ++ text) r e
       else if is_name nm ["resume"] then MkTask f d p s m (r ++ text) e
       else if is_name nm ["environment"] then MkTask f d p s m r (e ++ text)
       else k, completed)
  | End nm => (k, completed || is_name nm ["description"])
  end.

(** server/src/cursor/tools/stream.rs:102-135, [TaskProjection::project]. *)
Definition project_task (c : ToolCall) (k : TaskProjection) (raw : str)
    : TaskProjection * res (list AgentServerMessage) :=
  let '(f, r) := push (k_fields k) raw in
  let k := MkTask f (k_description k) (k_prompt k) (k_subagent_type k) (k_model k) (k_resume k)
             (k_environment k) in
  match r with
  | Ok events =>
      let '(k, completed) := foldl task_event (k, false) events in
      (k, Ok (if completed then
                [task_partial c (k_description k) (k_prompt k) (k_subagent_type k) (k_model k)
                   (k_resume k) (k_environment k)]
              else []))
  | Err error => (k, Err error)
  end.

(** server/src/cursor/tools/stream.rs:78-98, [ToolCallStream::arguments_delta]. *)
Definition stream_delta (now : Z) (s : Presentation) (c : ToolCall) (raw : str)
    : Presentation * res (list AgentServerMessage) :=
  match s with
  | Plain => (Plain, m ← arguments_delta c raw; Ok [m])
  | DynamicMcp d => (s, Ok [dynamic_mcp_arguments_delta now c raw d])
  | Edit e => let '(e, r) := project_edit c e raw in (Edit e, r)
  | CreatePlan p => let '(p, r) := project_plan c p raw in (CreatePlan p, r)
  | Task k => let '(k, r) := project_task c k raw in (Task k, r)
  end.

(** The pieces one after the other; a piece that is refused shows nothing. *)
Fixpoint stream_pieces (now : Z) (s : Presentation) (c : ToolCall) (pieces : list str)
    : Presentation * list AgentServerMessage :=
  match pieces with
  | [] => (s, [])
  | raw :: pieces =>
      let '(s, r) := stream_delta now s c raw in
      let '(s, ms) := stream_pieces now s c pieces in
      (s, match r with Ok m => m | Err _ => [] end ++ ms)
  end.
End Stream.

(** What the messages show of an edit: the paths, and the contents put together. *)
Definition shown_paths (ms : list AgentServerMessage) : list str :=
  omap (λ m, match m with
             | InteractionUpdate (UPartialToolCall _ (Some card) _ _) =>
                 match tool card with Some (EditToolCall (Some args)) => Some (ed_path args) | _ => None end
             | _ => None
             end) ms.
Definition shown_content (ms : list AgentServerMessage) : str :=
  ms ≫= λ m, match m with InteractionUpdate (UToolCallDelta _ content _) => content | _ => [] end.

Lemma shown_paths_app a b : shown_paths (a ++ b) = shown_paths a ++ shown_paths b.
Proof. apply omap_app. Qed.
Lemma shown_content_app a b : shown_content (a ++ b) = shown_content a ++ shown_content b.
Proof. apply bind_app. Qed.

(** ** Newlines *)
Lemma newline_chars_app n s t :
  newline_chars n (s ++ t) =
  (let '(n1, o1) := newline_chars n s in let '(n2, o2) := newline_chars n1 t in (n2, o1 ++ o2)).
Proof.
  revert n. induction s as [|c s IH]; intros n; cbn; [by destruct (newline_chars n t)|].
  rewrite !IH. repeat case_match; simplify_eq; cbn; try done.
Qed.

Lemma normalize_cons c s : c ≠ 13 → normalize_newlines (c :: s) = c :: normalize_newlines s.
Proof.
  intros Hc. unfold normalize_newlines. assert (replace_crlf (c :: s) = c :: replace_crlf s) as ->.
  { cbn. repeat case_match; naive_solver. }
  unfold replace_cr. cbn. by rewrite (proj2 (Z.eqb_neq c 13)).
Qed.
Lemma normalize_crlf s : normalize_newlines (13 :: 10 :: s) = 10 :: normalize_newlines s.
Proof. done. Qed.
Lemma normalize_cr s : head s ≠ Some 10 → normalize_newlines (13 :: s) = 10 :: normalize_newlines s.
Proof.
  intros Hs. unfold normalize_newlines. assert (replace_crlf (13 :: s) = 13 :: replace_crlf s) as ->; [|done].
  cbn. destruct s as [|c s]; [done|]. cbn in Hs. repeat case_match; naive_solver.
Qed.

(** A text from its start to its end: the normalized text. *)
Lemma newline_push_spec cr s :
  newline_push (MkNewlines cr) s true =
  (MkNewlines false, normalize_newlines (if cr then 13 :: s else s)).
Proof.
  revert cr. induction s as [|c s IH]; intros cr; [by destruct cr|].
  assert (∀ b p, (let '(n, out) := let '(n, out) := newline_chars (MkNewlines b) s in (n, p ++ out) in
    if pending_cr n then (MkNewlines false, out ++ [10]) else (n, out)) =
    (MkNewlines false, p ++ normalize_newlines (if b then 13 :: s else s))) as H.
  { intros b p. specialize (IH b). unfold newline_push in IH. cbn [andb] in IH.
    destruct (newline_chars (MkNewlines b) s) as [n o]. destruct (pending_cr n); injection IH.
    - intros <-. by rewrite (assoc_L (++)).
    - by intros <- ->. }
  unfold newline_push. cbn [newline_chars pending_cr andb]. destruct cr.
  - destruct (Z.eqb_spec c 10) as [->|H10]; [apply (H false [10])|].
    destruct (Z.eqb_spec c 13) as [->|H13].
    + rewrite normalize_cr by done. apply (H true [10]).
    + rewrite normalize_cr, normalize_cons by (cbn; congruence). apply (H false [10; c]).
  - destruct (Z.eqb_spec c 13) as [->|H13].
    + specialize (H true []). cbn in H. destruct (newline_chars (MkNewlines true) s). exact H.
    + rewrite normalize_cons by done. apply (H false [c]).
Qed.

(** ** Edits *)
Lemma edit_events_app c e l k :
  edit_events c e (l ++ k) =
  (let '(e1, m1) := edit_events c e l in let '(e2, m2) := edit_events c e1 k in (e2, m1 ++ m2)).
Proof.
  revert e. induction l as [|event l IH]; intros e; cbn; [by destruct (edit_events c e k)|].
  destruct (edit_event c e event) as [e0 m0]. rewrite IH.
  destruct (edit_events c e0 l) as [e1 m1]. destruct (edit_events c e1 k) as [e2 m2].
  by rewrite (assoc_L (++)).
Qed.

(** What a list of events comes to: the projection it leaves and what is shown of it. *)
Definition outcome (c : ToolCall) (e : EditProjection) (events : list StringFieldEvent)
    : EditProjection * list str * str :=
  let '(e, ms) := edit_events c e events in (e, shown_paths ms, shown_content ms).
Lemma outcome_app c e l k :
  outcome c e (l ++ k) =
  (let '(e1, p1, c1) := outcome c e l in let '(e2, p2, c2) := outcome c e1 k in (e2, p1 ++ p2, c1 ++ c2)).
Proof.
  unfold outcome. rewrite edit_events_app. destruct (edit_events c e l) as [e1 m1].
  destruct (edit_events c e1 k) as [e2 m2]. by rewrite shown_paths_app, shown_content_app.
Qed.
Lemma outcome_cons c e event k :
  outcome c e (event :: k) =
  (let '(e1, p1, c1) := outcome c e [event] in let '(e2, p2, c2) := outcome c e1 k in (e2, p1 ++ p2, c1 ++ c2)).
Proof. apply (outcome_app c e [event]). Qed.

(** A delta is its halves. *)
Lemma outcome_delta c e nm s t : outcome c e [Delta nm (s ++ t)] = outcome c e [Delta nm s; Delta nm t].
Proof.
  rewrite (outcome_cons c e (Delta nm s) [_]). unfold outcome. cbn [edit_events edit_event].
  destruct (is_name nm (path_fields e)) eqn:Ep.
  { cbn [path_fields]. rewrite Ep. cbn. by rewrite (assoc_L (++)). }
  destruct (is_name nm (content_fields e)) eqn:Ec; [|by rewrite Ep, Ec].
  unfold newline_push. rewrite newline_chars_app. cbn [andb].
  destruct (newline_chars (e_content e) s) as [n1 o1] eqn:E1. cbn [path_fields content_fields e_content e_path e_fields].
  rewrite Ep, Ec. destruct (newline_chars n1 t) as [n2 o2] eqn:E2.
  destruct o1, o2; cbn; rewrite ?app_nil_r; try done.
Qed.
Lemma outcome_add_event c e l event : outcome c e (add_event l event) = outcome c e (l ++ [event]).
Proof.
  destruct event as [nm t|nm]; [|done]. cbn [add_event].
  destruct l as [|[m s|m] l _] using rev_ind; [done| |by rewrite push_delta_end].
  rewrite push_delta_snoc. case_decide as E; [subst m|done].
  rewrite <- (assoc_L (++)), !(outcome_app _ _ l). cbn [app].
  destruct (outcome c e l) as [[e1 p1] c1]. by rewrite outcome_delta.
Qed.
Lemma outcome_add_events c e l k : outcome c e (add_events l k) = outcome c e (l ++ k).
Proof.
  induction k as [|event k IH] using rev_ind; [by rewrite app_nil_r|].
  unfold add_events in *. rewrite foldl_snoc, outcome_add_event, (assoc_L (++)).
  by rewrite (outcome_app _ _ _ [event]), IH, <- outcome_app.
Qed.

Lemma edit_event_fields c e f event :
  edit_event c (set_edit_fields e f) event =
  (let '(e', ms) := edit_event c e event in (set_edit_fields e' f, ms)).
Proof.
  destruct e as [f0 ps cs p n]. unfold set_edit_fields.
  destruct event as [nm t|nm]; unfold edit_event; cbn [e_fields path_fields content_fields e_path e_content];
    (destruct (is_name nm ps); [done|]); (destruct (is_name nm cs); [|done]);
    by destruct (newline_push n _ _).
Qed.
Lemma edit_events_fields c e f events :
  edit_events c (set_edit_fields e f) events =
  (let '(e', ms) := edit_events c e events in (set_edit_fields e' f, ms)).
Proof.
  revert e. induction events as [|event events IH]; intros e; [done|]. cbn [edit_events].
  rewrite edit_event_fields. destruct (edit_event c e event) as [e1 m1]. rewrite IH.
  by destruct (edit_events c e1 events).
Qed.

Section Edits.
Context {SS : SerdeString}.

Lemma stream_pieces_edit now c e pieces g es : push_pieces (e_fields e) pieces = (g, Ok es) →
  (stream_pieces now (Edit e) c pieces).2 = (edit_events c e (concat es)).2.
Proof.
  revert e es. induction pieces as [|raw pieces IH]; intros e es H.
  { by injection H as <- <-. }
  cbn [push_pieces] in H. destruct (push (e_fields e) raw) as [f [events|error]] eqn:E; [|done].
  destruct (push_pieces f pieces) as [h [es'|error]] eqn:E'; [|done]. injection H as <- <-.
  cbn [stream_pieces stream_delta]. unfold project_edit. rewrite E.
  rewrite edit_events_fields. cbn [concat]. rewrite edit_events_app.
  destruct (edit_events c e events) as [e1 m1]. cbn [fst snd].
  specialize (IH (set_edit_fields e1 f) es' E'). rewrite edit_events_fields in IH.
  destruct (stream_pieces now (Edit (set_edit_fields e1 f)) c pieces) as [s ms].
  cbn [snd] in IH. rewrite IH. by destruct (edit_events c e1 (concat es')).
Qed.

(** Whatever the pieces, what is shown is what the fields come to. *)
Lemma stream_pieces_fields {SL : SerdeStringLaws} now c e pieces fields : e_fields e = new_fields →
  object_text (concat pieces) fields → zlen (concat pieces) < 2 ^ 64 →
  let ms := (stream_pieces now (Edit e) c pieces).2 in
  let '(_, paths, content) := outcome c e (concat (field_events <$> fields)) in
  shown_paths ms = paths ∧ shown_content ms = content.
Proof.
  intros He Ho Hl. destruct (push_object_reads _ _ Ho Hl) as (f & Hp & _).
  rewrite push_pieces_concat in Hp. destruct (push_pieces new_fields pieces) as [g [es|error]] eqn:E; [|done].
  injection Hp as _ Hes. rewrite <- He in E. cbn zeta. rewrite (stream_pieces_edit now c e pieces g es E).
  rewrite <- Hes, outcome_add_events. cbn [app]. unfold outcome.
  by destruct (edit_events c e (concat es)).
Qed.
End Edits.

(** The string values of the fields with one of the names, in their order. *)
Definition field_values (names : list string) (fields : list (str * option str)) : list str :=
  omap (λ f, if is_name (fst f) names then snd f else None) fields.
(** The path a card shows is all the path text so far. *)
Fixpoint accumulate (path : str) (values : list str) : list str :=
  match values with
  | [] => []
  | v :: values => (path ++ v) :: accumulate (path ++ v) values
  end.

Definition disjoint_names (a b : list string) : Prop :=
  ∀ nm, is_name nm a = true → is_name nm b = false.

Lemma outcome_field c e field : disjoint_names (path_fields e) (content_fields e) →
  e_content e = MkNewlines false →
  let paths := field_values (path_fields e) [field] in
  outcome c e (field_events field) =
    (MkEdit (e_fields e) (path_fields e) (content_fields e) (e_path e ++ concat paths) (MkNewlines false),
     accumulate (e_path e) paths,
     concat (normalize_newlines <$> field_values (content_fields e) [field])).
Proof.
  intros Hd Hn. destruct e as [f ps cs p n], field as [nm [v|]]; cbn [e_content path_fields content_fields] in *; subst n; cbn zeta.
  2:{ unfold field_values. cbn. repeat case_match; cbn; by rewrite app_nil_r. }
  assert (outcome c (MkEdit f ps cs p (MkNewlines false)) (field_events (nm, Some v)) =
    outcome c (MkEdit f ps cs p (MkNewlines false)) ([Delta nm v] ++ [End nm])) as ->.
  { unfold field_events. cbn [fst snd]. destruct v as [|z v]; [|done]. cbn [app].
    unfold outcome. cbn [edit_events edit_event e_fields path_fields content_fields e_path e_content].
    destruct (is_name nm ps) eqn:Ep; [cbn; by rewrite Ep, !app_nil_r|]. destruct (is_name nm cs) eqn:Ec; cbn; by rewrite Ep, Ec. }
  cbn [app]. unfold field_values, outcome. cbn.
  destruct (is_name nm ps) eqn:Ep.
  { rewrite (Hd _ Ep). cbn. rewrite Ep. cbn. by rewrite !app_nil_r. }
  destruct (is_name nm cs) eqn:Ec; cbn; rewrite ?Ep, ?Ec; cbn; [|by rewrite app_nil_r].
  pose proof (newline_push_spec false v) as Hs. unfold newline_push in *. cbn [andb] in *.
  destruct (newline_chars (MkNewlines false) v) as [n o]. cbn. rewrite Ep, Ec.
  destruct (pending_cr n) eqn:En; cbn; injection Hs; [intros <-|intros <- ->];
    destruct o; cbn; rewrite ?app_nil_r; try done.
Qed.
Lemma outcome_fields c e fields : disjoint_names (path_fields e) (content_fields e) →
  e_content e = MkNewlines false →
  (outcome c e (concat (field_events <$> fields))).1.2 =
    accumulate (e_path e) (field_values (path_fields e) fields) ∧
  (outcome c e (concat (field_events <$> fields))).2 =
    concat (normalize_newlines <$> field_values (content_fields e) fields).
Proof.
  revert e. induction fields as [|field fields IH]; intros e Hd Hn; [done|].
  cbn [fmap list_fmap concat]. rewrite outcome_app, outcome_field by done.
  set (e1 := MkEdit _ _ _ _ _). specialize (IH e1 Hd eq_refl) as [IH1 IH2].
  destruct (outcome c e1 _) as [[e2 p2] c2]. cbn [fst snd] in *. subst p2 c2.
  unfold field_values in *. subst e1. cbn [path_fields content_fields e_path omap list_omap].
  destruct (if is_name field.1 (path_fields e) then field.2 else None) as [v|]; cbn [concat accumulate app];
    destruct (if is_name field.1 (content_fields e) then field.2 else None) as [w|]; cbn;
    rewrite ?app_nil_r; done.
Qed.

(** The strings of an object, found by name. *)
Definition string_fields (members : list (str * json)) : list (str * option str) :=
  (λ m, (fst m, as_str (snd m))) <$> members.

Lemma optional_spec c members a v : arguments c = JObject members → NoDup (fst <$> members) →
  optional c a = Some v ↔ (lit a, Some v) ∈ string_fields members.
Proof.
  intros Ha Hnd. unfold optional, get_member. rewrite Ha. unfold string_fields. clear Ha.
  induction members as [|[k x] members IH]; [cbn; split; [done|set_solver]|].
  cbn in Hnd. apply NoDup_cons in Hnd as [Hk Hnd]. cbn [list_find fst]. cbn [fmap list_fmap fst snd].
  rewrite elem_of_cons. destruct (decide (k = lit a)) as [->|Hne].
  - cbn. split; [intros ->; by left|]. intros [E|E]; [by injection E|].
    exfalso. apply Hk. apply list_elem_of_fmap in E as ([k' x'] & E & Hin). injection E as -> _.
    apply list_elem_of_fmap. by exists (k', x').
  - rewrite <- IH by done. split.
    + intros H. right. destruct (list_find _ members) as [[i m]|]; [exact H|done].
    + intros [E|H]; [by injection E as E _|]. destruct (list_find _ members) as [[i m]|]; [exact H|done].
Qed.

Lemma is_name_spec nm names : is_name nm names = true ↔ ∃ n, n ∈ names ∧ nm = lit n.
Proof.
  unfold is_name. rewrite existsb_exists. split.
  - intros (n & Hn & E%bool_decide_eq_true). exists n. by rewrite list_elem_of_In.
  - intros (n & Hn & ->). exists n. rewrite <- list_elem_of_In. split; [done|]. by apply bool_decide_eq_true.
Qed.
Lemma optional_aliased_unique c members names v : arguments c = JObject members →
  NoDup (fst <$> members) → field_values names (string_fields members) = [v] →
  optional_aliased c names = Some v.
Proof.
  intros Ha Hnd Hv.
  assert (∀ a w, a ∈ names → optional c a = Some w → w = v) as Hall.
  { intros a w Hin E%(optional_spec c members a w Ha Hnd).
    assert (w ∈ field_values names (string_fields members)) as Hw; [|rewrite Hv in Hw; set_solver].
    apply list_elem_of_omap. exists (lit a, Some w). split; [done|]. cbn.
    by rewrite (proj2 (is_name_spec _ _)) by eauto. }
  assert (∃ a, a ∈ names ∧ optional c a = Some v) as (a & Hin & E).
  { assert (v ∈ field_values names (string_fields members)) as Hw by (rewrite Hv; set_solver).
    apply list_elem_of_omap in Hw as ([k o] & Hk & Ho). cbn in Ho.
    destruct (is_name k names) eqn:En; [|done]. subst o.
    apply is_name_spec in En as (a & Hin & ->). exists a. split; [done|].
    by apply (optional_spec c members a v Ha Hnd). }
  clear Hv. induction names as [|b names IH]; [set_solver|]. cbn.
  destruct (optional c b) as [w|] eqn:Eb; [f_equal; apply (Hall b w); [set_solver|done]|].
  apply IH; [intros; eapply Hall; [|done]; set_solver|].
  apply elem_of_cons in Hin as [->|Hin]; [congruence|done].
Qed.

(** The tools whose card is an edit, and what the final card says. *)
Lemma new_edit_cases c e : new_stream (name c) None = Edit e →
  is_name (normalized (name c)) ["strreplace"; "editnotebook"; "write"] = true ∧
  disjoint_names (path_fields e) (content_fields e) ∧
  e_fields e = new_fields ∧ e_content e = MkNewlines false ∧ e_path e = [] ∧
  content_fields e =
    (if is_name (normalized (name c)) ["write"] then CONTENT_FIELDS else ["new_string"]) ∧
  path_fields e =
    (if is_name (normalized (name c)) ["editnotebook"] then NOTEBOOK_PATH_FIELDS else PATH_FIELDS).
Proof.
  unfold new_stream. set (n := normalized (name c)).
  assert (∀ a b : list string, forallb (λ x, negb (existsb (λ y, String.eqb x y) b)) a = true → disjoint_names a b) as Hd.
  { intros a b H nm Ha. apply not_true_iff_false. intros Hb.
    apply is_name_spec in Ha as (x & Hx & ->). apply is_name_spec in Hb as (y & Hy & E).
    apply lit_inj in E as ->. eapply forallb_forall in H; [|by apply list_elem_of_In].
    apply negb_true_iff in H. rewrite <- not_true_iff_false in H. apply H, existsb_exists.
    exists y. rewrite <- list_elem_of_In. split; [done|]. apply String.eqb_refl. }
  destruct (is_name n ["write"]) eqn:E1; [|destruct (is_name n ["strreplace"]) eqn:E2;
    [|destruct (is_name n ["editnotebook"]) eqn:E3; [|repeat case_match; discriminate]]];
    intros [= <-];
    match goal with
    | H : is_name n [?x] = true |- _ =>
        apply is_name_spec in H as (y & Hy & Hn); assert (y = x) as -> by set_solver
    end; rewrite Hn; split_and!; try done; by apply Hd.
Qed.

Section Match.
Context {SS : SerdeString} {SL : SerdeStringLaws} {SN : SerdeNumber}.

Lemma edit_card now c e p v members :
  new_stream (name c) None = Edit e → arguments c = JObject members → NoDup (fst <$> members) →
  field_values (path_fields e) (string_fields members) = [p] →
  field_values (content_fields e) (string_fields members) = [v] →
  ∃ card, render_tool_call now c true = Ok card ∧
    tool card = Some (EditToolCall (Some (MkEditArgs p (Some (normalize_newlines v))))).
Proof.
  intros Hs Ha Hnd Hp Hv. destruct (new_edit_cases c e Hs) as (Hname & _ & _ & _ & _ & Hc & Hpf).
  rewrite Hc in Hv. rewrite Hpf in Hp.
  pose proof (optional_aliased_unique c members _ v Ha Hnd Hv) as Ev.
  pose proof (optional_aliased_unique c members _ p Ha Hnd Hp) as Ep.
  apply is_name_spec in Hname as (n & Hn & En).
  assert (n = "strreplace"%string ∨ n = "editnotebook"%string ∨ n = "write"%string) as Hn' by set_solver.
  assert (builtin_tool_placeholder (name c) (call_id c) =
    Ok (MkPbToolCall (Some (call_id c)) None None (Some (EditToolCall None)))) as Eb.
  { unfold builtin_tool_placeholder. rewrite En. by destruct Hn' as [->|[->| ->]]. }
  assert (is_mcp_auth c = false) as Em.
  { unfold is_mcp_auth. rewrite En. by destruct Hn' as [->|[->| ->]]. }
  unfold render_tool_call, builtin_render_tool_call. rewrite Em, Eb. eexists. split; [reflexivity|].
  cbn [tool fmap option_fmap option_map fill_arguments]. unfold aliased, string_arg.
  destruct (is_name _ ["write"]), (is_name _ ["editnotebook"]); cbn in Ev, Ep |- *;
    rewrite ?Ev, ?Ep; repeat (case_match; simplify_eq/=); done.
Qed.

(** What the client is shown of an edit while its arguments arrive is what the final card
    says.  However the text of the arguments is cut into pieces — inside an escape, between
    the two halves of a CRLF —, the path is shown once and the shown pieces of the content
    make up the content of the card, newlines normalized, for Write with all the names it
    accepts, StrReplace and EditNotebook alike. *)
Theorem edit_stream_matches_card now now' c e pieces fields members p v :
  object_text (concat pieces) fields → zlen (concat pieces) < 2 ^ 64 →
  arguments c = JObject members → string_fields members = fields → NoDup (fst <$> members) →
  new_stream (name c) None = Edit e →
  field_values (path_fields e) fields = [p] → field_values (content_fields e) fields = [v] →
  let shown := (stream_pieces now (new_stream (name c) None) c pieces).2 in
  shown_paths shown = [p] ∧ shown_content shown = normalize_newlines v ∧
  ∃ card, render_tool_call now' c true = Ok card ∧
    tool card = Some (EditToolCall (Some (MkEditArgs p (Some (shown_content shown))))).
Proof.
  intros Ho Hl Ha Hm Hnd Hs Hp Hv. cbn zeta. subst fields.
  destruct (new_edit_cases c e Hs) as (_ & Hd & Hf & Hn & Hpath & _).
  pose proof (stream_pieces_fields now c e pieces _ Hf Ho Hl) as H. cbn zeta in H.
  destruct (outcome_fields c e (string_fields members) Hd Hn) as [H1 H2].
  destruct (outcome c e _) as [[e' ps] content]. cbn [fst snd] in H1, H2. subst ps content.
  rewrite Hs. destruct H as [-> ->]. rewrite Hp, Hv, Hpath. cbn. rewrite app_nil_r.
  split_and!; [done..|]. by eapply edit_card.
Qed.
End Match.

(** ** Samples *)
Module ToolStreamSamples.
Definition numbers : SerdeNumber := {| number_as_u64 := parse_u64; number_as_i64 := parse_u64 |}.
(** The arguments of a Write, cut inside the path and between a CR and its LF. *)
Definition pieces : list str := [qlit "{'path':'a"; qlit "b','contents':'x\r"; qlit "\ny'}"].
Definition fields : list (str * option str) :=
  [(lit "path", Some (lit "ab")); (lit "contents", Some [120; 13; 10; 121])].
Definition members : list (str * json) :=
  [(lit "path", JString (lit "ab")); (lit "contents", JString [120; 13; 10; 121])].
Definition call : ToolCall :=
  MkToolCall 0 (lit "c1") (lit "m1") (lit "Write") [] (JObject members) None.

Lemma pieces_text : object_text (concat pieces) fields.
Proof.
  assert (json_ws []) as Hn by constructor.
  apply (object_fields [] (qlit "'path':'ab','contents':'x\r\ny'") _ []); [done| |done].
  apply (fields_more [] (lit "path") (lit "path") [] [] (qlit "'ab'") (Some (lit "ab")) []
           (qlit "'contents':'x\r\ny'")); try done.
  - repeat (apply chars_plain; [done..|]). constructor.
  - apply (field_string (lit "ab")). repeat (apply chars_plain; [done..|]). constructor.
  - apply (fields_one [] (lit "contents") (lit "contents") [] [] (qlit "'x\r\ny'") (Some [120; 13; 10; 121]) []);
      try done.
    + repeat (apply chars_plain; [done..|]). constructor.
    + apply (field_string (lit "x\r\ny")). apply (chars_plain 120); [done..|].
      apply (chars_escape [92; 114] 13 [92; 110; 121]); [constructor; set_solver|].
      apply (chars_escape [92; 110] 10 [121]); [constructor; set_solver|].
      apply (chars_plain 121); [done..|]. constructor.
Qed.
End ToolStreamSamples.

Lemma edit_stream_matches_card_witness :
  let shown := (@stream_pieces JsonStreamSamples.decoder 0 (new_stream (lit "Write") None)
                  ToolStreamSamples.call ToolStreamSamples.pieces).2 in
  shown_paths shown = [lit "ab"] ∧ shown_content shown = [120; 10; 121].
Proof.
  assert (NoDup (fst <$> ToolStreamSamples.members)) as Hnd
    by (apply (bool_decide_unpack _); vm_compute; exact I).
  destruct (@edit_stream_matches_card JsonStreamSamples.decoder JsonStreamSamples.decoder_laws
    ToolStreamSamples.numbers 0 1 ToolStreamSamples.call (new_edit PATH_FIELDS CONTENT_FIELDS)
    ToolStreamSamples.pieces ToolStreamSamples.fields ToolStreamSamples.members (lit "ab") [120; 13; 10; 121]
    ToolStreamSamples.pieces_text eq_refl eq_refl eq_refl Hnd eq_refl eq_refl eq_refl) as (H1 & H2 & _).
  split; [exact H1|exact H2].
Defined.
