(* ===== verification/Edit.v ===== *)
(** * Edit: the edits of files

    server/src/cursor/tools/edit.rs.  An edit reads the file, computes the new contents
    ([after_read]) and writes them; [execution_path] is the key under which
    edits of one file are queued (file Schedule).  The build modelled is the one for
    systems other than Windows ([cfg!(windows)] is false).

    Theorems: what a StrReplace changes ([str_replace_spec]), that an edit never leaves a
    carriage return, that a notebook edit touches one cell
    ([edit_notebook_one_cell]), and which spellings of a path get one key
    ([schedule_key_spellings]). *)

From stdpp Require Import prelude gmap strings list.
From S2P Require Import Prelude Errors External Json Message ModelCycle Interaction ToolStream.
Local Open Scope Z_scope.

(** server/src/cursor/tools/edit.rs:10-13, [EditWrite]. *)
Record EditWrite : Type := MkWrite { before : str; after : str }.

(** [pb::ReadResult]. *)
Inductive ReadOutput : Type := ReadContent (content : str) | ReadData.
Inductive ReadResult : Type :=
  | ReadSuccess (truncated : bool) (output : option ReadOutput)
  | ReadFileNotFound
  | ReadError (error : str)
  | ReadRejected (reason : str)
  | ReadPermissionDenied
  | ReadInvalidFile (reason : str).

(** [pb::EditResult]. *)
Inductive EditResult : Type :=
  | EditSuccess (path : str) (lines_added lines_removed : Z) (diff : str) (before after : str)
  | EditError (path error : str) (model_visible_error : option str).

(** ** Arguments *)

(** server/src/cursor/tools/edit.rs:294-304, [string_any]. *)
Definition string_any (c : ToolCall) (fields : list string) : res str :=
  match optional_aliased c fields with
  | Some v => Ok v
  | None => Err (Protocol (name c ++ lit " is missing " ++ lit (default EmptyString (head fields))))
  end.
(** server/src/cursor/tools/edit.rs:290-292, [string]. *)
Definition string_of (c : ToolCall) (field : string) : res str := string_any c [field].

(** server/src/cursor/tools/edit.rs:24-30, [path]. *)
Definition edit_path (c : ToolCall) : res str :=
  if is_name (normalized (name c)) ["editnotebook"] then string_any c NOTEBOOK_PATH_FIELDS
  else string_any c PATH_FIELDS.

(** [map_err(|error| error.to_string())]. *)
Definition argument {A} (r : res A) : result str A := map_err error_display r.

(** ** Paths *)
Definition is_separator (c : Z) : bool := (c =? 47) || (c =? 92).

(** [str::split(['/', '\\'])]. *)
Fixpoint split_path (s : str) : list str :=
  match s with
  | [] => [[]]
  | c :: s =>
      if is_separator c then [] :: split_path s
      else match split_path s with w :: ws => (c :: w) :: ws | [] => [[c]] end
  end.
(** [components.join("/")]. *)
Fixpoint join_path (components : list str) : str :=
  match components with
  | [] => []
  | [c] => c
  | c :: cs => c ++ 47 :: join_path cs
  end.
(** [root.trim_end_matches(['/', '\\'])]. *)
Definition trim_separators (s : str) : str :=
  reverse ((fix go (s : str) := match s with
            | c :: s' => if is_separator c then go s' else s
            | [] => [] end) (reverse s)).

(** server/src/cursor/tools/edit.rs:67-79, [schedule_key]: the stack of components. *)
Definition push_component (components : list str) (component : str) : list str :=
  if bool_decide (component = [] ∨ component = lit ".") then components
  else if bool_decide (component = lit "..") then
    match reverse components with
    | l :: earlier => if bool_decide (l = lit "..") then components ++ [lit ".."] else reverse earlier
    | [] => components ++ [lit ".."]
    end
  else components ++ [component].
Definition resolve (components : list str) : list str := foldl push_component [] components.

(** [std::path::Path::is_absolute]. *)
Definition is_absolute (s : str) : bool := match s with c :: _ => c =? 47 | [] => false end.

(** server/src/cursor/tools/edit.rs:55-66, [schedule_key]: the path under the workspace. *)
Definition rooted (p : str) (workspace_paths : list str) : str :=
  match list_find (λ r, r ≠ []) (trim <$> workspace_paths) with
  | Some (_, root) =>
      if negb (is_absolute (trim p)) then trim_separators root ++ 47 :: trim p else trim p
  | None => trim p
  end.

(** server/src/cursor/tools/edit.rs:55-84, [schedule_key]. *)
Definition schedule_key (p : str) (workspace_paths : list str) : str :=
  join_path (resolve (split_path (rooted p workspace_paths))).

(** server/src/cursor/tools/edit.rs:32-42, [execution_path]. *)
Definition execution_path (c : ToolCall) (workspace_paths : list str) : res (option str) :=
  if is_name (normalized (name c)) ["write"; "strreplace"; "editnotebook"] then
    p ← edit_path c; Ok (Some (schedule_key p workspace_paths))
  else Ok None.

(** ** Text *)

(** [match_indices(old).count()] for a pattern that is not empty: the matches from left to
    right that do not overlap; [skip] characters belong to the last one. *)
Fixpoint count_matches (old : str) (skip : nat) (s : str) : nat :=
  match s with
  | [] => 0
  | c :: s' =>
      match skip with
      | S skip => count_matches old skip s'
      | O => if starts_with old s then S (count_matches old (length old - 1) s')
             else count_matches old 0 s'
      end
  end.
(** [replace(old, new)] for a pattern that is not empty. *)
Fixpoint replace_all (old new : str) (skip : nat) (s : str) : str :=
  match s with
  | [] => []
  | c :: s' =>
      match skip with
      | S skip => replace_all old new skip s'
      | O => if starts_with old s then new ++ replace_all old new (length old - 1) s'
             else c :: replace_all old new 0 s'
      end
  end.
(** [replacen(old, new, 1)]. *)
Definition replace_first (old new s : str) : str :=
  match split_once old s with Some (a, b) => a ++ new ++ b | None => s end.

(** server/src/cursor/tools/edit.rs:172-192, [replace_string]. *)
Definition replace_string (c : ToolCall) (before : str) : result str str :=
  old ← argument (string_of c "old_string");
  new ← argument (string_of c "new_string");
  let old := normalize_newlines old in
  let new := normalize_newlines new in
  if bool_decide (old = []) then Err (lit "old_string must not be empty")
  else
    let occurrences := count_matches old 0 before in
    let every := default false (bool_arg c "replace_all") in
    if (occurrences =? 0)%nat then Err (lit "old_string was not found")
    else if every then Ok (replace_all old new 0 before)
    else if (occurrences =? 1)%nat then Ok (replace_first old new before)
    else Err (lit "old_string is not unique; found " ++ decimal (Z.of_nat occurrences)
              ++ lit " occurrences").

(** *** Notebooks *)

(** server/src/cursor/tools/edit.rs:264-277, [notebook_source]. *)
Definition notebook_source (v : json) : result str str :=
  match v with
  | JString s => Ok (normalize_newlines s)
  | JArray lines =>
      (λ ls, normalize_newlines (concat ls)) <$>
      foldr (λ line acc,
        l ← ok_or (as_str line) (lit "notebook cell source contains a non-string");
        ls ← acc; Ok (l :: ls)) (Ok []) lines
  | _ => Err (lit "notebook cell source is not text")
  end.

(** [split_inclusive('\n')]. *)
Fixpoint split_lines (s : str) : list str :=
  match s with
  | [] => []
  | c :: s' =>
      if c =? 10 then [c] :: split_lines s'
      else match split_lines s' with w :: ws => (c :: w) :: ws | [] => [[c]] end
  end.
(** server/src/cursor/tools/edit.rs:279-288, [source_lines]. *)
Definition source_lines (v : str) : list json :=
  match v with [] => [] | _ => JString <$> split_lines v end.

Section Notebook.
Context {SJ : SerdeJson} {SN : SerdeNumber}.
(** serde_json: [to_string_pretty]. *)
Context (to_string_pretty : json → result foreign_error str).

(** server/src/cursor/tools/edit.rs:208-229, [edit_notebook]: the cell that is added. *)
Definition new_cell (language new : str) : json :=
  let cell_type := if is_name language ["markdown"; "raw"] then language else lit "code" in
  let cell := JObject [(lit "cell_type", JString cell_type); (lit "metadata", JObject []);
                       (lit "source", JArray (source_lines new))] in
  if is_name cell_type ["code"] then
    set_member "outputs" (JArray []) (set_member "execution_count" JNull cell)
  else cell.

(** server/src/cursor/tools/edit.rs:231-257, [edit_notebook]: the cell that is changed. *)
Definition edit_cell (c : ToolCall) (new : str) (cell : json) : result str json :=
  source ← match get_member "source" cell with
           | Some v => notebook_source v
           | None => Ok []
           end;
  old ← argument (string_of c "old_string");
  let old := normalize_newlines old in
  if bool_decide (old = []) then Err (lit "old_string must not be empty")
  else
    let occurrences := count_matches old 0 source in
    if (occurrences =? 0)%nat then Err (lit "old_string was not found in the notebook cell")
    else if (occurrences =? 1)%nat then
      Ok (set_member "source" (JArray (source_lines (replace_first old new source))) cell)
    else Err (lit "old_string is not unique in the notebook cell; found "
              ++ decimal (Z.of_nat occurrences) ++ lit " occurrences").

(** server/src/cursor/tools/edit.rs:203-258, [edit_notebook]: the cells. *)
Definition edit_cells (c : ToolCall) (cells : list json) : result str (list json) :=
  index ← ok_or (v ← get_member "cell_idx" (arguments c); as_u64 v)
            (lit "EditNotebook is missing cell_idx");
  new ← argument (string_of c "new_string");
  let new := normalize_newlines new in
  if default false (bool_arg c "is_new_cell") then
    if zlen cells <? index then
      Err (lit "cell_idx " ++ decimal index ++ lit " is past the end of the notebook")
    else
      language ← argument (string_of c "cell_language");
      let i := Z.to_nat index in
      Ok (take i cells ++ new_cell language new :: drop i cells)
  else
    match (if index <? zlen cells then cells !! Z.to_nat index else None) with
    | None => Err (lit "cell_idx " ++ decimal index ++ lit " does not exist")
    | Some cell => cell' ← edit_cell c new cell; Ok (<[Z.to_nat index := cell']> cells)
    end.

(** server/src/cursor/tools/edit.rs:194-262, [edit_notebook]. *)
Definition edit_notebook (c : ToolCall) (before : str) : result str str :=
  notebook ← map_err (λ e, lit "invalid notebook JSON: " ++ fe_display e) (from_str before);
  cells ← ok_or (v ← get_member "cells" notebook; as_array v) (lit "notebook has no cells array");
  cells ← edit_cells c cells;
  (λ text, text ++ [10]) <$>
    map_err fe_display (to_string_pretty (set_member "cells" (JArray cells) notebook)).

(** ** The edit *)

(** server/src/cursor/tools/edit.rs:90-115, [after_read]: the contents before. *)
Definition contents_before (c : ToolCall) (r : option ReadResult) : result str str :=
  match r with
  | Some (ReadSuccess true _) => Err (lit "cannot edit a truncated Read result")
  | Some (ReadSuccess false (Some (ReadContent content))) => Ok (normalize_newlines content)
  | Some (ReadSuccess false (Some ReadData)) => Err (lit "cannot edit a binary file")
  | Some (ReadSuccess false None) => Err (lit "Read result has no file content")
  | Some ReadFileNotFound =>
      if is_name (normalized (name c)) ["write"] then Ok [] else Err (lit "file not found")
  | Some (ReadError error) => Err error
  | Some (ReadRejected reason) => Err reason
  | Some ReadPermissionDenied => Err (lit "read permission denied")
  | Some (ReadInvalidFile reason) => Err reason
  | None => Err (lit "Read result is empty")
  end.

(** server/src/cursor/tools/edit.rs:86-131, [after_read]. *)
Definition after_read (c : ToolCall) (r : option ReadResult) : result str EditWrite :=
  before ← contents_before c r;
  let n := normalized (name c) in
  after ←
    (if is_name n ["write"] then normalize_newlines <$> argument (string_any c CONTENT_FIELDS)
     else if is_name n ["strreplace"] then replace_string c before
     else if is_name n ["editnotebook"] then edit_notebook c before
     else Err (name c ++ lit " is not an edit tool"));
  Ok (MkWrite before after).
End Notebook.

(** The crate similar: the lines a diff adds and removes, and its unified form. *)
Class TextDiff : Type := {
  diff_inserts : str → str → Z;
  diff_deletes : str → str → Z;
  unified_diff : str → str → str
}.

(** server/src/cursor/tools/edit.rs:133-154, [success]. *)
Definition edit_success `{TextDiff} (p : str) (w : EditWrite) : EditResult :=
  EditSuccess p (diff_inserts (before w) (after w)) (diff_deletes (before w) (after w))
    (unified_diff (before w) (after w)) (before w) (after w).

(** server/src/cursor/tools/edit.rs:156-165, [failure]. *)
Definition edit_failure (p error : str) : EditResult := EditError p error (Some error).

(** * What an edit changes *)

(** ** Matches *)

Lemma count_matches_skip old k s : count_matches old k s = count_matches old 0 (drop k s).
Proof. revert k; induction s as [|c s IH]; intros [|k]; try done. cbn [count_matches drop]. apply IH. Qed.
Lemma count_matches_split old s : old ≠ [] →
  count_matches old 0 s =
  match split_once old s with Some (_, b) => S (count_matches old 0 b) | None => 0%nat end.
Proof.
  intros Ho. induction s as [|c s IH].
  - cbn. destruct old; [done|]. done.
  - cbn [count_matches split_once]. destruct (starts_with old (c :: s)) eqn:E.
    + rewrite count_matches_skip. do 2 f_equal. destruct old; [done|]. cbn. by rewrite Nat.sub_0_r.
    + rewrite IH. by destruct (split_once old s) as [[a b]|].
Qed.

(** [n] is where a match starts. *)
Lemma matches_after (a p b a' b' : str) : a ++ p ++ b = a' ++ p ++ b' → (length a + length p ≤ length a')%nat →
  ∃ x, b = x ++ p ++ b'.
Proof.
  intros H Hl. rewrite (assoc_L (++)) in H. symmetry in H. apply app_eq_inv in H.
  destruct H as [(k & E1 & E2)|(k & E1 & E2)].
  - by exists k.
  - exists []. assert (length (a ++ p) = length (a' ++ k)) by by rewrite E1.
    rewrite !length_app in *. assert (k = []) as -> by (destruct k; [done|cbn in *; lia]).
    by rewrite E2.
Qed.

Lemma unique_match old s : old ≠ [] →
  count_matches old 0 s = 1%nat ↔
  ∃ a b, split_once old s = Some (a, b) ∧
    ∀ a' b', s = a' ++ old ++ b' → (length a ≤ length a' < length a + length old)%nat.
Proof.
  intros Ho. rewrite count_matches_split by done. pose proof (split_once_spec old s) as Hs.
  destruct (split_once old s) as [[a b]|]; [|split; [done|by intros (? & ? & ? & _)]].
  destruct Hs as [-> Hfirst]. rewrite count_matches_split by done.
  pose proof (split_once_spec old b) as Hb. split.
  - intros Hc. exists a, b. split; [done|]. intros a' b' H. split; [by eapply Hfirst|].
    destruct (decide (length a' < length a + length old)%nat) as [|Hge]; [done|].
    destruct (matches_after a old b a' b' H) as [x Hx]; [lia|].
    destruct (split_once old b) as [[? ?]|]; [lia|]. by eapply Hb in Hx.
  - intros (a1 & b1 & E & Hover). injection E as <- <-.
    destruct (split_once old b) as [[x y]|]; [|done]. destruct Hb as [-> _].
    specialize (Hover (a ++ old ++ x) y). rewrite !length_app in Hover.
    rewrite <- !(assoc_L (++)) in Hover. specialize (Hover eq_refl). lia.
Qed.

(** A StrReplace without [replace_all] changes exactly one place.  It succeeds precisely
    when the old text occurs and every other occurrence overlaps the first, and then the
    new text stands where the first stood and nothing else moved; it reports that the old
    text was not found precisely when it does not occur. *)
Theorem str_replace_spec c contents old new :
  string_of c "old_string" = Ok old → string_of c "new_string" = Ok new →
  normalize_newlines old ≠ [] → default false (bool_arg c "replace_all") = false →
  let o := normalize_newlines old in
  let n := normalize_newlines new in
  (∀ result, replace_string c contents = Ok result ↔
     ∃ a b, contents = a ++ o ++ b ∧ result = a ++ n ++ b ∧
       ∀ a' b', contents = a' ++ o ++ b' → (length a ≤ length a' < length a + length o)%nat) ∧
  (replace_string c contents = Err (lit "old_string was not found") ↔ ¬ ∃ a b, contents = a ++ o ++ b).
Proof.
  intros Ho Hn Hne Hr. cbn zeta. unfold replace_string. rewrite Ho, Hn. cbn [argument map_err mbind result_bind].
  set (o := normalize_newlines old) in *. set (n := normalize_newlines new).
  rewrite bool_decide_eq_false_2, Hr by done. pose proof (split_once_spec o contents) as Hs.
  pose proof (unique_match o contents Hne) as Hu. pose proof (count_matches_split o contents Hne) as Hc.
  unfold replace_first. destruct (split_once o contents) as [[a b]|] eqn:E.
  - destruct Hs as [Hab Hfirst].
    assert ((count_matches o 0 contents =? 0)%nat = false) as -> by (apply Nat.eqb_neq; lia).
    destruct (Nat.eqb_spec (count_matches o 0 contents) 1) as [E1|E1]; split.
    + apply Hu in E1 as (a1 & b1 & [= <- <-] & Hover). intros result. split.
      * intros [= <-]. by exists a, b.
      * intros (a2 & b2 & H2 & -> & Hover2). assert (length a = length a2) as Hl.
        { pose proof (Hfirst a2 b2 H2). pose proof (Hover2 a b Hab). lia. }
        rewrite H2 in Hab. apply app_inj_1 in Hab as [-> Hab]; [|done]. by apply app_inv_head in Hab as ->.
    + split; [done|]. intros []. by exists a, b.
    + intros result. split; [done|]. intros (a2 & b2 & H2 & _ & Hover). contradict E1. apply Hu.
      exists a, b. split; [done|]. intros a' b' H. specialize (Hover a' b' H) as Hr'.
      pose proof (Hfirst a' b' H). pose proof (Hfirst a2 b2 H2). pose proof (Hover a b Hab). lia.
    + split; [|intros []; by exists a, b]. intros H. discriminate H.
  - rewrite Hc. cbn. split.
    + intros result. split; [done|]. intros (a & b & H & _). by eapply Hs in H.
    + split; [|done]. intros _ (a & b & H). by eapply Hs in H.
Qed.

(** ** Newlines *)
Lemma replace_all_no_cr old new k s : 13 ∉ new → 13 ∉ s → 13 ∉ replace_all old new k s.
Proof.
  intros Hn. revert k. induction s as [|c s IH]; intros k; [done|]. rewrite not_elem_of_cons.
  intros [Hc Hs]. cbn [replace_all]. destruct k as [|k]; [|by apply IH].
  destruct (starts_with old (c :: s)); [rewrite not_elem_of_app|rewrite not_elem_of_cons]; auto.
Qed.
Lemma replace_first_no_cr old new s : 13 ∉ new → 13 ∉ s → 13 ∉ replace_first old new s.
Proof.
  intros Hn Hs. unfold replace_first. pose proof (split_once_spec old s) as H.
  destruct (split_once old s) as [[a b]|]; [|done]. destruct H as [-> _].
  rewrite !not_elem_of_app in *. naive_solver.
Qed.
Lemma replace_string_no_cr c s r : 13 ∉ s → replace_string c s = Ok r → 13 ∉ r.
Proof.
  intros Hs. unfold replace_string.
  destruct (string_of c "old_string") as [old|]; [|done]. destruct (string_of c "new_string") as [new|]; [|done].
  cbn [argument map_err mbind result_bind]. pose proof (normalize_newlines_no_cr new).
  repeat case_match; try done; intros [= <-]; [by apply replace_all_no_cr|by apply replace_first_no_cr].
Qed.

(** ** Notebooks *)
Lemma concat_split_lines s : concat (split_lines s) = s.
Proof.
  induction s as [|c s IH]; [done|]. cbn. destruct (c =? 10); cbn; [by rewrite IH|].
  destruct (split_lines s) as [|w ws]; cbn in *; by rewrite <- IH.
Qed.
(** The lines of a source are its text again. *)
Lemma source_lines_text s : 13 ∉ s → notebook_source (JArray (source_lines s)) = Ok s.
Proof.
  intros Hs. cbn [notebook_source].
  assert (foldr (λ line acc, l ← ok_or (as_str line) (lit "notebook cell source contains a non-string");
    ls ← acc; Ok (l :: ls)) (Ok []) (source_lines s) = Ok (split_lines s)) as ->.
  { destruct s as [|c s]; [done|]. unfold source_lines. generalize (split_lines (c :: s)) as ls.
    induction ls as [|l ls IH]; [done|]. cbn [fmap list_fmap foldr]. by rewrite IH. }
  cbn. by rewrite concat_split_lines, normalize_newlines_id.
Qed.

Section Cells.
Context {SJ : SerdeJson} {SN : SerdeNumber}.

(** The text of a cell. *)
Definition cell_text (cell : json) : result str str :=
  match get_member "source" cell with Some v => notebook_source v | None => Ok [] end.

Lemma notebook_source_no_cr v s : notebook_source v = Ok s → 13 ∉ s.
Proof.
  destruct v; cbn; try done.
  - intros [= <-]. apply normalize_newlines_no_cr.
  - destruct (foldr _ _ _); [|done]. intros [= <-]. apply normalize_newlines_no_cr.
Qed.

Lemma edit_cell_spec c new cell cell' : 13 ∉ new → edit_cell c new cell = Ok cell' →
  ∃ old a b, string_of c "old_string" = Ok old ∧
    cell_text cell = Ok (a ++ normalize_newlines old ++ b) ∧ cell_text cell' = Ok (a ++ new ++ b) ∧
    ∀ other : string, other ≠ "source"%string → get_member other cell' = get_member other cell.
Proof.
  intros Hnew. unfold edit_cell. fold (cell_text cell). destruct (cell_text cell) as [source|] eqn:Es; [|done].
  cbn [mbind result_bind]. destruct (string_of c "old_string") as [old|]; [|done].
  cbn [argument map_err mbind result_bind]. destruct (bool_decide_reflect (normalize_newlines old = [])) as [|Ho]; [done|].
  pose proof (split_once_spec (normalize_newlines old) source) as Hs.
  pose proof (count_matches_split (normalize_newlines old) source Ho) as Hc.
  destruct (Nat.eqb_spec (count_matches (normalize_newlines old) 0 source) 0); [done|].
  destruct (Nat.eqb_spec (count_matches (normalize_newlines old) 0 source) 1); [|done]. intros [= <-].
  unfold replace_first. destruct (split_once _ source) as [[a b]|]; [|lia]. destruct Hs as [-> _].
  exists old, a, b. split; [done|]. split; [done|].
  unfold cell_text in Es. destruct (get_member "source" cell) as [v|] eqn:Ev.
  2:{ injection Es as Es. symmetry in Es. apply app_nil in Es as [_ Es]. apply app_nil in Es as [Es _]. done. }
  destruct cell as [| | | | |members]; try done. split.
  - unfold cell_text. rewrite get_set_same. apply source_lines_text.
    apply notebook_source_no_cr in Es. rewrite !not_elem_of_app in *. naive_solver.
  - intros other Hne. apply get_set_other. congruence.
Qed.

Lemma new_cell_text language new : 13 ∉ new → cell_text (new_cell language new) = Ok new.
Proof.
  intros Hn. assert (get_member "source" (new_cell language new) = Some (JArray (source_lines new))) as E.
  { unfold new_cell. generalize (JString (if is_name language ["markdown"; "raw"] then language else lit "code")) as ty.
    generalize (JArray (source_lines new)) as src. intros src ty.
    destruct (is_name _ ["code"]); vm_compute; reflexivity. }
  unfold cell_text. rewrite E. by apply source_lines_text.
Qed.

(** An EditNotebook touches one cell.  A new cell holds the new text and the others keep
    their order around it; a changed cell has the new text where the old text stood, keeps
    all its other members, and the other cells are the same. *)
Theorem edit_notebook_one_cell c cells cells' : edit_cells c cells = Ok cells' →
  ∃ new, string_of c "new_string" = Ok new ∧
  if default false (bool_arg c "is_new_cell") then
    ∃ i cell, (i ≤ length cells)%nat ∧ cells' = take i cells ++ cell :: drop i cells ∧
      cell_text cell = Ok (normalize_newlines new)
  else
    ∃ i cell cell' old a b, cells !! i = Some cell ∧ cells' = <[i := cell']> cells ∧
      string_of c "old_string" = Ok old ∧
      cell_text cell = Ok (a ++ normalize_newlines old ++ b) ∧
      cell_text cell' = Ok (a ++ normalize_newlines new ++ b) ∧
      ∀ other : string, other ≠ "source"%string → get_member other cell' = get_member other cell.
Proof.
  unfold edit_cells. destruct (ok_or _ _) as [index|]; [|done]. cbn [mbind result_bind].
  destruct (string_of c "new_string") as [new|]; [|done]. cbn [argument map_err mbind result_bind].
  intros H. exists new. split; [done|]. destruct (default false (bool_arg c "is_new_cell")).
  - destruct (Z.ltb_spec (zlen cells) index); [done|].
    destruct (string_of c "cell_language") as [language|]; [|done]. injection H as <-.
    exists (Z.to_nat index), (new_cell language (normalize_newlines new)).
    split; [unfold zlen in *; lia|]. split; [done|]. apply new_cell_text, normalize_newlines_no_cr.
  - destruct (if index <? zlen cells then cells !! Z.to_nat index else None) as [cell|] eqn:Ec; [|done].
    destruct (edit_cell c (normalize_newlines new) cell) as [cell'|] eqn:E; [|done]. injection H as <-.
    apply edit_cell_spec in E as (old & a & b & H1 & H2 & H3 & H4); [|apply normalize_newlines_no_cr].
    exists (Z.to_nat index), cell, cell', old, a, b. split; [by destruct (index <? zlen cells)|]. done.
Qed.

(** The contents an edit starts from and the ones it writes hold no carriage return,
    whatever the file and the arguments hold (a notebook is written by its JSON printer). *)
Theorem edit_normalizes_newlines pretty c r w : after_read pretty c r = Ok w →
  13 ∉ before w ∧ (is_name (normalized (name c)) ["editnotebook"] = false → 13 ∉ after w).
Proof.
  unfold after_read. destruct (contents_before c r) as [text|] eqn:Eb; [|done]. cbn [mbind result_bind].
  assert (13 ∉ text) as Ht.
  { unfold contents_before in Eb. repeat case_match; try done; injection Eb as <-;
      [apply normalize_newlines_no_cr|set_solver]. }
  intros H. destruct (is_name _ ["write"]).
  { destruct (string_any c CONTENT_FIELDS); [|done]. injection H as <-. split; [done|]. intros _.
    apply normalize_newlines_no_cr. }
  destruct (is_name _ ["strreplace"]).
  { destruct (replace_string c text) as [t|] eqn:Er; [|done]. injection H as <-. split; [done|]. intros _.
    by eapply replace_string_no_cr. }
  destruct (is_name _ ["editnotebook"]); [|done].
  destruct (edit_notebook _ c text); [|done]. injection H as <-. split; [done|]. discriminate.
Qed.
End Cells.

(** ** Spellings of a path *)

(** One step of lexical normalization: an empty component, a [.], or a component undone by
    the [..] after it. *)
Inductive spelling : list str → list str → Prop :=
  | spelling_empty l r : spelling (l ++ [] :: r) (l ++ r)
  | spelling_dot l r : spelling (l ++ lit "." :: r) (l ++ r)
  | spelling_up l x r : x ≠ [] → x ≠ lit "." → x ≠ lit ".." →
      spelling (l ++ x :: lit ".." :: r) (l ++ r).

(** A normal stack: climbs first, then names. *)
Definition is_normal (l : list str) : Prop :=
  ∃ n names, l = replicate n (lit "..") ++ names ∧
    Forall (λ x, x ≠ [] ∧ x ≠ lit "." ∧ x ≠ lit "..") names.

Lemma push_component_spec acc x : is_normal acc →
  is_normal (push_component acc x) ∧ rtc spelling (acc ++ [x]) (push_component acc x).
Proof.
  intros (n & names & -> & Hn). unfold push_component.
  destruct (bool_decide_reflect (x = [] ∨ x = lit ".")) as [Hx|Hx].
  { split; [by exists n, names|]. rewrite <- (app_nil_r (replicate n _ ++ names)) at 2.
    apply rtc_once. destruct Hx as [->| ->]; constructor. }
  assert (x ≠ [] ∧ x ≠ lit ".") as [Hx1 Hx2] by (split; intros ->; apply Hx; auto).
  destruct (bool_decide_reflect (x = lit "..")) as [->|Hx3].
  - destruct names as [|y names _] using rev_ind.
    + rewrite app_nil_r. destruct n as [|n]; [split; [by exists 1%nat, []|done]|].
      rewrite replicate_S_end, reverse_snoc, bool_decide_eq_true_2 by done.
      rewrite <- replicate_S_end. split; [|done].
      exists (S (S n)), []. split; [|done]. by rewrite app_nil_r, (replicate_S_end (S n)).
    + apply Forall_app in Hn as [Hn (Hy1 & Hy2 & Hy3)%Forall_singleton].
      rewrite (assoc_L (++)), reverse_snoc, reverse_involutive, bool_decide_eq_false_2 by done.
      split; [by exists n, names|]. rewrite <- (app_nil_r (replicate n _ ++ names)) at 2.
      rewrite <- (assoc_L (++)). by apply rtc_once, spelling_up.
  - split; [|done]. exists n, (names ++ [x]). split; [by rewrite (assoc_L (++))|].
    apply Forall_app. split; [done|]. by apply Forall_singleton.
Qed.

Lemma spelling_app l k r : spelling l k → spelling (l ++ r) (k ++ r).
Proof.
  destruct 1; rewrite <- !(assoc_L (++)); cbn [app]; by constructor.
Qed.
Lemma rtc_spelling_app l k r : rtc spelling l k → rtc spelling (l ++ r) (k ++ r).
Proof. induction 1; [done|]. eapply rtc_l; [by apply spelling_app|done]. Qed.

Lemma resolve_from acc l : is_normal acc →
  is_normal (foldl push_component acc l) ∧ rtc spelling (acc ++ l) (foldl push_component acc l).
Proof.
  revert acc. induction l as [|x l IH]; intros acc Ha; [by rewrite app_nil_r|].
  destruct (push_component_spec acc x Ha) as [Hn Hs]. cbn. destruct (IH _ Hn) as [Hn' Hs'].
  split; [done|]. rewrite (cons_middle x acc l), (assoc_L (++)).
  etrans; [by apply rtc_spelling_app|done].
Qed.
Lemma nil_normal : is_normal [].
Proof. by exists 0%nat, []. Qed.

(** A step does not change what a path resolves to. *)
Lemma resolve_spelling l k : spelling l k → resolve l = resolve k.
Proof.
  (* the first two cases compute *)
  destruct 1 as [l r|l r|l x r H1 H2 H3]; unfold resolve; rewrite !foldl_app; cbn [foldl]; f_equal;
    generalize (foldl push_component [] l) as acc; intros acc; unfold push_component.
  rewrite (bool_decide_eq_false_2 (x = [] ∨ _)) by (intros [?|?]; done).
  rewrite (bool_decide_eq_false_2 (x = _)) by done.
  rewrite (bool_decide_eq_false_2 (lit ".." = [] ∨ _)) by (intros [?|?]; done).
  rewrite (bool_decide_eq_true_2 (lit ".." = _)) by done.
  by rewrite reverse_snoc, reverse_involutive, bool_decide_eq_false_2.
Qed.

(** The key spells its components. *)
Definition no_separator (x : str) : Prop := 47 ∉ x ∧ x ≠ [].
Lemma join_path_inj l k : Forall no_separator l → Forall no_separator k → join_path l = join_path k → l = k.
Proof.
  intros Hl. revert k. induction Hl as [|x l [Hx Hx0] Hl IH]; intros k Hk E.
  { destruct Hk as [|y k [_ Hy] Hk]; [done|]. destruct k; cbn in E; [by subst|].
    symmetry in E. by apply app_nil in E as [? _]. }
  destruct Hk as [|y k [Hy Hy0] Hk].
  { destruct l; cbn in E; [by subst|]. by apply app_nil in E as [? _]. }
  destruct l as [|x' l], k as [|y' k]; cbn [join_path] in E.
  - by subst.
  - exfalso. apply Hx. rewrite E. apply elem_of_app. right. by left.
  - exfalso. apply Hy. rewrite <- E. apply elem_of_app. right. by left.
  - apply before_first in E as [-> E]; [|done..]. f_equal. by apply IH.
Qed.

Lemma split_path_separators s x : x ∈ split_path s → 47 ∉ x.
Proof.
  revert x. induction s as [|c s IH]; intros x; cbn.
  { rewrite list_elem_of_singleton. intros ->. apply not_elem_of_nil. }
  destruct (is_separator c) eqn:E.
  { rewrite elem_of_cons. intros [->|Hx]; [apply not_elem_of_nil|by apply IH]. }
  unfold is_separator in E. destruct (split_path s) as [|w ws]; rewrite elem_of_cons.
  - intros [->|Hx]; [|by apply elem_of_nil in Hx]. rewrite list_elem_of_singleton. lia.
  - intros [->|Hx]; [|apply IH; by right]. rewrite not_elem_of_cons. split; [lia|]. apply IH. by left.
Qed.
Lemma resolve_from_elems (P : str → Prop) l acc : P (lit "..") → Forall P acc →
  Forall (λ x, x = [] ∨ P x) l → Forall P (foldl push_component acc l).
Proof.
  intros Hup Hacc Hl. revert acc Hacc. induction Hl as [|x l Hx _ IH]; intros acc Hacc; [done|].
  cbn. apply IH. unfold push_component.
  destruct (bool_decide_reflect (x = [] ∨ x = lit ".")) as [|Hne]; [done|].
  assert (P x) as HP by (destruct Hx; naive_solver).
  destruct (bool_decide (x = lit "..")).
  - destruct (reverse acc) as [|y earlier] eqn:E; [apply Forall_app; split; [done|by constructor]|].
    apply (f_equal reverse) in E. rewrite reverse_involutive, reverse_cons in E. subst acc.
    destruct (bool_decide _); [apply Forall_app; split; [done|by constructor]|].
    by apply Forall_app in Hacc as [? _].
  - apply Forall_app. split; [done|]. by constructor.
Qed.
Lemma resolve_no_separator s : Forall no_separator (resolve (split_path s)).
Proof.
  apply resolve_from_elems; [split; [|done]|done|].
  - change (lit "..") with [46; 46]. rewrite !not_elem_of_cons. split_and!; [done..|]. apply not_elem_of_nil.
  - apply Forall_forall. intros x Hx. destruct (decide (x = [])); [by left|]. right.
    split; [by eapply split_path_separators|done].
Qed.

(** Two spellings of a path queue their edits together precisely when lexical
    normalization identifies them: from the components of one — split at either slash,
    below the workspace root when relative — dropping empty components and [.], and a
    component with the [..] that undoes it, back and forth, leads to those of the other. *)
Theorem schedule_key_spellings p q workspace_paths :
  schedule_key p workspace_paths = schedule_key q workspace_paths ↔
  rtsc spelling (split_path (rooted p workspace_paths)) (split_path (rooted q workspace_paths)).
Proof.
  unfold schedule_key. set (l := split_path (rooted p workspace_paths)).
  set (k := split_path (rooted q workspace_paths)). split.
  - intros E. apply join_path_inj in E; [|apply resolve_no_separator..].
    destruct (resolve_from [] l nil_normal) as [_ Hl]. destruct (resolve_from [] k nil_normal) as [_ Hk].
    cbn [app] in Hl, Hk. etrans; [by apply rtc_rtsc_rl, Hl|]. fold (resolve l) (resolve k) in *. rewrite E.
    by apply rtc_rtsc_lr.
  - intros H. f_equal. induction H as [|a b c [H|H] _ IH]; [done|..]; rewrite <- IH.
    + by apply resolve_spelling.
    + symmetry. by apply resolve_spelling.
Qed.

(** ** Samples *)
Module EditSamples.
Definition call (nm : string) (members : list (str * json)) : ToolCall :=
  MkToolCall 0 (lit "c1") (lit "m1") (lit nm) [] (JObject members) None.
Definition replace_call : ToolCall :=
  call "StrReplace" [(lit "path", JString (lit "a")); (lit "old_string", JString (lit "b"));
                     (lit "new_string", JString (lit "xy"))].
Definition notebook_call : ToolCall :=
  call "EditNotebook" [(lit "cell_idx", JNumber (lit "1")); (lit "old_string", JString (lit "b"));
                       (lit "new_string", JString (lit "xy"))].
Definition cell (source : string) : json :=
  JObject [(lit "cell_type", JString (lit "code")); (lit "source", JArray [JString (lit source)])].
(** Different spellings of one file of the workspace [/w]. *)
Definition key (p : string) : str := schedule_key (lit p) [lit "/w/"].
End EditSamples.

Example spellings_of_one_file :
  EditSamples.key "src/a" = lit "w/src/a" ∧ EditSamples.key "./src\x/../a" = lit "w/src/a" ∧
  EditSamples.key "/w//src/a" = lit "w/src/a".
Proof. by vm_compute. Qed.

Lemma str_replace_spec_witness :
  replace_string EditSamples.replace_call (lit "abc") = Ok (lit "axyc") ∧
  ∃ a b, lit "abc" = a ++ lit "b" ++ b ∧ lit "axyc" = a ++ lit "xy" ++ b ∧
    ∀ a' b', lit "abc" = a' ++ lit "b" ++ b' → (length a ≤ length a' < length a + 1)%nat.
Proof.
  assert (replace_string EditSamples.replace_call (lit "abc") = Ok (lit "axyc")) as E by reflexivity.
  split; [exact E|].
  apply (proj1 (str_replace_spec EditSamples.replace_call (lit "abc") (lit "b") (lit "xy")
           eq_refl eq_refl ltac:(discriminate) eq_refl) (lit "axyc")). exact E.
Defined.

Lemma edit_notebook_one_cell_witness :
  ∃ i cell cell', [EditSamples.cell "a"; EditSamples.cell "bc"] !! i = Some cell ∧
    cell_text cell = Ok (lit "bc") ∧ cell_text cell' = Ok (lit "xyc") ∧
    get_member "cell_type" cell' = get_member "cell_type" cell.
Proof.
  destruct (@edit_notebook_one_cell ToolStreamSamples.numbers EditSamples.notebook_call
    [EditSamples.cell "a"; EditSamples.cell "bc"] [EditSamples.cell "a"; EditSamples.cell "xyc"]
    eq_refl) as (new & _ & i & cell & cell' & _ & _ & _ & H1 & H2 & _ & _ & _ & H6).
  exists i, cell, cell'. split; [exact H1|].
  destruct i as [|[|i]]; [| |discriminate H1].
  - exfalso. discriminate H2.
  - injection H1 as <-. injection H2 as <-. split; [reflexivity|]. split; [reflexivity|]. reflexivity.
Defined.

Lemma edit_normalizes_newlines_witness :
  (let w := MkWrite (lit "b") (lit "xy") in 13 ∉ before w) ∧ 13 ∉ lit "xy".
Proof.
  destruct (@edit_normalizes_newlines External.Samples.tiny_json ToolStreamSamples.numbers (λ _, Ok [])
    EditSamples.replace_call (Some (ReadSuccess false (Some (ReadContent (lit "b")))))
    (MkWrite (lit "b") (lit "xy")) eq_refl) as [H1 H2].
  split; [exact H1|exact (H2 eq_refl)].
Defined.
