(* ===== verification/Schedule.v ===== *)
(** * Schedule: edits of one file run one after the other

    server/src/cursor/tools/schedule.rs and the context of an execution of
    server/src/cursor/tools/runtime.rs.  [start_or_defer] starts an edit or queues it
    behind the one that has its path, [complete] hands the path to the next.

    Theorem [edits_serialized]: along any history of the schedule, between two
    interruptions, which empty it. *)

From stdpp Require Import prelude gmap strings list.
From S2P Require Import Prelude Errors External Message.
Local Open Scope Z_scope.

(** server/src/cursor/tools/runtime.rs:64-69, [McpRoute]. *)
Record McpRoute : Type := MkRoute {
  route_name : str; route_provider_identifier : str; route_tool_name : str; route_description : str
}.
(** server/src/cursor/tools/runtime.rs:72-75, [SubagentModel]. *)
Inductive SubagentModel : Type := SubModel (model : str) | SubDisabled.

(** server/src/cursor/tools/runtime.rs:47-61, [ExecContext]. *)
Record ExecContext : Type := MkContext {
  cx_conversation_id : str;
  cx_root_conversation_id : str;
  default_subagent_model : str;
  subagent_model : option SubagentModel;
  allow_subagents : bool;
  subagents_disabled : bool;
  terminals_folder : str;
  workspace_paths : list str;
  admin_command_denylist : list str;
  mcp_routes : gmap (str * str) McpRoute
}.

(** server/src/cursor/tools/schedule.rs:19-23, [DeferredEdit]. *)
Record DeferredEdit : Type := MkDeferred {
  d_call : ToolCall; message_index : Z; d_context : ExecContext
}.
(** server/src/cursor/tools/schedule.rs:14-17, [EditPathQueue]. *)
Record EditPathQueue : Type := MkQueue { active_call_id : str; waiting : list DeferredEdit }.
(** server/src/cursor/tools/schedule.rs:9-12, [EditSchedule]. *)
Record EditSchedule : Type := MkSchedule {
  paths : gmap str EditPathQueue; active_paths : gmap str str
}.

Definition empty_schedule : EditSchedule := MkSchedule ∅ ∅.
(** The call of an edit. *)
Definition edit_id (e : DeferredEdit) : str := call_id (d_call e).

(** server/src/cursor/tools/schedule.rs:26-29, [EditSchedule::clear]. *)
Definition clear_schedule (s : EditSchedule) : EditSchedule := empty_schedule.

(** server/src/cursor/tools/schedule.rs:31-46, [EditSchedule::start_or_defer]. *)
Definition start_or_defer (path : str) (edit : DeferredEdit) (s : EditSchedule)
    : EditSchedule * option DeferredEdit :=
  match paths s !! path with
  | Some queue =>
      (MkSchedule (<[path := MkQueue (active_call_id queue) (waiting queue ++ [edit])]> (paths s))
         (active_paths s), None)
  | None =>
      (MkSchedule (<[path := MkQueue (edit_id edit) []]> (paths s))
         (<[edit_id edit := path]> (active_paths s)), Some edit)
  end.

(** server/src/cursor/tools/schedule.rs:48-72, [EditSchedule::complete]. *)
Definition complete (id : str) (s : EditSchedule) : EditSchedule * res (option DeferredEdit) :=
  match active_paths s !! id with
  | None => (s, Ok None)
  | Some path =>
      let active := delete id (active_paths s) in
      match paths s !! path with
      | None => (MkSchedule (paths s) active,
                 Err (Protocol (lit "active edit path disappeared for call " ++ id)))
      | Some queue =>
          if decide (active_call_id queue = id) then
            match waiting queue with
            | next :: rest =>
                (MkSchedule (<[path := MkQueue (edit_id next) rest]> (paths s))
                   (<[edit_id next := path]> active), Ok (Some next))
            | [] => (MkSchedule (delete path (paths s)) active, Ok None)
            end
          else
            (MkSchedule (paths s) active,
             Err (Protocol (lit "edit path is active for " ++ active_call_id queue ++ lit ", not " ++ id)))
      end
  end.

(** ** Histories

    What happened so far: since the last interruption, the edits submitted and the ones
    started, each with its path; the calls that completed; and the calls that were submitted
    before that interruption. *)
Record History : Type := MkHistory {
  schedule : EditSchedule;
  submitted : list (str * DeferredEdit);
  started : list (str * DeferredEdit);
  completed : gset str;
  past : gset str
}.
Definition empty_history : History := MkHistory empty_schedule [] [] ∅ ∅.

(** The calls that were submitted, and started. *)
Definition ids (edits : list (str * DeferredEdit)) : list str := (λ e, edit_id (snd e)) <$> edits.

Definition submit (path : str) (edit : DeferredEdit) (h : History) : History :=
  let '(s, e) := start_or_defer path edit (schedule h) in
  MkHistory s (submitted h ++ [(path, edit)])
    (started h ++ match e with Some e => [(path, e)] | None => [] end) (completed h) (past h).
Definition finish (id : str) (h : History) : History :=
  let '(s, r) := complete id (schedule h) in
  MkHistory s (submitted h)
    (started h ++ match r with
                  | Ok (Some e) => [(default [] (active_paths (schedule h) !! id), e)]
                  | _ => []
                  end)
    ({[id]} ∪ completed h) (past h).
(** server/src/cursor/tools/mod.rs:219-222, [interrupt_for_message]: a message interrupts the
    executions, whose calls may complete later all the same. *)
Definition interrupt (h : History) : History :=
  MkHistory (clear_schedule (schedule h)) [] [] (completed h) (past h ∪ list_to_set (ids (submitted h))).

(** One use of the schedule: a call is submitted once, what completes is not an edit
    that still waits - it may be one from before an interruption -, and a message may
    interrupt everything. *)
Inductive schedule_step (h : History) : History → Prop :=
  | step_submit path edit : edit_id edit ∉ ids (submitted h) → edit_id edit ∉ completed h → edit_id edit ∉ past h →
      schedule_step h (submit path edit h)
  | step_finish id : (id ∈ ids (submitted h) → id ∈ ids (started h)) → schedule_step h (finish id h)
  | step_interrupt : schedule_step h (interrupt h).

(** The edits of one path. *)
Definition of_path (path : str) (edits : list (str * DeferredEdit)) : list DeferredEdit :=
  snd <$> filter (λ e, fst e = path) edits.

Lemma of_path_app path l k : of_path path (l ++ k) = of_path path l ++ of_path path k.
Proof. unfold of_path. by rewrite filter_app, fmap_app. Qed.
Lemma of_path_same path e : of_path path [(path, e)] = [e].
Proof. unfold of_path. by rewrite filter_cons_True. Qed.
Lemma of_path_other path path' e : path' ≠ path → of_path path [(path', e)] = [].
Proof. intros H. unfold of_path. by rewrite filter_cons_False. Qed.
Lemma of_path_elem path e edits : e ∈ of_path path edits ↔ (path, e) ∈ edits.
Proof.
  unfold of_path. rewrite list_elem_of_fmap. split.
  - intros ([p x] & -> & H). apply list_elem_of_filter in H as [E H]. cbn in *. by subst.
  - intros H. exists (path, e). split; [done|]. by apply list_elem_of_filter.
Qed.
Lemma ids_app l k : ids (l ++ k) = ids l ++ ids k.
Proof. apply fmap_app. Qed.
Lemma ids_elem id l : id ∈ ids l ↔ ∃ path e, (path, e) ∈ l ∧ edit_id e = id.
Proof.
  unfold ids. rewrite list_elem_of_fmap. split.
  - intros ([path e] & -> & H). by exists path, e.
  - intros (path & e & H & <-). by exists (path, e).
Qed.

(** The state of a path between two uses. *)
Definition path_ok (path : str) (h : History) : Prop :=
  match paths (schedule h) !! path with
  | None => of_path path (submitted h) = of_path path (started h) ∧
            ∀ e, e ∈ of_path path (started h) → edit_id e ∈ completed h
  | Some q => ∃ earlier e,
      of_path path (started h) = earlier ++ [e] ∧ edit_id e = active_call_id q ∧
      edit_id e ∉ completed h ∧ (∀ d, d ∈ earlier → edit_id d ∈ completed h) ∧
      of_path path (submitted h) = earlier ++ e :: waiting q
  end.
Record schedule_ok (h : History) : Prop := MkScheduleOk {
  so_nodup : NoDup (ids (submitted h));
  so_path path : path_ok path h;
  so_active id path : active_paths (schedule h) !! id = Some path ↔
    ∃ q, paths (schedule h) !! path = Some q ∧ active_call_id q = id;
  so_completed id : id ∈ completed h → id ∈ ids (submitted h) → id ∈ ids (started h);
  so_past id : id ∈ past h → id ∉ ids (submitted h)
}.

Lemma empty_ok : schedule_ok empty_history.
Proof.
  split; [by apply NoDup_nil|intros path; split; [done|set_solver]| |set_solver|set_solver].
  intros id path. cbn. rewrite !lookup_empty. split; [done|]. by intros (q & ? & _).
Qed.

(** An edit was submitted to one path. *)
Lemma submitted_once h path path' e e' : schedule_ok h →
  e ∈ of_path path (submitted h) → e' ∈ of_path path' (submitted h) → edit_id e = edit_id e' → path = path'.
Proof.
  intros H. rewrite !of_path_elem. intros H1 H2 E. pose proof (so_nodup h H) as Hnd.
  apply list_elem_of_lookup in H1 as [i Hi], H2 as [j Hj].
  assert (i = j) as ->; [|congruence].
  eapply NoDup_lookup; [exact Hnd|..]; unfold ids; rewrite list_lookup_fmap, ?Hi, ?Hj; cbn; [done|by rewrite E].
Qed.
(** The edits that started or wait were submitted. *)
Lemma queue_submitted h path q : schedule_ok h → paths (schedule h) !! path = Some q →
  ∃ e, e ∈ of_path path (submitted h) ∧ edit_id e = active_call_id q.
Proof.
  intros H Hq. pose proof (so_path h H path) as Hp. unfold path_ok in Hp. rewrite Hq in Hp.
  destruct Hp as (earlier & e & _ & E & _ & _ & Hs). exists e. rewrite Hs. split; [set_solver|done].
Qed.
Lemma active_unique h path path' q q' : schedule_ok h → paths (schedule h) !! path = Some q →
  paths (schedule h) !! path' = Some q' → active_call_id q = active_call_id q' → path = path'.
Proof.
  intros H H1 H2 E. destruct (queue_submitted h path q H H1) as (e1 & S1 & E1).
  destruct (queue_submitted h path' q' H H2) as (e2 & S2 & E2).
  eapply submitted_once; [exact H|exact S1|exact S2|congruence].
Qed.

Lemma submit_ok path edit h : schedule_ok h → edit_id edit ∉ ids (submitted h) →
  edit_id edit ∉ completed h → edit_id edit ∉ past h → schedule_ok (submit path edit h).
Proof.
  intros H Hfresh Hnew Hpast. unfold submit, start_or_defer. pose proof (so_path h H path) as Hp.
  unfold path_ok in Hp. destruct (paths (schedule h) !! path) as [q|] eqn:Eq.
  - rewrite app_nil_r. split; cbn [schedule submitted started completed paths active_paths past].
    + rewrite ids_app. apply NoDup_app. split; [apply H|]. split; [set_solver|apply NoDup_singleton].
    + intros p. unfold path_ok. cbn [schedule submitted started completed paths].
      destruct (decide (p = path)) as [->|Hne].
      * rewrite lookup_insert_eq. destruct Hp as (earlier & e & H1 & H2 & H3 & H4 & H5).
        exists earlier, e. split_and!; try done. cbn [waiting].
        rewrite of_path_app, of_path_same, H5, <- (assoc_L (++)). done.
      * rewrite lookup_insert_ne, of_path_app, of_path_other, app_nil_r by done. apply (so_path h H p).
    + intros id p. rewrite (so_active h H id p). destruct (decide (p = path)) as [->|Hne].
      * rewrite lookup_insert_eq, Eq. split; intros (? & [= <-] & <-); by eexists.
      * by rewrite lookup_insert_ne.
    + intros id Hc. rewrite ids_app, elem_of_app. intros [Hs|Hs]; [by apply (so_completed h H)|].
      apply list_elem_of_singleton in Hs as ->. done.
    + intros id Hc. rewrite ids_app. pose proof (so_past h H id Hc). set_solver.
  - split; cbn [schedule submitted started completed paths active_paths past].
    + rewrite ids_app. apply NoDup_app. split; [apply H|]. split; [set_solver|apply NoDup_singleton].
    + intros p. unfold path_ok. cbn [schedule submitted started completed paths].
      destruct (decide (p = path)) as [->|Hne].
      * rewrite lookup_insert_eq. destruct Hp as [H1 H2]. exists (of_path path (started h)), edit.
        rewrite !of_path_app, of_path_same, H1. by split_and!.
      * rewrite lookup_insert_ne, !of_path_app, !of_path_other, !app_nil_r by done. apply (so_path h H p).
    + intros id p. destruct (decide (id = edit_id edit)) as [->|Hid].
      * rewrite lookup_insert_eq. split; [intros [= <-]; rewrite lookup_insert_eq; by eexists|].
        intros (q & Hq & Eid). destruct (decide (p = path)) as [->|Hne]; [done|].
        rewrite lookup_insert_ne in Hq by done. destruct (queue_submitted h p q H Hq) as (e & He & Ee).
        exfalso. apply Hfresh, ids_elem. exists p, e. rewrite <- of_path_elem. split; [done|congruence].
      * rewrite lookup_insert_ne, (so_active h H id p) by done. destruct (decide (p = path)) as [->|Hne].
        -- rewrite lookup_insert_eq, Eq. split; [by intros (? & ? & _)|]. intros (q & [= <-] & E). done.
        -- by rewrite lookup_insert_ne.
    + intros id Hc. rewrite !ids_app, !elem_of_app. intros [Hs|Hs]; [left; by apply (so_completed h H)|by right].
    + intros id Hc. rewrite ids_app. pose proof (so_past h H id Hc). set_solver.
Qed.

Lemma started_submitted h path : schedule_ok h →
  of_path path (started h) `prefix_of` of_path path (submitted h).
Proof.
  intros H. pose proof (so_path h H path) as Hp. unfold path_ok in Hp.
  destruct (paths (schedule h) !! path) as [q|]; [|by destruct Hp as [-> _]].
  destruct Hp as (earlier & e & -> & _ & _ & _ & ->). exists (waiting q). by rewrite <- (assoc_L (++)).
Qed.
Lemma of_path_nodup h path : schedule_ok h → NoDup (edit_id <$> of_path path (submitted h)).
Proof.
  intros H. pose proof (so_nodup h H) as Hnd. unfold ids, of_path in *. rewrite <- list_fmap_compose.
  revert Hnd. induction (submitted h) as [|[p e] l IH]; intros Hnd; [by apply NoDup_nil|].
  cbn in Hnd. apply NoDup_cons in Hnd as [Hn Hnd]. specialize (IH Hnd). rewrite filter_cons.
  case_decide; [|done]. cbn. apply NoDup_cons. split; [|done]. intros Hin. apply Hn.
  apply list_elem_of_fmap in Hin as ([p' e'] & E & Hin). apply list_elem_of_filter in Hin as [_ Hin].
  apply list_elem_of_fmap. by exists (p', e').
Qed.

(** An edit that waits has not completed. *)
Lemma waiting_pending h path q e : schedule_ok h → paths (schedule h) !! path = Some q →
  e ∈ waiting q → edit_id e ∉ completed h ∧ edit_id e ∉ ids (started h) ∧ edit_id e ≠ active_call_id q.
Proof.
  intros H Hq He. pose proof (so_path h H path) as Hp. unfold path_ok in Hp. rewrite Hq in Hp.
  destruct Hp as (earlier & e0 & H1 & H2 & _ & _ & H5). pose proof (of_path_nodup h path H) as Hnd.
  rewrite H5, fmap_app in Hnd. cbn in Hnd. apply NoDup_app in Hnd as (_ & Hdis & Hnd).
  apply NoDup_cons in Hnd as [Hn Hnd].
  assert (edit_id e ∈ edit_id <$> waiting q) as Hw by (apply list_elem_of_fmap; by exists e).
  assert (e ∈ of_path path (submitted h)) as Hs by (rewrite H5; set_solver).
  assert (edit_id e ∉ ids (started h)) as Hns.
  { intros (path' & e' & Hin & E)%ids_elem. rewrite <- of_path_elem in Hin.
    assert (e' ∈ of_path path' (submitted h)) as Hin'.
    { destruct (started_submitted h path' H) as [k ->]. set_solver. }
    assert (path' = path) as -> by (eapply submitted_once; [exact H|exact Hin'|exact Hs|done]).
    rewrite H1 in Hin. apply elem_of_app in Hin as [Hin|Hin%list_elem_of_singleton].
    - eapply Hdis; [apply list_elem_of_fmap; exists e'; split; [symmetry; exact E|exact Hin]|]. by right.
    - subst e'. apply Hn. by rewrite E. }
  split_and!; [|done|].
  - intros Hc. apply Hns. apply (so_completed h H); [done|]. apply ids_elem. exists path, e.
    by rewrite <- of_path_elem.
  - intros E. apply Hn. by rewrite H2, <- E.
Qed.

Lemma finish_ok id h : schedule_ok h → (id ∈ ids (submitted h) → id ∈ ids (started h)) →
  schedule_ok (finish id h) ∧ ∃ next, (complete id (schedule h)).2 = Ok next.
Proof.
  intros H Hid. unfold finish, complete. destruct (active_paths (schedule h) !! id) as [path|] eqn:Ea.
  2:{ split; [|by eexists]. rewrite app_nil_r. split; cbn [schedule submitted started completed past];
        [apply H| |apply H|intros i [->%elem_of_singleton|?]%elem_of_union Hs; [by apply Hid|by apply (so_completed h H)]|apply H].
      intros p. pose proof (so_path h H p) as Hp. unfold path_ok in *. cbn [schedule submitted started completed].
      destruct (paths (schedule h) !! p) as [q|] eqn:Eq; [|split; [apply Hp|set_solver]].
      destruct Hp as (earlier & e & H1 & H2 & H3 & H4 & H5). exists earlier, e. split_and!; try done; [|set_solver].
      apply not_elem_of_union. split; [|done]. apply not_elem_of_singleton. intros <-.
      assert (active_paths (schedule h) !! active_call_id q = Some p); [|congruence].
      apply (so_active h H). by exists q. }
  apply (so_active h H) in Ea as Ha. destruct Ha as (q & Eq & <-). rewrite Eq, decide_True by done.
  pose proof (so_path h H path) as Hp. unfold path_ok in Hp. rewrite Eq in Hp.
  destruct Hp as (earlier & e & H1 & H2 & H3 & H4 & H5).
  assert (∀ p q', p ≠ path → paths (schedule h) !! p = Some q' → active_call_id q' ≠ active_call_id q) as Hother.
  { intros p q' Hne Hq' E. apply Hne. by eapply active_unique. }
  assert (∀ p, p ≠ path → path_ok p h →
    ∀ s started', (paths s !! p = paths (schedule h) !! p) → of_path p started' = of_path p (started h) →
    path_ok p (MkHistory s (submitted h) started' ({[active_call_id q]} ∪ completed h) (past h))) as Hkeep.
  { intros p Hne Hp s started' Es Est. unfold path_ok in *. cbn [schedule submitted started completed].
    rewrite Es, Est. destruct (paths (schedule h) !! p) as [q'|] eqn:Eq'; [|split; [apply Hp|set_solver]].
    destruct Hp as (earlier' & e' & G1 & G2 & G3 & G4 & G5). exists earlier', e'. split_and!; try done; [|set_solver].
    apply not_elem_of_union. split; [|done]. rewrite G2, not_elem_of_singleton. by eapply Hother. }
  destruct (waiting q) as [|next rest] eqn:Ew; (split; [|by eexists]); rewrite ?app_nil_r.
  - split; cbn [schedule submitted started completed paths active_paths past].
    + apply H.
    + intros p. destruct (decide (p = path)) as [->|Hne].
      * unfold path_ok. cbn [schedule submitted started completed paths]. rewrite lookup_delete_eq.
        split; [by rewrite H1, H5|]. rewrite H1. intros d [Hd|Hd%list_elem_of_singleton]%elem_of_app;
          [set_solver|]. subst d. rewrite H2. set_solver.
      * apply Hkeep; [done|apply (so_path h H)| |done]. cbn. by rewrite lookup_delete_ne.
    + intros i p. destruct (decide (i = active_call_id q)) as [->|Hi].
      * rewrite lookup_delete_eq. split; [done|]. intros (q' & Hq' & E).
        destruct (decide (p = path)) as [->|Hne]; [by rewrite lookup_delete_eq in Hq'|].
        rewrite lookup_delete_ne in Hq' by done. by eapply Hother in E.
      * rewrite lookup_delete_ne, (so_active h H i p) by done. destruct (decide (p = path)) as [->|Hne].
        -- rewrite lookup_delete_eq, Eq. split; [intros (? & [= <-] & E); congruence|by intros (? & ? & _)].
        -- by rewrite lookup_delete_ne.
    + intros i [->%elem_of_singleton|?]%elem_of_union Hs; [by apply Hid|by apply (so_completed h H)].
    + apply H.
  - destruct (waiting_pending h path q next H Eq) as (N1 & N2 & N3); [rewrite Ew; by left|].
    cbn [default from_option].
    split; cbn [schedule submitted started completed paths active_paths past].
    + apply H.
    + intros p. destruct (decide (p = path)) as [->|Hne].
      * unfold path_ok. cbn [schedule submitted started completed paths]. rewrite lookup_insert_eq.
        exists (earlier ++ [e]), next. rewrite of_path_app, of_path_same, H1, H5. cbn [active_call_id waiting].
        split_and!; [done|done|set_solver| |by rewrite <- (assoc_L (++))].
        intros d [Hd|Hd%list_elem_of_singleton]%elem_of_app; [set_solver|]. subst d. rewrite H2. set_solver.
      * apply Hkeep; [done|apply (so_path h H)|cbn; by rewrite lookup_insert_ne|].
        by rewrite of_path_app, of_path_other, app_nil_r.
    + intros i p. destruct (decide (i = edit_id next)) as [->|Hi].
      * rewrite lookup_insert_eq. split; [intros [= <-]; rewrite lookup_insert_eq; by eexists|].
        intros (q' & Hq' & E). destruct (decide (p = path)) as [->|Hne]; [done|].
        rewrite lookup_insert_ne in Hq' by done. destruct (queue_submitted h p q' H Hq') as (e' & He' & Ee').
        exfalso. apply Hne. apply (submitted_once h p path e' next H He'); [|congruence].
        rewrite H5. set_solver.
      * rewrite lookup_insert_ne by done. destruct (decide (i = active_call_id q)) as [->|Hi'].
        -- rewrite lookup_delete_eq. split; [done|]. intros (q' & Hq' & E).
           destruct (decide (p = path)) as [->|Hne];
             [rewrite lookup_insert_eq in Hq'; injection Hq' as <-; cbn in E; congruence|].
           rewrite lookup_insert_ne in Hq' by done. by eapply Hother in E.
        -- rewrite lookup_delete_ne, (so_active h H i p) by done. destruct (decide (p = path)) as [->|Hne].
           ++ rewrite lookup_insert_eq, Eq. split; intros (? & [= <-] & E); [congruence|].
              cbn in E. congruence.
           ++ by rewrite lookup_insert_ne.
    + intros i Hc Hs. rewrite ids_app, elem_of_app.
      apply elem_of_union in Hc as [->%elem_of_singleton|?]; left; [by apply Hid|by apply (so_completed h H)].
    + apply H.
Qed.

Lemma interrupt_ok h : schedule_ok h → schedule_ok (interrupt h).
Proof.
  intros H. split; cbn; [by apply NoDup_nil|by intros path; split; [done|set_solver]| |set_solver|set_solver].
  intros id path. rewrite !lookup_empty. split; [done|]. by intros (q & ? & _).
Qed.
(** A call from before the interruption has no path any more. *)
Lemma past_inactive h id : schedule_ok h → id ∈ past h → complete id (schedule h) = (schedule h, Ok None).
Proof.
  intros H Hp. unfold complete. destruct (active_paths (schedule h) !! id) as [path|] eqn:Ea; [|done]. exfalso.
  apply (so_active h H) in Ea as (q & Hq & E). destruct (queue_submitted h path q H Hq) as (e & He & Ee).
  apply (so_past h H id Hp), ids_elem. exists path, e. rewrite <- of_path_elem. split; [done|congruence].
Qed.

Lemma history_ok h : rtc schedule_step empty_history h → schedule_ok h.
Proof.
  apply (rtc_ind_r (λ h, schedule_ok h)); [apply empty_ok|].
  intros h1 h2 _ [path edit Hf Hn Hp|id Hid|] IH; [by apply submit_ok|by apply finish_ok|by apply interrupt_ok].
Qed.

(** C38: Between two interruptions, edits of one file run one after the other, in the order they were asked for.
    At every point of a history in which call ids are submitted once, the edits of a path that
    started since the last interruption are the first ones submitted for it since, and each of them but
    the last has completed before the next started; when all that started have completed none is left waiting;
    completing a call is never refused; and a call from before the interruption, which may still run and
    complete late, changes nothing. *)
Theorem edits_serialized h path id : rtc schedule_step empty_history h →
  of_path path (started h) `prefix_of` of_path path (submitted h) ∧
  (∀ i e e', of_path path (started h) !! i = Some e → of_path path (started h) !! S i = Some e' →
     edit_id e ∈ completed h) ∧
  ((∀ e, e ∈ of_path path (started h) → edit_id e ∈ completed h) →
     of_path path (started h) = of_path path (submitted h)) ∧
  ((id ∈ ids (submitted h) → id ∈ ids (started h)) →
     ∃ next, (complete id (schedule h)).2 = Ok next) ∧
  (id ∈ past h → complete id (schedule h) = (schedule h, Ok None) ∧ id ∉ ids (submitted h)).
Proof.
  intros H%history_ok. pose proof (so_path h H path) as Hp. unfold path_ok in Hp. split_and!.
  - by apply started_submitted.
  - intros i e e' Hi Hi'. destruct (paths (schedule h) !! path) as [q|].
    + destruct Hp as (earlier & last & E & _ & _ & Hall & _). rewrite E in Hi, Hi'.
      apply Hall. assert (S i < length (earlier ++ [last]))%nat as Hl by by eapply lookup_lt_Some.
      rewrite length_app in Hl. cbn in Hl. rewrite lookup_app_l in Hi by lia. by eapply list_elem_of_lookup_2.
    + apply Hp. by eapply list_elem_of_lookup_2.
  - intros Hall. destruct (paths (schedule h) !! path) as [q|]; [|symmetry; apply Hp].
    destruct Hp as (earlier & e & E & _ & Hn & _). exfalso. apply Hn, Hall. rewrite E. set_solver.
  - intros Hid. by apply finish_ok.
  - intros Hpast. split; [by apply past_inactive|by apply (so_past h H)].
Qed.

(** ** Samples *)
Module ScheduleSamples.
Definition context : ExecContext := MkContext [] [] [] None false false [] [] [] ∅.
Definition edit (id : string) : DeferredEdit :=
  MkDeferred (MkToolCall 0 (lit id) [] (lit "Write") [] JNull None) 1 context.
(** An edit that starts and is interrupted, then two edits of its file; the interrupted one completes late,
    the first of the others completes and the second starts. *)
Definition interrupted : History := interrupt (submit (lit "f") (edit "c0") empty_history).
Definition history : History :=
  finish (lit "c1") (finish (lit "c0") (submit (lit "f") (edit "c2") (submit (lit "f") (edit "c1") interrupted))).
Lemma history_reached : rtc schedule_step empty_history history.
Proof.
  unfold history, interrupted. repeat (eapply rtc_r; [|first [apply step_submit|apply step_finish|apply step_interrupt]]);
    try apply rtc_refl; try (apply (bool_decide_unpack _); vm_compute; exact I).
Qed.
End ScheduleSamples.

(** An interruption does not wait for the edits it interrupts: the next edit of the file starts although the
    interrupted one, which the client is told to abort, has not completed. *)
Lemma interrupted_overlaps : let h := submit (lit "f") (ScheduleSamples.edit "c1") ScheduleSamples.interrupted in
  edit_id <$> of_path (lit "f") (started h) = [lit "c1"] ∧ lit "c0" ∈ past h ∧ lit "c0" ∉ completed h.
Proof. split; [vm_compute; reflexivity|]. split; apply (bool_decide_unpack _); vm_compute; exact I. Qed.

Lemma edits_serialized_witness :
  edit_id <$> of_path (lit "f") (started ScheduleSamples.history) = [lit "c1"; lit "c2"] ∧
  of_path (lit "f") (started ScheduleSamples.history) `prefix_of`
    of_path (lit "f") (submitted ScheduleSamples.history) ∧
  complete (lit "c0") (schedule ScheduleSamples.history) = (schedule ScheduleSamples.history, Ok None).
Proof.
  split; [vm_compute; reflexivity|].
  destruct (edits_serialized ScheduleSamples.history (lit "f") (lit "c0") ScheduleSamples.history_reached)
    as (H1 & _ & _ & _ & H2). split; [exact H1|]. apply H2. apply (bool_decide_unpack _). vm_compute. exact I.
Defined.
