(* ===== verification/ToolRuntime.v ===== *)
(** * ToolRuntime: the executions a client runs for the tools

    server/src/cursor/tools/runtime.rs, and the bounded output of a shell
    ([truncate_edges] of server/src/cursor/tools/tool_call_result/gate.rs).

    The runtimes of the runs of one conversation share their counter of message ids, the
    set of interrupted ids and the detached work ([next_run]); the tables of executions,
    interactions and completions are the run's own.  A [World] is that store; a runtime
    is the number of its tables.  An operation is atomic.

    Theorems: [exec_taken_once], [interrupted_never_taken] and [shell_output_bounded];
    [id_space_starts_over] is what the 32-bit counter does after the last id. *)

From stdpp Require Import prelude gmap sets strings list sorting.
From S2P Require Import Prelude Errors External Json Message Replay Interaction Edit Schedule.
Local Open Scope Z_scope.

(** server/src/cursor/tools/runtime.rs:39-44, [ExecStage]. *)
Inductive ExecStage : Type :=
  | Direct
  | StageDynamicMcp (definition : McpToolDefinition)
  | StageEditRead
  | StageEditWrite (write : EditWrite).

(** server/src/cursor/tools/runtime.rs:30-37, [PendingExec]. *)
Record PendingExec : Type := MkExec {
  x_call : ToolCall;
  x_context : ExecContext;
  x_started_at_ms : Z;
  x_stdout : str;
  x_stderr : str;
  x_stage : ExecStage
}.
(** server/src/cursor/tools/runtime.rs:125-128, [PendingInteraction]. *)
Record PendingInteraction : Type := MkInteraction { i_call : ToolCall; i_started_at_ms : Z }.

(** server/src/cursor/tools/runtime.rs:132-136, [ExecTake]. *)
Inductive ExecTake : Type := Taken (pending : PendingExec) | TakeInterrupted | TakeMissing.

(** The tables of one run. *)
Record Tables : Type := MkTables {
  execs : gmap Z PendingExec;
  interactions : gmap Z PendingInteraction;
  completed_ids : gmap Z str
}.
Definition no_tables : Tables := MkTables ∅ ∅ ∅.

(** server/src/cursor/tools/runtime.rs:18-28, [CursorToolRuntime]: what the runtimes of a
    conversation share, and the tables of each. A cancellation token is its number. *)
Record World : Type := MkWorld {
  next_id_counter : Z;
  interrupted : gset Z;
  detached : gmap str nat;
  next_token : nat;
  cancelled : gset nat;
  tables : gmap nat Tables;
  next_tables : nat
}.
Definition tables_of (w : World) (r : nat) : Tables := default no_tables (tables w !! r).
Definition set_tables (w : World) (r : nat) (t : Tables) : World :=
  MkWorld (next_id_counter w) (interrupted w) (detached w) (next_token w) (cancelled w)
    (<[r := t]> (tables w)) (next_tables w).
Definition set_execs (t : Tables) (x : gmap Z PendingExec) : Tables :=
  MkTables x (interactions t) (completed_ids t).
Definition set_interactions (t : Tables) (x : gmap Z PendingInteraction) : Tables :=
  MkTables (execs t) x (completed_ids t).
Definition set_completed (t : Tables) (x : gmap Z str) : Tables :=
  MkTables (execs t) (interactions t) x.
Definition set_interrupted (w : World) (i : gset Z) : World :=
  MkWorld (next_id_counter w) i (detached w) (next_token w) (cancelled w) (tables w) (next_tables w).

Definition U32_MAX : Z := 2 ^ 32 - 1.

(** server/src/cursor/tools/runtime.rs:443-448, [CursorToolRuntime::next_id]: the counter
    wraps, the id before the last one is refused. *)
Definition next_id (w : World) : World * res Z :=
  let id := next_id_counter w in
  (MkWorld (u32 (id + 1)) (interrupted w) (detached w) (next_token w) (cancelled w) (tables w) (next_tables w),
   if id =? U32_MAX then Err (protocol "Cursor message id space exhausted") else Ok (id + 1)).

(** server/src/cursor/tools/runtime.rs:159-169, [CursorToolRuntime::next_run]. *)
Definition next_run (w : World) : World * nat :=
  (MkWorld (next_id_counter w) (interrupted w) (detached w) (next_token w) (cancelled w)
     (<[next_tables w := no_tables]> (tables w)) (S (next_tables w)), next_tables w).

(** server/src/cursor/tools/runtime.rs:216-236, [CursorToolRuntime::reserve_exec_stage]. *)
Definition reserve_exec_stage (now : Z) (r : nat) (c : ToolCall) (context : ExecContext)
    (stage : ExecStage) (started : option Z) (w : World) : World * res Z :=
  let '(w, id) := next_id w in
  match id with
  | Err e => (w, Err e)
  | Ok id =>
      let t := tables_of w r in
      (set_tables w r (set_execs t
         (<[id := MkExec c context (default now started) [] [] stage]> (execs t))), Ok id)
  end.

(** server/src/cursor/tools/runtime.rs:171-174, [CursorToolRuntime::reserve_exec]. *)
Definition reserve_exec (now : Z) r c context := reserve_exec_stage now r c context Direct None.
(** server/src/cursor/tools/runtime.rs:176-189, [CursorToolRuntime::reserve_dynamic_mcp]. *)
Definition reserve_dynamic_mcp (now : Z) r c context definition :=
  reserve_exec_stage now r c context (StageDynamicMcp definition) None.
(** server/src/cursor/tools/runtime.rs:191-198, [CursorToolRuntime::reserve_edit_read]. *)
Definition reserve_edit_read (now : Z) r c context := reserve_exec_stage now r c context StageEditRead None.
(** server/src/cursor/tools/runtime.rs:200-214, [CursorToolRuntime::reserve_edit_write]. *)
Definition reserve_edit_write (now : Z) r c context write started :=
  reserve_exec_stage now r c context (StageEditWrite write) (Some started).

(** server/src/cursor/tools/runtime.rs:238-248, [CursorToolRuntime::reserve_interaction]. *)
Definition reserve_interaction (now : Z) (r : nat) (c : ToolCall) (w : World) : World * res Z :=
  let '(w, id) := next_id w in
  match id with
  | Err e => (w, Err e)
  | Ok id =>
      let t := tables_of w r in
      (set_tables w r (set_interactions t (<[id := MkInteraction c now]> (interactions t))), Ok id)
  end.

(** server/src/cursor/tools/runtime.rs:250-256, [CursorToolRuntime::exec_call]. *)
Definition exec_call (r : nat) (id : Z) (w : World) : option ToolCall := x_call <$> execs (tables_of w r) !! id.

(** *** Bounded output *)

(** server/src/cursor/tools/tool_call_result/gate.rs:819-838, [truncate_edges]: the notice. *)
Definition edges_notice (name : str) (limit shown original : Z) : str :=
  newlines2 ++ lit "[truncated: " ++ name ++ lit " result exceeded " ++ decimal limit
  ++ lit " bytes; omitted middle; showing " ++ decimal shown ++ lit " of " ++ decimal original
  ++ lit " bytes]" ++ newlines2.
(** server/src/cursor/tools/tool_call_result/gate.rs:825-837, [truncate_edges]: one turn. *)
Definition edges_body (name content : str) (limit shown : Z) : flow Z str :=
  let notice := edges_notice name limit shown (str_len content) in
  let available := sat_sub limit (str_len notice) in
  let head := utf8_prefix content (available / 2) in
  let tail := utf8_suffix content (sat_sub available (str_len head)) in
  let next_shown := sat_add (str_len head) (str_len tail) in
  if next_shown =? shown then Done (head ++ notice ++ tail) else Next next_shown.

(** server/src/cursor/tools/tool_call_result/gate.rs:819-838, [truncate_edges]: with fuel. *)
Definition truncate_edges (fuel : nat) (name content : str) (limit : Z) : option str :=
  if str_len content <=? limit then Some content
  else loop (edges_body name content limit) fuel limit.

(** server/src/cursor/tools/tool_call_result/gate.rs:9-9, [SHELL_STREAM_LIMIT]. *)
Definition SHELL_STREAM_LIMIT : Z := 16 * 1024.

(** server/src/cursor/tools/runtime.rs:462-469, [append_bounded]: two turns end the loop
    ([truncate_edges_ends]). *)
Definition append_bounded (target name data : str) : str :=
  let target := target ++ data in
  if str_len target <=? SHELL_STREAM_LIMIT then target
  else default target (truncate_edges 2 name target SHELL_STREAM_LIMIT).

(** server/src/cursor/tools/runtime.rs:258-265, [CursorToolRuntime::append_stdout]. *)
Definition append_stdout (r : nat) (id : Z) (data : str) (w : World) : World * bool :=
  let t := tables_of w r in
  match execs t !! id with
  | None => (w, false)
  | Some x =>
      (set_tables w r (set_execs t (<[id :=
         MkExec (x_call x) (x_context x) (x_started_at_ms x)
           (append_bounded (x_stdout x) (lit "Shell stdout") data) (x_stderr x) (x_stage x)]> (execs t))), true)
  end.
(** server/src/cursor/tools/runtime.rs:267-274, [CursorToolRuntime::append_stderr]. *)
Definition append_stderr (r : nat) (id : Z) (data : str) (w : World) : World * bool :=
  let t := tables_of w r in
  match execs t !! id with
  | None => (w, false)
  | Some x =>
      (set_tables w r (set_execs t (<[id :=
         MkExec (x_call x) (x_context x) (x_started_at_ms x) (x_stdout x)
           (append_bounded (x_stderr x) (lit "Shell stderr") data) (x_stage x)]> (execs t))), true)
  end.

(** *** Completion *)

Definition complete_exec (t : Tables) (id : Z) (x : PendingExec) : Tables :=
  MkTables (delete id (execs t)) (interactions t) (<[id := call_id (x_call x)]> (completed_ids t)).

(** server/src/cursor/tools/runtime.rs:276-285, [CursorToolRuntime::take_exec]. *)
Definition take_exec (r : nat) (id : Z) (w : World) : World * option PendingExec :=
  let t := tables_of w r in
  match execs t !! id with
  | Some x => (set_tables w r (complete_exec t id x), Some x)
  | None => (w, None)
  end.

(** server/src/cursor/tools/runtime.rs:293-308, [CursorToolRuntime::take_exec_unless_interrupted]. *)
Definition take_exec_unless_interrupted (r : nat) (id : Z) (w : World) : World * ExecTake :=
  let t := tables_of w r in
  if decide (id ∈ interrupted w) then
    (set_tables w r (set_execs t (delete id (execs t))), TakeInterrupted)
  else
    match execs t !! id with
    | Some x => (set_tables w r (complete_exec t id x), Taken x)
    | None => (w, TakeMissing)
    end.

(** server/src/cursor/tools/runtime.rs:332-341, [CursorToolRuntime::take_interaction]. *)
Definition take_interaction (r : nat) (id : Z) (w : World) : World * option PendingInteraction :=
  let t := tables_of w r in
  match interactions t !! id with
  | Some i =>
      (set_tables w r (MkTables (execs t) (delete id (interactions t))
         (<[id := call_id (i_call i)]> (completed_ids t))), Some i)
  | None => (w, None)
  end.

(** server/src/cursor/tools/runtime.rs:343-345, [CursorToolRuntime::completed_call]. *)
Definition completed_call (r : nat) (id : Z) (w : World) : option str := completed_ids (tables_of w r) !! id.
(** server/src/cursor/tools/runtime.rs:347-349, [CursorToolRuntime::is_interrupted]. *)
Definition is_interrupted (id : Z) (w : World) : bool := bool_decide (id ∈ interrupted w).
(** server/src/cursor/tools/runtime.rs:351-353, [CursorToolRuntime::clear_completed]. *)
Definition clear_completed (r : nat) (w : World) : World :=
  set_tables w r (set_completed (tables_of w r) ∅).
(** server/src/cursor/tools/runtime.rs:355-357, [CursorToolRuntime::discard_exec]. *)
Definition discard_exec (r : nat) (id : Z) (w : World) : World :=
  set_tables w r (set_execs (tables_of w r) (delete id (execs (tables_of w r)))).
(** server/src/cursor/tools/runtime.rs:359-361, [CursorToolRuntime::discard_interaction]. *)
Definition discard_interaction (r : nat) (id : Z) (w : World) : World :=
  set_tables w r (set_interactions (tables_of w r) (delete id (interactions (tables_of w r)))).

(** *** Detached work *)

(** server/src/cursor/tools/runtime.rs:311-321, [CursorToolRuntime::track_detached]. *)
Definition track_detached (id : str) (w : World) : World * nat :=
  (MkWorld (next_id_counter w) (interrupted w) (<[id := next_token w]> (detached w)) (S (next_token w))
     (cancelled w) (tables w) (next_tables w), next_token w).
(** server/src/cursor/tools/runtime.rs:153-155, [drop] of [DetachedCancellation]. *)
Definition drop_detached (id : str) (w : World) : World :=
  MkWorld (next_id_counter w) (interrupted w) (delete id (detached w)) (next_token w) (cancelled w)
    (tables w) (next_tables w).
(** server/src/cursor/tools/runtime.rs:323-330, [CursorToolRuntime::cancel_detached]. *)
Definition cancel_detached (w : World) : World :=
  MkWorld (next_id_counter w) (interrupted w) ∅ (next_token w)
    (list_to_set (snd <$> map_to_list (detached w)) ∪ cancelled w) (tables w) (next_tables w).

(** *** Interruption *)

(** [sort_unstable] of ids. *)
Definition sort_ids (ids : list Z) : list Z := merge_sort Z.le ids.
Definition keys {V} (m : gmap Z V) : list Z := fst <$> map_to_list m.
Definition is_task (x : PendingExec) : bool :=
  bool_decide ((to_ascii_lower <$> name (x_call x)) = lit "task").

(** server/src/cursor/tools/runtime.rs:363-372, [CursorToolRuntime::drain_running]. *)
Definition drain_running (r : nat) (w : World) : World * list Z :=
  let w := cancel_detached w in
  (set_interrupted (set_tables w r no_tables) ∅, sort_ids (keys (execs (tables_of w r)))).

(** server/src/cursor/tools/runtime.rs:374-391, [CursorToolRuntime::interrupt_for_run_replacement]. *)
Definition interrupt_for_run_replacement (r : nat) (w : World) : World * list Z :=
  let w := cancel_detached w in
  let t := tables_of w r in
  (set_interrupted (set_tables w r no_tables)
     (interrupted w ∪ dom (execs t) ∪ dom (interactions t)),
   sort_ids (keys (execs t))).

(** server/src/cursor/tools/runtime.rs:393-423, [CursorToolRuntime::interrupt_for_message]: a
    Task keeps running. *)
Definition interrupt_for_message (r : nat) (w : World) : World * list Z :=
  let w := cancel_detached w in
  let t := tables_of w r in
  let kept := filter (λ x, is_task (snd x) = true) (execs t) in
  let aborted := filter (λ x, is_task (snd x) = false) (execs t) in
  (set_interrupted (set_tables w r (MkTables kept ∅ (completed_ids t)))
     (interrupted w ∪ dom (execs t) ∪ dom (interactions t)),
   sort_ids (keys aborted)).

(** server/src/cursor/tools/runtime.rs:425-429, [CursorToolRuntime::running_exec_ids]. *)
Definition running_exec_ids (r : nat) (w : World) : list Z := sort_ids (keys (execs (tables_of w r))).

(** server/src/cursor/tools/runtime.rs:431-441, [CursorToolRuntime::running_task_exec_id]: the
    least id. *)
Definition running_task_exec_id (r : nat) (id : str) (w : World) : option Z :=
  head (sort_ids (keys (filter (λ x, call_id (x_call (snd x)) = id ∧ is_task (snd x) = true)
                          (execs (tables_of w r))))).


Definition is_task_call (c : ToolCall) : bool := bool_decide ((to_ascii_lower <$> name c) = lit "task").
(** server/src/cursor/tools/runtime.rs:78-83, [ExecContext::task_disabled]. *)
Definition task_disabled (cx : ExecContext) (c : ToolCall) : bool :=
  if negb (is_task_call c) then false
  else subagents_disabled cx || match subagent_model cx with Some SubDisabled => true | _ => false end.

(** server/src/cursor/tools/runtime.rs:85-122, [ExecContext::prepare_call]. *)
Definition prepare_call (cx : ExecContext) (c : ToolCall) : res ToolCall :=
  if negb (is_task_call c) then Ok c
  else
    match as_object (arguments c) with
    | None => Err (protocol "Task arguments must be a JSON object")
    | Some members =>
        let string_of (field : string) := v ← get_member field (arguments c); as_str v in
        let subagent_type := default (lit "generalPurpose") (string_of "subagent_type") in
        if task_disabled cx c then Ok c
        else
          let mdl := match subagent_model cx with
                     | Some (SubModel m) => m
                     | _ => match string_of "model" with
                            | Some m => if decide (m = lit "inherit") then default_subagent_model cx else m
                            | None => default_subagent_model cx
                            end
                     end in
          match mdl with
          | [] => Err (Protocol (lit "Task subagent type " ++ subagent_type ++ lit " has no model"))
          | _ => Ok (MkToolCall (index c) (call_id c) (model_call_id c) (name c) (arguments_text c)
                       (JObject (map_insert (lit "model") (JString mdl) members)) (argument_error c))
          end
    end.

(** ** Bounded output *)

Lemma edges_notice_len name limit shown original : 0 ≤ shown →
  str_len (edges_notice name limit shown original) =
  str_len (edges_notice name limit 0 original) - 1 + zlen (decimal shown).
Proof.
  intros Hs. unfold edges_notice. rewrite !str_len_app, (decimal_str_len shown) by done.
  change (str_len (decimal 0)) with 1. lia.
Qed.

(** What one turn shows is what the limit leaves beside the notice, but for the bytes of a
    character that is cut on each side. *)
Lemma edges_shown content available : 0 ≤ available < str_len content →
  let head := utf8_prefix content (available / 2) in
  let tail := utf8_suffix content (sat_sub available (str_len head)) in
  available - 3 ≤ str_len head + str_len tail ≤ available.
Proof.
  intros [Ha Hl]. cbn zeta. assert (0 ≤ available / 2 ≤ available) as Hd.
  { split; [apply Z.div_pos; lia|apply Z.div_le_upper_bound; lia]. }
  pose proof (utf8_prefix_bound content (available / 2) ltac:(lia)) as H1.
  set (head := utf8_prefix content (available / 2)) in *. pose proof (str_len_nonneg head).
  pose proof (utf8_suffix_bound content (sat_sub available (str_len head)) ltac:(unfold sat_sub; lia)) as H2.
  assert (sat_sub available (str_len head) - 3 ≤ str_len (utf8_suffix content (sat_sub available (str_len head)))) as H3.
  { unfold utf8_suffix. rewrite str_len_reverse. apply utf8_prefix_near. rewrite str_len_reverse.
    unfold sat_sub. lia. }
  unfold sat_sub in *. lia.
Qed.

Lemma edges_turn name content limit shown : 0 ≤ limit → limit < str_len content → str_len content ≤ I64_MAX →
  str_len (edges_notice name limit shown (str_len content)) ≤ limit →
  ∃ next, limit - str_len (edges_notice name limit shown (str_len content)) - 3 ≤ next ≤
    limit - str_len (edges_notice name limit shown (str_len content)) ∧
  (next ≠ shown → edges_body name content limit shown = Next next) ∧
  ∃ out, (next = shown → edges_body name content limit shown = Done out) ∧ str_len out ≤ limit.
Proof.
  intros H0 Hl Hc Hn. set (notice := edges_notice name limit shown (str_len content)) in *.
  pose proof (str_len_nonneg notice) as Hp.
  pose proof (edges_shown content (sat_sub limit (str_len notice)) ltac:(unfold sat_sub; lia)) as Hs.
  cbn zeta in Hs. unfold edges_body. fold notice.
  set (head := utf8_prefix content _) in *. set (tail := utf8_suffix content _) in *.
  pose proof (str_len_nonneg head). pose proof (str_len_nonneg tail).
  assert (sat_add (str_len head) (str_len tail) = str_len head + str_len tail) as ->.
  { unfold sat_add, sat_sub, U64_MAX, I64_MAX in *. lia. }
  exists (str_len head + str_len tail). split; [unfold sat_sub in Hs; lia|]. split.
  - intros Hne. by rewrite (proj2 (Z.eqb_neq _ _)).
  - exists (head ++ notice ++ tail). split; [intros ->; by rewrite Z.eqb_refl|].
    rewrite !str_len_app. unfold sat_sub in *. lia.
Qed.

(** Two turns are enough when the numbers shown keep the digits of the limit. *)
Lemma truncate_edges_ends name content limit k : 0 < k →
  limit < str_len content → str_len content ≤ I64_MAX → limit < 10 ^ k →
  10 ^ (k - 1) ≤ limit - str_len (edges_notice name limit limit (str_len content)) - 3 →
  ∃ out, truncate_edges 2 name content limit = Some out ∧ str_len out ≤ limit.
Proof.
  intros Hk Hl Hc Hhi Hlo. pose proof (Z.pow_pos_nonneg 10 (k - 1) ltac:(lia) ltac:(lia)).
  pose proof (str_len_nonneg (edges_notice name limit limit (str_len content))).
  unfold truncate_edges. rewrite (proj2 (Z.leb_gt _ _)) by done. cbn [loop].
  destruct (edges_turn name content limit limit) as (s1 & Hs1 & Hnext & out1 & Hout1 & Hb1); [lia..|].
  destruct (decide (s1 = limit)) as [E|Hne]; [rewrite (Hout1 E); by exists out1|].
  rewrite (Hnext Hne).
  assert (str_len (edges_notice name limit s1 (str_len content)) =
          str_len (edges_notice name limit limit (str_len content))) as Es.
  { rewrite (edges_notice_len _ _ s1), (edges_notice_len _ _ limit) by lia.
    rewrite (decimal_length s1 k), (decimal_length limit k) by lia. done. }
  destruct (edges_turn name content limit s1) as (s2 & Hs2 & Hnext2 & out2 & Hout2 & Hb2); [lia..|].
  assert (s2 = s1) as ->.
  { destruct (decide (s2 = s1)) as [|Hne2]; [done|]. exfalso.
    (* the same room shows the same edges *)
    specialize (Hnext Hne). specialize (Hnext2 Hne2). unfold edges_body in Hnext, Hnext2.
    rewrite Es in Hnext2. destruct (_ =? limit) in Hnext; [done|]. destruct (_ =? s1) in Hnext2; [done|].
    injection Hnext as <-. injection Hnext2 as <-. done. }
  rewrite (Hout2 eq_refl). by exists out2.
Qed.

Lemma edges_notice_bound name original : zlen name ≤ 100 → str_len name ≤ 100 → 0 ≤ original ≤ I64_MAX →
  str_len (edges_notice name SHELL_STREAM_LIMIT SHELL_STREAM_LIMIT original) ≤ 300.
Proof.
  intros _ Hn Ho. unfold edges_notice. rewrite !str_len_app.
  rewrite (decimal_str_len original) by lia.
  assert (zlen (decimal original) ≤ 19) as Hd.
  { etrans; [apply (decimal_mono original I64_MAX); lia|]. vm_compute. discriminate. }
  change (str_len (decimal SHELL_STREAM_LIMIT)) with 5.
  repeat match goal with |- context [str_len ?t] =>
    lazymatch t with name => fail | decimal original => fail | _ =>
      let v := eval vm_compute in (str_len t) in change (str_len t) with v end end.
  lia.
Qed.

Lemma append_bounded_spec target name data : str_len name ≤ 100 →
  str_len (target ++ data) ≤ I64_MAX → str_len (append_bounded target name data) ≤ SHELL_STREAM_LIMIT.
Proof.
  intros Hn Hl. unfold append_bounded. destruct (Z.leb_spec (str_len (target ++ data)) SHELL_STREAM_LIMIT); [done|].
  assert (zlen name ≤ 100) by (pose proof (str_len_bound name); lia).
  destruct (truncate_edges_ends name (target ++ data) SHELL_STREAM_LIMIT 5) as (out & -> & Ho); try done.
  assert (0 ≤ str_len (target ++ data) ≤ I64_MAX) as Hb by (pose proof (str_len_nonneg (target ++ data)); lia).
  pose proof (edges_notice_bound name (str_len (target ++ data))). change (10 ^ (5 - 1)) with 10000.
  unfold SHELL_STREAM_LIMIT in *. lia.
Qed.

(** ** Histories of a conversation's runtimes

    [runtime_step] is one operation that changes the store, but for [drain_running], which
    forgets what was interrupted.  A reservation that is refused (the id space is
    exhausted) is not a step: the counter starts over after it, see
    [id_space_starts_over].  A chunk of output is a Rust allocation. *)
Inductive runtime_step (w : World) : World → Prop :=
  | step_next_run : runtime_step w (next_run w).1
  | step_reserve_exec now r c cx stage start w' id :
      reserve_exec_stage now r c cx stage start w = (w', Ok id) → runtime_step w w'
  | step_reserve_interaction now r c w' id :
      reserve_interaction now r c w = (w', Ok id) → runtime_step w w'
  | step_stdout r id data : str_len data ≤ I64_MAX - SHELL_STREAM_LIMIT →
      runtime_step w (append_stdout r id data w).1
  | step_stderr r id data : str_len data ≤ I64_MAX - SHELL_STREAM_LIMIT →
      runtime_step w (append_stderr r id data w).1
  | step_take r id : runtime_step w (take_exec r id w).1
  | step_take_unless r id : runtime_step w (take_exec_unless_interrupted r id w).1
  | step_take_interaction r id : runtime_step w (take_interaction r id w).1
  | step_clear_completed r : runtime_step w (clear_completed r w)
  | step_discard_exec r id : runtime_step w (discard_exec r id w)
  | step_discard_interaction r id : runtime_step w (discard_interaction r id w)
  | step_track id : runtime_step w (track_detached id w).1
  | step_drop id : runtime_step w (drop_detached id w)
  | step_replace r : runtime_step w (interrupt_for_run_replacement r w).1
  | step_message r : runtime_step w (interrupt_for_message r w).1.
Definition drain_step (w w' : World) : Prop := ∃ r, w' = (drain_running r w).1.
Definition any_step (w w' : World) : Prop := runtime_step w w' ∨ drain_step w w'.

Definition empty_world : World := MkWorld 0 ∅ ∅ 0 ∅ {[0%nat := no_tables]} 1.

(** The ids of a table that wait for the client. *)
Definition pending (t : Tables) : gset Z := dom (execs t) ∪ dom (interactions t).

Record runtime_ok (w : World) : Prop := MkRuntimeOk {
  ro_counter : 0 ≤ next_id_counter w ≤ U32_MAX;
  ro_bound r id : id ∈ pending (tables_of w r) → 1 ≤ id ≤ next_id_counter w;
  ro_interrupted id : id ∈ interrupted w → 1 ≤ id ≤ next_id_counter w;
  ro_kind r id : id ∈ dom (execs (tables_of w r)) → id ∉ dom (interactions (tables_of w r));
  ro_run r r' id : id ∈ pending (tables_of w r) → id ∈ pending (tables_of w r') → r = r'
}.

Lemma tables_of_set w r r' t :
  tables_of (set_tables w r t) r' = if decide (r' = r) then t else tables_of w r'.
Proof.
  unfold tables_of, set_tables. cbn. case_decide as E; [by rewrite E, lookup_insert_eq|].
  by rewrite lookup_insert_ne.
Qed.

Lemma next_id_ok w w' id : 0 ≤ next_id_counter w ≤ U32_MAX → next_id w = (w', Ok id) →
  id = next_id_counter w + 1 ∧ next_id_counter w' = id ∧ interrupted w' = interrupted w ∧
  tables w' = tables w ∧ next_tables w' = next_tables w.
Proof.
  intros Hc. unfold next_id. destruct (Z.eqb_spec (next_id_counter w) U32_MAX); [done|].
  intros [= <- <-]. cbn. rewrite wrap_small by (unfold U32_MAX in *; lia). done.
Qed.

(** Nothing but the tables of a run and what is not an id changes, and these have no more ids. *)
Record shrinks (w w' : World) : Prop := MkShrinks {
  sh_counter : next_id_counter w' = next_id_counter w;
  sh_interrupted id : id ∈ interrupted w → id ∈ interrupted w';
  sh_new id : id ∈ interrupted w' → id ∈ interrupted w ∨ ∃ r, id ∈ pending (tables_of w r);
  sh_execs r : dom (execs (tables_of w' r)) ⊆ dom (execs (tables_of w r));
  sh_interactions r : dom (interactions (tables_of w' r)) ⊆ dom (interactions (tables_of w r))
}.
Lemma shrinks_pending w w' r id : shrinks w w' → id ∈ pending (tables_of w' r) → id ∈ pending (tables_of w r).
Proof. intros H. pose proof (sh_execs w w' H r). pose proof (sh_interactions w w' H r). unfold pending. set_solver. Qed.
Lemma shrinks_ok w w' : shrinks w w' → runtime_ok w → runtime_ok w'.
Proof.
  intros S H. split.
  - rewrite (sh_counter _ _ S). apply H.
  - intros r id Hin. rewrite (sh_counter _ _ S). by eapply (ro_bound w H r), shrinks_pending.
  - intros id [Hin|(r & Hin)]%(sh_new _ _ S); rewrite (sh_counter _ _ S); [by apply H|by eapply (ro_bound w H)].
  - intros r id H1 H2. apply (sh_execs _ _ S) in H1. apply (sh_interactions _ _ S) in H2.
    by eapply (ro_kind w H).
  - intros r r' id H1 H2. eapply (ro_run w H); eapply shrinks_pending; eauto.
Qed.
Lemma shrinks_by w w' r t : next_id_counter w' = next_id_counter w →
  (interrupted w' = interrupted w ∨ interrupted w' = interrupted w ∪ pending (tables_of w r)) →
  tables w' = <[r := t]> (tables w) →
  dom (execs t) ⊆ dom (execs (tables_of w r)) →
  dom (interactions t) ⊆ dom (interactions (tables_of w r)) → shrinks w w'.
Proof.
  intros Hc Hint Ht He Hi.
  assert (∀ r', tables_of w' r' = if decide (r' = r) then t else tables_of w r') as Htab.
  { intros r'. rewrite <- (tables_of_set w r r' t). unfold tables_of. by rewrite Ht. }
  split; [done|set_solver| |intros r'; rewrite Htab; case_decide; by subst|intros r'; rewrite Htab; case_decide; by subst].
  intros id. destruct Hint as [-> | ->]; [by left|]. intros [?|?]%elem_of_union; [by left|right; by exists r].
Qed.
Lemma shrinks_tables w r t : dom (execs t) ⊆ dom (execs (tables_of w r)) →
  dom (interactions t) ⊆ dom (interactions (tables_of w r)) → shrinks w (set_tables w r t).
Proof. apply shrinks_by; [done|by left|done]. Qed.
Lemma shrinks_refl w : shrinks w w.
Proof. split; auto. Qed.

(** A new execution or interaction. *)
Lemma reserved_ok w w1 r t id : runtime_ok w → next_id w = (w1, Ok id) →
  pending t ⊆ {[id]} ∪ pending (tables_of w r) →
  (∀ i, i ∈ dom (execs t) → i ∈ dom (interactions t) →
     i ∈ dom (execs (tables_of w r)) ∧ i ∈ dom (interactions (tables_of w r))) →
  runtime_ok (set_tables w1 r t).
Proof.
  intros H Hn Hp Hk. destruct (next_id_ok w w1 id (ro_counter w H) Hn) as (Ei & Ec & Eint & Et & _).
  assert (next_id_counter w < U32_MAX) as Hlt.
  { unfold next_id in Hn. destruct (Z.eqb_spec (next_id_counter w) U32_MAX); [done|].
    pose proof (ro_counter w H). lia. }
  assert (∀ r', tables_of w1 r' = tables_of w r') as Et' by (intros r'; unfold tables_of; by rewrite Et).
  pose proof (ro_counter w H) as Hc.
  assert (∀ r' i, i ∈ pending (tables_of (set_tables w1 r t) r') →
    i ∈ pending (tables_of w r') ∨ i = id ∧ r' = r) as Hsub.
  { intros r' i. rewrite tables_of_set. case_decide as E; [subst r'|rewrite Et'; by left].
    intros Hi%Hp. set_solver. }
  assert (∀ r', id ∉ pending (tables_of w r')) as Hfresh.
  { intros r' Hin%(ro_bound w H). lia. }
  split; cbn [next_id_counter interrupted set_tables].
  - lia.
  - intros r' i [Hin|[-> ->]]%Hsub; [apply (ro_bound w H) in Hin; lia|lia].
  - intros i Hin. rewrite Eint in Hin. apply (ro_interrupted w H) in Hin. lia.
  - intros r' i. rewrite tables_of_set. case_decide as E; [|rewrite Et'; apply (ro_kind w H)].
    intros H1 H2. destruct (Hk i H1 H2). by eapply (ro_kind w H).
  - intros r1 r2 i [H1|[-> ->]]%Hsub [H2|[E ->]]%Hsub; try done; [by eapply (ro_run w H)|subst..].
    + by apply Hfresh in H1.
    + by apply Hfresh in H2.
Qed.

Lemma step_cases w w' : runtime_step w w' → runtime_ok w →
  shrinks w w' ∨ ∃ w1 r t id, next_id w = (w1, Ok id) ∧ w' = set_tables w1 r t ∧
    pending t = {[id]} ∪ pending (tables_of w r) ∧
    (∀ i, i ∈ dom (execs t) → i ∈ dom (interactions t) →
       i ∈ dom (execs (tables_of w r)) ∧ i ∈ dom (interactions (tables_of w r))).
Proof.
  intros Hstep H. destruct Hstep.
  - left. by apply (shrinks_by w _ (next_tables w) no_tables); [|left| |cbn; set_solver..].
  - right. unfold reserve_exec_stage in H0. destruct (next_id w) as [w1 [i|e]] eqn:E; [|done].
    destruct (next_id_ok w w1 i (ro_counter w H) E) as (Ei & _ & _ & Et & _).
    assert (tables_of w1 r = tables_of w r) as Et' by (unfold tables_of; by rewrite Et).
    injection H0 as <- <-. rewrite Et'. eexists _, r, _, i. split; [done|]. split; [done|].
    unfold pending; cbn [execs interactions set_execs]. rewrite dom_insert_L. split; [set_solver|].
    intros j Hj Hj'. split; [|done]. apply elem_of_union in Hj as [->%elem_of_singleton|?]; [|done].
    exfalso. assert (i ∈ pending (tables_of w r)) as Hin by (unfold pending; set_solver).
    apply (ro_bound w H) in Hin. lia.
  - right. unfold reserve_interaction in H0. destruct (next_id w) as [w1 [i|e]] eqn:E; [|done].
    destruct (next_id_ok w w1 i (ro_counter w H) E) as (Ei & _ & _ & Et & _).
    assert (tables_of w1 r = tables_of w r) as Et' by (unfold tables_of; by rewrite Et).
    injection H0 as <- <-. rewrite Et'. eexists _, r, _, i. split; [done|]. split; [done|].
    unfold pending; cbn [execs interactions set_interactions]. rewrite dom_insert_L. split; [set_solver|].
    intros j Hj Hj'. split; [done|]. apply elem_of_union in Hj' as [->%elem_of_singleton|?]; [|done].
    exfalso. assert (i ∈ pending (tables_of w r)) as Hin by (unfold pending; set_solver).
    apply (ro_bound w H) in Hin. lia.
  - left. unfold append_stdout. destruct (execs _ !! id) eqn:E; [|apply shrinks_refl].
    apply shrinks_tables; cbn; [|done]. rewrite dom_insert_lookup_L; [done|by rewrite E].
  - left. unfold append_stderr. destruct (execs _ !! id) eqn:E; [|apply shrinks_refl].
    apply shrinks_tables; cbn; [|done]. rewrite dom_insert_lookup_L; [done|by rewrite E].
  - left. unfold take_exec. destruct (execs _ !! id) eqn:E; [|apply shrinks_refl].
    apply shrinks_tables; cbn; [|done]. set_solver.
  - left. unfold take_exec_unless_interrupted. case_decide; [apply shrinks_tables; cbn; set_solver|].
    destruct (execs _ !! id) eqn:E; [|apply shrinks_refl]. apply shrinks_tables; cbn; [|done]. set_solver.
  - left. unfold take_interaction. destruct (interactions _ !! id) eqn:E; [|apply shrinks_refl].
    apply shrinks_tables; cbn; [done|]. set_solver.
  - left. by apply shrinks_tables.
  - left. apply shrinks_tables; cbn; set_solver.
  - left. apply shrinks_tables; cbn; set_solver.
  - left. split; auto.
  - left. split; auto.
  - left. apply (shrinks_by w _ r no_tables); [done|right|done|cbn; set_solver..].
    cbn. unfold pending. by rewrite (assoc_L (∪)).
  - left. unfold interrupt_for_message. cbn zeta.
    apply (shrinks_by w _ r (MkTables (filter (λ x, is_task (snd x) = true) (execs (tables_of w r))) ∅
                               (completed_ids (tables_of w r)))); [done|right|done| |cbn; set_solver].
    + cbn. unfold pending. by rewrite (assoc_L (∪)).
    + cbn. apply dom_filter_subseteq.
Qed.

Lemma drain_shrinks w r : runtime_ok w → runtime_ok (drain_running r w).1.
Proof.
  intros H. unfold drain_running. cbn [fst].
  assert (runtime_ok (set_tables (cancel_detached w) r no_tables)) as H'.
  { eapply shrinks_ok; [|exact H]. apply (shrinks_by w _ r no_tables); [done|by left|done|cbn; set_solver..]. }
  split; cbn; [apply H'|apply (ro_bound _ H')|set_solver|apply (ro_kind _ H')|apply (ro_run _ H')].
Qed.

Lemma any_step_ok w w' : any_step w w' → runtime_ok w → runtime_ok w'.
Proof.
  intros [Hs|[r ->]] H; [|by apply drain_shrinks].
  destruct (step_cases w w' Hs H) as [S|(w1 & r & t & id & E & -> & Hp & Hk)]; [by eapply shrinks_ok|].
  eapply reserved_ok; [done|exact E| |done]. by rewrite Hp.
Qed.

Definition runtime_reachable (w : World) : Prop := rtc any_step empty_world w.
Lemma empty_world_ok : runtime_ok empty_world.
Proof.
  assert (∀ r, tables_of empty_world r = no_tables) as E.
  { intros r. unfold tables_of, empty_world. cbn. destruct (decide (r = 0%nat)) as [->|];
      [by rewrite lookup_singleton_eq|by rewrite lookup_singleton_ne]. }
  split; [done|..]; intros *; rewrite ?E; set_solver.
Qed.
Lemma runtime_reachable_ok w : runtime_reachable w → runtime_ok w.
Proof. apply (rtc_ind_r (λ w, runtime_ok w)); [apply empty_world_ok|]. eauto using any_step_ok. Qed.

(** ** What the runtimes guarantee *)

(** An id that waits nowhere is never issued again. *)
Definition gone (id : Z) (w : World) : Prop :=
  1 ≤ id ≤ next_id_counter w ∧ ∀ r, id ∉ pending (tables_of w r).
Lemma gone_step id w w' : runtime_ok w → any_step w w' → gone id w → gone id w'.
Proof.
  intros H [Hs|[r ->]] [Hb Hg].
  - destruct (step_cases w w' Hs H) as [S|(w1 & r & t & i & E & -> & Hp & _)].
    + split; [rewrite (sh_counter _ _ S); lia|]. intros r Hin. by eapply Hg, shrinks_pending.
    + destruct (next_id_ok w w1 i (ro_counter w H) E) as (Ei & Ec & _ & Et & _).
      split; [cbn; lia|]. intros r'. rewrite tables_of_set. case_decide as E'.
      * rewrite Hp. intros [->%elem_of_singleton|Hin]%elem_of_union; [lia|by eapply Hg].
      * unfold tables_of. rewrite Et. apply Hg.
  - split; [done|]. intros r'. unfold drain_running. cbn [fst].
    change (tables_of (set_interrupted (set_tables (cancel_detached w) r no_tables) ∅) r')
      with (tables_of (set_tables (cancel_detached w) r no_tables) r').
    rewrite tables_of_set. case_decide; [set_solver|]. apply Hg.
Qed.
Lemma gone_steps id w w' : runtime_ok w → rtc any_step w w' → gone id w → gone id w'.
Proof.
  intros H Hr. revert H. induction Hr as [|w1 w2 w3 Hs _ IH]; [done|]. intros H Hg.
  apply IH; [by eapply any_step_ok|by eapply gone_step].
Qed.

(** Interruptions last until the runtime is drained. *)
Lemma interrupted_steps id w w' : runtime_ok w → rtc runtime_step w w' → id ∈ interrupted w → id ∈ interrupted w'.
Proof.
  intros H Hr. revert H. induction Hr as [|w1 w2 w3 Hs _ IH]; [done|]. intros H Hin.
  apply IH; [by eapply any_step_ok; [left|]|].
  destruct (step_cases w1 w2 Hs H) as [S|(w0 & r & t & i & E & -> & _)]; [by apply (sh_interrupted _ _ S)|].
  destruct (next_id_ok w1 w0 i (ro_counter w1 H) E) as (_ & _ & Eint & _). cbn. by rewrite Eint.
Qed.

(** The result of an execution is taken at most once.  When the end of an execution is
    taken, it had not been interrupted and its call is recorded as completed; from then on,
    whatever happens in any run of the conversation, nobody takes that id again — neither
    as an execution nor as an interaction — as long as the 32-bit id space lasts. *)
Theorem exec_taken_once w r id w1 x : runtime_reachable w →
  take_exec_unless_interrupted r id w = (w1, Taken x) →
  execs (tables_of w r) !! id = Some x ∧ id ∉ interrupted w ∧
  completed_call r id w1 = Some (call_id (x_call x)) ∧
  ∀ w2 r', rtc any_step w1 w2 →
    (∀ y, (take_exec_unless_interrupted r' id w2).2 ≠ Taken y) ∧
    (take_exec r' id w2).2 = None ∧ (take_interaction r' id w2).2 = None.
Proof.
  intros H%runtime_reachable_ok E.
  assert (runtime_ok w1) as H1.
  { apply (any_step_ok w); [|done]. left. replace w1 with (take_exec_unless_interrupted r id w).1
      by by rewrite E. constructor. }
  unfold take_exec_unless_interrupted in E. case_decide as Hint; [done|].
  destruct (execs (tables_of w r) !! id) as [x'|] eqn:Ex; [|done]. injection E as <- <-.
  split_and!; [done..| |].
  { unfold completed_call. rewrite tables_of_set, decide_True by done. cbn. by rewrite lookup_insert_eq. }
  assert (id ∈ dom (execs (tables_of w r))) as Hdom by (apply elem_of_dom; by eexists).
  assert (id ∈ pending (tables_of w r)) as Hpend by (unfold pending; set_solver).
  assert (gone id (set_tables w r (complete_exec (tables_of w r) id x'))) as Hg.
  { split; [by apply (ro_bound w H r)|]. intros r'. rewrite tables_of_set. case_decide as E'.
    - unfold pending. cbn. pose proof (ro_kind w H r id Hdom). set_solver.
    - intros Hin. apply E'. by eapply (ro_run w H). }
  intros w2 r' Hsteps. pose proof (gone_steps id _ w2 H1 Hsteps Hg) as [_ Hg2]. specialize (Hg2 r').
  unfold pending in Hg2. apply not_elem_of_union in Hg2 as [Hx%not_elem_of_dom Hi%not_elem_of_dom].
  unfold take_exec_unless_interrupted, take_exec, take_interaction. rewrite Hx, Hi. split_and!; [|done..].
  intros y. by case_decide.
Qed.

Lemma sort_ids_spec l : Sorted Z.le (sort_ids l) ∧ sort_ids l ≡ₚ l.
Proof. split; [apply Sorted_merge_sort; intros x y; lia|apply merge_sort_Permutation]. Qed.
Lemma keys_elem {V} (m : gmap Z V) id : id ∈ keys m ↔ ∃ v, m !! id = Some v.
Proof.
  unfold keys. rewrite list_elem_of_fmap. split.
  - intros ([k v] & -> & Hin). apply elem_of_map_to_list in Hin. by exists v.
  - intros (v & Hv). exists (id, v). split; [done|]. by apply elem_of_map_to_list.
Qed.

(** A user message interrupts everything that runs.  The executions to abort are exactly
    the ones that are not a Task, in order of id, and the detached work is cancelled; and
    until the runtime is drained the end of any execution or interaction that was waiting
    — a Task's too — is reported as interrupted, never as a result and never as unknown. *)
Theorem interrupted_never_taken w r w1 aborted : runtime_reachable w →
  interrupt_for_message r w = (w1, aborted) →
  Sorted Z.le aborted ∧
  (∀ id, id ∈ aborted ↔ ∃ x, execs (tables_of w r) !! id = Some x ∧ is_task x = false) ∧
  (∀ call token, detached w !! call = Some token → token ∈ cancelled w1) ∧
  ∀ id w2 r', id ∈ pending (tables_of w r) → rtc runtime_step w1 w2 →
    (take_exec_unless_interrupted r' id w2).2 = TakeInterrupted.
Proof.
  intros H%runtime_reachable_ok E.
  assert (runtime_ok w1) as H1.
  { apply (any_step_ok w); [|done]. left. replace w1 with (interrupt_for_message r w).1
      by by rewrite E. constructor. }
  unfold interrupt_for_message in E. cbn zeta in E. injection E as <- <-.
  destruct (sort_ids_spec (keys (filter (λ x, is_task (snd x) = false) (execs (tables_of w r))))) as [Hs Hperm].
  split_and!.
  - exact Hs.
  - intros id. rewrite Hperm, keys_elem. setoid_rewrite map_lookup_filter_Some. cbn. done.
  - intros c token Hc. cbn. apply elem_of_union. left. apply elem_of_list_to_set, list_elem_of_fmap.
    exists (c, token). split; [done|]. by apply elem_of_map_to_list.
  - intros id w2 r' Hin Hsteps. eapply interrupted_steps in Hsteps; [|exact H1|].
    + unfold take_exec_unless_interrupted. by rewrite decide_True.
    + cbn. unfold pending in Hin. set_solver.
Qed.

(** *** The output of a shell *)

Definition out_ok (x : PendingExec) : Prop :=
  str_len (x_stdout x) ≤ SHELL_STREAM_LIMIT ∧ str_len (x_stderr x) ≤ SHELL_STREAM_LIMIT.
Definition outputs_ok (w : World) : Prop := ∀ r, map_Forall (λ _, out_ok) (execs (tables_of w r)).

Lemma outputs_set w w' r t : tables w' = <[r := t]> (tables w) →
  (map_Forall (λ _, out_ok) (execs (tables_of w r)) → map_Forall (λ _, out_ok) (execs t)) →
  outputs_ok w → outputs_ok w'.
Proof.
  intros Ht Himp H r'. replace (tables_of w' r') with (tables_of (set_tables w r t) r')
    by (unfold tables_of; by rewrite Ht).
  rewrite tables_of_set. case_decide; [by apply Himp, H|apply H].
Qed.
Lemma outputs_same w w' : tables w' = tables w → outputs_ok w → outputs_ok w'.
Proof. intros E H r. unfold tables_of. rewrite E. apply H. Qed.

Lemma append_keeps target name data : str_len name ≤ 100 → str_len target ≤ SHELL_STREAM_LIMIT →
  str_len data ≤ I64_MAX - SHELL_STREAM_LIMIT →
  str_len (append_bounded target name data) ≤ SHELL_STREAM_LIMIT.
Proof. intros Hn Ht Hd. apply append_bounded_spec; [done|]. rewrite str_len_app. lia. Qed.

Lemma any_step_outputs w w' : any_step w w' → outputs_ok w → outputs_ok w'.
Proof.
  intros [Hs|[r ->]]; [|apply (outputs_set _ _ r no_tables); [done|intros _; apply map_Forall_empty]].
  destruct Hs.
  - apply (outputs_set _ _ (next_tables w) no_tables); [done|intros _; apply map_Forall_empty].
  - unfold reserve_exec_stage, next_id in H. destruct (_ =? U32_MAX); [done|]. injection H as <- <-.
    eapply (outputs_set _ _ r); [done|]. intros Hm. apply map_Forall_insert_2; [by split|exact Hm].
  - unfold reserve_interaction, next_id in H. destruct (_ =? U32_MAX); [done|]. injection H as <- <-.
    eapply (outputs_set _ _ r); [done|done].
  - unfold append_stdout. destruct (execs _ !! id) as [x|] eqn:E; [|done].
    eapply (outputs_set _ _ r); [done|]. intros Hm. apply map_Forall_insert_2; [|done].
    destruct (Hm _ _ E) as [H1 H2]. split; [|done]. apply append_keeps; [vm_compute; discriminate|done..].
  - unfold append_stderr. destruct (execs _ !! id) as [x|] eqn:E; [|done].
    eapply (outputs_set _ _ r); [done|]. intros Hm. apply map_Forall_insert_2; [|done].
    destruct (Hm _ _ E) as [H1 H2]. split; [done|]. apply append_keeps; [vm_compute; discriminate|done..].
  - unfold take_exec. destruct (execs _ !! id); [|done].
    eapply (outputs_set _ _ r); [done|]. intros Hm. by apply map_Forall_delete.
  - unfold take_exec_unless_interrupted. case_decide; [|destruct (execs _ !! id); [|done]];
      (eapply (outputs_set _ _ r); [done|]); intros Hm; by apply map_Forall_delete.
  - unfold take_interaction. destruct (interactions _ !! id); [|done].
    eapply (outputs_set _ _ r); [done|done].
  - eapply (outputs_set _ _ r); [done|done].
  - eapply (outputs_set _ _ r); [done|]. intros Hm. by apply map_Forall_delete.
  - eapply (outputs_set _ _ r); [done|done].
  - by apply outputs_same.
  - by apply outputs_same.
  - apply (outputs_set _ _ r no_tables); [done|intros _; apply map_Forall_empty].
  - eapply (outputs_set _ _ r); [done|]. intros Hm i x. cbn. intros [Hx _]%map_lookup_filter_Some. by eapply Hm.
Qed.
Lemma runtime_reachable_outputs w : runtime_reachable w → outputs_ok w.
Proof.
  apply (rtc_ind_r (λ w, outputs_ok w)); [|eauto using any_step_outputs].
  apply (outputs_set (MkWorld 0 ∅ ∅ 0 ∅ ∅ 1) _ 0 no_tables); [done|intros _; apply map_Forall_empty|].
  intros r. apply map_Forall_empty.
Qed.

(** What is kept of the output of a shell never exceeds the limit, however much the
    client streams and however it is cut into chunks; a chunk that fits with what is there
    is appended as it is, and a chunk for an execution that is not waiting changes nothing. *)
Theorem shell_output_bounded w r id : runtime_reachable w →
  (∀ x, execs (tables_of w r) !! id = Some x →
     str_len (x_stdout x) ≤ SHELL_STREAM_LIMIT ∧ str_len (x_stderr x) ≤ SHELL_STREAM_LIMIT ∧
     ∀ data, str_len data ≤ I64_MAX - SHELL_STREAM_LIMIT →
       ∃ y, execs (tables_of (append_stdout r id data w).1 r) !! id = Some y ∧
         str_len (x_stdout y) ≤ SHELL_STREAM_LIMIT ∧ x_stderr y = x_stderr x ∧
         (str_len (x_stdout x ++ data) ≤ SHELL_STREAM_LIMIT → x_stdout y = x_stdout x ++ data)) ∧
  (execs (tables_of w r) !! id = None → ∀ data,
     append_stdout r id data w = (w, false) ∧ append_stderr r id data w = (w, false)).
Proof.
  intros H%runtime_reachable_outputs. split.
  - intros x Hx. destruct (H r id x Hx) as [H1 H2]. split_and!; [done..|]. intros data Hd.
    unfold append_stdout. rewrite Hx. cbn [fst]. rewrite tables_of_set, decide_True by done.
    cbn [execs set_execs]. eexists. split; [apply lookup_insert_eq|]. cbn. split_and!; [|done|].
    + apply append_keeps; [vm_compute; discriminate|done..].
    + intros Hfit. unfold append_bounded. by rewrite (proj2 (Z.leb_le _ _)).
  - intros Hx data. unfold append_stdout, append_stderr. by rewrite Hx.
Qed.

(** After the last id the counter starts over: the request that meets the end of the id
    space fails, and the ones after it are given the first ids again, whatever waits. *)
Lemma id_space_starts_over w : next_id_counter w = U32_MAX →
  (next_id w).2 = Err (protocol "Cursor message id space exhausted") ∧
  (next_id (next_id w).1).2 = Ok 1.
Proof. intros E. unfold next_id. rewrite E. done. Qed.

(** ** Samples *)
Module RuntimeSamples.
Definition cx : ExecContext := ScheduleSamples.context.
Definition shell : ToolCall := MkToolCall 0 (lit "s") (lit "m") (lit "Shell") [] (JObject []) None.
Definition task : ToolCall := MkToolCall 1 (lit "t") (lit "m") (lit "Task") [] (JObject []) None.
Definition w1 : World := (reserve_exec 5 0 shell cx empty_world).1.
Definition w2 : World := (reserve_exec 6 0 task cx w1).1.
Lemma reachable_w1 : runtime_reachable w1.
Proof. apply rtc_once. left. by eapply (step_reserve_exec _ 5 0 shell cx Direct None _ 1). Qed.
Lemma reachable_w2 : runtime_reachable w2.
Proof.
  eapply rtc_r; [apply reachable_w1|]. left. by eapply (step_reserve_exec _ 6 0 task cx Direct None _ 2).
Qed.
End RuntimeSamples.

Lemma exec_taken_once_witness :
  (take_exec_unless_interrupted 0 1 RuntimeSamples.w2).2 = Taken (MkExec RuntimeSamples.shell RuntimeSamples.cx 5 [] [] Direct) ∧
  (take_exec 0 1 (take_exec_unless_interrupted 0 1 RuntimeSamples.w2).1).2 = None.
Proof.
  split; [reflexivity|].
  destruct (exec_taken_once RuntimeSamples.w2 0 1 _ _ RuntimeSamples.reachable_w2 eq_refl) as (_ & _ & _ & H).
  by apply (H _ 0%nat (rtc_refl _ _)).
Defined.

Lemma interrupted_never_taken_witness :
  (interrupt_for_message 0 RuntimeSamples.w2).2 = [1] ∧
  (take_exec_unless_interrupted 0 2 (interrupt_for_message 0 RuntimeSamples.w2).1).2 = TakeInterrupted.
Proof.
  split; [vm_compute; reflexivity|].
  destruct (interrupted_never_taken RuntimeSamples.w2 0 _ _ RuntimeSamples.reachable_w2 eq_refl)
    as (_ & _ & _ & H).
  apply (H 2 _ 0%nat); [|apply rtc_refl]. apply (bool_decide_unpack _). vm_compute. exact I.
Defined.

Lemma shell_output_bounded_witness :
  ∃ y, execs (tables_of (append_stdout 0 1 (lit "ok") RuntimeSamples.w2).1 0) !! 1 = Some y ∧
    str_len (x_stdout y) ≤ SHELL_STREAM_LIMIT.
Proof.
  destruct (shell_output_bounded RuntimeSamples.w2 0 1 RuntimeSamples.reachable_w2) as [H _].
  edestruct H as (_ & _ & Hd); [vm_compute; reflexivity|].
  destruct (Hd (lit "ok")) as (y & Hy & Hb & _); [vm_compute; discriminate|]. by exists y.
Defined.
