(* ===== verification/StopFilter.v ===== *)
(** * StopFilter: stop sequences across the pieces of a text

    [StopFilter] of server/src/anthropic/messages.rs.  A stop sequence may be cut by the pieces the text comes in:
    [push] gives out what cannot be part of one, and holds the rest back.  The source counts in bytes, at the
    boundaries of characters; here an offset is the number of characters before it.

    [stop_filter_exact]: what is given out is the text up to the first stop sequence, never a part of one, and what is
    held back is the longest end of the text that may still become one. *)

From stdpp Require Import prelude list strings.
From S2P Require Import Prelude.
Local Open Scope nat_scope.

Section Filter.
Implicit Types (t : str) (sequences : list str).

(** server/src/anthropic/messages.rs:1339-1343, [StopFilter]. *)
Record StopFilter : Type := MkFilter {
  sf_sequences : list (list Z);
  sf_buffer : list Z;
  sf_stopped : option (list Z)
}.

(** server/src/anthropic/messages.rs:1346-1352, [StopFilter::new]. *)
Definition new_filter sequences : StopFilter := MkFilter sequences [] None.

(** [str::find]. *)
Definition find t (p : str) : option nat := (λ x, length x.1) <$> split_once p t.

(** server/src/anthropic/messages.rs:1377-1387, [earliest_match]: of two matches at the same place, the one listed first. *)
Definition earliest_match t sequences : option (nat * list Z) :=
  foldl (λ best sequence,
           match find t sequence with
           | Some position =>
               match best with
               | Some (current, _) => if position <? current then Some (position, sequence) else best
               | None => Some (position, sequence)
               end
           | None => best
           end) None sequences.

(** server/src/anthropic/messages.rs:1390-1406, [pending_suffix]. *)
Fixpoint pending_suffix t sequences : nat :=
  match t with
  | [] => 0
  | _ :: rest => if existsb (starts_with t) sequences then length t else pending_suffix rest sequences
  end.

(** server/src/anthropic/messages.rs:1354-1370, [StopFilter::push]. *)
Definition filter_push (f : StopFilter) (delta : str) : list Z * StopFilter :=
  match sf_stopped f with
  | Some _ => ([], f)
  | None =>
      let buffer := sf_buffer f ++ delta in
      match earliest_match buffer (sf_sequences f) with
      | Some (position, sequence) => (take position buffer, MkFilter (sf_sequences f) [] (Some sequence))
      | None =>
          let keep := pending_suffix buffer (sf_sequences f) in
          let split := length buffer - keep in
          (take split buffer, MkFilter (sf_sequences f) (drop split buffer) None)
      end
  end.

(** server/src/anthropic/messages.rs:1372-1374, [StopFilter::flush]. *)
Definition filter_flush (f : StopFilter) : list Z * StopFilter :=
  (sf_buffer f, MkFilter (sf_sequences f) [] (sf_stopped f)).

(** A text that comes in pieces. *)
Fixpoint filter_pushes (f : StopFilter) (deltas : list (list Z)) : list Z * StopFilter :=
  match deltas with
  | [] => ([], f)
  | delta :: deltas =>
      let '(out, f) := filter_push f delta in
      let '(more, f) := filter_pushes f deltas in
      (out ++ more, f)
  end.

(** ** Matches *)

(** [q] is at [position] of [t]. *)
Definition match_at t (position : nat) (q : str) : Prop := ∃ b, drop position t = q ++ b ∧ position ≤ length t.
(** No stop sequence is in [t]. *)
Definition clean sequences t : Prop := ∀ position q, q ∈ sequences → ¬ match_at t position q.

Lemma match_at_app t a q b : t = a ++ q ++ b ↔ match_at t (length a) q ∧ take (length a) t = a ∧ drop (length a + length q) t = b.
Proof.
  split.
  - intros ->. rewrite take_app_length. split; [|split; [done|]].
    + exists b. by rewrite drop_app_length, length_app; split; [|lia].
    + by rewrite <- drop_drop, drop_app_length, drop_app_length.
  - intros ((b' & Hd & _) & Ht & <-). rewrite <- drop_drop, Hd, drop_app_length, <- Hd. rewrite <- Ht at 1. symmetry. apply take_drop.
Qed.

Lemma find_spec t q :
  match find t q with
  | Some position => match_at t position q ∧ ∀ p, match_at t p q → position ≤ p
  | None => ∀ p, ¬ match_at t p q
  end.
Proof.
  unfold find. pose proof (split_once_spec q t) as H.
  assert (∀ p, match_at t p q → t = take p t ++ q ++ drop (p + length q) t) as Hm.
  { intros p (b & Hd & Hp). rewrite <- drop_drop, Hd, drop_app_length, <- Hd. symmetry. apply take_drop. }
  destruct (split_once q t) as [[a b]|]; cbn.
  - destruct H as [E H]. split; [by apply match_at_app in E as [? _]|].
    intros p Hp. pose proof (Hm p Hp) as Ht. apply H in Ht. rewrite length_take in Ht. lia.
  - intros p Hp. by eapply H, Hm.
Qed.

Lemma earliest_match_spec t sequences :
  match earliest_match t sequences with
  | Some (position, q) => q ∈ sequences ∧ match_at t position q ∧ ∀ p q', q' ∈ sequences → match_at t p q' → position ≤ p
  | None => clean sequences t
  end.
Proof.
  unfold earliest_match, clean. induction sequences as [|q qs IH] using rev_ind; [intros p q H; by apply elem_of_nil in H|].
  rewrite foldl_snoc. assert (∀ x, x ∈ qs ++ [q] ↔ x ∈ qs ∨ x = q) as Hin by (intros x; by rewrite elem_of_app, list_elem_of_singleton).
  pose proof (find_spec t q) as Hq. destruct (find t q) as [position|].
  - destruct Hq as [Hm Hq]. destruct (foldl _ None qs) as [[current q0]|].
    + destruct IH as (Hin0 & Hm0 & IH). destruct (Nat.ltb_spec position current).
      * split; [apply Hin; by right|]. split; [done|]. intros p q' [H'| ->]%Hin Hp; [|by apply Hq]. specialize (IH p q' H' Hp). lia.
      * split; [apply Hin; by left|]. split; [done|]. intros p q' [H'| ->]%Hin Hp; [by eapply IH|]. specialize (Hq p Hp). lia.
    + split; [apply Hin; by right|]. split; [done|]. intros p q' [H'| ->]%Hin Hp; [by destruct (IH p q' H')|by apply Hq].
  - destruct (foldl _ None qs) as [[current q0]|].
    + destruct IH as (Hin0 & Hm0 & IH). split; [apply Hin; by left|]. split; [done|].
      intros p q' [H'| ->]%Hin Hp; [by eapply IH|by destruct (Hq p)].
    + intros p q' [H'| ->]%Hin; [by apply IH|apply Hq].
Qed.

(** ** The end that is held back *)

(** The last [k] characters of [t] may become a stop sequence. *)
Definition may_become sequences t (k : nat) : Prop :=
  0 < k ≤ length t ∧ ∃ q, q ∈ sequences ∧ starts_with (drop (length t - k) t) q = true.
(** [k] is the most of the end of [t] that may. *)
Definition longest_pending sequences t (k : nat) : Prop :=
  (k = 0 ∨ may_become sequences t k) ∧ ∀ k', may_become sequences t k' → k' ≤ k.

Lemma pending_suffix_spec t sequences : longest_pending sequences t (pending_suffix t sequences).
Proof.
  induction t as [|c t [IH1 IH2]]; cbn [pending_suffix].
  { split; [by left|]. intros k' [H _]. cbn in H. lia. }
  assert (∀ k, k ≤ length t → drop (length (c :: t) - k) (c :: t) = drop (length t - k) t) as Hd.
  { intros k Hk. replace (length (c :: t) - k) with (S (length t - k)) by (cbn; lia). done. }
  destruct (existsb (starts_with (c :: t)) sequences) eqn:E.
  - apply existsb_exists in E as (q & Hq & Hs). split.
    + right. split; [cbn; lia|]. exists q. rewrite Nat.sub_diag. split; [by apply list_elem_of_In|done].
    + intros k' [H _]. lia.
  - split.
    + destruct IH1 as [->|[Hk (q & Hq & Hs)]]; [by left|]. right. split; [cbn; lia|]. exists q. rewrite Hd by lia. done.
    + intros k' [Hk (q & Hq & Hs)]. destruct (decide (k' ≤ length t)) as [Hle|Hgt].
      * apply IH2. split; [lia|]. exists q. rewrite <- Hd by done. done.
      * replace k' with (length (c :: t)) in Hs by (cbn in *; lia). rewrite Nat.sub_diag in Hs.
        exfalso. apply not_true_iff_false in E. apply E, existsb_exists. exists q. split; [by apply list_elem_of_In|done].
Qed.

(** What the filter knows of the text so far: [out] was given out, the rest is held back. *)
Record holds sequences t (out : str) (f : StopFilter) : Prop := {
  h_sequences : sf_sequences f = sequences;
  h_running : sf_stopped f = None;
  h_text : t = out ++ sf_buffer f;
  h_clean : clean sequences t;
  h_pending : longest_pending sequences t (length (sf_buffer f))
}.

(** A match of a longer text begins in what is held back, or after it. *)
Lemma match_in_buffer sequences t out f delta p q : holds sequences t out f → q ∈ sequences →
  match_at (t ++ delta) p q → length out ≤ p ∧ match_at (sf_buffer f ++ delta) (p - length out) q.
Proof.
  intros [_ _ Ht Hc [_ Hl]] Hq (b & Hd & Hp).
  assert (length t = length out + length (sf_buffer f)) as Hlen by (by rewrite Ht, length_app).
  assert (length out ≤ p) as Hle.
  { destruct (decide (length out ≤ p)) as [|Hn]; [done|]. exfalso.
    rewrite drop_app_le in Hd by lia.
    destruct (decide (p + length q ≤ length t)) as [Hin|Hout].
    - apply (Hc p q Hq). exists (drop (length q) (drop p t)). split; [|lia].
      rewrite <- (take_drop (length q) (drop p t)) at 1. f_equal.
      apply (f_equal (take (length q))) in Hd. rewrite take_app_length in Hd.
      rewrite take_app_le in Hd by (rewrite length_drop; lia). done.
    - specialize (Hl (length t - p)). enough (may_become sequences t (length t - p)) as H.
      { apply Hl in H. lia. }
      split; [lia|]. exists q. split; [done|]. replace (length t - (length t - p)) with p by lia.
      apply starts_with_spec. apply (f_equal (take (length q))) in Hd. rewrite take_app_length in Hd.
      rewrite take_app_ge in Hd by (rewrite length_drop; lia). by exists (take (length q - length (drop p t)) delta). }
  split; [done|]. exists b. rewrite Ht, <- app_assoc, drop_app_ge in Hd by done. split; [done|].
  rewrite Ht, !length_app in Hp. rewrite length_app. lia.
Qed.
Lemma match_of_buffer t out buffer p q : t = out ++ buffer → match_at buffer p q → match_at t (length out + p) q.
Proof.
  intros -> (b & Hd & Hp). exists b. rewrite drop_app_ge by lia. replace (length out + p - length out) with p by lia.
  split; [done|]. rewrite length_app. lia.
Qed.

(** The end of a longer text that may become a sequence is in what is held back and what is new. *)
Lemma pending_in_buffer sequences t out f delta k : holds sequences t out f →
  may_become sequences (t ++ delta) k ↔ may_become sequences (sf_buffer f ++ delta) k.
Proof.
  intros [_ _ Ht Hc [_ Hl]].
  assert (length t = length out + length (sf_buffer f)) as Hlen by (by rewrite Ht, length_app). split.
  - intros [Hk (q & Hq & Hs)]. assert (k ≤ length (sf_buffer f ++ delta)) as Hle.
    { destruct (decide (k ≤ length (sf_buffer f ++ delta))) as [|Hn]; [done|]. exfalso.
      rewrite length_app in Hn, Hk. enough (may_become sequences t (k - length delta)) as H.
      { apply Hl in H. lia. }
      split; [lia|]. exists q. split; [done|].
      rewrite length_app, drop_app_le in Hs by lia. apply starts_with_spec in Hs as (r & ->).
      apply starts_with_spec. exists (delta ++ r). rewrite <- app_assoc. do 2 f_equal. lia. }
    split; [lia|]. exists q. split; [done|]. rewrite Ht, <- app_assoc, length_app, drop_app_ge in Hs by lia.
    rewrite <- Hs. do 2 f_equal. lia.
  - intros [Hk (q & Hq & Hs)]. split; [rewrite !length_app in *; lia|]. exists q. split; [done|].
    rewrite Ht, <- app_assoc, length_app, drop_app_ge by lia. rewrite <- Hs. do 2 f_equal. lia.
Qed.
Lemma longest_transfer sequences t u k : (∀ k, may_become sequences t k ↔ may_become sequences u k) →
  longest_pending sequences u k → longest_pending sequences t k.
Proof. unfold longest_pending. intros H. setoid_rewrite H. done. Qed.

(** One more piece. *)
Lemma filter_push_spec sequences t out f delta : holds sequences t out f →
  let '(more, f') := filter_push f delta in
  match sf_stopped f' with
  | None => holds sequences (t ++ delta) (out ++ more) f'
  | Some q => q ∈ sequences ∧ (∃ rest, t ++ delta = (out ++ more) ++ q ++ rest) ∧ sf_buffer f' = [] ∧
      ∀ p q', q' ∈ sequences → match_at (t ++ delta) p q' → length (out ++ more) ≤ p
  end.
Proof.
  intros K. pose proof (λ p q, match_in_buffer _ _ _ _ delta p q K) as Hin.
  pose proof (λ k, pending_in_buffer _ _ _ _ delta k K) as Hpend.
  destruct K as [Es Er Et Hc Hl]. unfold filter_push. rewrite Er, Es. set (buffer := sf_buffer f ++ delta) in *.
  assert (t ++ delta = out ++ buffer) as Eb by (subst buffer; by rewrite Et, <- app_assoc).
  pose proof (earliest_match_spec buffer sequences) as Hm. destruct (earliest_match buffer sequences) as [[position q]|]; cbn.
  - destruct Hm as (Hq & Hm & Hfirst). split; [done|]. split; [|split; [done|]].
    + destruct Hm as (b & Hd & _). exists b. by rewrite <- app_assoc, <- Hd, take_drop.
    + intros p q' Hq' Hp. destruct (Hin p q' Hq' Hp) as [Hle Hp']. apply Hfirst in Hp'; [|done].
      rewrite length_app, length_take. lia.
  - pose proof (pending_suffix_spec buffer sequences) as Hs. set (keep := pending_suffix buffer sequences) in *.
    assert (keep ≤ length buffer) as Hk by (destruct Hs as [[->|[? _]] _]; lia).
    split; cbn; try done.
    + by rewrite <- app_assoc, take_drop.
    + intros p q Hq Hp. destruct (Hin p q Hq Hp) as [_ H]. by apply Hm in H.
    + rewrite length_drop. replace (length buffer - (length buffer - keep)) with keep by lia. by eapply longest_transfer.
Qed.
Lemma filter_stopped f deltas q : sf_stopped f = Some q → filter_pushes f deltas = ([], f).
Proof.
  intros H. induction deltas as [|d ds IH]; [done|]. cbn [filter_pushes]. unfold filter_push. rewrite H, IH. done.
Qed.
Lemma filter_pushes_spec sequences t out f deltas : holds sequences t out f →
  let '(more, f') := filter_pushes f deltas in
  match sf_stopped f' with
  | None => holds sequences (t ++ concat deltas) (out ++ more) f'
  | Some q => q ∈ sequences ∧ sf_buffer f' = [] ∧ ∃ n rest, n < length deltas ∧
      clean sequences (t ++ concat (take n deltas)) ∧
      t ++ concat (take (S n) deltas) = (out ++ more) ++ q ++ rest ∧
      ∀ p q', q' ∈ sequences → match_at (t ++ concat (take (S n) deltas)) p q' → length (out ++ more) ≤ p
  end.
Proof.
  revert t out f. induction deltas as [|delta deltas IH]; intros t out f K; cbn [filter_pushes concat].
  { rewrite (h_running _ _ _ _ K), !app_nil_r. done. }
  pose proof (filter_push_spec sequences t out f delta K) as H. destruct (filter_push f delta) as [piece f1].
  destruct (sf_stopped f1) as [q|] eqn:E1.
  - rewrite (filter_stopped f1 deltas q E1), E1, app_nil_r. destruct H as (Hq & (rest & Hr) & Hb & Hfirst).
    split; [done|]. split; [done|]. exists 0, rest. cbn [take concat length]. rewrite !app_nil_r.
    split; [lia|]. split; [apply K|]. by split.
  - specialize (IH _ _ _ H). destruct (filter_pushes f1 deltas) as [more f2]. destruct (sf_stopped f2) as [q|].
    + destruct IH as (Hq & Hb & n & rest & Hn & Hcl & Hr & Hfirst). split; [done|]. split; [done|].
      exists (S n), rest. rewrite !firstn_cons. cbn [length concat]. rewrite !(app_assoc t delta), (app_assoc out piece).
      split; [lia|]. by split.
    + by rewrite (app_assoc t), (app_assoc out).
Qed.

Lemma new_filter_holds sequences : Forall (λ q, q ≠ []) sequences → holds sequences [] [] (new_filter sequences).
Proof.
  intros Hne. split; try done.
  - intros p q Hq (b & Hd & Hp). rewrite Forall_forall in Hne. apply Hne in Hq. rewrite drop_nil in Hd. by destruct q.
  - split; [by left|]. intros k' [H _]. cbn in H. lia.
Qed.

(** C14: However a text is cut into pieces, what the filter of stop sequences gives out is exact.  While no stop
    sequence has come, what was given out and what is held back are the whole text, and what is held back is no more
    than the longest end of it that may still become a stop sequence.  When it stops, it is with the piece that
    completes the first one: what was given out is the text before the earliest match, and the sequence reported
    is the one that stands there. *)
Theorem stop_filter_exact sequences deltas : Forall (λ q, q ≠ []) sequences →
  let '(out, f) := filter_pushes (new_filter sequences) deltas in
  match sf_stopped f with
  | None => concat deltas = out ++ sf_buffer f ∧ clean sequences (concat deltas) ∧
      longest_pending sequences (concat deltas) (length (sf_buffer f))
  | Some q => q ∈ sequences ∧ ∃ n rest, n < length deltas ∧
      clean sequences (concat (take n deltas)) ∧
      concat (take (S n) deltas) = out ++ q ++ rest ∧
      ∀ p q', q' ∈ sequences → match_at (concat (take (S n) deltas)) p q' → length out ≤ p
  end.
Proof.
  intros Hne. pose proof (filter_pushes_spec sequences [] [] _ deltas (new_filter_holds sequences Hne)) as H.
  destruct (filter_pushes (new_filter sequences) deltas) as [out f]. destruct (sf_stopped f) as [q|].
  - destruct H as (Hq & _ & H). by split.
  - destruct H as [_ _ Ht Hc Hl]. by split.
Qed.

End Filter.

(** A stop sequence cut in two: nothing of it is given out. *)
Lemma stop_filter_exact_witness :
  filter_pushes (new_filter [lit "STOP"; lit "END"]) [lit "an EN"; lit "D of S"; lit "T"] =
    (lit "an ", MkFilter [lit "STOP"; lit "END"] [] (Some (lit "END"))) ∧
  ∃ n rest, n < 3 ∧ concat (take (S n) [lit "an EN"; lit "D of S"; lit "T"]) = lit "an " ++ lit "END" ++ rest.
Proof.
  assert (filter_pushes (new_filter [lit "STOP"; lit "END"]) [lit "an EN"; lit "D of S"; lit "T"] =
    (lit "an ", MkFilter [lit "STOP"; lit "END"] [] (Some (lit "END")))) as E by (vm_compute; reflexivity).
  split; [exact E|].
  pose proof (stop_filter_exact [lit "STOP"; lit "END"] [lit "an EN"; lit "D of S"; lit "T"]
    ltac:(repeat constructor; discriminate)) as H.
  rewrite E in H. destruct H as (_ & n & rest & Hn & _ & Hr & _). exists n, rest. split; [exact Hn|exact Hr].
Defined.
