(* ===== verification/ClaudeApi.v ===== *)
(** * ClaudeApi: errors, settings and models of the Claude gateway

    server/src/anthropic/mod.rs and models.rs: the gateway speaks the Messages API to Claude Code, and answers with
    the errors of that API ([ApiError]); its settings name up to four models of the model library, and [resolve]
    finds the one a request means.

    [from_error_retry]: what the client is told to retry.  [catalog_resolves]: the identifier the gateway lists for a
    model resolves to that model. *)

From stdpp Require Import prelude gmap strings list.
From S2P Require Import Prelude Errors External Json Message Configuration.
Local Open Scope Z_scope.

(** reqwest: did the request time out; chrono: an instant, in seconds, as RFC 3339 writes it. *)
Class Reqwest : Type := { is_timeout : foreign_error → bool }.
Class Chrono : Type := { to_rfc3339 : Z → str }.

(** ** Errors *)

(** server/src/anthropic/mod.rs:135-141, [ApiError]. *)
Record ApiError : Type := MkApi {
  ae_status : Z;
  ae_kind : string;
  ae_message : list Z;
  ae_should_retry : bool;
  ae_retry_after : option Z
}.
Global Instance ApiError_eq_dec : EqDecision ApiError.
Proof. solve_decision. Defined.

(** server/src/anthropic/mod.rs:144-152, [ApiError::invalid]. *)
Definition invalid (message : str) : ApiError := MkApi 400 "invalid_request_error" message false None.
(** server/src/anthropic/mod.rs:154-162, [ApiError::authentication]. *)
Definition authentication (message : str) : ApiError := MkApi 401 "authentication_error" message false None.
(** server/src/anthropic/mod.rs:164-172, [ApiError::not_found]. *)
Definition not_found (message : str) : ApiError := MkApi 404 "not_found_error" message false None.
(** server/src/anthropic/mod.rs:174-182, [ApiError::unavailable]. *)
Definition unavailable (message : str) : ApiError := MkApi 503 "api_error" message true None.
(** server/src/anthropic/models.rs:144-152, [internal]. *)
Definition internal (message : str) : ApiError := MkApi 500 "api_error" message true None.

(** server/src/anthropic/mod.rs:233-245, [ApiError::from_error]: the status an adapter wrote into its message. *)
Definition UPSTREAM_STATUSES : list (Z * (string * bool)) :=
  [(400, ("invalid_request_error", false)); (401, ("authentication_error", false)); (403, ("permission_error", false));
   (404, ("not_found_error", false)); (413, ("request_too_large", false)); (429, ("rate_limit_error", true));
   (500, ("api_error", true)); (502, ("api_error", true)); (503, ("api_error", true)); (504, ("api_error", true));
   (529, ("overloaded_error", true))]%string.
Definition mentions (message : str) (code : Z) : bool := str_contains (32 :: decimal code ++ [32]) message.

(** server/src/anthropic/mod.rs:232-263, [ApiError::from_error]: the status the message tells, or a bad gateway. *)
Definition upstream_error (message : str) (retryable : bool) : ApiError :=
  match list_find (λ row, mentions message row.1 = true) UPSTREAM_STATUSES with
  | Some (_, (code, (kind, retry))) => MkApi code kind message retry None
  | None => MkApi 502 "api_error" message retryable None
  end.

Section Api.
Context {RQ : Reqwest}.

(** server/src/anthropic/mod.rs:186-264, [ApiError::from_error]. *)
Definition from_error (error : Error) : ApiError :=
  match error with
  | Cancelled => MkApi 503 "api_error" (lit "the request was cancelled") true None
  | Protocol message => MkApi 502 "api_error" (lit "upstream protocol error: " ++ message) true None
  | Config _ | Store _ | Database _ | Migration _ => MkApi 500 "api_error" (error_display error) false None
  | Http source =>
      if is_timeout source then MkApi 504 "api_error" (error_display error) true None
      else upstream_error (error_display error) true
  | Provider _ => upstream_error (error_display error) true
  | _ => upstream_error (error_display error) false
  end.

(** server/src/anthropic/mod.rs:268-285, [IntoResponse::into_response]: the status, the headers and the body. *)
Definition error_response (error : ApiError) : Z * list (string * list Z) * json :=
  (ae_status error,
   ("x-should-retry"%string, if ae_should_retry error then lit "true" else lit "false")
   :: match ae_retry_after error with Some seconds => [("retry-after"%string, decimal seconds)] | None => [] end,
   object [("type", text "error");
           ("error", object [("type", text (ae_kind error)); ("message", JString (ae_message error))])]%string).
End Api.

(** ** Settings *)

(** server/src/anthropic/mod.rs:32-39, [ClaudeSettings]. *)
Record ClaudeSettings : Type := MkSettings {
  cs_enabled : bool;
  cs_port : Z;
  cs_default : option (list Z);
  cs_sonnet : option (list Z);
  cs_opus : option (list Z);
  cs_haiku : option (list Z)
}.
(** server/src/anthropic/mod.rs:23-23, [DEFAULT_PORT]. *)
Definition CLAUDE_DEFAULT_PORT : Z := 43121.
(** server/src/anthropic/mod.rs:42-51, [ClaudeSettings::default]. *)
Definition default_settings : ClaudeSettings := MkSettings false CLAUDE_DEFAULT_PORT None None None None.

(** [id.filter(|id| !id.is_empty())]. *)
Definition non_empty (id : option (list Z)) : option (list Z) :=
  id ← id; match id with [] => None | _ => Some id end.

(** server/src/anthropic/mod.rs:75-79, [ClaudeSettings::configured_default]. *)
Definition configured_default (s : ClaudeSettings) : option (list Z) := non_empty (cs_default s).
(** server/src/anthropic/mod.rs:82-92, [ClaudeSettings::model_references]. *)
Definition model_references (s : ClaudeSettings) : list (string * list Z) :=
  omap (λ p, (λ id, (p.1, id)) <$> non_empty p.2)
    [("default", cs_default s); ("sonnet", cs_sonnet s); ("opus", cs_opus s); ("haiku", cs_haiku s)]%string.
(** server/src/anthropic/mod.rs:55-72, [ClaudeSettings::validate]. *)
Definition validate_settings (s : ClaudeSettings) : res () :=
  if cs_port s =? 0 then Err (Config (lit "Claude port must be non-zero"))
  else
    match list_find (λ p, trim p.2 = []) (model_references s) with
    | Some (_, (label, _)) => Err (Config (lit "Claude " ++ lit label ++ lit " model must not be blank"))
    | None =>
        if cs_enabled s && bool_decide (configured_default s = None)
        then Err (Config (lit "select a default Claude model before enabling the gateway"))
        else Ok ()
    end.

(** server/src/anthropic/mod.rs:106-110, [ModelFamily]. *)
Inductive ModelFamily : Type := Sonnet | Opus | Haiku.
(** server/src/anthropic/mod.rs:95-102, [ClaudeSettings::family]. *)
Definition family (s : ClaudeSettings) (f : ModelFamily) : option (list Z) :=
  non_empty (match f with Sonnet => cs_sonnet s | Opus => cs_opus s | Haiku => cs_haiku s end).

(** ** Models *)

(** server/src/anthropic/models.rs:12-12, [DISCOVERY_PREFIX]. *)
Definition DISCOVERY_PREFIX : str := lit "claude-".
Definition ascii_lowercase (s : str) : str := to_ascii_lower <$> s.
(** server/src/anthropic/models.rs:15-19, [discovery_id]. *)
Definition discovery_id (model_hash : str) : str := DISCOVERY_PREFIX ++ ascii_lowercase model_hash.
(** server/src/anthropic/models.rs:109-115, [discovery_hash]: the first seven bytes are the prefix when the first seven
    characters are. *)
Definition discovery_hash (id : str) : option str :=
  if bool_decide (ascii_lowercase (take (length DISCOVERY_PREFIX) id) = DISCOVERY_PREFIX) then
    match drop (length DISCOVERY_PREFIX) id with [] => None | hash => Some (ascii_lowercase hash) end
  else None.
(** server/src/anthropic/models.rs:124-135, [family_of]. *)
Definition family_of (requested : str) : option ModelFamily :=
  let id := ascii_lowercase requested in
  if str_contains (lit "opus") id then Some Opus
  else if str_contains (lit "sonnet") id then Some Sonnet
  else if str_contains (lit "haiku") id then Some Haiku
  else None.
(** [str::strip_suffix], the whole text without it. *)
Definition strip_suffix (suffix s : str) : str :=
  if bool_decide (drop (length s - length suffix) s = suffix) then take (length s - length suffix) s else s.
(** server/src/anthropic/models.rs:32-35, [resolve]: the name that is looked up. *)
Definition requested_name (requested : str) : str := trim (strip_suffix (lit "[1m]") (trim requested)).

Section Models.
(** What the model table answers for a hash. *)
Context (model : str → res (option ModelConfig)).

(** server/src/anthropic/models.rs:137-142, [load]. *)
Definition load (id : str) : result ApiError (option ModelConfig) := map_err (λ e, internal (error_display e)) (model id).
(** An identifier that may not be there. *)
Definition load_option (id : option str) : result ApiError (option ModelConfig) :=
  match id with Some id => load id | None => Ok None end.
(** [if let Some(model) = load(..).await? { return Ok(model) }]. *)
Definition or_load (id : option str) (otherwise : result ApiError ModelConfig) : result ApiError ModelConfig :=
  found ← load_option id;
  match found with Some m => Ok m | None => otherwise end.

(** server/src/anthropic/models.rs:27-63, [resolve]. *)
Definition resolve (settings : ClaudeSettings) (requested : str) : result ApiError ModelConfig :=
  let requested := requested_name requested in
  id ← ok_or (configured_default settings) (invalid (lit "no default Claude model is configured"));
  found ← load id;
  fallback ← ok_or found (invalid (lit "the default Claude model no longer exists; re-select it in settings"));
  match requested with
  | [] => Ok fallback
  | _ =>
      or_load (Some requested)
        (or_load (discovery_hash requested)
           (or_load (family_of requested ≫= family settings) (Ok fallback)))
  end.

(** server/src/anthropic/models.rs:66-81, [catalog]: the loop over the references. *)
Fixpoint catalog_loop (seen : list (list Z)) (ids : list (list Z)) : result ApiError (list ModelConfig) :=
  match ids with
  | [] => Ok []
  | id :: ids =>
      if bool_decide (id ∈ seen) then catalog_loop seen ids
      else
        found ← load id;
        rest ← catalog_loop (id :: seen) ids;
        Ok (match found with Some m => m :: rest | None => rest end)
  end.
(** server/src/anthropic/models.rs:66-81, [catalog]. *)
Definition catalog (settings : ClaudeSettings) : result ApiError (list ModelConfig) :=
  catalog_loop [] (model_references settings).*2.
End Models.

(** [Option<String>] in [json!]. *)
Definition text_or_null (t : option str) : json := match t with Some t => JString t | None => JNull end.

Section CatalogJson.
Context {CH : Chrono}.
Definition model_json (m : ModelConfig) : json :=
  object [("type", text "model"); ("id", JString (discovery_id (model_hash m)));
          ("display_name", JString (in_display_name (config m))); ("created_at", JString (to_rfc3339 (created_at_ms m)))]%string.
(** server/src/anthropic/models.rs:85-103, [catalog_json]. *)
Definition catalog_json (models : list ModelConfig) : json :=
  object [("data", JArray (model_json <$> models)); ("has_more", JBool false);
          ("first_id", text_or_null ((λ m, discovery_id (model_hash m)) <$> head models));
          ("last_id", text_or_null ((λ m, discovery_id (model_hash m)) <$> last models))]%string.
End CatalogJson.

(** ** What the client is told to retry *)

Lemma upstream_error_cases message retryable : let a := upstream_error message retryable in
  ae_message a = message ∧
  ((∃ code kind, (code, (kind, ae_should_retry a)) ∈ UPSTREAM_STATUSES ∧ ae_status a = code ∧ mentions message code = true) ∨
   ae_status a = 502 ∧ ae_should_retry a = retryable).
Proof.
  unfold upstream_error. destruct (list_find _ UPSTREAM_STATUSES) as [[i [code [kind retry]]]|] eqn:E; cbn; (split; [done|]).
  - apply list_find_Some in E as (Hl & Hm & _). left. exists code, kind. split; [by eapply list_elem_of_lookup_2|by split].
  - by right.
Qed.
Lemma upstream_error_retry message retryable : let a := upstream_error message retryable in
  ae_should_retry a = true → 500 ≤ ae_status a ∨ ae_status a = 429.
Proof.
  cbn zeta. intros Hr. destruct (upstream_error_cases message retryable) as [_ [(code & kind & Hin & -> & _)|[-> _]]]; [|lia].
  rewrite Hr in Hin. unfold UPSTREAM_STATUSES in Hin. rewrite !elem_of_cons in Hin.
  repeat (destruct Hin as [Hin|Hin]; [simplify_eq; lia|]). by apply elem_of_nil in Hin.
Qed.

(** The status and the advice agree: what is told to be retried is a status of the server, a rate limit or a timeout. *)
Lemma from_error_retry {RQ : Reqwest} error : let a := from_error error in
  ae_should_retry a = true → 500 ≤ ae_status a ∨ ae_status a = 429.
Proof.
  cbn zeta. destruct error; cbn [from_error]; try exact (upstream_error_retry _ _); try (cbn; intros; lia); try done.
  destruct (is_timeout e); [cbn; intros; lia|exact (upstream_error_retry _ _)].
Qed.

(** ** The models that are listed *)

Lemma ascii_lowercase_length s : length (ascii_lowercase s) = length s.
Proof. apply length_fmap. Qed.
Lemma ascii_lowercase_twice s : ascii_lowercase (ascii_lowercase s) = ascii_lowercase s.
Proof.
  unfold ascii_lowercase. rewrite <- list_fmap_compose. apply list_fmap_ext. intros i c _. unfold compose, to_ascii_lower, is_ascii_upper.
  destruct ((65 <=? c) && (c <=? 90)) eqn:E; [|by rewrite E]. apply andb_true_iff in E as [H1%Z.leb_le H2%Z.leb_le].
  by decide_bools.
Qed.
Lemma discovery_hash_id h : h ≠ [] → discovery_hash (discovery_id h) = Some (ascii_lowercase h).
Proof.
  intros Hne. unfold discovery_hash, discovery_id. rewrite take_app_length, drop_app_length.
  rewrite bool_decide_eq_true_2 by (vm_compute; reflexivity). pose proof (ascii_lowercase_twice h) as Ht.
  pose proof (ascii_lowercase_length h) as Hl. destruct (ascii_lowercase h) as [|c k]; [by destruct h|]. by rewrite Ht.
Qed.

(** A hash is what the model library makes: lower-case hexadecimal digits. *)
Definition is_hash (h : str) : Prop := h ≠ [] ∧ Forall (λ c, is_ascii_digit c = true ∨ 97 ≤ c ≤ 102) h.

Lemma is_hash_plain h : is_hash h → Forall (λ c, is_whitespace c = false) h ∧ ascii_lowercase h = h.
Proof.
  intros [_ H]. split.
  - eapply Forall_impl; [exact H|]. intros c. unfold is_ascii_digit, is_whitespace. cbn. intros [[Ha%Z.leb_le Hb%Z.leb_le]%andb_true_iff|Hc];
      by decide_bools.
  - unfold ascii_lowercase. induction H as [|c h Hc H IH]; [done|]. cbn. f_equal; [|done]. unfold to_ascii_lower, is_ascii_upper.
    unfold is_ascii_digit in Hc. destruct Hc as [[Ha%Z.leb_le Hb%Z.leb_le]%andb_true_iff|Hc]; by decide_bools.
Qed.

Lemma trim_plain s : Forall (λ c, is_whitespace c = false) s → trim s = s.
Proof.
  intros H. unfold trim. assert (∀ k, Forall (λ c, is_whitespace c = false) k → trim_start k = k) as Hk.
  { intros [|c k] Hc; [done|]. apply Forall_cons in Hc as [Hc _]. cbn. by rewrite Hc. }
  rewrite (Hk s H), Hk, reverse_involutive; [done|]. by rewrite Forall_reverse.
Qed.
(** The name that is looked up for an identifier that is listed. *)
Lemma requested_name_listed h : is_hash h → requested_name (discovery_id h) = DISCOVERY_PREFIX ++ h.
Proof.
  intros Hh. pose proof (is_hash_plain h Hh) as [Hp Hl]. destruct Hh as [Hne Hh]. unfold requested_name, discovery_id. rewrite Hl.
  assert (Forall (λ c, is_whitespace c = false) (DISCOVERY_PREFIX ++ h)) as Hall.
  { apply Forall_app. split; [|done]. repeat constructor. }
  rewrite (trim_plain _ Hall). unfold strip_suffix. rewrite bool_decide_eq_false_2; [by apply trim_plain|].
  intros E. apply (f_equal last) in E. destruct h as [|c h _] using rev_ind; [done|].
  rewrite app_assoc in E. rewrite drop_app_le in E.
  - rewrite last_snoc in E. apply Forall_app in Hh as [_ Hc]. apply Forall_cons in Hc as [Hc _]. change (last (lit "[1m]")) with (Some 93) in E.
    injection E as ->. unfold is_ascii_digit in Hc. destruct Hc as [Hc1|Hc2]; [discriminate|lia].
  - rewrite !length_app. cbn. lia.
Qed.

(** What the model table answers: reading it does not fail, and a model is found under its own hash. *)
Definition model_table (model : str → res (option ModelConfig)) : Prop :=
  (∀ id, ∃ found, model id = Ok found) ∧ ∀ id m, model id = Ok (Some m) → model_hash m = id ∧ is_hash id.

Lemma catalog_loop_elem model m : ∀ ids seen ms, catalog_loop model seen ids = Ok ms → m ∈ ms → ∃ id, id ∈ ids ∧ model id = Ok (Some m).
Proof.
  induction ids as [|id ids IH]; intros seen ms; cbn [catalog_loop]; [intros [= <-] H; by apply elem_of_nil in H|].
  case_bool_decide as Hs.
  - intros H Hm. destruct (IH _ _ H Hm) as (id' & Hin & Hid). exists id'. split; [by right|done].
  - unfold load. destruct (model id) as [found|e] eqn:El; [|done]. cbn [map_err mbind result_bind].
    destruct (catalog_loop model (id :: seen) ids) as [rest|e] eqn:Er; [|done]. cbn [mbind result_bind]. intros [= <-] Hm.
    destruct found as [m'|]; [apply elem_of_cons in Hm as [->|Hm]; [exists id; split; [by left|done]|]|];
      destruct (IH _ _ Er Hm) as (id' & Hin & Hid); (exists id'; split; [by right|done]).
Qed.

(** An identifier the gateway lists for a model resolves to that model. *)
Lemma resolve_discovery model settings d dm h m : model_table model → configured_default settings = Some d → model d = Ok (Some dm) →
  model h = Ok (Some m) → resolve model settings (discovery_id h) = Ok m.
Proof.
  intros [Htot Hkey] Hd Hdm Hm. destruct (Hkey _ _ Hm) as [_ Hh]. unfold resolve.
  rewrite (requested_name_listed h Hh), Hd. cbn [ok_or mbind result_bind]. unfold load at 1. rewrite Hdm.
  cbn [ok_or map_err mbind result_bind].
  destruct (DISCOVERY_PREFIX ++ h) as [|c k] eqn:E; [done|]. rewrite <- E. unfold or_load at 1, load_option, load.
  destruct (Htot (DISCOVERY_PREFIX ++ h)) as [[m'|] Ef]; rewrite Ef; cbn [map_err mbind result_bind].
  { apply Hkey in Ef as [_ [_ Ef]]. apply Forall_cons in Ef as [_ Ef]. apply Forall_cons in Ef as [Hc _]. cbn in Hc. destruct Hc as [Hc|Hc]; [done|lia]. }
  pose proof (is_hash_plain h Hh) as [_ Hl]. destruct Hh as [Hne _].
  pose proof (discovery_hash_id h Hne) as Hi. unfold discovery_id in Hi. rewrite Hl in Hi. rewrite Hi.
  unfold or_load, load_option, load. by rewrite Hm.
Qed.

(** A model of the gateway's catalogue is reached by the identifier the catalogue gives it, whatever the aliases
    are set to: [resolve] finds that very model, not the default and not an alias. *)
Theorem catalog_resolves model settings d dm ms m : model_table model → configured_default settings = Some d → model d = Ok (Some dm) →
  catalog model settings = Ok ms → m ∈ ms → resolve model settings (discovery_id (model_hash m)) = Ok m.
Proof.
  intros Ht Hd Hdm Hc Hm. destruct (catalog_loop_elem _ _ _ _ _ Hc Hm) as (id & _ & Hid).
  destruct (proj2 Ht _ _ Hid) as [-> _]. by eapply resolve_discovery.
Qed.

(** A catalogue of two models; the default is one of them, the alias of the Opus family the other. *)
Module CatalogSample.
Definition model_of (h : str) : ModelConfig := MkConfig h ConfigurationSamples.normal 0 0.
Definition table (id : str) : res (option ModelConfig) :=
  if decide (id = lit "ab12" ∨ id = lit "cd34") then Ok (Some (model_of id)) else Ok None.
Definition settings : ClaudeSettings := MkSettings true 43121 (Some (lit "ab12")) None (Some (lit "cd34")) None.
Lemma table_ok : model_table table.
Proof.
  unfold table. split.
  - intros id. destruct (decide _); by eexists.
  - intros id m. destruct (decide _) as [H|]; [|done]. intros [= <-]. split; [done|].
    destruct H as [->| ->]; (split; [done|]); apply (bool_decide_unpack _); vm_compute; exact I.
Qed.
End CatalogSample.
Lemma catalog_resolves_witness :
  resolve CatalogSample.table CatalogSample.settings (discovery_id (lit "cd34")) = Ok (CatalogSample.model_of (lit "cd34")).
Proof.
  apply (catalog_resolves CatalogSample.table CatalogSample.settings (lit "ab12") (CatalogSample.model_of (lit "ab12"))
    [CatalogSample.model_of (lit "ab12"); CatalogSample.model_of (lit "cd34")] (CatalogSample.model_of (lit "cd34")) CatalogSample.table_ok).
  - reflexivity.
  - vm_compute. reflexivity.
  - vm_compute. reflexivity.
  - right. left.
Defined.
