(* ===== verification/ClaudeStream.v ===== *)
(** * ClaudeStream: the events of the Messages API, written

    [ResponseTranslator] and [MessageAssembler] of server/src/anthropic/messages.rs: the shared events of a model call
    become the stream of a message, which the assembler folds into one document for a client that did not ask for a
    stream.  An operation of the translator is a computation of [Emit], which writes events.

    An index into a [serde_json::Value] that is neither an object nor null panics; the assembler's operations return
    [Panicked] there. *)

From stdpp Require Import prelude gmap strings list sorting.
From S2P Require Import Prelude Errors External Json Message Budget ModelCycle Provider ClaudeApi StopFilter.
Local Open Scope Z_scope.

(** ** The translator *)

(** server/src/anthropic/messages.rs:800-803, [BlockKind]. *)
Inductive BlockKind : Type := BText | BThinking.
Global Instance BlockKind_eq_dec : EqDecision BlockKind.
Proof. solve_decision. Defined.

(** server/src/anthropic/messages.rs:782-786, [OpenBlock]. *)
Record OpenBlock : Type := MkBlock { ob_index : Z; ob_kind : BlockKind; ob_provider_index : Z }.
(** server/src/anthropic/messages.rs:789-797, [PendingTool]. *)
Record PendingTool : Type := MkPending {
  pt_provider_index : Z;
  pt_call_id : list Z;
  pt_name : list Z;
  pt_arguments : list Z;
  pt_ended : bool
}.
(** server/src/anthropic/messages.rs:764-780, [ResponseTranslator]; the pending tools by increasing block index. *)
Record Translator : Type := MkTranslator {
  tr_message_id : list Z;
  tr_model : list Z;
  tr_next_index : Z;
  tr_open : option OpenBlock;
  tr_tools : list (Z * PendingTool);
  tr_estimated_input_tokens : Z;
  tr_usage : Usage;
  tr_finish : option FinishReason;
  tr_stopped_by : option (list Z);
  tr_text : StopFilter;
  tr_finished : bool
}.

Definition empty_usage : Usage := MkUsage None None None None None None None.
(** server/src/anthropic/messages.rs:806-825, [ResponseTranslator::new]. *)
Definition new_translator (message_id model : str) (stop_sequences : list (list Z)) (estimated : Z) : Translator :=
  MkTranslator message_id model 0 None [] estimated empty_usage None None (new_filter stop_sequences) false.

(** Assignments to the members. *)
Definition with_index (i : Z) (s : Translator) : Translator :=
  MkTranslator (tr_message_id s) (tr_model s) i (tr_open s) (tr_tools s) (tr_estimated_input_tokens s) (tr_usage s)
    (tr_finish s) (tr_stopped_by s) (tr_text s) (tr_finished s).
Definition with_open (b : option OpenBlock) (s : Translator) : Translator :=
  MkTranslator (tr_message_id s) (tr_model s) (tr_next_index s) b (tr_tools s) (tr_estimated_input_tokens s) (tr_usage s)
    (tr_finish s) (tr_stopped_by s) (tr_text s) (tr_finished s).
Definition with_tools (t : list (Z * PendingTool)) (s : Translator) : Translator :=
  MkTranslator (tr_message_id s) (tr_model s) (tr_next_index s) (tr_open s) t (tr_estimated_input_tokens s) (tr_usage s)
    (tr_finish s) (tr_stopped_by s) (tr_text s) (tr_finished s).
Definition with_usage (u : Usage) (s : Translator) : Translator :=
  MkTranslator (tr_message_id s) (tr_model s) (tr_next_index s) (tr_open s) (tr_tools s) (tr_estimated_input_tokens s) u
    (tr_finish s) (tr_stopped_by s) (tr_text s) (tr_finished s).
Definition with_finish (r : FinishReason) (s : Translator) : Translator :=
  MkTranslator (tr_message_id s) (tr_model s) (tr_next_index s) (tr_open s) (tr_tools s) (tr_estimated_input_tokens s)
    (tr_usage s) (Some r) (tr_stopped_by s) (tr_text s) (tr_finished s).
Definition with_stopped (q : option (list Z)) (s : Translator) : Translator :=
  MkTranslator (tr_message_id s) (tr_model s) (tr_next_index s) (tr_open s) (tr_tools s) (tr_estimated_input_tokens s)
    (tr_usage s) (tr_finish s) q (tr_text s) (tr_finished s).
Definition with_text (f : StopFilter) (s : Translator) : Translator :=
  MkTranslator (tr_message_id s) (tr_model s) (tr_next_index s) (tr_open s) (tr_tools s) (tr_estimated_input_tokens s)
    (tr_usage s) (tr_finish s) (tr_stopped_by s) f (tr_finished s).
Definition set_finished (s : Translator) : Translator :=
  MkTranslator (tr_message_id s) (tr_model s) (tr_next_index s) (tr_open s) (tr_tools s) (tr_estimated_input_tokens s)
    (tr_usage s) (tr_finish s) (tr_stopped_by s) (tr_text s) true.

(** *** Writing *)

(** What an operation writes, its result and the translator after it. *)
Definition Emit (A : Type) : Type := Translator → list json * (A * Translator).
Global Instance emit_ret : MRet Emit := λ A a s, ([], (a, s)).
Global Instance emit_bind : MBind Emit := λ A B k m s,
  let '(out, (a, s)) := m s in
  let '(more, r) := k a s in
  (out ++ more, r).
Definition gets {A} (f : Translator → A) : Emit A := λ s, ([], (f s, s)).
Definition modify (f : Translator → Translator) : Emit () := λ s, ([], ((), f s)).
(** [out.push(value)]. *)
Definition write (value : json) : Emit () := λ s, ([value], ((), s)).
Definition write_when (b : bool) (value : json) : Emit () := λ s, (if b then [value] else [], ((), s)).

(** The events of a content block. *)
Definition content_block_start (i : Z) (block : json) : json :=
  object [("type", text "content_block_start"); ("index", number i); ("content_block", block)]%string.
Definition content_block_delta (i : Z) (delta : json) : json :=
  object [("type", text "content_block_delta"); ("index", number i); ("delta", delta)]%string.
Definition content_block_stop (i : Z) : json :=
  object [("type", text "content_block_stop"); ("index", number i)]%string.
Definition text_delta (t : str) : json := object [("type", text "text_delta"); ("text", JString t)]%string.
Definition thinking_delta (t : str) : json := object [("type", text "thinking_delta"); ("thinking", JString t)]%string.
Definition signature_delta (t : str) : json := object [("type", text "signature_delta"); ("signature", JString t)]%string.
Definition input_json_delta (t : str) : json := object [("type", text "input_json_delta"); ("partial_json", JString t)]%string.
Definition opening_block (kind : BlockKind) : json :=
  match kind with
  | BText => object [("type", text "text"); ("text", text "")]%string
  | BThinking => object [("type", text "thinking"); ("thinking", text "")]%string
  end.
Definition tool_use_block (call_id name : str) : json :=
  object [("type", text "tool_use"); ("id", JString call_id); ("name", JString name); ("input", JObject [])]%string.
Definition non_empty_text (t : str) : bool := match t with [] => false | _ => true end.

(** server/src/anthropic/messages.rs:827-846, [ResponseTranslator::start]. *)
Definition message_start (s : Translator) : json :=
  object [("type", text "message_start");
          ("message", object [("id", JString (tr_message_id s)); ("type", text "message"); ("role", text "assistant");
             ("model", JString (tr_model s)); ("content", JArray []); ("stop_reason", JNull); ("stop_sequence", JNull);
             ("usage", object [("input_tokens", number (tr_estimated_input_tokens s)); ("output_tokens", number 0)])])]%string.

(** server/src/anthropic/messages.rs:1144-1162, [close]. *)
Definition close : Emit () :=
  open ← gets tr_open;
  match open with
  | None => mret ()
  | Some block =>
      _ ← modify (with_open None);
      _ ← (if bool_decide (ob_kind block = BText) then
             filter ← gets tr_text;
             let '(rest, filter) := filter_flush filter in
             _ ← modify (with_text filter);
             write_when (non_empty_text rest) (content_block_delta (ob_index block) (text_delta rest))
           else mret ());
      write (content_block_stop (ob_index block))
  end.
(** server/src/anthropic/messages.rs:1138-1142, [close_kind]. *)
Definition is_open (kind : BlockKind) (s : Translator) : bool :=
  match tr_open s with Some block => bool_decide (ob_kind block = kind) | None => false end.
Definition close_kind (kind : BlockKind) : Emit () :=
  open ← gets (is_open kind);
  if (open : bool) then close else mret ().
(** server/src/anthropic/messages.rs:1047-1071, [open_block]. *)
Definition open_block (kind : BlockKind) (provider_index : Z) : Emit Z :=
  _ ← close;
  i ← gets tr_next_index;
  _ ← modify (λ s, with_open (Some (MkBlock i kind provider_index)) (with_index (i + 1) s));
  _ ← write (content_block_start i (opening_block kind));
  mret i.
(** server/src/anthropic/messages.rs:1040-1045, [ensure_open]. *)
Definition ensure_open (kind : BlockKind) (provider_index : Z) : Emit () :=
  open ← gets (is_open kind);
  if (open : bool) then mret () else _ ← open_block kind provider_index; mret ().
(** server/src/anthropic/messages.rs:1124-1136, [delta]. *)
Definition delta_to (kind : BlockKind) (provider_index : Z) (delta : json) : Emit () :=
  open ← gets tr_open;
  match open with
  | None => mret ()
  | Some block =>
      write_when (bool_decide (ob_kind block = kind) && (ob_provider_index block =? provider_index))
        (content_block_delta (ob_index block) delta)
  end.
(** server/src/anthropic/messages.rs:1077-1100, [flush_tool]. *)
Definition flush_tool (block : Z) (tool : PendingTool) : Emit () :=
  _ ← close;
  _ ← write (content_block_start block (tool_use_block (pt_call_id tool) (pt_name tool)));
  _ ← write_when (non_empty_text (pt_arguments tool)) (content_block_delta block (input_json_delta (pt_arguments tool)));
  write (content_block_stop block).
(** server/src/anthropic/messages.rs:1107-1116, [flush_finished_tools]: its loop, over what is pending. *)
Fixpoint flush_ended (tools : list (Z * PendingTool)) : Emit () :=
  match tools with
  | (block, tool) :: rest =>
      if pt_ended tool then
        _ ← modify (with_tools rest);
        _ ← flush_tool block tool;
        flush_ended rest
      else mret ()
  | [] => mret ()
  end.
(** server/src/anthropic/messages.rs:1107-1116, [flush_finished_tools]. *)
Definition flush_finished_tools : Emit () := tools ← gets tr_tools; flush_ended tools.
(** server/src/anthropic/messages.rs:1118-1122, [pending_tool_mut], the tool changed; its result is whether there is one. *)
Fixpoint update_tool (provider_index : Z) (f : PendingTool → PendingTool) (tools : list (Z * PendingTool)) : list (Z * PendingTool) :=
  match tools with
  | [] => []
  | (block, tool) :: rest =>
      if pt_provider_index tool =? provider_index then (block, f tool) :: rest
      else (block, tool) :: update_tool provider_index f rest
  end.
Definition push_arguments (delta : str) (tool : PendingTool) : PendingTool :=
  MkPending (pt_provider_index tool) (pt_call_id tool) (pt_name tool) (pt_arguments tool ++ delta) (pt_ended tool).
Definition end_tool (tool : PendingTool) : PendingTool :=
  MkPending (pt_provider_index tool) (pt_call_id tool) (pt_name tool) (pt_arguments tool) true.
(** A block that holds thinking the provider does not show. *)
Definition is_redacted (block : json) : bool := bool_decide (get_str "type" block = Some (lit "redacted_thinking")).
(** server/src/anthropic/messages.rs:1164-1188, [redacted_blocks]: its loop. *)
Fixpoint write_redacted (blocks : list json) : Emit () :=
  match blocks with
  | [] => mret ()
  | block :: blocks =>
      if is_redacted block then
        i ← gets tr_next_index;
        _ ← modify (with_index (i + 1));
        _ ← close;
        _ ← write (content_block_start i block);
        _ ← write (content_block_stop i);
        write_redacted blocks
      else write_redacted blocks
  end.
(** server/src/anthropic/messages.rs:1164-1188, [redacted_blocks]. *)
Definition redacted_blocks (state : ProviderReplayState) : Emit () :=
  if bool_decide (provider_kind state = lit "anthropic") then
    match get_member "blocks" (replay_value state) ≫= as_array with
    | Some blocks => write_redacted blocks
    | None => mret ()
    end
  else mret ().

(** *** An event of the provider *)

(** server/src/anthropic/messages.rs:868-886, [push]: a piece of text, through the filter of stop sequences. *)
Definition push_text (delta : str) : Emit () :=
  _ ← ensure_open BText 0;
  filter ← gets tr_text;
  let '(t, filter) := filter_push filter delta in
  _ ← modify (with_text filter);
  _ ← (if non_empty_text t then delta_to BText 0 (text_delta t) else mret ());
  match sf_stopped filter with
  | Some q => _ ← modify (with_stopped (Some q)); close
  | None => mret ()
  end.
(** server/src/anthropic/messages.rs:921-943, [push]: a tool call reserves the index of its block. *)
Definition start_tool (i : Z) (call_id name : str) : Emit () :=
  tools ← gets tr_tools;
  if existsb (λ p, pt_provider_index p.2 =? i) tools then mret ()
  else
    block ← gets tr_next_index;
    modify (λ s, with_tools (tools ++ [(block, MkPending i call_id name [] false)]) (with_index (block + 1) s)).
(** server/src/anthropic/messages.rs:863-971, [push]: the events. *)
Definition on_model_event (event : ModelEvent) : Emit () :=
  match event with
  | MStart _ => mret ()
  | MTextStart => _ ← open_block BText 0; mret ()
  | MTextDelta delta => push_text delta
  | MTextEnd => close_kind BText
  | MThinkingStart => _ ← open_block BThinking 0; mret ()
  | MThinkingDelta delta => _ ← ensure_open BThinking 0; delta_to BThinking 0 (thinking_delta delta)
  | MThinkingSignature signature =>
      open ← gets (is_open BThinking);
      if (open : bool) then delta_to BThinking 0 (signature_delta signature) else mret ()
  | MThinkingEnd => close_kind BThinking
  | MToolCallStart i call_id name => start_tool i call_id name
  | MToolCallArgumentsDelta i delta => modify (λ s, with_tools (update_tool i (push_arguments delta) (tr_tools s)) s)
  | MToolCallEnd i =>
      _ ← modify (λ s, with_tools (update_tool i end_tool (tr_tools s)) s);
      flush_finished_tools
  | MReplayState state => redacted_blocks state
  | MStopSequence sequence =>
      stopped ← gets tr_stopped_by;
      match stopped with
      | None => _ ← modify (with_stopped (Some sequence)); close
      | Some _ => mret ()
      end
  | MUsage usage => modify (with_usage usage)
  | MDone reason => modify (with_finish reason)
  end.
(** server/src/anthropic/messages.rs:853-862, [push]: the events after a stop sequence. *)
Definition after_stop (event : ModelEvent) : Emit () :=
  match event with
  | MUsage usage => modify (with_usage usage)
  | MDone reason => modify (with_finish reason)
  | MReplayState state => redacted_blocks state
  | _ => mret ()
  end.
(** server/src/anthropic/messages.rs:848-973, [ResponseTranslator::push]. *)
Definition translator_push (event : ModelEvent) : Emit () :=
  finished ← gets tr_finished;
  if (finished : bool) then mret ()
  else
    stopped ← gets tr_stopped_by;
    match stopped with Some _ => after_stop event | None => on_model_event event end.

(** *** The end of the message *)

(** server/src/anthropic/messages.rs:1009-1016, [stop_reason]. *)
Definition claude_stop_reason (s : Translator) : string :=
  match tr_finish s with
  | Some FinishLength => "max_tokens"
  | Some FinishToolUse => "tool_use"
  | _ => if bool_decide (tr_stopped_by s = None) then "end_turn" else "stop_sequence"
  end.
(** server/src/anthropic/messages.rs:1018-1038, [usage_json]. *)
Definition usage_json (u : Usage) : json :=
  let cache_read := default 0 (cache_read_tokens u) in
  let cache_write := default 0 (cache_write_tokens u) in
  let input :=
    match u_context_input_tokens u with
    | Some total => sat_sub (sat_sub total cache_read) cache_write
    | None => default 0 (input_tokens u)
    end in
  let usage := object [("input_tokens", number input); ("output_tokens", number (default 0 (output_tokens u)))]%string in
  let usage := match cache_read_tokens u with Some _ => set_member "cache_read_input_tokens" (number cache_read) usage | None => usage end in
  match cache_write_tokens u with Some _ => set_member "cache_creation_input_tokens" (number cache_write) usage | None => usage end.
Fixpoint flush_all (tools : list (Z * PendingTool)) : Emit () :=
  match tools with
  | [] => mret ()
  | (block, tool) :: rest => _ ← flush_tool block tool; flush_all rest
  end.
Definition message_delta_event (s : Translator) : json :=
  object [("type", text "message_delta");
          ("delta", object [("stop_reason", text (claude_stop_reason s)); ("stop_sequence", text_or_null (tr_stopped_by s))]);
          ("usage", usage_json (tr_usage s))]%string.
Definition message_stop_event : json := object [("type"%string, text "message_stop")].
(** server/src/anthropic/messages.rs:975-997, [ResponseTranslator::finish]. *)
Definition translator_finish : Emit () :=
  finished ← gets tr_finished;
  if (finished : bool) then mret ()
  else
    _ ← modify set_finished;
    tools ← gets tr_tools;
    _ ← modify (with_tools []);
    _ ← flush_all tools;
    _ ← close;
    last ← gets message_delta_event;
    _ ← write last;
    write message_stop_event.

(** server/src/anthropic/messages.rs:1003-1006, [ResponseTranslator::fail]: the event of an error. *)
Definition error_event (error : ApiError) : json :=
  object [("type", text "error");
          ("error", object [("type", text (ae_kind error)); ("message", JString (ae_message error))])]%string.
Section Fail.
Context {RQ : Reqwest}.
(** server/src/anthropic/messages.rs:1000-1007, [ResponseTranslator::fail]. *)
Definition translator_fail (error : Error) (s : Translator) : json * Translator := (error_event (from_error error), set_finished s).
End Fail.

Section Sse.
Context {SJ : SerdeJson}.
(** server/src/anthropic/messages.rs:1409-1412, [sse_bytes]: the name of the event. *)
Definition sse_kind (value : json) : str := default (lit "message") (get_str "type" value).
(** server/src/anthropic/messages.rs:1408-1414, [sse_bytes]. *)
Definition sse_text (value : json) : str :=
  lit "event: " ++ sse_kind value ++ [10] ++ lit "data: " ++ display_json value ++ [10; 10].
End Sse.

(** ** The assembler *)

(** How an operation of the assembler stops. *)
Inductive Stop : Type := ApiFailed (error : ApiError) | Panicked.
Abbreviation asm := (result Stop).

(** [value[field] = x]. *)
Definition index_set (field : string) (x value : json) : asm json :=
  match value with
  | JNull => Ok (set_member field x (JObject []))
  | JObject _ => Ok (set_member field x value)
  | _ => Err Panicked
  end.

(** server/src/anthropic/messages.rs:1196-1200, [MessageAssembler]. *)
Record Assembler : Type := MkAssembler {
  as_message : json;
  as_blocks : list (Z * json);
  as_partial : gmap Z (list Z)
}.
(** server/src/anthropic/messages.rs:1203-1205, [MessageAssembler::new]. *)
Definition new_assembler : Assembler := MkAssembler JNull [] ∅.

Section Assembler.
Context {SJ : SerdeJson} {SN : SerdeNumber} {RQ : Reqwest}.

(** server/src/anthropic/messages.rs:1300-1312, [parse_tool_arguments]. *)
Definition parse_tool_arguments (partial : str) : result ApiError json :=
  match from_str partial with
  | Err error => Err (from_error (Provider (lit "tool call arguments are not valid JSON: " ++ fe_display error)))
  | Ok arguments =>
      if is_object arguments then Ok arguments
      else Err (from_error (Provider (lit "tool call arguments must be a JSON object")))
  end.
(** server/src/anthropic/messages.rs:1314-1320, [block_index]: every [u64] is a [usize]. *)
Definition block_index (event : json) : Z := default 0 (get_member "index" event ≫= as_u64).
(** server/src/anthropic/messages.rs:1322-1336, [append]. *)
Definition append (block : json) (field : string) (value : option json) : asm json :=
  match value ≫= as_str with
  | Some ((_ :: _) as t) => index_set field (JString (default [] (get_str field block) ++ t)) block
  | _ => Ok block
  end.

(** server/src/anthropic/messages.rs:1217-1243, [push]: a delta, of a block that is there. *)
Definition assembler_delta (s : Assembler) (i : Z) (block delta : json) : asm Assembler :=
  let replaced (b : asm json) : asm Assembler :=
    b ← b; Ok (MkAssembler (as_message s) (tree_insert i b (as_blocks s)) (as_partial s)) in
  match get_str "type" delta with
  | Some kind =>
      if named kind "text_delta" then replaced (append block "text" (get_member "text" delta))
      else if named kind "thinking_delta" then replaced (append block "thinking" (get_member "thinking" delta))
      else if named kind "signature_delta" then
        match get_member "signature" delta with
        | Some signature => replaced (index_set "signature" signature block)
        | None => Ok s
        end
      else if named kind "input_json_delta" then
        Ok (match get_str "partial_json" delta with
            | Some partial =>
                MkAssembler (as_message s) (as_blocks s) (<[i := default [] (as_partial s !! i) ++ partial]> (as_partial s))
            | None => s
            end)
      else Ok s
  | None => Ok s
  end.
(** server/src/anthropic/messages.rs:1244-1254, [push]: a block stops, and its arguments are parsed. *)
Definition assembler_stop (s : Assembler) (i : Z) : asm Assembler :=
  match as_partial s !! i with
  | None => Ok s
  | Some partial =>
      let partials := delete i (as_partial s) in
      match tree_get i (as_blocks s) with
      | Some block =>
          arguments ← map_err ApiFailed (parse_tool_arguments partial);
          block ← index_set "input" arguments block;
          Ok (MkAssembler (as_message s) (tree_insert i block (as_blocks s)) partials)
      | None => Ok (MkAssembler (as_message s) (as_blocks s) partials)
      end
  end.
(** server/src/anthropic/messages.rs:1255-1266, [push]: a member of the message that an event may carry. *)
Definition assign (field : string) (value : option json) (message : json) : asm json :=
  match value with Some v => index_set field v message | None => Ok message end.
(** server/src/anthropic/messages.rs:1207-1271, [MessageAssembler::push]. *)
Definition assembler_push (s : Assembler) (event : json) : asm Assembler :=
  match get_str "type" event with
  | None => Ok s
  | Some kind =>
      if named kind "message_start" then
        message ← index_set "content" (JArray []) (default JNull (get_member "message" event));
        Ok (MkAssembler message (as_blocks s) (as_partial s))
      else if named kind "content_block_start" then
        Ok (MkAssembler (as_message s) (tree_insert (block_index event) (default JNull (get_member "content_block" event)) (as_blocks s))
              (as_partial s))
      else if named kind "content_block_delta" then
        let i := block_index event in
        match tree_get i (as_blocks s), get_member "delta" event with
        | Some block, Some delta => assembler_delta s i block delta
        | _, _ => Ok s
        end
      else if named kind "content_block_stop" then assembler_stop s (block_index event)
      else if named kind "message_delta" then
        let delta := get_member "delta" event in
        message ← assign "stop_reason" (delta ≫= get_member "stop_reason") (as_message s);
        message ← assign "stop_sequence" (delta ≫= get_member "stop_sequence") message;
        message ← assign "usage" (get_member "usage" event) message;
        Ok (MkAssembler message (as_blocks s) (as_partial s))
      else Ok s
  end.
Fixpoint assembler_pushes (s : Assembler) (events : list json) : asm Assembler :=
  match events with
  | [] => Ok s
  | event :: events => s ← assembler_push s event; assembler_pushes s events
  end.

(** [if message.get(field).is_none() { message[field] = null }]. *)
Definition fill (field : string) (message : json) : json :=
  match get_member field message with Some _ => message | None => set_member field JNull message end.
Definition empty_message : json :=
  object [("id", text ""); ("type", text "message"); ("role", text "assistant"); ("model", text ""); ("content", JArray []);
          ("stop_reason", JNull); ("stop_sequence", JNull);
          ("usage", object [("input_tokens", number 0); ("output_tokens", number 0)])]%string.
(** server/src/anthropic/messages.rs:1273-1296, [MessageAssembler::finish]. *)
Definition assembler_finish (s : Assembler) : json :=
  let message := if is_object (as_message s) then as_message s else empty_message in
  fill "stop_sequence" (fill "stop_reason" (set_member "content" (JArray (as_blocks s).*2) message)).
End Assembler.

(** ** The two ways to answer *)

(** What the provider's stream gives while it is polled: an item, its end, or nothing within the ping interval. *)
Inductive upstream : Type :=
  | UpItem (item : res ModelEvent)
  | UpEnd
  | UpWait.

Section Answer.
Context {SJ : SerdeJson} {SN : SerdeNumber} {RQ : Reqwest}.

Definition is_done (event : ModelEvent) : bool := match event with MDone _ => true | _ => false end.
Definition no_done : Error := Provider (lit "provider stream ended without Done").
Definition ping : json := object [("type"%string, text "ping")].

(** server/src/anthropic/gateway.rs:406-443, [streamed]: the events after the first; [None] while the response is not over.
    The error that is recorded is the one it ends with. *)
Fixpoint stream_rest (s : Translator) (inputs : list upstream) : list json * option (option Error) :=
  match inputs with
  | [] => ([], None)
  | UpWait :: inputs => let '(out, r) := stream_rest s inputs in (ping :: out, r)
  | UpItem (Ok event) :: inputs =>
      let '(out, (_, s)) := translator_push event s in
      if is_done event then let '(last, _) := translator_finish s in (out ++ last, Some None)
      else let '(more, r) := stream_rest s inputs in (out ++ more, r)
  | UpItem (Err error) :: _ => ([(translator_fail error s).1], Some (Some error))
  | UpEnd :: _ => ([(translator_fail no_done s).1], Some (Some no_done))
  end.

(** What the client gets: an error before the response began, or the events of a stream and how it ended. *)
Inductive Streamed : Type :=
  | Refused (error : ApiError) (recorded : Error)
  | Events (out : list json) (ended : option (option Error)).
Definition no_event : Error := Provider (lit "provider stream ended without any event").
(** server/src/anthropic/gateway.rs:368-461, [streamed]: the first item of the provider decides whether there is a response;
    it is awaited without pings. *)
Fixpoint streamed (s : Translator) (inputs : list upstream) : option Streamed :=
  match inputs with
  | [] => None
  | UpWait :: inputs => streamed s inputs
  | UpItem (Err error) :: _ => Some (Refused (from_error error) error)
  | UpEnd :: _ => Some (Refused (from_error no_event) no_event)
  | UpItem (Ok _) :: _ => Some (let '(out, r) := stream_rest s inputs in Events (message_start s :: out) r)
  end.

(** How a document is refused: by the gateway's own error, or because a provider failed. *)
Inductive Collected : Type :=
  | Document (message : json)
  | Failed (error : ApiError) (recorded : option Error)
  | Crashed.
Definition stopped_by (stop : Stop) : Collected :=
  match stop with ApiFailed error => Failed error None | Panicked => Crashed end.
(** server/src/anthropic/gateway.rs:498-528, [collected]: its loop. *)
Fixpoint collect_rest (s : Translator) (a : Assembler) (inputs : list upstream) : option Collected :=
  match inputs with
  | [] => None
  | UpWait :: inputs => collect_rest s a inputs
  | UpItem (Err error) :: _ => Some (Failed (from_error error) (Some error))
  | UpEnd :: _ => Some (Failed (from_error no_done) (Some no_done))
  | UpItem (Ok event) :: inputs =>
      let '(out, (_, s)) := translator_push event s in
      match assembler_pushes a out with
      | Err stop => Some (stopped_by stop)
      | Ok a =>
          if is_done event then
            let '(last, _) := translator_finish s in
            match assembler_pushes a last with
            | Err stop => Some (stopped_by stop)
            | Ok a => Some (Document (assembler_finish a))
            end
          else collect_rest s a inputs
      end
  end.
(** server/src/anthropic/gateway.rs:471-529, [collected]. *)
Definition collected (s : Translator) (inputs : list upstream) : option Collected :=
  match assembler_push new_assembler (message_start s) with
  | Err stop => Some (stopped_by stop)
  | Ok a => collect_rest s a inputs
  end.
End Answer.
