(* ===== verification/ClaudeStreamFacts.v ===== *)
(** * ClaudeStreamFacts: what a client of the Claude gateway reads

    Whatever the provider sends, the stream the gateway writes is read by the grammar of the Messages API, the one of the
    provider's own adapter ([gateway_stream_valid]): its blocks do not overlap and are of distinct indices, and it is
    complete when the provider ended with Done and ends with the event of an error otherwise. *)

From stdpp Require Import prelude gmap strings list sorting.
From S2P Require Import Prelude Errors External Json Message Budget ModelCycle Provider Anthropic ClaudeApi StopFilter ClaudeStream.
Local Open Scope Z_scope.

(** ** What the provider delivered *)

(** The events up to [Done], and how they end: with it, with an error, or not yet. *)
Fixpoint delivered (inputs : list upstream) : list ModelEvent * option (option Error) :=
  match inputs with
  | [] => ([], None)
  | UpWait :: inputs => delivered inputs
  | UpItem (Ok event) :: inputs =>
      if is_done event then ([event], Some None)
      else let '(events, ended) := delivered inputs in (event :: events, ended)
  | UpItem (Err error) :: _ => ([], Some (Some error))
  | UpEnd :: _ => ([], Some (Some no_done))
  end.

(** ** Computations that write *)

(** After [out], the computation takes a state of [P] to one of [Q]. *)
Definition triple {A} (P : list json → Translator → Prop) (m : Emit A) (Q : A → list json → Translator → Prop) : Prop :=
  ∀ out s, P out s → let '(o, (a, s')) := m s in Q a (out ++ o) s'.

Lemma triple_ret {A} (P : A → list json → Translator → Prop) (a : A) : triple (P a) (mret a) P.
Proof. intros out s H. cbn. by rewrite app_nil_r. Qed.
Lemma triple_bind {A B} P (m : Emit A) Q (k : A → Emit B) R : triple P m Q → (∀ a, triple (Q a) (k a) R) → triple P (m ≫= k) R.
Proof.
  intros Hm Hk out s H. unfold mbind, emit_bind. apply Hm in H. destruct (m s) as [o [a s']].
  apply Hk in H. destruct (k a s') as [o' [b s'']]. by rewrite app_assoc.
Qed.
Lemma triple_gets {A} P (f : Translator → A) (Q : A → list json → Translator → Prop) :
  (∀ out s, P out s → Q (f s) out s) → triple P (gets f) Q.
Proof. intros H out s Hp. cbn. rewrite app_nil_r. by apply H. Qed.
Lemma triple_modify P f (Q : () → list json → Translator → Prop) : (∀ out s, P out s → Q () out (f s)) → triple P (modify f) Q.
Proof. intros H out s Hp. cbn. rewrite app_nil_r. by apply H. Qed.
Lemma triple_write P v (Q : () → list json → Translator → Prop) : (∀ out s, P out s → Q () (out ++ [v]) s) → triple P (write v) Q.
Proof. intros H out s Hp. by apply H. Qed.
Lemma triple_write_when P b v (Q : () → list json → Translator → Prop) :
  (∀ out s, P out s → b = true → Q () (out ++ [v]) s) → (∀ out s, P out s → Q () out s) → triple P (write_when b v) Q.
Proof. intros H1 H2 out s Hp. cbn. destruct b; [by apply H1|]. rewrite app_nil_r. by apply H2. Qed.
Lemma triple_weaken {A} (P P' : list json → Translator → Prop) (m : Emit A) (Q Q' : A → list json → Translator → Prop) :
  triple P' m Q' → (∀ out s, P out s → P' out s) → (∀ a out s, Q' a out s → Q a out s) → triple P m Q.
Proof. intros H HP HQ out s Hp. apply HP, H in Hp. destruct (m s) as [o [a s']]. by apply HQ. Qed.

(** ** The events, by the grammar of the adapter *)

Section Facts.
Context {SJ : SerdeJson} {SN : SerdeNumber} {SL : SerdeNumberLaws}.

(** An event as the client's reader of server-sent events gives it. *)
Definition sse (v : json) : SseEvent * json := (MkSse (sse_kind v) (display_json v), v).
Lemma kind_sse v : anthropic_kind (sse v).1 v = sse_kind v.
Proof.
  unfold anthropic_kind, sse, sse_kind. cbn [fst snd sse_event].
  destruct (get_str "type" v) as [k|]; cbn [default]; [by destruct (_ || _)|]. by destruct (_ || _).
Qed.
Definition kinded (kind : string) (v : json) : Prop := get_str "type" v = Some (lit kind).
Lemma kind_of kind v : kinded kind v → anthropic_kind (sse v).1 v = lit kind.
Proof. intros H. rewrite kind_sse. unfold sse_kind. by rewrite H. Qed.

Lemma index_of v i : get_member "index" v = Some (number i) → 0 ≤ i ≤ U64_MAX → required_u64 v "index" = Ok i.
Proof. intros H Hi. unfold required_u64. rewrite H. cbn. by rewrite number_decimal. Qed.
Lemma start_kinded i b : kinded "content_block_start" (content_block_start i b). Proof. unfold kinded, content_block_start. by get_obj. Qed.
Lemma delta_kinded i d : kinded "content_block_delta" (content_block_delta i d). Proof. unfold kinded, content_block_delta. by get_obj. Qed.
Lemma stop_kinded i : kinded "content_block_stop" (content_block_stop i). Proof. unfold kinded, content_block_stop. by get_obj. Qed.
Lemma start_index i b : 0 ≤ i ≤ U64_MAX → required_u64 (content_block_start i b) "index" = Ok i.
Proof. apply index_of. unfold content_block_start. by get_obj. Qed.
Lemma delta_index i d : 0 ≤ i ≤ U64_MAX → required_u64 (content_block_delta i d) "index" = Ok i.
Proof. apply index_of. unfold content_block_delta. by get_obj. Qed.
Lemma stop_index i : 0 ≤ i ≤ U64_MAX → required_u64 (content_block_stop i) "index" = Ok i.
Proof. apply index_of. unfold content_block_stop. by get_obj. Qed.
Lemma start_block i b : get_member "content_block" (content_block_start i b) = Some b. Proof. unfold content_block_start. by get_obj. Qed.
Lemma delta_delta i d : get_member "delta" (content_block_delta i d) = Some d. Proof. unfold content_block_delta. by get_obj. Qed.

(** Evaluates which of the grammar's cases an event is. *)
Ltac by_kind H := rewrite (kind_of _ _ H), ?named_lit; cbn [String.eqb Ascii.eqb Bool.eqb].

(** Content blocks one after the other, each begun, filled with pieces of its kind, and stopped. *)
Inductive gram_step : Gram → json → Gram → Prop :=
  | gram_start_event used i b k : 0 ≤ i ≤ U64_MAX → i ∉ used → get_str "type" b = Some k →
      gram_step (MkGram None used false) (content_block_start i b) (MkGram (Some (i, k)) ({[i]} ∪ used) false)
  | gram_delta_event i k used d dk : 0 ≤ i ≤ U64_MAX → get_str "type" d = Some dk → piece_fits k dk = true →
      gram_step (MkGram (Some (i, k)) used false) (content_block_delta i d) (MkGram (Some (i, k)) used false)
  | gram_stop_event i k used : 0 ≤ i ≤ U64_MAX →
      gram_step (MkGram (Some (i, k)) used false) (content_block_stop i) (MkGram None used false).
Inductive block_run : list json → Gram → Prop :=
  | run_nil : block_run [] new_gram
  | run_snoc body v g g' : block_run body g → gram_step g v g' → block_run (body ++ [v]) g'.

(** The adapter's grammar accepts them. *)
Lemma gram_step_grammar g v g' : gram_step g v g' → grammar g (sse v).1 v = Some g'.
Proof.
  intros [used i b k Hi Hu Hk|i k used d dk Hi Hd Hf|i k used Hi]; unfold grammar.
  - by_kind (start_kinded i b). cbn [g_stopped].
    rewrite start_index, start_block by done. cbn [default id]. unfold required_string. rewrite Hk. cbn [ok_or].
    unfold gram_start. cbn [g_open g_used]. by rewrite !bool_decide_eq_true_2.
  - by_kind (delta_kinded i d). cbn [g_stopped].
    rewrite delta_index, delta_delta by done. cbn [default id]. unfold required_string. rewrite Hd. cbn [ok_or g_open].
    by rewrite bool_decide_eq_true_2, Hf.
  - by_kind (stop_kinded i). cbn [g_stopped g_open g_used]. rewrite stop_index by done. by rewrite bool_decide_eq_true_2.
Qed.
Lemma gram_delta_message g s : g_stopped g = false → grammar g (sse (message_delta_event s)).1 (message_delta_event s) = Some g.
Proof.
  intros Hg. assert (kinded "message_delta" (message_delta_event s)) as H by (unfold kinded, message_delta_event; by get_obj).
  unfold grammar. by_kind H. by rewrite Hg.
Qed.
Lemma gram_stop_message g : g_stopped g = false → grammar g (sse message_stop_event).1 message_stop_event = Some (MkGram None (g_used g) true).
Proof.
  intros Hg. assert (kinded "message_stop" message_stop_event) as H by (unfold kinded, message_stop_event; by get_obj).
  unfold grammar. by_kind H. by rewrite Hg.
Qed.
Lemma gram_start_message g s : grammar g (sse (message_start s)).1 (message_start s) = Some g.
Proof.
  assert (kinded "message_start" (message_start s)) as H by (unfold kinded, message_start; by get_obj).
  unfold grammar. by_kind H. done.
Qed.

(** ** Every state of the translator *)

Definition kind_name (kind : BlockKind) : str := match kind with BText => lit "text" | BThinking => lit "thinking" end.
Definition open_of (s : Translator) : option (Z * str) := (λ b, (ob_index b, kind_name (ob_kind b))) <$> tr_open s.
(** What was written begins the message, and holds content blocks only. *)
Definition reads (out : list json) (g : Gram) : Prop :=
  gram_run new_gram (sse <$> out) = Some g ∧ ∃ first body, out = message_start first :: body ∧ block_run body g.
Lemma gram_snoc out g v g' : gram_run new_gram (sse <$> out) = Some g → grammar g (sse v).1 v = Some g' →
  gram_run new_gram (sse <$> out ++ [v]) = Some g'.
Proof. intros H Hv. rewrite fmap_app. change (sse <$> [v]) with [sse v]. by rewrite gram_run_snoc, H. Qed.
Lemma reads_snoc out g v g' : reads out g → gram_step g v g' → reads (out ++ [v]) g'.
Proof.
  intros [H (first & body & -> & Hb)] Hv. split; [by eapply gram_snoc, gram_step_grammar|].
  exists first, (body ++ [v]). split; [done|by eapply run_snoc].
Qed.

(** What was written is the beginning of a response, the open block is the one that is read as open, and the blocks that
    are [reserved] have indices of their own; no index is above [n]. *)
Definition valid (n : Z) (reserved : list Z) (out : list json) (s : Translator) : Prop :=
  ∃ used, reads out (MkGram (open_of s) used false) ∧ (∀ i, i ∈ used → 0 ≤ i < tr_next_index s) ∧
    0 ≤ tr_next_index s ≤ n ∧ Forall (λ b, 0 ≤ b < tr_next_index s ∧ b ∉ used) reserved ∧ NoDup reserved ∧
    (∀ b, tr_open s = Some b → ob_index b ∈ used ∧ ob_provider_index b = 0).
Definition held (n : Z) (out : list json) (s : Translator) : Prop := valid n (tr_tools s).*1 out s.

(** Keeps the literal events folded. *)
Ltac fields := cbn -[content_block_delta content_block_stop content_block_start text_delta tool_use_block input_json_delta opening_block].
Ltac same_fields := split_and!; try done; try (fields; lia).

Lemma valid_mono n n' reserved out s : n ≤ n' → valid n reserved out s → valid n' reserved out s.
Proof. intros Hle (used & H1 & H2 & H3 & H4 & H5 & H6). exists used. split_and!; try done; lia. Qed.

Lemma close_valid n reserved rest : n ≤ U64_MAX → triple (λ out s, valid n reserved out s ∧ tr_tools s = rest) close
  (λ _ out s, valid n reserved out s ∧ tr_tools s = rest ∧ tr_open s = None).
Proof.
  intros Hn out s [Hv Hr]. unfold close, mbind, emit_bind, modify, write, write_when, gets. destruct (tr_open s) as [b|] eqn:Ho;
    fields; [|by rewrite !app_nil_r].
  destruct Hv as (used & H1 & H2 & H3 & H4 & H5 & H6). destruct (H6 b Ho) as [Hb _].
  specialize (H2 _ Hb) as Hi. unfold open_of in H1. rewrite Ho in H1. cbn [fmap option_fmap option_map] in H1.
  destruct (ob_kind b) eqn:Ek; fields.
  - assert (reads (out ++ (if non_empty_text (sf_buffer (tr_text s)) then [content_block_delta (ob_index b) (text_delta (sf_buffer (tr_text s)))] else []))
      (MkGram (Some (ob_index b, lit "text")) used false)) as H1'.
    { destruct (non_empty_text _); [|by rewrite app_nil_r]. eapply reads_snoc; [exact H1|].
      apply (gram_delta_event _ _ _ _ (lit "text_delta")); [lia| |done]. unfold text_delta. by get_obj. }
    split; [|done]. exists used. same_fields.
    rewrite ?app_nil_r, app_assoc. eapply reads_snoc; [exact H1'|]. apply gram_stop_event. lia.
  - split; [|done]. exists used. same_fields. eapply reads_snoc; [exact H1|]. apply gram_stop_event. lia.
Qed.
Lemma close_held n : n ≤ U64_MAX → triple (held n) close (λ _ out s, held n out s ∧ tr_open s = None).
Proof.
  intros Hn out s H. pose proof (close_valid n (tr_tools s).*1 (tr_tools s) Hn out s (conj H eq_refl)) as Hc.
  destruct (close s) as [o [[] s']]. destruct Hc as (H1 & H2 & H3). unfold held. by rewrite H2.
Qed.
Lemma close_kind_held n kind : n ≤ U64_MAX → triple (held n) (close_kind kind) (λ _, held n).
Proof.
  intros Hn. unfold close_kind. eapply (triple_bind _ _ (λ _, held n)); [by apply triple_gets|]. intros [].
  - eapply triple_weaken; [by apply close_held|done|]. by intros _ out s [? _].
  - apply (triple_ret (λ _, held n)).
Qed.

Lemma gram_opening used i kind : 0 ≤ i ≤ U64_MAX → i ∉ used →
  gram_step (MkGram None used false) (content_block_start i (opening_block kind)) (MkGram (Some (i, kind_name kind)) ({[i]} ∪ used) false).
Proof. intros Hi Hu. apply gram_start_event; [done..|]. destruct kind; unfold opening_block; by get_obj. Qed.

Lemma open_held n kind : n + 1 ≤ U64_MAX → triple (held n) (open_block kind 0) (λ _ out s, held (n + 1) out s ∧ is_open kind s = true).
Proof.
  intros Hn. unfold open_block. eapply triple_bind; [apply (close_held n); lia|]. intros _ out s [(used & H1 & H2 & H3 & H4 & H5 & H6) Ho].
  unfold mbind, emit_bind, modify, write, gets. fields. split; [|unfold is_open; fields; by rewrite bool_decide_eq_true_2].
  exists ({[tr_next_index s]} ∪ used). unfold open_of in H1. rewrite Ho in H1.
  split_and!; try (fields; lia).
  - eapply reads_snoc; [exact H1|]. apply gram_opening; [lia|]. intros Hi%H2. lia.
  - intros i [->%elem_of_singleton|Hi%H2]%elem_of_union; fields; lia.
  - fields. eapply Forall_impl; [exact H4|]. intros b [Hb1 Hb2]. split; [lia|]. intros [->%elem_of_singleton|?]%elem_of_union; [lia|done].
  - done.
  - intros b [= <-]. split; [apply elem_of_union; left; by apply elem_of_singleton|done].
Qed.
Lemma ensure_held n kind : n + 1 ≤ U64_MAX → triple (held n) (ensure_open kind 0) (λ _ out s, held (n + 1) out s ∧ is_open kind s = true).
Proof.
  intros Hn. unfold ensure_open. eapply (triple_bind _ _ (λ b out s, held n out s ∧ b = is_open kind s)); [by apply triple_gets|]. intros [].
  - intros out s [H E]. cbn. rewrite app_nil_r. split; [|done]. eapply valid_mono; [|exact H]. lia.
  - eapply triple_bind; [|intros a; apply (triple_ret (λ _ out s, held (n + 1) out s ∧ is_open kind s = true))].
    eapply triple_weaken; [by apply (open_held n kind)| |done]. by intros out s [? _].
Qed.

(** A piece of the open block. *)
Lemma delta_held n kind d dk (Q : Translator → Prop) : n ≤ U64_MAX → get_str "type" d = Some dk → piece_fits (kind_name kind) dk = true →
  triple (λ out s, held n out s ∧ Q s) (delta_to kind 0 d) (λ _ out s, held n out s ∧ Q s).
Proof.
  intros Hn Hd Hf out s [(used & H1 & H2 & H3 & H4 & H5 & H6) HQ].
  enough (reads (out ++ (delta_to kind 0 d s).1) (MkGram (open_of s) used false) ∧ (delta_to kind 0 d s).2 = ((), s)) as [Hr E].
  { destruct (delta_to kind 0 d s) as [o [[] s']]. cbn in *. injection E as ->. split; [|done]. by exists used. }
  unfold delta_to, mbind, emit_bind, gets, write_when. destruct (tr_open s) as [b|] eqn:Ho; fields; [|by rewrite app_nil_r].
  split; [|done]. case_bool_decide as Hk; fields; [|by rewrite app_nil_r].
  destruct (ob_provider_index b =? 0); [|by rewrite app_nil_r]. destruct (H6 b eq_refl) as [Hb _]. specialize (H2 _ Hb).
  unfold open_of in *. rewrite Ho in *. cbn [fmap option_fmap option_map] in *. rewrite Hk in *. eapply reads_snoc; [exact H1|].
  eapply gram_delta_event; [lia|exact Hd|exact Hf].
Qed.

Lemma app_three (out m : list json) a b : out ++ a :: m ++ [b] = ((out ++ [a]) ++ m) ++ [b].
Proof. by rewrite <- !app_assoc. Qed.
(** A whole block, of an index that was reserved. *)
Lemma whole_block n b block k m reserved out s : n ≤ U64_MAX → valid n (b :: reserved) out s → tr_open s = None →
  get_str "type" block = Some k → Forall (λ v, ∃ d dk, v = content_block_delta b d ∧ get_str "type" d = Some dk ∧ piece_fits k dk = true) m →
  valid n reserved (out ++ content_block_start b block :: m ++ [content_block_stop b]) s.
Proof.
  intros Hn (used & H1 & H2 & H3 & H4 & H5 & H6) Ho Hk Hm. unfold open_of in H1. rewrite Ho in H1.
  apply Forall_cons in H4 as [[Hb Hu] H4]. apply NoDup_cons in H5 as [Hnb H5].
  assert (reads (out ++ [content_block_start b block]) (MkGram (Some (b, k)) ({[b]} ∪ used) false)) as R1.
  { eapply reads_snoc; [exact H1|]. apply gram_start_event; [lia|done..]. }
  exists ({[b]} ∪ used). unfold open_of. rewrite Ho. split_and!; try done; try lia.
  - rewrite app_three. eapply reads_snoc; [|apply (gram_stop_event b k); lia]. revert R1. generalize (out ++ [content_block_start b block]) as pre.
    induction Hm as [|v m (d & dk & -> & Hd & Hf) Hm IH]; intros pre R; [by rewrite app_nil_r|].
    rewrite cons_middle, app_assoc. apply IH. eapply reads_snoc; [exact R|]. by eapply gram_delta_event; [lia|..].
  - intros i [->%elem_of_singleton|Hi%H2]%elem_of_union; lia.
  - rewrite Forall_forall in H4 |- *. intros x Hx. destruct (H4 x Hx). split; [done|].
    intros [->%elem_of_singleton|?]%elem_of_union; done.
Qed.
(** A tool call, whose block was reserved. *)
Lemma flush_tool_valid n b t reserved rest : n ≤ U64_MAX →
  triple (λ out s, valid n (b :: reserved) out s ∧ tr_tools s = rest) (flush_tool b t)
    (λ _ out s, valid n reserved out s ∧ tr_tools s = rest).
Proof.
  intros Hn. unfold flush_tool. eapply triple_bind; [apply (close_valid n _ rest); lia|].
  intros _ out s (H & Hr & Ho). unfold mbind, emit_bind, write, write_when. fields.
  split; [|done]. eapply whole_block; [done..| |]; [unfold tool_use_block; by get_obj|].
  destruct (non_empty_text (pt_arguments t)); [|constructor]. repeat constructor. eexists _, (lit "input_json_delta").
  split; [done|]. split; [unfold input_json_delta; by get_obj|done].
Qed.
Lemma flush_ended_held n tools : n ≤ U64_MAX →
  triple (λ out s, valid n tools.*1 out s ∧ tr_tools s = tools) (flush_ended tools) (λ _, held n).
Proof.
  intros Hn. induction tools as [|[b t] tools IH]; cbn [flush_ended].
  - intros out s [H E]. unfold held. cbn. by rewrite app_nil_r, E.
  - destruct (pt_ended t).
    + eapply triple_bind; [apply (triple_modify _ _ (λ _ out s, valid n (b :: tools.*1) out s ∧ tr_tools s = tools))|].
      { intros out s [H _]. by split. }
      intros []. eapply triple_bind; [by apply flush_tool_valid|]. intros ?; exact IH.
    + intros out s [H E]. unfold held. cbn. by rewrite app_nil_r, E.
Qed.
Lemma flush_all_valid n tools rest : n ≤ U64_MAX →
  triple (λ out s, valid n tools.*1 out s ∧ tr_tools s = rest) (flush_all tools) (λ _ out s, valid n [] out s ∧ tr_tools s = rest).
Proof.
  intros Hn. induction tools as [|[b t] tools IH]; cbn [flush_all].
  - apply (triple_ret (λ _ out s, valid n [] out s ∧ tr_tools s = rest)).
  - eapply triple_bind; [by apply flush_tool_valid|]. intros ?; exact IH.
Qed.

Lemma update_keys i f tools : (update_tool i f tools).*1 = tools.*1.
Proof. induction tools as [|[b t] tools IH]; [done|]. cbn. destruct (_ =? _); [done|]. cbn. by f_equal. Qed.
Lemma update_held n i f : triple (held n) (modify (λ s, with_tools (update_tool i f (tr_tools s)) s)) (λ _, held n).
Proof. apply triple_modify. intros out s H. unfold held. fields. by rewrite update_keys. Qed.
(** The next index is reserved. *)
Lemma reserve n reserved out s : valid n reserved out s →
  valid (n + 1) (tr_next_index s :: reserved) out (with_index (tr_next_index s + 1) s).
Proof.
  intros (used & H1 & H2 & H3 & H4 & H5 & H6). exists used. fields. split_and!; try done; try lia.
  - intros j Hj%H2. lia.
  - constructor; [split; [lia|]; intros Hi%H2; lia|]. eapply Forall_impl; [exact H4|]. intros b [Hb Hu]. split; [lia|done].
  - constructor; [|done]. intros Hx. rewrite Forall_forall in H4. apply H4 in Hx as [Hx _]. lia.
Qed.
Lemma valid_perm n r r' out s : r ≡ₚ r' → valid n r out s → valid n r' out s.
Proof. intros Hp (used & H1 & H2 & H3 & H4 & H5 & H6). exists used. rewrite <- Hp. split_and!; try done; lia. Qed.
Lemma start_tool_held n i call_id name : triple (held n) (start_tool i call_id name) (λ _, held (n + 1)).
Proof.
  intros out s H. unfold start_tool, mbind, emit_bind, gets, modify. fields. destruct (existsb _ _); fields; rewrite app_nil_r.
  - eapply valid_mono; [|exact H]. lia.
  - unfold held. fields. rewrite fmap_app. eapply valid_perm; [apply Permutation_cons_append|]. exact (reserve _ _ _ _ H).
Qed.

Lemma redacted_held : ∀ blocks n, n + zlen blocks ≤ U64_MAX → triple (held n) (write_redacted blocks) (λ _, held (n + zlen blocks)).
Proof.
  induction blocks as [|b blocks IH]; intros n Hn; cbn [write_redacted].
  { rewrite zlen_nil, Z.add_0_r. apply (triple_ret (λ _, held n)). }
  rewrite zlen_cons in *. pose proof (zlen_nonneg blocks). replace (n + (1 + zlen blocks)) with (n + 1 + zlen blocks) by lia.
  destruct (is_redacted b) eqn:Eb.
  - intros out s Hs. apply bool_decide_eq_true in Eb.
    enough (triple (λ out' s', out' = out ∧ s' = s) (i ← gets tr_next_index; _ ← modify (with_index (i + 1)); _ ← close;
      _ ← write (content_block_start i b); _ ← write (content_block_stop i); write_redacted blocks) (λ _, held (n + 1 + zlen blocks))) as Ht
      by (by apply (Ht out s)).
    eapply (triple_bind _ _ (λ i out' s', out' = out ∧ s' = s ∧ i = tr_next_index s)); [apply triple_gets; by intros ?? [-> ->]|]. intros i.
    eapply (triple_bind _ _ (λ _ out s', valid (n + 1) (i :: (tr_tools s).*1) out s' ∧ tr_tools s' = tr_tools s)).
    { apply triple_modify. intros ?? (-> & -> & ->). split; [by apply reserve|done]. }
    intros []. eapply triple_bind; [apply close_valid; lia|].
    intros []. eapply (triple_bind _ _ (λ _ out s', (∃ pre, out = pre ++ [content_block_start i b] ∧ valid (n + 1) (i :: (tr_tools s).*1) pre s')
      ∧ tr_tools s' = tr_tools s ∧ tr_open s' = None)).
    { apply triple_write. intros o s' (H1 & H2 & H3). split; [by exists o|done]. }
    intros []. eapply (triple_bind _ _ (λ _, held (n + 1))); [|intros []; apply IH; lia].
    apply triple_write. intros o s' ((pre & -> & Hv) & Et & Ho). unfold held. rewrite Et, <- app_assoc.
    apply (whole_block _ _ _ (lit "redacted_thinking") []); [lia|done..|constructor].
  - eapply triple_weaken; [apply (IH (n + 1)); lia| |done]. intros out s. apply valid_mono. lia.
Qed.

(** How many blocks an event may open. *)
Definition replayed (state : ProviderReplayState) : list json :=
  default [] (get_member "blocks" (replay_value state) ≫= as_array).
Definition blocks_of (event : ModelEvent) : Z :=
  match event with MReplayState state => zlen (replayed state) | _ => 1 end.
Lemma blocks_nonneg event : 0 ≤ blocks_of event.
Proof. destruct event; cbn; try lia. apply zlen_nonneg. Qed.

Lemma held_grow {A} n n' P (m : Emit A) : n ≤ n' → triple P m (λ _, held n) → triple P m (λ _, held n').
Proof. intros Hn H. eapply triple_weaken; [exact H|done|]. intros a out s. by apply valid_mono. Qed.
Lemma held_modify n f : (∀ s, open_of (f s) = open_of s ∧ tr_open (f s) = tr_open s ∧ tr_next_index (f s) = tr_next_index s ∧ tr_tools (f s) = tr_tools s) →
  triple (held n) (modify f) (λ _, held n).
Proof.
  intros Hf. apply triple_modify. intros out s (used & H). exists used. destruct (Hf s) as (-> & -> & -> & ->). exact H.
Qed.
Lemma replay_held n state : n + zlen (replayed state) ≤ U64_MAX → triple (held n) (redacted_blocks state) (λ _, held (n + zlen (replayed state))).
Proof.
  intros Hn. pose proof (zlen_nonneg (replayed state)). unfold redacted_blocks. case_bool_decide.
  - unfold replayed in *. destruct (_ ≫= as_array) as [blocks|]; [by apply redacted_held|].
    eapply held_grow; [|apply (triple_ret (λ _, held n))]. lia.
  - eapply held_grow; [|apply (triple_ret (λ _, held n))]. lia.
Qed.
Lemma push_text_held n delta : n + 1 ≤ U64_MAX → triple (held n) (push_text delta) (λ _, held (n + 1)).
Proof.
  intros Hn. unfold push_text. eapply triple_bind; [by apply ensure_held|]. intros []. eapply (triple_bind _ _ (λ _ out s, held (n + 1) out s)).
  { apply triple_gets. by intros out s [? _]. }
  intros filter. destruct (filter_push filter delta) as [t filter'].
  eapply triple_bind; [by apply held_modify|]. intros []. eapply (triple_bind _ _ (λ _, held (n + 1))).
  - destruct (non_empty_text t); [|apply (triple_ret (λ _, held (n + 1)))].
    eapply triple_weaken; [apply (delta_held (n + 1) BText (text_delta t) (lit "text_delta") (λ _, True)); [done| |done]|done|by intros [] ?? [? _]].
    unfold text_delta. by get_obj.
  - intros []. destruct (sf_stopped filter'); [|apply (triple_ret (λ _, held (n + 1)))].
    eapply triple_bind; [by apply held_modify|]. intros []. eapply triple_weaken; [by apply close_held|done|by intros [] ?? [? _]].
Qed.
Lemma close_after n : n ≤ U64_MAX → triple (held n) close (λ _, held n).
Proof. intros Hn. eapply triple_weaken; [by apply close_held|done|by intros [] ?? [? _]]. Qed.

Lemma event_held n event : n + blocks_of event ≤ U64_MAX → triple (held n) (on_model_event event) (λ _, held (n + blocks_of event)).
Proof.
  intros Hn. pose proof (blocks_nonneg event) as Hb.
  assert (triple (held n) (mret ()) (λ _, held (n + blocks_of event))) as Hquiet.
  { eapply held_grow; [|apply (triple_ret (λ _, held n))]. lia. }
  destruct event as [id| |delta| | |delta|signature| |i call_id name|i delta|i|state|usage|sequence|reason];
    cbn [on_model_event blocks_of] in *; try exact Hquiet.
  - eapply triple_bind; [by apply open_held|]. intros a out s [H _]. cbn. by rewrite app_nil_r.
  - by apply push_text_held.
  - eapply held_grow; [|apply close_kind_held]; lia.
  - eapply triple_bind; [by apply open_held|]. intros a out s [H _]. cbn. by rewrite app_nil_r.
  - eapply triple_bind; [by apply ensure_held|]. intros [].
    eapply triple_weaken; [apply (delta_held (n + 1) BThinking (thinking_delta delta) (lit "thinking_delta") (λ _, True)); [done| |done]| |by intros [] ?? [? _]].
    + unfold thinking_delta. by get_obj.
    + by intros out s [? _].
  - eapply (triple_bind _ _ (λ _, held n)); [by apply triple_gets|]. intros [].
    + eapply held_grow; [|eapply triple_weaken; [apply (delta_held n BThinking (signature_delta signature) (lit "signature_delta") (λ _, True)); [lia| |done]|done|by intros [] ?? [? _]]]; [lia|].
      unfold signature_delta. by get_obj.
    + exact Hquiet.
  - eapply held_grow; [|apply close_kind_held]; lia.
  - apply start_tool_held.
  - eapply held_grow; [|apply update_held]. lia.
  - eapply triple_bind; [apply update_held|]. intros []. unfold flush_finished_tools.
    eapply (held_grow n); [|eapply (triple_bind _ _ (λ tools out s, valid n tools.*1 out s ∧ tr_tools s = tools)); [by apply triple_gets|]]; [lia|].
    intros tools. apply flush_ended_held. lia.
  - by apply replay_held.
  - eapply (triple_bind _ _ (λ _, held n)); [by apply triple_gets|]. intros [q|]; [exact Hquiet|].
    eapply triple_bind; [by apply held_modify|]. intros []. eapply held_grow; [|apply close_after]; lia.
Qed.
Lemma after_stop_held n event : n + blocks_of event ≤ U64_MAX → triple (held n) (after_stop event) (λ _, held (n + blocks_of event)).
Proof.
  intros Hn. pose proof (blocks_nonneg event) as Hb.
  assert (triple (held n) (mret ()) (λ _, held (n + blocks_of event))) as Hquiet.
  { eapply held_grow; [|apply (triple_ret (λ _, held n))]. lia. }
  destruct event; cbn [after_stop blocks_of] in *; try exact Hquiet.
  - by apply replay_held.
Qed.
Lemma push_held n event : n + blocks_of event ≤ U64_MAX → triple (held n) (translator_push event) (λ _, held (n + blocks_of event)).
Proof.
  intros Hn. pose proof (blocks_nonneg event) as Hb. unfold translator_push.
  eapply (triple_bind _ _ (λ _, held n)); [by apply triple_gets|]. intros [].
  - eapply held_grow; [|apply (triple_ret (λ _, held n))]. lia.
  - eapply (triple_bind _ _ (λ _, held n)); [by apply triple_gets|]. intros [q|]; [by apply after_stop_held|by apply event_held].
Qed.

(** The events of a provider, pushed one after the other, and the end of the message. *)
Fixpoint translator_pushes (events : list ModelEvent) : Emit () :=
  match events with
  | [] => mret ()
  | event :: events => _ ← translator_push event; translator_pushes events
  end.
Definition total_blocks (events : list ModelEvent) : Z := foldr (λ e n, blocks_of e + n) 0 events.
Lemma total_blocks_nonneg events : 0 ≤ total_blocks events.
Proof.
  induction events as [|e events IH]; [done|]. change (total_blocks (e :: events)) with (blocks_of e + total_blocks events).
  pose proof (blocks_nonneg e). lia.
Qed.
Lemma pushes_held : ∀ events n, n + total_blocks events ≤ U64_MAX → triple (held n) (translator_pushes events) (λ _, held (n + total_blocks events)).
Proof.
  induction events as [|e events IH]; intros n Hn; cbn [translator_pushes].
  - change (total_blocks []) with 0. rewrite Z.add_0_r. apply (triple_ret (λ _, held n)).
  - change (total_blocks (e :: events)) with (blocks_of e + total_blocks events) in *. pose proof (total_blocks_nonneg events). eapply triple_bind; [apply push_held; lia|]. intros [].
    rewrite Z.add_assoc. apply IH. lia.
Qed.
(** The whole stream of a response. *)
Definition respond (events : list ModelEvent) : Emit () := _ ← translator_pushes events; translator_finish.
Definition response (s : Translator) (events : list ModelEvent) : list json := message_start s :: (respond events s).1.

Lemma new_held first id model sequences estimated : held 0 [message_start first] (new_translator id model sequences estimated).
Proof.
  exists ∅. split_and!; try done; try constructor.
  - change (sse <$> [message_start first]) with [((sse (message_start first)).1, message_start first)]. cbn [gram_run].
    by rewrite gram_start_message.
  - exists first, []. split; [done|constructor].
Qed.
Lemma finish_held n : n ≤ U64_MAX → triple (λ out s, held n out s ∧ tr_finished s = false) translator_finish
  (λ _ out _, grammatical (sse <$> out) ∧ ∃ first body last, out = message_start first :: body ++ [message_delta_event last; message_stop_event] ∧
    ∃ used, block_run body (MkGram None used false)).
Proof.
  intros Hn. unfold translator_finish. eapply (triple_bind _ _ (λ b out s, held n out s ∧ b = false)); [by apply triple_gets|].
  intros b. destruct b; [by intros ?? [_ ?]|].
  eapply (triple_bind _ _ (λ _ out s, held n out s)); [apply triple_modify; by intros ?? [? _]|]. intros [].
  eapply (triple_bind _ _ (λ tools out s, valid n tools.*1 out s)); [by apply triple_gets|]. intros tools.
  eapply (triple_bind _ _ (λ _ out s, valid n tools.*1 out s ∧ tr_tools s = [])); [by apply triple_modify|]. intros [].
  eapply triple_bind; [by apply flush_all_valid|]. intros []. eapply triple_bind; [by apply close_valid|]. intros [].
  intros out s ((used & [H1 (first & body & -> & Hb)] & _) & _ & Ho). unfold mbind, emit_bind, gets, write.
  cbn -[message_delta_event message_stop_event message_start]. unfold open_of in H1. rewrite Ho in H1. split.
  - assert (∀ a b, message_start first :: body ++ [a; b] = ((message_start first :: body) ++ [a]) ++ [b]) as E
      by (intros a b; cbn; by rewrite <- app_assoc).
    change (grammatical (sse <$> message_start first :: body ++ [message_delta_event s; message_stop_event])). rewrite E. eexists. eapply gram_snoc; [eapply gram_snoc; [exact H1|by apply gram_delta_message]|].
    by apply gram_stop_message.
  - exists first, body, s. split; [done|]. exists used. unfold open_of in Hb. by rewrite Ho in Hb.
Qed.

(** Only [finish] and [fail] finish. *)
Definition unfinished {A} (m : Emit A) : Prop := ∀ s, tr_finished (m s).2.2 = tr_finished s.
Lemma unfinished_bind {A B} (m : Emit A) (k : A → Emit B) : unfinished m → (∀ a, unfinished (k a)) → unfinished (m ≫= k).
Proof.
  intros Hm Hk s. unfold mbind, emit_bind. specialize (Hm s). destruct (m s) as [o [a s']]. specialize (Hk a s').
  destruct (k a s') as [o' [b s'']]. cbn in *. congruence.
Qed.
Lemma unfinished_modify f : (∀ s, tr_finished (f s) = tr_finished s) → unfinished (modify f).
Proof. intros H s. apply H. Qed.
Ltac unfinished := repeat first
  [ match goal with |- unfinished (_ ≫= _) => apply unfinished_bind; [|intros ?] end
  | by apply unfinished_modify | progress case_match | by intros ? ].
Lemma close_unfinished : unfinished close. Proof. unfold close. unfinished. Qed.
Lemma open_unfinished kind i : unfinished (open_block kind i). Proof. apply unfinished_bind; [apply close_unfinished|intros ?; unfinished]. Qed.
Lemma ensure_unfinished kind i : unfinished (ensure_open kind i).
Proof. apply unfinished_bind; [by intros ?|]. intros []; [by intros ?|]. apply unfinished_bind; [apply open_unfinished|by intros ? ?]. Qed.
Lemma flush_tool_unfinished b t : unfinished (flush_tool b t). Proof. apply unfinished_bind; [apply close_unfinished|intros ?; unfinished]. Qed.
Lemma delta_unfinished kind i d : unfinished (delta_to kind i d). Proof. unfold delta_to. unfinished. Qed.
Lemma redacted_unfinished state : unfinished (redacted_blocks state).
Proof.
  unfold redacted_blocks. destruct (bool_decide _); [|by intros ?]. destruct (_ ≫= as_array) as [blocks|]; [|by intros ?].
  induction blocks as [|b blocks IH]; [by intros ?|]. cbn [write_redacted]. destruct (is_redacted b); [|done].
  do 2 (apply unfinished_bind; [by intros ?|intros ?]). apply unfinished_bind; [apply close_unfinished|intros ?].
  do 2 (apply unfinished_bind; [by intros ?|intros ?]). exact IH.
Qed.
Lemma push_unfinished event : unfinished (translator_push event).
Proof.
  apply unfinished_bind; [by intros ?|]. intros []; [by intros ?|]. apply unfinished_bind; [by intros ?|]. intros [q|].
  - destruct event; try (by intros ?). apply redacted_unfinished.
  - destruct event; cbn [on_model_event]; try (by intros ?); try apply redacted_unfinished.
    + apply unfinished_bind; [apply open_unfinished|by intros ? ?].
    + unfold push_text. apply unfinished_bind; [apply ensure_unfinished|intros ?]. apply unfinished_bind; [by intros ?|]. intros f.
      destruct (filter_push f delta) as [t f']. apply unfinished_bind; [by intros ?|intros ?]. apply unfinished_bind.
      { destruct (non_empty_text t); [apply delta_unfinished|by intros ?]. }
      intros ?. destruct (sf_stopped f'); [|by intros ?]. apply unfinished_bind; [by intros ?|intros ?]. apply close_unfinished.
    + apply unfinished_bind; [by intros ?|]. intros []; [apply close_unfinished|by intros ?].
    + apply unfinished_bind; [apply open_unfinished|by intros ? ?].
    + apply unfinished_bind; [apply ensure_unfinished|intros ?; apply delta_unfinished].
    + apply unfinished_bind; [by intros ?|]. intros []; [apply delta_unfinished|by intros ?].
    + apply unfinished_bind; [by intros ?|]. intros []; [apply close_unfinished|by intros ?].
    + unfold start_tool. unfinished.
    + apply unfinished_bind; [by intros ?|intros ?]. apply unfinished_bind; [by intros ?|]. intros tools.
      induction tools as [|[b t] tools IH]; [by intros ?|]. cbn [flush_ended]. destruct (pt_ended t); [|by intros ?].
      apply unfinished_bind; [by intros ?|intros ?]. apply unfinished_bind; [apply flush_tool_unfinished|intros ?; exact IH].
    + apply unfinished_bind; [by intros ?|]. intros [q|]; [by intros ?|]. apply unfinished_bind; [by intros ?|intros ?; apply close_unfinished].
Qed.
Lemma pushes_unfinished events : unfinished (translator_pushes events).
Proof. induction events as [|e events IH]; [by intros ?|]. apply unfinished_bind; [apply push_unfinished|intros ?; exact IH]. Qed.

(** A triple of what was written, with what the computation leaves alone. *)
Lemma triple_unfinished {A} P (m : Emit A) Q : triple P m Q → unfinished m →
  triple (λ out s, P out s ∧ tr_finished s = false) m (λ a out s, Q a out s ∧ tr_finished s = false).
Proof.
  intros H Hu out s [Hp Hf]. specialize (H out s Hp). specialize (Hu s). destruct (m s) as [o [a s']]. cbn in Hu. split; [done|congruence].
Qed.
Lemma respond_valid n events : n + total_blocks events ≤ U64_MAX → triple (λ out s, held n out s ∧ tr_finished s = false) (respond events)
  (λ _ out _, grammatical (sse <$> out) ∧ ∃ first body last, out = message_start first :: body ++ [message_delta_event last; message_stop_event] ∧
    ∃ used, block_run body (MkGram None used false)).
Proof.
  intros Hn. eapply triple_bind; [apply triple_unfinished; [by apply pushes_held|apply pushes_unfinished]|].
  intros []. by apply finish_held.
Qed.

(** *** The stream of the gateway *)

Section Streamed.
Context {RQ : Reqwest}.

(** [out] is [o] with pings in between. *)
Inductive pinged : list json → list json → Prop :=
  | pinged_nil : pinged [] []
  | pinged_ping out o : pinged out o → pinged (ping :: out) o
  | pinged_event v out o : pinged out o → pinged (v :: out) (v :: o).
Lemma pinged_app o out o' : pinged out o' → pinged (o ++ out) (o ++ o').
Proof. intros H. induction o as [|v o IH]; [done|]. by constructor. Qed.
Lemma pinged_refl o : pinged o o.
Proof. rewrite <- (app_nil_r o). apply pinged_app, pinged_nil. Qed.

(** What the stream ends with. *)
Definition ending (ended : option (option Error)) (s : Translator) : list json :=
  match ended with
  | None => []
  | Some None => (translator_finish s).1
  | Some (Some error) => [error_event (from_error error)]
  end.
Lemma stream_rest_eq : ∀ inputs s,
  let '(out, r) := stream_rest s inputs in
  let '(events, ended) := delivered inputs in
  let '(o, (_, s')) := translator_pushes events s in
  r = ended ∧ pinged out (o ++ ending ended s').
Proof.
  induction inputs as [|[[event|error]| |] inputs IH]; intros s; cbn [stream_rest delivered].
  - split; [done|constructor].
  - destruct (is_done event).
    + cbn [translator_pushes]. unfold mbind, emit_bind. destruct (translator_push event s) as [o [[] s1]]. cbn [mret emit_ret ending].
      destruct (translator_finish s1) as [o' r]. split; [done|]. rewrite app_nil_r. apply pinged_refl.
    + destruct (translator_push event s) as [o [[] s1]] eqn:Ep. specialize (IH s1). destruct (stream_rest s1 inputs) as [out r].
      destruct (delivered inputs) as [events ended]. cbn [translator_pushes]. unfold mbind at 1, emit_bind at 1. rewrite Ep.
      destruct (translator_pushes events s1) as [o' [[] s2]]. destruct IH as [-> IH]. split; [done|]. rewrite <- app_assoc. by apply pinged_app.
  - split; [done|]. apply pinged_refl.
  - split; [done|]. apply pinged_refl.
  - specialize (IH s). destruct (stream_rest s inputs) as [out r]. destruct (delivered inputs) as [events ended].
    destruct (translator_pushes events s) as [o [[] s']]. destruct IH as [-> IH]. split; [done|]. by constructor.
Qed.
Lemma pinged_grammar out o g : pinged out o → gram_run g (sse <$> out) = gram_run g (sse <$> o).
Proof.
  intros H. revert g. induction H as [|out o H IH|v out o H IH]; intros g; [done| |].
  - cbn [fmap list_fmap gram_run]. change (sse ping) with ((sse ping).1, ping). cbv iota. replace (grammar g (sse ping).1 ping) with (Some g); [apply IH|].
    assert (kinded "ping" ping) as Hk by (unfold kinded, ping; by get_obj). unfold grammar. by by_kind Hk.
  - cbn [fmap list_fmap gram_run]. destruct (sse v) as [e v']. by destruct (grammar g e v') as [g'|]; [apply IH|].
Qed.
Lemma error_event_grammar g e : grammar g (sse (error_event e)).1 (error_event e) = Some g.
Proof. assert (kinded "error" (error_event e)) as Hk by (unfold kinded, error_event; by get_obj). unfold grammar. by by_kind Hk. Qed.

(** C11: Whatever events a provider yields and however they end, the events the gateway streams are read by the grammar of
    the Messages API: [message_start], then (pings apart) content blocks that do not overlap, each of an index of its own
    and with pieces of its kind.  When the provider ends with Done the response is complete: every block is closed, and
    then [message_delta] and [message_stop] and nothing else.  When it fails, or ends without Done, the stream ends with
    the event of that error and without a [message_stop], possibly in the middle of a block; a failure before the first
    event is an error of the request, and there is no stream. *)
Theorem gateway_stream_valid id model sequences estimated inputs : total_blocks (delivered inputs).1 ≤ U64_MAX →
  match streamed (new_translator id model sequences estimated) inputs with
  | None => Forall (λ input, input = UpWait) inputs
  | Some (Refused error cause) => error = from_error cause ∧ ∃ waits rest, Forall (λ input, input = UpWait) waits ∧
      (inputs = waits ++ UpItem (Err cause) :: rest ∨ inputs = waits ++ UpEnd :: rest ∧ cause = no_event)
  | Some (Events out ended) => ended = (delivered inputs).2 ∧ grammatical (sse <$> out) ∧
      ∃ first rest body g last, out = message_start first :: rest ∧ pinged rest (body ++ last) ∧ block_run body g ∧
        match ended with
        | Some None => g_open g = None ∧ ∃ final, last = [message_delta_event final; message_stop_event]
        | Some (Some cause) => last = [error_event (from_error cause)]
        | None => last = []
        end
  end.
Proof.
  induction inputs as [|[[event|error]| |] inputs IH]; intros Hn; cbn [streamed].
  - constructor.
  - clear IH. set (s := new_translator id model sequences estimated). pose proof (stream_rest_eq (UpItem (Ok event) :: inputs) s) as H.
    destruct (stream_rest s (UpItem (Ok event) :: inputs)) as [out r]. destruct (delivered (UpItem (Ok event) :: inputs)) as [events ended].
    cbn [fst snd] in *. pose proof (pushes_held events 0 Hn _ s (new_held s id model sequences estimated)) as H1.
    pose proof (respond_valid 0 events Hn [message_start s] s (conj (new_held s id model sequences estimated) eq_refl)) as H2.
    unfold respond, mbind, emit_bind in H2. destruct (translator_pushes events s) as [o [[] s']]. destruct (translator_finish s') as [o' [[] s2]] eqn:Ef.
    destruct H as [-> Hp]. split; [done|]. pose proof (pinged_event (message_start s) _ _ Hp) as Hq. unfold grammatical. rewrite (pinged_grammar _ _ _ Hq).
    destruct H1 as (used & [Hg (first & body & E & Hr)] & _). cbn [app] in E, Hg. apply (f_equal tail) in E. cbn [tail] in E. subst body.
    destruct ended as [[cause|]|]; cbn [ending] in *.
    + split; [rewrite app_comm_cons; eexists; eapply gram_snoc; [exact Hg|by apply error_event_grammar]|]. by exists s, out, o, (MkGram (open_of s') used false), [error_event (from_error cause)].
    + rewrite Ef in *. cbn [fst] in *. destruct H2 as [H2 (first' & body & last & E & used' & Hb)]. split; [exact H2|]. apply (f_equal tail) in E. cbn [tail app] in E.
      rewrite E in Hp. exists s, out, body, (MkGram None used' false), [message_delta_event last; message_stop_event]. split_and!; [done..|by exists last].
    + split; [rewrite app_nil_r; by eexists|]. by exists s, out, o, (MkGram (open_of s') used false), [].
  - split; [done|]. exists [], inputs. split; [constructor|by left].
  - split; [done|]. exists [], inputs. split; [constructor|by right].
  - specialize (IH Hn). destruct (streamed _ inputs) as [[error cause|out ended]|].
    + destruct IH as (-> & waits & rest & Hw & [-> |[-> ->]]); (split; [done|]); exists (UpWait :: waits), rest; (split; [by constructor|]); [by left|by right].
    + exact IH.
    + by constructor.
Qed.
End Streamed.

(** ** What is relayed *)

Lemma triple_and {A} P Q (m : Emit A) (R S : A → list json → Translator → Prop) : triple P m R → triple Q m S →
  triple (λ out s, P out s ∧ Q out s) m (λ a out s, R a out s ∧ S a out s).
Proof. intros H1 H2 out s [Hp Hq]. specialize (H1 out s Hp). specialize (H2 out s Hq). by destruct (m s) as [o [a s']]. Qed.

Definition text_of (out : list json) : str := concat (piece_text <$> (sse <$> out)).
Definition thinking_of (out : list json) : str := concat (piece_thinking <$> (sse <$> out)).
Definition calls_of (out : list json) : list Z := calls (sse <$> out).
Definition args_of (out : list json) (b : Z) : str := args (sse <$> out) b.

Lemma text_app out o : text_of (out ++ o) = text_of out ++ text_of o.
Proof. unfold text_of. by rewrite !fmap_app, concat_app. Qed.
Lemma thinking_app out o : thinking_of (out ++ o) = thinking_of out ++ thinking_of o.
Proof. unfold thinking_of. by rewrite !fmap_app, concat_app. Qed.
Lemma calls_app out o : calls_of (out ++ o) = calls_of out ++ calls_of o.
Proof. unfold calls_of, calls. by rewrite fmap_app, omap_app. Qed.
Lemma args_app out o b : args_of (out ++ o) b = args_of out b ++ args_of o b.
Proof. unfold args_of, args. by rewrite !fmap_app, concat_app. Qed.

(** Events that hold nothing of the message. *)
Definition quiet (o : list json) : Prop := text_of o = [] ∧ thinking_of o = [] ∧ calls_of o = [] ∧ ∀ b, args_of o b = [].
Lemma quiet_nil : quiet []. Proof. done. Qed.
Lemma quiet_events_app o o' : quiet o → quiet o' → quiet (o ++ o').
Proof.
  intros (H1 & H2 & H3 & H4) (K1 & K2 & K3 & K4). unfold quiet. rewrite text_app, thinking_app, calls_app, H1, H2, H3.
  split_and!; try done. intros b. by rewrite args_app, H4, K4.
Qed.

Lemma piece_other v kind : kinded kind v → kind ≠ "content_block_delta"%string →
  piece_text (sse v) = [] ∧ piece_thinking (sse v) = [] ∧ ∀ b, piece_arguments b (sse v) = [].
Proof.
  intros Hk Hne. apply not_delta. change ((sse v).2) with v. rewrite (kind_of _ _ Hk), named_lit. by apply String.eqb_neq.
Qed.
Lemma call_other v kind : kinded kind v → kind ≠ "content_block_start"%string → piece_call (sse v) = None.
Proof. intros Hk Hne. apply not_start. change ((sse v).2) with v. rewrite (kind_of _ _ Hk), named_lit. by apply String.eqb_neq. Qed.
Lemma content_single v : text_of [v] = piece_text (sse v) ∧ thinking_of [v] = piece_thinking (sse v) ∧
  calls_of [v] = match piece_call (sse v) with Some i => [i] | None => [] end ∧ ∀ b, args_of [v] b = piece_arguments b (sse v).
Proof.
  unfold text_of, thinking_of, calls_of, args_of, calls, args. change (sse <$> [v]) with [sse v]. cbn [fmap list_fmap concat omap list_omap].
  rewrite !app_nil_r. split; [done|]. split; [done|]. split; [by destruct (piece_call _)|]. intros b. by rewrite app_nil_r.
Qed.
Lemma content_start b block : 0 ≤ b ≤ U64_MAX →
  text_of [content_block_start b block] = [] ∧ thinking_of [content_block_start b block] = [] ∧
  calls_of [content_block_start b block] = (if bool_decide (get_str "type" block = Some (lit "tool_use")) then [b] else []) ∧
  ∀ b', args_of [content_block_start b block] b' = [].
Proof.
  intros Hb. destruct (content_single (content_block_start b block)) as (-> & -> & -> & H).
  destruct (piece_other _ _ (start_kinded b block) ltac:(done)) as (-> & -> & Ha). split; [done|]. split; [done|].
  split; [|intros b'; by rewrite H, Ha]. unfold piece_call. change ((sse (content_block_start b block)).2) with (content_block_start b block).
  rewrite (kind_of _ _ (start_kinded b block)), named_lit.
  cbn [String.eqb Ascii.eqb Bool.eqb andb]. rewrite start_block, start_index by done. cbn [default id]. by case_bool_decide.
Qed.
Lemma quiet_start b block : 0 ≤ b ≤ U64_MAX → get_str "type" block ≠ Some (lit "tool_use") → quiet [content_block_start b block].
Proof.
  intros Hb Ht. destruct (content_start b block Hb) as (H1 & H2 & H3 & H4). rewrite bool_decide_eq_false_2 in H3 by done. by split_and!.
Qed.
Lemma quiet_stop b : quiet [content_block_stop b].
Proof.
  destruct (content_single (content_block_stop b)) as (H1 & H2 & H3 & H4).
  destruct (piece_other _ _ (stop_kinded b) ltac:(done)) as (E1 & E2 & E3). rewrite (call_other _ _ (stop_kinded b)) in H3 by done.
  split_and!; [congruence..|]. intros b'. by rewrite H4.
Qed.
(** A piece, of its kind. *)
Lemma piece_of b d kind member : piece (sse (content_block_delta b d)) kind member =
  if bool_decide (get_str "type" d = Some (lit kind)) then get_str member d else None.
Proof.
  unfold piece. change ((sse (content_block_delta b d)).2) with (content_block_delta b d). rewrite (kind_of _ _ (delta_kinded b d)), named_lit, delta_delta. cbn [String.eqb Ascii.eqb Bool.eqb andb default id]. done.
Qed.
Lemma content_delta b d : 0 ≤ b ≤ U64_MAX → let v := content_block_delta b d in
  let held_in kind member := if bool_decide (get_str "type" d = Some (lit kind)) then default [] (get_str member d) else [] in
  text_of [v] = held_in "text_delta" "text"%string ∧ thinking_of [v] = held_in "thinking_delta" "thinking"%string ∧ calls_of [v] = [] ∧
  ∀ b', args_of [v] b' = if decide (b' = b) then held_in "input_json_delta" "partial_json"%string else [].
Proof.
  intros Hb. cbn zeta. destruct (content_single (content_block_delta b d)) as (H1 & H2 & H3 & H4).
  rewrite (call_other _ _ (delta_kinded b d)) in H3 by done. rewrite H1, H2, H3.
  unfold piece_text, piece_thinking, piece_arguments in *. rewrite !piece_of. split_and!; try (by case_bool_decide); try done.
  intros b'. rewrite H4. change ((sse (content_block_delta b d)).2) with (content_block_delta b d). rewrite (delta_index b d Hb), piece_of.
  destruct (decide (b' = b)) as [->|Hne]; [rewrite decide_True by done|rewrite decide_False by congruence; done]. by case_bool_decide.
Qed.

Lemma Forall2_impl_in {A B} (P Q : A → B → Prop) l k : Forall2 P l k → (∀ x y, x ∈ l → y ∈ k → P x y → Q x y) → Forall2 Q l k.
Proof.
  induction 1 as [|x y l k Hp H IH]; intros HQ; constructor; [apply HQ; [by left..|done]|].
  apply IH. intros x' y' Hx Hy. apply HQ; by right.
Qed.
(** A call as it was sent: the block [b] names it and holds its arguments. *)
Definition sent_as (out : list json) (b : Z) (call : ToolCall) : Prop :=
  args_of out b = arguments_text call ∧
  ∃ raw, normalize_tool_name raw = name call ∧ content_block_start b (tool_use_block (call_id call) raw) ∈ out.
Definition pends (p : PendingTool) (t : OpenTool) : Prop :=
  pt_call_id p = call_id (ot_call t) ∧ normalize_tool_name (pt_name p) = name (ot_call t) ∧
  pt_arguments p = arguments_text (ot_call t) ∧ pt_ended p = ot_ended t.

(** Without stop sequences, nothing is held back. *)
Definition unheld (s : Translator) : Prop := tr_text s = new_filter [].
Definition plain (s : Translator) : Prop := unheld s ∧ tr_stopped_by s = None ∧ tr_finished s = false.
Lemma plain_unheld s : plain s → unheld s. Proof. by intros [H _]. Qed.
#[local] Hint Extern 0 (unheld _) => (apply plain_unheld; assumption) : core.

(** What was written and what is pending, [tools], hold the text [T], the reasoning [R] and the calls [M]; the calls of
    [done] are complete. *)
Record mirror (T R : str) (M : gmap Z OpenTool) (tools : list (Z * PendingTool)) (done : list Z) (out : list json) (s : Translator) : Prop := {
  mi_text : text_of out = T;
  mi_thinking : thinking_of out = R;
  mi_sent : Forall2 (λ b i, ∃ t, M !! i = Some t ∧ ot_ended t = true ∧ sent_as out b (ot_call t)) (calls_of out) done;
  mi_pending : Forall (λ p, ∃ t, M !! pt_provider_index p.2 = Some t ∧ pends p.2 t) tools;
  mi_distinct : NoDup (done ++ (pt_provider_index ∘ snd <$> tools));
  mi_all i : i ∈ done ++ (pt_provider_index ∘ snd <$> tools) ↔ is_Some (M !! i);
  mi_blocks : NoDup (calls_of out ++ tools.*1);
  mi_below : Forall (λ b, 0 ≤ b < tr_next_index s) (calls_of out ++ tools.*1);
  mi_fresh b : b ∉ calls_of out → args_of out b = []
}.
Definition mirrors (T R : str) (M : gmap Z OpenTool) (out : list json) (s : Translator) : Prop :=
  plain s ∧ ∃ done, mirror T R M (tr_tools s) done out s.

(** More text and reasoning. *)
Lemma mirror_said T R M tools done out o s s' : mirror T R M tools done out s → calls_of o = [] → (∀ b, args_of o b = []) →
  tr_next_index s ≤ tr_next_index s' → mirror (T ++ text_of o) (R ++ thinking_of o) M tools done (out ++ o) s'.
Proof.
  intros [H1 H2 H3 H4 H5 H6 H7 H8 H9] Q3 Q4 Hn. split; rewrite ?calls_app, ?Q3, ?app_nil_r; try done.
  - by rewrite text_app, H1.
  - by rewrite thinking_app, H2.
  - eapply Forall2_impl; [exact H3|]. intros b i (t & Ht & He & [Ha (raw & Hr & Hin)]). exists t. split; [done|]. split; [done|].
    split; [by rewrite args_app, Q4, app_nil_r|]. exists raw. split; [done|]. apply elem_of_app. by left.
  - eapply Forall_impl; [exact H8|]. cbn. lia.
  - intros b Hb. by rewrite args_app, Q4, app_nil_r, H9.
Qed.
Lemma mirror_quiet T R M tools done out o s s' : mirror T R M tools done out s → quiet o → tr_next_index s ≤ tr_next_index s' →
  mirror T R M tools done (out ++ o) s'.
Proof.
  intros H (Q1 & Q2 & Q3 & Q4) Hn. pose proof (mirror_said _ _ _ _ _ _ o _ s' H Q3 Q4 Hn) as K. by rewrite Q1, Q2, !app_nil_r in K.
Qed.

Lemma mirror_at T R M tools done out s s' : mirror T R M tools done out s → tr_next_index s ≤ tr_next_index s' → mirror T R M tools done out s'.
Proof. intros H Hn. pose proof (mirror_quiet _ _ _ _ _ _ _ _ s' H quiet_nil Hn) as K. by rewrite app_nil_r in K. Qed.

(** What [close] does when nothing is held back. *)
Lemma close_plain s : unheld s → close s = (match tr_open s with Some b => [content_block_stop (ob_index b)] | None => [] end, ((), with_open None s)).
Proof.
  intros Ht. destruct s as [id model next open tools est usage fin stop filter finished]. unfold unheld in Ht. cbn in Ht. subst filter.
  unfold close, mbind, emit_bind, gets, modify, write, write_when. cbn. destruct open as [b|]; cbn; [|done].
  destruct (ob_kind b); done.
Qed.
Lemma plain_open o s : plain s → plain (with_open o s). Proof. done. Qed.
Lemma close_quiet s : unheld s → quiet (close s).1.
Proof. intros Hp. rewrite close_plain by done. cbn. destruct (tr_open s); [apply quiet_stop|apply quiet_nil]. Qed.

Lemma open_plain kind s : plain s → open_block kind 0 s =
  ((close s).1 ++ [content_block_start (tr_next_index s) (opening_block kind)],
   (tr_next_index s, with_open (Some (MkBlock (tr_next_index s) kind 0)) (with_index (tr_next_index s + 1) s))).
Proof. intros Hp. unfold open_block, mbind, emit_bind. rewrite close_plain by done. done. Qed.
Lemma open_quiet kind s : plain s → 0 ≤ tr_next_index s ≤ U64_MAX → quiet (open_block kind 0 s).1.
Proof.
  intros Hp Hi. rewrite open_plain by done. apply quiet_events_app; [by apply close_quiet|]. apply quiet_start; [done|].
  unfold opening_block. destruct kind; get_obj; discriminate.
Qed.
Lemma filter_push_none delta : filter_push (new_filter []) delta = (delta, new_filter []).
Proof.
  assert (∀ t : str, pending_suffix t [] = 0%nat) as Hs by (intros t; induction t as [|c t IH]; [done|exact IH]).
  unfold filter_push. cbn. by rewrite Hs, Nat.sub_0_r, take_ge, drop_ge.
Qed.

(** The block that is open takes the provider's text or reasoning. *)
Definition takes (kind : BlockKind) (s : Translator) : Prop :=
  ∃ b, tr_open s = Some b ∧ ob_kind b = kind ∧ ob_provider_index b = 0 ∧ 0 ≤ ob_index b ≤ U64_MAX.
Lemma held_takes n kind out s : n ≤ U64_MAX → held n out s → is_open kind s = true → takes kind s.
Proof.
  intros Hn (used & _ & H2 & H3 & _ & _ & H6) Hk. unfold is_open in Hk. unfold takes. destruct (tr_open s) as [b|]; [|done].
  apply bool_decide_eq_true in Hk. destruct (H6 b eq_refl) as [Hb Hp]. apply H2 in Hb. exists b. split_and!; done || lia.
Qed.
Lemma delta_takes kind d s : takes kind s → ∃ i, 0 ≤ i ≤ U64_MAX ∧ delta_to kind 0 d s = ([content_block_delta i d], ((), s)).
Proof.
  intros (b & Ho & Hk & Hp & Hi). exists (ob_index b). split; [done|]. unfold delta_to, mbind, emit_bind, gets. rewrite Ho. cbn [app].
  unfold write_when. rewrite Hp. by rewrite bool_decide_eq_true_2.
Qed.
Lemma ensure_plain n kind out s : n + 1 ≤ U64_MAX → held n out s → plain s →
  ∃ o s', ensure_open kind 0 s = (o, ((), s')) ∧ quiet o ∧ plain s' ∧ tr_tools s' = tr_tools s ∧ tr_next_index s ≤ tr_next_index s' ∧ takes kind s'.
Proof.
  intros Hn H Hp. pose proof (ensure_held n kind Hn out s H) as Ht. destruct (ensure_open kind 0 s) as [o [[] s']] eqn:E.
  destruct Ht as [Hh Ho]. exists o, s'. split; [done|]. pose proof (held_takes _ _ _ _ Hn Hh Ho) as Htk.
  unfold ensure_open, mbind, emit_bind, gets in E. cbn in E. destruct (is_open kind s).
  - injection E as <- <-. split_and!; try done.
  - destruct H as (used & _ & _ & H3 & _). rewrite open_plain in E by done. cbn in E. injection E as <- <-.
    rewrite app_nil_r. pose proof (open_quiet kind s Hp ltac:(lia)) as Hq. rewrite open_plain in Hq by done. split_and!; try done. cbn. lia.
Qed.

Lemma text_content i t : 0 ≤ i ≤ U64_MAX → let o := [content_block_delta i (text_delta t)] in
  text_of o = t ∧ thinking_of o = [] ∧ calls_of o = [] ∧ ∀ b, args_of o b = [].
Proof.
  intros Hi o. destruct (content_delta i (text_delta t) Hi) as (C1 & C2 & C3 & C4).
  assert (get_str "type" (text_delta t) = Some (lit "text_delta")) as Hk by (unfold text_delta; by get_obj).
  assert (get_str "text" (text_delta t) = Some t) as Ht by (unfold text_delta; by get_obj).
  rewrite Hk in C1, C2, C4. rewrite Ht in C1. split_and!; [exact C1|exact C2|exact C3|]. intros b. rewrite C4. by destruct (decide _).
Qed.
Lemma thinking_content i t : 0 ≤ i ≤ U64_MAX → let o := [content_block_delta i (thinking_delta t)] in
  text_of o = [] ∧ thinking_of o = t ∧ calls_of o = [] ∧ ∀ b, args_of o b = [].
Proof.
  intros Hi o. destruct (content_delta i (thinking_delta t) Hi) as (C1 & C2 & C3 & C4).
  assert (get_str "type" (thinking_delta t) = Some (lit "thinking_delta")) as Hk by (unfold thinking_delta; by get_obj).
  assert (get_str "thinking" (thinking_delta t) = Some t) as Ht by (unfold thinking_delta; by get_obj).
  rewrite Hk in C1, C2, C4. rewrite Ht in C2. split_and!; [exact C1|exact C2|exact C3|]. intros b. rewrite C4. by destruct (decide _).
Qed.
Lemma signature_content i t : 0 ≤ i ≤ U64_MAX → quiet [content_block_delta i (signature_delta t)].
Proof.
  intros Hi. destruct (content_delta i (signature_delta t) Hi) as (C1 & C2 & C3 & C4).
  assert (get_str "type" (signature_delta t) = Some (lit "signature_delta")) as Hk by (unfold signature_delta; by get_obj).
  rewrite Hk in C1, C2, C4. split_and!; [exact C1|exact C2|exact C3|]. intros b. rewrite C4. by destruct (decide _).
Qed.
Lemma input_content i t : 0 ≤ i ≤ U64_MAX → let o := [content_block_delta i (input_json_delta t)] in
  text_of o = [] ∧ thinking_of o = [] ∧ calls_of o = [] ∧ ∀ b, args_of o b = if decide (b = i) then t else [].
Proof.
  intros Hi o. destruct (content_delta i (input_json_delta t) Hi) as (C1 & C2 & C3 & C4).
  assert (get_str "type" (input_json_delta t) = Some (lit "input_json_delta")) as Hk by (unfold input_json_delta; by get_obj).
  assert (get_str "partial_json" (input_json_delta t) = Some t) as Ht by (unfold input_json_delta; by get_obj).
  rewrite Hk in C1, C2, C4. rewrite Ht in C4. split_and!; [exact C1|exact C2|exact C3|exact C4].
Qed.

Lemma push_text_plain n delta out s : n + 1 ≤ U64_MAX → held n out s → plain s →
  ∃ o s', push_text delta s = (o, ((), s')) ∧ text_of o = delta ∧ thinking_of o = [] ∧ calls_of o = [] ∧ (∀ b, args_of o b = []) ∧
    plain s' ∧ tr_tools s' = tr_tools s ∧ tr_next_index s ≤ tr_next_index s'.
Proof.
  intros Hn H Hp. destruct (ensure_plain n BText out s Hn H Hp) as (o & s1 & E & (Q1 & Q2 & Q3 & Q4) & Hp1 & Ht1 & Hi1 & Htk).
  unfold push_text, mbind, emit_bind. rewrite E. unfold gets. destruct Hp1 as (Ef & Es & Hf). rewrite Ef, filter_push_none.
  assert (modify (with_text (new_filter [])) s1 = ([], ((), s1))) as Em by (unfold modify, with_text; rewrite <- Ef; by destruct s1).
  rewrite Em. cbn [sf_stopped new_filter]. destruct delta as [|c delta]; cbn [non_empty_text].
  - eexists _, s1. split; [reflexivity|]. rewrite ?app_nil_r. cbn [app]. rewrite ?app_nil_r. split_and!; try done.
  - destruct (delta_takes BText (text_delta (c :: delta)) s1 Htk) as (i & Hi & Ed). rewrite Ed. eexists _, s1. split; [reflexivity|].
    destruct (text_content i (c :: delta) Hi) as (C1 & C2 & C3 & C4). cbn [app] in *.
    rewrite ?app_nil_r, !text_app, !thinking_app, !calls_app, Q1, Q2, Q3, C1, C2, C3. split_and!; try done.
    intros b. by rewrite args_app, Q4, C4.
Qed.

Definition tool_events (b : Z) (p : PendingTool) : list json :=
  [content_block_start b (tool_use_block (pt_call_id p) (pt_name p))] ++
  (if non_empty_text (pt_arguments p) then [content_block_delta b (input_json_delta (pt_arguments p))] else []) ++ [content_block_stop b].
Lemma flush_tool_plain b p s : unheld s → flush_tool b p s = ((close s).1 ++ tool_events b p, ((), with_open None s)).
Proof. intros Hp. unfold flush_tool, mbind, emit_bind. rewrite close_plain by done. done. Qed.
Lemma tool_content b p : 0 ≤ b ≤ U64_MAX → let o := tool_events b p in
  text_of o = [] ∧ thinking_of o = [] ∧ calls_of o = [b] ∧ ∀ b', args_of o b' = if decide (b' = b) then pt_arguments p else [].
Proof.
  intros Hb o. subst o. destruct (content_start b (tool_use_block (pt_call_id p) (pt_name p)) Hb) as (A1 & A2 & A3 & A4).
  rewrite bool_decide_eq_true_2 in A3 by (unfold tool_use_block; by get_obj).
  destruct (quiet_stop b) as (B1 & B2 & B3 & B4). unfold tool_events.
  rewrite !text_app, !thinking_app, !calls_app, A1, A2, A3, B1, B2, B3.
  destruct (non_empty_text (pt_arguments p)) eqn:E.
  - destruct (input_content b (pt_arguments p) Hb) as (C1 & C2 & C3 & C4). rewrite C1, C2, C3. split_and!; try done.
    intros b'. by rewrite !args_app, A4, B4, C4, app_nil_r.
  - split_and!; try done. intros b'. rewrite !args_app, A4, B4. destruct (pt_arguments p); [|done]. by destruct (decide _).
Qed.
Lemma mirror_tool T R M b p tools done out s s' : mirror T R M ((b, p) :: tools) done out s → 0 ≤ b ≤ U64_MAX → pt_ended p = true →
  tr_next_index s ≤ tr_next_index s' → mirror T R M tools (done ++ [pt_provider_index p]) (out ++ tool_events b p) s'.
Proof.
  intros [H1 H2 H3 H4 H5 H6 H7 H8 H9] Hb He Hn. destruct (tool_content b p Hb) as (C1 & C2 & C3 & C4).
  apply Forall_cons in H4 as [(t & Ht & P1 & P2 & P3 & P4) H4]. cbn [fst snd] in *.
  assert (b ∉ calls_of out) as Hnew.
  { intros Hin. apply NoDup_app in H7 as (_ & H7 & _). apply (H7 b Hin). by left. }
  split; rewrite ?calls_app, ?C3.
  - by rewrite text_app, C1, app_nil_r.
  - by rewrite thinking_app, C2, app_nil_r.
  - apply Forall2_app.
    + eapply Forall2_impl_in; [exact H3|]. intros b' i Hin _ (t' & Ht' & He' & [Ha (raw & Hr & Hs)]). exists t'. split; [done|]. split; [done|].
      split; [|exists raw; split; [done|]; apply elem_of_app; by left]. rewrite args_app, C4, decide_False, app_nil_r by (by intros ->). done.
    + constructor; [|constructor]. exists t. split; [done|]. split; [congruence|]. split.
      * rewrite args_app, C4, (H9 b Hnew). rewrite decide_True by done. exact P3.
      * exists (pt_name p). split; [done|]. rewrite <- P1. apply elem_of_app. right. left.
  - done.
  - by rewrite <- app_assoc.
  - intros i. rewrite <- app_assoc. apply H6.
  - by rewrite <- app_assoc.
  - rewrite <- app_assoc. eapply Forall_impl; [exact H8|]. cbn. lia.
  - intros b' Hb'. rewrite not_elem_of_app in Hb'. destruct Hb' as [Hb1 Hb2]. rewrite args_app, C4, (H9 b' Hb1).
    rewrite decide_False; [done|]. intros ->. apply Hb2. by left.
Qed.

Lemma flush_tool_mirror T R M b p tools done out s : tr_next_index s ≤ U64_MAX → unheld s → pt_ended p = true →
  mirror T R M ((b, p) :: tools) done out s →
  ∃ o, flush_tool b p s = (o, ((), with_open None s)) ∧ mirror T R M tools (done ++ [pt_provider_index p]) (out ++ o) (with_open None s).
Proof.
  intros Hn Hp He H. rewrite flush_tool_plain by done. eexists. split; [done|].
  assert (0 ≤ b ≤ U64_MAX) as Hb.
  { pose proof (mi_below _ _ _ _ _ _ _ H) as Hl. apply Forall_app in Hl as [_ Hl]. apply Forall_cons in Hl as [Hl _]. cbn in Hl. lia. }
  rewrite app_assoc. eapply (mirror_tool _ _ _ _ _ _ _ _ s); [|done|done|cbn; lia].
  eapply mirror_quiet; [exact H|by apply close_quiet|done].
Qed.
Lemma flush_ended_mirror T R M : ∀ tools done out s, tr_next_index s ≤ U64_MAX → plain s → tr_tools s = tools → mirror T R M tools done out s →
  let '(o, (_, s')) := flush_ended tools s in mirrors T R M (out ++ o) s'.
Proof.
  induction tools as [|[b p] tools IH]; intros done out s Hn Hp Et H; cbn [flush_ended].
  { cbn. rewrite app_nil_r. split; [exact Hp|]. exists done. by rewrite Et. }
  destruct (pt_ended p) eqn:Ee.
  - unfold mbind, emit_bind, modify. set (s1 := with_tools tools s).
    assert (mirror T R M ((b, p) :: tools) done out s1) as H1 by (destruct H; by split).
    destruct (flush_tool_mirror _ _ _ _ _ _ _ _ s1 Hn (proj1 Hp) Ee H1) as (o & -> & H2).
    specialize (IH _ _ (with_open None s1) Hn Hp eq_refl H2). destruct (flush_ended tools (with_open None s1)) as [o' [[] s']].
    cbn [app]. by rewrite app_assoc.
  - cbn. rewrite app_nil_r. split; [exact Hp|]. exists done. by rewrite Et.
Qed.
Lemma flush_all_mirror T R M : ∀ tools done out s, tr_next_index s ≤ U64_MAX → unheld s → Forall (λ p, pt_ended p.2 = true) tools →
  mirror T R M tools done out s →
  let '(o, (_, s')) := flush_all tools s in ∃ done', unheld s' ∧ tr_next_index s' = tr_next_index s ∧ mirror T R M [] done' (out ++ o) s'.
Proof.
  induction tools as [|[b p] tools IH]; intros done out s Hn Hp He H; cbn [flush_all].
  { cbn. rewrite app_nil_r. by exists done. }
  apply Forall_cons in He as [He1 He]. cbn [snd] in He1. unfold mbind, emit_bind.
  destruct (flush_tool_mirror _ _ _ _ _ _ _ _ s Hn Hp He1 H) as (o & -> & H2).
  specialize (IH _ _ (with_open None s) Hn Hp He H2). destruct (flush_all tools (with_open None s)) as [o' [[] s']].
  by rewrite app_assoc.
Qed.

(** The pending tool of an index. *)
Lemma update_tool_split i f tools : i ∈ pt_provider_index ∘ snd <$> tools →
  ∃ l1 b p l2, tools = l1 ++ (b, p) :: l2 ∧ pt_provider_index p = i ∧ update_tool i f tools = l1 ++ (b, f p) :: l2.
Proof.
  induction tools as [|[b p] tools IH]; cbn [fmap list_fmap compose snd]; [by intros ?%elem_of_nil|].
  cbn [update_tool]. destruct (Z.eqb_spec (pt_provider_index p) i) as [E|E]; intros Hin.
  - by exists [], b, p, tools.
  - apply elem_of_cons in Hin as [Hin|Hin]; [by rewrite Hin in E|]. destruct (IH Hin) as (l1 & b' & p' & l2 & -> & Hp & ->).
    by exists ((b, p) :: l1), b', p', l2.
Qed.
Lemma update_indices i f tools : (∀ p, pt_provider_index (f p) = pt_provider_index p) →
  pt_provider_index ∘ snd <$> update_tool i f tools = pt_provider_index ∘ snd <$> tools.
Proof.
  intros Hf. induction tools as [|[b p] tools IH]; [done|]. cbn [update_tool]. destruct (_ =? _); cbn [fmap list_fmap compose snd]; [by rewrite Hf|].
  f_equal. exact IH.
Qed.
Lemma mirror_update T R M tools done out s i f t t' : mirror T R M tools done out s → M !! i = Some t → ot_ended t = false →
  (∀ p, pt_provider_index (f p) = pt_provider_index p) → (∀ p, pends p t → pends (f p) t') →
  mirror T R (<[i := t']> M) (update_tool i f tools) done out s.
Proof.
  intros [H1 H2 H3 H4 H5 H6 H7 H8 H9] Ht He Hf Hp.
  assert (i ∉ done) as Hnd.
  { intros Hin. apply list_elem_of_lookup in Hin as [k Hk]. destruct (Forall2_lookup_r _ _ _ _ _ H3 Hk) as (b & _ & t0 & Ht0 & He0 & _). congruence. }
  assert (i ∈ pt_provider_index ∘ snd <$> tools) as Hin.
  { assert (i ∈ done ++ (pt_provider_index ∘ snd <$> tools)) as Hi by (apply H6; by eexists). apply elem_of_app in Hi as [?|?]; done. }
  split; rewrite ?update_keys, ?update_indices by done; try done.
  - eapply Forall2_impl_in; [exact H3|]. intros b j _ Hj. cbn. rewrite lookup_insert_ne by (by intros ->). done.
  - destruct (update_tool_split i f tools Hin) as (l1 & b & p & l2 & -> & Ei & ->).
    apply NoDup_app in H5 as (_ & _ & H5). rewrite fmap_app in H5. cbn [fmap list_fmap compose snd] in H5.
    apply NoDup_app in H5 as (_ & Hd1 & Hd2). apply NoDup_cons in Hd2 as [Hd2 _].
    apply Forall_app in H4 as [F1 F2]. apply Forall_cons in F2 as [(t0 & Ht0 & Hp0) F2]. cbn [snd] in *.
    assert (∀ l, i ∉ pt_provider_index ∘ snd <$> l → Forall (λ p0, ∃ t0, M !! pt_provider_index p0.2 = Some t0 ∧ pends p0.2 t0) l →
      Forall (λ p0 : Z * PendingTool, ∃ t0, <[i:=t']> M !! pt_provider_index p0.2 = Some t0 ∧ pends p0.2 t0) l) as Hrest.
    { intros l Hl HF. rewrite Forall_forall in HF |- *. intros q Hq. destruct (HF q Hq) as (t1 & Ht1 & Hp1). exists t1. split; [|done].
      rewrite lookup_insert_ne; [done|]. intros E. apply Hl. apply list_elem_of_fmap. exists q. by split. }
    apply Forall_app. split; [|constructor].
    + apply Hrest; [|done]. intros Hi. apply (Hd1 i Hi). rewrite Ei. left.
    + exists t'. cbn [snd]. rewrite Hf, Ei, lookup_insert_eq. split; [done|]. apply Hp. rewrite Ei, Ht in Ht0. by injection Ht0 as ->.
    + apply Hrest; [|done]. by rewrite Ei in Hd2.
  - intros j. rewrite H6. rewrite lookup_insert_is_Some'. split; [by right|]. intros [<-|?]; [by eexists|done].
Qed.
Lemma mirror_start T R M tools done out s i call_id raw m : mirror T R M tools done out s → M !! i = None →
  0 ≤ tr_next_index s →
  mirror T R (<[i := MkOpenTool (MkToolCall i call_id m (normalize_tool_name raw) [] JNull None) false]> M)
    (tools ++ [(tr_next_index s, MkPending i call_id raw [] false)]) done out (with_index (tr_next_index s + 1) s).
Proof.
  intros [H1 H2 H3 H4 H5 H6 H7 H8 H9] Hn Hi. assert (i ∉ done ++ (pt_provider_index ∘ snd <$> tools)) as Hnew.
  { rewrite H6. rewrite Hn. intros [? ?]. done. }
  split; rewrite ?fmap_app; try done.
  - eapply Forall2_impl_in; [exact H3|]. intros b j _ Hj. cbn. rewrite lookup_insert_ne; [done|]. intros ->. apply Hnew, elem_of_app. by left.
  - apply Forall_app. split; [|constructor; [|constructor]].
    + rewrite Forall_forall in H4 |- *. intros q Hq. destruct (H4 q Hq) as (t1 & Ht1 & Hp1). exists t1. split; [|done].
      rewrite lookup_insert_ne; [done|]. intros ->. congruence.
    + eexists. cbn [snd pt_provider_index]. rewrite lookup_insert_eq. split; [done|]. by split_and!.
  - rewrite app_assoc. apply NoDup_app. split; [done|]. split; [|apply NoDup_singleton]. intros x Hx ->%list_elem_of_singleton. by apply Hnew.
  - intros j. rewrite app_assoc, elem_of_app, H6, lookup_insert_is_Some'. change (pt_provider_index ∘ snd <$> [(tr_next_index s, MkPending i call_id raw [] false)]) with [i].
    rewrite list_elem_of_singleton. naive_solver.
  - rewrite app_assoc. apply NoDup_app. split; [done|]. split; [|apply NoDup_singleton]. intros x Hx ->%list_elem_of_singleton.
    rewrite Forall_forall in H8. apply H8 in Hx. cbn in Hx. lia.
  - rewrite app_assoc. apply Forall_app. split; [eapply Forall_impl; [exact H8|]; cbn; lia|]. constructor; [cbn; lia|constructor].
Qed.

Lemma push_plain event s : plain s → translator_push event s = on_model_event event s.
Proof.
  intros (_ & Hs & Hf). unfold translator_push, mbind, emit_bind, gets. rewrite Hf, Hs.
  by destruct (on_model_event event s) as [o r].
Qed.
(** An operation that writes nothing of the message and leaves what is pending. *)
Lemma mirrors_quiet T R M out o s s' : mirrors T R M out s → quiet o → plain s' → tr_tools s' = tr_tools s →
  tr_next_index s ≤ tr_next_index s' → mirrors T R M (out ++ o) s'.
Proof. intros [_ (done & H)] Hq Hp Ht Hi. split; [done|]. exists done. rewrite Ht. by eapply mirror_quiet. Qed.
Lemma close_mirrors T R M out s : mirrors T R M out s → mirrors T R M (out ++ (close s).1) (close s).2.2.
Proof.
  intros H. pose proof (proj1 H) as Hp. eapply mirrors_quiet; [exact H|by apply close_quiet|..]; rewrite close_plain by done; done.
Qed.
Lemma close_kind_mirrors T R M kind out s : mirrors T R M out s →
  let '(o, (_, s')) := close_kind kind s in mirrors T R M (out ++ o) s'.
Proof.
  intros H. unfold close_kind, mbind, emit_bind, gets. destruct (is_open kind s).
  - pose proof (close_mirrors _ _ _ _ _ H) as Hc. destruct (close s) as [o [[] s']]. exact Hc.
  - cbn. by rewrite app_nil_r.
Qed.
Lemma open_mirrors n T R M kind out s : n ≤ U64_MAX → held n out s → mirrors T R M out s →
  let '(o, (_, s')) := open_block kind 0 s in mirrors T R M (out ++ o) s'.
Proof.
  intros Hn (used & _ & _ & H3 & _) H. pose proof (proj1 H) as Hp. pose proof (open_quiet kind s Hp ltac:(lia)) as Hq.
  rewrite open_plain in Hq |- * by done. eapply mirrors_quiet; [exact H|exact Hq|done..|cbn; lia].
Qed.
Lemma redacted_mirrors T R M : ∀ blocks out s, 0 ≤ tr_next_index s → tr_next_index s + zlen blocks ≤ U64_MAX → mirrors T R M out s →
  let '(o, (_, s')) := write_redacted blocks s in mirrors T R M (out ++ o) s'.
Proof.
  induction blocks as [|b blocks IH]; intros out s H0 Hn H; cbn [write_redacted]; [cbn; by rewrite app_nil_r|].
  rewrite zlen_cons in Hn. pose proof (zlen_nonneg blocks). destruct (is_redacted b) eqn:Eb; [|apply IH; [lia..|done]].
  apply bool_decide_eq_true in Eb. pose proof (proj1 H) as Hp. unfold mbind, emit_bind, gets, modify, write.
  set (s1 := with_index (tr_next_index s + 1) s). assert (plain s1) as Hp1 by done.
  pose proof (close_quiet s1 (proj1 Hp1)) as Hq. rewrite (close_plain s1 (proj1 Hp1)) in Hq |- *. cbn [fst] in Hq. set (s2 := with_open None s1).
  match type of Hq with quiet ?c => set (o := c ++ [content_block_start (tr_next_index s) b] ++ [content_block_stop (tr_next_index s)]) end.
  assert (mirrors T R M (out ++ o) s2) as H2.
  { eapply mirrors_quiet; [exact H| |done..|cbn; lia]. apply quiet_events_app; [exact Hq|]. apply quiet_events_app; [|apply quiet_stop].
    apply quiet_start; [lia|]. rewrite Eb. intros E. by apply (inj Some), lit_inj in E. }
  specialize (IH _ s2 ltac:(cbn; lia) ltac:(cbn; lia) H2). destruct (write_redacted blocks s2) as [o' [[] s']].
  subst o. rewrite <- !app_assoc in IH. exact IH.
Qed.
Lemma replay_mirrors T R M state out s : 0 ≤ tr_next_index s → tr_next_index s + zlen (replayed state) ≤ U64_MAX → mirrors T R M out s →
  let '(o, (_, s')) := redacted_blocks state s in mirrors T R M (out ++ o) s'.
Proof.
  intros H0 Hn H. unfold redacted_blocks, replayed in *. destruct (bool_decide _); [|cbn; by rewrite app_nil_r].
  destruct (_ ≫= as_array) as [blocks|]; [by apply redacted_mirrors|]. cbn. by rewrite app_nil_r.
Qed.

(** An event the engine's own cycle accepts is relayed. *)
Lemma event_mirrors n now c c' e out s : accepts now c e c' → (∀ q, e ≠ MStopSequence q) → n + blocks_of e ≤ U64_MAX → held n out s →
  mirrors (c_text c) (c_reasoning c) (c_tools c) out s →
  let '(o, (_, s')) := translator_push e s in mirrors (c_text c') (c_reasoning c') (c_tools c') (out ++ o) s'.
Proof.
  intros Ha Hq Hn Hh H. pose proof (blocks_nonneg e) as Hb. pose proof H as [Hp (done & Hm)]. rewrite push_plain by done.
  assert (0 ≤ tr_next_index s ≤ n) as Hi by (by destruct Hh as (used & _ & _ & Hi & _)).
  destruct Ha; cbn [on_model_event blocks_of c_text c_reasoning c_tools set_client set_text set_reasoning set_tools set_call_ids
    set_text_open set_thinking set_model_call_id set_replay set_usage set_finish] in *.
  all: try (cbn; rewrite app_nil_r; split; [done|exists done; exact Hm]).
  - unfold mbind, emit_bind. pose proof (open_mirrors n _ _ _ BText out s ltac:(lia) Hh H) as Ho.
    destruct (open_block BText 0 s) as [o [i s']]. cbn. by rewrite app_nil_r.
  - destruct (push_text_plain n d out s Hn Hh Hp) as (o & s' & -> & Ht & Hr & Hc & Hg & Hp' & Et & Hle).
    split; [done|]. exists done. rewrite Et. pose proof (mirror_said _ _ _ _ _ _ o _ s' Hm Hc Hg Hle) as K. by rewrite Ht, Hr, app_nil_r in K.
  - by apply close_kind_mirrors.
  - unfold mbind, emit_bind. pose proof (open_mirrors n _ _ _ BThinking out s ltac:(lia) Hh H) as Ho.
    destruct (open_block BThinking 0 s) as [o [i s']]. cbn. by rewrite app_nil_r.
  - destruct (ensure_plain n BThinking out s Hn Hh Hp) as (o & s' & E & Hqo & Hp' & Et & Hle & Htk).
    destruct (delta_takes BThinking (thinking_delta d) s' Htk) as (i & Hidx & Ed). unfold mbind, emit_bind. rewrite E, Ed.
    destruct (thinking_content i d Hidx) as (C1 & C2 & C3 & C4). rewrite app_assoc. split; [done|]. exists done. rewrite Et.
    pose proof (mirror_quiet _ _ _ _ _ _ _ _ s' Hm Hqo Hle) as K. pose proof (mirror_said _ _ _ _ _ _ _ _ s' K C3 C4 ltac:(lia)) as K'.
    by rewrite C1, C2, app_nil_r in K'.
  - unfold mbind, emit_bind, gets. destruct (is_open BThinking s) eqn:Eo; [|cbn; by rewrite app_nil_r].
    destruct (delta_takes BThinking (signature_delta x) s) as (i & Hidx & Ed); [eapply (held_takes n); [lia|done..]|]. rewrite Ed.
    eapply mirrors_quiet; [exact H|by apply signature_content|done..].
  - by destruct (Hq x).
  - by apply close_kind_mirrors.
  - unfold start_tool, mbind, emit_bind, gets, modify.
    assert (existsb (λ p, pt_provider_index p.2 =? i) (tr_tools s) = false) as ->.
    { apply not_true_iff_false. rewrite existsb_exists. intros (p & Hin & E). apply Z.eqb_eq in E. apply list_elem_of_In in Hin.
      assert (is_Some (c_tools c !! i)) as [? ?]; [|congruence]. apply (mi_all _ _ _ _ _ _ _ Hm). apply elem_of_app. right. apply list_elem_of_fmap. by exists p. }
    cbn. rewrite app_nil_r. split; [done|]. exists done. eapply mirror_at; [apply mirror_start; [done..|lia]|cbn; lia].
  - cbn. rewrite app_nil_r. split; [done|]. exists done.
    eapply mirror_at; [eapply mirror_update; [exact Hm|done|done|done|]|cbn; lia]. intros p (P1 & P2 & P3 & P4). split_and!; cbn in *; try done. by rewrite P3.
  - unfold mbind, emit_bind, modify, flush_finished_tools, gets. set (s1 := with_tools _ s).
    assert (mirror (c_text c) (c_reasoning c) (<[i:=MkOpenTool (close_call c0) true]> (c_tools c)) (tr_tools s1) done out s1) as Hm1.
    { eapply mirror_at; [eapply mirror_update; [exact Hm|done|done|done|]|cbn; lia]. intros p (P1 & P2 & P3 & P4).
      unfold close_call. split_and!; cbn in *; repeat case_match; done. }
    pose proof (flush_ended_mirror _ _ _ _ _ _ s1 ltac:(cbn; lia) Hp eq_refl Hm1) as K. unfold mbind, emit_bind.
    destruct (flush_ended (tr_tools s1) s1) as [o [[] s']]. exact K.
  - by apply replay_mirrors; [lia..|].
  - cbn. rewrite app_nil_r. split; [done|]. exists done. eapply mirror_at; [exact Hm|cbn; lia].
  - cbn. rewrite app_nil_r. split; [done|]. exists done. eapply mirror_at; [exact Hm|cbn; lia].
Qed.

Lemma pushes_snoc events e s : translator_pushes (events ++ [e]) s =
  let '(o, (_, s1)) := translator_pushes events s in let '(o', r) := translator_push e s1 in (o ++ o', r).
Proof.
  revert s. induction events as [|e' events IH]; intros s; cbn [app translator_pushes].
  - unfold mbind, emit_bind, mret, emit_ret. destruct (translator_push e s) as [o [[] s1]]. by rewrite app_nil_r.
  - unfold mbind, emit_bind. destruct (translator_push e' s) as [o [[] s1]]. rewrite IH.
    destruct (translator_pushes events s1) as [o1 [[] s2]]. destruct (translator_push e s2) as [o2 r]. by rewrite app_assoc.
Qed.
Lemma total_snoc events e : total_blocks (events ++ [e]) = total_blocks events + blocks_of e.
Proof.
  induction events as [|e' events IH]; [cbn; lia|]. change (total_blocks ((e' :: events) ++ [e])) with (blocks_of e' + total_blocks (events ++ [e])).
  rewrite IH. change (total_blocks (e' :: events)) with (blocks_of e' + total_blocks events). lia.
Qed.
Definition unstopped (events : list ModelEvent) : Prop := ∀ q, MStopSequence q ∉ events.

(** What the engine's cycle has accepted is written or pending. *)
Lemma steps_mirrors client s0 c0 es c : steps c0 es c → c0 = new_cycle client → unstopped es → total_blocks es ≤ U64_MAX →
  held 0 [message_start s0] s0 → mirrors [] [] ∅ [message_start s0] s0 →
  let '(o, (_, s)) := translator_pushes es s0 in
  held (total_blocks es) (message_start s0 :: o) s ∧ mirrors (c_text c) (c_reasoning c) (c_tools c) (message_start s0 :: o) s.
Proof.
  intros Hs E0. induction Hs as [c0|c0 es c1 now e c2 Hs IH Hf Ha]; intros Hu Ht Hh Hm.
  - subst c0. cbn. by split.
  - rewrite total_snoc in Ht. pose proof (blocks_nonneg e) as Hb.
    assert (unstopped es) as Hu' by (intros q Hq; apply (Hu q); apply elem_of_app; by left).
    specialize (IH E0 Hu' ltac:(lia) Hh Hm). rewrite pushes_snoc, total_snoc.
    destruct (translator_pushes es s0) as [o [[] s1]]. destruct IH as [IHh IHm].
    pose proof (push_held (total_blocks es) e Ht _ _ IHh) as Hh2.
    assert (∀ q, e ≠ MStopSequence q) as Hne by (intros q ->; apply (Hu q); apply elem_of_app; right; left).
    pose proof (event_mirrors _ _ _ _ _ _ _ Ha Hne Ht IHh IHm) as Hm2.
    destruct (translator_push e s1) as [o2 [[] s2]]. cbn [app] in *. by split.
Qed.
(** Every call of a cycle that is done has ended. *)
Lemma done_ended c0 es c : steps c0 es c → c_finish c0 = None → c_finish c ≠ None → ∀ i t, c_tools c !! i = Some t → ot_ended t = true.
Proof.
  intros Hs H0 Hc i t Ht. destruct Hs as [c0|c0 es c1 now e c2 Hs Hf Ha]; [done|].
  destruct Ha; try (by cbn in Hc; rewrite Hf in Hc). cbn in Ht. unfold block_open in *.
  match goal with H : _ || _ || _ = false |- _ => apply orb_false_iff in H as [_ H]; rename H into He end.
  destruct (ot_ended t) eqn:E; [done|]. exfalso. apply not_true_iff_false in He. apply He, existsb_exists. exists (i, t).
  split; [by apply list_elem_of_In, elem_of_map_to_list|]. cbn. by rewrite E.
Qed.

Lemma quiet_other v kind : kinded kind v → kind ≠ "content_block_delta"%string → kind ≠ "content_block_start"%string → quiet [v].
Proof.
  intros Hk Hd Hs. destruct (content_single v) as (H1 & H2 & H3 & H4). destruct (piece_other _ _ Hk Hd) as (E1 & E2 & E3).
  rewrite (call_other _ _ Hk Hs) in H3. split_and!; [congruence..|]. intros b. by rewrite H4.
Qed.
Lemma new_mirrors id model estimated first : mirrors [] [] ∅ [message_start first] (new_translator id model [] estimated).
Proof.
  split; [done|]. exists []. apply (mirror_quiet _ _ _ _ _ [] [message_start first] (new_translator id model [] estimated)); [|apply (quiet_other _ "message_start"); [|done..]|done].
  - split; try done; try constructor. + intros ?%elem_of_nil; done. + rewrite lookup_empty. by intros [? ?].
  - unfold kinded, message_start. by get_obj.
Qed.
Lemma finish_mirror T R M done out s : tr_next_index s ≤ U64_MAX → plain s → mirror T R M (tr_tools s) done out s →
  (∀ i t, M !! i = Some t → ot_ended t = true) →
  ∃ done', mirror T R M [] done' (out ++ (translator_finish s).1) s.
Proof.
  intros Hn Hp H He. pose proof Hp as (Hu & _ & Hf). unfold translator_finish, mbind, emit_bind, gets, modify, write. rewrite Hf.
  set (s1 := with_tools [] (set_finished s)).
  assert (Forall (λ p, pt_ended p.2 = true) (tr_tools s)) as Hall.
  { pose proof (mi_pending _ _ _ _ _ _ _ H) as Hpd. eapply Forall_impl; [exact Hpd|]. intros p (t & Ht & _ & _ & _ & Hpe).
    apply He in Ht. congruence. }
  assert (mirror T R M (tr_tools s) done out s1) as H1 by (eapply mirror_at; [exact H|done]).
  pose proof (flush_all_mirror _ _ _ (tr_tools s) done out s1 Hn Hu Hall H1) as K. change (tr_tools (set_finished s)) with (tr_tools s).
  destruct (flush_all (tr_tools s) s1) as [o [[] s2]]. destruct K as (done' & Hu2 & Hi2 & K). rewrite close_plain by exact Hu2.
  exists done'. pose proof (close_quiet s2 Hu2) as Hq. rewrite close_plain in Hq by exact Hu2. cbn [fst] in Hq |- *.
  cbn [app]. rewrite app_assoc. eapply (mirror_quiet _ _ _ _ _ _ _ s2); [exact K| |by rewrite Hi2].
  apply quiet_events_app; [exact Hq|]. apply (quiet_events_app [_] [_]).
  - apply (quiet_other _ "message_delta"); [|done..]. unfold kinded, message_delta_event. by get_obj.
  - apply (quiet_other _ "message_stop"); [|done..]. unfold kinded, message_stop_event. by get_obj.
Qed.

(** The calls of the cycle, in the order the blocks are in. *)
Lemma mirror_calls T R M done out s : mirror T R M [] done out s →
  ∃ k, Forall2 (sent_as out) (calls_of out) k ∧ k ≡ₚ into_calls M.
Proof.
  intros [_ _ H3 _ H5 H6 _ _ _]. cbn [fmap list_fmap] in *. rewrite app_nil_r in H5. setoid_rewrite app_nil_r in H6.
  assert (∃ ps : list (Z * OpenTool), ps.*1 = done ∧ Forall (λ p, M !! p.1 = Some p.2) ps ∧
    Forall2 (sent_as out) (calls_of out) ((λ p, ot_call p.2) <$> ps)) as (ps & Hd & Hps & Hf).
  { clear H5 H6. induction H3 as [|b i bs js (t & Ht & _ & Hs) H3 (ps & Hd & Hps & Hf)]; [by exists []|].
    exists ((i, t) :: ps). cbn. split; [by f_equal|]. split; by constructor. }
  exists ((λ p, ot_call p.2) <$> ps). split; [done|]. unfold into_calls. apply fmap_Permutation. rewrite merge_sort_Permutation.
  subst done. apply NoDup_Permutation; [by eapply NoDup_fmap_1|apply NoDup_map_to_list|]. intros [i t]. rewrite elem_of_map_to_list.
  rewrite Forall_forall in Hps. split; [by intros Hin; apply Hps in Hin|]. intros Ht.
  assert (i ∈ ps.*1) as ([j t'] & -> & Hin)%list_elem_of_fmap by (apply H6; by eexists).
  pose proof (Hps _ Hin) as Ht'. cbn in *. rewrite Ht in Ht'. by injection Ht' as ->.
Qed.

Lemma cycle_ok_steps client timed t c r :
  consume_model_cycle client (((λ p, (p.1, Item (Ok p.2))) <$> timed) ++ [(t, StreamEnd false)]) = Some (c, Ok r) →
  steps (new_cycle client) (snd <$> timed) c ∧ finish_cycle c = Ok r.
Proof.
  intros H. apply cycle_loop_trace in H as (es & s1 & now & p & rest & Hs & Ht & Hi).
  rewrite fmap_app, <- list_fmap_compose in Hi. cbn [fmap list_fmap snd] in Hi.
  assert (p = StreamEnd false ∧ c = s1 ∧ finish_cycle s1 = Ok r) as (-> & -> & Hf).
  { unfold cycle_turn in Ht. destruct p as [[e|e]|[]|]; repeat case_match; simplify_eq; done. }
  split; [|done]. enough (es = snd <$> timed) as <- by done. clear -Hi. revert es Hi.
  induction timed as [|[n e] timed IH]; intros [|e' es] Hi; cbn in *; try done. injection Hi as -> Hi. f_equal. by apply IH.
Qed.
Lemma cycle_finish_ok c r : finish_cycle c = Ok r → c_finish c ≠ None ∧ r_text r = c_text c ∧ r_reasoning r = c_reasoning c ∧ r_calls r = into_calls (c_tools c).
Proof. unfold finish_cycle. intros H. repeat case_match; simplify_eq; done. Qed.

(** C12: A response that the engine itself would accept is relayed whole.  When the model cycle returns a result for the
    events of a provider, and no stop sequence is asked for, what a client reads in the gateway's stream (with the
    adapter's own reading of the Messages API) is that result: the same text, the same reasoning, and one tool_use
    block for each call, with its identifier, its name and all of its arguments, whatever order the provider
    interleaved them in. *)
Theorem gateway_relays client id model estimated timed t c r :
  consume_model_cycle client (((λ p, (p.1, Item (Ok p.2))) <$> timed) ++ [(t, StreamEnd false)]) = Some (c, Ok r) →
  unstopped (snd <$> timed) → total_blocks (snd <$> timed) ≤ U64_MAX →
  let out := response (new_translator id model [] estimated) (snd <$> timed) in
  let vs := sse <$> out in
  concat (piece_text <$> vs) = r_text r ∧ concat (piece_thinking <$> vs) = r_reasoning r ∧
  ∃ sent, sent ≡ₚ r_calls r ∧ Forall2 (λ b call, args vs b = arguments_text call ∧
    ∃ raw, normalize_tool_name raw = name call ∧ content_block_start b (tool_use_block (call_id call) raw) ∈ out) (calls vs) sent.
Proof.
  intros H Hu Hn. apply cycle_ok_steps in H as [Hs Hf]. apply cycle_finish_ok in Hf as (Hfin & -> & -> & ->). cbn zeta.
  set (s0 := new_translator id model [] estimated).
  pose proof (steps_mirrors client s0 _ _ _ Hs eq_refl Hu Hn (new_held _ _ _ _ _) (new_mirrors _ _ _ _)) as K.
  unfold response, respond, mbind, emit_bind. destruct (translator_pushes (snd <$> timed) s0) as [o [[] s1]]. destruct K as [Kh [Kp (done & Km)]].
  assert (tr_next_index s1 ≤ U64_MAX) as Hi by (destruct Kh as (used & _ & _ & ? & _); lia).
  destruct (finish_mirror _ _ _ _ _ _ Hi Kp Km (done_ended _ _ _ Hs eq_refl Hfin)) as (done' & Km').
  destruct (translator_finish s1) as [o' r']. cbn [fst app] in *. destruct (mirror_calls _ _ _ _ _ _ Km') as (k & Hk & Hp).
  split; [exact (mi_text _ _ _ _ _ _ _ Km')|]. split; [exact (mi_thinking _ _ _ _ _ _ _ Km')|]. by exists k.
Qed.
End Facts.
