(* ===== verification/ClaudeDocument.v ===== *)
(** * ClaudeDocument: the answer to a client that asked for no stream

    The document of a message ([collected]) against the stream of the same response ([streamed]): one reads the events the
    other writes.  [collected_all_or_nothing]: the gateway answers with a document only of a response that is complete,
    and it is the document of the stream ([document_of]): the message as it began and ended, and every block with what its
    pieces say; anything else is an error of the API. *)

From stdpp Require Import prelude gmap strings list sorting.
From S2P Require Import Prelude Errors External Json Message Budget ModelCycle Provider Anthropic ClaudeApi StopFilter ClaudeStream ClaudeStreamFacts.
Local Open Scope Z_scope.

Section Document.
Context {SJ : SerdeJson} {SN : SerdeNumber} {SL : SerdeNumberLaws} {RQ : Reqwest}.

Lemma assembler_pushes_app a o o' : assembler_pushes a (o ++ o') = (a ← assembler_pushes a o; assembler_pushes a o').
Proof.
  revert a. induction o as [|v o IH]; intros a; [done|]. cbn [app assembler_pushes]. unfold mbind, result_bind at 1 2 3.
  destruct (assembler_push a v) as [a'|e]; [apply IH|done].
Qed.
Lemma collect_rest_eq : ∀ inputs s a, collect_rest s a inputs =
  let '(events, ended) := delivered inputs in
  let '(o, (_, s')) := translator_pushes events s in
  match assembler_pushes a o with
  | Err stop => Some (stopped_by stop)
  | Ok a' =>
      match ended with
      | None => None
      | Some (Some error) => Some (Failed (from_error error) (Some error))
      | Some None =>
          match assembler_pushes a' (translator_finish s').1 with
          | Err stop => Some (stopped_by stop)
          | Ok a'' => Some (Document (assembler_finish a''))
          end
      end
  end.
Proof.
  induction inputs as [|[[event|error]| |] inputs IH]; intros s a; cbn [collect_rest delivered]; try done.
  destruct (is_done event).
  - cbn [translator_pushes]. unfold mbind, emit_bind. destruct (translator_push event s) as [o [[] s1]]. cbn [mret emit_ret].
    rewrite app_nil_r. destruct (assembler_pushes a o) as [a'|stop]; [|done]. by destruct (translator_finish s1) as [o' r].
  - destruct (translator_push event s) as [o [[] s1]] eqn:Ep. specialize (IH s1). destruct (delivered inputs) as [events ended].
    cbn [translator_pushes]. unfold mbind at 1, emit_bind at 1. rewrite Ep. destruct (translator_pushes events s1) as [o' [[] s2]].
    rewrite assembler_pushes_app. unfold mbind, result_bind. destruct (assembler_pushes a o) as [a'|stop]; [apply IH|done].
Qed.

(** ** What the assembler has built *)

Lemma index_set_object field x v : is_object v = true → index_set field x v = Ok (set_member field x v).
Proof. by destruct v. Qed.
Lemma set_member_object field x v : is_object v = true → is_object (set_member field x v) = true.
Proof. by destruct v. Qed.
Lemma get_set_of_object field x v name : is_object v = true →
  get_member name (set_member field x v) = if decide (field = name) then Some x else get_member name v.
Proof.
  intros Hv. destruct v; try done. destruct (decide (field = name)) as [->|Hne]; [apply get_set_same|by apply get_set_other].
Qed.

(** The input of a block that has stopped: what was sent, parsed, or that of the opened block when nothing was sent. *)
Definition input_of (sent : str) (opened block : json) : Prop :=
  (sent = [] ∧ get_member "input" block = get_member "input" opened) ∨
  ∃ v, from_str sent = Ok v ∧ is_object v = true ∧ get_member "input" block = Some v.

(** The pieces of a block in a stream, and what they say of one kind. *)
Definition piece_at (i : Z) (v : json) : option json :=
  if decide (get_str "type" v = Some (lit "content_block_delta") ∧ get_member "index" v ≫= as_u64 = Some i) then get_member "delta" v else None.
Definition pieces (i : Z) (out : list json) : list json := omap (piece_at i) out.
Definition of_kind (kind : string) (d : json) : Prop := get_str "type" d = Some (lit kind).
#[local] Instance of_kind_dec kind d : Decision (of_kind kind d) := decide (get_str "type" d = Some (lit kind)).
Definition said (kind member : string) (i : Z) (out : list json) : str :=
  concat ((λ d, default [] (get_str member d)) <$> filter (of_kind kind) (pieces i out)).
Definition signed (i : Z) (out : list json) : option json := last (omap (get_member "signature") (filter (of_kind "signature_delta") (pieces i out))).
(** The indices of the blocks that begin. *)
Definition starts (out : list json) : list Z :=
  omap (λ v, if decide (get_str "type" v = Some (lit "content_block_start")) then get_member "index" v ≫= as_u64 else None) out.
Definition text_in (member : string) (block : json) : str := default [] (get_str member block).

(** A block holds what its pieces say, after what it was opened with, and is otherwise as it was opened. *)
Record shown (i : Z) (out : list json) (opened block : json) : Prop := {
  sh_other n : n ∉ ["text"; "thinking"; "signature"; "input"]%string → get_member n block = get_member n opened;
  sh_text : text_in "text" block = text_in "text" opened ++ said "text_delta" "text" i out;
  sh_thinking : text_in "thinking" block = text_in "thinking" opened ++ said "thinking_delta" "thinking" i out;
  sh_signature : get_member "signature" block = match signed i out with Some x => Some x | None => get_member "signature" opened end
}.

Lemma starts_start out i b : 0 ≤ i ≤ U64_MAX → starts (out ++ [content_block_start i b]) = starts out ++ [i].
Proof.
  intros Hi. unfold starts. rewrite omap_app. f_equal. cbn [omap list_omap]. rewrite decide_True by apply start_kinded.
  assert (get_member "index" (content_block_start i b) = Some (number i)) as -> by (unfold content_block_start; by get_obj). cbn. by rewrite number_decimal.
Qed.
Lemma starts_other out v kind : kinded kind v → kind ≠ "content_block_start"%string → starts (out ++ [v]) = starts out.
Proof.
  intros Hk Hne. unfold starts. rewrite omap_app. cbn [omap list_omap]. rewrite decide_False; [apply app_nil_r|]. rewrite Hk. intros [= E]. by apply lit_inj in E.
Qed.
Lemma pieces_snoc i out v : pieces i (out ++ [v]) = pieces i out ++ option_list (piece_at i v).
Proof. unfold pieces. rewrite omap_app. by f_equal. Qed.
Lemma pieces_same i out v : piece_at i v = None → pieces i (out ++ [v]) = pieces i out.
Proof. intros H. by rewrite pieces_snoc, H, app_nil_r. Qed.
Lemma shown_pieces i out out' opened block : pieces i out' = pieces i out → shown i out opened block → shown i out' opened block.
Proof. intros E [H1 H2 H3 H4]. unfold said, signed in *. split; unfold said, signed; rewrite ?E; done. Qed.
Lemma piece_other_kind i v kind : kinded kind v → kind ≠ "content_block_delta"%string → piece_at i v = None.
Proof. intros H Hne. unfold piece_at. apply decide_False. rewrite H. intros [[= E] _]. by apply lit_inj in E. Qed.
Lemma piece_delta i j d : 0 ≤ j ≤ U64_MAX → piece_at i (content_block_delta j d) = if decide (i = j) then Some d else None.
Proof.
  intros Hj. unfold piece_at. rewrite (delta_kinded j d), delta_delta. assert (get_member "index" (content_block_delta j d) = Some (number j)) as -> by (unfold content_block_delta; by get_obj).
  cbn [mbind option_bind]. replace (as_u64 (number j)) with (Some j) by (cbn; by rewrite number_decimal). destruct (decide (i = j)) as [->|Hne].
  - by rewrite decide_True.
  - apply decide_False. intros [_ [=]]. congruence.
Qed.
Definition says (kind member : string) (d : json) : str := if decide (of_kind kind d) then default [] (get_str member d) else [].
Lemma said_snoc kind member i out d : 0 ≤ i ≤ U64_MAX → said kind member i (out ++ [content_block_delta i d]) = said kind member i out ++ says kind member d.
Proof.
  intros Hi. unfold said, says. rewrite pieces_snoc, piece_delta, decide_True by done. change (option_list (Some d)) with [d]. rewrite filter_app, fmap_app, concat_app. f_equal.
  destruct (decide (of_kind kind d)) as [Hk|Hk]; [rewrite filter_cons_True by done|rewrite filter_cons_False by done]; [|done]. cbn. apply app_nil_r.
Qed.
Lemma signed_snoc i out d : 0 ≤ i ≤ U64_MAX → signed i (out ++ [content_block_delta i d]) =
  match (if decide (of_kind "signature_delta" d) then get_member "signature" d else None) with Some x => Some x | None => signed i out end.
Proof.
  intros Hi. unfold signed. rewrite pieces_snoc, piece_delta, decide_True by done. change (option_list (Some d)) with [d]. rewrite filter_app, omap_app.
  destruct (decide (of_kind "signature_delta" d)) as [Hk|Hk]; [rewrite filter_cons_True by done|rewrite filter_cons_False by done].
  - cbn [omap list_omap filter list_filter]. destruct (get_member "signature" d); [by rewrite last_snoc|by rewrite app_nil_r].
  - cbn. by rewrite app_nil_r.
Qed.
Lemma shown_step i out d opened block block' : 0 ≤ i ≤ U64_MAX → shown i out opened block →
  (∀ n, n ∉ ["text"; "thinking"; "signature"; "input"]%string → get_member n block' = get_member n block) →
  text_in "text" block' = text_in "text" block ++ says "text_delta" "text" d →
  text_in "thinking" block' = text_in "thinking" block ++ says "thinking_delta" "thinking" d →
  get_member "signature" block' =
    match (if decide (of_kind "signature_delta" d) then get_member "signature" d else None) with Some x => Some x | None => get_member "signature" block end →
  shown i (out ++ [content_block_delta i d]) opened block'.
Proof.
  intros Hi [H1 H2 H3 H4] K1 K2 K3 K4. split.
  - intros n Hn. by rewrite K1, H1.
  - by rewrite K2, H2, said_snoc, app_assoc.
  - by rewrite K3, H3, said_snoc, app_assoc.
  - rewrite K4, signed_snoc by done. by destruct (if decide _ then _ else _).
Qed.

(** What the assembler holds after the events [out]. *)
Record built (out : list json) (g : Gram) (a : Assembler) : Prop := {
  bu_message : is_object (as_message a) = true;
  bu_sorted : StronglySorted Z.lt (as_blocks a).*1;
  bu_blocks i : i ∉ g_used g → tree_get i (as_blocks a) = None ∧ args_of out i = [] ∧ pieces i out = [];
  bu_open i k : g_open g = Some (i, k) → i ∈ g_used g ∧ is_Some (tree_get i (as_blocks a)) ∧ (k = lit "tool_use" → i ∈ calls_of out);
  bu_objects i b : tree_get i (as_blocks a) = Some b → is_object b = true;
  bu_partial i p : as_partial a !! i = Some p → g_open g = Some (i, lit "tool_use") ∧ p = args_of out i;
  bu_none i k : g_open g = Some (i, k) → as_partial a !! i = None → args_of out i = [];
  bu_starts : (as_blocks a).*1 ≡ₚ starts out;
  bu_shown i block : tree_get i (as_blocks a) = Some block → ∃ opened, content_block_start i opened ∈ out ∧ shown i out opened block ∧
    if decide (fst <$> g_open g = Some i) then get_member "input" block = get_member "input" opened else input_of (args_of out i) opened block
}.

Lemma block_index_of v i : get_member "index" v = Some (number i) → 0 ≤ i ≤ U64_MAX → block_index v = i.
Proof. intros H Hi. unfold block_index. rewrite H. cbn. by rewrite number_decimal. Qed.
(** The events that begin, fill and end a block. *)
Lemma push_start a i b : 0 ≤ i ≤ U64_MAX →
  assembler_push a (content_block_start i b) = Ok (MkAssembler (as_message a) (tree_insert i b (as_blocks a)) (as_partial a)).
Proof.
  intros Hi. unfold assembler_push. rewrite (start_kinded i b), !named_lit. cbn [String.eqb Ascii.eqb Bool.eqb].
  rewrite start_block, (block_index_of _ i); [done| |done]. unfold content_block_start. by get_obj.
Qed.
Lemma push_delta a i d : 0 ≤ i ≤ U64_MAX → assembler_push a (content_block_delta i d) =
  match tree_get i (as_blocks a) with Some block => assembler_delta a i block d | None => Ok a end.
Proof.
  intros Hi. unfold assembler_push. rewrite (delta_kinded i d), !named_lit. cbn [String.eqb Ascii.eqb Bool.eqb].
  rewrite delta_delta, (block_index_of _ i); [done| |done]. unfold content_block_delta. by get_obj.
Qed.
Lemma push_stop a i : 0 ≤ i ≤ U64_MAX → assembler_push a (content_block_stop i) = assembler_stop a i.
Proof.
  intros Hi. unfold assembler_push. rewrite (stop_kinded i), !named_lit. cbn [String.eqb Ascii.eqb Bool.eqb].
  rewrite (block_index_of _ i); [done| |done]. unfold content_block_stop. by get_obj.
Qed.

(** *** A block begins *)
Lemma typed_object b k : get_str "type" b = Some k → is_object b = true.
Proof. unfold get_str. by destruct b. Qed.
Lemma built_start out used a i b k : built out (MkGram None used false) a → 0 ≤ i ≤ U64_MAX → i ∉ used → get_str "type" b = Some k →
  built (out ++ [content_block_start i b]) (MkGram (Some (i, k)) ({[i]} ∪ used) false)
    (MkAssembler (as_message a) (tree_insert i b (as_blocks a)) (as_partial a)).
Proof.
  intros [B0 Bs B2 B3 B4 B5 B6 Bi B7] Hi Hu Hk. cbn [g_open g_used] in *.
  destruct (content_start i b Hi) as (C1 & C2 & C3 & C4). destruct (B2 i Hu) as (Hnone & Hargs & Hnp).
  assert (∀ j, args_of (out ++ [content_block_start i b]) j = args_of out j) as Ea by (intros j; by rewrite args_app, C4, app_nil_r).
  assert (∀ j, pieces j (out ++ [content_block_start i b]) = pieces j out) as Ep by (intros j; by eapply pieces_same, piece_other_kind; [apply start_kinded|]).
  split; cbn [as_message as_blocks as_partial g_open g_used fmap option_fmap option_map fst]; [done|by apply tree_insert_sorted|..].
  - intros j Hj. apply not_elem_of_union in Hj as [Hji Hj]. rewrite not_elem_of_singleton in Hji. destruct (B2 j Hj) as (H1 & H2 & H3).
    rewrite tree_get_insert, decide_False by done. by rewrite Ea, Ep.
  - intros j k' [= <- <-]. split; [set_solver|]. rewrite tree_get_insert, decide_True by done. split; [by eexists|]. intros ->.
    rewrite calls_app, C3, bool_decide_eq_true_2 by done. apply elem_of_app. right. by left.
  - intros j b'. rewrite tree_get_insert. destruct (decide (i = j)); [|apply B4]. intros [= <-]. by eapply typed_object.
  - intros j p Hp. by apply B5 in Hp as [? _].
  - intros j k' [= <- <-] _. by rewrite Ea.
  - rewrite starts_start, tree_insert_fresh, Bi by done. apply Permutation_cons_append.
  - intros j b'. rewrite tree_get_insert. destruct (decide (i = j)) as [<-|Hne].
    + intros [= <-]. exists b. split; [apply elem_of_app; right; by left|]. split; [|by rewrite decide_True].
      eapply shown_pieces; [apply Ep|]. split; [done|..]; unfold said, signed; rewrite Hnp; [symmetry; apply app_nil_r..|done].
    + intros Hj. destruct (B7 j b' Hj) as (o & H1 & H2 & H3). exists o. split; [apply elem_of_app; by left|].
      split; [eapply shown_pieces; [apply Ep|exact H2]|]. rewrite decide_False by congruence. by rewrite Ea.
Qed.

(** *** A block is filled *)
Lemma pieces_other i j out d : 0 ≤ i ≤ U64_MAX → j ≠ i → pieces j (out ++ [content_block_delta i d]) = pieces j out.
Proof. intros Hi Hne. apply pieces_same. by rewrite piece_delta, decide_False. Qed.
(** The open block is replaced by one in which the piece was said. *)
Lemma built_replace out i k used a d block block' : let v := content_block_delta i d in built out (MkGram (Some (i, k)) used false) a → 0 ≤ i ≤ U64_MAX →
  calls_of [v] = [] → (∀ j, args_of [v] j = []) → tree_get i (as_blocks a) = Some block → is_object block' = true →
  (∀ opened, shown i out opened block → shown i (out ++ [v]) opened block') → get_member "input" block' = get_member "input" block →
  built (out ++ [v]) (MkGram (Some (i, k)) used false) (MkAssembler (as_message a) (tree_insert i block' (as_blocks a)) (as_partial a)).
Proof.
  intros v [B0 Bs B2 B3 B4 B5 B6 Bi B7] Hr Hc Hg Ht Ho Hn Hin. cbn [g_open g_used] in *.
  assert (∀ j, args_of (out ++ [v]) j = args_of out j) as Ea by (intros j; by rewrite args_app, Hg, app_nil_r).
  assert (calls_of (out ++ [v]) = calls_of out) as Ec by (by rewrite calls_app, Hc, app_nil_r).
  destruct (B3 i k eq_refl) as (Hi & Hsome & Hk). split; cbn [as_message as_blocks as_partial g_open g_used fmap option_fmap option_map fst]; [done|by apply tree_insert_sorted|..].
  - intros j Hj. assert (j ≠ i) as Hne by (by intros ->). rewrite tree_get_insert, decide_False, Ea by congruence. unfold v. rewrite (pieces_other i j) by done. by apply B2.
  - intros j k' [= <- <-]. rewrite tree_get_insert, decide_True, Ec by done. split; [done|]. split; [by eexists|done].
  - intros j b. rewrite tree_get_insert. destruct (decide (i = j)); [by intros [= <-]|apply B4].
  - intros j p Hp. rewrite Ea. by apply B5.
  - intros j k' E Hp. rewrite Ea. by eapply B6.
  - rewrite tree_insert_found by done. unfold v. by rewrite (starts_other _ _ _ (delta_kinded i d)).
  - intros j b. rewrite tree_get_insert, Ea. destruct (decide (i = j)) as [<-|Hne].
    + intros [= <-]. destruct (B7 i block Ht) as (o & H1 & H2 & H3). exists o. split; [apply elem_of_app; by left|]. split; [by apply Hn|].
      rewrite decide_True in H3 by done. by rewrite decide_True, Hin.
    + intros Hj. destruct (B7 j b Hj) as (o & H1 & H2 & H3). exists o. split; [apply elem_of_app; by left|]. split; [|done].
      eapply shown_pieces; [|exact H2]. apply pieces_other; [done|congruence].
Qed.
(** The open block is left as it is, and what it is sent besides may be a piece of its arguments. *)
Lemma built_input out i k used a d p : let v := content_block_delta i d in built out (MkGram (Some (i, k)) used false) a → 0 ≤ i ≤ U64_MAX →
  calls_of [v] = [] → (∀ j, args_of [v] j = if decide (j = i) then default [] p else []) → (is_Some p → k = lit "tool_use") →
  (∀ opened block, shown i out opened block → shown i (out ++ [v]) opened block) →
  built (out ++ [v]) (MkGram (Some (i, k)) used false)
    (match p with Some p => MkAssembler (as_message a) (as_blocks a) (<[i := default [] (as_partial a !! i) ++ p]> (as_partial a)) | None => a end).
Proof.
  intros v [B0 Bs B2 B3 B4 B5 B6 Bi B7] Hr Hc Hg Hpk Hn. cbn [g_open g_used] in *.
  assert (calls_of (out ++ [v]) = calls_of out) as Ec by (by rewrite calls_app, Hc, app_nil_r).
  assert (∀ j, j ≠ i → args_of (out ++ [v]) j = args_of out j ∧ pieces j (out ++ [v]) = pieces j out) as Ea.
  { intros j Hj. split; [by rewrite args_app, Hg, decide_False, app_nil_r|by apply pieces_other]. }
  assert (args_of (out ++ [v]) i = args_of out i ++ default [] p) as Ei by (by rewrite args_app, Hg, decide_True).
  destruct (B3 i _ eq_refl) as (Hi & _ & _).
  set (a' := match p with Some _ => _ | None => a end).
  assert (as_message a' = as_message a ∧ as_blocks a' = as_blocks a) as [Em Eb] by (by destruct p). split; rewrite ?Em, ?Eb; cbn [g_open g_used]; [done|done|..].
  - intros j Hj. destruct (Ea j) as [-> ->]; [by intros ->|]. by apply B2.
  - intros j k' E. rewrite Ec. by apply B3.
  - exact B4.
  - intros j q. destruct p as [p|]; cbn [a' as_partial default] in *.
    + destruct (decide (j = i)) as [->|Hne].
      * rewrite lookup_insert_eq. intros [= <-]. rewrite Hpk by (by eexists). split; [done|]. rewrite Ei. f_equal.
        destruct (as_partial a !! i) as [q|] eqn:Eq; [by destruct (B5 _ _ Eq) as [_ ->]|]. by rewrite (B6 i _ eq_refl Eq).
      * rewrite lookup_insert_ne by done. intros Hq. destruct (B5 _ _ Hq) as [[= E] _]. by rewrite E in Hne.
    + intros Hq. destruct (B5 j q Hq) as [E ->]. split; [done|]. injection E as -> _. by rewrite Ei, app_nil_r.
  - intros j k' [= <- <-]. destruct p as [p|]; cbn [a' as_partial default] in *; [by rewrite lookup_insert_eq|]. intros H. rewrite Ei, app_nil_r. by eapply B6.
  - unfold v. by rewrite (starts_other _ _ _ (delta_kinded i d)).
  - intros j b Hj. destruct (B7 j b Hj) as (o & H1 & H2 & H3). exists o. split; [apply elem_of_app; by left|]. cbn [fmap option_fmap option_map fst] in *. destruct (decide (j = i)) as [->|Hne].
    + split; [by apply Hn|]. by rewrite decide_True in H3 |- *.
    + destruct (Ea j Hne) as [-> E]. split; [eapply shown_pieces; [exact E|exact H2]|done].
Qed.


Lemma append_says block field d : is_object block = true →
  ∃ block', append block field (get_member field d) = Ok block' ∧ is_object block' = true ∧
    text_in field block' = text_in field block ++ default [] (get_str field d) ∧ ∀ n, n ≠ field → get_member n block' = get_member n block.
Proof.
  intros Hb. unfold append. change (get_member field d ≫= as_str) with (get_str field d). destruct (get_str field d) as [[|c t]|].
  1, 3: by exists block; rewrite app_nil_r.
  rewrite index_set_object by done. eexists. split; [done|]. split; [by apply set_member_object|]. split.
  - unfold text_in at 1, get_str at 1. rewrite get_set_of_object, decide_True by done. done.
  - intros n Hn. by rewrite get_set_of_object, decide_False.
Qed.
Lemma says_of kind member d : of_kind kind d → says kind member d = default [] (get_str member d).
Proof. intros H. unfold says. by rewrite decide_True. Qed.
Lemma says_not kind member d : ¬ of_kind kind d → says kind member d = [].
Proof. intros H. unfold says. by rewrite decide_False. Qed.
Lemma text_in_same member block block' : get_member member block' = get_member member block → text_in member block' = text_in member block.
Proof. intros H. unfold text_in, get_str. by rewrite H. Qed.
Lemma not_of_kind d dk kind : get_str "type" d = Some dk → named dk kind = false → ¬ of_kind kind d.
Proof. intros H Hn Hk. unfold of_kind in Hk. rewrite H in Hk. injection Hk as ->. by rewrite named_lit, String.eqb_refl in Hn. Qed.
(** A piece of text, and one of thinking. *)
Lemma built_append out i k used a d field kind : (field, kind) ∈ [("text", "text_delta"); ("thinking", "thinking_delta")]%string →
  built out (MkGram (Some (i, k)) used false) a → 0 ≤ i ≤ U64_MAX → of_kind kind d → ∀ block, tree_get i (as_blocks a) = Some block →
  calls_of [content_block_delta i d] = [] → (∀ j, args_of [content_block_delta i d] j = []) →
  ∃ a', (b ← append block field (get_member field d); Ok (MkAssembler (as_message a) (tree_insert i b (as_blocks a)) (as_partial a))) = Ok (E := Stop) a' ∧
    built (out ++ [content_block_delta i d]) (MkGram (Some (i, k)) used false) a'.
Proof.
  intros Hfk H Hi Hk block Hb Hc Hg. destruct (append_says block field d (bu_objects _ _ _ H i block Hb)) as (block' & -> & Ho & Ht & Hs).
  assert (∀ other, other ≠ kind → ¬ of_kind other d) as Hne.
  { intros other Hd Hother. unfold of_kind in *. rewrite Hk in Hother. injection Hother as E. apply Hd. symmetry. by apply lit_inj. }
  cbn [mbind result_bind]. eexists. split; [done|]. apply list_elem_of_In in Hfk. cbn [In] in Hfk.
  eapply built_replace; [done..| |apply Hs; destruct Hfk as [[= <- <-]|[[= <- <-]|[]]]; done].
  intros opened Hsh. destruct Hfk as [[= <- <-]|[[= <- <-]|[]]].
  - apply shown_step with (block := block); [done|done|intros n Hn; apply Hs; set_solver|by rewrite says_of| |].
    + rewrite says_not, app_nil_r by (by apply Hne). apply text_in_same. by apply Hs.
    + rewrite decide_False by (by apply Hne). by apply Hs.
  - apply shown_step with (block := block); [done|done|intros n Hn; apply Hs; set_solver| |by rewrite says_of|].
    + rewrite says_not, app_nil_r by (by apply Hne). apply text_in_same. by apply Hs.
    + rewrite decide_False by (by apply Hne). by apply Hs.
Qed.
(** A piece that is of no text and no thinking, and signs nothing. *)
Lemma shown_silent i out d : 0 ≤ i ≤ U64_MAX → ¬ of_kind "text_delta" d → ¬ of_kind "thinking_delta" d →
  ¬ (of_kind "signature_delta" d ∧ is_Some (get_member "signature" d)) →
  ∀ opened block, shown i out opened block → shown i (out ++ [content_block_delta i d]) opened block.
Proof.
  intros Hi H1 H2 H3 opened block Hs. apply shown_step with (block := block); [done|done|done|by rewrite says_not, app_nil_r|by rewrite says_not, app_nil_r|].
  destruct (decide (of_kind "signature_delta" d)); [|done]. destruct (get_member "signature" d) eqn:E; [|done]. destruct H3. split; [done|by eexists].
Qed.
Lemma built_delta out i k used a d dk : built out (MkGram (Some (i, k)) used false) a → 0 ≤ i ≤ U64_MAX → get_str "type" d = Some dk →
  piece_fits k dk = true →
  ∃ a', assembler_push a (content_block_delta i d) = Ok a' ∧ built (out ++ [content_block_delta i d]) (MkGram (Some (i, k)) used false) a'.
Proof.
  intros H Hi Hd Hf. rewrite push_delta by done. destruct (content_delta i d Hi) as (_ & _ & C3 & C4). rewrite Hd in C4.
  pose proof (bu_open _ _ _ H i k eq_refl) as (_ & [block Hb] & _). pose proof (bu_objects _ _ _ H i block Hb) as Ho.
  rewrite Hb. unfold assembler_delta. rewrite Hd.
  assert (named dk "input_json_delta" = false → ∀ j, args_of [content_block_delta i d] j = []) as Hq.
  { intros Hne j. rewrite C4. destruct (decide (j = i)); [|done]. rewrite bool_decide_eq_false_2; [done|]. intros [= E].
    rewrite E, named_lit in Hne. done. }
  assert (∀ kind, named dk kind = false → ¬ of_kind kind d) as Hnk by (intros kind; by apply not_of_kind).
  destruct (named dk "text_delta") eqn:E1; [|destruct (named dk "thinking_delta") eqn:E2; [|destruct (named dk "signature_delta") eqn:E3; [|destruct (named dk "input_json_delta") eqn:E4]]].
  - pose proof (Hq (named_false _ _ "input_json_delta" E1 ltac:(done))) as Hg. apply named_true in E1 as ->.
    apply (built_append _ _ _ _ _ _ "text" "text_delta"); try done. by left.
  - pose proof (Hq (named_false _ _ "input_json_delta" E2 ltac:(done))) as Hg. apply named_true in E2 as ->.
    apply (built_append _ _ _ _ _ _ "thinking" "thinking_delta"); try done. right. by left.
  - pose proof (Hq (named_false _ _ "input_json_delta" E3 ltac:(done))) as Hg. destruct (get_member "signature" d) as [sg|] eqn:Es.
    + rewrite index_set_object by done. cbn [mbind result_bind]. eexists; split; [done|]. apply named_true in E3 as ->.
      eapply built_replace; [done..|by apply set_member_object| |by rewrite get_set_of_object, decide_False].
      intros opened Hs. apply shown_step with (block := block); [done|done|intros n Hn; rewrite get_set_of_object, decide_False by (done || set_solver); done| | |].
      * rewrite says_not, app_nil_r by (by apply Hnk). apply text_in_same. by rewrite get_set_of_object, decide_False.
      * rewrite says_not, app_nil_r by (by apply Hnk). apply text_in_same. by rewrite get_set_of_object, decide_False.
      * by rewrite get_set_of_object, !decide_True, Es.
    + eexists; split; [done|]. apply (built_input out i k used a d None); [done|done|done|intros j; rewrite Hg; by destruct (decide _)|by intros [? ?]|].
      apply shown_silent; [done|by apply Hnk..|]. rewrite Es. by intros [_ [? ?]].
  - eexists; split; [done|]. assert (k = lit "tool_use") as Hk.
    { apply named_true in E4 as ->. unfold piece_fits in Hf. rewrite !named_lit in Hf. cbn in Hf. by apply named_true in Hf. }
    apply (built_input out i k used a d (get_str "partial_json" d)); [done|done|done| |done|apply shown_silent; [done|by apply Hnk..|intros [K _]; by apply Hnk in K]].
    apply named_true in E4 as ->. rewrite bool_decide_eq_true_2 in C4 by done. exact C4.
  - eexists; split; [done|]. apply (built_input out i k used a d None); [done|done|done| |by intros [? ?]|apply shown_silent; [done|by apply Hnk..|intros [K _]; by apply Hnk in K]].
    intros j. rewrite Hq by done. by destruct (decide _).
Qed.

(** *** A block stops *)

(** Why the assembler fails: the arguments of a call are not a JSON object. *)
Definition bad_call (out : list json) (error : ApiError) : Prop :=
  ∃ i, i ∈ calls_of out ∧ (∀ v, from_str (args_of out i) = Ok v → is_object v = false) ∧ parse_tool_arguments (args_of out i) = Err error.
Lemma parse_object p v : parse_tool_arguments p = Ok v → from_str p = Ok v ∧ is_object v = true.
Proof. unfold parse_tool_arguments. intros H. repeat case_match; simplify_eq; done. Qed.
Lemma parse_refused p e : parse_tool_arguments p = Err e → ∀ v, from_str p = Ok v → is_object v = false.
Proof. unfold parse_tool_arguments. intros H v Hv. rewrite Hv in H. by destruct (is_object v). Qed.

Lemma built_stop out i k used a : built out (MkGram (Some (i, k)) used false) a →
  match assembler_stop a i with
  | Ok a' => built (out ++ [content_block_stop i]) (MkGram None used false) a'
  | Err (ApiFailed error) => bad_call out error
  | Err Panicked => False
  end.
Proof.
  intros [B0 Bs B2 B3 B4 B5 B6 Bi B7]. cbn [g_open g_used fmap option_fmap option_map fst] in *. destruct (quiet_stop i) as (_ & _ & C3 & C4).
  assert (∀ j, args_of (out ++ [content_block_stop i]) j = args_of out j) as Ea by (intros j; by rewrite args_app, C4, app_nil_r).
  assert (∀ j, pieces j (out ++ [content_block_stop i]) = pieces j out) as Ep by (intros j; by eapply pieces_same, piece_other_kind; [apply stop_kinded|]).
  assert (starts (out ++ [content_block_stop i]) = starts out) as Est by (by apply (starts_other _ _ _ (stop_kinded i))).
  destruct (B3 i k eq_refl) as (Hi & [block Hb] & Hk). destruct (B7 i block Hb) as (o & H1 & H2 & H3). rewrite decide_True in H3 by done.
  assert (∀ j b, j ≠ i → tree_get j (as_blocks a) = Some b → ∃ opened, content_block_start j opened ∈ out ++ [content_block_stop i] ∧
    shown j (out ++ [content_block_stop i]) opened b ∧ input_of (args_of (out ++ [content_block_stop i]) j) opened b) as Hother.
  { intros j b Hne Hj. destruct (B7 j b Hj) as (o' & K1 & K2 & K3). exists o'. rewrite decide_False in K3 by congruence.
    split; [apply elem_of_app; by left|]. split; [eapply shown_pieces; [apply Ep|exact K2]|]. by rewrite Ea. }
  unfold assembler_stop. destruct (as_partial a !! i) as [p|] eqn:Epart.
  - destruct (B5 i p Epart) as [[= ->] ->]. rewrite Hb. destruct (parse_tool_arguments (args_of out i)) as [x|e] eqn:Ex; cbn [map_err mbind result_bind].
    2: { exists i. split_and!; [by apply Hk|by eapply parse_refused|done]. }
    pose proof (B4 i block Hb) as Ho. rewrite index_set_object by done. cbn [mbind result_bind].
    split; cbn [as_message as_blocks as_partial g_open g_used fmap option_fmap option_map]; [done|by apply tree_insert_sorted|..].
    + intros j Hj. rewrite tree_get_insert, decide_False, Ea, Ep by (by intros ->). by apply B2.
    + done.
    + intros j b. rewrite tree_get_insert. destruct (decide (i = j)); [|apply B4]. intros [= <-]. by apply set_member_object.
    + intros j q. destruct (decide (j = i)) as [->|Hne]; [by rewrite lookup_delete_eq|]. rewrite lookup_delete_ne by done.
      intros Hq. destruct (B5 j q Hq) as [[= E] _]. by rewrite E in Hne.
    + done.
    + rewrite tree_insert_found, Est by (done || by eexists). done.
    + intros j b. rewrite tree_get_insert. destruct (decide (i = j)) as [<-|Hne]; [|by apply Hother].
      intros [= <-]. exists o. split; [apply elem_of_app; by left|]. split.
      * eapply shown_pieces; [apply Ep|]. destruct H2 as [S1 S2 S3 S4]. split.
        -- intros n Hn. rewrite get_set_of_object, decide_False by (done || set_solver). by apply S1.
        -- rewrite <- S2. apply text_in_same. by rewrite get_set_of_object, decide_False.
        -- rewrite <- S3. apply text_in_same. by rewrite get_set_of_object, decide_False.
        -- by rewrite get_set_of_object, decide_False.
      * right. exists x. apply parse_object in Ex as [Ex Eo]. rewrite Ea. split_and!; [done|done|]. by rewrite get_set_of_object, decide_True.
  - split; cbn [g_open g_used fmap option_fmap option_map]; [done|done|..].
    + intros j Hj. rewrite Ea, Ep. by apply B2.
    + done.
    + exact B4.
    + intros j p Hp. destruct (B5 j p Hp) as [E _]. injection E as -> _. congruence.
    + done.
    + by rewrite Est.
    + intros j b Hj. destruct (decide (j = i)) as [->|Hne]; [|by apply Hother]. rewrite Hb in Hj. injection Hj as <-.
      exists o. split; [apply elem_of_app; by left|]. split; [eapply shown_pieces; [apply Ep|exact H2]|]. left. split; [|done]. rewrite Ea. by eapply B6.
Qed.

(** *** A whole response *)

Lemma built_new s : ∃ a m, assembler_push new_assembler (message_start s) = Ok a ∧ built [message_start s] new_gram a ∧
  get_member "message" (message_start s) = Some (object m) ∧ as_message a = set_member "content" (JArray []) (object m).
Proof.
  assert (kinded "message_start" (message_start s)) as Hk by (unfold kinded, message_start; by get_obj).
  assert (quiet [message_start s]) as (_ & _ & Q3 & Q4) by (by apply (quiet_other _ "message_start")).
  unfold assembler_push. rewrite Hk, named_lit. cbn [String.eqb Ascii.eqb Bool.eqb].
  assert (∃ m, get_member "message" (message_start s) = Some (object m)) as [m Em] by (unfold message_start; get_obj; by eexists).
  rewrite Em. cbn [default id]. rewrite index_set_object by done. cbn [mbind result_bind]. eexists _, m. split; [done|]. split; [|done].
  split; cbn [as_message as_blocks as_partial g_open g_used new_gram new_assembler]; try done.
  - constructor.
Qed.
Lemma built_step out g v g' a : built out g a → gram_step g v g' →
  match assembler_push a v with
  | Ok a' => built (out ++ [v]) g' a'
  | Err (ApiFailed error) => bad_call out error
  | Err Panicked => False
  end.
Proof.
  intros H Hv. destruct Hv as [used i b k Hi Hu Hk|i k used d dk Hi Hd Hf|i k used Hi].
  - rewrite push_start by done. by apply built_start.
  - by destruct (built_delta _ _ _ _ _ _ _ H Hi Hd Hf) as (a' & -> & H').
  - rewrite push_stop by done. by apply built_stop in H.
Qed.
Lemma built_run first a body g : assembler_push new_assembler (message_start first) = Ok a → built [message_start first] new_gram a → block_run body g →
  match assembler_pushes a body with
  | Ok a' => built (message_start first :: body) g a'
  | Err (ApiFailed error) => ∃ part, part `prefix_of` message_start first :: body ∧ bad_call part error
  | Err Panicked => False
  end.
Proof.
  intros _ H0 Hr. induction Hr as [|body v g g' Hr IH Hv]; [done|]. rewrite assembler_pushes_app. unfold mbind, result_bind.
  destruct (assembler_pushes a body) as [a'|[e|]]; [| |done].
  - pose proof (built_step _ _ _ _ _ IH Hv) as K. cbn [assembler_pushes]. unfold mbind, result_bind.
    destruct (assembler_push a' v) as [a''|[e|]]; [exact K| |done]. exists (message_start first :: body). split; [|done]. by exists [v].
  - destruct IH as (part & [r Hp] & Hb). exists part. split; [|done]. exists (r ++ [v]). by rewrite app_assoc, <- Hp.
Qed.

(** Blocks leave the message alone. *)
Lemma step_message g v g' a a' : gram_step g v g' → assembler_push a v = Ok a' → as_message a' = as_message a.
Proof.
  intros Hv. destruct Hv as [used i b k Hi _ _|i k used d dk Hi _ _|i k used Hi].
  - rewrite push_start by done. by intros <-%ok_equal.
  - rewrite push_delta by done. unfold assembler_delta. intros H. repeat case_match; simplify_eq; try done; invert_ok H as x Hx; by apply ok_equal in H as <-.
  - rewrite push_stop by done. unfold assembler_stop. intros H. repeat case_match; simplify_eq; try done.
    invert_ok H as x Hx. invert_ok H as y Hy. by apply ok_equal in H as <-.
Qed.
Lemma run_message body g a a' : block_run body g → assembler_pushes a body = Ok a' → as_message a' = as_message a.
Proof.
  intros Hr. revert a'. induction Hr as [|body v g g' Hr IH Hv]; intros a'; [by intros <-%ok_equal|]. rewrite assembler_pushes_app. intros H. invert_ok H as a1 H1.
  cbn [assembler_pushes] in H. invert_ok H as a2 H2. apply ok_equal in H as <-. rewrite <- (IH _ H1). by eapply step_message.
Qed.
(** The end of the message is not part of any block. *)
Lemma assign_object field value m : is_object m = true → ∃ m', assign field value m = Ok m' ∧ is_object m' = true.
Proof. intros Hm. destruct value as [v|]; cbn [assign]; [|by exists m]. rewrite index_set_object by done. eexists. split; [done|]. by apply set_member_object. Qed.
Lemma delta_members last : ∃ delta, get_member "delta" (message_delta_event last) = Some delta ∧
  get_member "stop_reason" delta = Some (text (claude_stop_reason last)) ∧ get_member "stop_sequence" delta = Some (text_or_null (tr_stopped_by last)) ∧
  get_member "usage" (message_delta_event last) = Some (usage_json (tr_usage last)).
Proof. unfold message_delta_event. rewrite !get_object. cbn [foldl fst snd String.eqb Ascii.eqb Bool.eqb]. eexists. split; [done|]. split_and!; by get_obj. Qed.
Lemma push_end a last : is_object (as_message a) = true →
  ∃ a', assembler_pushes a [message_delta_event last; message_stop_event] = Ok a' ∧ as_blocks a' = as_blocks a ∧
    as_message a' = set_member "usage" (usage_json (tr_usage last)) (set_member "stop_sequence" (text_or_null (tr_stopped_by last))
      (set_member "stop_reason" (text (claude_stop_reason last)) (as_message a))).
Proof.
  intros Ho. assert (kinded "message_delta" (message_delta_event last)) as Hk by (unfold kinded, message_delta_event; by get_obj).
  assert (kinded "message_stop" message_stop_event) as Hs by (unfold kinded, message_stop_event; by get_obj).
  destruct (delta_members last) as (delta & E1 & E2 & E3 & E4).
  assert (∀ x, assembler_push x message_stop_event = Ok x) as Est.
  { intros x. unfold assembler_push. rewrite Hs, !named_lit. done. }
  eassert (assembler_push a (message_delta_event last) = Ok _) as Ed.
  { unfold assembler_push. rewrite Hk, !named_lit. cbn [String.eqb Ascii.eqb Bool.eqb].
    rewrite E1, E4. cbn [mbind option_bind]. rewrite E2, E3. cbn [assign]. rewrite index_set_object by done. cbn [mbind result_bind].
    rewrite index_set_object by (by apply set_member_object). cbn [mbind result_bind]. rewrite index_set_object by (by do 2 apply set_member_object).
    cbn [mbind result_bind]. reflexivity. }
  eexists. cbn [assembler_pushes]. rewrite Ed. cbn [mbind result_bind]. rewrite Est. cbn [mbind result_bind]. split; [reflexivity|]. by split.
Qed.

Lemma tree_entries {A} (m : list (Z * A)) : StronglySorted Z.lt m.*1 → Forall (λ p, tree_get p.1 m = Some p.2) m.
Proof.
  induction m as [|[k x] m IH]; cbn [fmap list_fmap fst]; intros Hs; [constructor|]. apply StronglySorted_inv in Hs as [Hs Hk]. constructor; [cbn; by rewrite Z.eqb_refl|].
  specialize (IH Hs). apply Forall_forall. intros [j y] Hin. rewrite Forall_forall in IH. rewrite Forall_forall in Hk. cbn. assert (k < j) by (apply Hk; apply list_elem_of_fmap; by exists (j, y)).
  destruct (Z.eqb_spec k j); [lia|]. exact (IH _ Hin).
Qed.
Lemma fill_there field m x : get_member field m = Some x → fill field m = m.
Proof. intros H. unfold fill. by rewrite H. Qed.

(** The document that is made of the events of a stream: the message is as it began, with what it ended with, and each block
    that began is in it, by increasing index, with what its pieces say and the input that was sent. *)
Definition block_shown (out : list json) (i : Z) (block : json) : Prop :=
  ∃ opened, content_block_start i opened ∈ out ∧ shown i out opened block ∧ input_of (args_of out i) opened block.
Record document_of (out : list json) (message : json) : Prop := {
  do_begun : ∃ start m, start ∈ out ∧ kinded "message_start" start ∧ get_member "message" start = Some m ∧
    ∀ n, n ∉ ["content"; "stop_reason"; "stop_sequence"; "usage"]%string → get_member n message = get_member n m;
  do_ended : ∃ last delta, last ∈ out ∧ kinded "message_delta" last ∧ get_member "delta" last = Some delta ∧
    get_member "stop_reason" message = get_member "stop_reason" delta ∧ get_member "stop_sequence" message = get_member "stop_sequence" delta ∧
    get_member "usage" message = get_member "usage" last;
  do_content : ∃ indices content, get_member "content" message = Some (JArray content) ∧ StronglySorted Z.lt indices ∧ indices ≡ₚ starts out ∧
    Forall2 (block_shown out) indices content
}.

Lemma built_blocks out used a : built out (MkGram None used false) a → Forall2 (block_shown out) (as_blocks a).*1 (as_blocks a).*2.
Proof.
  intros H. apply Forall2_fmap, Forall_Forall2_diag. eapply Forall_impl; [exact (tree_entries _ (bu_sorted _ _ _ H))|]. intros [i b] Hb.
  exact (bu_shown _ _ _ H i b Hb).
Qed.
Lemma block_shown_snoc out v kind i block : kinded kind v → kind ≠ "content_block_delta"%string → kind ≠ "content_block_start"%string →
  block_shown out i block → block_shown (out ++ [v]) i block.
Proof.
  intros Hk H1 H2 (opened & K1 & K2 & K3). exists opened. destruct (quiet_other v kind Hk H1 H2) as (_ & _ & _ & Q4).
  split; [apply elem_of_app; by left|]. split; [eapply shown_pieces; [|exact K2]; by eapply pieces_same, piece_other_kind|]. by rewrite args_app, Q4, app_nil_r.
Qed.
(** A message that was assembled from the blocks of [out], and its end. *)
Lemma built_document s m out used a last a' : built (message_start s :: out) (MkGram None used false) a →
  get_member "message" (message_start s) = Some (object m) → as_message a = set_member "content" (JArray []) (object m) →
  assembler_pushes a [message_delta_event last; message_stop_event] = Ok a' →
  document_of (message_start s :: out ++ [message_delta_event last; message_stop_event]) (assembler_finish a').
Proof.
  intros H Em Ea E. assert (is_object (as_message a) = true) as Ho by (by rewrite Ea). destruct (push_end a last Ho) as (a'' & E' & Eb & Ec). rewrite E in E'.
  apply ok_equal in E' as <-. rewrite Ea in Ec. clear E Ho Ea.
  set (m1 := set_member "content" (JArray (as_blocks a).*2) (as_message a')).
  assert (∀ n, get_member n m1 = if decide ("content" = n)%string then Some (JArray (as_blocks a).*2) else if decide ("usage" = n)%string then Some (usage_json (tr_usage last))
    else if decide ("stop_sequence" = n)%string then Some (text_or_null (tr_stopped_by last)) else if decide ("stop_reason" = n)%string then Some (text (claude_stop_reason last))
    else get_member n (object m)) as Hm.
  { intros n. unfold m1. rewrite Ec, !get_set_of_object by (by repeat apply set_member_object). by repeat destruct (decide _). }
  assert (assembler_finish a' = m1) as ->.
  { unfold assembler_finish. rewrite Eb. replace (is_object (as_message a')) with true by (rewrite Ec; symmetry; by repeat apply set_member_object). fold m1.
    erewrite (fill_there "stop_reason") by (rewrite Hm; reflexivity). erewrite fill_there by (rewrite Hm; reflexivity). done. }
  clearbody m1. set (o := [message_delta_event last; message_stop_event]).
  assert (kinded "message_delta" (message_delta_event last)) as Hk by (unfold kinded, message_delta_event; by get_obj).
  assert (kinded "message_stop" message_stop_event) as Hs by (unfold kinded, message_stop_event; by get_obj).
  destruct (delta_members last) as (delta & E1 & E2 & E3 & E4). split.
  - exists (message_start s), (object m). split; [by left|]. split; [unfold kinded, message_start; by get_obj|]. split; [done|]. intros n Hn. rewrite Hm.
    rewrite !decide_False by set_solver. done.
  - exists (message_delta_event last), delta. split; [right; apply elem_of_app; right; by left|]. rewrite E2, E3, E4, !Hm. by split_and!.
  - exists (as_blocks a).*1, (as_blocks a).*2. rewrite Hm. split; [done|]. split; [by apply H|].
    assert (message_start s :: out ++ o = ((message_start s :: out) ++ [message_delta_event last]) ++ [message_stop_event]) as -> by (cbn; by rewrite <- app_assoc). split.
    + rewrite (starts_other _ _ _ Hs), (starts_other _ _ _ Hk) by done. apply H.
    + eapply Forall2_impl; [exact (built_blocks _ _ _ H)|]. intros i b Hb. eapply block_shown_snoc; [exact Hs|done..|]. by eapply block_shown_snoc.
Qed.

(** The events after the message began. *)
Lemma respond_run id model sequences estimated events : total_blocks events ≤ U64_MAX →
  let s := new_translator id model sequences estimated in
  let '(o, (_, s')) := translator_pushes events s in
  (∃ g, block_run o g) ∧ ∃ body last used, o ++ (translator_finish s').1 = body ++ [message_delta_event last; message_stop_event] ∧ block_run body (MkGram None used false).
Proof.
  intros Hn s. pose proof (pushes_held events 0 Hn _ s (new_held s id model sequences estimated)) as H1.
  pose proof (respond_valid 0 events Hn [message_start s] s (conj (new_held s id model sequences estimated) eq_refl)) as H2.
  unfold respond, mbind, emit_bind in H2. destruct (translator_pushes events s) as [o [[] s']]. destruct (translator_finish s') as [o' r]. destruct r as [[] s2].
  cbn [fst app] in *. split.
  - destruct H1 as (used & [_ (first & body & E & Hr)] & _). apply (f_equal tail) in E. cbn [tail] in E. subst body. by eexists.
  - destruct H2 as [_ (first & body & last & E & used & Hr)]. apply (f_equal tail) in E. by exists body, last, used.
Qed.

(** ** The stream of the same response *)

(** A response that is complete is streamed complete. *)
Lemma streamed_complete s inputs events : delivered inputs = (events, Some None) →
  ∃ out, streamed s inputs = Some (Events out (Some None)) ∧ pinged out (response s events).
Proof.
  induction inputs as [|[[event|error]| |] inputs IH]; cbn [streamed]; try done.
  - intros Hd. pose proof (stream_rest_eq (UpItem (Ok event) :: inputs) s) as H. destruct (stream_rest s (UpItem (Ok event) :: inputs)) as [out r].
    rewrite Hd in H. unfold response, respond, mbind, emit_bind. destruct (translator_pushes events s) as [o [[] s']]. destruct H as [-> H]. cbn [ending] in H.
    destruct (translator_finish s') as [o' r']. eexists. split; [done|]. constructor. exact H.
Qed.
(** C13: The gateway answers a client that asked for no stream with a document only when the provider's response is complete,
    and it is the document of the very events a stream would have carried (pings apart): it is the message as it began,
    with the stop reason, the stop sequence and the usage it ended with, and its content is the blocks of the stream by
    increasing index, each with the text, the thinking and the signature of its pieces and, for a call, with the identifier
    and the name that were sent and an input that is what was sent, parsed (or as the block was opened when nothing was).
    When the provider fails the answer is the error of that failure; when the arguments of a call are not a JSON object it is
    the error of those arguments, never a call with other arguments; and no index into a value panics. *)
Theorem collected_all_or_nothing id model sequences estimated inputs events ended :
  delivered inputs = (events, ended) → total_blocks events ≤ U64_MAX →
  let s := new_translator id model sequences estimated in
  let out := response s events in
  match collected s inputs with
  | None => ended = None
  | Some Crashed => False
  | Some (Failed error (Some cause)) => ended = Some (Some cause) ∧ error = from_error cause
  | Some (Failed error None) => ∃ part, part `prefix_of` out ∧ bad_call part error
  | Some (Document message) => ended = Some None ∧
      (∃ streamed_out, streamed s inputs = Some (Events streamed_out (Some None)) ∧ pinged streamed_out out) ∧ document_of out message
  end.
Proof.
  intros Hd Hn s out. unfold collected. destruct (built_new s) as (a0 & m & E0 & H0 & Em & Ea0). rewrite E0, collect_rest_eq, Hd.
  pose proof (respond_run id model sequences estimated events Hn) as Hr. cbn zeta in Hr. fold s in Hr.
  assert (out = message_start s :: (translator_pushes events s).1 ++ (translator_finish (translator_pushes events s).2.2).1) as Eo.
  { subst out. unfold response, respond, mbind, emit_bind. destruct (translator_pushes events s) as [o [[] s']]. cbn. by destruct (translator_finish s'). }
  destruct (translator_pushes events s) as [o [[] s']] eqn:Ep. cbn [fst snd] in Eo. destruct Hr as [[g Hg] (body & last & used & Eb & Hb)].
  pose proof (built_run s a0 o g E0 H0 Hg) as K1. destruct (assembler_pushes a0 o) as [a1|[error|]] eqn:E1; [| |done].
  2: { destruct K1 as (part & Hp & Hc). exists part. split; [|done]. etrans; [exact Hp|]. rewrite Eo. by exists (translator_finish s').1. }
  destruct ended as [[error|]|]; [by split| |done].
  pose proof (built_run s a0 body _ E0 H0 Hb) as K2.
  assert (assembler_pushes a1 (translator_finish s').1 = assembler_pushes a0 (o ++ (translator_finish s').1)) as ->.
  { rewrite assembler_pushes_app, E1. done. }
  rewrite Eb, assembler_pushes_app. destruct (assembler_pushes a0 body) as [a2|[error|]] eqn:E2; [| |done]; cbn [mbind result_bind].
  2: { destruct K2 as (part & Hp & Hc). exists part. split; [|done]. etrans; [exact Hp|]. rewrite Eo, Eb. by eexists. }
  destruct (push_end a2 last (bu_message _ _ _ K2)) as (a3 & E3 & _). rewrite E3. split; [done|]. split; [by apply streamed_complete|].
  rewrite Eo, Eb. eapply built_document; [exact K2|exact Em| |exact E3]. by rewrite (run_message _ _ _ _ Hb E2).
Qed.
End Document.

(** ** A response with two calls the provider interleaves *)
Module ClaudeSamples.
Definition numbers : SerdeNumber := {| number_as_u64 := parse_u64; number_as_i64 := parse_u64 |}.
Lemma numbers_laws : @SerdeNumberLaws numbers.
Proof. split. apply parse_decimal. Qed.
Definition no_timeout : Reqwest := {| is_timeout _ := false |}.
Definition events : list ModelEvent :=
  [MStart (lit "m1"); MThinkingStart; MThinkingDelta (lit "hm"); MThinkingSignature (lit "sig"); MThinkingEnd;
   MTextStart; MTextDelta (lit "h"); MTextDelta (lit "i"); MTextEnd;
   MToolCallStart 0 (lit "c1") (lit "ls"); MToolCallStart 1 (lit "c2") (lit "rm");
   MToolCallArgumentsDelta 1 (lit "{"); MToolCallArgumentsDelta 0 (lit "{"); MToolCallArgumentsDelta 1 (lit "}");
   MToolCallEnd 1; MToolCallArgumentsDelta 0 (lit "}"); MToolCallEnd 0; MDone FinishToolUse].
Definition timed : list (Z * ModelEvent) := (λ e, (7, e)) <$> events.
Definition inputs : list upstream := UpWait :: ((λ e, UpItem (Ok e)) <$> events).
Definition translator (sequences : list (list Z)) : Translator := new_translator (lit "msg-1") (lit "claude") sequences 5.

(** The indices of the blocks that begin, and the arguments that are written. *)
Definition started (out : list json) : list Z :=
  omap (λ v, match get_str "type" v with
             | Some k => if named k "content_block_start" then get_member "index" v ≫= @as_u64 numbers else None
             | None => None
             end) out.
Definition written (out : list json) : list str :=
  omap (λ v, match get_member "delta" v with Some d => get_str "partial_json" d | None => None end) out.
End ClaudeSamples.

(** A response with a stop sequence that is complete, and one that fails in the middle of a block. *)
Lemma gateway_stream_valid_witness :
  let stream inputs := @streamed ClaudeSamples.no_timeout (ClaudeSamples.translator [lit "STOP"]) inputs in
  let said := (λ e, UpItem (Ok e)) <$> [MTextDelta (lit "a ST"); MToolCallStart 3 (lit "c") (lit "ls"); MTextDelta (lit "OP b")] in
  (∃ out, stream (said ++ [UpWait; UpItem (Ok (MDone FinishStop))]) = Some (Events out (Some None)) ∧
     @grammatical ClaudeSamples.numbers (@sse Samples.tiny_json <$> out) ∧ ClaudeSamples.started out = [0; 1]) ∧
  ∃ out first rest body g, stream [UpItem (Ok (MTextDelta (lit "hi"))); UpEnd] = Some (Events out (Some (Some no_done))) ∧
    out = message_start first :: rest ∧ pinged rest (body ++ [error_event (@from_error ClaudeSamples.no_timeout no_done)]) ∧ block_run body g.
Proof.
  cbn zeta. set (said := (λ e, UpItem (Ok e)) <$> _). split.
  - assert (∃ out, @streamed ClaudeSamples.no_timeout (ClaudeSamples.translator [lit "STOP"]) (said ++ [UpWait; UpItem (Ok (MDone FinishStop))]) =
      Some (Events out (Some None)) ∧ ClaudeSamples.started out = [0; 1]) as (out & E & Es) by (eexists; split; vm_compute; reflexivity).
    exists out. split; [exact E|]. split; [|exact Es]. assert (total_blocks (delivered (said ++ [UpWait; UpItem (Ok (MDone FinishStop))])).1 ≤ U64_MAX) as Hn by (vm_compute; discriminate).
    pose proof (@gateway_stream_valid Samples.tiny_json ClaudeSamples.numbers ClaudeSamples.numbers_laws ClaudeSamples.no_timeout (lit "msg-1") (lit "claude")
      [lit "STOP"] 5 _ Hn) as H. unfold ClaudeSamples.translator in E. rewrite E in H. exact (proj1 (proj2 H)).
  - assert (∃ out, @streamed ClaudeSamples.no_timeout (ClaudeSamples.translator [lit "STOP"]) [UpItem (Ok (MTextDelta (lit "hi"))); UpEnd] =
      Some (Events out (Some (Some no_done)))) as (out & E) by (eexists; vm_compute; reflexivity).
    pose proof (@gateway_stream_valid Samples.tiny_json ClaudeSamples.numbers ClaudeSamples.numbers_laws ClaudeSamples.no_timeout (lit "msg-1") (lit "claude")
      [lit "STOP"] 5 [UpItem (Ok (MTextDelta (lit "hi"))); UpEnd] ltac:(vm_compute; discriminate)) as H. pose proof E as E'. unfold ClaudeSamples.translator in E'.
    rewrite E' in H. destruct H as (_ & _ & first & rest & body & g & last & Eo & Hp & Hb & ->). exists out, first, rest, body, g. by split_and!.
Defined.

Lemma gateway_relays_witness : ∃ c r,
  @consume_model_cycle Samples.tiny_json None
    (((λ p, (p.1, Item (Ok p.2))) <$> ClaudeSamples.timed) ++ [(8, StreamEnd false)]) = Some (c, Ok r) ∧
  concat (piece_text <$> (@sse Samples.tiny_json <$> response (ClaudeSamples.translator []) (snd <$> ClaudeSamples.timed))) = lit "hi" ∧
  r_text r = lit "hi".
Proof.
  eexists _, _. split; [vm_compute; reflexivity|]. split; [|vm_compute; reflexivity].
  etrans; [|reflexivity].
  refine (proj1 (@gateway_relays Samples.tiny_json ClaudeSamples.numbers ClaudeSamples.numbers_laws None (lit "msg-1") (lit "claude") 5
    ClaudeSamples.timed 8 _ (MkCycleResult (lit "m1") (lit "hi") _ _ _ _ _) _ _ _)); [vm_compute; reflexivity| |vm_compute; discriminate].
  intros q. vm_compute. intros H. repeat (apply elem_of_cons in H as [H|H]; [discriminate|]). by apply elem_of_nil in H.
Defined.

Lemma collected_all_or_nothing_witness : ∃ message,
  @collected Samples.tiny_json ClaudeSamples.numbers ClaudeSamples.no_timeout (ClaudeSamples.translator []) ClaudeSamples.inputs = Some (Document message) ∧
  @document_of Samples.tiny_json ClaudeSamples.numbers (response (ClaudeSamples.translator []) ClaudeSamples.events) message ∧
  get_member "stop_reason" message = Some (text "tool_use").
Proof.
  pose proof (@collected_all_or_nothing Samples.tiny_json ClaudeSamples.numbers ClaudeSamples.numbers_laws ClaudeSamples.no_timeout
    (lit "msg-1") (lit "claude") [] 5 ClaudeSamples.inputs ClaudeSamples.events (Some None) ltac:(vm_compute; reflexivity) ltac:(vm_compute; discriminate)) as H.
  assert (match @collected Samples.tiny_json ClaudeSamples.numbers ClaudeSamples.no_timeout (ClaudeSamples.translator []) ClaudeSamples.inputs with
    | Some (Document message) => get_member "stop_reason" message = Some (text "tool_use") | _ => False end) as Hd by (vm_compute; reflexivity).
  cbn zeta in H. change (new_translator (lit "msg-1") (lit "claude") [] 5) with (ClaudeSamples.translator []) in H.
  destruct (@collected Samples.tiny_json ClaudeSamples.numbers ClaudeSamples.no_timeout (ClaudeSamples.translator []) ClaudeSamples.inputs)
    as [[message|error cause|]|]; try (by destruct Hd).
  exists message. split; [reflexivity|]. destruct H as (_ & _ & H). by split.
Defined.

(** The texts of that document, block by block: thinking, signature, text. *)
Example document_texts :
  match @collected Samples.tiny_json ClaudeSamples.numbers ClaudeSamples.no_timeout (ClaudeSamples.translator []) ClaudeSamples.inputs with
  | Some (Document message) => (λ b, (get_str "thinking" b, get_str "signature" b, get_str "text" b)) <$> default [] (get_member "content" message ≫= as_array)
  | _ => []
  end = [(Some (lit "hm"), Some (lit "sig"), None); (None, None, Some (lit "hi")); (None, None, None); (None, None, None)].
Proof. vm_compute. reflexivity. Qed.

(** ** What the source does otherwise than it says *)

(** A block of text that opens between the start of a call and its end is written before the call, with the higher index. *)
Lemma call_after_text :
  ClaudeSamples.started (response (ClaudeSamples.translator [])
    [MToolCallStart 0 (lit "c") (lit "ls"); MTextDelta (lit "hi"); MToolCallEnd 0; MDone FinishToolUse]) = [1; 0].
Proof. vm_compute. reflexivity. Qed.
(** After a stop sequence the pieces of a pending call are dropped, and the call is written with the arguments it has. *)
Lemma call_cut_by_stop :
  ClaudeSamples.written (response (ClaudeSamples.translator [lit "STOP"])
    [MToolCallStart 0 (lit "c") (lit "ls"); MToolCallArgumentsDelta 0 (lit "{"); MTextDelta (lit "STOP"); MToolCallArgumentsDelta 0 (lit "}");
     MToolCallEnd 0; MDone FinishToolUse]) = [lit "{"].
Proof. vm_compute. reflexivity. Qed.
(** The status is read in the text of the error, which may be that of the JSON parser. *)
Lemma parser_position_is_status :
  ae_status (@from_error ClaudeSamples.no_timeout
    (Provider (lit "tool call arguments are not valid JSON: expected value at line 400 column 1"))) = 400.
Proof. vm_compute. reflexivity. Qed.
