(* ===== verification/ClaudeRequest.v ===== *)
(** * ClaudeRequest: a request of Claude Code, as a model call

    The request half of server/src/anthropic/messages.rs: the body of [POST /v1/messages] becomes one shared model call.
    A message of the role [system] in the middle of the conversation becomes a text of the user, placed after the
    results of the tools.

    Base64, the parser of URLs and the download of an image are parameters.

    [count_tokens_offline]: counting tokens downloads nothing.  What the history keeps of the client's messages is in
    ClaudeHistory. *)

From stdpp Require Import prelude gmap strings list.
From S2P Require Import Prelude Errors External Json Message Tokens Configuration Engine AnthropicRequest ClaudeApi.
Local Open Scope Z_scope.

(** The crate base64, [STANDARD.decode], which fails with a message. *)
Class Base64Decode : Type := { decode64 : str → result str (list Z) }.
(** What is read of the response to a download; its body comes in chunks, and either may fail. *)
Record HttpImage : Type := MkHttpImage {
  hi_status : str;
  hi_success : bool;
  hi_content_type : option (list Z);
  hi_content_length : option Z;
  hi_chunks : list (result (list Z) (list Z))
}.
Class ImageHttp : Type := { get_image : str → result (list Z) HttpImage }.
(** The client could not be made. *)
Class ImageClient : Type := { default_client : result (list Z) () }.

(** server/src/anthropic/messages.rs:31-31, [MAX_IMAGE_BYTES]. *)
Definition MAX_IMAGE_BYTES : Z := 20 * 1024 * 1024.
(** server/src/anthropic/messages.rs:40-40, [OPERATOR_NOTE]. *)
Definition OPERATOR_NOTE : str := lit "[operator note from the client]".

Abbreviation api := (result ApiError).
Definition bad {A} (message : str) : api A := Err (invalid message).
Definition required_of {A} (o : option A) (message : str) : api A := ok_or o (invalid message).
(** [.filter(|s| !s.is_empty())]. *)
Definition filled (s : option str) : option str := s ← s; match s with [] => None | _ => Some s end.
Definition messages_at (i : nat) (rest : string) : str := lit "messages[" ++ decimal (Z.of_nat i) ++ lit "]" ++ lit rest.
(** A text after another, on a line of its own. *)
Definition push_line (t part : str) : str := match t with [] => part | _ => t ++ [10] ++ part end.
Definition block_type (b : json) : option str := get_str "type" b.

(** ** The parts that need no image *)

(** server/src/anthropic/messages.rs:171-199, [system_text]: the texts of the blocks. *)
Definition system_block (t : str) (b : json) : str :=
  if bool_decide (block_type b = Some (lit "text")) then
    match filled (get_str "text" b) with Some part => push_line t part | None => t end
  else t.
(** server/src/anthropic/messages.rs:171-199, [system_text]. *)
Definition system_text (value : option json) : api str :=
  match value with
  | None | Some JNull => Ok []
  | Some (JString t) => Ok t
  | Some (JArray blocks) => Ok (foldl system_block [] blocks)
  | Some _ => bad (lit "system must be a string or an array of text blocks")
  end.

(** server/src/anthropic/messages.rs:201-237, [tool_definitions]: one of them. *)
Definition tool_definition (i : nat) (tool : json) : api ToolDefinition :=
  nm ← required_of (filled (trim <$> get_str "name" tool)) (lit "tools[" ++ decimal (Z.of_nat i) ++ lit "].name is required");
  Ok (MkTool nm (default [] (get_str "description" tool))
        (match get_member "input_schema" tool with
         | Some (JObject members) => JObject members
         | _ => object [("type", text "object"); ("properties", JObject [])]%string
         end)).
Fixpoint definitions_from (i : nat) (tools : list json) : api (list ToolDefinition) :=
  match tools with
  | [] => Ok []
  | tool :: tools => d ← tool_definition i tool; rest ← definitions_from (S i) tools; Ok (d :: rest)
  end.
(** server/src/anthropic/messages.rs:201-237, [tool_definitions]. *)
Definition tool_definitions (value : option json) : api (list ToolDefinition) :=
  match value with
  | None | Some JNull => Ok []
  | Some (JArray tools) => definitions_from 0 tools
  | Some _ => bad (lit "tools must be an array")
  end.
(** server/src/anthropic/messages.rs:239-255, [stop_sequences]. *)
Definition stop_sequences_of (value : option json) : api (list str) :=
  match value with
  | None | Some JNull => Ok []
  | Some (JArray sequences) => Ok (omap (λ v, filled (as_str v)) sequences)
  | Some _ => bad (lit "stop_sequences must be an array of strings")
  end.

Section Thinking.
Context {SN : SerdeNumber}.
(** server/src/anthropic/messages.rs:257-281, [apply_thinking]. *)
Definition apply_thinking (value : option json) (r : ReasoningSpec) : api ReasoningSpec :=
  let with_enabled (b : bool) (budget : option Z) := MkReasoning (Some b) (rs_effort r) budget in
  match value with
  | None | Some JNull => Ok (with_enabled false (rs_thinking_budget_tokens r))
  | Some (JObject members) =>
      match get_str "type" (JObject members) with
      | None => Ok (with_enabled false (rs_thinking_budget_tokens r))
      | Some kind =>
          if named kind "enabled" then Ok (with_enabled true (get_member "budget_tokens" (JObject members) ≫= as_u64))
          else if named kind "adaptive" then Ok (with_enabled true (rs_thinking_budget_tokens r))
          else if named kind "disabled" then Ok (with_enabled false (rs_thinking_budget_tokens r))
          else bad (lit "unsupported thinking type: " ++ kind)
      end
  | Some _ => bad (lit "thinking must be an object")
  end.
End Thinking.

(** server/src/anthropic/messages.rs:360-366, [has_tool_result]. *)
Definition has_tool_result (content : json) : bool :=
  match content with
  | JArray blocks => existsb (λ b, bool_decide (block_type b = Some (lit "tool_result"))) blocks
  | _ => false
  end.
(** server/src/anthropic/messages.rs:643-649, [message_id]. *)
Definition claude_message_id (i ordinal : nat) : str :=
  lit "claude-message-" ++ decimal (Z.of_nat i) ++ lit "-" ++ decimal (Z.of_nat ordinal).
(** server/src/anthropic/messages.rs:370-389, [flush_system]: what it adds to the history. *)
Definition flush_system (pending : list (nat * str)) : list ProjectedMessage :=
  match pending with
  | [] => []
  | (i, _) :: _ =>
      [MkProjected (claude_message_id i 0) RUser (PCParts ((λ p, PText (OPERATOR_NOTE ++ [10] ++ p.2)) <$> pending))]
  end.
(** server/src/anthropic/messages.rs:614-625, [push_user_text]: what it adds. *)
Definition push_user_text (i : nat) (t : str) : list ProjectedMessage :=
  match t with [] => [] | _ => [MkProjected (claude_message_id i 0) RUser (PCParts [PText t])] end.
(** server/src/anthropic/messages.rs:627-641, [flush_parts]: what it adds. *)
Definition flush_parts (i ordinal : nat) (parts : list ContentPart) : list ProjectedMessage :=
  match parts with [] => [] | _ => [MkProjected (claude_message_id i ordinal) RUser (PCParts parts)] end.

(** ** Messages of the assistant *)

(** server/src/anthropic/messages.rs:465-468, the locals of [assistant_message]. *)
Record AssistantParts : Type := MkParts {
  ap_text : list Z;
  ap_thinking : list Z;
  ap_calls : list ToolCallContent;
  ap_replay : list json
}.
(** server/src/anthropic/messages.rs:470-526, [assistant_message]: one block. *)
Definition assistant_block (i : nat) (s : AssistantParts) (b : json) : api AssistantParts :=
  match block_type b with
  | None => Ok s
  | Some kind =>
      if named kind "text" then
        Ok (match filled (get_str "text" b) with
            | Some part => MkParts (push_line (ap_text s) part) (ap_thinking s) (ap_calls s) (ap_replay s)
            | None => s
            end)
      else if named kind "thinking" then
        let part := default [] (get_str "thinking" b) in
        let signature := default [] (get_str "signature" b) in
        Ok (MkParts (ap_text s) (ap_thinking s ++ part) (ap_calls s)
              (match signature with
               | [] => ap_replay s
               | _ => ap_replay s ++ [object [("type", text "thinking"); ("thinking", JString part); ("signature", JString signature)]%string]
               end))
      else if named kind "redacted_thinking" then
        Ok (match get_str "data" b with
            | Some _ => MkParts (ap_text s) (ap_thinking s) (ap_calls s) (ap_replay s ++ [b])
            | None => s
            end)
      else if named kind "tool_use" then
        id ← required_of (filled (get_str "id" b)) (messages_at i ".content tool_use.id is required");
        nm ← required_of (filled (get_str "name" b)) (messages_at i ".content tool_use.name is required");
        Ok (MkParts (ap_text s) (ap_thinking s)
              (ap_calls s ++ [MkCall (zlen (ap_calls s)) id nm (default (JObject []) (get_member "input" b))]) (ap_replay s))
      else Ok s
  end.
Fixpoint assistant_blocks (i : nat) (s : AssistantParts) (blocks : list json) : api AssistantParts :=
  match blocks with
  | [] => Ok s
  | b :: blocks => s ← assistant_block i s b; assistant_blocks i s blocks
  end.
Definition assistant_of (i : nat) (s : AssistantParts) : ProjectedMessage :=
  MkProjected (claude_message_id i 0) RAssistant
    (PCAssistant (ap_text s) (ap_thinking s)
       (match ap_replay s with
        | [] => None
        | blocks => Some (MkReplay (lit "anthropic") (object [("blocks"%string, JArray blocks)]))
        end) (ap_calls s)).
(** server/src/anthropic/messages.rs:437-545, [assistant_message]: what it adds. *)
Definition assistant_message (i : nat) (content : json) : api (list ProjectedMessage) :=
  match content with
  | JString [] => Ok []
  | JString t => Ok [assistant_of i (MkParts t [] [] [])]
  | JArray blocks =>
      s ← assistant_blocks i (MkParts [] [] [] []) blocks;
      Ok (match ap_text s, ap_thinking s, ap_calls s, ap_replay s with
          | [], [], [], [] => []
          | _, _, _, _ => [assistant_of i s]
          end)
  | _ => bad (messages_at i ".content must be a string or an array")
  end.

(** ** Images and messages of the user *)

Section Images.
Context {U : UrlParser} {B : Base64Decode} {H : ImageHttp} {C : ImageClient}.

(** server/src/anthropic/messages.rs:750-760, [fetch_image]: the chunks, up to the limit. *)
Fixpoint read_chunks (data : list Z) (chunks : list (result str (list Z))) : api (list Z) :=
  match chunks with
  | [] => Ok data
  | Err error :: _ => bad (lit "image download failed: " ++ error)
  | Ok chunk :: chunks =>
      if MAX_IMAGE_BYTES <? zlen data + zlen chunk then bad (lit "image is larger than 20 MB")
      else read_chunks (data ++ chunk) chunks
  end.
(** server/src/anthropic/messages.rs:715-761, [fetch_image]. *)
Definition fetch_image (url : str) : api (str * list Z) :=
  parsed ← map_err (λ e, invalid (lit "invalid image URL: " ++ e)) (parse_url url);
  if negb (named (u_scheme parsed) "http" || named (u_scheme parsed) "https")
  then bad (lit "image URL must use http or https")
  else
    _ ← map_err internal default_client;
    response ← map_err (λ e, invalid (lit "image download failed: " ++ e)) (get_image url);
    if negb (hi_success response) then bad (lit "image download returned HTTP " ++ hi_status response)
    else
      mime_type ← required_of
        (t ← hi_content_type response;
         let t := trim (default t (head (split_on 59 t))) in
         if starts_with (lit "image/") t then Some t else None)
        (lit "image URL did not return an image content type");
      if match hi_content_length response with Some length => MAX_IMAGE_BYTES <? length | None => false end
      then bad (lit "image is larger than 20 MB")
      else data ← read_chunks [] (hi_chunks response); Ok (mime_type, data).

(** server/src/anthropic/messages.rs:653-711, [image_part]. *)
Definition image_part (block : json) (fetch_images : bool) : api ContentPart :=
  source ← required_of (get_member "source" block) (lit "image.source is required");
  match get_str "type" source with
  | None => bad (lit "image.source.type is required")
  | Some kind =>
      if named kind "base64" then
        mime_type ← required_of (filled (get_str "media_type" source)) (lit "image.source.media_type is required");
        encoded ← required_of (get_str "data" source) (lit "image.source.data is required");
        if fetch_images then
          data ← map_err (λ e, invalid (lit "image.source.data is not base64: " ++ e)) (decode64 encoded);
          Ok (PImage mime_type data)
        else match encoded with [] => bad (lit "image.source.data is required") | _ => Ok (PImage mime_type []) end
      else if named kind "url" then
        url ← required_of (get_str "url" source) (lit "image.source.url is required");
        if fetch_images then image ← fetch_image url; Ok (PImage image.1 image.2)
        else _ ← map_err (λ e, invalid (lit "invalid image URL: " ++ e)) (parse_url url); Ok (PImage (lit "image/unknown") [])
      else bad (lit "unsupported image source type: " ++ kind)
  end.

(** server/src/anthropic/messages.rs:569-589, [tool_result_message]: a part of its content. *)
Fixpoint result_parts (t : str) (provider_parts : list ContentPart) (parts : list json) (fetch_images : bool) : api (str * list ContentPart) :=
  match parts with
  | [] => Ok (t, provider_parts)
  | part :: parts =>
      if bool_decide (block_type part = Some (lit "text")) then
        match get_str "text" part with
        | Some value => result_parts (push_line t value) (provider_parts ++ [PText value]) parts fetch_images
        | None => result_parts t provider_parts parts fetch_images
        end
      else if bool_decide (block_type part = Some (lit "image")) then
        image ← image_part part fetch_images;
        result_parts t (provider_parts ++ [image]) parts fetch_images
      else result_parts t provider_parts parts fetch_images
  end.
(** server/src/anthropic/messages.rs:547-612, [tool_result_message]. *)
Definition tool_result_message (i ordinal : nat) (block : json) (fetch_images : bool) : api ProjectedMessage :=
  id ← required_of (filled (get_str "tool_use_id" block)) (messages_at i ".content tool_result.tool_use_id is required");
  content ← match get_member "content" block with
            | None | Some JNull => Ok ([], [])
            | Some (JString t) => Ok (t, [])
            | Some (JArray parts) => result_parts [] [] parts fetch_images
            | Some _ => bad (messages_at i ".content tool_result.content must be a string or an array")
            end;
  Ok (MkProjected (claude_message_id i ordinal) RTool
        (PCToolResult (MkResult id (lit "_") content.1 (default false (get_member "is_error" block ≫= as_bool)) None content.2))).

(** server/src/anthropic/messages.rs:407-433, [user_message]: the loop over its blocks. *)
Fixpoint user_blocks (i sequence : nat) (parts : list ContentPart) (blocks : list json) (fetch_images : bool) : api (list ProjectedMessage) :=
  match blocks with
  | [] => Ok (flush_parts i sequence parts)
  | b :: blocks =>
      match block_type b with
      | Some kind =>
          if named kind "text" then
            user_blocks i sequence (match filled (get_str "text" b) with Some t => parts ++ [PText t] | None => parts end) blocks fetch_images
          else if named kind "image" then
            image ← image_part b fetch_images;
            user_blocks i sequence (parts ++ [image]) blocks fetch_images
          else if named kind "tool_result" then
            result ← tool_result_message i (S sequence) b fetch_images;
            rest ← user_blocks i (S (S sequence)) [] blocks fetch_images;
            Ok (flush_parts i sequence parts ++ result :: rest)
          else user_blocks i sequence parts blocks fetch_images
      | None => user_blocks i sequence parts blocks fetch_images
      end
  end.
(** server/src/anthropic/messages.rs:391-435, [user_message]: what it adds. *)
Definition user_message (i : nat) (content : json) (fetch_images : bool) : api (list ProjectedMessage) :=
  match content with
  | JString t => Ok (push_user_text i t)
  | JArray blocks => user_blocks i 0 [] blocks fetch_images
  | _ => bad (messages_at i ".content must be a string or an array")
  end.
End Images.

(** ** The history *)

Section History.
Context {SN : SerdeNumber} {U : UrlParser} {B : Base64Decode} {H : ImageHttp} {C : ImageClient}.

(** server/src/anthropic/messages.rs:307-310, the locals of [history]. *)
Record HistoryState : Type := MkHistory {
  hs_history : list ProjectedMessage;
  hs_leading_system : list (list Z);
  hs_pending : list (nat * list Z);
  hs_leading : bool
}.
Definition new_history : HistoryState := MkHistory [] [] [] true.

(** server/src/anthropic/messages.rs:312-355, [history]: one message. *)
Definition history_message (fetch_images : bool) (i : nat) (s : HistoryState) (message : json) : api HistoryState :=
  role ← required_of (get_str "role" message) (messages_at i ".role is required");
  content ← required_of (get_member "content" message) (messages_at i ".content is required");
  if named role "system" then
    t ← system_text (Some content);
    Ok (match t with
        | [] => s
        | _ =>
            if hs_leading s then MkHistory (hs_history s) (hs_leading_system s ++ [t]) (hs_pending s) true
            else MkHistory (hs_history s) (hs_leading_system s) (hs_pending s ++ [(i, t)]) false
        end)
  else if named role "user" then
    added ← user_message i content fetch_images;
    let placed := flush_system (hs_pending s) in
    Ok (MkHistory (hs_history s ++ (if has_tool_result content then added ++ placed else placed ++ added)) (hs_leading_system s) [] false)
  else if named role "assistant" then
    added ← assistant_message i content;
    Ok (MkHistory (hs_history s ++ flush_system (hs_pending s) ++ added) (hs_leading_system s) [] false)
  else bad (lit "unsupported message role: " ++ role).
Fixpoint history_loop (fetch_images : bool) (i : nat) (s : HistoryState) (messages : list json) : api HistoryState :=
  match messages with
  | [] => Ok s
  | message :: messages => s ← history_message fetch_images i s message; history_loop fetch_images (S i) s messages
  end.
(** server/src/anthropic/messages.rs:293-358, [history]. *)
Definition claude_history (value : option json) (fetch_images : bool) : api (list ProjectedMessage * list str) :=
  value ← required_of value (lit "messages is required");
  messages ← required_of (as_array value) (lit "messages must be an array");
  match messages with
  | [] => bad (lit "messages must not be empty")
  | _ =>
      s ← history_loop fetch_images 0 new_history messages;
      Ok (hs_history s ++ flush_system (hs_pending s), hs_leading_system s)
  end.

(** ** The request *)

Context (model : str → res (option ModelConfig)) (uuid : str).

(** server/src/anthropic/messages.rs:117-123, [build]: the leading system messages follow the system text. *)
Definition instructions_of (system : str) (leading : list str) : str :=
  foldl (λ t part, match t with [] => part | _ => t ++ [10; 10] ++ part end) system leading.
(** server/src/anthropic/messages.rs:141-149, [build]: the conversation of the user, or of the call. *)
Definition conversation_of (metadata : option json) (call_id : str) : str :=
  match filled (trim <$> (m ← metadata; if is_object m then get_str "user_id" m else None)) with
  | Some value => lit "claude:" ++ value
  | None => call_id
  end.
(** server/src/anthropic/messages.rs:104-169, [build]. *)
Definition build (settings : ClaudeSettings) (body : json) (max_tokens : option Z) (fetch_images : bool) : api (ModelInvocation * str) :=
  let requested := default [] (get_str "model" body) in
  m ← resolve model settings requested;
  history ← claude_history (get_member "messages" body) fetch_images;
  system ← system_text (get_member "system" body);
  tools ← tool_definitions (get_member "tools" body);
  sequences ← stop_sequences_of (get_member "stop_sequences" body);
  let spec := new_model (model_hash m) in
  let limit := (λ requested, match config_max_output_tokens m with Some limit => Z.min requested limit | None => requested end) <$> max_tokens in
  r ← apply_thinking (get_member "thinking" body) (reasoning spec);
  let spec := MkModel (model_id spec) (display_name spec) r (latency spec) limit (context_window_tokens spec)
                (supports_image_generation spec) (extra_params spec) sequences in
  let call_id := lit "claude-" ++ uuid in
  Ok (MkInvocation call_id call_id (conversation_of (get_member "metadata" body) call_id) 0 Chat
        (MkRequest (MkPrompt (instructions_of system history.2) tools) spec history.1),
      match trim requested with [] => model_hash m | _ => requested end).

(** server/src/anthropic/messages.rs:42-48, [PreparedRequest]. *)
Record PreparedRequest : Type := MkPreparedRequest {
  pr_invocation : ModelInvocation;
  pr_requested_model : list Z;
  pr_stream : bool
}.
(** server/src/anthropic/messages.rs:54-79, [prepare]. *)
Definition prepare (settings : ClaudeSettings) (body : json) : api PreparedRequest :=
  _ ← required_of (as_object body) (lit "request body must be a JSON object");
  let stream := default false (get_member "stream" body ≫= as_bool) in
  max_tokens ← required_of (n ← get_member "max_tokens" body ≫= as_u64; if 0 <? n then Some n else None)
                 (lit "max_tokens must be a positive integer");
  built ← build settings body (Some max_tokens) true;
  Ok (MkPreparedRequest built.1 built.2 stream).
(** server/src/anthropic/messages.rs:88-102, [count_tokens]. *)
Definition count_tokens {SJ : SerdeJson} (settings : ClaudeSettings) (body : json) : api Z :=
  _ ← required_of (as_object body) (lit "request body must be a JSON object");
  built ← build settings body None false;
  let request := iv_request built.1 in
  Ok (estimate_context_tokens (rq_prompt request) (rq_history request)).
End History.

(** ** Counting downloads nothing *)

Section Offline.
Context {SN : SerdeNumber} {U : UrlParser}.
Context {B B' : Base64Decode} {H H' : ImageHttp} {C C' : ImageClient}.

Lemma image_offline block : @image_part U B H C block false = @image_part U B' H' C' block false.
Proof. done. Qed.
Lemma result_offline : ∀ parts t pp, @result_parts U B H C t pp parts false = @result_parts U B' H' C' t pp parts false.
Proof.
  induction parts as [|part parts IH]; intros t pp; [done|]. cbn [result_parts]. destruct (bool_decide _); [by destruct (get_str "text" part)|].
  destruct (bool_decide _); [|done]. rewrite image_offline. destruct (image_part part false); [apply IH|done].
Qed.
Lemma tool_result_offline i o block : @tool_result_message U B H C i o block false = @tool_result_message U B' H' C' i o block false.
Proof.
  unfold tool_result_message. destruct (get_member "content" block) as [[| | | |parts|]|]; try done. by rewrite result_offline.
Qed.
Lemma user_blocks_offline i : ∀ blocks sequence parts,
  @user_blocks U B H C i sequence parts blocks false = @user_blocks U B' H' C' i sequence parts blocks false.
Proof.
  induction blocks as [|b blocks IH]; intros sequence parts; [done|]. cbn [user_blocks]. destruct (block_type b) as [kind|]; [|done].
  destruct (named kind "text"); [done|]. destruct (named kind "image").
  - rewrite image_offline. destruct (image_part b false); [apply IH|done].
  - destruct (named kind "tool_result"); [|done]. rewrite tool_result_offline.
    destruct (tool_result_message i (S sequence) b false); cbn [mbind result_bind]; [|reflexivity]. rewrite IH. reflexivity.
Qed.
Lemma user_message_offline i content : @user_message U B H C i content false = @user_message U B' H' C' i content false.
Proof. destruct content; cbn [user_message]; [reflexivity..|apply user_blocks_offline|reflexivity]. Qed.
Lemma history_message_offline i s message : @history_message U B H C false i s message = @history_message U B' H' C' false i s message.
Proof.
  unfold history_message, required_of. destruct (get_str "role" message) as [role|]; cbn [ok_or mbind result_bind]; [|reflexivity].
  destruct (get_member "content" message) as [content|]; cbn [ok_or mbind result_bind]; [|reflexivity]. rewrite user_message_offline. reflexivity.
Qed.
Lemma history_offline : ∀ messages i s, @history_loop U B H C false i s messages = @history_loop U B' H' C' false i s messages.
Proof.
  induction messages as [|message messages IH]; intros i s; [reflexivity|]. cbn [history_loop]. rewrite history_message_offline.
  destruct (history_message false i s message); cbn [mbind result_bind]; [apply IH|reflexivity].
Qed.
Lemma claude_history_offline value : @claude_history U B H C value false = @claude_history U B' H' C' value false.
Proof.
  unfold claude_history, required_of. destruct value as [v|]; cbn [ok_or mbind result_bind]; [|reflexivity].
  destruct (as_array v) as [[|m ms]|]; cbn [ok_or mbind result_bind]; [reflexivity| |reflexivity]. rewrite history_offline. reflexivity.
Qed.
Lemma build_offline model uuid settings body max_tokens :
  @build SN U B H C model uuid settings body max_tokens false = @build SN U B' H' C' model uuid settings body max_tokens false.
Proof. unfold build. rewrite claude_history_offline. reflexivity. Qed.
End Offline.

(** Counting the tokens of a request reaches no network and decodes no image: its result, error or number, is the
    same whatever a download would give, whether there is a client for it at all, and whatever base64 decodes to. *)
Theorem count_tokens_offline {SN : SerdeNumber} {SJ : SerdeJson} {U : UrlParser} (B B' : Base64Decode) (H H' : ImageHttp) (C C' : ImageClient)
    model uuid settings body :
  @count_tokens SN U B H C model uuid SJ settings body = @count_tokens SN U B' H' C' model uuid SJ settings body.
Proof.
  unfold count_tokens. rewrite (build_offline (B := B) (B' := B') (H := H) (H' := H') (C := C) (C' := C')). reflexivity.
Qed.
