(* ===== verification/ClaudeHistory.v ===== *)
(** * ClaudeHistory: the conversation of a client is the one the model is given

    Theorems about the history of ClaudeRequest.  A conversation is read, on both sides, as its sequence of calls and
    results.  [history_keeps_calls]: what the provider is given has the calls and the results of the client's messages, in
    their order, and the messages of the history have distinct identifiers, whatever messages of the role [system] stand
    between them.  [note_between_results] shows where such a message is put between a call and its result. *)

From stdpp Require Import prelude gmap strings list.
From S2P Require Import Prelude Errors External Json Message Tokens Configuration Engine AnthropicRequest ClaudeApi ClaudeRequest.
Local Open Scope Z_scope.

(** ** The calls and the results of a conversation *)

(** One of them. *)
Inductive exchange : Type :=
  | Calls (index : Z) (id name : list Z) (input : json)
  | Answers (id : list Z) (is_error : bool).
Definition call_exchange (c : ToolCallContent) : exchange := Calls (c_index c) (c_call_id c) (c_name c) (c_arguments c).
(** Those of a message of the history. *)
Definition exchanges_of (m : ProjectedMessage) : list exchange :=
  match p_content m with
  | PCParts _ => []
  | PCAssistant _ _ _ calls => call_exchange <$> calls
  | PCToolResult r => [Answers (r_call_id r) (r_is_error r)]
  end.

(** Those of a message of the client: the blocks of a kind that the protocol gives to the role. *)
Definition is_block (kind : string) (b : json) : bool := match block_type b with Some k => named k kind | None => false end.
Definition block_calls (n : nat) (b : json) : exchange :=
  Calls (Z.of_nat n) (default [] (get_str "id" b)) (default [] (get_str "name" b)) (default (JObject []) (get_member "input" b)).
Definition block_answers (b : json) : exchange :=
  Answers (default [] (get_str "tool_use_id" b)) (default false (get_member "is_error" b ≫= as_bool)).
Definition client_exchanges (message : json) : list exchange :=
  match get_str "role" message, get_member "content" message with
  | Some role, Some (JArray blocks) =>
      if named role "assistant" then imap block_calls (List.filter (is_block "tool_use") blocks)
      else if named role "user" then block_answers <$> List.filter (is_block "tool_result") blocks
      else []
  | _, _ => []
  end.

Lemma exchanges_app l k : (l ++ k) ≫= exchanges_of = (l ≫= exchanges_of) ++ (k ≫= exchanges_of).
Proof. apply bind_app. Qed.
Lemma flush_system_exchanges pending : flush_system pending ≫= exchanges_of = [].
Proof. by destruct pending as [|[i t] pending]. Qed.
Lemma flush_parts_exchanges i o parts : flush_parts i o parts ≫= exchanges_of = [].
Proof. by destruct parts. Qed.

(** *** The messages of the assistant *)

Lemma filled_some s t : filled s = Some t ↔ s = Some t ∧ t ≠ [].
Proof. destruct s as [[|c s]|]; cbn; naive_solver. Qed.
Lemma block_kind kind b : block_type b = Some kind → is_block "tool_use" b = named kind "tool_use" ∧ is_block "tool_result" b = named kind "tool_result".
Proof. intros H. unfold is_block. by rewrite H. Qed.

Lemma assistant_block_calls i s b s' : assistant_block i s b = Ok s' →
  call_exchange <$> ap_calls s' = (call_exchange <$> ap_calls s) ++ (if is_block "tool_use" b then [block_calls (length (ap_calls s)) b] else []).
Proof.
  unfold assistant_block, is_block. destruct (block_type b) as [kind|]; [|intros [= ->]; by rewrite app_nil_r].
  destruct (named kind "text") eqn:K1.
  { rewrite (named_false _ _ "tool_use" K1) by done. intros <-%ok_equal. rewrite app_nil_r. by destruct (filled _). }
  destruct (named kind "thinking") eqn:K2.
  { rewrite (named_false _ _ "tool_use" K2) by done. intros <-%ok_equal. by rewrite app_nil_r. }
  destruct (named kind "redacted_thinking") eqn:K3.
  { rewrite (named_false _ _ "tool_use" K3) by done. intros <-%ok_equal. rewrite app_nil_r. by destruct (get_str "data" b). }
  destruct (named kind "tool_use"); [|intros <-%ok_equal; by rewrite app_nil_r].
  intros H. unfold required_of in H. invert_ok H as id Hid. apply filled_some in Hid as [Hid _].
  invert_ok H as nm Hnm. apply filled_some in Hnm as [Hnm _]. apply ok_equal in H as <-. cbn [ap_calls]. rewrite fmap_app. f_equal.
  cbn [fmap list_fmap]. unfold call_exchange, block_calls. cbn [c_index c_call_id c_name c_arguments]. by rewrite Hid, Hnm.
Qed.
Lemma assistant_blocks_calls i : ∀ blocks s s', assistant_blocks i s blocks = Ok s' →
  call_exchange <$> ap_calls s' =
    (call_exchange <$> ap_calls s) ++ imap (λ k, block_calls (length (ap_calls s) + k)) (List.filter (is_block "tool_use") blocks).
Proof.
  induction blocks as [|b blocks IH]; intros s s' H; cbn [assistant_blocks] in H.
  { apply ok_equal in H as <-. by rewrite app_nil_r. }
  invert_ok H as s1 H1. apply IH in H. apply assistant_block_calls in H1. rewrite H, H1. rewrite <- app_assoc. f_equal.
  apply (f_equal length) in H1. rewrite length_app, !length_fmap in H1. cbn [List.filter].
  destruct (is_block "tool_use" b); cbn [length] in H1; [|by rewrite H1, Nat.add_0_r].
  rewrite H1, imap_cons, Nat.add_0_r. cbn [app]. f_equal. apply imap_ext. intros k x _. cbn. f_equal. lia.
Qed.

Lemma assistant_exchanges i content added : assistant_message i content = Ok added →
  added ≫= exchanges_of = match content with JArray blocks => imap block_calls (List.filter (is_block "tool_use") blocks) | _ => [] end.
Proof.
  unfold assistant_message. destruct content as [| | |[|c t]|blocks|]; try discriminate.
  1-2: by intros <-%ok_equal.
  intros H. invert_ok H as s Hs. apply ok_equal in H as <-. apply assistant_blocks_calls in Hs. cbn in Hs.
  etrans; [|exact Hs]. destruct (ap_text s), (ap_thinking s), (ap_calls s) eqn:E, (ap_replay s); cbn; rewrite ?E; try done; by rewrite app_nil_r.
Qed.

(** *** The messages of the user *)

Section User.
Context {U : UrlParser} {B : Base64Decode} {H : ImageHttp} {C : ImageClient}.

Lemma result_message i o b f m : tool_result_message i o b f = Ok m →
  exchanges_of m = [block_answers b] ∧ p_message_id m = claude_message_id i o ∧ p_role m = RTool.
Proof.
  unfold tool_result_message, required_of. intros E. invert_ok E as id Hid. apply filled_some in Hid as [Hid _].
  invert_ok E as content Hc. apply ok_equal in E as <-. split; [|done]. unfold block_answers. by rewrite Hid.
Qed.
Lemma user_blocks_exchanges i f : ∀ blocks sequence parts added, user_blocks i sequence parts blocks f = Ok added →
  added ≫= exchanges_of = block_answers <$> List.filter (is_block "tool_result") blocks.
Proof.
  induction blocks as [|b blocks IH]; intros sequence parts added E; cbn [user_blocks] in E.
  { apply ok_equal in E as <-. by apply flush_parts_exchanges. }
  cbn [List.filter]. unfold is_block at 1. destruct (block_type b) as [kind|]; [|by eapply IH].
  destruct (named kind "text") eqn:K1.
  { rewrite (named_false _ _ "tool_result" K1) by done. by eapply IH. }
  destruct (named kind "image") eqn:K2.
  { rewrite (named_false _ _ "tool_result" K2) by done. invert_ok E as image Hi. by eapply IH. }
  destruct (named kind "tool_result"); [|by eapply IH].
  invert_ok E as m Hm. invert_ok E as rest Hr. apply ok_equal in E as <-. apply result_message in Hm as [Hm _].
  rewrite exchanges_app, flush_parts_exchanges, bind_cons, Hm, (IH _ _ _ Hr). done.
Qed.
Lemma user_exchanges i f content added : user_message i content f = Ok added →
  added ≫= exchanges_of = match content with JArray blocks => block_answers <$> List.filter (is_block "tool_result") blocks | _ => [] end.
Proof.
  destruct content; cbn [user_message]; try discriminate; [|apply user_blocks_exchanges]. intros <-%ok_equal. by destruct s.
Qed.
End User.

(** ** Identifiers *)

Definition id_of (key : nat * nat) : str := claude_message_id key.1 key.2.
Lemma id_of_inj a b : id_of a = id_of b → a = b.
Proof.
  destruct a as [i o], b as [j q]. unfold id_of, claude_message_id. cbn [fst snd]. intros E. apply (inj (app _)) in E.
  apply (before_first 45) in E as [Ei Eo]; [|intros Hc%decimal_digits; lia..].
  apply decimal_inj in Ei, Eo; [|lia..]. apply Nat2Z.inj in Ei, Eo. by subst.
Qed.
#[global] Instance id_of_injective : Inj (=) (=) id_of.
Proof. intros a b. apply id_of_inj. Qed.

(** The messages of one message of the client are numbered from [o] on. *)
Definition numbered_at (i o : nat) (added : list ProjectedMessage) : Prop :=
  ∃ os, p_message_id <$> added = id_of <$> (pair i <$> os) ∧ NoDup os ∧ ∀ q, q ∈ os → (o ≤ q)%nat.
Lemma numbered_nil i o : numbered_at i o [].
Proof. exists []. split_and!; [done|constructor|]. intros q Hq. by apply not_elem_of_nil in Hq. Qed.
Lemma numbered_cons i o m added : p_message_id m = claude_message_id i o → numbered_at i (S o) added → numbered_at i o (m :: added).
Proof.
  intros Hm (os & E & Hd & Ho). exists (o :: os). split_and!.
  - rewrite !fmap_cons, E, Hm. done.
  - constructor; [|done]. intros Hin%Ho. lia.
  - intros q [->|Hq%Ho]%elem_of_cons; lia.
Qed.
Lemma numbered_le i o q added : (o ≤ q)%nat → numbered_at i q added → numbered_at i o added.
Proof. intros Hle (os & E & Hd & Ho). exists os. split_and!; [done..|]. intros x Hx%Ho. lia. Qed.
Lemma numbered_parts i o parts added : numbered_at i (S o) added → numbered_at i o (flush_parts i o parts ++ added).
Proof. intros Hn. destruct parts; cbn; [by eapply numbered_le, Hn; lia|]. by apply numbered_cons. Qed.
Lemma assistant_numbered i content added : assistant_message i content = Ok added → numbered_at i 0 added.
Proof.
  unfold assistant_message. destruct content as [| | |[|c t]|blocks|]; try discriminate.
  - intros <-%ok_equal. apply numbered_nil.
  - intros <-%ok_equal. by apply numbered_cons, numbered_nil.
  - intros E. invert_ok E as s Hs. apply ok_equal in E as <-.
    destruct (ap_text s), (ap_thinking s), (ap_calls s), (ap_replay s); solve [apply numbered_nil | by apply numbered_cons, numbered_nil].
Qed.
Lemma user_numbered `{UrlParser} `{Base64Decode} `{ImageHttp} `{ImageClient} i f content added :
  user_message i content f = Ok added → numbered_at i 0 added.
Proof.
  assert (∀ blocks o parts added, user_blocks i o parts blocks f = Ok added → numbered_at i o added) as Hb.
  { induction blocks as [|b blocks IH]; intros o parts out E; cbn [user_blocks] in E.
    { apply ok_equal in E as <-. rewrite <- (app_nil_r (flush_parts _ _ _)). apply numbered_parts, numbered_nil. }
    destruct (block_type b) as [kind|]; [|by eapply IH]. destruct (named kind "text"); [by eapply IH|].
    destruct (named kind "image"); [invert_ok E as image Hi; by eapply IH|]. destruct (named kind "tool_result"); [|by eapply IH].
    invert_ok E as m Hm. invert_ok E as rest Hr. apply ok_equal in E as <-. apply result_message in Hm as (_ & Hm & _).
    by apply numbered_parts, numbered_cons, (IH _ _ _ Hr). }
  destruct content; cbn [user_message]; try discriminate; [|apply Hb]. intros <-%ok_equal.
  destruct s; [apply numbered_nil|by apply numbered_cons, numbered_nil].
Qed.

(** What is collected after [i] messages: the messages are numbered by messages of the client that are not waiting. *)
Definition numbered (i : nat) (s : HistoryState) : Prop :=
  (∃ keys, p_message_id <$> hs_history s = id_of <$> keys ∧ NoDup keys ∧
     ∀ k, k ∈ keys → (k.1 < i)%nat ∧ k.1 ∉ (hs_pending s).*1) ∧
  ∀ j, j ∈ (hs_pending s).*1 → (j < i)%nat.
Lemma numbered_flush i s : numbered i s → numbered i (MkHistory (hs_history s ++ flush_system (hs_pending s)) (hs_leading_system s) [] (hs_leading s)).
Proof.
  intros [(keys & E & Hd & Hk) Hp]. split; [|intros j Hj; by apply not_elem_of_nil in Hj]. destruct (hs_pending s) as [|[j t] pending]; cbn.
  - exists keys. rewrite app_nil_r. split_and!; [done..|]. intros k Hin. split; [by apply Hk|apply not_elem_of_nil].
  - exists (keys ++ [(j, 0%nat)]). split_and!.
    + by rewrite !fmap_app, E.
    + apply NoDup_app. split_and!; [done| |apply NoDup_singleton]. intros k Hin ->%list_elem_of_singleton. apply Hk in Hin as [_ Hin]. apply Hin. by left.
    + intros k [Hin| ->%list_elem_of_singleton]%elem_of_app; (split; [|apply not_elem_of_nil]); [by apply Hk|]. apply Hp. by left.
Qed.
Lemma numbered_add i s added : numbered i s → numbered_at i 0 added →
  numbered (S i) (MkHistory (hs_history s ++ added) (hs_leading_system s) (hs_pending s) (hs_leading s)).
Proof.
  intros [(keys & E & Hd & Hk) Hp] (os & Ea & Ho & _). split; [|intros j Hj; apply Hp in Hj; lia].
  exists (keys ++ (pair i <$> os)). cbn. split_and!.
  - by rewrite !fmap_app, E, Ea.
  - apply NoDup_app. split_and!; [done| |by apply NoDup_fmap_2; [apply _|]].
    intros k Hin (q & -> & _)%list_elem_of_fmap. apply Hk in Hin as [Hlt _]. cbn in Hlt. lia.
  - intros k [Hin|(q & -> & _)%list_elem_of_fmap]%elem_of_app.
    + apply Hk in Hin as [? ?]. split; [lia|done].
    + cbn. split; [lia|]. intros Hj%Hp. lia.
Qed.
Lemma numbered_placed i s (after : bool) added leading_system leading : numbered i s → numbered_at i 0 added →
  numbered (S i) (MkHistory (hs_history s ++ (if after then added ++ flush_system (hs_pending s) else flush_system (hs_pending s) ++ added)) leading_system [] leading).
Proof.
  intros Hn Ha. destruct after; rewrite app_assoc.
  - exact (numbered_flush _ _ (numbered_add _ _ _ Hn Ha)).
  - exact (numbered_add _ _ _ (numbered_flush _ _ Hn) Ha).
Qed.
Lemma numbered_distinct i s : numbered i s → NoDup (p_message_id <$> hs_history s).
Proof. intros [(keys & -> & Hd & _) _]. by apply NoDup_fmap_2; [apply _|]. Qed.

(** ** The history *)

Section History.
Context {SN : SerdeNumber} {U : UrlParser} {B : Base64Decode} {H : ImageHttp} {C : ImageClient}.

Lemma history_message_keeps f i s message s' : history_message f i s message = Ok s' →
  hs_history s' ≫= exchanges_of = (hs_history s ≫= exchanges_of) ++ client_exchanges message ∧ (numbered i s → numbered (S i) s').
Proof.
  unfold history_message, required_of, client_exchanges. intros E. invert_ok E as role Hr. invert_ok E as content Hc. rewrite Hr, Hc.
  destruct (named role "system") eqn:K1.
  { rewrite (named_false _ _ "assistant" K1), (named_false _ _ "user" K1) by done. invert_ok E as t Ht. apply ok_equal in E as <-.
    assert (∀ j : list exchange, j = j ++ match content with JArray _ => [] | _ => [] end) as Hnil by (intros j; destruct content; by rewrite app_nil_r).
    assert (numbered i s → numbered (S i) s) as Hs.
    { intros [(keys & E & Hd & Hk) Hp]. split; [|intros j Hj%Hp; lia]. exists keys. split_and!; [done..|]. intros k Hin%Hk. split; [lia|apply Hin]. }
    destruct t as [|c t]; [by split; [apply Hnil|]|]. destruct (hs_leading s); cbn [hs_history]; (split; [apply Hnil|]).
    - intros Hn. apply Hs in Hn. by destruct Hn.
    - intros [(keys & Ek & Hd & Hk) Hp]. split; cbn [hs_history hs_pending].
      + exists keys. split_and!; [done..|]. intros k Hin. apply Hk in Hin as [? Hin]. split; [lia|]. rewrite fmap_app. intros [?|Hj]%elem_of_app; [done|].
        cbn in Hj. apply list_elem_of_singleton in Hj. lia.
      + rewrite fmap_app. intros j [Hj%Hp|Hj]%elem_of_app; [lia|]. cbn in Hj. apply list_elem_of_singleton in Hj. lia. }
  destruct (named role "user") eqn:K2.
  { rewrite (named_false _ _ "assistant" K2) by done. invert_ok E as added Ha. apply ok_equal in E as <-. cbn [hs_history].
    pose proof (user_exchanges _ _ _ _ Ha) as Hx. apply user_numbered in Ha. split.
    - rewrite exchanges_app. f_equal. destruct (has_tool_result content); rewrite exchanges_app, flush_system_exchanges, ?app_nil_r; cbn [app]; by rewrite Hx.
    - intros Hn. by apply numbered_placed. }
  destruct (named role "assistant") eqn:K3; [|discriminate]. invert_ok E as added Ha. apply ok_equal in E as <-. cbn [hs_history]. split.
  - rewrite !exchanges_app, flush_system_exchanges. f_equal. exact (assistant_exchanges _ _ _ Ha).
  - intros Hn. apply assistant_numbered in Ha. by apply (numbered_placed i s false).
Qed.
Lemma history_loop_keeps f : ∀ messages i s s', history_loop f i s messages = Ok s' →
  hs_history s' ≫= exchanges_of = (hs_history s ≫= exchanges_of) ++ (messages ≫= client_exchanges) ∧ (numbered i s → ∃ j, numbered j s').
Proof.
  induction messages as [|message messages IH]; intros i s s' E; cbn [history_loop] in E.
  { apply ok_equal in E as <-. split; [by rewrite app_nil_r|eauto]. }
  invert_ok E as s1 E1. apply history_message_keeps in E1 as [Hx1 Hn1]. apply IH in E as [Hx Hn]. split; [|by intros ?%Hn1%Hn].
  rewrite Hx, Hx1, bind_cons. by rewrite app_assoc.
Qed.

(** C15: The conversation the model is given is the client's.  When the messages of a request are accepted, the sequence of
    tool calls, each with its position, identifier, name and input, and of tool results, each with the call it answers and
    whether it is an error, is that of the client's blocks, in their order, none added, dropped or moved by the texts,
    images and system messages between them; and the messages made have distinct identifiers. *)
Theorem history_keeps_calls messages fetch history leading : claude_history (Some (JArray messages)) fetch = Ok (history, leading) →
  history ≫= exchanges_of = messages ≫= client_exchanges ∧ NoDup (p_message_id <$> history).
Proof.
  unfold claude_history. cbn [required_of ok_or mbind result_bind as_array]. intros E. destruct messages as [|m messages]; [discriminate|].
  invert_ok E as s Hs. injection E as <- _. apply history_loop_keeps in Hs as [Hx Hn].
  rewrite exchanges_app, flush_system_exchanges, app_nil_r. split; [exact Hx|].
  destruct Hn as [j Hn%numbered_flush%numbered_distinct]; [|exact Hn].
  split; [exists []; split_and!; [done|constructor|]|]; intros k Hin; by apply not_elem_of_nil in Hin.
Qed.
End History.

(** ** Samples *)

Module HistorySamples.
Definition urls : UrlParser := {| parse_url _ := Err (lit "relative URL without a base"); with_path url _ := url |}.
Definition base64 : Base64Decode := {| decode64 t := Ok t |}.
Definition offline : ImageHttp := {| get_image _ := Err (lit "error sending request") |}.
Definition client : ImageClient := {| default_client := Ok () |}.

Definition message (role : string) (content : json) : json := object [("role", text role); ("content", content)]%string.
Definition tool_use (id name : string) : json := object [("type", text "tool_use"); ("id", text id); ("name", text name)]%string.
Definition tool_result (id : string) : json := object [("type", text "tool_result"); ("tool_use_id", text id); ("content", text "done")]%string.
(** Two calls, whose results are in two messages, with a message of the role [system] between them. *)
Definition interrupted : list json :=
  [message "assistant" (JArray [tool_use "a" "ls"; tool_use "b" "rm"]);
   message "user" (JArray [tool_result "a"]);
   message "system" (text "be brief");
   message "user" (JArray [tool_result "b"])].
(** The same with the message of the role [system] right behind the calls. *)
Definition reminded : list json :=
  [message "assistant" (JArray [tool_use "a" "ls"; tool_use "b" "rm"]);
   message "system" (text "be brief");
   message "user" (JArray [tool_result "a"]);
   message "user" (JArray [tool_result "b"])].
Definition history (messages : list json) : option (list ProjectedMessage) :=
  match @claude_history urls base64 offline client (Some (JArray messages)) true with Ok (history, _) => Some history | Err _ => None end.
Definition roles (messages : list json) : option (list (Role * list exchange)) :=
  (λ h : list ProjectedMessage, (λ m, (p_role m, exchanges_of m)) <$> h) <$> history messages.
End HistorySamples.

Lemma history_keeps_calls_witness : ∃ history leading,
  @claude_history HistorySamples.urls HistorySamples.base64 HistorySamples.offline HistorySamples.client
    (Some (JArray HistorySamples.interrupted)) true = Ok (history, leading) ∧
  history ≫= exchanges_of =
    [Calls 0 (lit "a") (lit "ls") (JObject []); Calls 1 (lit "b") (lit "rm") (JObject []); Answers (lit "a") false; Answers (lit "b") false] ∧
  NoDup (p_message_id <$> history).
Proof.
  eexists _, _. split; [vm_compute; reflexivity|].
  destruct (@history_keeps_calls HistorySamples.urls HistorySamples.base64 HistorySamples.offline HistorySamples.client
    HistorySamples.interrupted true _ _ ltac:(vm_compute; reflexivity)) as [Hx Hn].
  split; [etrans; [exact Hx|vm_compute; reflexivity]|exact Hn].
Defined.

(** A message of the role [system] behind the calls waits for the first message with a result only: it is placed between
    a call and its result when the results are in two messages, as when it stood there. *)
Lemma note_between_results :
  HistorySamples.roles HistorySamples.reminded =
    Some [(RAssistant, [Calls 0 (lit "a") (lit "ls") (JObject []); Calls 1 (lit "b") (lit "rm") (JObject [])]);
          (RTool, [Answers (lit "a") false]); (RUser, []); (RTool, [Answers (lit "b") false])].
Proof. vm_compute. reflexivity. Qed.
