(* ===== verification/ClaudeGateway.v ===== *)
(** * ClaudeGateway: the listener, the settings and the token of the Claude gateway

    server/src/anthropic/gateway.rs and server/src/store/claude.rs: the state of the gateway and the operations on it,
    and the handlers of its routes over the requests and responses of ClaudeRequest and ClaudeStream.

    The operations [start], [save_settings], [rotate_token] and [shutdown] hold the mutex [operations]; each is a
    computation of the monad [Gw], whose state is that of the gateway and of the rows it keeps in the database.  The
    operating system and the database answer through parameters: whether a port can be bound, whether a statement
    succeeds, what the model table holds.

    [save_settings_atomic]: saving either takes effect, in the database and on the listener, or leaves both as they
    were; [rollback_refused] is the case that does neither.  [handler_admission]: what reaches a provider.  Reading the
    token again is not one step: section Tokens cuts it in two, [rotation_revokes] and [stale_reload] tell when a
    rotation disables the old token. *)

From stdpp Require Import prelude gmap strings list.
From S2P Require Import Prelude Errors External Json Message Tokens Configuration Engine CheckpointMessages ClaudeApi ClaudeStream ClaudeDocument ClaudeRequest ClaudeHistory.
Local Open Scope Z_scope.

(** ** The rows of the database *)

(** The rows [claude_gateway] and [claude_gateway_token] of [service_settings], as serde_json reads their text: a row that
    the gateway wrote is read as what it wrote. *)
Record Rows : Type := MkRows {
  row_settings : option (result foreign_error ClaudeSettings);
  row_token : option (result foreign_error (list Z))
}.

Section Rows.
(** The model table, and what the statement of an operation answers. *)
Context (model : str → res (option ModelConfig)) (statement : res ()).

(** server/src/store/claude.rs:6-14, [claude_settings]. *)
Definition claude_settings (rows : Rows) : res ClaudeSettings :=
  _ ← statement;
  match row_settings rows with
  | None => Ok default_settings
  | Some (Ok settings) => Ok settings
  | Some (Err e) => Err (Json e)
  end.

(** server/src/store/claude.rs:19-22, [set_claude_settings]: every model named is in the table. *)
Fixpoint known_models (references : list (string * list Z)) : res () :=
  match references with
  | [] => Ok ()
  | (label, id) :: references =>
      found ← model id;
      match found with
      | None => Err (Config (lit "unknown Claude " ++ lit label ++ lit " model: " ++ id))
      | Some _ => known_models references
      end
  end.
(** server/src/store/claude.rs:16-27, [set_claude_settings]. *)
Definition set_claude_settings (settings : ClaudeSettings) (rows : Rows) : res Rows :=
  _ ← validate_settings settings;
  _ ← known_models (model_references settings);
  _ ← statement;
  Ok (MkRows (Some (Ok settings)) (row_token rows)).

(** server/src/store/claude.rs:62-66, [new_claude_token]: two random identifiers, without dashes. *)
Definition new_claude_token (fresh : str * str) : str := lit "haxsd-" ++ fresh.1 ++ fresh.2.
(** server/src/store/claude.rs:36-50, [claude_token]: the token, made when there is none. *)
Definition claude_token (fresh : str * str) (rows : Rows) : res (str * Rows) :=
  _ ← statement;
  match row_token rows with
  | Some (Ok token) => Ok (token, rows)
  | Some (Err e) => Err (Json e)
  | None => let token := new_claude_token fresh in Ok (token, MkRows (row_settings rows) (Some (Ok token)))
  end.
(** server/src/store/claude.rs:53-59, [rotate_claude_token]. *)
Definition rotate_claude_token (fresh : str * str) (rows : Rows) : res (str * Rows) :=
  _ ← statement;
  let token := new_claude_token fresh in Ok (token, MkRows (row_settings rows) (Some (Ok token))).
End Rows.

(** ** The gateway *)

(** server/src/anthropic/gateway.rs:59-64, [Running]; listeners are numbered, [serving] is [alive], which the task of the
    listener clears when it ends. *)
Record Running : Type := MkRunning {
  rn_listener : nat;
  rn_port : Z;
  rn_alive : bool
}.
(** server/src/anthropic/gateway.rs:47-57, [Inner], with the rows of the database.  The listeners that were cancelled cancel
    the calls they admitted. *)
Record Gateway : Type := MkGateway {
  gw_rows : Rows;
  gw_runtime : option Running;
  gw_listeners : nat;
  gw_cancelled : list nat;
  gw_last_error : option (list Z);
  gw_active : Z;
  gw_token : option (list Z)
}.
(** server/src/anthropic/gateway.rs:78-91, [ClaudeGateway::new]. *)
Definition new_gateway (rows : Rows) : Gateway := MkGateway rows None 0 [] None 0 None.

Definition with_rows (rows : Rows) (g : Gateway) : Gateway :=
  MkGateway rows (gw_runtime g) (gw_listeners g) (gw_cancelled g) (gw_last_error g) (gw_active g) (gw_token g).
Definition with_token (token : option (list Z)) (g : Gateway) : Gateway :=
  MkGateway (gw_rows g) (gw_runtime g) (gw_listeners g) (gw_cancelled g) (gw_last_error g) (gw_active g) token.
Definition with_active (active : Z) (g : Gateway) : Gateway :=
  MkGateway (gw_rows g) (gw_runtime g) (gw_listeners g) (gw_cancelled g) (gw_last_error g) active (gw_token g).
(** server/src/anthropic/gateway.rs:106-112, [record_error]. *)
Definition record_error (error : option (list Z)) (g : Gateway) : Gateway :=
  MkGateway (gw_rows g) (gw_runtime g) (gw_listeners g) (gw_cancelled g) error (gw_active g) (gw_token g).
(** [runtime.take()], and the shutdown of the listener that was taken: its task has ended when this returns. *)
Definition take_runtime (g : Gateway) : Gateway :=
  match gw_runtime g with
  | None => g
  | Some r => MkGateway (gw_rows g) None (gw_listeners g) (rn_listener r :: gw_cancelled g) (gw_last_error g) (gw_active g) (gw_token g)
  end.
(** server/src/anthropic/gateway.rs:193-214, [sync_listener]: a listener on a port that was bound. *)
Definition serve (port : Z) (g : Gateway) : Gateway :=
  MkGateway (gw_rows g) (Some (MkRunning (gw_listeners g) port true)) (S (gw_listeners g)) (gw_cancelled g) (gw_last_error g)
    (gw_active g) (gw_token g).

Definition Gw (A : Type) : Type := Gateway → Gateway * res A.
#[global] Instance gw_ret : MRet Gw := λ A a g, (g, Ok a).
#[global] Instance gw_bind : MBind Gw := λ A B k m g,
  match m g with (g, Ok a) => k a g | (g, Err e) => (g, Err e) end.
Definition gw_fail {A} (e : Error) : Gw A := λ g, (g, Err e).
Definition gw_lift {A} (r : res A) : Gw A := λ g, (g, r).
Definition gw_update (f : Gateway → Gateway) : Gw () := λ g, (f g, Ok ()).
Definition gw_get {A} (f : Gateway → A) : Gw A := λ g, (g, Ok (f g)).
(** A query over the rows, and a statement that changes them. *)
Definition gw_query {A} (f : Rows → res A) : Gw A := λ g, (g, f (gw_rows g)).
Definition on_rows {A} (f : Rows → res (A * Rows)) : Gw A := λ g,
  match f (gw_rows g) with Ok (a, rows) => (with_rows rows g, Ok a) | Err e => (g, Err e) end.
Definition write_settings (model : str → res (option ModelConfig)) (statement : res ()) (settings : ClaudeSettings) : Gw () :=
  on_rows (λ rows, rows ← set_claude_settings model statement settings rows; Ok ((), rows)).

Section Operations.
Context (model : str → res (option ModelConfig)).
(** What the operating system answers to a bind, and the statements of an operation, in their order. *)
Context (bind : Z → result foreign_error ()) (statements : nat → res ()).

(** server/src/anthropic/gateway.rs:162-168, [sync_listener]: there is nothing to do. *)
Definition listens_on (port : Z) (g : Gateway) : bool :=
  match gw_runtime g with Some r => (rn_port r =? port) && rn_alive r | None => false end.
(** server/src/anthropic/gateway.rs:160-217, [sync_listener]. *)
Definition sync_listener (settings : ClaudeSettings) : Gw () := λ g,
  if cs_enabled settings && listens_on (cs_port settings) g then (g, Ok ())
  else
    match if cs_enabled settings then bind (cs_port settings) else Ok () with
    | Err e => (record_error (Some (fe_display e)) g, Err (Io e))
    | Ok _ =>
        let g := take_runtime g in
        let g := if cs_enabled settings then serve (cs_port settings) g else g in
        (record_error None g, Ok ())
    end.

(** server/src/anthropic/gateway.rs:114-118, [start]. *)
Definition start : Gw () :=
  settings ← gw_query (claude_settings (statements 0%nat));
  sync_listener settings.

(** server/src/anthropic/gateway.rs:221-227, [listening_port]. *)
Definition listening_port (g : Gateway) : option Z :=
  match gw_runtime g with Some r => if rn_alive r then Some (rn_port r) else None | None => None end.

Definition has_active : Error :=
  Config (lit "Claude has active requests; wait before changing its configuration").
(** server/src/anthropic/gateway.rs:239-243, [save_settings]: the listener of the new settings, or the previous settings. *)
Definition serve_or_restore (settings previous : ClaudeSettings) : Gw ClaudeSettings := λ g,
  match sync_listener settings g with
  | (g, Ok _) => (g, Ok settings)
  | (g, Err error) => (_ ← write_settings model (statements 2%nat) previous; gw_fail error) g
  end.
(** server/src/anthropic/gateway.rs:229-244, [save_settings]: settings that cannot be served are taken back. *)
Definition save_settings (settings : ClaudeSettings) : Gw ClaudeSettings :=
  _ ← gw_lift (validate_settings settings);
  active ← gw_get gw_active;
  if negb (active =? 0) then gw_fail has_active
  else
    previous ← gw_query (claude_settings (statements 0%nat));
    _ ← write_settings model (statements 1%nat) settings;
    serve_or_restore settings previous.

(** server/src/anthropic/gateway.rs:149-158, [rotate_token]. *)
Definition rotate_token (fresh : str * str) : Gw str :=
  token ← on_rows (rotate_claude_token (statements 0%nat) fresh);
  _ ← gw_update (with_token (Some token));
  mret token.
(** server/src/anthropic/gateway.rs:138-146, [reload_token]. *)
Definition reload_token (fresh : str * str) : Gw str :=
  token ← on_rows (claude_token (statements 0%nat) fresh);
  _ ← gw_update (with_token (Some token));
  mret token.
(** server/src/anthropic/gateway.rs:121-132, [token]. *)
Definition cached_token (fresh : str * str) : Gw str :=
  cached ← gw_get gw_token;
  match cached with Some token => mret token | None => reload_token fresh end.

(** server/src/anthropic/gateway.rs:278-289, [shutdown]. *)
Definition shutdown : Gw () := gw_update take_runtime.
(** The task of the listener ends on its own. *)
Definition listener_ends (g : Gateway) : Gateway :=
  match gw_runtime g with
  | None => g
  | Some r => MkGateway (gw_rows g) (Some (MkRunning (rn_listener r) (rn_port r) false)) (gw_listeners g) (gw_cancelled g)
                (gw_last_error g) (gw_active g) (gw_token g)
  end.

(** server/src/anthropic/mod.rs:113-127, [ClaudeStatus]. *)
Record ClaudeStatus : Type := MkStatus {
  st_enabled : bool;
  st_listening : bool;
  st_port : Z;
  st_base_url : list Z;
  st_token : list Z;
  st_models : nat;
  st_default_model_hash : option (list Z);
  st_calls : Z;
  st_last_error : option (list Z)
}.
(** server/src/anthropic/gateway.rs:246-276, [status]; [calls] is what the count of the calls of the gateway answers. *)
Definition status (calls : res Z) (fresh : str * str) : Gw ClaudeStatus :=
  settings ← gw_query (claude_settings (statements 0%nat));
  models ← gw_lift (map_err (λ e, Store (ae_message e)) (catalog model settings));
  listening ← gw_get (listens_on (cs_port settings));
  calls ← gw_lift calls;
  token ← cached_token fresh;
  error ← gw_get gw_last_error;
  mret (MkStatus (cs_enabled settings) listening (cs_port settings) (lit "http://127.0.0.1:" ++ decimal (cs_port settings))
          token (length models) (cs_default settings) (Z.max calls 0) error).
End Operations.

(** ** Who may call *)

(** A name, in lower case, and the bytes of the value. *)
Abbreviation Headers := (list (string * list Z)).
(** [HeaderMap::get] and [HeaderValue::to_str]: the first value of the name, when its bytes are visible ASCII or tabs. *)
Definition header_text (name : string) (headers : Headers) : option str :=
  '(_, (_, value)) ← list_find (λ h, h.1 = name) headers;
  if forallb (λ b, (32 <=? b) && (b <? 127) || (b =? 9)) value then Some value else None.

Section Authorization.
Context {SH : Sha256}.

(** server/src/anthropic/gateway.rs:648-657, [token_matches]. *)
Definition token_matches (candidate expected : str) : bool :=
  foldl (λ difference p, Z.lor difference (Z.lxor p.1 p.2)) 0 (zip (sha256 (as_bytes candidate)) (sha256 (as_bytes expected))) =? 0.
(** server/src/anthropic/gateway.rs:630-635, [authorized]: the tokens a request presents. *)
Definition bearer_token (headers : Headers) : option str :=
  value ← header_text "authorization" headers;
  p ← split_once [32] value;
  if bool_decide (to_ascii_lower <$> p.1 = lit "bearer") then Some (trim p.2) else None.
Definition api_key_token (headers : Headers) : option str := trim <$> header_text "x-api-key" headers.
Definition candidates (headers : Headers) : list str := omap id [bearer_token headers; api_key_token headers].
(** server/src/anthropic/gateway.rs:626-644, [authorized]. *)
Definition authorized (headers : Headers) (expected : str) : bool :=
  match expected with [] => false | _ => existsb (λ c, token_matches c expected) (candidates headers) end.

Context {RQ : Reqwest} (statements : nat → res ()).
Definition api_of {A} (m : Gw A) (g : Gateway) : Gateway * api A := let '(g, r) := m g in (g, map_err from_error r).
Definition refused : ApiError := authentication (lit "invalid Claude gateway token").
(** server/src/anthropic/gateway.rs:298-314, [authorize]. *)
Definition authorize (fresh : (str * str) * (str * str)) (headers : Headers) (g : Gateway) : Gateway * api () :=
  match api_of (cached_token statements fresh.1) g with
  | (g, Err e) => (g, Err e)
  | (g, Ok expected) =>
      if authorized headers expected then (g, Ok ())
      else
        match api_of (reload_token (λ n, statements (S n)) fresh.2) g with
        | (g, Err e) => (g, Err e)
        | (g, Ok expected) => if authorized headers expected then (g, Ok ()) else (g, Err refused)
        end
  end.
End Authorization.

(** ** The handlers *)

(** What is received of a body within [MAX_REQUEST_BODY_TIMEOUT]. *)
Inductive Body : Type :=
  | Received (bytes : list Z)
  | TooLarge
  | TimedOut.
(** server/src/anthropic/gateway.rs:39-39, [MAX_REQUEST_BODY]. *)
Definition MAX_REQUEST_BODY : Z := 24 * 1024 * 1024.

(** What a handler answers: an error, a document, or the events of a stream and the error it ended with.  A request whose
    assembler panics is dropped. *)
Inductive Answer : Type :=
  | Failure (error : ApiError)
  | Json200 (document : json)
  | Sse200 (events : list json) (ended : option (option Error))
  | Dropped.

Section Handlers.
Context {SH : Sha256} {SS : SerdeSlice} {SN : SerdeNumber} {SJ : SerdeJson} {U : UrlParser} {B : ClaudeRequest.Base64Decode}
  {H : ImageHttp} {C : ImageClient} {RQ : Reqwest} {CH : Chrono}.
Context (model : str → res (option ModelConfig)) (statements : nat → res ()).

(** server/src/anthropic/gateway.rs:595-624, [read_body]. *)
Definition read_body (body : Body) : api json :=
  match body with
  | TooLarge => Err (MkApi 413 "request_too_large" (lit "request body exceeds " ++ decimal MAX_REQUEST_BODY ++ lit " bytes") false None)
  | TimedOut => Err (MkApi 408 "api_error" (lit "request body was not received in time") true None)
  | Received bytes => map_err (λ e, invalid (lit "request body is not valid JSON: " ++ fe_display e)) (from_slice bytes)
  end.

(** The settings of a gateway that is enabled. *)
Definition disabled : ApiError := unavailable (lit "Claude gateway is disabled").
Definition enabled_settings (statement : res ()) (rows : Rows) : api ClaudeSettings :=
  settings ← map_err from_error (claude_settings statement rows);
  if cs_enabled settings then Ok settings else Err disabled.

(** A request that was read: the call it makes, and who cancels it. *)
Definition admit_request (uuid : str) (body : Body) (rows : Rows) : api PreparedRequest :=
  v ← read_body body;
  settings ← enabled_settings (statements 2%nat) rows;
  prepare model uuid settings v.

(** server/src/anthropic/gateway.rs:368-461, [streamed], [collected]: the answer to a call whose provider gives [inputs],
    and the error that is recorded; [None] while it is not over. *)
Definition answer_call (p : PreparedRequest) (message_id : str) (inputs : list upstream) : option (Answer * option Error) :=
  let request := iv_request (pr_invocation p) in
  let s := new_translator message_id (pr_requested_model p) (stop_sequences (rq_model request))
             (estimate_context_tokens (rq_prompt request) (rq_history request)) in
  if pr_stream p then
    match streamed s inputs with
    | None => None
    | Some (Refused error recorded) => Some (Failure error, Some recorded)
    | Some (Events out ended) => Some (Sse200 out ended, default None ended)
    end
  else
    match collected s inputs with
    | None => None
    | Some (Document message) => Some (Json200 message, None)
    | Some (Failed error recorded) => Some (Failure error, recorded)
    | Some Crashed => Some (Dropped, None)
    end.

(** A request on its way: its call, which the listener that admitted it may cancel. *)
Record Admission : Type := MkAdmission {
  ad_request : PreparedRequest;
  ad_listener : option nat
}.
(** server/src/anthropic/gateway.rs:316-365, [messages_handler]: up to the call of the provider. *)
Definition messages_begin (uuid : str) (fresh : (str * str) * (str * str)) (headers : Headers) (body : Body) (g : Gateway) :
    Gateway * result Answer Admission :=
  match authorize statements fresh headers g with
  | (g, Err e) => (g, Err (Failure e))
  | (g, Ok _) =>
      let entered := with_active (gw_active g + 1) g in
      match admit_request uuid body (gw_rows entered) with
      | Err e => (with_active (gw_active entered - 1) entered, Err (Failure e))
      | Ok p => (entered, Ok (MkAdmission p (rn_listener <$> gw_runtime entered)))
      end
  end.
(** server/src/anthropic/gateway.rs:72-74, [ActiveRequest::drop], behind the end of the answer or the disconnection of the
    client ([None]). *)
Definition messages_end (answer : option (Answer * option Error)) (g : Gateway) : Gateway :=
  let g := match answer with Some (_, Some error) => record_error (Some (error_display error)) g | _ => g end in
  with_active (gw_active g - 1) g.
(** server/src/anthropic/gateway.rs:544-579, [count_tokens_handler]. *)
Definition count_tokens_handler (uuid : str) (fresh : (str * str) * (str * str)) (headers : Headers) (body : Body) (g : Gateway) :
    Gateway * Answer :=
  match authorize statements fresh headers g with
  | (g, Err e) => (g, Failure e)
  | (g, Ok _) =>
      (g, match (v ← read_body body; settings ← enabled_settings (statements 2%nat) (gw_rows g); count_tokens model uuid settings v) with
          | Ok tokens => Json200 (object [("input_tokens", number tokens); ("estimated", JBool true)]%string)
          | Err e => Failure e
          end)
  end.
(** server/src/anthropic/gateway.rs:581-593, [models_handler]: it answers a gateway that is disabled, too. *)
Definition models_handler (fresh : (str * str) * (str * str)) (headers : Headers) (g : Gateway) : Gateway * Answer :=
  match authorize statements fresh headers g with
  | (g, Err e) => (g, Failure e)
  | (g, Ok _) =>
      (g, match (settings ← map_err from_error (claude_settings (statements 2%nat) (gw_rows g)); catalog model settings) with
          | Ok models => Json200 (catalog_json models)
          | Err e => Failure e
          end)
  end.
End Handlers.

(** ** Saving the settings *)

(** What the gateway does is what the settings say. *)
Definition in_service (settings : ClaudeSettings) (g : Gateway) : Prop :=
  if cs_enabled settings then listens_on (cs_port settings) g = true else gw_runtime g = None.
(** The settings that can be written: valid, and their models are in the table. *)
Definition writable (model : str → res (option ModelConfig)) (settings : ClaudeSettings) : Prop :=
  validate_settings settings = Ok () ∧ known_models model (model_references settings) = Ok ().

Lemma bind_gw {A B} (m : Gw A) (k : A → Gw B) g g' r : (m ≫= k) g = (g', r) →
  (∃ a g1, m g = (g1, Ok a) ∧ k a g1 = (g', r)) ∨ ∃ e, m g = (g', Err e) ∧ r = Err e.
Proof. unfold mbind, gw_bind. destruct (m g) as [g1 [a|e]]; intros H; [left; eauto|right; injection H as <- <-; eauto]. Qed.

Section Saving.
Context (model : str → res (option ModelConfig)) (bind : Z → result foreign_error ()) (statements : nat → res ()).

Lemma write_settings_spec statement settings g : write_settings model statement settings g =
  match set_claude_settings model statement settings (gw_rows g) with
  | Ok rows => (with_rows rows g, Ok ())
  | Err e => (g, Err e)
  end.
Proof. unfold write_settings, on_rows. by destruct (set_claude_settings _ _ _ _). Qed.
Lemma set_claude_settings_ok statement settings rows rows' : set_claude_settings model statement settings rows = Ok rows' ↔
  writable model settings ∧ statement = Ok () ∧ rows' = MkRows (Some (Ok settings)) (row_token rows).
Proof.
  unfold set_claude_settings, writable. destruct (validate_settings settings) as [[]|]; cbn; [|naive_solver].
  destruct (known_models model _) as [[]|]; cbn; [|naive_solver]. destruct statement as [[]|]; cbn; naive_solver.
Qed.
(** A listener that could not be bound changes nothing but the error that is shown. *)
Lemma sync_listener_spec settings g g' r : sync_listener bind settings g = (g', r) →
  gw_rows g' = gw_rows g ∧ gw_active g' = gw_active g ∧ gw_token g' = gw_token g ∧
  match r with
  | Ok _ => in_service settings g'
  | Err e => (∃ f, e = Io f ∧ bind (cs_port settings) = Err f ∧ g' = record_error (Some (fe_display f)) g) ∧ cs_enabled settings = true
  end.
Proof.
  unfold sync_listener, in_service. destruct (cs_enabled settings) eqn:En; cbn [andb].
  - destruct (listens_on (cs_port settings) g) eqn:L; [by intros [= <- <-]|].
    destruct (bind (cs_port settings)) as [u|f]; [|intros [= <- <-]; eauto 10].
    intros [= <- <-]. unfold take_runtime. destruct (gw_runtime g); cbn; split_and!; try done; unfold listens_on; cbn; by rewrite Z.eqb_refl.
  - intros [= <- <-]. unfold take_runtime. destruct (gw_runtime g) eqn:Er; cbn; split_and!; done.
Qed.

(** The settings that are stored, when they can be read. *)
Definition stored (g : Gateway) : res ClaudeSettings := claude_settings (Ok ()) (gw_rows g).
Lemma stored_written g settings error : stored (with_rows (MkRows (Some (Ok settings)) (row_token (gw_rows g))) (record_error error g)) = Ok settings.
Proof. done. Qed.
Lemma stored_read statement g settings : claude_settings statement (gw_rows g) = Ok settings → stored g = Ok settings.
Proof. unfold stored, claude_settings. destruct statement as [[]|]; [done|discriminate]. Qed.
Lemma serve_or_restore_spec settings previous g g' r : serve_or_restore model bind statements settings previous g = (g', r) →
  match r with
  | Ok saved => saved = settings ∧ gw_rows g' = gw_rows g ∧ in_service settings g'
  | Err _ =>
      gw_runtime g' = gw_runtime g ∧ gw_cancelled g' = gw_cancelled g ∧ row_token (gw_rows g') = row_token (gw_rows g) ∧ gw_active g' = gw_active g ∧
      (writable model previous ∧ statements 2%nat = Ok () → stored g' = Ok previous) ∧
      (stored g' = Ok previous ∨ gw_rows g' = gw_rows g)
  end.
Proof.
  unfold serve_or_restore. destruct (sync_listener bind settings g) as [g1 r1] eqn:Es. apply sync_listener_spec in Es as (Hr & Ha & _ & Hs).
  destruct r1 as [u|e1]; [by intros [= <- <-]|]. destruct Hs as [(f & -> & _ & ->) _].
  intros H. apply bind_gw in H as [(a & g2 & Hw & [= <- <-])|(e & Hw & ->)]; rewrite write_settings_spec in Hw; cbn [gw_rows record_error] in Hw;
    destruct (set_claude_settings model (statements 2%nat) previous (gw_rows g)) as [rows|e2] eqn:Ew; try discriminate.
  - apply set_claude_settings_ok in Ew as (_ & _ & ->). injection Hw as <- _. split_and!; try done. by left.
  - injection Hw as <- _. split_and!; try done; [|by right]. intros [Hwr Hst].
    pose proof (proj2 (set_claude_settings_ok (statements 2%nat) previous (gw_rows g) _) (conj Hwr (conj Hst eq_refl))) as E. by rewrite E in Ew.
Qed.

(** C16: Saving settings is a transaction over the database and the listener.  When it returns the settings, they are
    stored and the gateway serves them: it listens on their port when they enable it and on none when they do not; and no
    request was active.  When it fails, the listener is the one of before, nothing was cancelled and the token is the same;
    and the settings read are those of before, provided that those could be written again - they are valid and their
    models exist - and that the statement writing them succeeds. *)
Theorem save_settings_atomic settings g g' r : save_settings model bind statements settings g = (g', r) →
  match r with
  | Ok saved => saved = settings ∧ stored g' = Ok settings ∧ in_service settings g' ∧ gw_active g = 0
  | Err _ =>
      gw_runtime g' = gw_runtime g ∧ gw_cancelled g' = gw_cancelled g ∧ row_token (gw_rows g') = row_token (gw_rows g) ∧
      (∀ previous, stored g = Ok previous → writable model previous → statements 2%nat = Ok () → stored g' = Ok previous)
  end.
Proof.
  unfold save_settings. intros H. apply bind_gw in H as [(u & g1 & [= <- _] & H)|(e & [= <- _] & ->)]; [|by eauto].
  unfold mbind at 1, gw_bind at 1, gw_get in H. destruct (Z.eqb_spec (gw_active g) 0) as [Ha|]; cbn [negb] in H; [|injection H as <- <-; by eauto].
  apply bind_gw in H as [(previous & g1 & [= <- Hp] & H)|(e & [= <- _] & ->)]; [|by eauto]. apply stored_read in Hp.
  apply bind_gw in H as [(w & g1 & Hw & H)|(e & Hw & ->)]; rewrite write_settings_spec in Hw;
    destruct (set_claude_settings model (statements 1%nat) settings (gw_rows g)) as [rows|e1] eqn:Ew; try discriminate; injection Hw as <- Hw; [|by eauto].
  apply set_claude_settings_ok in Ew as (_ & _ & ->). apply serve_or_restore_spec in H. destruct r as [saved|e].
  - destruct H as (-> & Hrows & Hs). split_and!; try done. unfold stored. by rewrite Hrows.
  - destruct H as (H1 & H2 & H3 & _ & H5 & _). split_and!; try done. rewrite Hp. intros p [= <-] ? ?. by apply H5.
Qed.
End Saving.

(** ** Who is let in *)

(** A token the gateway may let in with: the one it remembers or the one that is stored. *)
Definition honoured (g : Gateway) (token : str) : Prop := gw_token g = Some token ∨ row_token (gw_rows g) = Some (Ok token).

Section Admitting.
Context {SH : Sha256} {RQ : Reqwest}.

Lemma reload_token_ok statements fresh g g' token : reload_token statements fresh g = (g', Ok token) →
  row_token (gw_rows g') = Some (Ok token) ∧ gw_token g' = Some token ∧ gw_active g' = gw_active g ∧ gw_runtime g' = gw_runtime g ∧
  row_settings (gw_rows g') = row_settings (gw_rows g) ∧
  (row_token (gw_rows g) = None ∧ token = new_claude_token fresh ∨ row_token (gw_rows g) = Some (Ok token)).
Proof.
  unfold reload_token. intros H. apply bind_gw in H as [(t & g1 & Ht & H)|(e & _ & [=])].
  apply bind_gw in H as [(u & g2 & [= <- _] & H)|(e & [=] & _)]. injection H as <- <-.
  unfold on_rows, claude_token in Ht. destruct (statements 0%nat); [|discriminate]. cbn [mbind result_bind] in Ht.
  destruct (row_token (gw_rows g)) as [[t'|e]|] eqn:Er; try discriminate; injection Ht as <- <-; cbn; rewrite ?Er; eauto 10.
Qed.
Lemma reload_token_err statements fresh g g' e : reload_token statements fresh g = (g', Err e) → g' = g.
Proof.
  unfold reload_token. intros H. apply bind_gw in H as [(t & g1 & Ht & H)|(e' & Ht & _)].
  { apply bind_gw in H as [(u & g2 & _ & [=])|(e' & [=] & _)]. }
  unfold on_rows in Ht. by destruct (claude_token _ _ _) as [[]|]; injection Ht as <-.
Qed.

(** What authorizing leaves as it was. *)
Definition untouched (g g' : Gateway) : Prop :=
  gw_active g' = gw_active g ∧ gw_runtime g' = gw_runtime g ∧ row_settings (gw_rows g') = row_settings (gw_rows g) ∧
  ∀ token, row_token (gw_rows g) = Some (Ok token) → row_token (gw_rows g') = Some (Ok token).
Lemma untouched_refl g : untouched g g.
Proof. by split_and!. Qed.
Lemma untouched_trans g1 g2 g3 : untouched g1 g2 → untouched g2 g3 → untouched g1 g3.
Proof. intros (A1 & B1 & C1 & D1) (A2 & B2 & C2 & D2). unfold untouched. rewrite A2, B2, C2. split_and!; eauto. Qed.
Lemma reload_untouched statements fresh g g' r : reload_token statements fresh g = (g', r) → untouched g g'.
Proof.
  destruct r as [token|e]; [|intros ->%reload_token_err; apply untouched_refl].
  intros (Hr & _ & Ha & Hg & Hs & Hor)%reload_token_ok. split_and!; try done. intros t Ht. destruct Hor as [[? _]|?]; congruence.
Qed.
Lemma cached_token_spec statements fresh g g' r : cached_token statements fresh g = (g', r) →
  untouched g g' ∧ match r with Ok token => honoured g' token ∧ (gw_token g = Some token ∨ gw_token g = None) | Err _ => gw_token g = None end.
Proof.
  unfold cached_token, mbind, gw_bind, gw_get. destruct (gw_token g) as [t|] eqn:Et.
  - intros [= <- <-]. split; [apply untouched_refl|]. split; [by left|by left].
  - intros H. split; [by eapply reload_untouched|]. destruct r as [token|e]; [|done]. apply reload_token_ok in H as (Hr & _). split; [by right|by right].
Qed.

(** A request that is let in presents a token the gateway honours, and one that presents the stored token is let in,
    whatever token the gateway remembers. *)
Lemma authorize_sound statements fresh headers g g' r : authorize statements fresh headers g = (g', r) →
  untouched g g' ∧ match r with Ok _ => ∃ token, honoured g' token ∧ authorized headers token = true | Err _ => True end.
Proof.
  unfold authorize, api_of. destruct (cached_token statements fresh.1 g) as [g1 [t|e]] eqn:Ec; cbn [map_err];
    apply cached_token_spec in Ec as [Hu Hc]; [|by intros [= <- <-]].
  destruct (authorized headers t) eqn:Ea; [intros [= <- <-]; naive_solver|].
  destruct (reload_token _ fresh.2 g1) as [g2 [t2|e]] eqn:Er; cbn [map_err]; pose proof (reload_untouched _ _ _ _ _ Er) as Hu2;
    pose proof (untouched_trans _ _ _ Hu Hu2) as Hu3; [|by intros [= <- <-]].
  apply reload_token_ok in Er as (Hr & _). destruct (authorized headers t2) eqn:Ea2; intros [= <- <-]; [|done].
  split; [done|]. exists t2. split; [by right|done].
Qed.
Lemma authorize_complete statements fresh headers g token : (∀ n, statements n = Ok ()) → row_token (gw_rows g) = Some (Ok token) →
  authorized headers token = true → (authorize statements fresh headers g).2 = Ok ().
Proof.
  intros Hst Hrow Ha. assert (∀ s f g1, (∀ n, s n = Ok ()) → row_token (gw_rows g1) = Some (Ok token) → ∃ g2, reload_token s f g1 = (g2, Ok token)) as Hre.
  { intros s f g1 Hs Hr. unfold reload_token, mbind, gw_bind, on_rows, claude_token. rewrite Hs. cbn [mbind result_bind]. rewrite Hr. by eexists. }
  unfold authorize, api_of. destruct (cached_token statements fresh.1 g) as [g1 [t|e]] eqn:Ec.
  2:{ unfold cached_token, mbind, gw_bind, gw_get in Ec. destruct (gw_token g); [discriminate|].
      destruct (Hre statements fresh.1 g Hst Hrow) as [g2 E]. rewrite E in Ec. discriminate. }
  cbn [map_err]. destruct (authorized headers t); [done|]. apply cached_token_spec in Ec as [(_ & _ & _ & Hr1) _].
  destruct (Hre (λ n, statements (S n)) fresh.2 g1 (λ n, Hst (S n)) (Hr1 _ Hrow)) as [g2 ->]. cbn [map_err]. by rewrite Ha.
Qed.
End Admitting.

Section Handled.
Context {SH : Sha256} {SS : SerdeSlice} {SN : SerdeNumber} {SJ : SerdeJson} {U : UrlParser} {B : ClaudeRequest.Base64Decode}
  {H : ImageHttp} {C : ImageClient} {RQ : Reqwest} {CH : Chrono}.

Lemma enabled_settings_ok statement rows settings : enabled_settings statement rows = Ok settings →
  claude_settings statement rows = Ok settings ∧ cs_enabled settings = true.
Proof.
  unfold enabled_settings. intros E. invert_ok E as s Hs. destruct (cs_enabled s) eqn:En; [|discriminate]. by apply ok_equal in E as <-.
Qed.

(** C18: A provider is called only for a client that is let in, with a gateway that is enabled.  When the handler of
    [/v1/messages] gets to a call, the request presented a token that the gateway honours, the stored settings enable the
    gateway, and the call is the one [prepare] makes of the body; the request counts as active until it is over, and then
    the number of active requests is the one of before.  In every other case the client is answered with an error and the
    number is unchanged.  The stored settings and the listener are never touched. *)
Theorem handler_admission model statements uuid fresh headers body g g' r :
  messages_begin model statements uuid fresh headers body g = (g', r) →
  row_settings (gw_rows g') = row_settings (gw_rows g) ∧ gw_runtime g' = gw_runtime g ∧
  match r with
  | Ok a =>
      (∃ token, honoured g' token ∧ authorized headers token = true) ∧
      (∃ settings v, stored g = Ok settings ∧ cs_enabled settings = true ∧ read_body body = Ok v ∧
         prepare model uuid settings v = Ok (ad_request a)) ∧
      ad_listener a = rn_listener <$> gw_runtime g ∧
      gw_active g' = gw_active g + 1 ∧ ∀ answer, gw_active (messages_end answer g') = gw_active g
  | Err answer => (∃ e, answer = Failure e) ∧ gw_active g' = gw_active g
  end.
Proof.
  unfold messages_begin. destruct (authorize statements fresh headers g) as [g1 [u|e]] eqn:Ea; apply authorize_sound in Ea as [(Hact & Hrun & Hset & _) Ht].
  2:{ intros [= <- <-]. split_and!; eauto. }
  destruct (admit_request model statements uuid body _) as [p|e] eqn:Ep; intros [= <- <-]; cbn [gw_rows gw_runtime gw_active with_active].
  2:{ split_and!; [done..|by eexists|lia]. }
  unfold admit_request in Ep. invert_ok Ep as v Hv. invert_ok Ep as settings Hs. apply enabled_settings_ok in Hs as [Hs En].
  split_and!; [done..|exact Ht| |by rewrite Hrun|lia|].
  - exists settings, v. split_and!; try done. apply stored_read in Hs. rewrite <- Hs. unfold stored, claude_settings. cbn. by rewrite Hset.
  - intros [[answer [error|]]|]; cbn; lia.
Qed.
End Handled.

(** ** Rotating the token *)

(** Reading the token again is a query and then an assignment, and so is its rotation; the tasks of other requests run
    between the two.  The mutex admits one rotation at a time.  A world is the gateway, the tokens that were read and not
    yet remembered, and the token that was written and not yet remembered. *)
Record Rotating : Type := MkRotating {
  ro_gateway : Gateway;
  ro_read : list (list Z);
  ro_written : option (list Z)
}.
Section Rotation.
(** The random identifiers that are drawn. *)
Context (drawn : str * str → Prop).

Inductive token_step : Rotating → Rotating → Prop :=
  | ReadToken fresh g reads written token rows : drawn fresh → claude_token (Ok ()) fresh (gw_rows g) = Ok (token, rows) →
      token_step (MkRotating g reads written) (MkRotating (with_rows rows g) (token :: reads) written)
  | RememberRead g reads1 token reads2 written :
      token_step (MkRotating g (reads1 ++ token :: reads2) written) (MkRotating (with_token (Some token) g) (reads1 ++ reads2) written)
  | WriteToken fresh g reads token rows : drawn fresh → rotate_claude_token (Ok ()) fresh (gw_rows g) = Ok (token, rows) →
      token_step (MkRotating g reads None) (MkRotating (with_rows rows g) reads (Some token))
  | RememberWritten g reads token :
      token_step (MkRotating g reads (Some token)) (MkRotating (with_token (Some token) g) reads None).

(** The two operations are two steps each, when nothing comes between them. *)
Lemma reload_token_steps fresh g g' token reads : drawn fresh → reload_token (λ _, Ok ()) fresh g = (g', Ok token) →
  rtc token_step (MkRotating g reads None) (MkRotating g' reads None).
Proof.
  unfold reload_token. intros Hd H. apply bind_gw in H as [(t & g1 & Ht & H)|(e & _ & [=])]. injection H as <- <-.
  unfold on_rows in Ht. destruct (claude_token _ fresh (gw_rows g)) as [[t' rows]|] eqn:E; [|discriminate]. injection Ht as <- <-.
  eapply rtc_l; [by eapply ReadToken|]. eapply rtc_l; [apply (RememberRead _ [])|]. apply rtc_refl.
Qed.
Lemma rotate_token_steps fresh g g' token reads : drawn fresh → rotate_token (λ _, Ok ()) fresh g = (g', Ok token) →
  rtc token_step (MkRotating g reads None) (MkRotating g' reads None).
Proof.
  unfold rotate_token. intros Hd H. apply bind_gw in H as [(t & g1 & Ht & H)|(e & _ & [=])]. injection H as <- <-.
  unfold on_rows in Ht. destruct (rotate_claude_token _ fresh (gw_rows g)) as [[t' rows]|] eqn:E; [|discriminate]. injection Ht as <- <-.
  eapply rtc_l; [by eapply WriteToken|]. eapply rtc_l; [apply RememberWritten|]. apply rtc_refl.
Qed.

(** Nobody can be let in with a token any more: it is neither honoured nor on its way to be. *)
Definition revoked (old : str) (w : Rotating) : Prop :=
  ¬ honoured (ro_gateway w) old ∧ old ∉ ro_read w ∧ ro_written w ≠ Some old.
(** The tokens that are made later are others. *)
Definition never_again (old : str) : Prop := ∀ fresh, drawn fresh → new_claude_token fresh ≠ old.
Lemma revoked_step old w w' : never_again old → token_step w w' → revoked old w → revoked old w'.
Proof.
  intros Hn Hs (Hh & Hr & Hw). destruct Hs as [fresh g reads written token rows Hd E|g reads1 token reads2 written|fresh g reads token rows Hd E|g reads token];
    unfold revoked, honoured in *; cbn [ro_gateway ro_read ro_written gw_token gw_rows with_rows with_token] in *.
  - unfold claude_token in E. cbn [mbind result_bind] in E.
    destruct (row_token (gw_rows g)) as [[t|e]|] eqn:Er; try discriminate; injection E as <- <-; rewrite ?Er; cbn [row_token];
      specialize (Hn fresh Hd); (split_and!; [naive_solver| |done]); apply not_elem_of_cons; naive_solver.
  - rewrite elem_of_app, elem_of_cons in Hr. rewrite elem_of_app. naive_solver.
  - unfold rotate_claude_token in E. cbn [mbind result_bind] in E. injection E as <- <-. cbn [row_token]. specialize (Hn fresh Hd). naive_solver.
  - naive_solver.
Qed.

(** C17: Once a token was rotated away, nobody is let in with it again.  After a rotation that no reading of the old token
    overlaps, whatever readings and rotations follow and however they interleave, the old token is neither the one the
    gateway remembers nor the one that is stored, so that no request presenting it is authorized. *)
Theorem rotation_revokes fresh old reads g g' token w :
  never_again old → drawn fresh → old ∉ reads → rotate_token (λ _, Ok ()) fresh g = (g', Ok token) →
  rtc token_step (MkRotating g' reads None) w → ¬ honoured (ro_gateway w) old.
Proof.
  intros Hn Hd Hr E Hs. assert (revoked old w) as [H _]; [|exact H].
  assert (revoked old (MkRotating g' reads None)) as H0.
  { unfold rotate_token in E. apply bind_gw in E as [(t & g1 & Ht & E)|(e & _ & [=])]. injection E as <- <-.
    unfold on_rows, rotate_claude_token in Ht. cbn [mbind result_bind] in Ht. injection Ht as <- <-. specialize (Hn fresh Hd).
    split_and!; [|done..]. intros [H|H]; injection H as H; by apply Hn. }
  clear E. remember (MkRotating g' reads None) as w0. clear Heqw0. induction Hs as [|w0 w1 w2 Hs1 _ IH]; [done|].
  apply IH. by eapply revoked_step.
Qed.
End Rotation.

(** ** Samples *)

Module GatewaySamples.
Definition sha : Sha256 := {| sha256 d := take 32 (d ++ replicate 32 0) |}.
Definition no_timeout : Reqwest := {| is_timeout _ := false |}.
(** A port of another program. *)
Definition in_use : foreign_error := ForeignError (lit "Address already in use") [].
Definition ports (port : Z) : result foreign_error () := if port =? 1 then Err in_use else Ok ().
Definition all_well (n : nat) : res () := Ok ().
Definition on (port : Z) (m : string) : ClaudeSettings := MkSettings true port (Some (lit m)) None None None.
Definition old : str := lit "haxsd-old".
Definition initial : Gateway := new_gateway (MkRows (Some (Ok (on 43121 "ab12"))) (Some (Ok old))).
(** The gateway, listening. *)
Definition listening : Gateway := (start ports all_well initial).1.
(** Its default model was deleted since. *)
Definition deleted (id : str) : res (option ModelConfig) := if decide (id = lit "ab12") then Ok None else CatalogSample.table id.
Definition bearer (t : str) : Headers := [("authorization"%string, lit "Bearer " ++ t)].
Definition rotated : Gateway := (rotate_token all_well (lit "1", lit "2") listening).1.
End GatewaySamples.

Lemma save_settings_atomic_witness : ∃ g',
  save_settings CatalogSample.table GatewaySamples.ports GatewaySamples.all_well (GatewaySamples.on 1 "cd34") GatewaySamples.listening =
    (g', Err (Io GatewaySamples.in_use)) ∧
  stored g' = Ok (GatewaySamples.on 43121 "ab12") ∧ listening_port g' = Some 43121.
Proof.
  eexists. split; [vm_compute; reflexivity|]. split; [|vm_compute; reflexivity].
  refine (proj2 (proj2 (proj2 (save_settings_atomic CatalogSample.table GatewaySamples.ports GatewaySamples.all_well (GatewaySamples.on 1 "cd34")
    GatewaySamples.listening _ (Err (Io GatewaySamples.in_use)) ltac:(vm_compute; reflexivity)))) _ ltac:(vm_compute; reflexivity) _ ltac:(reflexivity)).
  split; vm_compute; reflexivity.
Defined.

(** The previous settings are written through the checks of new ones: when a model they name was deleted since, settings
    that could not be served stay stored, and the listener is still the one of the settings before. *)
Lemma rollback_refused : ∃ g' message,
  save_settings GatewaySamples.deleted GatewaySamples.ports GatewaySamples.all_well (GatewaySamples.on 1 "cd34") GatewaySamples.listening =
    (g', Err (Config message)) ∧
  stored g' = Ok (GatewaySamples.on 1 "cd34") ∧ listening_port g' = Some 43121.
Proof. eexists _, _. split_and!; vm_compute; reflexivity. Qed.

Lemma rotation_revokes_witness : ∃ g' token,
  rotate_token GatewaySamples.all_well (lit "1", lit "2") GatewaySamples.listening = (g', Ok token) ∧
  authorized (SH := GatewaySamples.sha) (GatewaySamples.bearer GatewaySamples.old) GatewaySamples.old = true ∧
  ¬ honoured g' GatewaySamples.old.
Proof.
  eexists _, _. split; [vm_compute; reflexivity|]. split; [vm_compute; reflexivity|].
  refine (rotation_revokes (λ f, f = (lit "1", lit "2")) (lit "1", lit "2") GatewaySamples.old [] GatewaySamples.listening _ _ (MkRotating _ [] None)
    _ eq_refl (not_elem_of_nil _) ltac:(vm_compute; reflexivity) (rtc_refl _ _)).
  intros fresh ->. vm_compute. discriminate.
Defined.

(** A reading that began before a rotation and ends behind it brings the old token back: the gateway remembers it and lets
    a request in that presents it, until something reads the stored token again. *)
Lemma stale_reload : ∃ w,
  rtc (token_step (λ f, f = (lit "1", lit "2"))) (MkRotating GatewaySamples.listening [] None) w ∧
  row_token (gw_rows (ro_gateway w)) = Some (Ok (lit "haxsd-12")) ∧ ro_read w = [] ∧ ro_written w = None ∧
  (authorize (SH := GatewaySamples.sha) (RQ := GatewaySamples.no_timeout) GatewaySamples.all_well ((lit "3", lit "4"), (lit "5", lit "6"))
     (GatewaySamples.bearer GatewaySamples.old) (ro_gateway w)).2 = Ok ().
Proof.
  eexists. split.
  { eapply rtc_l; [eapply (ReadToken _ (lit "1", lit "2")); [reflexivity|vm_compute; reflexivity]|].
    eapply rtc_l; [eapply (WriteToken _ (lit "1", lit "2")); [reflexivity|vm_compute; reflexivity]|].
    eapply rtc_l; [eapply RememberWritten|]. eapply rtc_l; [eapply (RememberRead _ _ [])|]. apply rtc_refl. }
  split_and!; vm_compute; reflexivity.
Qed.

(** A request with the stored token. *)
Module AdmissionSample.
Definition body : json :=
  object [("model", text "claude"); ("max_tokens", number 10);
          ("messages", JArray [HistorySamples.message "user" (text "hi")])]%string.
Definition slices : SerdeSlice := {| from_slice _ := Ok body; replay_of_json _ := Err (ForeignError [] []) |}.
Definition begin : Gateway * result Answer Admission :=
  @messages_begin GatewaySamples.sha slices ClaudeSamples.numbers HistorySamples.urls HistorySamples.base64 HistorySamples.offline
    HistorySamples.client GatewaySamples.no_timeout CatalogSample.table GatewaySamples.all_well (lit "u")
    ((lit "3", lit "4"), (lit "5", lit "6")) (GatewaySamples.bearer (lit "haxsd-12")) (Received []) GatewaySamples.rotated.
End AdmissionSample.

Lemma handler_admission_witness : ∃ g' a, AdmissionSample.begin = (g', Ok a) ∧ gw_active g' = 1 ∧ pr_requested_model (ad_request a) = lit "claude" ∧
  ∀ answer, gw_active (messages_end answer g') = 0.
Proof.
  eexists _, _. split; [vm_compute; reflexivity|]. split; [vm_compute; reflexivity|]. split; [vm_compute; reflexivity|].
  refine (proj2 (proj2 (proj2 (proj2 (proj2 (proj2 (@handler_admission GatewaySamples.sha AdmissionSample.slices ClaudeSamples.numbers HistorySamples.urls
    HistorySamples.base64 HistorySamples.offline HistorySamples.client GatewaySamples.no_timeout CatalogSample.table GatewaySamples.all_well (lit "u")
    ((lit "3", lit "4"), (lit "5", lit "6")) (GatewaySamples.bearer (lit "haxsd-12")) (Received []) GatewaySamples.rotated _ (Ok _)
    ltac:(vm_compute; reflexivity)))))))).
Defined.
