(* ===== verification/DevinSettings.v ===== *)
(** * DevinSettings: the bindings of Devin's models, and the cache of their settings

    server/src/devin/mod.rs: [normalized] and [validate] of the settings, and which binding serves a model.  The gateway
    reads the settings for every request; server/src/store/settings.rs keeps them parsed, under a version that every save
    increments.  Requests and saves run at the same time: [cache_step] is one step of one of them.

    [cache_never_stale]: a read gives settings that are at least as new as every save that was done when it began.
    [bindings_reached]: of settings that were saved, every enabled binding is the one its model reaches. *)

From stdpp Require Import prelude gmap strings list.
From S2P Require Import Prelude Errors External Configuration.
Local Open Scope Z_scope.

(** ** Bindings *)

(** server/src/devin/mod.rs:58-62, [DevinBindingKind]. *)
Inductive DevinBindingKind : Type := Standard | ContextCompression.
Global Instance DevinBindingKind_eq_dec : EqDecision DevinBindingKind.
Proof. solve_decision. Defined.
(** server/src/devin/mod.rs:65-74, [DevinRoute]. *)
Record DevinRoute : Type := MkRoute {
  dr_route_id : str;
  dr_model_hash : str;
  dr_label : str;
  dr_enabled : bool
}.
(** server/src/devin/mod.rs:88-103, [DevinModelBinding]. *)
Record DevinModelBinding : Type := MkBinding {
  db_model_uid : str;
  db_model_hash : str;
  db_display_name : str;
  db_context_window_tokens : option Z;
  db_enabled : bool;
  db_kind : DevinBindingKind;
  db_routes : list DevinRoute;
  db_active_route_id : option str
}.
Definition is_blank (s : str) : bool := bool_decide (trim s = []).
(** server/src/devin/mod.rs:119-131, [effective_model_hash]. *)
Definition effective_model_hash (b : DevinModelBinding) : str :=
  match active ← db_active_route_id b;
        snd <$> list_find (λ r, dr_enabled r = true ∧ is_blank (dr_model_hash r) = false ∧ dr_route_id r = active) (db_routes b) with
  | Some route => trim (dr_model_hash route)
  | None => trim (db_model_hash b)
  end.

(** server/src/devin/mod.rs:19-39, [DevinSettings]. *)
Record DevinSettings : Type := MkSettings {
  ds_enabled : bool;
  ds_auth_token : str;
  ds_api_port : Z;
  ds_inference_port : Z;
  ds_local_api_port : Z;
  ds_upstream_api_url : str;
  ds_bindings : list DevinModelBinding;
  ds_default_model_uid : option str
}.
(** server/src/devin/mod.rs:9-9, [DEFAULT_DEVIN_API_PORT]. *)
Definition DEFAULT_DEVIN_API_PORT : Z := 43110.
(** server/src/devin/mod.rs:10-10, [DEFAULT_DEVIN_INFERENCE_PORT]. *)
Definition DEFAULT_DEVIN_INFERENCE_PORT : Z := 43111.
(** server/src/devin/mod.rs:11-11, [DEFAULT_DEVIN_LOCAL_API_PORT]. *)
Definition DEFAULT_DEVIN_LOCAL_API_PORT : Z := 43112.
(** server/src/devin/mod.rs:16-16, [DEFAULT_DEVIN_UPSTREAM_API_URL]. *)
Definition DEFAULT_DEVIN_UPSTREAM_API_URL : str := lit "https://server.codeium.com".
(** server/src/devin/mod.rs:42-53, [default]. *)
Definition default_settings : DevinSettings :=
  MkSettings false [] DEFAULT_DEVIN_API_PORT DEFAULT_DEVIN_INFERENCE_PORT DEFAULT_DEVIN_LOCAL_API_PORT DEFAULT_DEVIN_UPSTREAM_API_URL [] None.

(** ** Normalizing *)

(** [.map(|value| value.trim().to_owned()).filter(|value| !value.is_empty())]. *)
Definition trimmed (value : option str) : option str := v ← value; match trim v with [] => None | t => Some t end.
(** server/src/devin/mod.rs:155-159, [normalized]: a route. *)
Definition normalized_route (r : DevinRoute) : DevinRoute :=
  MkRoute (trim (dr_route_id r)) (trim (dr_model_hash r)) (trim (dr_label r)) (dr_enabled r).
(** server/src/devin/mod.rs:146-160, [normalized]: a binding. *)
Definition normalized_binding (b : DevinModelBinding) : DevinModelBinding :=
  MkBinding (trim (db_model_uid b)) (trim (db_model_hash b)) (trim (db_display_name b)) (db_context_window_tokens b) (db_enabled b) (db_kind b)
    (normalized_route <$> db_routes b) (trimmed (db_active_route_id b)).
(** server/src/devin/mod.rs:138-162, [normalized]. *)
Definition normalized (s : DevinSettings) : DevinSettings :=
  MkSettings (ds_enabled s) (trim (ds_auth_token s)) (ds_api_port s) (ds_inference_port s) (ds_local_api_port s) (trim (ds_upstream_api_url s))
    (normalized_binding <$> ds_bindings s) (trimmed (ds_default_model_uid s)).

(** ** Lookup *)

(** server/src/devin/mod.rs:298-308, [default_binding]. *)
Definition default_binding (s : DevinSettings) : option DevinModelBinding :=
  uid ← ds_default_model_uid s;
  match trim uid with
  | [] => None
  | uid => snd <$> list_find (λ b, db_enabled b = true ∧ db_kind b = Standard ∧ trim (db_model_uid b) = uid) (ds_bindings s)
  end.
(** server/src/devin/mod.rs:310-315, [binding]. *)
Definition binding (s : DevinSettings) (model_uid : str) : option DevinModelBinding :=
  snd <$> list_find (λ b, db_enabled b = true ∧ db_model_uid b = trim model_uid) (ds_bindings s).

(** ** Validating *)

(** server/src/devin/mod.rs:165-173, [validate]: the ports. *)
Fixpoint validate_ports (ports : list (str * Z)) : res () :=
  match ports with
  | [] => Ok ()
  | (name, port) :: ports =>
      if port =? 0 then Err (Config (lit "Devin " ++ name ++ lit " port must be non-zero")) else validate_ports ports
  end.
(** server/src/devin/mod.rs:220-236, [validate]: the routes of a binding, with those before. *)
Fixpoint validate_routes (routes : list DevinRoute) (route_ids : gset str) : res () :=
  match routes with
  | [] => Ok ()
  | route :: routes =>
      let route_id := dr_route_id route in
      if is_blank route_id then Err (Config (lit "Devin route ID must not be empty"))
      else if is_blank (dr_model_hash route) then Err (Config (lit "Devin route " ++ route_id ++ lit " must include a cursor-byok model hash"))
      else if bool_decide (route_id ∈ route_ids) then Err (Config (lit "duplicate Devin route ID: " ++ route_id))
      else validate_routes routes ({[route_id]} ∪ route_ids)
  end.
(** server/src/devin/mod.rs:237-255, [validate]: the active route of a binding. *)
Definition validate_active (b : DevinModelBinding) : res () :=
  match db_active_route_id b with
  | None => Ok ()
  | Some active =>
      match snd <$> list_find (λ r, dr_route_id r = active) (db_routes b) with
      | None => Err (Config (lit "Devin active route not found: " ++ active))
      | Some route => if dr_enabled route then Ok () else Err (Config (lit "Devin active route must be enabled: " ++ active))
      end
  end.
(** server/src/devin/mod.rs:197-256, [validate]: the bindings, with the identifiers of those before. *)
Fixpoint validate_bindings (bindings : list DevinModelBinding) (uids : gset str) : res () :=
  match bindings with
  | [] => Ok ()
  | b :: bindings =>
      let uid := trim (db_model_uid b) in
      if bool_decide (uid = []) then Err (Config (lit "Devin model UID must not be empty"))
      else if is_blank (db_model_hash b) then
        Err (Config (lit "Devin model binding for " ++ uid ++ lit " must include a cursor-byok model hash"))
      else if bool_decide (uid ∈ uids) then Err (Config (lit "duplicate Devin model UID: " ++ uid))
      else if bool_decide (db_kind b = ContextCompression) && bool_decide (db_routes b ≠ []) then
        Err (Config (lit "Devin context compression binding " ++ uid ++ lit " must not define candidate routes"))
      else
        _ ← validate_routes (db_routes b) ∅;
        _ ← validate_active b;
        validate_bindings bindings ({[uid]} ∪ uids)
  end.
(** server/src/devin/mod.rs:258-281, [validate]: the default. *)
Definition validate_default (s : DevinSettings) : res () :=
  match trimmed (ds_default_model_uid s) with
  | None => Ok ()
  | Some uid =>
      match snd <$> list_find (λ b, trim (db_model_uid b) = uid) (ds_bindings s) with
      | None => Err (Config (lit "Devin default model UID not found: " ++ uid))
      | Some b =>
          if negb (db_enabled b) then Err (Config (lit "Devin default model must be enabled: " ++ uid))
          else if negb (bool_decide (db_kind b = Standard)) then Err (Config (lit "Devin default model must be a standard binding: " ++ uid))
          else Ok ()
      end
  end.
(** server/src/devin/mod.rs:164-283, [validate]. *)
Definition validate `{UrlParser} (s : DevinSettings) : res () :=
  _ ← validate_ports [(lit "api", ds_api_port s); (lit "inference", ds_inference_port s); (lit "local API", ds_local_api_port s)];
  if (ds_api_port s =? ds_inference_port s) || (ds_api_port s =? ds_local_api_port s) || (ds_inference_port s =? ds_local_api_port s) then
    Err (Config (lit "Devin ports must be distinct"))
  else
    let upstream := trim (ds_upstream_api_url s) in
    if bool_decide (upstream = []) then
      Err (Config (lit "Devin upstream API URL must not be empty; it receives every request the gateway does not serve locally"))
    else if match parse_url upstream with
            | Ok parsed => (bool_decide (u_scheme parsed = lit "http") || bool_decide (u_scheme parsed = lit "https")) && bool_decide (is_Some (u_host parsed))
            | Err _ => false
            end
    then _ ← validate_bindings (ds_bindings s) ∅; validate_default s
    else Err (Config (lit "Devin upstream API URL must be an absolute http(s) URL: " ++ upstream)).
(** server/src/devin/mod.rs:288-296, [validate_for_use]. *)
Definition validate_for_use `{UrlParser} (s : DevinSettings) : res () :=
  _ ← validate s;
  if ds_enabled s && bool_decide (default_binding s = None) then
    Err (Config (lit "Devin default model must be selected before enabling the gateway"))
  else Ok ().

(** ** Saved settings *)

Section Saved.
Context {U : UrlParser}.

Lemma is_blank_false s : is_blank s = false ↔ trim s ≠ [].
Proof. unfold is_blank. by rewrite bool_decide_eq_false. Qed.
Lemma trimmed_twice v : trimmed (trimmed v) = trimmed v.
Proof.
  destruct v as [v|]; [|done]. unfold trimmed. cbn [mbind option_bind]. destruct (trim v) as [|c t] eqn:E; [done|]. cbn [mbind option_bind].
  assert (trim (c :: t) = c :: t) as -> by (rewrite <- E; apply trim_idemp). done.
Qed.
Lemma normalized_route_twice r : normalized_route (normalized_route r) = normalized_route r.
Proof. unfold normalized_route. cbn [dr_route_id dr_model_hash dr_label dr_enabled]. by rewrite !trim_idemp. Qed.
Lemma normalized_binding_twice b : normalized_binding (normalized_binding b) = normalized_binding b.
Proof.
  unfold normalized_binding. cbn [db_model_uid db_model_hash db_display_name db_context_window_tokens db_enabled db_kind db_routes db_active_route_id]. rewrite !trim_idemp, trimmed_twice, <- list_fmap_compose. f_equal. apply list_fmap_ext. intros i r _. apply normalized_route_twice.
Qed.
Lemma normalized_twice s : normalized (normalized s) = normalized s.
Proof.
  unfold normalized. cbn [ds_enabled ds_auth_token ds_api_port ds_inference_port ds_local_api_port ds_upstream_api_url ds_bindings ds_default_model_uid]. rewrite !trim_idemp, trimmed_twice, <- list_fmap_compose. f_equal. apply list_fmap_ext. intros i b _. apply normalized_binding_twice.
Qed.

Lemma validate_bindings_ok l : ∀ seen, validate_bindings l seen = Ok () →
  NoDup ((λ b, trim (db_model_uid b)) <$> l) ∧ (∀ b, b ∈ l → trim (db_model_uid b) ∉ seen ∧ trim (db_model_uid b) ≠ [] ∧ trim (db_model_hash b) ≠ []).
Proof.
  induction l as [|b l IH]; intros seen H; cbn [validate_bindings] in H.
  { split; [constructor|]. intros b Hb. by apply not_elem_of_nil in Hb. }
  case_bool_decide as H1; [discriminate|]. destruct (is_blank (db_model_hash b)) eqn:H2; [discriminate|]. case_bool_decide as H3; [discriminate|].
  destruct (_ && _); [discriminate|]. invert_ok H as u1 Hr. invert_ok H as u2 Ha. destruct (IH _ H) as [Hn Hl]. split.
  - cbn. constructor; [|done]. intros (b' & E & Hb')%list_elem_of_fmap. destruct (Hl _ Hb') as [Hs _]. rewrite <- E in Hs. set_solver.
  - intros b' [->|Hb']%elem_of_cons; [by split_and!; [..|by apply is_blank_false]|]. destruct (Hl _ Hb') as (Hs & He & Hh). split_and!; [set_solver|done..].
Qed.
Lemma validate_parts s : validate s = Ok () → validate_bindings (ds_bindings s) ∅ = Ok () ∧ validate_default s = Ok ().
Proof.
  unfold validate. intros H. invert_ok H as u Hp. destruct (_ || _); [discriminate|]. cbn zeta in H. case_bool_decide; [discriminate|].
  destruct (match parse_url _ with Ok _ => _ | Err _ => _ end); [|discriminate]. invert_ok H as u' Hb. by destruct u'.
Qed.
(** The first that satisfies a condition, when no other does. *)
Lemma find_only {A} (P : A → Prop) `{∀ x, Decision (P x)} l x : x ∈ l → P x → (∀ y, y ∈ l → P y → y = x) → snd <$> list_find P l = Some x.
Proof.
  intros Hx Hp Hu. destruct (list_find_elem_of P l x Hx Hp) as [[i y] E]. rewrite E. apply list_find_Some in E as (Hi & Hy & _).
  cbn. f_equal. apply Hu; [by eapply list_elem_of_lookup_2|done].
Qed.
Lemma uid_injective l b b' : NoDup ((λ b, trim (db_model_uid b)) <$> l) → b ∈ l → b' ∈ l → trim (db_model_uid b) = trim (db_model_uid b') → b = b'.
Proof.
  intros Hn (i & Hi)%list_elem_of_lookup_1 (j & Hj)%list_elem_of_lookup_1 E. enough (i = j) as -> by congruence.
  eapply NoDup_lookup; [exact Hn|by rewrite list_lookup_fmap, Hi|rewrite list_lookup_fmap, Hj; cbn; by rewrite E].
Qed.

(** Of settings that were saved (normalized first, then validated), every enabled binding is the one its model identifier
    reaches, however the client pads it; what is reached is enabled and names a model; the default, when there is one, is
    an enabled standard binding of that identifier; and saving the settings again changes nothing. *)
Theorem bindings_reached form : let s := normalized form in validate s = Ok () →
  (∀ b uid, b ∈ ds_bindings s → db_enabled b = true → trim uid = db_model_uid b → binding s uid = Some b) ∧
  (∀ b uid, binding s uid = Some b → b ∈ ds_bindings s ∧ db_enabled b = true ∧ db_model_uid b = trim uid ∧ effective_model_hash b ≠ []) ∧
  (∀ uid, ds_default_model_uid s = Some uid → ∃ b, default_binding s = Some b ∧ binding s uid = Some b ∧ db_kind b = Standard) ∧
  normalized s = s.
Proof.
  cbn zeta. set (s := normalized form). intros Hv. apply validate_parts in Hv as [Hb Hd]. apply validate_bindings_ok in Hb as [Hn Hl].
  assert (∀ b, b ∈ ds_bindings s → trim (db_model_uid b) = db_model_uid b) as Ht.
  { intros b (b0 & -> & _)%list_elem_of_fmap. apply trim_idemp. }
  assert (∀ uid, ds_default_model_uid s = Some uid → trimmed (ds_default_model_uid s) = Some uid ∧ trim uid = uid ∧ uid ≠ []) as Hdef.
  { intros uid Hu. unfold s, normalized in Hu |- *. cbn [ds_default_model_uid] in Hu |- *. rewrite trimmed_twice. split; [done|]. destruct (ds_default_model_uid form) as [v|]; [|done].
    unfold trimmed in Hu. cbn in Hu. destruct (trim v) as [|x t] eqn:E; [done|]. injection Hu as <-. split; [rewrite <- E; apply trim_idemp|done]. }
  assert (normalized s = s) as Hidem by apply normalized_twice. clearbody s.
  assert (∀ b uid, b ∈ ds_bindings s → db_enabled b = true → trim uid = db_model_uid b → binding s uid = Some b) as Hr.
  { intros b uid Hin He Hu. unfold binding. apply find_only; [done|by split|]. intros b' Hin' [_ E]. eapply uid_injective; [exact Hn|done..|]. rewrite !Ht by done. congruence. }
  split; [done|]. split.
  { intros b uid H. unfold binding in H. apply fmap_Some in H as ([i b'] & H & ->). apply list_find_Some in H as (Hi & [He Hu] & _). cbn.
    apply list_elem_of_lookup_2 in Hi. split_and!; try done. destruct (Hl _ Hi) as (_ & _ & Hh). unfold effective_model_hash.
    destruct (active ← db_active_route_id b'; _) as [route|] eqn:E; [|done]. apply bind_Some in E as (active & _ & E).
    apply fmap_Some in E as ([j r] & E & ->). apply list_find_Some in E as (_ & (_ & Hb & _) & _). by apply is_blank_false in Hb. }
  split; [|done]. intros uid Hu. unfold validate_default in Hd. destruct (Hdef _ Hu) as (Htu & Hu1 & Hu2).
  rewrite Htu in Hd. destruct (snd <$> list_find _ _) as [b|] eqn:Eb; [|discriminate]. destruct (db_enabled b) eqn:He; [|discriminate]. cbn [negb] in Hd.
  case_bool_decide as Hk; [|discriminate]. apply fmap_Some in Eb as ([i b'] & Eb & ->). cbn in *. apply list_find_Some in Eb as (Hi & Hub & _). apply list_elem_of_lookup_2 in Hi.
  exists b'. assert (default_binding s = Some b') as E.
  { unfold default_binding. rewrite Hu. cbn [mbind option_bind]. rewrite Hu1. destruct uid as [|x uid]; [done|]. apply find_only; [done|by split_and!|].
    intros b Hin (_ & _ & Hub'). eapply uid_injective; [exact Hn|done..|]. congruence. }
  split; [done|]. split; [|done]. apply Hr; [done..|]. rewrite <- (Ht _ Hi). congruence.
Qed.
End Saved.

(** ** The row, and what is kept of it *)

(** serde: [from_str::<DevinSettings>] and [to_string], of the derived implementations. *)
Class DevinSerde : Type := {
  settings_from_str : str → result foreign_error DevinSettings;
  settings_to_string : DevinSettings → result foreign_error str
}.

Section Cache.
Context {U : UrlParser} {DS : DevinSerde}.

(** server/src/store/settings.rs:683-691, [devin_settings]: what a row holds. *)
Definition read_row (row : option str) : res DevinSettings :=
  settings ← match row with
             | Some value => map_err Json (settings_from_str value)
             | None => Ok default_settings
             end;
  _ ← validate settings;
  Ok settings.

(** server/src/store/settings.rs:672-694, [devin_settings]: where a read stands.  It has the version; then it missed the cache,
    and then it has the row. *)
Inductive Reader : Type :=
  | Versioned (version : Z)
  | Missed (version : Z)
  | Queried (version : Z) (row : option str).
(** server/src/store/settings.rs:631-636, [DevinSettingsCache]: with the row, the reads that are under way and whether a
    save holds the lock of the writes (its row is there, its version is not). *)
Record CacheState : Type := MkCache {
  ca_row : option str;
  ca_version : Z;
  ca_cached : option (Z * DevinSettings);
  ca_readers : gmap nat Reader;
  ca_writing : bool
}.
Definition new_cache (row : option str) : CacheState := MkCache row 0 None ∅ false.
Definition with_readers (readers : gmap nat Reader) (s : CacheState) : CacheState :=
  MkCache (ca_row s) (ca_version s) (ca_cached s) readers (ca_writing s).

(** server/src/store/settings.rs:643-645, [bump]: [fetch_add] wraps around. *)
Definition bump (s : CacheState) : CacheState := MkCache (ca_row s) (u64 (ca_version s + 1)) (ca_cached s) (ca_readers s) false.
(** server/src/store/settings.rs:647-656, [hit]. *)
Definition hit (version : Z) (s : CacheState) : option DevinSettings :=
  '(v, settings) ← ca_cached s; if v =? version then Some settings else None.
(** server/src/store/settings.rs:658-664, [store]. *)
Definition store (version : Z) (settings : DevinSettings) (s : CacheState) : CacheState :=
  MkCache (ca_row s) (ca_version s) (Some (version, settings)) (ca_readers s) (ca_writing s).

(** A step of a read, or of a save; the query of either may fail. *)
Inductive cache_action : Type :=
  | ReadVersion (i : nat)
  | ReadCache (i : nat)
  | ReadRow (i : nat) (fault : option Error)
  | ReadParse (i : nat)
  | WriteRow (settings : DevinSettings) (fault : option Error)
  | WriteBump.
(** server/src/store/settings.rs:672-712, [devin_settings]: and [set_devin_settings], a step at a time.  [Some (s, answer)] with what a read answers. *)
Definition cache_step (s : CacheState) (a : cache_action) : option (CacheState * option (nat * res DevinSettings)) :=
  match a with
  | ReadVersion i =>
      match ca_readers s !! i with
      | None => Some (with_readers (<[i := Versioned (ca_version s)]> (ca_readers s)) s, None)
      | Some _ => None
      end
  | ReadCache i =>
      match ca_readers s !! i with
      | Some (Versioned v) =>
          match hit v s with
          | Some settings => Some (with_readers (delete i (ca_readers s)) s, Some (i, Ok settings))
          | None => Some (with_readers (<[i := Missed v]> (ca_readers s)) s, None)
          end
      | _ => None
      end
  | ReadRow i fault =>
      match ca_readers s !! i with
      | Some (Missed v) =>
          match fault with
          | Some error => Some (with_readers (delete i (ca_readers s)) s, Some (i, Err error))
          | None => Some (with_readers (<[i := Queried v (ca_row s)]> (ca_readers s)) s, None)
          end
      | _ => None
      end
  | ReadParse i =>
      match ca_readers s !! i with
      | Some (Queried v row) =>
          let r := read_row row in
          Some (with_readers (delete i (ca_readers s)) match r with Ok settings => store v settings s | Err _ => s end, Some (i, r))
      | _ => None
      end
  | WriteRow settings fault =>
      match (_ ← validate settings; map_err Json (settings_to_string settings)), fault with
      | Ok value, None => if ca_writing s then None else Some (MkCache (Some value) (ca_version s) (ca_cached s) (ca_readers s) true, None)
      | _, _ => Some (s, None)
      end
  | WriteBump => if ca_writing s then Some (bump s, None) else None
  end.

(** A run, with the rows that were saved in order and the number of saves that are done. *)
Inductive cache_run (row : option str) : list cache_action → CacheState → Prop :=
  | run_start : cache_run row [] (new_cache row)
  | run_step acts s a s' answer : cache_run row acts s → cache_step s a = Some (s', answer) → cache_run row (acts ++ [a]) s'.
Definition saved_row (a : cache_action) : option (option str) :=
  match a with
  | WriteRow settings None => match (_ ← validate settings; map_err Json (settings_to_string settings)) with Ok value => Some (Some value) | Err _ => None end
  | _ => None
  end.
Definition rows (row : option str) (acts : list cache_action) : list (option str) := row :: omap saved_row acts.
Definition is_bump (a : cache_action) : bool := match a with WriteBump => true | _ => false end.
Definition saves (acts : list cache_action) : Z := Z.of_nat (length (filter (λ a, is_bump a = true) acts)).

(** What is held under a version is of a row that was not yet replaced when the version began. *)
Definition fresh_since (row : option str) (acts : list cache_action) (v : Z) (r : option str) : Prop :=
  ∃ b k : nat, v = u64 (Z.of_nat b) ∧ Z.of_nat b ≤ saves acts ∧ (b ≤ k)%nat ∧ rows row acts !! k = Some r.
Record cache_ok (row : option str) (acts : list cache_action) (s : CacheState) : Prop := {
  co_row : last (rows row acts) = Some (ca_row s);
  co_version : ca_version s = u64 (saves acts);
  co_count : Z.of_nat (length (rows row acts)) = saves acts + 1 + (if ca_writing s then 1 else 0);
  co_cached v settings : ca_cached s = Some (v, settings) → ∃ r, fresh_since row acts v r ∧ read_row r = Ok settings;
  co_queried i v r : ca_readers s !! i = Some (Queried v r) → fresh_since row acts v r;
  co_version_of i rd : ca_readers s !! i = Some rd → ∃ b : nat, Z.of_nat b ≤ saves acts ∧
    match rd with Versioned v | Missed v | Queried v _ => v = u64 (Z.of_nat b) end
}.

Lemma rows_snoc row acts a : rows row (acts ++ [a]) = rows row acts ++ match saved_row a with Some r => [r] | None => [] end.
Proof. unfold rows. rewrite omap_app. cbn [omap list_omap]. by destruct (saved_row a). Qed.
Lemma saves_snoc acts a : saves (acts ++ [a]) = saves acts + (if is_bump a then 1 else 0).
Proof.
  unfold saves. rewrite filter_app, length_app. destruct (is_bump a) eqn:E; [rewrite filter_cons_True by done|rewrite filter_cons_False by congruence];
    rewrite filter_nil; cbn [length]; lia.
Qed.
Lemma saves_nonneg acts : 0 ≤ saves acts.
Proof. unfold saves. lia. Qed.
Lemma fresh_mono row acts a v r : fresh_since row acts v r → fresh_since row (acts ++ [a]) v r.
Proof.
  intros (b & k & H1 & H2 & H3 & H4). exists b, k. rewrite saves_snoc, rows_snoc. split_and!; [done|destruct (is_bump a); lia|done|by apply lookup_app_l_Some].
Qed.
(** The row that is there now is as new as anything that is done. *)
Lemma fresh_now row acts s b : cache_ok row acts s → Z.of_nat b ≤ saves acts → fresh_since row acts (u64 (Z.of_nat b)) (ca_row s).
Proof.
  intros H Hb. pose proof (co_row _ _ _ H) as Hr. pose proof (co_count _ _ _ H) as Hc. rewrite last_lookup in Hr. exists b, (Nat.pred (length (rows row acts))).
  split_and!; try done. destruct (ca_writing s); lia.
Qed.

(** A step that only moves reads, or answers one. *)
Lemma ok_readers row acts s a readers : cache_ok row acts s → saved_row a = None → is_bump a = false →
  (∀ i rd, readers !! i = Some rd → ca_readers s !! i = Some rd ∨
     ∃ b : nat, Z.of_nat b ≤ saves acts ∧ match rd with Versioned v | Missed v => v = u64 (Z.of_nat b) | Queried v r => v = u64 (Z.of_nat b) ∧ r = ca_row s end) →
  cache_ok row (acts ++ [a]) (with_readers readers s).
Proof.
  intros H Ha Hb Hr. pose proof (λ b, fresh_now row acts s b H) as Hnow. destruct H as [H1 H2 H3 H4 H5 H6].
  assert (rows row (acts ++ [a]) = rows row acts) as Er by (rewrite rows_snoc, Ha; apply app_nil_r).
  assert (saves (acts ++ [a]) = saves acts) as Es by (rewrite saves_snoc, Hb; lia).
  split; rewrite ?Er, ?Es; cbn [ca_row ca_version ca_cached ca_readers ca_writing with_readers]; try done.
  - intros v settings Hc. destruct (H4 _ _ Hc) as (r & Hf & Hd). exists r. split; [by apply fresh_mono|done].
  - intros i v r Hi. apply fresh_mono. destruct (Hr _ _ Hi) as [Ho|(b & Hb' & -> & ->)]; [by eapply H5|by apply Hnow].
  - intros i rd Hi. destruct (Hr _ _ Hi) as [Ho|(b & Hb' & Hv)]; [by eapply H6|]. exists b. split; [done|]. destruct rd; [done..|apply Hv].
Qed.
Lemma ok_same row acts s a : cache_ok row acts s → saved_row a = None → is_bump a = false → cache_ok row (acts ++ [a]) s.
Proof.
  intros H Ha Hb. assert (s = with_readers (ca_readers s) s) as -> by by destruct s. apply ok_readers; [done..|]. intros i rd Hi. by left.
Qed.
Lemma ok_write row acts s settings value : cache_ok row acts s → (_ ← validate settings; map_err Json (settings_to_string settings)) = Ok value →
  ca_writing s = false → cache_ok row (acts ++ [WriteRow settings None]) (MkCache (Some value) (ca_version s) (ca_cached s) (ca_readers s) true).
Proof.
  intros [H1 H2 H3 H4 H5 H6] Hv Hw. set (a := WriteRow settings None).
  assert (rows row (acts ++ [a]) = rows row acts ++ [Some value]) as Er by (rewrite rows_snoc; unfold a, saved_row; by rewrite Hv).
  assert (saves (acts ++ [a]) = saves acts) as Es by (rewrite saves_snoc; cbn; lia).
  split; rewrite ?Er, ?Es; cbn [ca_row ca_version ca_cached ca_readers ca_writing]; try done.
  - apply last_snoc.
  - rewrite length_app. cbn [length]. rewrite Hw in H3. lia.
  - intros v st Hc. destruct (H4 _ _ Hc) as (r & Hf & Hd). exists r. split; [by apply fresh_mono|done].
  - intros i v r Hi. apply fresh_mono. by eapply H5.
Qed.
Lemma ok_bump row acts s : cache_ok row acts s → ca_writing s = true → cache_ok row (acts ++ [WriteBump]) (bump s).
Proof.
  intros [H1 H2 H3 H4 H5 H6] Hw.
  assert (rows row (acts ++ [WriteBump]) = rows row acts) as Er by (rewrite rows_snoc; apply app_nil_r).
  assert (saves (acts ++ [WriteBump]) = saves acts + 1) as Es by apply saves_snoc.
  split; rewrite ?Er, ?Es; cbn [ca_row ca_version ca_cached ca_readers ca_writing bump]; try done.
  - rewrite H2. unfold wrap. rewrite Zplus_mod_idemp_l. done.
  - rewrite Hw in H3. lia.
  - intros v st Hc. destruct (H4 _ _ Hc) as (r & Hf & Hd). exists r. split; [by apply fresh_mono|done].
  - intros i v r Hi. apply fresh_mono. by eapply H5.
  - intros i rd Hi. destruct (H6 _ _ Hi) as (b & Hb & Hv). exists b. split; [lia|done].
Qed.
Lemma cache_run_ok row acts s : cache_run row acts s → cache_ok row acts s.
Proof.
  induction 1 as [|acts s a s' answer Hrun IH Hs].
  { split; cbn; try done. }
  pose proof (co_version _ _ _ IH) as Hv.
  destruct a as [i|i|i fault|i|settings fault|]; cbn [cache_step] in Hs.
  - destruct (ca_readers s !! i) eqn:Ei; [discriminate|]. injection Hs as <- <-. apply ok_readers; [done..|].
    intros j rd [[<- <-]|[Hj Hr]]%lookup_insert_Some; [|by left]. right. exists (Z.to_nat (saves acts)). pose proof (saves_nonneg acts).
    rewrite Z2Nat.id by lia. by split.
  - destruct (ca_readers s !! i) as [[v|v|v r]|] eqn:Ei; try discriminate. destruct (co_version_of _ _ _ IH _ _ Ei) as (b & Hb & Hbv).
    destruct (hit v s) as [settings|]; injection Hs as <- <-; (apply ok_readers; [done..|]).
    + intros j rd [Hj Hr]%lookup_delete_Some. by left.
    + intros j rd [[<- <-]|[Hj Hr]]%lookup_insert_Some; [right; by exists b|by left].
  - destruct (ca_readers s !! i) as [[v|v|v r]|] eqn:Ei; try discriminate. destruct (co_version_of _ _ _ IH _ _ Ei) as (b & Hb & Hbv).
    destruct fault; injection Hs as <- <-; (apply ok_readers; [done..|]).
    + intros j rd [Hj Hr]%lookup_delete_Some. by left.
    + intros j rd [[<- <-]|[Hj Hr]]%lookup_insert_Some; [right; by exists b|by left].
  - destruct (ca_readers s !! i) as [[v|v|v r]|] eqn:Ei; try discriminate. cbn zeta in Hs. pose proof (co_queried _ _ _ IH _ _ _ Ei) as Hq.
    assert (cache_ok row (acts ++ [ReadParse i]) (with_readers (delete i (ca_readers s)) s)) as Hd.
    { apply ok_readers; [done..|]. intros j rd [Hj Hr]%lookup_delete_Some. by left. }
    destruct (read_row r) as [settings|] eqn:Er; injection Hs as <- <-; [|done]. destruct Hd as [D1 D2 D3 D4 D5 D6]. split; [done..| |done|done].
    intros v' settings' [= <- <-]. exists r. split; [by apply fresh_mono|done].
  - destruct (saved_row (WriteRow settings fault)) as [r|] eqn:Ea.
    + destruct fault; [discriminate|]. unfold saved_row in Ea. destruct (_ ← validate settings; _) as [value|] eqn:Ev; [|discriminate]. injection Ea as <-.
      destruct (ca_writing s) eqn:Ew; [discriminate|]. injection Hs as <- <-. by apply ok_write.
    + unfold saved_row in Ea. destruct (_ ← validate settings; _) as [value|] eqn:Ev; destruct fault; try discriminate; injection Hs as <- <-; (apply ok_same; [done| |done]);
        unfold saved_row; by rewrite ?Ev.
  - destruct (ca_writing s) eqn:Ew; [|discriminate]. injection Hs as <- <-. by apply ok_bump.
Qed.

(** The version a read began with. *)
Definition reader_version (rd : Reader) : Z := match rd with Versioned v | Missed v | Queried v _ => v end.
Lemma step_version s a s' answer i rd : cache_step s a = Some (s', answer) → a ≠ ReadVersion i → ca_readers s' !! i = Some rd →
  ∃ rd', ca_readers s !! i = Some rd' ∧ reader_version rd = reader_version rd'.
Proof.
  intros Hs Ha Hrd. destruct a as [j|j|j fault|j|settings fault|]; cbn [cache_step] in Hs.
  5: { exists rd. repeat case_match; simplify_eq; done. }
  5: { exists rd. repeat case_match; simplify_eq; done. }
  all: destruct (ca_readers s !! j) as [[v|v|v q]|] eqn:Ej; try discriminate; cbn zeta in Hs.
  - injection Hs as <- <-. cbn in Hrd. rewrite lookup_insert_ne in Hrd by congruence. by exists rd.
  - destruct (hit v s); injection Hs as <- <-; cbn in Hrd; [apply lookup_delete_Some in Hrd as [_ Hrd]; by exists rd|].
    apply lookup_insert_Some in Hrd as [[<- <-]|[_ Hrd]]; [by exists (Versioned v)|by exists rd].
  - destruct fault; injection Hs as <- <-; cbn in Hrd; [apply lookup_delete_Some in Hrd as [_ Hrd]; by exists rd|].
    apply lookup_insert_Some in Hrd as [[<- <-]|[_ Hrd]]; [by exists (Missed v)|by exists rd].
  - injection Hs as <- <-. assert (delete j (ca_readers s) !! i = Some rd) as Hd by (by destruct (read_row q)).
    apply lookup_delete_Some in Hd as [_ Hd]. by exists rd.
Qed.
Lemma read_begun row before i : ∀ during s, cache_run row (before ++ ReadVersion i :: during) s → ReadVersion i ∉ during →
  ∀ rd, ca_readers s !! i = Some rd → reader_version rd = u64 (saves before).
Proof.
  induction during as [|a during IH] using rev_ind; intros s H Hi rd Hrd.
  - inversion H as [E|acts s0 a s' answer Hr Hs E]; [by destruct before|].
    apply app_inj_tail in E as [E1 E2]. subst. cbn [cache_step] in Hs. destruct (ca_readers s0 !! i); [discriminate|]. injection Hs as <- <-.
    cbn in Hrd. rewrite lookup_insert_eq in Hrd. injection Hrd as <-. cbn. apply (co_version _ _ _ (cache_run_ok _ _ _ Hr)).
  - rewrite app_comm_cons, app_assoc in H. inversion H as [E|acts s0 a' s' answer Hr Hs E]; [by destruct before|].
    apply app_inj_tail in E as [E1 E2]. subst. rewrite not_elem_of_app in Hi. destruct Hi as [Hi Ha]. specialize (IH _ Hr Hi).
    assert (a ≠ ReadVersion i) as Hne by (intros ->; apply Ha; by left).
    destruct (step_version _ _ _ _ _ _ Hs Hne Hrd) as (rd' & Hrd' & ->). by apply IH.
Qed.

(** C22: While saves and other reads run in any interleaving, a read of the settings gives what the row held at or after the last
    save that was done when the read began, parsed and validated (or the error of its own query): the cache never gives out
    settings that a finished save replaced. *)
Theorem cache_never_stale row before i during s a s' r :
  cache_run row (before ++ ReadVersion i :: during) s → ReadVersion i ∉ during → saves (before ++ ReadVersion i :: during) < 2 ^ 64 →
  cache_step s a = Some (s', Some (i, r)) →
  (∃ error, a = ReadRow i (Some error) ∧ r = Err error) ∨
  ∃ k stored, saves before ≤ Z.of_nat k ∧ rows row (before ++ ReadVersion i :: during) !! k = Some stored ∧ r = read_row stored.
Proof.
  intros Hrun Hi Hn Hs. pose proof (cache_run_ok _ _ _ Hrun) as Hok. pose proof (read_begun _ _ _ _ _ Hrun Hi) as Hb.
  set (acts := before ++ ReadVersion i :: during) in *.
  assert (saves before ≤ saves acts) as Hle.
  { unfold acts, saves. rewrite filter_app, length_app. lia. }
  assert (∀ stored, fresh_since row acts (u64 (saves before)) stored → ∃ k, saves before ≤ Z.of_nat k ∧ rows row acts !! k = Some stored) as Hf.
  { intros stored (b & k & H1 & H2 & H3 & H4). pose proof (saves_nonneg before). unfold wrap in H1. rewrite !Z.mod_small in H1 by lia. exists k. split; [lia|done]. }
  destruct a as [j|j|j fault|j|settings fault|]; cbn [cache_step] in Hs.
  - by destruct (ca_readers s !! j).
  - destruct (ca_readers s !! j) as [[v|v|v q]|] eqn:Ej; try discriminate. destruct (hit v s) as [settings|] eqn:Eh; [|discriminate].
    injection Hs as _ -> <-. right. unfold hit in Eh. destruct (ca_cached s) as [[v' st]|] eqn:Ec; [|discriminate]. cbn [mbind option_bind] in Eh.
    destruct (Z.eqb_spec v' v) as [->|]; [|discriminate]. injection Eh as ->. destruct (co_cached _ _ _ Hok _ _ Ec) as (stored & Hst & Hrow).
    specialize (Hb _ Ej). cbn in Hb. subst v. destruct (Hf _ Hst) as (k & Hk & Hl). by exists k, stored.
  - destruct (ca_readers s !! j) as [[v|v|v q]|] eqn:Ej; try discriminate. destruct fault as [error|]; [|discriminate]. injection Hs as _ -> <-. left. by exists error.
  - destruct (ca_readers s !! j) as [[v|v|v q]|] eqn:Ej; try discriminate. cbn zeta in Hs. injection Hs as _ -> <-. right.
    pose proof (co_queried _ _ _ Hok _ _ _ Ej) as Hq. specialize (Hb _ Ej). cbn in Hb. subst v. destruct (Hf _ Hq) as (k & Hk & Hl). by exists k, q.
  - repeat case_match; discriminate.
  - by destruct (ca_writing s).
Qed.
End Cache.

(** ** Settings, and a run *)

Module SettingsSamples.
Definition urls : UrlParser := {| parse_url u := Ok (MkUrl (lit "https") (Some u) [] None); with_path url _ := url |}.
Definition with_token (token : str) : DevinSettings :=
  MkSettings true token DEFAULT_DEVIN_API_PORT DEFAULT_DEVIN_INFERENCE_PORT DEFAULT_DEVIN_LOCAL_API_PORT DEFAULT_DEVIN_UPSTREAM_API_URL [] None.
(** The text of settings is their token. *)
Definition serde : DevinSerde := {| settings_from_str token := Ok (with_token token); settings_to_string s := Ok (ds_auth_token s) |}.
Definition standard : DevinModelBinding :=
  MkBinding (lit " m1 ") (lit "h1") [] None true Standard [MkRoute (lit "r ") (lit "h2") [] true] (Some (lit " r")).
Definition form : DevinSettings :=
  MkSettings true (lit "key ") DEFAULT_DEVIN_API_PORT DEFAULT_DEVIN_INFERENCE_PORT DEFAULT_DEVIN_LOCAL_API_PORT DEFAULT_DEVIN_UPSTREAM_API_URL
    [standard] (Some (lit "m1")).
(** A read begins when a save is done, and another save comes in between. *)
Definition before : list cache_action := [WriteRow (with_token (lit "a")) None; WriteBump].
Definition during : list cache_action := [ReadCache 0; WriteRow (with_token (lit "b")) None; ReadRow 0 None].
Definition run (acts : list cache_action) : option CacheState :=
  foldl (λ s a, s ← s; fst <$> @cache_step urls serde s a) (Some (new_cache None)) acts.
Lemma run_sound : ∀ acts s, run acts = Some s → @cache_run urls serde None acts s.
Proof.
  induction acts as [|a acts IH] using rev_ind; intros s; unfold run; [intros [= <-]; constructor|]. rewrite foldl_app. cbn [foldl].
  intros H. apply bind_Some in H as (s1 & H1 & H). apply fmap_Some in H as ([s2 answer] & H & ->). cbn. eapply run_step; [by apply IH|exact H].
Qed.
End SettingsSamples.

Lemma cache_never_stale_witness : ∃ s s',
  @cache_run SettingsSamples.urls SettingsSamples.serde None (SettingsSamples.before ++ ReadVersion 0 :: SettingsSamples.during) s ∧
  @cache_step SettingsSamples.urls SettingsSamples.serde s (ReadParse 0) = Some (s', Some (0%nat, Ok (SettingsSamples.with_token (lit "b")))) ∧
  ∃ k stored, 1 ≤ Z.of_nat k ∧
    @rows SettingsSamples.urls SettingsSamples.serde None (SettingsSamples.before ++ ReadVersion 0 :: SettingsSamples.during) !! k = Some stored.
Proof.
  destruct (SettingsSamples.run (SettingsSamples.before ++ ReadVersion 0 :: SettingsSamples.during)) as [s|] eqn:E; [|vm_compute in E; discriminate E].
  pose proof (SettingsSamples.run_sound _ _ E) as Hr. exists s.
  destruct (@cache_step SettingsSamples.urls SettingsSamples.serde s (ReadParse 0)) as [[s' answer]|] eqn:Es; [|vm_compute in E; injection E as <-; vm_compute in Es; discriminate Es].
  assert (answer = Some (0%nat, Ok (SettingsSamples.with_token (lit "b")))) as -> by (vm_compute in E; injection E as <-; vm_compute in Es; injection Es as _ <-; vm_compute; reflexivity).
  exists s'. split; [exact Hr|]. split; [reflexivity|].
  destruct (@cache_never_stale SettingsSamples.urls SettingsSamples.serde None SettingsSamples.before 0 SettingsSamples.during s (ReadParse 0) s' _ Hr
    ltac:(unfold SettingsSamples.during; rewrite !not_elem_of_cons; repeat split; try discriminate; apply not_elem_of_nil) ltac:(vm_compute; reflexivity) Es) as [(error & H & _)|(k & stored & Hk & Hs & _)]; [discriminate H|].
  exists k, stored. split; [|exact Hs]. exact Hk.
Defined.

Lemma bindings_reached_witness : @validate SettingsSamples.urls (normalized SettingsSamples.form) = Ok () ∧
  effective_model_hash <$> binding (normalized SettingsSamples.form) (lit " m1") = Some (lit "h2") ∧
  binding (normalized SettingsSamples.form) (lit " m1") = Some (normalized_binding SettingsSamples.standard).
Proof.
  split; [vm_compute; reflexivity|]. split; [vm_compute; reflexivity|].
  destruct (@bindings_reached SettingsSamples.urls SettingsSamples.form ltac:(vm_compute; reflexivity)) as (H & _).
  apply H; [apply list_elem_of_singleton; reflexivity|reflexivity|vm_compute; reflexivity].
Defined.
