(* ===== verification/DevinFields.v ===== *)
(** * DevinFields: fields of Devin's messages, written and read back

    What DevinRequest and DevinResponse share over the wire format of DevinWire. *)

From stdpp Require Import prelude strings list.
From S2P Require Import Prelude Utf8 Errors DevinWire.
Local Open Scope Z_scope.

(** server/src/devin/wire.rs:31-36, [Field::bytes]: of a text. *)
Definition text_field (n : Z) (t : str) : Field := MkField n (Bytes (as_bytes t)).
(** server/src/devin/wire.rs:24-29, [Field::varint]. *)
Definition varint (n v : Z) : Field := MkField n (Varint v).

(** The fields that are known to be in range before they are written. *)
Definition field_fits (f : Field) : Prop :=
  0 < number f < 2 ^ 32 ∧ match value f with Varint x => 0 ≤ x < 2 ^ 64 | Fixed64 a => length a = 8%nat | Fixed32 a => length a = 4%nat | Bytes _ => True end.

Lemma serialize_field_len f out : zlen out ≤ zlen (serialize_field f out) ∧
  match value f with Bytes b => zlen b ≤ zlen (serialize_field f out) | _ => True end.
Proof.
  unfold serialize_field. destruct (value f) as [v|a|b|a]; rewrite !encode_varint_app, !zlen_app;
    repeat match goal with |- context [zlen ?x] => lazymatch goal with H : 0 ≤ zlen x |- _ => fail | _ => pose proof (zlen_nonneg x) end end; lia.
Qed.
Lemma serialize_loop_fits fields : ∀ out o, serialize_loop fields out = Ok o → zlen out ≤ zlen o ∧
  (∀ n b, MkField n (Bytes b) ∈ fields → zlen b ≤ zlen o).
Proof.
  induction fields as [|f fields IH]; intros out o; cbn [serialize_loop].
  { intros [= <-]. split; [lia|]. intros n b Hin. by apply not_elem_of_nil in Hin. }
  destruct (number f =? 0); [discriminate|]. intros Ho. apply IH in Ho as [Hl Hb]. destruct (serialize_field_len f out) as [H1 H2].
  split; [lia|]. intros n b [<-|Hin]%elem_of_cons; [cbn [value] in H2; lia|by eapply Hb].
Qed.
Lemma serialize_read fields out : Forall field_fits fields → serialize_fields fields = Ok out → zlen out ≤ MAX_BODY_SIZE →
  parse_fields out = Ok fields ∧ Forall field_ok fields.
Proof.
  intros Hf Hs Hl. assert (Forall field_ok fields) as Hok.
  { destruct (serialize_loop_fits _ _ _ Hs) as [_ Hb]. apply Forall_forall. intros [n v] Hin. rewrite Forall_forall in Hf.
    destruct (Hf _ Hin) as [Hn Hv]. split; [done|]. destruct v as [x|a|b|a]; cbn in *; try done. specialize (Hb _ _ Hin).
    unfold MAX_BODY_SIZE in Hl. lia. }
  split; [|done]. unfold serialize_fields in Hs. rewrite serialize_loop_ok in Hs by done. apply ok_equal in Hs as <-. cbn [app] in *.
  apply (parse_loop_bytes _ fields [] []); [done| |done]. unfold MAX_BODY_SIZE, USIZE_MAX, U64_MAX in *. lia.
Qed.
(** A message that fits, with its parts. *)
Lemma message_read fields out : Forall field_fits fields → serialize_fields fields = Ok out → zlen out ≤ MAX_BODY_SIZE →
  parse_fields out = Ok fields ∧ ∀ n b, MkField n (Bytes b) ∈ fields → zlen b ≤ MAX_BODY_SIZE.
Proof.
  intros Hf Hs Hl. split; [by eapply serialize_read|]. intros n b Hin. destruct (serialize_loop_fits _ _ _ Hs) as [_ Hb].
  specialize (Hb _ _ Hin). lia.
Qed.

(** Fields of one number among those of another. *)
Lemma first_field_skip n f fields : number f ≠ n → first_field (f :: fields) n = first_field fields n.
Proof. intros Hn. unfold first_field. cbn. rewrite decide_False by done. by destruct (list_find _ fields) as [[]|]. Qed.
Lemma first_base n id time fields : n ≠ 1 → n ≠ 2 → first_field (text_field 1 id :: MkField 2 (Bytes time) :: fields) n = first_field fields n.
Proof. intros H1 H2. by rewrite !first_field_skip by (cbn; congruence). Qed.
Lemma first_field_other n m bs : n ≠ m → first_field ((λ b, MkField m (Bytes b)) <$> bs) n = None.
Proof. intros Hn. induction bs as [|b bs IH]; [done|]. cbn [fmap list_fmap]. by rewrite first_field_skip by (cbn; congruence). Qed.
Lemma all_fields_same m bs : all_fields ((λ b, MkField m (Bytes b)) <$> bs) m = (λ b, MkField m (Bytes b)) <$> bs.
Proof. unfold all_fields. induction bs as [|b bs IH]; [done|]. cbn [fmap list_fmap]. rewrite filter_cons_True by done. by f_equal. Qed.
Abbreviation repeated n bs := ((λ b, MkField n (Bytes b)) <$> bs).
Lemma repeated_fits n bs : 0 < n < 2 ^ 32 → Forall field_fits (repeated n bs).
Proof. intros Hn. apply Forall_fmap, Forall_true. by split. Qed.
Lemma first_field_app n a b : first_field (a ++ b) n = match first_field a n with Some f => Some f | None => first_field b n end.
Proof.
  induction a as [|f a IH]; [done|]. cbn [app]. destruct (decide (number f = n)) as [Hn|Hn].
  - unfold first_field. cbn. by rewrite !decide_True by done.
  - by rewrite !first_field_skip.
Qed.
Lemma all_fields_other n m bs : n ≠ m → all_fields (repeated m bs) n = [].
Proof. intros Hn. unfold all_fields. induction bs as [|b bs IH]; [done|]. cbn [fmap list_fmap]. by rewrite filter_cons_False by (cbn; congruence). Qed.
Lemma all_fields_app n a b : all_fields (a ++ b) n = all_fields a n ++ all_fields b n.
Proof. apply filter_app. Qed.
