(* ===== verification/DevinRequest.v ===== *)
(** * DevinRequest: a request of Devin, as a model call

    server/src/devin/request.rs over the wire format of DevinWire, with the bindings of DevinSettings: the protobuf
    message of a chat request becomes a history, tools and a prompt, and with the binding of its model one shared model
    call.

    [chat_request_read]: what a client writes is what is read of it.  What a client may write ([writes_chat]) is a relation
    on the fields of a message, stated for this theorem only. *)

From stdpp Require Import prelude gmap strings list.
From S2P Require Import Prelude Utf8 Errors External Json Message Tokens Configuration CheckpointMessages Engine DevinSettings DevinWire DevinFields.
Local Open Scope Z_scope.

(** ** Reading fields *)

(** server/src/devin/request.rs:311-319, [bytes_value]. *)
Definition bytes_value (f : Field) : res (list Z) :=
  match value f with
  | Bytes b => Ok b
  | _ => Err (Protocol (lit "Devin field " ++ decimal (number f) ++ lit " must be bytes"))
  end.
(** server/src/devin/request.rs:321-326, [string_field]. *)
Definition string_field (fields : list Field) (n : Z) : res str :=
  match first_field fields n with
  | Some f => b ← bytes_value f; Ok (from_utf8_lossy b)
  | None => Ok []
  end.
(** server/src/devin/request.rs:328-337, [varint_field]. *)
Definition varint_field (fields : list Field) (n : Z) : res (option Z) :=
  match first_field fields n with
  | None => Ok None
  | Some f =>
      match value f with
      | Varint v => Ok (Some v)
      | _ => Err (Protocol (lit "Devin field " ++ decimal n ++ lit " must be a varint"))
      end
  end.
(** [.map(..).collect::<Result<Vec<_>>>()] over the fields of a number. *)
Definition each {A} (f : nat → list Z → res A) : nat → list Field → res (list A) :=
  fix go i fields :=
    match fields with
    | [] => Ok []
    | x :: fields => b ← bytes_value x; a ← f i b; rest ← go (S i) fields; Ok (a :: rest)
    end.

Section Request.
Context {SJ : SerdeJson} {D64 : Base64Decode}.

(** server/src/devin/request.rs:267-276, [parse_tool_call]: arguments that are not JSON are read as none. *)
Definition parse_tool_call (index : nat) (bytes : list Z) : res ToolCallContent :=
  fields ← parse_fields bytes;
  arguments ← string_field fields 3;
  call_id ← string_field fields 1;
  nm ← string_field fields 2;
  Ok (MkCall (Z.of_nat index) call_id nm (match from_str arguments with Ok v => v | Err _ => JObject [] end)).
(** server/src/devin/request.rs:278-291, [parse_tool]. *)
Definition parse_tool (_ : nat) (bytes : list Z) : res ToolDefinition :=
  fields ← parse_fields bytes;
  parameters ← string_field fields 3;
  nm ← string_field fields 1;
  description ← string_field fields 2;
  parameters ← (match parameters with
                | [] => Ok (JObject [])
                | _ => map_err (λ e, Protocol (lit "invalid Devin tool schema: " ++ fe_display e)) (from_str parameters)
                end);
  Ok (MkTool nm description parameters).
(** server/src/devin/request.rs:293-301, [parse_image]. *)
Definition parse_image (_ : nat) (bytes : list Z) : res ContentPart :=
  fields ← parse_fields bytes;
  encoded ← string_field fields 1;
  mime_type ← string_field fields 2;
  data ← map_err (λ e, Protocol (lit "invalid Devin image data: " ++ fe_display e)) (decode64 encoded);
  Ok (PImage (match mime_type with [] => lit "image/png" | _ => mime_type end) data).

(** server/src/devin/request.rs:14-14, [SOURCE_USER]. *)
Definition SOURCE_USER : Z := 1.
(** server/src/devin/request.rs:15-15, [SOURCE_ASSISTANT]. *)
Definition SOURCE_ASSISTANT : Z := 2.
(** server/src/devin/request.rs:16-16, [SOURCE_ASSISTANT_ALT]. *)
Definition SOURCE_ASSISTANT_ALT : Z := 3.
(** server/src/devin/request.rs:17-17, [SOURCE_TOOL]. *)
Definition SOURCE_TOOL : Z := 4.
(** server/src/devin/request.rs:18-18, [SOURCE_SYSTEM]. *)
Definition SOURCE_SYSTEM : Z := 5.

(** server/src/devin/request.rs:224-237, [parse_message]: thinking that was signed is replayed to Anthropic. *)
Definition thinking_replay (thinking signature : str) : option ProviderReplayState :=
  match thinking, signature with
  | [], _ | _, [] => None
  | _, _ =>
      Some (MkReplay (lit "anthropic")
        (object [("blocks"%string, JArray [object [("type", text "thinking"); ("thinking", JString thinking); ("signature", JString signature)]%string])]))
  end.
(** server/src/devin/request.rs:185-265, [parse_message]: the message, and the tokens it declares. *)
Definition parse_message (bytes : list Z) (declared : Z) : res (Z * ProjectedMessage) :=
  fields ← parse_fields bytes;
  message_id ← string_field fields 1;
  source ← varint_field fields 2;
  let source := default SOURCE_USER source in
  tokens ← varint_field fields 4;
  let declared := match tokens with Some n => sat_add declared n | None => declared end in
  t ← string_field fields 3;
  images ← each parse_image 0 (all_fields fields 10);
  if (source =? SOURCE_SYSTEM) || (source =? SOURCE_USER) then
    Ok (declared, MkProjected message_id (if source =? SOURCE_SYSTEM then RSystem else RUser)
                    (PCParts (images ++ match t with [] => [] | _ => [PText t] end)))
  else if (source =? SOURCE_ASSISTANT) || (source =? SOURCE_ASSISTANT_ALT) then
    calls ← each parse_tool_call 0 (all_fields fields 6);
    thinking ← string_field fields 11;
    signature ← string_field fields 12;
    Ok (declared, MkProjected message_id RAssistant (PCAssistant t thinking (thinking_replay thinking signature) calls))
  else if source =? SOURCE_TOOL then
    call_id ← string_field fields 7;
    is_error ← varint_field fields 9;
    Ok (declared, MkProjected message_id RTool
                    (PCToolResult (MkResult call_id (lit "_") t (negb (default 0 is_error =? 0)) None images)))
  else Err (Protocol (lit "unsupported Devin message source " ++ decimal source)).

(** server/src/devin/request.rs:303-309, [append_text_parts]. *)
Definition append_text_parts (output : str) (parts : list ContentPart) : str :=
  foldl (λ output part, match part with PText t => output ++ t | _ => output end) output parts.

(** server/src/devin/request.rs:21-24, [ContextTokenSource]. *)
Inductive ContextTokenSource : Type := Devin | Estimate.
(** server/src/devin/request.rs:27-37, [DevinChatRequest]. *)
Record DevinChatRequest : Type := MkChat {
  dc_system : str;
  dc_history : list ProjectedMessage;
  dc_tools : list ToolDefinition;
  dc_requested_model : str;
  dc_cascade_id : str;
  dc_prompt_id : str;
  dc_execution_id : str;
  dc_context_tokens : Z;
  dc_context_token_source : ContextTokenSource
}.
(** server/src/devin/request.rs:45-59, [parse_chat_request]: the loop over the messages. *)
Fixpoint chat_messages (fields : list Field) (s : str * list ProjectedMessage * Z) : res (str * list ProjectedMessage * Z) :=
  match fields with
  | [] => Ok s
  | f :: fields =>
      let '(system, history, declared) := s in
      b ← bytes_value f;
      '(declared, message) ← parse_message b declared;
      chat_messages fields
        (match p_role message, p_content message with
         | RSystem, PCParts parts =>
             (append_text_parts (match system with [] => [] | _ => system ++ [10] end) parts, history, declared)
         | RSystem, _ => (match system with [] => [] | _ => system ++ [10] end, history, declared)
         | _, _ => (system, history ++ [message], declared)
         end)
  end.
(** server/src/devin/request.rs:60-68, [parse_chat_request]: a history without messages. *)
Definition continue_message : ProjectedMessage :=
  MkProjected (lit "devin:continue") RUser (PCParts [PText (lit "Continue.")]).
(** server/src/devin/request.rs:39-111, [parse_chat_request]. *)
Definition parse_chat_request (payload : list Z) : res DevinChatRequest :=
  fields ← parse_fields payload;
  system ← string_field fields 2;
  '(system, history, declared) ← chat_messages (all_fields fields 3) (system, [], 0);
  let history := match history with [] => [continue_message] | _ => history end in
  tools ← each parse_tool 0 (all_fields fields 10);
  match first_field fields 12 with
  | Some _ => Err (protocol "Devin tool choice is not supported by the shared model request yet")
  | None =>
      requested_model ← string_field fields 21;
      cascade_id ← string_field fields 16;
      prompt_id ← string_field fields 17;
      execution_id ← string_field fields 22;
      Ok (MkChat system history tools requested_model cascade_id prompt_id execution_id
            (if 0 <? declared then declared else estimate_context_tokens (MkPrompt system tools) history)
            (if 0 <? declared then Devin else Estimate))
  end.
End Request.

(** ** The call *)

(** server/src/devin/mod.rs:348-348, [DEVIN_CALL_ID_PREFIX]. *)
Definition DEVIN_CALL_ID_PREFIX : str := lit "devin-call:".
(** server/src/devin/mod.rs:349-349, [DEVIN_EXECUTION_ID_PREFIX]. *)
Definition DEVIN_EXECUTION_ID_PREFIX : str := lit "devin:".
(** server/src/devin/request.rs:113-183, [to_invocation]; [uuid] is a fresh identifier, as it prints and without its dashes. *)
Definition to_invocation (uuid simple_uuid : str) (request : DevinChatRequest) (binding : DevinModelBinding) (model : ModelConfig) : res ModelInvocation :=
  if negb (bool_decide (trim (dc_requested_model request) = trim (db_model_uid binding))) then
    Err (Protocol (lit "Devin model '" ++ dc_requested_model request ++ lit "' is not assigned to this router binding"))
  else if negb (bool_decide (effective_model_hash binding = model_hash model)) then
    Err (Config (lit "the model bound to Devin model " ++ db_model_uid binding
                 ++ lit " is no longer in the model library; re-select it on the Devin page"))
  else
    let execution := dc_execution_id request in
    let call_id := match execution with
                   | [] => DEVIN_CALL_ID_PREFIX ++ uuid
                   | _ => DEVIN_EXECUTION_ID_PREFIX ++ execution ++ lit ":" ++ simple_uuid
                   end in
    let conversation := match dc_cascade_id request with [] => call_id | id => DEVIN_EXECUTION_ID_PREFIX ++ id end in
    let name := if negb (is_blank (in_display_name (config model))) then Some (in_display_name (config model))
                else if negb (is_blank (db_display_name binding)) then Some (db_display_name binding) else None in
    let spec := new_model (model_hash model) in
    let spec := MkModel (model_id spec) name
                  (MkReasoning (rs_enabled (reasoning spec)) (in_reasoning_effort (config model)) (rs_thinking_budget_tokens (reasoning spec)))
                  (latency spec) (config_max_output_tokens model)
                  (match in_context_window_tokens (config model) with Some n => Some n | None => db_context_window_tokens binding end)
                  (supports_image_generation spec) (extra_params spec) (stop_sequences spec) in
    Ok (MkInvocation call_id (match execution with [] => lit "devin:anonymous" | _ => DEVIN_EXECUTION_ID_PREFIX ++ execution end)
          conversation 0 Chat (MkRequest (MkPrompt (dc_system request) (dc_tools request)) spec (dc_history request))).

(** ** What a client writes is read *)

(** A message as the protocol has it, and its parts. *)
Section Client.
Context {SJ : SerdeJson} {D64 : Base64Decode}.

(** A message on the wire is any run of its fields, in any order and among others: a field of a text, or of a number, is
    written once, and may be left out where it has its default. *)
Definition written (fields : list Field) (bytes : list Z) : Prop := Forall field_fits fields ∧ serialize_fields fields = Ok bytes.
Definition has_text (fields : list Field) (n : Z) (t : str) : Prop :=
  text_ok t ∧ (all_fields fields n = [text_field n t] ∨ t = [] ∧ all_fields fields n = []).
Definition has_number (fields : list Field) (n absent v : Z) : Prop := all_fields fields n = [varint n v] ∨ v = absent ∧ all_fields fields n = [].
Definition has_parts {A} (writes : A → list Z → Prop) (fields : list Field) (n : Z) (parts : list A) : Prop :=
  ∃ bs, all_fields fields n = repeated n bs ∧ Forall2 writes parts bs.

Record ClientMessage : Type := MkClient {
  cm_id : str;
  cm_source : Z;
  cm_text : str;
  cm_tokens : option Z;
  cm_call_id : str;
  cm_error : bool;
  cm_thinking : str;
  cm_signature : str;
  cm_calls : list (str * str * str);
  cm_images : list (str * list Z)
}.
(** A call (identifier, name, arguments) and a tool (name, description, schema) have the same fields. *)
Definition writes_call (c : str * str * str) (bytes : list Z) : Prop :=
  ∃ fields, written fields bytes ∧ has_text fields 1 c.1.1 ∧ has_text fields 2 c.1.2 ∧ has_text fields 3 c.2.
Definition writes_tool (t : str * str * str) (bytes : list Z) : Prop := writes_call t bytes ∧ (t.2 = [] ∨ ∃ v, from_str t.2 = Ok v).
(** An image (type, bytes), in Base64. *)
Definition writes_image (i : str * list Z) (bytes : list Z) : Prop :=
  ∃ fields encoded, written fields bytes ∧ has_text fields 1 encoded ∧ decode64 encoded = Ok i.2 ∧ has_text fields 2 i.1.
Definition writes_message (m : ClientMessage) (bytes : list Z) : Prop :=
  ∃ fields, written fields bytes ∧ SOURCE_USER ≤ cm_source m ≤ SOURCE_SYSTEM ∧
    has_text fields 1 (cm_id m) ∧ has_number fields 2 SOURCE_USER (cm_source m) ∧ has_text fields 3 (cm_text m) ∧
    all_fields fields 4 = option_list (varint 4 <$> cm_tokens m) ∧ has_parts writes_call fields 6 (cm_calls m) ∧
    has_text fields 7 (cm_call_id m) ∧ (∃ v, has_number fields 9 0 v ∧ cm_error m = negb (v =? 0)) ∧
    has_parts writes_image fields 10 (cm_images m) ∧ has_text fields 11 (cm_thinking m) ∧ has_text fields 12 (cm_signature m).
(** A request: the prompt, the model, the identifiers, the messages and the tools; no choice of tools. *)
Record ClientChat : Type := MkClientChat {
  cc_system : str;
  cc_model : str;
  cc_cascade : str;
  cc_prompt : str;
  cc_execution : str;
  cc_messages : list ClientMessage;
  cc_tools : list (str * str * str)
}.
Definition writes_chat (c : ClientChat) (bytes : list Z) : Prop :=
  ∃ fields, written fields bytes ∧ has_text fields 2 (cc_system c) ∧ has_parts writes_message fields 3 (cc_messages c) ∧
    has_parts writes_tool fields 10 (cc_tools c) ∧ all_fields fields 12 = [] ∧ has_text fields 16 (cc_cascade c) ∧ has_text fields 17 (cc_prompt c) ∧
    has_text fields 21 (cc_model c) ∧ has_text fields 22 (cc_execution c).

(** What a message means, by who wrote it. *)
Definition client_call (i : nat) (c : str * str * str) : ToolCallContent :=
  MkCall (Z.of_nat i) c.1.1 c.1.2 (match from_str c.2 with Ok v => v | Err _ => JObject [] end).
Definition client_images (m : ClientMessage) : list ContentPart :=
  (λ i, PImage (match i.1 with [] => lit "image/png" | mime => mime end) i.2) <$> cm_images m.
Definition client_message (m : ClientMessage) : option ProjectedMessage :=
  if cm_source m =? SOURCE_USER then
    Some (MkProjected (cm_id m) RUser (PCParts (client_images m ++ match cm_text m with [] => [] | t => [PText t] end)))
  else if (cm_source m =? SOURCE_ASSISTANT) || (cm_source m =? SOURCE_ASSISTANT_ALT) then
    Some (MkProjected (cm_id m) RAssistant
      (PCAssistant (cm_text m) (cm_thinking m) (thinking_replay (cm_thinking m) (cm_signature m)) (imap client_call (cm_calls m))))
  else if cm_source m =? SOURCE_TOOL then
    Some (MkProjected (cm_id m) RTool (PCToolResult (MkResult (cm_call_id m) (lit "_") (cm_text m) (cm_error m) None (client_images m))))
  else None.
(** The prompt, followed by the system messages on lines of their own. *)
Definition client_system (c : ClientChat) : str :=
  foldl (λ system m, if cm_source m =? SOURCE_SYSTEM then match system with [] => [] | _ => system ++ [10] end ++ cm_text m else system)
    (cc_system c) (cc_messages c).
Definition client_tokens (ms : list ClientMessage) (n : Z) : Z :=
  foldl (λ n m, match cm_tokens m with Some k => sat_add n k | None => n end) n ms.
Definition client_tool (t : str * str * str) : ToolDefinition :=
  MkTool t.1.1 t.1.2 (match t.2 with [] => JObject [] | schema => match from_str schema with Ok v => v | Err _ => JObject [] end end).

(** *** Fields *)

Lemma first_is_head fields n : first_field fields n = head (all_fields fields n).
Proof.
  induction fields as [|f fields IH]; [done|]. unfold all_fields. destruct (decide (number f = n)) as [Hn|Hn].
  - rewrite filter_cons_True by done. unfold first_field. cbn. by rewrite decide_True.
  - rewrite filter_cons_False by done. rewrite first_field_skip by done. exact IH.
Qed.
Lemma string_read fields n t : first_field fields n = Some (text_field n t) → text_ok t → string_field fields n = Ok t.
Proof. intros H Ht. unfold string_field. rewrite H. cbn [bytes_value text_field value mbind result_bind]. by rewrite lossy_as_bytes. Qed.
Lemma has_text_read fields n t : has_text fields n t → string_field fields n = Ok t.
Proof.
  intros [Ht [H|[-> H]]]; [apply string_read; [|done]; by rewrite first_is_head, H|]. unfold string_field. by rewrite first_is_head, H.
Qed.
Lemma has_number_read fields n absent v : has_number fields n absent v → ∃ o, varint_field fields n = Ok o ∧ default absent o = v.
Proof. unfold varint_field. intros [H|[-> H]]; rewrite first_is_head, H; by eexists. Qed.
Lemma has_tokens_read fields n o : all_fields fields n = option_list (varint n <$> o) → varint_field fields n = Ok o.
Proof. unfold varint_field. intros H. rewrite first_is_head, H. by destruct o. Qed.
Lemma written_read fields bytes : written fields bytes → zlen bytes ≤ MAX_BODY_SIZE →
  parse_fields bytes = Ok fields ∧ ∀ n bs, all_fields fields n = repeated n bs → Forall (λ b, zlen b ≤ MAX_BODY_SIZE) bs.
Proof.
  intros [Hf Hs] Hl. destruct (message_read _ _ Hf Hs Hl) as [Hr Hn]. split; [done|]. intros n bs H. apply Forall_forall. intros b Hb. apply (Hn n).
  assert (MkField n (Bytes b) ∈ all_fields fields n) as Hin by (rewrite H; apply list_elem_of_fmap; by exists b).
  by apply list_elem_of_filter in Hin as [_ Hin].
Qed.
Lemma parts_read {A B} (writes : B → list Z → Prop) (read : nat → list Z → res A) (expect : nat → B → A) fields n parts :
  (∀ i x b, writes x b → zlen b ≤ MAX_BODY_SIZE → read i b = Ok (expect i x)) →
  (∀ bs, all_fields fields n = repeated n bs → Forall (λ b, zlen b ≤ MAX_BODY_SIZE) bs) →
  has_parts writes fields n parts → each read 0 (all_fields fields n) = Ok (imap expect parts).
Proof.
  intros Hr Hn (bs & E & H). specialize (Hn _ E). rewrite E. clear E. change expect with (λ j, expect (0 + j)%nat). generalize 0%nat. revert Hn.
  induction H as [|x b xs bs Hx _ IH]; intros Hn i; [done|]. inversion_clear Hn as [|? ? Hb Hn'].
  cbn [fmap list_fmap each bytes_value value mbind result_bind]. rewrite (Hr i x b) by done. cbn [mbind result_bind]. rewrite (IH Hn' (S i)).
  cbn [mbind result_bind imap]. f_equal. f_equal; [f_equal; lia|]. apply imap_ext. intros j y _. cbn. f_equal. lia.
Qed.
Lemma client_call_read i c b : writes_call c b → zlen b ≤ MAX_BODY_SIZE → parse_tool_call i b = Ok (client_call i c).
Proof.
  intros (fields & Hw & H1%has_text_read & H2%has_text_read & H3%has_text_read) Hl. destruct (written_read _ _ Hw Hl) as [Hr _]. unfold parse_tool_call.
  rewrite Hr. cbn [mbind result_bind]. rewrite H3. cbn [mbind result_bind]. rewrite H1. cbn [mbind result_bind]. by rewrite H2.
Qed.
Lemma tool_read i t b : writes_tool t b → zlen b ≤ MAX_BODY_SIZE → parse_tool i b = Ok (client_tool t).
Proof.
  intros [(fields & Hw & H1%has_text_read & H2%has_text_read & H3%has_text_read) Hs] Hl. destruct (written_read _ _ Hw Hl) as [Hr _].
  unfold parse_tool, client_tool. rewrite Hr. cbn [mbind result_bind].
  rewrite H3. cbn [mbind result_bind]. rewrite H1. cbn [mbind result_bind]. rewrite H2. cbn [mbind result_bind].
  destruct t.2 as [|x s]; [done|]. destruct Hs as [Hs|[v Hv]]; [done|]. by rewrite Hv.
Qed.
Lemma image_read i x b : writes_image x b → zlen b ≤ MAX_BODY_SIZE → parse_image i b = Ok (PImage (match x.1 with [] => lit "image/png" | mime => mime end) x.2).
Proof.
  intros (fields & encoded & Hw & H1%has_text_read & H2 & H3%has_text_read) Hl. destruct (written_read _ _ Hw Hl) as [Hr _]. unfold parse_image. rewrite Hr.
  cbn [mbind result_bind]. rewrite H1. cbn [mbind result_bind]. rewrite H3. cbn [mbind result_bind]. rewrite H2. by destruct x.1.
Qed.
Lemma imap_constant {A B} (f : A → B) xs : imap (λ _, f) xs = f <$> xs.
Proof. induction xs as [|x xs IH]; [done|]. cbn. by f_equal. Qed.
Definition read_message (m : ClientMessage) (declared : Z) : Z * ProjectedMessage :=
  (client_tokens [m] declared,
   default (MkProjected (cm_id m) RSystem (PCParts (client_images m ++ match cm_text m with [] => [] | t => [PText t] end))) (client_message m)).
Lemma message_read_back m b declared : writes_message m b → zlen b ≤ MAX_BODY_SIZE → parse_message b declared = Ok (read_message m declared).
Proof.
  intros (fields & Hw & Hs & H1%has_text_read & (source & H2 & Es)%has_number_read & H3%has_text_read & H4%has_tokens_read & H6 & H7%has_text_read & (e & (error & H9 & Ee)%has_number_read & He) & H10 & H11%has_text_read & H12%has_text_read) Hl.
  destruct (written_read _ _ Hw Hl) as [Hr Hn]. apply (parts_read _ parse_tool_call client_call) in H6; [|apply client_call_read|apply Hn].
  apply (parts_read _ parse_image (λ _ i, PImage (match i.1 with [] => lit "image/png" | mime => mime end) i.2)) in H10; [|apply image_read|apply Hn].
  rewrite imap_constant in H10. fold (client_images m) in H10. unfold parse_message. rewrite Hr. cbn [mbind result_bind]. rewrite H1. cbn [mbind result_bind].
  clear Hr Hn. rewrite H2. cbn [mbind result_bind]. rewrite Es, H4. cbn [mbind result_bind]. rewrite H3.
  cbn [mbind result_bind]. rewrite H10. cbn [mbind result_bind].
  change (match cm_tokens m with Some n => sat_add declared n | None => declared end) with (client_tokens [m] declared). rewrite H11, H7, H6. cbn [mbind result_bind]. rewrite H12.
  cbn [mbind result_bind]. rewrite H9. cbn [mbind result_bind]. rewrite Ee, <- He. clear -Hs.
  unfold read_message, client_message, SOURCE_USER, SOURCE_ASSISTANT, SOURCE_ASSISTANT_ALT, SOURCE_TOOL, SOURCE_SYSTEM in *.
  assert (cm_source m = 1 ∨ cm_source m = 2 ∨ cm_source m = 3 ∨ cm_source m = 4 ∨ cm_source m = 5) as [->|[->|[->|[->| ->]]]] by lia;
    cbn [Z.eqb Pos.eqb orb default]; destruct (cm_text m); reflexivity.
Qed.

Lemma append_text_images output m : append_text_parts output (client_images m ++ match cm_text m with [] => [] | t => [PText t] end) = output ++ cm_text m.
Proof.
  unfold append_text_parts. rewrite foldl_app. assert (foldl (λ output part, match part with PText t => output ++ t | _ => output end) output (client_images m) = output) as ->.
  { unfold client_images. generalize (cm_images m). by induction l. }
  destruct (cm_text m); cbn; [by rewrite app_nil_r|done].
Qed.
Lemma messages_read ms bs : Forall2 writes_message ms bs → ∀ system history declared, Forall (λ b, zlen b ≤ MAX_BODY_SIZE) bs →
  chat_messages (repeated 3 bs) (system, history, declared) =
    Ok (foldl (λ system m, if cm_source m =? SOURCE_SYSTEM then match system with [] => [] | _ => system ++ [10] end ++ cm_text m else system) system ms,
        history ++ omap client_message ms, client_tokens ms declared).
Proof.
  intros E. induction E as [|m b ms bs Hm _ IH]; intros system history declared Hl; [cbn; by rewrite app_nil_r|]. inversion_clear Hl as [|? ? Hb Hl'].
  cbn [fmap list_fmap chat_messages bytes_value value mbind result_bind]. rewrite (message_read_back m b declared Hm) by done.
  cbn [mbind result_bind read_message].
  match goal with |- chat_messages _ ?st = _ => assert (st = (if cm_source m =? SOURCE_SYSTEM then match system with [] => [] | _ => system ++ [10] end ++ cm_text m else system,
    history ++ omap client_message [m], client_tokens [m] declared)) as -> end.
  { unfold client_message. destruct Hm as (_ & _ & Hs & _). unfold SOURCE_USER, SOURCE_ASSISTANT, SOURCE_ASSISTANT_ALT, SOURCE_TOOL, SOURCE_SYSTEM in *.
    cbn [omap list_omap].
    assert (cm_source m = 1 ∨ cm_source m = 2 ∨ cm_source m = 3 ∨ cm_source m = 4 ∨ cm_source m = 5) as [->|[->|[->|[->| ->]]]] by lia;
      cbn [Z.eqb Pos.eqb orb default p_role p_content]; rewrite ?append_text_images, ?app_nil_r; reflexivity. }
  rewrite IH by done. do 2 f_equal. f_equal. rewrite <- app_assoc. f_equal. cbn [omap list_omap]. by destruct (client_message m).
Qed.

(** C20: What a Devin client writes in a chat request is what the gateway reads, in whatever order its fields come, among
    fields it does not know, and with the fields that have their default left out (a message without a source is the
    user's, a result without the mark is no error): the prompt followed by the system messages, every other message in its
    place and with its role, identifier and text, the images of a user and of a result, the calls and the thinking of an
    assistant, the tools with their schemas and the identifiers of the request; the size of the context is what the
    messages declare, added up, and the estimate when they declare nothing.  The client writes each single field at most
    once, and no choice of tools. *)
Theorem chat_request_read c payload : writes_chat c payload → zlen payload ≤ MAX_BODY_SIZE →
  let history := match omap client_message (cc_messages c) with [] => [continue_message] | history => history end in
  let tools := client_tool <$> cc_tools c in
  let declared := client_tokens (cc_messages c) 0 in
  parse_chat_request payload = Ok (MkChat (client_system c) history tools (cc_model c) (cc_cascade c) (cc_prompt c) (cc_execution c)
    (if 0 <? declared then declared else estimate_context_tokens (MkPrompt (client_system c) tools) history)
    (if 0 <? declared then Devin else Estimate)).
Proof.
  intros (fields & Hw & H2%has_text_read & (messages & E3 & H3) & H10 & H12 & H16%has_text_read & H17%has_text_read & H21%has_text_read & H22%has_text_read) Hl. cbn zeta.
  destruct (written_read _ _ Hw Hl) as [Hr Hn]. apply (parts_read _ parse_tool (λ _, client_tool)) in H10; [|apply tool_read|apply Hn]. rewrite imap_constant in H10.
  assert (first_field fields 12 = None) as E12 by (by rewrite first_is_head, H12). unfold parse_chat_request. rewrite Hr. cbn [mbind result_bind]. rewrite H2.
  cbn [mbind result_bind]. rewrite E3, (messages_read _ _ H3) by (by apply (Hn 3)). cbn [mbind result_bind app]. rewrite H10. cbn [mbind result_bind].
  rewrite E12, H21. cbn [mbind result_bind]. rewrite H16. cbn [mbind result_bind]. rewrite H17. cbn [mbind result_bind]. rewrite H22. cbn [mbind result_bind].
  by destruct (omap client_message (cc_messages c)).
Qed.
End Client.

(** ** A request *)

Module ChatSamples.
(** Every byte as two letters. *)
Definition encode (bytes : list Z) : str := bytes ≫= λ b, [97 + b / 16; 97 + b mod 16].
Fixpoint decode (s : str) : result foreign_error (list Z) :=
  match s with
  | a :: b :: s => rest ← decode s; Ok ((a - 97) * 16 + (b - 97) :: rest)
  | [] => Ok []
  | _ => Err (ForeignError (lit "odd") [])
  end.
Definition letters : Base64Decode := {| decode64 := decode |}.
Definition chat : ClientChat := MkClientChat (lit "be brief") (lit "m") (lit "cascade") [] (lit "run")
  [MkClient (lit "id") SOURCE_SYSTEM (lit "and kind") (Some 40) [] false [] [] [] [];
   MkClient (lit "u") SOURCE_USER [104; 233] (Some 2) [] false [] [] [] [(lit "image/gif", [0; 255])];
   MkClient (lit "a") SOURCE_ASSISTANT_ALT (lit "ok") None [] false (lit "hm") (lit "sig") [(lit "c1", lit "ls", lit "{}")] [];
   MkClient (lit "t") SOURCE_TOOL (lit "no such file") None (lit "c1") true [] [] [] [];
   MkClient (lit "s") SOURCE_TOOL [] None (lit "c2") false [] [] [] []]
  [(lit "ls", [], lit "{}")].
(** Written without the fields that have their default, in some order, and with a field that is not read. *)
Definition write (fields : list Field) : list Z := match serialize_fields fields with Ok b => b | Err _ => [] end.
Definition call_fields : list Field := [text_field 3 (lit "{}"); text_field 1 (lit "c1"); text_field 2 (lit "ls")].
Definition image_fields : list Field := [text_field 1 (encode [0; 255]); text_field 2 (lit "image/gif")].
Definition message_fields : list (list Field) :=
  [[text_field 1 (lit "id"); varint 2 5; text_field 3 (lit "and kind"); varint 4 40];
   [varint 4 2; text_field 3 [104; 233]; text_field 1 (lit "u"); MkField 10 (Bytes (write image_fields))];
   [text_field 11 (lit "hm"); text_field 12 (lit "sig"); text_field 1 (lit "a"); varint 2 3; MkField 6 (Bytes (write call_fields)); text_field 3 (lit "ok")];
   [text_field 1 (lit "t"); varint 2 4; text_field 3 (lit "no such file"); text_field 7 (lit "c1"); varint 9 2];
   [text_field 1 (lit "s"); varint 2 4; text_field 7 (lit "c2")]].
Definition tool_fields : list Field := [text_field 1 (lit "ls"); text_field 3 (lit "{}")].
Definition chat_fields : list Field :=
  [text_field 21 (lit "m"); varint 99 1; text_field 2 (lit "be brief")] ++ ((λ f, MkField 3 (Bytes (write f))) <$> message_fields) ++
  [MkField 10 (Bytes (write tool_fields)); text_field 16 (lit "cascade"); text_field 22 (lit "run")].
Definition payload : list Z := write chat_fields.
Lemma text_written fields n t : all_fields fields n = [text_field n t] → forallb is_scalar t = true → has_text fields n t.
Proof. intros H Ht. split; [by apply text_ok_forallb|by left]. Qed.
Lemma text_absent fields n : all_fields fields n = [] → has_text fields n [].
Proof. intros H. split; [by apply text_ok_forallb|by right]. Qed.
End ChatSamples.

Ltac field_read := first
  [ apply ChatSamples.text_written; [vm_compute; reflexivity|vm_compute; reflexivity]
  | apply ChatSamples.text_absent; vm_compute; reflexivity
  | left; vm_compute; reflexivity
  | right; split; [reflexivity|vm_compute; reflexivity]
  | vm_compute; reflexivity ].
Ltac fields_written := split; [repeat constructor; vm_compute; done|vm_compute; reflexivity].

Ltac no_parts := exists []; split; [vm_compute; reflexivity|apply Forall2_nil_2].

Lemma chat_request_read_witness : ∃ request,
  @parse_chat_request Samples.tiny_json ChatSamples.letters ChatSamples.payload = Ok request ∧
  dc_system request = lit "be brief" ++ [10] ++ lit "and kind" ∧
  p_content <$> dc_history request =
    [PCParts [PImage (lit "image/gif") [0; 255]; PText [104; 233]];
     PCAssistant (lit "ok") (lit "hm") (thinking_replay (lit "hm") (lit "sig")) [MkCall 0 (lit "c1") (lit "ls") (JObject [])];
     PCToolResult (MkResult (lit "c1") (lit "_") (lit "no such file") true None []);
     PCToolResult (MkResult (lit "c2") (lit "_") [] false None [])] ∧
  dc_context_tokens request = 42 ∧ dc_context_token_source request = Devin.
Proof.
  eexists. split.
  - refine (@chat_request_read Samples.tiny_json ChatSamples.letters ChatSamples.chat ChatSamples.payload _ _); [|vm_compute; discriminate].
    exists ChatSamples.chat_fields. split; [fields_written|]. split; [field_read|]. split; [|split].
    + exists (ChatSamples.write <$> ChatSamples.message_fields). split; [vm_compute; reflexivity|]. repeat apply Forall2_cons_2; [..|apply Forall2_nil_2].
      1: exists (ChatSamples.message_fields !!! 0%nat). 2: exists (ChatSamples.message_fields !!! 1%nat). 3: exists (ChatSamples.message_fields !!! 2%nat).
      4: exists (ChatSamples.message_fields !!! 3%nat). 5: exists (ChatSamples.message_fields !!! 4%nat).
      all: split; [fields_written|]; split; [vm_compute; split; discriminate|].
      all: split; [field_read|]; split; [field_read|]; split; [field_read|]; split; [vm_compute; reflexivity|].
      1, 2, 4, 5: split; [no_parts|].
      5: split; [exists [ChatSamples.write ChatSamples.call_fields]; split; [vm_compute; reflexivity|]; apply Forall2_cons_2; [|apply Forall2_nil_2];
           exists ChatSamples.call_fields; split; [fields_written|]; split_and!; field_read|].
      all: split; [field_read|].
      all: split; [first [exists 0; split; [field_read|reflexivity] | exists 2; split; [field_read|reflexivity]]|].
      all: split; [|split; field_read].
      2: exists [ChatSamples.write ChatSamples.image_fields]; split; [vm_compute; reflexivity|]; apply Forall2_cons_2; [|apply Forall2_nil_2];
           exists ChatSamples.image_fields, (ChatSamples.encode [0; 255]); split; [fields_written|]; split_and!; field_read.
      all: no_parts.
    + exists [ChatSamples.write ChatSamples.tool_fields]. split; [vm_compute; reflexivity|]. apply Forall2_cons_2; [|apply Forall2_nil_2].
      split; [exists ChatSamples.tool_fields; split; [fields_written|]; split_and!; field_read|]. right. exists (JObject []). reflexivity.
    + split_and!; field_read.
  - split_and!; vm_compute; reflexivity.
Defined.
