(* ===== verification/DevinResponse.v ===== *)
(** * DevinResponse: the events of a provider, as frames for Devin

    server/src/devin/response.rs over the wire format of DevinWire: text and thinking are sent as they arrive, the calls,
    the signature of the thinking and the usage when the response is done.

    Frames carry the time; the clock is read twice for each. *)

From stdpp Require Import prelude gmap strings list.
From S2P Require Import Prelude Utf8 Errors External Json Message Configuration Tokens Budget ModelCycle DevinWire DevinFields.
Local Open Scope Z_scope.

(** server/src/devin/response.rs:24-28, [ToolAccumulator]. *)
Record ToolAccumulator : Type := MkAccumulator {
  ta_call_id : list Z;
  ta_name : list Z;
  ta_arguments : list Z
}.
(** server/src/devin/response.rs:14-21, [ResponseState]. *)
Record ResponseState : Type := MkResponse {
  rs_message_id : list Z;
  rs_provider : ProviderType;
  rs_tool_calls : list (Z * ToolAccumulator);
  rs_usage : option Usage;
  rs_finish_reason : FinishReason;
  rs_replay_state : option ProviderReplayState
}.
(** server/src/devin/response.rs:31-40, [ResponseState::new]. *)
Definition new_response (message_id : str) (provider : ProviderType) : ResponseState :=
  MkResponse message_id provider [] None FinishStop None.
Definition with_message_id (id : str) (s : ResponseState) : ResponseState :=
  MkResponse id (rs_provider s) (rs_tool_calls s) (rs_usage s) (rs_finish_reason s) (rs_replay_state s).
Definition with_tool_calls (tools : list (Z * ToolAccumulator)) (s : ResponseState) : ResponseState :=
  MkResponse (rs_message_id s) (rs_provider s) tools (rs_usage s) (rs_finish_reason s) (rs_replay_state s).
Definition with_response_usage (u : option Usage) (s : ResponseState) : ResponseState :=
  MkResponse (rs_message_id s) (rs_provider s) (rs_tool_calls s) u (rs_finish_reason s) (rs_replay_state s).
Definition with_finish_reason (r : FinishReason) (s : ResponseState) : ResponseState :=
  MkResponse (rs_message_id s) (rs_provider s) (rs_tool_calls s) (rs_usage s) r (rs_replay_state s).
Definition with_replay_state (v : ProviderReplayState) (s : ResponseState) : ResponseState :=
  MkResponse (rs_message_id s) (rs_provider s) (rs_tool_calls s) (rs_usage s) (rs_finish_reason s) (Some v).

(** server/src/devin/response.rs:42-49, [set_fallback_input_tokens]. *)
Definition set_fallback_input_tokens (n : Z) (s : ResponseState) : ResponseState :=
  match rs_usage s with
  | None => if 0 <? n then with_response_usage (Some (MkUsage (Some n) None None None None None None)) s else s
  | Some _ => s
  end.
(** [Option::or]. *)
Definition option_or {A} (a b : option A) : option A := match a with Some _ => a | None => b end.
(** server/src/devin/response.rs:51-71, [merge_usage]: a usage without input keeps the input known before. *)
Definition merge_usage (u : Usage) (s : ResponseState) : ResponseState :=
  let accounted_input := sat_add (sat_add (default 0 (input_tokens u)) (default 0 (cache_read_tokens u))) (default 0 (cache_write_tokens u)) in
  match rs_usage s with
  | None => with_response_usage (Some u) s
  | Some fallback =>
      if 0 <? accounted_input then with_response_usage (Some u) s
      else
        with_response_usage (Some (MkUsage (input_tokens fallback) (u_context_input_tokens u) (output_tokens u) (total_tokens u)
                                     (option_or (cache_read_tokens fallback) (cache_read_tokens u))
                                     (option_or (cache_write_tokens fallback) (cache_write_tokens u)) (reasoning_tokens u))) s
  end.

(** ** Payloads *)

(** server/src/devin/response.rs:254-265, [base_fields]; the time is in seconds and the nanoseconds behind them. *)
Definition base_fields (now : Z * Z) (message_id : str) : res (list Field) :=
  time ← serialize_fields [varint 1 now.1; varint 2 now.2];
  Ok [text_field 1 message_id; MkField 2 (Bytes time)].
Definition with_base (now : Z * Z) (message_id : str) (fields : list Field) : res (list Z) :=
  base ← base_fields now message_id; serialize_fields (base ++ fields).
(** server/src/devin/response.rs:162-170, [text_delta]. *)
Definition devin_text_delta (now : Z * Z) (message_id t : str) : res (list Z) :=
  with_base now message_id [text_field 3 t; varint 4 (div_ceil (Z.max (zlen t) 1) 4)].
(** server/src/devin/response.rs:172-176, [thinking_delta]. *)
Definition devin_thinking_delta (now : Z * Z) (message_id t : str) : res (list Z) := with_base now message_id [text_field 9 t].
(** server/src/devin/response.rs:178-182, [signature_delta]. *)
Definition devin_signature_delta (now : Z * Z) (message_id signature : str) : res (list Z) :=
  with_base now message_id [text_field 10 signature].
(** server/src/devin/response.rs:187-201, [tool_delta]: one of the calls. *)
Definition call_bytes (tool : ToolAccumulator) : res (list Z) :=
  serialize_fields [text_field 1 (ta_call_id tool); text_field 2 (ta_name tool);
                    text_field 3 (match ta_arguments tool with [] => lit "{}" | arguments => arguments end)].
(** server/src/devin/response.rs:184-204, [tool_delta]. *)
Definition tool_delta (now : Z * Z) (message_id : str) (tools : list ToolAccumulator) : res (list Z) :=
  base ← base_fields now message_id;
  calls ← mapM call_bytes tools;
  serialize_fields (base ++ ((λ b, MkField 6 (Bytes b)) <$> calls)).
(** server/src/devin/response.rs:282-288, [finish_reason_code]. *)
Definition finish_reason_code (reason : FinishReason) : Z :=
  match reason with FinishStop => 2 | FinishLength => 3 | FinishToolUse => 10 end.
(** server/src/devin/response.rs:290-295, [provider_code]. *)
Definition provider_code (provider : ProviderType) : Z :=
  match provider with ProviderAnthropic => 11 | _ => 10 end.
(** server/src/devin/response.rs:241-250, [usage_stats]: a count that is known and positive. *)
Definition usage_field (p : Z * option Z) : list Field :=
  match p.2 with Some v => if 0 <? v then [varint p.1 v] else [] | None => [] end.
(** server/src/devin/response.rs:228-252, [usage_stats]. *)
Definition usage_stats (message_id model_uid : str) (provider : ProviderType) (u : Usage) : res (list Z) :=
  serialize_fields
    ([varint 6 (provider_code provider); text_field 7 message_id; text_field 9 model_uid; text_field 10 model_uid; text_field 11 model_uid]
     ++ ([(2, input_tokens u); (3, output_tokens u); (4, cache_write_tokens u); (5, cache_read_tokens u)] ≫= usage_field)).
(** server/src/devin/response.rs:206-226, [stop_chunk]. *)
Definition stop_chunk (now : Z * Z) (message_id : str) (reason : FinishReason) (model_uid : str) (u : option Usage) (provider : ProviderType) : res (list Z) :=
  base ← base_fields now message_id;
  stats ← match u with
          | Some u => b ← usage_stats message_id model_uid provider u; Ok [MkField 7 (Bytes b)]
          | None => Ok []
          end;
  serialize_fields (base ++ [varint 5 (finish_reason_code reason); MkField 12 (Fixed64 (replicate 8 0))] ++ stats
                    ++ match model_uid with [] => [] | _ => [text_field 23 model_uid] end).
(** server/src/devin/response.rs:267-280, [replay_signature]: the signature of the first block that has one. *)
Definition replay_signature (state : option ProviderReplayState) : option str :=
  state ← state;
  blocks ← (if is_object (replay_value state) then get_member "blocks" (replay_value state) else None);
  blocks ← as_array blocks;
  head (omap (get_str "signature") blocks).

(** ** Frames *)

Section Frames.
Context {GZ : Gzip} {SJ : SerdeJson}.

(** server/src/devin/response.rs:158-160, [frame_payload]. *)
Definition frame_payload (payload : res (list Z)) : res (list (list Z)) :=
  payload ← payload; f ← frame payload false; Ok [f].
(** server/src/devin/response.rs:74-130, [stream_event]. *)
Definition stream_event (now : Z * Z) (s : ResponseState) (event : ModelEvent) : ResponseState * res (list (list Z)) :=
  match event with
  | MStart id => (match id with [] => s | _ => with_message_id id s end, Ok [])
  | MTextDelta ((_ :: _) as t) => (s, frame_payload (devin_text_delta now (rs_message_id s) t))
  | MThinkingDelta ((_ :: _) as t) => (s, frame_payload (devin_thinking_delta now (rs_message_id s) t))
  | MToolCallStart index call_id nm =>
      (with_tool_calls (tree_insert index (MkAccumulator call_id nm []) (rs_tool_calls s)) s, Ok [])
  | MToolCallArgumentsDelta index delta =>
      (match tree_get index (rs_tool_calls s) with
       | Some tool =>
           with_tool_calls (tree_insert index (MkAccumulator (ta_call_id tool) (ta_name tool) (ta_arguments tool ++ delta)) (rs_tool_calls s)) s
       | None => s
       end, Ok [])
  | MReplayState v => (with_replay_state v s, Ok [])
  | MUsage u => (merge_usage u s, Ok [])
  | MDone reason => (with_finish_reason reason s, Ok [])
  | _ => (s, Ok [])
  end.
(** server/src/devin/response.rs:132-156, [finish]; [now] is the time of each frame. *)
Definition finish (now : nat → Z * Z) (s : ResponseState) (model_uid : str) : res (list (list Z)) :=
  let tools := (rs_tool_calls s).*2 in
  calls ← (if bool_decide (rs_finish_reason s = FinishToolUse) && bool_decide (tools ≠ [])
           then frame_payload (tool_delta (now 0%nat) (rs_message_id s) tools) else Ok []);
  signature ← match replay_signature (rs_replay_state s) with
              | Some signature => frame_payload (devin_signature_delta (now 1%nat) (rs_message_id s) signature)
              | None => Ok []
              end;
  stop ← frame_payload (stop_chunk (now 2%nat) (rs_message_id s) (rs_finish_reason s) model_uid (rs_usage s) (rs_provider s));
  last ← end_frame None;
  Ok (calls ++ signature ++ stop ++ [last]).

(** ** The stream *)

(** What the provider's stream gives: an item, or its end. *)
Inductive provided : Type := Provided (item : res ModelEvent) | ProvidedEnd.
(** server/src/devin/gateway.rs:749-754, [stream_error]: [end_frame] expects its own length to fit. *)
Definition stream_error (message : str) : list (list Z) :=
  match end_frame (Some (MkConnectError (lit "internal") message)) with Ok f => [f] | Err _ => [] end.
(** server/src/devin/gateway.rs:483-518, [handle_request]: the body of the response, and whether it is over. *)
Fixpoint devin_stream (now : nat → Z * Z) (model_uid : str) (s : ResponseState) (inputs : list provided) : list (list Z) * bool :=
  match inputs with
  | [] => ([], false)
  | ProvidedEnd :: _ => (stream_error (lit "provider stream ended without Done"), true)
  | Provided (Err error) :: _ => (stream_error (error_display error), true)
  | Provided (Ok event) :: inputs =>
      match stream_event (now 0%nat) s event with
      | (_, Err error) => (stream_error (error_display error), true)
      | (s, Ok frames) =>
          match event with
          | MDone _ =>
              (frames ++ match finish (λ n, now (S n)) s model_uid with Ok last => last | Err error => stream_error (error_display error) end, true)
          | _ => let '(rest, over) := devin_stream (λ n, now (S n)) model_uid s inputs in (frames ++ rest, over)
          end
      end
  end.
End Frames.
