(* ===== verification/DevinRelay.v ===== *)
(** * DevinRelay: what a Devin client reads of a response

    The frames of DevinResponse, read with the parser of DevinWire ([got]), against the result of the model cycle for the
    same events.  [devin_relays]: what the engine would accept reaches the client whole. *)

From stdpp Require Import prelude gmap strings list sorting.
From S2P Require Import Prelude Utf8 Errors External Json Message Configuration Tokens Budget ModelCycle ClaudeStreamFacts DevinWire DevinFields DevinResponse.
Local Open Scope Z_scope.

(** ** Reading a frame *)

(** The fields of a frame of data; an end frame has none. *)
Definition read_frame `{Gzip} (f : list Z) : option (list Field) :=
  match unwrap_request f None None with
  | Ok u => match parse_fields (payload u) with Ok fields => Some fields | Err _ => None end
  | Err _ => None
  end.
(** A text of a message, and one that may be absent. *)
Definition read_text (n : Z) (fields : list Field) : str :=
  match first_field fields n with Some (MkField _ (Bytes b)) => from_utf8_lossy b | _ => [] end.
(** The calls of a message: identifier, name and arguments. *)
Definition read_call (f : Field) : option (str * str * str) :=
  match value f with
  | Bytes b => match parse_fields b with
               | Ok fields => Some (read_text 1 fields, read_text 2 fields, read_text 3 fields)
               | Err _ => None
               end
  | _ => None
  end.
Definition read_calls (fields : list Field) : list (str * str * str) := omap read_call (all_fields fields 6).
(** Why the response stopped. *)
Definition read_reason (fields : list Field) : option Z :=
  match first_field fields 5 with Some (MkField _ (Varint v)) => Some v | _ => None end.

(** A frame of data, and the frame that ends a response. *)
Definition is_end (f : list Z) : bool := match f with 2 :: _ => true | _ => false end.
Abbreviation data := (Forall (λ f, is_end f = false)).

(** ** What was written is read back *)

Lemma frame_read `{Gzip} p f : frame p false = Ok f → zlen p ≤ MAX_BODY_SIZE ∧ is_end f = false ∧ unwrap_request f None None = Ok (MkUnwrapped p true).
Proof.
  unfold frame. destruct (MAX_BODY_SIZE <? zlen p) eqn:Hp; [done|]. intros Hf. apply framed_ok in Hf as [Hl ->]. split; [lia|]. split; [done|].
  pose proof (framed_declared p Hl) as Hd. unfold unwrap_request. change (encoding_has_gzip None) with false. cbn [mbind result_bind].
  rewrite (proj2 (Z.ltb_ge _ _)) by (unfold to_be_bytes; cbn [app]; rewrite !zlen_cons; lia).
  unfold unwrap_envelope, to_be_bytes in *. cbn [app] in *. rewrite Hd.
  change (u8 0) with 0. cbn [andb Z.leb Z.eqb Z.compare mbind result_bind]. by rewrite Hp.
Qed.
Lemma payload_read `{Gzip} fields frames : Forall field_fits fields → frame_payload (serialize_fields fields) = Ok frames →
  ∃ f, frames = [f] ∧ is_end f = false ∧ read_frame f = Some fields ∧ (∀ n b, MkField n (Bytes b) ∈ fields → zlen b ≤ MAX_BODY_SIZE).
Proof.
  intros Hf. unfold frame_payload. intros E. invert_ok E as p Hp. invert_ok E as f Hfr. apply ok_equal in E as <-. exists f. split; [done|].
  apply frame_read in Hfr as (Hl & He & Hu). split; [done|]. unfold read_frame. rewrite Hu. cbn [payload].
  destruct (serialize_read _ _ Hf Hp Hl) as [-> _]. split; [done|]. intros n b Hin.
  destruct (serialize_loop_fits _ _ _ Hp) as [_ Hb]. specialize (Hb _ _ Hin). lia.
Qed.

(** ** The calls that are collected *)

Definition ordered {A} (m : list (Z * A)) : Prop := StronglySorted (λ a b : Z * A, a.1 < b.1) m.
Lemma tree_insert_elem {A} k (x : A) m p : p ∈ tree_insert k x m → p = (k, x) ∨ p ∈ m.
Proof.
  induction m as [|[k' x'] m IH]; cbn [tree_insert].
  - intros ->%list_elem_of_singleton. by left.
  - destruct (k <? k'); [intros [->|H]%elem_of_cons; [by left|by right]|]. destruct (k' =? k).
    + intros [->|H]%elem_of_cons; [by left|]. right. by right.
    + intros [->|H%IH]%elem_of_cons; [right; by left|]. destruct H as [->|H]; [by left|]. right. by right.
Qed.
Lemma tree_insert_ordered {A} k (x : A) m : ordered m → ordered (tree_insert k x m).
Proof.
  unfold ordered. induction 1 as [|[k' x'] m Hs IH Hm]; cbn [tree_insert]; [by repeat constructor|].
  destruct (Z.ltb_spec k k') as [Hk|Hk].
  - constructor; [by constructor|]. constructor; [done|]. eapply Forall_impl; [exact Hm|]. cbn. lia.
  - destruct (Z.eqb_spec k' k) as [->|Hne]; [by constructor|]. constructor; [done|]. apply Forall_forall. intros p [->|Hp]%tree_insert_elem; cbn; [lia|].
    rewrite Forall_forall in Hm. by apply Hm.
Qed.
Lemma tree_get_ordered {A} k (x : A) m : ordered m → (k, x) ∈ m ↔ tree_get k m = Some x.
Proof.
  unfold ordered. induction 1 as [|[k' x'] m Hs IH Hm]; cbn [tree_get].
  { split; [intros H; by apply not_elem_of_nil in H|done]. }
  rewrite elem_of_cons, IH. rewrite Forall_forall in Hm. destruct (Z.eqb_spec k' k) as [->|Hne].
  - split; [intros [[= ->]|H]; [done|]|intros [= ->]; by left]. apply IH in H. apply Hm in H. cbn in H. lia.
  - split; [intros [[= -> ->]|H]; done|]. by right.
Qed.

(** The collected call of an open call of the cycle. *)
Definition collects (t : OpenTool) (a : ToolAccumulator) : Prop :=
  ta_call_id a = call_id (ot_call t) ∧ normalize_tool_name (ta_name a) = name (ot_call t) ∧ ta_arguments a = arguments_text (ot_call t) ∧
  text_ok (ta_call_id a) ∧ text_ok (ta_name a) ∧ text_ok (ta_arguments a).
Definition collected_all (M : gmap Z OpenTool) (m : list (Z * ToolAccumulator)) : Prop :=
  ordered m ∧ ∀ i, option_Forall2 collects (M !! i) (tree_get i m).

Lemma collected_insert M m i t a : collected_all M m → collects t a → collected_all (<[i := t]> M) (tree_insert i a m).
Proof.
  intros [Ho Hm] Ha. split; [by apply tree_insert_ordered|]. intros j. rewrite tree_get_insert.
  destruct (decide (i = j)) as [->|Hne]; [rewrite lookup_insert_eq; by constructor|]. by rewrite lookup_insert_ne.
Qed.
Lemma collected_update M m i t t' a : collected_all M m → M !! i = Some t → tree_get i m = Some a → (collects t a → collects t' a) →
  collected_all (<[i := t']> M) m.
Proof.
  intros [Ho Hm] Ht Ha Hc. split; [done|]. intros j. destruct (decide (i = j)) as [<-|Hne]; [|by rewrite lookup_insert_ne].
  rewrite lookup_insert_eq, Ha. specialize (Hm i). rewrite Ht, Ha in Hm. inversion Hm as [? ? Hc'|]; subst. constructor. by apply Hc.
Qed.
(** Entries of the two maps side by side. *)
Abbreviation aligned := (Forall2 (λ (p : Z * OpenTool) (q : Z * ToolAccumulator), p.1 = q.1 ∧ collects p.2 q.2)).
Lemma ordered_keys {A} (m : list (Z * A)) : ordered m → NoDup m.*1.
Proof.
  induction 1 as [|[k x] m Ho IH Hm]; [constructor|]. cbn. constructor; [|done]. intros ([k' x'] & -> & Hin)%list_elem_of_fmap.
  rewrite Forall_forall in Hm. apply Hm in Hin. cbn in Hin. lia.
Qed.
Lemma aligned_keys l m : aligned l m → l.*1 = m.*1.
Proof. induction 1 as [|p q l m [H1 _] Hl IH]; [done|]. cbn. by f_equal. Qed.
Lemma aligned_ordered l m : aligned l m → ordered m → StronglySorted index_le l.
Proof.
  intros Hl. induction Hl as [|[i t] [j a] l m [H1 _] Hl IH]; [constructor|]. cbn in H1. subst j. intros Ho. inversion_clear Ho as [|? ? Ho1 Ho2].
  constructor; [by apply IH|]. clear -Hl Ho2. induction Hl as [|[i' t'] [j' a'] l m [H1 _] Hl IH]; [constructor|]. cbn in H1. subst j'.
  inversion_clear Ho2 as [|? ? Hlt Ho]. constructor; [|by apply IH]. unfold index_le. cbn in *. lia.
Qed.
Lemma aligned_entry l m i a : aligned l m → (i, a) ∈ m → ∃ t, (i, t) ∈ l.
Proof.
  induction 1 as [|[i' t'] [j' a'] l m [H1 _] Hl IH]; [intros H; by apply not_elem_of_nil in H|]. cbn in H1. subst j'.
  intros [[= -> ->]|Hin]%elem_of_cons; [exists t'; by left|]. destruct (IH Hin) as [t Ht]. exists t. by right.
Qed.
Lemma aligned_exists M m : collected_all M m → ∃ l, aligned l m ∧ ∀ i t, (i, t) ∈ l → M !! i = Some t.
Proof.
  intros [Ho Hm]. assert (∀ k, k ⊆ m → ∃ l, aligned l k ∧ ∀ i t, (i, t) ∈ l → M !! i = Some t) as Hk; [|by apply Hk].
  induction k as [|[i a] k IH]; intros Hsub.
  { exists []. split; [constructor|]. intros i t H. by apply not_elem_of_nil in H. }
  destruct IH as (l & Hl & HM); [intros p Hp; apply Hsub; by right|].
  assert (tree_get i m = Some a) as Ha by (apply (tree_get_ordered i a m Ho), Hsub; by left). specialize (Hm i). rewrite Ha in Hm.
  inversion Hm as [t ? Hc E|]; subst. exists ((i, t) :: l). split; [by constructor|]. intros j u [[= -> ->]|Hin]%elem_of_cons; [done|by apply HM].
Qed.
(** The calls in the order of their indices are those of the cycle. *)
Lemma collected_calls M m : collected_all M m → Forall2 (λ call a, ∃ b, collects (MkOpenTool call b) a) (into_calls M) m.*2.
Proof.
  intros H. destruct (aligned_exists M m H) as (l & Hl & HM). destruct H as [Ho Hm].
  assert (l = merge_sort index_le (map_to_list M)) as El.
  { apply (StronglySorted_unique_strong index_le).
    - intros [i t] [j u] H1 H2 Hle Hge. unfold index_le in *. cbn in *. assert (i = j) as -> by lia. f_equal.
      apply HM in H1. rewrite merge_sort_Permutation, elem_of_map_to_list in H2. congruence.
    - by eapply aligned_ordered.
    - apply (StronglySorted_merge_sort index_le).
    - rewrite merge_sort_Permutation. apply NoDup_Permutation; [|apply NoDup_map_to_list|].
      + apply (NoDup_fmap_1 fst). rewrite (aligned_keys _ _ Hl). by apply ordered_keys.
      + intros [i t]. rewrite elem_of_map_to_list. split; [apply HM|]. intros Ht.
        pose proof (Hm i) as Hi. rewrite Ht in Hi. inversion Hi as [? a Hc E E2|]; subst. symmetry in E2. apply tree_get_ordered in E2; [|done].
        destruct (aligned_entry _ _ _ _ Hl E2) as [t' Hin]. pose proof (HM _ _ Hin). assert (t' = t) as -> by congruence. done. }
  assert (into_calls M = (λ p, ot_call p.2) <$> l) as -> by (rewrite El; reflexivity). clear -Hl.
  induction Hl as [|[i t] [j a] l m [_ Hc] Hl IH]; [constructor|]. cbn. constructor; [|done]. exists (ot_ended t). by destruct t.
Qed.

(** ** The events *)

Section Relay.
Context {GZ : Gzip} {SJ : SerdeJson}.

(** The texts of an event that are sent: Unicode, and of a length that a [usize] can hold. *)
Definition event_text_ok (e : ModelEvent) : Prop :=
  match e with
  | MTextDelta t => text_ok t ∧ zlen t < 2 ^ 64
  | MThinkingDelta t | MToolCallArgumentsDelta _ t => text_ok t
  | MToolCallStart _ id nm => text_ok id ∧ text_ok nm
  | MReplayState v => text_ok (default [] (replay_signature (Some v)))
  | _ => True
  end.

(** The frames of events, up to the first that cannot be written. *)
Fixpoint stream_events (now : nat → Z * Z) (s : ResponseState) (es : list ModelEvent) : ResponseState * res (list (list Z)) :=
  match es with
  | [] => (s, Ok [])
  | e :: es =>
      match stream_event (now 0%nat) s e with
      | (s, Err error) => (s, Err error)
      | (s, Ok frames) => let '(s, r) := stream_events (λ n, now (S n)) s es in (s, rest ← r; Ok (frames ++ rest))
      end
  end.
Lemma stream_events_snoc e : ∀ es now s, stream_events now s (es ++ [e]) =
  match stream_events now s es with
  | (s, Err error) => (s, Err error)
  | (s, Ok frames) => let '(s, r) := stream_event (now (length es)) s e in (s, last ← r; Ok (frames ++ last))
  end.
Proof.
  induction es as [|e' es IH]; intros now s; cbn [app stream_events length].
  - destruct (stream_event (now 0%nat) s e) as [s' [fr|]]; [|done]. cbn. by rewrite app_nil_r.
  - destruct (stream_event (now 0%nat) s e') as [s' [fr|]]; [|done]. rewrite IH.
    destruct (stream_events (λ n, now (S n)) s' es) as [s2 [fr2|]]; [|done]. cbn [mbind result_bind].
    destruct (stream_event (now (S (length es))) s2 e) as [s3 [fr3|]]; [|done]. cbn. by rewrite app_assoc.
Qed.
Definition is_done (e : ModelEvent) : bool := match e with MDone _ => true | _ => false end.
(** The body of a response whose provider is done. *)
Lemma devin_stream_done uid reason : ∀ es now s frames s' last, forallb (λ e, negb (is_done e)) es = true →
  stream_events now s (es ++ [MDone reason]) = (s', Ok frames) → finish (λ n, now (S (length es + n))) s' uid = Ok last →
  devin_stream now uid s ((λ e, Provided (Ok e)) <$> (es ++ [MDone reason])) = (frames ++ last, true).
Proof.
  induction es as [|e es IH]; intros now s frames s' last Hd Hs Hf; cbn [app stream_events fmap list_fmap devin_stream] in *.
  - cbn [stream_event] in *. injection Hs as <- <-. cbn [length Nat.add] in Hf. rewrite Hf. done.
  - apply andb_true_iff in Hd as [He Hd]. destruct (stream_event (now 0%nat) s e) as [s1 [fr|error]]; [|discriminate].
    destruct (stream_events (λ n, now (S n)) s1 (es ++ [MDone reason])) as [s2 [fr2|error]] eqn:E; [|discriminate].
    cbn [mbind result_bind] in Hs. injection Hs as <- <-. specialize (IH _ _ _ _ last Hd E Hf). cbn [fmap list_fmap] in IH.
    destruct e; try discriminate; rewrite IH; by rewrite app_assoc.
Qed.

(** *** A frame *)

Lemma base_fields_ok now id base : base_fields now id = Ok base → ∃ time, base = [text_field 1 id; MkField 2 (Bytes time)].
Proof. unfold base_fields. intros E. invert_ok E as time Ht. apply ok_equal in E as <-. by exists time. Qed.
Lemma base_read now id fields frames : Forall field_fits fields → frame_payload (with_base now id fields) = Ok frames →
  ∃ f time, frames = [f] ∧ is_end f = false ∧ read_frame f = Some (text_field 1 id :: MkField 2 (Bytes time) :: fields) ∧
    (∀ n b, MkField n (Bytes b) ∈ fields → zlen b ≤ MAX_BODY_SIZE).
Proof.
  intros Hf. unfold with_base. intros E. destruct (base_fields now id) as [base|] eqn:Eb; [|discriminate]. cbn [mbind result_bind] in E.
  apply base_fields_ok in Eb as [time ->]. cbn [app] in E. apply payload_read in E as (f & -> & Hd & Hr & Hb); [exists f, time; split_and!; try done; intros n b Hin; apply (Hb n); by do 2 right|].
  by repeat constructor.
Qed.

(** What a client has got with frames. *)
Record Got : Type := MkGot {
  g_text : str;
  g_thinking : str;
  g_signature : str;
  g_calls : list (str * str * str);
  g_reasons : list Z
}.
Definition received (frames : list (list Z)) : list (list Field) := omap read_frame frames.
Definition got (frames : list (list Z)) : Got :=
  MkGot (concat (read_text 3 <$> received frames)) (concat (read_text 9 <$> received frames)) (concat (read_text 10 <$> received frames))
    (received frames ≫= read_calls) (omap read_reason (received frames)).
Definition got_app (a b : Got) : Got :=
  MkGot (g_text a ++ g_text b) (g_thinking a ++ g_thinking b) (g_signature a ++ g_signature b) (g_calls a ++ g_calls b) (g_reasons a ++ g_reasons b).
Lemma got_frames a b : got (a ++ b) = got_app (got a) (got b).
Proof.
  unfold got, got_app. assert (received (a ++ b) = received a ++ received b) as -> by apply omap_app.
  cbn [g_text g_thinking g_signature g_calls g_reasons]. by rewrite !fmap_app, !concat_app, bind_app, omap_app.
Qed.
Lemma one_received now id fields frames : Forall field_fits fields → frame_payload (with_base now id fields) = Ok frames →
  data frames ∧ ∃ time, received frames = [text_field 1 id :: MkField 2 (Bytes time) :: fields].
Proof.
  intros Hf E. apply base_read in E as (f & time & -> & Hd & Hr & _); [|done]. split; [by repeat constructor|]. exists time.
  unfold received. cbn. by rewrite Hr.
Qed.
Lemma text_received now id t frames : text_ok t → zlen t < 2 ^ 64 → frame_payload (devin_text_delta now id t) = Ok frames →
  data frames ∧ got frames = MkGot t [] [] [] [].
Proof.
  intros Ht Hn E. apply one_received in E as [Hd [time Hr]].
  - split; [done|]. unfold got. rewrite Hr. transitivity (MkGot (from_utf8_lossy (as_bytes t) ++ []) [] [] [] []); [reflexivity|].
    by rewrite app_nil_r, lossy_as_bytes.
  - unfold text_field, varint, field_fits, div_ceil. repeat constructor; cbn [number value]; try lia;
      pose proof (zlen_nonneg t); try (apply Z.div_pos; lia); try (apply Z.div_lt_upper_bound; lia).
Qed.
Lemma thinking_received now id t frames : text_ok t → frame_payload (devin_thinking_delta now id t) = Ok frames →
  data frames ∧ got frames = MkGot [] t [] [] [].
Proof.
  intros Ht E. apply one_received in E as [Hd [time Hr]]; [|by repeat constructor]. split; [done|]. unfold got. rewrite Hr.
  transitivity (MkGot [] (from_utf8_lossy (as_bytes t) ++ []) [] [] []); [reflexivity|]. by rewrite app_nil_r, lossy_as_bytes.
Qed.
Lemma signature_received now id t frames : text_ok t → frame_payload (devin_signature_delta now id t) = Ok frames →
  data frames ∧ got frames = MkGot [] [] t [] [].
Proof.
  intros Ht E. apply one_received in E as [Hd [time Hr]]; [|by repeat constructor]. split; [done|]. unfold got. rewrite Hr.
  transitivity (MkGot [] [] (from_utf8_lossy (as_bytes t) ++ []) [] []); [reflexivity|]. by rewrite app_nil_r, lossy_as_bytes.
Qed.

(** What the client has got is what the cycle has. *)
Record relayed (c : Cycle) (s : ResponseState) (frames : list (list Z)) : Prop := {
  rl_data : data frames;
  rl_got : got frames = MkGot (c_text c) (c_reasoning c) [] [] [];
  rl_tools : collected_all (c_tools c) (rs_tool_calls s);
  rl_reason r : c_finish c = Some r → rs_finish_reason s = r;
  rl_replay : rs_replay_state s = c_replay c
}.
Lemma relayed_more c s frames out c' s' t th : relayed c s frames → data out ∧ got out = MkGot t th [] [] [] →
  c_text c' = c_text c ++ t → c_reasoning c' = c_reasoning c ++ th → collected_all (c_tools c') (rs_tool_calls s') →
  (∀ r, c_finish c' = Some r → rs_finish_reason s' = r) → rs_replay_state s' = c_replay c' → relayed c' s' (frames ++ out).
Proof.
  intros [H1 H2 H3 H4 H5] [E1 E2] E3 E4 E5 E6 E7. split; [by apply Forall_app| |done..]. rewrite got_frames, H2, E2, E3, E4. done.
Qed.
Lemma relayed_silent c s frames c' s' : relayed c s frames → c_text c' = c_text c → c_reasoning c' = c_reasoning c →
  collected_all (c_tools c') (rs_tool_calls s') → (∀ r, c_finish c' = Some r → rs_finish_reason s' = r) → rs_replay_state s' = c_replay c' →
  relayed c' s' (frames ++ []).
Proof. intros H E1 E2 E3 E4 E5. apply (relayed_more c s _ _ _ _ [] []); rewrite ?app_nil_r; try done. Qed.

(** What an open call keeps when it is closed. *)
Lemma close_collects c b b' a : collects (MkOpenTool c b) a → collects (MkOpenTool (close_call c) b') a.
Proof. unfold collects, close_call. cbn [ot_call]. intros H. repeat case_match; exact H. Qed.
Lemma merge_usage_tools v s : rs_tool_calls (merge_usage v s) = rs_tool_calls s ∧ rs_finish_reason (merge_usage v s) = rs_finish_reason s ∧
  rs_replay_state (merge_usage v s) = rs_replay_state s.
Proof. unfold merge_usage. by repeat case_match. Qed.
Lemma event_relayed now c s frames e tick c' s' out : accepts tick c e c' → c_finish c = None → event_text_ok e →
  stream_event now s e = (s', Ok out) → relayed c s frames → relayed c' s' (frames ++ out).
Proof.
  intros Ha Hfin Ht Hs H. pose proof (rl_tools _ _ _ H) as H4. pose proof (rl_replay _ _ _ H) as H5.
  destruct Ha as [i|m ch Hm Ho Hc|d ch Ho Hc|ch Ho Hc|m ch Hm Ho Hc|t d ch Ho Hc|x|x|t ch Ho Hc|m i id nm ch Hm Hi Hid Hc|i call d ch Hi Hc|i call ch Hi Hc|v Hv|v ch Hv Hc|m reason Hm Ho];
    cbn [stream_event] in Hs.
  all: try (injection Hs as <- <-; apply (relayed_silent c s); [exact H|done|done|done|cbn; congruence|done]).
  - destruct i; injection Hs as <- <-; (apply (relayed_silent c s); [exact H|done|done|done|cbn; congruence|done]).
  - destruct Ht as [Ht Hn]. destruct d as [|x d].
    + injection Hs as <- <-. apply (relayed_silent c s); [exact H|cbn; by rewrite app_nil_r|done|done|cbn; congruence|done].
    + apply pair_eq in Hs as [<- Hs]. apply text_received in Hs; [|exact Ht|exact Hn]. eapply (relayed_more c s); [exact H|exact Hs|cbn; by rewrite ?app_nil_r..|done|cbn; congruence|done].
  - destruct d as [|x d].
    + injection Hs as <- <-. apply (relayed_silent c s); [exact H|done|cbn; by rewrite app_nil_r|done|cbn; congruence|done].
    + apply pair_eq in Hs as [<- Hs]. apply thinking_received in Hs; [|exact Ht]. eapply (relayed_more c s); [exact H|exact Hs|cbn; by rewrite ?app_nil_r..|done|cbn; congruence|done].
  - injection Hs as <- <-. destruct Ht as [Hti Htn]. apply (relayed_silent c s); [exact H|done|done| |cbn; congruence|done]. cbn.
    apply collected_insert; [done|]. split_and!; cbn; try done. constructor.
  - injection Hs as <- <-. apply (relayed_silent c s); [exact H|done|done| |by destruct (tree_get _ _); cbn; congruence|by destruct (tree_get _ _)]. cbn.
    pose proof (proj2 H4 i) as Hct. rewrite Hi in Hct. destruct (tree_get i (rs_tool_calls s)) as [a|] eqn:Ea; [|by inversion Hct].
    inversion Hct as [? ? (E1 & E2 & E3 & E4 & E5 & E6)|]; subst.
    apply collected_insert; [done|]. unfold collects. cbn in *. split_and!; try done; [by rewrite E3|by apply Forall_app].
  - injection Hs as <- <-. apply (relayed_silent c s); [exact H|done|done| |cbn; congruence|done]. cbn.
    pose proof (proj2 H4 i) as Hct. rewrite Hi in Hct. destruct (tree_get i (rs_tool_calls s)) as [a|] eqn:Ea; [|by inversion Hct].
    eapply collected_update; [done|exact Hi|done|apply close_collects].
  - apply pair_eq in Hs as [<- Hs]. apply ok_equal in Hs as <-. destruct (merge_usage_tools v s) as (E1 & E2 & E3).
    apply (relayed_silent c s); [exact H|done|done|by rewrite E1|rewrite E2; cbn; congruence|by rewrite E3].
Qed.

(** *** The end *)

Definition sent_arguments (a : ToolAccumulator) : str := match ta_arguments a with [] => lit "{}" | arguments => arguments end.
Definition sent_call (a : ToolAccumulator) : str * str * str := (ta_call_id a, ta_name a, sent_arguments a).
Definition call_text_ok (a : ToolAccumulator) : Prop := text_ok (ta_call_id a) ∧ text_ok (ta_name a) ∧ text_ok (ta_arguments a).
Lemma call_read a b : call_bytes a = Ok b → zlen b ≤ MAX_BODY_SIZE → call_text_ok a → read_call (MkField 6 (Bytes b)) = Some (sent_call a).
Proof.
  intros Hb Hl (H1 & H2 & H3). unfold call_bytes in Hb. fold (sent_arguments a) in Hb.
  assert (text_ok (sent_arguments a)) as H4 by (unfold sent_arguments; destruct (ta_arguments a); [repeat constructor|done]).
  apply serialize_read in Hb as [Hr _]; [|by repeat constructor|done]. unfold read_call. cbn [value]. rewrite Hr.
  transitivity (Some (from_utf8_lossy (as_bytes (ta_call_id a)), from_utf8_lossy (as_bytes (ta_name a)), from_utf8_lossy (as_bytes (sent_arguments a))));
    [reflexivity|]. by rewrite !lossy_as_bytes.
Qed.
Lemma calls_read tools : ∀ calls, mapM call_bytes tools = Ok calls → (∀ b, b ∈ calls → zlen b ≤ MAX_BODY_SIZE) → Forall call_text_ok tools →
  omap read_call ((λ b, MkField 6 (Bytes b)) <$> calls) = sent_call <$> tools.
Proof.
  induction tools as [|a tools IH]; intros calls; cbn [mapM mret result_ret].
  { by intros <-%ok_equal. }
  intros E Hl Ht. invert_ok E as b Hb. invert_ok E as bs Hbs. apply ok_equal in E as <-. inversion_clear Ht as [|? ? Ha Ht'].
  cbn [fmap list_fmap omap list_omap]. rewrite (call_read a b Hb); [|apply Hl; by left|done]. f_equal. apply IH; [done| |done]. intros b' Hin. apply Hl. by right.
Qed.
Lemma tools_received now id tools frames : frame_payload (tool_delta now id tools) = Ok frames → Forall call_text_ok tools →
  data frames ∧ got frames = MkGot [] [] [] (sent_call <$> tools) [].
Proof.
  intros E Ht. unfold tool_delta in E. unfold frame_payload in E. invert_ok E as p Hp. invert_ok Hp as base Hb. invert_ok Hp as calls Hc.
  set (fields := (λ b, MkField 6 (Bytes b)) <$> calls) in *.
  assert (frame_payload (with_base now id fields) = Ok frames) as Hw.
  { unfold frame_payload, with_base. rewrite Hb. cbn [mbind result_bind]. rewrite Hp. exact E. }
  apply base_read in Hw as (f & time & -> & Hd & Hr & Hl); [|unfold fields; apply Forall_fmap, Forall_true; by repeat constructor].
  split; [by repeat constructor|]. unfold got, received. cbn [omap list_omap]. rewrite Hr.
  unfold read_text, read_reason, read_calls. cbn [omap list_omap fmap list_fmap mbind list_bind concat]. rewrite !first_base by done.
  subst fields. rewrite !first_field_other by done. f_equal. rewrite app_nil_r. unfold all_fields. rewrite !filter_cons_False by done.
  fold (all_fields ((λ b, MkField 6 (Bytes b)) <$> calls) 6). rewrite all_fields_same. apply calls_read; [done| |done].
  intros b Hin. apply (Hl 6), list_elem_of_fmap. by exists b.
Qed.
Lemma stop_received now id reason uid u provider frames : frame_payload (stop_chunk now id reason uid u provider) = Ok frames →
  data frames ∧ got frames = MkGot [] [] [] [] [finish_reason_code reason].
Proof.
  intros E. unfold stop_chunk, frame_payload in E. invert_ok E as p Hp. invert_ok Hp as base Hb. invert_ok Hp as stats Hs.
  set (fields := varint 5 (finish_reason_code reason) :: MkField 12 (Fixed64 (replicate 8 0)) :: stats ++ match uid with [] => [] | _ => [text_field 23 uid] end).
  assert (stats = [] ∨ ∃ b, stats = [MkField 7 (Bytes b)]) as Hst.
  { destruct u; [invert_ok Hs as b Hu; apply ok_equal in Hs as <-; right; by exists b|apply ok_equal in Hs as <-; by left]. }
  assert (frame_payload (with_base now id fields) = Ok frames) as Hw.
  { unfold frame_payload, with_base. rewrite Hb. cbn [mbind result_bind]. change (base ++ fields) with (base ++ [varint 5 (finish_reason_code reason); MkField 12 (Fixed64 (replicate 8 0))] ++ stats ++ match uid with [] => [] | _ => [text_field 23 uid] end).
    rewrite Hp. exact E. }
  assert (Forall field_fits fields) as Hf.
  { destruct reason; destruct Hst as [->|[b ->]], uid; by repeat constructor. }
  apply one_received in Hw as [Hd [time Hr]]; [|done]. split; [done|]. unfold got. rewrite Hr. subst fields.
  destruct Hst as [->|[b ->]], uid; reflexivity.
Qed.

Lemma finish_received now s uid last : finish now s uid = Ok last → Forall call_text_ok (rs_tool_calls s).*2 →
  text_ok (default [] (replay_signature (rs_replay_state s))) → ∃ frames e, last = frames ++ [e] ∧ data frames ∧ end_frame None = Ok e ∧
  got frames = MkGot [] [] (default [] (replay_signature (rs_replay_state s)))
                 (if bool_decide (rs_finish_reason s = FinishToolUse) then sent_call <$> (rs_tool_calls s).*2 else [])
                 [finish_reason_code (rs_finish_reason s)].
Proof.
  intros E Hc Hs. unfold finish in E. invert_ok E as calls Ec. invert_ok E as signature Es. invert_ok E as stop Et. invert_ok E as e Ee.
  apply ok_equal in E as <-. apply stop_received in Et as [D3 G3].
  assert (data signature ∧ got signature = MkGot [] [] (default [] (replay_signature (rs_replay_state s))) [] []) as [D2 G2].
  { destruct (replay_signature (rs_replay_state s)); [by eapply signature_received|by apply ok_equal in Es as <-]. }
  assert (data calls ∧ got calls = MkGot [] [] [] (if bool_decide (rs_finish_reason s = FinishToolUse) then sent_call <$> (rs_tool_calls s).*2 else []) []) as [D1 G1].
  { destruct (bool_decide (rs_finish_reason s = FinishToolUse)); cbn [andb] in Ec; [|by apply ok_equal in Ec as <-].
    destruct (rs_tool_calls s).*2 as [|a tools] eqn:Ea; [by apply ok_equal in Ec as <-|]. rewrite bool_decide_eq_true_2 in Ec by done. by eapply tools_received. }
  exists (calls ++ signature ++ stop), e. split; [by rewrite <- !app_assoc|]. split; [by repeat apply Forall_app_2|]. split; [done|].
  rewrite !got_frames, G1, G2, G3. unfold got_app. cbn [g_text g_thinking g_signature g_calls g_reasons app]. by rewrite !app_nil_r.
Qed.

(** ** The response *)

Lemma steps_relayed now c0 es c s0 : steps c0 es c → c_finish c0 = None → relayed c0 s0 [] → Forall event_text_ok es →
  ∀ s frames, stream_events now s0 es = (s, Ok frames) → relayed c s frames.
Proof.
  intros Hs H0 Hr. induction Hs as [c0|c0 es c tick e c' Hs IH Hf Ha]; intros Ht s frames Hst.
  - cbn in Hst. by injection Hst as <- <-.
  - apply Forall_app in Ht as [Ht He]. inversion_clear He as [|? ? He' _]. rewrite stream_events_snoc in Hst.
    destruct (stream_events now s0 es) as [s1 [fr|]] eqn:E; [|discriminate]. destruct (stream_event (now (length es)) s1 e) as [s2 [fr2|]] eqn:E2; [|discriminate].
    cbn [mbind result_bind] in Hst. injection Hst as <- <-. eapply event_relayed; [exact Ha|exact Hf|exact He'|exact E2|]. by apply IH.
Qed.
Lemma steps_not_done c0 es c : steps c0 es c → c_finish c0 = None → c_finish c = None → forallb (λ e, negb (is_done e)) es = true.
Proof.
  intros Hs H0. induction Hs as [c0|c0 es c tick e c' Hs IH Hf Ha]; intros Hc; [done|]. rewrite forallb_app, IH by done. by destruct Ha.
Qed.
(** Only the last event is [Done]. *)
Lemma steps_done c0 es c : steps c0 es c → c_finish c0 = None → c_finish c ≠ None →
  ∃ es' reason, es = es' ++ [MDone reason] ∧ forallb (λ e, negb (is_done e)) es' = true ∧ c_finish c = Some reason.
Proof.
  intros Hs H0 Hc. destruct Hs as [c0|c0 es c tick e c' Hs Hf Ha]; [done|].
  destruct Ha; try (by cbn in Hc; rewrite Hf in Hc). exists es, reason. by split_and!; [|eapply steps_not_done|].
Qed.
(** What a replay state that was accepted says was sent in an event. *)
Lemma steps_replay c0 es c : steps c0 es c → c_replay c0 = None → Forall event_text_ok es → text_ok (default [] (replay_signature (c_replay c))).
Proof.
  intros Hs H0. induction Hs as [c0|c0 es c tick e c' Hs IH Hf Ha]; intros Ht; [rewrite H0; constructor|].
  apply Forall_app in Ht as [Ht He]. inversion_clear He as [|? ? He' _]. specialize (IH H0 Ht). by destruct Ha.
Qed.
Lemma finish_facts c r : finish_cycle c = Ok r → c_finish c = Some (r_finish_reason r) ∧ r_text r = c_text c ∧ r_reasoning r = c_reasoning c ∧
  r_replay_state r = c_replay c ∧ r_calls r = into_calls (c_tools c) ∧ (r_finish_reason r = FinishToolUse ↔ r_calls r ≠ []).
Proof.
  unfold finish_cycle. intros H. repeat case_match; simplify_eq; cbn; split_and!; try done;
    match goal with H : negb (Bool.eqb _ _) = false |- _ => apply negb_false_iff, eqb_prop in H end;
    repeat case_bool_decide; done.
Qed.

Lemma end_received error e : end_frame error = Ok e → is_end e = true ∧ got [e] = MkGot [] [] [] [] [].
Proof.
  intros He. destruct (end_frame_rejected error e None None He eq_refl) as [_ [er Her]]. split.
  - unfold end_frame in He. by apply framed_ok in He as [_ ->].
  - unfold got, received. cbn [omap list_omap]. unfold read_frame. by rewrite Her.
Qed.
Lemma finish_clock now now' s uid : (∀ n, now n = now' n) → finish now s uid = finish now' s uid.
Proof. intros H. unfold finish. by rewrite !H. Qed.

(** C19: A response that the engine itself would accept reaches a Devin client whole.  When the model cycle returns a result
    for the events of a provider and every frame can be written, the body is over, it ends with the one end frame, and
    what a client reads in the frames before is that result: its text, its reasoning and the signature of its replay
    state, its calls in their order with their identifiers, names and arguments (an empty object for none), and why it stopped. *)
Theorem devin_relays client timed t c r now id provider uid s frames last :
  consume_model_cycle client (((λ p, (p.1, Item (Ok p.2))) <$> timed) ++ [(t, StreamEnd false)]) = Some (c, Ok r) →
  let events := snd <$> timed in
  Forall event_text_ok events →
  stream_events now (new_response id provider) events = (s, Ok frames) →
  finish (λ n, now (length events + n)%nat) s uid = Ok last →
  let body := frames ++ last in
  devin_stream now uid (new_response id provider) ((λ e, Provided (Ok e)) <$> events) = (body, true) ∧
  (∃ whole e, body = whole ++ [e] ∧ data whole ∧ end_frame None = Ok e) ∧
  ∃ calls, got body = MkGot (r_text r) (r_reasoning r) (default [] (replay_signature (r_replay_state r))) calls [finish_reason_code (r_finish_reason r)] ∧
    Forall2 (λ call sent, sent.1.1 = call_id call ∧ normalize_tool_name sent.1.2 = name call ∧
      sent.2 = match arguments_text call with [] => lit "{}" | arguments => arguments end) (r_calls r) calls.
Proof.
  intros H events Ht Hs Hf body. apply cycle_ok_steps in H as [Hst Hfin]. apply finish_facts in Hfin as (F1 & F2 & F3 & F4 & F5 & F6).
  assert (relayed (new_cycle client) (new_response id provider) []) as R0.
  { split; try done. split; [constructor|]. intros i. cbn. rewrite lookup_empty. constructor. }
  pose proof (steps_relayed now _ _ _ _ Hst eq_refl R0 Ht _ _ Hs) as [R1 R2 R3 R4 R5].
  pose proof (collected_calls _ _ R3) as Hc. specialize (R4 _ F1).
  assert (Forall call_text_ok (rs_tool_calls s).*2) as Hct.
  { clear -Hc. induction Hc as [|? ? ? ? (b & _ & _ & _ & H) _ IH]; by constructor. }
  pose proof (steps_replay _ _ _ Hst eq_refl Ht) as Hrep. rewrite <- R5 in Hrep.
  destruct (finish_received _ _ _ _ Hf Hct Hrep) as (whole & e & Hl & Hd & He & Hg). rewrite R5, R4 in Hg.
  split; [|split].
  - destruct (steps_done _ _ _ Hst eq_refl) as (es & reason & Ee & Hn & _); [by rewrite F1|]. fold events in Ee. subst body. rewrite Ee.
    eapply devin_stream_done; [exact Hn|rewrite <- Ee; exact Hs|]. rewrite Ee, length_app in Hf. cbn [length] in Hf.
    rewrite <- Hf. apply finish_clock. intros n. f_equal. lia.
  - exists (frames ++ whole), e. subst body. rewrite Hl, app_assoc. split; [done|]. split; [by apply Forall_app|done].
  - exists (if bool_decide (r_finish_reason r = FinishToolUse) then sent_call <$> (rs_tool_calls s).*2 else []). split.
    + subst body. rewrite Hl, !got_frames, R2, Hg, (proj2 (end_received _ _ He)), F2, F3, F4. unfold got_app. cbn [g_text g_thinking g_signature g_calls g_reasons app].
      by rewrite !app_nil_r.
    + rewrite F5 in *. case_bool_decide as Hu; [|destruct (into_calls (c_tools c)); [constructor|by destruct Hu; apply F6]].
      clear -Hc. induction Hc as [|call a calls tools (b & E1 & E2 & E3 & _) _ IH]; [constructor|]. cbn [fmap list_fmap]. constructor; [|done].
      unfold sent_call, sent_arguments. cbn [fst snd]. split_and!; [done..|]. by rewrite E3.
Qed.
End Relay.



(** ** A response *)

Module DevinSamples.
Definition blocks : json := object [("blocks"%string, JArray [object [("signature"%string, text "sig")]])].
Definition timed : list (Z * ModelEvent) := (λ e, (7, e)) <$>
  [MStart (lit "m1"); MThinkingStart; MThinkingDelta (lit "hm"); MThinkingEnd; MTextStart; MTextDelta [104; 233]; MTextEnd;
   MToolCallStart 1 (lit "c1") (lit "ls"); MToolCallStart 0 (lit "c0") (lit "rm"); MToolCallArgumentsDelta 0 (lit "{");
   MToolCallEnd 1; MToolCallArgumentsDelta 0 (lit "}"); MToolCallEnd 0; MReplayState (MkReplay (lit "anthropic") blocks); MDone FinishToolUse].
Definition start : ResponseState := new_response (lit "r1") ProviderAnthropic.
Definition now (n : nat) : Z * Z := (1000 + Z.of_nat n, 0).
Definition events_out : ResponseState * res (list (list Z)) := @stream_events Samples.stored now start (snd <$> timed).
Definition frames : list (list Z) := match events_out.2 with Ok f => f | Err _ => [] end.
Definition last : list (list Z) :=
  match @finish Samples.stored Samples.tiny_json (λ n, now (length timed + n)%nat) events_out.1 (lit "claude") with Ok f => f | Err _ => [] end.
End DevinSamples.

Lemma devin_relays_witness :
  @devin_stream Samples.stored Samples.tiny_json DevinSamples.now (lit "claude") DevinSamples.start ((λ e, Provided (Ok e)) <$> (snd <$> DevinSamples.timed)) =
    (DevinSamples.frames ++ DevinSamples.last, true) ∧
  @got Samples.stored (DevinSamples.frames ++ DevinSamples.last) =
    MkGot [104; 233] (lit "hm") (lit "sig") [(lit "c0", lit "rm", lit "{}"); (lit "c1", lit "ls", lit "{}")] [10].
Proof.
  split; [|vm_compute; reflexivity].
  refine (proj1 (@devin_relays Samples.stored Samples.tiny_json None DevinSamples.timed 8 _ (MkCycleResult (lit "m1") _ _ _ _ _ FinishToolUse)
    DevinSamples.now (lit "r1") ProviderAnthropic (lit "claude") DevinSamples.events_out.1 DevinSamples.frames DevinSamples.last _ _ _ _)).
  - vm_compute. reflexivity.
  - repeat constructor; vm_compute; reflexivity.
  - vm_compute. reflexivity.
  - vm_compute. reflexivity.
Defined.

(** Two signed blocks of thinking reach the client as one text with the first signature, and that is the block the next
    request replays. *)
Lemma thinking_signed_once :
  let blocks := object [("blocks"%string, JArray [object [("thinking"%string, text "a"); ("signature"%string, text "s1")];
                                                  object [("thinking"%string, text "b"); ("signature"%string, text "s2")]])] in
  let events := [MThinkingDelta (lit "a"); MThinkingDelta (lit "b"); MReplayState (MkReplay (lit "anthropic") blocks); MDone FinishStop] in
  let body := (@devin_stream Samples.stored Samples.tiny_json DevinSamples.now (lit "claude") DevinSamples.start ((λ e, Provided (Ok e)) <$> events)).1 in
  (g_thinking (@got Samples.stored body), g_signature (@got Samples.stored body)) = (lit "ab", lit "s1").
Proof. vm_compute. reflexivity. Qed.
