(* ===== verification/DevinAssignment.v ===== *)
(** * DevinAssignment: which model a request of Devin is for

    server/src/devin/assignment.rs.  A client names a model by its identifier somewhere in the protobuf of a request, or
    presents the token that an AssignModel request was answered with: [issue] and [uid_for_token] keep the tokens until they
    expire, [find_model_reference] looks for them in the headers and then in the fields, down to a depth.

    [assigned_model_found]: a token that was issued finds its model until it expires, whatever happens to the other tokens.
    [reference_sound]: what is found is a model of the candidates, or the model of a token that has not expired. *)

From stdpp Require Import prelude gmap strings list sorting.
From S2P Require Import Prelude Utf8 Errors Json CheckpointMessages DevinWire DevinFields.
Local Open Scope Z_scope.

(** server/src/devin/assignment.rs:19-19, [ASSIGNMENT_TTL]: in seconds. *)
Definition ASSIGNMENT_TTL : Z := 12 * 60 * 60.
(** server/src/devin/assignment.rs:20-20, [MAX_SCAN_DEPTH]. *)
Definition MAX_SCAN_DEPTH : nat := 5.
(** server/src/devin/assignment.rs:21-21, [MAX_NESTED_BYTES]. *)
Definition MAX_NESTED_BYTES : Z := 2 * 1024 * 1024.

(** ** Tokens *)

(** server/src/devin/assignment.rs:24-28, [Assignment]. *)
Record Assignment : Type := MkAssignment {
  as_uid : str;
  as_token : str;
  as_expires_at : Z
}.
(** [SessionState]: the assignments by token. *)
Abbreviation Sessions := (gmap str Assignment).
(** server/src/devin/assignment.rs:105-109, [prune]. *)
Definition prune (now : Z) (sessions : Sessions) : Sessions := filter (λ p, now < as_expires_at p.2) sessions.
(** server/src/devin/assignment.rs:65-81, [issue]; [token] is a fresh identifier. *)
Definition issue (ttl now : Z) (token uid : str) (sessions : Sessions) : Assignment * Sessions :=
  let assignment := MkAssignment uid token (now + ttl) in
  (assignment, <[token := assignment]> (prune now sessions)).
(** server/src/devin/assignment.rs:83-94, [uid_for_token]. *)
Definition uid_for_token (now : Z) (token : str) (sessions : Sessions) : option str * Sessions :=
  let sessions := prune now sessions in
  (as_uid <$> sessions !! token, sessions).
(** server/src/devin/assignment.rs:96-102, [clear]. *)
Definition clear (sessions : Sessions) : Sessions := ∅.

(** ** Looking for a model *)

(** server/src/devin/assignment.rs:112-118, [ModelReference]. *)
Record ModelReference : Type := MkReference {
  mr_uid : str;
  mr_source : str;
  mr_path : list Z;
  mr_candidates : list str;
  mr_ambiguous : bool
}.
Definition no_reference : ModelReference := MkReference [] [] [] [] false.
(** server/src/devin/assignment.rs:121-126, [Candidate]. *)
Record Candidate : Type := MkCandidate {
  ca_uid : str;
  ca_source : str;
  ca_path : list Z;
  ca_priority : Z
}.

Section Find.
(** Every look at the tokens reads the clock; a header that is not text has an error of the http crate. *)
Context (clock : nat → Z) (to_str_error : str).

(** The tokens, and how often the clock was read. *)
Definition Looked : Type := nat * Sessions.
Definition look (token : str) (s : Looked) : option str * Looked :=
  let '(uid, sessions) := uid_for_token (clock s.1) token s.2 in (uid, (S s.1, sessions)).

(** [HeaderValue::to_str]: visible ASCII and tabs. *)
Definition header_str (value : list Z) : option str :=
  if forallb (λ b, (32 <=? b) && (b <? 127) || (b =? 9)) value then Some value else None.
(** server/src/devin/assignment.rs:134-154, [find_model_reference]: the headers, in their order. *)
Fixpoint find_in_headers (values : list (list Z)) (s : Looked) : Looked * res (option ModelReference) :=
  match values with
  | [] => (s, Ok None)
  | value :: values =>
      match header_str value with
      | None => (s, Err (Protocol (lit "invalid Devin header: " ++ to_str_error)))
      | Some value =>
          let '(uid, s) := look value s in
          match uid with
          | Some uid => (s, Ok (Some (MkReference uid (lit "assignment-header") [] [] false)))
          | None =>
              match strip_prefix (lit "Bearer ") value with
              | Some token =>
                  let '(uid, s) := look token s in
                  match uid with
                  | Some uid => (s, Ok (Some (MkReference uid (lit "assignment-bearer") [] [] false)))
                  | None => find_in_headers values s
                  end
              | None => find_in_headers values s
              end
          end
      end
  end.

(** server/src/devin/assignment.rs:200-209, [looks_like_assignment_token]. *)
Definition looks_like_assignment_token (value : list Z) : bool :=
  (zlen value =? 36) &&
  forallb id (imap (λ i b, if bool_decide (i ∈ [8; 13; 18; 23]%nat) then b =? 45 else is_ascii_hexdigit b) value).
(** server/src/devin/assignment.rs:244-250, [scan_fields]: where a match counts. *)
Definition match_priority (depth : nat) (n : Z) : Z :=
  if bool_decide (depth = 0%nat) && (n =? 21) then 0
  else if bool_decide (depth = 0%nat) then 10
  else Z.of_nat depth * 100 + 10.
(** server/src/devin/assignment.rs:228-234, [scan_fields]: what a text is. *)
Definition match_text (candidates : gset str) (bytes : list Z) (t : str) (s : Looked) : Looked * option (str * str) :=
  if bool_decide (t ∈ candidates) then (s, Some (t, lit "uid"))
  else if looks_like_assignment_token bytes then
    let '(uid, s) := look t s in (s, (λ uid, (uid, lit "assignment")) <$> uid)
  else (s, None).
(** server/src/devin/assignment.rs:211-261, [scan_fields]: the loop; [nested] is the scan of a message, where it may go deeper. *)
Definition scan_each (nested : option (list Z → list Field → Looked → Looked * list Candidate)) (candidates : gset str) (path : list Z) :
    list Field → Looked → Looked * list Candidate :=
  fix each fields s :=
    match fields with
    | [] => (s, [])
    | field :: fields =>
        match value field with
        | Bytes bytes =>
            match from_utf8 bytes with
            | None => each fields s
            | Some t =>
                let path' := path ++ [number field] in
                let '(s, found) := match_text candidates bytes t s in
                let here := match found with
                            | Some (uid, source) => [MkCandidate uid source path' (match_priority (length path) (number field))]
                            | None => []
                            end in
                let '(s, inner) :=
                  match nested with
                  | Some nested =>
                      if bool_decide (bytes ≠ []) && (zlen bytes <=? MAX_NESTED_BYTES) then
                        match parse_fields bytes with
                        | Ok message => nested path' message s
                        | Err _ => (s, [])
                        end
                      else (s, [])
                  | None => (s, [])
                  end in
                let '(s, rest) := each fields s in
                (s, here ++ inner ++ rest)
            end
        | _ => each fields s
        end
    end.
(** server/src/devin/assignment.rs:211-261, [scan_fields]; [deeper] is how much deeper it may go. *)
Fixpoint scan_fields (deeper : nat) (candidates : gset str) : list Z → list Field → Looked → Looked * list Candidate :=
  scan_each (match deeper with S deeper => Some (scan_fields deeper candidates) | O => None end) candidates.

(** [sort] and [dedup]: the texts in order, each once. *)
Fixpoint dedup (l : list str) : list str :=
  match l with
  | x :: ((y :: _) as l') => if bool_decide (x = y) then dedup l' else x :: dedup l'
  | l => l
  end.
Definition sorted_set (l : list str) : list str := dedup (sort_by (λ a b, negb (str_lt b a)) l).
(** [(candidate.priority, candidate.path.len())]. *)
Definition candidate_le (a b : Candidate) : bool :=
  (ca_priority a <? ca_priority b) || (ca_priority a =? ca_priority b) && (length (ca_path a) <=? length (ca_path b))%nat.
Definition same_priority (best : Z) : list Candidate → list Candidate :=
  fix go l := match l with c :: l => if ca_priority c =? best then c :: go l else [] | [] => [] end.
(** server/src/devin/assignment.rs:166-192, [find_model_reference]: what the matches say. *)
Definition best_match (matches : list Candidate) : ModelReference :=
  match sort_by candidate_le matches with
  | [] => no_reference
  | (best :: _) as sorted =>
      let peers := sorted_set (ca_uid <$> same_priority (ca_priority best) sorted) in
      if (1 <? length peers)%nat then MkReference [] [] [] peers true
      else MkReference (ca_uid best) (ca_source best) (ca_path best) peers false
  end.
(** server/src/devin/assignment.rs:128-193, [find_model_reference]. *)
Definition find_model_reference (payload : list Z) (values : list (list Z)) (candidates : gset str) (s : Looked) : Looked * res ModelReference :=
  let '(s, found) := find_in_headers values s in
  match found with
  | Err e => (s, Err e)
  | Ok (Some r) => (s, Ok r)
  | Ok None =>
      match parse_fields payload with
      | Err e => (s, Err e)
      | Ok fields =>
          let '(s, matches) := scan_fields MAX_SCAN_DEPTH candidates [] fields s in
          (s, Ok (best_match matches))
      end
  end.
End Find.

(** server/src/devin/assignment.rs:263-270, [assignment_token_response]. *)
Definition assignment_token_response (a : Assignment) (harness_uid : str) : res (list Z) :=
  model_assignment ← serialize_fields [text_field 1 (as_token a); text_field 2 (as_uid a); text_field 3 harness_uid];
  serialize_fields [MkField 1 (Bytes model_assignment)].

(** ** Facts *)

Lemma prune_lookup now m token a : prune now m !! token = Some a ↔ m !! token = Some a ∧ now < as_expires_at a.
Proof. unfold prune. by rewrite map_lookup_filter_Some. Qed.
Lemma prune_subset now m : prune now m ⊆ m.
Proof. apply map_filter_subseteq. Qed.

(** What other requests do with the tokens, each at its time. *)
Inductive session_op : Type := Issue (token uid : str) | Lookup (token : str).
Definition session_step (ttl : Z) (m : Sessions) (p : Z * session_op) : Sessions :=
  match p.2 with
  | Issue token uid => (issue ttl p.1 token uid m).2
  | Lookup token => (uid_for_token p.1 token m).2
  end.
Definition session_run (ttl : Z) (ops : list (Z * session_op)) (m : Sessions) : Sessions := foldl (session_step ttl) m ops.
Definition reissues (token : str) (p : Z * session_op) : bool :=
  match p.2 with Issue token' _ => bool_decide (token' = token) | Lookup _ => false end.

Lemma step_other ttl m p token : reissues token p = false → ∀ a, session_step ttl m p !! token = Some a ↔ m !! token = Some a ∧ p.1 < as_expires_at a.
Proof.
  destruct p as [now [token' uid|token']]; unfold reissues, session_step, issue, uid_for_token; cbn [fst snd]; intros H a; [|apply prune_lookup].
  apply bool_decide_eq_false in H. rewrite lookup_insert_ne by done. apply prune_lookup.
Qed.
(** A token that nobody issues again stays as it is, or expires. *)
Lemma run_token ttl ops token : Forall (λ p, reissues token p = false) ops → ∀ m a,
  session_run ttl ops m !! token = Some a ↔ m !! token = Some a ∧ Forall (λ p, p.1 < as_expires_at a) ops.
Proof.
  induction 1 as [|p ops Hp Hops IH]; intros m a; unfold session_run; cbn [foldl]; [rewrite Forall_nil; tauto|].
  fold (session_run ttl ops (session_step ttl m p)). rewrite IH, (step_other ttl m p token Hp), Forall_cons. tauto.
Qed.

Section Facts.
Context (clock : nat → Z) (to_str_error : str).

Lemma look_subset token s : (look clock token s).2.2 ⊆ s.2.
Proof. unfold look, uid_for_token. apply prune_subset. Qed.
Lemma look_none token s : s.2 !! token = None → (look clock token s).1 = None.
Proof.
  intros H. unfold look, uid_for_token. cbn [fst]. destruct (prune _ _ !! token) as [a|] eqn:E; [|done].
  apply prune_lookup in E as [E _]. congruence.
Qed.
Lemma look_some token s uid : (look clock token s).1 = Some uid → ∃ a, s.2 !! token = Some a ∧ as_uid a = uid ∧ clock s.1 < as_expires_at a.
Proof.
  unfold look, uid_for_token. cbn [fst]. intros (a & Ha & ->)%fmap_Some. apply prune_lookup in Ha as [Ha Hn]. by exists a.
Qed.
Lemma look_keeps token s token' a : s.2 !! token' = Some a → clock s.1 < as_expires_at a → (look clock token s).2.2 !! token' = Some a.
Proof. intros Ha Hn. unfold look, uid_for_token. by apply prune_lookup. Qed.

(** A model that a token of [m] stands for, when it was looked at. *)
Definition of_token (m : Sessions) (uid : str) : Prop := ∃ token a n, m !! token = Some a ∧ as_uid a = uid ∧ clock n < as_expires_at a.
Lemma of_token_mono m m' uid : m ⊆ m' → of_token m uid → of_token m' uid.
Proof. intros Hm (token & a & n & Ha & Hu & Hn). exists token, a, n. split; [by eapply lookup_weaken|done]. Qed.
Lemma look_of_token token s uid : (look clock token s).1 = Some uid → of_token s.2 uid.
Proof. intros (a & Ha & Hu & Hn)%look_some. by exists token, a, s.1. Qed.

Lemma find_in_headers_sound values : ∀ s s' r, find_in_headers clock to_str_error values s = (s', r) →
  s'.2 ⊆ s.2 ∧ ∀ found, r = Ok (Some found) → of_token s.2 (mr_uid found).
Proof.
  induction values as [|value values IH]; intros s s' r; cbn [find_in_headers].
  { intros [= <- <-]. by split. }
  destruct (header_str value) as [v|]; [|intros [= <- <-]; by split].
  pose proof (look_subset v s) as Hs. pose proof (look_of_token v s) as Ht. destruct (look clock v s) as [[uid|] s1]; cbn [fst snd] in *.
  { intros [= <- <-]. split; [done|]. intros found [= <-]. by apply Ht. }
  destruct (strip_prefix (lit "Bearer ") v) as [token|].
  - pose proof (look_subset token s1) as Hs2. pose proof (look_of_token token s1) as Ht2. destruct (look clock token s1) as [[uid|] s2]; cbn [fst snd] in *.
    + intros [= <- <-]. split; [by etrans|]. intros found [= <-]. eapply of_token_mono; [exact Hs|by apply Ht2].
    + intros [H1 H2]%IH. split; [by repeat (etrans; [done|])|]. intros found E. eapply of_token_mono; [|by apply H2]. by etrans.
  - intros [H1 H2]%IH. split; [by etrans|]. intros found E. eapply of_token_mono; [exact Hs|by apply H2].
Qed.

(** A match is of the candidates, or of a token. *)
Definition sound (candidates : gset str) (m : Sessions) (uid : str) : Prop := uid ∈ candidates ∨ of_token m uid.
Lemma match_text_sound candidates bytes t s s' found : match_text clock candidates bytes t s = (s', found) →
  s'.2 ⊆ s.2 ∧ ∀ uid source, found = Some (uid, source) → sound candidates s.2 uid.
Proof.
  unfold match_text. case_bool_decide as Hc; [intros [= <- <-]; split; [done|]; intros uid source [= <- <-]; by left|].
  destruct (looks_like_assignment_token bytes); [|intros [= <- <-]; by split].
  pose proof (look_subset t s) as Hs. pose proof (look_of_token t s) as Ht. destruct (look clock t s) as [uid s1]. intros [= <- <-]. split; [done|].
  intros uid' source (u & -> & E)%fmap_Some. injection E as -> _. right. by apply Ht.
Qed.
Definition scan_ok (candidates : gset str) (scan : list Z → list Field → Looked → Looked * list Candidate) : Prop :=
  ∀ path fields s s' out, scan path fields s = (s', out) → s'.2 ⊆ s.2 ∧ Forall (λ c, sound candidates s.2 (ca_uid c)) out.
Lemma sound_mono candidates m m' uid : m ⊆ m' → sound candidates m uid → sound candidates m' uid.
Proof. intros Hm [H|H]; [by left|right; by eapply of_token_mono]. Qed.
Lemma sound_matches candidates m m' out : m ⊆ m' → Forall (λ c, sound candidates m (ca_uid c)) out → Forall (λ c, sound candidates m' (ca_uid c)) out.
Proof. intros Hm H. eapply Forall_impl; [exact H|]. intros c. by apply sound_mono. Qed.
Lemma scan_each_ok nested candidates : (∀ scan, nested = Some scan → scan_ok candidates scan) → scan_ok candidates (scan_each clock nested candidates).
Proof.
  intros Hn path fields. induction fields as [|field fields IH]; intros s s' out; cbn [scan_each]; [intros [= <- <-]; by split|].
  destruct (value field) as [v|v|bytes|v]; try apply IH. destruct (from_utf8 bytes) as [t|]; [|apply IH]. cbn zeta.
  destruct (match_text clock candidates bytes t s) as [s1 found] eqn:Em. apply match_text_sound in Em as [Hs1 Hf].
  match goal with |- context [let '(s, inner) := ?x in _] => destruct x as [s2 inner] eqn:Ei end.
  assert (s2.2 ⊆ s1.2 ∧ Forall (λ c, sound candidates s1.2 (ca_uid c)) inner) as [Hs2 Hi].
  { destruct nested as [scan|]; [|injection Ei as <- <-; by split]. destruct (_ && _); [|injection Ei as <- <-; by split].
    destruct (parse_fields bytes); [|injection Ei as <- <-; by split]. by eapply Hn. }
  destruct (scan_each clock nested candidates path fields s2) as [s3 rest] eqn:Er. intros [= <- <-]. apply IH in Er as [Hs3 Hr]. split; [by repeat (etrans; [done|])|].
  apply Forall_app. split; [|apply Forall_app; split].
  - destruct found as [[uid source]|]; [|constructor]. apply Forall_singleton. by eapply Hf.
  - by eapply sound_matches.
  - eapply sound_matches; [|exact Hr]. by etrans.
Qed.
Lemma scan_sound deeper candidates : scan_ok candidates (scan_fields clock deeper candidates).
Proof.
  induction deeper as [|deeper IH]; cbn [scan_fields]; apply scan_each_ok; intros scan [= <-]. exact IH.
Qed.

Lemma candidate_le_total a b : candidate_le a b = false → candidate_le b a = true.
Proof. unfold candidate_le. destruct (Z.ltb_spec (ca_priority a) (ca_priority b)), (Z.eqb_spec (ca_priority a) (ca_priority b)); cbn; try discriminate;
  destruct (Z.ltb_spec (ca_priority b) (ca_priority a)), (Z.eqb_spec (ca_priority b) (ca_priority a)); cbn; try done; try lia.
  rewrite Nat.leb_gt, Nat.leb_le. lia. Qed.
Lemma candidate_le_trans a b c : candidate_le a b = true → candidate_le b c = true → candidate_le a c = true.
Proof.
  unfold candidate_le. rewrite !orb_true_iff, !andb_true_iff, !Z.ltb_lt, !Z.eqb_eq, !Nat.leb_le. lia.
Qed.
Lemma candidate_le_priority a b : candidate_le a b = true → ca_priority a ≤ ca_priority b.
Proof. unfold candidate_le. rewrite orb_true_iff, andb_true_iff, Z.ltb_lt, Z.eqb_eq. lia. Qed.
Lemma best_match_sound matches (P : str → Prop) : Forall (λ c, P (ca_uid c)) matches → mr_uid (best_match matches) = [] ∨ P (mr_uid (best_match matches)).
Proof.
  intros H. unfold best_match. destruct (sort_by candidate_le matches) as [|best sorted] eqn:E; [by left|]. destruct (_ <? _)%nat; [by left|]. right. cbn.
  assert (best ∈ matches) as Hin by (rewrite <- (sort_by_elem candidate_le), E; by left). rewrite Forall_forall in H. by apply H.
Qed.

(** What is found is a model that is mapped, or one that a token stands for that had not expired when it was looked at; no
    token is made by looking. *)
Theorem reference_sound payload values candidates s s' r : find_model_reference clock to_str_error payload values candidates s = (s', r) →
  s'.2 ⊆ s.2 ∧ ∀ found, r = Ok found → mr_uid found = [] ∨ sound candidates s.2 (mr_uid found).
Proof.
  unfold find_model_reference. destruct (find_in_headers clock to_str_error values s) as [s1 [[found|]|e]] eqn:Eh; apply find_in_headers_sound in Eh as [Hs1 Hf].
  - intros [= <- <-]. split; [done|]. intros f [= <-]. right. right. by apply Hf.
  - destruct (parse_fields payload) as [fields|e]; [|intros [= <- <-]; by split].
    destruct (scan_fields clock MAX_SCAN_DEPTH candidates [] fields s1) as [s2 matches] eqn:Es. apply scan_sound in Es as [Hs2 Hm].
    intros [= <- <-]. split; [by etrans|]. intros f [= <-]. apply (best_match_sound matches (sound candidates s.2)). by eapply sound_matches.
  - intros [= <- <-]. split; [done|]. intros f [=].
Qed.

(** ** Tokens find their models *)

Lemma find_skips values rest : ∀ s : Looked, Forall (λ v, ∃ t, header_str v = Some t ∧ s.2 !! t = None ∧ ∀ t', strip_prefix (lit "Bearer ") t = Some t' → s.2 !! t' = None) values →
  ∃ s', find_in_headers clock to_str_error (values ++ rest) s = find_in_headers clock to_str_error rest s' ∧
    ∀ token a, s.2 !! token = Some a → (∀ n, clock n < as_expires_at a) → s'.2 !! token = Some a ∧ s'.2 ⊆ s.2.
Proof.
  induction values as [|value values IH]; intros s H; [by exists s|]. apply Forall_cons in H as [(t & Ht & Hn & Hb) H]. cbn [app find_in_headers]. rewrite Ht.
  pose proof (look_none t s Hn) as L1. pose proof (look_subset t s) as S1. pose proof (λ token' a, look_keeps t s token' a) as K1.
  destruct (look clock t s) as [u s1]. cbn [fst snd] in *. subst u.
  assert (∀ s2 : Looked, s2.2 ⊆ s1.2 → Forall (λ v, ∃ t, header_str v = Some t ∧ s2.2 !! t = None ∧ ∀ t', strip_prefix (lit "Bearer ") t = Some t' → s2.2 !! t' = None) values) as Hv.
  { intros s2 Hs2. eapply Forall_impl; [exact H|]. intros v (t0 & E & Hn0 & Hb0). exists t0. split; [done|]. split; [eapply lookup_weaken_None; [exact Hn0|by etrans]|].
    intros t' Et. eapply lookup_weaken_None; [by apply Hb0|by etrans]. }
  destruct (strip_prefix (lit "Bearer ") t) as [t'|].
  - pose proof (look_none t' s1 (lookup_weaken_None _ _ _ (Hb _ eq_refl) S1)) as L2. pose proof (look_subset t' s1) as S2. pose proof (λ token' a, look_keeps t' s1 token' a) as K2.
    destruct (look clock t' s1) as [u s2]. cbn [fst snd] in *. subst u. destruct (IH s2 (Hv _ S2)) as (s' & E & K). exists s'. split; [done|].
    intros token a Ha Hc. destruct (K token a) as [K3 S3]; [by apply K2; [apply K1|]|done|]. split; [done|]. by repeat (etrans; [done|]).
  - destruct (IH s1 (Hv _ ltac:(done))) as (s' & E & K). exists s'. split; [done|]. intros token a Ha Hc.
    destruct (K token a) as [K3 S3]; [by apply K1|done|]. split; [done|]. by etrans.
Qed.

Lemma issued_lookup ttl t0 token uid m : (issue ttl t0 token uid m).2 !! token = Some (MkAssignment uid token (t0 + ttl)).
Proof. unfold issue. cbn [snd]. apply lookup_insert_eq. Qed.
Lemma find_at_token token uid a s value rest : s.2 !! token = Some a → as_uid a = uid → (∀ n, clock n < as_expires_at a) → header_str value = Some value →
  (value = token ∨ value = lit "Bearer " ++ token ∧ s.2 !! value = None) →
  ∃ s' source, find_in_headers clock to_str_error (value :: rest) s = (s', Ok (Some (MkReference uid source [] [] false))).
Proof.
  intros Ha Hu Hc Hv Hvalue. cbn [find_in_headers]. rewrite Hv.
  assert (∀ s0 : Looked, s0.2 !! token = Some a → ∃ s1, look clock token s0 = (Some uid, s1)) as Hl.
  { intros s0 H0. unfold look, uid_for_token. assert (prune (clock s0.1) s0.2 !! token = Some a) as -> by by apply prune_lookup. cbn. rewrite Hu. eauto. }
  destruct Hvalue as [->|[-> Hn]].
  - destruct (Hl s Ha) as [s1 ->]. eauto.
  - pose proof (look_none _ s Hn) as L1. pose proof (look_keeps (lit "Bearer " ++ token) s token a Ha (Hc _)) as K1.
    destruct (look clock (lit "Bearer " ++ token) s) as [u s1]. cbn [fst snd] in *. subst u. assert (strip_prefix (lit "Bearer ") (lit "Bearer " ++ token) = Some token) as ->
      by (unfold strip_prefix; by rewrite starts_with_app, drop_app_length). destruct (Hl s1 K1) as [s2 ->]. eauto.
Qed.

(** A token that was issued for a model stands for it until it expires and for nothing afterwards, whatever is issued and
    looked up in between (by fresh tokens); and a request that carries it in a header, alone or as a bearer token, and no
    other live token before, is for that model whatever its payload is. *)
Theorem assigned_model_found ttl t0 token uid m0 ops : Forall (λ p, reissues token p = false) ops →
  let m := session_run ttl ops (issue ttl t0 token uid m0).2 in
  (∀ now, t0 + ttl ≤ now → (uid_for_token now token m).1 = None) ∧
  (Forall (λ p, p.1 < t0 + ttl) ops → ∀ now, now < t0 + ttl → (uid_for_token now token m).1 = Some uid) ∧
  (Forall (λ p, p.1 < t0 + ttl) ops → (∀ n, clock n < t0 + ttl) → ∀ payload candidates before value after n,
    header_str value = Some value → (value = token ∨ value = lit "Bearer " ++ token ∧ m !! value = None) →
    Forall (λ v, ∃ t, header_str v = Some t ∧ m !! t = None ∧ ∀ t', strip_prefix (lit "Bearer ") t = Some t' → m !! t' = None) before →
    ∃ s' source, find_model_reference clock to_str_error payload (before ++ value :: after) candidates (n, m) = (s', Ok (MkReference uid source [] [] false))).
Proof.
  intros Hops m. assert (∀ a, m !! token = Some a ↔ a = MkAssignment uid token (t0 + ttl) ∧ Forall (λ p, p.1 < t0 + ttl) ops) as Hm.
  { intros a. unfold m. rewrite (run_token ttl ops token Hops), issued_lookup. split; [intros [[= <-] H]; by split|]. intros [-> H]. by split. }
  split; [|split].
  - intros now Hn. unfold uid_for_token. cbn [fst]. destruct (prune now m !! token) as [a|] eqn:E; [|done].
    apply prune_lookup in E as [E Hx]. apply Hm in E as [-> _]. cbn in Hx. lia.
  - intros Ht now Hn. unfold uid_for_token. cbn [fst].
    assert (prune now m !! token = Some (MkAssignment uid token (t0 + ttl))) as -> by (apply prune_lookup; split; [by apply Hm|done]). done.
  - intros Ht Hc payload candidates before value after n Hv Hvalue Hb. set (a := MkAssignment uid token (t0 + ttl)).
    assert (m !! token = Some a) as Ha by by apply Hm.
    destruct (find_skips before (value :: after) (n, m) Hb) as (s1 & E & K). destruct (K token a Ha Hc) as [K1 S1]. cbn [snd] in S1.
    destruct (find_at_token token uid a s1 value after K1 eq_refl Hc Hv) as (s2 & source & E2).
    { destruct Hvalue as [Hvalue|[Hvalue Hn]]; [by left|right]. split; [done|]. by eapply lookup_weaken_None. }
    exists s2, source. unfold find_model_reference. by rewrite E, E2.
Qed.
End Facts.

(** ** What the source does otherwise than it says *)

Module AssignmentSamples.
Definition uid : str := lit "claude".
Definition message (n : Z) (fields : list Field) : Field := MkField n (Bytes match serialize_fields fields with Ok b => b | Err _ => [] end).
Definition payload (number : Z) : list Z :=
  match serialize_fields [message 1 [text_field 2 uid; varint 3 number]] with Ok b => b | Err _ => [] end.
Definition found (number : Z) : res ModelReference := (find_model_reference (λ _, 0) [] (payload number) [] {[uid]} (0%nat, ∅)).2.
End AssignmentSamples.
(** A model in a nested message is found, unless the message holds a byte that is not text, a number of 128 or more say:
    such a message is skipped before it is searched. *)
Lemma binary_message_skipped :
  mr_uid <$> AssignmentSamples.found 127 = Ok AssignmentSamples.uid ∧ AssignmentSamples.found 128 = Ok no_reference.
Proof. split; vm_compute; reflexivity. Qed.

Lemma assigned_model_found_witness :
  let m := session_run ASSIGNMENT_TTL [(5, Issue (lit "t2") (lit "other")); (6, Lookup (lit "t1"))] (issue ASSIGNMENT_TTL 0 (lit "t1") AssignmentSamples.uid ∅).2 in
  (uid_for_token 43199 (lit "t1") m).1 = Some AssignmentSamples.uid ∧ (uid_for_token 43200 (lit "t1") m).1 = None ∧
  ∃ s' source, find_model_reference (λ _, 9) [] [] ([lit "text/plain"; lit "Bearer t1"]) ∅ (0%nat, m) = (s', Ok (MkReference AssignmentSamples.uid source [] [] false)).
Proof.
  cbn zeta.
  destruct (assigned_model_found (λ _, 9) [] ASSIGNMENT_TTL 0 (lit "t1") AssignmentSamples.uid ∅ [(5, Issue (lit "t2") (lit "other")); (6, Lookup (lit "t1"))]
    ltac:(repeat constructor)) as (H1 & H2 & H3).
  split; [apply H2; [repeat constructor|vm_compute; reflexivity]|]. split; [apply H1; vm_compute; discriminate|].
  apply (H3 ltac:(repeat constructor) ltac:(intros n; vm_compute; reflexivity) [] ∅ [lit "text/plain"] (lit "Bearer t1") [] 0%nat).
  - vm_compute. reflexivity.
  - right. split; vm_compute; reflexivity.
  - apply Forall_singleton. exists (lit "text/plain"). split; [vm_compute; reflexivity|]. split; [vm_compute; reflexivity|]. intros t' H. vm_compute in H. discriminate H.
Defined.
