(* ===== verification/DevinGateway.v ===== *)
(** * DevinGateway: what the gateway answers, and what it leaves to Devin

    server/src/devin/catalog.rs and gateway.rs.  The gateway answers model traffic itself - chats, the tokens of models, the
    catalogue - and forwards the rest to Devin's own service.  [handle_request] is one request: what it does to the tokens,
    what it sends upstream, and its answer; the store, the clock, the fresh identifiers and the upstream service are inputs.

    [devin_admission]: a provider is called for a bound model of an authorized request only, and the credentials of the
    gateway never leave it. *)

From stdpp Require Import prelude gmap strings list.
From S2P Require Import Prelude Utf8 Errors External Json Message Configuration Tokens CheckpointMessages Engine ModelCycle DevinSettings DevinWire DevinFields DevinRequest DevinResponse DevinAssignment.
Local Open Scope Z_scope.

(** ** The catalogue *)

(** [.filter(|value| !value.is_empty())]. *)
Definition non_empty (s : str) : option str := match s with [] => None | _ => Some s end.
(** server/src/devin/catalog.rs:85-132, [build_model]. *)
Definition build_model (b : DevinModelBinding) (model : option ModelConfig) (gateway_url : str) (is_default : bool) : res (list Z) :=
  let uid := trim (db_model_uid b) in
  let display_name := default uid (option_or (m ← model; non_empty (trim (in_display_name (config m)))) (non_empty (trim (db_display_name b)))) in
  let context := default 0 (option_or (m ← model; in_context_window_tokens (config m)) (db_context_window_tokens b)) in
  let model_info := [text_field 17 uid; text_field 18 (trim_end_slashes gateway_url); text_field 20 (lit "cursor-byok:" ++ uid)]
    ++ (if 0 <? context then [varint 4 context] else []) in
  identity ← serialize_fields [text_field 3 uid];
  info ← serialize_fields model_info;
  metadata ← serialize_fields [text_field 1 display_name];
  serialize_fields
    ([text_field 1 display_name; MkField 2 (Bytes identity); text_field 22 uid; MkField 23 (Bytes info); MkField 30 (Bytes metadata); varint 5 1]
     ++ (if 0 <? context then [varint 18 context] else []) ++ (if is_default then [varint 31 1] else [])).
(** server/src/devin/catalog.rs:36-56, [model_configs_payload]. *)
Definition model_configs_payload (s : DevinSettings) (models : list ModelConfig) (gateway_url : str) : res (list Z) :=
  let default_uid := (λ b, trim (db_model_uid b)) <$> default_binding s in
  records ← mapM (λ b, build_model b (snd <$> list_find (λ m, model_hash m = effective_model_hash b) models) gateway_url
                          (bool_decide (default_uid = Some (trim (db_model_uid b)))))
              (filter (λ b, db_enabled b = true) (ds_bindings s));
  serialize_fields (repeated 1 records).
(** server/src/devin/catalog.rs:61-83, [catalog_response_payload]. *)
Definition catalog_response_payload (s : DevinSettings) (models : list ModelConfig) (gateway_url : str) (include_default_override : bool) : res (list Z) :=
  catalog ← model_configs_payload s models gateway_url;
  if include_default_override then
    match default_binding s with
    | None => Ok catalog
    | Some b =>
        fields ← parse_fields catalog;
        override ← serialize_fields [text_field 3 (trim (db_model_uid b))];
        serialize_fields (fields ++ [MkField 3 (Bytes override)])
    end
  else Ok catalog.

(** ** Requests and answers *)

(** A request: the names of its headers are in lower case; its body is what arrives within the limit. *)
Record GatewayRequest : Type := MkGatewayRequest {
  gr_method : str;
  gr_path : str;
  gr_path_and_query : str;
  gr_headers : list (str * list Z);
  gr_body : result str (list Z)
}.
(** What is sent to Devin's own service, and what it answers. *)
Record Outgoing : Type := MkOutgoing {
  og_method : str;
  og_target : str;
  og_headers : list (str * list Z);
  og_body : list Z
}.
Record Incoming : Type := MkIncoming {
  ic_status : Z;
  ic_headers : list (str * list Z);
  ic_body : list Z
}.
(** The answers: a plain text, a Connect frame of a failure, a message, what upstream answered, or the stream of a model. *)
Inductive Answer : Type :=
  | Plain (status : Z) (message : str)
  | Failed (frame : list Z)
  | Succeeded (content_type : str) (body : list Z)
  | Relayed (response : Incoming)
  | Streaming (invocation : ModelInvocation) (state : ResponseState) (model_uid : str).

(** server/src/devin/gateway.rs:47-47, [TOKEN_HEADER]. *)
Definition TOKEN_HEADER : str := lit "x-devin-router-token".
(** [HeaderMap::get] and [to_str]. *)
Definition header_text (name : str) (headers : list (str * list Z)) : option str :=
  '(_, (_, value)) ← list_find (λ h, h.1 = name) headers; header_str value.
(** server/src/devin/gateway.rs:529-542, [authorized]. *)
Definition authorized (headers : list (str * list Z)) (configured : str) : bool :=
  match configured with
  | [] => true
  | _ => bool_decide (header_text TOKEN_HEADER headers = Some configured)
         || bool_decide (header_text (lit "authorization") headers ≫= strip_prefix (lit "Bearer ") = Some configured)
  end.
(** server/src/devin/gateway.rs:89-99, [is_model_catalog_method]. *)
Definition is_model_catalog_method (m : str) : bool :=
  bool_decide (m ∈ [lit "GetCascadeModelConfigs"; lit "GetCascadeModelConfigsForSite"; lit "GetCommandModelConfigs";
                    lit "GetCommandModelConfigsForSite"; lit "GetCliModelConfigs"; lit "GetCliModelConfigsForSite"]).
(** server/src/devin/gateway.rs:101-103, [catalog_has_default_override]. *)
Definition catalog_has_default_override (m : str) : bool := bool_decide (m ∈ [lit "GetCascadeModelConfigs"; lit "GetCliModelConfigs"]).
(** server/src/devin/gateway.rs:105-110, [is_locally_answered_capacity_method]. *)
Definition is_locally_answered_capacity_method (m : str) : bool :=
  bool_decide (m ∈ [lit "CheckChatCapacity"; lit "CheckUserMessageRateLimit"; lit "GetModelStatuses"]).
(** [candidates.join(", ")]. *)
Fixpoint join_commas (l : list str) : str :=
  match l with [] => [] | [x] => x | x :: l => x ++ lit ", " ++ join_commas l end.

Section Gateway.
Context {GZ : Gzip} {SJ : SerdeJson} {D64 : Base64Decode}.

(** server/src/devin/gateway.rs:695-710, [connect_error_response]: the length of the frame is expected to fit. *)
Definition connect_error_response (c message : str) : Answer :=
  Failed match end_frame (Some (MkConnectError c message)) with Ok f => f | Err _ => [] end.
(** server/src/devin/gateway.rs:663-672, [protocol_error]. *)
Definition protocol_error (status : Z) (message : str) : Answer :=
  connect_error_response
    (if status =? 401 then lit "unauthenticated" else if status =? 413 then lit "resource_exhausted"
     else if status =? 503 then lit "failed_precondition" else if status =? 500 then lit "internal" else lit "invalid_argument") message.
(** server/src/devin/gateway.rs:678-693, [protocol_success_response]. *)
Definition protocol_success_response (is_enveloped : bool) (p : list Z) : Answer :=
  if is_enveloped then
    Succeeded (lit "application/connect+proto")
      (match frame p false with Ok f => f | Err e => concat (stream_error (error_display e)) end
       ++ match end_frame None with Ok f => f | Err _ => [] end)
  else Succeeded (lit "application/proto") p.

(** ** Forwarding *)

(** server/src/devin/gateway.rs:591-604, [forward_upstream]: the headers that are sent. *)
Definition forwarded_header (auth_token : str) (h : str * list Z) : bool :=
  negb (bool_decide (h.1 ∈ [lit "host"; lit "connection"; lit "content-length"; lit "transfer-encoding"; lit "accept-encoding"])
        || bool_decide (h.1 = TOKEN_HEADER))
  && negb (bool_decide (auth_token ≠ []) && bool_decide (h.1 = lit "authorization") && bool_decide (h.2 = as_bytes (lit "Bearer " ++ auth_token))).
(** server/src/devin/gateway.rs:632-644, [forward_upstream]: the headers of the answer. *)
Definition relayed_headers (headers : list (str * list Z)) : list (str * list Z) :=
  filter (λ h, h.1 ∉ [lit "connection"; lit "transfer-encoding"; lit "content-length"; lit "content-encoding"]) headers
  ++ match list_find (λ h, h.1 = lit "content-encoding") headers with Some (_, h) => [h] | None => [] end.
(** server/src/devin/gateway.rs:554-653, [forward_upstream]: [client] is whether a client can be built, [upstream n] what the
    [n]th send gives and [rebuilds] whether the client is built again after the first fails. *)
Definition forward_upstream (client : result str ()) (upstream : nat → result str Incoming) (rebuilds : bool)
    (s : DevinSettings) (r : GatewayRequest) : list Outgoing * Answer :=
  match client with
  | Err error => ([], protocol_error 502 (lit "Devin upstream client could not be built: " ++ error))
  | Ok _ =>
      match gr_body r with
      | Err error => ([], protocol_error 413 error)
      | Ok body =>
          let outgoing := MkOutgoing (gr_method r) (trim_end_slashes (trim (ds_upstream_api_url s)) ++ gr_path_and_query r)
                            (filter (λ h, forwarded_header (ds_auth_token s) h = true) (gr_headers r)) body in
          let relay i := Relayed (MkIncoming (ic_status i) (relayed_headers (ic_headers i)) (ic_body i)) in
          let failed error := protocol_error 502 (lit "Devin upstream request failed: " ++ error) in
          match upstream 0%nat with
          | Ok i => ([outgoing], relay i)
          | Err error =>
              if rebuilds then
                ([outgoing; outgoing], match upstream 1%nat with Ok i => relay i | Err error => failed error end)
              else ([outgoing], failed error)
          end
      end
  end.

(** ** A request *)

(** What the rest of the program and the world give: the rows of the store, the HTTP client and the upstream service, the
    clock of the tokens and the fresh identifiers. *)
Record Surroundings : Type := MkSurroundings {
  su_settings : res DevinSettings;
  su_models : res (list ModelConfig);
  su_model : str → res (option ModelConfig);
  su_client : result str ();
  su_upstream : nat → result str Incoming;
  su_rebuilds : bool;
  su_clock : nat → Z;
  su_to_str_error : str;
  su_token : str;
  su_uuid : str * str
}.
(** server/src/devin/gateway.rs:368-377, [handle_request]: an answer that is known, when its message can be written. *)
Definition answer_payload (is_enveloped : bool) (p : res (list Z)) : Answer :=
  match p with Ok p => protocol_success_response is_enveloped p | Err error => protocol_error 500 (error_display error) end.
(** server/src/devin/gateway.rs:346-366, [handle_request]: the catalogue. *)
Definition answer_catalog (w : Surroundings) (s : DevinSettings) (method : str) (is_enveloped : bool) : Answer :=
  match su_models w with
  | Err error => protocol_error 500 (error_display error)
  | Ok models =>
      answer_payload is_enveloped
        (catalog_response_payload s models (lit "http://127.0.0.1:" ++ decimal (ds_local_api_port s)) (catalog_has_default_override method))
  end.
(** server/src/devin/gateway.rs:368-400, [handle_request]: the capacity of an account, which has no limit here. *)
Definition capacity_fields (method : str) : option (list Field) :=
  if bool_decide (method = lit "CheckChatCapacity") then Some [varint 1 1; varint 3 0]
  else if bool_decide (method = lit "CheckUserMessageRateLimit") then Some [varint 1 1; varint 3 1000000; varint 4 1000000; varint 5 0]
  else if bool_decide (method = lit "GetModelStatuses") then Some []
  else None.
(** server/src/devin/gateway.rs:416-438, [handle_request]: a token for a model. *)
Definition assign_model (w : Surroundings) (candidates : gset str) (is_enveloped : bool) (r : ModelReference) (t : Looked) : Looked * Answer :=
  match mr_uid r with
  | [] => (t, protocol_error 400 (lit "Devin AssignModel has no mapped model UID"))
  | uid =>
      if negb (bool_decide (uid ∈ candidates)) then (t, protocol_error 400 (lit "Devin model is not assigned: " ++ uid))
      else
        let '(assignment, sessions) := issue ASSIGNMENT_TTL (su_clock w t.1) (su_token w) uid t.2 in
        ((S t.1, sessions), answer_payload is_enveloped (assignment_token_response assignment (lit "cursor-byok:" ++ uid)))
  end.
(** server/src/devin/gateway.rs:440-482, [handle_request]: a chat. *)
Definition chat (w : Surroundings) (s : DevinSettings) (p : list Z) (r : ModelReference) : Answer :=
  match parse_chat_request p with
  | Err error => protocol_error 400 (error_display error)
  | Ok request =>
      let request := match dc_requested_model request with
                     | [] => MkChat (dc_system request) (dc_history request) (dc_tools request) (mr_uid r) (dc_cascade_id request) (dc_prompt_id request)
                               (dc_execution_id request) (dc_context_tokens request) (dc_context_token_source request)
                     | _ => request
                     end in
      match binding s (dc_requested_model request) with
      | None => protocol_error 400 (lit "Devin model is not assigned: " ++ dc_requested_model request)
      | Some b =>
          match su_model w (effective_model_hash b) with
          | Err error => protocol_error 500 (error_display error)
          | Ok None =>
              protocol_error 400 (lit "the model bound to Devin model " ++ db_model_uid b
                                  ++ lit " is no longer in the model library; re-select it on the Devin page")
          | Ok (Some model) =>
              match to_invocation (su_uuid w).1 (su_uuid w).2 request b model with
              | Err error => protocol_error 400 (error_display error)
              | Ok invocation =>
                  Streaming invocation (set_fallback_input_tokens (dc_context_tokens request) (new_response (lit "devin-response") (provider_type model)))
                    (db_model_uid b)
              end
          end
      end
  end.
(** server/src/devin/gateway.rs:346-482, [handle_request]: what is answered here, once the message is there. *)
Definition handle_owned (w : Surroundings) (s : DevinSettings) (method : str) (candidates : gset str) (r : GatewayRequest)
    (u : UnwrappedRequest) (t : Looked) : Looked * Answer :=
  if is_model_catalog_method method then (t, answer_catalog w s method (enveloped u))
  else
    match capacity_fields method with
    | Some fields => (t, answer_payload (enveloped u) (serialize_fields fields))
    | None =>
        let '(t, found) := find_model_reference (su_clock w) (su_to_str_error w) (payload u) (snd <$> gr_headers r) candidates t in
        match found with
        | Err error => (t, protocol_error 400 (error_display error))
        | Ok reference =>
            if mr_ambiguous reference then
              (t, protocol_error 400 (lit "Devin request contains multiple mapped model UIDs: " ++ join_commas (mr_candidates reference)))
            else if bool_decide (method = lit "AssignModel") then assign_model w candidates (enveloped u) reference t
            else (t, chat w s (payload u) reference)
        end
    end.
(** server/src/devin/gateway.rs:252-520, [handle_request]: the tokens after it, what was sent upstream, and the answer. *)
Definition handle_request (w : Surroundings) (r : GatewayRequest) (t : Looked) : Looked * list Outgoing * Answer :=
  if negb (bool_decide (gr_method r = lit "POST")) then (t, [], Plain 405 (lit "Devin gateway accepts POST only"))
  else
    let method := last_segment (gr_path r) in
    match su_settings w with
    | Err error => (t, [], protocol_error 500 (error_display error))
    | Ok s =>
        if negb (ds_enabled s) then (t, [], connect_error_response (lit "failed_precondition") (lit "Devin gateway is disabled"))
        else if negb (authorized (gr_headers r) (ds_auth_token s)) then
          (t, [], connect_error_response (lit "unauthenticated") (lit "invalid Devin gateway token"))
        else
          let local := is_model_catalog_method method || is_locally_answered_capacity_method method in
          let candidates : gset str := list_to_set (db_model_uid <$> filter (λ b, db_enabled b = true) (ds_bindings s)) in
          if negb (bool_decide (method = lit "GetChatMessage") || bool_decide (method = lit "AssignModel")) && negb local
             || local && bool_decide (candidates = ∅) then
            let '(sent, answer) := forward_upstream (su_client w) (su_upstream w) (su_rebuilds w) s r in (t, sent, answer)
          else
            match gr_body r with
            | Err error => (t, [], protocol_error 413 error)
            | Ok body =>
                match unwrap_request body (header_text (lit "content-encoding") (gr_headers r)) (header_text (lit "connect-content-encoding") (gr_headers r)) with
                | Err error => (t, [], protocol_error 400 (error_display error))
                | Ok u => let '(t, answer) := handle_owned w s method candidates r u t in (t, [], answer)
                end
            end
    end.

(** ** Who is answered *)

(** A header that carries the credentials of the gateway. *)
Definition leaks (auth_token : str) (h : str * list Z) : Prop :=
  h.1 = TOKEN_HEADER ∨ auth_token ≠ [] ∧ h.1 = lit "authorization" ∧ h.2 = as_bytes (lit "Bearer " ++ auth_token).
Lemma forwarded_safe auth_token h : forwarded_header auth_token h = true → ¬ leaks auth_token h.
Proof.
  unfold forwarded_header. rewrite andb_true_iff, !negb_true_iff, orb_false_iff, !bool_decide_eq_false. intros [[_ H1] H2] [H|(H3 & H4 & H5)]; [done|].
  by rewrite !bool_decide_eq_true_2 in H2.
Qed.
Lemma forward_headers client upstream rebuilds s r sent answer o : forward_upstream client upstream rebuilds s r = (sent, answer) → o ∈ sent →
  ∀ h, h ∈ og_headers o → h ∈ gr_headers r ∧ ¬ leaks (ds_auth_token s) h.
Proof.
  intros E Ho. assert (og_headers o = filter (λ h, forwarded_header (ds_auth_token s) h = true) (gr_headers r)) as ->.
  { unfold forward_upstream in E. repeat case_match; injection E as <- <-; rewrite ?elem_of_cons, ?elem_of_nil in Ho; naive_solver. }
  intros h [Hf Hin]%list_elem_of_filter. split; [done|by apply forwarded_safe].
Qed.
(** An answer that is the stream of a model. *)
Definition is_stream (answer : Answer) : Prop := match answer with Streaming _ _ _ => True | _ => False end.
Lemma forward_answer client upstream rebuilds s r sent answer : forward_upstream client upstream rebuilds s r = (sent, answer) →
  ¬ is_stream answer.
Proof. unfold forward_upstream, protocol_error, connect_error_response. intros E H. unfold is_stream in H. repeat case_match; by simplify_eq. Qed.
Lemma payload_answer e p : ¬ is_stream (answer_payload e p).
Proof. unfold is_stream, answer_payload, protocol_success_response, protocol_error, connect_error_response. intros H. by repeat case_match. Qed.

(** The model of a call is that of an enabled binding. *)
Definition bound (w : Surroundings) (s : DevinSettings) (invocation : ModelInvocation) (uid : str) : Prop :=
  ∃ b model, b ∈ ds_bindings s ∧ db_enabled b = true ∧ uid = db_model_uid b ∧ su_model w (effective_model_hash b) = Ok (Some model) ∧
    model_hash model = effective_model_hash b ∧ model_id (rq_model (iv_request invocation)) = model_hash model.
Lemma invocation_model u1 u2 request b model invocation : to_invocation u1 u2 request b model = Ok invocation →
  effective_model_hash b = model_hash model ∧ model_id (rq_model (iv_request invocation)) = model_hash model.
Proof.
  unfold to_invocation. destruct (negb (bool_decide (trim _ = _))); [discriminate|]. case_bool_decide as H; [|discriminate]. cbn [negb].
  intros E. apply ok_equal in E as <-. by split.
Qed.
Lemma chat_bound w s p r invocation state uid : chat w s p r = Streaming invocation state uid → bound w s invocation uid.
Proof.
  unfold chat. intros E. destruct (parse_chat_request p) as [request|e]; [|discriminate]. cbn zeta in E.
  revert E. generalize (match dc_requested_model request with [] => MkChat (dc_system request) (dc_history request) (dc_tools request) (mr_uid r) (dc_cascade_id request) (dc_prompt_id request)
                               (dc_execution_id request) (dc_context_tokens request) (dc_context_token_source request) | _ => request end). clear request. intros request E.
  destruct (binding s (dc_requested_model request)) as [b|] eqn:Eb; [|discriminate]. destruct (su_model w (effective_model_hash b)) as [[model|]|e] eqn:Em; try discriminate.
  destruct (to_invocation _ _ request b model) as [inv|e] eqn:Ei; [|discriminate]. injection E as <- <- <-.
  apply invocation_model in Ei as [E1 E2]. unfold binding in Eb. apply fmap_Some in Eb as ([i b'] & Eb & ->). apply list_find_Some in Eb as (Hi & [He _] & _).
  exists b', model. cbn in *. apply list_elem_of_lookup_2 in Hi. by split_and!.
Qed.

(** What the tokens become: none is made but by AssignModel, for a model of the candidates. *)
Definition tokens_grow (w : Surroundings) (candidates : gset str) (method : str) (t t' : Looked) : Prop :=
  ∀ token a, t'.2 !! token = Some a → t.2 !! token = Some a ∨ method = lit "AssignModel" ∧ token = su_token w ∧ as_uid a ∈ candidates.
Lemma tokens_shrink w candidates method t t' : t'.2 ⊆ t.2 → tokens_grow w candidates method t t'.
Proof. intros H token a Ha. left. by eapply lookup_weaken. Qed.
Lemma assign_grows w candidates e r t t' answer : assign_model w candidates e r t = (t', answer) →
  tokens_grow w candidates (lit "AssignModel") t t' ∧ ¬ is_stream answer.
Proof.
  unfold assign_model. destruct (mr_uid r) as [|x uid] eqn:Eu; [intros E; apply pair_eq in E as [<- <-]; split; [by apply tokens_shrink|intros []]|].
  case_bool_decide as Hc; cbn [negb]; [|intros E; apply pair_eq in E as [<- <-]; split; [by apply tokens_shrink|intros []]].
  destruct (issue _ _ _ _ _) as [assignment sessions] eqn:Ei. intros E. apply pair_eq in E as [<- <-]. split; [|apply payload_answer].
  unfold issue in Ei. injection Ei as <- <-. intros token a Ha. cbn [snd] in Ha. apply lookup_insert_Some in Ha as [[<- <-]|[_ Ha]]; [by right|].
  left. by apply prune_lookup in Ha as [Ha _].
Qed.
Lemma owned_spec w s method candidates r u t t' answer : handle_owned w s method candidates r u t = (t', answer) →
  tokens_grow w candidates method t t' ∧ ∀ invocation state uid, answer = Streaming invocation state uid → bound w s invocation uid.
Proof.
  unfold handle_owned. destruct (is_model_catalog_method method).
  { intros E0. apply pair_eq in E0 as [<- <-]. split; [by apply tokens_shrink|]. intros invocation state uid E. unfold answer_catalog in E. destruct (su_models w) as [models|e]; [|discriminate].
    pose proof (payload_answer (enveloped u) (catalog_response_payload s models (lit "http://127.0.0.1:" ++ decimal (ds_local_api_port s)) (catalog_has_default_override method))) as H.
    rewrite E in H. by destruct H. }
  destruct (capacity_fields method) as [fields|].
  { intros E0. apply pair_eq in E0 as [<- <-]. split; [by apply tokens_shrink|]. intros invocation state uid E. pose proof (payload_answer (enveloped u) (serialize_fields fields)) as H. rewrite E in H. by destruct H. }
  destruct (find_model_reference _ _ _ _ _ _) as [t1 [reference|e]] eqn:Ef; apply reference_sound in Ef as [Hs _].
  2: { intros E0. apply pair_eq in E0 as [<- <-]. split; [by apply tokens_shrink|]. discriminate. }
  destruct (mr_ambiguous reference); [intros E0; apply pair_eq in E0 as [<- <-]; split; [by apply tokens_shrink|discriminate]|].
  case_bool_decide as Hm.
  - intros H. apply assign_grows in H as [Hg Ha]. split; [|intros invocation state uid ->; by destruct Ha]. subst method. intros token a Htoken.
    destruct (Hg _ _ Htoken) as [H|H]; [left; by eapply lookup_weaken|by right].
  - intros E0. apply pair_eq in E0 as [<- <-]. split; [by apply tokens_shrink|]. intros invocation state uid E. by eapply chat_bound.
Qed.

(** The models that are mapped. *)
Definition mapped (s : DevinSettings) : gset str := list_to_set (db_model_uid <$> filter (λ b, db_enabled b = true) (ds_bindings s)).
(** A request the gateway lets in. *)
Definition admitted (w : Surroundings) (r : GatewayRequest) (s : DevinSettings) : Prop :=
  gr_method r = lit "POST" ∧ su_settings w = Ok s ∧ ds_enabled s = true ∧ authorized (gr_headers r) (ds_auth_token s) = true.

(** C21: The gateway does something for a request only when it is a POST, the gateway is enabled and the request is authorized.
    Then a provider is called only for an enabled binding, with the model its binding names and the store has, and nothing is
    sent upstream; what is sent upstream is not a chat nor an AssignModel request, and carries none of the gateway's
    credentials and no header the client did not send; and a token is made only by AssignModel, for a mapped model. *)
Theorem devin_admission w r t t' sent answer : handle_request w r t = (t', sent, answer) →
  (t' ≠ t ∨ sent ≠ [] ∨ (∃ invocation state uid, answer = Streaming invocation state uid) → ∃ s, admitted w r s) ∧
  ∀ s, admitted w r s →
    (∀ invocation state uid, answer = Streaming invocation state uid → bound w s invocation uid ∧ sent = []) ∧
    (∀ o, o ∈ sent → last_segment (gr_path r) ∉ [lit "GetChatMessage"; lit "AssignModel"] ∧
       ∀ h, h ∈ og_headers o → h ∈ gr_headers r ∧ ¬ leaks (ds_auth_token s) h) ∧
    tokens_grow w (mapped s) (last_segment (gr_path r)) t t'.
Proof.
  unfold handle_request. destruct (bool_decide (gr_method r = lit "POST")) eqn:Hp; cbn [negb].
  2: { intros [= <- <- <-]. apply bool_decide_eq_false in Hp. split; [naive_solver|]. intros s [H _]. done. }
  apply bool_decide_eq_true in Hp. destruct (su_settings w) as [s|e] eqn:Es.
  2: { intros [= <- <- <-]. split; [naive_solver|]. intros s (_ & H & _). congruence. }
  destruct (ds_enabled s) eqn:He; cbn [negb]; [|intros [= <- <- <-]; split; [naive_solver|]; intros s' (_ & H & H' & _); congruence].
  destruct (authorized (gr_headers r) (ds_auth_token s)) eqn:Ha; cbn [negb]; [|intros [= <- <- <-]; split; [naive_solver|]; intros s' (_ & H & _ & H'); congruence].
  intros E. split; [intros _; by exists s|]. intros s' (_ & H & _). assert (s' = s) as -> by congruence. clear H. fold (mapped s) in E. cbn zeta in E.
  set (method := last_segment (gr_path r)) in *.
  destruct (_ || _) eqn:Hf.
  - destruct (forward_upstream _ _ _ s r) as [sent' answer'] eqn:Ef. apply pair_eq in E as [E <-]. apply pair_eq in E as [<- <-].
    pose proof (forward_answer _ _ _ _ _ _ _ Ef) as Hs. split; [intros invocation state uid ->; by destruct Hs|].
    split; [|by apply tokens_shrink]. intros o Ho. split; [|by eapply forward_headers].
    clearbody method. intros Hm. assert (bool_decide (method = lit "GetChatMessage") || bool_decide (method = lit "AssignModel") = true ∧
      is_model_catalog_method method || is_locally_answered_capacity_method method = false) as [H1 H2].
    { apply elem_of_cons in Hm as [->|Hm]; [split; vm_compute; reflexivity|]. apply elem_of_cons in Hm as [->|Hm]; [split; vm_compute; reflexivity|].
      by apply not_elem_of_nil in Hm. }
    rewrite H1, H2 in Hf. discriminate Hf.
  - destruct (gr_body r) as [body|error]; [|apply pair_eq in E as [E <-]; apply pair_eq in E as [<- <-]; split; [discriminate|]; split; [set_solver|by apply tokens_shrink]].
    destruct (unwrap_request _ _ _) as [u|error]; [|apply pair_eq in E as [E <-]; apply pair_eq in E as [<- <-]; split; [discriminate|]; split; [set_solver|by apply tokens_shrink]].
    destruct (handle_owned _ _ _ _ _ _ _) as [t1 answer1] eqn:Eo. apply pair_eq in E as [E <-]. apply pair_eq in E as [<- <-].
    apply owned_spec in Eo as [Hg Hb]. split; [intros invocation state uid Hst; split; [by eapply Hb|done]|]. split; [set_solver|done].
Qed.
End Gateway.

(** ** What the catalogue lists *)

(** A record of the catalogue: the model, and whether it is the default. *)
Definition read_record (f : Field) : option (str * bool) :=
  match value f with
  | Bytes b =>
      match parse_fields b with
      | Ok fields => match string_field fields 22 with
                     | Ok uid => Some (uid, bool_decide (is_Some (first_field fields 31)))
                     | Err _ => None
                     end
      | Err _ => None
      end
  | _ => None
  end.
Definition record_of (s : DevinSettings) (b : DevinModelBinding) : str * bool :=
  (trim (db_model_uid b), bool_decide ((λ b, trim (db_model_uid b)) <$> default_binding s = Some (trim (db_model_uid b)))).
Definition window_ok (o : option Z) : Prop := match o with Some n => 0 ≤ n < 2 ^ 64 | None => True end.

Lemma record_read b model url d p : build_model b model url d = Ok p → zlen p ≤ MAX_BODY_SIZE → text_ok (trim (db_model_uid b)) →
  window_ok (db_context_window_tokens b) → match model with Some m => window_ok (in_context_window_tokens (config m)) | None => True end →
  read_record (MkField 1 (Bytes p)) = Some (trim (db_model_uid b), d).
Proof.
  intros E Hl Ht Hb Hm. unfold build_model in E. cbn zeta in E. set (uid := trim (db_model_uid b)) in *.
  set (context := default 0 (option_or (m ← model; in_context_window_tokens (config m)) (db_context_window_tokens b))) in *.
  assert (0 ≤ context < 2 ^ 64) as Hc.
  { subst context. destruct model as [m|]; cbn; [destruct (in_context_window_tokens (config m)); cbn in *|]; try lia; destruct (db_context_window_tokens b); cbn in *; lia. }
  revert E. generalize (default uid (option_or (m ← model; non_empty (trim (in_display_name (config m)))) (non_empty (trim (db_display_name b))))) as display_name.
  intros display_name E. invert_ok E as identity Hi. invert_ok E as info Hinfo. invert_ok E as metadata Hmeta.
  apply message_read in E as [Hr _]; [| |done].
  - unfold read_record. cbn [value]. rewrite Hr. erewrite string_read; [|reflexivity|done]. f_equal. f_equal.
    destruct (0 <? context), d; reflexivity.
  - repeat apply Forall_app_2; [by repeat constructor|destruct (0 <? context); repeat constructor; cbn; lia|destruct d; by repeat constructor].
Qed.
Lemma records_read s models url : ∀ l records,
  mapM (λ b, build_model b (snd <$> list_find (λ m, model_hash m = effective_model_hash b) models) url
               (bool_decide ((λ b, trim (db_model_uid b)) <$> default_binding s = Some (trim (db_model_uid b))))) l = Ok records →
  (∀ b, b ∈ records → zlen b ≤ MAX_BODY_SIZE) → Forall (λ b, text_ok (trim (db_model_uid b)) ∧ window_ok (db_context_window_tokens b)) l →
  Forall (λ m, window_ok (in_context_window_tokens (config m))) models → omap read_record (repeated 1 records) = record_of s <$> l.
Proof.
  induction l as [|b l IH]; intros records; cbn [mapM mret result_ret]; [by intros <-%ok_equal|].
  intros E Hl Hb Hm. invert_ok E as p Hp. invert_ok E as ps Hps. apply ok_equal in E as <-. apply Forall_cons in Hb as [[Ht Hw] Hb].
  cbn [fmap list_fmap omap list_omap]. rewrite (record_read _ _ _ _ _ Hp); [|apply Hl; by left|done|done|].
  - unfold record_of at 1. f_equal. apply IH; [done| |done|done]. intros b' Hb'. apply Hl. by right.
  - destruct (snd <$> list_find _ models) as [m|] eqn:Ef; [|done]. apply fmap_Some in Ef as ([i m'] & Ef & ->). apply list_find_Some in Ef as (Hi & _).
    rewrite Forall_forall in Hm. apply Hm. by eapply list_elem_of_lookup_2.
Qed.

(** The catalogue a client is answered with lists the enabled bindings in their order, by the identifiers they are requested
    with, and marks the default one; where the method has an override of the default, it is of the same identifier. *)
Theorem catalog_lists s models url override p : catalog_response_payload s models url override = Ok p → zlen p ≤ MAX_BODY_SIZE →
  (∀ c, model_configs_payload s models url = Ok c → zlen c ≤ MAX_BODY_SIZE) →
  Forall (λ b, text_ok (trim (db_model_uid b)) ∧ window_ok (db_context_window_tokens b)) (ds_bindings s) →
  Forall (λ m, window_ok (in_context_window_tokens (config m))) models →
  ∃ fields, parse_fields p = Ok fields ∧
    omap read_record (all_fields fields 1) = record_of s <$> filter (λ b, db_enabled b = true) (ds_bindings s) ∧
    match default_binding s, override with
    | Some b, true => ∃ o inner, first_field fields 3 = Some (MkField 3 (Bytes o)) ∧ parse_fields o = Ok inner ∧ string_field inner 3 = Ok (trim (db_model_uid b))
    | _, _ => first_field fields 3 = None
    end.
Proof.
  intros E Hl Hlc Hb Hm. unfold catalog_response_payload in E. invert_ok E as catalog Hcat. specialize (Hlc _ Hcat). unfold model_configs_payload in Hcat. cbn zeta in Hcat. invert_ok Hcat as records Hrec.
  assert (Forall (λ b, text_ok (trim (db_model_uid b)) ∧ window_ok (db_context_window_tokens b)) (filter (λ b, db_enabled b = true) (ds_bindings s))) as Hb'
    by (apply Forall_forall; intros b [_ Hin]%list_elem_of_filter; rewrite Forall_forall in Hb; by apply Hb).
  assert (∀ fields, parse_fields p = Ok fields → (∀ n b, MkField n (Bytes b) ∈ fields → zlen b ≤ MAX_BODY_SIZE) → all_fields fields 1 = repeated 1 records →
    (∀ b, b ∈ records → MkField 1 (Bytes b) ∈ fields) → omap read_record (all_fields fields 1) = record_of s <$> filter (λ b, db_enabled b = true) (ds_bindings s)) as Hread.
  { intros fields _ Hn -> Hin. eapply records_read; [exact Hrec| |done|done]. intros b Hbr. eapply Hn, Hin, Hbr. }
  assert (∀ b, b ∈ records → MkField 1 (Bytes b) ∈ repeated 1 records) as Hin by (intros b Hbr; apply list_elem_of_fmap; by exists b).
  assert (Forall field_fits (repeated 1 records)) as Hfits by (apply repeated_fits; lia).
  destruct override; [destruct (default_binding s) as [b|] eqn:Ed|].
  - invert_ok E as fields Hf. invert_ok E as o Ho.
    apply message_read in Hcat as [Hr _]; [|done|done]. rewrite Hr in Hf. apply ok_equal in Hf as <-.
    apply message_read in E as [Hr2 Hn]; [|apply Forall_app_2; [done|by repeat constructor]|done]. exists (repeated 1 records ++ [MkField 3 (Bytes o)]). split; [done|]. split.
    + apply Hread; [done|done|rewrite all_fields_app, all_fields_same; apply app_nil_r|]. intros b' Hb2. apply elem_of_app. left. by apply Hin.
    + assert (zlen o ≤ MAX_BODY_SIZE) as Hlo by (apply (Hn 3), elem_of_app; right; by left).
      apply message_read in Ho as [Hr3 _]; [|by repeat constructor|done]. exists o, [text_field 3 (trim (db_model_uid b))]. split; [by rewrite first_field_app, first_field_other by done|].
      split; [done|]. apply string_read; [done|]. unfold default_binding in Ed. destruct (ds_default_model_uid s) as [v|]; [|done]. cbn [mbind option_bind] in Ed.
      destruct (trim v); [done|]. apply fmap_Some in Ed as ([i b'] & Ed & ->). apply list_find_Some in Ed as (Hi & _). rewrite Forall_forall in Hb. apply (Hb b'). by eapply list_elem_of_lookup_2.
  - apply ok_equal in E as <-. apply message_read in Hcat as [Hr Hn]; [|done|done]. exists (repeated 1 records). split; [done|]. split; [|by rewrite first_field_other by done].
    apply Hread; [done|done|apply all_fields_same|done].
  - apply ok_equal in E as <-. apply message_read in Hcat as [Hr Hn]; [|done|done]. exists (repeated 1 records). split; [done|].
    split; [apply Hread; [done|done|apply all_fields_same|done]|]. rewrite first_field_other by done. by destruct (default_binding s).
Qed.

(** ** A chat, and a request that is forwarded *)

Module GatewaySamples.
Definition settings : DevinSettings :=
  MkSettings true (lit "key") DEFAULT_DEVIN_API_PORT DEFAULT_DEVIN_INFERENCE_PORT DEFAULT_DEVIN_LOCAL_API_PORT (lit "https://server.codeium.com/")
    [MkBinding (lit "m") (lit "h") [] None true Standard [] None] (Some (lit "m")).
Definition surroundings : Surroundings :=
  MkSurroundings (Ok settings) (Ok []) (λ h, Ok (Some (MkConfig h ConfigurationSamples.normal 0 0))) (Ok ()) (λ _, Ok (MkIncoming 200 [] [1])) true
    (λ _, 0) [] (lit "token") (lit "uuid", lit "uuid").
Definition headers : list (str * list Z) := [(lit "authorization", lit "Bearer key"); (lit "accept", lit "*/*")].
Definition chat : GatewayRequest :=
  MkGatewayRequest (lit "POST") (lit "/exa.api_server_pb.ApiServerService/GetChatMessage") (lit "/") headers (Ok ChatSamples.payload).
Definition account : GatewayRequest :=
  MkGatewayRequest (lit "POST") (lit "/exa.seat_management_pb.SeatManagementService/GetUserStatus") (lit "/status?x=1") headers (Ok []).
Definition handle (r : GatewayRequest) : Looked * list Outgoing * Answer :=
  @handle_request Samples.stored Samples.tiny_json ChatSamples.letters surroundings r (0%nat, ∅).
Lemma lets_in r : gr_method r = lit "POST" → gr_headers r = headers → admitted surroundings r settings.
Proof. intros Hm Hh. unfold admitted. rewrite Hm, Hh. by split_and!. Qed.
End GatewaySamples.

Lemma devin_admission_witness : (∃ t' invocation state, GatewaySamples.handle GatewaySamples.chat = (t', [], Streaming invocation state (lit "m")) ∧
    bound GatewaySamples.surroundings GatewaySamples.settings invocation (lit "m")) ∧
  ∃ t' o, GatewaySamples.handle GatewaySamples.account = (t', [o], Relayed (MkIncoming 200 [] [1])) ∧ og_target o = lit "https://server.codeium.com/status?x=1" ∧
    og_headers o = [(lit "accept", lit "*/*")] ∧ ∀ h, h ∈ og_headers o → ¬ leaks (lit "key") h.
Proof.
  split.
  - assert (∃ t' invocation state, GatewaySamples.handle GatewaySamples.chat = (t', [], Streaming invocation state (lit "m"))) as (t' & invocation & state & E)
      by (eexists _, _, _; vm_compute; reflexivity).
    exists t', invocation, state. split; [exact E|].
    destruct (@devin_admission Samples.stored Samples.tiny_json ChatSamples.letters _ _ _ _ _ _ E) as [_ H].
    exact (proj1 (proj1 (H _ (GatewaySamples.lets_in GatewaySamples.chat eq_refl eq_refl)) _ _ _ eq_refl)).
  - assert (∃ t' o, GatewaySamples.handle GatewaySamples.account = (t', [o], Relayed (MkIncoming 200 [] [1])) ∧ og_target o = lit "https://server.codeium.com/status?x=1" ∧
      og_headers o = [(lit "accept", lit "*/*")]) as (t' & o & E & E1 & E2) by (eexists _, _; split; [vm_compute; reflexivity|]; split; vm_compute; reflexivity).
    exists t', o. split; [exact E|]. split; [exact E1|]. split; [exact E2|].
    destruct (@devin_admission Samples.stored Samples.tiny_json ChatSamples.letters _ _ _ _ _ _ E) as [_ H].
    destruct (H _ (GatewaySamples.lets_in GatewaySamples.account eq_refl eq_refl)) as (_ & Ho & _). intros h Hh. apply (Ho o ltac:(by left)). exact Hh.
Defined.
